(* ===== verification/_CoqProject ===== *)
-Q . S2P
Prelude.v
Strs.v
Floats.v
Message.v
TextToolCalls.v
Sanitize.v
ContextWindow.v
Compactor.v
TextLines.v
PatchFormat.v
WorkspaceSandbox.v
ApplyPatch.v
Taint.v
ShellExec.v
ReplyDirectives.v
SsrfGuard.v
AgentTypes.v
AgentRegistry.v
AgentQuota.v
ToolPolicy.v
Capability.v
Cooldown.v
LlmErrors.v
ProviderCall.v
LoopGuard.v
AuditChain.v
Approval.v
Workflow.v
Event.v
Triggers.v
Background.v
AgentLifecycle.v
Supervision.v
ChannelRouter.v
Rbac.v
Formatter.v
ChannelBridge.v
ChannelApprovals.v
Cron.v
SessionRepair.v
SessionRepairFacts.v
SessionRepairTheorems.v
Hooks.v
PromptBuilder.v
AgentLoop.v
AgentLoopFacts.v
AgentLoopTheorems.v
AgentLoopStreaming.v
Pairing.v
WireProtocol.v
ModelCatalog.v
ModelTables.v
Metering.v
ModelRouter.v
AgentMessages.v
Json.v
WasmHost.v
WasmSandbox.v
WasmAgents.v
Hands.v
SessionStore.v
StreamChunker.v
DockerSandbox.v
ProcessManager.v
ConfigLoad.v
ConfigReload.v
Sql.v
UsageStore.v
SemanticMemory.v
LoopMemory.v
TaskQueue.v
KnowledgeGraph.v
RuntimeServices.v
AgentStore.v
ToolSchema.v
DriverHttp.v
AnthropicDriver.v
OpenAIDriver.v
GeminiDriver.v
DriverFactory.v
