(* ===== verification/Prelude.v ===== *)
(** * A verification development for the OpenFang agent runtime

    OpenFang ([src/openfang/crates]) runs language-model agents. A kernel
    ([openfang-kernel]) keeps the agents with their capabilities and quotas,
    their background tasks, workflows, triggers and cron jobs. A runtime
    ([openfang-runtime]) answers one message with the agent loop: it recalls
    memories, builds the prompt, repairs and trims the conversation, calls the
    provider with retries, and runs the tools the model asks for behind a loop
    guard, hooks, the list of granted tools and human approval. Channels
    ([openfang-channels]) bring messages from chat services, check who sent
    them and choose the agent. [openfang-types] holds the shared data. This
    library models these decision-making parts as executable functions and
    proves what they promise to their callers.

    ** Files

    Paths below are [openfang-<crate>/src/<file>], written [<crate>/<file>].

    Foundations:
    - [Prelude] (this file): results, machine integers, vectors, the tactics
      [crush] and [split_match], the hint database [openfang], and lemmas on
      lists and maps the components share.
    - [Strs]: Rust strings as UTF-8 bytes, with the searches, slices and splits
      the code uses, and [safe_truncate_str] ([runtime/str_utils.rs]). Case
      mapping and [is_alphanumeric] follow Unicode tables and are the classes
      [UnicodeCase] and [UnicodeAlnum], of which the ASCII part is fixed.
    - [Floats]: IEEE 754 arithmetic and decimal literals over [SpecFloat].
    - [TextLines]: lines, joining and counting in texts.
    - [Json]: JSON values. [Sql]: what the stores use of SQL: the order of
      texts, [ORDER BY] with [LIMIT], and [LIKE].

    The conversation:
    - [Message]: messages and content blocks ([types/message.rs]).
    - [SessionRepair], [SessionRepairFacts], [SessionRepairTheorems]:
      [runtime/session_repair.rs]. [validate_and_repair_with_stats] is the
      composition of its phases as in the source; [prune_heartbeat_turns] is
      next to it.
    - [Sanitize]: [strip_tool_result_details] of the same file.
    - [ContextWindow]: [runtime/context_budget.rs] and [context_overflow.rs].
    - [Compactor]: [runtime/compactor.rs].

    The agent loop:
    - [TextToolCalls]: [recover_text_tool_calls] of [runtime/agent_loop.rs].
    - [ReplyDirectives]: [runtime/reply_directives.rs].
    - [Hooks]: [runtime/hooks.rs].
    - [PromptBuilder]: [runtime/prompt_builder.rs].
    - [Cooldown]: [runtime/auth_cooldown.rs], the provider circuit breaker;
      [step] and [run] are its operations as a transition system in time.
    - [LlmErrors]: [runtime/llm_errors.rs], the classifier of model errors.
    - [ProviderCall]: [call_with_retry] and [stream_with_retry] of
      [runtime/agent_loop.rs].
    - [LoopGuard]: [runtime/loop_guard.rs]; [run] is a sequence of calls on
      one guard with the verdicts given.
    - [AgentLoop]: [run_agent_loop] and [run_agent_loop_streaming] of
      [runtime/agent_loop.rs], each translated by itself, over all of the above, the data of
      [runtime/llm_driver.rs] and the entry of [execute_tool] of
      [runtime/tool_runner.rs]. A run is a computation in a monad [M] over the
      session and a trace of what was done; the model, the memory, the
      branches of the tools, approval and ids are the fields of a record
      [Environment], functions of the trace. [AgentLoopFacts] has the rules to
      reason about it and a concrete environment,
      [AgentLoopTheorems] and [AgentLoopStreaming] what is proved.

    Tools and their guards:
    - The end of [Strs] has the meaning of patterns with stars, the
      specification of two matchers. [ToolPolicy]: [runtime/tool_policy.rs].
    - [Approval]: [types/approval.rs] and [kernel/approval.rs], with
      [request_approval] of [kernel/kernel.rs], the gate of [execute_tool] and
      the timeout of the agent loop around it; [exec] is one step of one of
      the concurrent calls, [Run] their interleavings.
    - [PatchFormat], [ApplyPatch]: [runtime/apply_patch.rs] and the tool that
      uses it; [WorkspaceSandbox]: [runtime/workspace_sandbox.rs], over the
      class [FileSystem].
    - [Taint]: [types/taint.rs]. [ShellExec]: [runtime/subprocess_sandbox.rs],
      the policy of [types/config.rs] and the branch [shell_exec] of
      [runtime/tool_runner.rs].
    - [SsrfGuard]: [check_ssrf] of [runtime/web_fetch.rs].
    - [AuditChain]: [runtime/audit.rs], the hash chain.

    The kernel:
    - [AgentTypes]: [types/agent.rs]. [AgentRegistry]: [kernel/registry.rs].
      [AgentQuota]: [kernel/scheduler.rs].
    - [Capability]: [types/capability.rs] and [kernel/capabilities.rs].
    - [Background]: [kernel/background.rs]. [Supervision]:
      [kernel/heartbeat.rs] and [kernel/supervisor.rs].
    - [AgentLifecycle]: spawning and killing agents and their tools in
      [kernel/kernel.rs], [kernel/event_bus.rs] and the names of MCP tools of
      [runtime/mcp.rs].
    - [Workflow]: [kernel/workflow.rs]; [Exec] is the state of [execute_run],
      [run_steps] its loop over the steps.
    - [Event]: [types/event.rs] and [describe_event] of [kernel/triggers.rs];
      [Triggers]: the rest of that file.
    - [Cron]: [types/scheduler.rs] and [kernel/cron.rs].
    - [ModelCatalog]: the operations of [runtime/model_catalog.rs];
      [ModelTables]: its tables. [ModelRouter]: [runtime/routing.rs],
      [runtime/drivers/fallback.rs] and [resolve_driver] of
      [kernel/kernel.rs]. [Metering]: [kernel/metering.rs].
    - [AgentMessages]: [send_message_with_handle] and [execute_llm_agent] of
      [kernel/kernel.rs], the composition of the agent loop with the parts of
      the kernel. What it asks of the memory, the disk, the skills and the MCP
      servers is the record [Services].
    - [Pairing]: [kernel/pairing.rs], as functions and as calls that advance
      by one access at a time.
    - [WasmHost]: [runtime/host_functions.rs]. [WasmSandbox]:
      [runtime/sandbox.rs]; a function of a module is a tree of what it does
      between its calls of the host. [WasmAgents]: [execute_wasm_agent] of
      [kernel/kernel.rs].
    - [Hands]: [hands/lib.rs], [hands/registry.rs] and the hands of
      [kernel/kernel.rs].
    - [ConfigLoad]: [kernel/config.rs]. [ConfigReload]:
      [kernel/config_reload.rs] and [reload_config] of [kernel/kernel.rs].
    - [DockerSandbox]: [runtime/docker_sandbox.rs] and the tool [docker_exec], with
      the timeout of the agent loop that can drop it.
      [ProcessManager]: [runtime/process_manager.rs] and the tools for
      processes.
    - [StreamChunker]: [api/stream_chunker.rs] and [api/stream_dedup.rs].

    The memory crate (tables are lists of rows, or maps from a key):
    - [SessionStore]: [memory/session.rs], tables as maps.
    - [UsageStore]: [memory/usage.rs], times as the texts that are compared.
      [AgentStore]: [memory/structured.rs] and the restoring of agents when
      the kernel of [kernel/kernel.rs] boots.
    - [SemanticMemory]: [memory/semantic.rs] and [memory/consolidation.rs].
      [LoopMemory]: the calls of the agent loop to it, as a [recall] of an
      [Environment] of [AgentLoop].
    - [TaskQueue]: the tasks of [memory/substrate.rs] and the tools for them.
      [KnowledgeGraph]: [memory/knowledge.rs] and the tools for it.

    Drivers of the models:
    - [DriverHttp]: how a body that arrives in chunks is decoded and cut into
      events, and the attempts of a call.
    - [AnthropicDriver], [OpenAIDriver], [GeminiDriver]:
      [runtime/drivers/anthropic.rs], [openai.rs] and [gemini.rs], the
      requests, the responses and the streams; the server is a parameter.
    - [ToolSchema]: [types/tool.rs]. [DriverFactory]: [runtime/drivers/mod.rs]
      and [copilot.rs].

    Around the runtime:
    - [RuntimeServices], one module each: [Retry] ([runtime/retry.rs]),
      [WebCache] ([runtime/web_cache.rs], with its operations also as steps of
      threads), [LinkUnderstanding] ([runtime/link_understanding.rs]) and
      [AutoReply] ([kernel/auto_reply.rs]).

    Channels:
    - [ChannelRouter]: [channels/router.rs]. [Rbac]: [kernel/auth.rs].
      [Formatter]: [channels/formatter.rs].
    - [ChannelBridge]: [channels/bridge.rs]. [ChannelApprovals]: the methods of
      [api/channel_bridge.rs] through which a channel reaches the permissions
      and the approvals.

    Other nodes:
    - [WireProtocol]: [wire/registry.rs] (its module [PeerRegistry]),
      [wire/message.rs] and [wire/peer.rs], a connection as a computation over the registry, the
      bytes not read yet, the messages sent and the calls to the kernel.

    ** Interfaces

    Components meet at classes that the one proves against and the other
    implements: [Breaker] (what a provider call needs of the circuit breaker;
    [cooldown_breaker]), [FileSystem] (what the sandbox and the patches need of
    the disk), [LabelOrder] (the order in which a set of labels is visited),
    [AgentComponent] (what the kernel needs of a component when an agent ends;
    one instance per component), [JsonText] (the JSON printer and parser),
    [SqlOrder] and [SortBy] (what the engine and the standard library promise
    of sorting; [insertion_order] and [insertion_sorting]), [ChannelBridgeHandle] (the kernel as the
    channels see it; [ChannelApprovals] gives an instance). The agent loop
    meets the outside in the record [Environment].

    ** What the theorems show

    - Agent loop: the session after a run in every case it can end, every
      tool use answered except when the circuit breaks, and what was saved
      last; a tool is run only if it is granted, no hook refuses it and it is
      approved where the policy wants that; the number of requests and tool
      runs of a run; and that the two functions for a run, with and without
      streaming, which are two bodies in the model too, do the same but for
      the events sent to the channel, wherever the surroundings do not depend
      on the mode. The session is as it should be for drivers whose tool calls
      are those of the content, which the recovery of Groq's calls breaks.
    - Session repair: a repaired history alternates roles, every tool use is
      answered in the next message by exactly one result, results are genuine
      or the documented synthetic ones, no tool use is lost, and repair is
      idempotent.
    - Context: what the guard and the recovery leave of a history, the bounds
      they reach, the totality of compaction.
    - Text calls, directives, prompt, hooks: the round trip of calls written
      as text, the agreement of chunked and whole parsing of directives, the
      grouping of tools, the first refusal of a hook wins.
    - Tool policy and capabilities: resolution is deny-wins exactly as
      documented, the policy's glob matcher is the glob relation, the
      capability matcher is sound for it and exact on patterns with one star,
      and a validated child never gets more than its parent, provided the
      parent's patterns have at most one star; with two stars it can.
    - Circuit breaker: verdicts agree with the circuit state, failures reject
      until the cooldown has passed and not longer, the floating-point backoff
      is exact; with probing on and probes unreported nothing is ever rejected,
      and the periodic clean-up never removes anything.
    - Provider calls: the exact number of requests, delays and reports of a
      call, what later calls see for any breaker that keeps the interface, the
      delay read from a message, and the status code that is not passed on.
    - Audit: recorded logs verify and only grow; what verifies with the same
      tip is the recorded log up to field boundaries, unless the digest has a
      collision; prefixes and shifted field boundaries are not noticed.
    - Approval: in every interleaving a tool that needs approval runs only with
      it, the pending map is exact, and drained but for the calls that the
      tool timeout dropped, resolutions are final, calls that were not dropped
      can always return, and the limit per agent holds as far as calls do not
      overlap.
    - Loop guard: the breaker and the thresholds are exact over whole runs,
      repeated outcomes block, cycles are detected exactly, and with the
      default thresholds the cycle detector never gets to decide.
    - Patches and files: printing and parsing a patch are inverse, a patch
      changes only files inside the workspace, the sandbox resolves exactly
      the paths inside it.
    - Shell and fetching: when a command is run, what the allowlist accepts,
      what the guard of addresses lets through, and the URLs that pass by it.
    - Agents: the registry refines a table without indexes, quotas bound the
      tokens of an hour by the limit and the runs that overlap, killing forgets
      an agent everywhere but among its parent's children, background
      loops share their permits.
    - Workflows: the outcome of a run against its recorded state, with the
      cases in which a run is left running, bounds on the messages sent, retry
      behaviour, and the retention policy.
    - Triggers and cron: the index and the limits as invariants of all
      reachable states, exact firing, auto-disabling, the save/load round trip,
      and the inputs on which slicing a string panics.
    - Channels: a sender without permission reaches no agent with a message,
      but approves tools with a command; routing follows its priorities; the
      rate limit holds in every minute.
    - Messages to agents: after any spawns, kills and messages, a tool is run
      for a message only if the agent is granted it and its mode allows it;
      what a message leaves in the quota, the audit log, the supervisor and
      the registry, whatever its tools and others do there meanwhile.
    - Models: the catalogue stays consistent and its tables are, except for
      one model; more work never routes to a simpler tier; the first driver
      that decides answers; limits on cost allow exactly what is below them.
    - Pairing: in every interleaving devices are paired with a live token
      only; the limit on tokens, the agreement with the database and the use
      of a token once hold as far as calls do not overlap.
    - Wire: frames are read back; without a valid handshake nothing changes;
      two nodes with one secret register each other; a handshake can be
      replayed under another name; broadcasts are refused by every peer.
    - WASM: whatever its module does, an agent gets the host to do only what
      its manifest grants, as far as the host of a URL is read rightly, and
      never to touch files or variables; when watchdogs stop a module.
    - Hands: a hand is active once, unless resumed; a failed activation blocks
      the next ones.
    - Stored sessions: what is saved is read back; a canonical session keeps
      its last messages and a bounded summary, and is stuck by a long message
      without a character boundary at the cut.
    - Stored usage and agents: a limit per hour is one per day, because times
      are compared as texts; what is read back of an agent and of its values;
      a restart lifts the restrictions of every agent.
    - Configuration: includes stay below their directory, none is read twice,
      merging is by path and the root file wins; what a reload applies, and
      that taking a change back is not noticed.
    - Retry, containers, processes, streams: a retry returns after the attempt
      that decides; a container is removed when the tool returns, and stays
      when it panics or is dropped before, or when the start failed; the limits
      on processes and lines; chunks are the text in order, up to fences.
    - Memories: a recall returns what it should, most recent or most similar
      first; a forgotten memory never comes back; an agent is prompted with
      memories of its own only; what consolidation changes.
    - Tasks and graph: no task is handed out twice, claims take the urgent and
      the old ones first and empty the queue; a query finds exactly the
      relations that fit, and relations by name are never found.
    - Drivers: with each API a streaming call returns what a call without a
      stream returns, however the stream is cut, with the differences there
      are; every tool call that is sent is answered in what follows; which
      errors of a stream are lost; to whom keys are sent.
    - Web cache, links, automatic replies: no stale value is returned, in any
      interleaving, and removing old ones changes no answer; the links an
      agent is told of; the limit on replies at a time.

    ** Conventions and bounds

    Unsigned integers are [Z] with their width written out where an operation
    can leave it; [u32] and [u64] additions wrap as in a release build.
    Theorems about counters assume that fewer than [2^32] operations were made.
    Panics are [None]. Errors are [result] values. Maps with an unspecified
    iteration order ([HashMap], [DashMap]) are [gmap]s; where the order can be
    seen it is a parameter assumed to be a permutation of the entries. Loops
    are structural, or counted by the bound the source loops to
    ([AgentLoop.run_loop] by the number of rounds). Fuel is the length of the
    text or list a loop consumes, each shown to be enough:
    [Workflow.run_steps] ([run_steps_fuel_enough]), [Formatter.rewrite_loop]
    ([rewrite_loop_unfold]), [TextToolCalls.scan_from] ([scan_fuel]),
    [DriverHttp.lossy] ([lossy_fuel]), [DriverHttp.cut] ([cut_fuels]), and the
    loops of [Strs], [Compactor], [PatchFormat], [ShellExec] and [OpenAIDriver] over the rest
    of their input. [ConfigLoad.resolve_from] has eleven levels, of which the
    source allows ten ([include_fuel_enough]); [Cooldown.powi] has 32 rounds, the digits of an [i32].
    Clocks, random ids, digests, JSON, the model and the agents are
    parameters. The operations of one component are atomic, except in
    [Approval], [Background], [Pairing] and the web cache, where the single
    accesses of concurrent calls interleave; the runs of agents are split at
    the check and at the bookkeeping in [AgentQuota] and [AgentMessages], where
    other messages, spawns and kills come in between. A call in [ProviderCall]
    has the breaker to itself, and a run of the agent loop its session.

    ** Not modelled

    Network, file and process access; the
    branches of single tools other than [apply_patch], [shell_exec],
    [docker_exec] and those for processes, tasks and the knowledge graph; the
    HTTP and terminal interfaces; the channel adapters; installers, importers and the
    desktop; and the AlloyStack library OS next to OpenFang, which is unsafe
    systems code. Neither is the streaming path of the kernel
    ([send_message_streaming]). *)

From Stdlib Require Import ZArith Lia.
From stdpp Require Import base gmap list sorting.

(** ** Results

    Rust's [Result<T, E>], with the binder for the [?] operator in a scope of
    its own. *)

Inductive result (T E : Type) : Type :=
| Ok (t : T)
| Err (e : E).

Arguments Ok {T E} t.
Arguments Err {T E} e.

Declare Scope result_scope.
Delimit Scope result_scope with result.

Notation "'let?' x ':=' r 'in' k" :=
  (match r with Ok x => k | Err e => Err e end)
  (at level 10, x pattern, r at level 100, k at level 200) : result_scope.

Definition is_ok {T E} (r : result T E) : bool :=
  match r with Ok _ => true | Err _ => false end.

(** ** Machine integers

    Unsigned integers are kept as [Z] with the width written out at the
    operations that can leave it. *)

Definition u32_max : Z := 4294967295.
Definition u64_max : Z := 18446744073709551615.

Definition in_u32 (x : Z) : Prop := (0 ≤ x ≤ u32_max)%Z.
Definition in_u64 (x : Z) : Prop := (0 ≤ x ≤ u64_max)%Z.

(** [+] on a [u32] or [u64] in a release build: the carry is dropped. *)
Definition wrapping_add_u32 (x y : Z) : Z := ((x + y) mod (u32_max + 1))%Z.
Definition wrapping_add_u64 (x y : Z) : Z := ((x + y) mod (u64_max + 1))%Z.
Definition wrapping_mul_u32 (x y : Z) : Z := ((x * y) mod (u32_max + 1))%Z.

(** [saturating_add] and [saturating_sub]. *)
Definition saturating_add_u32 (x y : Z) : Z := Z.min (x + y) u32_max.
Definition saturating_add_u64 (x y : Z) : Z := Z.min (x + y) u64_max.
Definition saturating_sub (x y : Z) : Z := Z.max (x - y) 0.

Lemma wrapping_add_u32_small x y :
  (0 ≤ x)%Z → (0 ≤ y)%Z → (x + y ≤ u32_max)%Z → wrapping_add_u32 x y = (x + y)%Z.
Proof. intros. unfold wrapping_add_u32. apply Z.mod_small. lia. Qed.

(** ** Vectors

    [Vec::insert] at an index that is at most the length, and [enumerate]. *)

Definition vec_insert {A} (i : nat) (x : A) (l : list A) : list A :=
  take i l ++ x :: drop i l.

Definition enumerate {A} (l : list A) : list (nat * A) := imap pair l.

(** The map from a key to the index of the last element that has it, and the
    map from a key to the values filed under it, in order. The first is what a
    loop over [iter().enumerate()] with [insert] builds, the second a loop with
    [entry(k).or_default().push(v)]. *)

Section indexing.
Context {A K V : Type} `{Countable K}.

Definition last_index (keys : A → list K) (l : list A) : gmap K nat :=
  foldl (λ acc p, foldl (λ m k, <[k := p.1]> m) acc (keys p.2)) ∅ (enumerate l).

Definition group_by (key : A → K) (val : A → V) (l : list A) : gmap K (list V) :=
  foldl (λ m e, <[key e := default [] (m !! key e) ++ [val e]]> m) ∅ l.
End indexing.

(** [sort_by_key], which is stable: an element goes before the first one with
    a larger key. *)
Section sorting.
Context {A : Type} (key : A → Z).

Fixpoint insert_by_key (x : A) (l : list A) : list A :=
  match l with
  | [] => [x]
  | y :: l' => if (key x <=? key y)%Z then x :: l else y :: insert_by_key x l'
  end.

Definition sort_by_key (l : list A) : list A := foldr insert_by_key [] l.
End sorting.

(** ** Tactics *)

(** Splits every conjunction, existential and pair equation of the context,
    and closes what is left by congruence or arithmetic. *)
Ltac crush :=
  repeat match goal with
  | H : _ ∧ _ |- _ => destruct H
  | H : ∃ _, _ |- _ => destruct H
  | H : _ * _ |- _ => destruct H
  end; simplify_eq/=; try done; try lia; eauto.

(** Case analysis on the innermost [match] of the goal or of a hypothesis. *)
Ltac split_match :=
  match goal with
  | |- context [match ?x with _ => _ end] =>
      lazymatch x with context [match _ with _ => _ end] => fail | _ => destruct x eqn:? end
  | H : context [match ?x with _ => _ end] |- _ =>
      lazymatch x with context [match _ with _ => _ end] => fail | _ => destruct x eqn:? end
  end; simplify_eq/=.

Create HintDb openfang.
Create Rewrite HintDb openfang.

(** ** Generic lemmas *)

Section lists.
Context {A B : Type}.
Implicit Types l : list A.

Lemma lookup_vec_insert_lt l i j x :
  j < i → i ≤ length l → vec_insert i x l !! j = l !! j.
Proof.
  intros ??. unfold vec_insert. rewrite lookup_app_l by (rewrite length_take; lia).
  by rewrite lookup_take_lt.
Qed.

Lemma lookup_vec_insert_eq l i x :
  i ≤ length l → vec_insert i x l !! i = Some x.
Proof.
  intros ?. unfold vec_insert. rewrite lookup_app_r by (rewrite length_take; lia).
  rewrite length_take. by replace (i - i `min` length l) with 0 by lia.
Qed.

Lemma lookup_vec_insert_gt l i j x :
  i < j → i ≤ length l → vec_insert i x l !! j = l !! pred j.
Proof.
  intros ??. unfold vec_insert. rewrite lookup_app_r by (rewrite length_take; lia).
  rewrite length_take.
  replace (j - i `min` length l) with (S (pred j - i)) by lia. simpl.
  rewrite lookup_drop. f_equal. lia.
Qed.

Lemma length_vec_insert l i x : length (vec_insert i x l) = S (length l).
Proof.
  unfold vec_insert. rewrite length_app, length_take. simpl.
  rewrite length_drop. lia.
Qed.

Lemma elem_of_vec_insert l i x y : y ∈ vec_insert i x l ↔ y = x ∨ y ∈ l.
Proof.
  unfold vec_insert. rewrite elem_of_app, elem_of_cons.
  rewrite <-(take_drop i l) at 3. rewrite elem_of_app. tauto.
Qed.

Lemma lookup_enumerate l i : enumerate l !! i = pair i <$> l !! i.
Proof. apply list_lookup_imap. Qed.

Lemma elem_of_enumerate l i x : (i, x) ∈ enumerate l ↔ l !! i = Some x.
Proof.
  unfold enumerate. rewrite elem_of_lookup_imap.
  split; [by intros (? & ? & [= -> ->] & ?)|eauto].
Qed.

Lemma take_lookup_agree (l l' : list A) n :
  (∀ j, j < n → l !! j = l' !! j) → take n l = take n l'.
Proof.
  intros H. apply list_eq. intros j. destruct (decide (j < n)).
  - rewrite !lookup_take_lt by done. auto.
  - rewrite !lookup_take_ge by lia. done.
Qed.
End lists.

Lemma omap_cons {A B} (f : A → option B) x l : omap f (x :: l) = option_list (f x) ++ omap f l.
Proof. simpl. by destruct (f x). Qed.

Lemma elem_of_List_filter {A} (f : A → bool) (l : list A) x :
  x ∈ List.filter f l ↔ x ∈ l ∧ f x = true.
Proof. by rewrite !list_elem_of_In, List.filter_In. Qed.

Lemma length_List_filter_perm {A} (f : A → bool) (l l' : list A) :
  l ≡ₚ l' → length (List.filter f l) = length (List.filter f l').
Proof. induction 1; simpl; repeat case_match; simpl; congruence. Qed.

Lemma enumerate_snoc {A} (l : list A) x : enumerate (l ++ [x]) = enumerate l ++ [(length l, x)].
Proof. unfold enumerate. rewrite imap_app. simpl. by rewrite Nat.add_0_r. Qed.

Lemma lookup_foldl_insert `{Countable K} {V} (v : V) (ks : list K) (m : gmap K V) k :
  foldl (λ m k, <[k := v]> m) m ks !! k = if decide (k ∈ ks) then Some v else m !! k.
Proof.
  revert m. induction ks as [|k' ks IH]; intros m; simpl; [done|].
  rewrite IH. destruct (decide (k = k')) as [->|Hne].
  - rewrite lookup_insert_eq. repeat case_decide; set_solver.
  - rewrite lookup_insert_ne by done. repeat case_decide; set_solver.
Qed.

(** A loop that removes keys. *)
Lemma lookup_foldl_delete `{Countable K} {V} (ks : list K) (m : gmap K V) k :
  foldl (λ m k, delete k m) m ks !! k = if decide (k ∈ ks) then None else m !! k.
Proof.
  revert m. induction ks as [|i ks IH]; intros m; [done|]. cbn [foldl]. rewrite IH.
  destruct (decide (k = i)) as [->|Hne].
  - rewrite lookup_delete_eq, (decide_True (P := i ∈ i :: _)) by (by left). by case_decide.
  - rewrite lookup_delete_ne by done. destruct (decide (k ∈ ks)) as [Hin|Hin].
    + by rewrite decide_True by (by right).
    + rewrite decide_False; [done|]. by intros [?|?]%elem_of_cons.
Qed.

Section indexing_lemmas.
Context {A K V : Type} `{Countable K}.
Implicit Types (l : list A) (k : K).

Lemma last_index_snoc (keys : A → list K) l x k :
  last_index keys (l ++ [x]) !! k =
  if decide (k ∈ keys x) then Some (length l) else last_index keys l !! k.
Proof.
  unfold last_index. rewrite enumerate_snoc, foldl_app. simpl.
  by rewrite lookup_foldl_insert.
Qed.

Lemma last_index_Some (keys : A → list K) l k i :
  last_index keys l !! k = Some i → ∃ x, l !! i = Some x ∧ k ∈ keys x.
Proof.
  induction l as [|x l IH] using rev_ind; [done|].
  rewrite last_index_snoc. case_decide.
  - intros [= <-]. exists x. split; [|done]. by rewrite lookup_app_r, Nat.sub_diag by lia.
  - intros (y & Hy & ?)%IH. exists y. split; [|done].
    rewrite lookup_app_l; [done|]. by apply lookup_lt_Some in Hy.
Qed.

Lemma last_index_elem (keys : A → list K) l k i x :
  l !! i = Some x → k ∈ keys x → ∃ j, last_index keys l !! k = Some j ∧ i ≤ j.
Proof.
  induction l as [|y l IH] using rev_ind; [done|].
  intros Hi Hk. rewrite last_index_snoc.
  pose proof (lookup_lt_Some _ _ _ Hi) as Hlt. rewrite length_app in Hlt. simpl in Hlt.
  case_decide; [exists (length l); split; [done|lia]|].
  destruct (decide (i = length l)) as [->|].
  - rewrite lookup_app_r, Nat.sub_diag in Hi by lia. simplify_eq/=. done.
  - rewrite lookup_app_l in Hi by lia. auto.
Qed.

Lemma group_by_lookup (key : A → K) (val : A → V) l k :
  group_by key val l !! k =
  match val <$> filter (λ e, key e = k) l with [] => None | vs => Some vs end.
Proof.
  induction l as [|x l IH] using rev_ind; [done|].
  unfold group_by in *. rewrite foldl_app, filter_app, fmap_app. simpl.
  rewrite filter_cons, filter_nil.
  destruct (decide (key x = k)) as [<-|Hne].
  - rewrite lookup_insert_eq, IH. simpl.
    by destruct (val <$> filter (λ e, key e = key x) l).
  - rewrite lookup_insert_ne, IH by done. simpl. by rewrite app_nil_r.
Qed.

Lemma group_by_elem (key : A → K) (val : A → V) l k vs v :
  group_by key val l !! k = Some vs → v ∈ vs ↔ ∃ e, e ∈ l ∧ key e = k ∧ val e = v.
Proof.
  rewrite group_by_lookup. intros Hvs.
  assert (vs = val <$> filter (λ e, key e = k) l) as ->
    by (destruct (val <$> filter (λ e, key e = k) l); congruence).
  rewrite list_elem_of_fmap. setoid_rewrite list_elem_of_filter. naive_solver.
Qed.

Lemma group_by_is_Some (key : A → K) (val : A → V) l e :
  e ∈ l → is_Some (group_by key val l !! key e).
Proof.
  intros He. rewrite group_by_lookup.
  destruct (val <$> filter (λ e', key e' = key e) l) eqn:E; [|eauto].
  apply fmap_nil_inv in E. exfalso.
  eapply (not_elem_of_nil e). rewrite <-E. by apply list_elem_of_filter.
Qed.
End indexing_lemmas.

(** ** Positions in a filtered list

    [rank f l k] is the position that element [k] of [l] has in the filtered
    list, when it is kept. *)

Definition rank {A} (f : A → bool) (l : list A) (k : nat) : nat :=
  length (List.filter f (take k l)).

Section rank.
Context {A : Type} (f : A → bool).
Implicit Types (l : list A) (x : A).

Lemma rank_S l k x : l !! k = Some x → rank f l (S k) = rank f l k + if f x then 1 else 0.
Proof.
  intros Hx. unfold rank. rewrite (take_S_r _ _ _ Hx), List.filter_app, length_app. simpl.
  by destruct (f x).
Qed.

Lemma rank_le l k k' : k ≤ k' → rank f l k ≤ rank f l k'.
Proof.
  intros Hle. unfold rank. replace k' with (k + (k' - k)) by lia.
  rewrite <-take_take_drop, List.filter_app, length_app. lia.
Qed.

Lemma rank_lt l k k' x : l !! k = Some x → f x = true → k < k' → rank f l k < rank f l k'.
Proof.
  intros Hx Hf Hlt. pose proof (rank_S _ _ _ Hx) as E. rewrite Hf in E.
  pose proof (rank_le l (S k) k'). lia.
Qed.

Lemma filter_lookup_rank l k x :
  l !! k = Some x → f x = true → List.filter f l !! rank f l k = Some x.
Proof.
  intros Hx Hf. unfold rank. pose proof (take_drop_middle l k x Hx) as Hl.
  remember (take k l) as a. rewrite <-Hl, List.filter_app. simpl.
  by rewrite Hf, lookup_app_r, Nat.sub_diag by lia.
Qed.

Lemma filter_lookup_inv l c x :
  List.filter f l !! c = Some x → ∃ k, l !! k = Some x ∧ f x = true ∧ rank f l k = c.
Proof.
  induction l as [|y l IH] using rev_ind; [done|].
  rewrite List.filter_app. simpl. intros Hc.
  assert (∀ k, k ≤ length l → rank f (l ++ [y]) k = rank f l k) as Hrank.
  { intros k Hk. unfold rank. by rewrite take_app_le. }
  destruct (decide (c < length (List.filter f l))) as [Hlt|Hge].
  - rewrite lookup_app_l in Hc by done. destruct (IH Hc) as (k & Hk & Hf & <-).
    pose proof (lookup_lt_Some _ _ _ Hk). exists k. rewrite lookup_app_l by done.
    by rewrite Hrank by lia.
  - rewrite lookup_app_r in Hc by lia. destruct (f y) eqn:E; [|done].
    destruct (c - _) eqn:Hd; simplify_eq/=.
    exists (length l). rewrite lookup_app_r, Nat.sub_diag by lia. split; [done|]. split; [done|].
    rewrite Hrank by lia. unfold rank. rewrite take_ge by lia. lia.
Qed.
End rank.

(** ** Sorting by a key *)

Section sorting_lemmas.
Context {A : Type} (key : A → Z).

Lemma insert_by_key_perm x l : insert_by_key key x l ≡ₚ x :: l.
Proof. induction l as [|y l IH]; simpl; [done|]. case_match; [done|]. rewrite IH. constructor. Qed.

Lemma sort_by_key_perm l : sort_by_key key l ≡ₚ l.
Proof. induction l as [|x l IH]; simpl; [done|]. by rewrite insert_by_key_perm, IH. Qed.

Lemma insert_by_key_sorted x l :
  StronglySorted (λ a b, key a ≤ key b)%Z l →
  StronglySorted (λ a b, key a ≤ key b)%Z (insert_by_key key x l).
Proof.
  induction 1 as [|y l Hl IH Hy]; simpl; [repeat constructor|].
  destruct (Z.leb_spec (key x) (key y)).
  - constructor; [by constructor|]. constructor; [done|].
    eapply Forall_impl; [exact Hy|]. simpl. lia.
  - constructor; [done|]. rewrite insert_by_key_perm. constructor; [lia|done].
Qed.

Lemma sort_by_key_sorted l : StronglySorted (λ a b, key a ≤ key b)%Z (sort_by_key key l).
Proof. induction l; simpl; [constructor|]. by apply insert_by_key_sorted. Qed.
End sorting_lemmas.
