(* ===== verification/Strs.v ===== *)
(** * Rust strings

    A [&str] or [String] is the list of its UTF-8 bytes, so that [len], the
    comparison operators, the searches and the slices are those of Rust.
    [chars] groups the bytes into code points (a continuation byte,
    [0b10xxxxxx], belongs to the code point before it), [trim] strips the
    code points with the Unicode property White_Space, and the case mapping,
    whose tables are not part of the program, is the class [UnicodeCase]. *)

From Stdlib Require Import Ascii ZArith Lia.
From stdpp Require Import base gmap strings list pretty.
From S2P Require Import Prelude.

Abbreviation str := (list ascii).

Definition lit (s : string) : str := String.list_ascii_of_string s.
Arguments lit s%_string_scope.

Definition newline : ascii := ascii_of_nat 10.
Definition carriage_return : ascii := ascii_of_nat 13.

(** ** Predicates and searches *)

Definition is_empty (s : str) : bool :=
  match s with [] => true | _ :: _ => false end.

Definition str_eqb (s t : str) : bool := bool_decide (s = t).

Definition starts_with (s p : str) : bool := bool_decide (p `prefix_of` s).

Definition ends_with (s p : str) : bool := bool_decide (p `suffix_of` s).

(** [s.find(p)]: the byte offset of the first occurrence. *)
Fixpoint find (s p : str) : option nat :=
  if starts_with s p then Some 0
  else match s with
       | [] => None
       | _ :: s' => S <$> find s' p
       end.

Definition contains (s p : str) : bool := bool_decide (is_Some (find s p)).

(** [s.strip_prefix(p)] *)
Definition strip_prefix (s p : str) : option str :=
  if starts_with s p then Some (drop (length p) s) else None.

(** [strip_prefix] and [strip_suffix] with a one-byte [char]. *)
Definition strip_prefix_char (s : str) (c : ascii) : option str :=
  match s with
  | d :: s' => if decide (d = c) then Some s' else None
  | [] => None
  end.

Definition strip_suffix_char (s : str) (c : ascii) : option str :=
  match last s with
  | Some d => if decide (d = c) then Some (take (length s - 1) s) else None
  | None => None
  end.

(** [s.split(c)] for a one-byte [char]: always at least one part. *)
Fixpoint split (s : str) (c : ascii) : list str :=
  match s with
  | [] => [[]]
  | d :: s' =>
      if decide (d = c) then [] :: split s' c
      else match split s' c with
           | [] => [[d]]
           | part :: parts => (d :: part) :: parts
           end
  end.

(** [s.replace(from, to)] for a non-empty [from]: matches are taken from the
    left and do not overlap. [skip] counts the bytes of a match still to be
    dropped. *)
Fixpoint replace_from (skip : nat) (s from to : str) : str :=
  match s with
  | [] => []
  | c :: s' =>
      match skip with
      | S n => replace_from n s' from to
      | 0 => if starts_with s from
             then to ++ replace_from (length from - 1) s' from to
             else c :: replace_from 0 s' from to
      end
  end.

Definition replace (s from to : str) : str := replace_from 0 s from to.

(** [parts.join(sep)]. *)
Fixpoint join (parts : list str) (sep : str) : str :=
  match parts with
  | [] => []
  | [p] => p
  | p :: ps => p ++ sep ++ join ps sep
  end.

(** Formatting of unsigned integers. *)
Definition show_nat (n : nat) : str := lit (pretty (N.of_nat n)).
Definition show_Z (n : Z) : str := lit (pretty (Z.to_N n)).

(** ** Code points *)

Definition is_continuation (c : ascii) : bool :=
  bool_decide (128 ≤ nat_of_ascii c ∧ nat_of_ascii c < 192).

Definition joins_previous (s : str) : bool :=
  match s with [] => false | d :: _ => is_continuation d end.

Fixpoint chars (s : str) : list str :=
  match s with
  | [] => []
  | c :: s' =>
      match chars s' with
      | [] => [[c]]
      | h :: t => if joins_previous s' then (c :: h) :: t else [c] :: h :: t
      end
  end.

(** [s.is_char_boundary(i)]. *)
Definition is_char_boundary (s : str) (i : nat) : bool :=
  if i =? 0 then true
  else if i =? length s then true
  else match s !! i with Some c => negb (is_continuation c) | None => false end.

(** [&s[..n]]: a panic, [None], unless [n] is a character boundary. *)
Definition slice_to (s : str) (n : nat) : option str :=
  if is_char_boundary s n then Some (take n s) else None.

(** [&s[a..b]] and [&s[a..]]. *)
Definition slice (s : str) (a b : nat) : option str :=
  if (a <=? b) && (b <=? length s) && is_char_boundary s a && is_char_boundary s b
  then Some (take (b - a) (drop a s)) else None.

Definition slice_from (s : str) (a : nat) : option str := slice s a (length s).

(** [safe_truncate_str] of [openfang-runtime/src/str_utils.rs]: the longest
    prefix of at most [max_bytes] bytes that ends at a code point. *)
Fixpoint truncate_end (s : str) (e : nat) : nat :=
  match e with
  | 0 => 0
  | S e' => if is_char_boundary s e then e else truncate_end s e'
  end.

Definition safe_truncate_str (s : str) (max_bytes : nat) : str :=
  if length s <=? max_bytes then s else take (truncate_end s max_bytes) s.

Definition bytes (l : list nat) : str := ascii_of_nat <$> l.

(** The 25 code points with the White_Space property, as UTF-8. *)
Definition whitespace_chars : list str :=
  bytes <$>
  [ [9]; [10]; [11]; [12]; [13]; [32]; [194; 133]; [194; 160]; [225; 154; 128];
    [226; 128; 128]; [226; 128; 129]; [226; 128; 130]; [226; 128; 131];
    [226; 128; 132]; [226; 128; 133]; [226; 128; 134]; [226; 128; 135];
    [226; 128; 136]; [226; 128; 137]; [226; 128; 138]; [226; 128; 168];
    [226; 128; 169]; [226; 128; 175]; [226; 129; 159]; [227; 128; 128] ].

Definition is_whitespace (c : str) : bool := bool_decide (c ∈ whitespace_chars).

Fixpoint drop_while {A} (f : A → bool) (l : list A) : list A :=
  match l with
  | [] => []
  | x :: l' => if f x then drop_while f l' else l
  end.

Definition trim (s : str) : str :=
  concat (reverse (drop_while is_whitespace
    (reverse (drop_while is_whitespace (chars s))))).

(** [s.split_whitespace()]: the maximal runs of code points that are not
    white space; [cur] is the run being read. *)
Fixpoint words_from (cur : str) (cs : list str) : list str :=
  match cs with
  | [] => if is_empty cur then [] else [cur]
  | c :: cs' =>
      if is_whitespace c
      then if is_empty cur then words_from [] cs' else cur :: words_from [] cs'
      else words_from (cur ++ c) cs'
  end.

Definition split_whitespace (s : str) : list str := words_from [] (chars s).

(** [char::is_alphanumeric] follows the Unicode tables; its value on ASCII
    characters is fixed. *)
Definition ascii_digit (c : ascii) : bool :=
  let n := nat_of_ascii c in (48 <=? n) && (n <=? 57).

Definition digit_value (c : ascii) : Z := Z.of_nat (nat_of_ascii c) - 48.

Definition digits_value (ds : str) : Z :=
  foldl (λ acc c, (acc * 10 + digit_value c)%Z) 0%Z ds.

(** [s.parse] for an unsigned type with the given maximum: digits, after a plus
    sign if there is one. *)
Definition parse_unsigned (max : Z) (s : str) : option Z :=
  let ds := default s (strip_prefix_char s "+"%char) in
  if is_empty ds || negb (forallb ascii_digit ds) then None
  else if (digits_value ds <=? max)%Z then Some (digits_value ds) else None.

Definition ascii_alphanumeric (c : ascii) : bool :=
  let n := nat_of_ascii c in
  ascii_digit c || ((65 <=? n) && (n <=? 90)) || ((97 <=? n) && (n <=? 122)).

Class UnicodeAlnum := {
  is_alphanumeric : str → bool;
  is_alphanumeric_ascii c :
    nat_of_ascii c < 128 → is_alphanumeric [c] = ascii_alphanumeric c
}.

#[export] Instance ascii_alnum : UnicodeAlnum | 100 := {
  is_alphanumeric s := match s with [c] => ascii_alphanumeric c | _ => false end;
  is_alphanumeric_ascii c _ := eq_refl
}.

(** ** Case mapping

    [str::to_lowercase] follows the Unicode tables. What the program relies
    on is its value on ASCII text. *)

Definition is_ascii (s : str) : bool := forallb (λ c, nat_of_ascii c <? 128) s.

Definition ascii_lower (c : ascii) : ascii :=
  let n := nat_of_ascii c in
  if (65 <=? n) && (n <=? 90) then ascii_of_nat (n + 32) else c.

Class UnicodeCase := {
  to_lowercase : str → str;
  to_lowercase_ascii s : is_ascii s = true → to_lowercase s = ascii_lower <$> s
}.

(** A case mapping that touches the ASCII letters only. *)
#[export] Instance ascii_case : UnicodeCase | 100 := {
  to_lowercase := fmap ascii_lower;
  to_lowercase_ascii s _ := eq_refl
}.

(** ** Lemmas *)

Lemma starts_with_spec s p : starts_with s p = true ↔ ∃ t, s = p ++ t.
Proof. unfold starts_with. rewrite bool_decide_eq_true. done. Qed.

Lemma ends_with_spec s p : ends_with s p = true ↔ ∃ t, s = t ++ p.
Proof. unfold ends_with. rewrite bool_decide_eq_true. done. Qed.

Lemma str_eqb_spec s t : str_eqb s t = true ↔ s = t.
Proof. unfold str_eqb. apply bool_decide_eq_true. Qed.

Lemma str_eqb_refl s : str_eqb s s = true.
Proof. by apply str_eqb_spec. Qed.

Lemma str_eqb_neq s t : s ≠ t → str_eqb s t = false.
Proof. intros Hne. unfold str_eqb. by rewrite bool_decide_eq_false_2. Qed.

#[export] Hint Rewrite starts_with_spec ends_with_spec str_eqb_spec
  andb_true_iff orb_true_iff negb_true_iff : openfang.

(** [find] returns the leftmost occurrence. *)
Lemma find_Some s p n :
  find s p = Some n → ∃ a b, s = a ++ p ++ b ∧ length a = n.
Proof.
  revert n. induction s as [|c s IH]; simpl; intros n; case_match eqn:E.
  - intros [= <-]. apply starts_with_spec in E as [t Ht]. exists [], t. done.
  - done.
  - intros [= <-]. apply starts_with_spec in E as [t Ht]. exists [], t. done.
  - intros (m & Hm & ->)%fmap_Some. destruct (IH _ Hm) as (a & b & -> & <-).
    exists (c :: a), b. done.
Qed.

Lemma find_leftmost s p a b :
  s = a ++ p ++ b → ∃ n, find s p = Some n ∧ n ≤ length a.
Proof.
  revert s. induction a as [|c a IH]; intros s ->; simpl.
  - exists 0. split; [|done].
    assert (starts_with (p ++ b) p = true) as E by (apply starts_with_spec; eauto).
    destruct (p ++ b); simpl; by rewrite E.
  - destruct (IH _ eq_refl) as (n & Hn & Hle).
    case_match; [exists 0; split; [done|lia]|].
    rewrite Hn. exists (S n). simpl. split; [done|lia].
Qed.

Lemma find_app s p t n : find s p = Some n → find (s ++ t) p = Some n.
Proof.
  intros Hn. destruct (find_Some _ _ _ Hn) as (a & b & Hs & <-).
  destruct (find_leftmost (s ++ t) p a (b ++ t)) as (m & Hm & Hle); [by rewrite Hs, <-!app_assoc|].
  rewrite Hm. f_equal. destruct (find_Some _ _ _ Hm) as (a' & b' & Hs' & <-).
  assert (s = a' ++ p ++ drop (length a' + length p) s) as E.
  { pose proof (f_equal (take (length s)) Hs') as E. rewrite take_app_length, app_assoc in E.
    assert (length a' + length p ≤ length s) by (rewrite Hs, !length_app; lia).
    rewrite take_app_ge in E by (rewrite length_app; lia). rewrite app_assoc.
    rewrite E at 1 2. by rewrite drop_app_length' by (by rewrite length_app). }
  destruct (find_leftmost _ _ _ _ E) as (k & Hk & Hkl). rewrite Hn in Hk. injection Hk as Hk. lia.
Qed.

Lemma contains_spec s p : contains s p = true ↔ ∃ a b, s = a ++ p ++ b.
Proof.
  unfold contains. rewrite bool_decide_eq_true. split.
  - intros [n Hn]. apply find_Some in Hn as (a & b & ? & _). eauto.
  - intros (a & b & H). destruct (find_leftmost _ _ _ _ H) as (n & ? & _). eauto.
Qed.

Lemma split_not_nil s c : split s c ≠ [].
Proof. destruct s; simpl; repeat case_match; done. Qed.

Lemma join_split s c : join (split s c) [c] = s.
Proof.
  induction s as [|d s IH]; [done|]. simpl. case_decide as E.
  - subst d. pose proof (split_not_nil s c).
    destruct (split s c) as [|p ps]; [done|].
    change (join ([] :: p :: ps) [c]) with ([] ++ [c] ++ join (p :: ps) [c]).
    by rewrite IH.
  - pose proof (split_not_nil s c).
    destruct (split s c) as [|p ps]; [done|].
    destruct ps as [|q qs]; simpl in *; by rewrite IH.
Qed.

Lemma split_no_sep s c : Forall (λ p, c ∉ p) (split s c).
Proof.
  induction s as [|d s IH]; simpl.
  - constructor; [set_solver|constructor].
  - case_decide.
    + constructor; [set_solver|done].
    + destruct (split s c); inversion_clear IH; repeat constructor; set_solver.
Qed.

(** [chars] only regroups the bytes. *)
Lemma concat_chars s : concat (chars s) = s.
Proof.
  induction s as [|c s IH]; [done|]. simpl.
  destruct (chars s) as [|h t]; simpl in *; subst; [done|].
  case_match; done.
Qed.

Lemma drop_while_sublist {A} (f : A → bool) l : drop_while f l `sublist_of` l.
Proof.
  induction l as [|x l IH]; simpl; [done|].
  case_match; [by apply sublist_cons|done].
Qed.

Lemma truncate_end_spec s e :
  let n := truncate_end s e in
  n ≤ e ∧ is_char_boundary s n = true ∧
  ∀ i, i ≤ e → is_char_boundary s i = true → i ≤ n.
Proof.
  induction e as [|e IH]; simpl; [split; [done|]; split; [done|]; lia|].
  destruct (is_char_boundary s (S e)) eqn:E; [done|].
  destruct IH as (Hle & Hb & Hmax). split; [lia|]. split; [done|].
  intros i Hi Hib. destruct (decide (i = S e)) as [->|]; [congruence|]. apply Hmax; [lia|done].
Qed.

Lemma safe_truncate_str_prefix s n : ∃ t, s = safe_truncate_str s n ++ t.
Proof.
  unfold safe_truncate_str. case_match; [exists []; by rewrite app_nil_r|].
  eexists. symmetry. apply take_drop.
Qed.

Lemma safe_truncate_str_length s n : length (safe_truncate_str s n) ≤ n.
Proof.
  unfold safe_truncate_str. destruct (Nat.leb_spec (length s) n); [done|].
  rewrite length_take. pose proof (truncate_end_spec s n) as [? _]. lia.
Qed.

#[export] Hint Resolve safe_truncate_str_length : openfang.

(** The slice [&s[..s.len().min(n)]] panics exactly when a code point of more
    than one byte lies across byte [n]. *)
Lemma slice_min_None s n :
  0 < n →
  slice_to s (length s `min` n) = None ↔ ∃ c, s !! n = Some c ∧ is_continuation c = true.
Proof.
  intros Hn. unfold slice_to, is_char_boundary. destruct (decide (length s ≤ n)) as [Hle|Hgt].
  - rewrite Nat.min_l, Nat.eqb_refl by done.
    assert ((if length s =? 0 then true else true) = true) as -> by (by destruct (length s =? 0)).
    split; [done|].
    intros (c & Hc%lookup_lt_Some & _). lia.
  - rewrite Nat.min_r by lia. rewrite (proj2 (Nat.eqb_neq n 0)) by lia.
    rewrite (proj2 (Nat.eqb_neq n (length s))) by lia.
    destruct (lookup_lt_is_Some_2 s n) as [c Hc]; [lia|]. rewrite Hc.
    destruct (is_continuation c) eqn:E; simpl; split; [by exists c|done|done|].
    intros (d & [= <-] & ?). congruence.
Qed.

(** ** ASCII text

    Every position of an ASCII text is a character boundary. *)

Lemma is_ascii_app s t : is_ascii (s ++ t) = is_ascii s && is_ascii t.
Proof. apply forallb_app. Qed.

Lemma is_ascii_lookup s i c : is_ascii s = true → s !! i = Some c → nat_of_ascii c < 128.
Proof.
  intros Hs Hc. unfold is_ascii in Hs. rewrite forallb_forall in Hs.
  apply list_elem_of_lookup_2, list_elem_of_In, Hs in Hc. by apply Nat.ltb_lt.
Qed.

Lemma is_ascii_take_drop s i j : is_ascii s = true → is_ascii (take i (drop j s)) = true.
Proof.
  intros Hs. rewrite <-(take_drop j s), is_ascii_app in Hs. apply andb_true_iff in Hs as [_ Hs].
  rewrite <-(take_drop i (drop j s)), is_ascii_app in Hs. by apply andb_true_iff in Hs as [? _].
Qed.

Lemma safe_truncate_ascii s n : is_ascii s = true → is_ascii (safe_truncate_str s n) = true.
Proof.
  intros Hs. unfold safe_truncate_str. case_match; [done|].
  pose proof (is_ascii_take_drop s (truncate_end s n) 0 Hs) as Ht. by rewrite drop_0 in Ht.
Qed.

Lemma is_ascii_boundary s i : is_ascii s = true → i ≤ length s → is_char_boundary s i = true.
Proof.
  intros Hs Hi. unfold is_char_boundary.
  destruct (Nat.eqb_spec i 0); [done|]. destruct (Nat.eqb_spec i (length s)); [done|].
  destruct (lookup_lt_is_Some_2 s i) as [c Hc]; [lia|]. rewrite Hc.
  pose proof (is_ascii_lookup _ _ _ Hs Hc). unfold is_continuation.
  rewrite bool_decide_eq_false_2; [done|lia].
Qed.

Lemma is_ascii_slice s a b :
  is_ascii s = true → a ≤ b → b ≤ length s → slice s a b = Some (take (b - a) (drop a s)).
Proof.
  intros Hs Ha Hb. unfold slice. rewrite !is_ascii_boundary by (done || lia).
  rewrite (proj2 (Nat.leb_le a b)), (proj2 (Nat.leb_le b (length s))) by lia. done.
Qed.

Lemma is_ascii_slice_from s a :
  is_ascii s = true → a ≤ length s → slice_from s a = Some (drop a s).
Proof.
  intros Hs Ha. unfold slice_from. rewrite is_ascii_slice by done.
  rewrite take_ge; [done|]. rewrite length_drop. lia.
Qed.

Lemma is_ascii_slice_to s n : is_ascii s = true → n ≤ length s → slice_to s n = Some (take n s).
Proof. intros Hs Hn. unfold slice_to. by rewrite is_ascii_boundary. Qed.

Lemma ascii_lower_ascii s : is_ascii s = true → is_ascii (ascii_lower <$> s) = true.
Proof.
  unfold is_ascii. rewrite !forallb_forall. intros Hs x Hx.
  apply list_elem_of_In, list_elem_of_fmap in Hx as (c & -> & Hc).
  apply list_elem_of_In, Hs, Nat.ltb_lt in Hc. unfold ascii_lower.
  destruct (Nat.leb_spec 65 (nat_of_ascii c)), (Nat.leb_spec (nat_of_ascii c) 90); simpl;
    try (by apply Nat.ltb_lt). apply Nat.ltb_lt. rewrite nat_ascii_embedding; lia.
Qed.

(** ** Decimal numbers *)

Lemma pretty_go_all (P : ascii → Prop) x s :
  (∀ d, P (pretty_N_char d)) → Forall P (String.list_ascii_of_string s) →
  Forall P (String.list_ascii_of_string (pretty_N_go x s)).
Proof.
  intros HP. revert s. induction (N.lt_wf_0 x) as [x _ IH]; intros s Hs.
  destruct (decide (0 < x)%N) as [Hx|Hx].
  - rewrite pretty_N_go_step by done. apply IH; [by apply N.div_lt|]. by constructor.
  - assert (x = 0%N) as -> by lia. by rewrite pretty_N_go_0.
Qed.

Lemma pretty_go_length x s k :
  (x < 10 ^ N.of_nat k)%N →
  length (String.list_ascii_of_string (pretty_N_go x s)) ≤ k + length (String.list_ascii_of_string s).
Proof.
  revert x s. induction k as [|k IH]; intros x s Hx.
  - assert (x = 0%N) as -> by (simpl in Hx; lia). by rewrite pretty_N_go_0.
  - destruct (decide (0 < x)%N) as [Hpos|Hpos].
    + rewrite pretty_N_go_step by done. etrans; [apply IH|simpl; lia].
      apply N.Div0.div_lt_upper_bound. rewrite Nat2N.inj_succ, N.pow_succ_r' in Hx. lia.
    + assert (x = 0%N) as -> by lia. rewrite pretty_N_go_0. lia.
Qed.

Lemma pretty_N_char_digit d : ascii_digit (pretty_N_char d) = true.
Proof.
  unfold pretty_N_char. destruct d as [|p]; [done|].
  do 4 (destruct p as [p|p|]; try done).
Qed.

Lemma show_N_digits (n : N) : Forall (λ c, ascii_digit c = true) (lit (pretty n)).
Proof.
  unfold pretty, pretty_N. case_decide; [by repeat constructor|].
  apply pretty_go_all; [apply pretty_N_char_digit|constructor].
Qed.

Lemma show_nat_digits n : Forall (λ c, ascii_digit c = true) (show_nat n).
Proof. apply show_N_digits. Qed.

Lemma show_nat_length n k :
  0 < k → (N.of_nat n < 10 ^ N.of_nat k)%N → length (show_nat n) ≤ k.
Proof.
  intros Hk Hn. unfold show_nat, lit, pretty, pretty_N. case_decide; [simpl; lia|].
  etrans; [by apply pretty_go_length|simpl; lia].
Qed.

Lemma show_nat_ascii n : is_ascii (show_nat n) = true.
Proof.
  unfold is_ascii. rewrite forallb_forall. intros c Hc%list_elem_of_In.
  pose proof (show_nat_digits n) as Hd. rewrite Forall_forall in Hd. apply Hd in Hc.
  unfold ascii_digit in Hc. apply Nat.ltb_lt.
  destruct (Nat.leb_spec 48 (nat_of_ascii c)), (Nat.leb_spec (nat_of_ascii c) 57); simpl in *; lia || done.
Qed.

(** * Glob patterns

    The meaning of a pattern in which ['*'] stands for any text, the empty
    one included, and the lemmas that relate it to prefixes, suffixes and
    leftmost searches. The matchers of [openfang-types/src/capability.rs] and
    [openfang-runtime/src/tool_policy.rs] are compared with it. *)

Definition star : ascii := "*"%char.

Inductive glob : str → str → Prop :=
| glob_nil : glob [] []
| glob_char c p v : c ≠ star → glob p v → glob (c :: p) (c :: v)
| glob_star_end p v : glob p v → glob (star :: p) v
| glob_star_more p c v : glob (star :: p) v → glob (star :: p) (c :: v).

#[export] Hint Constructors glob : openfang.

(** The parts of a pattern between its stars, read from the second part on:
    the last part ends the text, the others follow each other in it. *)
Fixpoint rest_matches (parts : list str) (v : str) : Prop :=
  match parts with
  | [] => False
  | [p] => ∃ t, v = t ++ p
  | p :: ps => ∃ t u, v = t ++ p ++ u ∧ rest_matches ps u
  end.

Definition parts_match (parts : list str) (v : str) : Prop :=
  match parts with
  | [] => False
  | [p] => v = p
  | p :: ps => ∃ u, v = p ++ u ∧ rest_matches ps u
  end.

(** ** Lemmas *)

Lemma glob_star_skip p t v : glob (star :: p) v → glob (star :: p) (t ++ v).
Proof. induction t; simpl; auto with openfang. Qed.

Lemma glob_star_split p v : glob (star :: p) v ↔ ∃ t u, v = t ++ u ∧ glob p u.
Proof.
  split.
  - remember (star :: p) as q eqn:E. induction 1; simplify_eq/=.
    + exists [], v. done.
    + destruct IHglob as (t & u & -> & ?); [done|]. exists (c :: t), u. done.
  - intros (t & u & -> & H). apply glob_star_skip. by constructor.
Qed.

Lemma glob_literal p q v : star ∉ p → glob (p ++ q) v ↔ ∃ u, v = p ++ u ∧ glob q u.
Proof.
  revert v. induction p as [|c p IH]; intros v Hp; simpl.
  - split; [eauto|]. by intros (u & -> & ?).
  - apply not_elem_of_cons in Hp as [Hc Hp]. split.
    + intros H. inversion H; simplify_eq; try (by destruct Hc).
      apply IH in H4 as (u & -> & ?); [|done]. eauto.
    + intros (u & -> & ?). constructor; [done|]. apply IH; eauto.
Qed.

Lemma glob_exact p v : star ∉ p → glob p v ↔ v = p.
Proof.
  intros Hp. rewrite <-(app_nil_r p) at 1. rewrite glob_literal by done. split.
  - intros (u & -> & H). inversion H. by rewrite app_nil_r.
  - intros ->. exists []. rewrite app_nil_r. auto with openfang.
Qed.

(** A text matches itself when read as a pattern. *)
Lemma glob_refl p : glob p p.
Proof.
  induction p as [|c p IH]; [constructor|]. destruct (decide (c = star)) as [->|].
  - do 2 constructor. done.
  - by constructor.
Qed.

Lemma glob_app p q v w : glob p v → glob q w → glob (p ++ q) (v ++ w).
Proof. induction 1; simpl; auto with openfang. Qed.

Lemma glob_any v : glob [star] v.
Proof. rewrite <-(app_nil_r v). apply glob_star_skip. auto with openfang. Qed.

(** More text in front does not hurt once a star has been passed. *)
Lemma rest_matches_prepend parts t v :
  rest_matches parts v → rest_matches parts (t ++ v).
Proof.
  destruct parts as [|p [|q ps]]; simpl; [done| |].
  - intros (t' & ->). exists (t ++ t'). by rewrite app_assoc.
  - intros (t' & u & -> & H). exists (t ++ t'), u. by rewrite !app_assoc.
Qed.

Lemma glob_rest parts v :
  parts ≠ [] → Forall (λ p, star ∉ p) parts →
  glob (star :: join parts [star]) v ↔ rest_matches parts v.
Proof.
  revert v. induction parts as [|p ps IH]; intros v Hne Hall; [done|].
  apply Forall_cons in Hall as [Hp Hps]. rewrite glob_star_split.
  destruct ps as [|q ps].
  - simpl. setoid_rewrite glob_exact; [|done]. naive_solver.
  - change (join (p :: q :: ps) [star]) with (p ++ star :: join (q :: ps) [star]).
    setoid_rewrite glob_literal; [|done]. setoid_rewrite IH; [|done..].
    simpl. naive_solver.
Qed.

(** A pattern is its parts, joined by stars. *)
Lemma glob_parts p v : glob p v ↔ parts_match (split p star) v.
Proof.
  pose proof (split_no_sep p star) as Hall. pose proof (split_not_nil p star) as Hne.
  rewrite <-(join_split p star) at 1.
  destruct (split p star) as [|a [|b ps]]; [done| |]; apply Forall_cons in Hall as [Ha Hps].
  - simpl. by apply glob_exact.
  - change (join (a :: b :: ps) [star]) with (a ++ star :: join (b :: ps) [star]).
    rewrite glob_literal by done. simpl. by setoid_rewrite (glob_rest (b :: ps)).
Qed.

Lemma split_no_star s c : c ∉ s → split s c = [s].
Proof.
  induction s as [|d s IH]; [done|]. intros [Hd Hs]%not_elem_of_cons. simpl.
  rewrite decide_False by done. by rewrite IH.
Qed.

(** Reading the text of one match as the pattern of the next composes. *)
Lemma glob_trans p q v : glob p q → glob q v → glob p v.
Proof.
  intros Hpq. revert v. induction Hpq as [|c p q Hc _ IH|p q _ IH|p c q Hq IH]; intros v Hv.
  - done.
  - inversion Hv; simplify_eq. constructor; auto.
  - constructor. auto.
  - destruct (decide (c = star)) as [->|Hc].
    + apply glob_star_split in Hv as (t & u & -> & Hu). apply glob_star_skip. auto.
    + inversion Hv; simplify_eq. apply glob_star_more. auto.
Qed.

(** The text between a prefix and a suffix that do not overlap. *)
Lemma prefix_suffix_middle (a b v : str) :
  starts_with v a = true → ends_with v b = true → length a + length b ≤ length v →
  ∃ t, v = a ++ t ++ b.
Proof.
  intros [u ->]%starts_with_spec [t Ht]%ends_with_spec Hlen. rewrite length_app in Hlen.
  exists (drop (length a) t). apply (f_equal length) in Ht as Hl. rewrite !length_app in Hl.
  apply (f_equal (drop (length a))) in Ht.
  rewrite drop_app_length, drop_app_le in Ht by lia. by rewrite Ht.
Qed.

(** The first star of a pattern. *)
Lemma find_star a b : star ∉ a → find (a ++ star :: b) [star] = Some (length a).
Proof.
  intros Ha. destruct (find_leftmost (a ++ [star] ++ b) [star] a b eq_refl) as (n & Hn & Hle).
  simpl in Hn. rewrite Hn. f_equal. apply find_Some in Hn as (x & y & Hxy & <-).
  destruct (decide (length x < length a)); [|lia]. exfalso. apply Ha.
  apply list_elem_of_lookup_2 with (length x).
  rewrite <-(lookup_app_l a (star :: b)), Hxy by done. by rewrite lookup_app_r, Nat.sub_diag by lia.
Qed.
