(* ===== verification/Floats.v ===== *)
(** * Floating point

    An [f64] is an IEEE 754 value of [SpecFloat] at precision 53, with the
    operations the program uses: conversion from and to integers, arithmetic,
    comparison and [powi]. *)

From Stdlib Require Import ZArith Lia SpecFloat.
From stdpp Require Import base tactics.
From S2P Require Import Prelude.

Definition f64_add : spec_float → spec_float → spec_float := SFadd 53 1024.
Definition f64_mul : spec_float → spec_float → spec_float := SFmul 53 1024.
Definition f64_div : spec_float → spec_float → spec_float := SFdiv 53 1024.

(** [n as f64] for an integer: rounded to nearest, ties to even. *)
Definition f64_of_Z (n : Z) : spec_float := binary_normalize 53 1024 n 0 false.

Definition f64_one : spec_float := f64_of_Z 1.

(** [x as u64]: truncated towards zero, saturating, [NaN] to zero. *)
Definition f64_to_u64 (x : spec_float) : Z :=
  match x with
  | S754_zero _ | S754_nan => 0
  | S754_infinity s => if s then 0 else u64_max
  | S754_finite s m e => if s then 0 else Z.min (Z.shiftl (Zpos m) e) u64_max
  end%Z.

(** [x as i32] for a [u32]. *)
Definition u32_as_i32 (x : Z) : Z := (if x <? 2147483648 then x else x - 4294967296)%Z.

(** The loop of [powi]; an [i32] has at most 32 binary digits. *)
Fixpoint powi_loop (fuel : nat) (a r : spec_float) (n : Z) : spec_float :=
  match fuel with
  | 0 => r
  | S fuel =>
      let r := if Z.odd n then f64_mul r a else r in
      let n := Z.quot n 2 in
      if (n =? 0)%Z then r else powi_loop fuel (f64_mul a a) r n
  end.

Definition powi (x : spec_float) (n : Z) : spec_float :=
  let r := powi_loop 32 x f64_one n in
  if (n <? 0)%Z then f64_div f64_one r else r.

(** A decimal literal [num/den], which is rounded to nearest like a quotient. *)
Definition f64_lit (num den : Z) : spec_float := f64_div (f64_of_Z num) (f64_of_Z den).

(** [x > y] and [x < y], false on [NaN]. *)
Definition f64_gtb (x y : spec_float) : bool := SFltb y x.
Definition f64_ltb (x y : spec_float) : bool := SFltb x y.

(** [x as usize] on a 64-bit target, and [n as f64] for a [usize]. *)
Definition f64_to_usize (x : spec_float) : nat := Z.to_nat (f64_to_u64 x).
Definition f64_of_nat (n : nat) : spec_float := f64_of_Z (Z.of_nat n).

(** [x.ceil()] and [x.round()] (halves away from zero) for values that are not
    negative, which is all the program uses them on; a value with [e >= 0] is
    an integer already. *)
Definition f64_ceil (x : spec_float) : spec_float :=
  match x with
  | S754_finite false m e =>
      if (0 <=? e)%Z then x else f64_of_Z (- Z.shiftr (- Zpos m) (- e))
  | _ => x
  end.

Definition f64_round (x : spec_float) : spec_float :=
  match x with
  | S754_finite false m e =>
      if (0 <=? e)%Z then x else f64_of_Z (Z.shiftr (2 * Zpos m + 2 ^ (- e)) (- e + 1))
  | _ => x
  end.

(** [x.min(y)]: the other operand when one is [NaN]. *)
Definition f64_min (x y : spec_float) : spec_float :=
  match x, y with
  | S754_nan, _ => y
  | _, S754_nan => x
  | _, _ => if SFltb y x then y else x
  end.

(** [x.clamp(lo, hi)]: panics unless [lo <= hi]. *)
Definition f64_clamp (x lo hi : spec_float) : option spec_float :=
  if SFleb lo hi then Some (if SFltb x lo then lo else if SFltb hi x then hi else x) else None.

(** ** Comparing *)

Ltac float_cases :=
  repeat match goal with
  | |- context [Z.compare ?a ?b] => destruct (Z.compare_spec a b)
  | |- context [Pos.compare_cont _ ?a ?b] =>
      change (Pos.compare_cont Eq a b) with (Pos.compare a b);
      destruct (Pos.compare_spec a b)
  end; subst; try done; try lia.

Lemma SFleb_trans x y z : SFleb x y = true → SFleb y z = true → SFleb x z = true.
Proof.
  unfold SFleb, SFcompare.
  destruct x as [[]|[]| |[] ? ?], y as [[]|[]| |[] ? ?], z as [[]|[]| |[] ? ?]; try done; float_cases.
Qed.

Lemma SFleb_total x y : x ≠ S754_nan → y ≠ S754_nan → SFleb x y = true ∨ SFleb y x = true.
Proof.
  intros Hx Hy. unfold SFleb, SFcompare.
  destruct x as [[]|[]| |[] ? ?], y as [[]|[]| |[] ? ?]; auto; float_cases; auto.
Qed.

Lemma SFltb_leb x y : SFltb x y = true → SFleb x y = true.
Proof. unfold SFltb, SFleb. by destruct (SFcompare x y) as [[]|]. Qed.

(** Two numbers are always in an order. *)
Lemma SFcompare_None x y : SFcompare x y = None → x = S754_nan ∨ y = S754_nan.
Proof. destruct x as [[]|[]| |[] ? ?], y as [[]|[]| |[] ? ?]; cbn; auto; discriminate. Qed.

Lemma SFmul_comm prec emax x y : SFmul prec emax x y = SFmul prec emax y x.
Proof.
  destruct x as [sx|sx| |sx mx ex], y as [sy|sy| |sy my ey]; cbn; try done; rewrite ?(xorb_comm sy sx); try done.
  by rewrite Pos.mul_comm, Z.add_comm.
Qed.
