(* ===== verification/Message.v ===== *)
(** * Conversation messages

    The data types of [openfang-types/src/message.rs]: a message has a role
    and a content, which is either plain text or a list of content blocks.
    The input of a tool use is a [serde_json::Value]; no function below looks
    inside it, so its type is a parameter. *)

From stdpp Require Import base gmap list.
From S2P Require Import Prelude Strs.

Inductive Role : Type :=
| System
| User
| Assistant.

#[export] Instance role_eq_dec : EqDecision Role.
Proof. solve_decision. Defined.

Section message.
Context {Value : Type}.

Inductive ContentBlock : Type :=
| TextBlock (text : str)
| Image (media_type data : str)
| ToolUse (id name : str) (input : Value)
| ToolResult (tool_use_id content : str) (is_error : bool)
| Thinking (thinking : str)
| Unknown.

Inductive MessageContent : Type :=
| Text (s : str)
| Blocks (blocks : list ContentBlock).

Record Message : Type := mkMessage {
  role : Role;
  content : MessageContent
}.

(** [MessageContent::text_length]. *)
Definition block_text_length (b : ContentBlock) : nat :=
  match b with
  | TextBlock text => length text
  | ToolResult _ content _ => length content
  | Thinking thinking => length thinking
  | ToolUse _ _ _ | Image _ _ | Unknown => 0
  end.

Definition text_length (c : MessageContent) : nat :=
  match c with
  | Text s => length s
  | Blocks blocks => sum_list (block_text_length <$> blocks)
  end.

(** [MessageContent::text_content]. *)
Definition block_text (b : ContentBlock) : option str :=
  match b with TextBlock text => Some text | _ => None end.

Definition text_content (c : MessageContent) : str :=
  match c with
  | Text s => s
  | Blocks blocks => join (omap block_text blocks) []
  end.

End message.

Arguments ContentBlock : clear implicits.
Arguments MessageContent : clear implicits.
Arguments Message : clear implicits.
Arguments mkMessage {Value} role content.
