(* ===== verification/TextToolCalls.v ===== *)
(** * Tool calls written as text

    [recover_text_tool_calls] of [openfang-runtime/src/agent_loop.rs]: models
    that do not use the field for tool calls write
    [<function=NAME>JSON</function>] or [<function>NAME{..}</function>] into
    their text. [parse_json] is [serde_json::from_str] and [uuid] the source of
    fresh ids, by the number of calls recovered before.

    The source keeps an offset into the text; [rest] is the text from there on.
    Every round moves the offset past an opening tag, so the length of the text
    is fuel enough ([scan_fuel]). *)

From Stdlib Require Import Ascii ZArith Lia.
From stdpp Require Import base strings list.
From S2P Require Import Prelude Strs.

Section calls.
Context {Value : Type} `{EqDecision Value}.

Record ToolCall : Type := mkCall {
  call_id : str;
  call_name : str;
  call_input : Value
}.

Definition OPEN_NAMED : str := lit "<function=".
Definition OPEN_PLAIN : str := lit "<function>".
Definition CLOSE : str := lit "</function>".

(** One round of the first loop: no opening tag is left, or the name and the
    body of the next call, if it is complete, and the text after it. *)
Definition named_round (rest : str) : option (option (str * str) * str) :=
  start ← find rest OPEN_NAMED;
  let after_prefix := drop (start + length OPEN_NAMED) rest in
  Some match find after_prefix (lit ">") with
       | None => (None, after_prefix)
       | Some name_end =>
           let json := drop (name_end + 1) after_prefix in
           match find json CLOSE with
           | None => (None, json)
           | Some close =>
               (Some (take name_end after_prefix, trim (take close json)),
                drop (close + length CLOSE) json)
           end
       end.

(** The name and the body of a call of the second kind. *)
Definition split_inline (inner : str) : option (str * str) :=
  match find inner (lit "{") with
  | None => None
  | Some brace_pos =>
      let name := trim (take brace_pos inner) in
      if is_empty name then None else Some (name, trim (drop brace_pos inner))
  end.

Definition plain_round (rest : str) : option (option (str * str) * str) :=
  start ← find rest OPEN_PLAIN;
  let after_tag := drop (start + length OPEN_PLAIN) rest in
  Some match find after_tag CLOSE with
       | None => (None, after_tag)
       | Some close => (split_inline (take close after_tag), drop (close + length CLOSE) after_tag)
       end.

(** A loop over the rounds: the candidates in the order of the text. *)
Fixpoint scan_from (round : str → option (option (str * str) * str)) (fuel : nat) (rest : str)
    : list (str * str) :=
  match fuel with
  | 0 => []
  | S fuel =>
      match round rest with
      | None => []
      | Some (found, rest) => option_list found ++ scan_from round fuel rest
      end
  end.

Definition scan_text (round : str → option (option (str * str) * str)) (text : str)
    : list (str * str) :=
  scan_from round (length text) text.

Section recover.
Context (parse_json : str → option Value) (uuid : nat → str).
Context (tool_names : list str).

(** The checks on a candidate. *)
Definition validated (c : str * str) : option (str * Value) :=
  if bool_decide (c.1 ∈ tool_names) then pair c.1 <$> parse_json c.2 else None.

Definition push_call (calls : list ToolCall) (c : str * Value) : list ToolCall :=
  calls ++ [mkCall (lit "recovered_" ++ uuid (length calls)) c.1 c.2].

Definition already (calls : list ToolCall) (c : str * Value) : bool :=
  existsb (λ d, str_eqb (call_name d) c.1 && bool_decide (call_input d = c.2)) calls.

Definition push_new (calls : list ToolCall) (c : str * Value) : list ToolCall :=
  if already calls c then calls else push_call calls c.

Definition recover_text_tool_calls (text : str) : list ToolCall :=
  let calls := foldl push_call [] (omap validated (scan_text named_round text)) in
  foldl push_new calls (omap validated (scan_text plain_round text)).
End recover.
End calls.

Arguments ToolCall : clear implicits.

(** ** The loops end *)

Definition shrinks (round : str → option (option (str * str) * str)) : Prop :=
  ∀ rest found rest', round rest = Some (found, rest') → length rest' < length rest.

Lemma find_bound s p n : find s p = Some n → n + length p ≤ length s.
Proof. intros (a & b & -> & <-)%find_Some. rewrite !length_app. lia. Qed.

Lemma named_shrinks : shrinks named_round.
Proof.
  intros rest found rest'. unfold named_round.
  destruct (find rest OPEN_NAMED) as [n|] eqn:E; [|done]. apply find_bound in E.
  change (length OPEN_NAMED) with 10 in *. cbn [mbind option_bind]. cbv zeta.
  repeat case_match; intros [= _ <-]; rewrite !length_drop; lia.
Qed.

Lemma plain_shrinks : shrinks plain_round.
Proof.
  intros rest found rest'. unfold plain_round.
  destruct (find rest OPEN_PLAIN) as [n|] eqn:E; [|done]. apply find_bound in E.
  change (length OPEN_PLAIN) with 10 in *. cbn [mbind option_bind]. cbv zeta.
  repeat case_match; intros [= _ <-]; rewrite !length_drop; lia.
Qed.

Lemma scan_fuel round fuel fuel' rest :
  shrinks round → length rest ≤ fuel → length rest ≤ fuel' →
  round [] = None → scan_from round fuel rest = scan_from round fuel' rest.
Proof.
  intros Hs Hf Hf' Hnil. revert fuel' rest Hf Hf'. induction fuel as [|fuel IH]; intros fuel' rest Hf Hf'.
  - destruct rest; [|simpl in Hf; lia]. destruct fuel'; [done|]. simpl. by rewrite Hnil.
  - destruct fuel' as [|fuel'].
    + destruct rest; [|simpl in Hf'; lia]. simpl. by rewrite Hnil.
    + simpl. destruct (round rest) as [[found rest']|] eqn:E; [|done].
      f_equal. apply Hs in E. apply IH; lia.
Qed.

Lemma scan_text_eq round text :
  shrinks round → round [] = None →
  scan_text round text =
  match round text with
  | None => []
  | Some (found, rest) => option_list found ++ scan_text round rest
  end.
Proof.
  intros Hs Hnil. unfold scan_text. destruct text as [|c text]; [simpl; by rewrite Hnil|].
  cbn [length scan_from]. destruct (round (c :: text)) as [[found rest]|] eqn:E; [|done].
  f_equal. apply Hs in E. simpl in E. apply scan_fuel; (done || lia).
Qed.

(** ** Occurrences in a text made of parts *)

(** No occurrence of [p] starts in [a] and ends in [b]. *)
Definition apart (a b p : str) : Prop :=
  ∀ u v, p = u ++ v → u ≠ [] → v ≠ [] → u `suffix_of` a → v `prefix_of` b → False.

Lemma apart_before c a b p : c ∉ tail p → apart a (c :: b) p.
Proof.
  intros Hc u v -> Hu Hv _ [k Hk]. destruct u as [|x u], v as [|y v]; try done.
  injection Hk as <- _. apply Hc. cbn [tail app]. apply elem_of_app. right. by left.
Qed.

Lemma apart_after c a b p : c ∉ removelast p → apart (a ++ [c]) b p.
Proof.
  intros Hc u v -> Hu Hv [k Hk] _. destruct u as [|y u _] using rev_ind; [done|].
  rewrite app_assoc in Hk. apply app_inj_tail in Hk as [_ ->]. apply Hc.
  rewrite removelast_app by done. apply elem_of_app. left. apply elem_of_app. right. by left.
Qed.

Lemma contains_false s p : contains s p = false ↔ ∀ a b, s ≠ a ++ p ++ b.
Proof.
  rewrite <-not_true_iff_false, contains_spec. split; [|intros H (a & b & E); by apply (H a b)].
  intros H a b E. apply H. eauto.
Qed.

Lemma app_occurrence a b p x y :
  p ≠ [] → apart a b p → a ++ b = x ++ p ++ y →
  (∃ t, a = x ++ p ++ t ∧ y = t ++ b) ∨ (∃ t, b = t ++ p ++ y ∧ x = a ++ t).
Proof.
  intros Hp Hab E. apply app_eq_inv in E as [(k & -> & E)|(k & -> & ->)]; [|right; by exists k].
  apply app_eq_inv in E as [(k' & -> & ->)|(k' & -> & ->)].
  - destruct k as [|c k]; [|destruct k' as [|c' k']].
    + right. exists []. by rewrite !app_nil_r.
    + left. exists []. by rewrite !app_nil_r.
    + exfalso. apply (Hab (c :: k) (c' :: k')); [done..| |]; [by eexists|by eexists].
  - left. by exists k'.
Qed.

Lemma contains_app_false a b p :
  p ≠ [] → apart a b p → contains a p = false → contains b p = false → contains (a ++ b) p = false.
Proof.
  intros Hp Hab Ha Hb. rewrite contains_false in Ha, Hb |- *. intros x y E.
  apply app_occurrence in E as [(t & -> & _)|(t & -> & _)]; [by apply (Ha x t)|by apply (Hb t y)|done..].
Qed.

(** The first occurrence after a part without one. *)
Lemma find_app_skip a b p :
  p ≠ [] → apart a b p → contains a p = false → find (a ++ b) p = Nat.add (length a) <$> find b p.
Proof.
  intros Hp Hab Ha. destruct (find b p) as [n|] eqn:En.
  - destruct (find_Some _ _ _ En) as (x & y & Hb & Hx).
    destruct (find_leftmost (a ++ b) p (a ++ x) y) as (m & Hm & Hle); [by rewrite Hb, <-!app_assoc|].
    rewrite Hm. simpl. f_equal. rewrite length_app in Hle.
    apply find_Some in Hm as (x' & y' & E & Hx').
    apply app_occurrence in E as [(t & -> & _)|(t & E & ->)]; [| |done..].
    + rewrite contains_false in Ha. by destruct (Ha x' t).
    + destruct (find_leftmost _ _ _ _ E) as (k & Hk & Hkl). rewrite En in Hk. injection Hk as <-.
      rewrite length_app in Hx'. lia.
  - destruct (find (a ++ b) p) as [m|] eqn:Em; [|done]. exfalso.
    apply find_Some in Em as (x & y & E & _). apply app_occurrence in E as [(t & -> & _)|(t & -> & _)]; [| |done..].
    + rewrite contains_false in Ha. by destruct (Ha x t).
    + destruct (find_leftmost (t ++ p ++ y) p t y eq_refl) as (? & ? & _). congruence.
Qed.

Lemma find_here p b : find (p ++ b) p = Some 0.
Proof.
  assert (starts_with (p ++ b) p = true) as Hs by (apply starts_with_spec; by exists b).
  destruct (p ++ b) as [|c s] eqn:E; cbn [find]; by rewrite Hs.
Qed.

(** The first occurrence of a tag that opens with a bracket found nowhere else
    in it. *)
Lemma find_tag c q a b :
  c ∉ q → contains a (c :: q) = false → find (a ++ (c :: q) ++ b) (c :: q) = Some (length a).
Proof.
  intros Hc Ha. rewrite find_app_skip; [|done|by apply apart_before|done].
  rewrite find_here. simpl. f_equal. lia.
Qed.

(** ** Texts with calls *)

Inductive Piece : Type :=
| Named (name body : str)
| Inline (name body : str).

Definition show_piece (p : Piece) : str :=
  match p with
  | Named name body => OPEN_NAMED ++ name ++ lit ">" ++ body ++ CLOSE
  | Inline name body => OPEN_PLAIN ++ name ++ body ++ CLOSE
  end.

(** Calls with plain text before each, and text after the last. *)
Fixpoint show_text (ps : list (str * Piece)) (final : str) : str :=
  match ps with
  | [] => final
  | (plain, p) :: ps => plain ++ show_piece p ++ show_text ps final
  end.

(** Text without any of the tags. *)
Definition tag_free (s : str) : bool :=
  negb (contains s OPEN_NAMED) && negb (contains s OPEN_PLAIN) && negb (contains s CLOSE).

Definition angle_free (s : str) : bool :=
  forallb (λ c, negb (Ascii.eqb c "<") && negb (Ascii.eqb c ">")) s.

Definition piece_ok (p : Piece) : bool :=
  match p with
  | Named name body => angle_free name && tag_free body
  | Inline name body =>
      angle_free name && tag_free body && starts_with body (lit "{") && negb (contains name (lit "{"))
  end.

Definition text_ok (ps : list (str * Piece)) (final : str) : bool :=
  forallb (λ q, tag_free q.1 && piece_ok q.2) ps && tag_free final.

Definition named_of (p : Piece) : option (str * str) :=
  match p with Named name body => Some (name, trim body) | Inline _ _ => None end.

Definition inline_of (p : Piece) : option (str * str) :=
  match p with
  | Named _ _ => None
  | Inline name body => if is_empty (trim name) then None else Some (trim name, trim body)
  end.

Lemma tag_free_spec s :
  tag_free s = true ↔
  contains s OPEN_NAMED = false ∧ contains s OPEN_PLAIN = false ∧ contains s CLOSE = false.
Proof. unfold tag_free. rewrite !andb_true_iff, !negb_true_iff. tauto. Qed.

Lemma angle_free_spec s : angle_free s = true ↔ "<"%char ∉ s ∧ ">"%char ∉ s.
Proof.
  unfold angle_free. rewrite forallb_forall. setoid_rewrite andb_true_iff.
  setoid_rewrite negb_true_iff. setoid_rewrite Ascii.eqb_neq. setoid_rewrite <-list_elem_of_In.
  split; [intros H; split; intros Hin; by apply H in Hin as [? ?]|].
  intros [H1 H2] x Hx. split; intros ->; done.
Qed.

(** A text without a character of the pattern does not contain it. *)
Lemma contains_absent c s p : c ∉ s → c ∈ p → contains s p = false.
Proof.
  intros Hs Hp. apply contains_false. intros a b ->. apply Hs.
  apply elem_of_app. right. apply elem_of_app. by left.
Qed.

(** What a scanned part may end with, so that no tag goes on after it. *)
Definition closed (s : str) : Prop := s = [] ∨ ∃ a, s = a ++ lit ">".

Definition opener (p : str) : Prop := p = OPEN_NAMED ∨ p = OPEN_PLAIN.

Lemma not_in_literal c (p : str) : bool_decide (c ∈ p) = false → c ∉ p.
Proof. apply bool_decide_eq_false_1. Qed.

Lemma closed_apart s t p : opener p → closed s → apart s t p.
Proof.
  intros Hp [->|[a ->]].
  - intros u v _ Hu _ Hs _. by apply suffix_nil_inv in Hs.
  - apply apart_after. apply not_in_literal. by destruct Hp as [->| ->].
Qed.

Lemma before_tag s t p : opener p → apart s (CLOSE ++ t) p.
Proof.
  intros Hp. change (CLOSE ++ t) with ("<"%char :: (tail CLOSE ++ t)). apply apart_before.
  apply not_in_literal. by destruct Hp as [->| ->].
Qed.

Lemma contains_snoc_close s p :
  opener p → contains s p = false → contains (s ++ CLOSE) p = false.
Proof.
  intros Hp Hs. apply contains_app_false; [by destruct Hp as [->| ->]| |done|by destruct Hp as [->| ->]].
  rewrite <-(app_nil_r CLOSE). by apply before_tag.
Qed.

Lemma closed_show p : closed (show_piece p).
Proof. right. destruct p; [exists (OPEN_NAMED ++ name ++ lit ">" ++ body ++ lit "</function")|exists (OPEN_PLAIN ++ name ++ body ++ lit "</function")]; cbn [show_piece]; by rewrite <-!app_assoc. Qed.

Lemma closed_app s t : closed t → t ≠ [] → closed (s ++ t).
Proof. intros [->|[a ->]] Ht; [done|]. right. exists (s ++ a). by rewrite <-app_assoc. Qed.

(** A call of one kind does not look like the start of the other. *)
Lemma named_quiet name body :
  piece_ok (Named name body) = true → contains (show_piece (Named name body)) OPEN_PLAIN = false.
Proof.
  intros [[Hlt _]%angle_free_spec (_ & Hb & _)%tag_free_spec]%andb_true_iff. cbn [show_piece].
  rewrite (app_assoc name), (app_assoc _ body), (app_assoc OPEN_NAMED).
  apply contains_snoc_close; [by right|].
  apply contains_app_false; [done| |by vm_compute|].
  { change OPEN_NAMED with (lit "<function" ++ ["="%char]). apply apart_after. by apply not_in_literal. }
  rewrite <-app_assoc. rewrite (app_assoc name). apply contains_app_false; [done| | |done].
  - apply apart_after. by apply not_in_literal.
  - apply (contains_absent "<"%char); [|by apply (bool_decide_unpack _)].
    rewrite elem_of_app. intros [?|Hin]; [done|]. by apply (not_in_literal "<"%char (lit ">")) in Hin.
Qed.

Lemma inline_quiet name body :
  piece_ok (Inline name body) = true → contains (show_piece (Inline name body)) OPEN_NAMED = false.
Proof.
  cbn [piece_ok]. rewrite !andb_true_iff. intros [[[[Hlt _]%angle_free_spec (Hb & _ & _)%tag_free_spec] Hopen] _].
  apply starts_with_spec in Hopen as [t ->]. cbn [show_piece].
  rewrite (app_assoc name), (app_assoc OPEN_PLAIN). apply contains_snoc_close; [by left|].
  apply contains_app_false; [done| |by vm_compute|].
  { change OPEN_PLAIN with (lit "<function" ++ [">"%char]). apply apart_after. by apply not_in_literal. }
  apply contains_app_false; [done| | |done].
  - apply apart_before. by apply not_in_literal.
  - apply (contains_absent "<"%char); [done|by apply (bool_decide_unpack _)].
Qed.

(** ** Scanning a text with calls *)

Section scanning.
Context (round : str → option (option (str * str) * str)) (open : str) (mine : Piece → bool).
Context (candidate : Piece → option (str * str)).
Hypothesis round_shrinks : shrinks round.
Hypothesis open_opener : opener open.
Hypothesis round_none : ∀ s, contains s open = false → round s = None.
Hypothesis round_mine : ∀ pre p rest,
  mine p = true → piece_ok p = true → contains pre open = false →
  round (pre ++ show_piece p ++ rest) = Some (candidate p, rest).
Hypothesis other_quiet : ∀ p,
  mine p = false → piece_ok p = true → contains (show_piece p) open = false ∧ candidate p = None.
Hypothesis tag_free_open : ∀ s, tag_free s = true → contains s open = false.

Lemma open_not_nil : open ≠ [].
Proof. by destruct open_opener as [->| ->]. Qed.

Lemma scan_pieces ps final pre :
  text_ok ps final = true → closed pre → contains pre open = false →
  scan_text round (pre ++ show_text ps final) = omap candidate ps.*2.
Proof.
  assert (round [] = None) as Hnil by (apply round_none; by destruct open_opener as [->| ->]).
  assert (∀ pre s, closed pre → contains pre open = false → tag_free s = true →
            contains (pre ++ s) open = false) as Hplain.
  { intros a s Hc Ha Hs. apply contains_app_false; [apply open_not_nil|by apply closed_apart|done|auto]. }
  revert pre. induction ps as [|[plain p] ps IH]; intros pre Hok Hc Hpre;
    unfold text_ok in Hok; cbn [forallb fst snd] in Hok; rewrite !andb_true_iff in Hok.
  - cbn [show_text]. rewrite scan_text_eq, round_none by (done || apply Hplain; tauto). done.
  - destruct Hok as [[[Hs Hp] Hps] Hf]. assert (text_ok ps final = true) as Hok' by (by apply andb_true_iff).
    cbn [show_text]. rewrite app_assoc. rewrite fmap_cons, omap_cons. cbn [snd].
    specialize (Hplain pre plain Hc Hpre Hs). destruct (mine p) eqn:Em.
    + rewrite scan_text_eq, round_mine by done. f_equal.
      apply (IH []); [done|by left|by destruct open_opener as [->| ->]].
    + destruct (other_quiet p Em Hp) as [Hq ->]. rewrite app_assoc. cbn [option_list app].
      apply IH; [done|apply closed_app; [apply closed_show|by destruct p]|].
      apply contains_app_false; [apply open_not_nil| |done|done].
      destruct p; cbn [show_piece]; apply apart_before; apply not_in_literal; by destruct open_opener as [->| ->].
Qed.
End scanning.

Lemma find_not_contained s p : contains s p = false → find s p = None.
Proof. unfold contains. case_bool_decide as H; [done|]. intros _. by apply eq_None_not_Some. Qed.

Lemma drop_past (a b c : str) : drop (length a + length b) (a ++ b ++ c) = c.
Proof. rewrite app_assoc, drop_app_length'; [done|]. by rewrite length_app. Qed.

Lemma take_before (a b : str) : take (length a) (a ++ b) = a.
Proof. apply take_app_length. Qed.

Lemma find_close body rest :
  contains body CLOSE = false → find (body ++ CLOSE ++ rest) CLOSE = Some (length body).
Proof. intros Hb. apply (find_tag "<"%char (tail CLOSE)); [by apply not_in_literal|done]. Qed.

Lemma named_round_call pre name body rest :
  piece_ok (Named name body) = true → contains pre OPEN_NAMED = false →
  named_round (pre ++ show_piece (Named name body) ++ rest) = Some (Some (name, trim body), rest).
Proof.
  intros [[_ Hgt]%angle_free_spec (_ & _ & Hb)%tag_free_spec]%andb_true_iff Hpre.
  unfold named_round. cbn [show_piece]. rewrite <-!app_assoc.
  assert (find (pre ++ OPEN_NAMED ++ name ++ lit ">" ++ body ++ CLOSE ++ rest) OPEN_NAMED = Some (length pre)) as ->
    by (apply (find_tag "<"%char (tail OPEN_NAMED)); [by apply not_in_literal|done]).
  cbn [mbind option_bind]. cbv zeta. rewrite drop_past.
  assert (find (name ++ lit ">" ++ body ++ CLOSE ++ rest) (lit ">") = Some (length name)) as ->.
  { apply (find_tag ">"%char []); [apply not_elem_of_nil|]. apply (contains_absent ">"%char); [done|by left]. }
  change 1 with (length (lit ">")). rewrite drop_past, find_close, drop_past, !take_before by done. done.
Qed.

Lemma plain_round_call pre name body rest :
  piece_ok (Inline name body) = true → contains pre OPEN_PLAIN = false →
  plain_round (pre ++ show_piece (Inline name body) ++ rest) = Some (inline_of (Inline name body), rest).
Proof.
  cbn [piece_ok]. rewrite !andb_true_iff, negb_true_iff.
  intros [[[[Hlt Hgt]%angle_free_spec (_ & _ & Hb)%tag_free_spec] Hopen] Hname] Hpre.
  apply starts_with_spec in Hopen as [t ->]. unfold plain_round. cbn [show_piece]. rewrite <-!(app_assoc OPEN_PLAIN).
  assert (find (pre ++ OPEN_PLAIN ++ (name ++ (lit "{" ++ t) ++ CLOSE) ++ rest) OPEN_PLAIN = Some (length pre)) as ->
    by (apply (find_tag "<"%char (tail OPEN_PLAIN)); [by apply not_in_literal|done]).
  cbn [mbind option_bind]. cbv zeta. rewrite drop_past, <-app_assoc, <-(app_assoc (lit "{" ++ t)), (app_assoc name).
  rewrite find_close, drop_past, take_before.
  - unfold split_inline.
    assert (find (name ++ lit "{" ++ t) (lit "{") = Some (length name)) as ->
      by (apply (find_tag "{"%char []); [apply not_elem_of_nil|done]).
    by rewrite take_before, drop_app_length.
  - apply contains_app_false; [done| | |done].
    + apply apart_before. by apply not_in_literal.
    + apply (contains_absent "<"%char); [done|by left].
Qed.

Section recovered.
Context {Value : Type} `{EqDecision Value}.
Context (parse_json : str → option Value) (uuid : nat → str) (tool_names : list str).

Abbreviation recover := (recover_text_tool_calls parse_json uuid tool_names).
Abbreviation valid := (validated parse_json tool_names).

Definition signature (c : ToolCall Value) : str * Value := (call_name c, call_input c).

(** Calls are numbered in the order they are found. *)
Definition numbered (calls : list (ToolCall Value)) : Prop :=
  call_id <$> calls = (λ k, lit "recovered_" ++ uuid k) <$> seq 0 (length calls).

Definition add_new (acc : list (str * Value)) (c : str * Value) : list (str * Value) :=
  if decide (c ∈ acc) then acc else acc ++ [c].

Lemma push_call_spec calls c :
  signature <$> push_call uuid calls c = (signature <$> calls) ++ [c] ∧
  (numbered calls → numbered (push_call uuid calls c)).
Proof.
  unfold push_call, numbered. rewrite !fmap_app. split; [by destruct c|].
  intros ->. by rewrite length_app, seq_app, fmap_app.
Qed.

Lemma already_spec calls c : already calls c = true ↔ c ∈ signature <$> calls.
Proof.
  unfold already. rewrite existsb_exists, list_elem_of_fmap. setoid_rewrite <-list_elem_of_In.
  setoid_rewrite andb_true_iff. setoid_rewrite str_eqb_spec. setoid_rewrite bool_decide_eq_true.
  destruct c as [n v]. unfold signature. naive_solver.
Qed.

Lemma push_new_spec calls c :
  signature <$> push_new uuid calls c = add_new (signature <$> calls) c ∧
  (numbered calls → numbered (push_new uuid calls c)).
Proof.
  unfold push_new, add_new. pose proof (already_spec calls c) as Ha. destruct (already calls c).
  - rewrite decide_True by tauto. done.
  - rewrite decide_False by (intros Hin; by apply Ha in Hin). apply push_call_spec.
Qed.

(** A loop that pushes, and what it leaves. *)
Lemma foldl_push (push : list (ToolCall Value) → str * Value → list (ToolCall Value))
    (add : list (str * Value) → str * Value → list (str * Value)) cs calls :
  (∀ calls c, signature <$> push calls c = add (signature <$> calls) c ∧
              (numbered calls → numbered (push calls c))) →
  numbered calls →
  signature <$> foldl push calls cs = foldl add (signature <$> calls) cs ∧ numbered (foldl push calls cs).
Proof.
  intros Hpush. revert calls. induction cs as [|c cs IH]; intros calls Hn; [done|].
  destruct (Hpush calls c) as [E Hn']. simpl. rewrite <-E. auto.
Qed.

Lemma foldl_snoc {A} (acc l : list A) : foldl (λ acc c, acc ++ [c]) acc l = acc ++ l.
Proof. revert acc. induction l as [|x l IH]; intros acc; simpl; [by rewrite app_nil_r|]. by rewrite IH, <-app_assoc. Qed.

Lemma recover_scans text :
  signature <$> recover text =
    foldl add_new (omap valid (scan_text named_round text)) (omap valid (scan_text plain_round text)) ∧
  numbered (recover text).
Proof.
  destruct (foldl_push (push_call uuid) (λ acc c, acc ++ [c]) (omap valid (scan_text named_round text)) [])
    as [E Hn]; [apply push_call_spec|done|]. rewrite foldl_snoc in E.
  change (omap valid (scan_text named_round text)) with ((signature <$> []) ++ omap valid (scan_text named_round text)) at 1.
  unfold recover_text_tool_calls. rewrite <-E. by apply foldl_push; [apply push_new_spec|].
Qed.

(** C29: The calls that a text with calls in either notation contains are
    recovered: first those of the first notation in their order, then those of
    the second that are not there yet; calls of unknown tools and calls whose
    input is not JSON are left out; ids are drawn in the order of the calls. *)
Theorem recover_round_trip ps final :
  text_ok ps final = true →
  signature <$> recover (show_text ps final) =
    foldl add_new (omap valid (omap named_of ps.*2)) (omap valid (omap inline_of ps.*2)) ∧
  numbered (recover (show_text ps final)).
Proof.
  intros Hok. destruct (recover_scans (show_text ps final)) as [-> Hn]. split; [|done].
  assert (scan_text named_round (show_text ps final) = omap named_of ps.*2) as ->.
  { apply (scan_pieces named_round OPEN_NAMED (λ p, if p is Named _ _ then true else false) named_of
             named_shrinks) with (pre := []); [by left| | | | |done|by left|done].
    - intros s Hs. unfold named_round. by rewrite find_not_contained.
    - intros pre [name body|] rest Hm; [|done]. apply named_round_call.
    - intros [|name body]; [done|]. intros _ Hp. split; [by apply inline_quiet|done].
    - intros s Hs%tag_free_spec. tauto. }
  assert (scan_text plain_round (show_text ps final) = omap inline_of ps.*2) as ->; [|done].
  apply (scan_pieces plain_round OPEN_PLAIN (λ p, if p is Inline _ _ then true else false) inline_of
           plain_shrinks) with (pre := []); [by right| | | | |done|by left|done].
  - intros s Hs. unfold plain_round. by rewrite find_not_contained.
  - intros pre [|name body] rest Hm; [done|]. apply plain_round_call.
  - intros [name body|]; [|done]. intros _ Hp. split; [by apply named_quiet|done].
  - intros s Hs%tag_free_spec. tauto.
Qed.

(** Every call recovered is of an available tool and its input was read from
    the text, whatever the text. *)
Definition bodies_from (round : str → option (option (str * str) * str)) : Prop :=
  ∀ rest found rest', round rest = Some (found, rest') →
    (∃ a, rest = a ++ rest') ∧
    (∀ name body, found = Some (name, body) → ∃ a t b, rest = a ++ t ++ b ∧ body = trim t).

Lemma scan_bodies round fuel text name body :
  bodies_from round → (name, body) ∈ scan_from round fuel text →
  ∃ a t b, text = a ++ t ++ b ∧ body = trim t.
Proof.
  intros Hr. revert text. induction fuel as [|fuel IH]; intros text; simpl; [by intros ?%not_elem_of_nil|].
  destruct (round text) as [[found rest]|] eqn:E; [|by intros ?%not_elem_of_nil].
  apply Hr in E as [[x Hx] Hf]. rewrite elem_of_app. intros [Hin|Hin].
  - destruct found as [c|]; [|by apply not_elem_of_nil in Hin].
    apply list_elem_of_singleton in Hin as <-. by eapply Hf.
  - apply IH in Hin as (a & t & b & -> & ->). subst text. exists (x ++ a), t, b. by rewrite <-app_assoc.
Qed.

Lemma find_parts s p n :
  find s p = Some n → s = take n s ++ p ++ drop (n + length p) s.
Proof. intros (a & b & -> & <-)%find_Some. by rewrite take_app_length, drop_past. Qed.

Lemma named_bodies : bodies_from named_round.
Proof.
  intros rest found rest'. unfold named_round.
  destruct (find rest OPEN_NAMED) as [n|] eqn:E1; [|done]. apply find_parts in E1. cbn [mbind option_bind].
  cbv zeta. revert E1. generalize (drop (n + length OPEN_NAMED) rest) as after, (take n rest) as pre.
  intros after pre ->. destruct (find after (lit ">")) as [k|] eqn:E2.
  2: { intros [= <- <-]. split; [by exists (pre ++ OPEN_NAMED); rewrite <-app_assoc|done]. }
  apply find_parts in E2. change (length (lit ">")) with 1 in E2. revert E2.
  generalize (drop (k + 1) after) as json. intros json E2.
  destruct (find json CLOSE) as [c|] eqn:E3.
  2: { intros [= <- <-]. split; [|done]. exists (pre ++ OPEN_NAMED ++ take k after ++ lit ">").
       rewrite E2 at 1. by rewrite <-!app_assoc. }
  apply find_parts in E3. intros [= <- <-]. split.
  - exists (pre ++ OPEN_NAMED ++ take k after ++ lit ">" ++ take c json ++ CLOSE).
    rewrite E2 at 1. rewrite E3 at 1. by rewrite <-!app_assoc.
  - intros name body [= <- <-]. exists (pre ++ OPEN_NAMED ++ take k after ++ lit ">"), (take c json), (CLOSE ++ drop (c + length CLOSE) json).
    split; [|done]. rewrite E2 at 1. rewrite E3 at 1. by rewrite <-!app_assoc.
Qed.

Lemma plain_bodies : bodies_from plain_round.
Proof.
  intros rest found rest'. unfold plain_round.
  destruct (find rest OPEN_PLAIN) as [n|] eqn:E1; [|done]. apply find_parts in E1. cbn [mbind option_bind].
  cbv zeta. revert E1. generalize (drop (n + length OPEN_PLAIN) rest) as after, (take n rest) as pre.
  intros after pre ->. destruct (find after CLOSE) as [k|] eqn:E2.
  2: { intros [= <- <-]. split; [by exists (pre ++ OPEN_PLAIN); rewrite <-app_assoc|done]. }
  apply find_parts in E2. intros [= <- <-]. split.
  - exists (pre ++ OPEN_PLAIN ++ take k after ++ CLOSE). rewrite E2 at 1. by rewrite <-!app_assoc.
  - intros name body. unfold split_inline. destruct (find (take k after) (lit "{")) as [j|]; [|done].
    case_match; [done|]. intros [= _ <-].
    exists (pre ++ OPEN_PLAIN ++ take j (take k after)), (drop j (take k after)), (CLOSE ++ drop (k + length CLOSE) after).
    split; [|done]. rewrite E2 at 1. rewrite <-(take_drop j (take k after)) at 1. by rewrite <-!app_assoc.
Qed.

Lemma elem_of_foldl_add acc cs c : c ∈ foldl add_new acc cs → c ∈ acc ∨ c ∈ cs.
Proof.
  revert acc. induction cs as [|d cs IH]; intros acc; [by left|]. cbn [foldl]. intros [Hin|Hin]%IH.
  - unfold add_new in Hin. case_decide; [by left|]. apply elem_of_app in Hin as [?|Hin]; [by left|].
    right. apply list_elem_of_singleton in Hin as ->. by left.
  - right. by right.
Qed.

(** Every call recovered is of an available tool, its input was read from a
    part of the text, and distinct calls have distinct ids. *)
Theorem recovered_sound text :
  (∀ c, c ∈ recover text →
     call_name c ∈ tool_names ∧
     ∃ a t b, text = a ++ t ++ b ∧ parse_json (trim t) = Some (call_input c)) ∧
  (Inj (=) (=) uuid → NoDup (call_id <$> recover text)).
Proof.
  destruct (recover_scans text) as [E Hn]. split.
  - intros c Hc. assert (signature c ∈ signature <$> recover text) as Hin by (apply list_elem_of_fmap; eauto).
    rewrite E in Hin. apply elem_of_foldl_add in Hin.
    assert (∃ round name body, bodies_from round ∧ (name, body) ∈ scan_text round text ∧ valid (name, body) = Some (signature c))
      as (round & name & body & Hr & Hs & Hv).
    { destruct Hin as [Hin|Hin]; apply list_elem_of_omap in Hin as ([name body] & ? & ?);
        [exists named_round|exists plain_round]; eauto using named_bodies, plain_bodies. }
    unfold validated in Hv. cbn [fst snd] in Hv. case_bool_decide; [|done].
    destruct (parse_json body) as [v|] eqn:Ev; [|done]. injection Hv as <- <-. split; [done|].
    apply scan_bodies in Hs as (a & t & b & -> & ->); [|done]. by exists a, t, b.
  - intros Hi. rewrite Hn. apply NoDup_fmap_2; [|apply NoDup_seq]. intros i j Hij. by apply (inj (app _)), (inj uuid) in Hij.
Qed.

End recovered.

Definition demo_json (s : str) : option str := if starts_with s (lit "{") then Some s else None.
Definition demo_names : list str := [lit "web_search"; lit "file_read"].
Definition demo_pieces : list (str * Piece) :=
  [(lit "a<b ", Named (lit "web_search") (lit " {1} "));
   (lit ", ", Inline (lit "file_read ") (lit "{2}"));
   (lit ", ", Named (lit "rm") (lit "{3}"));
   ([], Inline (lit "web_search") (lit "{1}"))].

Lemma recover_round_trip_witness :
  signature <$> recover_text_tool_calls demo_json show_nat demo_names (show_text demo_pieces (lit " done"))
  = [(lit "web_search", lit "{1}"); (lit "file_read", lit "{2}")].
Proof. exact (proj1 (recover_round_trip demo_json show_nat demo_names demo_pieces (lit " done") eq_refl)). Defined.

(** The first loop takes the name of a tag that is not closed up to the next
    angle bracket, and with it the call after it. *)
Example unclosed_tag_swallows :
  recover_text_tool_calls demo_json show_nat demo_names
    (lit "I use <function=x and <function=file_read>{2}</function>") = [].
Proof. vm_compute. reflexivity. Qed.
