(* ===== verification/Sanitize.v ===== *)
(** * Cleaning tool results

    [strip_tool_result_details] of [openfang-runtime/src/session_repair.rs]:
    long runs of base64 characters and the markers of prompt injections are
    replaced, and the text is truncated. Slices that panic are [None]. *)

From Stdlib Require Import Ascii ZArith Lia.
From stdpp Require Import base strings list sets.
From S2P Require Import Prelude Strs.

(** ** Base64 blobs *)

Definition BASE64_THRESHOLD : nat := 1000.

Definition is_base64_char (c : str) : bool :=
  match c with
  | [b] => ascii_alphanumeric b || bool_decide (b ∈ lit "+/=")
  | _ => false
  end.

(** The end of a run of base64 characters. *)
Definition flush_run (run : list str) : str :=
  if BASE64_THRESHOLD <? length run
  then lit "[base64 blob, " ++ show_nat (length run) ++ lit " chars removed]"
  else concat run.

Fixpoint strip_runs (run : list str) (cs : list str) : str :=
  match cs with
  | [] => flush_run run
  | c :: cs =>
      if is_base64_char c then strip_runs (run ++ [c]) cs
      else flush_run run ++ c ++ strip_runs [] cs
  end.

Definition strip_base64_blobs (content : str) : str := strip_runs [] (chars content).

(** ** Injection markers *)

Definition INJECTION_MARKERS : list str :=
  [lit "<|system|>"; lit "<|im_start|>"; lit "<|im_end|>"; lit "### SYSTEM:";
   lit "### System Prompt:"; lit "[SYSTEM]"; lit "<<SYS>>"; lit "<</SYS>>";
   lit "IGNORE PREVIOUS INSTRUCTIONS"; lit "Ignore all previous instructions";
   lit "ignore the above"; lit "disregard previous"].

Definition REPLACEMENT : str := lit "[injection marker removed]".

Section markers.
Context `{UnicodeCase}.

(** The search loop for one marker. Every round moves [search_pos] by at least
    the length of the marker, so that one round more than there are bytes is
    enough. *)
Fixpoint replace_loop (fuel : nat) (result result_lower marker marker_lower : str) (search_pos : nat)
    (new_result : str) : option str :=
  match fuel with
  | 0 => None
  | S fuel =>
      rest ← slice_from result_lower search_pos;
      match find rest marker_lower with
      | Some found =>
          let abs_pos := search_pos + found in
          piece ← slice result search_pos abs_pos;
          replace_loop fuel result result_lower marker marker_lower (abs_pos + length marker)
            (new_result ++ piece ++ REPLACEMENT)
      | None =>
          tail ← slice_from result search_pos;
          Some (new_result ++ tail)
      end
  end.

Definition strip_marker (lower : str) (acc : option str) (marker : str) : option str :=
  result ← acc;
  let marker_lower := to_lowercase marker in
  if contains lower marker_lower then
    let result_lower := to_lowercase result in
    replace_loop (S (length result_lower)) result result_lower marker marker_lower 0 []
  else Some result.

Definition strip_injection_markers (content : str) : option str :=
  foldl (strip_marker (to_lowercase content)) (Some content) INJECTION_MARKERS.

Definition MAX_RESULT_LEN : nat := Z.to_nat 10000.

Definition strip_tool_result_details (content : str) : option str :=
  let stripped := strip_base64_blobs content in
  cleaned ← strip_injection_markers stripped;
  Some (if length cleaned <=? MAX_RESULT_LEN then cleaned
        else safe_truncate_str cleaned MAX_RESULT_LEN ++ lit "...[truncated from "
             ++ show_nat (length cleaned) ++ lit " chars]").
End markers.

(** ** Occurrences that overlap an inserted text *)

(** No way to lay [m] over [r] so that they share a byte and agree on all
    shared bytes. The shift [s] puts the last byte of [m] on byte [s] of [r]. *)
Definition apart (m r : str) : bool :=
  forallb (λ s, existsb (λ j,
      bool_decide (length m - 1 ≤ s + j) &&
      match m !! j, r !! (s + j - (length m - 1)) with
      | Some a, Some b => bool_decide (a ≠ b)
      | _, _ => false
      end) (seq 0 (length m)))
    (seq 0 (length m + length r - 1)).

Definition infix (m s : str) : Prop := ∃ a b, s = a ++ m ++ b.

Lemma infix_app_l m s t : infix m s → infix m (s ++ t).
Proof. intros (a & b & ->). exists a, (b ++ t). by rewrite <-!app_assoc. Qed.

Lemma infix_app_r m s t : infix m t → infix m (s ++ t).
Proof. intros (a & b & ->). exists (s ++ a), b. by rewrite <-!app_assoc. Qed.

(** A text that is put between two others does not create an occurrence. *)
Lemma apart_infix m r x y :
  m ≠ [] → apart m r = true → infix m (x ++ r ++ y) → infix m x ∨ infix m y.
Proof.
  intros Hm Ha (p & q & E).
  assert (0 < length m) as Hpos by (destruct m; simpl; [done|lia]).
  destruct (decide (length p + length m ≤ length x)) as [Hl|Hl].
  { left. rewrite (app_assoc p) in E. apply app_eq_inv in E as [(k & -> & _)|(k & Ex & _)].
    - exists p, k. by rewrite <-app_assoc.
    - exists p, []. assert (k = []) as ->.
      { apply (f_equal length) in Ex. rewrite !length_app in Ex. apply nil_length_inv. lia. }
      by rewrite !app_nil_r in *. }
  destruct (decide (length x + length r ≤ length p)) as [Hr|Hr].
  { right. rewrite (app_assoc x) in E. apply app_eq_inv in E as [(k & Ex & Ey)|(k & -> & ->)].
    - assert (k = []) as ->.
      { apply (f_equal length) in Ex. rewrite !length_app in Ex. apply nil_length_inv. lia. }
      simpl in Ey. subst y. by exists [], q.
    - by exists k, q. }
  exfalso. unfold apart in Ha. rewrite forallb_forall in Ha.
  specialize (Ha (length p + length m - 1 - length x)).
  rewrite existsb_exists in Ha. destruct Ha as (j & [_ Hj]%in_seq & Hmis).
  { apply in_seq. lia. }
  apply andb_true_iff in Hmis as [Hge%bool_decide_eq_true Hmis].
  destruct (m !! j) as [a|] eqn:Ea; [|done].
  destruct (r !! _) as [b|] eqn:Eb; [|done]. apply bool_decide_eq_true in Hmis. apply Hmis.
  assert ((x ++ r ++ y) !! (length p + j) = Some a) as H1.
  { rewrite E. rewrite lookup_app_r by lia. replace (length p + j - length p) with j by lia.
    rewrite lookup_app_l; [done|]. by apply lookup_lt_Some in Ea. }
  rewrite lookup_app_r in H1 by lia.
  replace (length p + j - length x) with (length p + length m - 1 - length x + j - (length m - 1))
    in H1 by lia.
  rewrite lookup_app_l in H1 by (by apply lookup_lt_Some in Eb). congruence.
Qed.

(** ** One marker *)

Abbreviation lower s := (ascii_lower <$> s).

(** [r] is [s] with pieces between texts free of the marker replaced. *)
Inductive Cleaned (m : str) : str → str → Prop :=
| cleaned_end s : ~ infix (lower m) (lower s) → Cleaned m s s
| cleaned_cut a x b r :
    ~ infix (lower m) (lower a) → Cleaned m b r →
    Cleaned m (a ++ x ++ b) (a ++ REPLACEMENT ++ r).

Lemma lower_replacement : lower REPLACEMENT = REPLACEMENT.
Proof. vm_compute. reflexivity. Qed.

Lemma not_infix_replaced m a r :
  m ≠ [] → apart m REPLACEMENT = true → ~ infix m (lower a) → ~ infix m (lower r) →
  ~ infix m (lower (a ++ REPLACEMENT ++ r)).
Proof.
  intros Hm Ha Hx Hy. rewrite !fmap_app, lower_replacement. intros Hi.
  by destruct (apart_infix m REPLACEMENT (lower a) (lower r) Hm Ha Hi).
Qed.

(** The marker is gone, and no other one has appeared. *)
Lemma cleaned_free m s r :
  m ≠ [] → apart (lower m) REPLACEMENT = true → Cleaned m s r → ~ infix (lower m) (lower r).
Proof.
  intros Hm Ha. induction 1; [done|]. apply not_infix_replaced; try done. by destruct m.
Qed.

Lemma cleaned_keeps_free m m' s r :
  m' ≠ [] → apart m' REPLACEMENT = true → Cleaned m s r →
  ~ infix m' (lower s) → ~ infix m' (lower r).
Proof.
  intros Hm Ha. induction 1 as [|a x b r Hx _ IH]; [done|]. intros Hs. rewrite !fmap_app in Hs.
  apply not_infix_replaced; [done..| |].
  - intros Hi. apply Hs. by apply infix_app_l.
  - apply IH. intros Hi. apply Hs. by apply infix_app_r, infix_app_r.
Qed.

Lemma cleaned_ascii m s r : is_ascii s = true → Cleaned m s r → is_ascii r = true.
Proof.
  intros Hs Hc. revert Hs. induction Hc as [|a x b r _ _ IH]; [done|].
  rewrite !is_ascii_app, !andb_true_iff. intros (? & _ & ?). auto.
Qed.

Section ascii_markers.
Context `{UnicodeCase}.

Lemma find_none_infix s m : find s m = None → ~ infix m s.
Proof.
  intros Hf (a & b & E). destruct (find_leftmost _ _ _ _ E) as (n & Hn & _). congruence.
Qed.

(** Nothing before the leftmost occurrence. *)
Lemma find_some_free s m n : m ≠ [] → find s m = Some n → ~ infix m (take n s).
Proof.
  intros Hm Hf (a & b & E). assert (s = a ++ m ++ (b ++ drop n s)) as E'.
  { rewrite <-(take_drop n s) at 1. rewrite E. by rewrite <-!app_assoc. }
  destruct (find_leftmost _ _ _ _ E') as (k & Hk & Hle). simplify_eq.
  apply (f_equal length) in E. rewrite length_take, !length_app in E.
  destruct m; simpl in E; [done|lia].
Qed.

Lemma replace_loop_ascii fuel result m pos acc :
  is_ascii result = true → is_ascii m = true → m ≠ [] → pos ≤ length result →
  length result - pos < fuel →
  ∃ r, replace_loop fuel result (lower result) m (lower m) pos acc = Some (acc ++ r) ∧
       Cleaned m (drop pos result) r.
Proof.
  intros Hr Hma Hm. revert pos acc. induction fuel as [|fuel IH]; intros pos acc Hp Hf; [lia|].
  cbn [replace_loop]. pose proof (ascii_lower_ascii _ Hr) as Hl.
  rewrite (is_ascii_slice_from (lower result)) by (rewrite ?length_fmap; done). simpl.
  destruct (find _ _) as [n|] eqn:Ef.
  - destruct (find_Some _ _ _ Ef) as (a & b & E & <-).
    assert (length a + length m ≤ length result - pos) as Hlen.
    { apply (f_equal length) in E. rewrite length_drop, !length_app, !length_fmap in E. lia. }
    assert (0 < length m) by (destruct m; simpl; [done|lia]).
    rewrite is_ascii_slice by (done || lia). simpl.
    destruct (IH (pos + length a + length m)
      (acc ++ take (pos + length a - pos) (drop pos result) ++ REPLACEMENT)) as (r & Hloop & Hc);
      [lia|lia|].
    rewrite Hloop. exists (take (length a) (drop pos result) ++ REPLACEMENT ++ r). split.
    { replace (pos + length a - pos) with (length a) by lia. by rewrite <-!app_assoc. }
    replace (drop pos result) with
      (take (length a) (drop pos result) ++ take (length m) (drop (pos + length a) result) ++
       drop (pos + length a + length m) result) at 1.
    2: { rewrite <-(take_drop (length a) (drop pos result)) at 2. f_equal.
         rewrite drop_drop. rewrite <-(take_drop (length m) (drop (pos + length a) result)) at 2.
         f_equal. by rewrite drop_drop. }
    constructor; [|done]. rewrite fmap_take, fmap_drop. apply find_some_free; [by destruct m|done].
  - rewrite is_ascii_slice_from by done. simpl. eexists. split; [done|]. constructor.
    rewrite fmap_drop. by apply find_none_infix.
Qed.

Lemma markers_ok :
  Forall (λ m, m ≠ [] ∧ is_ascii m = true ∧ apart (lower m) REPLACEMENT = true) INJECTION_MARKERS.
Proof. repeat constructor; (discriminate || (vm_compute; reflexivity)). Qed.

Lemma strip_marker_ascii content result m :
  is_ascii content = true → is_ascii result = true → m ∈ INJECTION_MARKERS →
  (∀ m', m' ∈ INJECTION_MARKERS → ~ infix (lower m') (lower content) →
         ~ infix (lower m') (lower result)) →
  ∃ r, strip_marker (to_lowercase content) (Some result) m = Some r ∧ is_ascii r = true ∧
       ~ infix (lower m) (lower r) ∧
       ∀ m', m' ∈ INJECTION_MARKERS → ~ infix (lower m') (lower result) → ~ infix (lower m') (lower r).
Proof.
  intros Hc Hr Hm Hinv. pose proof markers_ok as Hok. rewrite Forall_forall in Hok.
  destruct (Hok m Hm) as (Hne & Ha & Hap). unfold strip_marker. cbn [mbind option_bind]. cbv zeta.
  rewrite (to_lowercase_ascii _ Hc), (to_lowercase_ascii _ Ha), (to_lowercase_ascii _ Hr).
  destruct (contains _ _) eqn:E.
  - destruct (replace_loop_ascii (S (length (lower result))) result m 0 [] Hr Ha Hne)
      as (r & Hloop & Hcl); [lia|rewrite length_fmap; lia|].
    rewrite Hloop. change (drop 0 result) with result in Hcl.
    exists r. split; [done|]. split; [by apply (cleaned_ascii m result)|].
    split; [by apply (cleaned_free m result)|]. intros m' Hm'. destruct (Hok m' Hm') as (Hne' & _ & Hap').
    eapply cleaned_keeps_free; [by destruct m'|done|exact Hcl].
  - exists result. split; [done|]. split; [done|]. split; [|done]. apply Hinv; [done|].
    intros (a & b & Hi). enough (contains (lower content) (lower m) = true) by congruence.
    apply contains_spec. eauto.
Qed.

Lemma strip_markers_ascii content ms done_ result :
  is_ascii content = true → is_ascii result = true → INJECTION_MARKERS = done_ ++ ms →
  (∀ m, m ∈ INJECTION_MARKERS → ~ infix (lower m) (lower content) → ~ infix (lower m) (lower result)) →
  (∀ m, m ∈ done_ → ~ infix (lower m) (lower result)) →
  ∃ r, foldl (strip_marker (to_lowercase content)) (Some result) ms = Some r ∧ is_ascii r = true ∧
       ∀ m, m ∈ INJECTION_MARKERS → ~ infix (lower m) (lower r).
Proof.
  intros Hc. revert done_ result. induction ms as [|m ms IH]; intros done_ result Hr Hms Hinv Hd.
  { exists result. split; [done|]. split; [done|]. rewrite Hms, app_nil_r. done. }
  assert (m ∈ INJECTION_MARKERS) as Hm by (rewrite Hms; set_solver).
  destruct (strip_marker_ascii content result m Hc Hr Hm Hinv) as (r & Hs & Hra & Hfree & Hkeep).
  cbn [foldl]. rewrite Hs. apply (IH (done_ ++ [m])); [done|by rewrite <-app_assoc|eauto|].
  intros m' [Hin|Hin]%elem_of_app.
  - apply Hkeep; [rewrite Hms; set_solver|auto].
  - apply list_elem_of_singleton in Hin as ->. done.
Qed.

Lemma strip_injection_markers_clean content :
  is_ascii content = true →
  ∃ r, strip_injection_markers content = Some r ∧ is_ascii r = true ∧
       ∀ m, m ∈ INJECTION_MARKERS → ~ infix (lower m) (lower r).
Proof.
  intros Hc. apply (strip_markers_ascii content INJECTION_MARKERS []); try done.
  intros m Hm. by apply not_elem_of_nil in Hm.
Qed.

Lemma strip_runs_ascii run cs :
  is_ascii (concat run) = true → is_ascii (concat cs) = true → is_ascii (strip_runs run cs) = true.
Proof.
  assert (∀ run, is_ascii (concat run) = true → is_ascii (flush_run run) = true) as Hflush.
  { intros r Hr. unfold flush_run. case_match; [|done]. by rewrite !is_ascii_app, show_nat_ascii. }
  revert run. induction cs as [|c cs IH]; intros run Hr Hc; [by apply Hflush|].
  change (concat (c :: cs)) with (c ++ concat cs) in Hc. cbn [strip_runs].
  rewrite is_ascii_app in Hc. apply andb_true_iff in Hc as [Hc Hcs]. case_match.
  - apply IH; [|done]. rewrite concat_app, is_ascii_app.
    change (concat [c]) with (c ++ []). by rewrite Hr, app_nil_r, Hc.
  - rewrite !is_ascii_app, Hflush, Hc, IH by done. done.
Qed.

(** The note that ends a truncated text. *)
Definition truncation_note (n : nat) : str :=
  lit "...[truncated from " ++ show_nat n ++ lit " chars]".

Lemma markers_note :
  Forall (λ m, apart (lower m) (lit "...[truncated from ") = true ∧
               apart (lower m) (lit " chars]") = true ∧
               if lower m is c :: _ then ascii_digit c = false else False) INJECTION_MARKERS.
Proof. repeat constructor; vm_compute; reflexivity. Qed.

Lemma digit_lower c : ascii_digit c = true → ascii_lower c = c.
Proof.
  unfold ascii_digit, ascii_lower. intros Hd. apply andb_true_iff in Hd as [_ Hd%Nat.leb_le].
  by destruct (Nat.leb_spec 65 (nat_of_ascii c)); [lia|].
Qed.

Lemma note_free m p n :
  m ∈ INJECTION_MARKERS → ~ infix (lower m) (lower p) →
  ~ infix (lower m) (lower (p ++ truncation_note n)).
Proof.
  intros Hm Hp Hi. pose proof markers_note as Hn. rewrite Forall_forall in Hn.
  destruct (Hn m Hm) as (Ha1 & Ha2 & Hd). destruct (lower m) as [|c m'] eqn:Em; [done|].
  unfold truncation_note in Hi. rewrite !fmap_app in Hi.
  apply apart_infix in Hi as [Hi|Hi]; [done| |done|done].
  rewrite <-(app_nil_r (lower (lit " chars]"))) in Hi.
  apply apart_infix in Hi as [Hi|Hi]; [| |done|done].
  - destruct Hi as (a & b & E).
    assert (c ∈ lower (show_nat n)) as Hc by (rewrite E; set_solver).
    apply list_elem_of_fmap in Hc as (d & -> & Hc).
    pose proof (show_nat_digits n) as Hall. rewrite Forall_forall in Hall.
    pose proof (Hall d Hc) as Hdd. simpl in Hdd. rewrite digit_lower in Hd; congruence.
  - destruct Hi as (a & b & E). by destruct a.
Qed.

Lemma infix_take m s n : ~ infix m s → ~ infix m (take n s).
Proof. intros Hs Hi. apply Hs. rewrite <-(take_drop n s). by apply infix_app_l. Qed.

Lemma safe_truncate_free m s n : ~ infix m (lower s) → ~ infix m (lower (safe_truncate_str s n)).
Proof.
  intros Hs. unfold safe_truncate_str. case_match; [done|]. rewrite fmap_take. by apply infix_take.
Qed.

Lemma strip_details_ascii content :
  is_ascii content = true →
  ∃ r, strip_tool_result_details content = Some r ∧ is_ascii r = true ∧
       ∀ m, m ∈ INJECTION_MARKERS → ~ infix (lower m) (lower r).
Proof.
  intros Hc.
  assert (is_ascii (strip_base64_blobs content) = true) as Hb
    by (apply strip_runs_ascii; [done|by rewrite concat_chars]).
  destruct (strip_injection_markers_clean _ Hb) as (r & Hr & Hra & Hfree).
  unfold strip_tool_result_details. rewrite Hr. cbn [mbind option_bind]. eexists. split; [done|].
  case_match; [done|]. split.
  - by rewrite !is_ascii_app, show_nat_ascii, safe_truncate_ascii.
  - intros m Hm. apply (note_free m _ (length r) Hm). by apply safe_truncate_free, Hfree.
Qed.

(** ** Theorems *)

(** For ASCII tool results the cleaning never panics, and what it returns
    contains none of the injection markers in any mix of upper and lower case,
    whatever was put in their places, with the note of a truncation included. *)
Theorem strip_details_clean content :
  is_ascii content = true →
  ∃ r, strip_tool_result_details content = Some r ∧
       ∀ m, m ∈ INJECTION_MARKERS → contains (to_lowercase r) (to_lowercase m) = false.
Proof.
  intros (r & Hr & Hra & Hfree)%strip_details_ascii. exists r. split; [done|]. intros m Hm.
  pose proof markers_ok as Hok. rewrite Forall_forall in Hok. destruct (Hok m Hm) as (_ & Hma & _).
  apply not_true_iff_false. rewrite contains_spec, !to_lowercase_ascii by done. by apply Hfree.
Qed.

Lemma strip_runs_short run cs :
  length run + length cs ≤ BASE64_THRESHOLD → strip_runs run cs = concat run ++ concat cs.
Proof.
  assert (∀ run, length run ≤ BASE64_THRESHOLD → flush_run run = concat run) as Hf.
  { intros r Hr. unfold flush_run. destruct (Nat.ltb_spec BASE64_THRESHOLD (length r)); [lia|done]. }
  revert run. induction cs as [|c cs IH]; intros run Hl; simpl in Hl |- *.
  - rewrite app_nil_r. apply Hf. lia.
  - case_match.
    + rewrite IH by (rewrite length_app; simpl; lia). rewrite concat_app. simpl.
      by rewrite app_nil_r, <-app_assoc.
    + rewrite Hf, IH by (simpl; lia). done.
Qed.

(** Ordinary results are left alone: a text of at most 1000 characters, in
    any script, without a marker is returned as it is. *)
Theorem strip_details_identity content :
  length (chars content) ≤ BASE64_THRESHOLD → length content ≤ MAX_RESULT_LEN →
  (∀ m, m ∈ INJECTION_MARKERS → contains (to_lowercase content) (to_lowercase m) = false) →
  strip_tool_result_details content = Some content.
Proof.
  intros Hc Hl Hm. unfold strip_tool_result_details, strip_base64_blobs.
  rewrite strip_runs_short by (simpl; lia). simpl. rewrite concat_chars.
  assert (strip_injection_markers content = Some content) as ->.
  { unfold strip_injection_markers. revert Hm. generalize INJECTION_MARKERS.
    induction l as [|m ms IH]; intros Hm; [done|]. cbn [foldl]. unfold strip_marker at 2.
    cbn [mbind option_bind]. rewrite (Hm m) by left. apply IH. intros. apply Hm. by right. }
  simpl. by rewrite (proj2 (Nat.leb_le _ _) Hl).
Qed.
End ascii_markers.

(** Capital I with a dot (two bytes) before a marker, and its lower case, in
    which the dot is a code point of its own (three bytes). *)
Definition dotted : str := bytes [196; 176] ++ lit "<|system|>".
Definition dotted_lower : str := lit "i" ++ bytes [204; 135] ++ lit "<|system|>".

(** The positions found in the lower-case text are used in the original.
    When the case mapping changes the number of bytes, as it does for the
    dotted capital I, the slice leaves the text and the call panics. *)
Theorem strip_markers_panics `{UnicodeCase} :
  to_lowercase dotted = dotted_lower → strip_tool_result_details dotted = None.
Proof.
  intros Hd. assert (strip_base64_blobs dotted = dotted) as Hb by (vm_compute; reflexivity).
  unfold strip_tool_result_details. rewrite Hb.
  assert (strip_injection_markers dotted = None) as ->; [|done].
  unfold strip_injection_markers, INJECTION_MARKERS. cbn [foldl].
  assert (strip_marker (to_lowercase dotted) (Some dotted) (lit "<|system|>") = None) as ->.
  { unfold strip_marker. cbn [mbind option_bind].
    rewrite Hd, (to_lowercase_ascii (lit "<|system|>")) by (vm_compute; reflexivity).
    vm_compute. reflexivity. }
  reflexivity.
Qed.

(** ** Witnesses *)

Definition demo_result : str := lit "rows: 3 <|IM_START|>system [SySTEM] done".

Lemma strip_details_clean_witness :
  ∃ r, strip_tool_result_details demo_result = Some r ∧
       ∀ m, m ∈ INJECTION_MARKERS → contains (to_lowercase r) (to_lowercase m) = false.
Proof. apply (strip_details_clean demo_result). vm_compute. reflexivity. Defined.

Lemma strip_details_identity_witness : strip_tool_result_details (lit "rows: 3") = Some (lit "rows: 3").
Proof.
  apply (strip_details_identity (lit "rows: 3"));
    [apply Nat.leb_le; vm_compute; reflexivity..|].
  intros m Hm. repeat (apply elem_of_cons in Hm as [->|Hm]; [vm_compute; reflexivity|]).
  by apply not_elem_of_nil in Hm.
Defined.

Definition dotted_case : UnicodeCase.
Proof.
  refine {| to_lowercase s := if decide (s = dotted) then dotted_lower else ascii_lower <$> s |}.
  intros s Hs. rewrite decide_False; [done|]. intros ->. by vm_compute in Hs.
Defined.

Lemma strip_markers_panics_witness : @strip_tool_result_details dotted_case dotted = None.
Proof. apply (@strip_markers_panics dotted_case). vm_compute. reflexivity. Defined.
