(* ===== verification/ContextWindow.v ===== *)
(** * Fitting the conversation into the context window

    [openfang-runtime/src/context_budget.rs] (the cap on one tool result and
    the guard over all of them), [openfang-runtime/src/context_overflow.rs]
    (the four stages of recovery) and the token estimate of
    [openfang-runtime/src/compactor.rs] they use.

    Sizes are byte lengths. The fractions of the window are computed in [f64]
    as in the source. [schema_to_string] is [serde_json::to_string] on the
    input schema of a tool. A slice that is not at a character boundary
    panics: [None]. *)

From Stdlib Require Import Ascii ZArith Lia.
From stdpp Require Import base strings list sets.
From S2P Require Import Prelude Strs Floats Message.

(** ** Budget *)

Record ContextBudget : Type := mkBudget {
  context_window_tokens : nat;
  tool_chars_per_token : SpecFloat.spec_float;
  general_chars_per_token : SpecFloat.spec_float
}.

Definition new_budget (context_window_tokens : nat) : ContextBudget :=
  mkBudget context_window_tokens (f64_lit 2 1) (f64_lit 4 1).

(** [(window as f64 * fraction) as usize], then tokens to characters. *)
Definition fraction_of (window : nat) (fraction : SpecFloat.spec_float) : nat :=
  f64_to_usize (f64_mul (f64_of_nat window) fraction).

Definition budget_chars (b : ContextBudget) (fraction : SpecFloat.spec_float) : nat :=
  fraction_of (fraction_of (context_window_tokens b) fraction) (tool_chars_per_token b).

Definition per_result_cap (b : ContextBudget) : nat := budget_chars b (f64_lit 30 100).
Definition single_result_max (b : ContextBudget) : nat := budget_chars b (f64_lit 50 100).
Definition total_tool_headroom_chars (b : ContextBudget) : nat := budget_chars b (f64_lit 75 100).

(** [s.rfind('\n')]: the last position of a newline. *)
Fixpoint rfind (s : str) (c : ascii) : option nat :=
  match s with
  | [] => None
  | d :: s' =>
      match rfind s' c with
      | Some n => Some (S n)
      | None => if decide (d = c) then Some 0 else None
      end
  end.

(** The last newline in [content[lo..hi]], or [other]. *)
Definition break_at (content : str) (lo hi other : nat) : option nat :=
  part ← slice content lo hi;
  Some (match rfind part newline with Some pos => lo + pos | None => other end).

Definition truncate_tool_result_dynamic (content : str) (b : ContextBudget) : option str :=
  let cap := per_result_cap b in
  if length content <=? cap then Some content
  else
    break_point ← break_at content (cap - 200) cap (cap - 100);
    kept ← slice_to content break_point;
    Some (kept ++ [newline; newline] ++ lit "[TRUNCATED: result was " ++ show_nat (length content)
          ++ lit " chars, showing first " ++ show_nat break_point ++ lit " (budget: "
          ++ show_nat 30 ++ lit "% of " ++ show_nat (context_window_tokens b / Z.to_nat 1000)
          ++ lit "K context window)]").

(** ** The context guard *)

Definition COMPACT_TARGET : nat := Z.to_nat 2000.

(** The marker ends the kept part; the arrow is U+2192. *)
Definition compact_note (from to : nat) : str :=
  [newline; newline] ++ lit "[COMPACTED: " ++ show_nat from ++ lit " " ++ bytes [226; 134; 146]
  ++ lit " " ++ show_nat to ++ lit " chars by context guard]".

Definition truncate_to (content : str) (max_chars : nat) : option str :=
  if length content <=? max_chars then Some content
  else
    let keep := max_chars - 80 in
    break_point ← break_at content (keep - 100) keep keep;
    kept ← slice_to content break_point;
    Some (kept ++ compact_note (length content) break_point).

(** ** Lengths *)

Lemma rfind_lt s c n : rfind s c = Some n → n < length s.
Proof.
  revert n. induction s as [|d s IH]; intros n; simpl; [done|].
  destruct (rfind s c) as [k|]; [|case_decide; [|done]]; intros [= <-]; [|lia].
  specialize (IH k eq_refl). lia.
Qed.

Lemma slice_length s a b t : slice s a b = Some t → length t = b - a ∧ a ≤ b ≤ length s.
Proof.
  unfold slice. case_match eqn:E; [|done]. intros [= <-].
  rewrite !andb_true_iff, !Nat.leb_le in E. rewrite length_take, length_drop. lia.
Qed.

Lemma break_at_le content lo hi other bp :
  other ≤ hi → break_at content lo hi other = Some bp → bp ≤ hi.
Proof.
  unfold break_at. intros Ho. destruct (slice content lo hi) as [part|] eqn:E; [|done].
  simpl. intros [= <-]. apply slice_length in E as [Hl ?].
  destruct (rfind part newline) as [n|] eqn:En; [|done]. apply rfind_lt in En. lia.
Qed.

(** Lengths up to [10^18], which is more than fits in memory. *)
Definition sizeable (c : str) : Prop := (N.of_nat (length c) < 10 ^ N.of_nat 18)%N.

Lemma compact_note_length from to :
  (N.of_nat from < 10 ^ N.of_nat 18)%N → to ≤ from → length (compact_note from to) ≤ 80.
Proof.
  intros Hf Ht. unfold compact_note. rewrite !length_app.
  pose proof (show_nat_length from 18 ltac:(lia) Hf).
  pose proof (show_nat_length to 18 ltac:(lia) ltac:(lia)). simpl. lia.
Qed.

Lemma truncate_to_cases c max c' :
  truncate_to c max = Some c' →
  length c ≤ max ∧ c' = c ∨
  max < length c ∧ ∃ bp, bp ≤ max - 80 ∧ c' = take bp c ++ compact_note (length c) bp.
Proof.
  unfold truncate_to. destruct (Nat.leb_spec (length c) max) as [Hl|Hl]; [intros [= <-]; by left|].
  right. split; [done|]. destruct (break_at _ _ _ _) as [bp|] eqn:E; [|done]. simpl in *.
  apply break_at_le in E; [|done]. unfold slice_to in *. case_match; simplify_eq/=. by exists bp.
Qed.

Lemma truncate_to_length c max c' :
  sizeable c → truncate_to c max = Some c' → length c' ≤ max `max` 80.
Proof.
  intros Hs [[Hl ->]|(Hl & bp & Hbp & ->)]%truncate_to_cases; [lia|].
  rewrite length_app, length_take.
  pose proof (compact_note_length (length c) bp Hs ltac:(lia)). lia.
Qed.

(** A text that is ASCII up to a note of at most 80 bytes. The cuts fall into
    the ASCII part, so truncating it does not panic. *)
Definition tame (c : str) : Prop :=
  ∃ p note, c = p ++ note ∧ is_ascii p = true ∧ length note ≤ 80.

Lemma ascii_prefix_boundary p t i :
  is_ascii p = true → i = 0 ∨ i < length p → is_char_boundary (p ++ t) i = true.
Proof.
  intros Hp [->|Hi]; [done|]. unfold is_char_boundary.
  destruct (Nat.eqb_spec i 0); [done|]. destruct (Nat.eqb_spec i (length (p ++ t))); [done|].
  destruct (lookup_lt_is_Some_2 p i Hi) as [x Hx]. rewrite lookup_app_l, Hx by done.
  pose proof (is_ascii_lookup _ _ _ Hp Hx). unfold is_continuation.
  rewrite bool_decide_eq_false_2; [done|lia].
Qed.

Lemma truncate_to_tame c max :
  sizeable c → tame c → ∃ c', truncate_to c max = Some c' ∧ tame c'.
Proof.
  intros Hs (p & note & -> & Hp & Hn). unfold truncate_to.
  destruct (Nat.leb_spec (length (p ++ note)) max) as [Hl|Hl]; [eexists; split; [done|]; by exists p, note|].
  assert (∀ i, i ≤ max - 80 → is_char_boundary (p ++ note) i = true) as Hb.
  { intros i Hi. apply ascii_prefix_boundary; [done|]. rewrite length_app in Hl. lia. }
  destruct (break_at (p ++ note) (max - 80 - 100) (max - 80) (max - 80)) as [bp|] eqn:E.
  - apply break_at_le in E; [|done]. simpl. unfold slice_to. rewrite Hb by done. simpl.
    eexists. split; [done|]. exists (take bp p), (compact_note (length (p ++ note)) bp). split_and!.
    + f_equal. rewrite length_app in Hl. rewrite take_app_le by lia. done.
    + pose proof (is_ascii_take_drop p bp 0 Hp) as Ht. by rewrite drop_0 in Ht.
    + apply compact_note_length; [done|]. rewrite length_app in *. lia.
  - exfalso. unfold break_at, slice in E. rewrite !Hb in E by lia.
    rewrite (proj2 (Nat.leb_le _ _)), (proj2 (Nat.leb_le _ (length _))) in E by lia. done.
Qed.

Section context.
Context {Value : Type}.
Implicit Types (msgs : list (Message Value)) (b : ContentBlock Value).

Record ToolResultLoc : Type := mkLoc { msg_idx : nat; block_idx : nat; char_len : nat }.

(** The text of a tool result. *)
Definition result_text b : option str :=
  match b with ToolResult _ content _ => Some content | _ => None end.

Definition blocks_of (m : Message Value) : list (ContentBlock Value) :=
  match content m with Blocks blocks => blocks | Text _ => [] end.

(** The locations, in the order of the two loops. *)
Definition locations msgs : list ToolResultLoc :=
  '(i, m) ← enumerate msgs;
  omap (λ '(j, b), (λ c, mkLoc i j (length c)) <$> result_text b) (enumerate (blocks_of m)).

(** The tool result at a location, and its replacement: the [if let]s of both
    passes skip a location that holds anything else. *)
Definition result_at msgs (l : ToolResultLoc) : option str :=
  m ← msgs !! msg_idx l; b ← blocks_of m !! block_idx l; result_text b.

Definition set_block_text (c : str) b : ContentBlock Value :=
  match b with ToolResult id _ e => ToolResult id c e | _ => b end.

Definition with_blocks (f : list (ContentBlock Value) → list (ContentBlock Value))
    (m : Message Value) : Message Value :=
  match content m with
  | Blocks blocks => mkMessage (role m) (Blocks (f blocks))
  | Text _ => m
  end.

Definition set_result msgs (l : ToolResultLoc) (c : str) : list (Message Value) :=
  alter (with_blocks (alter (set_block_text c) (block_idx l))) (msg_idx l) msgs.

Record GuardState : Type := mkGuard {
  history : list (Message Value);
  total_chars : nat;
  compacted : nat
}.

(** The body of both passes: the result at [l] is truncated to [max] and the
    total is adjusted. *)
Definition shrink (g : GuardState) (l : ToolResultLoc) (max : nat) : option GuardState :=
  match result_at (history g) l with
  | None => Some g
  | Some c =>
      c' ← truncate_to c max;
      Some (mkGuard (set_result (history g) l c') (total_chars g - length c + length c')
              (compacted g + 1))
  end.

(** First pass: every result over the single maximum. *)
Fixpoint cap_singles (single_max : nat) (ls : list ToolResultLoc) (g : GuardState)
    : option GuardState :=
  match ls with
  | [] => Some g
  | l :: ls =>
      g' ← if single_max <? char_len l then shrink g l single_max else Some g;
      cap_singles single_max ls g'
  end.

(** Second pass: the oldest first, until the total is under the headroom. *)
Fixpoint compact_oldest (headroom : nat) (ls : list ToolResultLoc) (g : GuardState)
    : option GuardState :=
  match ls with
  | [] => Some g
  | l :: ls =>
      if total_chars g <=? headroom then Some g
      else if char_len l <=? COMPACT_TARGET then compact_oldest headroom ls g
      else
        g' ← match result_at (history g) l with
             | Some c => if COMPACT_TARGET <? length c then shrink g l COMPACT_TARGET else Some g
             | None => Some g
             end;
        compact_oldest headroom ls g'
  end.

Definition apply_context_guard msgs (b : ContextBudget) : option (list (Message Value) * nat) :=
  let ls := locations msgs in
  let total := sum_list (char_len <$> ls) in
  if total <=? total_tool_headroom_chars b then Some (msgs, 0)
  else
    g ← cap_singles (single_result_max b) ls (mkGuard msgs total 0);
    g ← compact_oldest (total_tool_headroom_chars b) ls g;
    Some (history g, compacted g).

(** ** Facts on the guard *)

Definition block_total b : nat := match result_text b with Some c => length c | None => 0 end.
Definition message_total (m : Message Value) : nat := sum_list (block_total <$> blocks_of m).
Definition results_total msgs : nat := sum_list (message_total <$> msgs).

(** A message without the texts of its tool results. *)
Definition skeleton (m : Message Value) : Message Value := with_blocks (fmap (set_block_text [])) m.

Lemma sum_list_alter {A} (f : A → nat) (g : A → A) i l x :
  l !! i = Some x → sum_list (f <$> alter g i l) + f x = sum_list (f <$> l) + f (g x).
Proof.
  revert i. induction l as [|y l IH]; intros [|i] Hi; simplify_eq/=; [lia|].
  specialize (IH i Hi). unfold alter in *. unfold id in *. simpl in *. lia.
Qed.

Lemma sum_locations_blocks (h : nat → nat) (i : nat) (bs : list (ContentBlock Value)) :
  sum_list (char_len <$> omap (λ '(j, b), (λ c, mkLoc i j (length c)) <$> result_text b)
    (imap (λ j b, (h j, b)) bs)) = sum_list (block_total <$> bs).
Proof.
  revert h. induction bs as [|b bs IH]; intros h; [done|]. rewrite imap_cons, omap_cons, fmap_app.
  change (imap ((λ j b, (h j, b)) ∘ S) bs) with (imap (λ j b, ((h ∘ S) j, b)) bs).
  rewrite sum_list_with_app. rewrite (IH (h ∘ S)). simpl.
  unfold block_total at 2. destruct (result_text b); simpl; rewrite ?Nat.add_0_r; done.
Qed.

Lemma sum_locations_from (h : nat → nat) msgs :
  sum_list (char_len <$> ('(i, m) ← imap (λ i m, (h i, m)) msgs;
    omap (λ '(j, b), (λ c, mkLoc i j (length c)) <$> result_text b) (enumerate (blocks_of m))))
  = results_total msgs.
Proof.
  revert h. induction msgs as [|m msgs IH]; intros h; [done|]. rewrite imap_cons.
  change (imap ((λ i m, (h i, m)) ∘ S) msgs) with (imap (λ i m, ((h ∘ S) i, m)) msgs).
  rewrite bind_cons, fmap_app, sum_list_with_app. rewrite (IH (h ∘ S)). unfold results_total. simpl. f_equal.
  apply (sum_locations_blocks (λ j, j)).
Qed.

Lemma sum_locations msgs : sum_list (char_len <$> locations msgs) = results_total msgs.
Proof. apply (sum_locations_from (λ i, i)). Qed.

(** Two locations of the same block. *)
Definition same_place (l l' : ToolResultLoc) : Prop :=
  msg_idx l = msg_idx l' ∧ block_idx l = block_idx l'.

#[local] Instance same_place_dec l l' : Decision (same_place l l').
Proof. unfold same_place. apply _. Defined.

Lemma result_at_same l l' msgs : same_place l l' → result_at msgs l = result_at msgs l'.
Proof. intros [H1 H2]. unfold result_at. by rewrite H1, H2. Qed.

Lemma elem_of_locations msgs l :
  l ∈ locations msgs ↔ ∃ c, result_at msgs l = Some c ∧ char_len l = length c.
Proof.
  unfold locations, result_at. rewrite list_elem_of_bind. split.
  - intros ([i m] & Hl & Him%elem_of_enumerate).
    apply list_elem_of_omap in Hl as ([j b] & Hjb%elem_of_enumerate & Hl).
    apply fmap_Some in Hl as (c & Hc & ->). exists c. simpl. rewrite Him. simpl. rewrite Hjb. done.
  - intros (c & Hc & Hlen). destruct l as [i j n]; simpl in *. subst n.
    destruct (msgs !! i) as [m|] eqn:Em; [|done]. simpl in Hc.
    destruct (blocks_of m !! j) as [b|] eqn:Eb; [|done]. simpl in Hc.
    exists (i, m). split; [|by apply elem_of_enumerate].
    apply list_elem_of_omap. exists (j, b). split; [by apply elem_of_enumerate|]. by rewrite Hc.
Qed.

Lemma blocks_of_with f (m : Message Value) :
  blocks_of (with_blocks f m) = match content m with Blocks bs => f bs | Text _ => [] end.
Proof. unfold blocks_of, with_blocks. by destruct (content m) eqn:E; simpl; rewrite ?E. Qed.

Lemma blocks_of_lookup (m : Message Value) j b :
  blocks_of m !! j = Some b → ∃ bs, content m = Blocks bs ∧ bs !! j = Some b.
Proof. unfold blocks_of. destruct (content m); [done|eauto]. Qed.

Lemma result_at_set msgs l c c' l2 :
  result_at msgs l = Some c →
  result_at (set_result msgs l c') l2 =
  if decide (same_place l2 l) then Some c' else result_at msgs l2.
Proof.
  intros Hc. unfold result_at, set_result in *.
  destruct (msgs !! msg_idx l) as [m|] eqn:Em; [|done]. simpl in Hc.
  destruct (blocks_of m !! block_idx l) as [b|] eqn:Eb; [|done]. simpl in Hc.
  destruct (blocks_of_lookup _ _ _ Eb) as (bs & Hbs & Hb).
  destruct (decide (msg_idx l2 = msg_idx l)) as [E1|E1].
  - rewrite E1, list_lookup_alter_eq, Em. simpl. rewrite blocks_of_with, Hbs.
    destruct (decide (block_idx l2 = block_idx l)) as [E2|E2].
    + rewrite decide_True by done. rewrite E2, list_lookup_alter_eq, Hb. simpl. by destruct b.
    + rewrite decide_False by (by intros [_ ?]). rewrite list_lookup_alter_ne by done.
      unfold blocks_of. by rewrite Hbs.
  - rewrite decide_False by (by intros [? _]). by rewrite list_lookup_alter_ne.
Qed.

Lemma results_total_set msgs l c c' :
  result_at msgs l = Some c →
  results_total (set_result msgs l c') + length c = results_total msgs + length c'.
Proof.
  intros Hc. unfold result_at, set_result, results_total in *.
  destruct (msgs !! msg_idx l) as [m|] eqn:Em; [|done]. simpl in Hc.
  destruct (blocks_of m !! block_idx l) as [b|] eqn:Eb; [|done]. simpl in Hc.
  destruct (blocks_of_lookup _ _ _ Eb) as (bs & Hbs & Hb).
  pose proof (sum_list_alter message_total
    (with_blocks (alter (set_block_text c') (block_idx l))) _ _ _ Em) as E1.
  pose proof (sum_list_alter block_total (set_block_text c') _ _ _ Hb) as E2.
  unfold message_total in E1 at 2 4. rewrite blocks_of_with, Hbs in E1.
  assert (blocks_of m = bs) as Hbm by (unfold blocks_of; by rewrite Hbs). rewrite Hbm in E1.
  assert (block_total b = length c) as Hbt by (unfold block_total; by rewrite Hc).
  assert (block_total (set_block_text c' b) = length c') as Hbt' by (by destruct b).
  lia.
Qed.

Lemma skeleton_set msgs l c : skeleton <$> set_result msgs l c = skeleton <$> msgs.
Proof.
  unfold set_result. apply list_eq. intros i. rewrite !list_lookup_fmap.
  destruct (decide (i = msg_idx l)) as [->|Hi]; [|by rewrite list_lookup_alter_ne].
  rewrite list_lookup_alter_eq. destruct (msgs !! msg_idx l) as [m|]; [|done]. simpl. f_equal.
  unfold skeleton, with_blocks. destruct (content m) as [t|bs] eqn:E; simpl; rewrite ?E; [done|].
  do 2 f_equal. apply list_eq. intros j. rewrite !list_lookup_fmap.
  destruct (decide (j = block_idx l)) as [->|Hj]; [|by rewrite list_lookup_alter_ne].
  rewrite list_lookup_alter_eq. destruct (bs !! block_idx l) as [b|]; [|done]. simpl. by destruct b.
Qed.

Lemma result_at_skeleton msgs l :
  result_at (skeleton <$> msgs) l = (λ _, []) <$> result_at msgs l.
Proof.
  unfold result_at. rewrite list_lookup_fmap. destruct (msgs !! msg_idx l) as [m|]; [|done]. simpl.
  unfold skeleton. rewrite blocks_of_with. unfold blocks_of.
  destruct (content m) as [t|bs]; [done|]. rewrite list_lookup_fmap.
  destruct (bs !! block_idx l) as [b|]; [|done]. simpl. by destruct b.
Qed.

Definition sizeable_results msgs : Prop := ∀ l c, result_at msgs l = Some c → sizeable c.

(** What both passes keep: the count of characters is right, only texts of
    results change, and a result that is small stays small. *)
Definition small (max : nat) msgs (l : ToolResultLoc) : Prop :=
  ∀ c, result_at msgs l = Some c → length c ≤ max.

Definition guard_step (g g' : GuardState) : Prop :=
  (total_chars g = results_total (history g) → total_chars g' = results_total (history g')) ∧
  skeleton <$> history g' = skeleton <$> history g ∧
  (sizeable_results (history g) → sizeable_results (history g') ∧
   ∀ l, small COMPACT_TARGET (history g) l → small COMPACT_TARGET (history g') l).

Lemma guard_step_refl g : guard_step g g.
Proof. by split_and!. Qed.

Lemma guard_step_trans g1 g2 g3 : guard_step g1 g2 → guard_step g2 g3 → guard_step g1 g3.
Proof.
  intros (T1 & S1 & P1) (T2 & S2 & P2). split_and!; [auto|congruence|].
  intros Hs. destruct (P1 Hs) as [Hs2 H1], (P2 (proj1 (P1 Hs))) as [Hs3 H2]. auto.
Qed.

Lemma shrink_step g l max g' : shrink g l max = Some g' → guard_step g g'.
Proof.
  unfold shrink. destruct (result_at (history g) l) as [c|] eqn:Ec;
    [|intros [= <-]; apply guard_step_refl].
  destruct (truncate_to c max) as [c'|] eqn:Et; [|done]. simpl. intros [= <-].
  split_and!; simpl.
  - intros Ht. pose proof (results_total_set _ l c c' Ec). pose proof (results_total_set _ l c [] Ec). simpl in *. lia.
  - apply skeleton_set.
  - intros Hs. pose proof (truncate_to_length _ _ _ (Hs l c Ec) Et) as Hlen.
    pose proof (truncate_to_cases _ _ _ Et) as Hcase.
    assert (length c' ≤ length c `max` 80) as Hle by (destruct Hcase as [[? ->]|[? _]]; lia).
    split; intros l2; [intros c2|intros Hsm c2]; rewrite (result_at_set _ _ c) by done;
      case_decide as Hsp; eauto; intros [= <-].
    + specialize (Hs l c Ec). unfold sizeable in *.
      change (10 ^ N.of_nat 18)%N with 1000000000000000000%N in *. lia.
    + specialize (Hsm c). rewrite (result_at_same _ _ _ Hsp) in Hsm. specialize (Hsm Ec).
      unfold COMPACT_TARGET in *. lia.
Qed.

Lemma shrink_small g l g' :
  sizeable_results (history g) → shrink g l COMPACT_TARGET = Some g' →
  small COMPACT_TARGET (history g') l.
Proof.
  unfold shrink. intros Hs. destruct (result_at (history g) l) as [c|] eqn:Ec;
    [|intros [= <-] c; by rewrite Ec].
  destruct (truncate_to c COMPACT_TARGET) as [c'|] eqn:Et; [|done]. simpl. intros [= <-] c2. simpl.
  rewrite (result_at_set _ _ c) by done. rewrite decide_True by done. intros [= <-].
  pose proof (truncate_to_length _ _ _ (Hs l c Ec) Et). unfold COMPACT_TARGET in *. lia.
Qed.

Lemma cap_singles_step max ls g g' : cap_singles max ls g = Some g' → guard_step g g'.
Proof.
  revert g. induction ls as [|l ls IH]; intros g; simpl; [intros [= <-]; apply guard_step_refl|].
  destruct (max <? char_len l).
  - destruct (shrink g l max) as [g1|] eqn:E; [|done]. simpl. intros H%IH.
    eapply guard_step_trans; [by eapply shrink_step|done].
  - simpl. apply IH.
Qed.

Lemma compact_oldest_step headroom ls g g' :
  sizeable_results (history g) →
  (∀ l, l ∈ ls → char_len l ≤ COMPACT_TARGET → small COMPACT_TARGET (history g) l) →
  compact_oldest headroom ls g = Some g' →
  guard_step g g' ∧
  (total_chars g' ≤ headroom ∨ ∀ l, l ∈ ls → small COMPACT_TARGET (history g') l).
Proof.
  revert g. induction ls as [|l ls IH]; intros g Hs Hsm; cbn [compact_oldest].
  { intros [= <-]. split; [apply guard_step_refl|]. right. intros l Hl. by apply not_elem_of_nil in Hl. }
  destruct (Nat.leb_spec (total_chars g) headroom) as [Hh|Hh].
  { intros [= <-]. split; [apply guard_step_refl|by left]. }
  assert (∀ g1, guard_step g g1 → small COMPACT_TARGET (history g1) l →
    compact_oldest headroom ls g1 = Some g' →
    guard_step g g' ∧ (total_chars g' ≤ headroom ∨
      ∀ l', l' ∈ l :: ls → small COMPACT_TARGET (history g') l')) as Hnext.
  { intros g1 Hg1 Hl H1. destruct (proj2 (proj2 Hg1) Hs) as [Hs1 Hk1].
    destruct (IH g1 Hs1) as [Hg' Hor]; [intros; apply Hk1, Hsm; [by right|done]|done|].
    split; [by eapply guard_step_trans|]. destruct Hor as [?|Hor]; [by left|right].
    intros l' [->|Hl']%elem_of_cons; [|auto]. by apply (proj2 (proj2 (proj2 Hg') Hs1)). }
  destruct (Nat.leb_spec (char_len l) COMPACT_TARGET) as [Hc|Hc].
  { apply Hnext; [apply guard_step_refl|]. apply Hsm; [by left|done]. }
  destruct (result_at (history g) l) as [c|] eqn:Ec; cbn [mbind option_bind].
  - destruct (Nat.ltb_spec COMPACT_TARGET (length c)) as [Hlt|Hle]; cbn [mbind option_bind].
    + destruct (shrink g l COMPACT_TARGET) as [g1|] eqn:E; [|done]. cbn [mbind option_bind].
      apply Hnext; [by eapply shrink_step|by eapply shrink_small].
    + apply Hnext; [apply guard_step_refl|]. intros c2 Hc2. congruence.
  - apply Hnext; [apply guard_step_refl|]. intros c2 Hc2. congruence.
Qed.

(** On tame results neither pass panics. *)
Definition tame_results msgs : Prop := ∀ l c, result_at msgs l = Some c → sizeable c ∧ tame c.

Lemma shrink_tame g l max :
  tame_results (history g) → ∃ g', shrink g l max = Some g' ∧ tame_results (history g').
Proof.
  intros Ht. unfold shrink. destruct (result_at (history g) l) as [c|] eqn:Ec; [|eauto].
  destruct (Ht l c Ec) as [Hs Htc]. destruct (truncate_to_tame c max Hs Htc) as (c' & Hc' & Htc').
  rewrite Hc'. simpl. eexists. split; [done|]. intros l2 c2. simpl.
  rewrite (result_at_set _ _ c) by done. case_decide; [|by apply Ht]. intros [= <-]. split; [|done].
  pose proof (truncate_to_cases _ _ _ Hc') as Hcase.
  pose proof (truncate_to_length _ _ _ Hs Hc'). unfold sizeable in *.
  change (10 ^ N.of_nat 18)%N with 1000000000000000000%N in *.
  destruct Hcase as [[? ->]|[? _]]; lia.
Qed.

Lemma cap_singles_tame max ls g :
  tame_results (history g) → ∃ g', cap_singles max ls g = Some g' ∧ tame_results (history g').
Proof.
  revert g. induction ls as [|l ls IH]; intros g Ht; simpl; [eauto|].
  destruct (max <? char_len l); simpl; [|auto].
  destruct (shrink_tame g l max Ht) as (g1 & -> & Ht1). simpl. auto.
Qed.

Lemma compact_oldest_tame headroom ls g :
  tame_results (history g) → is_Some (compact_oldest headroom ls g).
Proof.
  revert g. induction ls as [|l ls IH]; intros g Ht; cbn [compact_oldest]; [eauto|].
  destruct (total_chars g <=? headroom); [eauto|]. destruct (char_len l <=? COMPACT_TARGET); [auto|].
  destruct (result_at (history g) l) as [c|]; cbn [mbind option_bind]; [|auto].
  destruct (COMPACT_TARGET <? length c); cbn [mbind option_bind]; [|auto].
  destruct (shrink_tame g l COMPACT_TARGET Ht) as (g1 & -> & Ht1). cbn [mbind option_bind]. auto.
Qed.

Lemma guard_tame msgs budget : tame_results msgs → is_Some (apply_context_guard msgs budget).
Proof.
  intros Ht. unfold apply_context_guard. case_match; [eauto|].
  destruct (cap_singles_tame (single_result_max budget) (locations msgs)
    (mkGuard msgs (sum_list (char_len <$> locations msgs)) 0) Ht) as (g1 & -> & Ht1).
  cbn [mbind option_bind].
  destruct (compact_oldest_tame (total_tool_headroom_chars budget) (locations msgs) g1 Ht1) as [g2 ->].
  cbn [mbind option_bind]. eauto.
Qed.

Lemma guard_returns msgs budget msgs' n :
  sizeable_results msgs → apply_context_guard msgs budget = Some (msgs', n) →
  skeleton <$> msgs' = skeleton <$> msgs ∧
  (results_total msgs' ≤ total_tool_headroom_chars budget ∨
   ∀ l c, result_at msgs' l = Some c → length c ≤ COMPACT_TARGET) ∧
  (results_total msgs ≤ total_tool_headroom_chars budget → msgs' = msgs ∧ n = 0).
Proof.
  intros Hs. unfold apply_context_guard. rewrite sum_locations.
  destruct (Nat.leb_spec (results_total msgs) (total_tool_headroom_chars budget)) as [Hh|Hh].
  { intros [= <- <-]. split_and!; [done|by left|done]. }
  destruct (cap_singles _ _ _) as [g1|] eqn:E1; [|done]. cbn [mbind option_bind].
  destruct (compact_oldest _ _ _) as [g2|] eqn:E2; [|done]. cbn [mbind option_bind].
  intros [= <- <-]. apply cap_singles_step in E1 as (T1 & S1 & P1).
  destruct (P1 Hs) as [Hs1 Hk1]. apply compact_oldest_step in E2 as [(T2 & S2 & P2) Hor]; [|done|].
  2: { intros l (c & Hc & Hlen)%elem_of_locations Hle. apply Hk1. intros c2 Hc2. simpl in Hc2.
       congruence || (rewrite Hc in Hc2; injection Hc2 as <-; lia). }
  split; [simpl in S1; congruence|]. split; [|lia].
  destruct Hor as [Ht|Hsmall]; [left; rewrite <-T2; [done|by apply T1]|right].
  intros l c Hc. destruct (result_at msgs l) as [c0|] eqn:E0.
  - apply (Hsmall (mkLoc (msg_idx l) (block_idx l) (length c0))); [|done].
    apply elem_of_locations. by exists c0.
  - exfalso. pose proof (result_at_skeleton (history g2) l) as H2. rewrite S2, S1 in H2. simpl in H2.
    rewrite result_at_skeleton, E0, Hc in H2. done.
Qed.

(** *** What the two passes change and count *)

Definition place (l : ToolResultLoc) : nat * nat := (msg_idx l, block_idx l).

Lemma same_place_eq l l' : same_place l l' ↔ place l = place l'.
Proof. destruct l, l'. unfold same_place, place. simpl. naive_solver. Qed.

Lemma NoDup_enumerate {A} (l : list A) : NoDup (enumerate l).
Proof.
  apply NoDup_alt. intros i j p. rewrite !lookup_enumerate.
  intros (x & _ & ->)%fmap_Some (y & _ & [= -> _])%fmap_Some. done.
Qed.

Lemma NoDup_omap_inj {A B} (f : A → option B) l :
  (∀ x y z, x ∈ l → y ∈ l → f x = Some z → f y = Some z → x = y) → NoDup l → NoDup (omap f l).
Proof.
  intros Hf Hl. induction Hl as [|x l Hx _ IH]; [constructor|]. rewrite omap_cons.
  assert (NoDup (omap f l)) as Hn by (apply IH; intros; eapply Hf; eauto using list_elem_of_further).
  destruct (f x) as [z|] eqn:E; [|done]. simpl. apply NoDup_cons. split; [|done].
  intros (y & Hy & Hz)%list_elem_of_omap.
  rewrite (Hf x y z) in Hx; eauto using list_elem_of_here, list_elem_of_further.
Qed.

(** No block is visited twice. *)
Lemma locations_distinct msgs : NoDup (place <$> locations msgs).
Proof.
  apply NoDup_fmap_2_strong.
  { intros l l' (c & Hc & Hl)%elem_of_locations (c' & Hc' & Hl')%elem_of_locations Hp.
    rewrite (result_at_same l l') in Hc by by apply same_place_eq.
    destruct l, l'; unfold place in *; simplify_eq/=. congruence. }
  unfold locations. apply NoDup_bind; [| |apply NoDup_enumerate].
  - intros [i m] [i' m'] l Hi%elem_of_enumerate Hi'%elem_of_enumerate.
    intros ([j b] & _ & (c & _ & ->)%fmap_Some)%list_elem_of_omap.
    intros ([j' b'] & _ & (c' & _ & [= -> _ _])%fmap_Some)%list_elem_of_omap. congruence.
  - intros [i m] _. apply NoDup_omap_inj; [|apply NoDup_enumerate].
    intros [j b] [j' b'] l Hj%elem_of_enumerate Hj'%elem_of_enumerate (c & _ & ->)%fmap_Some
      (c' & _ & [= -> _])%fmap_Some. congruence.
Qed.

(** A pass over [ls]: what is not there stays, what is there changes by [R]. *)
Definition passed (ls : list ToolResultLoc) (R : str → str → Prop) (before after : list (Message Value)) : Prop :=
  (∀ l, place l ∉ place <$> ls → result_at after l = result_at before l) ∧
  (∀ l c, l ∈ ls → result_at before l = Some c → ∃ c', result_at after l = Some c' ∧ R c c').

Definition count (f : ToolResultLoc → bool) (ls : list ToolResultLoc) : nat := length (List.filter f ls).

Lemma passed_nil R msgs : passed [] R msgs msgs.
Proof. split; [done|]. intros l c Hl. by apply not_elem_of_nil in Hl. Qed.

Lemma passed_cons R l ls m m1 m2 :
  place l ∉ place <$> ls →
  (∀ l', place l' ≠ place l → result_at m1 l' = result_at m l') →
  (∀ c, result_at m l = Some c → ∃ c', result_at m1 l = Some c' ∧ R c c') →
  passed ls R m1 m2 → passed (l :: ls) R m m2.
Proof.
  intros Hl Hother Hc [H1 H2]. split.
  - intros l'. rewrite fmap_cons, not_elem_of_cons. intros [Hne Hn]. rewrite H1, Hother; done.
  - intros l' c [->|Hin]%elem_of_cons Hr; [rewrite H1 by done; auto|].
    apply H2; [done|]. rewrite Hother; [done|]. intros E. apply Hl. rewrite <-E. by apply list_elem_of_fmap_2.
Qed.

Lemma shrink_at g l max g' c :
  result_at (history g) l = Some c → shrink g l max = Some g' →
  ∃ c', truncate_to c max = Some c' ∧ result_at (history g') l = Some c' ∧ compacted g' = compacted g + 1
    ∧ ∀ l', place l' ≠ place l → result_at (history g') l' = result_at (history g) l'.
Proof.
  unfold shrink. intros Ec. rewrite Ec. destruct (truncate_to c max) as [c'|]; [|done]. simpl. intros [= <-].
  exists c'. simpl. split_and!; [done| |done|].
  - rewrite (result_at_set _ _ c) by done. by rewrite decide_True.
  - intros l' Hl'. rewrite (result_at_set _ _ c) by done. rewrite decide_False; [done|]. by rewrite same_place_eq.
Qed.

Definition capped (max : nat) (c c' : str) : Prop :=
  if max <? length c then truncate_to c max = Some c' else c' = c.

Lemma cap_singles_passed max ls g g' :
  NoDup (place <$> ls) → (∀ l, l ∈ ls → ∃ c, result_at (history g) l = Some c ∧ char_len l = length c) →
  cap_singles max ls g = Some g' →
  passed ls (capped max) (history g) (history g') ∧
  compacted g' = compacted g + count (λ l, max <? char_len l) ls.
Proof.
  revert g. induction ls as [|l ls IH]; intros g Hn Hls; cbn [cap_singles].
  { intros [= <-]. split; [apply passed_nil|]. cbn. lia. }
  rewrite fmap_cons in Hn. apply NoDup_cons in Hn as [Hl Hn]. destruct (Hls l) as (c & Hc & Hlen); [by left|].
  assert (∀ g1, (∀ l', place l' ≠ place l → result_at (history g1) l' = result_at (history g) l') →
    ∀ l', l' ∈ ls → ∃ c, result_at (history g1) l' = Some c ∧ char_len l' = length c) as Hnext.
  { intros g1 Hg1 l' Hl'. rewrite Hg1; [apply Hls; by right|]. intros E. apply Hl. rewrite <-E.
    by apply list_elem_of_fmap_2. }
  unfold count. cbn [List.filter]. rewrite Hlen. destruct (max <? length c) eqn:Em; cbn [mbind option_bind length].
  - destruct (shrink g l max) as [g1|] eqn:E; [|done]. cbn [mbind option_bind].
    destruct (shrink_at _ _ _ _ c Hc E) as (c' & Ht & Hc' & Hk & Ho). intros H%IH; [|done|by apply Hnext].
    destruct H as [H1 H2]. split; [|unfold count in H2; lia]. eapply passed_cons; [done..| |done].
    intros c2. rewrite Hc. intros [= <-]. exists c'. split; [done|]. unfold capped. by rewrite Em.
  - intros H%IH; [|done|by apply Hnext]. destruct H as [H1 H2]. split; [|done].
    eapply passed_cons; [done..| |done]. intros c2. rewrite Hc. intros [= <-]. exists c. split; [done|].
    unfold capped. by rewrite Em.
Qed.

Definition compacted_to_target (c c' : str) : Prop :=
  c' = c ∨ COMPACT_TARGET < length c ∧ truncate_to c COMPACT_TARGET = Some c'.

(** The text of the block differs. *)
Definition changed (before after : list (Message Value)) (l : ToolResultLoc) : bool :=
  bool_decide (result_at before l ≠ result_at after l).

Lemma count_ext f f' ls : (∀ l, l ∈ ls → f l = f' l) → count f ls = count f' ls.
Proof.
  intros Hf. unfold count. f_equal. induction ls as [|l ls IH]; [done|]. cbn [List.filter].
  rewrite (Hf l) by by left. rewrite IH; [done|]. intros. apply Hf. by right.
Qed.

Lemma count_none f ls : (∀ l, l ∈ ls → f l = false) → count f ls = 0.
Proof.
  intros Hf. rewrite (count_ext f (λ _, false)) by done. unfold count. induction ls as [|l ls IH]; [done|].
  apply IH. intros. apply Hf. by right.
Qed.

Lemma changed_refl m l : changed m m l = false.
Proof. unfold changed. apply bool_decide_eq_false_2. intros H. by apply H. Qed.

Lemma compact_oldest_passed headroom ls g g' :
  NoDup (place <$> ls) → sizeable_results (history g) → compact_oldest headroom ls g = Some g' →
  passed ls compacted_to_target (history g) (history g') ∧
  compacted g' = compacted g + count (changed (history g) (history g')) ls.
Proof.
  revert g. induction ls as [|l ls IH]; intros g Hn Hs; cbn [compact_oldest].
  { intros [= <-]. split; [apply passed_nil|]. cbn. lia. }
  rewrite fmap_cons in Hn. apply NoDup_cons in Hn as [Hl Hn].
  assert (∀ l', l' ∈ ls → place l' ≠ place l) as Hne.
  { intros l' Hl' E. apply Hl. rewrite <-E. by apply list_elem_of_fmap_2. }
  destruct (total_chars g <=? headroom).
  { intros [= <-]. split; [|rewrite count_none; [lia|intros; apply changed_refl]].
    split; [done|]. intros l' c _ Hc. exists c. split; [done|by left]. }
  assert (compact_oldest headroom ls g = Some g' →
    passed (l :: ls) compacted_to_target (history g) (history g') ∧
    compacted g' = compacted g + count (changed (history g) (history g')) (l :: ls)) as Hskip.
  { intros H%IH; [|done|done]. destruct H as [H1 H2]. split.
    - eapply passed_cons; [done|done| |done]. intros c Hc. exists c. split; [done|by left].
    - unfold count in *. cbn [List.filter]. unfold changed at 1. rewrite (proj1 H1 l) by done.
      rewrite bool_decide_eq_false_2; [done|]. intros Hx. by apply Hx. }
  destruct (char_len l <=? COMPACT_TARGET); [done|].
  destruct (result_at (history g) l) as [c|] eqn:Ec; cbn [mbind option_bind]; [|done].
  destruct (Nat.ltb_spec COMPACT_TARGET (length c)) as [Hlt|Hle]; cbn [mbind option_bind]; [|done].
  destruct (shrink g l COMPACT_TARGET) as [g1|] eqn:E; [|done]. cbn [mbind option_bind].
  destruct (shrink_at _ _ _ _ c Ec E) as (c' & Ht & Hc' & Hk & Ho).
  pose proof (proj2 (proj2 (shrink_step _ _ _ _ E)) Hs) as [Hs1 _].
  intros H%IH; [|done|done]. destruct H as [H1 H2]. split.
  - eapply passed_cons; [done|done| |done]. intros c2 Hc2. rewrite Ec in Hc2. revert Hc2.  intros [= <-]. exists c'. split; [done|by right].
  - assert (count (changed (history g) (history g')) ls = count (changed (history g1) (history g')) ls) as Hce.
    { apply count_ext. intros l' Hl'. unfold changed. by rewrite Ho by auto. }
    unfold count in *. cbn [List.filter]. unfold changed at 1. rewrite (proj1 H1 l), Ec, Hc' by done.
    rewrite bool_decide_eq_true_2; cbn [length].
    + rewrite H2, Hk. lia.
    + intros [= ->]. pose proof (truncate_to_length _ _ _ (Hs l _ Ec) Ht). unfold COMPACT_TARGET in *. lia.
Qed.

(** What the guard did when the results did not fit: there is a state between
    the passes. *)
Definition guard_report msgs msgs' (single_max n : nat) : Prop :=
  ∃ mid,
    passed (locations msgs) (capped single_max) msgs mid ∧
    passed (locations msgs) compacted_to_target mid msgs' ∧
    n = count (λ l, single_max <? char_len l) (locations msgs) + count (changed mid msgs') (locations msgs).

Lemma guard_reports msgs budget msgs' n :
  sizeable_results msgs → apply_context_guard msgs budget = Some (msgs', n) →
  total_tool_headroom_chars budget < results_total msgs →
  guard_report msgs msgs' (single_result_max budget) n.
Proof.
  intros Hs. unfold apply_context_guard. rewrite sum_locations. intros E Hlt.
  rewrite (proj2 (Nat.leb_gt _ _)) in E by done.
  destruct (cap_singles _ _ _) as [g1|] eqn:E1; [|done]. cbn [mbind option_bind] in E.
  destruct (compact_oldest _ _ _) as [g2|] eqn:E2; [|done]. cbn [mbind option_bind] in E. injection E as <- <-.
  pose proof (proj1 (proj2 (proj2 (cap_singles_step _ _ _ _ E1)) Hs)) as Hs1.
  apply cap_singles_passed in E1 as [P1 N1];
    [|apply locations_distinct|intros l Hl; by apply elem_of_locations in Hl].
  apply compact_oldest_passed in E2 as [P2 N2]; [|apply locations_distinct|done].
  exists (history g1). split_and!; [done|done|]. rewrite N2, N1. done.
Qed.


(** C30: The context guard. When it returns, it has changed nothing but the texts
    of tool results, and the results fit the headroom together or every one
    of them has been brought to at most 2000 bytes; a history that fits is
    left alone and 0 is reported. Otherwise the results over the single
    maximum are first truncated to it, all others kept, and then some of those
    over 2000 bytes truncated to that, and the number reported is that of the
    first truncations plus that of the second: a result that both passes
    truncate counts twice. It panics only if a result is not ASCII. *)
Theorem context_guard_spec msgs budget :
  sizeable_results msgs →
  match apply_context_guard msgs budget with
  | Some (msgs', n) =>
      skeleton <$> msgs' = skeleton <$> msgs ∧
      (results_total msgs' ≤ total_tool_headroom_chars budget ∨
       ∀ l c, result_at msgs' l = Some c → length c ≤ COMPACT_TARGET) ∧
      (if decide (results_total msgs ≤ total_tool_headroom_chars budget) then msgs' = msgs ∧ n = 0
       else guard_report msgs msgs' (single_result_max budget) n)
  | None => ∃ l c, result_at msgs l = Some c ∧ is_ascii c = false
  end.
Proof.
  intros Hs. destruct (apply_context_guard msgs budget) as [[msgs' n]|] eqn:E.
  { destruct (guard_returns _ _ _ _ Hs E) as (H1 & H2 & H3). split_and!; [done|done|].
    case_decide; [auto|]. apply guard_reports; [done|done|lia]. }
  destruct (decide (Forall (λ l, from_option is_ascii true (result_at msgs l) = true) (locations msgs)))
    as [Hall|Hno].
  - exfalso. destruct (guard_tame msgs budget) as [r Hr]; [|congruence]. intros l c Hc.
    split; [by eapply Hs|]. exists c, []. rewrite app_nil_r. split; [done|]. split; [|simpl; lia].
    rewrite Forall_forall in Hall.
    assert (mkLoc (msg_idx l) (block_idx l) (length c) ∈ locations msgs) as Hl
      by (apply elem_of_locations; by exists c).
    apply Hall in Hl. rewrite (result_at_same _ l) in Hl by done. by rewrite Hc in Hl.
  - apply not_Forall_Exists in Hno; [|apply _]. apply Exists_exists in Hno as (l & _ & Hl).
    change (from_option is_ascii true (result_at msgs l) ≠ true) in Hl.
    destruct (result_at msgs l) as [c|] eqn:Ec; simpl in Hl; [|done]. exists l, c.
    split; [done|]. by destruct (is_ascii c).
Qed.

(** ** Token estimate *)

Record ToolDefinition : Type := mkTool { tool_name : str; description : str; input_schema : Value }.

Section estimate.
(** [None] is a schema that cannot be serialized. *)
Context (schema_to_string : Value → option str).

Definition tool_chars (t : ToolDefinition) : nat :=
  length (tool_name t) + length (description t)
  + match schema_to_string (input_schema t) with Some s => length s | None => 0 end.

Definition message_chars msgs : nat := sum_list ((λ m, text_length (content m) + 16) <$> msgs).

Definition estimate_token_count msgs (system_prompt : option str)
    (tools : option (list ToolDefinition)) : nat :=
  (match system_prompt with Some sp => length sp | None => 0 end
   + message_chars msgs
   + match tools with Some ts => sum_list (tool_chars <$> ts) | None => 0 end) `div` 4.

(** ** Overflow recovery *)

Inductive RecoveryStage : Type :=
| NoRecovery
| AutoCompaction (removed : nat)
| OverflowCompaction (removed : nat)
| ToolResultTruncation (truncated : nat)
| FinalError.

Definition estimate_tokens msgs (system_prompt : str) (tools : list ToolDefinition) : nat :=
  estimate_token_count msgs (Some system_prompt) (Some tools).

Definition removal_note (remove : nat) : Message Value :=
  mkMessage User (Text (lit "[System: " ++ show_nat remove
    ++ lit " earlier messages were removed due to context overflow. The conversation continues from here. Use /compact for smarter summarization.]")).

Definition TRUNCATION_LIMIT : nat := Z.to_nat 2000.
Definition TRUNCATION_KEEP : nat := Z.to_nat 1920.

Definition overflow_note (n : nat) : str :=
  [newline; newline] ++ lit "[OVERFLOW RECOVERY: truncated from " ++ show_nat n ++ lit " to "
  ++ show_nat TRUNCATION_KEEP ++ lit " chars]".

(** The loops of stage 3, which count what they truncate. *)
Definition truncate_block b : option (ContentBlock Value * nat) :=
  match b with
  | ToolResult id c e =>
      if TRUNCATION_LIMIT <? length c then
        kept ← slice_to c TRUNCATION_KEEP;
        Some (ToolResult id (kept ++ overflow_note (length c)) e, 1)
      else Some (b, 0)
  | _ => Some (b, 0)
  end.

Fixpoint map_count {A} (f : A → option (A * nat)) (l : list A) : option (list A * nat) :=
  match l with
  | [] => Some ([], 0)
  | x :: l =>
      '(y, n) ← f x;
      '(ys, k) ← map_count f l;
      Some (y :: ys, n + k)
  end.

Definition truncate_message (m : Message Value) : option (Message Value * nat) :=
  match content m with
  | Blocks blocks =>
      '(blocks', n) ← map_count truncate_block blocks;
      Some (mkMessage (role m) (Blocks blocks'), n)
  | Text _ => Some (m, 0)
  end.

Section recovery.
Context (system_prompt : str) (tools : list ToolDefinition) (context_window : nat).

Definition threshold_70 : nat := fraction_of context_window (f64_lit 70 100).
Definition threshold_90 : nat := fraction_of context_window (f64_lit 90 100).

Definition estimate msgs : nat := estimate_tokens msgs system_prompt tools.

Definition stage_3_4 msgs : option (list (Message Value) * RecoveryStage) :=
  '(msgs', truncated) ← map_count truncate_message msgs;
  Some (msgs', if (0 <? truncated) && (estimate msgs' <=? threshold_90)
               then ToolResultTruncation truncated else FinalError).

Definition stage_2 msgs : option (list (Message Value) * RecoveryStage) :=
  let keep := 4 `min` length msgs in
  let remove := length msgs - keep in
  if 0 <? remove then
    let msgs' := removal_note remove :: drop remove msgs in
    if estimate msgs' <=? threshold_90 then Some (msgs', OverflowCompaction remove)
    else stage_3_4 msgs'
  else stage_3_4 msgs.

Definition recover_from_overflow msgs : option (list (Message Value) * RecoveryStage) :=
  let estimated := estimate msgs in
  if estimated <=? threshold_70 then Some (msgs, NoRecovery)
  else if estimated <=? threshold_90 then
    let keep := 10 `min` length msgs in
    let remove := length msgs - keep in
    if 0 <? remove then
      let msgs' := drop remove msgs in
      if estimate msgs' <=? threshold_70 then Some (msgs', AutoCompaction remove)
      else stage_2 msgs'
    else stage_2 msgs
  else stage_2 msgs.

(** ** What recovery leaves *)

Lemma map_count_zero {A} (f : A → option (A * nat)) l l' :
  (∀ x y, f x = Some (y, 0) → y = x) → map_count f l = Some (l', 0) → l' = l.
Proof.
  intros Hf. revert l'. induction l as [|x l IH]; intros l' Hl; simplify_eq/=; [done|].
  destruct (f x) as [[y n]|] eqn:E; simplify_eq/=.
  destruct (map_count f l) as [[ys k]|]; simplify_eq/=.
  assert (n = 0 ∧ k = 0) as [-> ->] by lia. f_equal; [by apply Hf|by apply IH].
Qed.

Lemma truncate_block_zero b b' : truncate_block b = Some (b', 0) → b' = b.
Proof.
  unfold truncate_block. destruct b; intros H; simplify_eq/=; try done.
  case_match; simplify_eq/=; [|done]. destruct (slice_to _ _); simplify_eq/=.
Qed.

Lemma truncate_message_zero m m' : truncate_message m = Some (m', 0) → m' = m.
Proof.
  unfold truncate_message. destruct m as [r [t|bs]]; cbn [content role]; [congruence|].
  destruct (map_count truncate_block bs) as [[bs' n]|] eqn:E; [|done]. intros [= <- ->].
  by rewrite (map_count_zero _ _ _ truncate_block_zero E).
Qed.

Lemma stage_3_4_spec base msgs' stage :
  stage_3_4 base = Some (msgs', stage) →
  ∃ n, map_count truncate_message base = Some (msgs', n) ∧
  match stage with
  | ToolResultTruncation k => k = n ∧ 0 < n ∧ estimate msgs' ≤ threshold_90
  | FinalError => threshold_90 < estimate msgs' ∨ n = 0 ∧ msgs' = base
  | _ => False
  end.
Proof.
  unfold stage_3_4. destruct (map_count truncate_message base) as [[ms n]|] eqn:E; [|done].
  cbn [mbind option_bind]. intros [= <- <-]. exists n. split; [done|].
  destruct (Nat.ltb_spec 0 n) as [Hn|Hn]; simpl.
  - destruct (Nat.leb_spec (estimate ms) threshold_90); [done|]. by left.
  - right. assert (n = 0) as -> by lia. split; [done|].
    by apply (map_count_zero _ _ _ truncate_message_zero E).
Qed.

(** Stage 2 and later, from the messages of the first trim. *)
Definition after_stage_2 base msgs' (stage : RecoveryStage) : Prop :=
  match stage with
  | OverflowCompaction n =>
      0 < n ∧ n + 4 = length base ∧ msgs' = removal_note n :: drop n base ∧
      estimate msgs' ≤ threshold_90
  | ToolResultTruncation n => 0 < n ∧ estimate msgs' ≤ threshold_90
  | FinalError => threshold_90 < estimate msgs' ∨ length base ≤ 4 ∧ msgs' = base
  | _ => False
  end.

Lemma stage_2_spec base msgs' stage :
  stage_2 base = Some (msgs', stage) → after_stage_2 base msgs' stage.
Proof.
  unfold stage_2. destruct (Nat.ltb_spec 0 (length base - 4 `min` length base)) as [Hr|Hr].
  - replace (length base - 4 `min` length base) with (length base - 4) by lia.
    destruct (Nat.leb_spec (estimate (removal_note (length base - 4) :: drop (length base - 4) base))
                threshold_90) as [He|He].
    + intros [= <- <-]. simpl. repeat split; (done || lia).
    + intros (n & _ & Hs)%stage_3_4_spec. destruct stage; try done; simpl.
      * by destruct Hs as (-> & ? & ?).
      * left. destruct Hs as [?|[_ ->]]; done.
  - intros (n & _ & Hs)%stage_3_4_spec. destruct stage; try done; simpl.
    + by destruct Hs as (-> & ? & ?).
    + destruct Hs as [?|[_ ->]]; [by left|right]. split; [lia|done].
Qed.

(** ** Panics of stage 3 *)

(** A tool result that cannot be cut at byte 1920. *)
Definition uncuttable b : Prop :=
  ∃ id c e x, b = ToolResult id c e ∧ TRUNCATION_LIMIT < length c ∧
    c !! TRUNCATION_KEEP = Some x ∧ is_continuation x = true.

Lemma map_count_None {A} (f : A → option (A * nat)) l :
  map_count f l = None ↔ ∃ x, x ∈ l ∧ f x = None.
Proof.
  induction l as [|x l IH]; simpl.
  - split; [done|]. intros (x & Hx & _). by apply not_elem_of_nil in Hx.
  - setoid_rewrite elem_of_cons. destruct (f x) as [[y n]|] eqn:E; simpl.
    + destruct (map_count f l) as [[ys k]|]; simpl.
      * split; [done|]. intros (z & [->|Hz] & Hf); [congruence|].
        discriminate (proj2 IH). eauto.
      * split; [|done]. intros _. destruct (proj1 IH eq_refl) as (z & ? & ?). eauto.
    + split; [eauto|done].
Qed.

Lemma truncate_block_None b : truncate_block b = None ↔ uncuttable b.
Proof.
  unfold truncate_block, uncuttable. split.
  - destruct b as [| | |id c e| |]; try done. destruct (Nat.ltb_spec TRUNCATION_LIMIT (length c)) as [Hl|]; [|done].
    destruct (slice_to c TRUNCATION_KEEP) eqn:E; [done|]. intros _.
    assert (length c `min` TRUNCATION_KEEP = TRUNCATION_KEEP) as Hmin
      by (apply Nat.min_r; unfold TRUNCATION_LIMIT, TRUNCATION_KEEP in *; lia).
    rewrite <-Hmin in E. apply slice_min_None in E as (x & Hx & Hc); [|unfold TRUNCATION_KEEP; lia].
    by exists id, c, e, x.
  - intros (id & c & e & x & -> & Hl & Hx & Hc).
    rewrite (proj2 (Nat.ltb_lt _ _) Hl).
    assert (length c `min` TRUNCATION_KEEP = TRUNCATION_KEEP) as Hmin
      by (apply Nat.min_r; unfold TRUNCATION_LIMIT, TRUNCATION_KEEP in *; lia).
    assert (slice_to c TRUNCATION_KEEP = None) as ->; [|done].
    rewrite <-Hmin. apply slice_min_None; [unfold TRUNCATION_KEEP; lia|eauto].
Qed.

Lemma truncate_message_None m :
  truncate_message m = None ↔ ∃ b, b ∈ blocks_of m ∧ uncuttable b.
Proof.
  unfold truncate_message, blocks_of. destruct (content m) as [t|bs].
  - split; [done|]. intros (b & Hb & _). by apply not_elem_of_nil in Hb.
  - setoid_rewrite <-truncate_block_None. rewrite <-map_count_None.
    by destruct (map_count truncate_block bs) as [[]|].
Qed.

Lemma stage_3_4_None msgs :
  stage_3_4 msgs = None ↔ ∃ m b, m ∈ msgs ∧ b ∈ blocks_of m ∧ uncuttable b.
Proof.
  transitivity (map_count truncate_message msgs = None).
  - unfold stage_3_4. by destruct (map_count truncate_message msgs) as [[]|].
  - rewrite map_count_None. setoid_rewrite truncate_message_None. naive_solver.
Qed.

Lemma elem_of_drop_sub {A} (x : A) k l : x ∈ drop k l → x ∈ l.
Proof. intros Hx. rewrite <-(take_drop k l). apply elem_of_app. by right. Qed.

Lemma stage_2_None msgs :
  stage_2 msgs = None → ∃ m b, m ∈ msgs ∧ b ∈ blocks_of m ∧ uncuttable b.
Proof.
  unfold stage_2. repeat case_match; try done; intros (m & b & Hm & Hb & Hu)%stage_3_4_None; eauto.
  apply elem_of_cons in Hm as [->|Hm%elem_of_drop_sub]; [|eauto].
  by apply not_elem_of_nil in Hb.
Qed.

(** Recovery panics only because of a tool result of more than 2000 bytes
    in which byte 1920 is inside a character; one such result in at most four
    messages that fill more than 90 percent of the window is enough. *)
Theorem recovery_panics msgs :
  (recover_from_overflow msgs = None → ∃ m b, m ∈ msgs ∧ b ∈ blocks_of m ∧ uncuttable b) ∧
  (threshold_90 < estimate msgs → threshold_70 < estimate msgs → length msgs ≤ 4 →
   (∃ m b, m ∈ msgs ∧ b ∈ blocks_of m ∧ uncuttable b) → recover_from_overflow msgs = None).
Proof.
  unfold recover_from_overflow. split.
  - repeat case_match; try done; intros Hs%stage_2_None; try done.
    destruct Hs as (m & b & Hm%elem_of_drop_sub & ?). eauto.
  - intros H90 H70 Hl Hu.
    rewrite (proj2 (Nat.leb_gt _ _) H70), (proj2 (Nat.leb_gt _ _) H90). unfold stage_2.
    rewrite Nat.min_r, Nat.sub_diag by done. simpl. by apply stage_3_4_None.
Qed.

(** Overflow recovery, stage by stage. A stage that reports success leaves
    an estimate within its threshold; the first trim keeps exactly the last
    ten messages; the second keeps the last four after a note; and the final
    error is returned because the estimate is still over 90 percent of the
    window, or else nothing was changed because there are at most four
    messages, although the estimate is within the 90 percent. *)
Theorem recovery_outcome msgs msgs' stage :
  recover_from_overflow msgs = Some (msgs', stage) →
  match stage with
  | NoRecovery => msgs' = msgs ∧ estimate msgs ≤ threshold_70
  | AutoCompaction n =>
      0 < n ∧ n + 10 = length msgs ∧ msgs' = drop n msgs ∧ estimate msgs' ≤ threshold_70
  | OverflowCompaction n =>
      ∃ k, (k = 0 ∨ k + 10 = length msgs) ∧ 0 < n ∧ k + n + 4 = length msgs ∧
           msgs' = removal_note n :: drop (k + n) msgs ∧ estimate msgs' ≤ threshold_90
  | ToolResultTruncation n => 0 < n ∧ estimate msgs' ≤ threshold_90
  | FinalError =>
      threshold_90 < estimate msgs' ∨
      length msgs ≤ 4 ∧ msgs' = msgs ∧ threshold_70 < estimate msgs
  end.
Proof.
  unfold recover_from_overflow.
  destruct (Nat.leb_spec (estimate msgs) threshold_70) as [H70|H70]; [by intros [= <- <-]|].
  assert (∀ k, k = 0 ∨ k + 10 = length msgs → stage_2 (drop k msgs) = Some (msgs', stage) →
    match stage with
    | NoRecovery | AutoCompaction _ => False
    | OverflowCompaction n =>
      ∃ k, (k = 0 ∨ k + 10 = length msgs) ∧ 0 < n ∧ k + n + 4 = length msgs ∧
           msgs' = removal_note n :: drop (k + n) msgs ∧ estimate msgs' ≤ threshold_90
    | ToolResultTruncation n => 0 < n ∧ estimate msgs' ≤ threshold_90
    | FinalError => threshold_90 < estimate msgs' ∨
        length msgs ≤ 4 ∧ msgs' = msgs ∧ threshold_70 < estimate msgs
    end) as Hs2.
  { intros k Hk Hs%stage_2_spec. destruct stage; try done; simpl in Hs.
    - exists k. rewrite length_drop in Hs. destruct Hs as (? & ? & -> & ?).
      rewrite <-drop_drop. repeat split; (done || lia).
    - destruct Hs as [?|[Hl ->]]; [by left|right]. rewrite length_drop in Hl.
      destruct Hk as [->|Hk]; [|lia]. rewrite drop_0. split; [lia|done]. }
  destruct (Nat.leb_spec (estimate msgs) threshold_90) as [H90|H90];
    [|intros Hs; specialize (Hs2 0 (or_introl eq_refl) Hs); by destruct stage].
  destruct (Nat.ltb_spec 0 (length msgs - 10 `min` length msgs)) as [Hr|Hr];
    [|intros Hs; specialize (Hs2 0 (or_introl eq_refl) Hs); by destruct stage].
  replace (length msgs - 10 `min` length msgs) with (length msgs - 10) by lia.
  destruct (Nat.leb_spec (estimate (drop (length msgs - 10) msgs)) threshold_70) as [He|He].
  - intros [= <- <-]. repeat split; (done || lia).
  - intros Hs. assert (length msgs - 10 + 10 = length msgs) as Hk by lia.
    specialize (Hs2 _ (or_intror Hk) Hs). by destruct stage.
Qed.

Lemma map_count_same {A} (f : A → option (A * nat)) l :
  (∀ x, x ∈ l → f x = Some (x, 0)) → map_count f l = Some (l, 0).
Proof.
  induction l as [|x l IH]; intros Hf; [done|]. simpl. rewrite (Hf x) by left. simpl.
  rewrite IH; [done|]. intros y Hy. apply Hf. by right.
Qed.

(** Recovery gives up too early. With at most four messages and no tool
    result to truncate, a conversation over 70 but within 90 percent of the
    window gets the final error, although the later stages accept 90 percent. *)
Theorem recovery_gives_up msgs :
  threshold_70 < estimate msgs ≤ threshold_90 → length msgs ≤ 4 →
  (∀ m b, m ∈ msgs → b ∈ blocks_of m → block_total b ≤ TRUNCATION_LIMIT) →
  recover_from_overflow msgs = Some (msgs, FinalError).
Proof.
  intros [H70 H90] Hl Hb. unfold recover_from_overflow.
  rewrite (proj2 (Nat.leb_gt _ _) H70), (proj2 (Nat.leb_le _ _) H90).
  rewrite (Nat.min_r 10), Nat.sub_diag by lia. cbn [Nat.ltb Nat.leb]. unfold stage_2.
  rewrite Nat.min_r, Nat.sub_diag by done. cbn [Nat.ltb Nat.leb]. unfold stage_3_4.
  assert (map_count truncate_message msgs = Some (msgs, 0)) as ->; [|reflexivity].
  apply map_count_same. intros m Hm. unfold truncate_message.
  destruct m as [r [t|bs]]; cbn [content role]; [done|].
  assert (map_count truncate_block bs = Some (bs, 0)) as ->; [|reflexivity].
  apply map_count_same. intros b Hbs. specialize (Hb _ b Hm Hbs).
  unfold truncate_block, block_total in *. destruct b; try done. simpl in Hb.
  by rewrite (proj2 (Nat.ltb_ge _ _) Hb).
Qed.
End recovery.
End estimate.
End context.

(** ** Witnesses

    Messages over a trivial type of tool inputs; windows of 100 tokens. *)

Definition demo_text (n : nat) : Message unit := mkMessage User (Text (replicate n "x"%char)).

Definition demo_call (c : str) : list (Message unit) :=
  [mkMessage Assistant (Blocks [ToolUse (lit "t") (lit "ls") tt]);
   mkMessage User (Blocks [ToolResult (lit "t") c false])].

Abbreviation demo_recover := (recover_from_overflow (λ _ : unit, Some []) (lit "sys") [] 100).

Lemma recovery_outcome_witness :
  ∃ msgs', demo_recover (replicate 12 (demo_text 9)) = Some (msgs', AutoCompaction 2) ∧
    0 < 2 ∧ 2 + 10 = length (replicate 12 (demo_text 9)) ∧
    msgs' = drop 2 (replicate 12 (demo_text 9)) ∧
    estimate (λ _ : unit, Some []) (lit "sys") [] msgs' ≤ threshold_70 100.
Proof.
  eexists. split; [vm_compute; reflexivity|].
  apply (recovery_outcome (λ _ : unit, Some []) (lit "sys") [] 100
           (replicate 12 (demo_text 9)) _ (AutoCompaction 2)).
  vm_compute. reflexivity.
Defined.

(** A result with a two-byte character across byte 1920. *)
Definition demo_umlaut : str :=
  replicate (Z.to_nat 1919) "x"%char ++ bytes [195; 164] ++ replicate 100 "x"%char.

Lemma demo_uncuttable : uncuttable (Value := unit) (ToolResult (lit "t") demo_umlaut false).
Proof.
  exists (lit "t"), demo_umlaut, false, (ascii_of_nat 164).
  split; [reflexivity|]. split; [|split; vm_compute; reflexivity].
  apply Nat.ltb_lt. vm_compute. reflexivity.
Qed.

Lemma recovery_panics_witness : demo_recover (demo_call demo_umlaut) = None.
Proof.
  apply (proj2 (recovery_panics (λ _ : unit, Some []) (lit "sys") [] 100 (demo_call demo_umlaut)));
    [apply Nat.ltb_lt; vm_compute; reflexivity..|simpl; lia|].
  exists (mkMessage User (Blocks [ToolResult (lit "t") demo_umlaut false])),
    (ToolResult (lit "t") demo_umlaut false).
  split; [right; left|]. split; [left|apply demo_uncuttable].
Defined.

Lemma recovery_gives_up_witness :
  demo_recover [demo_text 300] = Some ([demo_text 300], FinalError).
Proof.
  apply (recovery_gives_up (λ _ : unit, Some []) (lit "sys") [] 100 [demo_text 300]).
  - split; [apply Nat.ltb_lt|apply Nat.leb_le]; vm_compute; reflexivity.
  - simpl. lia.
  - intros m b ->%list_elem_of_singleton Hb. by apply not_elem_of_nil in Hb.
Defined.

Lemma context_guard_spec_witness :
  let msgs := demo_call (replicate 300 "x"%char) in
  ∃ msgs' n, apply_context_guard msgs (new_budget 100) = Some (msgs', n) ∧ n = 1 ∧
    guard_report msgs msgs' (single_result_max (new_budget 100)) n.
Proof.
  intros msgs. assert (sizeable_results msgs) as Hs.
  { intros l c Hc. unfold result_at, msgs, demo_call in Hc.
    destruct (msg_idx l) as [|[|]], (block_idx l) as [|[|]]; simplify_eq/=.
    unfold sizeable. vm_compute. reflexivity. }
  pose proof (context_guard_spec msgs (new_budget 100) Hs) as H.
  destruct (apply_context_guard msgs (new_budget 100)) as [[msgs' n]|] eqn:E; [|vm_compute in E; discriminate E].
  exists msgs', n. split; [reflexivity|]. split; [vm_compute in E; injection E as _ <-; reflexivity|].
  destruct H as (_ & _ & H). rewrite decide_False in H; [exact H|].
  intros Hle. apply Nat.leb_le in Hle. vm_compute in Hle. discriminate Hle.
Defined.
