(* ===== verification/Compactor.v ===== *)
(** * Session compaction

    [openfang-runtime/src/compactor.rs]: the triggers, the usage report and
    [compact_session], which replaces the older messages of a session by a
    summary from the model, in one pass, in chunks, or by a note.

    The model is the parameter [driver]: [driver n prompt] is the answer to the
    [n]-th request, its text or its error. Requests are counted through the
    whole compaction. [json_to_string] is [serde_json::to_string] with its
    error as the empty text. *)

From Stdlib Require Import Ascii ZArith Lia.
From stdpp Require Import base strings list sets.
From S2P Require Import Prelude Strs Floats Message Sanitize ContextWindow.

Record CompactionConfig : Type := mkConfig {
  threshold : nat;
  keep_recent : nat;
  max_summary_tokens : Z;
  base_chunk_ratio : SpecFloat.spec_float;
  min_chunk_ratio : SpecFloat.spec_float;
  safety_margin : SpecFloat.spec_float;
  summarization_overhead_tokens : Z;
  max_chunk_chars : nat;
  max_retries : nat;
  token_threshold_ratio : SpecFloat.spec_float;
  config_window_tokens : nat
}.

Definition default_config : CompactionConfig :=
  mkConfig 30 10 1024 (f64_lit 4 10) (f64_lit 15 100) (f64_lit 12 10) 4096 (Z.to_nat 80000) 3
    (f64_lit 7 10) (Z.to_nat 200000).

Definition needs_compaction_by_tokens (estimated_tokens : nat) (config : CompactionConfig) : bool :=
  fraction_of (config_window_tokens config) (token_threshold_ratio config) <? estimated_tokens.

(** ** Usage report *)

Inductive ContextPressure : Type := Low | Medium | High | Critical.

Definition from_percent (pct : SpecFloat.spec_float) : ContextPressure :=
  if f64_gtb pct (f64_lit 85 1) then Critical
  else if f64_gtb pct (f64_lit 70 1) then High
  else if f64_gtb pct (f64_lit 50 1) then Medium
  else Low.

Definition color (p : ContextPressure) : str :=
  match p with
  | Low => lit "green" | Medium => lit "yellow" | High => lit "orange" | Critical => lit "red"
  end.

Record ContextBreakdown : Type := mkBreakdown {
  system_prompt_tokens : nat;
  message_tokens : nat;
  tool_definition_tokens : nat
}.

Record ContextReport : Type := mkReport {
  estimated_tokens : nat;
  context_window : nat;
  usage_percent : SpecFloat.spec_float;
  pressure : ContextPressure;
  message_count : nat;
  breakdown : ContextBreakdown;
  recommendation : str
}.

Definition recommend (p : ContextPressure) : str :=
  match p with
  | Low => lit "Context usage is healthy."
  | Medium => lit "Consider using /compact if the conversation grows longer."
  | High => lit "Context is getting full. Use /compact to summarize older messages."
  | Critical => lit "Context is nearly full! Use /compact or /new immediately."
  end.

(** ** Chunks *)

(** [slice.chunks(n)] for [n > 0]; every chunk takes at least one element, so
    that the length bounds their number. *)
Fixpoint chunks_from {A} (fuel n : nat) (l : list A) : list (list A) :=
  match fuel, l with
  | _, [] | 0, _ => []
  | S fuel, l => take n l :: chunks_from fuel n (drop n l)
  end.

Definition chunks {A} (n : nat) (l : list A) : list (list A) := chunks_from (length l) n l.

(** The chunks, in order, are the list; none is empty or over the size. *)
Lemma chunks_from_spec {A} fuel n (l : list A) :
  0 < n → length l ≤ fuel →
  concat (chunks_from fuel n l) = l ∧
  Forall (λ c, c ≠ [] ∧ length c ≤ n) (chunks_from fuel n l) ∧
  (length (chunks_from fuel n l) - 1) * n ≤ length l.
Proof.
  intros Hn. revert l. induction fuel as [|fuel IH]; intros l Hl.
  { apply Nat.le_0_r, nil_length_inv in Hl. by subst. }
  destruct l as [|x l]; [done|]. remember (x :: l) as k eqn:Ek.
  assert (chunks_from (S fuel) n k = take n k :: chunks_from fuel n (drop n k)) as -> by (by subst).
  assert (0 < length k) as Hk by (subst; simpl; lia).
  destruct (IH (drop n k)) as (Hc & Hf & Hm); [rewrite length_drop; lia|].
  split_and!.
  - change (take n k ++ concat (chunks_from fuel n (drop n k)) = k). rewrite Hc. apply take_drop.
  - constructor; [|done]. split; [|rewrite length_take; lia].
    intros E. apply (f_equal length) in E. rewrite length_take in E. simpl in E. lia.
  - simpl. rewrite Nat.sub_0_r. rewrite length_drop in Hm.
    destruct (chunks_from fuel n (drop n k)) as [|c cs] eqn:E; simpl in *; [lia|].
    assert (n < length k); [|nia]. apply not_ge. intros Hge. rewrite drop_ge in E by lia.
    by destruct fuel.
Qed.

Lemma chunks_spec {A} n (l : list A) :
  0 < n → concat (chunks n l) = l ∧ Forall (λ c, c ≠ [] ∧ length c ≤ n) (chunks n l) ∧
  (length (chunks n l) - 1) * n ≤ length l.
Proof. intros Hn. by apply chunks_from_spec. Qed.

Section compactor.
Context {Value : Type} (json_to_string : Value → str) (schema_to_string : Value → option str).
Context `{UnicodeCase}.
Implicit Types msgs : list (Message Value).

Definition needs_compaction msgs (config : CompactionConfig) : bool :=
  threshold config <? length msgs.

Definition generate_context_report msgs (system_prompt : option str)
    (tools : option (list (ToolDefinition (Value := Value)))) (window : nat) : ContextReport :=
  let sp_tokens := match system_prompt with Some s => length s / 4 | None => 0 end in
  let msg_tokens := message_chars msgs / 4 in
  let tool_tokens :=
    match tools with Some ts => sum_list (tool_chars schema_to_string <$> ts) / 4 | None => 0 end in
  let total := sp_tokens + msg_tokens + tool_tokens in
  let cw := window `max` 1 in
  let pct := f64_min (f64_mul (f64_div (f64_of_nat total) (f64_of_nat cw)) (f64_lit 100 1))
               (f64_lit 100 1) in
  let p := from_percent pct in
  mkReport total cw (f64_div (f64_round (f64_mul pct (f64_lit 10 1))) (f64_lit 10 1)) p
    (length msgs) (mkBreakdown sp_tokens msg_tokens tool_tokens) (recommend p).

Section config.
Context (config : CompactionConfig).

Definition average_length msgs : SpecFloat.spec_float :=
  f64_div (f64_of_nat (sum_list ((λ m, text_length (content m)) <$> msgs))) (f64_of_nat (length msgs)).

Definition compute_adaptive_chunk_ratio msgs : option SpecFloat.spec_float :=
  match msgs with
  | [] => Some (base_chunk_ratio config)
  | _ =>
      let avg_len := average_length msgs in
      let ratio :=
        if f64_gtb avg_len (f64_lit 1000 1) then min_chunk_ratio config
        else if f64_gtb avg_len (f64_lit 500 1)
        then f64_div (f64_add (base_chunk_ratio config) (min_chunk_ratio config)) (f64_lit 2 1)
        else base_chunk_ratio config in
      f64_clamp ratio (min_chunk_ratio config) (base_chunk_ratio config)
  end.

Definition is_oversized (m : Message Value) : bool :=
  max_chunk_chars config / 2 <? text_length (content m).

(** ** The text to summarize *)

Definition blank_line : str := [newline; newline].

Definition role_label (r : Role) : str :=
  match r with User => lit "User" | Assistant => lit "Assistant" | System => lit "System" end.

Definition truncated_text (s : str) : str :=
  let limit := max_chunk_chars config / 4 in
  safe_truncate_str s limit ++ lit "...[truncated from " ++ show_nat (length s) ++ lit " chars]".

(** A text, cut if the message is oversized and the text over the limit. *)
Definition text_entry (label : str) (oversized : bool) (s : str) : str :=
  if is_empty s then []
  else label ++ lit ": "
       ++ (if oversized && (max_chunk_chars config / 4 <? length s) then truncated_text s else s)
       ++ blank_line.

Definition preview (limit : nat) (s : str) : str :=
  if limit <? length s then safe_truncate_str s limit ++ lit "..." else s.

Definition block_entry (label : str) (oversized : bool) (b : ContentBlock Value) : option str :=
  match b with
  | TextBlock text => Some (text_entry label oversized text)
  | ToolUse _ name input =>
      Some (lit "[Used tool '" ++ name ++ lit "' with params: "
            ++ preview 200 (json_to_string input) ++ lit "]" ++ blank_line)
  | ToolResult _ c is_error =>
      cleaned ← strip_tool_result_details c;
      Some (lit "[Tool result (" ++ (if is_error : bool then lit "ERROR" else lit "OK") ++ lit "): "
            ++ preview (Z.to_nat 2000) cleaned ++ lit "]" ++ blank_line)
  | Image media_type _ => Some (lit "[Image: " ++ media_type ++ lit "]" ++ blank_line)
  | Thinking _ | Unknown => Some []
  end.

Definition message_entry (m : Message Value) : option str :=
  let label := role_label (role m) in
  let oversized := is_oversized m in
  match content m with
  | Text s => Some (text_entry label oversized s)
  | Blocks bs => (λ ts, concat ts) <$> mapM (block_entry label oversized) bs
  end.

Definition build_conversation_text msgs : option str := (λ ts, concat ts) <$> mapM message_entry msgs.

(** ** Summaries *)

Section driver.
Context (driver : nat → str → result str str).

Definition summarize_prompt (conversation_text : str) : str :=
  lit "Summarize the following conversation preserving key facts, decisions, user preferences, and important context. Be concise but thorough. Output only the summary, no preamble."
  ++ blank_line ++ lit "---" ++ [newline] ++ conversation_text ++ lit "---".

(** [for attempt in 0..max_retries]; [n] counts the requests made so far. *)
Fixpoint summarize_attempts (more n : nat) (prompt last_error : str) : result str str * nat :=
  match more with
  | 0 => (Err last_error, n)
  | S more =>
      match driver n prompt with
      | Ok summary =>
          if is_empty summary
          then summarize_attempts more (n + 1) prompt (lit "LLM returned empty summary")
          else (Ok summary, n + 1)
      | Err e => summarize_attempts more (n + 1) prompt (lit "LLM summarization failed: " ++ e)
      end
  end.

(** The tail of the conversation, if it is over the limit. *)
Definition conversation_tail (text : str) : option str :=
  let effective_max :=
    f64_to_usize (f64_div (f64_of_nat (max_chunk_chars config)) (safety_margin config)) in
  if effective_max <? length text then slice_from text (length text - effective_max) else Some text.

Definition summarize_messages (n : nat) msgs : option (result str str * nat) :=
  text ← build_conversation_text msgs;
  text ← conversation_tail text;
  Some (summarize_attempts (max_retries config) n (summarize_prompt text) []).

(** The loop over the chunks: summaries or notes in their places, how many
    succeeded, the last error, and the requests made. *)
Fixpoint summarize_each (i : nat) (cs : list (list (Message Value))) (n : nat) (success : nat)
    (last_error : str) : option (list str * nat * str * nat) :=
  match cs with
  | [] => Some ([], success, last_error, n)
  | c :: cs =>
      '(r, n) ← summarize_messages n c;
      match r with
      | Ok summary =>
          '(ss, success, last_error, n) ← summarize_each (i + 1) cs n (success + 1) last_error;
          Some (summary :: ss, success, last_error, n)
      | Err e =>
          '(ss, success, last_error, n) ← summarize_each (i + 1) cs n success e;
          Some ((lit "[Chunk " ++ show_nat (i + 1) ++ lit ": " ++ show_nat (length c)
                 ++ lit " messages, summarization unavailable]") :: ss, success, last_error, n)
      end
  end.

Definition chunk_size msgs : option nat :=
  ratio ← compute_adaptive_chunk_ratio msgs;
  Some (f64_to_usize (f64_ceil (f64_mul (f64_of_nat (length msgs)) ratio)) `max` 5).

Definition merge_prompt (summaries : list str) : str :=
  lit "Merge these " ++ show_nat (length summaries)
  ++ lit " conversation summaries into one concise, coherent summary. Preserve all key facts, decisions, and context. Output only the merged summary."
  ++ blank_line
  ++ join ((λ '(i, s), lit "--- Part " ++ show_nat (i + 1) ++ lit " ---" ++ [newline] ++ s)
             <$> enumerate summaries) blank_line.

Definition summarize_in_chunks (n : nat) msgs : option (result str str * nat) :=
  size ← chunk_size msgs;
  '(summaries, success, last_error, n) ← summarize_each 0 (chunks size msgs) n 0 [];
  Some
    (if success =? 0 then
       (Err (lit "All " ++ show_nat (length summaries) ++ lit " chunks failed to summarize: "
             ++ last_error), n)
     else match summaries with
          | [] => (Err (lit "No chunks were summarized"), n)
          | [s] => (Ok s, n)
          | _ =>
              (Ok match driver n (merge_prompt summaries) with
                  | Ok merged => if is_empty merged then join summaries blank_line else merged
                  | Err _ => join summaries blank_line
                  end, n + 1)
          end).

Record CompactionResult : Type := mkResult {
  summary : str;
  kept_messages : list (Message Value);
  compacted_count : nat;
  chunks_used : nat;
  used_fallback : bool
}.

Definition fallback_note (removed kept : nat) : str :=
  lit "[Session compacted: " ++ show_nat removed ++ lit " messages removed. Recent "
  ++ show_nat kept ++ lit " messages preserved. Summarization was unavailable.]".

(** [(len as f64 / chunk_size as f64).ceil() as u32] *)
Definition count_chunks (len size : nat) : nat :=
  f64_to_usize (f64_ceil (f64_div (f64_of_nat len) (f64_of_nat size))).

Definition compact_session msgs : option (CompactionResult * nat) :=
  let msg_count := length msgs in
  if msg_count <=? keep_recent config then Some (mkResult [] msgs 0 0 false, 0)
  else
    let split_at := msg_count - keep_recent config in
    let to_compact := take split_at msgs in
    let kept := drop split_at msgs in
    '(r, n) ← summarize_messages 0 to_compact;
    match r with
    | Ok s => Some (mkResult s kept (length to_compact) 1 false, n)
    | Err _ =>
        '(r, n) ← summarize_in_chunks n to_compact;
        match r with
        | Ok s =>
            size ← chunk_size to_compact;
            Some (mkResult s kept (length to_compact)
                    (count_chunks (length to_compact) size `max` 1) false, n)
        | Err _ =>
            Some (mkResult (fallback_note (length to_compact) (length kept)) kept
                    (length to_compact) 0 true, n)
        end
    end.

(** ** Requests and failures *)

(** The [i]-th request failed: the model gave an error or an empty answer. *)
Definition failed (i : nat) : Prop :=
  ∃ prompt, match driver i prompt with Ok s => s = [] | Err _ => True end.

Definition all_failed (n n' : nat) : Prop := ∀ i, n ≤ i < n' → failed i.

Lemma all_failed_app n1 n2 n3 : all_failed n1 n2 → all_failed n2 n3 → all_failed n1 n3.
Proof. intros H1 H2 i Hi. destruct (decide (i < n2)); [apply H1|apply H2]; lia. Qed.

Lemma is_empty_spec (s : str) : is_empty s = true ↔ s = [].
Proof. by destruct s. Qed.

Lemma summarize_attempts_spec more n prompt e r n' :
  summarize_attempts more n prompt e = (r, n') →
  n ≤ n' ≤ n + more ∧
  match r with Ok s => s ≠ [] | Err _ => all_failed n n' end.
Proof.
  revert n e. induction more as [|more IH]; intros n e; simpl.
  { intros [= <- <-]. split; [lia|]. intros i Hi. lia. }
  assert (∀ e', (match driver n prompt with Ok s => s = [] | Err _ => True end) →
    summarize_attempts more (n + 1) prompt e' = (r, n') →
    n ≤ n' ≤ n + S more ∧ match r with Ok s => s ≠ [] | Err _ => all_failed n n' end) as Hrec.
  { intros e' Hd Hr. apply IH in Hr as [Hn Hr]. split; [lia|]. destruct r; [done|].
    apply (all_failed_app n (n + 1)); [|done]. intros i Hi. assert (i = n) as -> by lia. by exists prompt. }
  destruct (driver n prompt) as [s|e'] eqn:Ed; [|by apply Hrec].
  destruct (is_empty s) eqn:Es; [apply Hrec; by apply is_empty_spec|].
  intros [= <- <-]. split; [lia|]. by intros ->.
Qed.

Lemma summarize_messages_spec n msgs r n' :
  summarize_messages n msgs = Some (r, n') →
  n ≤ n' ≤ n + max_retries config ∧
  match r with Ok s => s ≠ [] | Err _ => all_failed n n' end.
Proof.
  unfold summarize_messages. destruct (build_conversation_text msgs) as [s|]; [|done]. simpl.
  destruct (conversation_tail s) as [t|]; [|done]. simpl. intros [= Hs].
  by apply summarize_attempts_spec in Hs.
Qed.

Lemma summarize_each_spec i cs n k e ss k' e' n' :
  summarize_each i cs n k e = Some (ss, k', e', n') →
  length ss = length cs ∧ Forall (λ s, s ≠ []) ss ∧ k ≤ k' ∧
  n ≤ n' ≤ n + length cs * max_retries config ∧ (k' = k → all_failed n n').
Proof.
  revert i n k e ss. induction cs as [|c cs IH]; intros i n k e ss; cbn [summarize_each].
  { intros [= <- <- <- <-]. split_and!; (done || lia || constructor || idtac). intros _ j Hj. lia. }
  destruct (summarize_messages n c) as [[r n1]|] eqn:E; [|done]. cbn [mbind option_bind].
  apply summarize_messages_spec in E as [Hn Hr]. destruct r as [s|err].
  - destruct (summarize_each (i + 1) cs n1 (k + 1) e) as [[[[ss1 k1] e1] n2]|] eqn:E1; [|done].
    cbn [mbind option_bind]. intros [= <- <- <- <-]. apply IH in E1 as (Hl & Hf & Hk & Hn2 & _).
    simpl. split_and!; try lia. by constructor.
  - destruct (summarize_each (i + 1) cs n1 k err) as [[[[ss1 k1] e1] n2]|] eqn:E1; [|done].
    cbn [mbind option_bind]. intros [= <- <- <- <-]. apply IH in E1 as (Hl & Hf & Hk & Hn2 & Ha).
    simpl. split_and!; try lia; [by constructor|]. intros ->. by eapply all_failed_app; [|apply Ha].
Qed.

Lemma join_not_nil ss : Forall (λ s : str, s ≠ []) ss → ss ≠ [] → join ss blank_line ≠ [].
Proof.
  intros Hf Hne. destruct ss as [|s ss]; [done|]. apply Forall_cons in Hf as [Hs _].
  destruct ss as [|s' ss]; [done|]. simpl. by destruct s.
Qed.

Lemma chunk_size_ge msgs size : chunk_size msgs = Some size → 5 ≤ size.
Proof.
  unfold chunk_size. destruct (compute_adaptive_chunk_ratio msgs); [|done]. simpl. intros [= <-].
  lia.
Qed.

Lemma summarize_in_chunks_spec n msgs r n' :
  summarize_in_chunks n msgs = Some (r, n') →
  n ≤ n' ≤ n + (length msgs / 5 + 1) * max_retries config + 1 ∧
  match r with Ok s => s ≠ [] | Err _ => all_failed n n' end.
Proof.
  unfold summarize_in_chunks. destruct (chunk_size msgs) as [size|] eqn:Es; [|done].
  cbn [mbind option_bind]. apply chunk_size_ge in Es.
  destruct (summarize_each 0 (chunks size msgs) n 0 []) as [[[[ss k] e] n1]|] eqn:E; [|done].
  cbn [mbind option_bind]. apply summarize_each_spec in E as (Hl & Hf & Hk & Hn & Ha).
  destruct (chunks_spec size msgs ltac:(lia)) as (_ & _ & Hc).
  assert (length (chunks size msgs) ≤ length msgs / 5 + 1) as Hlen.
  { assert ((length (chunks size msgs) - 1) * 5 ≤ length msgs) by nia.
    assert (length (chunks size msgs) - 1 ≤ length msgs / 5); [|lia].
    apply Nat.div_le_lower_bound; lia. }
  assert (n ≤ n1 ≤ n + (length msgs / 5 + 1) * max_retries config) as Hb by nia.
  destruct (Nat.eqb_spec k 0) as [->|Hk0]; [intros [= <- <-]; split; [lia|auto]|].
  destruct ss as [|s1 [|s2 ss]]; intros [= <- <-].
  - simpl in Hl. assert (chunks size msgs = []) as Hnil by (by apply nil_length_inv).
    split; [lia|]. rewrite Hnil in Hn. simpl in Hn. intros i Hi. lia.
  - split; [lia|]. by apply Forall_cons in Hf as [? _].
  - split; [lia|]. pose proof (join_not_nil _ Hf ltac:(done)) as Hj.
    destruct (driver n1 _) as [m|]; [|done]. destruct (is_empty m) eqn:Em; [done|]. by intros ->.
Qed.

(** ** Theorems *)

(** What compaction does with a session. The most recent messages are kept
    unchanged and in order, the others are accounted for and never dropped
    without a summary or a note in their place, the number of requests is
    bounded, and the note is used only if every request failed. *)
Theorem compaction_spec msgs r n :
  compact_session msgs = Some (r, n) →
  kept_messages r = drop (length msgs - keep_recent config) msgs ∧
  compacted_count r = length msgs - keep_recent config ∧
  (0 < compacted_count r → summary r ≠ []) ∧
  n ≤ max_retries config * (compacted_count r / 5 + 2) + 1 ∧
  (used_fallback r = true → all_failed 0 n).
Proof.
  unfold compact_session.
  destruct (Nat.leb_spec (length msgs) (keep_recent config)) as [Hle|Hgt].
  { intros [= <- <-]. simpl. replace (length msgs - keep_recent config) with 0 by lia.
    split_and!; (done || lia). }
  set (k := length msgs - keep_recent config).
  assert (length (take k msgs) = k) as Hk by (rewrite length_take; lia).
  destruct (summarize_messages 0 (take k msgs)) as [[r1 n1]|] eqn:E1; [|done].
  cbn [mbind option_bind]. apply summarize_messages_spec in E1 as [Hn1 Hr1]. rewrite Hk.
  destruct r1 as [s|e1]; [intros [= <- <-]; cbn [kept_messages compacted_count summary used_fallback];
    split_and!; (done || nia)|].
  destruct (summarize_in_chunks n1 (take k msgs)) as [[r2 n2]|] eqn:E2; [|done].
  cbn [mbind option_bind]. apply summarize_in_chunks_spec in E2 as [Hn2 Hr2]. rewrite Hk in Hn2.
  destruct r2 as [s|e2].
  - destruct (chunk_size (take k msgs)) as [size|]; [|done]. cbn [mbind option_bind].
    intros [= <- <-]. cbn [kept_messages compacted_count summary used_fallback].
    split_and!; (done || nia).
  - intros [= <- <-]. cbn [kept_messages compacted_count summary used_fallback].
    split_and!; try (done || nia). intros _. by eapply all_failed_app.
Qed.

(** ** ASCII sessions do not panic *)

Definition ascii_block (b : ContentBlock Value) : bool :=
  match b with
  | TextBlock t => is_ascii t
  | ToolUse _ name input => is_ascii name && is_ascii (json_to_string input)
  | ToolResult _ c _ => is_ascii c
  | Image media_type _ => is_ascii media_type
  | Thinking _ | Unknown => true
  end.

Definition ascii_message (m : Message Value) : bool :=
  match content m with Text s => is_ascii s | Blocks bs => forallb ascii_block bs end.

Lemma ascii_text_entry r o s : is_ascii s = true → is_ascii (text_entry (role_label r) o s) = true.
Proof.
  intros Hs. unfold text_entry, truncated_text. case_match; [done|].
  assert (is_ascii (role_label r) = true) as Hr by (by destruct r).
  case_match; rewrite !is_ascii_app, Hr, ?show_nat_ascii, ?safe_truncate_ascii, ?Hs by done; done.
Qed.

Lemma ascii_preview n s : is_ascii s = true → is_ascii (preview n s) = true.
Proof.
  intros Hs. unfold preview. case_match; [|done]. by rewrite is_ascii_app, safe_truncate_ascii.
Qed.

Lemma ascii_block_entry r o b :
  ascii_block b = true → ∃ t, block_entry (role_label r) o b = Some t ∧ is_ascii t = true.
Proof.
  destruct b as [t|mt d|i name input|i c e|t|]; cbn [block_entry ascii_block]; intros Hb.
  - eexists. split; [done|]. by apply ascii_text_entry.
  - eexists. split; [done|]. by rewrite !is_ascii_app, Hb.
  - apply andb_true_iff in Hb as [Hn Hj]. eexists. split; [done|].
    by rewrite !is_ascii_app, Hn, ascii_preview.
  - destruct (strip_details_ascii c Hb) as (x & -> & Hx & _). cbn [mbind option_bind]. eexists. split; [done|].
    rewrite !is_ascii_app, ascii_preview by done. by destruct e.
  - by eexists.
  - by eexists.
Qed.

Lemma mapM_ascii {A} (f : A → option str) l :
  (∀ x, x ∈ l → ∃ t, f x = Some t ∧ is_ascii t = true) →
  ∃ t, (λ ts, concat ts) <$> mapM f l = Some t ∧ is_ascii t = true.
Proof.
  induction l as [|x l IH]; intros Hf; [by eexists|].
  destruct (Hf x) as (t & Ht & Hta); [by left|]. destruct IH as (ts & Hts & Htsa).
  { intros y Hy. apply Hf. by right. }
  apply fmap_Some in Hts as (l' & Hl' & ->). simpl. rewrite Ht. simpl. rewrite Hl'. simpl.
  eexists. split; [done|]. change (is_ascii (t ++ concat l') = true). by rewrite is_ascii_app, Hta.
Qed.

Lemma ascii_conversation msgs :
  forallb ascii_message msgs = true →
  ∃ t, build_conversation_text msgs = Some t ∧ is_ascii t = true.
Proof.
  rewrite forallb_forall. intros Hall. apply mapM_ascii. intros m Hm.
  apply list_elem_of_In, Hall in Hm. unfold ascii_message, message_entry in *.
  destruct (content m) as [s|bs]; [eexists; split; [done|]; by apply ascii_text_entry|].
  rewrite forallb_forall in Hm. apply mapM_ascii. intros b Hb. apply ascii_block_entry.
  by apply Hm, list_elem_of_In.
Qed.

Lemma summarize_messages_total n msgs :
  forallb ascii_message msgs = true → is_Some (summarize_messages n msgs).
Proof.
  intros (t & Ht & Hta)%ascii_conversation. unfold summarize_messages. rewrite Ht. simpl.
  unfold conversation_tail. case_match; simpl; [|eauto].
  rewrite is_ascii_slice_from by (done || lia). simpl. eauto.
Qed.

Lemma summarize_each_total i cs n k e :
  forallb ascii_message (concat cs) = true → is_Some (summarize_each i cs n k e).
Proof.
  revert i n k e. induction cs as [|c cs IH]; intros i n k e; [simpl; eauto|].
  change (concat (c :: cs)) with (c ++ concat cs). rewrite forallb_app, andb_true_iff.
  intros [Hc Hcs]. cbn [summarize_each]. destruct (summarize_messages_total n c Hc) as [[r n1] ->].
  cbn [mbind option_bind]. destruct r as [s|err].
  - destruct (IH (i + 1) n1 (k + 1) e Hcs) as [[[[? ?] ?] ?] ->]. cbn [mbind option_bind]. eauto.
  - destruct (IH (i + 1) n1 k err Hcs) as [[[[? ?] ?] ?] ->]. cbn [mbind option_bind]. eauto.
Qed.

Definition ratios_ordered : Prop :=
  SpecFloat.SFleb (min_chunk_ratio config) (base_chunk_ratio config) = true.

Lemma chunk_size_total msgs : ratios_ordered → is_Some (chunk_size msgs).
Proof.
  intros Hr. unfold chunk_size, compute_adaptive_chunk_ratio, f64_clamp.
  destruct msgs; [simpl; eauto|]. rewrite Hr. cbn [mbind option_bind]. eauto.
Qed.

Lemma compact_session_returns msgs :
  ratios_ordered → forallb ascii_message msgs = true → is_Some (compact_session msgs).
Proof.
  intros Hr Ha. unfold compact_session. case_match; [eauto|].
  set (k := length msgs - keep_recent config).
  assert (forallb ascii_message (take k msgs) = true) as Hk.
  { rewrite <-(take_drop k msgs), forallb_app in Ha. by apply andb_true_iff in Ha as [? _]. }
  destruct (summarize_messages_total 0 _ Hk) as [[r1 n1] ->]. cbn [mbind option_bind].
  destruct r1; [eauto|]. unfold summarize_in_chunks.
  destruct (chunk_size_total (take k msgs) Hr) as [size Hsize]. rewrite Hsize. cbn [mbind option_bind].
  destruct (chunks_spec size (take k msgs)) as (Hc & _ & _);
    [apply chunk_size_ge in Hsize; lia|].
  destruct (summarize_each_total 0 (chunks size (take k msgs)) n1 0 []) as [[[[ss c] e'] n2] Hss];
    [by rewrite Hc|].
  rewrite Hss. cbn [mbind option_bind]. repeat case_match; simplify_eq/=; eauto.
Qed.

(** C38: Compaction of an ASCII session always returns, whatever the model
    answers, if the minimal chunk ratio is at most the base ratio (otherwise
    [clamp] panics). The most recent messages are then kept unchanged and in
    order, all others are accounted for and replaced by a text that is not
    empty; the model is asked at most as often as the retries for the whole
    and for every five messages allow, and once for the merge; and only if
    every one of these requests failed the text is a mere note. *)
Theorem compaction_total msgs :
  ratios_ordered → forallb ascii_message msgs = true →
  ∃ r n, compact_session msgs = Some (r, n) ∧
    kept_messages r = drop (length msgs - keep_recent config) msgs ∧
    compacted_count r = length msgs - keep_recent config ∧
    (0 < compacted_count r → summary r ≠ []) ∧
    n ≤ max_retries config * (compacted_count r / 5 + 2) + 1 ∧
    (used_fallback r = true → all_failed 0 n).
Proof.
  intros Hr Ha. destruct (compact_session_returns msgs Hr Ha) as [[r n] E].
  exists r, n. split; [done|]. by apply compaction_spec.
Qed.
End driver.
End config.
End compactor.

(** ** Witnesses

    Thirteen messages, of which ten are kept; the model fails three times and
    then answers. *)

Definition demo_session : list (Message unit) :=
  replicate 13 (mkMessage User (Text (lit "hello"))).

Definition demo_driver (n : nat) (_ : str) : result str str :=
  if n <? 3 then Err (lit "busy") else Ok (lit "a summary").

Abbreviation demo_compact := (compact_session (λ _ : unit, lit "{}") default_config demo_driver).

Definition demo_compacted : CompactionResult (Value := unit) :=
  mkResult (lit "a summary") (drop 3 demo_session) 3 1 false.

Lemma compaction_spec_witness :
  kept_messages demo_compacted =
    drop (length demo_session - keep_recent default_config) demo_session ∧
  compacted_count demo_compacted = length demo_session - keep_recent default_config ∧
  (0 < compacted_count demo_compacted → summary demo_compacted ≠ []) ∧
  4 ≤ max_retries default_config * (compacted_count demo_compacted / 5 + 2) + 1 ∧
  (used_fallback demo_compacted = true → all_failed demo_driver 0 4).
Proof.
  apply (compaction_spec (λ _ : unit, lit "{}") default_config demo_driver demo_session
           demo_compacted 4).
  vm_compute. reflexivity.
Defined.

Lemma compaction_total_witness :
  ∃ r n, demo_compact demo_session = Some (r, n) ∧
    n ≤ max_retries default_config * (compacted_count r / 5 + 2) + 1.
Proof.
  destruct (compaction_total (λ _ : unit, lit "{}") default_config demo_driver demo_session)
    as (r & n & E & _ & _ & _ & Hn & _); [vm_compute; reflexivity|vm_compute; reflexivity|].
  exists r, n. split; [exact E|exact Hn].
Defined.
