(* ===== verification/TextLines.v ===== *)
(** * Lines and blanks

    [str::lines], [trim_start], [trim_end] and what the parsers need to know
    about them. *)

From Stdlib Require Import Ascii ZArith Lia.
From stdpp Require Import base strings list sets.
From S2P Require Import Prelude Strs.

(** ** Lines *)

Definition strip_cr (s : str) : str :=
  match last s with
  | Some c => if decide (c = carriage_return) then take (length s - 1) s else s
  | None => s
  end.

(** [s.lines()]: a line ends at a newline or a carriage return and a newline;
    the rest after the last newline is a line unless it is empty. *)
Fixpoint lines_of (parts : list str) : list str :=
  match parts with
  | [] => []
  | [p] => if is_empty p then [] else [p]
  | p :: ps => strip_cr p :: lines_of ps
  end.

Definition lines (s : str) : list str := lines_of (split s newline).

Definition trim_end (s : str) : str :=
  concat (reverse (drop_while is_whitespace (reverse (chars s)))).

(** A line that [lines] gives back: without newline and not ending in a
    carriage return. *)
Definition line_ok (s : str) : bool :=
  bool_decide (newline ∉ s) && bool_decide (last s ≠ Some carriage_return).

Lemma strip_cr_ok s : line_ok s = true → strip_cr s = s.
Proof.
  unfold line_ok, strip_cr. rewrite andb_true_iff, !bool_decide_eq_true. intros [_ Hl].
  destruct (last s) as [c|]; [|done]. case_decide; [congruence|done].
Qed.

Lemma line_ok_newline s : line_ok s = true → newline ∉ s.
Proof. unfold line_ok. rewrite andb_true_iff, !bool_decide_eq_true. tauto. Qed.

Lemma split_app_sep p c s : c ∉ p → split (p ++ c :: s) c = p :: split s c.
Proof.
  induction p as [|d p IH]; intros Hp; simpl.
  - by rewrite decide_True.
  - rewrite not_elem_of_cons in Hp. destruct Hp as [Hd Hp].
    rewrite decide_False by congruence. by rewrite (IH Hp).
Qed.

Lemma split_no_sep_id p c : c ∉ p → split p c = [p].
Proof.
  induction p as [|d p IH]; intros Hp; simpl; [done|].
  rewrite not_elem_of_cons in Hp. destruct Hp as [Hd Hp].
  rewrite decide_False by congruence. by rewrite (IH Hp).
Qed.

(** Lines joined by newlines come back, if the last one is not empty. *)
Lemma lines_join ls l :
  Forall (λ s, line_ok s = true) (ls ++ [l]) → l ≠ [] → lines (join (ls ++ [l]) [newline]) = ls ++ [l].
Proof.
  unfold lines. induction ls as [|s ls IH]; intros Hok Hl.
  - apply Forall_singleton, line_ok_newline in Hok. simpl.
    rewrite split_no_sep_id by done. by destruct l.
  - apply Forall_cons in Hok as [Hs Hok]. specialize (IH Hok Hl).
    assert (join ((s :: ls) ++ [l]) [newline] = s ++ newline :: join (ls ++ [l]) [newline]) as ->.
    { by destruct ls. }
    rewrite split_app_sep by (by apply line_ok_newline).
    destruct (split (join (ls ++ [l]) [newline]) newline) as [|p ps] eqn:E;
      [by destruct (split_not_nil (join (ls ++ [l]) [newline]) newline)|].
    change (strip_cr s :: lines_of (p :: ps) = s :: (ls ++ [l])). by rewrite strip_cr_ok, IH.
Qed.

(** ** Blanks *)

(** A text that neither begins nor ends with white space, and begins with a
    whole code point. *)
Definition tight (s : str) : bool :=
  match chars s, s with
  | c :: cs, b :: _ =>
      negb (is_continuation b) && negb (is_whitespace c)
      && negb (is_whitespace (List.last (c :: cs) []))
  | _, _ => false
  end.

Lemma drop_while_head {A} (f : A → bool) x l : f x = false → drop_while f (x :: l) = x :: l.
Proof. intros Hx. simpl. by rewrite Hx. Qed.

Lemma chars_cons c s : ∃ h t, chars (c :: s) = (c :: h) :: t.
Proof. simpl. destruct (chars s) as [|h t]; [eauto|]. case_match; eauto. Qed.

Lemma chars_nil s : chars s = [] → s = [].
Proof. destruct s as [|c s]; [done|]. destruct (chars_cons c s) as (h & t & ->). done. Qed.

(** Texts that meet at a code point are split separately. *)
Lemma chars_app s t : joins_previous t = false → chars (s ++ t) = chars s ++ chars t.
Proof.
  intros Ht. induction s as [|c s IH]; [done|]. simpl. rewrite IH.
  destruct (chars s) as [|h hs] eqn:E.
  - apply chars_nil in E as ->. simpl. rewrite Ht. by destruct (chars t).
  - simpl. destruct s as [|d s]; [done|]. simpl. by destruct (is_continuation d).
Qed.

Lemma last_snoc_default {A} (l : list A) x d : List.last (l ++ [x]) d = x.
Proof. apply List.last_last. Qed.

Lemma tight_chars s :
  tight s = true → ∃ c, chars s ≠ [] ∧ head (chars s) = Some c ∧ is_whitespace c = false ∧
    joins_previous s = false ∧ is_whitespace (List.last (chars s) []) = false.
Proof.
  unfold tight. destruct (chars s) as [|c cs] eqn:E; [done|]. destruct s as [|b s]; [done|].
  rewrite !andb_true_iff, !negb_true_iff. intros [[Hb Hc] Hl]. by exists c.
Qed.

Lemma trim_chars s cs c c' mid :
  chars s = cs ++ [c] → is_whitespace c = false →
  head (cs ++ [c]) = Some c' → is_whitespace c' = false → mid = concat (cs ++ [c]) → trim s = mid.
Proof.
  intros Hs Hc Hh Hc' ->. unfold trim. rewrite Hs.
  destruct (cs ++ [c]) as [|x l] eqn:E; [by destruct cs|]. simpl in Hh. injection Hh as ->.
  rewrite drop_while_head by done. rewrite <-E, reverse_snoc, drop_while_head by done.
  by rewrite <-reverse_snoc, reverse_involutive.
Qed.

Lemma tight_trim s : tight s = true → trim s = s.
Proof.
  intros (c & Hne & Hh & Hc & _ & Hl)%tight_chars.
  destruct (exists_last Hne) as (cs & x & E). rewrite E, last_snoc_default in Hl.
  apply (trim_chars s cs x c); try done; [by rewrite <-E|]. by rewrite <-E, concat_chars.
Qed.

(** White space before and after a tight text is trimmed. *)
Lemma trim_space_before s : tight s = true → trim (lit " " ++ s) = s.
Proof.
  intros Ht. pose proof (tight_chars s Ht) as (c & Hne & Hh & Hc & Hj & Hl).
  unfold trim. rewrite chars_app by done. simpl. rewrite <-(tight_trim s Ht) at 2. done.
Qed.

Lemma trim_space_after s : tight s = true → trim (s ++ lit " ") = s.
Proof.
  intros Ht. pose proof (tight_chars s Ht) as (c & Hne & Hh & Hc & Hj & Hl).
  unfold trim. rewrite chars_app by done.
  destruct (chars s) as [|x l] eqn:E; [done|]. simpl in Hh. injection Hh as ->.
  change ((c :: l) ++ chars (lit " ")) with (c :: (l ++ [lit " "])).
  rewrite drop_while_head by done.
  change (c :: (l ++ [lit " "])) with ((c :: l) ++ [lit " "]). rewrite reverse_snoc. simpl.
  rewrite <-(tight_trim s Ht) at 1. unfold trim. rewrite E, drop_while_head by done. done.
Qed.

(** A text that does not begin with white space, before a tight one. *)
Definition opens (s : str) : bool :=
  match chars s, s with
  | c :: _, b :: _ => negb (is_continuation b) && negb (is_whitespace c)
  | _, _ => false
  end.

Lemma tight_app s t : opens s = true → tight t = true → tight (s ++ t) = true.
Proof.
  intros Hs Ht. pose proof (tight_chars t Ht) as (c & Hne & Hh & Hc & Hj & Hl).
  unfold opens, tight in Hs |- *. rewrite chars_app by done.
  destruct (chars s) as [|x l]; [done|]. destruct s as [|b s]; [done|]. simpl.
  rewrite Hs. simpl. rewrite negb_true_iff.
  destruct (exists_last Hne) as (ts & y & E). rewrite E in Hl |- *. rewrite last_snoc_default in Hl.
  change (is_whitespace (List.last ((x :: l) ++ ts ++ [y]) []) = false).
  by rewrite app_assoc, last_snoc_default.
Qed.

(** The first byte of a text that does not start a white-space character is
    the first byte of the trimmed text. *)
Definition space_starts : list nat := [9; 10; 11; 12; 13; 32; 194; 225; 226; 227].

Lemma space_first c h : is_whitespace (c :: h) = true → nat_of_ascii c ∈ space_starts.
Proof.
  unfold is_whitespace. rewrite bool_decide_eq_true. unfold whitespace_chars, bytes, space_starts.
  intros Hin. repeat (apply elem_of_cons in Hin as [[= -> ->]|Hin]; [vm_compute; set_solver|]).
  by apply not_elem_of_nil in Hin.
Qed.

Lemma trim_first c s :
  nat_of_ascii c ∉ space_starts → ∃ t, trim (c :: s) = c :: t.
Proof.
  intros Hc. destruct (chars_cons c s) as (h & t & E). unfold trim. rewrite E.
  assert (is_whitespace (c :: h) = false) as Hw.
  { destruct (is_whitespace (c :: h)) eqn:E'; [|done]. by apply space_first in E'. }
  rewrite drop_while_head by done.
  assert (∀ l, ∃ l', drop_while is_whitespace (l ++ [c :: h]) = l' ++ [c :: h]) as Hd.
  { induction l as [|x l [l' IH]]; simpl; [rewrite Hw; by exists []|].
    case_match; [eauto|by exists (x :: l)]. }
  destruct (Hd (reverse t)) as [l' E']. rewrite reverse_cons, E', reverse_snoc. simpl. eauto.
Qed.

(** ** Trimming twice

    A contiguous part of the code points of a text is split into the same code
    points again. *)

Lemma chars_tail s h t : chars s = h :: t → chars (concat t) = t.
Proof.
  revert h t. induction s as [|c s IH]; intros h t; [done|]. simpl.
  destruct (chars s) as [|h' t'] eqn:E; [by intros [= <- <-]|].
  case_match; intros [= <- <-]; [by eapply IH|].
  rewrite <-E at 1. by rewrite concat_chars, E.
Qed.

Lemma chars_drop s n : chars (concat (drop n (chars s))) = drop n (chars s).
Proof.
  revert s. induction n as [|n IH]; intros s; [by rewrite drop_0, concat_chars|].
  destruct (chars s) as [|h t] eqn:E; [done|]. simpl.
  pose proof (chars_tail _ _ _ E) as Ht. rewrite <-Ht at 1. rewrite IH. by rewrite Ht.
Qed.

Lemma chars_eq c s :
  chars (c :: s) =
  match chars s with
  | [] => [[c]]
  | h :: t => if joins_previous s then (c :: h) :: t else [c] :: h :: t
  end.
Proof. done. Qed.

Lemma chars_take s n : chars (concat (take n (chars s))) = take n (chars s).
Proof.
  revert n. induction s as [|c s IH]; intros n; [by destruct n|].
  destruct n as [|n]; [done|]. cbn [chars]. destruct (chars s) as [|h t] eqn:E; [by destruct n|].
  assert (∃ d h', h = d :: h' ∧ joins_previous s = is_continuation d) as (d & h' & -> & Hj).
  { destruct s as [|d s]; [done|]. destruct (chars_cons d s) as (h' & t' & E'). rewrite E' in E.
    injection E as <- _. by exists d, h'. }
  rewrite Hj. destruct (is_continuation d) eqn:Hd.
  - specialize (IH (S n)). cbn [take concat app] in IH |- *. rewrite chars_eq, IH. simpl. by rewrite Hd.
  - destruct n as [|n]; [done|]. specialize (IH (S n)). cbn [take concat app] in IH |- *.
    rewrite chars_eq, IH. simpl. by rewrite Hd.
Qed.

Lemma drop_while_drop {A} (f : A → bool) (l : list A) : ∃ n, drop_while f l = drop n l.
Proof.
  induction l as [|x l [n IH]]; [by exists 0|]. simpl. destruct (f x); [by exists (S n)|by exists 0].
Qed.

Lemma drop_while_idem {A} (f : A → bool) (l : list A) : drop_while f (drop_while f l) = drop_while f l.
Proof. induction l as [|x l IH]; [done|]. simpl. destruct (f x) eqn:E; [done|]. simpl. by rewrite E. Qed.

Lemma drop_while_prefix {A} (f : A → bool) (l p : list A) :
  drop_while f l = l → p `prefix_of` l → drop_while f p = p.
Proof.
  intros Hl [k ->]. destruct p as [|x p]; [done|]. simpl in Hl |- *. destruct (f x) eqn:E; [|done].
  exfalso. apply (f_equal length) in Hl. pose proof (sublist_length _ _ (drop_while_sublist f (p ++ k))).
  simpl in *. lia.
Qed.

(** The code points that remain. *)
Lemma trim_parts s : ∃ a b, trim s = concat (take b (drop a (chars s)))
  ∧ reverse (drop_while is_whitespace (reverse (drop_while is_whitespace (chars s)))) = take b (drop a (chars s)).
Proof.
  destruct (drop_while_drop is_whitespace (chars s)) as [a Ha].
  destruct (drop_while_drop is_whitespace (reverse (drop a (chars s)))) as [b Hb].
  exists a, (length (drop a (chars s)) - b). unfold trim. rewrite Ha, Hb.
  rewrite reverse_drop, length_reverse, reverse_involutive. done.
Qed.

Lemma chars_trim s :
  chars (trim s) = reverse (drop_while is_whitespace (reverse (drop_while is_whitespace (chars s)))).
Proof. destruct (trim_parts s) as (a & b & -> & ->). rewrite <-(chars_drop s a). by rewrite chars_take. Qed.

Lemma trim_idempotent s : trim (trim s) = trim s.
Proof.
  unfold trim at 1. rewrite chars_trim.
  set (l := drop_while is_whitespace (chars s)).
  rewrite (drop_while_prefix is_whitespace l (reverse (drop_while is_whitespace (reverse l)))).
  - by rewrite reverse_involutive, drop_while_idem.
  - apply drop_while_idem.
  - destruct (drop_while_drop is_whitespace (reverse l)) as [n ->].
    exists (reverse (take n (reverse l))). rewrite <-reverse_app, take_drop. by rewrite reverse_involutive.
Qed.
