(* ===== verification/PatchFormat.v ===== *)
(** * The patch format

    The data of [openfang-runtime/src/apply_patch.rs] and [parse_patch]. The
    index into the lines becomes the list of lines still to be read. The loop
    over the hunks of a file and the loop over the lines of a hunk are one
    recursion, which carries the hunk being read: the inner loop ends where a
    line starts with [@@] or three stars, and the outer one looks at that
    line. [print_patch] writes operations in the format, and the round trip
    shows that the parser reads them back. *)

From Stdlib Require Import Ascii ZArith Lia.
From stdpp Require Import base strings list sets.
From S2P Require Import Prelude Strs TextLines.

Record Hunk : Type := mkHunk {
  context_before : list str;
  old_lines : list str;
  new_lines : list str;
  context_after : list str
}.

Inductive PatchOp : Type :=
| AddFile (path content : str)
| UpdateFile (path : str) (move_to : option str) (hunks : list Hunk)
| DeleteFile (path : str).

(** ** The parser *)

Definition stars (line : str) : bool := starts_with (trim line) (lit "***").
Definition at_signs (line : str) : bool := starts_with (trim line) (lit "@@").

(** The loop that collects the content of an added file. *)
Fixpoint take_content (body : list str) : result (list str * list str) str :=
  match body with
  | [] => Ok ([], [])
  | l :: rest =>
      if stars l then Ok ([], body)
      else
        match strip_prefix_char l "+"%char with
        | Some stripped =>
            match take_content rest with
            | Ok (cs, rest') => Ok (stripped :: cs, rest')
            | Err e => Err e
            end
        | None =>
            if is_empty (trim l) then take_content rest
            else Err (lit "Expected '+' prefix in Add File content, got: " ++ l)
        end
  end.

(** A hunk being read, with the flags of the loop. *)
Record HunkState : Type := mkHunkState {
  hunk : Hunk;
  in_change : bool;
  past_change : bool
}.

Definition open_hunk : HunkState := mkHunkState (mkHunk [] [] [] []) false false.

Definition push_context (st : HunkState) (l : str) : HunkState :=
  let h := hunk st in
  if in_change st || past_change st
  then mkHunkState (mkHunk (context_before h) (old_lines h) (new_lines h) (context_after h ++ [l]))
         false true
  else mkHunkState (mkHunk (context_before h ++ [l]) (old_lines h) (new_lines h) (context_after h))
         (in_change st) (past_change st).

Definition hunk_line (st : HunkState) (hl : str) : HunkState :=
  let h := hunk st in
  match strip_prefix_char hl "-"%char with
  | Some l =>
      mkHunkState (mkHunk (context_before h) (old_lines h ++ [l]) (new_lines h) (context_after h))
        true false
  | None =>
      match strip_prefix_char hl "+"%char with
      | Some l =>
          mkHunkState (mkHunk (context_before h) (old_lines h) (new_lines h ++ [l]) (context_after h))
            true false
      | None =>
          match strip_prefix_char hl " "%char with
          | Some l => push_context st l
          | None => if is_empty (trim hl) then push_context st [] else push_context st hl
          end
      end
  end.

Definition close_hunk (cur : option HunkState) : list Hunk :=
  match cur with Some st => [hunk st] | None => [] end.

Fixpoint take_hunks (cur : option HunkState) (body : list str) : list Hunk * list str :=
  match body with
  | [] => (close_hunk cur, [])
  | l :: rest =>
      if stars l then (close_hunk cur, body)
      else if at_signs l then
        let '(hs, rest') := take_hunks (Some open_hunk) rest in (close_hunk cur ++ hs, rest')
      else take_hunks ((λ st, hunk_line st l) <$> cur) rest
  end.

(** [s.strip_prefix(p)], for a prefix that is there. *)
Definition after (s p : str) : str := drop (length p) s.

(** [s.split_once(sep)] *)
Definition split_once (s sep : str) : option (str * str) :=
  (λ n, (take n s, drop (n + length sep) s)) <$> find s sep.

(** One round of the main loop: an operation, if the line starts one, and the
    lines that are left. *)
Definition parse_op (line : str) (rest : list str) : result (option PatchOp * list str) str :=
  let line := trim line in
  if starts_with line (lit "*** Add File:") then
    let path := trim (after line (lit "*** Add File:")) in
    if is_empty path then Err (lit "Empty path in '*** Add File:'")
    else match take_content rest with
         | Ok (cs, rest') => Ok (Some (AddFile path (join cs [newline])), rest')
         | Err e => Err e
         end
  else if starts_with line (lit "*** Update File:") then
    let rest_ := trim (after line (lit "*** Update File:")) in
    let '(path, move_to) :=
      match split_once rest_ (lit "->") with
      | Some (old, new) => (trim old, Some (trim new))
      | None => (rest_, None)
      end in
    if is_empty path then Err (lit "Empty path in '*** Update File:'")
    else
      match take_hunks None rest with
      | ([], _) => Err (lit "Update File '" ++ path ++ lit "' has no hunks")
      | (hs, rest') => Ok (Some (UpdateFile path move_to hs), rest')
      end
  else if starts_with line (lit "*** Delete File:") then
    let path := trim (after line (lit "*** Delete File:")) in
    if is_empty path then Err (lit "Empty path in '*** Delete File:'")
    else Ok (Some (DeleteFile path), rest)
  else if is_empty line then Ok (None, rest)
  else Err (lit "Unexpected line in patch: " ++ line).

(** The main loop. Every round reads a line, so that the number of lines is
    enough fuel. *)
Fixpoint parse_body (fuel : nat) (body : list str) : result (list PatchOp) str :=
  match fuel, body with
  | _, [] | 0, _ => Ok []
  | S fuel, line :: rest =>
      match parse_op line rest with
      | Ok (op, rest') =>
          match parse_body fuel rest' with
          | Ok ops => Ok (option_list op ++ ops)
          | Err e => Err e
          end
      | Err e => Err e
      end
  end.

Definition is_marker (marker : string) (l : str) : bool := str_eqb (trim l) (lit marker).

(** [position] and [rposition]. *)
Fixpoint position {A} (f : A → bool) (l : list A) : option nat :=
  match l with
  | [] => None
  | x :: l => if f x then Some 0 else S <$> position f l
  end.

Fixpoint rposition {A} (f : A → bool) (l : list A) : option nat :=
  match l with
  | [] => None
  | x :: l => match rposition f l with Some n => Some (S n) | None => if f x then Some 0 else None end
  end.

Definition parse_patch (input : str) : result (list PatchOp) str :=
  let ls := lines input in
  match position (is_marker "*** Begin Patch") ls with
  | None => Err (lit "Missing '*** Begin Patch' marker")
  | Some begin =>
      match rposition (is_marker "*** End Patch") ls with
      | None => Err (lit "Missing '*** End Patch' marker")
      | Some end_ =>
          if end_ <=? begin
          then Err (lit "'*** End Patch' must come after '*** Begin Patch'")
          else
            let body := take (end_ - (begin + 1)) (drop (begin + 1) ls) in
            match parse_body (length body) body with
            | Ok [] => Err (lit "Patch contains no operations")
            | r => r
            end
      end
  end.

(** ** Writing a patch *)

Definition print_hunk (h : Hunk) : list str :=
  lit "@@" :: (cons " "%char <$> context_before h) ++ (cons "-"%char <$> old_lines h)
  ++ (cons "+"%char <$> new_lines h) ++ (cons " "%char <$> context_after h).

Definition print_op (op : PatchOp) : list str :=
  match op with
  | AddFile path content =>
      (lit "*** Add File: " ++ path) :: (cons "+"%char <$> split content newline)
  | UpdateFile path move_to hunks =>
      (lit "*** Update File: " ++ path
       ++ match move_to with Some q => lit " -> " ++ q | None => [] end)
      :: concat (print_hunk <$> hunks)
  | DeleteFile path => [lit "*** Delete File: " ++ path]
  end.

Definition print_lines (ops : list PatchOp) : list str :=
  lit "*** Begin Patch" :: concat (print_op <$> ops) ++ [lit "*** End Patch"].

Definition print_patch (ops : list PatchOp) : str := join (print_lines ops) [newline].

(** The operations that can be written: tight paths without newlines, lines
    that are lines, context lines that do not look like a marker, and context
    after a change only if there is a change. *)
Definition path_ok (p : str) : bool := tight p && line_ok p.

Definition context_ok (l : str) : bool :=
  line_ok l && negb (stars (" "%char :: l)) && negb (at_signs (" "%char :: l)).

Definition hunk_ok (h : Hunk) : bool :=
  forallb context_ok (context_before h) && forallb line_ok (old_lines h)
  && forallb line_ok (new_lines h) && forallb context_ok (context_after h)
  && match old_lines h, new_lines h, context_after h with [], [], _ :: _ => false | _, _, _ => true end.

Definition op_ok (op : PatchOp) : bool :=
  match op with
  | AddFile path content => path_ok path && forallb line_ok (split content newline)
  | UpdateFile path move_to hunks =>
      path_ok path && negb (contains path (lit "->"))
      && match move_to with Some q => path_ok q | None => true end
      && forallb hunk_ok hunks && negb (bool_decide (hunks = []))
  | DeleteFile path => path_ok path
  end.

(** ** The parser reads what was written *)

Lemma not_stars c s :
  nat_of_ascii c ∉ space_starts → c ≠ "*"%char → stars (c :: s) = false.
Proof.
  intros Hc Hs. destruct (trim_first c s Hc) as [t E]. unfold stars. rewrite E.
  apply not_true_iff_false. rewrite starts_with_spec. intros [u Hu]. injection Hu as ? _. done.
Qed.

Lemma not_at_signs c s :
  nat_of_ascii c ∉ space_starts → c ≠ "@"%char → at_signs (c :: s) = false.
Proof.
  intros Hc Hs. destruct (trim_first c s Hc) as [t E]. unfold at_signs. rewrite E.
  apply not_true_iff_false. rewrite starts_with_spec. intros [u Hu]. injection Hu as ? _. done.
Qed.

(** The lines of a hunk or a content; what may follow them. *)
Definition plain (l : str) : Prop := stars l = false ∧ at_signs l = false.
Definition stop (rest : list str) : Prop := match rest with [] => True | l :: _ => stars l = true end.

Lemma plain_plus l : plain ("+"%char :: l).
Proof. split; [apply not_stars|apply not_at_signs]; (done || (vm_compute; set_solver)). Qed.

Lemma plain_minus l : plain ("-"%char :: l).
Proof. split; [apply not_stars|apply not_at_signs]; (done || (vm_compute; set_solver)). Qed.

Lemma plain_context l : context_ok l = true → plain (" "%char :: l).
Proof. unfold context_ok. rewrite !andb_true_iff, !negb_true_iff. intros [[_ ?] ?]. done. Qed.

Lemma take_content_print cs rest :
  stop rest → take_content ((cons "+"%char <$> cs) ++ rest) = Ok (cs, rest).
Proof.
  intros Hr. induction cs as [|c cs IH].
  - destruct rest as [|l rest]; [done|]. simpl in Hr |- *. by rewrite Hr.
  - change (take_content (("+"%char :: c) :: ((cons "+"%char <$> cs) ++ rest)) = Ok (c :: cs, rest)).
    cbn [take_content]. rewrite (proj1 (plain_plus c)), IH. done.
Qed.

Lemma take_hunks_plain st ls rest :
  Forall plain ls → take_hunks (Some st) (ls ++ rest) = take_hunks (Some (foldl hunk_line st ls)) rest.
Proof.
  intros Hls. revert st. induction Hls as [|l ls [H1 H2] _ IH]; intros st; [done|].
  simpl. rewrite H1, H2. apply IH.
Qed.

Lemma hunk_before ls h :
  foldl hunk_line (mkHunkState h false false) (cons " "%char <$> ls) =
  mkHunkState (mkHunk (context_before h ++ ls) (old_lines h) (new_lines h) (context_after h)) false false.
Proof.
  revert h. induction ls as [|l ls IH]; intros h.
  - simpl. rewrite app_nil_r. by destruct h.
  - rewrite fmap_cons. cbn [foldl]. etrans; [apply IH|]. simpl. by rewrite <-app_assoc.
Qed.

Lemma hunk_old ls st :
  foldl hunk_line st (cons "-"%char <$> ls) =
  match ls with
  | [] => st
  | _ => mkHunkState (mkHunk (context_before (hunk st)) (old_lines (hunk st) ++ ls)
                        (new_lines (hunk st)) (context_after (hunk st))) true false
  end.
Proof.
  revert st. induction ls as [|l ls IH]; intros st; [done|]. rewrite fmap_cons. cbn [foldl].
  rewrite IH. destruct ls; [done|]. simpl. by rewrite <-app_assoc.
Qed.

Lemma hunk_new ls st :
  foldl hunk_line st (cons "+"%char <$> ls) =
  match ls with
  | [] => st
  | _ => mkHunkState (mkHunk (context_before (hunk st)) (old_lines (hunk st))
                        (new_lines (hunk st) ++ ls) (context_after (hunk st))) true false
  end.
Proof.
  revert st. induction ls as [|l ls IH]; intros st; [done|]. rewrite fmap_cons. cbn [foldl].
  rewrite IH. destruct ls; [done|]. simpl. by rewrite <-app_assoc.
Qed.

Lemma hunk_after ls st :
  in_change st || past_change st = true →
  hunk (foldl hunk_line st (cons " "%char <$> ls)) =
  mkHunk (context_before (hunk st)) (old_lines (hunk st)) (new_lines (hunk st))
    (context_after (hunk st) ++ ls).
Proof.
  revert st. induction ls as [|l ls IH]; intros st Hst.
  - simpl. rewrite app_nil_r. by destruct (hunk st).
  - rewrite fmap_cons. cbn [foldl].
    assert (hunk_line st (" "%char :: l) = push_context st l) as -> by done.
    unfold push_context. rewrite Hst. rewrite IH by done. simpl. by rewrite <-app_assoc.
Qed.

Definition hunk_body (h : Hunk) : list str :=
  (cons " "%char <$> context_before h) ++ (cons "-"%char <$> old_lines h)
  ++ (cons "+"%char <$> new_lines h) ++ (cons " "%char <$> context_after h).

Lemma hunk_read h : hunk_ok h = true → hunk (foldl hunk_line open_hunk (hunk_body h)) = h.
Proof.
  unfold hunk_ok. rewrite !andb_true_iff. intros [_ Hch]. unfold hunk_body, open_hunk.
  rewrite !foldl_app, hunk_before, hunk_old, hunk_new. destruct h as [b o n a]; simpl in *.
  destruct o as [|o1 o], n as [|n1 n]; simpl in *; try (by rewrite hunk_after).
  by destruct a.
Qed.

Lemma hunk_plain h : hunk_ok h = true → Forall plain (hunk_body h).
Proof.
  unfold hunk_ok. rewrite !andb_true_iff, !forallb_forall. intros [[[[Hb _] _] Ha] _].
  unfold hunk_body. rewrite !Forall_app, !Forall_fmap, !Forall_forall. simpl.
  split_and!; intros l Hl; try apply plain_minus; try apply plain_plus;
    apply plain_context; auto using list_elem_of_In.
  - by apply Hb, list_elem_of_In.
  - by apply Ha, list_elem_of_In.
Qed.

Lemma take_hunks_print cur hs rest :
  forallb hunk_ok hs = true → stop rest →
  take_hunks cur (concat (print_hunk <$> hs) ++ rest) = (close_hunk cur ++ hs, rest).
Proof.
  intros Hok Hr. revert cur. induction hs as [|h hs IH]; intros cur.
  - rewrite app_nil_r. destruct rest as [|l rest]; [done|]. simpl in *. by rewrite Hr.
  - cbn [forallb] in Hok. apply andb_true_iff in Hok as [Hh Hok]. rewrite fmap_cons.
    change (concat (print_hunk h :: (print_hunk <$> hs)))
      with (lit "@@" :: hunk_body h ++ concat (print_hunk <$> hs)).
    rewrite <-app_comm_cons, <-app_assoc. cbn [take_hunks].
    replace (stars (lit "@@")) with false by (vm_compute; reflexivity).
    replace (at_signs (lit "@@")) with true by (vm_compute; reflexivity).
    rewrite take_hunks_plain by (by apply hunk_plain). rewrite IH by done. simpl.
    by rewrite hunk_read.
Qed.

(** ** Headers *)

Lemma path_ok_tight p : path_ok p = true → tight p = true.
Proof. unfold path_ok. rewrite andb_true_iff. tauto. Qed.

Lemma path_ok_line p : path_ok p = true → line_ok p = true.
Proof. unfold path_ok. rewrite andb_true_iff. tauto. Qed.

Lemma path_ok_not_empty p : path_ok p = true → is_empty p = false.
Proof. intros Hp%path_ok_tight. by destruct p. Qed.

Lemma starts_with_app p s : starts_with (p ++ s) p = true.
Proof. apply starts_with_spec. eauto. Qed.

Lemma after_app p s : after (p ++ s) p = s.
Proof. unfold after. apply drop_app_length. Qed.

(** [a] comes before the first occurrence of a two-byte separator whose first
    byte is not the last of [a]. *)
Lemma find_arrow p q : contains p (lit "->") = false → find (p ++ lit " -> " ++ q) (lit "->") = Some (length p + 1).
Proof.
  intros Hp.
  assert (p ++ lit " -> " ++ q = (p ++ lit " ") ++ lit "->" ++ (lit " " ++ q)) as E
    by (by rewrite <-app_assoc).
  destruct (find_leftmost _ _ _ _ E) as (n & Hn & Hle). rewrite Hn. f_equal.
  rewrite length_app in Hle. simpl in Hle.
  destruct (find_Some _ _ _ Hn) as (a & b & Hab & Ha). subst n.
  destruct (decide (length a = length p + 1)) as [|Hne]; [done|]. exfalso.
  destruct (decide (length a + 2 ≤ length p)) as [Hin|Hout].
  - enough (contains p (lit "->") = true) by congruence. apply contains_spec.
    rewrite (app_assoc a) in Hab. apply app_eq_inv in Hab as [(k & Hk & _)|(k & Hk & _)].
    + exists a, k. by rewrite Hk, <-app_assoc.
    + exists a, []. apply (f_equal length) in Hk as Hlen. rewrite !length_app in Hlen. simpl in Hlen.
      assert (k = []) as -> by (apply nil_length_inv; lia). by rewrite !app_nil_r in *.
  - assert ((p ++ lit " -> " ++ q) !! length a = Some "-"%char) as H1
      by (rewrite Hab, lookup_app_r, Nat.sub_diag by lia; done).
    assert ((p ++ lit " -> " ++ q) !! (length a + 1) = Some ">"%char) as H2
      by (rewrite Hab, lookup_app_r by lia; replace (length a + 1 - length a) with 1 by lia; done).
    destruct (decide (length a = length p)) as [Heq|Hne2].
    + rewrite lookup_app_r in H1 by lia. rewrite Heq, Nat.sub_diag in H1. done.
    + rewrite lookup_app_r in H2 by lia. replace (length a + 1 - length p) with 0 in H2 by lia. done.
Qed.

Lemma find_arrow_none p : contains p (lit "->") = false → find p (lit "->") = None.
Proof.
  unfold contains. rewrite bool_decide_eq_false. intros Hp.
  destruct (find p (lit "->")) eqn:E; [|done]. destruct Hp. eauto.
Qed.

(** The rest of a header: [old -> new] or the path alone. *)
Definition target (p : str) (move_to : option str) : str :=
  p ++ match move_to with Some q => lit " -> " ++ q | None => [] end.

Lemma target_tight p move_to :
  path_ok p = true → match move_to with Some q => path_ok q | None => true end = true →
  tight (target p move_to) = true.
Proof.
  intros Hp%path_ok_tight Hm. unfold target. destruct move_to as [q|]; [|by rewrite app_nil_r].
  apply path_ok_tight in Hm. rewrite app_assoc. apply tight_app; [|done].
  unfold tight, opens in *. rewrite chars_app by done. destruct (chars p) as [|c cs]; [done|].
  destruct p as [|b p]; [done|]. simpl. rewrite !andb_true_iff in Hp. destruct Hp as [[Hb Hc] _].
  by rewrite Hb, Hc.
Qed.

Lemma split_once_target p move_to :
  path_ok p = true → match move_to with Some q => path_ok q | None => true end = true →
  contains p (lit "->") = false →
  match split_once (target p move_to) (lit "->") with
  | Some (old, new) => (trim old, Some (trim new))
  | None => (target p move_to, None)
  end = (p, move_to).
Proof.
  intros Hp Hm Hc. unfold split_once, target. destruct move_to as [q|].
  - rewrite find_arrow by done. cbn [fmap option_fmap option_map].
    replace (take (length p + 1) (p ++ lit " -> " ++ q)) with (p ++ lit " ").
    2: { rewrite take_app_ge by lia. f_equal. by replace (length p + 1 - length p) with 1 by lia. }
    replace (drop (length p + 1 + length (lit "->")) (p ++ lit " -> " ++ q)) with (lit " " ++ q).
    2: { rewrite drop_app_ge by lia. by replace (length p + 1 + length (lit "->") - length p) with 3 by (simpl; lia). }
    by rewrite trim_space_after, trim_space_before by (by apply path_ok_tight).
  - rewrite app_nil_r, find_arrow_none by done. done.
Qed.

Lemma header_trim h t : opens h = true → tight t = true → trim (h ++ t) = h ++ t.
Proof. intros Hh Ht. by apply tight_trim, tight_app. Qed.

Lemma stars_trim l t : trim l = lit "***" ++ t → stars l = true.
Proof. intros E. unfold stars. rewrite E. apply starts_with_app. Qed.

Lemma parse_add path content rest :
  path_ok path = true → stop rest →
  parse_op (lit "*** Add File: " ++ path) ((cons "+"%char <$> split content newline) ++ rest)
  = Ok (Some (AddFile path content), rest) ∧ stars (lit "*** Add File: " ++ path) = true.
Proof.
  intros Hp Hr. pose proof (path_ok_tight _ Hp) as Ht.
  assert (trim (lit "*** Add File: " ++ path) = lit "*** Add File:" ++ (lit " " ++ path)) as E
    by (apply (header_trim (lit "*** Add File: ")); [vm_compute; reflexivity|done]).
  split; [|exact (stars_trim _ (lit " Add File: " ++ path) E)].
  unfold parse_op. rewrite E, starts_with_app, after_app, (trim_space_before path Ht).
  rewrite (path_ok_not_empty path Hp), take_content_print by done. by rewrite join_split.
Qed.

Lemma parse_update path move_to hunks rest :
  op_ok (UpdateFile path move_to hunks) = true → stop rest →
  parse_op (lit "*** Update File: " ++ target path move_to) (concat (print_hunk <$> hunks) ++ rest)
  = Ok (Some (UpdateFile path move_to hunks), rest)
  ∧ stars (lit "*** Update File: " ++ target path move_to) = true.
Proof.
  cbn [op_ok]. rewrite !andb_true_iff, !negb_true_iff, bool_decide_eq_false.
  intros [[[[Hp Hc] Hm] Hh] Hne] Hr. pose proof (target_tight path move_to Hp Hm) as Ht.
  assert (trim (lit "*** Update File: " ++ target path move_to)
          = lit "*** Update File:" ++ (lit " " ++ target path move_to)) as E
    by (apply (header_trim (lit "*** Update File: ")); [vm_compute; reflexivity|done]).
  split; [|exact (stars_trim _ (lit " Update File: " ++ target path move_to) E)].
  unfold parse_op. rewrite E.
  replace (starts_with (lit "*** Update File:" ++ lit " " ++ target path move_to)
             (lit "*** Add File:")) with false by reflexivity.
  rewrite starts_with_app, after_app, (trim_space_before _ Ht).
  rewrite (split_once_target path move_to Hp Hm Hc).
  rewrite (path_ok_not_empty path Hp), take_hunks_print by done. by destruct hunks.
Qed.

Lemma parse_delete path rest :
  path_ok path = true →
  parse_op (lit "*** Delete File: " ++ path) rest = Ok (Some (DeleteFile path), rest)
  ∧ stars (lit "*** Delete File: " ++ path) = true.
Proof.
  intros Hp. pose proof (path_ok_tight _ Hp) as Ht.
  assert (trim (lit "*** Delete File: " ++ path) = lit "*** Delete File:" ++ (lit " " ++ path)) as E
    by (apply (header_trim (lit "*** Delete File: ")); [vm_compute; reflexivity|done]).
  split; [|exact (stars_trim _ (lit " Delete File: " ++ path) E)].
  unfold parse_op. rewrite E.
  replace (starts_with (lit "*** Delete File:" ++ lit " " ++ path) (lit "*** Add File:"))
    with false by reflexivity.
  replace (starts_with (lit "*** Delete File:" ++ lit " " ++ path) (lit "*** Update File:"))
    with false by reflexivity.
  by rewrite starts_with_app, after_app, (trim_space_before path Ht), (path_ok_not_empty path Hp).
Qed.

(** An operation is its header and what follows it. *)
Lemma parse_op_print op rest :
  op_ok op = true → stop rest →
  ∃ l ls, print_op op = l :: ls ∧ parse_op l (ls ++ rest) = Ok (Some op, rest) ∧ stars l = true.
Proof.
  intros Hok Hr. destruct op as [path content|path move_to hunks|path]; eexists _, _; (split; [reflexivity|]).
  - cbn [op_ok] in Hok. apply andb_true_iff in Hok as [Hp _]. by apply parse_add.
  - by apply parse_update.
  - by apply parse_delete.
Qed.

Lemma print_stop ops : forallb op_ok ops = true → stop (concat (print_op <$> ops)).
Proof.
  destruct ops as [|op ops]; [done|]. cbn [forallb]. rewrite andb_true_iff. intros [Hok _].
  destruct (parse_op_print op [] Hok I) as (l & ls & E & _ & Hl). rewrite fmap_cons. cbn [concat].
  by rewrite E.
Qed.

Lemma parse_body_print ops fuel :
  forallb op_ok ops = true → length (concat (print_op <$> ops)) ≤ fuel →
  parse_body fuel (concat (print_op <$> ops)) = Ok ops.
Proof.
  revert fuel. induction ops as [|op ops IH]; intros fuel Hok Hf; [by destruct fuel|].
  cbn [forallb] in Hok. apply andb_true_iff in Hok as [Hop Hok]. rewrite fmap_cons in Hf |- *.
  cbn [concat] in Hf |- *.
  destruct (parse_op_print op _ Hop (print_stop ops Hok)) as (l & ls & E & Hparse & _).
  rewrite E, length_app in Hf. rewrite E. cbn [length] in Hf. destruct fuel as [|fuel]; [lia|].
  rewrite <-app_comm_cons. cbn [parse_body]. rewrite Hparse, IH by (done || lia). done.
Qed.

(** ** The written lines are lines *)

Lemma line_ok_app a b : line_ok a = true → line_ok b = true → line_ok (a ++ b) = true.
Proof.
  unfold line_ok. rewrite !andb_true_iff, !bool_decide_eq_true, last_app. intros [Ha1 Ha2] [Hb1 Hb2].
  split; [set_solver|]. by destruct (last b).
Qed.

Lemma line_ok_cons c l : line_ok [c] = true → line_ok l = true → line_ok (c :: l) = true.
Proof. apply (line_ok_app [c]). Qed.

Lemma lines_ok_map c ls :
  line_ok [c] = true → forallb line_ok ls = true → Forall (λ s, line_ok s = true) (cons c <$> ls).
Proof.
  rewrite forallb_forall, Forall_fmap, Forall_forall. intros Hc Hls l Hl.
  apply line_ok_cons; [done|]. by apply Hls, list_elem_of_In.
Qed.

Lemma context_lines ls : forallb context_ok ls = true → forallb line_ok ls = true.
Proof.
  rewrite !forallb_forall. intros H l Hl. specialize (H l Hl). unfold context_ok in H.
  rewrite !andb_true_iff in H. tauto.
Qed.

Lemma print_hunk_lines h : hunk_ok h = true → Forall (λ s, line_ok s = true) (print_hunk h).
Proof.
  unfold hunk_ok. rewrite !andb_true_iff. intros [[[[Hb Ho] Hn] Ha] _]. unfold print_hunk.
  constructor; [reflexivity|]. rewrite !Forall_app.
  split_and!; apply lines_ok_map; auto using context_lines; reflexivity.
Qed.

Lemma print_op_lines op : op_ok op = true → Forall (λ s, line_ok s = true) (print_op op).
Proof.
  destruct op as [path content|path move_to hunks|path]; cbn [op_ok print_op];
    rewrite ?andb_true_iff.
  - intros [Hp%path_ok_line Hc]. constructor; [by apply line_ok_app|by apply lines_ok_map].
  - intros [[[[Hp%path_ok_line _] Hm] Hh] _]. constructor.
    + apply line_ok_app; [reflexivity|]. apply line_ok_app; [done|]. destruct move_to; [|done].
      apply line_ok_app; [reflexivity|by apply path_ok_line].
    + apply Forall_concat, Forall_fmap, Forall_forall. intros h Hin. apply print_hunk_lines.
      rewrite forallb_forall in Hh. by apply Hh, list_elem_of_In.
  - intros Hp%path_ok_line. constructor; [by apply line_ok_app|done].
Qed.

Lemma print_lines_lines ops :
  forallb op_ok ops = true → Forall (λ s, line_ok s = true) (print_lines ops).
Proof.
  rewrite forallb_forall. intros Hok. unfold print_lines. constructor; [reflexivity|].
  apply Forall_app; split; [|by constructor].
  apply Forall_concat, Forall_fmap, Forall_forall. intros op Hin.
  apply print_op_lines, Hok, list_elem_of_In, Hin.
Qed.

Lemma rposition_snoc {A} (f : A → bool) l x : f x = true → rposition f (l ++ [x]) = Some (length l).
Proof. intros Hx. induction l as [|y l IH]; simpl; [by rewrite Hx|by rewrite IH]. Qed.

(** C28: The parser reads back what was written: operations with tight paths,
    proper lines and context lines that do not look like markers survive
    [print_patch] and [parse_patch] unchanged, moves and hunks included. *)
Theorem patch_round_trip ops :
  ops ≠ [] → forallb op_ok ops = true → parse_patch (print_patch ops) = Ok ops.
Proof.
  intros Hne Hok. unfold parse_patch, print_patch.
  pose proof (print_lines_lines ops Hok) as Hl. unfold print_lines in Hl |- *.
  rewrite app_comm_cons in Hl |- *. rewrite lines_join by done.
  rewrite rposition_snoc by (vm_compute; reflexivity).
  rewrite <-app_comm_cons. cbn [position].
  replace (is_marker "*** Begin Patch" (lit "*** Begin Patch")) with true by (vm_compute; reflexivity).
  cbn [length Nat.leb Nat.add drop Nat.sub]. rewrite drop_0, Nat.sub_0_r, take_app_length.
  rewrite parse_body_print by done. by destruct ops.
Qed.

Lemma patch_round_trip_witness :
  let ops := [AddFile (lit "a.txt") (lit "one"); UpdateFile (lit "b.txt") (Some (lit "c.txt"))
                [mkHunk [lit "x"] [lit "y"] [lit "z"] [lit "w"]]; DeleteFile (lit "d.txt")] in
  parse_patch (print_patch ops) = Ok ops.
Proof. intros ops. apply patch_round_trip; [done|vm_compute; reflexivity]. Defined.

(** ** The fuel of the main loop *)

Lemma take_content_length body cs rest :
  take_content body = Ok (cs, rest) → length rest ≤ length body.
Proof.
  revert cs rest. induction body as [|l body IH]; intros cs rest; simpl; [by intros [= <- <-]|].
  destruct (stars l); [by intros [= <- <-]|]. destruct (strip_prefix_char l "+"%char).
  - destruct (take_content body) as [[cs' rest']|]; [|done]. intros [= <- <-].
    specialize (IH _ _ eq_refl). lia.
  - destruct (is_empty (trim l)); [|done]. intros H%IH. lia.
Qed.

Lemma take_hunks_length cur body : length (take_hunks cur body).2 ≤ length body.
Proof.
  revert cur. induction body as [|l body IH]; intros cur; simpl; [lia|].
  destruct (stars l); [done|]. destruct (at_signs l).
  - specialize (IH (Some open_hunk)). destruct (take_hunks (Some open_hunk) body). simpl in *. lia.
  - specialize (IH ((λ st, hunk_line st l) <$> cur)). lia.
Qed.

Lemma parse_op_length line rest op rest' :
  parse_op line rest = Ok (op, rest') → length rest' ≤ length rest.
Proof.
  unfold parse_op. generalize (trim line). intros ln.
  destruct (starts_with ln (lit "*** Add File:")).
  { destruct (is_empty _); [done|]. destruct (take_content rest) as [[cs r]|] eqn:E; [|done].
    intros [= _ <-]. by eapply take_content_length. }
  destruct (starts_with ln (lit "*** Update File:")).
  { destruct (match split_once _ _ with Some (old, new) => _ | None => _ end) as [p m].
    destruct (is_empty p); [done|]. pose proof (take_hunks_length None rest) as Hl.
    destruct (take_hunks None rest) as [[|h hs] r]; [done|]. by intros [= _ <-]. }
  destruct (starts_with ln (lit "*** Delete File:")).
  { destruct (is_empty _); [done|]. by intros [= _ <-]. }
  destruct (is_empty ln); [|done]. by intros [= _ <-].
Qed.

(** With the number of lines as fuel the loop runs to the end of the patch:
    more fuel changes nothing. *)
Lemma parse_body_fuel body n m :
  length body ≤ n → length body ≤ m → parse_body n body = parse_body m body.
Proof.
  revert body m. induction n as [|n IH]; intros body m Hn Hm; destruct body as [|l body];
    try (by destruct m); [simpl in Hn; lia|].
  destruct m as [|m]; simpl in Hn, Hm; [lia|]. cbn [parse_body].
  destruct (parse_op l body) as [[op rest']|] eqn:E; [|done].
  apply parse_op_length in E. by rewrite (IH rest' m) by lia.
Qed.
