(* ===== verification/WorkspaceSandbox.v ===== *)
(** * The workspace sandbox

    [openfang-runtime/src/workspace_sandbox.rs]: a path given by an agent is
    resolved inside its workspace. A [Path] is the string it is made from, and
    the operations of [std::path] on it are those for Unix. The file system is
    the class [FileSystem]: its state and the calls the program makes. *)

From Stdlib Require Import Ascii ZArith Lia.
From stdpp Require Import base gmap strings list sets.
From S2P Require Import Prelude Strs TextLines.

(** ** Paths *)

Inductive Component : Type :=
| RootDir
| CurDir
| ParentDir
| Normal (name : str).

#[global] Instance component_eq_dec : EqDecision Component.
Proof. solve_decision. Defined.

Definition slash : ascii := "/"%char.

Definition is_absolute (p : str) : bool := starts_with p [slash].

(** A leading [.] is a component of its own. *)
Definition leading_dot (p : str) : bool := str_eqb p (lit ".") || starts_with p (lit "./").

(** The part of the path before its body. *)
Definition path_start (p : str) : str :=
  if is_absolute p then [slash] else if leading_dot p then lit "." else [].

Definition path_body (p : str) : str := drop (length (path_start p)) p.

Definition skipped (part : str) : bool := is_empty part || str_eqb part (lit ".").

Definition component_of (part : str) : list Component :=
  if skipped part then [] else if str_eqb part (lit "..") then [ParentDir] else [Normal part].

Definition start_component (p : str) : list Component :=
  if is_absolute p then [RootDir] else if leading_dot p then [CurDir] else [].

(** [path.components()] *)
Definition components (p : str) : list Component :=
  start_component p ++ (split (path_body p) slash ≫= component_of).

(** [path.starts_with(base)] compares components. *)
Definition path_starts_with (p base : str) : bool :=
  bool_decide (components base `prefix_of` components p).

Definition path_eqb (p q : str) : bool := bool_decide (components p = components q).

(** [base.join(path)] *)
Definition path_join (base p : str) : str :=
  if is_absolute p then p
  else base ++ (match last base with
                | Some c => if decide (c = slash) then [] else [slash]
                | None => [] end) ++ p.

(** The parts of a path, from the last, without empty ones and dots at its
    end. *)
Definition trim_parts (rparts : list str) : list str := drop_while skipped rparts.

(** [path.parent()] is a prefix of the path. *)
Definition path_parent (p : str) : option str :=
  match trim_parts (reverse (split (path_body p) slash)) with
  | _ :: front => Some (path_start p ++ join (reverse (trim_parts front)) [slash])
  | [] => if is_absolute p then None else if leading_dot p then Some [] else None
  end.

(** [path.file_name()] *)
Definition file_name (p : str) : option str :=
  match last (components p) with
  | Some (Normal name) => Some name
  | _ => None
  end.

(** ** The file system *)

Class FileSystem (FS : Type) : Type := {
  canonicalize : FS → str → result str str;
  path_exists : FS → str → bool;
  create_dir_all : FS → str → FS * result unit str;
  write : FS → str → str → FS * result unit str;
  read_to_string : FS → str → result str str;
  remove_file : FS → str → FS * result unit str
}.

(** ** Resolving a path *)

Definition outside_error (user_path : str) : str :=
  lit "Access denied: path '" ++ user_path
  ++ lit "' resolves outside workspace. If you have an MCP filesystem server configured, use the mcp_filesystem_* tools (e.g. mcp_filesystem_read_file, mcp_filesystem_list_directory) to access files outside the workspace.".

Section Resolve.
Context {FS : Type} `{FileSystem FS}.

(** The canonical candidate, or that of its parent for a new file. *)
Definition canonical_candidate (fs : FS) (candidate : str) : result str str :=
  if path_exists fs candidate then
    match canonicalize fs candidate with
    | Ok p => Ok p
    | Err e => Err (lit "Failed to resolve path: " ++ e)
    end
  else
    match path_parent candidate with
    | None => Err (lit "Invalid path: no parent directory")
    | Some parent =>
        match file_name candidate with
        | None => Err (lit "Invalid path: no filename")
        | Some filename =>
            match canonicalize fs parent with
            | Err e => Err (lit "Failed to resolve parent directory: " ++ e)
            | Ok canon_parent => Ok (path_join canon_parent filename)
            end
        end
    end.

Definition resolve_sandbox_path (fs : FS) (user_path workspace_root : str) : result str str :=
  if bool_decide (ParentDir ∈ components user_path)
  then Err (lit "Path traversal denied: '..' components are forbidden")
  else
    let candidate := if is_absolute user_path then user_path else path_join workspace_root user_path in
    match canonicalize fs workspace_root with
    | Err e => Err (lit "Failed to resolve workspace root: " ++ e)
    | Ok canon_root =>
        match canonical_candidate fs candidate with
        | Err e => Err e
        | Ok canon_candidate =>
            if path_starts_with canon_candidate canon_root then Ok canon_candidate
            else Err (outside_error user_path)
        end
    end.

(** A path the sandbox lets an agent use. *)
Definition confined (fs : FS) (root p : str) : Prop :=
  ∃ canon_root, canonicalize fs root = Ok canon_root ∧ path_starts_with p canon_root = true.

Lemma resolve_confined fs user_path root p :
  resolve_sandbox_path fs user_path root = Ok p → confined fs root p.
Proof.
  unfold resolve_sandbox_path, confined. case_bool_decide; [done|].
  destruct (canonicalize fs root) as [cr|]; [|done].
  destruct (canonical_candidate fs _) as [c|]; [|done].
  destruct (path_starts_with c cr) eqn:E; [|done]. intros [= <-]. eauto.
Qed.

(** What a path can lead to: the canonical form of the path, if something is
    there, or a new entry of the canonical form of its directory. *)
Definition leads_to (fs : FS) (candidate p : str) : Prop :=
  (path_exists fs candidate = true ∧ canonicalize fs candidate = Ok p)
  ∨ (path_exists fs candidate = false ∧ ∃ parent name canon_parent,
      path_parent candidate = Some parent ∧ file_name candidate = Some name
      ∧ canonicalize fs parent = Ok canon_parent ∧ p = path_join canon_parent name).

Lemma canonical_candidate_Ok fs candidate p :
  canonical_candidate fs candidate = Ok p ↔ leads_to fs candidate p.
Proof.
  unfold canonical_candidate, leads_to. destruct (path_exists fs candidate).
  - destruct (canonicalize fs candidate); split; try naive_solver.
  - split.
    + destruct (path_parent candidate) as [q|]; [|done]. destruct (file_name candidate) as [n|]; [|done].
      destruct (canonicalize fs q) as [cq|] eqn:E; [|done]. intros [= <-]. right. eauto 10.
    + intros [[? _]|(_ & q & n & cq & -> & -> & E & ->)]; [done|]. by rewrite E.
Qed.

Definition candidate_path (root user_path : str) : str :=
  if is_absolute user_path then user_path else path_join root user_path.

(** The sandbox resolves a path to exactly those places the path leads to
    that lie under the canonical workspace root; a path with a [..] component
    is refused whatever it leads to. *)
Theorem resolve_spec fs user_path root canon_root p :
  canonicalize fs root = Ok canon_root →
  resolve_sandbox_path fs user_path root = Ok p ↔
  ParentDir ∉ components user_path ∧ leads_to fs (candidate_path root user_path) p
  ∧ components canon_root `prefix_of` components p.
Proof.
  intros Hroot. unfold resolve_sandbox_path, candidate_path. rewrite Hroot.
  rewrite <-canonical_candidate_Ok. case_bool_decide as Hd; [naive_solver|].
  destruct (canonical_candidate fs _) as [c|]; [|naive_solver].
  unfold path_starts_with. case_bool_decide; naive_solver.
Qed.

End Resolve.

(** ** A file system of files *)

(** Files by canonical path, directories that exist, and no links: a path
    without dots is its own canonical form. *)
Abbreviation Disk := (gmap str str).

Definition disk_read (d : Disk) (p : str) : result str str :=
  match d !! p with Some c => Ok c | None => Err (lit "No such file or directory") end.

#[global] Instance disk_file_system : FileSystem Disk := {
  canonicalize d p := Ok p;
  path_exists d p := bool_decide (is_Some (d !! p));
  create_dir_all d p := (d, Ok tt);
  write d p c := (<[p := c]> d, Ok tt);
  read_to_string := disk_read;
  remove_file d p := if decide (is_Some (d !! p)) then (delete p d, Ok tt)
                     else (d, Err (lit "No such file or directory"))
}.

Lemma resolve_spec_witness :
  resolve_sandbox_path (∅ : Disk) (lit "notes/a.txt") (lit "/ws") = Ok (lit "/ws/notes/a.txt").
Proof.
  apply (resolve_spec (∅ : Disk) (lit "notes/a.txt") (lit "/ws") (lit "/ws")); [reflexivity|].
  split_and!.
  - apply (bool_decide_unpack _). vm_compute. exact I.
  - right. split; [reflexivity|]. exists (lit "/ws/notes"), (lit "a.txt"), (lit "/ws/notes").
    split_and!; vm_compute; reflexivity.
  - apply (bool_decide_unpack _). vm_compute. exact I.
Defined.

Example paths_of_std :
  path_parent (lit "/a") = Some (lit "/") ∧ path_parent (lit "/") = None
  ∧ path_parent (lit "a//b/./") = Some (lit "a") ∧ path_parent (lit "./a") = Some (lit ".")
  ∧ path_parent (lit "a") = Some [] ∧ file_name (lit "a/..") = None
  ∧ components (lit "./a/./b/") = [CurDir; Normal (lit "a"); Normal (lit "b")]
  ∧ path_starts_with (lit "/workspace2/x") (lit "/workspace") = false.
Proof. vm_compute. auto 10. Qed.
