(* ===== verification/ApplyPatch.v ===== *)
(** * Applying a patch

    [apply_patch], [apply_hunks] and the searches for a hunk's place of
    [openfang-runtime/src/apply_patch.rs], and the tool that calls them,
    [tool_apply_patch] of [tool_runner.rs]. The counters of [PatchResult],
    [u32] in the code, count operations of one patch and are [nat]. *)

From Stdlib Require Import Ascii ZArith Lia.
From stdpp Require Import base gmap strings list sets relations.
From S2P Require Import Prelude Strs TextLines PatchFormat WorkspaceSandbox.

(** ** Hunks *)

Section Anchor.
Context (same : str → str → bool).

(** The inner loop: do the lines from here on start with the anchor? *)
Fixpoint matches_at (file_lines anchor : list str) {struct anchor} : bool :=
  match anchor, file_lines with
  | [], _ => true
  | _ :: _, [] => false
  | a :: anchor, l :: file_lines => same l a && matches_at file_lines anchor
  end.

(** The outer loop, over [0..=file_lines.len() - anchor.len()]. *)
Definition find_place (file_lines anchor : list str) : option nat :=
  match anchor with
  | [] => Some (length file_lines)
  | _ :: _ =>
      if length file_lines <? length anchor then None
      else head (filter (λ start, matches_at (drop start file_lines) anchor = true)
                   (seq 0 (length file_lines - length anchor + 1)))
  end.
End Anchor.

Definition find_anchor (file_lines anchor : list str) : option nat :=
  find_place str_eqb file_lines anchor.

Definition same_trimmed (l a : str) : bool := str_eqb (trim_end l) (trim_end a).

Definition find_anchor_fuzzy (file_lines anchor : list str) : option nat :=
  find_place same_trimmed file_lines anchor.

Definition anchor_of (h : Hunk) : list str := context_before h ++ old_lines h.

(** [lines.splice(pos..pos + remove_count, replacement)] *)
Definition splice (ls : list str) (pos count : nat) (replacement : list str) : list str :=
  take pos ls ++ replacement ++ drop (pos + count) ls.

Definition hunk_error (idx : nat) : str :=
  lit "Hunk " ++ show_nat (idx + 1) ++ lit " failed: could not find context/old lines in file".

Definition apply_hunk (idx : nat) (h : Hunk) (ls : list str) : result (list str) str :=
  let anchor := anchor_of h in
  match anchor with
  | [] => Ok (ls ++ new_lines h)
  | _ :: _ =>
      match (match find_anchor ls anchor with
             | Some pos => Some pos
             | None => find_anchor_fuzzy ls anchor end) with
      | None => Err (hunk_error idx)
      | Some pos =>
          Ok (splice ls pos (length (context_before h) + length (old_lines h))
                (context_before h ++ new_lines h))
      end
  end.

Fixpoint apply_hunk_list (idx : nat) (hunks : list Hunk) (ls : list str) : result (list str) str :=
  match hunks with
  | [] => Ok ls
  | h :: hunks =>
      match apply_hunk idx h ls with
      | Ok ls' => apply_hunk_list (S idx) hunks ls'
      | Err e => Err e
      end
  end.

Definition with_trailing (trailing_newline : bool) (text : str) : str :=
  if trailing_newline && negb (ends_with text [newline]) then text ++ [newline] else text.

Definition apply_hunks (content : str) (hunks : list Hunk) : result str str :=
  match apply_hunk_list 0 hunks (lines content) with
  | Ok ls => Ok (with_trailing (ends_with content [newline]) (join ls [newline]))
  | Err e => Err e
  end.

(** ** The result of a patch *)

Record PatchResult : Type := mkPatchResult {
  files_added : nat;
  files_updated : nat;
  files_deleted : nat;
  files_moved : nat;
  errors : list str
}.

Definition default_result : PatchResult := mkPatchResult 0 0 0 0 [].

Definition patch_is_ok (r : PatchResult) : bool := bool_decide (errors r = []).

Definition part (n : nat) (what : string) : list str :=
  if 0 <? n then [show_nat n ++ lit what] else [].

Definition summary (r : PatchResult) : str :=
  let parts := part (files_added r) " added" ++ part (files_updated r) " updated"
               ++ part (files_deleted r) " deleted" ++ part (files_moved r) " moved"
               ++ part (length (errors r)) " errors" in
  match parts with [] => lit "No changes applied" | _ => join parts (lit ", ") end.

Definition push_error (r : PatchResult) (e : str) : PatchResult :=
  mkPatchResult (files_added r) (files_updated r) (files_deleted r) (files_moved r) (errors r ++ [e]).
Definition count_added (r : PatchResult) : PatchResult :=
  mkPatchResult (S (files_added r)) (files_updated r) (files_deleted r) (files_moved r) (errors r).
Definition count_updated (r : PatchResult) : PatchResult :=
  mkPatchResult (files_added r) (S (files_updated r)) (files_deleted r) (files_moved r) (errors r).
Definition count_deleted (r : PatchResult) : PatchResult :=
  mkPatchResult (files_added r) (files_updated r) (S (files_deleted r)) (files_moved r) (errors r).
Definition count_moved (r : PatchResult) : PatchResult :=
  mkPatchResult (files_added r) (files_updated r) (files_deleted r) (S (files_moved r)) (errors r).

(** An error about a path: a verb, if there is one, the path and the cause. *)
Definition path_error (verb : string) (path e : str) : str := lit verb ++ path ++ lit ": " ++ e.

(** ** The operations *)

Section Apply.
Context {FS : Type} `{FileSystem FS}.

Definition resolve_patch_path (fs : FS) (raw root : str) : result str str :=
  resolve_sandbox_path fs raw root.

Definition apply_add (fs : FS) (r : PatchResult) (root path content : str) : FS * PatchResult :=
  match resolve_patch_path fs path root with
  | Err e => (fs, push_error r (path_error "" path e))
  | Ok resolved =>
      let '(fs, made) := match path_parent resolved with
                         | Some parent => create_dir_all fs parent
                         | None => (fs, Ok tt) end in
      match made with
      | Err e => (fs, push_error r (path_error "mkdir " path e))
      | Ok _ =>
          let '(fs, written) := write fs resolved content in
          match written with
          | Ok _ => (fs, count_added r)
          | Err e => (fs, push_error r (path_error "write " path e))
          end
      end
  end.

(** The target of an update and the result with the move counted. *)
Definition update_target (fs : FS) (r : PatchResult) (root resolved : str) (move_to : option str)
  : result (str * PatchResult) PatchResult :=
  match move_to with
  | Some new_path =>
      match resolve_patch_path fs new_path root with
      | Ok t => Ok (t, count_moved r)
      | Err e => Err (push_error r (path_error "" new_path e))
      end
  | None => Ok (resolved, r)
  end.

(** Writing the patched text to the target, and removing the original after
    a move. *)
Definition write_update (fs : FS) (r : PatchResult) (path resolved target patched : str)
    (moved : bool) : FS * PatchResult :=
  let fs := match path_parent target with
            | Some parent => (create_dir_all fs parent).1
            | None => fs end in
  let '(fs, written) := write fs target patched in
  match written with
  | Ok _ =>
      (if moved && negb (path_eqb target resolved) then (remove_file fs resolved).1 else fs,
       count_updated r)
  | Err e => (fs, push_error r (path_error "write " path e))
  end.

Definition apply_update (fs : FS) (r : PatchResult) (root path : str) (move_to : option str)
    (hunks : list Hunk) : FS * PatchResult :=
  match resolve_patch_path fs path root with
  | Err e => (fs, push_error r (path_error "" path e))
  | Ok resolved =>
      match read_to_string fs resolved with
      | Err e => (fs, push_error r (path_error "read " path e))
      | Ok original =>
          match apply_hunks original hunks with
          | Err e => (fs, push_error r (path_error "patch " path e))
          | Ok patched =>
              match update_target fs r root resolved move_to with
              | Err r => (fs, r)
              | Ok (target, r) =>
                  write_update fs r path resolved target patched (bool_decide (is_Some move_to))
              end
          end
      end
  end.

Definition apply_delete (fs : FS) (r : PatchResult) (root path : str) : FS * PatchResult :=
  match resolve_patch_path fs path root with
  | Err e => (fs, push_error r (path_error "" path e))
  | Ok resolved =>
      let '(fs, removed) := remove_file fs resolved in
      match removed with
      | Ok _ => (fs, count_deleted r)
      | Err e => (fs, push_error r (path_error "delete " path e))
      end
  end.

Definition apply_op (root : str) (st : FS * PatchResult) (op : PatchOp) : FS * PatchResult :=
  let '(fs, r) := st in
  match op with
  | AddFile path content => apply_add fs r root path content
  | UpdateFile path move_to hunks => apply_update fs r root path move_to hunks
  | DeleteFile path => apply_delete fs r root path
  end.

Definition apply_patch (fs : FS) (ops : list PatchOp) (root : str) : FS * PatchResult :=
  foldl (apply_op root) (fs, default_result) ops.

(** The tool: [patch] is the parameter of the call, if it is a string. *)
Definition tool_apply_patch (fs : FS) (patch : option str) (workspace_root : option str)
  : FS * result str str :=
  match patch with
  | None => (fs, Err (lit "Missing 'patch' parameter"))
  | Some patch_str =>
      match workspace_root with
      | None => (fs, Err (lit "apply_patch requires a workspace root"))
      | Some root =>
          match parse_patch patch_str with
          | Err e => (fs, Err e)
          | Ok ops =>
              let '(fs, r) := apply_patch fs ops root in
              (fs, if patch_is_ok r then Ok (summary r)
                   else Err (lit "Patch partially applied: " ++ summary r ++ lit ". Errors: "
                             ++ join (errors r) (lit "; ")))
          end
      end
  end.
End Apply.

(** ** Where a hunk applies *)

Section Occurs.
Context (same : str → str → bool).

(** The lines are [pre], lines that match the anchor, and [post]. *)
Definition occurs (ls anchor pre mid post : list str) : Prop :=
  ls = pre ++ mid ++ post ∧ Forall2 (λ l a, same l a = true) mid anchor.

Definition leftmost (ls anchor pre mid post : list str) : Prop :=
  occurs ls anchor pre mid post
  ∧ ∀ pre' mid' post', occurs ls anchor pre' mid' post' → length pre ≤ length pre'.

Lemma matches_at_spec ls anchor :
  matches_at same ls anchor = true ↔ ∃ mid post, occurs ls anchor [] mid post.
Proof.
  unfold occurs. revert ls. induction anchor as [|a anchor IH]; intros ls; simpl.
  - split; [|by intros]. intros _. exists [], ls. by split; [|constructor].
  - destruct ls as [|l ls].
    + split; [done|]. intros (mid & post & E & Hm). inversion Hm; subst. simpl in E. discriminate E.
    + rewrite andb_true_iff, IH. split.
      * intros [Hl (mid & post & -> & Hm)]. exists (l :: mid), post. by repeat constructor.
      * intros (mid & post & E & Hm). inversion Hm as [|x ? mid' ? Hx Hm']; subst.
        injection E as -> ->. eauto.
Qed.

Lemma occurs_at ls anchor n :
  n ≤ length ls →
  matches_at same (drop n ls) anchor = true ↔
  ∃ pre mid post, occurs ls anchor pre mid post ∧ length pre = n.
Proof.
  intros Hn. rewrite matches_at_spec. unfold occurs. simpl. split.
  - intros (mid & post & E & Hm). exists (take n ls), mid, post. rewrite length_take.
    split_and!; [|done|lia]. by rewrite <-E, take_drop.
  - intros (pre & mid & post & [-> Hm] & <-). exists mid, post. by rewrite drop_app_length.
Qed.

Lemma occurs_bound ls anchor pre mid post :
  occurs ls anchor pre mid post → length pre + length anchor ≤ length ls.
Proof. intros [-> Hm]. apply Forall2_length in Hm. rewrite !length_app. lia. Qed.

Lemma head_filter_seq (P : nat → Prop) `{!∀ n, Decision (P n)} a n k :
  head (filter P (seq a n)) = Some k ↔ a ≤ k < a + n ∧ P k ∧ ∀ j, a ≤ j < k → ¬ P j.
Proof.
  revert a. induction n as [|n IH]; intros a; simpl; [split; [done|lia]|].
  rewrite filter_cons. case_decide as Ha; simpl.
  - split; [intros [= <-]; split_and!; [lia|lia|done|intros; lia]|].
    intros (Hk & HP & Hj). f_equal. destruct (decide (a = k)) as [|]; [done|].
    destruct (Hj a); [lia|done].
  - rewrite IH. split; intros (Hk & HP & Hj); split_and!; try lia; try done.
    + intros j Hj'. destruct (decide (j = a)) as [->|]; [done|]. apply Hj. lia.
    + assert (k ≠ a) by congruence. lia.
    + intros j Hj'. apply Hj. lia.
Qed.

Lemma find_place_Some ls anchor n :
  anchor ≠ [] →
  find_place same ls anchor = Some n ↔
  ∃ pre mid post, leftmost ls anchor pre mid post ∧ length pre = n.
Proof.
  intros Ha. unfold find_place. destruct anchor as [|a0 anchor0]; [done|].
  set (anchor := a0 :: anchor0) in *.
  destruct (Nat.ltb_spec (length ls) (length anchor)) as [Hlt|Hge].
  { split; [done|]. intros (pre & mid & post & [Ho _] & _). apply occurs_bound in Ho. lia. }
  rewrite head_filter_seq. split.
  - intros (Hn & Hm & Hj). apply occurs_at in Hm as (pre & mid & post & Ho & Hl); [|lia].
    exists pre, mid, post. split_and!; [|done]. split; [done|]. intros pre' mid' post' Ho'.
    pose proof (occurs_bound _ _ _ _ _ Ho'). destruct (decide (length pre ≤ length pre')); [done|].
    destruct (Hj (length pre')); [lia|]. apply occurs_at; [lia|]. eauto 10.
  - intros (pre & mid & post & [Ho Hleft] & <-). pose proof (occurs_bound _ _ _ _ _ Ho).
    split_and!; [lia|lia| |].
    + apply occurs_at; [lia|]. eauto 10.
    + intros j Hj Hm. apply occurs_at in Hm as (pre' & mid' & post' & Ho' & <-); [|lia].
      apply Hleft in Ho'. lia.
Qed.

Lemma occurs_leftmost ls anchor pre mid post :
  occurs ls anchor pre mid post → ∃ pre' mid' post', leftmost ls anchor pre' mid' post'.
Proof.
  remember (length pre) as n eqn:Hn. revert pre mid post Hn.
  induction (lt_wf n) as [n _ IH]; intros pre mid post -> Ho.
  destruct (decide (Exists (λ j, matches_at same (drop j ls) anchor = true) (seq 0 (length pre))))
    as [(j & Hj%elem_of_seq & Hm)%Exists_exists|Hno].
  - pose proof (occurs_bound _ _ _ _ _ Ho).
    apply occurs_at in Hm as (pre' & mid' & post' & Ho' & <-); [|lia]. eapply (IH (length pre')); [lia|reflexivity|exact Ho'].
  - exists pre, mid, post. split; [done|]. intros pre' mid' post' Ho'.
    destruct (decide (length pre ≤ length pre')); [done|]. destruct Hno. apply Exists_exists.
    exists (length pre'). split; [apply elem_of_seq; lia|]. pose proof (occurs_bound _ _ _ _ _ Ho'). apply occurs_at; [lia|]. eauto 10.
Qed.

Lemma find_place_None ls anchor :
  anchor ≠ [] → find_place same ls anchor = None ↔ ∀ pre mid post, ¬ occurs ls anchor pre mid post.
Proof.
  intros Ha. split.
  - intros Hf pre mid post (pre' & mid' & post' & Hl)%occurs_leftmost.
    enough (find_place same ls anchor = Some (length pre')) by congruence.
    apply find_place_Some; eauto 10.
  - intros Hno. destruct (find_place same ls anchor) eqn:E; [|done].
    apply find_place_Some in E as (pre & mid & post & [Ho _] & _); [|done]. by apply Hno in Ho.
Qed.

Lemma leftmost_unique ls anchor pre mid post pre' mid' post' :
  leftmost ls anchor pre mid post → leftmost ls anchor pre' mid' post' →
  pre = pre' ∧ mid = mid' ∧ post = post'.
Proof.
  intros [[E Hm] H1] [[E' Hm'] H2].
  pose proof (H1 _ _ _ (conj E' Hm')). pose proof (H2 _ _ _ (conj E Hm)).
  apply Forall2_length in Hm, Hm'. rewrite E in E'.
  apply app_inj_1 in E' as [-> E']; [|lia]. apply app_inj_1 in E' as [-> ->]; [done|lia].
Qed.

End Occurs.

(** ** Reference: what one hunk does *)

(** The hunk goes to the first place where its context and old lines are; only
    if there is none, to the first place where they are up to blanks at the
    end of lines. The context is written as the hunk has it. *)
Inductive hunk_applied (h : Hunk) (ls : list str) : list str → Prop :=
| applied_at_end :
    anchor_of h = [] → hunk_applied h ls (ls ++ new_lines h)
| applied_exact pre mid post :
    anchor_of h ≠ [] → leftmost str_eqb ls (anchor_of h) pre mid post →
    hunk_applied h ls (pre ++ (context_before h ++ new_lines h) ++ post)
| applied_fuzzy pre mid post :
    anchor_of h ≠ [] →
    (∀ pre' mid' post', ¬ occurs str_eqb ls (anchor_of h) pre' mid' post') →
    leftmost same_trimmed ls (anchor_of h) pre mid post →
    hunk_applied h ls (pre ++ (context_before h ++ new_lines h) ++ post).

Lemma splice_occurs same ls h pre mid post :
  occurs same ls (anchor_of h) pre mid post →
  splice ls (length pre) (length (context_before h) + length (old_lines h))
    (context_before h ++ new_lines h) = pre ++ (context_before h ++ new_lines h) ++ post.
Proof.
  intros [-> Hm]. apply Forall2_length in Hm. unfold anchor_of in Hm. rewrite length_app in Hm.
  unfold splice. rewrite take_app_length, <-Hm. f_equal. f_equal.
  by rewrite drop_app_add, drop_app_length.
Qed.

Lemma apply_hunk_unfold idx h ls :
  anchor_of h ≠ [] →
  apply_hunk idx h ls =
  match (match find_anchor ls (anchor_of h) with
         | Some pos => Some pos | None => find_anchor_fuzzy ls (anchor_of h) end) with
  | None => Err (hunk_error idx)
  | Some pos => Ok (splice ls pos (length (context_before h) + length (old_lines h))
                      (context_before h ++ new_lines h))
  end.
Proof. unfold apply_hunk. by destruct (anchor_of h). Qed.

(** A hunk is applied as the reference relation says, and fails only where
    no place in the file has its context and old lines, not even up to
    trailing blanks. *)
Theorem apply_hunk_spec idx h ls :
  (∀ ls', apply_hunk idx h ls = Ok ls' ↔ hunk_applied h ls ls')
  ∧ (∀ e, apply_hunk idx h ls = Err e ↔
      e = hunk_error idx ∧ anchor_of h ≠ []
      ∧ (∀ pre mid post, ¬ occurs str_eqb ls (anchor_of h) pre mid post)
      ∧ ∀ pre mid post, ¬ occurs same_trimmed ls (anchor_of h) pre mid post).
Proof.
  destruct (decide (anchor_of h = [])) as [Ha|Ha].
  { unfold apply_hunk. rewrite Ha. split; [|naive_solver]. intros ls'. split.
    - intros [= <-]. by constructor.
    - by inversion 1. }
  rewrite apply_hunk_unfold by done. unfold find_anchor, find_anchor_fuzzy.
  destruct (find_place str_eqb ls (anchor_of h)) as [n|] eqn:E.
  { apply find_place_Some in E as (pre & mid & post & Hl & <-); [|done].
    rewrite (splice_occurs str_eqb ls h pre mid post) by (apply Hl). split; [|split; [done|]].
    - intros ls'. split; [intros [= <-]; by econstructor|].
      inversion 1 as [|pre' mid' post' _ Hl'|pre' mid' post' _ Hno]; [done| |].
      + by destruct (leftmost_unique _ _ _ _ _ _ _ _ _ Hl Hl') as (-> & -> & ->).
      + destruct (Hno pre mid post). apply Hl.
    - intros (_ & _ & Hno & _). destruct (Hno pre mid post). apply Hl. }
  rewrite find_place_None in E by done.
  destruct (find_place same_trimmed ls (anchor_of h)) as [n|] eqn:E2.
  - apply find_place_Some in E2 as (pre & mid & post & Hl & <-); [|done].
    rewrite (splice_occurs same_trimmed ls h pre mid post) by (apply Hl). split; [|split; [done|]].
    + intros ls'. split; [intros [= <-]; by eapply applied_fuzzy|].
      inversion 1 as [|pre' mid' post' _ Hl'|pre' mid' post' _ _ Hl']; [done| |].
      * destruct (E pre' mid' post'). apply Hl'.
      * by destruct (leftmost_unique _ _ _ _ _ _ _ _ _ Hl Hl') as (-> & -> & ->).
    + intros (_ & _ & _ & Hno). destruct (Hno pre mid post). apply Hl.
  - rewrite find_place_None in E2 by done. split.
    + intros ls'. split; [done|]. inversion 1 as [|? ? ? _ [Ho _]|? ? ? _ _ [Ho _]]; [done| |].
      * by apply E in Ho.
      * by apply E2 in Ho.
    + intros e. split; [intros [= <-]|intros (-> & _)]; done.
Qed.

(** ** Texts and lines *)

Lemma join_snoc_nil ls : ls ≠ [] → join (ls ++ [[]]) [newline] = join ls [newline] ++ [newline].
Proof.
  induction ls as [|l [|l' ls] IH]; intros Hne; [done|reflexivity|].
  etrans; [exact (f_equal (λ t, l ++ [newline] ++ t) (IH ltac:(done)))|].
  change (join (l :: l' :: ls) [newline]) with (l ++ [newline] ++ join (l' :: ls) [newline]).
  by rewrite <-!app_assoc.
Qed.

Lemma lines_of_snoc_nil ls : Forall (λ s, line_ok s = true) ls → lines_of (ls ++ [[]]) = ls.
Proof.
  intros Hok. induction Hok as [|l ls Hl _ IH]; [done|].
  destruct ls as [|l' ls]; simpl in *; by rewrite strip_cr_ok, ?IH.
Qed.

Lemma split_join_lines ls l :
  Forall (λ s, line_ok s = true) (ls ++ [l]) → split (join (ls ++ [l]) [newline]) newline = ls ++ [l].
Proof.
  induction ls as [|s ls IH]; intros Hok.
  - apply Forall_singleton, line_ok_newline in Hok. by apply split_no_sep_id.
  - apply Forall_cons in Hok as [Hs Hok]. specialize (IH Hok).
    rewrite <-app_comm_cons. destruct (ls ++ [l]) as [|x xs] eqn:E; [by destruct ls|].
    change (join (s :: x :: xs) [newline]) with (s ++ newline :: join (x :: xs) [newline]).
    by rewrite split_app_sep, IH by (by apply line_ok_newline).
Qed.

Lemma lines_join_newline ls :
  Forall (λ s, line_ok s = true) ls → ls ≠ [] → lines (join ls [newline] ++ [newline]) = ls.
Proof.
  intros Hok Hne. unfold lines. rewrite <-join_snoc_nil by done.
  rewrite split_join_lines by (apply Forall_app; split; [done|by constructor]).
  by apply lines_of_snoc_nil.
Qed.

(** The text of lines, with or without a newline at the end. *)
Definition text_of (ls : list str) (trailing : bool) : str :=
  join ls [newline] ++ (if trailing then [newline] else []).

(** Lines that make a text: some, and the last not empty. *)
Definition text_lines (ls : list str) : Prop :=
  Forall (λ s, line_ok s = true) ls ∧ default [] (last ls) ≠ [].

Lemma text_lines_snoc ls : text_lines ls → ∃ ls' l, ls = ls' ++ [l] ∧ l ≠ [].
Proof.
  intros [_ Hl]. destruct ls as [|x ls] using rev_ind; [done|]. rewrite last_snoc in Hl. eauto.
Qed.

Lemma join_snoc ls l : ∃ t, join (ls ++ [l]) [newline] = t ++ l.
Proof.
  induction ls as [|x ls [t IH]]; [by exists []|]. rewrite <-app_comm_cons.
  destruct (ls ++ [l]) as [|y ys] eqn:E; [by destruct ls|].
  exists (x ++ [newline] ++ t). change (join (x :: y :: ys) [newline])
    with (x ++ [newline] ++ join (y :: ys) [newline]). rewrite IH. by rewrite !app_assoc.
Qed.

Lemma join_no_newline ls :
  text_lines ls → ends_with (join ls [newline]) [newline] = false.
Proof.
  intros Hls. pose proof (text_lines_snoc ls Hls) as (ls' & l & -> & Hl).
  destruct Hls as [Hok _]. apply Forall_app in Hok as [_ Hok%Forall_singleton%line_ok_newline].
  destruct (join_snoc ls' l) as [t ->]. unfold ends_with. apply bool_decide_eq_false.
  intros [u Hu]. destruct l as [|c l] using rev_ind; [done|].
  rewrite app_assoc in Hu. apply app_inj_2 in Hu as [_ [= ->]]; [|done]. set_solver.
Qed.

Lemma ends_with_newline t : ends_with (t ++ [newline]) [newline] = true.
Proof. unfold ends_with. apply bool_decide_eq_true. by exists t. Qed.

(** On texts, hunks act as on lines: line ends other than the changed
    ones, and a newline at the end of the file or its absence, are kept. *)
Theorem apply_hunks_text ls ls' hunks trailing :
  text_lines ls → text_lines ls' → apply_hunk_list 0 hunks ls = Ok ls' →
  apply_hunks (text_of ls trailing) hunks = Ok (text_of ls' trailing).
Proof.
  intros Hls Hls' Happ. pose proof (text_lines_snoc ls Hls) as (ks & l & E & Hl).
  destruct (Hls) as [Hok _].
  unfold apply_hunks, text_of, with_trailing. destruct trailing.
  - rewrite lines_join_newline; [|done|by rewrite E; destruct ks].
    rewrite Happ, ends_with_newline, join_no_newline by done. done.
  - rewrite !app_nil_r. rewrite (join_no_newline ls Hls).
    replace (lines (join ls [newline])) with ls
      by (symmetry; rewrite E in Hok |- *; by apply lines_join).
    by rewrite Happ.
Qed.

Lemma apply_hunks_text_witness :
  let h := mkHunk [lit "b"] [lit "c"] [lit "C"; lit "D"] [] in
  apply_hunks (text_of [lit "a"; lit "b"; lit "c"; lit "e"] true) [h]
  = Ok (text_of [lit "a"; lit "b"; lit "C"; lit "D"; lit "e"] true).
Proof.
  intros h. apply apply_hunks_text.
  - split; [repeat constructor|done].
  - split; [repeat constructor|done].
  - vm_compute; reflexivity.
Defined.

(** A file that ends with a blank line loses that line when a hunk is
    applied anywhere in it: the newline of the last line that is kept is taken
    for the end of the file. *)
Theorem blank_last_line_lost ls h ls' :
  Forall (λ s, line_ok s = true) ls → apply_hunk 0 h (ls ++ [[]]) = Ok (ls' ++ [[]]) → ls' ≠ [] →
  apply_hunks (text_of (ls ++ [[]]) true) [h] = Ok (text_of ls' true).
Proof.
  intros Hok Happ Hne. unfold apply_hunks, text_of, with_trailing.
  rewrite lines_join_newline; [| |by destruct ls].
  2: { apply Forall_app; split; [done|by constructor]. }
  cbn [apply_hunk_list]. rewrite Happ, ends_with_newline, join_snoc_nil by done.
  by rewrite ends_with_newline.
Qed.

Lemma blank_last_line_lost_witness :
  apply_hunks (text_of [lit "a"; lit "b"; []] true) [mkHunk [] [lit "a"] [lit "A"] []]
  = Ok (text_of [lit "A"; lit "b"] true).
Proof.
  apply (blank_last_line_lost [lit "a"; lit "b"] _ [lit "A"; lit "b"]);
    [repeat constructor|vm_compute; reflexivity|done].
Defined.

(** ** The whole patch *)

Section PatchFacts.
Context {FS : Type} `{FileSystem FS}.

(** Operations done and operations that failed. *)
Definition done_count (r : PatchResult) : nat := files_added r + files_updated r + files_deleted r.

Definition outcomes (r : PatchResult) : nat := done_count r + length (errors r).

Lemma outcomes_push_error r e : outcomes (push_error r e) = S (outcomes r).
Proof. unfold outcomes, done_count. simpl. rewrite length_app. simpl. lia. Qed.

Lemma outcomes_add fs r root path content :
  outcomes (apply_add fs r root path content).2 = S (outcomes r).
Proof.
  unfold apply_add. destruct (resolve_patch_path fs path root) as [p|]; [|apply outcomes_push_error].
  destruct (match path_parent p with Some q => _ | None => _ end) as [fs1 [[]|]];
    [|apply outcomes_push_error].
  by destruct (write fs1 p content) as [fs2 [[]|]]; [|apply outcomes_push_error].
Qed.

Lemma outcomes_update fs r root path move_to hunks :
  outcomes (apply_update fs r root path move_to hunks).2 = S (outcomes r).
Proof.
  unfold apply_update, update_target.
  destruct (resolve_patch_path fs path root) as [p|]; [|apply outcomes_push_error].
  destruct (read_to_string fs p) as [t|]; [|apply outcomes_push_error].
  destruct (apply_hunks t hunks) as [t'|]; [|apply outcomes_push_error].
  assert (∀ q r' b, outcomes r' = outcomes r →
    outcomes (write_update fs r' path p q t' b).2 = S (outcomes r)) as Hw.
  { intros q r' b Hr. unfold write_update.
    set (fs1 := match path_parent q with Some parent => _ | None => _ end).
    destruct (write fs1 q t') as [fs2 [[]|]]; simpl.
    - rewrite <-Hr. unfold outcomes, done_count. simpl. lia.
    - by rewrite outcomes_push_error, Hr. }
  destruct move_to as [np|]; [|by apply Hw].
  destruct (resolve_patch_path fs np root) as [q|]; [by apply Hw|apply outcomes_push_error].
Qed.

Lemma outcomes_delete fs r root path : outcomes (apply_delete fs r root path).2 = S (outcomes r).
Proof.
  unfold apply_delete. destruct (resolve_patch_path fs path root) as [p|]; [|apply outcomes_push_error].
  destruct (remove_file fs p) as [fs1 [[]|]]; [|apply outcomes_push_error].
  unfold outcomes, done_count. simpl. lia.
Qed.

Lemma outcomes_op root st op : outcomes (apply_op root st op).2 = S (outcomes st.2).
Proof.
  destruct st as [fs r], op; [apply outcomes_add|apply outcomes_update|apply outcomes_delete].
Qed.

Lemma outcomes_fold root ops st :
  outcomes (foldl (apply_op root) st ops).2 = outcomes st.2 + length ops.
Proof.
  revert st. induction ops as [|op ops IH]; intros st; simpl; [lia|].
  rewrite IH, outcomes_op. lia.
Qed.

Lemma apply_patch_outcomes fs ops root : outcomes (apply_patch fs ops root).2 = length ops.
Proof. unfold apply_patch. by rewrite outcomes_fold. Qed.

(** No operation of a patch gets lost: the tool succeeds exactly if the
    patch parses and every one of its operations was carried out, and then
    the counts of added, updated and deleted files add up to the number of
    operations; otherwise every operation was counted or left an error. *)
Theorem tool_apply_patch_accounts fs patch root ops :
  parse_patch patch = Ok ops →
  let r := (apply_patch fs ops root).2 in
  done_count r + length (errors r) = length ops
  ∧ (is_ok (tool_apply_patch fs (Some patch) (Some root)).2 = true ↔ done_count r = length ops).
Proof.
  intros Hp r. pose proof (apply_patch_outcomes fs ops root) as Ho. fold r in Ho.
  split; [done|]. unfold tool_apply_patch. rewrite Hp. subst r.
  destruct (apply_patch fs ops root) as [fs' r] eqn:E. simpl in Ho |- *. unfold patch_is_ok.
  unfold outcomes in Ho. case_bool_decide as He; simpl.
  - rewrite He in Ho. simpl in Ho. split; [|done]. lia.
  - destruct (errors r); [done|]. simpl in Ho. split; [done|lia].
Qed.

(** What the file system calls of a patch may do: calls on confined paths, and
    the making of directories above them. *)
Record closed_under_calls (root : str) (R : relation FS) : Prop := {
  calls_refl : ∀ fs, R fs fs;
  calls_trans : ∀ fs1 fs2 fs3, R fs1 fs2 → R fs2 fs3 → R fs1 fs3;
  calls_write : ∀ fs fs0 p c, confined fs0 root p → R fs0 fs → R fs0 (write fs p c).1;
  calls_remove : ∀ fs fs0 p, confined fs0 root p → R fs0 fs → R fs0 (remove_file fs p).1;
  calls_mkdir : ∀ fs fs0 p q, confined fs0 root p → path_parent p = Some q → R fs0 fs →
    R fs0 (create_dir_all fs q).1
}.

Section Confined.
Context (root : str) (R : relation FS) (HR : closed_under_calls root R).

Lemma confined_mkdir fs fs0 p :
  confined fs0 root p → R fs0 fs →
  R fs0 (match path_parent p with Some q => (create_dir_all fs q).1 | None => fs end).
Proof. destruct (path_parent p) eqn:E; [|done]. intros. by eapply (calls_mkdir _ _ HR). Qed.

Lemma confined_add fs r path content : R fs (apply_add fs r root path content).1.
Proof.
  unfold apply_add, resolve_patch_path. destruct (resolve_sandbox_path fs path root) as [p|] eqn:E;
    [|apply HR]. apply resolve_confined in E.
  pose proof (confined_mkdir fs fs p E (calls_refl _ _ HR fs)) as Hm.
  destruct (path_parent p) as [q|].
  - destruct (create_dir_all fs q) as [fs1 [[]|]]; [|done].
    pose proof (calls_write _ _ HR fs1 fs p content E Hm) as Hw.
    by destruct (write fs1 p content) as [fs2 [[]|]].
  - pose proof (calls_write _ _ HR fs fs p content E Hm) as Hw.
    by destruct (write fs p content) as [fs2 [[]|]].
Qed.

Lemma confined_write_update fs r path p q t b :
  confined fs root p → confined fs root q → R fs (write_update fs r path p q t b).1.
Proof.
  intros Hp Hq. unfold write_update.
  pose proof (confined_mkdir fs fs q Hq (calls_refl _ _ HR fs)) as Hm.
  set (fs1 := match path_parent q with Some parent => _ | None => _ end) in *.
  pose proof (calls_write _ _ HR fs1 fs q t Hq Hm) as Hw.
  destruct (write fs1 q t) as [fs2 [[]|]]; simpl; [|done].
  destruct (b && negb (path_eqb q p)); [|done]. by apply (calls_remove _ _ HR).
Qed.

Lemma confined_update fs r path move_to hunks : R fs (apply_update fs r root path move_to hunks).1.
Proof.
  unfold apply_update, update_target, resolve_patch_path.
  destruct (resolve_sandbox_path fs path root) as [p|] eqn:E; [|apply HR].
  apply resolve_confined in E. destruct (read_to_string fs p) as [t|]; [|apply HR].
  destruct (apply_hunks t hunks) as [t'|]; [|apply HR].
  destruct move_to as [np|]; [|by apply confined_write_update].
  destruct (resolve_sandbox_path fs np root) as [q|] eqn:Eq; [|apply HR].
  apply resolve_confined in Eq. by apply confined_write_update.
Qed.

Lemma confined_delete fs r path : R fs (apply_delete fs r root path).1.
Proof.
  unfold apply_delete, resolve_patch_path.
  destruct (resolve_sandbox_path fs path root) as [p|] eqn:E; [|apply HR]. apply resolve_confined in E.
  pose proof (calls_remove _ _ HR fs fs p E (calls_refl _ _ HR fs)) as Hd.
  by destruct (remove_file fs p) as [fs1 [[]|]].
Qed.

Lemma confined_op st op : R st.1 (apply_op root st op).1.
Proof. destruct st as [fs r], op; [apply confined_add|apply confined_update|apply confined_delete]. Qed.

Lemma confined_fold ops st : R st.1 (foldl (apply_op root) st ops).1.
Proof.
  revert st. induction ops as [|op ops IH]; intros st; simpl; [apply HR|].
  eapply (calls_trans _ _ HR); [apply confined_op|apply IH].
Qed.
End Confined.

(** C12: Confinement: whatever the tool is given, the file system is changed
    only by calls on paths under the canonical workspace root (and by making
    the directories above such paths). Any relation between file systems that
    these calls respect holds between the states before and after. *)
Theorem tool_apply_patch_confined fs patch root R :
  closed_under_calls root R → R fs (tool_apply_patch fs patch (Some root)).1.
Proof.
  intros HR. unfold tool_apply_patch. destruct patch as [t|]; [|apply HR].
  destruct (parse_patch t) as [ops|]; [|apply HR].
  pose proof (confined_fold root R HR ops (fs, default_result)) as Hc. unfold apply_patch.
  by destruct (foldl (apply_op root) (fs, default_result) ops) as [fs' r].
Qed.
End PatchFacts.

(** Files outside the workspace are as before. *)
Definition same_outside (root : str) (d d' : Disk) : Prop :=
  ∀ p, path_starts_with p root = false → d !! p = d' !! p.

Lemma same_outside_closed root : closed_under_calls root (same_outside root).
Proof.
  unfold same_outside. split; simpl.
  - done.
  - intros d1 d2 d3 H1 H2 p Hp. by rewrite H1, H2.
  - intros d d0 p c (cr & [= <-] & Hp) Hd q Hq. rewrite Hd by done.
    by rewrite lookup_insert_ne by congruence.
  - intros d d0 p (cr & [= <-] & Hp) Hd q Hq. rewrite Hd by done.
    case_decide; simpl; [|done]. by rewrite lookup_delete_ne by congruence.
  - intros d d0 p q _ _ Hd. exact Hd.
Qed.

Lemma tool_apply_patch_confined_witness :
  let d : Disk := {[ lit "/etc/passwd" := lit "root" ]} in
  same_outside (lit "/ws") d
    (tool_apply_patch d (Some (lit "*** Begin Patch")) (Some (lit "/ws"))).1.
Proof. intros d. apply tool_apply_patch_confined, same_outside_closed. Defined.

Definition sample_patch : str :=
  print_patch [AddFile (lit "a.txt") (lit "one");
               UpdateFile (lit "b.txt") (Some (lit "c.txt")) [mkHunk [lit "x"] [lit "y"] [lit "z"] []];
               DeleteFile (lit "/etc/passwd")].

Definition sample_disk : Disk :=
  {[ lit "/ws/b.txt" := lit "x" ++ [newline] ++ lit "y"; lit "/etc/passwd" := lit "root" ]}.

Lemma tool_apply_patch_accounts_witness :
  done_count (apply_patch sample_disk [AddFile (lit "a.txt") (lit "one");
    UpdateFile (lit "b.txt") (Some (lit "c.txt")) [mkHunk [lit "x"] [lit "y"] [lit "z"] []];
    DeleteFile (lit "/etc/passwd")] (lit "/ws")).2 = 2
  ∧ is_ok (tool_apply_patch sample_disk (Some sample_patch) (Some (lit "/ws"))).2 = false.
Proof.
  split; [vm_compute; reflexivity|]. apply not_true_iff_false. intros Hok.
  apply (tool_apply_patch_accounts sample_disk sample_patch (lit "/ws")
    [AddFile (lit "a.txt") (lit "one");
     UpdateFile (lit "b.txt") (Some (lit "c.txt")) [mkHunk [lit "x"] [lit "y"] [lit "z"] []];
     DeleteFile (lit "/etc/passwd")]) in Hok; [|vm_compute; reflexivity].
  vm_compute in Hok. discriminate Hok.
Defined.

(** A move writes the patched text to the new path and removes the old one;
    the file outside the workspace stays. *)
Example sample_patch_applied :
  tool_apply_patch sample_disk (Some sample_patch) (Some (lit "/ws"))
  = ({[ lit "/ws/a.txt" := lit "one"; lit "/ws/c.txt" := lit "x" ++ [newline] ++ lit "z";
        lit "/etc/passwd" := lit "root" ]},
     Err (lit "Patch partially applied: 1 added, 1 updated, 1 moved, 1 errors. Errors: /etc/passwd: "
          ++ outside_error (lit "/etc/passwd"))).
Proof. vm_compute. reflexivity. Qed.
