(* ===== verification/Taint.v ===== *)
(** * Taint tracking

    [openfang-types/src/taint.rs]: labelled values and the sinks that refuse
    labels. A [HashSet] is a [gset]; the order in which a loop visits it is a
    parameter. *)

From Stdlib Require Import Ascii ZArith Lia.
From stdpp Require Import base gmap strings list sets.
From S2P Require Import Prelude Strs.

Inductive TaintLabel : Type :=
| ExternalNetwork
| UserInput
| Pii
| Secret
| UntrustedAgent.

#[global] Instance taint_label_eq_dec : EqDecision TaintLabel.
Proof. solve_decision. Defined.

Definition label_code (l : TaintLabel) : nat :=
  match l with ExternalNetwork => 0 | UserInput => 1 | Pii => 2 | Secret => 3 | UntrustedAgent => 4 end.

Definition label_of_code (n : nat) : option TaintLabel :=
  [ExternalNetwork; UserInput; Pii; Secret; UntrustedAgent] !! n.

#[global] Program Instance taint_label_countable : Countable TaintLabel :=
  inj_countable label_code label_of_code _.
Next Obligation. by intros []. Qed.

Definition show_label (l : TaintLabel) : str :=
  match l with
  | ExternalNetwork => lit "ExternalNetwork"
  | UserInput => lit "UserInput"
  | Pii => lit "Pii"
  | Secret => lit "Secret"
  | UntrustedAgent => lit "UntrustedAgent"
  end.

Record TaintedValue : Type := mkTainted {
  value : str;
  labels : gset TaintLabel;
  source : str
}.

Record TaintSink : Type := mkSink {
  name : str;
  blocked_labels : gset TaintLabel
}.

Record TaintViolation : Type := mkViolation {
  label : TaintLabel;
  sink_name : str;
  violation_source : str
}.

Definition show_violation (v : TaintViolation) : str :=
  lit "taint violation: label '" ++ show_label (label v) ++ lit "' from source '"
  ++ violation_source v ++ lit "' is not allowed to reach sink '" ++ sink_name v ++ lit "'".

Definition clean (value source : str) : TaintedValue := mkTainted value ∅ source.

Definition declassify (v : TaintedValue) (l : TaintLabel) : TaintedValue :=
  mkTainted (value v) (labels v ∖ {[ l ]}) (source v).

Definition is_tainted (v : TaintedValue) : bool := negb (bool_decide (labels v = ∅)).

Definition shell_exec : TaintSink :=
  mkSink (lit "shell_exec") ({[ UserInput ]} ∪ ({[ UntrustedAgent ]} ∪ ({[ ExternalNetwork ]} ∪ ∅))).
Definition net_fetch : TaintSink := mkSink (lit "net_fetch") ({[ Pii ]} ∪ ({[ Secret ]} ∪ ∅)).
Definition agent_message : TaintSink := mkSink (lit "agent_message") ({[ Secret ]} ∪ ∅).

(** The order in which a set of labels is visited. *)
Class LabelOrder := {
  label_order : gset TaintLabel → list TaintLabel;
  label_order_perm s : label_order s ≡ₚ elements s
}.

#[export] Instance elements_order : LabelOrder | 100 := {
  label_order := elements;
  label_order_perm s := reflexivity (elements s)
}.

Section Flow.
Context `{LabelOrder}.

Definition merge_taint (v other : TaintedValue) : TaintedValue :=
  mkTainted (value v) (foldl (λ ls l, {[ l ]} ∪ ls) (labels v) (label_order (labels other))) (source v).

Definition check_sink (v : TaintedValue) (sink : TaintSink) : result unit TaintViolation :=
  match List.find (λ l, bool_decide (l ∈ blocked_labels sink)) (label_order (labels v)) with
  | Some l => Err (mkViolation l (name sink) (source v))
  | None => Ok tt
  end.

Lemma elem_of_label_order l s : l ∈ label_order s ↔ l ∈ s.
Proof. by rewrite label_order_perm, elem_of_elements. Qed.

Lemma merge_labels (ls : list TaintLabel) (s : gset TaintLabel) : foldl (λ ls l, {[ l ]} ∪ ls) s ls = s ∪ list_to_set ls.
Proof.
  revert s. induction ls as [|l ls IH]; intros s; simpl; [set_solver|]. rewrite IH. set_solver.
Qed.

Lemma labels_merge v other : labels (merge_taint v other) = labels v ∪ labels other.
Proof.
  simpl. rewrite merge_labels. f_equal. apply set_eq. intros l.
  by rewrite elem_of_list_to_set, elem_of_label_order.
Qed.

Lemma check_sink_Ok v sink : check_sink v sink = Ok tt ↔ labels v ## blocked_labels sink.
Proof.
  unfold check_sink.
  destruct (List.find _ _) as [l|] eqn:E.
  - apply List.find_some in E as [Hin Hb]. apply bool_decide_eq_true in Hb.
    apply list_elem_of_In, elem_of_label_order in Hin. split; [done|set_solver].
  - split; [|done]. intros _ l Hl Hb. apply elem_of_label_order, list_elem_of_In in Hl.
    pose proof (List.find_none _ _ E l Hl) as Hn. by apply bool_decide_eq_false in Hn.
Qed.

(** Labels are never lost by combining values: the combination of two
    values may flow into a sink exactly if both may, and after removing a
    label exactly if every other label may. A refusal names a label the value
    carries and the sink blocks. *)
Theorem taint_flow v other l sink :
  (check_sink (merge_taint v other) sink = Ok tt ↔
     check_sink v sink = Ok tt ∧ check_sink other sink = Ok tt)
  ∧ (check_sink (declassify v l) sink = Ok tt ↔ labels v ∩ blocked_labels sink ⊆ {[ l ]})
  ∧ (∀ viol, check_sink v sink = Err viol →
       label viol ∈ labels v ∧ label viol ∈ blocked_labels sink
       ∧ sink_name viol = name sink ∧ violation_source viol = source v).
Proof.
  rewrite !check_sink_Ok, labels_merge. split_and!; [set_solver| |].
  - simpl. split; [|set_solver]. intros Hd x [Hx Hb]%elem_of_intersection.
    destruct (decide (x = l)); [set_solver|]. set_solver.
  - unfold check_sink. intros viol. destruct (List.find _ _) as [l'|] eqn:E; [|done].
    intros [= <-]. apply List.find_some in E as [Hin Hb]. apply bool_decide_eq_true in Hb.
    apply list_elem_of_In, elem_of_label_order in Hin. done.
Qed.
End Flow.
