(* ===== verification/ShellExec.v ===== *)
(** * Shell execution

    The exec policy of [openfang-types/src/config.rs], the command validation
    and the environment of [openfang-runtime/src/subprocess_sandbox.rs], and
    the path of a [shell_exec] call through [openfang-runtime/src/tool_runner.rs],
    on Unix. Log fields that slice the command are evaluated, as they are at
    the default log level, so that a slice inside a character is a panic,
    [None]. The environment of the process and the run of the command are
    parameters. *)

From Stdlib Require Import Ascii ZArith Lia.
From stdpp Require Import base gmap strings list sets pretty.
From S2P Require Import Prelude Strs TextLines WorkspaceSandbox Taint.

Inductive ExecSecurityMode : Type := Deny | Allowlist | Full.

Record ExecPolicy : Type := mkExecPolicy {
  mode : ExecSecurityMode;
  safe_bins : list str;
  allowed_commands : list str;
  timeout_secs : Z;
  max_output_bytes : Z;
  no_output_timeout_secs : Z
}.

Definition default_safe_bins : list str :=
  lit <$> ["sleep"; "true"; "false"; "cat"; "sort"; "uniq"; "cut"; "tr"; "head"; "tail"; "wc";
           "date"; "echo"; "printf"; "basename"; "dirname"; "pwd"; "env"]%string.

Definition default_policy : ExecPolicy :=
  mkExecPolicy Allowlist default_safe_bins [] 30 (100 * 1024) 30.

(** ** The environment of a child *)

Definition SAFE_ENV_VARS : list str :=
  lit <$> ["PATH"; "HOME"; "TMPDIR"; "TMP"; "TEMP"; "LANG"; "LC_ALL"; "TERM"]%string.

Definition add_var (env : gmap str str) (child : gmap str str) (var : str) : gmap str str :=
  match env !! var with Some val => <[ var := val ]> child | None => child end.

Definition sandbox_command (env : gmap str str) (allowed_env_vars : list str) : gmap str str :=
  foldl (add_var env) (foldl (add_var env) ∅ SAFE_ENV_VARS) allowed_env_vars.

Definition validate_executable_path (path : str) : result unit str :=
  if bool_decide (ParentDir ∈ components path)
  then Err (lit "executable path '" ++ path ++ lit "' contains '..' component which is not allowed")
  else Ok tt.

(** ** Commands *)

(** [s.rsplit(c).next()] *)
Definition after_last (s : str) (c : ascii) : str := List.last (split s c) [].

Definition extract_base_command (cmd : str) : str :=
  let first_word := default [] (head (split_whitespace (trim cmd))) in
  after_last (after_last first_word "/"%char) "\"%char.

Definition separators : list str := [lit "&&"; lit "||"; lit "|"; lit ";"].

(** The loop over the separators: the position and length of the earliest. *)
Definition earlier (rest : str) (best : nat * nat) (sep : str) : nat * nat :=
  match find rest sep with
  | Some pos => if pos <? best.1 then (pos, length sep) else best
  | None => best
  end.

Definition earliest (rest : str) : nat * nat := foldl (earlier rest) (length rest, 0) separators.

(** The segments between separators. Every round takes at least a byte off
    the command, so that its length is enough fuel. *)
Fixpoint segments_from (fuel : nat) (rest : str) : list str :=
  match fuel with
  | 0 => []
  | S fuel =>
      if is_empty rest then []
      else
        let '(pos, len) := earliest rest in
        take pos rest
        :: (if length rest <=? pos + len then [] else segments_from fuel (drop (pos + len) rest))
  end.

Definition segments (command : str) : list str := segments_from (length command) command.

Definition extract_all_commands (command : str) : list str :=
  filter (λ b, is_empty b = false) (extract_base_command <$> segments command).

Definition listed (policy : ExecPolicy) (base : str) : bool :=
  existsb (str_eqb base) (safe_bins policy) || existsb (str_eqb base) (allowed_commands policy).

Definition not_listed (base : str) : str :=
  lit "Command '" ++ base
  ++ lit "' is not in the exec allowlist. Add it to exec_policy.allowed_commands or exec_policy.safe_bins.".

Definition validate_command_allowlist (command : str) (policy : ExecPolicy) : option (result unit str) :=
  match mode policy with
  | Deny => Some (Err (lit "Shell execution is disabled (exec_policy.mode = deny)"))
  | Full => slice_to command (length command `min` 100) ≫= λ _, Some (Ok tt)
  | Allowlist =>
      Some match List.find (λ b, negb (listed policy b)) (extract_all_commands command) with
           | Some base => Err (not_listed base)
           | None => Ok tt
           end
  end.

(** ** The tool *)

Definition suspicious_patterns : list str :=
  lit <$> ["curl "; "wget "; "| sh"; "| bash"; "base64 -d"; "$(curl"; "`curl"; "eval "]%string.

Section Tool.
Context `{LabelOrder}.

(** The loop over the patterns. *)
Fixpoint taint_patterns (command : str) (patterns : list str) : option (option str) :=
  match patterns with
  | [] => Some None
  | p :: patterns =>
      if contains command p then
        match check_sink (mkTainted command ({[ ExternalNetwork ]} ∪ ∅) (lit "llm_tool_call")) shell_exec with
        | Err violation =>
            slice_to command (length command `min` 80) ≫= λ _, Some (Some (show_violation violation))
        | Ok _ => taint_patterns command patterns
        end
      else taint_patterns command patterns
  end.

Definition check_taint_shell_exec (command : str) : option (option str) :=
  taint_patterns command suspicious_patterns.

(** What is run: the command of [sh -c], the directory, the environment and
    the time allowed. *)
Record Spawn : Type := mkSpawn {
  sh_command : str;
  current_dir : option str;
  child_env : gmap str str;
  time_limit : Z
}.

(** How a run can end; output is decoded text. *)
Inductive RunOutcome : Type :=
| Output (stdout stderr : str) (code : option Z)
| SpawnFailed (e : str)
| TimedOut.

Definition MAX_OUTPUT : nat := Z.to_nat 100000.

Definition clip (s : str) : str :=
  if MAX_OUTPUT <? length s
  then safe_truncate_str s MAX_OUTPUT ++ lit "..." ++ [newline] ++ lit "[truncated, "
       ++ show_nat (length s) ++ lit " total bytes]"
  else s.

Definition show_run (limit : Z) (o : RunOutcome) : result str str :=
  match o with
  | Output stdout stderr code =>
      Ok (lit "Exit code: " ++ lit (pretty (default (-1)%Z code)) ++ [newline; newline] ++ lit "STDOUT:"
          ++ [newline] ++ clip stdout ++ [newline] ++ lit "STDERR:" ++ [newline] ++ clip stderr)
  | SpawnFailed e => Err (lit "Failed to execute command: " ++ e)
  | TimedOut => Err (lit "Command timed out after " ++ show_Z limit ++ lit "s")
  end.

(** The arguments of the call: [command] and [timeout_seconds], if they are a
    string and a number. *)
Record ShellInput : Type := mkShellInput { in_command : option str; in_timeout : option Z }.

Definition tool_shell_exec (env : gmap str str) (input : ShellInput) (allowed_env : list str)
    (workspace_root : option str) (exec_policy : option ExecPolicy) : result Spawn str :=
  match in_command input with
  | None => Err (lit "Missing 'command' parameter")
  | Some command =>
      let policy_timeout := from_option timeout_secs 30%Z exec_policy in
      Ok (mkSpawn command workspace_root (sandbox_command env allowed_env)
            (default policy_timeout (in_timeout input)))
  end.

Definition is_full (exec_policy : option ExecPolicy) : bool :=
  match exec_policy with
  | Some p => match mode p with Full => true | _ => false end
  | None => false
  end.

(** The branch of [execute_tool] up to the run: a refusal, the error of the
    tool, or what is run. *)
Inductive ShellStep : Type :=
| Refused (content : str)
| ToolError (e : str)
| Run (s : Spawn).

Definition shell_policy (command : str) (exec_policy : option ExecPolicy) : option (result unit str) :=
  match exec_policy with
  | Some policy => validate_command_allowlist command policy
  | None => Some (Ok tt)
  end.

Definition shell_exec_step (env : gmap str str) (input : ShellInput) (allowed_env_vars : option (list str))
    (workspace_root : option str) (exec_policy : option ExecPolicy) : option ShellStep :=
  let command := default [] (in_command input) in
  shell_policy command exec_policy ≫= λ allowed,
  match allowed with
  | Err reason => Some (Refused (lit "Exec policy denied: " ++ reason))
  | Ok _ =>
      (if is_full exec_policy then Some None else check_taint_shell_exec command) ≫= λ violation,
      match violation with
      | Some v => Some (Refused (lit "Taint violation: " ++ v))
      | None =>
          Some match tool_shell_exec env input (default [] allowed_env_vars) workspace_root exec_policy with
               | Ok s => Run s
               | Err e => ToolError e
               end
      end
  end.
End Tool.

(** ** The environment *)

Lemma add_vars_lookup env vars child v :
  foldl (add_var env) child vars !! v =
  if decide (v ∈ vars ∧ is_Some (env !! v)) then env !! v else child !! v.
Proof.
  revert child. induction vars as [|x vars IH]; intros child; cbn [foldl].
  - by rewrite decide_False by set_solver.
  - rewrite IH. unfold add_var. destruct (decide (v = x)) as [->|Hne].
    + destruct (env !! x) eqn:E; [rewrite lookup_insert_eq|]; repeat case_decide; naive_solver set_solver.
    + destruct (env !! x); [rewrite lookup_insert_ne by done|]; repeat case_decide; naive_solver set_solver.
Qed.

(** A child process sees exactly the safe variables and those it was
    granted, with the values they have in the parent. *)
Theorem child_env_exact env allowed v val :
  sandbox_command env allowed !! v = Some val ↔
  env !! v = Some val ∧ (v ∈ SAFE_ENV_VARS ∨ v ∈ allowed).
Proof.
  unfold sandbox_command. rewrite !add_vars_lookup, lookup_empty.
  destruct (env !! v) as [x|] eqn:E.
  - repeat case_decide; naive_solver.
  - assert (¬ is_Some (@None str)) by (by intros []). repeat case_decide; naive_solver.
Qed.

(** ** Segments *)

(** Where the shell may begin another command on the same line, except after a
    single [&]. *)
Definition cuts : list str := lit <$> ["&&"; "||"; "|"; ";"]%string.

Lemma separators_cuts : separators = cuts.
Proof. reflexivity. Qed.

Definition separator_free (s : str) : Prop := ∀ sep, sep ∈ cuts → contains s sep = false.

(** The earliest separator so far: [pos] is the end of the text or the place of
    a separator, and no separator of those seen starts before it. *)
Definition best_so_far (rest : str) (seen : list str) (best : nat * nat) : Prop :=
  best.1 ≤ length rest
  ∧ (best = (length rest, 0)
     ∨ ∃ sep b, sep ∈ seen ∧ rest = take best.1 rest ++ sep ++ b ∧ length sep = best.2)
  ∧ ∀ sep n, sep ∈ seen → find rest sep = Some n → best.1 ≤ n.

Lemma earlier_best rest seen best sep :
  sep ≠ [] → best_so_far rest seen best → best_so_far rest (seen ++ [sep]) (earlier rest best sep).
Proof.
  intros Hne (Hle & Hat & Hmin). unfold earlier. destruct (find rest sep) as [pos|] eqn:E.
  - apply find_Some in E as Hf. destruct Hf as (a & b & Hr & Ha).
    assert (pos ≤ length rest) by (rewrite Hr, !length_app; lia).
    destruct (Nat.ltb_spec pos best.1) as [Hlt|Hge].
    + split_and!; simpl; [lia| |].
      * right. exists sep, b. split_and!; [set_solver| |done].
        rewrite Hr at 2. rewrite <-Ha, take_app_length. done.
      * intros sep' n [Hin| ->%list_elem_of_singleton]%elem_of_app Hn.
        -- specialize (Hmin sep' n Hin Hn). simpl in *. lia.
        -- simplify_eq. simpl. lia.
    + split_and!; [done| |].
      * destruct Hat as [|(s' & b' & Hin & ? & ?)]; [by left|]. right. exists s', b'. set_solver.
      * intros sep' n [Hin| ->%list_elem_of_singleton]%elem_of_app Hn; [by eapply Hmin|].
        simplify_eq. done.
  - split_and!; [done| |].
    + destruct Hat as [|(s' & b' & Hin & ? & ?)]; [by left|]. right. exists s', b'. set_solver.
    + intros sep' n [Hin| ->%list_elem_of_singleton]%elem_of_app Hn; [by eapply Hmin|congruence].
Qed.

Lemma fold_best rest seps seen best :
  Forall (λ sep, sep ≠ []) seps → best_so_far rest seen best →
  best_so_far rest (seen ++ seps) (foldl (earlier rest) best seps).
Proof.
  intros Hne. revert seen best. induction Hne as [|sep seps Hs _ IH]; intros seen best Hb; simpl.
  - by rewrite app_nil_r.
  - rewrite (cons_middle sep seen seps), app_assoc. by apply IH, earlier_best.
Qed.

Lemma earliest_best rest : best_so_far rest separators (earliest rest).
Proof.
  apply (fold_best rest separators []); [repeat constructor; discriminate|].
  split_and!; [simpl; lia|by left|set_solver].
Qed.

Lemma contains_find s p : contains s p = false ↔ find s p = None.
Proof.
  unfold contains. rewrite bool_decide_eq_false. destruct (find s p); split; try done. intros Hn. destruct Hn. eauto.
Qed.

Lemma contains_app_l s t p : contains s p = true → contains (s ++ t) p = true.
Proof. rewrite !contains_spec. intros (a & b & ->). exists a, (b ++ t). by rewrite <-!app_assoc. Qed.

(** No separator lies inside the segment that is cut off. *)
Lemma earliest_free rest : separator_free (take (earliest rest).1 rest).
Proof.
  pose proof (earliest_best rest) as (Hle & _ & Hmin). intros sep Hs. rewrite <-separators_cuts in Hs.
  apply not_true_iff_false. rewrite contains_spec. intros (a & b & E).
  set (p := (earliest rest).1) in *.
  assert (length a + length sep + length b = p) as Hl
    by (apply (f_equal length) in E; rewrite length_take, !length_app in E; lia).
  assert (rest = a ++ sep ++ (b ++ drop p rest)) as Hr.
  { rewrite <-(take_drop p rest) at 1. rewrite E. by rewrite <-!app_assoc. }
  destruct (find_leftmost _ _ _ _ Hr) as (n & Hn & Hna).
  specialize (Hmin sep n Hs Hn). assert (0 < length sep); [|lia].
  unfold separators in Hs. repeat (apply elem_of_cons in Hs as [->|Hs]; [simpl; lia|]). set_solver.
Qed.

(** A text and its segments: segments without separators, each followed by a
    separator, except the last, which may be followed by one. *)
Inductive segmented : str → list str → Prop :=
| segmented_last s : s ≠ [] → separator_free s → segmented s [s]
| segmented_closed s sep : sep ∈ cuts → separator_free s → segmented (s ++ sep) [s]
| segmented_more s sep rest segs :
    sep ∈ cuts → separator_free s → segmented rest segs →
    segmented (s ++ sep ++ rest) (s :: segs).

Lemma segments_from_spec fuel command :
  length command ≤ fuel → command ≠ [] → segmented command (segments_from fuel command).
Proof.
  revert command. induction fuel as [|fuel IH]; intros command Hf Hne.
  { destruct command; [done|simpl in Hf; lia]. }
  cbn [segments_from]. destruct (is_empty command) eqn:E0; [by destruct command|].
  pose proof (earliest_free command) as Hfree. pose proof (earliest_best command) as (Hle & Hat & _).
  destruct (earliest command) as [pos len] eqn:E. cbn [fst snd] in *.
  destruct Hat as [[= -> ->]|(sep & b & Hs & Hc & <-)].
  { rewrite Nat.add_0_r, Nat.leb_refl. rewrite take_ge by lia. rewrite take_ge in Hfree by lia.
    by constructor. }
  assert (length (take pos command) = pos) as Hp by (rewrite length_take; lia).
  destruct (Nat.leb_spec (length command) (pos + length sep)) as [Hend|Hmore].
  - assert (b = []) as -> by (apply nil_length_inv; apply (f_equal length) in Hc;
      rewrite !length_app, Hp in Hc; lia).
    rewrite app_nil_r in Hc. rewrite separators_cuts in Hs. rewrite Hc at 1. by constructor.
  - assert (drop (pos + length sep) command = b) as Hd.
    { rewrite Hc. rewrite app_assoc. apply drop_app_length'. rewrite length_app. lia. }
    rewrite Hd. rewrite Hc at 1. constructor; [by rewrite <-separators_cuts|done|]. apply IH.
    + apply (f_equal length) in Hc. rewrite !length_app, Hp in Hc.
      assert (0 < length sep); [|lia]. unfold separators in Hs.
      repeat (apply elem_of_cons in Hs as [->|Hs]; [simpl; lia|]). set_solver.
    + intros ->. apply (f_equal length) in Hc. rewrite !length_app, Hp in Hc. simpl in Hc. lia.
Qed.

(** ** The program a segment starts *)

(** [b] is the name of the program that a segment starts: the first run of
    code points that are not blank, without the directories before it; nothing
    if there is no such run or it ends with a directory. *)
Definition program_of (seg b : str) : Prop :=
  ∃ pre word post dir, chars seg = pre ++ word ++ post ∧
    Forall (λ c, is_whitespace c = true) pre ∧ Forall (λ c, is_whitespace c = false) word ∧
    (post = [] ∨ word ≠ [] ∧ ∃ c, head post = Some c ∧ is_whitespace c = true) ∧
    concat word = dir ++ b ∧ (dir = [] ∨ last dir = Some "/"%char ∨ last dir = Some "\"%char) ∧
    "/"%char ∉ b ∧ "\"%char ∉ b.

Lemma drop_while_split {A} (f : A → bool) l :
  ∃ pre, l = pre ++ drop_while f l ∧ Forall (λ x, f x = true) pre ∧
    (drop_while f l = [] ∨ ∃ x t, drop_while f l = x :: t ∧ f x = false).
Proof.
  induction l as [|x l (pre & E & Hf & Hx)]; [by exists []; eauto|]. cbn [drop_while]. destruct (f x) eqn:Ex.
  - exists (x :: pre). split; [by rewrite E at 1|]. split; [by constructor|done].
  - exists []. split_and!; [done|constructor|]. right. eauto.
Qed.

Lemma chars_filled s : Forall (λ c, c ≠ []) (chars s).
Proof.
  induction s as [|c s IH]; [constructor|]. rewrite chars_eq. destruct (chars s) as [|h t]; [by constructor|].
  apply Forall_cons in IH as [Hh IH]. case_match; repeat (apply Forall_cons; split); done.
Qed.

Lemma first_word cur cs :
  cur ≠ [] → ∃ w post, cs = w ++ post ∧ Forall (λ c, is_whitespace c = false) w ∧
    (post = [] ∨ ∃ c, head post = Some c ∧ is_whitespace c = true) ∧
    head (words_from cur cs) = Some (cur ++ concat w).
Proof.
  revert cur. induction cs as [|c cs IH]; intros cur Hc; cbn [words_from].
  - exists [], []. destruct cur; [done|]. split_and!; [done|constructor|by left|cbn; by rewrite app_nil_r].
  - destruct (is_whitespace c) eqn:Ec.
    + exists [], (c :: cs). destruct cur; [done|]. split_and!; [done|constructor|by right; exists c|by rewrite app_nil_r].
    + destruct (IH (cur ++ c)) as (w & post & -> & Hw & Hp & Hh); [by destruct cur|].
      exists (c :: w), post. split_and!; [done|by constructor|done|]. rewrite Hh. cbn [concat]. by rewrite app_assoc.
Qed.

Lemma join_last ps x c : ∃ dir, join (ps ++ [x]) [c] = dir ++ x ∧ (dir = [] ∨ last dir = Some c).
Proof.
  induction ps as [|p ps (dir & E & Hd)].
  - exists []. cbn [app join]. eauto.
  - exists (p ++ [c] ++ dir). split.
    + transitivity (p ++ [c] ++ join (ps ++ [x]) [c]); [by destruct ps|]. rewrite E. by rewrite <-!app_assoc.
    + right. rewrite !last_app. by destruct Hd as [->| ->].
Qed.

Lemma after_last_spec s c :
  ∃ dir, s = dir ++ after_last s c ∧ (dir = [] ∨ last dir = Some c) ∧ c ∉ after_last s c.
Proof.
  unfold after_last. pose proof (join_split s c) as Hj. pose proof (split_no_sep s c) as Hn.
  pose proof (split_not_nil s c) as Hne. destruct (split s c) as [|x ps _] using rev_ind; [done|].
  rewrite List.last_last. destruct (join_last ps x c) as (dir & E & Hd). exists dir.
  split_and!; [congruence|done|]. apply Forall_app in Hn as [_ Hn]. by apply Forall_cons in Hn as [? _].
Qed.

(** What [extract_base_command] takes for the program is the program. *)
Lemma base_program seg : program_of seg (extract_base_command seg).
Proof.
  unfold extract_base_command, split_whitespace. rewrite chars_trim.
  destruct (drop_while_split is_whitespace (chars seg)) as (pre & E & Hpre & Hmid).
  set (mid := drop_while is_whitespace (chars seg)) in *.
  destruct (drop_while_split is_whitespace (reverse mid)) as (suf & E' & Hsuf & _).
  set (kept := reverse (drop_while is_whitespace (reverse mid))).
  assert (mid = kept ++ reverse suf) as Ek.
  { rewrite <-(reverse_involutive mid), E', reverse_app. done. }
  apply Forall_reverse in Hsuf. generalize dependent (reverse suf). clear suf E'. intros suf Hsuf Ek.
  assert (∃ word post, kept = word ++ post ∧ Forall (λ c, is_whitespace c = false) word ∧
    (post = [] ∨ word ≠ [] ∧ ∃ c, head post = Some c ∧ is_whitespace c = true) ∧ (word = [] → kept = []) ∧
    default [] (head (words_from [] kept)) = concat word) as (word & post & Ew & Hw & Hp & H0 & Hh).
  { clearbody kept. destruct kept as [|c kept]; [exists [], []; split_and!; try done; by left|].
    assert (is_whitespace c = false ∧ c ≠ []) as [Hc Hne].
    { split; [destruct Hmid as [Hm|(x & t & Hm & Hx)]; rewrite Hm in Ek; [done|by injection Ek as -> _]|].
      pose proof (chars_filled seg) as Hf. rewrite E, Ek in Hf. apply Forall_app in Hf as [_ Hf].
      by apply Forall_cons in Hf as [? _]. }
    destruct (first_word c kept Hne) as (w & post & -> & Hw & Hp & Hh). exists (c :: w), post.
    split_and!; [done|by constructor|destruct Hp; [by left|by right]|done|].
    cbn [words_from]. rewrite Hc. cbn [app]. by rewrite Hh. }
  rewrite Hh. destruct (after_last_spec (concat word) "/"%char) as (d1 & E1 & Hd1 & Hn1).
  destruct (after_last_spec (after_last (concat word) "/"%char) "\"%char) as (d2 & E2 & Hd2 & Hn2).
  set (b := after_last (after_last (concat word) "/"%char) "\"%char) in *.
  exists pre, word, (post ++ suf), (d1 ++ d2). split_and!; [|done|done| | | | |done].
  - rewrite E, Ek, Ew. by rewrite <-app_assoc.
  - destruct Hp as [->|(Hne & c & Hhp & Hc)].
    + destruct suf as [|c suf]; [by left|]. right. apply Forall_cons in Hsuf as [Hc _]. split; [|by exists c].
      intros ->. rewrite H0 in Ek by done. destruct Hmid as [Hm|(x & t & Hm & Hx)]; rewrite Hm in Ek; [done|].
      injection Ek as -> _. congruence.
    + right. split; [done|]. exists c. split; [|done]. by destruct post.
  - rewrite <-app_assoc. congruence.
  - destruct Hd2 as [->|Hd2]; [rewrite app_nil_r; tauto|]. right. right. by rewrite last_app, Hd2.
  - rewrite E2 in Hn1. intros Hb. apply Hn1, elem_of_app. by right.
Qed.

(** ** What the allowlist admits *)

Lemma listed_spec policy b : listed policy b = true ↔ b ∈ safe_bins policy ∨ b ∈ allowed_commands policy.
Proof.
  assert (∀ l, existsb (str_eqb b) l = true ↔ b ∈ l) as He.
  { intros l. rewrite existsb_exists. setoid_rewrite str_eqb_spec.
    setoid_rewrite <-list_elem_of_In. naive_solver. }
  unfold listed. by rewrite orb_true_iff, !He.
Qed.

Definition admits (policy : ExecPolicy) (command : str) : Prop :=
  ∀ seg, seg ∈ segments command →
    extract_base_command seg = []
    ∨ extract_base_command seg ∈ safe_bins policy
    ∨ extract_base_command seg ∈ allowed_commands policy.

Lemma allowlist_admits command policy :
  mode policy = Allowlist →
  validate_command_allowlist command policy = Some (Ok tt) ↔ admits policy command.
Proof.
  intros Hm. unfold validate_command_allowlist, admits. rewrite Hm.
  destruct (List.find _ _) as [b|] eqn:E.
  - split; [done|]. intros Ha. exfalso. apply List.find_some in E as [Hin Hb].
    apply negb_true_iff, not_true_iff_false in Hb. rewrite listed_spec in Hb.
    apply list_elem_of_In, list_elem_of_filter in Hin as [Hne (seg & -> & Hs)%list_elem_of_fmap].
    destruct (Ha seg Hs) as [He|]; [|done]. by rewrite He in Hne.
  - split; [|done]. intros _ seg Hs. destruct (is_empty (extract_base_command seg)) eqn:Ee.
    { left. by destruct (extract_base_command seg). }
    right. apply listed_spec. eapply List.find_none in E.
    + by apply negb_false_iff in E.
    + apply list_elem_of_In, list_elem_of_filter. split; [done|]. by apply list_elem_of_fmap_2.
Qed.

(** In allowlist mode the command is cut at [&&], [||], [|] and [;], and at
    nothing else, and it is accepted exactly if the first word of every
    segment, without its directory, is in one of the two lists. *)
Theorem allowlist_spec command policy :
  mode policy = Allowlist →
  (command ≠ [] → segmented command (segments command))
  ∧ (validate_command_allowlist command policy = Some (Ok tt) ↔ admits policy command).
Proof.
  intros Hm. split; [intros; by apply segments_from_spec|by apply allowlist_admits].
Qed.

Lemma allowlist_spec_witness :
  validate_command_allowlist (lit "cat a | /usr/bin/sort && echo x") default_policy = Some (Ok tt)
  ∧ segmented (lit "cat a | /usr/bin/sort && echo x")
      (segments (lit "cat a | /usr/bin/sort && echo x")).
Proof.
  pose proof (allowlist_spec (lit "cat a | /usr/bin/sort && echo x") default_policy eq_refl) as [H1 _].
  split; [vm_compute; reflexivity|by apply H1].
Defined.

(** ** One segment *)

Lemma separator_free_segment s : s ≠ [] → separator_free s → segments s = [s].
Proof.
  intros Hne Hf. unfold segments. destruct s as [|c s]; [done|].
  change (length (c :: s)) with (S (length s)). cbn [segments_from is_empty].
  assert (earliest (c :: s) = (length (c :: s), 0)) as ->.
  { unfold earliest, separators. cbn [foldl]. unfold earlier.
    rewrite !(proj1 (contains_find _ _)); [done|apply Hf; unfold cuts; set_solver..]. }
  rewrite take_ge by lia. by rewrite Nat.add_0_r, Nat.leb_refl.
Qed.

Lemma chars_ascii s : is_ascii s = true → chars s = (λ c, [c]) <$> s.
Proof.
  induction s as [|c s IH]; [done|]. unfold is_ascii in *. cbn [forallb]. rewrite andb_true_iff.
  intros [Hc Hs]. cbn [chars]. rewrite (IH Hs). destruct s as [|d s]; [done|].
  assert (joins_previous (d :: s) = false) as ->; [|done].
  cbn [forallb] in Hs. apply andb_true_iff in Hs as [Hd _]. apply Nat.ltb_lt in Hd.
  simpl. unfold is_continuation. apply bool_decide_eq_false. lia.
Qed.

(** Trimming the end of a list leaves a prefix of what follows an element
    that stays. *)
Lemma trim_back {A} (f : A → bool) l x t :
  f x = false →
  ∃ t', reverse (drop_while f (reverse (l ++ x :: t))) = l ++ x :: t' ∧ t' `prefix_of` t.
Proof.
  intros Hx. induction t as [|y t IH] using rev_ind.
  - exists []. rewrite reverse_app, reverse_cons. simpl. rewrite Hx.
    change (x :: reverse l) with ([x] ++ reverse l). by rewrite reverse_app, reverse_involutive.
  - destruct (f y) eqn:Hy.
    + destruct IH as (t' & E & Hp). exists t'. split; [|by apply prefix_app_r].
      rewrite app_comm_cons, app_assoc, reverse_snoc. simpl. by rewrite Hy.
    + exists (t ++ [y]). split; [|done].
      rewrite app_comm_cons, app_assoc, reverse_snoc. simpl. rewrite Hy.
      by rewrite <-reverse_snoc, reverse_involutive.
Qed.

Lemma concat_singletons (s : str) : concat ((λ c, [c]) <$> s) = s.
Proof. induction s as [|c s IH]; [done|]. rewrite fmap_cons. cbn [concat]. by rewrite IH. Qed.

(** In a segment that starts with [echo] and a newline, the newline and what
    comes after it are not looked at. *)
Lemma base_of_lines t :
  is_ascii t = true → extract_base_command (lit "echo" ++ newline :: t) = lit "echo".
Proof.
  intros Ht. unfold extract_base_command.
  assert (∃ t', trim (lit "echo" ++ newline :: t) = lit "echo" ++ t'
     ∧ is_ascii t' = true ∧ (t' = [] ∨ ∃ u, t' = newline :: u)) as (t' & -> & Ha & Hn).
  { unfold trim. rewrite chars_ascii by done.
    change ((λ c, [c]) <$> (lit "echo" ++ newline :: t))
      with ([["e"]; ["c"]; ["h"]] ++ ["o"] :: [newline] :: ((λ c, [c]) <$> t))%char.
    replace (drop_while is_whitespace ([["e"]; ["c"]; ["h"]] ++ ["o"] :: [newline] :: ((λ c, [c]) <$> t))%char)
      with ([["e"]; ["c"]; ["h"]] ++ ["o"] :: [newline] :: ((λ c, [c]) <$> t))%char by reflexivity.
    destruct (trim_back is_whitespace [["e"]; ["c"]; ["h"]]%char ["o"%char] ([newline] :: ((λ c, [c]) <$> t)))
      as (t' & -> & [u Hu]); [reflexivity|].
    assert (∃ v w, t' = (λ c, [c]) <$> v ∧ newline :: t = v ++ w) as (v & w & -> & Hv).
    { change ([newline] :: ((λ c, [c]) <$> t)) with ((λ c : ascii, [c]) <$> (newline :: t)) in Hu.
      apply fmap_app_inv in Hu as (v & w & -> & -> & ->). eauto. }
    pose proof (concat_singletons v) as Hc.
    exists v. split_and!.
    - change (lit "echo" ++ concat ((λ c, [c]) <$> v) = lit "echo" ++ v). by rewrite Hc.
    - assert (is_ascii (newline :: t) = true) as Hnt by (by unfold is_ascii in *; simpl; rewrite Ht).
      rewrite Hv, is_ascii_app in Hnt. by apply andb_true_iff in Hnt as [? _].
    - destruct v as [|x v]; [by left|]. right. injection Hv as -> _. eauto. }
  unfold split_whitespace. rewrite chars_ascii by (by rewrite is_ascii_app, Ha).
  destruct Hn as [->|[u ->]]; vm_compute; reflexivity.
Qed.

(** ** The whole path of a call *)

Section ToolFacts.
Context `{LabelOrder}.

Definition suspicious (command : str) : bool := existsb (contains command) suspicious_patterns.

Lemma external_refused command :
  ∃ v, check_sink (mkTainted command ({[ ExternalNetwork ]} ∪ ∅) (lit "llm_tool_call")) shell_exec = Err v.
Proof.
  destruct (check_sink _ _) as [[]|v] eqn:E; [|eauto].
  apply check_sink_Ok in E. simpl in E. set_solver.
Qed.

(** The taint check refuses exactly the commands with a suspicious pattern,
    unless the log message panics. *)
Lemma taint_patterns_spec command patterns :
  match taint_patterns command patterns with
  | Some None => existsb (contains command) patterns = false
  | Some (Some _) =>
      existsb (contains command) patterns = true
      ∧ is_char_boundary command (length command `min` 80) = true
  | None =>
      existsb (contains command) patterns = true
      ∧ is_char_boundary command (length command `min` 80) = false
  end.
Proof.
  induction patterns as [|p patterns IH]; [done|]. cbn [taint_patterns existsb].
  destruct (contains command p); [|by destruct (taint_patterns command patterns) as [[]|]].
  destruct (external_refused command) as [v ->]. unfold slice_to.
  by destruct (is_char_boundary command (length command `min` 80)).
Qed.

Lemma taint_check_None command :
  check_taint_shell_exec command = None ↔
  suspicious command = true ∧ is_char_boundary command (length command `min` 80) = false.
Proof.
  pose proof (taint_patterns_spec command suspicious_patterns) as Hs.
  unfold check_taint_shell_exec, suspicious. destruct (taint_patterns _ _) as [[]|]; naive_solver congruence.
Qed.

Lemma taint_check_pass command :
  check_taint_shell_exec command = Some None ↔ suspicious command = false.
Proof.
  pose proof (taint_patterns_spec command suspicious_patterns) as Hs.
  unfold check_taint_shell_exec, suspicious. destruct (taint_patterns _ _) as [[]|]; naive_solver congruence.
Qed.

(** What the policy of a call says about its command. *)
Definition policy_admits (exec_policy : option ExecPolicy) (command : str) : Prop :=
  match exec_policy with
  | None => True
  | Some p =>
      match mode p with
      | Deny => False
      | Allowlist => admits p command
      | Full => is_char_boundary command (length command `min` 100) = true
      end
  end.

Lemma shell_policy_Ok command exec_policy :
  shell_policy command exec_policy = Some (Ok tt) ↔ policy_admits exec_policy command.
Proof.
  unfold shell_policy, policy_admits. destruct exec_policy as [p|]; [|done].
  destruct (mode p) eqn:Em; [|by apply allowlist_admits|].
  - unfold validate_command_allowlist. by rewrite Em.
  - unfold validate_command_allowlist, slice_to. rewrite Em.
    by destruct (is_char_boundary command (length command `min` 100)).
Qed.

Lemma shell_policy_None command exec_policy :
  shell_policy command exec_policy = None ↔
  is_full exec_policy = true ∧ is_char_boundary command (length command `min` 100) = false.
Proof.
  unfold shell_policy, is_full, validate_command_allowlist, slice_to.
  destruct exec_policy as [p|]; [|naive_solver]. destruct (mode p); [naive_solver..|].
  destruct (is_char_boundary command (length command `min` 100)); naive_solver.
Qed.

(** A process is started exactly if the call has a command, the policy admits
    it, and outside full mode it matches no suspicious pattern. *)
Lemma shell_exec_runs env input allowed root exec_policy s :
  shell_exec_step env input allowed root exec_policy = Some (Run s) ↔
  ∃ command, in_command input = Some command ∧ policy_admits exec_policy command
    ∧ (is_full exec_policy = true ∨ suspicious command = false)
    ∧ s = mkSpawn command root (sandbox_command env (default [] allowed))
            (default (from_option timeout_secs 30%Z exec_policy) (in_timeout input)).
Proof.
  unfold shell_exec_step. set (command := default [] (in_command input)).
  pose proof (shell_policy_Ok command exec_policy) as Hp.
  pose proof (taint_check_pass command) as Ht.
  assert (∀ c, in_command input = Some c → c = command) as Hcmd by (intros c E; subst command; by rewrite E).
  destruct (shell_policy command exec_policy) as [[[]|e]|]; cbn [mbind option_bind].
  2,3: split; [done|]; intros (c & Ec & Hpa & _); rewrite (Hcmd c Ec) in Hpa; apply Hp in Hpa; done.
  unfold tool_shell_exec.
  destruct (is_full exec_policy); cbn [mbind option_bind].
  - destruct (in_command input) as [c|]; [rewrite <-(Hcmd c eq_refl) in *|]; naive_solver.
  - destruct (check_taint_shell_exec command) as [[v|]|]; cbn [mbind option_bind];
      destruct (in_command input) as [c|]; try (rewrite <-(Hcmd c eq_refl) in * ); naive_solver.
Qed.

(** The texts that no command may have outside full mode. *)
Definition download_or_decode : list str :=
  lit <$> ["curl "; "wget "; "| sh"; "| bash"; "base64 -d"; "$(curl"; "`curl"; "eval "]%string.

(** The variables every child may see. *)
Definition harmless_vars : list str :=
  lit <$> ["PATH"; "HOME"; "TMPDIR"; "TMP"; "TEMP"; "LANG"; "LC_ALL"; "TERM"]%string.

(** C22: The guards of [shell_exec]. A process that is started runs the command
    of the call as it is, in the workspace, under the time limit of the call
    or the policy; it sees a variable exactly if the parent has it with that
    value and it is one of eight harmless ones or was granted; the policy does
    not deny execution; under an allowlist, the command falls into segments
    without [&&], [||], [|] and [;] between these marks, and each starts a
    listed program or none; and outside full mode the command has none of
    eight texts that download, decode or evaluate something. *)
Theorem shell_exec_guarded env input allowed root exec_policy s :
  shell_exec_step env input allowed root exec_policy = Some (Run s) →
  in_command input = Some (sh_command s) ∧ current_dir s = root ∧
  time_limit s = default (from_option timeout_secs 30%Z exec_policy) (in_timeout input) ∧
  (∀ v val, child_env s !! v = Some val ↔
     env !! v = Some val ∧ (v ∈ harmless_vars ∨ v ∈ default [] allowed)) ∧
  (∀ p, exec_policy = Some p → mode p ≠ Deny) ∧
  (∀ p, exec_policy = Some p → mode p = Allowlist → sh_command s ≠ [] →
     ∃ segs, segmented (sh_command s) segs ∧
       Forall (λ seg, ∃ b, program_of seg b ∧ (b = [] ∨ b ∈ safe_bins p ∨ b ∈ allowed_commands p)) segs) ∧
  ((∀ p, exec_policy = Some p → mode p ≠ Full) →
     ∀ t, t ∈ download_or_decode → contains (sh_command s) t = false).
Proof.
  intros (command & Hc & Hp & Hs & ->)%shell_exec_runs. cbn [sh_command current_dir child_env time_limit].
  split_and!; [done|done|done| | | |].
  - intros v val. by rewrite child_env_exact.
  - intros p -> Hm. cbn in Hp. by rewrite Hm in Hp.
  - intros p -> Hm Hne. cbn in Hp. rewrite Hm in Hp. exists (segments command).
    split; [by apply segments_from_spec|]. apply Forall_forall. intros seg Hseg.
    exists (extract_base_command seg). split; [apply base_program|by apply Hp].
  - intros Hf t Ht. assert (suspicious command = false) as Hsus.
    { destruct Hs as [Hs|]; [|done]. unfold is_full in Hs. destruct exec_policy as [p|]; [|done].
      specialize (Hf p eq_refl). by destruct (mode p). }
    apply not_true_is_false. intros Hin. apply not_true_iff_false in Hsus. apply Hsus.
    apply existsb_exists. exists t. split; [by apply list_elem_of_In|done].
Qed.

(** A call panics exactly where a log message cuts the command inside a
    character: at byte 100 in full mode, at byte 80 when a command that the
    policy admits matches a suspicious pattern. *)
Theorem shell_exec_panics env input allowed root exec_policy :
  let command := default [] (in_command input) in
  shell_exec_step env input allowed root exec_policy = None ↔
  (is_full exec_policy = true ∧ is_char_boundary command (length command `min` 100) = false)
  ∨ (is_full exec_policy = false ∧ policy_admits exec_policy command ∧ suspicious command = true
     ∧ is_char_boundary command (length command `min` 80) = false).
Proof.
  intros command. unfold shell_exec_step. fold command.
  pose proof (shell_policy_Ok command exec_policy) as Hp.
  pose proof (shell_policy_None command exec_policy) as Hn.
  pose proof (taint_check_None command) as Ht.
  destruct (shell_policy command exec_policy) as [[[]|e]|]; cbn [mbind option_bind].
  - destruct (is_full exec_policy); cbn [mbind option_bind].
    + split; [done|]. intros [Hb|[? _]]; [|done]. by apply Hn in Hb.
    + destruct (check_taint_shell_exec command) as [[v|]|]; cbn [mbind option_bind]; naive_solver.
  - naive_solver.
  - naive_solver.
Qed.

(** The allowlist is not one. Under the default policy a call whose
    command starts with [echo] and a newline is run whatever comes after the
    newline, if that is ASCII without separators and suspicious patterns;
    the shell runs it as a command of its own. *)
Theorem shell_allowlist_bypass env t root :
  let command := lit "echo" ++ newline :: t in
  is_ascii t = true → separator_free command → suspicious command = false →
  shell_exec_step env (mkShellInput (Some command) None) None root (Some default_policy)
  = Some (Run (mkSpawn command root (sandbox_command env []) 30)).
Proof.
  intros command Ha Hf Hs. apply shell_exec_runs. exists command. split_and!; [done| |by right|done].
  intros seg Hseg. rewrite separator_free_segment in Hseg by done.
  apply list_elem_of_singleton in Hseg as ->. right. left. subst command. rewrite base_of_lines by done.
  apply (bool_decide_unpack _). vm_compute. exact I.
Qed.
End ToolFacts.

Lemma shell_exec_guarded_witness :
  let env := {[lit "PATH" := lit "/bin"; lit "API_KEY" := lit "secret"]} in
  ∃ s, shell_exec_step env (mkShellInput (Some (lit "cat a | /usr/bin/sort")) None) None (Some (lit "/w"))
         (Some default_policy) = Some (Run s) ∧
    child_env s !! lit "API_KEY" = None ∧
    ∃ segs, segmented (lit "cat a | /usr/bin/sort") segs ∧
      Forall (λ seg, ∃ b, program_of seg b ∧ (b = [] ∨ b ∈ default_safe_bins ∨ b ∈ [])) segs.
Proof.
  intros env. eexists. split; [vm_compute; reflexivity|].
  destruct (shell_exec_guarded env (mkShellInput (Some (lit "cat a | /usr/bin/sort")) None) None (Some (lit "/w"))
    (Some default_policy) (mkSpawn (lit "cat a | /usr/bin/sort") (Some (lit "/w")) (sandbox_command env []) 30))
    as (_ & _ & _ & Henv & _ & Hseg & _); [vm_compute; reflexivity|].
  split; [vm_compute; reflexivity|]. apply (Hseg default_policy); [reflexivity|reflexivity|discriminate].
Defined.

Lemma shell_allowlist_bypass_witness :
  shell_exec_step ∅ (mkShellInput (Some (lit "echo" ++ newline :: lit "rm -rf /")) None) None None
    (Some default_policy)
  = Some (Run (mkSpawn (lit "echo" ++ newline :: lit "rm -rf /") None (sandbox_command ∅ []) 30)).
Proof.
  apply (shell_allowlist_bypass ∅ (lit "rm -rf /")).
  - reflexivity.
  - intros sep Hs. unfold cuts in Hs.
    repeat (apply elem_of_cons in Hs as [->|Hs]; [vm_compute; reflexivity|]). set_solver.
  - vm_compute; reflexivity.
Defined.

(** The same command after a semicolon is refused. *)
Example semicolon_refused :
  shell_exec_step ∅ (mkShellInput (Some (lit "echo; rm -rf /")) None) None None (Some default_policy)
  = Some (Refused (lit "Exec policy denied: " ++ not_listed (lit "rm"))).
Proof. vm_compute. reflexivity. Qed.
