(* ===== verification/ReplyDirectives.v ===== *)
(** * Directives in replies

    [openfang-runtime/src/reply_directives.rs]: tags such as [[[silent]]] are
    taken out of a reply, which may come in chunks. [scan] is the loop of
    [consume] over the code points; [skip] counts those of a tag still to be
    passed over, which the code counts in bytes. *)

From Stdlib Require Import Ascii ZArith Lia.
From stdpp Require Import base strings list.
From S2P Require Import Prelude Strs ShellExec.

Record DirectiveSet : Type := mkDirectives {
  reply_to : option str;
  current_thread : bool;
  silent : bool
}.

Definition default_directives : DirectiveSet := mkDirectives None false false.

Record Accumulator : Type := mkAcc {
  partial : str;
  directives : DirectiveSet
}.

Definition MAX_PARTIAL_LEN : nat := 30.

Definition new_acc : Accumulator := mkAcc [] default_directives.

Definition parse_tag (d : DirectiveSet) (content : str) : DirectiveSet :=
  let trimmed := trim content in
  if starts_with trimmed (lit "reply:") then
    let id := trim (drop 6 trimmed) in
    if is_empty id then d else mkDirectives (Some id) (current_thread d) (silent d)
  else if str_eqb trimmed (lit "@current") then mkDirectives (reply_to d) true (silent d)
  else if str_eqb trimmed (lit "silent") then mkDirectives (reply_to d) (current_thread d) true
  else d.

(** The output, what is kept for the next chunk, and the directives. *)
Fixpoint scan (is_final : bool) (skip : nat) (cs : list str) (d : DirectiveSet) : str * str * DirectiveSet :=
  match cs with
  | [] => ([], [], d)
  | c :: cs' =>
      let literal := let '(out, kept, d') := scan is_final 0 cs' d in (c ++ out, kept, d') in
      match skip with
      | S k => scan is_final k cs' d
      | 0 =>
          if str_eqb c (lit "[") then
            let remaining := concat cs in
            if starts_with remaining (lit "[[") then
              let after_open := drop 2 remaining in
              match find after_open (lit "]]") with
              | Some e => scan is_final (e + 3) cs' (parse_tag d (take e after_open))
              | None =>
                  if negb is_final && (length remaining <? MAX_PARTIAL_LEN) then ([], remaining, d)
                  else literal
              end
            else literal
          else literal
      end
  end.

Definition consume (a : Accumulator) (chunk : str) (is_final : bool) : Accumulator * str :=
  let '(out, kept, d) := scan is_final 0 (chars (partial a ++ chunk)) (directives a) in
  (mkAcc (if is_final then [] else kept) d, if is_final then out ++ kept else out).

Definition parse_directives (text : str) : str * DirectiveSet :=
  let '(a, cleaned) := consume new_acc text true in (trim cleaned, directives a).

(** A reply in chunks, the last one final. *)
Fixpoint consume_all (a : Accumulator) (chunks : list str) : Accumulator * str :=
  match chunks with
  | [] => (a, [])
  | c :: chunks =>
      let '(a, out) := consume a c false in
      let '(a, out') := consume_all a chunks in (a, out ++ out')
  end.

Definition stream (chunks : list str) (final : str) : str * DirectiveSet :=
  let '(a, out) := consume_all new_acc chunks in
  let '(a, out') := consume a final true in (out ++ out', directives a).

(** ** ASCII replies *)

(** On ASCII text the loop is one over bytes. *)
Fixpoint scan_ascii (is_final : bool) (skip : nat) (s : str) (d : DirectiveSet) : str * str * DirectiveSet :=
  match s with
  | [] => ([], [], d)
  | c :: s' =>
      let literal := let '(out, kept, d') := scan_ascii is_final 0 s' d in (c :: out, kept, d') in
      match skip with
      | S k => scan_ascii is_final k s' d
      | 0 =>
          if starts_with s (lit "[[") then
            match find (drop 2 s) (lit "]]") with
            | Some e => scan_ascii is_final (e + 3) s' (parse_tag d (take e (drop 2 s)))
            | None =>
                if negb is_final && (length s <? MAX_PARTIAL_LEN) then ([], s, d) else literal
            end
          else literal
      end
  end.


Lemma scan_ascii_eq f skip s d :
  is_ascii s = true → scan f skip (chars s) d = scan_ascii f skip s d.
Proof.
  intros Hs. rewrite chars_ascii by done. clear Hs. revert skip d. induction s as [|c s IH]; intros skip d; [done|].
  rewrite fmap_cons. cbn [scan scan_ascii]. destruct skip as [|k]; [|apply IH].
  cbn [concat app]. rewrite concat_singletons, !IH.
  destruct (str_eqb [c] (lit "[")) eqn:Ec.
  - case_match; [|done]. case_match; [by rewrite IH|done].
  - destruct (starts_with (c :: s) (lit "[[")) eqn:Es; [|done].
    apply starts_with_spec in Es as [t [= -> ->]]. by vm_compute in Ec.
Qed.

Lemma scan_skip f n s d : scan_ascii f n s d = scan_ascii f 0 (drop n s) d.
Proof. revert n. induction s as [|c s IH]; intros [|n]; try done. simpl. apply IH. Qed.

(** ** The three cases at the start of a text *)

Definition prepend (c : ascii) (r : str * str * DirectiveSet) : str * str * DirectiveSet :=
  let '(out, kept, d) := r in (c :: out, kept, d).

Lemma scan_eq f c s d :
  scan_ascii f 0 (c :: s) d =
  if starts_with (c :: s) (lit "[[") then
    match find (drop 2 (c :: s)) (lit "]]") with
    | Some e => scan_ascii f (e + 3) s (parse_tag d (take e (drop 2 (c :: s))))
    | None =>
        if negb f && (length (c :: s) <? MAX_PARTIAL_LEN) then ([], c :: s, d)
        else prepend c (scan_ascii f 0 s d)
    end
  else prepend c (scan_ascii f 0 s d).
Proof. done. Qed.

Lemma scan_tag f u e d :
  find u (lit "]]") = Some e →
  scan_ascii f 0 (lit "[[" ++ u) d = scan_ascii f 0 (drop (e + 2) u) (parse_tag d (take e u)).
Proof.
  intros He. change (lit "[[" ++ u) with ("["%char :: "["%char :: u). rewrite scan_eq.
  assert (starts_with ("["%char :: "["%char :: u) (lit "[[") = true) as -> by (apply starts_with_spec; by eexists).
  change (drop 2 ("["%char :: "["%char :: u)) with u. rewrite He, scan_skip. by replace (e + 3) with (S (e + 2)) by lia.
Qed.

Lemma scan_open f u d :
  find u (lit "]]") = None →
  scan_ascii f 0 (lit "[[" ++ u) d =
  if negb f && (S (S (length u)) <? MAX_PARTIAL_LEN) then ([], lit "[[" ++ u, d)
  else prepend "["%char (scan_ascii f 0 ("["%char :: u) d).
Proof.
  intros He. change (lit "[[" ++ u) with ("["%char :: "["%char :: u). rewrite scan_eq.
  assert (starts_with ("["%char :: "["%char :: u) (lit "[[") = true) as -> by (apply starts_with_spec; by eexists).
  change (drop 2 ("["%char :: "["%char :: u)) with u. by rewrite He.
Qed.

Lemma scan_literal f c s d :
  starts_with (c :: s) (lit "[[") = false → scan_ascii f 0 (c :: s) d = prepend c (scan_ascii f 0 s d).
Proof. intros Hn. by rewrite scan_eq, Hn. Qed.

(** Every text is empty or one of the three. *)
Lemma scan_ind (P : str → Prop) :
  P [] →
  (∀ u e, find u (lit "]]") = Some e → P (drop (e + 2) u) → P (lit "[[" ++ u)) →
  (∀ u, find u (lit "]]") = None → P ("["%char :: u) → P (lit "[[" ++ u)) →
  (∀ c s, starts_with (c :: s) (lit "[[") = false → P s → P (c :: s)) →
  ∀ s, P s.
Proof.
  intros Hnil Htag Hopen Hlit s. remember (length s) as n eqn:Hn. revert s Hn.
  induction (lt_wf n) as [n _ IH]. intros [|c s] ->; [done|].
  destruct (starts_with (c :: s) (lit "[[")) eqn:Es.
  - apply starts_with_spec in Es as [u E]. rewrite E.
    assert (length (c :: s) = S (S (length u))) as Hl by (by rewrite E). rewrite Hl in IH.
    destruct (find u (lit "]]")) as [e|] eqn:Ee.
    + apply (Htag u e Ee). eapply IH; [|done]. rewrite length_drop. lia.
    + apply (Hopen u Ee). eapply IH; [|done]. simpl. lia.
  - apply (Hlit c s Es). eapply IH; [|done]. simpl. lia.
Qed.

(** ** A whole reply *)

Lemma find_none_iff s p : find s p = None ↔ ∀ a b, s ≠ a ++ p ++ b.
Proof.
  split.
  - intros Hn a b E. destruct (find_leftmost _ _ _ _ E) as (n & ? & _). congruence.
  - intros Hn. destruct (find s p) as [n|] eqn:E; [|done].
    apply find_Some in E as (a & b & E & _). by apply Hn in E.
Qed.

Lemma scan_unclosed s d : find s (lit "]]") = None → scan_ascii true 0 s d = (s, [], d).
Proof.
  revert d. induction s as [|u e He IH|u He IH|c s Hs IH] using scan_ind; intros d Hn; [done|exfalso| |].
  - apply find_Some in He as (a & b & -> & _). rewrite find_none_iff in Hn. by apply (Hn (lit "[[" ++ a) b).
  - rewrite scan_open by done. cbn [negb andb]. rewrite IH; [done|].
    rewrite find_none_iff in Hn |- *. intros a b E. apply (Hn ("["%char :: a) b).
    change (lit "[[" ++ u) with ("["%char :: "["%char :: u). by rewrite E.
  - rewrite scan_literal by done. rewrite IH; [done|].
    rewrite find_none_iff in Hn |- *. intros a b E. apply (Hn (c :: a) b). by rewrite E.
Qed.

Lemma scan_final_kept s d : (scan_ascii true 0 s d).1.2 = [].
Proof.
  revert d. induction s as [|u e He IH|u He IH|c s Hs IH] using scan_ind; intros d; [done| | |].
  - rewrite (scan_tag _ _ e) by done. apply IH.
  - rewrite scan_open by done. cbn [negb andb]. specialize (IH d). by destruct (scan_ascii true 0 ("["%char :: u) d) as [[? ?] ?].
  - rewrite scan_literal by done. specialize (IH d). by destruct (scan_ascii true 0 s d) as [[? ?] ?].
Qed.

Definition has_tag (s : str) : Prop := ∃ a t b, s = a ++ lit "[[" ++ t ++ lit "]]" ++ b.

Lemma scan_head f c s d : c ≠ "["%char → head (scan_ascii f 0 (c :: s) d).1.1 = Some c.
Proof.
  intros Hc. rewrite scan_literal.
  - by destruct (scan_ascii f 0 s d) as [[? ?] ?].
  - apply not_true_iff_false. rewrite starts_with_spec. intros [t [= -> _]]. done.
Qed.

Lemma open_no_tag u : find u (lit "]]") = None → ¬ has_tag (lit "[[" ++ u).
Proof.
  rewrite find_none_iff. intros Hn (a & t & b & E). rewrite app_assoc in E. set (x := a ++ lit "[[") in E.
  assert (2 ≤ length x) as Hx by (unfold x; rewrite length_app; simpl; lia).
  apply (f_equal (drop 2)) in E. change (drop 2 (lit "[[" ++ u)) with u in E.
  rewrite drop_app_le in E by done. apply (Hn (drop 2 x ++ t) b). by rewrite E, <-app_assoc.
Qed.

Lemma scan_no_tag s d : ¬ has_tag (scan_ascii true 0 s d).1.1.
Proof.
  revert d. induction s as [|u e He IH|u He IH|c s Hs IH] using scan_ind; intros d.
  - intros (a & t & b & E). by destruct a.
  - rewrite (scan_tag _ _ e) by done. apply IH.
  - rewrite scan_open by done. cbn [negb andb]. rewrite scan_unclosed; [by apply open_no_tag|].
    rewrite find_none_iff in He |- *. intros [|x a] b [= E1 E2]. by apply (He a b).
  - rewrite scan_literal by done. specialize (IH d).
    pose proof (scan_head true) as Hh. destruct (scan_ascii true 0 s d) as [[out kept] d'] eqn:Es.
    cbn [prepend fst snd] in *. intros ([|x a] & t & b & E).
    + injection E as -> ->. destruct s as [|y s]; [done|].
      destruct (decide (y = "["%char)) as [->|Hy].
      * assert (starts_with ("["%char :: "["%char :: s) (lit "[[") = true) by (apply starts_with_spec; by eexists).
        congruence.
      * specialize (Hh y s d Hy). rewrite Es in Hh. injection Hh as Hh. congruence.
    + injection E as -> ->. apply IH. by exists a, t, b.
Qed.

Lemma consume_final_ascii a chunk :
  is_ascii (partial a ++ chunk) = true →
  consume a chunk true =
  (mkAcc [] (scan_ascii true 0 (partial a ++ chunk) (directives a)).2,
   (scan_ascii true 0 (partial a ++ chunk) (directives a)).1.1).
Proof.
  intros Ha. unfold consume. rewrite scan_ascii_eq by done.
  pose proof (scan_final_kept (partial a ++ chunk) (directives a)) as Hk.
  destruct (scan_ascii _ _ _ _) as [[out kept] d]. simpl in *. subst. by rewrite app_nil_r.
Qed.

(** ** A reply in chunks *)

(** Chunks may end where the text so far does not end with a bracket that
    opens, and every tag it has opened and not closed is short. *)
Definition may_pause (s : str) : Prop :=
  last s ≠ Some "["%char ∧
  ∀ a u, s = a ++ lit "[[" ++ u → find u (lit "]]") = None → S (S (length u)) < MAX_PARTIAL_LEN.

Lemma may_pause_suffix a s : may_pause (a ++ s) → may_pause s.
Proof.
  intros [Hl Ht]. split.
  - intros E. apply Hl. rewrite last_app. by rewrite E.
  - intros b u -> Hu. by apply (Ht (a ++ b)); [rewrite <-app_assoc|].
Qed.

Definition finish (s : str) (d : DirectiveSet) : str * DirectiveSet :=
  ((scan_ascii true 0 s d).1.1, (scan_ascii true 0 s d).2).

Lemma finish_prepend c s d :
  starts_with (c :: s) (lit "[[") = false → finish (c :: s) d = (c :: (finish s d).1, (finish s d).2).
Proof. intros Hs. unfold finish. rewrite scan_literal by done. by destruct (scan_ascii true 0 s d) as [[? ?] ?]. Qed.

Lemma literal_app c s y :
  last (c :: s) ≠ Some "["%char → starts_with (c :: s) (lit "[[") = false → starts_with (c :: s ++ y) (lit "[[") = false.
Proof.
  intros Hl Hs. apply not_true_iff_false. rewrite starts_with_spec. intros [t E].
  destruct s as [|z s].
  - injection E as -> _. done.
  - injection E as -> -> _. rewrite <-not_true_iff_false, starts_with_spec in Hs. apply Hs. by exists s.
Qed.

(** Pausing and going on is the same as reading on at once. *)
Lemma scan_pause x y d :
  may_pause x →
  let '(out, kept, d') := scan_ascii false 0 x d in
  finish (x ++ y) d = (out ++ (finish (kept ++ y) d').1, (finish (kept ++ y) d').2) ∧ ∃ a, x = a ++ kept.
Proof.
  revert d. induction x as [|u e He IH|u He IH|c s Hs IH] using scan_ind; intros d Hp.
  - cbn [scan_ascii app]. split; [by rewrite <-surjective_pairing|by exists []].
  - rewrite (scan_tag _ _ e) by done.
    assert (e + 2 ≤ length u) as Hle.
    { destruct (find_Some _ _ _ He) as (a & b & -> & <-). rewrite !length_app. simpl. lia. }
    specialize (IH (parse_tag d (take e u))). destruct (scan_ascii false 0 (drop (e + 2) u) _) as [[out kept] d'].
    destruct IH as [E [a Ha]].
    { apply (may_pause_suffix (lit "[[" ++ take (e + 2) u)). by rewrite <-app_assoc, take_drop. }
    split.
    + rewrite <-E. unfold finish. rewrite <-app_assoc, (scan_tag _ _ e) by (by apply find_app).
      rewrite drop_app_le, take_app_le by lia. done.
    + exists (lit "[[" ++ take (e + 2) u ++ a). rewrite <-!app_assoc, <-Ha, take_drop. done.
  - rewrite scan_open by done. destruct Hp as [_ Hp]. specialize (Hp [] u eq_refl He).
    rewrite (proj2 (Nat.ltb_lt _ _) Hp). cbn [negb andb]. split; [|by exists []].
    cbn [app]. by rewrite <-surjective_pairing.
  - rewrite scan_literal by done. pose proof (may_pause_suffix [c] s Hp) as Hp'. specialize (IH d Hp').
    destruct (scan_ascii false 0 s d) as [[out kept] d']. destruct IH as [E [a Ha]]. split.
    + cbn [app]. rewrite finish_prepend by (apply literal_app; [apply Hp|done]). by rewrite E.
    + exists (c :: a). cbn [app]. by rewrite <-Ha.
Qed.

Lemma consume_pause a chunk :
  is_ascii (partial a ++ chunk) = true →
  consume a chunk false =
  (let '(out, kept, d) := scan_ascii false 0 (partial a ++ chunk) (directives a) in (mkAcc kept d, out)).
Proof. intros Ha. unfold consume. by rewrite scan_ascii_eq. Qed.

Definition consume_finish (a : Accumulator) (s : str) : str * DirectiveSet :=
  finish (partial a ++ s) (directives a).

Lemma consume_all_finish chunks seen a final :
  is_ascii (partial a ++ concat chunks ++ final) = true →
  (∃ b, seen = b ++ partial a) →
  (∀ k, k ≤ length chunks → may_pause (seen ++ concat (take k chunks))) →
  let '(a', out) := consume_all a chunks in
  consume_finish a (concat chunks ++ final)
  = (out ++ (consume_finish a' final).1, (consume_finish a' final).2)
  ∧ is_ascii (partial a' ++ final) = true.
Proof.
  revert seen a. induction chunks as [|c chunks IH]; intros seen a Ha [b Hb] Hp; cbn [consume_all].
  { split; [cbn [concat app]; by rewrite <-surjective_pairing|done]. }
  cbn [concat] in Ha. rewrite <-app_assoc in Ha. rewrite !is_ascii_app, !andb_true_iff in Ha.
  destruct Ha as (Hpa & Hc & Hcs & Hf).
  assert (may_pause (partial a ++ c)) as Hpc.
  { apply (may_pause_suffix b). specialize (Hp 1 ltac:(simpl; lia)). simpl in Hp. rewrite app_nil_r, Hb in Hp.
    by rewrite app_assoc. }
  rewrite consume_pause by (by rewrite is_ascii_app, Hpa, Hc).
  pose proof (scan_pause (partial a ++ c) (concat chunks ++ final) (directives a) Hpc) as Hs.
  destruct (scan_ascii false 0 (partial a ++ c) (directives a)) as [[out kept] d]. destruct Hs as [E [x Hx]].
  specialize (IH (seen ++ c) (mkAcc kept d)). destruct (consume_all (mkAcc kept d) chunks) as [a' out'].
  destruct IH as [E' Ha'].
  - cbn [partial]. rewrite !is_ascii_app, Hcs, Hf, !andb_true_r.
    assert (is_ascii (partial a ++ c) = true) as Hac by (by rewrite is_ascii_app, Hpa, Hc).
    rewrite Hx, is_ascii_app in Hac. by apply andb_true_iff in Hac as [_ ?].
  - exists (b ++ x). cbn [partial]. by rewrite Hb, <-!app_assoc, <-Hx.
  - intros k Hk. specialize (Hp (S k) ltac:(simpl; lia)). simpl in Hp. by rewrite <-app_assoc.
  - split; [|done]. unfold consume_finish at 1. cbn [concat]. rewrite <-app_assoc, app_assoc, E.
    change (finish (kept ++ concat chunks ++ final) d) with (consume_finish (mkAcc kept d) (concat chunks ++ final)).
    rewrite E'. cbn [fst snd]. by rewrite <-app_assoc.
Qed.

(** Taking the directives out of a reply that comes in chunks gives the
    text and the directives of the whole reply, wherever the chunks end,
    provided no chunk ends with an opening bracket and no tag that a chunk
    leaves open is longer than the buffer; and no tag is left in the text. *)
Theorem streaming_agrees chunks final :
  is_ascii (concat chunks ++ final) = true →
  (∀ k, k ≤ length chunks → may_pause (concat (take k chunks))) →
  let '(a, whole) := consume new_acc (concat chunks ++ final) true in
  stream chunks final = (whole, directives a) ∧ ¬ has_tag whole.
Proof.
  intros Ha Hp. rewrite consume_final_ascii by done. cbn [partial new_acc app directives].
  split; [|apply scan_no_tag]. unfold stream.
  pose proof (consume_all_finish chunks [] new_acc final Ha) as Hall.
  destruct (consume_all new_acc chunks) as [a' out]. destruct Hall as [E Ha']; [by exists []|done|].
  rewrite consume_final_ascii by done. cbn [directives].
  unfold consume_finish, finish in E. cbn [partial new_acc app directives fst snd] in E.
  by injection E as -> ->.
Qed.

Lemma streaming_agrees_witness :
  stream [lit "Hello [[sil"; lit "ent]"] (lit "] world")
  = (lit "Hello  world", mkDirectives None false true).
Proof.
  assert (∀ k, k ≤ 2 → may_pause (concat (take k [lit "Hello [[sil"; lit "ent]"]))) as Hp.
  { intros k Hk. split.
    - destruct k as [|[|[|k]]]; [vm_compute; discriminate..|lia].
    - intros a u E _. apply (f_equal length) in E. rewrite !length_app in E. change (length (lit "[[")) with 2 in E.
      unfold MAX_PARTIAL_LEN. destruct k as [|[|[|k]]]; [cbn in E; lia..|lia]. }
  exact (proj1 (streaming_agrees [lit "Hello [[sil"; lit "ent]"] (lit "] world") eq_refl Hp)).
Defined.

(** A tag split between its opening brackets is shown. *)
Example split_brackets_shown :
  stream [lit "a ["] (lit "[silent]]b") = (lit "a [[silent]]b", default_directives).
Proof. vm_compute. reflexivity. Qed.

(** The length of a tag is taken in bytes and passed over in characters: text
    after a tag with an accent is lost. *)
Example accent_loses_text :
  parse_directives (lit "[[reply:" ++ bytes [195; 169] ++ lit "]]ab")
  = (lit "b", mkDirectives (Some (bytes [195; 169])) false false).
Proof. vm_compute. reflexivity. Qed.
