(* ===== verification/SsrfGuard.v ===== *)
(** * The guard of fetched addresses

    [check_ssrf] of [openfang-runtime/src/web_fetch.rs], which [web_fetch], the
    browser and the media tools ask before they open a URL. The resolver
    ([to_socket_addrs] on a host and a port) and the printed form of addresses
    are parameters. [uri_host] is the host a URL names by RFC 3986, which is
    where a client connects. *)

From Stdlib Require Import Ascii ZArith Lia.
From stdpp Require Import base strings list sets.
From S2P Require Import Prelude Strs TextLines.

(** Four octets, or eight segments. *)
Inductive IpAddr : Type :=
| V4 (a b c d : Z)
| V6 (segments : list Z).

Definition is_loopback (ip : IpAddr) : bool :=
  match ip with
  | V4 a _ _ _ => (a =? 127)%Z
  | V6 s => bool_decide (s = [0; 0; 0; 0; 0; 0; 0; 1]%Z)
  end.

Definition is_unspecified (ip : IpAddr) : bool :=
  match ip with
  | V4 a b c d => bool_decide ([a; b; c; d] = [0; 0; 0; 0]%Z)
  | V6 s => bool_decide (s = [0; 0; 0; 0; 0; 0; 0; 0]%Z)
  end.

Definition is_private_ip (ip : IpAddr) : bool :=
  match ip with
  | V4 a b c d =>
      (a =? 10)%Z || ((a =? 172)%Z && (16 <=? b)%Z && (b <=? 31)%Z)
      || ((a =? 192)%Z && (b =? 168)%Z) || ((a =? 169)%Z && (b =? 254)%Z)
  | V6 s =>
      let s0 := default 0%Z (head s) in
      (Z.land s0 65024 =? 64512)%Z || (Z.land s0 65472 =? 65152)%Z
  end.

Definition internal (ip : IpAddr) : bool := is_loopback ip || is_unspecified ip || is_private_ip ip.

(** [s.split(c).next()] *)
Definition before (s : str) (c : ascii) : str := default s (head (split s c)).

(** [url.split("://").nth(1)] *)
Definition after_scheme (url : str) : option str :=
  match find url (lit "://") with
  | Some n =>
      let rest := drop (n + 3) url in
      Some match find rest (lit "://") with Some k => take k rest | None => rest end
  | None => None
  end.

Definition extract_host (url : str) : str :=
  match after_scheme url with
  | Some after =>
      let host_port := before after "/"%char in
      if contains host_port (lit ":") then host_port
      else if starts_with url (lit "https") then host_port ++ lit ":443"
      else host_port ++ lit ":80"
  | None => url
  end.

Definition blocked : list str :=
  lit <$> ["localhost"; "metadata.google.internal"; "metadata.aws.internal"; "instance-data";
           "169.254.169.254"]%string.

Section Guard.
Context (resolve : str → Z → option (list IpAddr)) (show_ip : IpAddr → str).

Definition check_ssrf (url : str) : result unit str :=
  if negb (starts_with url (lit "http://")) && negb (starts_with url (lit "https://"))
  then Err (lit "Only http:// and https:// URLs are allowed")
  else
    let hostname := before (extract_host url) ":"%char in
    if existsb (str_eqb hostname) blocked
    then Err (lit "SSRF blocked: " ++ hostname ++ lit " is a restricted hostname")
    else
      let port := if starts_with url (lit "https") then 443%Z else 80%Z in
      match resolve hostname port with
      | Some addrs =>
          match List.find internal addrs with
          | Some ip => Err (lit "SSRF blocked: " ++ hostname ++ lit " resolves to private IP " ++ show_ip ip)
          | None => Ok tt
          end
      | None => Ok tt
      end.

(** ** Hosts by the grammar of URLs *)

(** The authority ends at a slash, a question mark or a number sign. *)
Definition ends_authority (c : ascii) : bool := existsb (λ d, bool_decide (c = d)) ["/"; "?"; "#"]%char.

Fixpoint authority_of (s : str) : str :=
  match s with
  | [] => []
  | c :: s => if ends_authority c then [] else c :: authority_of s
  end.

(** The host is what follows the user information, up to the port. *)
Definition host_of_authority (a : str) : str := before (List.last (split a "@"%char) []) ":"%char.

Definition uri_host (url : str) : option str :=
  n ← find url (lit "://");
  Some (host_of_authority (authority_of (drop (n + 3) url))).

Inductive Scheme : Type := Http | Https.
Definition scheme_text (s : Scheme) : str := match s with Http => lit "http" | Https => lit "https" end.
Definition scheme_port (s : Scheme) : Z := match s with Http => 80 | Https => 443 end.

Definition url_of (s : Scheme) (rest : str) : str := scheme_text s ++ lit "://" ++ rest.

Lemma find_scheme s rest : find (url_of s rest) (lit "://") = Some (length (scheme_text s)).
Proof. by destruct s. Qed.

Lemma before_app s c t : c ∉ s → before (s ++ c :: t) c = s.
Proof. intros Hs. unfold before. by rewrite split_app_sep. Qed.

Lemma before_none s c : c ∉ s → before s c = s.
Proof. intros Hs. unfold before. by rewrite split_no_sep_id. Qed.

Lemma before_prefix s c : ∃ t, s = before s c ++ t.
Proof.
  unfold before. induction s as [|d s [t IH]]; [by exists []|]. simpl. case_decide.
  - by exists (d :: s).
  - pose proof (split_not_nil s c). destruct (split s c) as [|p ps]; [done|]. simpl in *. exists t. by rewrite IH at 1.
Qed.

(** The part of a text up to a separator that it surely has. *)
Lemma before_cut a c b n :
  c ∉ a → length a ≤ n → before (take n (a ++ b)) c = a ++ before (take (n - length a) b) c.
Proof.
  intros Ha Hn. rewrite take_app_ge by done. remember (take (n - length a) b) as u eqn:E. clear E Hn n b.
  induction a as [|d a IH]; [done|]. rewrite not_elem_of_cons in Ha. destruct Ha as [Hd Ha]. specialize (IH Ha).
  unfold before in *. simpl. rewrite decide_False by congruence.
  pose proof (split_not_nil (a ++ u) c). destruct (split (a ++ u) c) as [|p ps]; [done|]. simpl in *. by rewrite IH.
Qed.

(** What follows a host: nothing, a path or a port. *)
Definition after_host (rest : str) : Prop :=
  match rest with [] => True | c :: _ => c = "/"%char ∨ c = ":"%char end.

Lemma after_host_take n rest : after_host rest → after_host (take n rest).
Proof. destruct n, rest; simpl; auto. Qed.

Lemma find_after a p b n : find (a ++ b) p = Some n → (∀ c, head p = Some c → c ∉ a) → p ≠ [] → length a ≤ n.
Proof.
  intros Hf Hc Hp. destruct (find_Some _ _ _ Hf) as (x & y & E & <-).
  destruct (decide (length a ≤ length x)) as [|Hlt]; [done|]. exfalso.
  destruct p as [|c p]; [done|]. apply (Hc c eq_refl).
  apply (f_equal (λ l, l !! length x)) in E.
  rewrite lookup_app_l in E by lia. rewrite (lookup_app_r x), Nat.sub_diag in E by done. cbn in E.
  by apply list_elem_of_lookup_2 in E.
Qed.

Lemma before_slash host rest :
  ":"%char ∉ host → "/"%char ∉ host → after_host rest →
  ∃ port, before (host ++ rest) "/"%char = host ++ port ∧ after_host port ∧ "/"%char ∉ port.
Proof.
  intros Hc Hs Hr. destruct rest as [|c rest].
  - exists []. rewrite app_nil_r, before_none by done. split_and!; [by rewrite ?app_nil_r|done|set_solver].
  - destruct Hr as [->| ->].
    + exists []. rewrite before_app by done. split_and!; [by rewrite ?app_nil_r|done|set_solver].
    + exists (before (":"%char :: rest) "/"%char).
      pose proof (before_cut host "/"%char (":"%char :: rest) (length (host ++ ":"%char :: rest)) Hs) as E.
      rewrite take_ge, length_app, (take_ge (":"%char :: rest)) in E by (rewrite ?length_app; simpl; lia).
      rewrite E by lia. split_and!; [done| |].
      * unfold before. simpl. pose proof (split_not_nil rest "/"%char). destruct (split rest _); [done|]. simpl. auto.
      * unfold before. pose proof (split_no_sep (":"%char :: rest) "/"%char) as Hf.
        pose proof (split_not_nil (":"%char :: rest) "/"%char).
        destruct (split (":"%char :: rest) _) as [|p ps]; [done|]. by inversion Hf.
Qed.

Lemma hostname_spec s host rest :
  ":"%char ∉ host → "/"%char ∉ host → after_host rest →
  before (extract_host (url_of s (host ++ rest))) ":"%char = host.
Proof.
  intros Hc Hs Hr. unfold extract_host, after_scheme. rewrite find_scheme.
  assert (drop (length (scheme_text s) + 3) (url_of s (host ++ rest)) = host ++ rest) as -> by (by destruct s).
  assert (∃ rest', after_host rest' ∧
    match find (host ++ rest) (lit "://") with Some k => take k (host ++ rest) | None => host ++ rest end
    = host ++ rest') as (rest' & Hr' & ->).
  { destruct (find (host ++ rest) (lit "://")) as [k|] eqn:E; [|by exists rest].
    apply find_after in E; [|by intros ? [= <-]|done]. exists (take (k - length host) rest).
    split; [by apply after_host_take|]. by rewrite take_app_ge. }
  destruct (before_slash host rest' Hc Hs Hr') as (port & -> & Hp & Hsp).
  destruct port as [|c port].
  - rewrite app_nil_r. destruct (contains host (lit ":")) eqn:E.
    { apply contains_spec in E as (a & b & ->). exfalso. apply Hc. rewrite !elem_of_app. right. left. constructor. }
    case_match; by apply before_app.
  - destruct Hp as [->| ->]; [exfalso; apply Hsp; constructor|].
    assert (contains (host ++ ":"%char :: port) (lit ":") = true) as ->
      by (apply contains_spec; by exists host, port).
    by apply before_app.
Qed.

Lemma url_https s rest : starts_with (url_of s rest) (lit "https") = match s with Http => false | Https => true end.
Proof.
  destruct s.
  - apply not_true_iff_false. rewrite starts_with_spec. intros [t E]. discriminate.
  - apply starts_with_spec. by eexists.
Qed.

Lemma url_scheme s rest :
  negb (starts_with (url_of s rest) (lit "http://")) && negb (starts_with (url_of s rest) (lit "https://")) = false.
Proof.
  destruct s.
  - assert (starts_with (url_of Http rest) (lit "http://") = true) as -> by (apply starts_with_spec; by eexists). done.
  - assert (starts_with (url_of Https rest) (lit "https://") = true) as -> by (apply starts_with_spec; by eexists).
    by rewrite andb_false_r.
Qed.

Lemma ssrf_verdict s host rest :
  ":"%char ∉ host → "/"%char ∉ host → after_host rest →
  check_ssrf (url_of s (host ++ rest)) = Ok tt ↔
  host ∉ blocked ∧ ∀ ips, resolve host (scheme_port s) = Some ips → Forall (λ ip, internal ip = false) ips.
Proof.
  intros Hc Hs Hr. unfold check_ssrf. rewrite url_scheme, hostname_spec, url_https by done.
  assert ((if match s with Http => false | Https => true end then 443 else 80)%Z = scheme_port s) as ->
    by (by destruct s).
  destruct (existsb (str_eqb host) blocked) eqn:Eb.
  { split; [done|]. intros [Hn _]. exfalso. apply Hn. apply existsb_exists in Eb as (x & Hx & ->%str_eqb_spec).
    by apply list_elem_of_In. }
  assert (host ∉ blocked) as Hb.
  { intros Hin. rewrite <-not_true_iff_false in Eb. apply Eb. apply existsb_exists. exists host.
    split; [by apply list_elem_of_In|by apply str_eqb_spec]. }
  destruct (resolve host (scheme_port s)) as [ips|]; [|split; [intros _|done]; split; [done|by intros ?]].
  destruct (List.find internal ips) as [ip|] eqn:Ef.
  - apply List.find_some in Ef as [Hin Hi]. split; [done|]. intros [_ Hf]. specialize (Hf ips eq_refl).
    rewrite Forall_forall in Hf. apply list_elem_of_In, Hf in Hin. congruence.
  - split; [intros _|done]. split; [done|]. intros ? [= <-]. apply Forall_forall. intros ip Hin%list_elem_of_In.
    by apply (List.find_none _ _ Ef).
Qed.

Lemma authority_of_app a b :
  Forall (λ c, ends_authority c = false) a →
  match b with [] => True | c :: _ => ends_authority c = true end → authority_of (a ++ b) = a.
Proof.
  intros Ha Hb. induction Ha as [|c a Hc _ IH]; simpl.
  - destruct b as [|c b]; simpl; [done|]. by rewrite Hb.
  - by rewrite Hc, IH.
Qed.

(** For a URL whose authority is a host and perhaps a port, the guard is
    exact about where the client will connect: the URL is let through exactly
    if the host is not on the list and none of its addresses is a loopback,
    unspecified, private or link-local one. *)
Theorem ssrf_plain_exact s host rest :
  Forall (λ c, ends_authority c = false) host → ":"%char ∉ host → "@"%char ∉ host →
  match rest with [] => True | c :: _ => c = "/"%char end →
  uri_host (url_of s (host ++ rest)) = Some host
  ∧ (check_ssrf (url_of s (host ++ rest)) = Ok tt ↔
     host ∉ blocked ∧ ∀ ips, resolve host (scheme_port s) = Some ips → Forall (λ ip, internal ip = false) ips).
Proof.
  intros Hh Hc Ha Hr. split.
  - unfold uri_host. rewrite find_scheme. cbn [mbind option_bind].
    assert (drop (length (scheme_text s) + 3) (url_of s (host ++ rest)) = host ++ rest) as -> by (by destruct s).
    rewrite authority_of_app; [|done|by destruct rest as [|c rest]; [|subst c]].
    unfold host_of_authority. rewrite split_no_sep_id by done. simpl. by rewrite before_none.
  - apply ssrf_verdict; [done| |by destruct rest; [|left]].
    intros Hin. rewrite Forall_forall in Hh. apply Hh in Hin. done.
Qed.

(** User information in a URL gets past the guard: whatever internal
    target a URL names, it is let through if the user name before it is that of
    a public host. *)
Theorem ssrf_userinfo_bypass s user password target rest ips :
  ":"%char ∉ user → "@"%char ∉ user ++ password → "@"%char ∉ target → ":"%char ∉ target →
  Forall (λ c, ends_authority c = false) (user ++ password ++ target) →
  match rest with [] => True | c :: _ => c = "/"%char end →
  user ∉ blocked → resolve user (scheme_port s) = Some ips → Forall (λ ip, internal ip = false) ips →
  let url := url_of s (user ++ lit ":" ++ password ++ lit "@" ++ target ++ rest) in
  uri_host url = Some target ∧ check_ssrf url = Ok tt.
Proof.
  intros Hu Hup Ht Htc Hall Hr Hb Hres Hips url. subst url.
  rewrite !Forall_app in Hall. destruct Hall as (Hau & Hap & Hat). split.
  - unfold uri_host. rewrite find_scheme. cbn [mbind option_bind].
    match goal with |- context [drop ?n ?u] => assert (drop n u = (user ++ lit ":" ++ password ++ lit "@" ++ target) ++ rest) as -> end.
    { rewrite <-!app_assoc. by destruct s. }
    rewrite authority_of_app; [| |by destruct rest as [|c rest]; [|subst c]].
    + unfold host_of_authority. rewrite !app_assoc, <-(app_assoc _ (lit "@")).
      change (lit "@" ++ target) with ("@"%char :: target).
      rewrite split_app_sep, split_no_sep_id by (done || set_solver). simpl. by rewrite before_none.
    + rewrite !Forall_app. split_and!; [done|by repeat constructor|done|by repeat constructor|done].
  - apply ssrf_verdict; [done| |by right|].
    + intros Hin. rewrite Forall_forall in Hau. apply Hau in Hin. done.
    + split; [done|]. intros ? Hr'. by simplify_eq.
Qed.
End Guard.

Definition demo_resolve (host : str) (_ : Z) : option (list IpAddr) :=
  if str_eqb host (lit "example.com") then Some [V4 93 184 216 34]
  else if str_eqb host (lit "intranet") then Some [V4 10 0 0 7]
  else None.

(** No character of a concrete text is the given one. *)
Lemma not_elem_by_eval (c : ascii) (s : str) : existsb (λ d, bool_decide (c = d)) s = false → c ∉ s.
Proof.
  intros Hf Hin. rewrite <-not_true_iff_false in Hf. apply Hf. apply existsb_exists. exists c.
  split; [by apply list_elem_of_In|by apply bool_decide_eq_true].
Qed.

Lemma forall_by_eval (f : ascii → bool) (s : str) : forallb (λ c, negb (f c)) s = true → Forall (λ c, f c = false) s.
Proof.
  intros Hf. apply Forall_forall. intros c Hc%list_elem_of_In. rewrite forallb_forall in Hf.
  by apply Hf, negb_true_iff in Hc.
Qed.

Lemma ssrf_plain_exact_witness :
  check_ssrf demo_resolve (λ _, []) (lit "https://intranet/admin") ≠ Ok tt
  ∧ check_ssrf demo_resolve (λ _, []) (lit "http://example.com/") = Ok tt.
Proof.
  destruct (ssrf_plain_exact demo_resolve (λ _, []) Https (lit "intranet") (lit "/admin")
    ltac:(by apply forall_by_eval) ltac:(by apply not_elem_by_eval) ltac:(by apply not_elem_by_eval) eq_refl)
    as [_ H1].
  destruct (ssrf_plain_exact demo_resolve (λ _, []) Http (lit "example.com") (lit "/")
    ltac:(by apply forall_by_eval) ltac:(by apply not_elem_by_eval) ltac:(by apply not_elem_by_eval) eq_refl)
    as [_ H2].
  split.
  - intros E. apply H1 in E as [_ E]. specialize (E [V4 10 0 0 7] eq_refl). by inversion E.
  - apply H2. split; [vm_compute; intros H; repeat (inversion H as [|? ? ? H0]; clear H; rename H0 into H)|].
    intros ips [= <-]. by repeat constructor.
Defined.

(** The metadata service of a cloud host, behind the name of a public one. *)
Lemma ssrf_userinfo_bypass_witness :
  uri_host (lit "http://example.com:x@169.254.169.254/latest/meta-data") = Some (lit "169.254.169.254")
  ∧ check_ssrf demo_resolve (λ _, []) (lit "http://example.com:x@169.254.169.254/latest/meta-data") = Ok tt.
Proof.
  apply (ssrf_userinfo_bypass demo_resolve (λ _, []) Http (lit "example.com") (lit "x")
    (lit "169.254.169.254") (lit "/latest/meta-data") [V4 93 184 216 34]);
    first [by apply not_elem_by_eval | by apply forall_by_eval | reflexivity | by repeat constructor |
           vm_compute; intros H; repeat (inversion H as [|? ? ? H0]; clear H; rename H0 into H)].
Defined.
