(* ===== verification/AgentTypes.v ===== *)
(** * Agents

    The data of [openfang-types/src/agent.rs]: modes, profiles, quotas, models,
    manifests and registry entries, with the tool filters and the validation
    of session labels. Ids are a parameter, times are milliseconds, JSON values
    a parameter. *)

From Stdlib Require Import Ascii ZArith Lia.
From Stdlib Require Import SpecFloat.
From stdpp Require Import base gmap strings list sets.
From S2P Require Import Prelude Strs TextLines Floats ContextWindow ShellExec.

Record ModelRoutingConfig : Type := mkRouting {
  simple_model : str;
  medium_model : str;
  complex_model : str;
  simple_threshold : Z;
  complex_threshold : Z
}.

Definition default_routing : ModelRoutingConfig :=
  mkRouting (lit "claude-haiku-4-5-20251001") (lit "claude-sonnet-4-20250514")
    (lit "claude-sonnet-4-20250514") 100 500.

Record AutonomousConfig : Type := mkAutonomous {
  quiet_hours : option str;
  max_iterations : Z;
  max_restarts : Z;
  heartbeat_interval_secs : Z;
  heartbeat_channel : option str
}.

Definition default_autonomous : AutonomousConfig := mkAutonomous None 50 10 30 None.

Inductive AgentState : Type := Created | Running | Suspended | Terminated | Crashed.

#[global] Instance agent_state_eq_dec : EqDecision AgentState.
Proof. solve_decision. Defined.

Inductive AgentMode : Type := Observe | Assist | FullMode.

Definition default_mode : AgentMode := FullMode.

Inductive ScheduleMode : Type :=
| Reactive
| Periodic (cron : str)
| Proactive (conditions : list str)
| Continuous (check_interval_secs : Z).

Record ResourceQuota : Type := mkQuota {
  max_memory_bytes : Z;
  max_cpu_time_ms : Z;
  max_tool_calls_per_minute : Z;
  max_llm_tokens_per_hour : Z;
  max_network_bytes_per_hour : Z;
  max_cost_per_hour_usd : spec_float;
  max_cost_per_day_usd : spec_float;
  max_cost_per_month_usd : spec_float
}.

Definition default_quota : ResourceQuota :=
  mkQuota (256 * 1024 * 1024) 30000 60 1000000 (100 * 1024 * 1024) (f64_lit 1 1) (f64_lit 0 1) (f64_lit 0 1).

Inductive Priority : Type := LowPriority | NormalPriority | HighPriority | CriticalPriority.

Inductive ToolProfile : Type := Minimal | Coding | Research | Messaging | Automation | FullProfile | Custom.

#[global] Instance tool_profile_eq_dec : EqDecision ToolProfile.
Proof. solve_decision. Defined.

Definition profile_tools (p : ToolProfile) : list str :=
  lit <$>
  (match p with
   | Minimal => ["file_read"; "file_list"]
   | Coding => ["file_read"; "file_write"; "file_list"; "shell_exec"; "web_fetch"]
   | Research => ["web_fetch"; "web_search"; "file_read"; "file_write"]
   | Messaging => ["agent_send"; "agent_list"; "memory_store"; "memory_recall"]
   | Automation =>
       ["file_read"; "file_write"; "file_list"; "shell_exec"; "web_fetch"; "web_search";
        "agent_send"; "agent_list"; "memory_store"; "memory_recall"]
   | FullProfile | Custom => ["*"]
   end)%string.

Record ManifestCapabilities : Type := mkManifestCaps {
  network : list str;
  tools : list str;
  memory_read : list str;
  memory_write : list str;
  agent_spawn : bool;
  agent_message : list str;
  shell : list str;
  ofp_discover : bool;
  ofp_connect : list str
}.

Definition default_caps : ManifestCapabilities := mkManifestCaps [] [] [] [] false [] [] false [].

Definition any_tool (f : str → bool) (ts : list str) : bool :=
  existsb (λ t, f t || str_eqb t (lit "*")) ts.

Definition stars_if (b : bool) : list str := if b then [lit "*"] else [].

Definition implied_capabilities (p : ToolProfile) : ManifestCapabilities :=
  let ts := profile_tools p in
  let has_net := any_tool (λ t, starts_with t (lit "web_")) ts in
  let has_shell := any_tool (str_eqb (lit "shell_exec")) ts in
  let has_agent := any_tool (λ t, starts_with t (lit "agent_")) ts in
  let has_memory := any_tool (λ t, starts_with t (lit "memory_")) ts in
  {| tools := ts;
     network := stars_if has_net;
     shell := stars_if has_shell;
     agent_spawn := has_agent;
     agent_message := stars_if has_agent;
     memory_read := if has_memory then [lit "*"] else [lit "self.*"];
     memory_write := [lit "self.*"];
     ofp_discover := false;
     ofp_connect := [] |}.

Record ModelConfig : Type := mkModel {
  provider : str;
  model : str;
  max_tokens : Z;
  temperature : spec_float;
  system_prompt : str;
  api_key_env : option str;
  base_url : option str
}.

(** [0.7f32], the nearest value of 24 bits. *)
Definition default_model (temperature_07 : spec_float) : ModelConfig :=
  mkModel (lit "anthropic") (lit "claude-sonnet-4-20250514") 4096 temperature_07
    (lit "You are a helpful AI agent.") None None.

Record FallbackModel : Type := mkFallback {
  fb_provider : str;
  fb_model : str;
  fb_api_key_env : option str;
  fb_base_url : option str
}.

Record AgentIdentity : Type := mkIdentity {
  emoji : option str;
  avatar_url : option str;
  identity_color : option str;
  archetype : option str;
  vibe : option str;
  greeting_style : option str
}.

Definition default_identity : AgentIdentity := mkIdentity None None None None None None.

Section Entries.
Context {AgentId SessionId Json : Type}.

Record ToolConfig : Type := mkToolConfig { params : gmap str Json }.

Record AgentManifest : Type := mkManifest {
  m_name : str;
  version : str;
  description : str;
  author : str;
  module : str;
  schedule : ScheduleMode;
  m_model : ModelConfig;
  fallback_models : list FallbackModel;
  resources : ResourceQuota;
  priority : Priority;
  capabilities : ManifestCapabilities;
  profile : option ToolProfile;
  m_tools : gmap str ToolConfig;
  skills : list str;
  mcp_servers : list str;
  m_metadata : gmap str Json;
  m_tags : list str;
  routing : option ModelRoutingConfig;
  autonomous : option AutonomousConfig;
  pinned_model : option str;
  workspace : option str;
  generate_identity_files : bool;
  exec_policy : option ExecPolicy
}.

Definition default_manifest (temperature_07 : spec_float) : AgentManifest :=
  mkManifest (lit "unnamed") (lit "0.1.0") [] [] (lit "builtin:chat") Reactive
    (default_model temperature_07) [] default_quota NormalPriority default_caps None ∅ [] [] ∅ []
    None None None None true None.

Record AgentEntry : Type := mkEntry {
  id : AgentId;
  name : str;
  manifest : AgentManifest;
  state : AgentState;
  agent_mode : AgentMode;
  created_at : Z;
  last_active : Z;
  parent : option AgentId;
  children : list AgentId;
  session_id : SessionId;
  tags : list str;
  identity : AgentIdentity;
  onboarding_completed : bool;
  onboarding_completed_at : option Z
}.

End Entries.

(** ** Tools by mode *)

Definition read_only_tools : list str :=
  lit <$> ["file_read"; "file_list"; "memory_recall"; "web_fetch"; "web_search"; "agent_list"]%string.

Definition filter_tools {Value} (mode : AgentMode) (ts : list (ToolDefinition (Value := Value)))
  : list (ToolDefinition (Value := Value)) :=
  match mode with
  | Observe => []
  | Assist => filter (λ t, tool_name t ∈ read_only_tools) ts
  | FullMode => ts
  end.

(** ** Session labels *)

Section Labels.
Context `{UnicodeAlnum}.

Definition label_char (c : str) : bool :=
  is_alphanumeric c || str_eqb c (lit " ") || str_eqb c (lit "-") || str_eqb c (lit "_").

Definition new_label (label : str) : result str str :=
  let trimmed := trim label in
  if is_empty trimmed || (128 <? length trimmed) then Err (lit "Session label must be 1-128 chars")
  else if negb (forallb label_char (chars trimmed)) then Err (lit "Session label contains invalid chars")
  else Ok trimmed.

(** Session labels are values of their type: a label that was accepted has
    from 1 to 128 bytes and only letters, digits, blanks, hyphens and
    underscores, it is the given text without the blanks around it, and it is
    accepted again as it is. *)
Theorem session_label_typed label l :
  new_label label = Ok l →
  l = trim label ∧ 0 < length l ≤ 128 ∧ Forall (λ c, label_char c = true) (chars l) ∧ new_label l = Ok l.
Proof.
  unfold new_label at 1. destruct (is_empty (trim label) || (128 <? length (trim label))) eqn:E; [done|].
  destruct (forallb label_char (chars (trim label))) eqn:Ec; [|done]. intros [= <-].
  apply orb_false_iff in E as [Ee El]. apply Nat.ltb_ge in El. split; [done|]. split.
  { split; [|done]. destruct (trim label); [done|simpl; lia]. }
  split.
  { apply Forall_forall. intros c Hc%list_elem_of_In. by apply (proj1 (forallb_forall _ _) Ec). }
  unfold new_label. rewrite trim_idempotent, Ee, Ec. cbn [orb negb]. by rewrite (proj2 (Nat.ltb_ge _ _) El).
Qed.
End Labels.

Lemma session_label_typed_witness :
  new_label (lit "  support inbox ") = Ok (lit "support inbox")
  ∧ Forall (λ c, label_char c = true) (chars (lit "support inbox")).
Proof.
  split; [vm_compute; reflexivity|].
  apply (session_label_typed (lit "  support inbox ")). vm_compute. reflexivity.
Defined.
