(* ===== verification/AgentRegistry.v ===== *)
(** * The agent registry

    [openfang-kernel/src/registry.rs]: the table of agents with its index by
    name and its index by tag. Operations run one at a time; [now] is the time
    the operation reads. The registry is shown to refine a table without
    indexes. *)

From Stdlib Require Import Ascii ZArith Lia.
From stdpp Require Import base gmap strings list sets.
From S2P Require Import Prelude Strs Floats AgentTypes.

(** The errors of [OpenFangError] the registry returns. *)
Inductive RegistryError : Type :=
| AgentAlreadyExists (name : str)
| AgentNotFound (id : str).

Section Registry.
Context {AgentId SessionId Json : Type} `{Countable AgentId}.
Context (show_agent : AgentId → str).

Abbreviation entry := (AgentEntry (AgentId := AgentId) (SessionId := SessionId) (Json := Json)).
Abbreviation agent_manifest := (AgentManifest (Json := Json)).

(** ** Assignments to fields *)

Definition touch (now : Z) (e : entry) : entry :=
  mkEntry (id e) (name e) (manifest e) (state e) (agent_mode e) (created_at e) now (parent e)
    (children e) (session_id e) (tags e) (identity e) (onboarding_completed e)
    (onboarding_completed_at e).

Definition with_state (s : AgentState) (e : entry) : entry :=
  mkEntry (id e) (name e) (manifest e) s (agent_mode e) (created_at e) (last_active e) (parent e)
    (children e) (session_id e) (tags e) (identity e) (onboarding_completed e)
    (onboarding_completed_at e).

Definition with_mode (m : AgentMode) (e : entry) : entry :=
  mkEntry (id e) (name e) (manifest e) (state e) m (created_at e) (last_active e) (parent e)
    (children e) (session_id e) (tags e) (identity e) (onboarding_completed e)
    (onboarding_completed_at e).

Definition with_child (c : AgentId) (e : entry) : entry :=
  mkEntry (id e) (name e) (manifest e) (state e) (agent_mode e) (created_at e) (last_active e)
    (parent e) (children e ++ [c]) (session_id e) (tags e) (identity e) (onboarding_completed e)
    (onboarding_completed_at e).

Definition with_session (s : SessionId) (e : entry) : entry :=
  mkEntry (id e) (name e) (manifest e) (state e) (agent_mode e) (created_at e) (last_active e)
    (parent e) (children e) s (tags e) (identity e) (onboarding_completed e)
    (onboarding_completed_at e).

Definition with_identity (i : AgentIdentity) (e : entry) : entry :=
  mkEntry (id e) (name e) (manifest e) (state e) (agent_mode e) (created_at e) (last_active e)
    (parent e) (children e) (session_id e) (tags e) i (onboarding_completed e)
    (onboarding_completed_at e).

Definition with_onboarding (now : Z) (e : entry) : entry :=
  mkEntry (id e) (name e) (manifest e) (state e) (agent_mode e) (created_at e) (last_active e)
    (parent e) (children e) (session_id e) (tags e) (identity e) true (Some now).

Definition with_name (n : str) (e : entry) : entry :=
  mkEntry (id e) n (manifest e) (state e) (agent_mode e) (created_at e) (last_active e) (parent e)
    (children e) (session_id e) (tags e) (identity e) (onboarding_completed e)
    (onboarding_completed_at e).

Definition on_manifest (f : agent_manifest → agent_manifest) (e : entry) : entry :=
  mkEntry (id e) (name e) (f (manifest e)) (state e) (agent_mode e) (created_at e) (last_active e)
    (parent e) (children e) (session_id e) (tags e) (identity e) (onboarding_completed e)
    (onboarding_completed_at e).

Definition m_set_name (n : str) (m : agent_manifest) : agent_manifest :=
  let '(mkManifest _ v d a mo sc md fb re pr ca pf to sk mc me ta ro au pi ws ge ex) := m in
  mkManifest n v d a mo sc md fb re pr ca pf to sk mc me ta ro au pi ws ge ex.

Definition m_set_description (d : str) (m : agent_manifest) : agent_manifest :=
  let '(mkManifest n v _ a mo sc md fb re pr ca pf to sk mc me ta ro au pi ws ge ex) := m in
  mkManifest n v d a mo sc md fb re pr ca pf to sk mc me ta ro au pi ws ge ex.

Definition m_set_model (md : ModelConfig) (m : agent_manifest) : agent_manifest :=
  let '(mkManifest n v d a mo sc _ fb re pr ca pf to sk mc me ta ro au pi ws ge ex) := m in
  mkManifest n v d a mo sc md fb re pr ca pf to sk mc me ta ro au pi ws ge ex.

Definition m_set_skills (sk : list str) (m : agent_manifest) : agent_manifest :=
  let '(mkManifest n v d a mo sc md fb re pr ca pf to _ mc me ta ro au pi ws ge ex) := m in
  mkManifest n v d a mo sc md fb re pr ca pf to sk mc me ta ro au pi ws ge ex.

Definition m_set_mcp (mc : list str) (m : agent_manifest) : agent_manifest :=
  let '(mkManifest n v d a mo sc md fb re pr ca pf to sk _ me ta ro au pi ws ge ex) := m in
  mkManifest n v d a mo sc md fb re pr ca pf to sk mc me ta ro au pi ws ge ex.

Definition m_set_workspace (ws : option str) (m : agent_manifest) : agent_manifest :=
  let '(mkManifest n v d a mo sc md fb re pr ca pf to sk mc me ta ro au pi _ ge ex) := m in
  mkManifest n v d a mo sc md fb re pr ca pf to sk mc me ta ro au pi ws ge ex.

Definition model_with (new_provider : option str) (new_model new_prompt : option str) (m : ModelConfig)
  : ModelConfig :=
  mkModel (default (provider m) new_provider) (default (model m) new_model) (max_tokens m)
    (temperature m) (default (system_prompt m) new_prompt) (api_key_env m) (base_url m).

Definition m_on_model (f : ModelConfig → ModelConfig) (m : agent_manifest) : agent_manifest :=
  m_set_model (f (m_model m)) m.

(** ** The registry *)

Record Registry : Type := mkRegistry {
  agents : gmap AgentId entry;
  name_index : gmap str AgentId;
  tag_index : gmap str (list AgentId)
}.

Definition new_registry : Registry := mkRegistry ∅ ∅ ∅.

Definition push_tag (i : AgentId) (index : gmap str (list AgentId)) (tag : str)
  : gmap str (list AgentId) := <[ tag := default [] (index !! tag) ++ [i] ]> index.

Definition register (r : Registry) (e : entry) : Registry * result unit RegistryError :=
  if bool_decide (is_Some (name_index r !! name e)) then (r, Err (AgentAlreadyExists (name e)))
  else
    (mkRegistry (<[ id e := e ]> (agents r)) (<[ name e := id e ]> (name_index r))
       (foldl (push_tag (id e)) (tag_index r) (tags e)), Ok tt).

Definition get (r : Registry) (i : AgentId) : option entry := agents r !! i.

Definition find_by_name (r : Registry) (n : str) : option entry :=
  name_index r !! n ≫= λ i, agents r !! i.

(** The common shape of the setters: the entry is changed in place. *)
Definition update_entry (r : Registry) (i : AgentId) (f : entry → entry)
  : Registry * result unit RegistryError :=
  match agents r !! i with
  | Some e => (mkRegistry (<[ i := f e ]> (agents r)) (name_index r) (tag_index r), Ok tt)
  | None => (r, Err (AgentNotFound (show_agent i)))
  end.

Definition set_state r i s now := update_entry r i (λ e, touch now (with_state s e)).
Definition set_mode r i m now := update_entry r i (λ e, touch now (with_mode m e)).
Definition update_session_id r i s now := update_entry r i (λ e, touch now (with_session s e)).
Definition update_workspace r i w now :=
  update_entry r i (λ e, touch now (on_manifest (m_set_workspace w) e)).
Definition update_identity r i a now := update_entry r i (λ e, touch now (with_identity a e)).
Definition update_model r i m now :=
  update_entry r i (λ e, touch now (on_manifest (m_on_model (model_with None (Some m) None)) e)).
Definition update_model_and_provider r i m p now :=
  update_entry r i (λ e, touch now (on_manifest (m_on_model (model_with (Some p) (Some m) None)) e)).
Definition update_skills r i sk now :=
  update_entry r i (λ e, touch now (on_manifest (m_set_skills sk) e)).
Definition update_mcp_servers r i mc now :=
  update_entry r i (λ e, touch now (on_manifest (m_set_mcp mc) e)).
Definition update_system_prompt r i p now :=
  update_entry r i (λ e, touch now (on_manifest (m_on_model (model_with None None (Some p))) e)).
Definition update_description r i d now :=
  update_entry r i (λ e, touch now (on_manifest (m_set_description d) e)).
Definition mark_onboarding_complete r i now :=
  update_entry r i (λ e, touch now (with_onboarding now e)).

Definition add_child (r : Registry) (parent_id child_id : AgentId) : Registry :=
  mkRegistry (alter (with_child child_id) parent_id (agents r)) (name_index r) (tag_index r).

Definition renamed (n : str) (now : Z) (e : entry) : entry :=
  touch now (on_manifest (m_set_name n) (with_name n e)).

Definition update_name (r : Registry) (i : AgentId) (new_name : str) (now : Z)
  : Registry * result unit RegistryError :=
  if bool_decide (is_Some (name_index r !! new_name)) then (r, Err (AgentAlreadyExists new_name))
  else
    match agents r !! i with
    | Some e =>
        (mkRegistry (<[ i := renamed new_name now e ]> (agents r))
           (<[ new_name := i ]> (delete (name e) (name_index r))) (tag_index r), Ok tt)
    | None => (r, Err (AgentNotFound (show_agent i)))
    end.

Definition drop_tag (i : AgentId) (index : gmap str (list AgentId)) (tag : str)
  : gmap str (list AgentId) := alter (filter (λ j, j ≠ i)) tag index.

Definition remove (r : Registry) (i : AgentId) : Registry * result entry RegistryError :=
  match agents r !! i with
  | Some e =>
      (mkRegistry (delete i (agents r)) (delete (name e) (name_index r))
         (foldl (drop_tag i) (tag_index r) (tags e)), Ok e)
  | None => (r, Err (AgentNotFound (show_agent i)))
  end.

(** The order of [list] is that of the table, not specified. *)
Definition list_agents (r : Registry) : list entry := (map_to_list (agents r)).*2.
Definition count (r : Registry) : nat := size (agents r).

(** ** The indexes *)

Record reg_inv (r : Registry) : Prop := {
  inv_id : ∀ i e, agents r !! i = Some e → id e = i;
  inv_name : ∀ n i, name_index r !! n = Some i ↔ ∃ e, agents r !! i = Some e ∧ name e = n;
  inv_tag : ∀ t i, i ∈ default [] (tag_index r !! t) ↔ ∃ e, agents r !! i = Some e ∧ t ∈ tags e
}.

Lemma new_inv : reg_inv new_registry.
Proof. split; simpl; [done| |]; intros; rewrite ?lookup_empty; set_solver. Qed.

Lemma push_tags_lookup i ts index t j :
  j ∈ default [] (foldl (push_tag i) index ts !! t) ↔
  j ∈ default [] (index !! t) ∨ (j = i ∧ t ∈ ts).
Proof.
  revert index. induction ts as [|x ts IH]; intros index; cbn [foldl]; [set_solver|].
  rewrite IH. unfold push_tag. destruct (decide (t = x)) as [->|Hne].
  - rewrite lookup_insert_eq. simpl. set_solver.
  - rewrite lookup_insert_ne by done. set_solver.
Qed.

Lemma drop_tags_lookup i ts index t j :
  j ∈ default [] (foldl (drop_tag i) index ts !! t) ↔
  j ∈ default [] (index !! t) ∧ (j = i → t ∉ ts).
Proof.
  revert index. induction ts as [|x ts IH]; intros index; cbn [foldl]; [set_solver|].
  rewrite IH. unfold drop_tag. destruct (decide (t = x)) as [->|Hne].
  - rewrite lookup_alter_eq. destruct (index !! x); simpl; [|set_solver].
    rewrite list_elem_of_filter. set_solver.
  - rewrite lookup_alter_ne by done. set_solver.
Qed.

Lemma register_inv r e :
  reg_inv r → agents r !! id e = None → reg_inv (register r e).1.
Proof.
  intros [Hi Hn Ht] Hf. unfold register. case_bool_decide as Hname; [done|]. split; simpl.
  - intros i e'. destruct (decide (i = id e)) as [->|].
    + rewrite lookup_insert_eq. by intros [= <-].
    + rewrite lookup_insert_ne by done. apply Hi.
  - intros n i. destruct (decide (n = name e)) as [->|Hne].
    + rewrite lookup_insert_eq. split; [intros [= <-]; exists e; by rewrite lookup_insert_eq|].
      intros (e' & He' & Hn'). destruct (decide (i = id e)) as [->|]; [done|].
      rewrite lookup_insert_ne in He' by done. destruct Hname. exists i. apply Hn. eauto.
    + rewrite lookup_insert_ne by done. rewrite Hn. destruct (decide (i = id e)) as [->|].
      * rewrite lookup_insert_eq. split; [naive_solver|]. intros (e' & [= <-] & ?). done.
      * by rewrite lookup_insert_ne by done.
  - intros t i. rewrite push_tags_lookup, Ht. destruct (decide (i = id e)) as [->|].
    + rewrite lookup_insert_eq. naive_solver.
    + rewrite lookup_insert_ne by done. naive_solver.
Qed.

Lemma update_entry_inv r i f :
  reg_inv r → (∀ e, id (f e) = id e ∧ name (f e) = name e ∧ tags (f e) = tags e) →
  reg_inv (update_entry r i f).1.
Proof.
  intros [Hi Hn Ht] Hf. unfold update_entry. destruct (agents r !! i) as [e|] eqn:E; [|done].
  split; simpl.
  - intros j e'. destruct (decide (j = i)) as [->|].
    + rewrite lookup_insert_eq. intros [= <-]. destruct (Hf e) as (-> & _). by apply Hi.
    + rewrite lookup_insert_ne by done. apply Hi.
  - intros n j. rewrite Hn. destruct (decide (j = i)) as [->|].
    + rewrite lookup_insert_eq, E. pose proof (Hf e). naive_solver.
    + by rewrite lookup_insert_ne by done.
  - intros t j. rewrite Ht. destruct (decide (j = i)) as [->|].
    + rewrite lookup_insert_eq, E. pose proof (Hf e). naive_solver congruence.
    + by rewrite lookup_insert_ne by done.
Qed.

Lemma update_name_inv r i n now : reg_inv r → reg_inv (update_name r i n now).1.
Proof.
  intros [Hi Hn Ht]. unfold update_name. case_bool_decide as Hname; [done|].
  destruct (agents r !! i) as [e|] eqn:E; [|done].
  assert (name_index r !! name e = Some i) as Hidx by (apply Hn; eauto). split; simpl.
  - intros j e'. destruct (decide (j = i)) as [->|].
    + rewrite lookup_insert_eq. intros [= <-]. simpl. by apply Hi.
    + rewrite lookup_insert_ne by done. apply Hi.
  - intros m j. destruct (decide (m = n)) as [->|Hmn].
    + rewrite lookup_insert_eq. split; [intros [= <-]; rewrite lookup_insert_eq; eauto|].
      intros (e' & He' & Hn'). destruct (decide (j = i)) as [->|]; [done|].
      rewrite lookup_insert_ne in He' by done. destruct Hname. exists j. apply Hn. eauto.
    + rewrite lookup_insert_ne by done. destruct (decide (j = i)) as [->|Hji].
      * rewrite lookup_insert_eq. split.
        -- rewrite lookup_delete_Some, Hn, E. naive_solver.
        -- intros (e' & [= <-] & Hm). simpl in Hm. done.
      * rewrite (lookup_insert_ne (agents r)) by done. rewrite lookup_delete_Some, Hn.
        split; [naive_solver|]. intros (e' & He' & Hm). split; [|eauto].
        intros Hme. subst m. assert (name_index r !! name e' = Some j) by (apply Hn; eauto). congruence.
  - intros t j. rewrite Ht. destruct (decide (j = i)) as [->|].
    + rewrite lookup_insert_eq, E. naive_solver.
    + by rewrite lookup_insert_ne by done.
Qed.

Lemma remove_inv r i : reg_inv r → reg_inv (remove r i).1.
Proof.
  intros [Hi Hn Ht]. unfold remove. destruct (agents r !! i) as [e|] eqn:E; [|done].
  assert (name_index r !! name e = Some i) as Hidx by (apply Hn; eauto). split; simpl.
  - intros j e' [_ He']%lookup_delete_Some. by apply Hi.
  - intros m j. rewrite lookup_delete_Some, Hn. setoid_rewrite lookup_delete_Some. split.
    + intros (Hm & e' & He' & Hm'). exists e'. split_and!; [|done|done]. intros ->. congruence.
    + intros (e' & [Hji He'] & Hm). split; [|eauto]. intros Hme. subst m.
      assert (name_index r !! name e' = Some j) by (apply Hn; eauto). congruence.
  - intros t j. rewrite drop_tags_lookup, Ht. setoid_rewrite lookup_delete_Some. split.
    + intros ((e' & He' & Htag) & Hd). exists e'. split_and!; [|done|done].
      intros <-. assert (e' = e) as -> by congruence. by apply Hd.
    + intros (e' & [Hji He'] & Htag). split; [eauto|]. intros ->. done.
Qed.

Lemma add_child_inv r p c : reg_inv r → reg_inv (add_child r p c).
Proof.
  intros [Hi Hn Ht]. unfold add_child.
  assert (∀ j (P : entry → Prop), (∀ e, P (with_child c e) ↔ P e) →
    (∃ e, alter (with_child c) p (agents r) !! j = Some e ∧ P e) ↔ ∃ e, agents r !! j = Some e ∧ P e) as Hex.
  { intros j P HP. destruct (decide (j = p)) as [->|]; [|by rewrite lookup_alter_ne by done].
    rewrite lookup_alter_eq. destruct (agents r !! p); simpl; naive_solver. }
  split; simpl.
  - intros j e'. destruct (decide (j = p)) as [->|]; [|rewrite lookup_alter_ne by done; apply Hi].
    rewrite lookup_alter_eq. intros (e0 & He0 & ->)%fmap_Some. simpl. by apply Hi.
  - intros n j. rewrite Hn. symmetry. by apply (Hex j (λ e, name e = n)).
  - intros t j. rewrite Ht. symmetry. by apply (Hex j (λ e, t ∈ tags e)).
Qed.

(** ** Operations as data *)

Inductive Update : Type :=
| UState (s : AgentState)
| UMode (m : AgentMode)
| USession (s : SessionId)
| UWorkspace (w : option str)
| UIdentity (a : AgentIdentity)
| UModel (m : str)
| UModelProvider (m p : str)
| USkills (l : list str)
| UMcpServers (l : list str)
| USystemPrompt (p : str)
| UDescription (d : str)
| UOnboarding.

Definition run_update (r : Registry) (i : AgentId) (u : Update) (now : Z)
  : Registry * result unit RegistryError :=
  match u with
  | UState s => set_state r i s now
  | UMode m => set_mode r i m now
  | USession s => update_session_id r i s now
  | UWorkspace w => update_workspace r i w now
  | UIdentity a => update_identity r i a now
  | UModel m => update_model r i m now
  | UModelProvider m p => update_model_and_provider r i m p now
  | USkills l => update_skills r i l now
  | UMcpServers l => update_mcp_servers r i l now
  | USystemPrompt p => update_system_prompt r i p now
  | UDescription d => update_description r i d now
  | UOnboarding => mark_onboarding_complete r i now
  end.

Inductive Op : Type :=
| ORegister (e : entry)
| ORemove (i : AgentId)
| OUpdate (i : AgentId) (u : Update) (now : Z)
| ORename (i : AgentId) (n : str) (now : Z)
| OAddChild (p c : AgentId)
| OGet (i : AgentId)
| OFindByName (n : str)
| OCount.

(** What an operation returns. *)
Inductive Outcome : Type :=
| Returned (res : result unit RegistryError)
| Removed (res : result entry RegistryError)
| Found (res : option entry)
| Counted (n : nat)
| Nothing.

Definition step (r : Registry) (op : Op) : Registry * Outcome :=
  match op with
  | ORegister e => let '(r, res) := register r e in (r, Returned res)
  | ORemove i => let '(r, res) := remove r i in (r, Removed res)
  | OUpdate i u now => let '(r, res) := run_update r i u now in (r, Returned res)
  | ORename i n now => let '(r, res) := update_name r i n now in (r, Returned res)
  | OAddChild p c => (add_child r p c, Nothing)
  | OGet i => (r, Found (get r i))
  | OFindByName n => (r, Found (find_by_name r n))
  | OCount => (r, Counted (count r))
  end.

Fixpoint run (r : Registry) (ops : list Op) : Registry * list Outcome :=
  match ops with
  | [] => (r, [])
  | op :: ops =>
      let '(r, o) := step r op in let '(r, os) := run r ops in (r, o :: os)
  end.

(** ** Reference: a table without indexes *)

Abbreviation Table := (gmap AgentId entry).

(** The first agent with the name, looking at all of them. *)
Definition named (t : Table) (n : str) : option entry :=
  snd <$> List.find (λ p, str_eqb (name p.2) n) (map_to_list t).

Definition changed (u : Update) (now : Z) (e : entry) : entry :=
  touch now
    (match u with
     | UState s => with_state s e
     | UMode m => with_mode m e
     | USession s => with_session s e
     | UWorkspace w => on_manifest (m_set_workspace w) e
     | UIdentity a => with_identity a e
     | UModel m => on_manifest (m_on_model (model_with None (Some m) None)) e
     | UModelProvider m p => on_manifest (m_on_model (model_with (Some p) (Some m) None)) e
     | USkills l => on_manifest (m_set_skills l) e
     | UMcpServers l => on_manifest (m_set_mcp l) e
     | USystemPrompt p => on_manifest (m_on_model (model_with None None (Some p))) e
     | UDescription d => on_manifest (m_set_description d) e
     | UOnboarding => with_onboarding now e
     end).

Definition spec_change (t : Table) (i : AgentId) (f : entry → entry) : Table * Outcome :=
  match t !! i with
  | Some e => (<[ i := f e ]> t, Returned (Ok tt))
  | None => (t, Returned (Err (AgentNotFound (show_agent i))))
  end.

Definition spec_step (t : Table) (op : Op) : Table * Outcome :=
  match op with
  | ORegister e =>
      match named t (name e) with
      | Some _ => (t, Returned (Err (AgentAlreadyExists (name e))))
      | None => (<[ id e := e ]> t, Returned (Ok tt))
      end
  | ORemove i =>
      match t !! i with
      | Some e => (delete i t, Removed (Ok e))
      | None => (t, Removed (Err (AgentNotFound (show_agent i))))
      end
  | OUpdate i u now => spec_change t i (changed u now)
  | ORename i n now =>
      match named t n with
      | Some _ => (t, Returned (Err (AgentAlreadyExists n)))
      | None => spec_change t i (renamed n now)
      end
  | OAddChild p c => (alter (with_child c) p t, Nothing)
  | OGet i => (t, Found (t !! i))
  | OFindByName n => (t, Found (named t n))
  | OCount => (t, Counted (size t))
  end.

Fixpoint spec_run (t : Table) (ops : list Op) : Table * list Outcome :=
  match ops with
  | [] => (t, [])
  | op :: ops =>
      let '(t, o) := spec_step t op in let '(t, os) := spec_run t ops in (t, o :: os)
  end.

(** Agents are registered under ids that are not in use: [AgentId::new] draws a
    random one, and stored agents have theirs as primary key. *)
Definition fresh (t : Table) (op : Op) : Prop :=
  match op with ORegister e => t !! id e = None | _ => True end.

Fixpoint all_fresh (t : Table) (ops : list Op) : Prop :=
  match ops with
  | [] => True
  | op :: ops => fresh t op ∧ all_fresh (spec_step t op).1 ops
  end.

Lemma named_spec r n : reg_inv r → named (agents r) n = find_by_name r n.
Proof.
  intros [_ Hn _]. unfold named, find_by_name.
  destruct (List.find _ _) as [[i e]|] eqn:E; simpl.
  - apply List.find_some in E as [Hin He]. apply list_elem_of_In, elem_of_map_to_list in Hin.
    apply str_eqb_spec in He. simpl in He. symmetry.
    assert (name_index r !! n = Some i) as -> by (apply Hn; eauto). done.
  - destruct (name_index r !! n) as [i|] eqn:Ei; [|done]. simpl.
    apply Hn in Ei as (e & He & Hne).
    pose proof (List.find_none _ _ E (i, e)) as Hf. simpl in Hf.
    enough (str_eqb (name e) n = true) by (rewrite Hf in *; [done|]; apply list_elem_of_In, elem_of_map_to_list; done).
    by apply str_eqb_spec.
Qed.

Lemma named_index r n : reg_inv r → is_Some (name_index r !! n) ↔ is_Some (named (agents r) n).
Proof.
  intros Hr. rewrite (named_spec r n Hr). unfold find_by_name.
  destruct (name_index r !! n) as [i|] eqn:E; simpl; [|by split; intros []].
  apply Hr in E as (e & He & _). rewrite He. split; eauto.
Qed.

Lemma run_update_entry r i u now : run_update r i u now = update_entry r i (changed u now).
Proof. by destruct u. Qed.

Lemma changed_keeps u now e :
  id (changed u now e) = id e ∧ name (changed u now e) = name e ∧ tags (changed u now e) = tags e.
Proof. by destruct u. Qed.

Lemma registry_step_inv r op : reg_inv r → fresh (agents r) op → reg_inv (step r op).1.
Proof.
  intros Hr Hf. destruct op; simpl; try done.
  - pose proof (register_inv r e Hr Hf). by destruct (register r e).
  - pose proof (remove_inv r i Hr). by destruct (remove r i).
  - rewrite run_update_entry. pose proof (update_entry_inv r i (changed u now) Hr (changed_keeps u now)).
    by destruct (update_entry r i (changed u now)).
  - pose proof (update_name_inv r i n now Hr). by destruct (update_name r i n now).
  - by apply add_child_inv.
Qed.

Lemma step_refines r op :
  reg_inv r → spec_step (agents r) op = (agents (step r op).1, (step r op).2).
Proof.
  intros Hr. destruct op; cbn [step spec_step]; try done.
  - unfold register. pose proof (named_index r (name e) Hr) as Hi.
    case_bool_decide as Hb; rewrite Hi in Hb.
    + by destruct Hb as [x ->].
    + destruct (named (agents r) (name e)); [destruct Hb; eauto|done].
  - unfold remove. by destruct (agents r !! i).
  - rewrite run_update_entry. unfold spec_change, update_entry. by destruct (agents r !! i).
  - unfold update_name, spec_change. pose proof (named_index r n Hr) as Hi.
    case_bool_decide as Hb; rewrite Hi in Hb.
    + by destruct Hb as [x ->].
    + destruct (named (agents r) n); [destruct Hb; eauto|]. by destruct (agents r !! i).
  - by rewrite (named_spec r n Hr).
Qed.

Lemma run_refines r ops :
  reg_inv r → all_fresh (agents r) ops →
  spec_run (agents r) ops = (agents (run r ops).1, (run r ops).2) ∧ reg_inv (run r ops).1.
Proof.
  revert r. induction ops as [|op ops IH]; intros r Hr Hf; [done|].
  simpl in Hf. destruct Hf as [Hop Hf]. pose proof (registry_step_inv r op Hr Hop) as Hs.
  cbn [run spec_run]. rewrite (step_refines r op Hr) in Hf |- *.
  destruct (step r op) as [r' o]. simpl in *. destruct (IH r' Hs Hf) as [E Hinv]. rewrite E.
  by destruct (run r' ops).
Qed.
End Registry.

(** C11: The registry refines a table without indexes: for every sequence of
    operations in which new agents come with unused ids, all results are those
    of the table, where a name is looked up among all agents. *)
Theorem registry_refines {AgentId SessionId Json : Type} `{Countable AgentId} (show_agent : AgentId → str)
    (ops : list (Op (AgentId := AgentId) (SessionId := SessionId) (Json := Json))) :
  all_fresh show_agent ∅ ops →
  (run show_agent new_registry ops).2 = (spec_run show_agent ∅ ops).2
  ∧ agents (run show_agent new_registry ops).1 = (spec_run show_agent ∅ ops).1.
Proof.
  intros Hf. destruct (run_refines show_agent new_registry ops (new_inv show_agent) Hf) as [E _].
  simpl in E. by rewrite E.
Qed.

(** The indexes are exact in every state the registry reaches: a name leads
    to an agent exactly if the agent has that name, and a tag lists an agent
    exactly if the agent carries it; so names are unique. *)
Theorem registry_indexes_exact {AgentId SessionId Json : Type} `{Countable AgentId} (show_agent : AgentId → str)
    (ops : list (Op (AgentId := AgentId) (SessionId := SessionId) (Json := Json))) :
  all_fresh show_agent ∅ ops →
  let r := (run show_agent new_registry ops).1 in
  (∀ n i, name_index r !! n = Some i ↔ ∃ e, agents r !! i = Some e ∧ name e = n)
  ∧ (∀ t i, i ∈ default [] (tag_index r !! t) ↔ ∃ e, agents r !! i = Some e ∧ t ∈ tags e)
  ∧ (∀ i j e e', agents r !! i = Some e → agents r !! j = Some e' → name e = name e' → i = j).
Proof.
  intros Hf r. destruct (run_refines show_agent new_registry ops (new_inv show_agent) Hf) as [_ [_ Hn Ht]].
  fold r in Hn, Ht. split_and!; [done|done|]. intros i j e e' Hi Hj Heq.
  assert (name_index r !! name e = Some i) as E1 by (apply Hn; eauto).
  assert (name_index r !! name e = Some j) as E2 by (apply Hn; rewrite Heq; eauto). congruence.
Qed.

Definition demo_entry (i : nat) (n : str) : AgentEntry (AgentId := nat) (SessionId := nat) (Json := nat) :=
  mkEntry i n (default_manifest (f64_lit 7 10)) Running default_mode 0 0 None [] 0 [lit "core"]
    default_identity false None.

Definition demo_ops : list (Op (AgentId := nat) (SessionId := nat) (Json := nat)) :=
  [ORegister (demo_entry 1 (lit "a")); ORegister (demo_entry 2 (lit "a"));
   ORegister (demo_entry 3 (lit "b")); ORename 1 (lit "c") 5; OFindByName (lit "a"); ORemove 3; OCount].

Lemma demo_fresh : all_fresh show_nat ∅ demo_ops.
Proof. vm_compute. auto 10. Qed.

Lemma registry_refines_witness :
  (run show_nat new_registry demo_ops).2 = (spec_run show_nat ∅ demo_ops).2.
Proof. apply (registry_refines show_nat demo_ops demo_fresh). Defined.

Lemma registry_indexes_exact_witness :
  name_index (run show_nat new_registry demo_ops).1 !! lit "c" = Some 1.
Proof.
  apply (registry_indexes_exact show_nat demo_ops demo_fresh).
  exists (renamed (lit "c") 5 (demo_entry 1 (lit "a"))). split; vm_compute; reflexivity.
Defined.
