(* ===== verification/AgentQuota.v ===== *)
(** * Token quotas

    [openfang-kernel/src/scheduler.rs]: the token usage of agents in hourly
    windows, checked before an agent runs and recorded after it has run
    ([send_message_with_handle] of the kernel). No lock is held in between, so
    the runs of an agent overlap: the check and the record of a run are two
    steps, and the steps of runs come in any order. Times are milliseconds of a
    clock that does not go back; token counts are [u64], and additions wrap as
    they do in a release build. *)

From Stdlib Require Import Ascii ZArith Lia.
From Stdlib Require Import SpecFloat.
From stdpp Require Import base gmap strings list sets.
From S2P Require Import Prelude Strs AgentTypes.

Record TokenUsage : Type := mkUsage { input_tokens : Z; output_tokens : Z }.

Definition total (u : TokenUsage) : Z := wrapping_add_u64 (input_tokens u) (output_tokens u).

Record UsageTracker : Type := mkTracker {
  total_tokens : Z;
  tool_calls : Z;
  window_start : Z
}.

Definition default_tracker (now : Z) : UsageTracker := mkTracker 0 0 now.

Definition WINDOW_MS : Z := 3600 * 1000.

Definition reset_if_expired (now : Z) (t : UsageTracker) : UsageTracker :=
  if (WINDOW_MS <=? now - window_start t)%Z then mkTracker 0 0 now else t.

Section Scheduler.
Context {AgentId : Type} `{Countable AgentId}.

(** Of the task handles only their presence matters. *)
Record AgentScheduler : Type := mkScheduler {
  quotas : gmap AgentId ResourceQuota;
  usage : gmap AgentId UsageTracker;
  tasks : gset AgentId
}.

Definition new_scheduler : AgentScheduler := mkScheduler ∅ ∅ ∅.

Definition register (s : AgentScheduler) (i : AgentId) (q : ResourceQuota) (now : Z) : AgentScheduler :=
  mkScheduler (<[ i := q ]> (quotas s)) (<[ i := default_tracker now ]> (usage s)) (tasks s).

Definition add_usage (now : Z) (u : TokenUsage) (t : UsageTracker) : UsageTracker :=
  let t := reset_if_expired now t in
  mkTracker (wrapping_add_u64 (total_tokens t) (total u)) (tool_calls t) (window_start t).

Definition record_usage (s : AgentScheduler) (i : AgentId) (u : TokenUsage) (now : Z) : AgentScheduler :=
  mkScheduler (quotas s) (alter (add_usage now u) i (usage s)) (tasks s).

Definition quota_error (used limit : Z) : str :=
  lit "Token limit exceeded: " ++ show_Z used ++ lit " / " ++ show_Z limit.

Definition check_quota (s : AgentScheduler) (i : AgentId) (now : Z) : AgentScheduler * result unit str :=
  match quotas s !! i with
  | None => (s, Ok tt)
  | Some q =>
      match usage s !! i with
      | None => (s, Ok tt)
      | Some t =>
          let t := reset_if_expired now t in
          (mkScheduler (quotas s) (<[ i := t ]> (usage s)) (tasks s),
           if (max_llm_tokens_per_hour q <? total_tokens t)%Z
           then Err (quota_error (total_tokens t) (max_llm_tokens_per_hour q)) else Ok tt)
      end
  end.

Definition abort_task (s : AgentScheduler) (i : AgentId) : AgentScheduler :=
  mkScheduler (quotas s) (usage s) (tasks s ∖ {[ i ]}).

Definition unregister (s : AgentScheduler) (i : AgentId) : AgentScheduler :=
  let s := abort_task s i in
  mkScheduler (delete i (quotas s)) (delete i (usage s)) (tasks s).

Definition get_usage (s : AgentScheduler) (i : AgentId) : option (Z * Z) :=
  (λ t, (total_tokens t, tool_calls t)) <$> usage s !! i.

(** ** Runs of agents *)

(** The steps of the messages to agents: one reads the quota and enters, if it
    is allowed; one of those that have entered ends, with usage or without. *)
Inductive RunStep : Type :=
| Enter (i : AgentId) (now : Z)
| Succeed (i : AgentId) (u : TokenUsage) (now : Z)
| Fails (i : AgentId) (now : Z).

(** The scheduler, and how many runs of each agent are under way. *)
Record Load : Type := mkLoad { sched : AgentScheduler; under_way : gmap AgentId nat }.

Definition flying (l : Load) (i : AgentId) : nat := default 0 (under_way l !! i).

(** A step, with the usage it records. *)
Definition run_step (l : Load) (o : RunStep) : Load * option (AgentId * Z * Z) :=
  match o with
  | Enter i now =>
      let '(s, allowed) := check_quota (sched l) i now in
      (mkLoad s match allowed with
                | Ok _ => <[i := S (flying l i)]> (under_way l)
                | Err _ => under_way l
                end, None)
  | Succeed i u now =>
      match flying l i with
      | 0 => (l, None)
      | S n => (mkLoad (record_usage (sched l) i u now) (<[i := n]> (under_way l)), Some (i, now, total u))
      end
  | Fails i now => (mkLoad (sched l) (<[i := flying l i - 1]> (under_way l)), None)
  end.

Definition run_all (l : Load) (os : list RunStep) : Load := foldl (λ l o, (run_step l o).1) l os.

(** The usage recorded for agent [i], with its times. *)
Fixpoint recorded (l : Load) (i : AgentId) (os : list RunStep) : list (Z * Z) :=
  match os with
  | [] => []
  | o :: os =>
      let '(l', used) := run_step l o in
      (match used with
       | Some (j, t, n) => if decide (j = i) then [(t, n)] else []
       | None => [] end) ++ recorded l' i os
  end.

Definition used_after (cut : Z) (log : list (Z * Z)) : Z :=
  foldr (λ p acc, if (cut <? p.1)%Z then p.2 + acc else acc)%Z 0%Z log.

Definition time_of (o : RunStep) : Z :=
  match o with Enter _ now | Succeed _ _ now | Fails _ now => now end.

(** The clock does not go back. *)
Fixpoint in_order (t : Z) (os : list RunStep) : Prop :=
  match os with
  | [] => True
  | o :: os => (t ≤ time_of o)%Z ∧ in_order (time_of o) os
  end.

Fixpoint end_of (t : Z) (os : list RunStep) : Z :=
  match os with [] => t | o :: os => end_of (time_of o) os end.

Definition sized (M : Z) (o : RunStep) : Prop :=
  match o with Succeed _ u _ => (0 ≤ total u ≤ M)%Z | _ => True end.

(** Never more than [K] runs of the agent at a time. *)
Definition overlap (K : nat) (l : Load) (i : AgentId) (os : list RunStep) : Prop :=
  ∀ os1, os1 `prefix_of` os → flying (run_all l os1) i ≤ K.

(** ** Windows *)

Lemma used_after_app cut l1 l2 :
  used_after cut (l1 ++ l2) = (used_after cut l1 + used_after cut l2)%Z.
Proof.
  induction l1 as [|[t n] l1 IH]; [done|]. simpl. destruct (cut <? t)%Z; rewrite IH; lia.
Qed.

Lemma used_after_mono c c' log :
  Forall (λ p, (0 ≤ p.2)%Z) log → (c ≤ c')%Z → (0 ≤ used_after c' log ≤ used_after c log)%Z.
Proof.
  intros Hpos Hc. induction Hpos as [|[t n] log Hn _ IH]; simpl in *; [lia|].
  destruct (Z.ltb_spec c' t), (Z.ltb_spec c t); lia.
Qed.

Lemma used_after_none cut log : Forall (λ p, (p.1 ≤ cut)%Z) log → used_after cut log = 0%Z.
Proof.
  induction 1 as [|[t n] log Ht _ IH]; [done|]. simpl in *. destruct (Z.ltb_spec cut t); lia.
Qed.

Section Window.
(** What a window can hold. *)
Context (W : Z) (HW : (0 ≤ W ≤ u64_max)%Z).

(** What a tracker knows about the usage recorded so far: its window holds all
    of it since the window began, and the window before held no more than a
    window can. *)
Record tracks (t : UsageTracker) (log : list (Z * Z)) (now : Z) : Prop := {
  tracks_total : (0 ≤ total_tokens t ≤ W)%Z;
  tracks_start : (window_start t ≤ now)%Z;
  tracks_past : Forall (λ p, (p.1 ≤ now)%Z ∧ (0 ≤ p.2)%Z) log;
  tracks_window : (used_after (window_start t) log ≤ total_tokens t)%Z;
  tracks_before : ∃ p, (p ≤ window_start t - WINDOW_MS)%Z
    ∧ (used_after p log ≤ W + total_tokens t)%Z
}.

Lemma tracks_later t log now n : tracks t log now → (now ≤ n)%Z → tracks t log n.
Proof.
  intros [? ? Hp ? ?] Hn. split; [done|lia| |done|done]. eapply Forall_impl; [done|]. simpl. lia.
Qed.

Lemma reset_tracks t log now n :
  tracks t log now → (now ≤ n)%Z → tracks (reset_if_expired n t) log n.
Proof.
  intros Ht Hn. unfold reset_if_expired. destruct (Z.leb_spec WINDOW_MS (n - window_start t)) as [He|];
    [|by eapply tracks_later]. destruct Ht as [H1 H2 Hp Hw _].
  split; simpl; [lia|lia| | |].
  - eapply Forall_impl; [done|]. simpl. lia.
  - rewrite used_after_none; [lia|]. eapply Forall_impl; [done|]. simpl. lia.
  - exists (window_start t). split; lia.
Qed.

Lemma reset_total n t : total_tokens (reset_if_expired n t) = total_tokens t ∨ total_tokens (reset_if_expired n t) = 0%Z.
Proof. unfold reset_if_expired. destruct (_ <=? _)%Z; simpl; auto. Qed.

Lemma add_tracks t log now n u :
  tracks t log now → (now ≤ n)%Z → (0 ≤ total u)%Z →
  (total_tokens (reset_if_expired n t) + total u ≤ W)%Z →
  tracks (add_usage n u t) (log ++ [(n, total u)]) n ∧
  total_tokens (add_usage n u t) = (total_tokens (reset_if_expired n t) + total u)%Z.
Proof.
  intros Ht Hn Hu Hfit. apply (reset_tracks _ _ _ n) in Ht; [|done].
  unfold add_usage. set (t1 := reset_if_expired n t) in *.
  destruct Ht as [H1 H2 Hp Hw (p & Hpw & Hpu)].
  assert (wrapping_add_u64 (total_tokens t1) (total u) = total_tokens t1 + total u)%Z as E
    by (unfold wrapping_add_u64; apply Z.mod_small; lia).
  assert (∀ c, used_after c [(n, total u)] ≤ total u)%Z as Hone
    by (intros c; simpl; destruct (c <? n)%Z; lia).
  split; [|done]. split; simpl; rewrite ?E, ?used_after_app.
  - lia.
  - done.
  - apply Forall_app; split; [done|]. repeat constructor; simpl; lia.
  - pose proof (Hone (window_start t1)). lia.
  - exists p. split; [done|]. rewrite used_after_app. pose proof (Hone p). lia.
Qed.

(** A tracker that tracks has seen at most twice the size of a window in the
    hour before now. *)
Lemma tracks_hour t log now T :
  tracks t log now → (now ≤ T)%Z → (used_after (T - WINDOW_MS) log ≤ 2 * W)%Z.
Proof.
  intros [H1 H2 Hp _ (p & Hpw & Hpu)] HT.
  assert (Forall (λ p, (0 ≤ p.2)%Z) log) as Hpos by (eapply Forall_impl; [done|]; simpl; lia).
  pose proof (used_after_mono p (T - WINDOW_MS) log Hpos). lia.
Qed.

End Window.

(** ** Runs keep track *)

Section Runs.
Context (i : AgentId) (L M : Z) (K : nat) (HL : (0 ≤ L)%Z) (HM : (0 ≤ M)%Z).

Definition capacity : Z := (L + Z.of_nat K * M)%Z.

Context (Hfit : (capacity ≤ u64_max)%Z).

(** The tracker of the agent, with room for all the runs under way. *)
Definition load_tracks (l : Load) (log : list (Z * Z)) (now : Z) : Prop :=
  ∃ q t, quotas (sched l) !! i = Some q ∧ max_llm_tokens_per_hour q = L ∧ usage (sched l) !! i = Some t
    ∧ tracks capacity t log now ∧ (total_tokens t + Z.of_nat (flying l i) * M ≤ capacity)%Z
    ∧ flying l i ≤ K.

Lemma capacity_ok : (0 ≤ capacity ≤ u64_max)%Z.
Proof. pose proof Hfit. unfold capacity in *. nia. Qed.

Lemma flying_insert l s j n : flying (mkLoad s (<[j := n]> (under_way l))) i = if decide (j = i) then n else flying l i.
Proof.
  unfold flying. cbn [under_way]. case_decide; subst; [by rewrite lookup_insert_eq|by rewrite lookup_insert_ne].
Qed.

Lemma check_other s j now :
  i ≠ j → quotas (check_quota s j now).1 !! i = quotas s !! i
  ∧ usage (check_quota s j now).1 !! i = usage s !! i.
Proof.
  intros Hne. unfold check_quota. destruct (quotas s !! j); [|done]. destruct (usage s !! j); [|done].
  simpl. by rewrite lookup_insert_ne by done.
Qed.

(** A reset makes room. *)
Lemma reset_room n t l :
  (0 ≤ total_tokens t)%Z → flying l i ≤ K → (total_tokens t + Z.of_nat (flying l i) * M ≤ capacity)%Z →
  (0 ≤ total_tokens (reset_if_expired n t) ∧ total_tokens (reset_if_expired n t) + Z.of_nat (flying l i) * M ≤ capacity)%Z.
Proof.
  intros Ht Hf Hr. destruct (reset_total n t) as [->| ->]; [done|]. unfold capacity in *. nia.
Qed.

Lemma enter_tracks l j n log now :
  (now ≤ n)%Z → flying (run_step l (Enter j n)).1 i ≤ K → load_tracks l log now →
  load_tracks (run_step l (Enter j n)).1 log n.
Proof.
  intros Hn Hf (q & t & Hq & HqL & Ht & Htr & Hroom & Hk). cbn [run_step] in *.
  destruct (decide (i = j)) as [<-|Hij].
  - pose proof (tracks_total _ _ _ _ Htr) as H0. unfold check_quota in *. rewrite Hq, Ht, HqL in *.
    apply (reset_tracks _ capacity_ok _ _ _ n) in Htr; [|done].
    destruct (reset_room n t l) as [Hr0 Hr]; [lia|done..|].
    destruct (Z.ltb_spec L (total_tokens (reset_if_expired n t))); cbn [fst] in *;
      exists q, (reset_if_expired n t); cbn [sched quotas usage]; rewrite lookup_insert_eq; split_and!; try done.
    rewrite flying_insert, decide_True in * by done. unfold capacity. nia.
  - destruct (check_other (sched l) j n Hij) as [Eq Eu].
    destruct (check_quota (sched l) j n) as [s' a]. cbn [fst] in *. exists q, t. cbn [sched]. rewrite Eq, Eu.
    assert (flying (mkLoad s' match a with Ok _ => <[j:=S (flying l j)]> (under_way l) | Err _ => under_way l end) i
            = flying l i) as ->.
    { destruct a; [|done]. by rewrite flying_insert, decide_False. }
    split_and!; [done..| |done|done]. by eapply tracks_later.
Qed.

Lemma succeed_tracks l j u n log now :
  (now ≤ n)%Z → (0 ≤ total u ≤ M)%Z → load_tracks l log now →
  load_tracks (run_step l (Succeed j u n)).1
    (log ++ match (run_step l (Succeed j u n)).2 with
            | Some (k, t, m) => if decide (k = i) then [(t, m)] else [] | None => [] end) n.
Proof.
  intros Hn Hu (q & t & Hq & HqL & Ht & Htr & Hroom & Hk). cbn [run_step].
  destruct (flying l j) as [|m] eqn:Ef; cbn [fst snd].
  { rewrite app_nil_r. exists q, t. split_and!; try done. by eapply tracks_later. }
  exists q. cbn [sched record_usage quotas usage]. rewrite flying_insert. destruct (decide (j = i)) as [->|Hij].
  - exists (add_usage n u t). rewrite lookup_alter_eq, Ht.
    destruct (reset_room n t l) as [Hr0 Hr]; [apply (tracks_total _ _ _ _ Htr)|done..|]. rewrite Ef in *.
    destruct (add_tracks _ capacity_ok _ _ _ n u Htr Hn) as [Htr' Ha]; [lia|nia|].
    split_and!; [done..| |lia]. rewrite Ha. nia.
  - exists t. rewrite lookup_alter_ne, app_nil_r by done. split_and!; try done. by eapply tracks_later.
Qed.

Lemma fail_tracks l j n log now :
  (now ≤ n)%Z → load_tracks l log now → load_tracks (run_step l (Fails j n)).1 log n.
Proof.
  intros Hn (q & t & Hq & HqL & Ht & Htr & Hroom & Hk). cbn [run_step fst].
  exists q, t. cbn [sched]. rewrite flying_insert.
  split_and!; [done..|by eapply tracks_later| |]; case_decide; subst; [nia|done|lia|done].
Qed.

Lemma runs_track l os log now :
  in_order now os → Forall (sized M) os → overlap K l i os → load_tracks l log now →
  ∃ l', load_tracks l' (log ++ recorded l i os) (end_of now os).
Proof.
  revert l log now. induction os as [|o os IH]; intros l log now Hord Hsz Hov Hl.
  { exists l. by rewrite app_nil_r. }
  destruct Hord as [Ho Hord]. apply Forall_cons in Hsz as [Hso Hsz]. cbn [recorded end_of].
  pose proof (Hov [o] ltac:(by exists os)) as Hf. cbn [run_all foldl] in Hf.
  assert (overlap K (run_step l o).1 i os) as Hov'.
  { intros os1 [os2 ->]. apply (Hov (o :: os1)). by exists os2. }
  destruct o as [j n|j u n|j n]; cbn [time_of] in *.
  - pose proof (enter_tracks l j n log now Ho Hf Hl) as Hl'. assert ((run_step l (Enter j n)).2 = None) as E
      by (cbn; by destruct (check_quota _ _ _)).
    destruct (run_step l (Enter j n)) as [l' used]. cbn [fst snd] in *. subst used. by apply IH.
  - pose proof (succeed_tracks l j u n log now Ho Hso Hl) as Hl'.
    destruct (run_step l (Succeed j u n)) as [l' used]. cbn [fst snd] in *. rewrite app_assoc. by apply IH.
  - apply (fail_tracks l j n log now Ho) in Hl. by apply IH.
Qed.
End Runs.
End Scheduler.

(** C36: The hourly quota bounds what an agent uses in every hour. Messages are
    sent to agents in any order and their runs overlap in any way; if at no
    time more than [K] runs of the agent are under way and no run uses more
    than [M] tokens, the tokens recorded for the agent in the hour before any
    moment [T] are at most twice the limit plus [K] times [M]: a run is let in
    while the limit is not exceeded, whatever the others under way will use,
    and an hour can lie across two windows. *)
Theorem hourly_quota_bound {AgentId : Type} `{Countable AgentId} (s : AgentScheduler (AgentId := AgentId))
    (i : AgentId) (q : ResourceQuota) (t0 M T : Z) (K : nat) (os : list RunStep) :
  let l := mkLoad (register s i q t0) ∅ in
  (0 ≤ max_llm_tokens_per_hour q)%Z → (0 ≤ M)%Z →
  (max_llm_tokens_per_hour q + Z.of_nat K * M ≤ u64_max)%Z →
  in_order t0 os → Forall (sized M) os → overlap K l i os → (end_of t0 os ≤ T)%Z →
  (used_after (T - WINDOW_MS) (recorded l i os) ≤ 2 * (max_llm_tokens_per_hour q + Z.of_nat K * M))%Z.
Proof.
  intros l HL HM Hfit Hord Hsz Hov HT.
  assert (load_tracks i (max_llm_tokens_per_hour q) M K l [] t0) as H0.
  { exists q, (default_tracker t0). cbn. rewrite !lookup_insert_eq. unfold flying, capacity. cbn.
    rewrite lookup_empty. cbn. split_and!; try done; [|nia|lia].
    split; cbn; [nia|lia|done|lia|]. exists (t0 - WINDOW_MS)%Z. split; nia. }
  eapply runs_track in H0 as (l' & q' & t & _ & _ & _ & Htr & _); [|done..].
  cbn [app] in Htr. by eapply tracks_hour.
Qed.

Definition demo_quota : ResourceQuota := mkQuota 0 0 0 100 0 (S754_zero false) (S754_zero false) (S754_zero false).

(** Around the end of the first window: in each window a run of 100 tokens,
    then two more that overlap. *)
Definition demo_window (t : Z) : list (RunStep (AgentId := nat)) :=
  let u := mkUsage 60 40 in
  [Enter 7 t; Succeed 7 u t; Enter 7 t; Enter 7 t; Succeed 7 u t; Succeed 7 u t; Enter 7 t].

Definition demo_runs : list (RunStep (AgentId := nat)) := demo_window 3599999 ++ demo_window 3600000.

Abbreviation demo_load := (mkLoad (register new_scheduler 7%nat demo_quota 0) ∅).

Lemma demo_overlap : overlap 2 demo_load 7%nat demo_runs.
Proof.
  assert (Forall (λ k, flying (run_all demo_load (take k demo_runs)) 7%nat ≤ 2) (seq 0 15)) as Hall
    by (apply (bool_decide_unpack _); vm_compute; exact I).
  intros os1 [k Hk].
  assert (length os1 < 15) by (apply (f_equal length) in Hk; rewrite length_app in Hk; cbn in Hk; lia).
  assert (os1 = take (length os1) demo_runs) as -> by (by rewrite Hk, take_app_length).
  rewrite Forall_forall in Hall. apply Hall, elem_of_seq. lia.
Qed.

Lemma hourly_quota_bound_witness :
  (used_after (3600002 - WINDOW_MS) (recorded demo_load 7%nat demo_runs)
   ≤ 2 * (max_llm_tokens_per_hour demo_quota + 2 * 100))%Z.
Proof.
  apply (hourly_quota_bound new_scheduler 7%nat demo_quota 0 100 3600002 2 demo_runs).
  - vm_compute; congruence.
  - lia.
  - vm_compute; congruence.
  - vm_compute; intuition congruence.
  - repeat constructor; vm_compute; congruence.
  - exact demo_overlap.
  - vm_compute; congruence.
Defined.

(** The bound is reached: six times the limit within a millisecond. *)
Example hourly_quota_tight :
  used_after (3600002 - WINDOW_MS) (recorded demo_load 7%nat demo_runs) = 600%Z.
Proof. vm_compute. reflexivity. Qed.
