(* ===== verification/ToolPolicy.v ===== *)
(** * Tool access policy

    [openfang-runtime/src/tool_policy.rs]: deny-wins resolution of a tool name
    against agent rules, global rules and tool groups, the glob matcher the
    rules use, and the depth restrictions of subagents. A [u32] depth is a
    [Z]; only comparisons and one [saturating_sub] are applied to it. *)

From Stdlib Require Import Ascii ZArith Lia.
From stdpp Require Import base gmap strings list.
From S2P Require Import Prelude Strs.

Inductive PolicyEffect : Type :=
| Allow
| Deny.

#[export] Instance policy_effect_eq_dec : EqDecision PolicyEffect.
Proof. solve_decision. Defined.

Record ToolPolicyRule : Type := mkRule {
  pattern : str;
  effect : PolicyEffect
}.

Record ToolGroup : Type := mkGroup {
  group_name : str;
  group_tools : list str
}.

Record ToolPolicy : Type := mkPolicy {
  agent_rules : list ToolPolicyRule;
  global_rules : list ToolPolicyRule;
  groups : list ToolGroup;
  subagent_max_depth : Z;
  subagent_max_concurrent : Z
}.

Definition policy_is_empty (p : ToolPolicy) : bool :=
  match agent_rules p, global_rules p with [], [] => true | _, _ => false end.

Inductive ToolAccessResult : Type :=
| Allowed
| Denied (rule_pattern source : str)
| DepthExceeded (current max : Z).

(** ** Glob matching *)

(** The loop over the parts of a pattern with two stars or more; [n] is
    [parts.len()] and [i] the position of the head of [parts]. *)
Fixpoint glob_loop (n i : nat) (parts : list str) (pos : nat) (text : str) : bool :=
  match parts with
  | [] => true
  | part :: rest =>
      if is_empty part then glob_loop n (S i) rest pos text
      else if i =? 0 then
        if starts_with text part then glob_loop n (S i) rest (length part) text else false
      else if i =? n - 1 then
        if ends_with (drop pos text) part then glob_loop n (S i) rest pos text else false
      else
        match find (drop pos text) part with
        | Some found => glob_loop n (S i) rest (pos + found + length part) text
        | None => false
        end
  end.

Definition glob_match (pattern text : str) : bool :=
  if str_eqb pattern (lit "*") then true
  else if negb (contains pattern (lit "*")) then str_eqb pattern text
  else
    let parts := split pattern star in
    match parts with
    | [prefix; suffix] =>
        starts_with text prefix && ends_with text suffix
          && (length prefix + length suffix <=? length text)
    | _ => glob_loop (length parts) 0 parts 0 text
    end.

(** ** Resolution *)

Definition is_subagent_tool (name : str) : bool :=
  str_eqb name (lit "agent_spawn") || str_eqb name (lit "agent_call")
    || str_eqb name (lit "spawn_agent").

Definition expand_group (tool_name : str) (g : ToolGroup) : list str :=
  omap (λ pat, if glob_match pat tool_name then Some (lit "@" ++ group_name g) else None)
    (group_tools g).

Definition expand_groups (tool_name : str) (groups : list ToolGroup) : list str :=
  tool_name :: (groups ≫= expand_group tool_name).

Definition matches_pattern (pattern tool_name : str) (expanded : list str) : bool :=
  if glob_match pattern tool_name then true
  else if starts_with pattern (lit "@") then existsb (λ e, str_eqb e pattern) expanded
  else false.

(** The first rule with the given effect that matches. *)
Fixpoint first_match (eff : PolicyEffect) (rules : list ToolPolicyRule) (tool_name : str)
    (expanded : list str) : option ToolPolicyRule :=
  match rules with
  | [] => None
  | r :: rs =>
      if bool_decide (effect r = eff) && matches_pattern (pattern r) tool_name expanded
      then Some r else first_match eff rs tool_name expanded
  end.

Definition has_effect (eff : PolicyEffect) (rules : list ToolPolicyRule) : bool :=
  existsb (λ r, bool_decide (effect r = eff)) rules.

Definition resolve_tool_access (tool_name : str) (policy : ToolPolicy) (depth : Z)
    : ToolAccessResult :=
  if is_subagent_tool tool_name && (subagent_max_depth policy <? depth)%Z
  then DepthExceeded depth (subagent_max_depth policy)
  else
    let expanded := expand_groups tool_name (groups policy) in
    match first_match Deny (agent_rules policy) tool_name expanded with
    | Some r => Denied (pattern r) (lit "agent")
    | None =>
        match first_match Deny (global_rules policy) tool_name expanded with
        | Some r => Denied (pattern r) (lit "global")
        | None =>
            if has_effect Allow (agent_rules policy) || has_effect Allow (global_rules policy)
            then
              let agent_allows :=
                existsb (λ r, bool_decide (effect r = Allow)
                              && matches_pattern (pattern r) tool_name expanded)
                  (agent_rules policy) in
              let global_allows :=
                existsb (λ r, bool_decide (effect r = Allow)
                              && matches_pattern (pattern r) tool_name expanded)
                  (global_rules policy) in
              if agent_allows || global_allows then Allowed
              else Denied (lit "(not in any allow list)") (lit "implicit_deny")
            else Allowed
        end
    end.

(** ** Depth restrictions *)

Definition SUBAGENT_DENY_ALWAYS : list str :=
  [ lit "cron_create"; lit "cron_cancel"; lit "schedule_create"; lit "schedule_delete";
    lit "hand_activate"; lit "hand_deactivate"; lit "process_start" ].

Definition SUBAGENT_DENY_LEAF : list str := [ lit "agent_spawn"; lit "agent_kill" ].

Definition depth_allows (is_leaf : bool) (n : str) : bool :=
  if bool_decide (n ∈ SUBAGENT_DENY_ALWAYS) then false
  else if is_leaf && bool_decide (n ∈ SUBAGENT_DENY_LEAF) then false
  else true.

Definition filter_tools_by_depth (tools : list str) (depth max_depth : Z) : list str :=
  if (depth =? 0)%Z then tools
  else
    let is_leaf := (0 <? max_depth)%Z && (saturating_sub max_depth 1 <=? depth)%Z in
    List.filter (depth_allows is_leaf) tools.

(** ** The matcher is the glob relation *)

Lemma find_rest p ps v :
  rest_matches (p :: ps) v → ps ≠ [] →
  ∃ n, find v p = Some n ∧ rest_matches ps (drop (n + length p) v).
Proof.
  intros H Hps. destruct ps as [|q ps]; [done|].
  destruct H as (t & u & -> & Hu). destruct (find_leftmost _ p t u eq_refl) as (n & Hn & Hle).
  exists n. split; [done|].
  assert (∃ w, drop (n + length p) (t ++ p ++ u) = w ++ u) as [w ->];
    [|by apply rest_matches_prepend].
  exists (drop (n + length p) (t ++ p)). rewrite app_assoc, drop_app_le; [done|].
  rewrite length_app. lia.
Qed.

(** From the second part on, the loop decides [rest_matches] of what is left
    of the text. *)
Lemma glob_loop_rest n i parts pos text :
  parts ≠ [] → i ≠ 0 → i + length parts = n →
  glob_loop n i parts pos text = true ↔ rest_matches parts (drop pos text).
Proof.
  revert i pos. induction parts as [|p ps IH]; intros i pos Hne Hi Hn; [done|].
  cbn [glob_loop]. rewrite (proj2 (Nat.eqb_neq i 0) Hi).
  destruct ps as [|q ps].
  - assert ((i =? n - 1) = true) as -> by (apply Nat.eqb_eq; simpl in Hn; lia).
    destruct p as [|c p]; simpl.
    + split; [|done]. intros _. exists (drop pos text). by rewrite app_nil_r.
    + rewrite <-ends_with_spec. by destruct (ends_with _ _).
  - assert ((i =? n - 1) = false) as -> by (apply Nat.eqb_neq; simpl in Hn; lia).
    assert (∀ pos', glob_loop n (S i) (q :: ps) pos' text = true ↔
                    rest_matches (q :: ps) (drop pos' text)) as Hrec.
    { intros pos'. apply IH; [done|lia|simpl in *; lia]. }
    destruct p as [|c p]; cbn [is_empty].
    + rewrite Hrec. split.
      * intros H. exists [], (drop pos text). done.
      * intros (t & u & -> & H). by apply rest_matches_prepend.
    + split.
      * destruct (find _ _) as [f|] eqn:Hf; [|done]. rewrite Hrec. intros H.
        apply find_Some in Hf as (a & b & Hd & <-). exists a, b. split; [done|].
        replace (pos + length a + length (c :: p)) with (length (a ++ c :: p) + pos) in H
          by (rewrite length_app; lia).
        by rewrite Nat.add_comm, <-drop_drop, Hd, app_assoc, drop_app_length in H.
      * intros H. apply find_rest in H as (f & -> & H); [|done].
        rewrite Hrec. by rewrite <-Nat.add_assoc, <-drop_drop.
Qed.

Lemma glob_match_glob pat text : glob_match pat text = true ↔ glob pat text.
Proof.
  unfold glob_match. destruct (str_eqb pat (lit "*")) eqn:Estar.
  { apply str_eqb_spec in Estar as ->. split; [|done]. intros _. apply glob_any. }
  destruct (contains pat (lit "*")) eqn:Ec; simpl.
  - rewrite glob_parts. pose proof (split_not_nil pat star).
    destruct (split pat star) as [|a [|b [|c ps]]] eqn:Es; [done| | |].
    + exfalso. apply contains_spec in Ec as (x & y & ->).
      pose proof (split_no_sep (x ++ lit "*" ++ y) star) as Hall.
      pose proof (join_split (x ++ lit "*" ++ y) star) as Hj. rewrite Es in Hall, Hj.
      apply Forall_cons in Hall as [Hall _]. simpl in Hj. rewrite Hj in Hall.
      apply Hall, elem_of_app. right. apply list_elem_of_here.
    + simpl. rewrite !andb_true_iff, Nat.leb_le. split.
      * intros [[Hu Ht] Hlen].
        destruct (prefix_suffix_middle a b text Hu Ht Hlen) as [t ->]. eauto.
      * intros (u & -> & t & ->). rewrite starts_with_spec, ends_with_spec. split; [split|].
        -- eauto.
        -- exists (a ++ t). by rewrite app_assoc.
        -- rewrite !length_app. lia.
    + change (parts_match (a :: b :: c :: ps) text) with
        (∃ u, text = a ++ u ∧ rest_matches (b :: c :: ps) u).
      assert (b :: c :: ps ≠ []) as Hrest by done. remember (b :: c :: ps) as rest eqn:Er.
      assert (∀ pos, glob_loop (length (a :: rest)) 1 rest pos text = true ↔
                     rest_matches rest (drop pos text)) as Hloop
        by (intros; by apply glob_loop_rest).
      cbn [glob_loop Nat.eqb]. destruct a as [|x a]; cbn [is_empty].
      * rewrite Hloop, drop_0. split; [eauto|]. by intros (u & -> & ?).
      * destruct (starts_with text (x :: a)) eqn:Ew.
        -- apply starts_with_spec in Ew as [u ->].
           rewrite Hloop, drop_app_length.
           split; [eauto|]. intros (u' & Hu & Hm). by simplify_list_eq.
        -- split; [done|]. intros (u & -> & _). exfalso.
           rewrite (proj2 (starts_with_spec _ _)) in Ew by eauto. done.
  - rewrite str_eqb_spec, glob_exact; [done|]. intros Hin. apply list_elem_of_split in Hin as (x & y & ->).
    assert (contains (x ++ star :: y) (lit "*") = true) by (apply contains_spec; by exists x, y).
    congruence.
Qed.

(** ** Theorems *)

(** C39: The glob matcher of the tool policy decides the glob relation: ['*']
    matches any text and everything else matches itself, for every pattern,
    the greedy search included. *)
Theorem glob_match_correct pat text : glob_match pat text = true ↔ glob pat text.
Proof. apply glob_match_glob. Qed.

(** A rule applies to a tool: its pattern matches the name, or names a group
    (with [@]) one of whose patterns does. *)
Definition rule_applies (policy : ToolPolicy) (tool_name : str) (r : ToolPolicyRule) : Prop :=
  glob (pattern r) tool_name ∨
  ∃ g pat, g ∈ groups policy ∧ pat ∈ group_tools g ∧ glob pat tool_name ∧
           pattern r = lit "@" ++ group_name g.

Lemma elem_of_expand_groups tool_name gs e :
  e ∈ expand_groups tool_name gs ↔
  e = tool_name ∨ ∃ g pat, g ∈ gs ∧ pat ∈ group_tools g ∧ glob pat tool_name ∧
                           e = lit "@" ++ group_name g.
Proof.
  unfold expand_groups. rewrite elem_of_cons, list_elem_of_bind. unfold expand_group.
  setoid_rewrite list_elem_of_omap. split; (intros [?|H]; [by left|right]).
  - destruct H as (g & (pat & Hpat & He) & Hg).
    destruct (glob_match pat tool_name) eqn:E; [|done]. simplify_eq.
    apply glob_match_glob in E. eauto 10.
  - destruct H as (g & pat & Hg & Hpat & Hm & ->). exists g. split; [|done]. exists pat.
    split; [done|]. by rewrite (proj2 (glob_match_glob _ _) Hm).
Qed.

Lemma existsb_exists {A} (f : A → bool) l : existsb f l = true ↔ ∃ x, x ∈ l ∧ f x = true.
Proof. rewrite List.existsb_exists. by setoid_rewrite list_elem_of_In. Qed.

Lemma matches_pattern_applies policy tool_name r :
  matches_pattern (pattern r) tool_name (expand_groups tool_name (groups policy)) = true ↔
  rule_applies policy tool_name r.
Proof.
  unfold matches_pattern, rule_applies.
  destruct (glob_match (pattern r) tool_name) eqn:E.
  { apply glob_match_glob in E. tauto. }
  assert (¬ glob (pattern r) tool_name) as Hno by (rewrite <-glob_match_glob; congruence).
  destruct (starts_with (pattern r) (lit "@")) eqn:Ew.
  - rewrite existsb_exists. setoid_rewrite elem_of_expand_groups. setoid_rewrite str_eqb_spec.
    split.
    + intros (e & [->|?] & Heq); [|subst e; by right].
      exfalso. apply Hno. rewrite <-Heq. apply glob_refl.
    + intros [?|?]; [done|]. eauto.
  - split; [done|]. intros [?|(g & pat & _ & _ & _ & Hg)]; [done|].
    assert (starts_with (pattern r) (lit "@") = true) by (apply starts_with_spec; eauto).
    congruence.
Qed.

Lemma first_match_Some eff rules tool_name expanded r :
  first_match eff rules tool_name expanded = Some r →
  r ∈ rules ∧ effect r = eff ∧ matches_pattern (pattern r) tool_name expanded = true.
Proof.
  induction rules as [|r' rules IH]; [done|]. simpl. destruct (_ && _) eqn:E.
  - intros [= <-]. apply andb_true_iff in E as [?%bool_decide_eq_true ?]. set_solver.
  - intros (? & ? & ?)%IH. set_solver.
Qed.

Lemma first_match_None eff rules tool_name expanded :
  first_match eff rules tool_name expanded = None →
  ∀ r, r ∈ rules → effect r = eff → matches_pattern (pattern r) tool_name expanded = false.
Proof.
  induction rules as [|r' rules IH]; intros H r Hr Heff; [set_solver|]. simpl in H.
  destruct (_ && _) eqn:E; [done|]. apply elem_of_cons in Hr as [->|Hr]; [|by apply IH].
  rewrite bool_decide_eq_true_2 in E by done. done.
Qed.

Definition rule_of (policy : ToolPolicy) (r : ToolPolicyRule) : Prop :=
  r ∈ agent_rules policy ∨ r ∈ global_rules policy.

Lemma existsb_allow (f : ToolPolicyRule → bool) policy :
  (existsb (λ r, bool_decide (effect r = Allow) && f r) (agent_rules policy)
     || existsb (λ r, bool_decide (effect r = Allow) && f r) (global_rules policy)) = true ↔
  ∃ r, rule_of policy r ∧ effect r = Allow ∧ f r = true.
Proof.
  rewrite orb_true_iff, !existsb_exists. setoid_rewrite andb_true_iff.
  setoid_rewrite bool_decide_eq_true. unfold rule_of. naive_solver.
Qed.

Lemma has_effect_allow policy :
  (has_effect Allow (agent_rules policy) || has_effect Allow (global_rules policy)) = true ↔
  ∃ r, rule_of policy r ∧ effect r = Allow.
Proof.
  unfold has_effect. rewrite orb_true_iff, !existsb_exists. setoid_rewrite bool_decide_eq_true.
  unfold rule_of. naive_solver.
Qed.

(** C17: A tool is allowed exactly when the depth limit does not stop it, no
    deny rule applies to it, agent-level or global, and, if there is any allow
    rule, some allow rule applies to it: deny wins over allow at every level. *)
Theorem resolve_allowed_iff tool_name policy depth :
  resolve_tool_access tool_name policy depth = Allowed ↔
  ¬ (is_subagent_tool tool_name = true ∧ (subagent_max_depth policy < depth)%Z) ∧
  (∀ r, rule_of policy r → effect r = Deny → ¬ rule_applies policy tool_name r) ∧
  ((∃ r, rule_of policy r ∧ effect r = Allow) →
   ∃ r, rule_of policy r ∧ effect r = Allow ∧ rule_applies policy tool_name r).
Proof.
  unfold resolve_tool_access.
  destruct (is_subagent_tool tool_name && _) eqn:Ed.
  { apply andb_true_iff in Ed as [? ?%Z.ltb_lt]. naive_solver. }
  assert (¬ (is_subagent_tool tool_name = true ∧ (subagent_max_depth policy < depth)%Z)) as Hd.
  { intros [H1 H2%Z.ltb_lt]. by rewrite H1, H2 in Ed. }
  setoid_rewrite <-matches_pattern_applies.
  set (expanded := expand_groups tool_name (groups policy)).
  destruct (first_match Deny (agent_rules policy) tool_name expanded) as [r|] eqn:Ea.
  { apply first_match_Some in Ea as (Hr & He & Hm). split; [done|]. intros (_ & H & _).
    exfalso. eapply H; [by left|done|done]. }
  destruct (first_match Deny (global_rules policy) tool_name expanded) as [r|] eqn:Eg.
  { apply first_match_Some in Eg as (Hr & He & Hm). split; [done|]. intros (_ & H & _).
    exfalso. eapply H; [by right|done|done]. }
  assert (∀ r, rule_of policy r → effect r = Deny →
    ¬ matches_pattern (pattern r) tool_name expanded = true) as Hdeny.
  { intros r [Hr|Hr] He.
    - by rewrite (first_match_None _ _ _ _ Ea r Hr He).
    - by rewrite (first_match_None _ _ _ _ Eg r Hr He). }
  destruct (has_effect Allow (agent_rules policy) || has_effect Allow (global_rules policy)) eqn:Eh.
  - apply has_effect_allow in Eh. destruct (existsb _ _ || existsb _ _) eqn:Ex.
    + apply (existsb_allow (λ r, matches_pattern (pattern r) tool_name expanded)) in Ex. tauto.
    + split; [done|]. intros (_ & _ & H). specialize (H Eh).
      apply (existsb_allow (λ r, matches_pattern (pattern r) tool_name expanded)) in H. congruence.
  - split; [|done]. intros _. split; [done|]. split; [done|].
    intros H%has_effect_allow. congruence.
Qed.

(** A subagent is never offered an administration tool, a leaf subagent
    is never offered a tool that spawns or kills agents, and no tool appears
    that was not in the list. *)
Theorem subagent_tools_restricted tools depth max_depth n :
  (0 < depth)%Z → n ∈ filter_tools_by_depth tools depth max_depth →
  n ∈ tools ∧ n ∉ SUBAGENT_DENY_ALWAYS ∧
  ((0 < max_depth)%Z → (max_depth - 1 ≤ depth)%Z → n ∉ SUBAGENT_DENY_LEAF).
Proof.
  intros Hd. unfold filter_tools_by_depth. rewrite (proj2 (Z.eqb_neq depth 0)) by lia.
  rewrite elem_of_List_filter. intros [Hin Hok]. split; [done|].
  unfold depth_allows in Hok. case_bool_decide as Ha; [done|]. split; [done|].
  intros Hm Hl Hleaf. unfold saturating_sub in Hok.
  rewrite (proj2 (Z.ltb_lt _ _) Hm), (proj2 (Z.leb_le _ _)) in Hok by lia.
  by rewrite bool_decide_eq_true_2 in Hok.
Qed.

Lemma subagent_tools_restricted_witness :
  lit "web_search" ∈ [lit "cron_create"; lit "agent_kill"; lit "web_search"] ∧
  lit "web_search" ∉ SUBAGENT_DENY_ALWAYS ∧
  ((0 < 2)%Z → (2 - 1 ≤ 1)%Z → lit "web_search" ∉ SUBAGENT_DENY_LEAF).
Proof.
  apply (subagent_tools_restricted _ 1 2); [lia|].
  apply list_elem_of_lookup. exists 0. vm_compute. reflexivity.
Defined.
