(* ===== verification/Capability.v ===== *)
(** * Capability-based security

    [openfang-types/src/capability.rs] and
    [openfang-kernel/src/capabilities.rs]: the capabilities an agent can be
    granted, when a granted capability covers a required one, the check that a
    child agent asks for no more than its parent has, and the manager that
    keeps the grants.

    Dollar amounts are [f64], here the IEEE 754 values of [SpecFloat] with
    their comparison. Agent ids and the [Display] and [Debug] texts that go
    into messages are parameters. *)

From Stdlib Require Import Ascii ZArith Lia.
From Stdlib Require Import SpecFloat.
From stdpp Require Import base gmap strings list.
From S2P Require Import Prelude Strs Floats.

Inductive Capability : Type :=
| FileRead (pattern : str)
| FileWrite (pattern : str)
| NetConnect (pattern : str)
| NetListen (port : Z)
| ToolInvoke (id : str)
| ToolAll
| LlmQuery (pattern : str)
| LlmMaxTokens (max : Z)
| AgentSpawn
| AgentMessage (pattern : str)
| AgentKill (pattern : str)
| MemoryRead (pattern : str)
| MemoryWrite (pattern : str)
| ShellExec (pattern : str)
| EnvRead (pattern : str)
| OfpDiscover
| OfpConnect (pattern : str)
| OfpAdvertise
| EconSpend (amount : spec_float)
| EconEarn
| EconTransfer (pattern : str).

Inductive CapabilityCheck : Type :=
| Granted
| Denied (reason : str).

Definition is_granted (c : CapabilityCheck) : bool :=
  match c with Granted => true | Denied _ => false end.

(** [OpenFangError::CapabilityDenied] is the only error [require] returns; its
    payload is the reason. *)
Definition require (c : CapabilityCheck) : result unit str :=
  match c with Granted => Ok tt | Denied reason => Err reason end.

(** ** Matching *)

Definition glob_matches (pattern value : str) : bool :=
  if str_eqb pattern (lit "*") then true
  else if str_eqb pattern value then true
  else match strip_prefix_char pattern star with
  | Some suffix => ends_with value suffix
  | None =>
  match strip_suffix_char pattern star with
  | Some prefix => starts_with value prefix
  | None =>
  match find pattern [star] with
  | Some star_pos =>
      let prefix := take star_pos pattern in
      let suffix := drop (star_pos + 1) pattern in
      starts_with value prefix && ends_with value suffix
        && (length prefix + length suffix <=? length value)
  | None => false
  end end end.

Definition capability_matches (granted required : Capability) : bool :=
  match granted, required with
  | ToolAll, ToolInvoke _ => true
  | FileRead pattern, FileRead path => glob_matches pattern path
  | FileWrite pattern, FileWrite path => glob_matches pattern path
  | NetConnect pattern, NetConnect host => glob_matches pattern host
  | ToolInvoke granted_id, ToolInvoke required_id =>
      str_eqb granted_id required_id || str_eqb granted_id (lit "*")
  | LlmQuery pattern, LlmQuery model => glob_matches pattern model
  | AgentMessage pattern, AgentMessage target => glob_matches pattern target
  | AgentKill pattern, AgentKill target => glob_matches pattern target
  | MemoryRead pattern, MemoryRead scope => glob_matches pattern scope
  | MemoryWrite pattern, MemoryWrite scope => glob_matches pattern scope
  | ShellExec pattern, ShellExec cmd => glob_matches pattern cmd
  | EnvRead pattern, EnvRead var => glob_matches pattern var
  | OfpConnect pattern, OfpConnect peer => glob_matches pattern peer
  | EconTransfer pattern, EconTransfer target => glob_matches pattern target
  | AgentSpawn, AgentSpawn => true
  | OfpDiscover, OfpDiscover => true
  | OfpAdvertise, OfpAdvertise => true
  | EconEarn, EconEarn => true
  | NetListen granted_port, NetListen required_port => (granted_port =? required_port)%Z
  | LlmMaxTokens granted_max, LlmMaxTokens required_max => (required_max <=? granted_max)%Z
  | EconSpend granted_max, EconSpend required_amount => SFleb required_amount granted_max
  | _, _ => false
  end.

Section formatting.
Context (debug_capability : Capability → str).

Fixpoint validate_capability_inheritance (parent_caps child_caps : list Capability)
    : result unit str :=
  match child_caps with
  | [] => Ok tt
  | child_cap :: rest =>
      let is_covered := existsb (λ p, capability_matches p child_cap) parent_caps in
      if negb is_covered
      then Err (lit "Privilege escalation denied: child requests " ++ debug_capability child_cap
                ++ lit " but parent does not have a matching grant")
      else validate_capability_inheritance parent_caps rest
  end.

(** ** The manager *)

Context {AgentId : Type} `{Countable AgentId} (show_agent : AgentId → str).

Record CapabilityManager : Type := mkManager {
  grants : gmap AgentId (list Capability)
}.

Definition new_manager : CapabilityManager := mkManager ∅.

Definition grant (m : CapabilityManager) (agent_id : AgentId) (capabilities : list Capability)
    : CapabilityManager :=
  mkManager (<[agent_id := capabilities]> (grants m)).

Definition check (m : CapabilityManager) (agent_id : AgentId) (required : Capability)
    : CapabilityCheck :=
  match grants m !! agent_id with
  | None => Denied (lit "No capabilities registered for agent " ++ show_agent agent_id)
  | Some gs =>
      if existsb (λ granted, capability_matches granted required) gs
      then Granted
      else Denied (lit "Agent " ++ show_agent agent_id ++ lit " does not have capability: "
                   ++ debug_capability required)
  end.

Definition list_capabilities (m : CapabilityManager) (agent_id : AgentId) : list Capability :=
  default [] (grants m !! agent_id).

Definition revoke_all (m : CapabilityManager) (agent_id : AgentId) : CapabilityManager :=
  mkManager (delete agent_id (grants m)).

(** ** The matcher and the glob relation *)

Definition stars (p : str) : nat := length (List.filter (λ c, bool_decide (c = star)) p).

(** A pattern with at most one star. *)
Definition simple_pattern (p : str) : Prop := stars p ≤ 1.

Lemma strip_suffix_char_Some s c s' : strip_suffix_char s c = Some s' ↔ s = s' ++ [c].
Proof.
  unfold strip_suffix_char. destruct s as [|d s _] using rev_ind.
  { simpl. split; [done|]. intros E. by destruct s'. }
  rewrite last_snoc. rewrite length_app. simpl. rewrite Nat.add_sub, take_app_length.
  case_decide as Hd; [subst d|]; split.
  - by intros [= ->].
  - by intros [-> _]%app_inj_tail.
  - done.
  - by intros [_ ?]%app_inj_tail.
Qed.

Lemma strip_prefix_char_Some s c s' : strip_prefix_char s c = Some s' ↔ s = c :: s'.
Proof. unfold strip_prefix_char. destruct s; [done|]. case_decide; naive_solver. Qed.

Lemma stars_zero p : stars p = 0 → star ∉ p.
Proof.
  unfold stars. induction p as [|c p IH]; [set_solver|]. simpl. case_bool_decide; simpl; [lia|].
  intros ?%IH. set_solver.
Qed.

Lemma simple_pattern_cases p :
  simple_pattern p → (star ∉ p) ∨ ∃ a b, p = a ++ star :: b ∧ (star ∉ a) ∧ (star ∉ b).
Proof.
  unfold simple_pattern. induction p as [|c p IH]; [left; set_solver|].
  unfold stars in *. simpl. case_bool_decide as Hc; simpl; intros Hle.
  - right. exists [], p. subst c. split; [done|]. split; [set_solver|].
    apply stars_zero. unfold stars. lia.
  - destruct (IH Hle) as [?|(a & b & -> & ? & ?)]; [left; set_solver|right].
    exists (c :: a), b. split; [done|]. split; [set_solver|done].
Qed.

Lemma glob_matches_sound p v : glob_matches p v = true → glob p v.
Proof.
  unfold glob_matches. destruct (str_eqb p (lit "*")) eqn:E1.
  { apply str_eqb_spec in E1 as ->. intros _. apply glob_any. }
  destruct (str_eqb p v) eqn:E2.
  { apply str_eqb_spec in E2 as ->. intros _. apply glob_refl. }
  destruct (strip_prefix_char p star) as [s|] eqn:E3.
  { apply strip_prefix_char_Some in E3 as ->. intros [t ->]%ends_with_spec.
    apply glob_star_skip. constructor. apply glob_refl. }
  destruct (strip_suffix_char p star) as [s|] eqn:E4.
  { apply strip_suffix_char_Some in E4 as ->. intros [t ->]%starts_with_spec.
    apply glob_app; [apply glob_refl|apply glob_any]. }
  destruct (find p [star]) as [n|] eqn:E5; [|done].
  apply find_Some in E5 as (a & b & -> & <-).
  rewrite take_app_length, Nat.add_1_r.
  replace (drop (S (length a)) (a ++ [star] ++ b)) with b
    by (rewrite app_assoc, drop_app_length'; [done|rewrite length_app; simpl; lia]).
  rewrite !andb_true_iff, Nat.leb_le. intros [[Hs He] Hl].
  destruct (prefix_suffix_middle a b v Hs He Hl) as [t ->].
  apply glob_app; [apply glob_refl|]. simpl. apply glob_star_skip. constructor. apply glob_refl.
Qed.

Lemma glob_matches_complete p v : simple_pattern p → glob p v → glob_matches p v = true.
Proof.
  intros [Hp|(a & b & -> & Ha & Hb)]%simple_pattern_cases; unfold glob_matches.
  - rewrite glob_exact by done. intros ->. rewrite (proj2 (str_eqb_spec p p)) by done.
    by destruct (str_eqb p (lit "*")).
  - rewrite glob_literal by done. setoid_rewrite glob_star_split. setoid_rewrite glob_exact; [|done].
    intros (u & -> & t & b' & -> & ->).
    destruct (str_eqb (a ++ star :: b) (lit "*")); [done|].
    destruct (str_eqb (a ++ star :: b) _); [done|].
    destruct (strip_prefix_char (a ++ star :: b) star) as [s|] eqn:E3.
    { apply strip_prefix_char_Some in E3. destruct a as [|x a]; simplify_eq/=.
      - apply ends_with_spec. eauto.
      - by destruct Ha; left. }
    destruct (strip_suffix_char (a ++ star :: b) star) as [s|] eqn:E4.
    { apply strip_suffix_char_Some in E4. destruct b as [|x b _] using rev_ind.
      - apply app_inj_tail in E4 as [-> _]. apply starts_with_spec. eauto.
      - exfalso. rewrite app_comm_cons, app_assoc in E4. apply app_inj_tail in E4 as [_ ->].
        apply Hb, elem_of_app. right. by left. }
    rewrite find_star by done. rewrite take_app_length, Nat.add_1_r.
    replace (drop (S (length a)) (a ++ star :: b)) with b
      by (by rewrite cons_middle, app_assoc, drop_app_length' by (rewrite length_app; simpl; lia)).
    rewrite !andb_true_iff, Nat.leb_le, starts_with_spec, ends_with_spec. split; [split|].
    + eauto.
    + exists (a ++ t). by rewrite app_assoc.
    + rewrite !length_app. lia.
Qed.

(** ** Covering is transitive *)

Definition pattern_of (c : Capability) : option str :=
  match c with
  | FileRead p | FileWrite p | NetConnect p | LlmQuery p | AgentMessage p | AgentKill p
  | MemoryRead p | MemoryWrite p | ShellExec p | EnvRead p | OfpConnect p | EconTransfer p =>
      Some p
  | _ => None
  end.

Definition simple_cap (c : Capability) : Prop :=
  match pattern_of c with Some p => simple_pattern p | None => True end.

#[export] Instance simple_cap_dec c : Decision (simple_cap c).
Proof. unfold simple_cap, simple_pattern. destruct (pattern_of c); apply _. Defined.

Lemma glob_matches_trans p q v :
  simple_pattern p → glob_matches p q = true → glob_matches q v = true → glob_matches p v = true.
Proof.
  intros Hp Hpq%glob_matches_sound Hqv%glob_matches_sound.
  apply glob_matches_complete; [done|]. by eapply glob_trans.
Qed.

Lemma capability_matches_trans p c r :
  simple_cap p → capability_matches p c = true → capability_matches c r = true →
  capability_matches p r = true.
Proof.
  unfold simple_cap.
  destruct p, c; simpl; try done; destruct r; simpl; try done; intros Hp Hpc Hcr;
    try (by eapply glob_matches_trans).
  - apply Z.eqb_eq in Hpc, Hcr. apply Z.eqb_eq. congruence.
  - rewrite orb_true_iff, !str_eqb_spec in *. naive_solver.
  - apply Z.leb_le in Hpc, Hcr. apply Z.leb_le. lia.
  - by eapply SFleb_trans.
Qed.

Lemma covered_spec caps r :
  existsb (λ p, capability_matches p r) caps = true ↔
  ∃ p, p ∈ caps ∧ capability_matches p r = true.
Proof. rewrite List.existsb_exists. by setoid_rewrite list_elem_of_In. Qed.

Lemma validate_ok parents children :
  validate_capability_inheritance parents children = Ok tt ↔
  ∀ c, c ∈ children → ∃ p, p ∈ parents ∧ capability_matches p c = true.
Proof.
  setoid_rewrite <-covered_spec. induction children as [|c cs IH]; simpl; [set_solver|].
  setoid_rewrite elem_of_cons. destruct (existsb _ _) eqn:E; simpl.
  - rewrite IH. naive_solver.
  - split; [done|]. intros Hall. specialize (Hall c (or_introl eq_refl)). congruence.
Qed.

Lemma check_granted m agent_id required :
  check m agent_id required = Granted ↔
  ∃ gs p, grants m !! agent_id = Some gs ∧ p ∈ gs ∧ capability_matches p required = true.
Proof.
  unfold check. destruct (grants m !! agent_id) as [gs|]; [|naive_solver].
  destruct (existsb _ _) eqn:E.
  - apply covered_spec in E. naive_solver.
  - split; [done|]. intros (? & p & [= <-] & ? & ?).
    assert (existsb (λ p, capability_matches p required) gs = true)
      by (apply covered_spec; eauto). congruence.
Qed.

(** ** Theorems *)

(** The matcher of capability patterns never grants more than the glob
    relation does, and on a pattern with at most one star it decides it. *)
Theorem glob_matches_correct pat v :
  (glob_matches pat v = true → glob pat v) ∧
  (simple_pattern pat → (glob_matches pat v = true ↔ glob pat v)).
Proof.
  split; [apply glob_matches_sound|]. intros Hp. split; [apply glob_matches_sound|].
  by apply glob_matches_complete.
Qed.

(** C23: No escalation through spawning: when a parent whose grants use
    patterns with at most one star spawns a child whose capabilities pass the
    inheritance check, everything the manager then grants to the child it also
    grants to the parent. *)
Theorem inheritance_no_escalation m parent child caps required :
  parent ≠ child →
  Forall simple_cap (list_capabilities m parent) →
  validate_capability_inheritance (list_capabilities m parent) caps = Ok tt →
  check (grant m child caps) child required = Granted →
  check (grant m child caps) parent required = Granted.
Proof.
  intros Hne Hsimple Hv. rewrite validate_ok in Hv. rewrite !check_granted. unfold grant. simpl.
  rewrite lookup_insert_eq, lookup_insert_ne by done.
  intros (? & c & [= <-] & Hc & Hm). destruct (Hv c Hc) as (p & Hp & Hpc).
  unfold list_capabilities in *. rewrite Forall_forall in Hsimple.
  destruct (grants m !! parent) as [gs|]; [|set_solver]. simpl in *.
  exists gs, p. split; [done|]. split; [done|]. eapply capability_matches_trans; eauto.
Qed.

(** Grants are per agent and replace each other: after [grant] the agent
    holds exactly the new list, after [revoke_all] nothing it asks for is
    granted, and neither operation changes what any other agent is granted. *)
Theorem manager_grants_isolated m a b caps required :
  list_capabilities (grant m a caps) a = caps ∧
  is_granted (check (revoke_all m a) a required) = false ∧
  (a ≠ b → check (grant m a caps) b required = check m b required ∧
           check (revoke_all m a) b required = check m b required).
Proof.
  unfold list_capabilities, check, grant, revoke_all. simpl.
  rewrite lookup_insert_eq, lookup_delete_eq. split; [done|]. split; [done|].
  intros Hne. by rewrite lookup_insert_ne, lookup_delete_ne.
Qed.
End formatting.

(** With two stars in the parent's pattern the inheritance check does not
    prevent escalation: the matcher reads every star of such a pattern but one
    literally, also in what the child asks for. A parent that may read
    [*x*] may spawn a child that may read [ax*], and the child then reads a
    file the parent may not. *)
Theorem inheritance_escalates_two_stars debug :
  let parent := [FileRead (lit "*x*")] in
  let child := [FileRead (lit "ax*")] in
  validate_capability_inheritance debug parent child = Ok tt ∧
  capability_matches (FileRead (lit "ax*")) (FileRead (lit "axe")) = true ∧
  existsb (λ p, capability_matches p (FileRead (lit "axe"))) parent = false.
Proof. split; [|split]; vm_compute; reflexivity. Qed.

(** A parent that holds [ToolAll] covers every single tool but cannot pass
    [ToolAll] itself on: no capability covers it. *)
Theorem tool_all_not_inheritable debug parents rest :
  (∀ p, capability_matches p ToolAll = false) ∧
  is_ok (validate_capability_inheritance debug parents (ToolAll :: rest)) = false ∧
  (∀ tools, ToolAll ∈ parents →
     validate_capability_inheritance debug parents (ToolInvoke <$> tools) = Ok tt).
Proof.
  assert (∀ p, capability_matches p ToolAll = false) as Hno by (by intros []).
  split; [done|]. split.
  - simpl. assert (existsb (λ p, capability_matches p ToolAll) parents = false) as ->; [|done].
    clear -Hno. induction parents as [|p ps IH]; [done|]. simpl. by rewrite Hno.
  - intros tools Hp. apply validate_ok. intros c (t & -> & _)%list_elem_of_fmap.
    by exists ToolAll.
Qed.

Definition demo_parent : CapabilityManager (AgentId := nat) :=
  grant new_manager 1 [FileRead (lit "/data/*"); ToolAll].

Lemma inheritance_no_escalation_witness :
  check (λ _, []) show_nat (grant demo_parent 2 [FileRead (lit "/data/x/*"); ToolInvoke (lit "web")])
    1 (FileRead (lit "/data/x/y")) = Granted.
Proof.
  apply (inheritance_no_escalation (λ _, []) show_nat demo_parent 1 2).
  - done.
  - vm_compute. repeat constructor.
  - vm_compute. reflexivity.
  - vm_compute. reflexivity.
Defined.
