(* ===== verification/Cooldown.v ===== *)
(** * Provider circuit breaker

    [openfang-runtime/src/auth_cooldown.rs]: per provider error counts,
    exponential cooldown, probing and the rotation of auth profiles.

    An [Instant] is a number of nanoseconds on the monotonic clock and a
    [Duration] a number of nanoseconds. The clock is read where the source
    reads it: every read is an argument of the operation, so that two reads in
    one call may differ. Multipliers are [f64], here the IEEE 754 values and
    operations of [SpecFloat] at precision 53; [powi] is the square-and-multiply
    routine [__powidf2] that the compiler emits a call to. *)

From Stdlib Require Import Ascii ZArith Lia.
From Stdlib Require Import SpecFloat.
From stdpp Require Import base gmap strings list sorting.
From S2P Require Import Prelude Strs Floats.

(** ** Data *)

Definition secs (n : Z) : Z := (n * 1000000000)%Z.
Definition as_secs (d : Z) : Z := (d / 1000000000)%Z.

(** [start.elapsed()] when the clock shows [now]. *)
Definition elapsed (start now : Z) : Z := saturating_sub now start.

Record CooldownConfig : Type := mkConfig {
  base_cooldown_secs : Z;
  max_cooldown_secs : Z;
  backoff_multiplier : spec_float;
  max_exponent : Z;
  billing_base_cooldown_secs : Z;
  billing_max_cooldown_secs : Z;
  billing_multiplier : spec_float;
  failure_window_secs : Z;
  probe_enabled : bool;
  probe_interval_secs : Z
}.

Definition default_config : CooldownConfig := {|
  base_cooldown_secs := 60;
  max_cooldown_secs := 3600;
  backoff_multiplier := f64_of_Z 5;
  max_exponent := 3;
  billing_base_cooldown_secs := 18000;
  billing_max_cooldown_secs := 86400;
  billing_multiplier := f64_of_Z 2;
  failure_window_secs := 86400;
  probe_enabled := true;
  probe_interval_secs := 30
|}.

Inductive CircuitState : Type :=
| Closed
| Open
| HalfOpen.

Record ProviderState : Type := mkState {
  error_count : Z;
  is_billing : bool;
  cooldown_start : option Z;
  cooldown_duration : Z;
  last_probe : option Z;
  total_errors_in_window : Z;
  window_start : option Z
}.

Definition new_state : ProviderState := mkState 0 false None 0 None 0 None.

Inductive CooldownVerdict : Type :=
| Allow
| AllowProbe
| Reject (reason : str) (retry_after_secs : Z).

Record ProviderSnapshot : Type := mkSnapshot {
  provider : str;
  state : CircuitState;
  snap_error_count : Z;
  snap_is_billing : bool;
  cooldown_remaining_secs : option Z
}.

Abbreviation states := (gmap str ProviderState).

(** ** Operations *)

Definition calculate_cooldown (config : CooldownConfig) (errors : Z) (billing : bool) : Z :=
  if billing then
    let exponent := Z.min (saturating_sub errors 1) 10 in
    let s := f64_to_u64 (f64_mul (f64_of_Z (billing_base_cooldown_secs config))
                           (powi (billing_multiplier config) (u32_as_i32 exponent))) in
    secs (Z.min s (billing_max_cooldown_secs config))
  else
    let exponent := Z.min (saturating_sub errors 1) (max_exponent config) in
    let s := f64_to_u64 (f64_mul (f64_of_Z (base_cooldown_secs config))
                           (powi (backoff_multiplier config) (u32_as_i32 exponent))) in
    secs (Z.min s (max_cooldown_secs config)).

Section breaker.
Context (config : CooldownConfig).
Implicit Types (st : states) (p : str) (s : ProviderState).

(** [now] is read for [cooldown_start], [now'] for [last_probe]. *)
Definition check (st : states) (p : str) (now now' : Z) : CooldownVerdict :=
  match st !! p with
  | None => Allow
  | Some s =>
      match cooldown_start s with
      | None => Allow
      | Some start =>
          let e := elapsed start now in
          if (e <? cooldown_duration s)%Z then
            let remaining := (cooldown_duration s - e)%Z in
            let probe_ok :=
              match last_probe s with
              | Some last => (secs (probe_interval_secs config) <=? elapsed last now')%Z
              | None => true
              end in
            if probe_enabled config && probe_ok then AllowProbe
            else
              let reason :=
                if is_billing s
                then lit "billing cooldown (" ++ show_Z (error_count s) ++ lit " errors)"
                else lit "error cooldown (" ++ show_Z (error_count s) ++ lit " errors)" in
              Reject reason (as_secs remaining)
          else AllowProbe
      end
  end.

Definition record_success (st : states) (p : str) : states :=
  alter (λ s, mkState 0 false None 0 None (total_errors_in_window s) (window_start s)) p st.

(** [now] is the first read, [now'] the one for the failure window. *)
Definition record_failure (st : states) (p : str) (billing : bool) (now now' : Z) : states :=
  let s := default new_state (st !! p) in
  let '(total, window) :=
    match window_start s with
    | Some ws =>
        if (secs (failure_window_secs config) <=? elapsed ws now')%Z
        then (0%Z, Some now) else (total_errors_in_window s, Some ws)
    | None => (total_errors_in_window s, Some now)
    end in
  let errors := saturating_add_u32 (error_count s) 1 in
  let total := saturating_add_u32 total 1 in
  <[p := mkState errors billing (Some now) (calculate_cooldown config errors billing)
           (last_probe s) total window]> st.

Definition record_probe_result (st : states) (p : str) (success : bool) (now now' : Z) : states :=
  if success then record_success st p
  else
    alter (λ s,
      let errors := saturating_add_u32 (error_count s) 1 in
      mkState errors (is_billing s) (Some now') (calculate_cooldown config errors (is_billing s))
        (Some now) (total_errors_in_window s) (window_start s)) p st.

Definition get_state (st : states) (p : str) (now : Z) : CircuitState :=
  match st !! p with
  | None => Closed
  | Some s =>
      match cooldown_start s with
      | None => Closed
      | Some start =>
          if (elapsed start now <? cooldown_duration s)%Z then Open
          else if (0 <? error_count s)%Z then HalfOpen
          else Closed
      end
  end.

(** [clock key] is the pair of reads made for the entry [key]. *)
Definition snapshot_entry (clock : str → Z * Z) (entry : str * ProviderState)
    : ProviderSnapshot :=
  let '(key, s) := entry in
  let circuit_state :=
    match cooldown_start s with
    | Some start =>
        if (elapsed start (clock key).1 <? cooldown_duration s)%Z then Open
        else if (0 <? error_count s)%Z then HalfOpen
        else Closed
    | None => Closed
    end in
  let remaining :=
    match cooldown_start s with
    | Some start =>
        let e := elapsed start (clock key).2 in
        if (e <? cooldown_duration s)%Z then Some (as_secs (cooldown_duration s - e)) else None
    | None => None
    end in
  mkSnapshot key circuit_state (error_count s) (is_billing s) remaining.

Definition snapshot (st : states) (clock : str → Z * Z) : list ProviderSnapshot :=
  snapshot_entry clock <$> map_to_list st.

Definition is_expired (clock : str → Z) (key : str) (s : ProviderState) : bool :=
  match cooldown_start s with
  | Some start =>
      (cooldown_duration s <=? elapsed start (clock key))%Z && (error_count s =? 0)%Z
  | None => false
  end.

Definition clear_expired (st : states) (clock : str → Z) : states :=
  let to_remove :=
    omap (λ e, if is_expired clock e.1 e.2 then Some e.1 else None) (map_to_list st) in
  foldl (λ st key, delete key st) st to_remove.

Definition force_reset (st : states) (p : str) : states := delete p st.

(** ** Auth profiles *)

Record AuthProfile : Type := mkProfile {
  name : str;
  api_key_env : str;
  priority : Z
}.

Definition profile_key (p : str) (profile : str) : str := p ++ lit "::" ++ profile.

Definition in_cooldown (st : states) (key : str) (now : Z) : bool :=
  match st !! key with
  | Some s =>
      match cooldown_start s with
      | Some start => (elapsed start now <? cooldown_duration s)%Z
      | None => false
      end
  | None => false
  end.

(** [clock i] is the read made for the [i]th profile in priority order. *)
Fixpoint select_loop (st : states) (p : str) (clock : nat → Z) (i : nat)
    (sorted : list AuthProfile) : option (str * str) :=
  match sorted with
  | [] => None
  | profile :: rest =>
      if in_cooldown st (profile_key p (name profile)) (clock i)
      then select_loop st p clock (S i) rest
      else Some (name profile, api_key_env profile)
  end.

Definition select_profile (st : states) (p : str) (profiles : list AuthProfile)
    (clock : nat → Z) : option (str * str) :=
  match profiles with
  | [] => None
  | first :: _ =>
      match select_loop st p clock 0 (sort_by_key priority profiles) with
      | Some r => Some r
      | None => Some (name first, api_key_env first)
      end
  end.

Definition advance_profile (st : states) (p failed_profile : str) (billing : bool) (now : Z)
    : states :=
  let key := profile_key p failed_profile in
  let s := default new_state (st !! key) in
  let errors := saturating_add_u32 (error_count s) 1 in
  <[key := mkState errors billing (Some now) (calculate_cooldown config errors billing)
             (last_probe s) (total_errors_in_window s) (window_start s)]> st.
End breaker.

(** ** Runs of the breaker

    Time does not go back: an operation that starts at [t] reads the clock
    between [t] and the moment [t'] it ends. *)

Inductive op : Type :=
| OpSuccess (p : str)
| OpFailure (p : str) (billing : bool)
| OpProbe (p : str) (success : bool)
| OpAdvance (p failed_profile : str) (billing : bool)
| OpClear
| OpReset (p : str).

Section runs.
Context (config : CooldownConfig).
Implicit Types (st : states) (p : str) (s : ProviderState) (t : Z).

Inductive step : op → Z * states → Z * states → Prop :=
| step_success p st t t' :
    (t ≤ t')%Z → step (OpSuccess p) (t, st) (t', record_success st p)
| step_failure p billing st t n n' t' :
    (t ≤ n ≤ n')%Z → (n' ≤ t')%Z →
    step (OpFailure p billing) (t, st) (t', record_failure config st p billing n n')
| step_probe p success st t n n' t' :
    (t ≤ n ≤ n')%Z → (n' ≤ t')%Z →
    step (OpProbe p success) (t, st) (t', record_probe_result config st p success n n')
| step_advance p failed billing st t n t' :
    (t ≤ n ≤ t')%Z →
    step (OpAdvance p failed billing) (t, st) (t', advance_profile config st p failed billing n)
| step_clear st t clock t' :
    (∀ k, (t ≤ clock k ≤ t')%Z) → (t ≤ t')%Z →
    step OpClear (t, st) (t', clear_expired st clock)
| step_reset p st t t' :
    (t ≤ t')%Z → step (OpReset p) (t, st) (t', force_reset st p).

Inductive run (allowed : op → Prop) : Z * states → Prop :=
| run_init t : run allowed (t, ∅)
| run_step o c c' : run allowed c → allowed o → step o c c' → run allowed c'.

Definition any_op (_ : op) : Prop := True.
Definition no_probe_result (o : op) : Prop := match o with OpProbe _ _ => False | _ => True end.

(** ** The invariant *)

Definition max_cooldown : Z :=
  secs (Z.max (max_cooldown_secs config) (billing_max_cooldown_secs config)).

Definition state_ok (now : Z) (s : ProviderState) : Prop :=
  (cooldown_duration s ≤ Z.max max_cooldown 0)%Z ∧
  (0 ≤ error_count s ≤ u32_max)%Z ∧
  match cooldown_start s with
  | Some start => (start ≤ now)%Z ∧ (0 < error_count s)%Z
  | None => error_count s = 0%Z
  end.

Definition inv (c : Z * states) : Prop := map_Forall (λ _ s, state_ok c.1 s) c.2.

Lemma calculate_cooldown_max errors billing :
  (calculate_cooldown config errors billing ≤ max_cooldown)%Z.
Proof. unfold calculate_cooldown, max_cooldown, secs. destruct billing; lia. Qed.

Lemma state_ok_later now now' s : (now ≤ now')%Z → state_ok now s → state_ok now' s.
Proof. unfold state_ok. destruct (cooldown_start s); intuition lia. Qed.

Lemma state_ok_new now : state_ok now new_state.
Proof. unfold state_ok, u32_max. simpl. lia. Qed.

(** An error at [n] leaves a good state, whatever else is kept. *)
Lemma state_ok_failed now n s billing lp tot win :
  state_ok now s → (n ≤ now)%Z →
  state_ok now (mkState (saturating_add_u32 (error_count s) 1) billing (Some n)
    (calculate_cooldown config (saturating_add_u32 (error_count s) 1) billing) lp tot win).
Proof.
  intros (_ & Hc & _) Hn. set (e := saturating_add_u32 (error_count s) 1).
  assert (0 < e ≤ u32_max)%Z by (subst e; unfold saturating_add_u32, u32_max in *; lia).
  pose proof (calculate_cooldown_max e billing) as Hmax.
  generalize dependent (calculate_cooldown config e billing). intros d Hd.
  clearbody e. split; [simpl; lia|]. split; simpl; lia.
Qed.

Lemma state_ok_lookup now st p :
  map_Forall (λ _ s, state_ok now s) st → state_ok now (default new_state (st !! p)).
Proof.
  intros Hst. destruct (st !! p) as [s|] eqn:E; [exact (Hst _ _ E)|apply state_ok_new].
Qed.

Lemma map_Forall_alter (P : ProviderState → Prop) f p st :
  map_Forall (λ _ s, P s) st → (∀ s, P s → P (f s)) → map_Forall (λ _ s, P s) (alter f p st).
Proof.
  intros Hst Hf k s Hk. apply lookup_alter_Some in Hk as [(<- & s0 & Hs0 & ->)|[_ Hk]]; eauto.
Qed.

Lemma state_ok_success now tot win :
  state_ok now (mkState 0 false None 0 None tot win).
Proof. unfold state_ok, u32_max. simpl. lia. Qed.

Lemma clear_expired_id st clock :
  map_Forall (λ k s, is_expired clock k s = false) st → clear_expired st clock = st.
Proof.
  intros Hst. unfold clear_expired.
  assert (omap (λ e, if is_expired clock e.1 e.2 then Some e.1 else None) (map_to_list st) = [])
    as ->; [|done].
  apply elem_of_nil_inv. intros k ([k' s] & Hin & Hk)%list_elem_of_omap. simpl in Hk.
  apply elem_of_map_to_list in Hin. by rewrite (Hst _ _ Hin) in Hk.
Qed.

Lemma state_ok_not_expired now clock k s : state_ok now s → is_expired clock k s = false.
Proof.
  intros (_ & _ & Hs). unfold is_expired. destruct (cooldown_start s); [|done].
  apply andb_false_iff. right. apply Z.eqb_neq. lia.
Qed.

Lemma inv_clear st t clock : inv (t, st) → clear_expired st clock = st.
Proof.
  intros Hst. apply clear_expired_id. intros k s Hk. eapply state_ok_not_expired, Hst, Hk.
Qed.

Lemma step_inv o c c' : inv c → step o c c' → inv c'.
Proof.
  intros Hc Hstep. destruct Hstep; unfold inv in *; simpl in *;
    match goal with H : map_Forall _ ?m |- map_Forall (λ _ s, state_ok ?t' s) _ =>
      assert (map_Forall (λ _ s, state_ok t' s) m) as Hst
        by (intros k s Hk; eapply state_ok_later; [|exact (H _ _ Hk)]; lia)
    end.
  - apply map_Forall_alter; [done|]. intros. apply state_ok_success.
  - unfold record_failure.
    match goal with |- context [let '(_, _) := ?x in _] => destruct x as [tot win] end.
    apply map_Forall_insert_2; [|done]. apply state_ok_failed; [by apply state_ok_lookup|lia].
  - unfold record_probe_result. destruct success.
    + apply map_Forall_alter; [done|]. intros. apply state_ok_success.
    + apply map_Forall_alter; [done|]. intros s Hs. by apply state_ok_failed.
  - unfold advance_profile. apply map_Forall_insert_2; [|done].
    apply state_ok_failed; [by apply state_ok_lookup|lia].
  - by rewrite (inv_clear st t).
  - by apply map_Forall_delete.
Qed.

Lemma run_inv allowed c : run allowed c → inv c.
Proof. induction 1; [apply map_Forall_empty|eauto using step_inv]. Qed.

(** Without probe results no probe is ever recorded. *)
Definition no_probe (st : states) : Prop := map_Forall (λ _ s, last_probe s = None) st.

Lemma step_no_probe o c c' : no_probe_result o → inv c → no_probe c.2 → step o c c' → no_probe c'.2.
Proof.
  intros Ho Hinv Hst Hstep. unfold no_probe in *. destruct Hstep; simpl in *; try done.
  - by apply map_Forall_alter.
  - unfold record_failure.
    match goal with |- context [let '(_, _) := ?x in _] => destruct x as [tot win] end.
    apply map_Forall_insert_2; [|done]. simpl. destruct (st !! p) eqn:E; [exact (Hst _ _ E)|done].
  - apply map_Forall_insert_2; [|done]. simpl.
    destruct (st !! _) eqn:E; [exact (Hst _ _ E)|done].
  - by rewrite (inv_clear st t).
  - by apply map_Forall_delete.
Qed.

Lemma run_no_probe c : run no_probe_result c → no_probe c.2.
Proof.
  induction 1; [apply map_Forall_empty|]. eapply step_no_probe; eauto using run_inv.
Qed.

(** ** Operations on other providers *)

Definition touches (o : op) (p : str) : Prop :=
  match o with
  | OpSuccess q | OpFailure q _ | OpProbe q _ | OpReset q => q = p
  | OpAdvance q f _ => profile_key q f = p
  | OpClear => False
  end.

Inductive others (p : str) : Z * states → Z * states → Prop :=
| others_refl c : others p c c
| others_step o c c' c'' : others p c c' → ¬ touches o p → step o c' c'' → others p c c''.

Lemma step_other o p c c' : inv c → ¬ touches o p → step o c c' → c'.2 !! p = c.2 !! p.
Proof.
  intros Hinv Ho Hstep. destruct Hstep; simpl in *.
  - by apply lookup_alter_ne.
  - unfold record_failure.
    match goal with |- context [let '(_, _) := ?x in _] => destruct x as [tot win] end.
    by apply lookup_insert_ne.
  - unfold record_probe_result, record_success. destruct success; by apply lookup_alter_ne.
  - by apply lookup_insert_ne.
  - by rewrite (inv_clear st t).
  - by apply lookup_delete_ne.
Qed.

Lemma others_inv p c c' : inv c → others p c c' → inv c'.
Proof. intros Hc. induction 1; eauto using step_inv. Qed.

Lemma others_lookup p c c' : inv c → others p c c' → c'.2 !! p = c.2 !! p.
Proof.
  intros Hc. induction 1 as [|o c c' c'' Hco IH Ho Hs]; [done|].
  rewrite <-IH by done. eapply step_other; eauto using others_inv.
Qed.

(** ** Operations that report no error for a key *)

Definition errs (o : op) (p : str) : Prop :=
  match o with
  | OpFailure q _ | OpProbe q false => q = p
  | OpAdvance q f _ => profile_key q f = p
  | OpSuccess _ | OpProbe _ true | OpClear | OpReset _ => False
  end.

Inductive quiet (p : str) : Z * states → Z * states → Prop :=
| quiet_refl c : quiet p c c
| quiet_step o c c' c'' : quiet p c c' → ¬ errs o p → step o c' c'' → quiet p c c''.

(** The cooldown of [p], if it has one, began by [t] and is no longer than
    the longest. *)
Definition ends_by (t : Z) (p : str) (st : states) : Prop :=
  ∀ s, st !! p = Some s →
    (cooldown_duration s ≤ Z.max max_cooldown 0)%Z ∧
    match cooldown_start s with Some start => (start ≤ t)%Z | None => True end.

Lemma ends_by_lookup t p st st' : st' !! p = st !! p → ends_by t p st → ends_by t p st'.
Proof. unfold ends_by. by intros ->. Qed.

Lemma ends_by_success t p st q : ends_by t p st → ends_by t p (record_success st q).
Proof.
  intros He s. unfold record_success.
  intros [(<- & s0 & Hs0 & ->)|[_ Hs]]%lookup_alter_Some; [simpl; split; [lia|done]|eauto].
Qed.

Lemma step_ends_by o t p c c' :
  inv c → ¬ errs o p → step o c c' → ends_by t p c.2 → ends_by t p c'.2.
Proof.
  intros Hinv Ho Hstep He.
  destruct o as [q|q b|q [|]|q f b| |q];
    try (eapply ends_by_lookup; [|exact He]; eapply step_other; [exact Hinv| |exact Hstep]; tauto);
    inversion Hstep; subst; simpl in *.
  - by apply ends_by_success.
  - by apply ends_by_success.
  - unfold force_reset. intros s [_ Hs]%lookup_delete_Some. eauto.
Qed.

Lemma quiet_ends_by p c c' : inv c → ends_by c.1 p c.2 → quiet p c c' → ends_by c.1 p c'.2.
Proof.
  intros Hinv He Hq.
  assert (inv c' ∧ ends_by c.1 p c'.2) as [_ ?]; [|done].
  induction Hq as [|o c c' c'' Hq IH Ho Hs]; [done|].
  destruct IH as [Hi Hb]; [done..|]. eauto using step_inv, step_ends_by.
Qed.

(** What [record_failure] leaves for the provider. *)
Lemma record_failure_lookup st p billing n n' :
  ∃ s, record_failure config st p billing n n' !! p = Some s ∧
       error_count s = saturating_add_u32 (error_count (default new_state (st !! p))) 1 ∧
       cooldown_start s = Some n ∧
       cooldown_duration s = calculate_cooldown config (error_count s) billing ∧
       is_billing s = billing.
Proof.
  unfold record_failure.
  match goal with |- context [let '(_, _) := ?x in _] => destruct x as [tot win] end.
  eexists. rewrite lookup_insert_eq. done.
Qed.

(** ** Theorems *)

(** In every state the breaker can reach, [check] and [get_state] agree: a
    request is allowed outright exactly when the circuit is closed, an expired
    cooldown is half open and lets a probe through, and only an open circuit
    rejects, with a retry delay that is never above the configured maximum. *)
Theorem check_agrees_with_state t st p now now' :
  run any_op (t, st) → in_u64 (max_cooldown_secs config) →
  (check config st p now now' = Allow ↔ get_state st p now = Closed) ∧
  (get_state st p now = HalfOpen → check config st p now now' = AllowProbe) ∧
  (∀ reason retry, check config st p now now' = Reject reason retry →
     get_state st p now = Open ∧
     (0 ≤ retry ≤ Z.max (max_cooldown_secs config) (billing_max_cooldown_secs config))%Z).
Proof.
  intros Hrun%run_inv Hmax. unfold check, get_state. simpl in *.
  destruct (st !! p) as [s|] eqn:E; [|done]. destruct (Hrun _ _ E) as (Hd & Hc & Hs).
  destruct (cooldown_start s) as [start|]; [|done]. simpl in Hs.
  rewrite (proj2 (Z.ltb_lt 0 (error_count s))) by lia.
  destruct (Z.ltb_spec (elapsed start now) (cooldown_duration s)); [|naive_solver].
  destruct (probe_enabled config && _); [naive_solver|].
  split; [done|]. split; [done|]. intros ? ? [= <- <-]. split; [done|].
  unfold as_secs, elapsed, saturating_sub, max_cooldown, secs, in_u64 in *.
  split; [apply Z.div_pos; lia|].
  apply Z.div_le_upper_bound; lia.
Qed.

(** C40: The breaker recovers by itself: in every reachable state, whatever
    happens afterwards except another error reported for this key (successes
    and probes of it, errors of other providers, clean-ups, resets), once the
    longest cooldown has passed since that state no request for the key is
    rejected. *)
Theorem cooldown_expires t st t' st' p now now' reason retry :
  run any_op (t, st) → quiet p (t, st) (t', st') →
  (t + Z.max max_cooldown 0 ≤ now)%Z →
  check config st' p now now' ≠ Reject reason retry.
Proof.
  intros Hrun%run_inv Hq Hnow. unfold check.
  assert (ends_by t p st') as He.
  { eapply (quiet_ends_by p (t, st) (t', st')); [done| |exact Hq].
    intros s Hs. destruct (Hrun _ _ Hs) as (Hd & _ & Hst). simpl in Hst.
    destruct (cooldown_start s); intuition lia. }
  destruct (st' !! p) as [s|] eqn:E; [|done]. destruct (He s E) as [Hd Hst].
  destruct (cooldown_start s) as [start|]; [|done].
  rewrite (proj2 (Z.ltb_ge _ _)); [done|]. unfold elapsed, saturating_sub. lia.
Qed.

(** With probing off, a failure shuts the provider off: whatever happens to
    other providers meanwhile, every request until the computed cooldown has
    passed is rejected, and the requests after it are let through as probes. *)
Theorem failure_opens_circuit t st p billing n n' t1 st' now now' :
  run any_op (t, st) → (t ≤ n ≤ n')%Z → (n' ≤ t1)%Z → probe_enabled config = false →
  others p (t1, record_failure config st p billing n n') (now, st') →
  let errors := saturating_add_u32 (error_count (default new_state (st !! p))) 1 in
  let cooldown := calculate_cooldown config errors billing in
  if (now <? n + cooldown)%Z
  then get_state st' p now = Open ∧ ∃ reason,
         check config st' p now now' = Reject reason (as_secs (n + cooldown - now))
  else check config st' p now now' = AllowProbe.
Proof.
  intros Hrun%run_inv Hn Hn' Hprobe Ho errors cooldown.
  assert (inv (t1, record_failure config st p billing n n')) as Hinv.
  { eapply step_inv; [exact Hrun|]. by eapply step_failure. }
  pose proof (others_inv _ _ _ Hinv Ho) as Hinv'.
  apply others_lookup in Ho; [|done]. simpl in Ho.
  destruct (record_failure_lookup st p billing n n') as (s & Hs & He & Hst & Hd & Hb).
  rewrite Hs in Ho. destruct (Hinv' _ _ Ho) as (_ & _ & Hle). rewrite Hst in Hle. simpl in Hle.
  assert (cooldown_duration s = cooldown) as Hcd by (by rewrite Hd, He).
  unfold check, get_state. rewrite Ho, Hst, Hcd, Hprobe. simpl.
  unfold elapsed, saturating_sub. rewrite Z.max_l by lia.
  destruct (Z.ltb_spec now (n + cooldown)).
  - rewrite (proj2 (Z.ltb_lt _ _)) by lia. split; [done|].
    replace (n + cooldown - now)%Z with (cooldown - (now - n))%Z by lia. eauto.
  - by rewrite (proj2 (Z.ltb_ge _ _)) by lia.
Qed.

(** With probing on, as it is by default, a request is never rejected in a
    run in which nobody reports probe results: [check] does not record the
    probes it allows, so each request counts as the one probe. *)
Theorem probing_never_rejects c p now now' reason retry :
  run no_probe_result c → probe_enabled config = true →
  check config c.2 p now now' ≠ Reject reason retry.
Proof.
  intros Hrun%run_no_probe Hen. unfold check.
  destruct (c.2 !! p) as [s|] eqn:E; [|done]. pose proof (Hrun _ _ E) as Hp. simpl in Hp.
  rewrite Hp, Hen. simpl. repeat case_match; done.
Qed.

(** The periodic clean-up never removes anything: in a reachable state a
    provider with a cooldown has a positive error count, and the clean-up asks
    for a zero one. *)
Theorem clear_expired_removes_nothing t st clock :
  run any_op (t, st) → clear_expired st clock = st.
Proof. intros Hrun%run_inv. by eapply inv_clear. Qed.
End runs.

(** The cooldowns of the default configuration, computed in floating point,
    are the exact powers: [60 * 5^k] seconds up to an hour for general errors,
    [18000 * 2^k] up to a day for billing errors. *)
Theorem default_backoff n :
  (1 ≤ n)%Z →
  calculate_cooldown default_config n false = secs (Z.min (60 * 5 ^ Z.min (n - 1) 3) 3600) ∧
  calculate_cooldown default_config n true = secs (Z.min (18000 * 2 ^ Z.min (n - 1) 10) 86400).
Proof.
  intros Hn. unfold calculate_cooldown, saturating_sub.
  rewrite (Z.max_l (n - 1) 0) by lia. split.
  - assert (Z.min (n - 1) (max_exponent default_config) = Z.min (n - 1) 3) as -> by done.
    assert (0 ≤ Z.min (n - 1) 3 ≤ 3)%Z as Hk by lia.
    generalize dependent (Z.min (n - 1) 3). intros k Hk.
    assert (k = 0 ∨ k = 1 ∨ k = 2 ∨ k = 3)%Z as Hcases by lia.
    destruct_or! Hcases; subst k; vm_compute; reflexivity.
  - assert (0 ≤ Z.min (n - 1) 10 ≤ 10)%Z as Hk by lia.
    generalize dependent (Z.min (n - 1) 10). intros k Hk.
    assert (k = 0 ∨ k = 1 ∨ k = 2 ∨ k = 3 ∨ k = 4 ∨ k = 5 ∨ k = 6 ∨ k = 7 ∨ k = 8 ∨ k = 9
            ∨ k = 10)%Z as Hcases by lia.
    destruct_or! Hcases; subst k; vm_compute; reflexivity.
Qed.

Lemma default_backoff_witness :
  calculate_cooldown default_config 2 false = secs 300 ∧
  calculate_cooldown default_config 2 true = secs 36000.
Proof. apply (default_backoff 2). lia. Defined.

(** ** Profile selection *)

Lemma select_loop_spec st p now i sorted :
  match select_loop st p (λ _, now) i sorted with
  | Some r =>
      ∃ before pr after, sorted = before ++ pr :: after ∧ r = (name pr, api_key_env pr) ∧
        in_cooldown st (profile_key p (name pr)) now = false ∧
        Forall (λ q, in_cooldown st (profile_key p (name q)) now = true) before
  | None => Forall (λ q, in_cooldown st (profile_key p (name q)) now = true) sorted
  end.
Proof.
  revert i. induction sorted as [|q sorted IH]; intros i; simpl; [constructor|].
  destruct (in_cooldown st _ now) eqn:E.
  - specialize (IH (S i)). destruct (select_loop _ _ _ _ _).
    + destruct IH as (before & pr & after & -> & ? & ? & ?).
      exists (q :: before), pr, after. repeat split; auto.
    + by constructor.
  - exists [], q, sorted. repeat split; auto.
Qed.

(** At a fixed moment, the selected profile is one of the configured ones
    that is not in cooldown and none that is not in cooldown is preferred to
    it; only when all are in cooldown is a profile in cooldown returned, and
    then it is the first configured one, whatever the priorities. *)
Theorem select_profile_best st p profiles now key_env :
  select_profile st p profiles (λ _, now) = Some key_env →
  (∃ pr, pr ∈ profiles ∧ key_env = (name pr, api_key_env pr) ∧
     in_cooldown st (profile_key p (name pr)) now = false ∧
     ∀ q, q ∈ profiles → in_cooldown st (profile_key p (name q)) now = false →
          (priority pr ≤ priority q)%Z) ∨
  ((∀ q, q ∈ profiles → in_cooldown st (profile_key p (name q)) now = true) ∧
   ∃ pr, head profiles = Some pr ∧ key_env = (name pr, api_key_env pr)).
Proof.
  unfold select_profile. destruct profiles as [|first rest]; [done|].
  set (l := first :: rest). pose proof (select_loop_spec st p now 0 (sort_by_key priority l)) as Hs.
  pose proof (sort_by_key_perm priority l) as Hperm.
  pose proof (sort_by_key_sorted priority l) as Hsorted.
  destruct (select_loop _ _ _ _ _) as [r|]; intros [= <-].
  - left. destruct Hs as (before & pr & after & Hl & -> & Hno & Hb).
    rewrite Hl in Hperm, Hsorted. exists pr. rewrite Forall_forall in Hb.
    split; [rewrite <-Hperm; set_solver|]. split; [done|]. split; [done|].
    intros q Hq Hqno. rewrite <-Hperm in Hq.
    apply StronglySorted_app in Hsorted as (_ & _ & Hsorted).
    apply StronglySorted_inv in Hsorted as [_ Hle]. rewrite Forall_forall in Hle.
    apply elem_of_app in Hq as [Hq|[->|Hq]%elem_of_cons]; [|lia|auto].
    rewrite (Hb q Hq) in Hqno. done.
  - right. rewrite Hperm, Forall_forall in Hs. eauto.
Qed.

(** ** Witnesses

    One failure of a provider at time 5, with and without probing. *)

Definition no_probing : CooldownConfig := {|
  base_cooldown_secs := 60;
  max_cooldown_secs := 3600;
  backoff_multiplier := f64_of_Z 5;
  max_exponent := 3;
  billing_base_cooldown_secs := 18000;
  billing_max_cooldown_secs := 86400;
  billing_multiplier := f64_of_Z 2;
  failure_window_secs := 86400;
  probe_enabled := false;
  probe_interval_secs := 30
|}.

Definition demo_states (config : CooldownConfig) : states :=
  record_failure config ∅ (lit "openai") false 5 5.

Lemma demo_run config allowed :
  allowed (OpFailure (lit "openai") false) → run config allowed (5%Z, demo_states config).
Proof.
  intros Ha. eapply run_step; [apply (run_init _ _ 0)|exact Ha|]. apply step_failure; lia.
Qed.

Lemma check_agrees_with_state_witness :
  check no_probing (demo_states no_probing) (lit "openai") 7 7 =
    Reject (lit "error cooldown (1 errors)") 59 ∧
  get_state (demo_states no_probing) (lit "openai") 7 = Open.
Proof.
  assert (check no_probing (demo_states no_probing) (lit "openai") 7 7 =
    Reject (lit "error cooldown (1 errors)") 59) as Hc by (vm_compute; reflexivity).
  split; [exact Hc|].
  refine (proj1 (proj2 (proj2 (check_agrees_with_state no_probing 5 (demo_states no_probing)
    (lit "openai") 7 7 (demo_run _ _ I) _)) _ _ Hc)).
  unfold in_u64, u64_max. simpl. lia.
Defined.

(** The failure at 5, then one of another provider at 50. *)
Lemma cooldown_expires_witness :
  check no_probing (record_failure no_probing (demo_states no_probing) (lit "groq") true 50 50)
    (lit "openai") (secs 90000) (secs 90000) ≠ Reject [] 0.
Proof.
  apply (cooldown_expires no_probing 5 (demo_states no_probing) 50);
    [apply demo_run; exact I| |unfold max_cooldown, secs; simpl; lia].
  eapply (quiet_step _ _ (OpFailure (lit "groq") true)); [apply quiet_refl| |].
  - intros H. discriminate H.
  - apply step_failure; lia.
Defined.

Lemma failure_opens_circuit_witness :
  calculate_cooldown no_probing 1 false = secs 60 ∧
  let errors := saturating_add_u32 (error_count (default new_state ((∅ : states) !! lit "openai"))) 1 in
  let cooldown := calculate_cooldown no_probing errors false in
  if (7 <? 5 + cooldown)%Z
  then get_state (demo_states no_probing) (lit "openai") 7 = Open ∧ ∃ reason,
         check no_probing (demo_states no_probing) (lit "openai") 7 7
         = Reject reason (as_secs (5 + cooldown - 7))
  else check no_probing (demo_states no_probing) (lit "openai") 7 7 = AllowProbe.
Proof.
  split; [vm_compute; reflexivity|].
  assert (0 ≤ 5 ≤ 5)%Z as Hn by lia. assert (5 ≤ 7)%Z as Hn' by lia.
  exact (failure_opens_circuit no_probing 0 ∅ (lit "openai") false 5 5 7 (demo_states no_probing)
    7 7 (run_init _ _ 0) Hn Hn' eq_refl (others_refl _ _ _)).
Defined.

Lemma probing_never_rejects_witness :
  check default_config (demo_states default_config) (lit "openai") 7 7 ≠ Reject [] 0.
Proof.
  apply (probing_never_rejects default_config (5%Z, demo_states default_config));
    [apply demo_run; exact I|reflexivity].
Defined.

Lemma clear_expired_removes_nothing_witness :
  clear_expired (demo_states no_probing) (λ _, secs 100000) = demo_states no_probing.
Proof. apply (clear_expired_removes_nothing no_probing 5), demo_run. exact I. Defined.

Definition demo_profiles : list AuthProfile :=
  [mkProfile (lit "a") (lit "KEY_A") 2; mkProfile (lit "b") (lit "KEY_B") 1].

Lemma select_profile_best_witness :
  ∃ pr, pr ∈ demo_profiles ∧ (lit "b", lit "KEY_B") = (name pr, api_key_env pr) ∧
    ∀ q, q ∈ demo_profiles → (priority pr ≤ priority q)%Z.
Proof.
  destruct (select_profile_best ∅ (lit "p") demo_profiles 0 (lit "b", lit "KEY_B"))
    as [(pr & Hin & Hpr & _ & Hq)|[Hall _]].
  - vm_compute. reflexivity.
  - exists pr. split; [exact Hin|]. split; [exact Hpr|]. intros q Hq'. apply Hq; [exact Hq'|].
    reflexivity.
  - specialize (Hall (mkProfile (lit "a") (lit "KEY_A") 2)). discriminate Hall.
    apply list_elem_of_here.
Defined.
