(* ===== verification/LlmErrors.v ===== *)
(** * Classification of model errors

    [openfang-runtime/src/llm_errors.rs]: the pattern tables, the classifier
    of error messages and status codes, the messages shown to users, the retry
    delay found in a message, and the detection of HTML error pages. *)

From Stdlib Require Import Ascii ZArith Lia.
From stdpp Require Import base gmap strings list.
From S2P Require Import Prelude Strs.

Inductive LlmErrorCategory : Type :=
| RateLimit
| Overloaded
| Timeout
| Billing
| Auth
| ContextOverflow
| Format
| ModelNotFound.

#[export] Instance category_eq_dec : EqDecision LlmErrorCategory.
Proof. solve_decision. Defined.

Record ClassifiedError : Type := mkClassified {
  category : LlmErrorCategory;
  is_retryable : bool;
  is_billing : bool;
  suggested_delay_ms : option Z;
  sanitized_message : str;
  raw_message : str
}.

(** ** Pattern tables *)

Definition CONTEXT_OVERFLOW_PATTERNS : list str := lit <$>
  [ "context_length_exceeded"; "context length"; "context_length"; "maximum context";
    "context window"; "token limit"; "too many tokens"; "max_tokens_exceeded";
    "max tokens exceeded"; "prompt is too long"; "input too long"; "context.length" ]%string.

Definition BILLING_PATTERNS : list str := lit <$>
  [ "payment required"; "insufficient credits"; "credit balance"; "billing";
    "insufficient balance"; "usage limit" ]%string.

Definition AUTH_PATTERNS : list str := lit <$>
  [ "invalid api key"; "invalid api_key"; "invalid apikey"; "incorrect api key";
    "invalid token"; "unauthorized"; "forbidden"; "authentication"; "permission denied" ]%string.

Definition RATE_LIMIT_PATTERNS : list str := lit <$>
  [ "rate limit"; "rate_limit"; "too many requests"; "exceeded quota"; "exceeded your quota";
    "resource exhausted"; "resource_exhausted"; "quota exceeded"; "tokens per minute";
    "requests per minute"; "tpm limit"; "rpm limit" ]%string.

Definition MODEL_NOT_FOUND_PATTERNS : list str := lit <$>
  [ "model not found"; "model_not_found"; "unknown model"; "does not exist"; "not_found";
    "model unavailable"; "model_unavailable"; "no such model"; "invalid model";
    "is not found" ]%string.

Definition FORMAT_PATTERNS : list str := lit <$>
  [ "invalid request"; "invalid_request"; "malformed"; "tool_use"; "schema";
    "validation error"; "validation_error"; "invalid parameter"; "invalid_parameter";
    "missing required"; "bad request"; "bad_request" ]%string.

Definition OVERLOADED_PATTERNS : list str := lit <$>
  [ "overloaded"; "overloaded_error"; "service unavailable"; "service_unavailable";
    "high demand"; "capacity"; "server_error"; "internal server error";
    "internal_server_error" ]%string.

Definition TIMEOUT_PATTERNS : list str := lit <$>
  [ "timeout"; "timed out"; "deadline exceeded"; "etimedout"; "econnreset"; "econnrefused";
    "econnaborted"; "epipe"; "ehostunreach"; "enetunreach"; "connection reset";
    "connection refused"; "network error"; "fetch failed" ]%string.

Definition matches_any (haystack : str) (patterns : list str) : bool :=
  existsb (contains haystack) patterns.

(** ** Messages for users *)

Definition category_message (c : LlmErrorCategory) : str :=
  match c with
  | RateLimit => lit "The AI provider is rate-limiting requests. Retrying shortly..."
  | Overloaded => lit "The AI provider is temporarily overloaded. Retrying..."
  | Timeout => lit "The request timed out. Check your network connection."
  | Billing => lit "Billing issue with the AI provider. Check your API plan."
  | Auth => lit "Authentication failed. Check your API key configuration."
  | ContextOverflow => lit "The conversation is too long for the model's context window."
  | Format => lit "LLM request failed. Check your API key and model configuration in Settings."
  | ModelNotFound => lit "The requested model was not found. Check the model name."
  end.

Definition sanitize_for_user (c : LlmErrorCategory) (_raw : str) : str :=
  let msg := category_message c in
  if (200 <? length (chars msg))
  then concat (take 197 (chars msg)) ++ lit "..."
  else msg.

(** ** Retry delays *)

(** [num_str.parse::<u64>()] for a text of ASCII digits: empty texts and
    values above the maximum are errors. *)
Definition parse_u64 (ds : str) : option Z :=
  if is_empty ds then None
  else if (digits_value ds <=? u64_max)%Z then Some (digits_value ds) else None.

Fixpoint take_digits (s : str) : str :=
  match s with
  | [] => []
  | c :: s' => if ascii_digit c then c :: take_digits s' else []
  end.

Definition saturating_mul_u64 (x y : Z) : Z := Z.min (x * y) u64_max.

Definition RETRY_PREFIXES : list str :=
  lit <$> ["retry after "; "retry-after: "; "try again in "]%string.

(** One round of the loop over the prefixes. *)
Definition delay_after (lower prefix : str) : option Z :=
  match find lower prefix with
  | None => None
  | Some start =>
      let after := drop (start + length prefix) lower in
      let num_str := take_digits after in
      match parse_u64 num_str with
      | None => None
      | Some value =>
          if (value =? 0)%Z then None
          else
            let rest := drop (length num_str) after in
            if starts_with rest (lit "ms") then Some value
            else Some (saturating_mul_u64 value 1000)
      end
  end.

Fixpoint first_delay (lower : str) (prefixes : list str) : option Z :=
  match prefixes with
  | [] => None
  | p :: ps => match delay_after lower p with Some d => Some d | None => first_delay lower ps end
  end.

Section classify.
Context `{UnicodeCase}.

Definition extract_retry_delay (message : str) : option Z :=
  first_delay (to_lowercase message) RETRY_PREFIXES.

Definition is_transient (message : str) : bool :=
  let lower := to_lowercase message in
  matches_any lower TIMEOUT_PATTERNS || matches_any lower OVERLOADED_PATTERNS
    || matches_any lower RATE_LIMIT_PATTERNS.

(** [521..=530]. *)
Definition cloudflare_codes : list Z := [521; 522; 523; 524; 525; 526; 527; 528; 529; 530]%Z.

Definition is_html_error_page (body : str) : bool :=
  let lower := to_lowercase body in
  if contains lower (lit "<!doctype") || contains lower (lit "<html") then true
  else if contains lower (lit "cf-error-code") || contains lower (lit "cf-error-type") then true
  else existsb (λ code, contains lower (show_Z code) && contains lower (lit "cloudflare"))
         cloudflare_codes.

(** ** The classifier *)

Definition build (message : str) (c : LlmErrorCategory) : ClassifiedError :=
  mkClassified c
    (match c with RateLimit | Overloaded | Timeout => true | _ => false end)
    (bool_decide (c = Billing))
    (extract_retry_delay message)
    (sanitize_for_user c message)
    message.

Definition status_is (status : option Z) (code : Z) : bool := bool_decide (status = Some code).

(** The unambiguous status codes. *)
Definition status_category (status : option Z) (lower : str) : option LlmErrorCategory :=
  if status_is status 429 then Some RateLimit
  else if status_is status 402 then Some Billing
  else if status_is status 401 then Some Auth
  else if status_is status 403 then
    if matches_any lower RATE_LIMIT_PATTERNS then Some RateLimit else Some Auth
  else None.

(** The rest of the decision, in the order of the source. *)
Definition pattern_category (status : option Z) (message lower : str) : LlmErrorCategory :=
  if matches_any lower CONTEXT_OVERFLOW_PATTERNS then ContextOverflow
  else if matches_any lower BILLING_PATTERNS then Billing
  else if status_is status 402 then Billing
  else if matches_any lower AUTH_PATTERNS then Auth
  else if status_is status 401 || status_is status 403 then Auth
  else if matches_any lower RATE_LIMIT_PATTERNS then RateLimit
  else if status_is status 429 then RateLimit
  else if matches_any lower MODEL_NOT_FOUND_PATTERNS then ModelNotFound
  else if contains lower (lit "model") && contains lower (lit "not found") then ModelNotFound
  else if matches_any lower FORMAT_PATTERNS then Format
  else if status_is status 400 then Format
  else if matches_any lower OVERLOADED_PATTERNS then Overloaded
  else if status_is status 500 || status_is status 503 then Overloaded
  else if matches_any lower TIMEOUT_PATTERNS then Timeout
  else if is_html_error_page message then Overloaded
  else if match status with Some code => (500 <=? code)%Z && (code <? 600)%Z | None => false end
  then Overloaded
  else if match status with Some code => (400 <=? code)%Z && (code <? 500)%Z | None => false end
  then Format
  else if contains lower (lit "connect") || contains lower (lit "network")
          || contains lower (lit "dns")
  then Timeout
  else Format.

Definition classify_error (message : str) (status : option Z) : ClassifiedError :=
  let lower := to_lowercase message in
  match status_category status lower with
  | Some c => build message c
  | None => build message (pattern_category status message lower)
  end.
End classify.

(** ** Lemmas *)

Lemma ascii_lower_digit c : ascii_digit c = true → ascii_lower c = c.
Proof.
  unfold ascii_digit, ascii_lower. rewrite andb_true_iff, !Nat.leb_le. intros [_ Hle].
  destruct (Nat.leb_spec 65 (nat_of_ascii c)); [lia|done].
Qed.

Lemma ascii_lower_digit_iff c : ascii_digit (ascii_lower c) = ascii_digit c.
Proof. destruct c as [[] [] [] [] [] [] [] []]; reflexivity. Qed.

Lemma lower_digits ds : forallb ascii_digit ds = true → ascii_lower <$> ds = ds.
Proof.
  induction ds as [|c ds IH]; [done|]. cbn [forallb]. intros [Hc Hds]%andb_true_iff.
  by rewrite fmap_cons, ascii_lower_digit, IH.
Qed.

Lemma take_digits_app ds rest :
  forallb ascii_digit ds = true → take_digits rest = [] → take_digits (ds ++ rest) = ds.
Proof.
  intros Hds Hrest. induction ds as [|c ds IH]; [done|]. simpl in *.
  apply andb_true_iff in Hds as [-> Hds]. by rewrite IH.
Qed.

Lemma take_digits_lower rest : take_digits rest = [] → take_digits (ascii_lower <$> rest) = [].
Proof.
  destruct rest as [|c rest]; [done|]. simpl. rewrite ascii_lower_digit_iff. by destruct (ascii_digit c).
Qed.

Lemma delay_after_bounds lower p d :
  delay_after lower p = Some d → (0 < d ≤ u64_max)%Z.
Proof.
  unfold delay_after, parse_u64, saturating_mul_u64. destruct (find lower p); [|done].
  set (ds := take_digits _). destruct (is_empty ds); [done|].
  destruct (Z.leb_spec (digits_value ds) u64_max); [|done].
  destruct (Z.eqb_spec (digits_value ds) 0); [done|].
  assert (0 ≤ digits_value ds)%Z as Hpos.
  { unfold digits_value. assert (forallb ascii_digit ds = true) as Hds.
    { subst ds. clear. induction (drop _ lower) as [|c s IH]; [done|]. simpl.
      destruct (ascii_digit c) eqn:E; [|done]. simpl. by rewrite E. }
    assert (∀ acc, (0 ≤ acc)%Z →
      (0 ≤ foldl (λ acc c, acc * 10 + digit_value c) acc ds)%Z) as Hfold; [|by apply Hfold].
    clear -Hds. induction ds as [|c ds IH]; intros acc Hacc; [done|]. simpl in *.
    apply andb_true_iff in Hds as [Hc Hds]. apply IH; [done|].
    unfold ascii_digit in Hc. apply andb_true_iff in Hc as [Hc _].
    apply Nat.leb_le in Hc. unfold digit_value. lia. }
  unfold u64_max in *. destruct (starts_with _ _); intros [= <-]; lia.
Qed.

Lemma first_delay_bounds lower ps d : first_delay lower ps = Some d → (0 < d ≤ u64_max)%Z.
Proof.
  induction ps as [|p ps IH]; [done|]. simpl.
  destruct (delay_after lower p) eqn:E; [intros [= <-]; by eapply delay_after_bounds|done].
Qed.

(** ** Theorems *)

Section theorems.
Context `{UnicodeCase}.

(** A delay announced as ["retry after N"] is understood: the number after
    the first such phrase is taken as seconds, or as milliseconds if followed
    by ["ms"], and saturates; and whatever the message, a delay that is found
    is positive and fits in 64 bits. *)
Theorem retry_delay_parsed pre ds rest :
  let msg := pre ++ lit "retry after " ++ ds ++ rest in
  is_ascii msg = true → find (ascii_lower <$> msg) (lit "retry after ") = Some (length pre) →
  forallb ascii_digit ds = true → take_digits rest = [] → ds ≠ [] →
  (0 < digits_value ds ≤ u64_max)%Z →
  extract_retry_delay msg =
    Some (if starts_with (ascii_lower <$> rest) (lit "ms") then digits_value ds
          else Z.min (digits_value ds * 1000) u64_max) ∧
  (∀ m d, extract_retry_delay m = Some d → (0 < d ≤ u64_max)%Z).
Proof.
  intros msg Hascii Hfind Hds Hrest Hne Hv. split; [|intros m d; apply first_delay_bounds].
  unfold extract_retry_delay. rewrite to_lowercase_ascii by done.
  unfold RETRY_PREFIXES. rewrite fmap_cons. cbn [first_delay]. unfold delay_after. rewrite Hfind.
  assert (drop (length pre + length (lit "retry after ")) (ascii_lower <$> msg) =
          ds ++ (ascii_lower <$> rest)) as ->.
  { unfold msg. rewrite !fmap_app, (lower_digits ds Hds), app_assoc.
    apply drop_app_length'. by rewrite length_app, !length_fmap. }
  rewrite take_digits_app by (done || by apply take_digits_lower).
  unfold parse_u64. assert (is_empty ds = false) as -> by (by destruct ds).
  rewrite (proj2 (Z.leb_le _ _)), (proj2 (Z.eqb_neq _ 0)) by lia.
  rewrite drop_app_length. by destruct (starts_with _ _).
Qed.
End theorems.

Lemma retry_delay_parsed_witness :
  extract_retry_delay (lit "Busy, retry after 30 s") = Some 30000%Z.
Proof.
  refine (proj1 (retry_delay_parsed (lit "Busy, ") (lit "30") (lit " s") _ _ _ _ _ _)).
  - vm_compute. reflexivity.
  - vm_compute. reflexivity.
  - reflexivity.
  - reflexivity.
  - discriminate.
  - split; vm_compute; [reflexivity|discriminate].
Defined.
