(* ===== verification/ProviderCall.v ===== *)
(** * Calling a provider

    [call_with_retry] and [stream_with_retry] of
    [openfang-runtime/src/agent_loop.rs]: one model call, guarded by the
    circuit breaker, with retries and backoff on rate limits and overload.

    The functions use the breaker through three operations. What they rely on
    is the class [Breaker]; the theorems are proved against it, and
    [cooldown_breaker] shows that the breaker of [auth_cooldown.rs] keeps the
    promise. The driver is a parameter: [driver n] is the answer to the [n]-th
    request of the call. The clock is read at the check and after [n]
    requests. *)

From Stdlib Require Import Ascii ZArith Lia.
From stdpp Require Import base gmap strings list.
From S2P Require Import Prelude Strs Cooldown LlmErrors.

(** ** The interface *)

Class Breaker (St : Type) := {
  b_check : St → str → Z * Z → CooldownVerdict;
  b_success : St → str → St;
  b_failure : St → str → bool → Z * Z → St;
  (** a success closes the circuit *)
  b_success_closes s p t : b_check (b_success s p) p t = Allow;
  (** a failure does not: the provider is never simply allowed after it *)
  b_failure_opens s p billing t t' : b_check (b_failure s p billing t) p t' ≠ Allow;
  (** other providers are not concerned *)
  b_success_frame s p q t : p ≠ q → b_check (b_success s p) q t = b_check s q t;
  b_failure_frame s p q billing t t' :
    p ≠ q → b_check (b_failure s p billing t) q t' = b_check s q t'
}.

(** The breaker of [auth_cooldown.rs]. *)
#[refine] Instance cooldown_breaker (config : CooldownConfig) : Breaker states := {
  b_check st p t := check config st p t.1 t.2;
  b_success := record_success;
  b_failure st p billing t := record_failure config st p billing t.1 t.2
}.
Proof.
  - intros st p t. unfold check, record_success. rewrite lookup_alter_eq. by destruct (st !! p).
  - intros st p billing t t'.
    destruct (record_failure_lookup config st p billing t.1 t.2) as (s & Hs & _ & Hst & _).
    unfold check. rewrite Hs, Hst. repeat case_match; done.
  - intros st p q t Hne. unfold check, record_success. by rewrite lookup_alter_ne.
  - intros st p q billing t t' Hne. unfold check, record_failure.
    match goal with |- context [let '(_, _) := ?x in _] => destruct x as [tot win] end.
    by rewrite lookup_insert_ne.
Defined.

(** ** Errors of the driver

    [ModelOverloaded] is [LlmError::Overloaded]; the plain name is the category
    of [LlmErrors]. *)

Inductive LlmError : Type :=
| Http (e : str)
| Api (status : Z) (message : str)
| RateLimited (retry_after_ms : Z)
| Parse (e : str)
| MissingApiKey (e : str)
| ModelOverloaded (retry_after_ms : Z).

(** [e.to_string()]. *)
Definition llm_error_to_string (e : LlmError) : str :=
  match e with
  | Http s => lit "HTTP error: " ++ s
  | Api status message => lit "API error (" ++ show_Z status ++ lit "): " ++ message
  | RateLimited ms => lit "Rate limited, retry after " ++ show_Z ms ++ lit "ms"
  | Parse s => lit "Parse error: " ++ s
  | MissingApiKey s => lit "Missing API key: " ++ s
  | ModelOverloaded ms => lit "Model overloaded, retry after " ++ show_Z ms ++ lit "ms"
  end.

Definition MAX_RETRIES : nat := 3.
Definition BASE_RETRY_DELAY_MS : Z := 1000.

Section call.
Context {St : Type} `{brk : Breaker St} {Response : Type} `{UnicodeCase}.
Context (clock : nat → Z * Z).

(** What a call leaves behind: its result, the breaker, the number of
    requests made and the delays slept, in milliseconds. *)
Record Called : Type := mkCalled {
  outcome : result Response str;
  breaker : option St;
  requests : nat;
  slept : list Z
}.

Definition on_breaker (f : St → str → St) (provider : option str) (cooldown : option St)
    : option St :=
  match provider, cooldown with
  | Some p, Some s => Some (f s p)
  | _, _ => cooldown
  end.

Definition retry_delay (retry_after_ms : Z) (attempt : nat) : Z :=
  Z.max retry_after_ms (BASE_RETRY_DELAY_MS * 2 ^ Z.of_nat attempt).

(** The text of the error a call gives up with. *)
Definition user_message (e : LlmError) : str :=
  let raw_error := llm_error_to_string e in
  let classified := classify_error raw_error None in
  if bool_decide (category classified = Format)
  then sanitized_message classified ++ lit " — raw: " ++ raw_error
  else sanitized_message classified.

Section driver.
Context (driver : nat → result Response LlmError).
Context (provider : option str).

(** [for attempt in 0..=MAX_RETRIES], with [more] further attempts after this
    one. [last_error] is what the source returns after the loop, which ends in
    the last round at the latest. *)
Fixpoint attempts (more : nat) (cooldown : option St) (attempt : nat) (naps : list Z) : Called :=
  let give_up_call billing msg :=
    mkCalled (Err msg)
      (on_breaker (λ s p, b_failure s p billing (clock (attempt + 1))) provider cooldown)
      (attempt + 1) naps in
  match driver attempt with
  | Ok response =>
      mkCalled (Ok response) (on_breaker b_success provider cooldown) (attempt + 1) naps
  | Err (RateLimited ms) =>
      match more with
      | 0 => give_up_call false (lit "Rate limited after " ++ show_nat MAX_RETRIES ++ lit " retries")
      | S more => attempts more cooldown (attempt + 1) (naps ++ [retry_delay ms attempt])
      end
  | Err (ModelOverloaded ms) =>
      match more with
      | 0 => give_up_call false (lit "Model overloaded after " ++ show_nat MAX_RETRIES ++ lit " retries")
      | S more => attempts more cooldown (attempt + 1) (naps ++ [retry_delay ms attempt])
      end
  | Err e =>
      give_up_call (is_billing (classify_error (llm_error_to_string e) None)) (user_message e)
  end.

Definition guarded_call (cooldown : option St) : Called :=
  match provider, cooldown with
  | Some p, Some s =>
      match b_check s p (clock 0) with
      | Reject reason retry_after_secs =>
          mkCalled (Err (lit "Provider '" ++ p ++ lit "' is in cooldown (" ++ reason
                         ++ lit "). Retry in " ++ show_Z retry_after_secs ++ lit "s."))
            cooldown 0 []
      | AllowProbe | Allow => attempts MAX_RETRIES cooldown 0 []
      end
  | _, _ => attempts MAX_RETRIES cooldown 0 []
  end.
End driver.

(** The two entry points differ in the request they make of the driver. *)
Definition call_with_retry (complete : nat → result Response LlmError) (provider : option str)
    (cooldown : option St) : Called :=
  guarded_call complete provider cooldown.

Definition stream_with_retry (stream : nat → result Response LlmError) (provider : option str)
    (cooldown : option St) : Called :=
  guarded_call stream provider cooldown.

(** ** What a call does *)

Definition is_transient_error (r : result Response LlmError) : bool :=
  match r with
  | Err (RateLimited _) | Err (ModelOverloaded _) => true
  | _ => false
  end.

Definition delay_of (driver : nat → result Response LlmError) (j : nat) : Z :=
  match driver j with
  | Err (RateLimited ms) | Err (ModelOverloaded ms) => retry_delay ms j
  | _ => 0
  end.

(** The request [k] is the one a call from request [i] on ends with: the first
    that is not a transient error, or the last allowed. *)
Definition settles (driver : nat → result Response LlmError) (i more k : nat) : Prop :=
  i ≤ k ≤ i + more ∧ (∀ j, i ≤ j < k → is_transient_error (driver j) = true) ∧
  (k = i + more ∨ is_transient_error (driver k) = false).

Definition is_billing_error (e : LlmError) : bool :=
  match e with
  | RateLimited _ | ModelOverloaded _ => false
  | _ => is_billing (classify_error (llm_error_to_string e) None)
  end.

(** The end of a call with request [k]. *)
Definition ends (driver : nat → result Response LlmError) (provider : option str)
    (cooldown : option St) (k : nat) (c : Called) : Prop :=
  requests c = k + 1 ∧
  match driver k with
  | Ok r => outcome c = Ok r ∧ breaker c = on_breaker b_success provider cooldown
  | Err e => is_ok (outcome c) = false ∧
      breaker c = on_breaker (λ s p, b_failure s p (is_billing_error e) (clock (k + 1)))
                    provider cooldown
  end.

Lemma settles_exists driver i more : ∃ k, settles driver i more k.
Proof.
  revert i. induction more as [|more IH]; intros i.
  { exists i. split; [lia|]. split; [lia|]. left. lia. }
  destruct (is_transient_error (driver i)) eqn:E.
  - destruct (IH (i + 1)) as (k & Hk & Hj & Hend). exists k. split; [lia|]. split; [|].
    + intros j Hji. destruct (decide (j = i)) as [->|]; [done|]. apply Hj. lia.
    + destruct Hend as [->|?]; [left; lia|by right].
  - exists i. split; [lia|]. split; [lia|]. by right.
Qed.

Lemma attempts_ends driver provider cooldown more i naps k :
  settles driver i more k →
  let c := attempts driver provider more cooldown i naps in
  ends driver provider cooldown k c ∧ slept c = naps ++ (delay_of driver <$> seq i (k - i)).
Proof.
  revert i naps. induction more as [|more IH]; intros i naps (Hk & Hj & Hend).
  - assert (k = i) as -> by lia. rewrite Nat.sub_diag. cbn [seq fmap list_fmap]. rewrite app_nil_r.
    unfold ends. cbn [attempts]. destruct (driver i) as [r|[]]; split_and!; reflexivity.
  - destruct (decide (k = i)) as [->|Hne].
    { destruct Hend as [?|Hno]; [lia|]. rewrite Nat.sub_diag. cbn [seq fmap list_fmap].
      rewrite app_nil_r. unfold ends. cbn [attempts].
      destruct (driver i) as [r|[]]; try discriminate; split_and!; reflexivity. }
    pose proof (Hj i ltac:(lia)) as Ht.
    assert (settles driver (i + 1) more k) as Hs.
    { split; [lia|]. split; [intros j ?; apply Hj; lia|]. destruct Hend as [->|?]; [left; lia|by right]. }
    assert (delay_of driver <$> seq i (k - i) =
            delay_of driver i :: (delay_of driver <$> seq (i + 1) (k - (i + 1)))) as Hseq.
    { replace (k - i) with (S (k - (i + 1))) by lia. by rewrite Nat.add_1_r. }
    cbn [attempts]. unfold is_transient_error in Ht. rewrite Hseq.
    destruct (driver i) as [r|[]] eqn:Ed; try done;
      (destruct (IH (i + 1) (naps ++ [retry_delay retry_after_ms i]) Hs) as [IH1 IH2];
       split; [exact IH1|];
       assert (delay_of driver i = retry_delay retry_after_ms i) as -> by (unfold delay_of; by rewrite Ed);
       by rewrite IH2, <-app_assoc).
Qed.

Lemma call_spec driver p s :
  let c := call_with_retry driver (Some p) (Some s) in
  match b_check s p (clock 0) with
  | Reject _ _ => requests c = 0 ∧ slept c = [] ∧ breaker c = Some s ∧ is_ok (outcome c) = false
  | _ => ∃ k, settles driver 0 MAX_RETRIES k ∧ ends driver (Some p) (Some s) k c ∧
              slept c = delay_of driver <$> seq 0 k
  end.
Proof.
  intros c. subst c. unfold call_with_retry, guarded_call.
  destruct (settles_exists driver 0 MAX_RETRIES) as [k Hk].
  pose proof (attempts_ends driver (Some p) (Some s) MAX_RETRIES 0 [] k Hk) as [He Hs].
  rewrite Nat.sub_0_r in Hs.
  destruct (b_check s p (clock 0)); [by exists k..|done].
Qed.

(** ** Theorems *)

(** A call, exactly. If the breaker rejects the provider no request is made
    and the breaker is as before. Otherwise the call ends with the first
    request that is neither rate limited nor overloaded, or with the fourth;
    it has slept the exponential delay after each request before, returns the
    response or an error, and reports to the breaker once: a success, or a
    failure that is marked as billing only when the error text says so. *)
Theorem call_exact driver p s :
  let c := call_with_retry driver (Some p) (Some s) in
  match b_check s p (clock 0) with
  | Reject _ _ => requests c = 0 ∧ slept c = [] ∧ breaker c = Some s ∧ is_ok (outcome c) = false
  | _ => ∃ k, settles driver 0 MAX_RETRIES k ∧ ends driver (Some p) (Some s) k c ∧
              slept c = delay_of driver <$> seq 0 k
  end.
Proof. apply call_spec. Qed.

(** What later calls see, for any breaker that keeps the interface: after a
    response the provider is allowed at any time, after a call that made
    requests and failed it is not simply allowed, and every other provider is
    treated as before. *)
Theorem call_updates_breaker driver p q s t :
  let c := call_with_retry driver (Some p) (Some s) in
  ∃ s', breaker c = Some s' ∧
    (is_ok (outcome c) = true → b_check s' p t = Allow) ∧
    (is_ok (outcome c) = false → requests c ≠ 0 → b_check s' p t ≠ Allow) ∧
    (p ≠ q → b_check s' q t = b_check s q t).
Proof.
  intros c. subst c. unfold call_with_retry, guarded_call.
  destruct (settles_exists driver 0 MAX_RETRIES) as [k Hk].
  pose proof (attempts_ends driver (Some p) (Some s) MAX_RETRIES 0 [] k Hk) as [[Hr He] _].
  assert (∃ s', breaker (attempts driver (Some p) MAX_RETRIES (Some s) 0 []) = Some s' ∧
    (is_ok (outcome (attempts driver (Some p) MAX_RETRIES (Some s) 0 [])) = true →
     b_check s' p t = Allow) ∧
    (is_ok (outcome (attempts driver (Some p) MAX_RETRIES (Some s) 0 [])) = false →
     requests (attempts driver (Some p) MAX_RETRIES (Some s) 0 []) ≠ 0 → b_check s' p t ≠ Allow) ∧
    (p ≠ q → b_check s' q t = b_check s q t)) as Hdone.
  { destruct (driver k) as [r|e]; destruct He as [Ho Hb]; rewrite Hb; eexists; (split; [done|]).
    - rewrite Ho. split; [intros _; apply b_success_closes|]. split; [done|apply b_success_frame].
    - rewrite Ho. split; [done|]. split; [intros _ _; apply b_failure_opens|apply b_failure_frame]. }
  destruct (b_check s p (clock 0)) eqn:Ec; [exact Hdone..|].
  exists s. simpl. split; [done|]. split; [done|]. split; done.
Qed.
End call.

(** The status code of an API error does not reach the classifier: a
    response with status 402 that does not say it in words is recorded as a
    general failure, although the classifier knows the status as a billing
    error. *)
Theorem billing_status_lost (config : CooldownConfig) (st : states) (now : Z) :
  let driver (_ : nat) : result unit LlmError := Err (Api 402 (lit "Please top up")) in
  let c := call_with_retry (brk := cooldown_breaker config) (λ _, (now, now)) driver
             (Some (lit "p")) (Some st) in
  is_billing (classify_error (lit "Please top up") (Some 402%Z)) = true ∧
  ((∀ reason n, check config st (lit "p") now now ≠ Reject reason n) →
   breaker c = Some (record_failure config st (lit "p") false now now)).
Proof.
  intros driver c. split; [vm_compute; reflexivity|]. intros Hno.
  assert (is_billing_error (Api 402 (lit "Please top up")) = false) as Hb
    by (vm_compute; reflexivity).
  pose proof (call_spec (brk := cooldown_breaker config) (λ _, (now, now)) driver (lit "p") st) as Hc.
  fold c in Hc. cbv zeta beta in Hc.
  change (b_check st (lit "p") (now, now)) with (check config st (lit "p") now now) in Hc.
  destruct (check config st (lit "p") now now) as [| |reason n]; [| |by destruct (Hno reason n)];
    destruct Hc as (k & _ & [_ Hend] & _); unfold driver in Hend at 1; destruct Hend as [_ ->];
    rewrite Hb; reflexivity.
Qed.

(** The second request of the call is answered. *)
Definition demo_driver (n : nat) : result unit LlmError :=
  if n =? 0 then Err (RateLimited 5) else Ok tt.

Lemma call_updates_breaker_witness :
  let c := call_with_retry (brk := cooldown_breaker default_config) (λ _, (0%Z, 0%Z)) demo_driver
             (Some (lit "p")) (Some ∅) in
  ∃ s', breaker c = Some s' ∧
    (is_ok (outcome c) = true → check default_config s' (lit "p") 9 9 = Allow) ∧
    (is_ok (outcome c) = false → requests c ≠ 0 → check default_config s' (lit "p") 9 9 ≠ Allow) ∧
    (lit "p" ≠ lit "q" →
     check default_config s' (lit "q") 9 9 = check default_config ∅ (lit "q") 9 9).
Proof.
  exact (call_updates_breaker (brk := cooldown_breaker default_config) (λ _, (0%Z, 0%Z)) demo_driver
    (lit "p") (lit "q") ∅ (9%Z, 9%Z)).
Defined.
