(* ===== verification/LoopGuard.v ===== *)
(** * Loop guard

    [openfang-runtime/src/loop_guard.rs]: counts the tool calls of one agent
    loop and answers each with a verdict, records outcomes, suggests poll
    delays and reports statistics.

    JSON values, their serialization and SHA-256 come from libraries: the
    parameters of a call are a type [Json] with [json_to_string],
    [json_command] stands for [params.get("command").and_then(as_str)] and
    [sha256_hex] for the hexadecimal digest of the bytes fed to the hasher.
    Counters are [u32] and wrap as in a release build. *)

From Stdlib Require Import Ascii ZArith Lia.
From stdpp Require Import base gmap strings list.
From S2P Require Import Prelude Strs.

Definition POLL_TOOLS : list str := [lit "shell_exec"].
Definition HISTORY_SIZE : nat := 30.
Definition BACKOFF_SCHEDULE_MS : list Z := [5000; 10000; 30000; 60000]%Z.

Record LoopGuardConfig : Type := mkConfig {
  warn_threshold : Z;
  block_threshold : Z;
  global_circuit_breaker : Z;
  poll_multiplier : Z;
  outcome_warn_threshold : Z;
  outcome_block_threshold : Z;
  ping_pong_min_repeats : Z;
  max_warnings_per_call : Z
}.

Definition default_config : LoopGuardConfig := mkConfig 3 5 30 3 2 3 3 3.

Inductive LoopGuardVerdict : Type :=
| Allow
| Warn (msg : str)
| Block (msg : str)
| CircuitBreak (msg : str).

Record LoopGuardStats : Type := mkStats {
  st_total_calls : Z;
  unique_calls : Z;
  st_blocked_calls : Z;
  ping_pong_detected : bool;
  most_repeated_tool : option str;
  most_repeated_count : Z
}.

Record LoopGuard : Type := mkGuard {
  config : LoopGuardConfig;
  call_counts : gmap str Z;
  total_calls : Z;
  outcome_counts : gmap str Z;
  blocked_outcomes : gset str;
  recent_calls : list str;
  warnings_emitted : gmap str Z;
  poll_counts : gmap str Z;
  blocked_calls : Z;
  hash_to_tool : gmap str str
}.

Definition new_guard (cfg : LoopGuardConfig) : LoopGuard :=
  mkGuard cfg ∅ 0 ∅ ∅ [] ∅ ∅ 0 ∅.

(** ** Field updates *)

Definition set_call_counts (g : LoopGuard) m :=
  mkGuard (config g) m (total_calls g) (outcome_counts g) (blocked_outcomes g) (recent_calls g)
    (warnings_emitted g) (poll_counts g) (blocked_calls g) (hash_to_tool g).
Definition incr_total (g : LoopGuard) :=
  mkGuard (config g) (call_counts g) (wrapping_add_u32 (total_calls g) 1) (outcome_counts g)
    (blocked_outcomes g) (recent_calls g) (warnings_emitted g) (poll_counts g) (blocked_calls g)
    (hash_to_tool g).
Definition incr_blocked (g : LoopGuard) :=
  mkGuard (config g) (call_counts g) (total_calls g) (outcome_counts g) (blocked_outcomes g)
    (recent_calls g) (warnings_emitted g) (poll_counts g) (wrapping_add_u32 (blocked_calls g) 1)
    (hash_to_tool g).
Definition set_warnings (g : LoopGuard) m :=
  mkGuard (config g) (call_counts g) (total_calls g) (outcome_counts g) (blocked_outcomes g)
    (recent_calls g) m (poll_counts g) (blocked_calls g) (hash_to_tool g).
Definition set_outcomes (g : LoopGuard) m s :=
  mkGuard (config g) (call_counts g) (total_calls g) m s (recent_calls g) (warnings_emitted g)
    (poll_counts g) (blocked_calls g) (hash_to_tool g).
Definition set_polls (g : LoopGuard) m :=
  mkGuard (config g) (call_counts g) (total_calls g) (outcome_counts g) (blocked_outcomes g)
    (recent_calls g) (warnings_emitted g) m (blocked_calls g) (hash_to_tool g).

(** [*map.entry(k).or_insert(0) += 1]. *)
Definition bump (m : gmap str Z) (k : str) : gmap str Z :=
  <[k := wrapping_add_u32 (default 0%Z (m !! k)) 1]> m.
Definition count (m : gmap str Z) (k : str) : Z := default 0%Z (m !! k).

(** The first tool seen for a hash is kept, and the history drops its oldest
    entry when it is full. *)
Definition remember_call (g : LoopGuard) (hash tool_name : str) : LoopGuard :=
  let names :=
    match hash_to_tool g !! hash with
    | Some _ => hash_to_tool g
    | None => <[hash := tool_name]> (hash_to_tool g)
    end in
  let recent :=
    if HISTORY_SIZE <=? length (recent_calls g) then drop 1 (recent_calls g)
    else recent_calls g in
  mkGuard (config g) (call_counts g) (total_calls g) (outcome_counts g) (blocked_outcomes g)
    (recent ++ [hash]) (warnings_emitted g) (poll_counts g) (blocked_calls g) names.

(** ** Ping-pong patterns *)

Definition tool_of (g : LoopGuard) (hash : str) : str :=
  default (lit "unknown") (hash_to_tool g !! hash).

Definition detect_ping_pong_3 (g : LoopGuard) : option str :=
  let len := length (recent_calls g) in
  if 9 <=? len then
    match drop (len - 9) (recent_calls g) with
    | [a; b; c; t3; t4; t5; t6; t7; t8] =>
        if negb (str_eqb a b && str_eqb b c) && str_eqb t3 a && str_eqb t4 b && str_eqb t5 c
           && str_eqb t6 a && str_eqb t7 b && str_eqb t8 c
        then Some (lit "Ping-pong detected: tools '" ++ tool_of g a ++ lit "', '" ++ tool_of g b
                   ++ lit "', '" ++ tool_of g c
                   ++ lit "' are cycling repeatedly. Break the cycle by trying a different approach.")
        else None
    | _ => None
    end
  else None.

Definition detect_ping_pong (g : LoopGuard) : option str :=
  let len := length (recent_calls g) in
  let two :=
    if 6 <=? len then
      match drop (len - 6) (recent_calls g) with
      | [a; b; t2; t3; t4; t5] =>
          if negb (str_eqb a b) && str_eqb t2 a && str_eqb t3 b && str_eqb t4 a && str_eqb t5 b
          then Some (lit "Ping-pong detected: tools '" ++ tool_of g a ++ lit "' and '" ++ tool_of g b
                     ++ lit "' are alternating repeatedly. Break the cycle by trying a different approach.")
          else None
      | _ => None
      end
    else None in
  match two with
  | Some msg => Some msg
  | None => detect_ping_pong_3 g
  end.

(** The [while] loops of [count_ping_pong_repeats] walk the history from its
    end; here the history is reversed, and a round consumes one period. *)
Fixpoint repeats_2 (a b : str) (rev_calls : list str) : Z :=
  match rev_calls with
  | y :: x :: rest => if str_eqb x a && str_eqb y b then (1 + repeats_2 a b rest)%Z else 0%Z
  | _ => 0%Z
  end.

Fixpoint repeats_3 (a b c : str) (rev_calls : list str) : Z :=
  match rev_calls with
  | z :: y :: x :: rest =>
      if str_eqb x a && str_eqb y b && str_eqb z c then (1 + repeats_3 a b c rest)%Z else 0%Z
  | _ => 0%Z
  end.

Definition count_repeats_3 (calls : list str) : Z :=
  if 6 <=? length calls then
    match reverse calls with
    | c :: b :: a :: _ =>
        if str_eqb a b && str_eqb b c then 0%Z
        else let repeats := repeats_3 a b c (reverse calls) in
             if (2 <=? repeats)%Z then repeats else 0%Z
    | _ => 0%Z
    end
  else 0%Z.

Definition count_ping_pong_repeats (calls : list str) : Z :=
  let two :=
    if 4 <=? length calls then
      match reverse calls with
      | b :: a :: _ =>
          if str_eqb a b then 0%Z
          else let repeats := repeats_2 a b (reverse calls) in
               if (2 <=? repeats)%Z then repeats else 0%Z
      | _ => 0%Z
      end
    else 0%Z in
  if (2 <=? two)%Z then two else count_repeats_3 calls.

(** ** What the ping-pong detector finds *)

(** The history ends with three rounds of a cycle of two or three calls that
    are not all the same. *)
Definition cycles (calls : list str) : Prop :=
  ∃ pre c, calls = pre ++ c ++ c ++ c ∧ (length c = 2 ∨ length c = 3) ∧
           ¬ ∃ x, Forall (λ y, y = x) c.

Lemma drop_tail {A} (pre tail : list A) n :
  length tail = n → drop (length (pre ++ tail) - n) (pre ++ tail) = tail.
Proof.
  intros Hn. rewrite length_app. replace (length pre + length tail - n) with (length pre) by lia.
  apply drop_app_length.
Qed.

Lemma drop_is_tail {A} (l tail : list A) n : drop n l = tail → l = take n l ++ tail.
Proof. intros <-. by rewrite take_drop. Qed.

Lemma not_constant_2 (a b : str) : a ≠ b → ¬ ∃ x, Forall (λ y, y = x) [a; b].
Proof. intros Hne [x Hx]. rewrite !Forall_cons in Hx. naive_solver. Qed.

Lemma not_constant_3 (a b c : str) :
  ¬ (a = b ∧ b = c) → ¬ ∃ x, Forall (λ y, y = x) [a; b; c].
Proof. intros Hne [x Hx]. rewrite !Forall_cons in Hx. naive_solver. Qed.

(** The two shapes a detected history has. *)
Definition cycle_2 (calls : list str) : Prop :=
  ∃ pre a b, calls = pre ++ [a; b; a; b; a; b] ∧ a ≠ b.
Definition cycle_3 (calls : list str) : Prop :=
  ∃ pre a b c, calls = pre ++ [a; b; c; a; b; c; a; b; c] ∧ ¬ (a = b ∧ b = c).

Lemma cycles_shapes calls : cycles calls ↔ cycle_2 calls ∨ cycle_3 calls.
Proof.
  split.
  - intros (pre & c & -> & [Hl|Hl] & Hc).
    + left. destruct c as [|a [|b [|]]]; try done. exists pre, a, b. split; [done|].
      intros ->. apply Hc. exists b. by repeat constructor.
    + right. destruct c as [|a [|b [|c [|]]]]; try done. exists pre, a, b, c. split; [done|].
      intros [-> ->]. apply Hc. exists c. by repeat constructor.
  - intros [(pre & a & b & -> & Hab)|(pre & a & b & c & -> & Habc)].
    + exists pre, [a; b]. split; [done|]. split; [by left|]. by apply not_constant_2.
    + exists pre, [a; b; c]. split; [done|]. split; [by right|]. by apply not_constant_3.
Qed.

Lemma detect_ping_pong_3_spec g :
  is_Some (detect_ping_pong_3 g) ↔ cycle_3 (recent_calls g).
Proof.
  unfold detect_ping_pong_3. split.
  - intros [msg H]. repeat case_match; try done. apply drop_is_tail in H1.
    autorewrite with openfang in *. destruct_and!. simplify_eq.
    eexists _, _, _, _. split; [exact H1|]. intros [-> ->]. by rewrite str_eqb_refl in *.
  - intros (pre & a & b & c & E & Hne). rewrite E.
    rewrite drop_tail by done. rewrite !str_eqb_refl.
    assert (9 <= length (pre ++ [a; b; c; a; b; c; a; b; c])) as ->%Nat.leb_le
      by (rewrite length_app; simpl; lia).
    destruct (str_eqb a b && str_eqb b c) eqn:Eabc; [|simpl; eauto].
    autorewrite with openfang in Eabc. tauto.
Qed.

Lemma detect_ping_pong_spec g : is_Some (detect_ping_pong g) ↔ cycles (recent_calls g).
Proof.
  rewrite cycles_shapes, <-detect_ping_pong_3_spec. unfold detect_ping_pong. split.
  - intros [msg H]. case_match eqn:Hd; [|eauto]. left. clear H.
    repeat case_match; try done. apply drop_is_tail in H0.
    autorewrite with openfang in *. destruct_and!. simplify_eq.
    eexists _, _, _. split; [exact H0|]. intros ->. by rewrite str_eqb_refl in *.
  - intros [(pre & a & b & E & Hne)|H]; [|case_match; [eauto|done]].
    rewrite E, drop_tail by done. rewrite !str_eqb_refl, str_eqb_neq by done.
    assert (6 <= length (pre ++ [a; b; a; b; a; b])) as ->%Nat.leb_le
      by (rewrite length_app; simpl; lia).
    simpl. eauto.
Qed.

Lemma repeats_2_pos a b l : (0 ≤ repeats_2 a b l)%Z.
Proof.
  revert l. fix IH 1. intros [|y [|x l]]; simpl; [lia|lia|].
  specialize (IH l). destruct (_ && _); lia.
Qed.

Lemma repeats_3_pos a b c l : (0 ≤ repeats_3 a b c l)%Z.
Proof.
  revert l. fix IH 1. intros [|z [|y [|x l]]]; simpl; [lia..|].
  specialize (IH l). destruct (_ && _); lia.
Qed.

Lemma cycle_2_repeats calls : cycle_2 calls → (3 ≤ count_ping_pong_repeats calls)%Z.
Proof.
  intros (pre & a & b & -> & Hne). unfold count_ping_pong_repeats.
  assert (4 <= length (pre ++ [a; b; a; b; a; b])) as ->%Nat.leb_le
    by (rewrite length_app; simpl; lia).
  rewrite reverse_app. simpl. rewrite (str_eqb_neq a b), !str_eqb_refl by done. simpl.
  pose proof (repeats_2_pos a b (reverse pre)). set (n := repeats_2 a b (reverse pre)) in *.
  rewrite (proj2 (Z.leb_le 2 (1 + (1 + (1 + n))))) by lia.
  rewrite (proj2 (Z.leb_le 2 (1 + (1 + (1 + n))))) by lia. lia.
Qed.

Lemma cycle_3_repeats calls : cycle_3 calls → (3 ≤ count_ping_pong_repeats calls)%Z.
Proof.
  intros (pre & a & b & c & -> & Hne). unfold count_ping_pong_repeats, count_repeats_3.
  assert (length (pre ++ [a; b; c; a; b; c; a; b; c]) = length pre + 9) as ->
    by (rewrite length_app; done).
  rewrite !(proj2 (Nat.leb_le _ (length pre + 9))) by lia.
  rewrite reverse_app. simpl. rewrite !str_eqb_refl. simpl.
  assert ((str_eqb a b && str_eqb b c) = false) as ->
    by (apply not_true_iff_false; by autorewrite with openfang).
  pose proof (repeats_3_pos a b c (reverse pre)). set (n := repeats_3 a b c (reverse pre)) in *.
  rewrite (proj2 (Z.leb_le 2 (1 + (1 + (1 + n))))) by lia.
  destruct (str_eqb b c) eqn:Ebc; [simpl; lia|].
  assert (str_eqb c b = false) as ->; [|simpl; lia].
  apply str_eqb_neq. intros ->. by rewrite str_eqb_refl in Ebc.
Qed.

Lemma cycles_repeats calls : cycles calls → (3 ≤ count_ping_pong_repeats calls)%Z.
Proof. intros [?|?]%cycles_shapes; auto using cycle_2_repeats, cycle_3_repeats. Qed.

(** ** The guard *)

Section guard.
Context {Json : Type} (json_to_string : Json → str) (json_command : Json → option str).
Context (sha256_hex : str → str) `{UnicodeCase}.

Definition compute_hash (tool_name : str) (params : Json) : str :=
  sha256_hex (tool_name ++ lit "|" ++ json_to_string params).

Definition compute_outcome_hash (tool_name : str) (params : Json) (result : str) : str :=
  sha256_hex (tool_name ++ lit "|" ++ json_to_string params ++ lit "|"
              ++ safe_truncate_str result 1000).

Definition poll_command (cmd : str) : bool :=
  let cmd_lower := to_lowercase cmd in
  (length cmd <? 50) &&
  (contains cmd_lower (lit "status") || contains cmd_lower (lit "poll")
   || contains cmd_lower (lit "wait") || contains cmd_lower (lit "watch")
   || contains cmd_lower (lit "tail") || contains cmd_lower (lit "ps ")
   || contains cmd_lower (lit "jobs") || contains cmd_lower (lit "pgrep")
   || contains cmd_lower (lit "docker ps") || contains cmd_lower (lit "kubectl get")).

Definition is_poll_call (tool_name : str) (params : Json) : bool :=
  let known :=
    if bool_decide (tool_name ∈ POLL_TOOLS) then
      match json_command params with Some cmd => poll_command cmd | None => false end
    else false in
  if known then true
  else
    let params_str := to_lowercase (json_to_string params) in
    contains params_str (lit "status") || contains params_str (lit "poll")
      || contains params_str (lit "wait").

Definition multiplier (cfg : LoopGuardConfig) (tool_name : str) (params : Json) : Z :=
  if is_poll_call tool_name params then poll_multiplier cfg else 1%Z.

Definition effective_warn (cfg : LoopGuardConfig) (tool_name : str) (params : Json) : Z :=
  wrapping_mul_u32 (warn_threshold cfg) (multiplier cfg tool_name params).

Definition effective_block (cfg : LoopGuardConfig) (tool_name : str) (params : Json) : Z :=
  wrapping_mul_u32 (block_threshold cfg) (multiplier cfg tool_name params).

(** The part of [check] after the ping-pong message is known. *)
Definition check_ping_pong (g : LoopGuard) (hash : str) : LoopGuard * LoopGuardVerdict :=
  match detect_ping_pong g with
  | None => (g, Allow)
  | Some ping_pong_msg =>
      let repeats := count_ping_pong_repeats (recent_calls g) in
      if (ping_pong_min_repeats (config g) <=? repeats)%Z
      then (incr_blocked g, Block ping_pong_msg)
      else
        let key := lit "pingpong_" ++ hash in
        let g := set_warnings g (bump (warnings_emitted g) key) in
        if (count (warnings_emitted g) key <=? max_warnings_per_call (config g))%Z
        then (g, Warn ping_pong_msg) else (g, Allow)
  end.

Definition check (g : LoopGuard) (tool_name : str) (params : Json)
    : LoopGuard * LoopGuardVerdict :=
  let g := incr_total g in
  if (global_circuit_breaker (config g) <? total_calls g)%Z
  then (incr_blocked g,
        CircuitBreak (lit "Circuit breaker: exceeded " ++ show_Z (global_circuit_breaker (config g))
          ++ lit " total tool calls in this loop. The agent appears to be stuck."))
  else
    let hash := compute_hash tool_name params in
    let g := remember_call g hash tool_name in
    if bool_decide (hash ∈ blocked_outcomes g)
    then (incr_blocked g,
          Block (lit "Blocked: tool '" ++ tool_name
            ++ lit "' is returning identical results repeatedly. The current approach is not working — try something different."))
    else
      let g := set_call_counts g (bump (call_counts g) hash) in
      let count_val := count (call_counts g) hash in
      if (effective_block (config g) tool_name params <=? count_val)%Z
      then (incr_blocked g,
            Block (lit "Blocked: tool '" ++ tool_name ++ lit "' called " ++ show_Z count_val
              ++ lit " times with identical parameters. Try a different approach or different parameters."))
      else if (effective_warn (config g) tool_name params <=? count_val)%Z
      then
        let g := set_warnings g (bump (warnings_emitted g) hash) in
        if (max_warnings_per_call (config g) <? count (warnings_emitted g) hash)%Z
        then (incr_blocked g,
              Block (lit "Blocked: tool '" ++ tool_name ++ lit "' called " ++ show_Z count_val
                ++ lit " times with identical parameters (warnings exhausted). Try a different approach."))
        else (g,
              Warn (lit "Warning: tool '" ++ tool_name ++ lit "' has been called " ++ show_Z count_val
                ++ lit " times with identical parameters. Consider a different approach."))
      else check_ping_pong g hash.

Definition record_outcome (g : LoopGuard) (tool_name : str) (params : Json) (result : str)
    : LoopGuard * option str :=
  let outcome_hash := compute_outcome_hash tool_name params result in
  let call_hash := compute_hash tool_name params in
  let counts := bump (outcome_counts g) outcome_hash in
  let count_val := count counts outcome_hash in
  let msg := lit "Tool '" ++ tool_name
               ++ lit "' is returning identical results — the approach isn't working." in
  if (outcome_block_threshold (config g) <=? count_val)%Z
  then (set_outcomes g counts ({[call_hash]} ∪ blocked_outcomes g), Some msg)
  else if (outcome_warn_threshold (config g) <=? count_val)%Z
  then (set_outcomes g counts (blocked_outcomes g), Some msg)
  else (set_outcomes g counts (blocked_outcomes g), None).

Definition get_poll_backoff (g : LoopGuard) (tool_name : str) (params : Json)
    : LoopGuard * option Z :=
  if negb (is_poll_call tool_name params) then (g, None)
  else
    let hash := compute_hash tool_name params in
    let g := set_polls g (bump (poll_counts g) hash) in
    let c := count (poll_counts g) hash in
    if (c <=? 1)%Z then (g, None)
    else
      let idx := Z.to_nat (saturating_sub c 2) in
      (g, Some (default (default 60000%Z (last BACKOFF_SCHEDULE_MS)) (BACKOFF_SCHEDULE_MS !! idx))).

(** The loop over [call_counts], in whatever order the map yields. *)
Definition most_repeated (names : gmap str str) (counts : list (str * Z)) : option str * Z :=
  foldl (λ best e, if (best.2 <? e.2)%Z then (names !! e.1, e.2) else best) (None, 0%Z) counts.

Definition stats (g : LoopGuard) : LoopGuardStats :=
  let '(tool, n) := most_repeated (hash_to_tool g) (map_to_list (call_counts g)) in
  mkStats (total_calls g) (Z.of_nat (size (call_counts g)) mod (u32_max + 1)) (blocked_calls g)
    (match detect_ping_pong g with Some _ => true | None => false end) tool n.

(** ** Runs

    The calls an agent loop makes on its guard, and the verdicts it gets. *)

Inductive op : Type :=
| Check (tool_name : str) (params : Json)
| Outcome (tool_name : str) (params : Json) (res : str)
| Backoff (tool_name : str) (params : Json).

Abbreviation verdicts := (list (str * Json * LoopGuardVerdict)).

Definition step (c : LoopGuard * verdicts) (o : op) : LoopGuard * verdicts :=
  match o with
  | Check t p => let '(g, v) := check c.1 t p in (g, c.2 ++ [(t, p, v)])
  | Outcome t p r => ((record_outcome c.1 t p r).1, c.2)
  | Backoff t p => ((get_poll_backoff c.1 t p).1, c.2)
  end.

Definition run (cfg : LoopGuardConfig) (ops : list op) : LoopGuard * verdicts :=
  foldl step (new_guard cfg, []) ops.

Definition passes (v : LoopGuardVerdict) : bool :=
  match v with Allow | Warn _ => true | Block _ | CircuitBreak _ => false end.

Definition is_circuit_break (v : LoopGuardVerdict) : bool :=
  match v with CircuitBreak _ => true | _ => false end.

Lemma run_snoc cfg ops o : run cfg (ops ++ [o]) = step (run cfg ops) o.
Proof. unfold run. by rewrite foldl_app. Qed.

Lemma count_bump_eq m k : count (bump m k) k = wrapping_add_u32 (count m k) 1.
Proof. unfold count, bump. by rewrite lookup_insert_eq. Qed.

Lemma count_bump_ne m k k' : k ≠ k' → count (bump m k) k' = count m k'.
Proof. intros. unfold count, bump. by rewrite lookup_insert_ne. Qed.

(** What [check] does to the parts of the state the theorems are about. *)
Lemma check_spec g t p g' v :
  check g t p = (g', v) →
  let h := compute_hash t p in
  config g' = config g ∧
  total_calls g' = wrapping_add_u32 (total_calls g) 1 ∧
  blocked_outcomes g' = blocked_outcomes g ∧ outcome_counts g' = outcome_counts g ∧
  if (global_circuit_breaker (config g) <? total_calls g')%Z
  then is_circuit_break v = true ∧ call_counts g' = call_counts g ∧ recent_calls g' = recent_calls g
  else
    is_circuit_break v = false ∧
    (∃ k, recent_calls g' = drop k (recent_calls g) ++ [h]) ∧
    if bool_decide (h ∈ blocked_outcomes g)
    then passes v = false ∧ call_counts g' = call_counts g
    else call_counts g' = bump (call_counts g) h ∧
         (passes v = true →
          count (call_counts g') h < effective_block (config g) t p)%Z.
Proof.
  intros Hc h. unfold check in Hc. fold h in Hc. cbv zeta in Hc.
  change (config (incr_total g)) with (config g) in Hc.
  change (total_calls (incr_total g)) with (wrapping_add_u32 (total_calls g) 1) in Hc.
  destruct (_ <? _)%Z eqn:Eb in Hc; [simplify_eq; cbn; by rewrite Eb|].
  assert (∃ k, recent_calls (remember_call (incr_total g) h t) = drop k (recent_calls g) ++ [h])
    as Hrecent.
  { unfold remember_call. cbn [recent_calls incr_total].
    destruct (HISTORY_SIZE <=? length (recent_calls g)); [by exists 1|by exists 0]. }
  set (g1 := remember_call (incr_total g) h t) in *.
  assert (config g1 = config g ∧ total_calls g1 = wrapping_add_u32 (total_calls g) 1 ∧
          blocked_outcomes g1 = blocked_outcomes g ∧ outcome_counts g1 = outcome_counts g ∧
          call_counts g1 = call_counts g)
    as (E1 & E2 & E3 & E4 & E5) by done.
  clearbody g1. rewrite E3 in Hc. cbn [config set_call_counts call_counts] in Hc.
  rewrite E5, E1 in Hc. cbv zeta.
  destruct (bool_decide (h ∈ blocked_outcomes g)).
  { simplify_eq. cbn. rewrite E1, E2, E3, E4, E5, Eb. split_and!; auto. }
  destruct (Z.leb_spec (effective_block (config g) t p) (count (bump (call_counts g) h) h))
    as [Hblock|Hblock].
  { simplify_eq. cbn. rewrite E1, E2, E3, E4, Eb. split_and!; auto; done. }
  destruct (effective_warn (config g) t p <=? _)%Z.
  { destruct (_ <? _)%Z in Hc; simplify_eq; cbn; rewrite E1, E2, E3, E4, Eb; split_and!; auto. }
  unfold check_ping_pong in Hc.
  repeat case_match; simplify_eq; cbn in *; rewrite E1, E2, E3, E4; split_and!; auto; congruence.
Qed.

Lemma record_outcome_spec g t p r :
  let g' := (record_outcome g t p r).1 in
  let o := compute_outcome_hash t p r in
  config g' = config g ∧ total_calls g' = total_calls g ∧ call_counts g' = call_counts g ∧
  recent_calls g' = recent_calls g ∧ outcome_counts g' = bump (outcome_counts g) o ∧
  blocked_outcomes g ⊆ blocked_outcomes g' ∧
  ((outcome_block_threshold (config g) ≤ count (outcome_counts g') o)%Z →
   compute_hash t p ∈ blocked_outcomes g').
Proof.
  intros g' o. subst g' o. unfold record_outcome.
  destruct (Z.leb_spec (outcome_block_threshold (config g))
    (count (bump (outcome_counts g) (compute_outcome_hash t p r)) (compute_outcome_hash t p r)))
    as [Hle|Hlt]; [|destruct (_ <=? _)%Z]; cbn; split_and!; try done; try lia; set_solver.
Qed.

Lemma get_poll_backoff_frame g t p :
  let g' := (get_poll_backoff g t p).1 in
  config g' = config g ∧ total_calls g' = total_calls g ∧ call_counts g' = call_counts g ∧
  recent_calls g' = recent_calls g ∧ outcome_counts g' = outcome_counts g ∧
  blocked_outcomes g' = blocked_outcomes g.
Proof. unfold get_poll_backoff. repeat case_match; done. Qed.

(** ** The invariant of a run *)

Definition is_check (o : op) : bool := match o with Check _ _ => true | _ => false end.
Definition is_outcome (o : op) : bool := match o with Outcome _ _ _ => true | _ => false end.
Definition number (f : op → bool) (ops : list op) : Z := Z.of_nat (length (List.filter f ops)).

Definition occ (h : str) (l : list str) : Z := Z.of_nat (length (filter (λ x, x = h) l)).

Lemma number_snoc f ops o : number f (ops ++ [o]) = (number f ops + if f o then 1 else 0)%Z.
Proof.
  unfold number. rewrite List.filter_app, length_app. simpl. destruct (f o); simpl; lia.
Qed.

Lemma occ_snoc h l x : occ h (l ++ [x]) = (occ h l + if decide (x = h) then 1 else 0)%Z.
Proof.
  unfold occ. rewrite filter_app, length_app, filter_cons, filter_nil.
  destruct (decide (x = h)); simpl; lia.
Qed.

Lemma occ_drop h k l : (0 ≤ occ h (drop k l) ≤ occ h l)%Z.
Proof.
  unfold occ. rewrite <-(take_drop k l) at 3. rewrite filter_app, length_app. lia.
Qed.

Record run_inv (cfg : LoopGuardConfig) (ops : list op) (g : LoopGuard) : Prop := {
  ri_config : config g = cfg;
  ri_total : total_calls g = number is_check ops;
  ri_counts h : (0 ≤ count (call_counts g) h ≤ number is_check ops)%Z;
  ri_outcomes h : (0 ≤ count (outcome_counts g) h ≤ number is_outcome ops)%Z;
  ri_recent h : h ∉ blocked_outcomes g → (occ h (recent_calls g) ≤ count (call_counts g) h)%Z
}.

Lemma run_inv_init cfg : run_inv cfg [] (new_guard cfg).
Proof. by split. Qed.

Lemma run_inv_check cfg ops g t p g' v :
  (number is_check ops + 1 ≤ u32_max)%Z → run_inv cfg ops g → check g t p = (g', v) →
  run_inv cfg (ops ++ [Check t p]) g'.
Proof.
  intros Hn Hi Hc. apply check_spec in Hc as (E1 & E2 & E3 & E4 & Hrest).
  destruct Hi as [I1 I2 I3 I4 I5]. set (h := compute_hash t p) in *.
  assert (0 ≤ number is_check ops)%Z by (unfold number; lia).
  assert (∀ k, call_counts g' = call_counts g ∨
               call_counts g' = bump (call_counts g) h →
               (count (call_counts g) k ≤ count (call_counts g') k
                ≤ count (call_counts g) k + 1)%Z) as Hcount.
  { intros k [->| ->]; [lia|]. destruct (decide (h = k)) as [<-|].
    - rewrite count_bump_eq. specialize (I3 h). rewrite wrapping_add_u32_small; lia.
    - rewrite count_bump_ne by done. lia. }
  assert (call_counts g' = call_counts g ∨ call_counts g' = bump (call_counts g) h) as Hcc
    by (repeat case_match; naive_solver).
  split.
  - congruence.
  - rewrite E2, I2, number_snoc. simpl. apply wrapping_add_u32_small; lia.
  - intros k. rewrite number_snoc. simpl. specialize (I3 k). specialize (Hcount k Hcc). lia.
  - intros k. rewrite number_snoc, E4. simpl. specialize (I4 k). lia.
  - intros k. rewrite E3. intros Hk. specialize (I5 k Hk). specialize (Hcount k Hcc).
    destruct (_ <? _)%Z; [destruct Hrest as (_ & _ & ->); lia|].
    destruct Hrest as (_ & (m & ->) & Hrest). rewrite occ_snoc.
    pose proof (occ_drop k m (recent_calls g)). destruct (decide (h = k)) as [<-|]; [|lia].
    rewrite bool_decide_eq_false_2 in Hrest by done. destruct Hrest as [-> _].
    rewrite count_bump_eq. specialize (I3 h). rewrite wrapping_add_u32_small; lia.
Qed.

Lemma run_inv_outcome cfg ops g t p r :
  (number is_outcome ops + 1 ≤ u32_max)%Z → run_inv cfg ops g →
  run_inv cfg (ops ++ [Outcome t p r]) (record_outcome g t p r).1.
Proof.
  intros Hn [I1 I2 I3 I4 I5].
  destruct (record_outcome_spec g t p r) as (E1 & E2 & E3 & E4 & E5 & E6 & _).
  split.
  - congruence.
  - rewrite E2, I2, number_snoc. simpl. lia.
  - intros k. rewrite E3, number_snoc. simpl. specialize (I3 k). lia.
  - intros k. rewrite E5, number_snoc. simpl. specialize (I4 k).
    destruct (decide (compute_outcome_hash t p r = k)) as [<-|].
    + rewrite count_bump_eq, wrapping_add_u32_small; lia.
    + rewrite count_bump_ne by done. lia.
  - intros k Hk. rewrite E3, E4. apply I5. set_solver.
Qed.

(** A run in which the [u32] counters do not wrap. *)
Definition counters_fit (ops : list op) : Prop := (Z.of_nat (length ops) ≤ u32_max)%Z.

Lemma number_length f ops : (0 ≤ number f ops ≤ Z.of_nat (length ops))%Z.
Proof. unfold number. pose proof (List.filter_length_le f ops). lia. Qed.

Lemma counters_fit_snoc ops o :
  counters_fit (ops ++ [o]) → counters_fit ops ∧ ∀ f, (number f ops + 1 ≤ u32_max)%Z.
Proof.
  unfold counters_fit. rewrite length_app. simpl. intros Hfit. split; [lia|].
  intros f. pose proof (number_length f ops). lia.
Qed.

Lemma run_invariant cfg ops : counters_fit ops → run_inv cfg ops (run cfg ops).1.
Proof.
  induction ops as [|o ops IH] using rev_ind; [intros; apply run_inv_init|].
  intros [Hfit Hn]%counters_fit_snoc. specialize (IH Hfit). rewrite run_snoc.
  destruct o as [t p|t p r|t p]; simpl.
  - destruct (check (run cfg ops).1 t p) as [g' v] eqn:E. simpl. by eapply run_inv_check.
  - by apply run_inv_outcome.
  - destruct (get_poll_backoff_frame (run cfg ops).1 t p) as (E1 & E2 & E3 & E4 & E5 & E6).
    destruct IH as [I1 I2 I3 I4 I5]. split; rewrite ?number_snoc; simpl; intros *.
    + congruence.
    + rewrite E2, I2. lia.
    + rewrite E3. specialize (I3 h). lia.
    + rewrite E5. specialize (I4 h). lia.
    + rewrite E3, E4, E6. apply I5.
Qed.

Lemma run_length cfg ops : Z.of_nat (length (run cfg ops).2) = number is_check ops.
Proof.
  induction ops as [|o ops IH] using rev_ind; [done|]. rewrite run_snoc, number_snoc.
  destruct o; simpl; [|lia..]. destruct (check _ _ _). simpl. rewrite length_app. simpl. lia.
Qed.

(** The times a call was let through. *)
Context `{EqDecision Json}.

Definition passed (t : str) (p : Json) (vs : verdicts) : Z :=
  Z.of_nat (length (List.filter (λ x, bool_decide (x.1 = (t, p)) && passes x.2) vs)).

Lemma passed_snoc t p vs t' p' v :
  passed t p (vs ++ [(t', p', v)]) =
  (passed t p vs + if bool_decide ((t', p') = (t, p)) && passes v then 1 else 0)%Z.
Proof.
  unfold passed. rewrite List.filter_app, length_app. simpl. destruct (_ && _); simpl; lia.
Qed.

(** The counter of a call that still gets through is exact. *)
Lemma run_passed cfg ops t p :
  counters_fit ops →
  (passed t p (run cfg ops).2 ≤ count (call_counts (run cfg ops).1) (compute_hash t p))%Z ∧
  (passed t p (run cfg ops).2 ≤ Z.max 0 (effective_block cfg t p - 1))%Z.
Proof.
  induction ops as [|o ops IH] using rev_ind; [intros _; split; [done|apply Z.le_max_l]|].
  intros [Hfit Hn]%counters_fit_snoc. destruct (IH Hfit) as [IH1 IH2].
  destruct (run_invariant cfg ops Hfit) as [I1 I2 I3 I4 _]. rewrite run_snoc.
  destruct o as [t' p'|t' p' r|t' p']; cbn [step].
  - destruct (check (run cfg ops).1 t' p') as [g' v] eqn:E. cbn [fst snd].
    apply check_spec in E as (E1 & _ & _ & _ & Hrest). rewrite passed_snoc.
    set (h := compute_hash t' p') in *. specialize (Hn is_check). pose proof (I3 h) as I3h.
    assert (count (bump (call_counts (run cfg ops).1) h) h
            = count (call_counts (run cfg ops).1) h + 1)%Z as Hb
      by (rewrite count_bump_eq; apply wrapping_add_u32_small; lia).
    assert (∀ k, count (call_counts (run cfg ops).1) k
                 ≤ count (bump (call_counts (run cfg ops).1) h) k)%Z as Hmono.
    { intros k. destruct (decide (h = k)) as [<-|]; [lia|]. rewrite count_bump_ne by done. lia. }
    specialize (Hmono (compute_hash t p)).
    destruct (_ <? _)%Z.
    { destruct Hrest as (Hv & -> & _). destruct v; try done. rewrite andb_false_r. lia. }
    destruct Hrest as (_ & _ & Hrest). destruct (bool_decide (h ∈ _)).
    { destruct Hrest as (Hv & ->). rewrite Hv, andb_false_r. lia. }
    destruct Hrest as [-> Hlt]. destruct (bool_decide ((t', p') = (t, p)) && passes v) eqn:Ep;
      [|lia]. apply andb_true_iff in Ep as [Ht Hv]. apply bool_decide_eq_true in Ht.
    injection Ht as -> ->. specialize (Hlt Hv). rewrite I1 in Hlt. subst h. lia.
  - destruct (record_outcome_spec (run cfg ops).1 t' p' r) as (_ & _ & E3 & _). simpl.
    rewrite E3. done.
  - destruct (get_poll_backoff_frame (run cfg ops).1 t' p') as (_ & _ & E3 & _). simpl.
    rewrite E3. done.
Qed.

(** ** Theorems *)

(** C34: The global circuit breaker is exact: the verdict of the [i]-th check of
    a run (from zero) is [CircuitBreak] if and only if [i] is at least the
    configured number of calls, whatever the calls and whatever is recorded
    between them. *)
Theorem circuit_breaker_exact cfg ops i t p v :
  counters_fit ops → (run cfg ops).2 !! i = Some (t, p, v) →
  is_circuit_break v = true ↔ (global_circuit_breaker cfg ≤ Z.of_nat i)%Z.
Proof.
  induction ops as [|o ops IH] using rev_ind; [done|].
  intros [Hfit Hn]%counters_fit_snoc. specialize (IH Hfit).
  pose proof (run_invariant cfg ops Hfit) as [I1 I2 _ _ _]. pose proof (run_length cfg ops) as Hlen.
  rewrite run_snoc. destruct o as [t' p'|t' p' r|t' p']; simpl; [|done..].
  destruct (check (run cfg ops).1 t' p') as [g' v'] eqn:E. simpl.
  intros [Hi|[Hge Hi]]%lookup_app_Some; [auto|].
  destruct (i - length (run cfg ops).2) eqn:Hd; [|done]. simplify_eq/=.
  apply check_spec in E as (E1 & E2 & _ & _ & Hrest). specialize (Hn is_check).
  assert (Z.of_nat i = number is_check ops) as Hi by lia.
  pose proof (number_length is_check ops). rewrite I2, wrapping_add_u32_small in E2 by lia.
  destruct (Z.ltb_spec (global_circuit_breaker (config (run cfg ops).1)) (total_calls g'));
    rewrite I1 in *; destruct Hrest as [-> _]; split; try done; lia.
Qed.

(** A call is let through fewer times than its block threshold: over any
    run, the verdicts other than [Block] and [CircuitBreak] for one tool and
    parameters number at most the threshold (times the poll multiplier for
    polling calls) minus one. *)
Theorem identical_calls_bounded cfg ops t p :
  counters_fit ops →
  (passed t p (run cfg ops).2 ≤ Z.max 0 (effective_block cfg t p - 1))%Z.
Proof. intros Hfit. by apply run_passed. Qed.

(** The times an outcome was recorded. *)
Definition is_outcome_of (t : str) (p : Json) (r : str) (o : op) : bool :=
  match o with
  | Outcome t' p' r' => bool_decide ((t', p', r') = (t, p, r))
  | _ => false
  end.

Lemma run_outcomes cfg ops t p r :
  counters_fit ops →
  (number (is_outcome_of t p r) ops
     ≤ count (outcome_counts (run cfg ops).1) (compute_outcome_hash t p r))%Z ∧
  ((0 < number (is_outcome_of t p r) ops)%Z →
   (outcome_block_threshold cfg ≤ number (is_outcome_of t p r) ops)%Z →
   compute_hash t p ∈ blocked_outcomes (run cfg ops).1).
Proof.
  induction ops as [|o ops IH] using rev_ind; [intros _; split; [done|by intros ?]|].
  intros [Hfit Hn]%counters_fit_snoc. destruct (IH Hfit) as [IH1 IH2].
  destruct (run_invariant cfg ops Hfit) as [I1 I2 I3 I4 _]. rewrite run_snoc, number_snoc.
  destruct o as [t' p'|t' p' r'|t' p']; cbn [step is_outcome_of].
  - destruct (check (run cfg ops).1 t' p') as [g' v] eqn:E. cbn [fst snd].
    apply check_spec in E as (_ & _ & -> & -> & _). by rewrite Z.add_0_r.
  - destruct (record_outcome_spec (run cfg ops).1 t' p' r') as (_ & _ & _ & _ & E5 & E6 & E7).
    cbn [fst]. rewrite E5 in *. specialize (Hn is_outcome).
    specialize (I4 (compute_outcome_hash t' p' r')).
    assert (count (bump (outcome_counts (run cfg ops).1) (compute_outcome_hash t' p' r'))
              (compute_outcome_hash t' p' r')
            = count (outcome_counts (run cfg ops).1) (compute_outcome_hash t' p' r') + 1)%Z as Hb
      by (rewrite count_bump_eq; apply wrapping_add_u32_small; lia).
    case_bool_decide as Heq.
    + injection Heq as -> -> ->. split; [lia|]. intros _ Hle. apply E7. rewrite I1. lia.
    + rewrite Z.add_0_r. split; [|set_solver].
      destruct (decide (compute_outcome_hash t' p' r' = compute_outcome_hash t p r)) as [Eh|].
      * rewrite Eh in *. lia.
      * by rewrite count_bump_ne.
  - cbn [fst].
    destruct (get_poll_backoff_frame (run cfg ops).1 t' p') as (_ & _ & _ & _ & -> & ->).
    by rewrite Z.add_0_r.
Qed.

(** Once the same call has produced the same result [outcome_block_threshold]
    times, in any run and with any other operations in between, every further
    check of that call is refused. *)
Theorem repeated_outcome_blocks cfg ops t p r :
  counters_fit ops → (0 < number (is_outcome_of t p r) ops)%Z →
  (outcome_block_threshold cfg ≤ number (is_outcome_of t p r) ops)%Z →
  passes (check (run cfg ops).1 t p).2 = false.
Proof.
  intros Hfit Hpos Hle. destruct (run_outcomes cfg ops t p r Hfit) as [_ Hin].
  destruct (check _ t p) as [g' v] eqn:E. apply check_spec in E as (_ & _ & _ & _ & Hrest).
  destruct (_ <? _)%Z; [destruct Hrest as [Hv _]; by destruct v|].
  rewrite bool_decide_eq_true_2 in Hrest by auto. tauto.
Qed.

(** ** Ping-pong *)

(** Where a verdict comes from: the circuit breaker, the counters, or the
    ping-pong stage, which is reached below the warning threshold only. *)
Lemma check_origin g t p g' v :
  check g t p = (g', v) →
  let h := compute_hash t p in
  is_circuit_break v = true ∨
  (∃ msg, v = Block (lit "Blocked" ++ msg) ∨ v = Warn (lit "Warning" ++ msg)) ∨
  (∃ g1, check_ping_pong g1 h = (g', v) ∧ recent_calls g1 = recent_calls g' ∧
         config g1 = config g ∧ (h ∉ blocked_outcomes g') ∧
         (count (call_counts g') h < effective_warn (config g) t p)%Z).
Proof.
  intros Hc h. unfold check in Hc. fold h in Hc. cbv zeta in Hc.
  destruct (_ <? _)%Z in Hc; [left; by simplify_eq|].
  set (g1 := remember_call (incr_total g) h t) in *.
  assert (config g1 = config g) as E1 by done. clearbody g1.
  case_bool_decide as Hbl; [right; left; simplify_eq; eexists; left; done|].
  cbn [config set_call_counts call_counts] in Hc. rewrite E1 in Hc.
  destruct (effective_block _ _ _ <=? _)%Z; [right; left; simplify_eq; eexists; left; done|].
  destruct (Z.leb_spec (effective_warn (config g) t p)
    (count (bump (call_counts g1) h) h)).
  { right. left. destruct (_ <? _)%Z in Hc; simplify_eq; eexists; [left; done|right; done]. }
  right. right. set (g2 := set_call_counts g1 (bump (call_counts g1) h)) in *. exists g2.
  split; [done|]. assert (config g2 = config g) as E2 by done.
  assert (recent_calls g' = recent_calls g2 ∧ blocked_outcomes g' = blocked_outcomes g1 ∧
          call_counts g' = bump (call_counts g1) h) as (-> & -> & ->).
  { unfold check_ping_pong in Hc. repeat case_match; by simplify_eq. }
  done.
Qed.

(** With the default minimum of three repeats or fewer, a call is never
    allowed without a warning when it completes three rounds of a cycle of two
    or three calls that are not all the same; and the detector fires on
    exactly these histories. *)
Theorem ping_pong_caught g t p g' v :
  check g t p = (g', v) → (ping_pong_min_repeats (config g) ≤ 3)%Z →
  is_circuit_break v = false → cycles (recent_calls g') →
  v ≠ Allow ∧ is_Some (detect_ping_pong g').
Proof.
  intros Hc Hmin Hv Hcyc. split; [|by apply detect_ping_pong_spec].
  apply check_origin in Hc as [?|[(msg & [->| ->])|(g1 & Hpp & Hr & Hcfg & _)]];
    [congruence|done|done|].
  unfold check_ping_pong in Hpp. rewrite <-Hr in Hcyc.
  pose proof (cycles_repeats _ Hcyc). apply detect_ping_pong_spec in Hcyc as [msg Hmsg].
  rewrite Hmsg, (proj2 (Z.leb_le _ _)) in Hpp by (rewrite Hcfg; lia). by simplify_eq.
Qed.

Lemma cycles_occ pre h : cycles (pre ++ [h]) → (3 ≤ occ h (pre ++ [h]))%Z.
Proof.
  intros [(pre' & a & b & E & _)|(pre' & a & b & c & E & _)]%cycles_shapes; rewrite E;
    [replace (pre' ++ [a; b; a; b; a; b]) with ((pre' ++ [a; b; a; b; a]) ++ [b]) in *
       by (by rewrite <-app_assoc)
    |replace (pre' ++ [a; b; c; a; b; c; a; b; c])
       with ((pre' ++ [a; b; c; a; b; c; a; b]) ++ [c]) in * by (by rewrite <-app_assoc)];
    apply app_inj_tail in E as [_ ->]; unfold occ;
    rewrite !filter_app, !length_app; simpl; rewrite ?decide_True by done;
    rewrite !filter_cons, !filter_nil;
    repeat case_decide; simpl; lia || done.
Qed.

(** With the default thresholds the ping-pong detector never decides
    anything for a call that is not a polling call: the third round of a cycle
    is also the third identical call, for which the counters answer first. *)
Theorem ping_pong_shadowed cfg ops t p g' v msg :
  counters_fit (ops ++ [Check t p]) → (0 ≤ warn_threshold cfg ≤ 3)%Z →
  is_poll_call t p = false → check (run cfg ops).1 t p = (g', v) →
  v = Warn msg ∨ v = Block msg → starts_with msg (lit "Ping-pong detected") = false.
Proof.
  intros [Hfit Hn]%counters_fit_snoc Hw Hpoll Hc Hv. apply not_true_iff_false.
  intros [rest Hmsg]%starts_with_spec. pose proof (run_invariant cfg ops Hfit) as Hinv.
  pose proof (run_inv_check cfg ops _ t p g' v (Hn _) Hinv Hc) as [_ _ _ _ I5].
  pose proof (check_spec _ _ _ _ _ Hc) as (_ & _ & _ & _ & Hrest).
  pose proof (ri_config _ _ _ Hinv) as Hcfg.
  apply check_origin in Hc as [Hcb|[(m & Hm)|(g1 & Hpp & Hr & Hcfg1 & Hbl & Hcount)]].
  - destruct Hv as [->| ->]; done.
  - destruct Hv as [->| ->], Hm as [[= ->]|[= ->]]; done.
  - specialize (I5 _ Hbl). rewrite Hcfg in Hcount. unfold effective_warn, multiplier in Hcount.
    rewrite Hpoll in Hcount. unfold wrapping_mul_u32 in Hcount.
    rewrite Z.mod_small in Hcount by (unfold u32_max; lia).
    destruct (_ <? _)%Z; [destruct Hrest as [? _]; by destruct Hv as [->| ->]|].
    destruct Hrest as (_ & (k & Hk) & _). rewrite Hk in *.
    assert (is_Some (detect_ping_pong g1)) as Hd%detect_ping_pong_spec.
    { unfold check_ping_pong in Hpp. destruct (detect_ping_pong g1); [eauto|].
      destruct Hv as [->| ->]; congruence. }
    rewrite Hr in Hd. apply cycles_occ in Hd. lia.
Qed.
End guard.

(** ** Witnesses

    Parameters are plain texts and the digest is the identity. *)

Definition demo_text (s : str) : str := s.
Definition demo_no_command (s : str) : option str := None.
Local Abbreviation demo_run := (run demo_text demo_no_command demo_text).
Local Abbreviation demo_check := (check demo_text demo_no_command demo_text).
Definition demo_calls : list (op (Json := str)) :=
  [Check (lit "a") []; Check (lit "a") []; Check (lit "a") []].

Lemma circuit_breaker_exact_witness :
  is_circuit_break (CircuitBreak (lit "Circuit breaker: exceeded 2 total tool calls in this loop. The agent appears to be stuck.")) = true ↔ (2 ≤ 2)%Z.
Proof.
  apply (circuit_breaker_exact demo_text demo_no_command demo_text (mkConfig 3 5 2 3 2 3 3 3) demo_calls 2
    (lit "a") []).
  - unfold counters_fit. vm_compute. discriminate.
  - vm_compute. reflexivity.
Defined.

Lemma identical_calls_bounded_witness :
  passed (lit "a") [] (demo_run (mkConfig 1 3 30 3 2 3 3 3) demo_calls).2 = 2%Z ∧
  (passed (lit "a") [] (demo_run (mkConfig 1 3 30 3 2 3 3 3) demo_calls).2
     ≤ Z.max 0 (effective_block demo_text demo_no_command (mkConfig 1 3 30 3 2 3 3 3) (lit "a") [] - 1))%Z.
Proof.
  split; [vm_compute; reflexivity|].
  apply (identical_calls_bounded demo_text demo_no_command demo_text). unfold counters_fit. vm_compute. discriminate.
Defined.

Lemma repeated_outcome_blocks_witness :
  passes (demo_check (demo_run default_config
    [Outcome (lit "a") [] (lit "r"); Check (lit "a") []; Outcome (lit "a") [] (lit "r");
     Outcome (lit "a") [] (lit "r")]).1 (lit "a") []).2 = false.
Proof.
  apply (repeated_outcome_blocks demo_text demo_no_command demo_text _ _ (lit "a") [] (lit "r")).
  - unfold counters_fit. vm_compute. discriminate.
  - vm_compute. reflexivity.
  - vm_compute. discriminate.
Defined.

Definition demo_pong : LoopGuard :=
  (demo_run (mkConfig 10 20 30 3 2 3 3 3)
    [Check (lit "a") []; Check (lit "b") []; Check (lit "a") []; Check (lit "b") [];
     Check (lit "a") []]).1.

Lemma ping_pong_caught_witness :
  (demo_check demo_pong (lit "b") []).2 ≠ Allow ∧
  is_Some (detect_ping_pong (demo_check demo_pong (lit "b") []).1).
Proof.
  apply (ping_pong_caught demo_text demo_no_command demo_text demo_pong (lit "b") []).
  - apply surjective_pairing.
  - vm_compute. discriminate.
  - vm_compute. reflexivity.
  - exists [], [lit "a|"; lit "b|"]. split; [vm_compute; reflexivity|]. split; [left; reflexivity|].
    intros [x Hx]. apply Forall_cons in Hx as [<- Hx]. apply Forall_cons in Hx as [Hx _].
    discriminate.
Defined.

Lemma ping_pong_shadowed_witness :
  starts_with (lit "Warning: tool 'b' has been called 3 times with identical parameters. Consider a different approach.")
    (lit "Ping-pong detected") = false.
Proof.
  set (ops := [Check (lit "a") []; Check (lit "b") []; Check (lit "a") []; Check (lit "b") [];
               Check (lit "a") []] : list (op (Json := str))).
  apply (ping_pong_shadowed demo_text demo_no_command demo_text default_config ops (lit "b") []
    (demo_check (demo_run default_config ops).1 (lit "b") []).1
    (demo_check (demo_run default_config ops).1 (lit "b") []).2).
  - unfold counters_fit. vm_compute. discriminate.
  - split; vm_compute; discriminate.
  - vm_compute. reflexivity.
  - apply surjective_pairing.
  - left. vm_compute. reflexivity.
Defined.
