(* ===== verification/AuditChain.v ===== *)
(** * The audit trail

    [openfang-runtime/src/audit.rs]: an append-only log in which every entry
    holds the SHA-256 digest of its own fields and of the entry before it. The
    digest, in hexadecimal, is the parameter [sha256_hex]; the timestamp of an
    entry is an argument of [record]. Both mutexes are held during [record],
    which is therefore one step. *)

From Stdlib Require Import Ascii ZArith Lia.
From stdpp Require Import base strings list sets.
From S2P Require Import Prelude Strs.

Inductive AuditAction : Type :=
| ToolInvoke | CapabilityCheck | AgentSpawn | AgentKill | AgentMessage | MemoryAccess
| FileAccess | NetworkAccess | ShellExec | AuthAttempt | WireConnect | ConfigChange.

(** [to_string], which is the [Debug] name. *)
Definition audit_action_to_string (a : AuditAction) : str :=
  match a with
  | ToolInvoke => lit "ToolInvoke"
  | CapabilityCheck => lit "CapabilityCheck"
  | AgentSpawn => lit "AgentSpawn"
  | AgentKill => lit "AgentKill"
  | AgentMessage => lit "AgentMessage"
  | MemoryAccess => lit "MemoryAccess"
  | FileAccess => lit "FileAccess"
  | NetworkAccess => lit "NetworkAccess"
  | ShellExec => lit "ShellExec"
  | AuthAttempt => lit "AuthAttempt"
  | WireConnect => lit "WireConnect"
  | ConfigChange => lit "ConfigChange"
  end.

Record AuditEntry : Type := mkAuditEntry {
  seq : Z;
  timestamp : str;
  agent_id : str;
  action : AuditAction;
  detail : str;
  outcome : str;
  prev_hash : str;
  hash : str
}.

Record AuditLog : Type := mkAuditLog { entries : list AuditEntry; tip : str }.

(** ["0".repeat(64)] *)
Definition genesis : str := replicate 64 "0"%char.

(** The bytes fed to the hasher before the previous hash. *)
Definition hashed_fields (seq : Z) (timestamp agent_id : str) (action : AuditAction)
    (detail outcome : str) : str :=
  show_Z seq ++ timestamp ++ agent_id ++ audit_action_to_string action ++ detail ++ outcome.

Section audit.
Context (sha256_hex : str → str).

Definition compute_entry_hash (seq : Z) (timestamp agent_id : str) (action : AuditAction)
    (detail outcome prev_hash : str) : str :=
  sha256_hex (hashed_fields seq timestamp agent_id action detail outcome ++ prev_hash).

Definition new : AuditLog := mkAuditLog [] genesis.

Definition record (l : AuditLog) (now agent_id : str) (action : AuditAction)
    (detail outcome : str) : AuditLog * str :=
  let seq := Z.of_nat (length (entries l)) in
  let prev_hash := tip l in
  let hash := compute_entry_hash seq now agent_id action detail outcome prev_hash in
  (mkAuditLog
     (entries l ++ [mkAuditEntry seq now agent_id action detail outcome prev_hash hash]) hash,
   hash).

(** The loop of [verify_integrity]. *)
Fixpoint verify_from (expected_prev : str) (es : list AuditEntry) : result unit str :=
  match es with
  | [] => Ok tt
  | e :: es =>
      if negb (str_eqb (prev_hash e) expected_prev) then
        Err (lit "chain break at seq " ++ show_Z (seq e) ++ lit ": expected prev_hash "
             ++ expected_prev ++ lit " but found " ++ prev_hash e)
      else
        let recomputed := compute_entry_hash (seq e) (timestamp e) (agent_id e) (action e)
                            (detail e) (outcome e) (prev_hash e) in
        if negb (str_eqb recomputed (hash e)) then
          Err (lit "hash mismatch at seq " ++ show_Z (seq e) ++ lit ": expected "
               ++ recomputed ++ lit " but found " ++ hash e)
        else verify_from (hash e) es
  end.

Definition verify_integrity (l : AuditLog) : result unit str := verify_from genesis (entries l).

Definition tip_hash (l : AuditLog) : str := tip l.
Definition len (l : AuditLog) : nat := length (entries l).
Definition is_empty (l : AuditLog) : bool :=
  match entries l with [] => true | _ :: _ => false end.

(** [entries[start..]] with [start] saturating at zero. *)
Definition recent (l : AuditLog) (n : nat) : list AuditEntry :=
  drop (length (entries l) - n) (entries l).

(** ** The chain *)

(** The logs the program can build: any sequence of [record]s. *)
Inductive Reachable : AuditLog → Prop :=
| reach_new : Reachable new
| reach_record l now agent_id action detail outcome :
    Reachable l → Reachable (record l now agent_id action detail outcome).1.

Definition fields (e : AuditEntry) : str :=
  hashed_fields (seq e) (timestamp e) (agent_id e) (action e) (detail e) (outcome e).

(** An entry follows [prev] in the chain. *)
Definition follows (prev : str) (e : AuditEntry) : Prop :=
  prev_hash e = prev ∧ hash e = sha256_hex (fields e ++ prev).

Fixpoint chained (prev : str) (es : list AuditEntry) : Prop :=
  match es with
  | [] => True
  | e :: es => follows prev e ∧ chained (hash e) es
  end.

(** The hash the chain ends with. *)
Definition final (prev : str) (es : list AuditEntry) : str := default prev (hash <$> last es).

Lemma final_cons prev e es : final prev (e :: es) = final (hash e) es.
Proof. unfold final. rewrite last_cons. by destruct (last es). Qed.

Lemma final_snoc prev es e : final prev (es ++ [e]) = hash e.
Proof. unfold final. by rewrite last_snoc. Qed.

Lemma chained_app prev es es' :
  chained prev (es ++ es') ↔ chained prev es ∧ chained (final prev es) es'.
Proof.
  revert prev. induction es as [|e es IH]; intros prev; [unfold final; simpl; tauto|].
  simpl. rewrite IH, final_cons. tauto.
Qed.

Lemma verify_from_spec prev es : verify_from prev es = Ok tt ↔ chained prev es.
Proof.
  revert prev. induction es as [|e es IH]; intros prev; [done|]. cbn [verify_from chained].
  unfold compute_entry_hash, follows, fields.
  destruct (str_eqb (prev_hash e) prev) eqn:E1; simpl.
  2: { split; [done|]. intros [[H _] _]. apply str_eqb_spec in H. congruence. }
  apply str_eqb_spec in E1. subst prev.
  destruct (str_eqb _ (hash e)) eqn:E2; simpl.
  - rewrite str_eqb_spec in E2. rewrite IH, E2. tauto.
  - split; [done|]. intros [[_ H] _]. symmetry in H. apply str_eqb_spec in H. congruence.
Qed.

(** The two entries say the same to the hasher and sit at the same place of
    the chain. *)
Definition same_entry (e e' : AuditEntry) : Prop :=
  fields e = fields e' ∧ prev_hash e = prev_hash e' ∧ hash e = hash e'.

(** Two different texts of entries with one digest. *)
Definition collision (es es' : list AuditEntry) : Prop :=
  ∃ e e', e ∈ es ∧ e' ∈ es' ∧ fields e ++ prev_hash e ≠ fields e' ++ prev_hash e' ∧
    sha256_hex (fields e ++ prev_hash e) = sha256_hex (fields e' ++ prev_hash e').

(** An entry whose digest is the sentinel of the empty log. *)
Definition zero_digest (es : list AuditEntry) : Prop :=
  ∃ e, e ∈ es ∧ sha256_hex (fields e ++ prev_hash e) = genesis.

Section tampering.
Context (sha256_len : ∀ x, length (sha256_hex x) = 64).

Lemma length_final es : chained genesis es → length (final genesis es) = 64.
Proof.
  induction es as [|e es _] using rev_ind; [done|].
  rewrite chained_app, final_snoc. intros (_ & [_ ->] & _). apply sha256_len.
Qed.

Lemma chained_determined es es' :
  chained genesis es → chained genesis es' → final genesis es = final genesis es' →
  Forall2 same_entry es es' ∨ collision es es' ∨ zero_digest es ∨ zero_digest es'.
Proof.
  revert es'. induction es as [|e es IH] using rev_ind; intros es' Hc Hc' Hf.
  { destruct es' as [|e' es' _] using rev_ind; [by left; constructor|]. do 3 right.
    apply chained_app in Hc' as (_ & [Hp' Hh'] & _). rewrite final_snoc in Hf.
    exists e'. split; [set_solver|]. by rewrite Hp', <-Hh', <-Hf. }
  destruct es' as [|e' es' _] using rev_ind.
  { do 2 right. left. apply chained_app in Hc as (_ & [Hp Hh] & _). rewrite final_snoc in Hf.
    exists e. split; [set_solver|]. by rewrite Hp, <-Hh, Hf. }
  rewrite !final_snoc in Hf.
  apply chained_app in Hc as (Hc & [Hp Hh] & _), Hc' as (Hc' & [Hp' Hh'] & _).
  destruct (decide (fields e ++ prev_hash e = fields e' ++ prev_hash e')) as [Ht|Ht].
  - rewrite Hp, Hp' in Ht. apply app_inj_2 in Ht as [Hfl Hpr]; [|by rewrite !length_final].
    destruct (IH es' Hc Hc' Hpr) as [H|[(a & b & H)|[(a & H)|(a & H)]]].
    + left. apply Forall2_app; [done|]. repeat constructor; congruence.
    + right. left. exists a, b. set_solver.
    + do 2 right. left. exists a. set_solver.
    + do 3 right. exists a. set_solver.
  - right. left. exists e, e'. rewrite Hp, Hp' in Ht |- *.
    split; [set_solver|]. split; [set_solver|]. split; [done|]. by rewrite <-Hh, <-Hh'.
Qed.
End tampering.

Lemma reachable_inv l :
  Reachable l →
  chained genesis (entries l) ∧ tip l = final genesis (entries l) ∧
  ∀ i e, entries l !! i = Some e → seq e = Z.of_nat i.
Proof.
  induction 1 as [|l now a act d o Hr (Hc & Ht & Hs)]; [done|]. simpl.
  rewrite chained_app, final_snoc. split; [|split; [done|]].
  - split; [done|]. split; [|done]. split; simpl; [done|].
    unfold compute_entry_hash, fields. simpl. by rewrite Ht.
  - intros i e [Hi|[Hi He]]%lookup_app_Some; [by apply Hs|].
    apply list_lookup_singleton_Some in He as [? <-]. simpl. f_equal. lia.
Qed.

Lemma recent_suffix l n :
  ∃ old, entries l = old ++ recent l n ∧ length (recent l n) = length (entries l) `min` n.
Proof.
  exists (take (length (entries l) - n) (entries l)). unfold recent.
  rewrite take_drop, length_drop. split; [done|lia].
Qed.

(** ** Theorems *)

(** The invariant of the log. Whatever is recorded, and in whichever order,
    the log verifies, the tip is the hash of its last entry, entries are
    numbered by their position, [record] only appends and returns the new tip,
    and [recent] is the end of the log. *)
Theorem audit_log_invariant l now agent_id action detail outcome n :
  Reachable l →
  let '(l', h) := record l now agent_id action detail outcome in
  verify_integrity l = Ok tt ∧ verify_integrity l' = Ok tt ∧
  tip_hash l = final genesis (entries l) ∧ tip_hash l' = h ∧
  (∀ i e, entries l !! i = Some e → seq e = Z.of_nat i) ∧
  entries l `prefix_of` entries l' ∧ len l' = len l + 1 ∧
  ∃ old, entries l = old ++ recent l n ∧ length (recent l n) = len l `min` n.
Proof.
  intros Hr. pose proof (reachable_inv l Hr) as (Hc & Ht & Hs).
  pose proof (reachable_inv _ (reach_record l now agent_id action detail outcome Hr)) as (Hc' & _).
  destruct (record l now agent_id action detail outcome) as [l' h] eqn:E.
  unfold verify_integrity. rewrite !verify_from_spec. split; [done|]. split; [done|].
  split; [done|]. injection E as <- <-. split; [done|]. split; [done|].
  split; [by eexists|]. split; [unfold len; simpl; by rewrite length_app|]. apply recent_suffix.
Qed.

(** C24: Tampering. Let [es] be any entries put in the place of a recorded log. If
    they verify and end with the recorded tip, then every entry has the bytes,
    the predecessor and the hash of the recorded one, unless SHA-256 has a
    collision between two of the texts or a text that hashes to 64 zeros. *)
Theorem audit_tamper_evident (sha256_len : ∀ x, length (sha256_hex x) = 64) l es :
  Reachable l → verify_from genesis es = Ok tt → final genesis es = tip_hash l →
  Forall2 same_entry (entries l) es ∨ collision (entries l) es ∨
  zero_digest (entries l) ∨ zero_digest es.
Proof.
  intros (Hc & Ht & _)%reachable_inv Hv%verify_from_spec Hf.
  apply chained_determined; [done..|]. unfold tip_hash in Hf. congruence.
Qed.

(** What verification does not see. It does not look at the tip, so every
    prefix of a log that verifies does too; and since the fields are hashed
    without separators, bytes can be moved from the detail of an entry to its
    outcome. *)
Theorem audit_undetected l k es1 e es2 d x :
  verify_integrity l = Ok tt →
  entries l = es1 ++ e :: es2 → detail e = d ++ x →
  let e' := mkAuditEntry (seq e) (timestamp e) (agent_id e) (action e) d (x ++ outcome e)
              (prev_hash e) (hash e) in
  verify_integrity (mkAuditLog (take k (entries l)) (tip l)) = Ok tt ∧
  verify_integrity (mkAuditLog (es1 ++ e' :: es2) (tip l)) = Ok tt.
Proof.
  unfold verify_integrity. cbn [entries]. rewrite !verify_from_spec. intros Hc He Hd. split.
  - rewrite <-(take_drop k (entries l)) in Hc. by apply chained_app in Hc as [? _].
  - rewrite He in Hc. rewrite chained_app in Hc |- *. destruct Hc as (Hc1 & [Hp Hh] & Hc2).
    split; [done|]. split; [|done]. split; [done|]. cbn [hash]. rewrite Hh.
    unfold fields, hashed_fields. cbn. by rewrite Hd, <-!app_assoc.
Qed.
End audit.

(** ** Witnesses

    A digest of 64 characters that keeps the end of its input, and a log of
    two entries. *)
Definition demo_sha (x : str) : str := take 64 (rev x ++ replicate 64 "a"%char).

Definition demo_log : AuditLog :=
  (record demo_sha
    (record demo_sha new (lit "t0") (lit "agent") ToolInvoke (lit "shell_exec ls") (lit "ok")).1
    (lit "t1") (lit "agent") AgentKill (lit "bye") (lit "denied")).1.

Lemma demo_reachable : Reachable demo_sha demo_log.
Proof. do 2 apply reach_record. apply reach_new. Qed.

Lemma demo_sha_length x : length (demo_sha x) = 64.
Proof. unfold demo_sha. rewrite length_take, length_app, length_replicate. lia. Qed.

Lemma audit_log_invariant_witness :
  let '(l', h) := record demo_sha demo_log (lit "t2") (lit "b") ShellExec [] (lit "ok") in
  verify_integrity demo_sha demo_log = Ok tt ∧ verify_integrity demo_sha l' = Ok tt ∧
  tip_hash demo_log = final genesis (entries demo_log) ∧ tip_hash l' = h ∧
  (∀ i e, entries demo_log !! i = Some e → seq e = Z.of_nat i) ∧
  entries demo_log `prefix_of` entries l' ∧ len l' = len demo_log + 1 ∧
  ∃ old, entries demo_log = old ++ recent demo_log 1 ∧
         length (recent demo_log 1) = len demo_log `min` 1.
Proof.
  exact (audit_log_invariant demo_sha demo_log (lit "t2") (lit "b") ShellExec [] (lit "ok") 1
           demo_reachable).
Defined.

Lemma audit_tamper_evident_witness :
  Forall2 same_entry (entries demo_log) (entries demo_log) ∨
  collision demo_sha (entries demo_log) (entries demo_log) ∨
  zero_digest demo_sha (entries demo_log) ∨ zero_digest demo_sha (entries demo_log).
Proof.
  apply (audit_tamper_evident demo_sha demo_sha_length demo_log (entries demo_log) demo_reachable);
    vm_compute; reflexivity.
Defined.

Lemma audit_undetected_witness :
  ∃ e', outcome e' = lit " lsok" ∧
    verify_integrity demo_sha (mkAuditLog (take 1 (entries demo_log)) (tip demo_log)) = Ok tt ∧
    verify_integrity demo_sha (mkAuditLog ([] ++ e' :: drop 1 (entries demo_log)) (tip demo_log))
    = Ok tt.
Proof.
  destruct (entries demo_log) as [|e es] eqn:E; [discriminate|].
  eexists. split; [|rewrite <-E at 1; simple refine (audit_undetected demo_sha demo_log 1 [] e es
    (lit "shell_exec") (lit " ls") _ _ _)]; try exact E; try (injection E as <- <-); vm_compute; reflexivity.
Defined.
