(* ===== verification/Approval.v ===== *)
(** * Approval of dangerous operations

    [openfang-types/src/approval.rs] and [openfang-kernel/src/approval.rs], with
    the callers [request_approval] of [kernel.rs] and the gate at the start of
    [execute_tool] in [tool_runner.rs].

    [ApprovalManager::request_approval] is asynchronous: it counts the pending
    requests of the agent, inserts its own, and waits for a decision or for the
    timeout, while other requests, operators and policy updates run. A call is
    therefore a [Task] whose [status] is the point it has reached, each access
    to the shared map is one step ([exec]), and the theorems are about all
    interleavings ([Run]). The oneshot channel of a task is its field [chan];
    a pending entry holds the sending half as the index of the task. The agent
    loop wraps [execute_tool] in a timeout of its own, shorter than the longest
    one of a policy, and drops the call when it fires: a waiting task can be
    cancelled, and its entry stays. *)

From Stdlib Require Import Ascii ZArith Lia.
From stdpp Require Import base gmap strings list fin_maps.
From S2P Require Import Prelude Strs.

Definition MAX_TOOL_NAME_LEN : nat := 64.
Definition MAX_DESCRIPTION_LEN : nat := 1024.
Definition MAX_ACTION_SUMMARY_LEN : nat := 512.
Definition MIN_TIMEOUT_SECS : Z := 10.
Definition MAX_TIMEOUT_SECS : Z := 300.
Definition MAX_PENDING_PER_AGENT : nat := 5.

Inductive RiskLevel : Type := Low | Medium | High | Critical.

Inductive ApprovalDecision : Type := Approved | Denied | TimedOut.

#[export] Instance ApprovalDecision_eq_dec : EqDecision ApprovalDecision.
Proof. solve_decision. Defined.

Record ApprovalPolicy : Type := mkPolicy {
  require_approval : list str;
  policy_timeout_secs : Z;
  auto_approve_autonomous : bool
}.

Definition default_policy : ApprovalPolicy := mkPolicy [lit "shell_exec"] 60 false.

(** ** Validation *)

Section validation.
Context `{UnicodeAlnum}.

Definition tool_name_char (c : str) : bool := is_alphanumeric c || str_eqb c (lit "_").

(** The first index of [require_approval] with a name that is refused. *)
Fixpoint validate_names (i : nat) (names : list str) : result unit str :=
  match names with
  | [] => Ok tt
  | name :: names =>
      let at_i := lit "require_approval[" ++ show_nat i ++ lit "]" in
      if is_empty name then Err (at_i ++ lit " must not be empty")
      else if MAX_TOOL_NAME_LEN <? length name
      then Err (at_i ++ lit " too long (" ++ show_nat (length name) ++ lit " chars, max "
                ++ show_nat MAX_TOOL_NAME_LEN ++ lit ")")
      else if negb (forallb tool_name_char (chars name))
      then Err (at_i ++ lit " may only contain alphanumeric characters and underscores: "
                ++ [ascii_of_nat 34] ++ name ++ [ascii_of_nat 34])
      else validate_names (S i) names
  end.

Definition validate_timeout (timeout_secs : Z) : result unit str :=
  if (timeout_secs <? MIN_TIMEOUT_SECS)%Z
  then Err (lit "timeout_secs too small (" ++ show_Z timeout_secs ++ lit ", min "
            ++ show_Z MIN_TIMEOUT_SECS ++ lit ")")
  else if (MAX_TIMEOUT_SECS <? timeout_secs)%Z
  then Err (lit "timeout_secs too large (" ++ show_Z timeout_secs ++ lit ", max "
            ++ show_Z MAX_TIMEOUT_SECS ++ lit ")")
  else Ok tt.

Definition validate_policy (p : ApprovalPolicy) : result unit str :=
  match validate_timeout (policy_timeout_secs p) with
  | Ok _ => validate_names 0 (require_approval p)
  | Err e => Err e
  end.
End validation.

(** [ApprovalManager::classify_risk] *)
Definition classify_risk (tool_name : str) : RiskLevel :=
  if str_eqb tool_name (lit "shell_exec") then Critical
  else if str_eqb tool_name (lit "file_write") || str_eqb tool_name (lit "file_delete") then High
  else if str_eqb tool_name (lit "web_fetch") || str_eqb tool_name (lit "browser_navigate")
  then Medium
  else Low.

Section approval.
Context {Uuid : Type} `{Countable Uuid} (uuid_to_string : Uuid → str).

Record ApprovalRequest : Type := mkRequest {
  id : Uuid;
  agent_id : str;
  tool_name : str;
  description : str;
  action_summary : str;
  risk_level : RiskLevel;
  requested_at : Z;
  timeout_secs : Z
}.

Record ApprovalResponse : Type := mkResponse {
  request_id : Uuid;
  decision : ApprovalDecision;
  decided_at : Z;
  decided_by : option str
}.

Definition validate_request `{UnicodeAlnum} (r : ApprovalRequest) : result unit str :=
  if is_empty (tool_name r) then Err (lit "tool_name must not be empty")
  else if MAX_TOOL_NAME_LEN <? length (tool_name r)
  then Err (lit "tool_name too long (" ++ show_nat (length (tool_name r)) ++ lit " chars, max "
            ++ show_nat MAX_TOOL_NAME_LEN ++ lit ")")
  else if negb (forallb tool_name_char (chars (tool_name r)))
  then Err (lit "tool_name may only contain alphanumeric characters and underscores")
  else if MAX_DESCRIPTION_LEN <? length (description r)
  then Err (lit "description too long (" ++ show_nat (length (description r)) ++ lit " chars, max "
            ++ show_nat MAX_DESCRIPTION_LEN ++ lit ")")
  else if MAX_ACTION_SUMMARY_LEN <? length (action_summary r)
  then Err (lit "action_summary too long (" ++ show_nat (length (action_summary r))
            ++ lit " chars, max " ++ show_nat MAX_ACTION_SUMMARY_LEN ++ lit ")")
  else validate_timeout (timeout_secs r).

(** ** The manager and the calls in progress *)

Record PendingRequest : Type := mkPending { request : ApprovalRequest; sender : nat }.

Record ApprovalManager : Type := mkManager {
  pending : gmap Uuid PendingRequest;
  policy : ApprovalPolicy
}.

(** The channel of a task: nothing sent, a decision sent, the sender dropped. *)
Inductive Channel : Type := Open | Sent (d : ApprovalDecision) | Closed.

(** How far a call has come: about to count, about to insert, waiting until
    [deadline], timed out and about to remove its entry, returned; or dropped
    by its caller while it waited. *)
Inductive TaskStatus : Type :=
| Called
| Counted
| Waiting (deadline : Z)
| Expired
| Finished (d : ApprovalDecision)
| Cancelled.

Record Task : Type := mkTask { req : ApprovalRequest; status : TaskStatus; chan : Channel }.

Record World : Type := mkWorld { manager : ApprovalManager; tasks : list Task; clock : Z }.

Definition with_status (s : TaskStatus) (t : Task) : Task := mkTask (req t) s (chan t).
Definition with_chan (c : Channel) (t : Task) : Task := mkTask (req t) (status t) c.

(** Sending on, or dropping, the sending half of a channel. *)
Definition send (d : ApprovalDecision) (t : Task) : Task :=
  match chan t with Open => with_chan (Sent d) t | _ => t end.
Definition drop_sender (t : Task) : Task :=
  match chan t with Open => with_chan Closed t | _ => t end.

(** ** Operations of the manager *)

Definition new (p : ApprovalPolicy) : ApprovalManager := mkManager ∅ p.

Definition requires_approval (m : ApprovalManager) (tool_name : str) : bool :=
  existsb (λ t, str_eqb t tool_name) (require_approval (policy m)).

(** [pending.iter().filter(..).count()] of [request_approval] *)
Definition count_of (a : str) (m : gmap Uuid PendingRequest) : nat :=
  size (filter (λ kv : Uuid * PendingRequest, agent_id (request kv.2) = a) m).

Definition agent_pending (m : ApprovalManager) (a : str) : nat := count_of a (pending m).

Definition list_pending (m : ApprovalManager) : list ApprovalRequest :=
  request <$> (map_to_list (pending m)).*2.

Definition pending_count (m : ApprovalManager) : nat := size (pending m).

Definition update_policy (m : ApprovalManager) (p : ApprovalPolicy) : ApprovalManager :=
  mkManager (pending m) p.

(** [resolve], at time [clock w]. *)
Definition resolve (w : World) (rid : Uuid) (d : ApprovalDecision) (by_ : option str)
    : World * result ApprovalResponse str :=
  let m := manager w in
  match pending m !! rid with
  | Some p =>
      (mkWorld (mkManager (delete rid (pending m)) (policy m))
         (alter (send d) (sender p) (tasks w)) (clock w),
       Ok (mkResponse rid d (clock w) by_))
  | None => (w, Err (lit "No pending approval request with id " ++ uuid_to_string rid))
  end.

(** The steps of [request_approval] of task [t]: the count against the limit,
    the insertion (an entry it replaces loses its sender), the end of the wait
    with a decision, the end of the wait without one (the deadline has passed
    or the sender is gone; the channel is looked at first), and the removal. *)

Definition check_limit (w : World) (t : nat) : option World :=
  task ← tasks w !! t;
  match status task with
  | Called =>
      let s := if MAX_PENDING_PER_AGENT <=? agent_pending (manager w) (agent_id (req task))
               then Finished Denied else Counted in
      Some (mkWorld (manager w) (<[t := with_status s task]> (tasks w)) (clock w))
  | _ => None
  end.

Definition drop_entry (p : option PendingRequest) (ts : list Task) : list Task :=
  match p with Some p => alter drop_sender (sender p) ts | None => ts end.

Definition submit (w : World) (t : nat) : option World :=
  task ← tasks w !! t;
  match status task with
  | Counted =>
      let m := manager w in
      let r := req task in
      Some (mkWorld (mkManager (<[id r := mkPending r t]> (pending m)) (policy m))
              (alter (with_status (Waiting (clock w + timeout_secs r))) t
                 (drop_entry (pending m !! id r) (tasks w)))
              (clock w))
  | _ => None
  end.

Definition receive (w : World) (t : nat) : option World :=
  task ← tasks w !! t;
  match status task, chan task with
  | Waiting _, Sent d =>
      Some (mkWorld (manager w) (<[t := with_status (Finished d) task]> (tasks w)) (clock w))
  | _, _ => None
  end.

Definition expire (w : World) (t : nat) : option World :=
  task ← tasks w !! t;
  match status task, chan task with
  | Waiting dl, Open =>
      if (dl <=? clock w)%Z
      then Some (mkWorld (manager w) (<[t := with_status Expired task]> (tasks w)) (clock w))
      else None
  | Waiting _, Closed =>
      Some (mkWorld (manager w) (<[t := with_status Expired task]> (tasks w)) (clock w))
  | _, _ => None
  end.

Definition clean_up (w : World) (t : nat) : option World :=
  task ← tasks w !! t;
  match status task with
  | Expired =>
      let m := manager w in
      let i := id (req task) in
      let ts := drop_entry (pending m !! i) (tasks w) in
      Some (mkWorld (mkManager (delete i (pending m)) (policy m))
              (alter (with_status (Finished TimedOut)) t ts) (clock w))
  | _ => None
  end.

(** The timeout that [run_agent_loop] puts around [execute_tool] drops the
    future of the call: the receiver is gone, nothing else is done. The wait is
    the only point where the future can be dropped. *)
Definition cancel (w : World) (t : nat) : option World :=
  task ← tasks w !! t;
  match status task with
  | Waiting _ =>
      Some (mkWorld (manager w) (<[t := with_status Cancelled task]> (tasks w)) (clock w))
  | _ => None
  end.

(** ** The callers *)

(** [request_approval] of the kernel: agents with a tag that starts with
    [hand:] are approved without asking. [parse_agent_id] is the parser of
    UUIDs, [registry] the tags of the registered agents. *)
Section callers.
Context {AgentId : Type} `{Countable AgentId} (parse_agent_id : str → option AgentId).

Definition auto_approved (registry : gmap AgentId (list str)) (agent : str) : bool :=
  match parse_agent_id agent with
  | Some aid =>
      match registry !! aid with
      | Some tags => existsb (λ t, starts_with t (lit "hand:")) tags
      | None => false
      end
  | None => false
  end.

Definition kernel_request (m : ApprovalManager) (new_id : Uuid) (now : Z) (agent tool summary : str)
    : ApprovalRequest :=
  mkRequest new_id agent tool
    (lit "Agent " ++ agent ++ lit " requests to execute " ++ tool)
    (concat (take 512 (chars summary))) (classify_risk tool) now (policy_timeout_secs (policy m)).

(** The answer, [d] being the decision the manager returns if it is asked. *)
Definition kernel_answer (registry : gmap AgentId (list str)) (d : ApprovalDecision)
    (agent tool summary : str) : result bool str :=
  if auto_approved registry agent then Ok true else Ok (bool_decide (d = Approved)).
End callers.

(** The gate at the start of [execute_tool]: [None] is a panic of the slice,
    [inl] the content of the error result, [inr] that the tool is executed.
    [kernel] is the manager, if there is a kernel, and its answer. *)
Definition tool_gate (allowed_tools : option (list str))
    (kernel : option (ApprovalManager * (str → str → str → result bool str)))
    (caller_agent_id : option str) (tool input : str) : option (str + unit) :=
  if match allowed_tools with
     | Some allowed => negb (existsb (λ t, str_eqb t tool) allowed)
     | None => false
     end
  then Some (inl (lit "Permission denied: agent does not have capability to use tool '"
                  ++ tool ++ lit "'"))
  else match kernel with
       | Some (m, ask) =>
           if requires_approval m tool then
             let agent := default (lit "unknown") caller_agent_id in
             shown ← slice_to input (length input `min` 200);
             Some match ask agent tool (tool ++ lit ": " ++ shown) with
                  | Ok true => inr tt
                  | Ok false => inl (lit "Execution denied: '" ++ tool ++ lit "' requires human approval and was denied or timed out. The operation was not performed.")
                  | Err e => inl (lit "Approval system error: " ++ e)
                  end
           else Some (inr tt)
       | None => Some (inr tt)
       end.

(** ** Interleavings *)

Inductive Label : Type :=
| LStart (r : ApprovalRequest)
| LCheck (t : nat)
| LSubmit (t : nat)
| LReceive (t : nat)
| LExpire (t : nat)
| LCleanUp (t : nat)
| LCancel (t : nat)
| LResolve (rid : Uuid) (d : ApprovalDecision) (by_ : option str)
| LPolicy (p : ApprovalPolicy)
| LTick (secs : nat).

Definition exec (w : World) (l : Label) : option World :=
  match l with
  | LStart r => Some (mkWorld (manager w) (tasks w ++ [mkTask r Called Open]) (clock w))
  | LCheck t => check_limit w t
  | LSubmit t => submit w t
  | LReceive t => receive w t
  | LExpire t => expire w t
  | LCleanUp t => clean_up w t
  | LCancel t => cancel w t
  | LResolve rid d by_ => Some (resolve w rid d by_).1
  | LPolicy p => Some (mkWorld (update_policy (manager w) p) (tasks w) (clock w))
  | LTick n => Some (mkWorld (manager w) (tasks w) (clock w + Z.of_nat n))
  end.

Fixpoint exec_all (w : World) (ls : list Label) : option World :=
  match ls with
  | [] => Some w
  | l :: ls => w' ← exec w l; exec_all w' ls
  end.

(** The worlds that can be reached from an empty manager, with the steps taken. *)
Inductive Run (p : ApprovalPolicy) (c0 : Z) : list Label → World → Prop :=
| run_start : Run p c0 [] (mkWorld (new p) [] c0)
| run_step ls w l w' : Run p c0 ls w → exec w l = Some w' → Run p c0 (ls ++ [l]) w'.

(** ** Pending entries and tasks

    [view ts t] is the request of task [t] if it waits for a decision, is
    about to remove its entry or was cancelled, and nothing was sent to it. The entries are
    exactly the viewed tasks. *)

Definition is_waiting (s : TaskStatus) : bool :=
  match s with Waiting _ | Expired | Cancelled => true | _ => false end.

Definition is_open (c : Channel) : bool := match c with Open => true | _ => false end.

Definition view (ts : list Task) (t : nat) : option ApprovalRequest :=
  task ← ts !! t;
  if is_waiting (status task) && is_open (chan task) then Some (req task) else None.

Definition entries_exact (m : gmap Uuid PendingRequest) (v : nat → option ApprovalRequest) : Prop :=
  ∀ i p, m !! i = Some p ↔ v (sender p) = Some (request p) ∧ id (request p) = i.

(** A view without the task that the entry belongs to. *)
Definition without (v : nat → option ApprovalRequest) (q : option PendingRequest) (j : nat)
    : option ApprovalRequest :=
  match q with
  | Some q => if decide (j = sender q) then None else v j
  | None => v j
  end.

Lemma without_None v q j : v j = None → without v q j = None.
Proof. intros Hj. unfold without. repeat case_match; done. Qed.

Lemma without_self v r j : None = without v (Some (mkPending r j)) j.
Proof. simpl. by rewrite decide_True. Qed.

Lemma entries_delete m v v' i :
  entries_exact m v → (∀ j, v' j = without v (m !! i) j) → entries_exact (delete i m) v'.
Proof.
  intros Hm Hv k p. rewrite Hv. destruct (decide (i = k)) as [<-|Hne].
  - rewrite lookup_delete_eq. split; [done|]. intros [Hp Hi].
    assert (v (sender p) = Some (request p)) as Hp'
      by (unfold without in Hp; repeat case_match; done).
    assert (m !! i = Some p) as E by (by apply Hm). rewrite E in Hp. simpl in Hp.
    by rewrite decide_True in Hp.
  - rewrite lookup_delete_ne by done. rewrite (Hm k p). unfold without.
    destruct (m !! i) as [q|] eqn:Eq; [|done]. case_decide as Hs; [|done].
    split; [|by intros [? _]]. intros [Hp Hk]. apply Hm in Eq as [Hq Hi]. congruence.
Qed.

Lemma entries_insert m v v' r t :
  entries_exact m v → v t = None →
  (∀ j, v' j = if decide (j = t) then Some r else without v (m !! id r) j) →
  entries_exact (<[id r := mkPending r t]> m) v'.
Proof.
  intros Hm Ht Hv.
  assert (entries_exact (delete (id r) m) (without v (m !! id r))) as Hd
    by (by eapply entries_delete).
  pose proof (without_None v (m !! id r) t Ht) as Ht'.
  intros k p. rewrite Hv. destruct (decide (id r = k)) as [<-|Hne].
  - rewrite lookup_insert_eq. case_decide as Hs; subst.
    + split; [by intros [= <-]|]. intros [[= Hr] _]. destruct p; simpl in *. by subst.
    + split; [intros [= <-]; done|]. intros H'%Hd. by rewrite lookup_delete_eq in H'.
  - rewrite lookup_insert_ne by done. rewrite <-(lookup_delete_ne m (id r) k) by done.
    rewrite (Hd k p). case_decide as Hs; [|done]. subst t. rewrite Ht'.
    split; [by intros [? _]|]. intros [[= ->] ?]. congruence.
Qed.

Lemma view_alter f k ts j :
  view (alter f k ts) j =
  if decide (j = k)
  then task ← ts !! k;
       if is_waiting (status (f task)) && is_open (chan (f task)) then Some (req (f task)) else None
  else view ts j.
Proof.
  unfold view. case_decide as Hj; [subst; rewrite list_lookup_alter_eq; by destruct (ts !! k)|].
  by rewrite list_lookup_alter_ne.
Qed.

Lemma view_insert k x ts j y :
  ts !! k = Some y →
  view (<[k := x]> ts) j =
  if decide (j = k)
  then if is_waiting (status x) && is_open (chan x) then Some (req x) else None
  else view ts j.
Proof.
  intros Hk. unfold view. pose proof (lookup_lt_Some _ _ _ Hk). case_decide as Hj; subst.
  - by rewrite list_lookup_insert_eq.
  - by rewrite list_lookup_insert_ne.
Qed.

(** Sending to a task, or dropping its sender, takes it out of the view. *)
Lemma view_close f k ts j :
  (∀ x, is_open (chan (f x)) = false) →
  view (alter f k ts) j = if decide (j = k) then None else view ts j.
Proof.
  intros Hf. rewrite view_alter. case_decide; [|done]. destruct (ts !! k); simpl; [|done].
  by rewrite Hf, andb_false_r.
Qed.

Lemma send_not_open d x : is_open (chan (send d x)) = false.
Proof. unfold send. by destruct (chan x) eqn:E; simpl; rewrite ?E. Qed.

Lemma drop_not_open x : is_open (chan (drop_sender x)) = false.
Proof. unfold drop_sender. by destruct (chan x) eqn:E; simpl; rewrite ?E. Qed.

Lemma view_drop_entry q ts j : view (drop_entry q ts) j = without (view ts) q j.
Proof.
  destruct q as [q|]; [|done]. unfold drop_entry. rewrite view_close by apply drop_not_open. done.
Qed.

(** The task an entry belongs to. *)
Lemma entry_task m ts i p :
  entries_exact m (view ts) → m !! i = Some p →
  ∃ x, ts !! sender p = Some x ∧ is_waiting (status x) = true ∧ chan x = Open ∧
       req x = request p ∧ id (req x) = i.
Proof.
  intros Hent [Hv Hi]%Hent. unfold view in Hv. destruct (ts !! sender p) as [x|]; [|done].
  exists x. simpl in Hv. destruct (is_waiting (status x)), (chan x); simplify_eq/=.
  split_and!; congruence.
Qed.

(** ** One step as one task sees it *)

Inductive Sees (w : World) (t : nat) : Label → Task → Task → Prop :=
| see_nothing l x : Sees w t l x x
| see_check r c :
    Sees w t (LCheck t) (mkTask r Called c)
      (mkTask r (if MAX_PENDING_PER_AGENT <=? agent_pending (manager w) (agent_id r)
                 then Finished Denied else Counted) c)
| see_submit r c :
    Sees w t (LSubmit t) (mkTask r Counted c) (mkTask r (Waiting (clock w + timeout_secs r)) c)
| see_receive r dl d :
    Sees w t (LReceive t) (mkTask r (Waiting dl) (Sent d)) (mkTask r (Finished d) (Sent d))
| see_timeout r dl :
    (dl ≤ clock w)%Z →
    Sees w t (LExpire t) (mkTask r (Waiting dl) Open) (mkTask r Expired Open)
| see_closed r dl :
    Sees w t (LExpire t) (mkTask r (Waiting dl) Closed) (mkTask r Expired Closed)
| see_clean_up r c c' :
    c' = c ∨ c = Open ∧ c' = Closed →
    Sees w t (LCleanUp t) (mkTask r Expired c) (mkTask r (Finished TimedOut) c')
| see_cancel r dl c :
    Sees w t (LCancel t) (mkTask r (Waiting dl) c) (mkTask r Cancelled c)
| see_decision rid d by_ r s p :
    pending (manager w) !! rid = Some p → sender p = t →
    Sees w t (LResolve rid d by_) (mkTask r s Open) (mkTask r s (Sent d))
| see_dropped l i u x p r s :
    (l = LSubmit u ∨ l = LCleanUp u) → u ≠ t → tasks w !! u = Some x → i = id (req x) →
    pending (manager w) !! i = Some p → sender p = t →
    Sees w t l (mkTask r s Open) (mkTask r s Closed).

Definition drops (q : option PendingRequest) (t : nat) (x : Task) : Task :=
  match q with
  | Some q => if decide (t = sender q) then drop_sender x else x
  | None => x
  end.

Lemma lookup_drop_entry q ts t : drop_entry q ts !! t = drops q t <$> ts !! t.
Proof.
  destruct q as [q|]; unfold drops, drop_entry; [|by destruct (ts !! t)].
  destruct (decide (t = sender q)) as [Ht|Ht].
  - subst. apply list_lookup_alter_eq.
  - rewrite list_lookup_alter_ne by done. by destruct (ts !! t).
Qed.

Lemma drop_sender_cases x :
  drop_sender x = x ∨ ∃ r s, x = mkTask r s Open ∧ drop_sender x = mkTask r s Closed.
Proof. destruct x as [r s []]; simpl; eauto. Qed.

(** What a step of a neighbour that drops an entry does to task [t]. *)
Lemma sees_drops w t l u y x :
  (l = LSubmit u ∨ l = LCleanUp u) → u ≠ t → tasks w !! u = Some y →
  Sees w t l x (drops (pending (manager w) !! id (req y)) t x).
Proof.
  intros Hl Hu Hy. destruct (pending (manager w) !! id (req y)) as [q|] eqn:Eq; simpl; [|constructor].
  case_decide as Ht; [|constructor].
  destruct (drop_sender_cases x) as [->|(r & s & -> & ->)]; [constructor|].
  by eapply see_dropped.
Qed.

(** An entry never belongs to a task that has not inserted its own. *)
Lemma drops_other w t x i :
  entries_exact (pending (manager w)) (view (tasks w)) → tasks w !! t = Some x →
  is_waiting (status x) = false → drops (pending (manager w) !! i) t x = x.
Proof.
  intros Hent Hx Hs. destruct (pending (manager w) !! i) as [q|] eqn:Eq; simpl; [|done].
  case_decide; [|done]. subst. destruct (entry_task _ _ _ _ Hent Eq) as (y & ? & ? & _).
  congruence.
Qed.

Lemma insert_lookup_cases {A} (ts : list A) k (x y z : A) t :
  ts !! k = Some y → <[k := x]> ts !! t = Some z → (t = k ∧ z = x) ∨ (t ≠ k ∧ ts !! t = Some z).
Proof.
  intros Hk Hz. apply list_lookup_insert_Some in Hz as [(-> & -> & _)|[? ?]]; auto.
Qed.

Lemma exec_sees w l w' t x' :
  entries_exact (pending (manager w)) (view (tasks w)) →
  exec w l = Some w' → tasks w' !! t = Some x' →
  (tasks w !! t = None ∧ l = LStart (req x') ∧ x' = mkTask (req x') Called Open) ∨
  ∃ x, tasks w !! t = Some x ∧ Sees w t l x x'.
Proof.
  intros Hent He Hx'. destruct l as [r|k|k|k|k|k|k|rid d by_|pol|n]; simpl in He.
  - simplify_eq/=. apply lookup_app_Some in Hx' as [?|[Hge Hx']]; [right; eauto using Sees|].
    apply list_lookup_singleton_Some in Hx' as [? <-]. left. split; [|done].
    apply lookup_ge_None. lia.
  - right. unfold check_limit in He. destruct (tasks w !! k) as [[r [] c]|] eqn:Ek; simplify_eq/=.
    destruct (insert_lookup_cases _ _ _ _ _ _ Ek Hx') as [[-> ->]|[? ?]]; eauto using Sees.
  - right. unfold submit in He. destruct (tasks w !! k) as [[r [] c]|] eqn:Ek; simplify_eq/=.
    destruct (decide (t = k)) as [->|Hne].
    + rewrite list_lookup_alter_eq, lookup_drop_entry, Ek in Hx'.
      simplify_eq/=. eexists. split; [done|].
      rewrite (drops_other w k _ _ Hent Ek) by done. constructor.
    + rewrite list_lookup_alter_ne, lookup_drop_entry in Hx' by done.
      destruct (tasks w !! t) as [x|]; simplify_eq/=. eexists. split; [done|].
      eapply sees_drops in Ek; eauto.
  - right. unfold receive in He.
    destruct (tasks w !! k) as [[r [] []]|] eqn:Ek; simplify_eq/=.
    destruct (insert_lookup_cases _ _ _ _ _ _ Ek Hx') as [[-> ->]|[? ?]]; eauto using Sees.
  - right. unfold expire in He.
    destruct (tasks w !! k) as [[r [] []]|] eqn:Ek; simplify_eq/=; try case_match; simplify_eq/=;
    destruct (insert_lookup_cases _ _ _ _ _ _ Ek Hx') as [[-> ->]|[? ?]]; eauto using Sees.
    eexists. split; [done|]. apply see_timeout. lia.
  - right. unfold clean_up in He. destruct (tasks w !! k) as [[r [] c]|] eqn:Ek; simplify_eq/=.
    destruct (decide (t = k)) as [->|Hne].
    + rewrite list_lookup_alter_eq, lookup_drop_entry, Ek in Hx'.
      simplify_eq/=. eexists. split; [done|].
      destruct (pending (manager w) !! id r) as [q|]; simpl; [case_decide; [destruct c|]|];
        constructor; auto.
    + rewrite list_lookup_alter_ne, lookup_drop_entry in Hx' by done.
      destruct (tasks w !! t) as [x|]; simplify_eq/=. eexists. split; [done|].
      eapply sees_drops in Ek; eauto.
  - right. unfold cancel in He. destruct (tasks w !! k) as [[r [] c]|] eqn:Ek; simplify_eq/=.
    destruct (insert_lookup_cases _ _ _ _ _ _ Ek Hx') as [[-> ->]|[? ?]]; eauto using Sees.
  - right. unfold resolve in He. destruct (pending (manager w) !! rid) as [q|] eqn:Eq;
      simplify_eq/=; [|eauto using Sees].
    destruct (decide (t = sender q)) as [->|Hne].
    + rewrite list_lookup_alter_eq in Hx'. destruct (tasks w !! sender q) as [[r s c]|]; simplify_eq/=.
      eexists. split; [done|]. destruct c; eauto using Sees.
    + rewrite list_lookup_alter_ne in Hx' by done. eauto using Sees.
  - right. simplify_eq/=. eauto using Sees.
  - right. simplify_eq/=. eauto using Sees.
Qed.

(** ** The invariant of all interleavings *)

Definition is_early (s : TaskStatus) : bool :=
  match s with Called | Counted => true | _ => false end.

Definition inv (w : World) : Prop :=
  entries_exact (pending (manager w)) (view (tasks w)) ∧
  ∀ t x, tasks w !! t = Some x → is_early (status x) = true → chan x = Open.

Lemma entries_ext m v v' : entries_exact m v → (∀ j, v' j = v j) → entries_exact m v'.
Proof. intros Hm Hv i p. by rewrite Hv. Qed.

(** A task whose wait does not begin or end. *)
Lemma view_insert_same k (x y : Task) ts j :
  ts !! k = Some y → is_open (chan x) = is_open (chan y) → req x = req y →
  is_waiting (status x) && is_open (chan x) = is_waiting (status y) && is_open (chan y) →
  view (<[k := x]> ts) j = view ts j.
Proof.
  intros Hk Hc Hr Hw. rewrite (view_insert _ _ _ _ _ Hk). case_decide as Hj; [|done]. subst.
  unfold view. rewrite Hk. simpl. by rewrite Hw, Hr.
Qed.

Lemma exec_entries w l w' :
  inv w → exec w l = Some w' → entries_exact (pending (manager w')) (view (tasks w')).
Proof.
  intros [Hent Hearly] He. destruct l as [r|k|k|k|k|k|k|rid d by_|pol|n]; simpl in He.
  - simplify_eq/=. apply (entries_ext _ _ _ Hent). intros j. unfold view.
    destruct (decide (j < length (tasks w))).
    + by rewrite lookup_app_l.
    + rewrite (lookup_ge_None_2 (tasks w)) by lia. rewrite lookup_app_r by lia.
      by destruct (j - length (tasks w)) as [|[]].
  - unfold check_limit in He. destruct (tasks w !! k) as [[r [] c]|] eqn:Ek; simplify_eq/=.
    apply (entries_ext _ _ _ Hent). intros j. apply (view_insert_same _ _ _ _ _ Ek); [done..|].
    simpl. by case_match.
  - unfold submit in He. destruct (tasks w !! k) as [[r [] c]|] eqn:Ek; simplify_eq/=.
    pose proof (Hearly _ _ Ek eq_refl) as Hc. simpl in Hc. subst c.
    apply (entries_insert _ (view (tasks w))); [done|by unfold view; rewrite Ek|]. intros j.
    rewrite view_alter, lookup_drop_entry, Ek, view_drop_entry. case_decide; [|done].
    cbn [fmap option_fmap option_map mbind option_bind].
    by rewrite (drops_other w k _ _ Hent Ek).
  - unfold receive in He. destruct (tasks w !! k) as [[r [] []]|] eqn:Ek; simplify_eq/=.
    apply (entries_ext _ _ _ Hent). intros j. by apply (view_insert_same _ _ _ _ _ Ek).
  - unfold expire in He.
    destruct (tasks w !! k) as [[r [] []]|] eqn:Ek; simplify_eq/=; try case_match; simplify_eq/=;
    apply (entries_ext _ _ _ Hent); intros j; by apply (view_insert_same _ _ _ _ _ Ek).
  - unfold clean_up in He. destruct (tasks w !! k) as [[r [] c]|] eqn:Ek; simplify_eq/=.
    apply (entries_delete _ (view (tasks w))); [done|]. intros j.
    rewrite view_alter, lookup_drop_entry, Ek, view_drop_entry. case_decide as Hj; [|done]. subst j.
    cbn [fmap option_fmap option_map mbind option_bind with_status status is_waiting andb].
    destruct (view (tasks w) k) as [r'|] eqn:Ev; [|by rewrite without_None].
    assert (r' = r) as -> by (unfold view in Ev; rewrite Ek in Ev; simpl in Ev; by case_match; simplify_eq).
    assert (pending (manager w) !! id r = Some (mkPending r k)) as -> by (by apply Hent).
    by apply without_self.
  - unfold cancel in He. destruct (tasks w !! k) as [[r [] c]|] eqn:Ek; simplify_eq/=.
    apply (entries_ext _ _ _ Hent). intros j. by apply (view_insert_same _ _ _ _ _ Ek).
  - unfold resolve in He. destruct (pending (manager w) !! rid) as [q|] eqn:Eq; simplify_eq/=; [|done].
    apply (entries_delete _ (view (tasks w))); [done|]. intros j. rewrite Eq.
    apply view_close, send_not_open.
  - by simplify_eq/=.
  - by simplify_eq/=.
Qed.

Lemma exec_inv w l w' : inv w → exec w l = Some w' → inv w'.
Proof.
  intros Hinv He. split; [by eapply exec_entries|]. destruct Hinv as [Hent Hearly].
  intros t x' Hx' Hs.
  destruct (exec_sees w l w' t x' Hent He Hx') as [(_ & _ & ->)|(x & Hx & Hsee)]; [done|].
  destruct Hsee; simpl in *; try done; try (by apply (Hearly _ _ Hx)); exfalso; subst t;
    destruct (entry_task _ _ _ _ Hent ltac:(eassumption)) as (y & ? & Hw & _);
    simplify_eq/=; by destruct s.
Qed.

Lemma run_inv_approval p c0 ls w : Run p c0 ls w → inv w.
Proof.
  induction 1 as [|ls w l w' _ IH He]; [|exact (exec_inv _ _ _ IH He)].
  split; [|done]. intros i q. simpl. rewrite lookup_empty. split; [done|by intros [? _]].
Qed.

(** ** Decisions *)

(** In the run [ls] task [t] with request [r] was pending when an operator
    resolved it with [d]. *)
Definition decided (p : ApprovalPolicy) (c0 : Z) (ls : list Label) (t : nat) (r : ApprovalRequest)
    (d : ApprovalDecision) : Prop :=
  ∃ ls1 by_ ls2 w1, ls = ls1 ++ LResolve (id r) d by_ :: ls2 ∧ Run p c0 ls1 w1 ∧
    pending (manager w1) !! id r = Some (mkPending r t).

Lemma decided_later p c0 ls l t r d : decided p c0 ls t r d → decided p c0 (ls ++ [l]) t r d.
Proof.
  intros (ls1 & by_ & ls2 & w1 & -> & ?). exists ls1, by_, (ls2 ++ [l]), w1.
  by rewrite <-app_assoc.
Qed.

Lemma run_decided p c0 ls w t x :
  Run p c0 ls w → tasks w !! t = Some x →
  (∀ d, chan x = Sent d → decided p c0 ls t (req x) d) ∧
  (status x = Finished Approved → chan x = Sent Approved).
Proof.
  intros Hr. revert x. induction Hr as [|ls w l w' Hr IH He]; intros x' Hx'; [done|].
  destruct (run_inv_approval _ _ _ _ Hr) as [Hent _].
  destruct (exec_sees w l w' t x' Hent He Hx') as [(_ & _ & ->)|(x & Hx & Hsee)]; [done|].
  specialize (IH x Hx) as [IH1 IH2].
  destruct Hsee as [| | |r dl d| | |r c c' Hc| |rid d by_ r s q Hq Hs|]; simpl in *;
    try (split; [intros; apply decided_later; by auto|auto; by repeat case_match]).
  - split; [intros; apply decided_later; by auto|congruence].
  - split; [|done]. intros d ->. apply decided_later. destruct Hc as [<-|[_ [=]]]. auto.
  - destruct (entry_task _ _ _ _ Hent Hq) as (y & Hy & _ & _ & Hreq & Hid). subst t. simplify_eq/=.
    split; [|by intros ?%IH2]. intros ? [= <-].
    exists ls, by_, [], w. split; [done|]. split; [done|]. rewrite Hq. destruct q; simpl in *.
    by subst.
  - split; [done|]. by intros ?%IH2.
Qed.

Lemma exec_length w l w' : exec w l = Some w' → length (tasks w) ≤ length (tasks w').
Proof.
  intros He. destruct l; simpl in He;
    unfold check_limit, submit, receive, expire, clean_up, cancel, resolve, drop_entry, mbind, option_bind in He;
    repeat case_match; simplify_eq/=;
    rewrite ?length_app, ?length_insert, ?length_alter, ?length_alter; lia.
Qed.

(** What a task returns if a decision is sent while its status is [s]. *)
Definition outcome_of (s : TaskStatus) (d : ApprovalDecision) : ApprovalDecision :=
  match s with Waiting _ => d | _ => TimedOut end.

(** A task that was sent [d] while its status was [s]: it is still there, it
    returned, or its caller dropped it while it waited. *)
Definition settled (r : ApprovalRequest) (s : TaskStatus) (d : ApprovalDecision) (x : Task) : Prop :=
  req x = r ∧ chan x = Sent d ∧
  (status x = s ∨ status x = Finished (outcome_of s d) ∨ is_waiting s = true ∧ status x = Cancelled).

Lemma settled_exec w l w' t r s d x :
  inv w → exec w l = Some w' → is_waiting s = true → tasks w !! t = Some x → settled r s d x →
  ∃ x', tasks w' !! t = Some x' ∧ settled r s d x'.
Proof.
  intros [Hent _] He Hs Hx (Hr & Hc & Hst).
  destruct (lookup_lt_is_Some_2 (tasks w') t) as [x' Hx'].
  { pose proof (exec_length _ _ _ He). apply lookup_lt_Some in Hx. lia. }
  exists x'. split; [done|].
  destruct (exec_sees w l w' t x' Hent He Hx') as [(? & _)|(y & Hy & Hsee)]; [congruence|].
  simplify_eq. destruct Hsee as [| | | | | |r' c c' Hc'| | |]; simpl in *; try done.
  all: subst; destruct Hst as [<-|[Hst|[_ Hst]]]; try done; repeat split; simpl; auto.
  - right. left. congruence.
  - destruct Hc' as [<-|[? ?]]; congruence.
Qed.

Lemma settled_exec_all w ls w' t r s d x :
  inv w → exec_all w ls = Some w' → is_waiting s = true → tasks w !! t = Some x →
  settled r s d x → ∃ x', tasks w' !! t = Some x' ∧ settled r s d x'.
Proof.
  revert w x. induction ls as [|l ls IH]; intros w x Hinv He Hs Hx Hset; [simplify_eq/=; eauto|].
  simpl in He. destruct (exec w l) as [w1|] eqn:E; [|done]. simpl in He.
  destruct (settled_exec w l w1 t r s d x) as (x1 & Hx1 & Hset1); [done..|].
  eapply (IH w1); eauto. by eapply exec_inv.
Qed.

(** ** The limit on pending requests *)

Definition is_admitted (a : str) (x : Task) : bool :=
  match status x with Counted => bool_decide (agent_id (req x) = a) | _ => false end.

(** The calls of agent [a] between the count and the insertion. *)
Definition admitted (a : str) (ts : list Task) : nat := length (List.filter (is_admitted a) ts).

Lemma admitted_insert a k x y ts :
  ts !! k = Some y →
  admitted a (<[k := x]> ts) + Nat.b2n (is_admitted a y) = admitted a ts + Nat.b2n (is_admitted a x).
Proof.
  unfold admitted. revert k. induction ts as [|z ts IH]; intros [|k] Hk; simplify_eq/=.
  - destruct (is_admitted a x), (is_admitted a y); simpl; lia.
  - specialize (IH k Hk). destruct (is_admitted a z); simpl in *; lia.
Qed.

Lemma admitted_alter a f k ts :
  admitted a (alter f k ts) + (if ts !! k is Some y then Nat.b2n (is_admitted a y) else 0) =
  admitted a ts + (if ts !! k is Some y then Nat.b2n (is_admitted a (f y)) else 0).
Proof.
  unfold admitted, alter. revert k. induction ts as [|z ts IH]; intros [|k]; simpl; try done.
  - destruct (is_admitted a z), (is_admitted a (f z)); simpl; lia.
  - specialize (IH k). destruct (is_admitted a z); simpl; lia.
Qed.

Lemma is_admitted_drop a x : is_admitted a (drop_sender x) = is_admitted a x.
Proof. unfold is_admitted, drop_sender. by destruct (chan x). Qed.

Lemma is_admitted_drops a q t x : is_admitted a (drops q t x) = is_admitted a x.
Proof. destruct q; simpl; [case_decide|]; auto using is_admitted_drop. Qed.

Lemma admitted_drop a q ts : admitted a (drop_entry q ts) = admitted a ts.
Proof.
  destruct q as [q|]; [|done]. pose proof (admitted_alter a drop_sender (sender q) ts) as E.
  simpl. destruct (ts !! sender q) as [x|]; rewrite ?is_admitted_drop in E; lia.
Qed.

Lemma count_delete a i m : count_of a (delete i m) ≤ count_of a m.
Proof.
  unfold count_of. rewrite map_filter_delete, map_size_delete. case_match; simpl; lia.
Qed.

Lemma count_insert a i p m :
  count_of a (<[i := p]> m) ≤ count_of a m + Nat.b2n (bool_decide (agent_id (request p) = a)).
Proof.
  unfold count_of. case_bool_decide as Ha; simpl.
  - rewrite map_filter_insert_True by done. rewrite map_size_insert. case_match; simpl; lia.
  - rewrite map_filter_insert_False by done. pose proof (count_delete a i m) as Hd.
    unfold count_of in Hd. lia.
Qed.

Lemma check_limit_cases w t w' :
  check_limit w t = Some w' →
  ∃ r c s, tasks w !! t = Some (mkTask r Called c) ∧
    w' = mkWorld (manager w) (<[t := mkTask r s c]> (tasks w)) (clock w) ∧
    (MAX_PENDING_PER_AGENT ≤ agent_pending (manager w) (agent_id r) ∧ s = Finished Denied ∨
     agent_pending (manager w) (agent_id r) < MAX_PENDING_PER_AGENT ∧ s = Counted).
Proof.
  unfold check_limit. destruct (tasks w !! t) as [[r [] c]|]; try done. cbn [mbind option_bind status req].
  intros [= <-]. eexists r, c, _. split; [done|]. split; [reflexivity|].
  change (match agent_pending (manager w) (agent_id r) with S (S (S (S (S _)))) => true | _ => false end)
    with (MAX_PENDING_PER_AGENT <=? agent_pending (manager w) (agent_id r)).
  destruct (Nat.leb_spec MAX_PENDING_PER_AGENT (agent_pending (manager w) (agent_id r))); auto.
Qed.

(** Only the count adds to the sum of the pending and the counted requests of
    an agent, and it does when fewer than the limit are pending. *)
Lemma exec_limit a w l w' :
  exec w l = Some w' →
  let load w := agent_pending (manager w) a + admitted a (tasks w) in
  load w' ≤ load w ∨ load w' < MAX_PENDING_PER_AGENT + admitted a (tasks w').
Proof.
  intros He load. subst load. cbv beta. unfold agent_pending.
  destruct l as [r|k|k|k|k|k|k|rid d by_|pol|n]; cbn [exec] in He.
  - left. simplify_eq/=. unfold admitted. rewrite List.filter_app, length_app. simpl. lia.
  - destruct (check_limit_cases _ _ _ He) as (r & c & s & Ek & -> & Hs). cbn [manager tasks].
    pose proof (admitted_insert a k (mkTask r s c) _ _ Ek) as E. unfold is_admitted in E.
    destruct Hs as [[Hl ->]|[Hl ->]]; cbn [status req Nat.b2n] in E; [left; lia|].
    unfold agent_pending in Hl.
    case_bool_decide as Ha; [subst a; right|left]; cbn [Nat.b2n] in *; lia.
  - left. unfold submit in He. destruct (tasks w !! k) as [[r [] c]|] eqn:Ek; simplify_eq/=.
    pose proof (count_insert a (id r) (mkPending r k) (pending (manager w))) as Hc.
    match goal with |- context [alter ?f k ?ts] => pose proof (admitted_alter a f k ts) as E end.
    rewrite lookup_drop_entry, Ek, admitted_drop in E. simpl in E, Hc.
    rewrite is_admitted_drops in E. unfold is_admitted in E. simpl in E. lia.
  - left. unfold receive in He. destruct (tasks w !! k) as [[r [] []]|] eqn:Ek; simplify_eq/=.
    match goal with |- context [<[k := ?x]> _] => pose proof (admitted_insert a k x _ _ Ek) as E end.
    simpl in *. lia.
  - left. unfold expire in He.
    destruct (tasks w !! k) as [[r [] []]|] eqn:Ek; simplify_eq/=; try case_match; simplify_eq/=;
    match goal with |- context [<[k := ?x]> _] => pose proof (admitted_insert a k x _ _ Ek) as E end;
    simpl in *; lia.
  - left. unfold clean_up in He. destruct (tasks w !! k) as [[r [] c]|] eqn:Ek; simplify_eq/=.
    pose proof (count_delete a (id r) (pending (manager w))) as Hc.
    match goal with |- context [alter ?f k ?ts] => pose proof (admitted_alter a f k ts) as E end.
    rewrite lookup_drop_entry, Ek, admitted_drop in E. simpl in E.
    rewrite is_admitted_drops in E. unfold is_admitted in E. simpl in E. lia.
  - left. unfold cancel in He. destruct (tasks w !! k) as [[r [] c]|] eqn:Ek; simplify_eq/=.
    match goal with |- context [<[k := ?x]> _] => pose proof (admitted_insert a k x _ _ Ek) as E end.
    simpl in *. lia.
  - left. unfold resolve in He. destruct (pending (manager w) !! rid) as [q|] eqn:Eq; simplify_eq/=; [|lia].
    pose proof (count_delete a rid (pending (manager w))) as Hc.
    pose proof (admitted_alter a (send d) (sender q) (tasks w)) as E.
    destruct (tasks w !! sender q) as [[? ? []]|]; unfold is_admitted in E; simpl in E; lia.
  - left. by simplify_eq/=.
  - left. by simplify_eq/=.
Qed.

Lemma run_limit p c0 ls w a M :
  Run p c0 ls w →
  (∀ ls1 w1, ls1 `prefix_of` ls → Run p c0 ls1 w1 → admitted a (tasks w1) ≤ M) →
  agent_pending (manager w) a + admitted a (tasks w) ≤ MAX_PENDING_PER_AGENT - 1 + M.
Proof.
  induction 1 as [|ls w l w' Hr IH He]; intros HM.
  { unfold agent_pending, count_of, admitted. simpl. rewrite map_filter_empty, map_size_empty. lia. }
  pose proof (HM _ w' (reflexivity _) (run_step _ _ _ _ _ _ Hr He)).
  assert (agent_pending (manager w) a + admitted a (tasks w) ≤ MAX_PENDING_PER_AGENT - 1 + M).
  { apply IH. intros ls1 w1 Hp. apply HM. by apply prefix_app_r. }
  destruct (exec_limit a w l w' He) as [?|?]; cbv beta zeta in *; lia.
Qed.

(** The gate lets a call pass that needs approval only with a positive answer. *)
Lemma tool_gate_pass allowed m ask caller tool input :
  tool_gate allowed (Some (m, ask)) caller tool input = Some (inr tt) →
  (∀ l, allowed = Some l → tool ∈ l) ∧
  (requires_approval m tool = true →
   ∃ summary, ask (default (lit "unknown") caller) tool summary = Ok true).
Proof.
  unfold tool_gate. intros Hg. split.
  - intros l ->. destruct (existsb (λ t, str_eqb t tool) l) eqn:E; [|done].
    apply existsb_exists in E as (t & Ht & <-%str_eqb_spec). by apply list_elem_of_In.
  - intros Hr. rewrite Hr in Hg. destruct (match allowed with Some _ => _ | None => _ end); [done|].
    destruct (slice_to input _) as [shown|]; [|done].
    exists (tool ++ lit ": " ++ shown). simpl in Hg. by destruct (ask _ _ _) as [[]|].
Qed.

(** ** Theorems *)

(** C5: No tool that needs approval runs without it. If the gate of
    [execute_tool] lets a call pass whose answer came from a request of the
    manager, the tool is in the allowed list, and, if the policy requires
    approval, the agent is a trusted hand or an operator resolved exactly this
    request with [Approved] while it was pending. This holds for every
    interleaving of requests, resolutions, timeouts and policy changes. *)
Theorem approval_required {AgentId} `{Countable AgentId} (parse : str → option AgentId)
    registry p c0 ls w t x d allowed m caller tool input :
  Run p c0 ls w → tasks w !! t = Some x → status x = Finished d →
  tool_gate allowed (Some (m, kernel_answer parse registry d)) caller tool input = Some (inr tt) →
  (∀ l, allowed = Some l → tool ∈ l) ∧
  (requires_approval m tool = true →
   auto_approved parse registry (default (lit "unknown") caller) = true ∨
   decided p c0 ls t (req x) Approved).
Proof.
  intros Hr Hx Hs [Ha Hg]%tool_gate_pass. split; [done|]. intros (summary & Hk)%Hg.
  unfold kernel_answer in Hk. destruct (auto_approved _ _ _); [by left|right].
  injection Hk as ->%bool_decide_eq_true.
  pose proof (run_decided _ _ _ _ _ _ Hr Hx) as [Hd Hc]. auto.
Qed.

(** The step that takes an entry out of the map. *)
Definition takes_out (w : World) (i : Uuid) (l : Label) : Prop :=
  (∃ d by_, l = LResolve i d by_) ∨
  ∃ t x, (l = LSubmit t ∨ l = LCleanUp t) ∧ tasks w !! t = Some x ∧ id (req x) = i.

Lemma entry_kept w l w' i q :
  exec w l = Some w' → pending (manager w) !! i = Some q →
  pending (manager w') !! i = Some q ∨ takes_out w i l.
Proof.
  intros He Hq. destruct l as [r|k|k|k|k|k|k|rid d by_|pol|n]; simpl in He.
  all: unfold check_limit, submit, receive, expire, clean_up, cancel, resolve, mbind, option_bind in He.
  all: repeat case_match; simplify_eq/=; auto.
  - destruct (decide (id (req t) = i)) as [E|E]; [|left; by rewrite lookup_insert_ne].
    right. right. exists k, t. auto.
  - destruct (decide (id (req t) = i)) as [E|E]; [|left; by rewrite lookup_delete_ne].
    right. right. exists k, t. auto.
  - destruct (decide (rid = i)) as [->|E]; [|left; by rewrite lookup_delete_ne].
    right. left. by exists d, by_.
Qed.

(** The calls that have come to an end and left nothing behind. *)
Definition returned (ts : list Task) : Prop :=
  ∀ t x, ts !! t = Some x → ∃ d, status x = Finished d.

(** C35: The pending map, exactly. In every interleaving, cancellations included,
    the entries are those of the calls that wait, are about to time out or
    were cancelled while they waited, and have got no decision, each filed
    under its id. An entry goes only when an operator resolves its id, or a
    call of the same id removes or replaces it; so the entry of a cancelled
    call stays for an operator, and nothing is pending when all calls have
    returned. *)
Theorem pending_exact p c0 ls w :
  Run p c0 ls w →
  (∀ i q, pending (manager w) !! i = Some q ↔
     ∃ x, tasks w !! sender q = Some x ∧ req x = request q ∧ id (req x) = i ∧
          is_waiting (status x) = true ∧ chan x = Open) ∧
  (∀ l w' i q, exec w l = Some w' → pending (manager w) !! i = Some q →
     pending (manager w') !! i = Some q ∨ takes_out w i l) ∧
  (returned (tasks w) → pending (manager w) = ∅).
Proof.
  intros [Hent _]%run_inv_approval. split_and!; [|intros; by eapply entry_kept|].
  - intros i q. split.
    + intros Hq. destruct (entry_task _ _ _ _ Hent Hq) as (x & Hx & Hw & Hc & Hr & Hi). by exists x.
    + intros (x & Hx & Hr & Hi & Hw & Hc). apply Hent. unfold view. rewrite Hx. simpl.
      rewrite Hw, Hc. simpl. by rewrite Hr in *.
  - intros Hall. apply map_empty. intros i. apply eq_None_not_Some. intros [q Hq].
    destruct (entry_task _ _ _ _ Hent Hq) as (x & Hx & Hw & _).
    destruct (Hall _ _ Hx) as [d Hd]. by rewrite Hd in Hw.
Qed.

(** A resolution is final. It is reported as accepted exactly when an entry
    is pending; whatever happens afterwards the call of the entry either has
    not returned or returns the decision, except if its wait had already
    timed out: then it returns [TimedOut] although the resolution was accepted.
    A call dropped by its caller returns nothing. *)
Theorem resolution_final p c0 ls w rid q d by_ x ls' w2 :
  Run p c0 ls w → pending (manager w) !! rid = Some q → tasks w !! sender q = Some x →
  exec_all (resolve w rid d by_).1 ls' = Some w2 →
  (resolve w rid d by_).2 = Ok (mkResponse rid d (clock w) by_) ∧
  is_ok (resolve (resolve w rid d by_).1 rid d by_).2 = false ∧
  ∃ x2, tasks w2 !! sender q = Some x2 ∧ req x2 = request q ∧
    (status x2 = status x ∨ status x2 = Finished (outcome_of (status x) d) ∨
     status x2 = Cancelled).
Proof.
  intros Hr Hq Hx. pose proof (run_inv_approval _ _ _ _ Hr) as Hinv.
  destruct (resolve w rid d by_) as [w1 res] eqn:E. cbn [fst snd]. intros He.
  assert (exec w (LResolve rid d by_) = Some w1) as Hexec by (simpl; by rewrite E).
  pose proof (exec_inv _ _ _ Hinv Hexec) as Hinv1. destruct Hinv as [Hent _].
  destruct (entry_task _ _ _ _ Hent Hq) as (y & Hy & Hw & Hc & Hreq & _). simplify_eq.
  unfold resolve in E. rewrite Hq in E. injection E as <- <-. split; [done|]. split.
  { unfold resolve. simpl. by rewrite lookup_delete_eq. }
  destruct (settled_exec_all _ _ _ (sender q) (request q) (status x) d (send d x) Hinv1 He Hw)
    as (x2 & Hx2 & Hr2 & _ & Hs2); [|repeat split|exists x2; tauto].
  - simpl. rewrite list_lookup_alter_eq. by rewrite Hx.
  - unfold send. by rewrite Hc.
  - unfold send. by rewrite Hc.
  - unfold send. rewrite Hc. by left.
Qed.

(** The limit on pending requests. If at most [M] calls of an agent are at
    any time between counting and inserting, it has at most four more than [M]
    requests pending: five when its calls do not overlap. *)
Theorem pending_limit p c0 ls w a M :
  Run p c0 ls w →
  (∀ ls1 w1, ls1 `prefix_of` ls → Run p c0 ls1 w1 → admitted a (tasks w1) ≤ M) →
  agent_pending (manager w) a ≤ MAX_PENDING_PER_AGENT - 1 + M.
Proof. intros Hr HM. pose proof (run_limit _ _ _ _ _ _ Hr HM). lia. Qed.

(** The steps of the task itself, and time. *)
Definition own_step (t : nat) (l : Label) : bool :=
  match l with
  | LCheck u | LSubmit u | LReceive u | LExpire u | LCleanUp u => u =? t
  | LTick _ => true
  | _ => false
  end.

(** Task [t] can return by its own steps and the passing of time. *)
Definition can_return (w : World) (t : nat) : Prop :=
  ∃ ls w' x' d, Forall (λ l, own_step t l = true) ls ∧ exec_all w ls = Some w' ∧
    tasks w' !! t = Some x' ∧ status x' = Finished d.

Lemma can_return_step w l w1 t :
  own_step t l = true → exec w l = Some w1 → can_return w1 t → can_return w t.
Proof.
  intros Hl He (ls & w' & x' & d & Hls & Hes & ?). exists (l :: ls), w', x', d.
  split; [by constructor|]. split; [simpl; by rewrite He|done].
Qed.

Lemma finished_returns w t x d : tasks w !! t = Some x → status x = Finished d → can_return w t.
Proof. intros. by exists [], w, x, d. Qed.

Lemma lookup_set (ts : list Task) t x y : ts !! t = Some x → <[t := y]> ts !! t = Some y.
Proof. intros Hx. apply list_lookup_insert_eq. by eapply lookup_lt_Some. Qed.

Lemma expired_returns w t x : tasks w !! t = Some x → status x = Expired → can_return w t.
Proof.
  intros Hx Hs. eapply (can_return_step w (LCleanUp t)); [simpl; apply Nat.eqb_refl| |].
  - simpl. unfold clean_up. rewrite Hx. simpl. by rewrite Hs.
  - eapply finished_returns; simpl; [by rewrite list_lookup_alter_eq, lookup_drop_entry, Hx|done].
Qed.

Lemma waiting_returns w t x dl : tasks w !! t = Some x → status x = Waiting dl → can_return w t.
Proof.
  intros Hx Hs. destruct (chan x) as [|d|] eqn:Hc.
  - apply (can_return_step w (LTick (Z.to_nat (dl - clock w))) _ t eq_refl eq_refl).
    eapply (can_return_step _ (LExpire t)); [simpl; apply Nat.eqb_refl| |].
    + simpl. unfold expire. simpl. rewrite Hx. simpl. rewrite Hs, Hc.
      destruct (Z.leb_spec dl (clock w + Z.of_nat (Z.to_nat (dl - clock w)))); [done|lia].
    + eapply expired_returns; [by eapply lookup_set|done].
  - eapply (can_return_step w (LReceive t)); [simpl; apply Nat.eqb_refl| |].
    + simpl. unfold receive. rewrite Hx. simpl. by rewrite Hs, Hc.
    + eapply finished_returns; [by eapply lookup_set|done].
  - eapply (can_return_step w (LExpire t)); [simpl; apply Nat.eqb_refl| |].
    + simpl. unfold expire. rewrite Hx. simpl. by rewrite Hs, Hc.
    + eapply expired_returns; [by eapply lookup_set|done].
Qed.

Lemma admitted_returns w t x : tasks w !! t = Some x → status x = Counted → can_return w t.
Proof.
  intros Hx Hs. eapply (can_return_step w (LSubmit t)); [simpl; apply Nat.eqb_refl| |].
  - simpl. unfold submit. rewrite Hx. simpl. by rewrite Hs.
  - eapply waiting_returns; simpl; [by rewrite list_lookup_alter_eq, lookup_drop_entry, Hx|done].
Qed.

Lemma called_returns w t x : tasks w !! t = Some x → status x = Called → can_return w t.
Proof.
  intros Hx Hs. destruct (check_limit w t) as [w1|] eqn:E.
  2: { unfold check_limit in E. rewrite Hx in E. simpl in E. by rewrite Hs in E. }
  apply (can_return_step w (LCheck t) w1); [simpl; apply Nat.eqb_refl|done|].
  destruct (check_limit_cases _ _ _ E) as (r & c & s & Hx1 & -> & [[_ ->]|[_ ->]]).
  - eapply finished_returns; [by eapply lookup_set|done].
  - eapply admitted_returns; [by eapply lookup_set|done].
Qed.

(** No request waits forever. At any moment of any interleaving every call that
    its caller has not dropped can return by its own steps and the passing of
    time alone, whatever operators and other calls do or do not do. *)
Theorem approval_returns w t x : tasks w !! t = Some x → status x ≠ Cancelled → can_return w t.
Proof.
  intros Hx Hn. destruct (status x) eqn:Hs; [..|done];
    eauto using called_returns, admitted_returns, waiting_returns, expired_returns, finished_returns.
Qed.

Lemma exec_all_app w ls ls' : exec_all w (ls ++ ls') = (w1 ← exec_all w ls; exec_all w1 ls').
Proof.
  revert w. induction ls as [|l ls IH]; intros w; [done|]. simpl. by destruct (exec w l); simpl.
Qed.

Lemma run_exec p c0 ls w : Run p c0 ls w ↔ exec_all (mkWorld (new p) [] c0) ls = Some w.
Proof.
  split.
  - induction 1 as [|ls w l w' _ IH He]; [done|]. rewrite exec_all_app, IH. simpl. by rewrite He.
  - revert w. induction ls as [|l ls IH] using rev_ind; intros w; [intros [= <-]; constructor|].
    rewrite exec_all_app. destruct (exec_all _ ls) as [w1|] eqn:E; [|done]. simpl.
    destruct (exec w1 l) as [w2|] eqn:E2; [|done]. intros [= <-].
    apply run_step with w1; [by apply IH|done].
Qed.
End approval.

(** ** Witnesses *)

Definition demo_request (i : nat) : ApprovalRequest (Uuid := nat) :=
  mkRequest i (lit "a") (lit "shell_exec") [] [] Critical 0 60.

Abbreviation demo_run ls := (exec_all show_nat (mkWorld (new default_policy) [] 0%Z) ls).

(** Task [t] counts and inserts without an interruption. *)
Definition demo_enter (t : nat) : list (Label (Uuid := nat)) :=
  [LStart (demo_request t); LCheck t; LSubmit t].

Definition demo_approved : list (Label (Uuid := nat)) :=
  demo_enter 0 ++ [LResolve 0 Approved None; LReceive 0].

(** The wait ends before, and the entry is removed after, the resolution. *)
Definition demo_late : list (Label (Uuid := nat)) := demo_enter 0 ++ [LTick 60; LExpire 0].

(** Four requests are pending when two more count before either inserts. *)
Definition demo_crowd : list (Label (Uuid := nat)) :=
  demo_enter 0 ++ demo_enter 1 ++ demo_enter 2 ++ demo_enter 3 ++
  [LStart (demo_request 4); LStart (demo_request 5); LCheck 4; LCheck 5; LSubmit 4; LSubmit 5].

Definition demo_world (ls : list (Label (Uuid := nat))) : World (Uuid := nat) :=
  default (mkWorld (new default_policy) [] 0%Z) (demo_run ls).

Lemma demo_run_ok ls : is_Some (demo_run ls) → Run show_nat default_policy 0 ls (demo_world ls).
Proof. intros [w Hw]. apply run_exec. unfold demo_world. by rewrite Hw. Qed.

(** The count and the insertion are two steps, so two calls of an agent can
    both count four pending requests and leave it with six, one more than
    [MAX_PENDING_PER_AGENT]. *)
Theorem pending_limit_race :
  ∃ ls w, Run show_nat default_policy 0 ls w ∧
    agent_pending (manager w) (lit "a") = S MAX_PENDING_PER_AGENT.
Proof.
  exists demo_crowd, (demo_world demo_crowd).
  split; [apply demo_run_ok; vm_compute; eauto|vm_compute; reflexivity].
Qed.

Lemma approval_required_witness :
  (∀ l, Some [lit "shell_exec"] = Some l → lit "shell_exec" ∈ l) ∧
  (requires_approval (manager (demo_world demo_approved)) (lit "shell_exec") = true →
   auto_approved (λ _, None) (∅ : gmap nat (list str)) (lit "a") = true ∨
   decided show_nat default_policy 0 demo_approved 0 (demo_request 0) Approved).
Proof.
  apply (approval_required show_nat (λ _, None) (∅ : gmap nat (list str)) default_policy 0
    demo_approved (demo_world demo_approved) 0 (mkTask (demo_request 0) (Finished Approved) (Sent Approved))
    Approved (Some [lit "shell_exec"]) (manager (demo_world demo_approved)) (Some (lit "a"))
    (lit "shell_exec") (lit "{}")); [apply demo_run_ok; vm_compute; eauto|vm_compute; reflexivity..].
Defined.

(** A cancelled call leaves its entry, whatever time passes. *)
Definition demo_dropped : list (Label (Uuid := nat)) :=
  demo_enter 0 ++ [LCancel 0; LTick 1000] ++ demo_enter 1.

Example dropped_stays :
  pending_count (manager (demo_world demo_dropped)) = 2 ∧
  pending_count (manager (demo_world (demo_dropped ++ [LTick 60; LExpire 1; LCleanUp 1]))) = 1.
Proof. vm_compute. done. Qed.

Lemma pending_exact_witness :
  (∀ i q, pending (manager (demo_world demo_dropped)) !! i = Some q ↔
     ∃ x, tasks (demo_world demo_dropped) !! sender q = Some x ∧ req x = request q ∧ id (req x) = i ∧
          is_waiting (status x) = true ∧ chan x = Open) ∧
  (∀ l w' i q, exec show_nat (demo_world demo_dropped) l = Some w' →
     pending (manager (demo_world demo_dropped)) !! i = Some q →
     pending (manager w') !! i = Some q ∨ takes_out (demo_world demo_dropped) i l) ∧
  (returned (tasks (demo_world demo_dropped)) → pending (manager (demo_world demo_dropped)) = ∅).
Proof.
  apply (pending_exact show_nat default_policy 0 demo_dropped). apply demo_run_ok; vm_compute; eauto.
Defined.

Lemma resolution_final_witness :
  ∃ w2, exec_all show_nat (resolve show_nat (demo_world demo_late) 0 Approved None).1 [LCleanUp 0]
        = Some w2 ∧
    ∃ x2, tasks w2 !! 0 = Some x2 ∧ req x2 = demo_request 0 ∧
      (status x2 = Expired ∨ status x2 = Finished TimedOut ∨ status x2 = Cancelled).
Proof.
  pose (w2 := default (demo_world [])
    (exec_all show_nat (resolve show_nat (demo_world demo_late) 0 Approved None).1 [LCleanUp 0])).
  exists w2. split; [vm_compute; reflexivity|].
  refine (proj2 (proj2 (resolution_final show_nat default_policy 0 demo_late (demo_world demo_late) 0
    (mkPending (demo_request 0) 0) Approved None (mkTask (demo_request 0) Expired Open) [LCleanUp 0] w2
    _ _ _ _))); [apply demo_run_ok; vm_compute; eauto|vm_compute; reflexivity..].
Defined.

Lemma pending_limit_witness :
  agent_pending (manager (demo_world (demo_enter 0))) (lit "a") ≤ 5.
Proof.
  apply (pending_limit show_nat default_policy 0 (demo_enter 0) _ (lit "a") 1);
    [apply demo_run_ok; vm_compute; eauto|].
  intros ls1 w1 [k Hk] Hr%run_exec.
  assert (ls1 = take (length ls1) (demo_enter 0)) as E by (by rewrite Hk, take_app_length).
  assert (length ls1 ≤ 3) as Hl by (apply (f_equal length) in Hk; rewrite length_app in Hk; simpl in Hk; lia).
  rewrite E in Hr. clear E Hk. destruct (length ls1) as [|[|[|[|n]]]]; [..|lia];
    vm_compute in Hr; injection Hr as <-; vm_compute; lia.
Defined.

Lemma approval_returns_witness : can_return show_nat (demo_world (demo_enter 0)) 0.
Proof.
  apply (approval_returns show_nat (demo_world (demo_enter 0)) 0
           (mkTask (demo_request 0) (Waiting 60) Open)); [vm_compute; reflexivity|done].
Defined.
