(* ===== verification/Workflow.v ===== *)
(** * Workflow engine

    [openfang-kernel/src/workflow.rs]: workflow definitions, runs, the
    execution of a run step by step with its modes (sequential, fan-out,
    collect, conditional, loop) and error modes (fail, skip, retry), and the
    eviction of old runs.

    The agents are reached through two closures, parameters here: [resolver]
    and [respond], which gives the outcome of the [n]-th message of a run
    (a reply, an error, or the elapsed timeout of the step). [utc] and
    [millis] are the readings of the clocks after [n] messages. The iteration
    order of a [HashMap] is not specified, so it is a parameter too, any
    permutation of the entries. The operations of an engine run one at a
    time. *)

From Stdlib Require Import Ascii ZArith Lia.
From stdpp Require Import base gmap strings list sorting.
From S2P Require Import Prelude Strs.

Inductive StepAgent : Type :=
| ById (id : str)
| ByName (name : str).

Inductive StepMode : Type :=
| Sequential
| FanOut
| Collect
| Conditional (condition : str)
| Loop (max_iterations : Z) (until : str).

Inductive ErrorMode : Type :=
| Fail
| Skip
| Retry (max_retries : Z).

Record WorkflowStep : Type := mkStep {
  step_name : str;
  agent : StepAgent;
  prompt_template : str;
  mode : StepMode;
  timeout_secs : Z;
  error_mode : ErrorMode;
  output_var : option str
}.

Inductive WorkflowRunState : Type :=
| Pending
| Running
| Completed
| Failed.

Record StepResult : Type := mkResult {
  res_step_name : str;
  res_agent_id : str;
  res_agent_name : str;
  res_output : str;
  input_tokens : Z;
  output_tokens : Z;
  duration_ms : Z
}.

Definition MAX_RETAINED_RUNS : nat := 200.

(** What became of [tokio::time::timeout(d, send_message(agent, prompt))]. *)
Inductive Outcome : Type :=
| Replied (output : str) (tokens_in tokens_out : Z)
| Errored (e : str)
| TimedOut.

Section workflow.
Context {AgentId WorkflowId RunId : Type} `{Countable WorkflowId} `{Countable RunId}.
Context (show_agent : AgentId → str).

Record Workflow : Type := mkWorkflow {
  wf_id : WorkflowId;
  wf_name : str;
  description : str;
  steps : list WorkflowStep;
  created_at : Z
}.

Record WorkflowRun : Type := mkRun {
  run_id : RunId;
  workflow_id : WorkflowId;
  workflow_name : str;
  run_input : str;
  state : WorkflowRunState;
  step_results : list StepResult;
  output : option str;
  error : option str;
  started_at : Z;
  completed_at : option Z
}.

Record WorkflowEngine : Type := mkEngine {
  workflows : gmap WorkflowId Workflow;
  runs : gmap RunId WorkflowRun
}.

Definition new_engine : WorkflowEngine := mkEngine ∅ ∅.

(** ** Definitions and runs *)

Definition register (e : WorkflowEngine) (w : Workflow) : WorkflowEngine * WorkflowId :=
  (mkEngine (<[wf_id w := w]> (workflows e)) (runs e), wf_id w).

Definition list_workflows (e : WorkflowEngine) : list Workflow := (map_to_list (workflows e)).*2.

Definition get_workflow (e : WorkflowEngine) (id : WorkflowId) : option Workflow :=
  workflows e !! id.

Definition remove_workflow (e : WorkflowEngine) (id : WorkflowId) : WorkflowEngine * bool :=
  (mkEngine (delete id (workflows e)) (runs e), bool_decide (is_Some (workflows e !! id))).

Definition is_terminal (r : WorkflowRun) : bool :=
  match state r with Completed | Failed => true | Pending | Running => false end.

Section order.
Context (run_order : gmap RunId WorkflowRun → list (RunId * WorkflowRun)).

Definition evictable (rs : gmap RunId WorkflowRun) : list (RunId * Z) :=
  (λ e, (e.1, started_at e.2)) <$> List.filter (λ e, is_terminal e.2) (run_order rs).

Definition evict (rs : gmap RunId WorkflowRun) : gmap RunId WorkflowRun :=
  if MAX_RETAINED_RUNS <? size rs then
    let to_remove := size rs - MAX_RETAINED_RUNS in
    foldl (λ rs e, delete e.1 rs) rs (take to_remove (sort_by_key snd (evictable rs)))
  else rs.

(** [new_id] is the fresh [WorkflowRunId] and [now] the current time. *)
Definition create_run (e : WorkflowEngine) (wid : WorkflowId) (input : str) (new_id : RunId)
    (now : Z) : WorkflowEngine * option RunId :=
  match workflows e !! wid with
  | None => (e, None)
  | Some w =>
      let run := mkRun new_id wid (wf_name w) input Pending [] None None now None in
      (mkEngine (workflows e) (evict (<[new_id := run]> (runs e))), Some new_id)
  end.
End order.

Definition get_run (e : WorkflowEngine) (id : RunId) : option WorkflowRun := runs e !! id.

Definition matches_filter (f : str) (r : WorkflowRun) : bool :=
  if str_eqb f (lit "pending") then match state r with Pending => true | _ => false end
  else if str_eqb f (lit "running") then match state r with Running => true | _ => false end
  else if str_eqb f (lit "completed") then match state r with Completed => true | _ => false end
  else if str_eqb f (lit "failed") then match state r with Failed => true | _ => false end
  else true.

Definition list_runs (e : WorkflowEngine) (state_filter : option str) : list WorkflowRun :=
  List.filter (λ r, match state_filter with Some f => matches_filter f r | None => true end)
    (map_to_list (runs e)).*2.

(** ** Execution *)

Context (resolver : StepAgent → option (AgentId * str)).
Context (respond : nat → AgentId → str → Outcome) (utc millis : nat → Z).
Context (var_order : gmap str str → list (str * str)).
Context `{UnicodeCase}.

(** The state of an executing run: the runs of the engine, the messages sent
    so far and the local variables of [execute_run]. *)
Record Exec : Type := mkExec {
  ex_runs : gmap RunId WorkflowRun;
  sent : list (AgentId * str);
  current_input : str;
  all_outputs : list str;
  variables : gmap str str
}.

Definition expand_variables (template input : str) (vars : gmap str str) : str :=
  foldl (λ acc kv, replace acc (lit "{{" ++ kv.1 ++ lit "}}") kv.2)
    (replace template (lit "{{input}}") input) (var_order vars).

Definition send (st : Exec) (a : AgentId) (prompt : str) : Exec * Outcome :=
  (mkExec (ex_runs st) (sent st ++ [(a, prompt)]) (current_input st) (all_outputs st)
     (variables st),
   respond (length (sent st)) a prompt).

(** [for attempt in 0..=max_retries], with [n] attempts left. *)
Fixpoint retry_loop (n : nat) (step : WorkflowStep) (a : AgentId) (prompt : str) (st : Exec)
    (last_err : str) : Exec * result (option (str * Z * Z)) str :=
  match n with
  | 0 =>
      (st, Err (lit "Step '" ++ step_name step ++ lit "' failed after "
                ++ show_Z (match error_mode step with Retry m => m | _ => 0%Z end)
                ++ lit " retries: " ++ last_err))
  | S n =>
      match send st a prompt with
      | (st, Replied o ti to) => (st, Ok (Some (o, ti, to)))
      | (st, Errored e) => retry_loop n step a prompt st e
      | (st, TimedOut) =>
          retry_loop n step a prompt st
            (lit "timed out after " ++ show_Z (timeout_secs step) ++ lit "s")
      end
  end.

Definition execute_step_with_error_mode (step : WorkflowStep) (a : AgentId) (prompt : str)
    (st : Exec) : Exec * result (option (str * Z * Z)) str :=
  match error_mode step with
  | Fail =>
      match send st a prompt with
      | (st, Replied o ti to) => (st, Ok (Some (o, ti, to)))
      | (st, Errored e) => (st, Err (lit "Step '" ++ step_name step ++ lit "' failed: " ++ e))
      | (st, TimedOut) =>
          (st, Err (lit "Step '" ++ step_name step ++ lit "' timed out after "
                    ++ show_Z (timeout_secs step) ++ lit "s"))
      end
  | Skip =>
      match send st a prompt with
      | (st, Replied o ti to) => (st, Ok (Some (o, ti, to)))
      | (st, Errored _) | (st, TimedOut) => (st, Ok None)
      end
  | Retry max_retries =>
      retry_loop (Z.to_nat (max_retries + 1)) step a prompt st []
  end.

Section run.
Context (rid : RunId).

Definition update_run (f : WorkflowRun → WorkflowRun) (st : Exec) : Exec :=
  mkExec (alter f rid (ex_runs st)) (sent st) (current_input st) (all_outputs st) (variables st).

Definition set_running (r : WorkflowRun) : WorkflowRun :=
  mkRun (run_id r) (workflow_id r) (workflow_name r) (run_input r) Running (step_results r)
    (output r) (error r) (started_at r) (completed_at r).

Definition set_failed (e : str) (now : Z) (r : WorkflowRun) : WorkflowRun :=
  mkRun (run_id r) (workflow_id r) (workflow_name r) (run_input r) Failed (step_results r)
    (output r) (Some e) (started_at r) (Some now).

Definition set_completed (o : str) (now : Z) (r : WorkflowRun) : WorkflowRun :=
  mkRun (run_id r) (workflow_id r) (workflow_name r) (run_input r) Completed (step_results r)
    (Some o) (error r) (started_at r) (Some now).

Definition push_result (x : StepResult) (r : WorkflowRun) : WorkflowRun :=
  mkRun (run_id r) (workflow_id r) (workflow_name r) (run_input r) (state r)
    (step_results r ++ [x]) (output r) (error r) (started_at r) (completed_at r).

(** The run is marked failed and the error returned. *)
Definition fail_run (st : Exec) (e : str) : result Exec (Exec * str) :=
  Err (update_run (set_failed e (utc (length (sent st)))) st, e).

Definition agent_not_found (st : Exec) (step : WorkflowStep) : result Exec (Exec * str) :=
  Err (st, lit "Agent not found for step '" ++ step_name step ++ lit "'").

Definition set_var (var : option str) (v : str) (st : Exec) : Exec :=
  match var with
  | Some k => mkExec (ex_runs st) (sent st) (current_input st) (all_outputs st)
                (<[k := v]> (variables st))
  | None => st
  end.

Definition set_input (i : str) (st : Exec) : Exec :=
  mkExec (ex_runs st) (sent st) i (all_outputs st) (variables st).

Definition push_output (o : str) (st : Exec) : Exec :=
  mkExec (ex_runs st) (sent st) (current_input st) (all_outputs st ++ [o]) (variables st).

(** A reply is recorded, stored, appended and becomes the next input. *)
Definition accept (step : WorkflowStep) (a : AgentId) (aname : str) (ms : Z) (o : str)
    (ti to : Z) (st : Exec) : Exec :=
  let x := mkResult (step_name step) (show_agent a) aname o ti to ms in
  set_input o (push_output o (set_var (output_var step) o (update_run (push_result x) st))).

(** A sequential step. *)
Definition run_single (step : WorkflowStep) (st : Exec) : result Exec (Exec * str) :=
  match resolver (agent step) with
  | None => agent_not_found st step
  | Some (a, aname) =>
      let prompt := expand_variables (prompt_template step) (current_input st) (variables st) in
      let ms := millis (length (sent st)) in
      match execute_step_with_error_mode step a prompt st with
      | (st, Ok (Some (o, ti, to))) => Ok (accept step a aname ms o ti to st)
      | (st, Ok None) => Ok st
      | (st, Err e) => fail_run st e
      end
  end.

(** A conditional step runs like a sequential one if the previous output
    contains the condition, case-insensitively, and is skipped otherwise. *)
Definition run_conditional (condition : str) (step : WorkflowStep) (st : Exec)
    : result Exec (Exec * str) :=
  let prev_lower := to_lowercase (current_input st) in
  let cond_lower := to_lowercase condition in
  if negb (contains prev_lower cond_lower) then Ok st else run_single step st.

(** The agents and prompts of a fan-out group; the first step without an
    agent ends the run before anything is sent. *)
Fixpoint prepare_fan_out (group : list WorkflowStep) (st : Exec)
    : result (list (WorkflowStep * AgentId * str * str)) (Exec * str) :=
  match group with
  | [] => Ok []
  | step :: rest =>
      match resolver (agent step) with
      | None => Err (st, lit "Agent not found for step '" ++ step_name step ++ lit "'")
      | Some (a, aname) =>
          let prompt := expand_variables (prompt_template step) (current_input st) (variables st) in
          match prepare_fan_out rest st with
          | Ok infos => Ok ((step, a, aname, prompt) :: infos)
          | Err e => Err e
          end
      end
  end.

(** [join_all]: every message is sent and every outcome awaited. *)
Fixpoint join_all (infos : list (WorkflowStep * AgentId * str * str)) (st : Exec)
    : Exec * list Outcome :=
  match infos with
  | [] => (st, [])
  | (_, a, _, prompt) :: rest =>
      let '(st, out) := send st a prompt in
      let '(st, outs) := join_all rest st in
      (st, out :: outs)
  end.

Fixpoint collect_fan_out (infos : list (WorkflowStep * AgentId * str * str))
    (outs : list Outcome) (ms : Z) (st : Exec) : result Exec (Exec * str) :=
  match infos, outs with
  | (step, a, aname, _) :: infos, out :: outs =>
      match out with
      | Replied o ti to => collect_fan_out infos outs ms (accept step a aname ms o ti to st)
      | Errored e =>
          fail_run st (lit "FanOut step '" ++ step_name step ++ lit "' failed: " ++ e)
      | TimedOut =>
          fail_run st (lit "FanOut step '" ++ step_name step ++ lit "' timed out after "
                       ++ show_Z (timeout_secs step) ++ lit "s")
      end
  | _, _ => Ok st
  end.

Definition run_fan_out (group : list WorkflowStep) (st : Exec) : result Exec (Exec * str) :=
  match prepare_fan_out group st with
  | Err e => Err e
  | Ok infos =>
      let ms := millis (length (sent st)) in
      let '(st, outs) := join_all infos st in
      collect_fan_out infos outs ms st
  end.

Definition run_collect (step : WorkflowStep) (st : Exec) : Exec :=
  let joined := join (all_outputs st) (bytes [10; 10] ++ lit "---" ++ bytes [10; 10]) in
  set_var (output_var step) joined
    (mkExec (ex_runs st) (sent st) joined [joined] (variables st)).

(** [for loop_iter in 0..max_iterations], with [n] rounds left. *)
Fixpoint loop_rounds (n : nat) (loop_iter : Z) (until_lower : str) (step : WorkflowStep)
    (a : AgentId) (aname : str) (st : Exec) : result Exec (Exec * str) :=
  match n with
  | 0 => Ok st
  | S n =>
      let prompt := expand_variables (prompt_template step) (current_input st) (variables st) in
      let ms := millis (length (sent st)) in
      match execute_step_with_error_mode step a prompt st with
      | (st, Ok (Some (o, ti, to))) =>
          let x := mkResult (step_name step ++ lit " (iter " ++ show_Z (loop_iter + 1) ++ lit ")")
                     (show_agent a) aname o ti to ms in
          let st := set_input o (update_run (push_result x) st) in
          if contains (to_lowercase o) until_lower then Ok st
          else loop_rounds n (loop_iter + 1) until_lower step a aname st
      | (st, Ok None) => Ok st
      | (st, Err e) => fail_run st e
      end
  end.

Definition run_loop (max_iterations : Z) (until : str) (step : WorkflowStep) (st : Exec)
    : result Exec (Exec * str) :=
  match resolver (agent step) with
  | None => agent_not_found st step
  | Some (a, aname) =>
      match loop_rounds (Z.to_nat max_iterations) 0 (to_lowercase until) step a aname st with
      | Err e => Err e
      | Ok st => Ok (push_output (current_input st) (set_var (output_var step) (current_input st) st))
      end
  end.

Definition is_fan_out (step : WorkflowStep) : bool :=
  match mode step with FanOut => true | _ => false end.

Fixpoint take_while {A} (f : A → bool) (l : list A) : list A :=
  match l with
  | [] => []
  | x :: l' => if f x then x :: take_while f l' else []
  end.

(** The [while] loop over the steps. A fan-out step takes its whole group, so
    the rest is shorter by one step at least: [length steps] rounds suffice. *)
Fixpoint run_steps_fuel (fuel : nat) (ss : list WorkflowStep) (st : Exec)
    : result Exec (Exec * str) :=
  match ss, fuel with
  | [], _ | _, 0 => Ok st
  | step :: rest, S fuel =>
      match mode step with
      | Sequential =>
          match run_single step st with
          | Ok st => run_steps_fuel fuel rest st
          | Err e => Err e
          end
      | FanOut =>
          match run_fan_out (step :: take_while is_fan_out rest) st with
          | Ok st => run_steps_fuel fuel (drop_while is_fan_out rest) st
          | Err e => Err e
          end
      | Collect => run_steps_fuel fuel rest (run_collect step st)
      | Conditional condition =>
          match run_conditional condition step st with
          | Ok st => run_steps_fuel fuel rest st
          | Err e => Err e
          end
      | Loop max_iterations until =>
          match run_loop max_iterations until step st with
          | Ok st => run_steps_fuel fuel rest st
          | Err e => Err e
          end
      end
  end.

Definition run_steps (ss : list WorkflowStep) (st : Exec) : result Exec (Exec * str) :=
  run_steps_fuel (length ss) ss st.

Definition execute_run (e : WorkflowEngine) : WorkflowEngine * list (AgentId * str) * result str str :=
  match runs e !! rid with
  | None => (e, [], Err (lit "Workflow run not found"))
  | Some run =>
      let rs := <[rid := set_running run]> (runs e) in
      match workflows e !! workflow_id run with
      | None => (mkEngine (workflows e) rs, [], Err (lit "Workflow definition not found"))
      | Some w =>
          match run_steps (steps w) (mkExec rs [] (run_input run) [] ∅) with
          | Ok st =>
              let final := current_input st in
              let st := update_run (set_completed final (utc (length (sent st)))) st in
              (mkEngine (workflows e) (ex_runs st), sent st, Ok final)
          | Err (st, err) => (mkEngine (workflows e) (ex_runs st), sent st, Err err)
          end
      end
  end.

(** ** What a step may do

    [evolves n st st']: from [st] to [st'] at most [n] messages were sent, the
    run only gained results, and no other run was touched. *)

Definition grows (r r' : WorkflowRun) : Prop :=
  state r' = state r ∧ output r' = output r ∧ error r' = error r ∧
  workflow_id r' = workflow_id r ∧ run_input r' = run_input r ∧
  step_results r `prefix_of` step_results r'.

Record evolves (n : nat) (st st' : Exec) : Prop := {
  ev_sent : ∃ msgs, sent st' = sent st ++ msgs ∧ length msgs ≤ n;
  ev_run r : ex_runs st !! rid = Some r → ∃ r', ex_runs st' !! rid = Some r' ∧ grows r r';
  ev_frame k : k ≠ rid → ex_runs st' !! k = ex_runs st !! k
}.

(** How a step of [ss] may end the run: with the run marked failed, or, for
    want of an agent, with the run as it was. *)
Definition post (ss : list WorkflowStep) (n : nat) (st : Exec) (r : result Exec (Exec * str))
    : Prop :=
  match r with
  | Ok st' => evolves n st st'
  | Err (st', e) =>
      ∃ st1, evolves n st st1 ∧
        ((∃ now, st' = update_run (set_failed e now) st1) ∨
         (st' = st1 ∧ ∃ step, step ∈ ss ∧ resolver (agent step) = None ∧
            e = lit "Agent not found for step '" ++ step_name step ++ lit "'"))
  end.

Lemma grows_refl r : grows r r.
Proof. done. Qed.

Lemma grows_trans r1 r2 r3 : grows r1 r2 → grows r2 r3 → grows r1 r3.
Proof.
  intros (E1 & E2 & E3 & E4 & E5 & P1) (F1 & F2 & F3 & F4 & F5 & P2).
  split_and!; try congruence. by etrans.
Qed.

Lemma grows_push x r : grows r (push_result x r).
Proof. split_and!; try done. simpl. by eexists. Qed.

Lemma evolves_refl n st : evolves n st st.
Proof.
  split; [|eauto using grows_refl|done]. exists []. rewrite app_nil_r. split; [done|simpl; lia].
Qed.

Lemma evolves_trans n m st1 st2 st3 :
  evolves n st1 st2 → evolves m st2 st3 → evolves (n + m) st1 st3.
Proof.
  intros [(a & Ha & Hn) R1 F1] [(b & Hb & Hm) R2 F2]. split.
  - exists (a ++ b). rewrite Hb, Ha, length_app, app_assoc. split; [done|lia].
  - intros r (r' & Hr' & G1)%R1. destruct (R2 _ Hr') as (r'' & ? & G2).
    eauto using grows_trans.
  - intros k Hk. by rewrite F2, F1.
Qed.

Lemma evolves_weaken n m st st' : n ≤ m → evolves n st st' → evolves m st st'.
Proof. intros Hle [(a & Ha & Hn) R F]. split; [|done..]. exists a. split; [done|lia]. Qed.

Lemma evolves_update n st f :
  (∀ r, grows r (f r)) → evolves n st (update_run f st).
Proof.
  intros Hf. split; simpl.
  - exists []. rewrite app_nil_r. split; [done|simpl; lia].
  - intros r Hr. rewrite lookup_alter_eq, Hr. simpl. eauto.
  - intros k Hk. by rewrite lookup_alter_ne.
Qed.

(** Changing the local variables only. *)
Lemma evolves_locals n st i os vs :
  evolves n st (mkExec (ex_runs st) (sent st) i os vs).
Proof.
  split; simpl; [|eauto using grows_refl|done]. exists []. rewrite app_nil_r.
  split; [done|simpl; lia].
Qed.

Lemma evolves_set_var n st var v : evolves n st (set_var var v st).
Proof. destruct var; [apply evolves_locals|apply evolves_refl]. Qed.

Lemma evolves_send st a prompt : evolves 1 st (send st a prompt).1.
Proof.
  split; simpl; [|eauto using grows_refl|done]. by eexists.
Qed.

Lemma evolves_0 n st st1 st2 : evolves n st st1 → evolves 0 st1 st2 → evolves n st st2.
Proof. intros E1 E2. rewrite <-(Nat.add_0_r n). by eapply evolves_trans. Qed.

Lemma evolves_accept step a aname ms o ti to st :
  evolves 0 st (accept step a aname ms o ti to st).
Proof.
  unfold accept.
  eapply evolves_0; [apply (evolves_update 0), grows_push|].
  eapply evolves_0; [apply evolves_set_var|]. eapply evolves_0; [apply evolves_locals|].
  apply evolves_locals.
Qed.

Lemma post_weaken ss ss' n m st r :
  ss ⊆ ss' → n ≤ m → post ss n st r → post ss' m st r.
Proof.
  intros Hs Hn. destruct r as [st'|[st' e]]; simpl; [by apply evolves_weaken|].
  intros (st1 & He & [?|(-> & step & ? & ? & ->)]); exists st1;
    (split; [by eapply evolves_weaken|]); [by left|].
  right. split; [done|]. exists step. auto.
Qed.

Lemma post_after ss n m st st1 r : evolves n st st1 → post ss m st1 r → post ss (n + m) st r.
Proof.
  intros He. destruct r as [st'|[st' e]]; simpl; [by apply evolves_trans|].
  intros (st2 & He2 & ?). exists st2. split; [by eapply evolves_trans|done].
Qed.

Lemma post_bind ss n m st r k :
  post ss n st r → (∀ st', post ss m st' (k st')) →
  post ss (n + m) st (match r with Ok st' => k st' | Err e => Err e end).
Proof.
  intros Hr Hk. destruct r as [st'|[st' e]]; [by eapply post_after|].
  eapply post_weaken; [done| |exact Hr]. lia.
Qed.

Lemma post_fail ss n st e : post ss n st (fail_run st e).
Proof. exists st. split; [apply evolves_refl|]. left. by eexists. Qed.

Lemma post_agent_not_found ss n st step :
  resolver (agent step) = None → step ∈ ss → post ss n st (agent_not_found st step).
Proof. intros Hr Hin. exists st. split; [apply evolves_refl|]. right. eauto. Qed.

(** ** The number of messages *)

Definition attempts (em : ErrorMode) : nat :=
  match em with Fail | Skip => 1 | Retry m => Z.to_nat (m + 1) end.

Definition max_messages (step : WorkflowStep) : nat :=
  match mode step with
  | Sequential | Conditional _ => attempts (error_mode step)
  | FanOut => 1
  | Collect => 0
  | Loop n _ => Z.to_nat n * attempts (error_mode step)
  end.

Lemma retry_loop_evolves n step a prompt st err :
  evolves n st (retry_loop n step a prompt st err).1.
Proof.
  revert st err. induction n as [|n IH]; intros st err; simpl; [apply evolves_refl|].
  pose proof (evolves_send st a prompt) as Hs. simpl in Hs.
  destruct (respond _ _ _); simpl; [eapply evolves_weaken; [|exact Hs]; lia|..];
    apply (evolves_trans 1 n _ _ _ Hs), IH.
Qed.

Lemma execute_step_evolves step a prompt st :
  evolves (attempts (error_mode step)) st (execute_step_with_error_mode step a prompt st).1.
Proof.
  unfold execute_step_with_error_mode. pose proof (evolves_send st a prompt) as Hs. simpl in *.
  destruct (error_mode step); simpl; [by destruct (respond _ _ _)..|]. apply retry_loop_evolves.
Qed.

Lemma run_single_post step st :
  post [step] (attempts (error_mode step)) st (run_single step st).
Proof.
  unfold run_single. destruct (resolver (agent step)) as [[a aname]|] eqn:Er;
    [|apply post_agent_not_found; [done|by left]].
  set (prompt := expand_variables _ _ _).
  pose proof (execute_step_evolves step a prompt st) as He.
  destruct (execute_step_with_error_mode _ _ _ _) as [st' [[[[o ti] to]|]|e]]; simpl in He.
  - eapply evolves_0; [exact He|]. apply evolves_accept.
  - done.
  - rewrite <-(Nat.add_0_r (attempts _)). eapply post_after; [exact He|]. apply post_fail.
Qed.

Lemma prepare_fan_out_spec group st :
  match prepare_fan_out group st with
  | Ok infos => (λ i, i.1.1.1) <$> infos = group
  | Err (st', e) => st' = st ∧ ∃ step, step ∈ group ∧ resolver (agent step) = None ∧
      e = lit "Agent not found for step '" ++ step_name step ++ lit "'"
  end.
Proof.
  induction group as [|step group IH]; [done|]. simpl.
  destruct (resolver (agent step)) as [[a aname]|] eqn:Er; [|split; [done|]; exists step; set_solver].
  destruct (prepare_fan_out group st) as [infos|[st' e]]; [by rewrite fmap_cons, IH|].
  destruct IH as (-> & s' & ? & ? & ->). split; [done|]. exists s'. set_solver.
Qed.

Lemma join_all_evolves infos st :
  evolves (length infos) st (join_all infos st).1 ∧
  length (join_all infos st).2 = length infos.
Proof.
  revert st. induction infos as [|[[[step a] aname] prompt] infos IH]; intros st; simpl;
    [split; [apply evolves_refl|done]|].
  pose proof (evolves_send st a prompt) as Hs. simpl in Hs.
  match goal with |- context [join_all infos ?st1] => specialize (IH st1) end.
  destruct (join_all infos _) as [st' outs]. simpl in *. destruct IH as [IH1 IH2].
  split; [|by rewrite IH2]. by apply (evolves_trans 1 (length infos) _ _ _ Hs).
Qed.

Lemma collect_fan_out_post ss infos outs ms st : post ss 0 st (collect_fan_out infos outs ms st).
Proof.
  revert outs st. induction infos as [|[[[step a] aname] prompt] infos IH]; intros [|out outs] st;
    try apply evolves_refl.
  simpl. destruct out as [o ti to|e|]; [|apply post_fail..].
  apply (post_after ss 0 0 _ _ _ (evolves_accept step a aname ms o ti to st)), IH.
Qed.

Lemma run_fan_out_post group st : post group (length group) st (run_fan_out group st).
Proof.
  unfold run_fan_out. pose proof (prepare_fan_out_spec group st) as Hp.
  destruct (prepare_fan_out group st) as [infos|[st' e]].
  - destruct (join_all_evolves infos st) as [He _]. destruct (join_all infos st) as [st' outs].
    rewrite <-Hp at 2. rewrite length_fmap, <-(Nat.add_0_r (length infos)).
    eapply post_after; [exact He|]. apply collect_fan_out_post.
  - destruct Hp as (-> & step & ? & ? & ->). exists st. split; [apply evolves_refl|].
    right. split; [done|]. by exists step.
Qed.

Lemma loop_rounds_post ss n i ul step a aname st :
  post ss (n * attempts (error_mode step)) st (loop_rounds n i ul step a aname st).
Proof.
  revert i st. induction n as [|n IH]; intros i st; simpl; [apply evolves_refl|].
  set (prompt := expand_variables _ _ _).
  pose proof (execute_step_evolves step a prompt st) as He.
  destruct (execute_step_with_error_mode _ _ _ _) as [st' [[[[o ti] to]|]|e]]; simpl in He.
  - set (st2 := set_input _ _).
    assert (evolves (attempts (error_mode step)) st st2) as He2.
    { eapply evolves_0; [exact He|]. eapply evolves_0; [apply (evolves_update 0), grows_push|].
      apply evolves_locals. }
    destruct (contains _ _); [eapply evolves_weaken; [|exact He2]; lia|].
    eapply post_after; [exact He2|]. apply IH.
  - eapply evolves_weaken; [|exact He]. lia.
  - eapply post_after; [exact He|]. apply post_fail.
Qed.

Lemma run_loop_post n u step st :
  post [step] (Z.to_nat n * attempts (error_mode step)) st (run_loop n u step st).
Proof.
  unfold run_loop. destruct (resolver (agent step)) as [[a aname]|] eqn:Er;
    [|apply post_agent_not_found; [done|by left]].
  rewrite <-(Nat.add_0_r (_ * _)).
  apply post_bind; [apply loop_rounds_post|]. intros st'. eapply evolves_0; [apply evolves_set_var|].
  apply evolves_locals.
Qed.

Lemma take_drop_while (l : list WorkflowStep) :
  take_while is_fan_out l ++ drop_while is_fan_out l = l.
Proof. induction l as [|x l IH]; simpl; [done|]. destruct (is_fan_out x); simpl; by rewrite ?IH. Qed.

Lemma fan_out_group_messages l :
  sum_list_with max_messages (take_while is_fan_out l) = length (take_while is_fan_out l).
Proof.
  induction l as [|x l IH]; simpl; [done|]. destruct (is_fan_out x) eqn:E; [|done].
  simpl. rewrite IH. unfold max_messages, is_fan_out in *. by destruct (mode x).
Qed.

(** [length ss] rounds are enough: more make no difference. *)
Lemma run_steps_fuel_enough fuel ss st :
  length ss ≤ fuel → run_steps_fuel fuel ss st = run_steps ss st.
Proof.
  unfold run_steps. remember (length ss) as n eqn:Hn.
  assert (length ss ≤ n) as Hle by lia. clear Hn.
  revert fuel n ss st Hle.
  assert (∀ fuel n ss st, length ss ≤ n → n ≤ fuel →
    run_steps_fuel fuel ss st = run_steps_fuel n ss st) as Hind; [|auto].
  intros fuel n. revert fuel. induction n as [|n IH]; intros fuel ss st Hss Hf.
  { destruct ss; [by destruct fuel|simpl in Hss; lia]. }
  destruct fuel as [|fuel]; [lia|]. destruct ss as [|step rest]; [done|].
  assert (∀ st, run_steps_fuel fuel rest st = run_steps_fuel n rest st) as Hr
    by (intros; apply IH; simpl in Hss; lia).
  assert (∀ st, run_steps_fuel fuel (drop_while is_fan_out rest) st
                = run_steps_fuel n (drop_while is_fan_out rest) st) as Hd.
  { intros. apply IH; [|lia]. pose proof (drop_while_sublist is_fan_out rest) as Hs.
    apply sublist_length in Hs. simpl in Hss. lia. }
  cbn [run_steps_fuel]. repeat case_match; auto.
Qed.

Lemma run_steps_post ss st :
  post ss (sum_list_with max_messages ss) st (run_steps ss st).
Proof.
  unfold run_steps. remember (length ss) as n eqn:Hn. assert (length ss ≤ n) as Hle by lia. clear Hn.
  revert ss st Hle. induction n as [|n IH]; intros ss st Hle.
  { destruct ss; [apply evolves_refl|simpl in Hle; lia]. }
  destruct ss as [|step rest]; [apply evolves_refl|]. simpl in Hle.
  assert (∀ st', post (step :: rest) (sum_list_with max_messages rest) st'
                   (run_steps_fuel n rest st')) as Hrest.
  { intros st'. eapply post_weaken; [|reflexivity|apply IH; lia]. set_solver. }
  cbn [run_steps_fuel sum_list_with]. unfold max_messages at 1.
  destruct (mode step) eqn:Em.
  - apply post_bind; [|done]. eapply post_weaken; [|reflexivity|apply run_single_post]. set_solver.
  - pose proof (fan_out_group_messages rest) as Hg. rewrite <-(take_drop_while rest) at 1 2.
    rewrite sum_list_with_app, Hg, Nat.add_assoc.
    apply (post_bind _ (1 + length (take_while is_fan_out rest))).
    + eapply post_weaken; [|reflexivity|apply run_fan_out_post]. rewrite take_drop_while.
      intros x. rewrite !elem_of_cons. intros [?|Hx]; [by left|right].
      rewrite <-(take_drop_while rest). apply elem_of_app. by left.
    + intros st'. eapply post_weaken; [|reflexivity|apply IH].
      * rewrite take_drop_while. intros x Hx. right. rewrite <-(take_drop_while rest).
        apply elem_of_app. by right.
      * pose proof (drop_while_sublist is_fan_out rest) as Hs. apply sublist_length in Hs. lia.
  - eapply (post_after _ 0); [|apply Hrest]. unfold run_collect.
    eapply evolves_0; [apply (evolves_locals 0)|]. apply evolves_set_var.
  - apply post_bind; [|done]. unfold run_conditional.
    destruct (contains _ _); [|apply evolves_refl].
    eapply post_weaken; [|reflexivity|apply run_single_post]. set_solver.
  - apply post_bind; [|done]. eapply post_weaken; [|reflexivity|apply run_loop_post]. set_solver.
Qed.

(** ** Theorems *)

(** C19: What a run leaves behind. On success the run is completed and holds the
    returned output. On an error either there was no such run and nothing
    changed, or the run is failed and holds the error, or the workflow or the
    agent of a step could not be found, and then the run stays running. *)
Theorem execute_run_outcome e :
  let '(e', _, r) := execute_run e in
  match r with
  | Ok o => ∃ run, runs e' !! rid = Some run ∧ state run = Completed ∧ output run = Some o
  | Err err =>
      (runs e !! rid = None ∧ e' = e) ∨
      ∃ run, runs e' !! rid = Some run ∧
        ((state run = Failed ∧ error run = Some err) ∨
         (state run = Running ∧
          (err = lit "Workflow definition not found" ∨
           ∃ w step, workflows e !! workflow_id run = Some w ∧ step ∈ steps w ∧
             resolver (agent step) = None ∧
             err = lit "Agent not found for step '" ++ step_name step ++ lit "'")))
  end.
Proof.
  unfold execute_run. destruct (runs e !! rid) as [run|] eqn:Er; [|by left].
  set (rs := <[rid := set_running run]> (runs e)).
  assert (rs !! rid = Some (set_running run)) as Hrs by apply lookup_insert_eq.
  destruct (workflows e !! workflow_id run) as [w|] eqn:Ew.
  2:{ right. exists (set_running run). split; [done|]. right. auto. }
  pose proof (run_steps_post (steps w) (mkExec rs [] (run_input run) [] ∅)) as Hpost.
  destruct (run_steps _ _) as [st|[st err]]; simpl in Hpost.
  - destruct Hpost as [_ Hr _]. destruct (Hr _ Hrs) as (r' & Hr' & _). simpl.
    rewrite lookup_alter_eq, Hr'. simpl. by eexists.
  - right. destruct Hpost as (st1 & [_ Hr _] & Hend). destruct (Hr _ Hrs) as (r' & Hr' & Hg).
    destruct Hg as (Hst & _ & _ & Hw & _). simpl in *.
    destruct Hend as [(now & ->)|(-> & step & Hin & Hno & ->)].
    + simpl. rewrite lookup_alter_eq, Hr'. simpl. eexists. split; [done|]. by left.
    + exists r'. split; [done|]. right. split; [done|]. right. exists w, step. by rewrite Hw.
Qed.

(** A run sends at most the messages its steps allow: one per fan-out step,
    the attempts of the error mode per sequential or conditional step, and
    that many per round of a loop step. It touches no other run and no
    workflow. *)
Theorem execute_run_bounded e :
  let '(e', msgs, _) := execute_run e in
  workflows e' = workflows e ∧
  (∀ k, k ≠ rid → runs e' !! k = runs e !! k) ∧
  ∀ run w, runs e !! rid = Some run → workflows e !! workflow_id run = Some w →
    length msgs ≤ sum_list_with max_messages (steps w).
Proof.
  unfold execute_run. destruct (runs e !! rid) as [run|] eqn:Er; [|done].
  set (rs := <[rid := set_running run]> (runs e)).
  assert (∀ k, k ≠ rid → rs !! k = runs e !! k) as Hrs by (intros; by apply lookup_insert_ne).
  destruct (workflows e !! workflow_id run) as [w|] eqn:Ew.
  2:{ split; [done|]. split; [done|]. intros ? ? [= <-] ?. congruence. }
  pose proof (run_steps_post (steps w) (mkExec rs [] (run_input run) [] ∅)) as Hpost.
  destruct (run_steps _ _) as [st|[st err]]; simpl in Hpost.
  - destruct Hpost as [(msgs & Hs & Hlen) _ Hf]. simpl in *. subst. split; [done|]. split.
    + intros k Hk. by rewrite lookup_alter_ne, Hf, Hrs.
    + intros ? ? [= <-] ?. by simplify_eq.
  - destruct Hpost as (st1 & [(msgs & Hs & Hlen) _ Hf] & Hend). simpl in *.
    assert (sent st = msgs ∧ ∀ k, k ≠ rid → ex_runs st !! k = ex_runs st1 !! k) as [-> Hk].
    { destruct Hend as [(now & ->)|(-> & _)]; [|done]. split; [done|].
      intros k Hk. simpl. by rewrite lookup_alter_ne. }
    split; [done|]. split.
    + intros k Hne. by rewrite Hk, Hf, Hrs.
    + intros ? ? [= <-] ?. by simplify_eq.
Qed.

(** ** Retries *)

Definition outcome_error (step : WorkflowStep) (o : Outcome) : str :=
  match o with
  | Errored e => e
  | _ => lit "timed out after " ++ show_Z (timeout_secs step) ++ lit "s"
  end.

Definition is_reply (o : Outcome) : bool :=
  match o with Replied _ _ _ => true | _ => false end.

Lemma retry_loop_success n step a prompt st err k o ti to :
  k < n → respond (length (sent st) + k) a prompt = Replied o ti to →
  (∀ j, j < k → is_reply (respond (length (sent st) + j) a prompt) = false) →
  ∃ st', retry_loop n step a prompt st err = (st', Ok (Some (o, ti, to))) ∧
         sent st' = sent st ++ replicate (S k) (a, prompt).
Proof.
  revert k st err. induction n as [|n IH]; intros k st err Hk Ho Hj; [lia|]. simpl.
  destruct k as [|k].
  - rewrite Nat.add_0_r in Ho. rewrite Ho. by eexists.
  - pose proof (Hj 0 ltac:(lia)) as H0'. rewrite Nat.add_0_r in H0'.
    set (st1 := mkExec (ex_runs st) (sent st ++ [(a, prompt)]) (current_input st) (all_outputs st)
                  (variables st)).
    assert (length (sent st1) = S (length (sent st))) as Hl
      by (simpl; rewrite length_app; simpl; lia).
    assert (∀ err, ∃ st', retry_loop n step a prompt st1 err = (st', Ok (Some (o, ti, to))) ∧
              sent st' = sent st ++ replicate (S (S k)) (a, prompt)) as Hrec.
    { intros err'. destruct (IH k st1 err') as (st' & Hst' & Hs); [lia|..].
      - by replace (length (sent st1) + k) with (length (sent st) + S k) by lia.
      - intros j Hjk. specialize (Hj (S j) ltac:(lia)).
        by replace (length (sent st1) + j) with (length (sent st) + S j) by lia.
      - exists st'. split; [done|]. rewrite Hs. simpl. by rewrite <-app_assoc. }
    destruct (respond (length (sent st)) a prompt); [done|apply Hrec..].
Qed.

Lemma retry_loop_failure n step a prompt st err :
  (∀ j, j < n → is_reply (respond (length (sent st) + j) a prompt) = false) →
  ∃ st' msg, retry_loop n step a prompt st err = (st', Err msg) ∧
         sent st' = sent st ++ replicate n (a, prompt).
Proof.
  revert st err. induction n as [|n IH]; intros st err Hj; simpl.
  { eexists _, _. split; [done|]. by rewrite app_nil_r. }
  pose proof (Hj 0 ltac:(lia)) as H0'. rewrite Nat.add_0_r in H0'.
  set (st1 := mkExec (ex_runs st) (sent st ++ [(a, prompt)]) (current_input st) (all_outputs st)
                (variables st)).
  assert (length (sent st1) = S (length (sent st))) as Hl
    by (simpl; rewrite length_app; simpl; lia).
  assert (∀ err, ∃ st' msg, retry_loop n step a prompt st1 err = (st', Err msg) ∧
            sent st' = sent st ++ replicate (S n) (a, prompt)) as Hrec.
  { intros err'. destruct (IH st1 err') as (st' & msg & Hst' & Hs).
    - intros j Hjk. specialize (Hj (S j) ltac:(lia)).
      by replace (length (sent st1) + j) with (length (sent st) + S j) by lia.
    - exists st', msg. split; [done|]. rewrite Hs. simpl. by rewrite <-app_assoc. }
  destruct (respond (length (sent st)) a prompt); [done|apply Hrec..].
Qed.

(** A step in retry mode sends the same prompt until the first reply, which
    it returns, and at most [max_retries + 1] times; it fails exactly when
    none of these attempts is answered. *)
Theorem retry_until_reply step a prompt st m :
  error_mode step = Retry m → (0 ≤ m)%Z →
  (∀ k o ti to, k ≤ Z.to_nat m →
     respond (length (sent st) + k) a prompt = Replied o ti to →
     (∀ j, j < k → is_reply (respond (length (sent st) + j) a prompt) = false) →
     ∃ st', execute_step_with_error_mode step a prompt st = (st', Ok (Some (o, ti, to))) ∧
            sent st' = sent st ++ replicate (S k) (a, prompt)) ∧
  ((∀ j, j ≤ Z.to_nat m → is_reply (respond (length (sent st) + j) a prompt) = false) →
   ∃ st' msg, execute_step_with_error_mode step a prompt st = (st', Err msg) ∧
              sent st' = sent st ++ replicate (S (Z.to_nat m)) (a, prompt)).
Proof.
  intros Hm Hpos. unfold execute_step_with_error_mode. rewrite Hm.
  replace (Z.to_nat (m + 1)) with (S (Z.to_nat m)) by lia. split.
  - intros k o ti to Hk Ho Hj. eapply retry_loop_success; [lia|done|done].
  - intros Hj. apply retry_loop_failure. intros j Hlt. apply Hj. lia.
Qed.

(** A fan-out step ends the run on its first error whatever its error mode
    says: [Skip] and [Retry] have no effect there, and one message is sent. *)
Theorem fan_out_ignores_error_mode step a aname err st :
  mode step = FanOut → resolver (agent step) = Some (a, aname) →
  respond (length (sent st)) a
    (expand_variables (prompt_template step) (current_input st) (variables st)) = Errored err →
  ∃ st', run_steps [step] st =
           Err (st', lit "FanOut step '" ++ step_name step ++ lit "' failed: " ++ err) ∧
         length (sent st') = S (length (sent st)).
Proof.
  intros Hm Hr Ho. unfold run_steps. simpl. rewrite Hm. unfold run_fan_out. simpl. rewrite Hr. simpl.
  rewrite Ho. simpl. eexists. split; [done|]. simpl. rewrite length_app. simpl. lia.
Qed.
End run.

(** ** Eviction *)

Section eviction.
Context (run_order : gmap RunId WorkflowRun → list (RunId * WorkflowRun)).
Context (run_order_perm : ∀ rs, run_order rs ≡ₚ map_to_list rs).
Implicit Types (rs : gmap RunId WorkflowRun) (l : list (RunId * Z)).

Lemma lookup_delete_all l rs k :
  foldl (λ rs e, delete e.1 rs) rs l !! k = if decide (k ∈ l.*1) then None else rs !! k.
Proof. rewrite <-lookup_foldl_delete. f_equal. revert rs. by induction l; simpl. Qed.

Lemma size_delete_all l rs :
  NoDup l.*1 → (∀ k, k ∈ l.*1 → is_Some (rs !! k)) →
  size (foldl (λ rs e, delete e.1 rs) rs l) = size rs - length l.
Proof.
  revert rs. induction l as [|[i t] l IH]; intros rs; simpl; [lia|].
  intros [Hi Hnd]%NoDup_cons Hin. rewrite IH; [|done|].
  - destruct (Hin i) as [r Hr]; [by left|]. rewrite map_size_delete_Some by eauto. lia.
  - intros k Hk. rewrite lookup_delete_ne by (by intros ->). apply Hin. by right.
Qed.

Lemma elem_of_evictable rs k t :
  (k, t) ∈ evictable run_order rs ↔
  ∃ r, rs !! k = Some r ∧ is_terminal r = true ∧ started_at r = t.
Proof.
  unfold evictable. rewrite list_elem_of_fmap. setoid_rewrite elem_of_List_filter.
  setoid_rewrite run_order_perm. split.
  - intros ([k' r] & [= -> ->] & Hin & Ht). apply elem_of_map_to_list in Hin. eauto.
  - intros (r & Hr & Ht & <-). exists (k, r). by rewrite elem_of_map_to_list.
Qed.

Lemma evictable_NoDup rs : NoDup (evictable run_order rs).*1.
Proof.
  unfold evictable. rewrite <-list_fmap_compose.
  assert (NoDup (run_order rs).*1) as Hnd
    by (rewrite run_order_perm; apply NoDup_fst_map_to_list).
  clear -Hnd. induction (run_order rs) as [|[k r] l IH]; simpl; [constructor|].
  apply NoDup_cons in Hnd as [Hk Hnd]. destruct (is_terminal r); simpl; [|auto].
  constructor; [|auto]. intros ([k' r'] & Heq & Hin)%list_elem_of_fmap. simpl in Heq. subst k'.
  apply elem_of_List_filter in Hin as [Hin _]. apply Hk.
  apply list_elem_of_fmap. by exists (k, r').
Qed.

(** The entries [evict] drops. *)
Definition removed (rs : gmap RunId WorkflowRun) : list (RunId * Z) :=
  take (size rs - MAX_RETAINED_RUNS) (sort_by_key snd (evictable run_order rs)).

Lemma lookup_evict rs k :
  evict run_order rs !! k = if decide (k ∈ (removed rs).*1) then None else rs !! k.
Proof.
  unfold evict, removed. rewrite <-lookup_delete_all. destruct (Nat.ltb_spec MAX_RETAINED_RUNS (size rs)); [done|].
  by replace (size rs - MAX_RETAINED_RUNS) with 0 by lia.
Qed.

Lemma elem_of_removed rs k t :
  (k, t) ∈ removed rs → ∃ r, rs !! k = Some r ∧ is_terminal r = true ∧ started_at r = t.
Proof.
  intros Hin. apply elem_of_evictable. rewrite <-(sort_by_key_perm snd).
  rewrite <-(take_drop (size rs - MAX_RETAINED_RUNS) (sort_by_key _ _)). apply elem_of_app. by left.
Qed.

Lemma removed_terminal rs k :
  k ∈ (removed rs).*1 → ∃ r, rs !! k = Some r ∧ is_terminal r = true.
Proof.
  intros ([k' t] & -> & Hin)%list_elem_of_fmap. apply elem_of_removed in Hin as (r & ? & ? & _). eauto.
Qed.

Lemma removed_oldest rs k r k' r' :
  k ∈ (removed rs).*1 → rs !! k = Some r → (k' ∉ (removed rs).*1) → rs !! k' = Some r' →
  is_terminal r' = true → (started_at r ≤ started_at r')%Z.
Proof.
  intros ([k1 t1] & -> & Hin)%list_elem_of_fmap Hk Hin' Hk' Ht'.
  destruct (elem_of_removed _ _ _ Hin) as (r1 & Hr1 & _ & <-). simpl in *.
  assert (r1 = r) as -> by congruence.
  pose proof (sort_by_key_sorted snd (evictable run_order rs)) as Hsort.
  assert ((k', started_at r') ∈ sort_by_key snd (evictable run_order rs)) as HL
    by (rewrite sort_by_key_perm, elem_of_evictable; eauto).
  rewrite <-(take_drop (size rs - MAX_RETAINED_RUNS) (sort_by_key _ _)) in Hsort, HL.
  apply elem_of_app in HL as [HL|HL].
  - exfalso. apply Hin', list_elem_of_fmap. by exists (k', started_at r').
  - exact (StronglySorted_app_1_elem_of _ _ _ _ _ Hsort Hin HL).
Qed.

Lemma evict_capped rs :
  size (evict run_order rs) ≤ MAX_RETAINED_RUNS ∨
  ∀ k r, evict run_order rs !! k = Some r → is_terminal r = false.
Proof.
  pose proof (sort_by_key_perm snd (evictable run_order rs)) as Hperm.
  destruct (Nat.ltb_spec MAX_RETAINED_RUNS (size rs)) as [Hgt|Hle].
  2:{ left. unfold evict. by rewrite (proj2 (Nat.ltb_ge _ _) Hle). }
  destruct (decide (size rs - MAX_RETAINED_RUNS ≤ length (evictable run_order rs))) as [Hn|Hn].
  - left. unfold evict. rewrite (proj2 (Nat.ltb_lt _ _) Hgt). fold (removed rs).
    rewrite size_delete_all; [|..].
    + unfold removed. rewrite length_take, Hperm. lia.
    + unfold removed. rewrite fmap_take. eapply sublist_NoDup; [|apply sublist_take].
      rewrite Hperm. apply evictable_NoDup.
    + intros k (r & ? & _)%removed_terminal. eauto.
  - right. intros k r. rewrite lookup_evict. destruct (decide _) as [|Hin]; [done|]. intros Hk.
    destruct (is_terminal r) eqn:Et; [|done]. exfalso. apply Hin, list_elem_of_fmap.
    exists (k, started_at r). split; [done|]. unfold removed. rewrite take_ge by (rewrite Hperm; lia).
    rewrite Hperm, elem_of_evictable. eauto.
Qed.

(** Creating a run keeps every run that is pending or running, the new one
    included, drops only finished runs and the oldest of them first, and leaves
    at most [MAX_RETAINED_RUNS] runs unless the unfinished ones alone are
    more. *)
Theorem create_run_retention e wid input new_id now e' :
  runs e !! new_id = None →
  create_run run_order e wid input new_id now = (e', Some new_id) →
  (∃ r, runs e' !! new_id = Some r ∧ state r = Pending ∧ run_input r = input) ∧
  (∀ k r, runs e !! k = Some r → is_terminal r = false → runs e' !! k = Some r) ∧
  (∀ k r, k ≠ new_id → runs e' !! k = Some r → runs e !! k = Some r) ∧
  (∀ k r k' r', runs e !! k = Some r → runs e' !! k = None →
     runs e' !! k' = Some r' → is_terminal r' = true → (started_at r ≤ started_at r')%Z) ∧
  (size (runs e') ≤ MAX_RETAINED_RUNS ∨ ∀ k r, runs e' !! k = Some r → is_terminal r = false).
Proof.
  intros Hfresh. unfold create_run. destruct (workflows e !! wid) as [w|]; [|done].
  set (run := mkRun _ _ _ _ _ _ _ _ _ _). intros [= <-]. simpl.
  set (rs := <[new_id := run]> (runs e)).
  assert (∀ k r, runs e !! k = Some r → rs !! k = Some r) as Hold.
  { intros k r Hk. subst rs. rewrite lookup_insert_ne; [done|]. congruence. }
  assert (∀ k r, rs !! k = Some r → is_terminal r = false → evict run_order rs !! k = Some r)
    as Hkeep.
  { intros k r Hk Ht. rewrite lookup_evict. destruct (decide _) as [Hin|]; [|done].
    destruct (removed_terminal _ _ Hin) as (r' & ? & ?). congruence. }
  split_and!.
  - exists run. split; [|done]. apply Hkeep; [apply lookup_insert_eq|done].
  - intros k r Hk Ht. apply Hkeep; auto.
  - intros k r Hne. rewrite lookup_evict. destruct (decide _); [done|].
    subst rs. by rewrite lookup_insert_ne.
  - intros k r k' r' Hk%Hold. rewrite !lookup_evict.
    destruct (decide (k ∈ _)) as [Hin|]; [intros _|congruence].
    destruct (decide (k' ∈ _)) as [|Hin']; [done|]. by eapply removed_oldest.
  - apply evict_capped.
Qed.
End eviction.
End workflow.

(** ** Witnesses

    Agents, workflows and runs are numbers; the only agent is called [A]. *)

Definition demo_step (m : StepMode) (em : ErrorMode) : WorkflowStep :=
  mkStep (lit "s") (ByName (lit "A")) (lit "do {{input}}") m 5 em None.

Definition demo_resolver (a : StepAgent) : option (nat * str) :=
  match a with
  | ByName n => if str_eqb n (lit "A") then Some (1, n) else None
  | ById _ => None
  end.

(** The first two messages fail, the others are answered by their number. *)
Definition demo_respond (n : nat) (_ : nat) (_ : str) : Outcome :=
  if n <? 2 then Errored (lit "down") else Replied (show_nat n) 1 1.

Definition demo_exec : Exec (AgentId := nat) (WorkflowId := nat) (RunId := nat) :=
  mkExec ∅ [] (lit "x") [] ∅.

Lemma retry_until_reply_witness :
  ∃ st', execute_step_with_error_mode demo_respond (demo_step Sequential (Retry 3)) 1
           (lit "do x") demo_exec = (st', Ok (Some (lit "2", 1%Z, 1%Z))) ∧
         sent st' = [(1, lit "do x"); (1, lit "do x"); (1, lit "do x")].
Proof.
  apply (proj1 (retry_until_reply demo_respond (demo_step Sequential (Retry 3)) 1 (lit "do x")
    demo_exec 3 eq_refl ltac:(lia)) 2).
  - vm_compute. lia.
  - vm_compute. reflexivity.
  - intros [|[|j]] Hj; [reflexivity|reflexivity|lia].
Defined.

Lemma fan_out_ignores_error_mode_witness :
  ∃ st', run_steps show_nat demo_resolver demo_respond (λ _, 0%Z) (λ _, 0%Z) map_to_list 7
           [demo_step FanOut (Retry 3)] demo_exec =
           Err (st', lit "FanOut step '" ++ lit "s" ++ lit "' failed: " ++ lit "down") ∧
         length (sent st') = 1.
Proof.
  apply (fan_out_ignores_error_mode show_nat demo_resolver demo_respond (λ _, 0%Z) (λ _, 0%Z)
    map_to_list 7 (demo_step FanOut (Retry 3)) 1 (lit "A") (lit "down") demo_exec).
  - reflexivity.
  - vm_compute. reflexivity.
  - vm_compute. reflexivity.
Defined.

Definition demo_engine : WorkflowEngine (WorkflowId := nat) (RunId := nat) :=
  (register new_engine (mkWorkflow 4 (lit "w") [] [demo_step Sequential Fail] 0)).1.

Lemma create_run_retention_witness :
  ∃ r, runs (create_run map_to_list demo_engine 4 (lit "in") 9 100).1 !! 9 = Some r ∧
       state r = Pending ∧ run_input r = lit "in".
Proof.
  refine (proj1 (create_run_retention map_to_list (λ _, reflexivity _) demo_engine 4 (lit "in") 9
    100 (create_run map_to_list demo_engine 4 (lit "in") 9 100).1 _ _)).
  - vm_compute. reflexivity.
  - reflexivity.
Defined.

(** A collect step joins the outputs of all earlier steps, not of the fan-out
    steps only. *)
Example collect_includes_sequential :
  match run_steps show_nat demo_resolver (λ n _ _, Replied (show_nat n) 1 1) (λ _, 0%Z) (λ _, 0%Z)
          map_to_list 7
          [demo_step Sequential Fail; demo_step FanOut Fail; demo_step Collect Fail] demo_exec with
  | Ok st => current_input st = lit "0" ++ bytes [10; 10] ++ lit "---" ++ bytes [10; 10] ++ lit "1"
  | Err _ => False
  end.
Proof. vm_compute. reflexivity. Qed.
