(* ===== verification/Event.v ===== *)
(** * Events

    The event types of [openfang-types/src/event.rs] and their description in
    prompts, [describe_event] of [openfang-kernel/src/triggers.rs].

    [f32] and [f64] fields are [SpecFloat] values. The [Display] of an agent
    id, the [Debug] of network and system events and the fixed-precision
    formatting of floats are parameters. *)

From Stdlib Require Import Ascii ZArith Lia.
From Stdlib Require Import SpecFloat.
From stdpp Require Import base gmap strings list.
From S2P Require Import Prelude Strs.

Inductive MessageRole : Type :=
| RoleUser
| RoleAgent
| RoleSystem
| RoleTool.

Inductive MemoryOperation : Type :=
| Created
| Updated
| Deleted.

Inductive NetworkEvent : Type :=
| PeerConnected (peer_id : str)
| PeerDisconnected (peer_id : str)
| MessageReceived (from_peer from_agent : str)
| DiscoveryResult (service : str) (providers : list str).

Record ToolOutput : Type := mkToolOutput {
  tool_id : str;
  tool_use_id : str;
  tool_content : str;
  success : bool;
  execution_time_ms : Z
}.

Definition debug_role (r : MessageRole) : str :=
  match r with
  | RoleUser => lit "User"
  | RoleAgent => lit "Agent"
  | RoleSystem => lit "System"
  | RoleTool => lit "Tool"
  end.

Definition debug_operation (o : MemoryOperation) : str :=
  match o with
  | Created => lit "Created"
  | Updated => lit "Updated"
  | Deleted => lit "Deleted"
  end.

Section events.
Context {AgentId EventId Json : Type}.

Record AgentMessage : Type := mkAgentMessage {
  msg_content : str;
  metadata : gmap str Json;
  role : MessageRole
}.

Record MemoryDelta : Type := mkDelta {
  operation : MemoryOperation;
  key : str;
  delta_agent : AgentId
}.

Inductive LifecycleEvent : Type :=
| Spawned (agent_id : AgentId) (name : str)
| Started (agent_id : AgentId)
| Suspended (agent_id : AgentId)
| Resumed (agent_id : AgentId)
| Terminated (agent_id : AgentId) (reason : str)
| Crashed (agent_id : AgentId) (error : str).

Inductive SystemEvent : Type :=
| KernelStarted
| KernelStopping
| QuotaWarning (agent_id : AgentId) (resource : str) (usage_percent : spec_float)
| HealthCheck (status : str)
| QuotaEnforced (agent_id : AgentId) (spent limit : spec_float)
| ModelRouted (agent_id : AgentId) (complexity model : str)
| UserAction (user_id action result : str)
| HealthCheckFailed (agent_id : AgentId) (unresponsive_secs : Z).

Inductive EventPayload : Type :=
| PMessage (m : AgentMessage)
| PToolResult (t : ToolOutput)
| PMemoryUpdate (d : MemoryDelta)
| PLifecycle (l : LifecycleEvent)
| PNetwork (n : NetworkEvent)
| PSystem (s : SystemEvent)
| PCustom (data : list ascii).

Inductive EventTarget : Type :=
| TAgent (a : AgentId)
| TBroadcast
| TPattern (p : str)
| TSystem.

Record Event : Type := mkEvent {
  event_id : EventId;
  source : AgentId;
  target : EventTarget;
  payload : EventPayload;
  timestamp : Z;
  correlation_id : option EventId;
  ttl : option Z
}.

Context (show_agent : AgentId → str) (debug_network : NetworkEvent → str).
Context (fmt_f32_1 fmt_f64_4 : spec_float → str).

Definition describe_lifecycle (le : LifecycleEvent) : str :=
  match le with
  | Spawned a name => lit "Agent '" ++ name ++ lit "' (id: " ++ show_agent a ++ lit ") was spawned"
  | Started a => lit "Agent " ++ show_agent a ++ lit " started"
  | Suspended a => lit "Agent " ++ show_agent a ++ lit " suspended"
  | Resumed a => lit "Agent " ++ show_agent a ++ lit " resumed"
  | Terminated a reason => lit "Agent " ++ show_agent a ++ lit " terminated: " ++ reason
  | Crashed a error => lit "Agent " ++ show_agent a ++ lit " crashed: " ++ error
  end.

Definition describe_system (se : SystemEvent) : str :=
  match se with
  | KernelStarted => lit "Kernel started"
  | KernelStopping => lit "Kernel stopping"
  | QuotaWarning a resource usage =>
      lit "Quota warning: agent " ++ show_agent a ++ lit ", " ++ resource ++ lit " at "
        ++ fmt_f32_1 usage ++ lit "%"
  | HealthCheck status => lit "Health check: " ++ status
  | QuotaEnforced a spent limit =>
      lit "Quota enforced: agent " ++ show_agent a ++ lit ", spent $" ++ fmt_f64_4 spent
        ++ lit " / $" ++ fmt_f64_4 limit
  | ModelRouted a complexity model =>
      lit "Model routed: agent " ++ show_agent a ++ lit ", complexity=" ++ complexity
        ++ lit ", model=" ++ model
  | UserAction user action result =>
      lit "User action: " ++ user ++ lit " " ++ action ++ lit " -> " ++ result
  | HealthCheckFailed a s =>
      lit "Health check failed: agent " ++ show_agent a ++ lit ", unresponsive for "
        ++ show_Z s ++ lit "s"
  end.

(** [None] where the source panics. *)
Definition describe_event (event : Event) : option str :=
  match payload event with
  | PMessage msg =>
      Some (lit "Message from " ++ debug_role (role msg) ++ lit ": " ++ msg_content msg)
  | PToolResult tr =>
      match slice_to (tool_content tr) (length (tool_content tr) `min` 200) with
      | None => None
      | Some content =>
          Some (lit "Tool '" ++ tool_id tr ++ lit "' "
                ++ (if success tr then lit "succeeded" else lit "failed")
                ++ lit " (" ++ show_Z (execution_time_ms tr) ++ lit "ms): " ++ content)
      end
  | PMemoryUpdate delta =>
      Some (lit "Memory " ++ debug_operation (operation delta) ++ lit " on key '" ++ key delta
            ++ lit "' for agent " ++ show_agent (delta_agent delta))
  | PLifecycle le => Some (describe_lifecycle le)
  | PNetwork ne => Some (lit "Network event: " ++ debug_network ne)
  | PSystem se => Some (describe_system se)
  | PCustom data => Some (lit "Custom event (" ++ show_nat (length data) ++ lit " bytes)")
  end.

(** An event whose tool output has a multi-byte character across byte 200. *)
Definition splits_character (event : Event) : Prop :=
  ∃ tr c, payload event = PToolResult tr ∧ tool_content tr !! 200 = Some c ∧
          is_continuation c = true.

Lemma describe_event_None event : describe_event event = None ↔ splits_character event.
Proof.
  unfold describe_event, splits_character.
  destruct (payload event) as [|tr| | | | |]; try (split; [done|naive_solver]).
  pose proof (slice_min_None (tool_content tr) 200 ltac:(lia)) as Hb.
  destruct (slice_to _ _); naive_solver.
Qed.

(** Describing an event panics for exactly the tool results whose output
    has a multi-byte character across byte 200, and for no other event. *)
Theorem describe_event_panics event :
  describe_event event = None ↔ splits_character event.
Proof. apply describe_event_None. Qed.
End events.

(** 199 ASCII characters followed by a two-byte one. *)
Example describe_event_panics_example :
  describe_event (λ _ : nat, []) (λ _, []) (λ _, []) (λ _, [])
    (mkEvent (EventId := nat) (Json := nat) 0 0 TBroadcast
       (PToolResult (mkToolOutput (lit "t") (lit "u") (replicate 199 "a"%char ++ bytes [195; 169])
                       true 5)) 0 None None) = None.
Proof. vm_compute. reflexivity. Qed.
