(* ===== verification/Triggers.v ===== *)
(** * Event triggers

    [openfang-kernel/src/triggers.rs]: the trigger table with its per-agent
    index, registration and removal, and the evaluation of an event.

    The tables are [DashMap]s; the operations run one at a time, and the order
    in which [iter_mut] visits the triggers is a parameter. *)

From Stdlib Require Import Ascii ZArith Lia.
From Stdlib Require Import SpecFloat.
From stdpp Require Import base gmap strings list.
From S2P Require Import Prelude Strs Event.

Inductive TriggerPattern : Type :=
| Lifecycle
| AgentSpawned (name_pattern : str)
| AgentTerminated
| System
| SystemKeyword (keyword : str)
| MemoryUpdate
| MemoryKeyPattern (key_pattern : str)
| All
| ContentMatch (substring : str).

Section triggers.
Context {AgentId TriggerId EventId Json : Type} `{Countable AgentId} `{Countable TriggerId}.
Context `{UnicodeCase}.
Context (show_agent : AgentId → str) (debug_network : NetworkEvent → str).
Context (debug_system : SystemEvent (AgentId := AgentId) → str).
Context (fmt_f32_1 fmt_f64_4 : spec_float → str).

Record Trigger : Type := mkTrigger {
  trigger_id : TriggerId;
  agent_id : AgentId;
  pattern : TriggerPattern;
  prompt_template : str;
  enabled : bool;
  created_at : Z;
  fire_count : Z;
  max_fires : Z
}.

Record TriggerEngine : Type := mkEngine {
  triggers : gmap TriggerId Trigger;
  agent_triggers : gmap AgentId (list TriggerId)
}.

Definition new_engine : TriggerEngine := mkEngine ∅ ∅.

(** [new_id] is the fresh id and [now] the current time. *)
Definition register (e : TriggerEngine) (a : AgentId) (p : TriggerPattern) (template : str)
    (max : Z) (new_id : TriggerId) (now : Z) : TriggerEngine * TriggerId :=
  let trigger := mkTrigger new_id a p template true now 0 max in
  (mkEngine (<[new_id := trigger]> (triggers e))
     (<[a := default [] (agent_triggers e !! a) ++ [new_id]]> (agent_triggers e)),
   new_id).

Definition remove (e : TriggerEngine) (tid : TriggerId) : TriggerEngine * bool :=
  match triggers e !! tid with
  | Some t =>
      (mkEngine (delete tid (triggers e))
         (alter (filter (λ id, id ≠ tid)) (agent_id t) (agent_triggers e)), true)
  | None => (e, false)
  end.

Definition remove_agent_triggers (e : TriggerEngine) (a : AgentId) : TriggerEngine :=
  match agent_triggers e !! a with
  | Some ids =>
      mkEngine (foldl (λ ts id, delete id ts) (triggers e) ids) (delete a (agent_triggers e))
  | None => e
  end.

Definition with_enabled (t : Trigger) (b : bool) : Trigger :=
  mkTrigger (trigger_id t) (agent_id t) (pattern t) (prompt_template t) b (created_at t)
    (fire_count t) (max_fires t).

Definition with_fire (t : Trigger) : Trigger :=
  mkTrigger (trigger_id t) (agent_id t) (pattern t) (prompt_template t) (enabled t) (created_at t)
    (wrapping_add_u64 (fire_count t) 1) (max_fires t).

Definition set_enabled (e : TriggerEngine) (tid : TriggerId) (b : bool) : TriggerEngine * bool :=
  match triggers e !! tid with
  | Some t => (mkEngine (<[tid := with_enabled t b]> (triggers e)) (agent_triggers e), true)
  | None => (e, false)
  end.

Definition list_agent_triggers (e : TriggerEngine) (a : AgentId) : list Trigger :=
  match agent_triggers e !! a with
  | Some ids => omap (λ id, triggers e !! id) ids
  | None => []
  end.

Definition list_all (e : TriggerEngine) : list Trigger := (map_to_list (triggers e)).*2.

Definition get (e : TriggerEngine) (tid : TriggerId) : option Trigger := triggers e !! tid.

Abbreviation event := (Event (AgentId := AgentId) (EventId := EventId) (Json := Json)).

Definition matches_pattern (p : TriggerPattern) (ev : event) (description : str) : bool :=
  match p with
  | All => true
  | Lifecycle => match payload ev with PLifecycle _ => true | _ => false end
  | AgentSpawned name_pattern =>
      match payload ev with
      | PLifecycle (Spawned _ name) =>
          contains name name_pattern || str_eqb name_pattern (lit "*")
      | _ => false
      end
  | AgentTerminated =>
      match payload ev with
      | PLifecycle (Terminated _ _) | PLifecycle (Crashed _ _) => true
      | _ => false
      end
  | System => match payload ev with PSystem _ => true | _ => false end
  | SystemKeyword keyword =>
      match payload ev with
      | PSystem se => contains (to_lowercase (debug_system se)) (to_lowercase keyword)
      | _ => false
      end
  | MemoryUpdate => match payload ev with PMemoryUpdate _ => true | _ => false end
  | MemoryKeyPattern key_pattern =>
      match payload ev with
      | PMemoryUpdate delta => contains (key delta) key_pattern || str_eqb key_pattern (lit "*")
      | _ => false
      end
  | ContentMatch substring => contains (to_lowercase description) (to_lowercase substring)
  end.

(** One round of the loop in [evaluate]. *)
Definition eval_trigger (ev : event) (description : str) (t : Trigger)
    : Trigger * option (AgentId * str) :=
  if negb (enabled t) then (t, None)
  else if (0 <? max_fires t)%Z && (max_fires t <=? fire_count t)%Z
  then (with_enabled t false, None)
  else if matches_pattern (pattern t) ev description
  then (with_fire t, Some (agent_id t, replace (prompt_template t) (lit "{{event}}") description))
  else (t, None).

Context (trigger_order : gmap TriggerId Trigger → list (TriggerId * Trigger)).

(** [None] is the panic of [describe_event], before any trigger is touched. *)
Definition evaluate (e : TriggerEngine) (ev : event)
    : option (TriggerEngine * list (AgentId * str)) :=
  match describe_event show_agent debug_network fmt_f32_1 fmt_f64_4 ev with
  | None => None
  | Some description =>
      let '(ts, matches) :=
        foldl (λ acc entry,
                 let '(t, m) := eval_trigger ev description entry.2 in
                 (<[entry.1 := t]> acc.1, acc.2 ++ option_list m))
          (triggers e, []) (trigger_order (triggers e)) in
      Some (mkEngine ts (agent_triggers e), matches)
  end.

Context (trigger_order_perm : ∀ ts, trigger_order ts ≡ₚ map_to_list ts).

(** ** Evaluation, trigger by trigger *)

Section fold.
Context (f : Trigger → Trigger * option (AgentId * str)).

Lemma fold_split (l : list (TriggerId * Trigger)) (ts : gmap TriggerId Trigger)
    (acc : list (AgentId * str)) :
  foldl (λ acc entry, let '(t, m) := f entry.2 in
                      (<[entry.1 := t]> acc.1, acc.2 ++ option_list m)) (ts, acc) l =
  (foldl (λ ts entry, <[entry.1 := (f entry.2).1]> ts) ts l,
   acc ++ omap (λ entry, (f entry.2).2) l).
Proof.
  revert ts acc. induction l as [|[k t] l IH]; intros ts acc; [by rewrite app_nil_r|].
  cbn [foldl fst snd]. rewrite omap_cons. destruct (f t) as [t' m] eqn:E. rewrite IH.
  cbn [fst snd]. by rewrite E, app_assoc.
Qed.

Lemma lookup_fold (l : list (TriggerId * Trigger)) (ts : gmap TriggerId Trigger) k :
  NoDup l.*1 →
  foldl (λ ts entry, <[entry.1 := (f entry.2).1]> ts) ts l !! k =
  match (list_to_map l : gmap TriggerId Trigger) !! k with
  | Some t => Some (f t).1
  | None => ts !! k
  end.
Proof.
  revert ts. induction l as [|[k0 t0] l IH]; intros ts; [done|].
  rewrite fmap_cons. intros [Hk0 Hnd]%NoDup_cons. cbn [foldl fst snd]. rewrite IH by done.
  rewrite list_to_map_cons. destruct (decide (k0 = k)) as [<-|Hne].
  - by rewrite (not_elem_of_list_to_map_1 l k0), !lookup_insert_eq by done.
  - by rewrite !lookup_insert_ne.
Qed.

Lemma fold_order (ts : gmap TriggerId Trigger) :
  foldl (λ ts entry, <[entry.1 := (f entry.2).1]> ts) ts (trigger_order ts) =
  (λ t, (f t).1) <$> ts.
Proof.
  assert (NoDup (trigger_order ts).*1) as Hnd
    by (rewrite trigger_order_perm; apply NoDup_fst_map_to_list).
  apply map_eq. intros k. rewrite lookup_fold by done.
  rewrite (list_to_map_proper _ _ Hnd (trigger_order_perm ts)), list_to_map_to_list, lookup_fmap.
  by destruct (ts !! k).
Qed.
End fold.

Lemma evaluate_spec e ev e' ms :
  evaluate e ev = Some (e', ms) →
  ∃ d, describe_event show_agent debug_network fmt_f32_1 fmt_f64_4 ev = Some d ∧
    agent_triggers e' = agent_triggers e ∧
    triggers e' = (λ t, (eval_trigger ev d t).1) <$> triggers e ∧
    ms ≡ₚ omap (λ entry, (eval_trigger ev d entry.2).2) (map_to_list (triggers e)).
Proof.
  unfold evaluate. destruct (describe_event _ _ _ _ ev) as [d|]; [|done].
  rewrite fold_split, fold_order. intros [= <- <-]. exists d. split_and!; [done..|].
  simpl. by rewrite trigger_order_perm.
Qed.

(** ** The invariant *)

Definition index (e : TriggerEngine) (a : AgentId) : list TriggerId :=
  default [] (agent_triggers e !! a).

Definition trigger_ok (id : TriggerId) (t : Trigger) : Prop :=
  trigger_id t = id ∧ in_u64 (fire_count t) ∧ in_u64 (max_fires t) ∧
  ((0 < max_fires t)%Z → (fire_count t ≤ max_fires t)%Z).

Record inv (e : TriggerEngine) : Prop := {
  inv_ok : map_Forall trigger_ok (triggers e);
  inv_index a id : id ∈ index e a ↔ ∃ t, triggers e !! id = Some t ∧ agent_id t = a;
  inv_NoDup a : NoDup (index e a)
}.

Inductive reachable : TriggerEngine → Prop :=
| reach_new : reachable new_engine
| reach_register e a p template max new_id now :
    reachable e → triggers e !! new_id = None → in_u64 max →
    reachable (register e a p template max new_id now).1
| reach_remove e tid : reachable e → reachable (remove e tid).1
| reach_remove_agent e a : reachable e → reachable (remove_agent_triggers e a)
| reach_set_enabled e tid b : reachable e → reachable (set_enabled e tid b).1
| reach_evaluate e ev e' ms : reachable e → evaluate e ev = Some (e', ms) → reachable e'.

(** An operation that keeps the owners keeps the index right. *)
Lemma inv_same_owners e ts' :
  inv e → map_Forall trigger_ok ts' →
  (∀ id, agent_id <$> ts' !! id = agent_id <$> triggers e !! id) →
  inv (mkEngine ts' (agent_triggers e)).
Proof.
  intros [Hok Hidx Hnd] Hok' Hown. split; [done| |done].
  intros a id. unfold index in *. simpl. rewrite Hidx. specialize (Hown id).
  destruct (ts' !! id), (triggers e !! id); simplify_eq/=; naive_solver.
Qed.

Lemma eval_trigger_owner ev d t : agent_id (eval_trigger ev d t).1 = agent_id t.
Proof. unfold eval_trigger. repeat case_match; done. Qed.

Lemma eval_trigger_ok ev d id t : trigger_ok id t → trigger_ok id (eval_trigger ev d t).1.
Proof.
  intros (Hid & Hf & Hm & Hle). unfold eval_trigger. destruct (enabled t); [|done]. simpl.
  destruct ((0 <? max_fires t)%Z && _) eqn:El; [done|].
  destruct (matches_pattern _ _ _); [|done]. unfold trigger_ok. simpl.
  unfold in_u64, wrapping_add_u64 in *.
  pose proof (Z.mod_pos_bound (fire_count t + 1) (u64_max + 1) ltac:(unfold u64_max; lia)).
  split_and!; [done|lia|lia|lia|lia|]. intros Hpos. specialize (Hle Hpos).
  apply andb_false_iff in El as [?%Z.ltb_ge|?%Z.leb_gt]; [lia|]. rewrite Z.mod_small; lia.
Qed.

Lemma index_insert e ts a b l :
  index (mkEngine ts (<[a := l]> (agent_triggers e))) b = if decide (a = b) then l else index e b.
Proof.
  unfold index. simpl. case_decide; subst.
  - by rewrite lookup_insert_eq.
  - by rewrite lookup_insert_ne.
Qed.

Lemma inv_register e a p template max new_id now :
  inv e → triggers e !! new_id = None → in_u64 max →
  inv (register e a p template max new_id now).1.
Proof.
  intros [Hok Hidx Hnd] Hfresh Hmax.
  assert (∀ b, new_id ∉ index e b) as Hno
    by (intros b (t & Ht & _)%Hidx; congruence).
  split.
  - apply map_Forall_insert_2; [|done].
    split_and!; [done| |done|intros; unfold in_u64 in Hmax; simpl; lia].
    unfold in_u64, u64_max. simpl. lia.
  - intros b id. unfold register. cbn [fst]. rewrite index_insert. fold (index e a). cbn [triggers].
    assert (id ∈ (if decide (a = b) then index e a ++ [new_id] else index e b) ↔
            id ∈ index e b ∨ (id = new_id ∧ a = b)) as ->.
    { case_decide; subst; rewrite ?elem_of_app, ?list_elem_of_singleton; naive_solver. }
    rewrite Hidx. destruct (decide (new_id = id)) as [<-|Hne].
    + rewrite lookup_insert_eq. naive_solver.
    + rewrite lookup_insert_ne by done. naive_solver.
  - intros b. unfold register. cbn [fst]. rewrite index_insert. fold (index e a).
    case_decide; [|done]. apply NoDup_app. split_and!; [done| |apply NoDup_singleton].
    intros x Hx ->%list_elem_of_singleton. by apply (Hno a).
Qed.

Lemma inv_remove e tid : inv e → inv (remove e tid).1.
Proof.
  intros [Hok Hidx Hnd]. unfold remove. destruct (triggers e !! tid) as [t|] eqn:Ht; [|by split].
  assert (∀ b, index (mkEngine (delete tid (triggers e))
      (alter (filter (λ id, id ≠ tid)) (agent_id t) (agent_triggers e))) b =
      if decide (agent_id t = b) then filter (λ id, id ≠ tid) (index e b) else index e b) as Hi.
  { intros b. unfold index. simpl. case_decide; subst.
    - rewrite lookup_alter_eq. by destruct (agent_triggers e !! agent_id t).
    - by rewrite lookup_alter_ne. }
  split.
  - by apply map_Forall_delete.
  - intros b id. cbn [fst]. rewrite Hi. simpl. destruct (decide (tid = id)) as [<-|Hne].
    + rewrite lookup_delete_eq. split; [|naive_solver].
      case_decide as Ha; [by intros [? _]%list_elem_of_filter|].
      intros (t' & ? & ?)%Hidx. congruence.
    + rewrite lookup_delete_ne by done. rewrite <-Hidx.
      case_decide; [|done]. rewrite list_elem_of_filter. naive_solver.
  - intros b. cbn [fst]. rewrite Hi. case_decide; [|done]. by apply NoDup_filter.
Qed.

Lemma lookup_remove_agent e a id :
  inv e →
  triggers (remove_agent_triggers e a) !! id =
  match triggers e !! id with
  | Some t => if decide (agent_id t = a) then None else Some t
  | None => None
  end.
Proof.
  intros [_ Hidx _]. specialize (Hidx a id). unfold remove_agent_triggers, index in *.
  destruct (agent_triggers e !! a) as [ids|]; simpl in *.
  - rewrite lookup_foldl_delete. destruct (triggers e !! id) as [t|] eqn:Ht; [|by case_decide].
    destruct (decide (id ∈ ids)), (decide (agent_id t = a)); naive_solver.
  - destruct (triggers e !! id) as [t|] eqn:Ht; [|done]. case_decide; [|done].
    exfalso. apply (not_elem_of_nil id), Hidx. eauto.
Qed.

Lemma inv_remove_agent e a : inv e → inv (remove_agent_triggers e a).
Proof.
  intros Hinv. pose proof (lookup_remove_agent e a) as Hl. destruct Hinv as [Hok Hidx Hnd].
  assert (∀ b, index (remove_agent_triggers e a) b = if decide (a = b) then [] else index e b)
    as Hi.
  { intros b. unfold remove_agent_triggers, index.
    destruct (agent_triggers e !! a) as [ids|] eqn:E; simpl.
    - case_decide; subst; [by rewrite lookup_delete_eq|by rewrite lookup_delete_ne].
    - case_decide; subst; [by rewrite E|done]. }
  split.
  - intros id t. rewrite Hl by done. destruct (triggers e !! id) eqn:Ht; [|done].
    case_decide; [done|]. intros [= <-]. eauto.
  - intros b id. rewrite Hi, Hl by done. case_decide as Hab; subst.
    + split; [by intros ?%not_elem_of_nil|]. intros (t & Ht & Ha). repeat case_match; naive_solver.
    + rewrite Hidx. destruct (triggers e !! id) as [t|]; [|naive_solver].
      case_decide; naive_solver.
  - intros b. rewrite Hi. case_decide; [constructor|done].
Qed.

Lemma inv_set_enabled e tid b : inv e → inv (set_enabled e tid b).1.
Proof.
  intros Hinv. unfold set_enabled. destruct (triggers e !! tid) as [t|] eqn:Ht; [|done].
  apply inv_same_owners; [done|..].
  - apply map_Forall_insert_2; [|apply Hinv]. exact (inv_ok _ Hinv _ _ Ht).
  - intros id. destruct (decide (tid = id)) as [<-|].
    + by rewrite lookup_insert_eq, Ht.
    + by rewrite lookup_insert_ne.
Qed.

Lemma inv_evaluate e ev e' ms : inv e → evaluate e ev = Some (e', ms) → inv e'.
Proof.
  intros Hinv (d & _ & Hidx & Hts & _)%evaluate_spec. destruct e' as [ts idx]. simpl in *. subst.
  apply inv_same_owners; [done|..].
  - intros id t. rewrite lookup_fmap. intros (t0 & Ht0 & ->)%fmap_Some.
    apply eval_trigger_ok, (inv_ok _ Hinv _ _ Ht0).
  - intros id. rewrite lookup_fmap. destruct (triggers e !! id); [|done]. simpl.
    by rewrite eval_trigger_owner.
Qed.

Lemma triggers_reachable_inv e : reachable e → inv e.
Proof.
  induction 1; eauto using inv_register, inv_remove, inv_remove_agent, inv_set_enabled, inv_evaluate.
  split; [apply map_Forall_empty| |intros; constructor].
  intros a id. unfold index, new_engine. simpl. rewrite lookup_empty. simpl.
  setoid_rewrite lookup_empty. split; [by intros ?%not_elem_of_nil|naive_solver].
Qed.

(** ** Theorems *)

(** The per-agent index is exact in every state the engine can reach: the
    triggers listed for an agent are the agent's triggers in the table, each
    once, and removing the triggers of an agent removes all of them and none
    of another agent. *)
Theorem trigger_index_exact e a :
  reachable e →
  (∀ t, t ∈ list_agent_triggers e a ↔ ∃ id, triggers e !! id = Some t ∧ agent_id t = a) ∧
  NoDup (trigger_id <$> list_agent_triggers e a) ∧
  (∀ id, triggers (remove_agent_triggers e a) !! id =
     match triggers e !! id with
     | Some t => if decide (agent_id t = a) then None else Some t
     | None => None
     end).
Proof.
  intros Hinv%triggers_reachable_inv.
  assert (list_agent_triggers e a = omap (λ id, triggers e !! id) (index e a)) as ->
    by (unfold list_agent_triggers, index; by destruct (agent_triggers e !! a)).
  split_and!.
  - intros t. rewrite list_elem_of_omap. setoid_rewrite (inv_index _ Hinv). naive_solver.
  - assert (trigger_id <$> omap (λ id, triggers e !! id) (index e a) = index e a) as ->;
      [|apply Hinv].
    assert (Forall (λ id, ∃ t, triggers e !! id = Some t ∧ trigger_id t = id) (index e a)) as Hall.
    { apply Forall_forall. intros id (t & Ht & _)%(inv_index _ Hinv). exists t. split; [done|].
      exact (proj1 (inv_ok _ Hinv _ _ Ht)). }
    induction Hall as [|id ids (t & Ht & Hid) _ IH]; [done|]. rewrite omap_cons, Ht, fmap_app, IH. simpl.
    by rewrite Hid.
  - intros id. by apply lookup_remove_agent.
Qed.

(** A trigger with a limit never fires more often than its limit: in every
    reachable state its count is within the limit, and an event sends exactly
    one message for each trigger that is enabled, below its limit and matches,
    and none for any other. *)
Theorem trigger_fires_bounded e ev e' ms :
  reachable e → evaluate e ev = Some (e', ms) →
  map_Forall (λ _ t, (0 < max_fires t)%Z → (fire_count t ≤ max_fires t)%Z) (triggers e') ∧
  ∃ d, ms ≡ₚ
    (λ t, (agent_id t, replace (prompt_template t) (lit "{{event}}") d)) <$>
      List.filter (λ t, enabled t && negb ((0 <? max_fires t)%Z && (max_fires t <=? fire_count t)%Z)
                        && matches_pattern (pattern t) ev d) (list_all e).
Proof.
  intros Hinv%triggers_reachable_inv Hev. split.
  - intros id t Ht. pose proof (inv_evaluate _ _ _ _ Hinv Hev) as Hinv'.
    apply (inv_ok _ Hinv' _ _ Ht).
  - apply evaluate_spec in Hev as (d & _ & _ & _ & Hms). exists d.
    rewrite Hms. unfold list_all. clear.
    induction (map_to_list (triggers e)) as [|[id t] l IH]; [done|].
    rewrite omap_cons, fmap_cons. simpl. unfold eval_trigger at 1.
    destruct (enabled t); [|done]. simpl. destruct ((0 <? max_fires t)%Z && _); [done|]. simpl.
    destruct (matches_pattern _ _ _); [by apply perm_skip|done].
Qed.
End triggers.

(** ** Witnesses *)

Definition demo_engine : TriggerEngine (AgentId := nat) (TriggerId := nat) :=
  (register (register new_engine 1 All (lit "{{event}}!") 2 10 0).1 2 System (lit "sys") 0 11 0).1.

Definition demo_event : Event (AgentId := nat) (EventId := nat) (Json := nat) :=
  mkEvent 0 1 TBroadcast (PSystem KernelStarted) 0 None None.

Local Abbreviation demo_evaluate :=
  (evaluate show_nat (λ _, []) (λ _, lit "KernelStarted") (λ _, []) (λ _, []) map_to_list).

Lemma triggers_demo_reachable :
  reachable (Json := nat) (EventId := nat) show_nat (λ _, []) (λ _, lit "KernelStarted") (λ _, [])
    (λ _, []) map_to_list demo_engine.
Proof.
  apply reach_register; [apply reach_register; [apply reach_new|reflexivity|]|reflexivity|];
    unfold in_u64, u64_max; lia.
Qed.

Lemma trigger_index_exact_witness :
  triggers (remove_agent_triggers demo_engine 1) !! 10 =
    match triggers demo_engine !! 10 with
    | Some t => if decide (agent_id t = 1) then None else Some t
    | None => None
    end.
Proof.
  exact (proj2 (proj2 (trigger_index_exact (Json := nat) (EventId := nat) show_nat (λ _, [])
    (λ _, lit "KernelStarted") (λ _, []) (λ _, []) map_to_list (λ _, reflexivity _) demo_engine 1
    triggers_demo_reachable)) 10).
Defined.

Lemma trigger_fires_bounded_witness :
  ∃ e' ms, demo_evaluate demo_engine demo_event = Some (e', ms) ∧ length ms = 2 ∧
    map_Forall (λ _ t, (0 < max_fires t)%Z → (fire_count t ≤ max_fires t)%Z) (triggers e').
Proof.
  eexists _, _. split; [reflexivity|]. split; [vm_compute; reflexivity|].
  refine (proj1 (trigger_fires_bounded show_nat (λ _, []) (λ _, lit "KernelStarted") (λ _, [])
    (λ _, []) map_to_list (λ _, reflexivity _) demo_engine demo_event _ _ triggers_demo_reachable eq_refl)).
Defined.
