(* ===== verification/Background.v ===== *)
(** * Background agents

    [openfang-kernel/src/background.rs]: the conditions and intervals of
    autonomous agents, and their loops. A loop sends a prompt at every tick
    unless the one before is still being answered; the calls of all loops
    share five permits. Loops, watchers and the clock interleave freely. *)

From Stdlib Require Import Ascii ZArith Lia.
From stdpp Require Import base gmap strings list sets.
From S2P Require Import Prelude Strs AgentTypes Triggers.

Definition MAX_CONCURRENT_BG_LLM : nat := 5.

Definition eq_ignore_ascii_case (s t : str) : bool := str_eqb (ascii_lower <$> s) (ascii_lower <$> t).

Section Conditions.
Context `{UnicodeCase}.

Definition parse_event_kind (kind : str) : option TriggerPattern :=
  if str_eqb kind (lit "agent_spawned") then Some (AgentSpawned (lit "*"))
  else if str_eqb kind (lit "agent_terminated") then Some AgentTerminated
  else if str_eqb kind (lit "lifecycle") then Some Lifecycle
  else if str_eqb kind (lit "system") then Some System
  else if str_eqb kind (lit "memory_update") then Some MemoryUpdate
  else None.

Definition parse_condition (condition : str) : option TriggerPattern :=
  let condition := trim condition in
  if eq_ignore_ascii_case condition (lit "all") then Some All
  else match strip_prefix condition (lit "event:") with
       | Some event_kind => parse_event_kind (to_lowercase (trim event_kind))
       | None =>
           match strip_prefix condition (lit "memory:") with
           | Some key => Some (MemoryKeyPattern (trim key))
           | None => None
           end
       end.

Definition wrapping_mul_u64 (x y : Z) : Z := ((x * y) mod (u64_max + 1))%Z.

(** One unit of [every <N><unit>]. *)
Definition parse_interval (rest : str) (unit : ascii) (secs : Z) : option Z :=
  num_str ← strip_suffix_char rest unit;
  n ← parse_unsigned u64_max (trim num_str);
  Some (wrapping_mul_u64 n secs).

Definition DEFAULT_INTERVAL : Z := 300.

Definition parse_cron_to_secs (cron : str) : Z :=
  let cron := to_lowercase (trim cron) in
  match strip_prefix cron (lit "every ") with
  | None => DEFAULT_INTERVAL
  | Some rest =>
      let rest := trim rest in
      match parse_interval rest "s"%char 1, parse_interval rest "m"%char 60,
            parse_interval rest "h"%char 3600, parse_interval rest "d"%char 86400 with
      | Some n, _, _, _ => n
      | None, Some n, _, _ => n
      | None, None, Some n, _ => n
      | None, None, None, Some n => n
      | None, None, None, None => DEFAULT_INTERVAL
      end
  end.
End Conditions.

(** ** Loops *)

(** Where the loop task is, and what its watchers are doing: waiting for the
    call they hold a permit for, or, the permit returned, about to clear the
    busy flag. *)
Inductive LoopPc : Type := Sleeping | WaitingPermit | Stopped.

Section Loops.
Context {AgentId LoopId : Type} `{Countable AgentId} `{Countable LoopId}.

Record Loop : Type := mkLoop {
  owner : AgentId;
  pc : LoopPc;
  busy : bool;
  calls : nat;
  clearing : nat
}.

Record Executor : Type := mkExecutor {
  tasks : gmap AgentId LoopId;
  loops : gmap LoopId Loop;
  permits : nat;
  prompts : list AgentId
}.

Definition new_executor : Executor := mkExecutor ∅ ∅ MAX_CONCURRENT_BG_LLM [].

(** [start_agent]: only continuous and periodic agents get a loop. A loop that
    already runs for the agent loses its handle but not its task. *)
Definition start_agent (x : Executor) (i : AgentId) (m : ScheduleMode) (l : LoopId) : Executor :=
  match m with
  | Reactive | Proactive _ => x
  | Continuous _ | Periodic _ =>
      mkExecutor (<[ i := l ]> (tasks x)) (<[ l := mkLoop i Sleeping false 0 0 ]> (loops x)) (permits x)
        (prompts x)
  end.

Definition on_loop (f : Loop → Loop) (l : LoopId) (x : Executor) : Executor :=
  mkExecutor (tasks x) (alter f l (loops x)) (permits x) (prompts x).

Definition abort_loop (lp : Loop) : Loop := mkLoop (owner lp) Stopped (busy lp) (calls lp) (clearing lp).

(** [stop_agent]: the task of the loop is aborted; watchers are tasks of their
    own. *)
Definition stop_agent (x : Executor) (i : AgentId) : Executor :=
  match tasks x !! i with
  | Some l => on_loop abort_loop l (mkExecutor (delete i (tasks x)) (loops x) (permits x) (prompts x))
  | None => x
  end.

Definition active_count (x : Executor) : nat := size (tasks x).

(** The steps of a loop and of its watchers. *)
Definition tick (lp : Loop) : Loop :=
  if busy lp then lp else mkLoop (owner lp) WaitingPermit true (calls lp) (clearing lp).

Inductive step (x : Executor) : Executor → Prop :=
| step_start i m l :
    loops x !! l = None → step x (start_agent x i m l)
| step_stop i : step x (stop_agent x i)
| step_tick l lp :
    loops x !! l = Some lp → pc lp = Sleeping → step x (on_loop tick l x)
| step_shutdown l lp :
    loops x !! l = Some lp → pc lp = Sleeping → step x (on_loop abort_loop l x)
| step_acquire l lp :
    loops x !! l = Some lp → pc lp = WaitingPermit → 0 < permits x →
    step x (mkExecutor (tasks x) (<[ l := mkLoop (owner lp) Sleeping (busy lp) (S (calls lp)) (clearing lp) ]> (loops x))
              (pred (permits x)) (prompts x ++ [owner lp]))
| step_answered l lp n :
    loops x !! l = Some lp → calls lp = S n →
    step x (mkExecutor (tasks x) (<[ l := mkLoop (owner lp) (pc lp) (busy lp) n (S (clearing lp)) ]> (loops x))
              (S (permits x)) (prompts x))
| step_clear l lp n :
    loops x !! l = Some lp → clearing lp = S n →
    step x (on_loop (λ lp, mkLoop (owner lp) (pc lp) false (calls lp) n) l x).

Inductive reachable : Executor → Prop :=
| reachable_new : reachable new_executor
| reachable_step x y : reachable x → step x y → reachable y.

(** ** Permits *)

(** The calls that hold a permit. *)
Definition in_flight (ls : gmap LoopId Loop) : nat := map_fold (λ _ lp n, calls lp + n) 0 ls.

Lemma in_flight_insert l lp ls :
  ls !! l = None → in_flight (<[ l := lp ]> ls) = calls lp + in_flight ls.
Proof. intros Hl. unfold in_flight. rewrite map_fold_insert_L; [done| |done]. intros. lia. Qed.

Lemma in_flight_delete l lp ls :
  ls !! l = Some lp → in_flight ls = calls lp + in_flight (delete l ls).
Proof. intros Hl. unfold in_flight. rewrite (map_fold_delete_L _ _ l lp ls); [done| |done]. intros. lia. Qed.

Lemma in_flight_replace l lp lp' ls :
  ls !! l = Some lp → in_flight (<[ l := lp' ]> ls) + calls lp = in_flight ls + calls lp'.
Proof.
  intros Hl. rewrite (in_flight_delete l lp ls Hl), <-insert_delete_eq.
  rewrite in_flight_insert by apply lookup_delete_eq. lia.
Qed.

Lemma in_flight_alter l f ls :
  (∀ lp, calls (f lp) = calls lp) → in_flight (alter f l ls) = in_flight ls.
Proof.
  intros Hf. destruct (ls !! l) as [lp|] eqn:E.
  - pose proof (in_flight_replace l lp (f lp) ls E) as Hr. rewrite Hf in Hr.
    replace (alter f l ls) with (<[ l := f lp ]> ls); [lia|].
    apply map_eq. intros k. destruct (decide (k = l)) as [->|].
    + by rewrite lookup_insert_eq, lookup_alter_eq, E.
    + by rewrite lookup_insert_ne, lookup_alter_ne by done.
  - f_equal. apply map_eq. intros k. destruct (decide (k = l)) as [->|].
    + by rewrite lookup_alter_eq, E.
    + by rewrite lookup_alter_ne by done.
Qed.

(** A loop has at most one call under way, and its busy flag is set from the
    tick that starts one to the moment its watcher clears it. *)
Definition waiting (lp : Loop) : nat := match pc lp with WaitingPermit => 1 | _ => 0 end.

Definition loop_ok (lp : Loop) : Prop :=
  waiting lp + calls lp + clearing lp ≤ (if busy lp then 1 else 0).

Definition exec_ok (x : Executor) : Prop :=
  permits x + in_flight (loops x) = MAX_CONCURRENT_BG_LLM ∧ map_Forall (λ _, loop_ok) (loops x).

Lemma alter_ok f l (ls : gmap LoopId Loop) :
  map_Forall (λ _, loop_ok) ls → (∀ lp, ls !! l = Some lp → loop_ok (f lp)) →
  map_Forall (λ _, loop_ok) (alter f l ls).
Proof.
  intros Hls Hf k lp. destruct (decide (k = l)) as [->|].
  - rewrite lookup_alter_eq. intros (lp0 & E & ->)%fmap_Some. by apply Hf.
  - rewrite lookup_alter_ne by done. apply Hls.
Qed.

Lemma abort_ok lp : loop_ok lp → loop_ok (abort_loop lp).
Proof. unfold loop_ok, waiting. simpl. destruct (pc lp), (busy lp); lia. Qed.

Lemma step_ok x y : exec_ok x → step x y → exec_ok y.
Proof.
  intros [Hp Hl] Hs. destruct Hs; unfold exec_ok, on_loop; simpl.
  - unfold start_agent. destruct m; try done; simpl;
      (split; [by rewrite in_flight_insert by done|apply map_Forall_insert_2; [|done]]);
      unfold loop_ok, waiting; simpl; lia.
  - unfold stop_agent. destruct (tasks x !! i) as [l|]; [|done]. simpl. split.
    + by rewrite in_flight_alter.
    + apply alter_ok; [done|]. intros lp Hlp. apply abort_ok. by eapply Hl.
  - split.
    + rewrite in_flight_alter; [done|]. intros lp'. unfold tick. by destruct (busy lp').
    + apply alter_ok; [done|]. intros lp' Hlp'. specialize (Hl l lp' Hlp').
      unfold tick, loop_ok, waiting in *. destruct (busy lp') eqn:Eb; simpl in *; [by rewrite Eb|lia].
  - split; [by rewrite in_flight_alter|]. apply alter_ok; [done|].
    intros lp' Hlp'. apply abort_ok. by eapply Hl.
  - specialize (Hl l lp H1) as Hlp. split.
    + pose proof (in_flight_replace l lp (mkLoop (owner lp) Sleeping (busy lp) (S (calls lp)) (clearing lp)) _ H1).
      simpl in *. lia.
    + apply map_Forall_insert_2; [|done]. unfold loop_ok, waiting in *. rewrite H2 in Hlp. simpl in *.
      destruct (busy lp); lia.
  - specialize (Hl l lp H1) as Hlp. split.
    + pose proof (in_flight_replace l lp (mkLoop (owner lp) (pc lp) (busy lp) n (S (clearing lp))) _ H1).
      simpl in *. lia.
    + apply map_Forall_insert_2; [|done]. unfold loop_ok, waiting in *. simpl in *.
      destruct (busy lp), (pc lp); lia.
  - split; [by rewrite in_flight_alter|]. apply alter_ok; [done|]. intros lp' Hlp'.
    assert (lp' = lp) as -> by congruence. specialize (Hl l lp H1). unfold loop_ok, waiting in *. simpl in *.
    destruct (busy lp), (pc lp); lia.
Qed.

Lemma reachable_ok x : reachable x → exec_ok x.
Proof. induction 1 as [|x y _ IH Hs]; [|by eapply step_ok]. split; [reflexivity|apply map_Forall_empty]. Qed.

Lemma in_flight_member l lp (ls : gmap LoopId Loop) : ls !! l = Some lp → calls lp ≤ in_flight ls.
Proof. intros Hl. rewrite (in_flight_delete l lp ls Hl). lia. Qed.
End Loops.

(** C25: However the loops, their watchers and the clock interleave, at most five
    background calls are under way and each loop has at most one; no permit is
    ever lost: when no call is under way all five are free. *)
Theorem background_calls_bounded {AgentId LoopId : Type} `{Countable AgentId} `{Countable LoopId}
    (x : Executor (AgentId := AgentId) (LoopId := LoopId)) :
  reachable x →
  in_flight (loops x) ≤ MAX_CONCURRENT_BG_LLM
  ∧ permits x = MAX_CONCURRENT_BG_LLM - in_flight (loops x)
  ∧ ∀ l lp, loops x !! l = Some lp → calls lp + clearing lp ≤ 1 ∧ (0 < calls lp → busy lp = true).
Proof.
  intros [Hp Hl]%reachable_ok. split_and!; [lia|lia|]. intros l lp Hlp. specialize (Hl l lp Hlp).
  unfold loop_ok in Hl. destruct (busy lp); split; try done; lia.
Qed.

(** Two loops, one of them with a call under way. *)
Definition demo_executor : Executor (AgentId := nat) (LoopId := nat) :=
  mkExecutor {[ 1 := 10; 2 := 20 ]}
    {[ 10 := mkLoop 1 Sleeping true 1 0; 20 := mkLoop 2 Sleeping false 0 0 ]} 4 [1].

Lemma demo_exec_reachable : reachable demo_executor.
Proof.
  set (x1 := start_agent (new_executor (AgentId := nat) (LoopId := nat)) 1 (Continuous 60) 10).
  set (x2 := start_agent x1 2 (Periodic (lit "every 5m")) 20).
  set (x3 := on_loop tick 10 x2).
  assert (reachable x1) as R1 by (eapply reachable_step; [apply reachable_new|by apply step_start]).
  assert (reachable x2) as R2 by (eapply reachable_step; [exact R1|by apply step_start]).
  assert (reachable x3) as R3 by (eapply reachable_step; [exact R2|by eapply (step_tick _ 10)]).
  eapply reachable_step; [exact R3|].
  refine (step_acquire x3 10 (mkLoop 1 WaitingPermit true 0 0) eq_refl eq_refl _). vm_compute. lia.
Qed.

Lemma background_calls_bounded_witness : permits demo_executor = 5 - in_flight (loops demo_executor).
Proof. apply (background_calls_bounded demo_executor demo_exec_reachable). Defined.

Example conditions_parsed :
  parse_condition (lit " ALL ") = Some All
  ∧ parse_condition (lit "event: Agent_Spawned") = Some (AgentSpawned (lit "*"))
  ∧ parse_condition (lit "memory: goals") = Some (MemoryKeyPattern (lit "goals"))
  ∧ parse_condition (lit "cron:x") = None.
Proof. vm_compute. auto. Qed.

Example intervals_parsed :
  parse_cron_to_secs (lit "every 5m") = 300%Z ∧ parse_cron_to_secs (lit "Every 2D") = 172800%Z
  ∧ parse_cron_to_secs (lit "every +1 h") = 3600%Z ∧ parse_cron_to_secs (lit "0 9 * * *") = 300%Z
  ∧ parse_cron_to_secs (lit "every 307445734561825861m") = 44%Z.
Proof. vm_compute. auto. Qed.
