(* ===== verification/AgentLifecycle.v ===== *)
(** * The lifecycle of agents

    How the kernel ([openfang-kernel/src/kernel.rs]) creates and ends agents
    over its components: [spawn_agent_with_parent], [kill_agent],
    [manifest_to_capabilities] and [available_tools], with the event bus of
    [event_bus.rs] and the names of MCP tools of
    [openfang-runtime/src/mcp.rs]. What the kernel relies on when it ends an
    agent is the interface [AgentComponent], which every component implements.

    The results of the calls into the memory crate and of the making of the
    workspace are arguments, as are the new ids and the time. *)

From Stdlib Require Import Ascii ZArith Lia.
From stdpp Require Import base gmap strings list sets.
From S2P Require Import Prelude Strs ContextWindow ShellExec WorkspaceSandbox AgentTypes.
From S2P Require Import Capability AuditChain Event Triggers Background AgentQuota AgentRegistry.

(** ** The event bus *)

Definition HISTORY_SIZE : nat := Z.to_nat 1000.

(** [history.push_back] on a full ring drops the oldest event. *)
Definition push_history {A} (h : list A) (x : A) : list A :=
  (if HISTORY_SIZE <=? length h then drop 1 h else h) ++ [x].

Section Bus.
Context {AgentId EventId Json : Type} `{Countable AgentId}.

Abbreviation event := (Event (AgentId := AgentId) (EventId := EventId) (Json := Json)).

(** A channel is what has been sent through it. *)
Record EventBus : Type := mkBus {
  sender : list event;
  agent_channels : gmap AgentId (list event);
  history : list event
}.

Definition new_bus : EventBus := mkBus [] ∅ [].

Definition route (b : EventBus) (e : event) : EventBus :=
  match target e with
  | TAgent a => mkBus (sender b) (alter (λ c, c ++ [e]) a (agent_channels b)) (history b)
  | TBroadcast => mkBus (sender b ++ [e]) ((λ c, c ++ [e]) <$> agent_channels b) (history b)
  | TPattern _ | TSystem => mkBus (sender b ++ [e]) (agent_channels b) (history b)
  end.

Definition publish (b : EventBus) (e : event) : EventBus :=
  route (mkBus (sender b) (agent_channels b) (push_history (history b) e)) e.

Definition subscribe_agent (b : EventBus) (a : AgentId) : EventBus :=
  mkBus (sender b) (<[ a := default [] (agent_channels b !! a) ]> (agent_channels b)) (history b).

Definition recent_history (b : EventBus) (limit : nat) : list event := take limit (reverse (history b)).

Definition unsubscribe_agent (b : EventBus) (a : AgentId) : EventBus :=
  mkBus (sender b) (delete a (agent_channels b)) (history b).

Lemma route_history b e : history (route b e) = history b.
Proof. unfold route. by destruct (target e). Qed.

Lemma push_history_last {A} (l : list A) x :
  push_history (drop (length l - HISTORY_SIZE) l) x
  = drop (length (l ++ [x]) - HISTORY_SIZE) (l ++ [x]).
Proof.
  unfold push_history. rewrite length_drop, length_app. change (length [x]) with 1.
  destruct (Nat.leb_spec HISTORY_SIZE (length l - (length l - HISTORY_SIZE))) as [Hle|Hgt].
  - rewrite drop_drop. replace (length l + 1 - HISTORY_SIZE) with (length l - HISTORY_SIZE + 1) by lia.
    assert (0 < HISTORY_SIZE) by (vm_compute; lia).
    rewrite drop_app_le by lia. done.
  - replace (length l - HISTORY_SIZE) with 0 by lia.
    replace (length l + 1 - HISTORY_SIZE) with 0 by lia. done.
Qed.

(** The history holds the last thousand events, newest first when read. *)
Theorem bus_history events limit :
  let b := foldl publish new_bus events in
  recent_history b limit = take limit (reverse (drop (length events - HISTORY_SIZE) events)).
Proof.
  intros b. unfold recent_history. do 2 f_equal. subst b.
  induction events as [|e events IH] using rev_ind; [done|].
  rewrite foldl_snoc. unfold publish at 1. rewrite route_history. cbn [history].
  by rewrite IH, push_history_last.
Qed.
End Bus.

(** ** What a component promises about an agent that ends *)

(** [knows s i]: the component has something that belongs to [i]; [about s i] is
    all of it. Something that belongs to one agent may name another: the entry
    of an agent in the registry lists its children. [forget] takes away what
    belongs to the agent, not what names it elsewhere. *)
Class AgentComponent (AgentId S : Type) : Type := {
  view : Type;
  component_ok : S → Prop;
  knows : S → AgentId → Prop;
  about : S → AgentId → view;
  forget : S → AgentId → S;
  forget_ok s i : component_ok s → component_ok (forget s i);
  forget_exact s i j : component_ok s → knows (forget s i) j ↔ knows s j ∧ j ≠ i;
  forget_others s i j : component_ok s → j ≠ i → about (forget s i) j = about s j
}.

Section Instances.
Context {AgentId : Type} `{Countable AgentId}.

#[global] Program Instance scheduler_component : AgentComponent AgentId (AgentScheduler (AgentId := AgentId)) := {
  view := option ResourceQuota * option UsageTracker * bool;
  component_ok _ := True;
  knows s i := is_Some (quotas s !! i) ∨ is_Some (usage s !! i) ∨ i ∈ AgentQuota.tasks s;
  about s i := (quotas s !! i, usage s !! i, bool_decide (i ∈ AgentQuota.tasks s));
  forget := unregister
}.
Next Obligation. done. Qed.
Next Obligation.
  intros s i j _. simpl. destruct (decide (j = i)) as [->|].
  - rewrite !lookup_delete_eq. split; [|naive_solver].
    intros [[? [=]]|[[? [=]]|Ht]]. set_solver.
  - rewrite !lookup_delete_ne by done. set_solver.
Qed.
Next Obligation.
  intros s i j _ Hne. simpl. rewrite !lookup_delete_ne by done. f_equal. apply bool_decide_ext. set_solver.
Qed.

#[global] Program Instance capability_component : AgentComponent AgentId (CapabilityManager (AgentId := AgentId)) := {
  view := option (list Capability);
  component_ok _ := True;
  knows m i := is_Some (grants m !! i);
  about m i := grants m !! i;
  forget := revoke_all
}.
Next Obligation. done. Qed.
Next Obligation.
  intros m i j _. simpl. destruct (decide (j = i)) as [->|].
  - rewrite lookup_delete_eq. split; [by intros []|naive_solver].
  - rewrite lookup_delete_ne by done. naive_solver.
Qed.
Next Obligation. intros m i j _ Hne. simpl. by rewrite lookup_delete_ne. Qed.

#[global] Program Instance bus_component {EventId Json} :
    AgentComponent AgentId (EventBus (AgentId := AgentId) (EventId := EventId) (Json := Json)) := {
  view := option (list (Event (AgentId := AgentId) (EventId := EventId) (Json := Json)));
  component_ok _ := True;
  knows b i := is_Some (agent_channels b !! i);
  about b i := agent_channels b !! i;
  forget := unsubscribe_agent
}.
Next Obligation. done. Qed.
Next Obligation.
  intros ? ? b i j _. simpl. destruct (decide (j = i)) as [->|].
  - rewrite lookup_delete_eq. split; [by intros []|naive_solver].
  - rewrite lookup_delete_ne by done. naive_solver.
Qed.
Next Obligation. intros ? ? b i j _ Hne. simpl. by rewrite lookup_delete_ne. Qed.

#[global] Program Instance executor_component {LoopId} `{Countable LoopId} :
    AgentComponent AgentId (Executor (AgentId := AgentId) (LoopId := LoopId)) := {
  view := option LoopId;
  component_ok _ := True;
  knows x i := is_Some (Background.tasks x !! i);
  about x i := Background.tasks x !! i;
  forget := stop_agent
}.
Next Obligation. done. Qed.
Next Obligation.
  intros ? ? ? x i j _. unfold stop_agent. destruct (Background.tasks x !! i) eqn:E; simpl.
  - destruct (decide (j = i)) as [->|].
    + rewrite lookup_delete_eq. split; [by intros []|naive_solver].
    + rewrite lookup_delete_ne by done. naive_solver.
  - split; [|naive_solver]. intros Hj. split; [done|]. intros ->. rewrite E in Hj. by destruct Hj.
Qed.
Next Obligation.
  intros ? ? ? x i j _ Hne. unfold stop_agent. destruct (Background.tasks x !! i); simpl; [|done].
  by rewrite lookup_delete_ne.
Qed.

#[global] Program Instance trigger_component {TriggerId} `{Countable TriggerId} :
    AgentComponent AgentId (TriggerEngine (AgentId := AgentId) (TriggerId := TriggerId)) := {
  view := option (list TriggerId) * gmap TriggerId (Trigger (AgentId := AgentId) (TriggerId := TriggerId));
  component_ok := Triggers.inv;
  knows e i := is_Some (agent_triggers e !! i) ∨ ∃ id t, triggers e !! id = Some t ∧ Triggers.agent_id t = i;
  about e i := (agent_triggers e !! i, filter (λ p, Triggers.agent_id p.2 = i) (triggers e));
  forget := remove_agent_triggers
}.
Next Obligation. intros. by apply (Triggers.inv_remove_agent (λ _, [])). Qed.
Next Obligation.
  intros ? ? ? e i j He. cbn beta.
  assert (agent_triggers (remove_agent_triggers e i) !! j
          = if decide (j = i) then None else agent_triggers e !! j) as ->.
  { unfold remove_agent_triggers. destruct (agent_triggers e !! i) eqn:E; simpl; case_decide; subst.
    - by rewrite lookup_delete_eq.
    - by rewrite lookup_delete_ne by done.
    - done.
    - done. }
  setoid_rewrite (lookup_remove_agent (λ _, []) e i _ He). split.
  - intros [Hs|(id & t & Ht & <-)].
    + case_decide; [by destruct Hs|]. auto.
    + destruct (triggers e !! id) as [t'|] eqn:Et; [|done]. case_decide; [done|].
      simplify_eq. split; [|done]. right. eauto.
  - intros [[Hs|(id & t & Ht & <-)] Hne].
    + left. by rewrite decide_False.
    + right. exists id, t. rewrite Ht. by rewrite decide_False.
Qed.
Next Obligation.
  intros ? ? ? e i j He Hne. cbn beta. f_equal.
  - unfold remove_agent_triggers. destruct (agent_triggers e !! i); simpl; [by rewrite lookup_delete_ne|done].
  - apply map_eq. intros id. apply option_eq. intros t. rewrite !map_lookup_filter_Some.
    rewrite (lookup_remove_agent (λ _, []) e i _ He). simpl.
    destruct (triggers e !! id) as [t'|]; [|naive_solver]. case_decide; naive_solver.
Qed.

Context (show_agent : AgentId → str).

Program Definition registry_component {SessionId Json} :
    AgentComponent AgentId (Registry (AgentId := AgentId) (SessionId := SessionId) (Json := Json)) := {|
  view := option (AgentEntry (AgentId := AgentId) (SessionId := SessionId) (Json := Json));
  component_ok := reg_inv;
  knows r i := is_Some (agents r !! i) ∨ (∃ n, name_index r !! n = Some i)
               ∨ ∃ t, i ∈ default [] (tag_index r !! t);
  about r i := agents r !! i;
  forget r i := (AgentRegistry.remove show_agent r i).1
|}.
Next Obligation. intros. by apply AgentRegistry.remove_inv. Qed.
Next Obligation.
  intros SessionId Json r i j Hr. cbn beta.
  assert (∀ r' : Registry (AgentId := AgentId) (SessionId := SessionId) (Json := Json), reg_inv r' →
    (is_Some (agents r' !! j) ∨ (∃ n, name_index r' !! n = Some j)
     ∨ (∃ t, j ∈ default [] (tag_index r' !! t))) ↔ is_Some (agents r' !! j)) as Hk.
  { intros r' [_ Hn Ht]. split; [|auto]. intros [Hs|[[n Hj]|[t Hj]]]; [done| |].
    - apply Hn in Hj as (e & -> & _). eauto.
    - apply Ht in Hj as (e & -> & _). eauto. }
  rewrite !Hk by (try done; by apply AgentRegistry.remove_inv).
  unfold AgentRegistry.remove. destruct (agents r !! i) eqn:E; simpl.
  - destruct (decide (j = i)) as [->|].
    + rewrite lookup_delete_eq. split; [by intros []|naive_solver].
    + rewrite lookup_delete_ne by done. naive_solver.
  - split; [|naive_solver]. intros Hj. split; [done|]. intros ->. rewrite E in Hj. by destruct Hj.
Qed.
Next Obligation.
  intros SessionId Json r i j Hr Hne. cbn beta. unfold AgentRegistry.remove.
  destruct (agents r !! i); simpl; [by rewrite lookup_delete_ne|done].
Qed.
End Instances.

(** ** Capabilities of a manifest *)

Definition or_else (explicit implied : list str) : list str :=
  match explicit with [] => implied | _ :: _ => explicit end.

(** A profile counts where the manifest lists no tools; what the manifest says
    itself goes before what the profile implies. *)
Definition effective_caps {Json} (m : AgentManifest (Json := Json)) : ManifestCapabilities :=
  let c := capabilities m in
  match profile m with
  | Some p =>
      match tools c with
      | [] =>
          let i := implied_capabilities p in
          {| network := or_else (network c) (network i);
             tools := tools i;
             memory_read := or_else (memory_read c) (memory_read i);
             memory_write := or_else (memory_write c) (memory_write i);
             agent_spawn := agent_spawn c || agent_spawn i;
             agent_message := or_else (AgentTypes.agent_message c) (AgentTypes.agent_message i);
             shell := or_else (shell c) (shell i);
             ofp_discover := ofp_discover c || ofp_discover i;
             ofp_connect := or_else (ofp_connect c) (ofp_connect i) |}
      | _ :: _ => c
      end
  | None => c
  end.

Definition manifest_to_capabilities {Json} (m : AgentManifest (Json := Json)) : list Capability :=
  let c := effective_caps m in
  (NetConnect <$> network c) ++ (Capability.ToolInvoke <$> tools c) ++ (MemoryRead <$> memory_read c)
  ++ (MemoryWrite <$> memory_write c) ++ (if agent_spawn c then [Capability.AgentSpawn] else [])
  ++ (Capability.AgentMessage <$> AgentTypes.agent_message c) ++ (Capability.ShellExec <$> shell c)
  ++ (if ofp_discover c then [OfpDiscover] else []) ++ (OfpConnect <$> ofp_connect c).

(** ** The names of MCP tools *)

Section McpNames.
Context `{UnicodeCase}.

Definition normalize_name (name : str) : str := replace (to_lowercase name) (lit "-") (lit "_").

Definition format_mcp_tool_name (server tool : str) : str :=
  lit "mcp_" ++ normalize_name server ++ lit "_" ++ normalize_name tool.

Definition is_mcp_tool (name : str) : bool := starts_with name (lit "mcp_").

Definition extract_mcp_server (tool_name : str) : option str :=
  if negb (starts_with tool_name (lit "mcp_")) then None
  else let rest := drop 4 tool_name in (λ pos, take pos rest) <$> find rest (lit "_").
End McpNames.

(** ** The kernel *)

Record DefaultModelConfig : Type := mkDefaultModel {
  dm_provider : str;
  dm_model : str;
  dm_api_key_env : str;
  dm_base_url : option str
}.

Record KernelConfig : Type := mkKernelConfig {
  k_exec_policy : ExecPolicy;
  k_default_model : DefaultModelConfig;
  workspaces_dir : str
}.

Inductive KernelError : Type :=
| MemoryError (e : str)
| WorkspaceError (e : str)
| RegistryFailed (e : RegistryError).

Section Kernel.
Context {AgentId SessionId TriggerId EventId LoopId Json : Type}.
Context `{Countable AgentId} `{Countable TriggerId} `{Countable LoopId}.
Context `{UnicodeCase}.
Context (show_agent : AgentId → str) (show_parent : option AgentId → str).
Context (debug_network : NetworkEvent → str) (debug_system : SystemEvent (AgentId := AgentId) → str).
Context (fmt_f32_1 fmt_f64_4 : SpecFloat.spec_float → str).
Context (trigger_order : gmap TriggerId (Trigger (AgentId := AgentId) (TriggerId := TriggerId))
                         → list (TriggerId * Trigger (AgentId := AgentId) (TriggerId := TriggerId))).
Context (sha256_hex : str → str).
Context (new_trigger_id : TriggerEngine (AgentId := AgentId) (TriggerId := TriggerId) → TriggerId).

Abbreviation manifest_t := (AgentManifest (Json := Json)).
Abbreviation engine := (TriggerEngine (AgentId := AgentId) (TriggerId := TriggerId)).

Record Kernel : Type := mkKernel {
  registry : Registry (AgentId := AgentId) (SessionId := SessionId) (Json := Json);
  scheduler : AgentScheduler (AgentId := AgentId);
  caps : CapabilityManager (AgentId := AgentId);
  trigger_engine : engine;
  audit_log : AuditLog;
  background : Executor (AgentId := AgentId) (LoopId := LoopId);
  event_bus : EventBus (AgentId := AgentId) (EventId := EventId) (Json := Json)
}.

Definition new_kernel : Kernel :=
  mkKernel new_registry new_scheduler new_manager new_engine new new_executor new_bus.

(** What the kernel fills in before it registers a manifest. *)
Definition inherit_policy (cfg : KernelConfig) (m : manifest_t) : manifest_t :=
  let '(mkManifest n v d a mo sc md fb re pr ca pf to sk mc me ta ro au pi ws ge ex) := m in
  mkManifest n v d a mo sc md fb re pr ca pf to sk mc me ta ro au pi ws ge
    (match ex with None => Some (k_exec_policy cfg) | Some p => Some p end).

Definition overlay_model (cfg : KernelConfig) (m : manifest_t) : manifest_t :=
  match api_key_env (m_model m), base_url (m_model m) with
  | None, None =>
      let dm := k_default_model cfg in
      m_on_model (model_with (if Strs.is_empty (dm_provider dm) then None else Some (dm_provider dm))
                    (if Strs.is_empty (dm_model dm) then None else Some (dm_model dm)) None) m
  | _, _ => m
  end.

Definition workspace_dir (cfg : KernelConfig) (i : AgentId) (m : manifest_t) : str :=
  default (path_join (workspaces_dir cfg) (m_name m ++ lit "-" ++ take 8 (show_agent i))) (workspace m).

Definition prepare (cfg : KernelConfig) (i : AgentId) (m : manifest_t) : manifest_t :=
  let m := overlay_model cfg (inherit_policy cfg m) in
  m_set_workspace (Some (workspace_dir cfg i m)) m.

Definition new_entry (i : AgentId) (sid : SessionId) (m : manifest_t) (parent : option AgentId) (now : Z)
  : AgentEntry (AgentId := AgentId) (SessionId := SessionId) (Json := Json) :=
  mkEntry i (m_name m) m Running default_mode now now parent [] sid (m_tags m) default_identity false None.

Definition proactive_prompt (condition name : str) : str :=
  lit "[PROACTIVE ALERT] Condition '" ++ condition
  ++ lit "' matched: {{event}}. Review and take appropriate action. Agent: " ++ name.

Definition register_condition (i : AgentId) (name : str) (now : Z) (e : engine) (condition : str) : engine :=
  match parse_condition condition with
  | Some pattern =>
      (Triggers.register e i pattern (proactive_prompt condition name) 0 (new_trigger_id e) now).1
  | None => e
  end.

Definition proactive_triggers (i : AgentId) (name : str) (m : manifest_t) (now : Z) (e : engine) : engine :=
  match schedule m with
  | Proactive conditions => foldl (register_condition i name now) e conditions
  | _ => e
  end.

Definition spawned_event (eid : EventId) (i : AgentId) (name : str) (now : Z)
  : Event (AgentId := AgentId) (EventId := EventId) (Json := Json) :=
  mkEvent eid i TBroadcast (PLifecycle (Spawned i name)) now None None.

(** The evaluation of the event; what it matched is dropped. The description
    of a lifecycle event cannot panic. *)
Definition evaluate_spawned (e : engine) (ev : Event (AgentId := AgentId) (EventId := EventId) (Json := Json))
  : engine :=
  match evaluate show_agent debug_network debug_system fmt_f32_1 fmt_f64_4 trigger_order e ev with
  | Some (e', _) => e'
  | None => e
  end.

(** One call of [spawn_agent_with_parent]: the ids drawn, the time, and the
    answers of the calls that can fail. *)
Record SpawnCall : Type := mkSpawnCall {
  s_id : AgentId;
  s_session : SessionId;
  s_event : EventId;
  s_manifest : manifest_t;
  s_parent : option AgentId;
  s_now : Z;
  s_now_text : str;
  session_created : result unit str;
  workspace_made : result unit str;
  agent_saved : result unit str
}.

Definition finish_spawn (k : Kernel) (c : SpawnCall)
    (e : AgentEntry (AgentId := AgentId) (SessionId := SessionId) (Json := Json)) : Kernel :=
  let name := m_name (s_manifest c) in
  mkKernel (registry k) (scheduler k) (caps k)
    (evaluate_spawned
       (proactive_triggers (s_id c) name (manifest e) (s_now c) (trigger_engine k))
       (spawned_event (s_event c) (s_id c) name (s_now c)))
    (record sha256_hex (audit_log k) (s_now_text c) (show_agent (s_id c)) AgentSpawn
       (lit "name=" ++ name ++ lit ", parent=" ++ show_parent (s_parent c)) (lit "ok")).1
    (background k) (event_bus k).

Definition spawn_agent (cfg : KernelConfig) (k : Kernel) (c : SpawnCall) : Kernel * result AgentId KernelError :=
  match session_created c, workspace_made c with
  | Err e, _ => (k, Err (MemoryError e))
  | Ok _, Err e => (k, Err (WorkspaceError e))
  | Ok _, Ok _ =>
      let m := prepare cfg (s_id c) (s_manifest c) in
      let cs := grant (caps k) (s_id c) (manifest_to_capabilities m) in
      let sch := AgentQuota.register (scheduler k) (s_id c) (resources m) (s_now c) in
      let e := new_entry (s_id c) (s_session c) m (s_parent c) (s_now c) in
      let '(r, res) := AgentRegistry.register (registry k) e in
      match res with
      | Err err => (mkKernel r sch cs (trigger_engine k) (audit_log k) (background k) (event_bus k),
                    Err (RegistryFailed err))
      | Ok _ =>
          let r := match s_parent c with Some p => add_child r p (s_id c) | None => r end in
          let k := mkKernel r sch cs (trigger_engine k) (audit_log k) (background k) (event_bus k) in
          match agent_saved c with
          | Err e => (k, Err (MemoryError e))
          | Ok _ => (finish_spawn k c e, Ok (s_id c))
          end
      end
  end.

Definition kill_agent (k : Kernel) (i : AgentId) (now_text : str) : Kernel * result unit KernelError :=
  let '(r, removed) := AgentRegistry.remove show_agent (registry k) i in
  match removed with
  | Err e => (k, Err (RegistryFailed e))
  | Ok e =>
      (mkKernel r (unregister (scheduler k) i) (revoke_all (caps k) i)
         (remove_agent_triggers (trigger_engine k) i)
         (record sha256_hex (audit_log k) now_text (show_agent i) AgentKill (lit "name=" ++ name e)
            (lit "ok")).1
         (stop_agent (background k) i) (unsubscribe_agent (event_bus k) i), Ok tt)
  end.

(** ** Tools of an agent *)

Context {Value : Type}.
Abbreviation tool := (ToolDefinition (Value := Value)).

Definition is_tool_all (c : Capability) : bool := match c with ToolAll => true | _ => false end.

Definition invokes (t : tool) (c : Capability) : bool :=
  match c with
  | Capability.ToolInvoke n => str_eqb n (tool_name t) || str_eqb n (lit "*")
  | _ => false
  end.

(** The built-in tools by profile. *)
Definition builtins_for (p : option ToolProfile) (builtins : list tool) : list tool :=
  match p with
  | Some p =>
      if bool_decide (p ≠ FullProfile) && bool_decide (p ≠ Custom)
      then List.filter (λ t, existsb (λ a, str_eqb a (lit "*") || str_eqb a (tool_name t)) (profile_tools p))
             builtins
      else builtins
  | None => builtins
  end.

(** The tools of connected MCP servers by allowlist. *)
Definition mcp_allowed (allowlist : list str) (t : tool) : bool :=
  match extract_mcp_server (tool_name t) with
  | Some s => existsb (str_eqb s) (normalize_name <$> allowlist)
  | None => false
  end.

Definition mcp_for (allowlist : list str) (mcp_tools : list tool) : list tool :=
  match allowlist with [] => mcp_tools | _ :: _ => List.filter (mcp_allowed allowlist) mcp_tools end.

(** [skill_tools] stands for the skill registry: the tools of all skills, for an
    empty allowlist, or of those listed. *)
Definition offered_tools (builtins mcp_tools : list tool) (skill_tools : list str → list tool)
    (e : option (AgentEntry (AgentId := AgentId) (SessionId := SessionId) (Json := Json))) : list tool :=
  builtins_for (e ≫= λ e, profile (manifest e)) builtins
  ++ skill_tools (from_option (λ e, skills (manifest e)) [] e)
  ++ mcp_for (from_option (λ e, mcp_servers (manifest e)) [] e) mcp_tools.

Definition available_tools (builtins mcp_tools : list tool) (skill_tools : list str → list tool)
    (k : Kernel) (i : AgentId) : list tool :=
  let all_tools := offered_tools builtins mcp_tools skill_tools (AgentRegistry.get (registry k) i) in
  let cs := list_capabilities (caps k) i in
  if existsb is_tool_all cs then all_tools
  else List.filter (λ t, existsb (invokes t) cs) all_tools.

(** The tools of a message: those available, by the mode of the agent. *)
Definition tools_of_message (builtins mcp_tools : list tool) (skill_tools : list str → list tool)
    (k : Kernel) (e : AgentEntry (AgentId := AgentId) (SessionId := SessionId) (Json := Json)) : list tool :=
  filter_tools (agent_mode e) (available_tools builtins mcp_tools skill_tools k (id e)).

(** ** Reachable kernels *)

Context (new_trigger_id_fresh : ∀ e, triggers e !! new_trigger_id e = None).
Context (trigger_order_perm : ∀ ts, trigger_order ts ≡ₚ map_to_list ts).

Inductive kernel_reachable (cfg : KernelConfig) : Kernel → Prop :=
| kernel_new : kernel_reachable cfg new_kernel
| kernel_spawn k c :
    kernel_reachable cfg k → agents (registry k) !! s_id c = None →
    kernel_reachable cfg (spawn_agent cfg k c).1
| kernel_kill k i now_text :
    kernel_reachable cfg k → kernel_reachable cfg (kill_agent k i now_text).1.

(** Every registered agent has the capabilities, the quota and the tracker its
    manifest asks for. *)
Definition equipped (k : Kernel) : Prop :=
  ∀ i e, agents (registry k) !! i = Some e →
    grants (caps k) !! i = Some (manifest_to_capabilities (manifest e))
    ∧ quotas (scheduler k) !! i = Some (resources (manifest e))
    ∧ is_Some (usage (scheduler k) !! i).

Record kernel_ok (k : Kernel) : Prop := {
  ok_registry : reg_inv (registry k);
  ok_triggers : Triggers.inv (trigger_engine k);
  ok_equipped : equipped k
}.

Lemma register_condition_inv i n now e condition :
  Triggers.inv e → Triggers.inv (register_condition i n now e condition).
Proof.
  intros He. unfold register_condition. destruct (parse_condition condition); [|done].
  apply (inv_register show_agent); [done|apply new_trigger_id_fresh|]. unfold in_u64, u64_max. lia.
Qed.

Lemma proactive_inv i n m now e : Triggers.inv e → Triggers.inv (proactive_triggers i n m now e).
Proof.
  intros He. unfold proactive_triggers. destruct (schedule m) as [| |conditions|]; try done.
  revert e He. induction conditions as [|c cs IH]; intros e He; [done|]. simpl.
  by apply IH, register_condition_inv.
Qed.
Lemma evaluate_spawned_inv e ev : Triggers.inv e → Triggers.inv (evaluate_spawned e ev).
Proof.
  intros He. unfold evaluate_spawned.
  destruct (evaluate show_agent debug_network debug_system fmt_f32_1 fmt_f64_4 trigger_order e ev)
    as [[e' ms]|] eqn:E; [|done].
  by eapply inv_evaluate.
Qed.

(** Registering an entry adds it and nothing else. *)
Lemma register_agents (r : Registry (AgentId := AgentId) (SessionId := SessionId) (Json := Json)) e :
  (AgentRegistry.register r e).2 = Ok tt →
  agents (AgentRegistry.register r e).1 = <[ id e := e ]> (agents r).
Proof. unfold AgentRegistry.register. case_bool_decide; done. Qed.

Lemma add_child_manifest (r : Registry (AgentId := AgentId) (SessionId := SessionId) (Json := Json)) p c i e :
  agents (add_child r p c) !! i = Some e →
  ∃ e0, agents r !! i = Some e0 ∧ manifest e = manifest e0.
Proof.
  simpl. destruct (decide (i = p)) as [->|].
  - rewrite lookup_alter_eq. intros (e0 & E & ->)%fmap_Some. eauto.
  - rewrite lookup_alter_ne by done. eauto.
Qed.

(** The components of an agent that is being spawned. *)
Lemma spawn_equips k i m now r' :
  equipped k →
  (∀ j e, agents r' !! j = Some e →
     (j ≠ i ∧ ∃ e0, agents (registry k) !! j = Some e0 ∧ manifest e = manifest e0)
     ∨ (j = i ∧ manifest e = m)) →
  ∀ te al bg eb,
  equipped (mkKernel r' (AgentQuota.register (scheduler k) i (resources m) now)
              (grant (caps k) i (manifest_to_capabilities m)) te al bg eb).
Proof.
  intros Heq Hr te al bg eb j e Hj. simpl in *.
  destruct (Hr j e Hj) as [(Hne & e0 & He0 & Hm)|[-> ->]].
  - rewrite !lookup_insert_ne by done. rewrite Hm. by apply Heq.
  - rewrite !lookup_insert_eq. eauto.
Qed.

Lemma spawn_ok cfg k c :
  kernel_ok k → agents (registry k) !! s_id c = None → kernel_ok (spawn_agent cfg k c).1.
Proof.
  intros [Hreg Htrig Heq] Hfresh. unfold spawn_agent.
  destruct (session_created c) as [[]|]; [|by split]. destruct (workspace_made c) as [[]|]; [|by split].
  set (m := prepare cfg (s_id c) (s_manifest c)).
  set (e := new_entry (s_id c) (s_session c) m (s_parent c) (s_now c)).
  pose proof (AgentRegistry.register_inv show_agent (registry k) e Hreg Hfresh) as Hinv.
  pose proof (register_agents (registry k) e) as Hag.
  assert ((AgentRegistry.register (registry k) e).2 ≠ Ok tt →
          (AgentRegistry.register (registry k) e).1 = registry k) as Hsame
    by (unfold AgentRegistry.register; case_bool_decide; naive_solver).
  destruct (AgentRegistry.register (registry k) e) as [r [[]|err]]; simpl in *.
  2: { split; simpl; [done|done|]. rewrite Hsame by done. apply (spawn_equips k (s_id c) m); [done|].
       intros j e' Hj. left. split; [congruence|eauto]. }
  set (r' := match s_parent c with Some p => add_child r p (s_id c) | None => r end).
  assert (reg_inv r') as Hr' by (subst r'; destruct (s_parent c); [by apply (add_child_inv show_agent)|done]).
  assert (∀ te al bg eb, equipped (mkKernel r' (AgentQuota.register (scheduler k) (s_id c) (resources m) (s_now c))
              (grant (caps k) (s_id c) (manifest_to_capabilities m)) te al bg eb)) as Hequ.
  { apply (spawn_equips k (s_id c) m); [done|]. intros j e' Hj.
    assert (∃ e0, agents r !! j = Some e0 ∧ manifest e' = manifest e0) as (e0 & He0 & Hm).
    { subst r'. destruct (s_parent c); [by eapply add_child_manifest|eauto]. }
    rewrite Hag in He0 by done. destruct (decide (j = s_id c)) as [->|Hne].
    - right. rewrite lookup_insert_eq in He0. simplify_eq. by rewrite Hm.
    - left. rewrite lookup_insert_ne in He0 by done. eauto. }
  destruct (agent_saved c) as [[]|]; split; simpl; try done; [|apply Hequ..].
  by apply evaluate_spawned_inv, proactive_inv.
Qed.

Lemma kill_ok k i now_text : kernel_ok k → kernel_ok (kill_agent k i now_text).1.
Proof.
  intros [Hreg Htrig Heq]. unfold kill_agent. pose proof (remove_inv show_agent (registry k) i Hreg) as Hinv.
  unfold AgentRegistry.remove in *. destruct (agents (registry k) !! i) as [e|] eqn:E; simpl in *; [|by split].
  split; simpl; [done|by apply (Triggers.inv_remove_agent show_agent)|].
  intros j e' Hj. cbn [registry agents caps scheduler] in *. apply lookup_delete_Some in Hj as [Hne Hj].
  simpl. rewrite !lookup_delete_ne by done. by apply Heq.
Qed.

Lemma new_engine_inv : Triggers.inv (new_engine (AgentId := AgentId) (TriggerId := TriggerId)).
Proof.
  split; [apply map_Forall_empty| |intros; constructor].
  intros a tid. unfold index, new_engine. simpl. rewrite lookup_empty. simpl.
  split; [by intros ?%elem_of_nil|]. intros (t & Ht & _). by rewrite lookup_empty in Ht.
Qed.

Lemma kernel_reachable_ok cfg k : kernel_reachable cfg k → kernel_ok k.
Proof.
  induction 1; [|by apply spawn_ok|by apply kill_ok].
  split; simpl; [apply (new_inv show_agent)|apply new_engine_inv|]. intros i e. simpl. by rewrite lookup_empty.
Qed.

(** ** Ending an agent *)

#[local] Instance registry_component_here :
    AgentComponent AgentId (Registry (AgentId := AgentId) (SessionId := SessionId) (Json := Json)) :=
  registry_component show_agent.

(** The agent is known to some component. *)
Definition kernel_knows (k : Kernel) (i : AgentId) : Prop :=
  knows (registry k) i ∨ knows (scheduler k) i ∨ knows (caps k) i ∨ knows (trigger_engine k) i
  ∨ knows (background k) i ∨ knows (event_bus k) i.

(** What the components have about [j] is the same. *)
Definition same_about (k k' : Kernel) (j : AgentId) : Prop :=
  about (registry k') j = about (registry k) j ∧ about (scheduler k') j = about (scheduler k) j
  ∧ about (caps k') j = about (caps k) j ∧ about (trigger_engine k') j = about (trigger_engine k) j
  ∧ about (background k') j = about (background k) j ∧ about (event_bus k') j = about (event_bus k) j.

Lemma kill_components k i now_text e :
  agents (registry k) !! i = Some e →
  let k' := (kill_agent k i now_text).1 in
  registry k' = forget (registry k) i ∧ scheduler k' = forget (scheduler k) i
  ∧ caps k' = forget (caps k) i ∧ trigger_engine k' = forget (trigger_engine k) i
  ∧ background k' = forget (background k) i ∧ event_bus k' = forget (event_bus k) i.
Proof.
  intros E k'. subst k'. unfold kill_agent. simpl. unfold AgentRegistry.remove. rewrite E. done.
Qed.
(** In every kernel that spawning and killing reach, a registered agent is
    found under its name and holds exactly the capabilities and the quota of
    its manifest, with a usage tracker. *)
Theorem kernel_agents_equipped cfg k i e :
  kernel_reachable cfg k → agents (registry k) !! i = Some e →
  find_by_name (registry k) (name e) = Some e
  ∧ list_capabilities (caps k) i = manifest_to_capabilities (manifest e)
  ∧ quotas (scheduler k) !! i = Some (resources (manifest e))
  ∧ is_Some (usage (scheduler k) !! i).
Proof.
  intros [Hreg _ Heq]%kernel_reachable_ok Hi. destruct (Heq i e Hi) as (Hc & Hq & Hu).
  split_and!; [|by unfold list_capabilities; rewrite Hc|done|done].
  unfold find_by_name. rewrite (proj2 (inv_name _ Hreg (name e) i)) by eauto. done.
Qed.


Lemma prepare_name cfg i m : m_name (prepare cfg i m) = m_name m.
Proof.
  unfold prepare, overlay_model, m_on_model. destruct m. simpl.
  by destruct (api_key_env m_model), (base_url m_model).
Qed.

(** A spawn that fails because the name is taken leaves the capabilities
    and the quota of the new id behind, although no agent has it; killing the
    id fails, so that nothing removes them. *)
Theorem failed_spawn_leaks cfg k c now_text :
  session_created c = Ok tt → workspace_made c = Ok tt →
  is_Some (name_index (registry k) !! m_name (s_manifest c)) →
  agents (registry k) !! s_id c = None →
  let '(k', res) := spawn_agent cfg k c in
  res = Err (RegistryFailed (AgentAlreadyExists (m_name (s_manifest c))))
  ∧ agents (registry k') !! s_id c = None
  ∧ knows (caps k') (s_id c) ∧ knows (scheduler k') (s_id c)
  ∧ kill_agent k' (s_id c) now_text = (k', Err (RegistryFailed (AgentNotFound (show_agent (s_id c))))).
Proof.
  intros Hs Hw Hn Hi. unfold spawn_agent. rewrite Hs, Hw. unfold AgentRegistry.register.
  cbn [name new_entry id]. rewrite prepare_name. rewrite bool_decide_eq_true_2 by done.
  split_and!; [done|done| | |].
  - simpl. rewrite lookup_insert_eq. eauto.
  - simpl. left. rewrite lookup_insert_eq. eauto.
  - unfold kill_agent, AgentRegistry.remove. cbn [registry]. by rewrite Hi.
Qed.

(** ** The tools an agent gets *)

Lemma existsb_fmap_none {A B} (p : B → bool) (f : A → B) l :
  (∀ x, p (f x) = false) → existsb p (f <$> l) = false.
Proof. intros Hf. induction l as [|x l IH]; [done|]. rewrite fmap_cons. cbn [existsb]. by rewrite Hf, IH. Qed.

Lemma invoke_in_caps (t : tool) (m : manifest_t) :
  existsb (invokes t) (manifest_to_capabilities m) = true ↔
  tool_name t ∈ tools (effective_caps m) ∨ lit "*" ∈ tools (effective_caps m).
Proof.
  unfold manifest_to_capabilities. rewrite !existsb_app.
  pose proof (λ f, existsb_fmap_none (A := str) (invokes t) f) as Hno.
  rewrite (Hno NetConnect), (Hno MemoryRead), (Hno MemoryWrite), (Hno Capability.AgentMessage),
    (Hno Capability.ShellExec), (Hno OfpConnect) by done.
  assert (∀ b c, invokes t c = false → existsb (invokes t) (if b : bool then [c] else []) = false) as Hif
    by (intros [] c Hc; cbn [existsb]; [by rewrite Hc|done]).
  rewrite (Hif _ Capability.AgentSpawn), (Hif _ OfpDiscover) by done. rewrite !orb_false_r, !orb_false_l.
  induction (tools (effective_caps m)) as [|x l IH].
  - split; [done|set_solver].
  - rewrite fmap_cons. cbn [existsb]. rewrite orb_true_iff, IH. unfold invokes.
    rewrite orb_true_iff, !str_eqb_spec. set_solver.
Qed.

Lemma no_tool_all (m : manifest_t) : existsb is_tool_all (manifest_to_capabilities m) = false.
Proof.
  pose proof (λ f, existsb_fmap_none (A := str) is_tool_all f) as Hno.
  unfold manifest_to_capabilities. rewrite !existsb_app, !Hno by done.
  by destruct (agent_spawn _), (ofp_discover _).
Qed.

Lemma tools_of_ok k builtins mcp_tools skill_tools i :
  kernel_ok k →
  (∀ e (t : tool), agents (registry k) !! i = Some e →
     t ∈ tools_of_message builtins mcp_tools skill_tools k e ↔
     t ∈ offered_tools builtins mcp_tools skill_tools (Some e)
     ∧ (tool_name t ∈ tools (effective_caps (manifest e)) ∨ lit "*" ∈ tools (effective_caps (manifest e)))
     ∧ match agent_mode e with
       | Observe => False
       | Assist => tool_name t ∈ read_only_tools
       | FullMode => True
       end)
  ∧ (grants (caps k) !! i = None → available_tools builtins mcp_tools skill_tools k i = []).
Proof.
  intros [Hreg _ Heq]. split.
  - intros e t Hi. destruct (Heq i e Hi) as (Hc & _).
    assert (t ∈ available_tools builtins mcp_tools skill_tools k i ↔
      t ∈ offered_tools builtins mcp_tools skill_tools (Some e)
      ∧ (tool_name t ∈ tools (effective_caps (manifest e)) ∨ lit "*" ∈ tools (effective_caps (manifest e)))) as Ha.
    { unfold available_tools, list_capabilities, AgentRegistry.get. rewrite Hc, Hi.
      cbn [from_option Datatypes.id]. rewrite no_tool_all.
      rewrite list_elem_of_In, List.filter_In, invoke_in_caps, <-list_elem_of_In. done. }
    unfold tools_of_message. rewrite (inv_id _ Hreg i e Hi). unfold filter_tools.
    destruct (agent_mode e).
    + rewrite elem_of_nil. tauto.
    + rewrite list_elem_of_filter, Ha. tauto.
    + rewrite Ha. tauto.
  - intros Hg. unfold available_tools, list_capabilities. rewrite Hg. simpl.
    induction (offered_tools _ _ _ _) as [|t l IH]; [done|]. simpl. done.
Qed.

(** The tools of a message to a spawned agent: those that the built-in
    tools by profile, the allowed skills and the allowed MCP servers offer,
    that its manifest or profile lists by name or by a star, and that its
    mode permits. An id without an agent and without grants has none. *)
Theorem agent_tools_exact cfg k builtins mcp_tools skill_tools i :
  kernel_reachable cfg k →
  (∀ e (t : tool), agents (registry k) !! i = Some e →
     t ∈ tools_of_message builtins mcp_tools skill_tools k e ↔
     t ∈ offered_tools builtins mcp_tools skill_tools (Some e)
     ∧ (tool_name t ∈ tools (effective_caps (manifest e)) ∨ lit "*" ∈ tools (effective_caps (manifest e)))
     ∧ match agent_mode e with
       | Observe => False
       | Assist => tool_name t ∈ read_only_tools
       | FullMode => True
       end)
  ∧ (grants (caps k) !! i = None → available_tools builtins mcp_tools skill_tools k i = []).
Proof. intros Hk. apply tools_of_ok. by eapply kernel_reachable_ok. Qed.
End Kernel.

(** ** MCP allowlists *)

Lemma find_app_sep a b c : c ∉ a → find (a ++ c :: b) [c] = Some (length a).
Proof.
  intros Ha. destruct (find_leftmost (a ++ c :: b) [c] a b eq_refl) as (n & Hn & Hle). rewrite Hn. f_equal.
  destruct (find_Some _ _ _ Hn) as (x & y & E & Hx). subst n.
  destruct (decide (length x = length a)) as [|Hne]; [done|]. exfalso. apply Ha.
  assert ((a ++ c :: b) !! length x = Some c) as Hl
    by (rewrite E, lookup_app_r, Nat.sub_diag by lia; done).
  rewrite lookup_app_l in Hl by lia. by apply list_elem_of_lookup_2 in Hl.
Qed.

(** Of the tool names of an MCP server, the allowlist sees the server name
    only up to its first underscore, which is also what a hyphen becomes. So a
    server with such a name is not found under its own name, and its tools
    are admitted by the name of another one. *)
Theorem mcp_server_cut `{UnicodeCase} server tool a b :
  "_"%char ∉ a → normalize_name server = a ++ "_"%char :: b →
  extract_mcp_server (format_mcp_tool_name server tool) = Some a ∧ a ≠ normalize_name server.
Proof.
  intros Ha Hn. split.
  - unfold extract_mcp_server, format_mcp_tool_name. rewrite Hn.
    replace (starts_with (lit "mcp_" ++ (a ++ "_"%char :: b) ++ lit "_" ++ normalize_name tool) (lit "mcp_"))
      with true by (symmetry; apply starts_with_spec; eauto). cbn [negb].
    change (drop 4 (lit "mcp_" ++ (a ++ "_"%char :: b) ++ lit "_" ++ normalize_name tool))
      with ((a ++ "_"%char :: b) ++ lit "_" ++ normalize_name tool).
    rewrite <-app_assoc, <-app_comm_cons.
    change (lit "_") with ["_"%char] at 1. rewrite find_app_sep by done.
    simpl. by rewrite take_app_length.
  - rewrite Hn. intros E. apply (f_equal length) in E. rewrite length_app in E. simpl in E. lia.
Qed.

Lemma mcp_server_cut_witness :
  mcp_allowed (Value := unit) [lit "my-server"]
    (mkTool (format_mcp_tool_name (lit "my-server") (lit "run")) [] tt) = false
  ∧ mcp_allowed (Value := unit) [lit "my"]
    (mkTool (format_mcp_tool_name (lit "my-server") (lit "run")) [] tt) = true.
Proof.
  destruct (mcp_server_cut (lit "my-server") (lit "run") (lit "my") (lit "server")) as [E _];
    [vm_compute; set_solver|vm_compute; reflexivity|].
  unfold mcp_allowed. cbn [tool_name]. rewrite E. split; vm_compute; reflexivity.
Defined.

(** ** A kernel with numbers for ids *)

Definition demo_cfg : KernelConfig := mkKernelConfig default_policy (mkDefaultModel [] [] [] None) (lit "/ws").

Abbreviation demo_trigger_engine := (TriggerEngine (AgentId := nat) (TriggerId := nat)).

Definition demo_trigger_id (e : demo_trigger_engine) : nat := base.fresh (dom (triggers e) : gset nat).

Lemma demo_trigger_id_fresh (e : demo_trigger_engine) : triggers e !! demo_trigger_id e = None.
Proof. apply (not_elem_of_dom (D := gset nat)). unfold demo_trigger_id. apply is_fresh. Qed.

Abbreviation demo_kernel := (Kernel (AgentId := nat) (SessionId := nat) (TriggerId := nat)
  (EventId := nat) (LoopId := nat) (Json := nat)).

Definition demo_spawn : KernelConfig → demo_kernel → SpawnCall → demo_kernel * result nat KernelError :=
  spawn_agent show_nat (λ _, []) (λ _, []) (λ _, []) (λ _, []) (λ _, []) map_to_list (λ x, x) demo_trigger_id.

Definition demo_kill : demo_kernel → nat → str → demo_kernel * result unit KernelError :=
  kill_agent show_nat (λ x, x).

Definition demo_reach : KernelConfig → demo_kernel → Prop :=
  kernel_reachable show_nat (λ _, []) (λ _, []) (λ _, []) (λ _, []) (λ _, []) map_to_list (λ x, x) demo_trigger_id.

Definition demo_manifest (n : str) (s : ScheduleMode) : AgentManifest (Json := nat) :=
  mkManifest n [] [] [] (lit "builtin:chat") s (default_model (SpecFloat.S754_zero false)) [] default_quota
    NormalPriority default_caps (Some Minimal) ∅ [] [] ∅ [lit "core"] None None None None false None.

Definition demo_call (i : nat) (n : str) : SpawnCall (AgentId := nat) (SessionId := nat) (EventId := nat) (Json := nat) :=
  mkSpawnCall i 100 200 (demo_manifest n (Proactive [lit "all"])) None 0 (lit "t0") (Ok tt) (Ok tt) (Ok tt).

Definition demo_k1 : demo_kernel := (demo_spawn demo_cfg new_kernel (demo_call 1 (lit "scout"))).1.

Lemma demo_k1_reachable : demo_reach demo_cfg demo_k1.
Proof. apply kernel_spawn; [apply kernel_new|reflexivity]. Qed.

Lemma kernel_agents_equipped_witness :
  list_capabilities (caps demo_k1) 1
  = [Capability.ToolInvoke (lit "file_read"); Capability.ToolInvoke (lit "file_list");
     MemoryRead (lit "self.*"); MemoryWrite (lit "self.*")].
Proof.
  destruct (kernel_agents_equipped show_nat (λ _, []) (λ _, []) (λ _, []) (λ _, []) (λ _, []) map_to_list
    (λ x, x) demo_trigger_id demo_trigger_id_fresh (λ ts, reflexivity _) demo_cfg demo_k1 1
    (new_entry 1 100 (prepare show_nat demo_cfg 1 (demo_manifest (lit "scout") (Proactive [lit "all"]))) None 0)
    demo_k1_reachable eq_refl) as (_ & -> & _).
  vm_compute. reflexivity.
Defined.

(** A scout and its helper; the helper is killed. *)
Definition demo_helper : SpawnCall (AgentId := nat) (SessionId := nat) (EventId := nat) (Json := nat) :=
  mkSpawnCall 2 101 201 (demo_manifest (lit "helper") Reactive) (Some 1) 1 (lit "t1") (Ok tt) (Ok tt) (Ok tt).

Definition demo_k2 : demo_kernel := (demo_spawn demo_cfg demo_k1 demo_helper).1.

Lemma demo_k2_reachable : demo_reach demo_cfg demo_k2.
Proof. apply kernel_spawn; [apply demo_k1_reachable|reflexivity]. Qed.


Lemma failed_spawn_leaks_witness :
  (demo_spawn demo_cfg demo_k1 (demo_call 2 (lit "scout"))).2
  = Err (RegistryFailed (AgentAlreadyExists (lit "scout")))
  ∧ is_Some (grants (caps (demo_spawn demo_cfg demo_k1 (demo_call 2 (lit "scout"))).1) !! 2).
Proof.
  pose proof (failed_spawn_leaks show_nat (λ _, []) (λ _, []) (λ _, []) (λ _, []) (λ _, []) map_to_list
    (λ x, x) demo_trigger_id demo_cfg demo_k1 (demo_call 2 (lit "scout")) (lit "t1")
    eq_refl eq_refl ltac:(eexists; reflexivity) eq_refl) as H. revert H.
  change (spawn_agent show_nat (λ _, []) (λ _, []) (λ _, []) (λ _, []) (λ _, []) map_to_list (λ x, x)
    demo_trigger_id demo_cfg demo_k1 (demo_call 2 (lit "scout")))
    with (demo_spawn demo_cfg demo_k1 (demo_call 2 (lit "scout"))).
  destruct (demo_spawn demo_cfg demo_k1 (demo_call 2 (lit "scout"))) as [k' res].
  intros (-> & _ & Hc & _). done.
Defined.

Definition demo_tool (n : str) : ToolDefinition (Value := unit) := mkTool n [] tt.

Definition demo_scout : AgentEntry (AgentId := nat) (SessionId := nat) (Json := nat) :=
  new_entry 1 100 (prepare show_nat demo_cfg 1 (demo_manifest (lit "scout") (Proactive [lit "all"]))) None 0.

Lemma agent_tools_exact_witness :
  demo_tool (lit "file_read") ∈
    tools_of_message [demo_tool (lit "file_read"); demo_tool (lit "shell_exec")] [] (λ _, []) demo_k1 demo_scout.
Proof.
  apply (proj1 (agent_tools_exact show_nat (λ _, []) (λ _, []) (λ _, []) (λ _, []) (λ _, []) map_to_list
    (λ x, x) demo_trigger_id demo_trigger_id_fresh (λ ts, reflexivity _) demo_cfg demo_k1
    [demo_tool (lit "file_read"); demo_tool (lit "shell_exec")] [] (λ _, []) 1 demo_k1_reachable)
    demo_scout (demo_tool (lit "file_read")) eq_refl).
  split_and!; [|left; apply (bool_decide_unpack _); vm_compute; exact I|exact I].
  apply elem_of_app. left. vm_compute. constructor.
Defined.

(** A trigger that may fire once, waiting for new agents. *)
Definition demo_watch : demo_trigger_engine :=
  (Triggers.register new_engine 7 (AgentSpawned (lit "*")) (lit "hello") 1 50 0).1.

Definition demo_k0 : demo_kernel :=
  mkKernel new_registry new_scheduler new_manager demo_watch new new_executor new_bus.

(** The spawn uses up its only firing, and nobody gets the prompt. *)
Example spawn_consumes_fires :
  fire_count <$> (triggers (trigger_engine (demo_spawn demo_cfg demo_k0 (demo_call 1 (lit "scout"))).1) !! 50)
  = Some 1%Z.
Proof. vm_compute. reflexivity. Qed.
