(* ===== verification/Supervision.v ===== *)
(** * Heartbeats and restarts

    [openfang-kernel/src/heartbeat.rs] with the monitor of [kernel.rs], and
    [openfang-kernel/src/supervisor.rs]. Times are nanoseconds; the hour and
    minute of the clock, in UTC, are passed as minutes of the day. *)

From Stdlib Require Import Ascii ZArith Lia.
From stdpp Require Import base gmap strings list.
From S2P Require Import Prelude Strs TextLines AgentTypes AgentRegistry Event AgentLifecycle.

Definition DEFAULT_CHECK_INTERVAL_SECS : Z := 30.
Definition UNRESPONSIVE_MULTIPLIER : Z := 2.

Record HeartbeatConfig : Type := mkHeartbeatConfig {
  check_interval_secs : Z;
  default_timeout_secs : Z
}.

Definition default_heartbeat : HeartbeatConfig :=
  mkHeartbeatConfig DEFAULT_CHECK_INTERVAL_SECS (DEFAULT_CHECK_INTERVAL_SECS * UNRESPONSIVE_MULTIPLIER).

(** ** Quiet hours *)

Definition parse_time (s : str) : option Z :=
  match split (trim s) ":"%char with
  | [hs; ms] =>
      h ← parse_unsigned u32_max hs;
      m ← parse_unsigned u32_max ms;
      if (23 <? h)%Z || (59 <? m)%Z then None else Some (h * 60 + m)%Z
  | _ => None
  end.

Definition is_quiet_hours (quiet_hours : str) (current_minutes : Z) : bool :=
  match split quiet_hours "-"%char with
  | [s; e] =>
      match parse_time s with
      | None => false
      | Some start =>
          match parse_time e with
          | None => false
          | Some end_ =>
              if (start <=? end_)%Z then (start <=? current_minutes)%Z && (current_minutes <? end_)%Z
              else (start <=? current_minutes)%Z || (current_minutes <? end_)%Z
          end
      end
  | _ => false
  end.

Definition two_digits (n : Z) : str :=
  [ascii_of_nat (48 + Z.to_nat (n / 10)); ascii_of_nat (48 + Z.to_nat (n mod 10))].

(** [HH:MM] *)
Definition show_time (h m : Z) : str := two_digits h ++ lit ":" ++ two_digits m.

Definition times_ok : bool :=
  forallb (λ h, forallb (λ m,
    bool_decide (parse_time (show_time (Z.of_nat h) (Z.of_nat m)) = Some (Z.of_nat h * 60 + Z.of_nat m)%Z)
    && negb (existsb (λ c, bool_decide (c = "-"%char)) (show_time (Z.of_nat h) (Z.of_nat m))))
    (seq 0 60)) (seq 0 24).

Lemma times_checked : times_ok = true.
Proof. vm_compute. reflexivity. Qed.

Lemma parse_show_time h m :
  (0 ≤ h < 24)%Z → (0 ≤ m < 60)%Z →
  parse_time (show_time h m) = Some (h * 60 + m)%Z ∧ "-"%char ∉ show_time h m.
Proof.
  intros Hh Hm. pose proof times_checked as Ht. unfold times_ok in Ht.
  rewrite forallb_forall in Ht. specialize (Ht (Z.to_nat h)). rewrite forallb_forall in Ht.
  specialize (Ht ltac:(apply in_seq; lia) (Z.to_nat m) ltac:(apply in_seq; lia)).
  rewrite !Z2Nat.id in Ht by lia. apply andb_true_iff in Ht as [Ht Hd].
  apply bool_decide_eq_true in Ht. split; [done|].
  intros Hin. apply negb_true_iff in Hd. rewrite <-not_true_iff_false in Hd. apply Hd.
  apply existsb_exists. exists "-"%char. split; [by apply list_elem_of_In|by apply bool_decide_eq_true].
Qed.

(** Quiet hours are the minutes from the start to the end, going round
    midnight where the end comes first: a minute is quiet exactly if fewer
    minutes have passed since the start than the period has. *)
Theorem quiet_hours_cyclic h1 m1 h2 m2 current :
  (0 ≤ h1 < 24)%Z → (0 ≤ m1 < 60)%Z → (0 ≤ h2 < 24)%Z → (0 ≤ m2 < 60)%Z → (0 ≤ current < 1440)%Z →
  let start := (h1 * 60 + m1)%Z in
  is_quiet_hours (show_time h1 m1 ++ lit "-" ++ show_time h2 m2) current =
  bool_decide ((current - start) mod 1440 < (h2 * 60 + m2 - start) mod 1440)%Z.
Proof.
  intros Hh1 Hm1 Hh2 Hm2 Hc start. unfold is_quiet_hours.
  destruct (parse_show_time h1 m1 Hh1 Hm1) as [E1 D1]. destruct (parse_show_time h2 m2 Hh2 Hm2) as [E2 D2].
  change (lit "-" ++ show_time h2 m2) with ("-"%char :: show_time h2 m2).
  rewrite split_app_sep, split_no_sep_id, E1, E2 by done. fold start. set (e := (h2 * 60 + m2)%Z).
  assert (0 ≤ start < 1440)%Z by (unfold start; lia). assert (0 ≤ e < 1440)%Z by (unfold e; lia).
  clearbody start e. symmetry.
  assert (∀ x, -1440 < x < 1440 → x mod 1440 = if x <? 0 then x + 1440 else x)%Z as Hmod.
  { intros x Hx. destruct (Z.ltb_spec x 0).
    - rewrite <-(Z_mod_plus_full x 1 1440). apply Z.mod_small. lia.
    - apply Z.mod_small. lia. }
  rewrite !Hmod by lia.
  destruct (Z.leb_spec start e), (Z.leb_spec start current), (Z.ltb_spec current e),
    (Z.ltb_spec (current - start) 0), (Z.ltb_spec (e - start) 0); simpl;
    first [apply bool_decide_eq_true; lia | apply bool_decide_eq_false; lia].
Qed.

Lemma quiet_hours_cyclic_witness :
  is_quiet_hours (show_time 22 0 ++ lit "-" ++ show_time 6 0) 30 = true
  ∧ is_quiet_hours (show_time 22 0 ++ lit "-" ++ show_time 6 0) 720 = false.
Proof.
  split; rewrite (quiet_hours_cyclic 22 0 6 0) by lia; vm_compute; reflexivity.
Defined.

(** ** The check of the agents *)

Definition NS_PER_SEC : Z := 1000000000.

(** [x as i64] of a [u64]. *)
Definition u64_as_i64 (x : Z) : Z := if (x <? 9223372036854775808)%Z then x else (x - 18446744073709551616)%Z.

(** [interval * UNRESPONSIVE_MULTIPLIER], which wraps in a release build. *)
Definition doubled (interval : Z) : Z := ((interval * UNRESPONSIVE_MULTIPLIER) mod (u64_max + 1))%Z.

Section Heartbeat.
Context {AgentId SessionId EventId Json : Type} `{Countable AgentId}.

Abbreviation entry := (AgentEntry (AgentId := AgentId) (SessionId := SessionId) (Json := Json)).
Abbreviation registry := (Registry (AgentId := AgentId) (SessionId := SessionId) (Json := Json)).

Record HeartbeatStatus : Type := mkStatus {
  status_agent : AgentId;
  status_name : str;
  inactive_secs : Z;
  unresponsive : bool
}.

(** [num_seconds] rounds towards zero. *)
Definition inactive (e : entry) (now : Z) : Z := Z.quot (now - last_active e) NS_PER_SEC.

Definition timeout_of (config : HeartbeatConfig) (e : entry) : Z :=
  u64_as_i64 match autonomous (manifest e) with
             | Some a => doubled (heartbeat_interval_secs a)
             | None => default_timeout_secs config
             end.

Definition check_agent (config : HeartbeatConfig) (now : Z) (e : entry) : option HeartbeatStatus :=
  if bool_decide (state e = Running)
  then Some (mkStatus (id e) (name e) (inactive e now) (timeout_of config e <? inactive e now)%Z)
  else None.

Definition check_agents (r : registry) (config : HeartbeatConfig) (now : Z) : list HeartbeatStatus :=
  omap (check_agent config now) (list_agents r).

Record HeartbeatSummary : Type := mkSummary {
  total_checked : nat;
  responsive : nat;
  unresponsive_count : nat;
  unresponsive_agents : list HeartbeatStatus
}.

Definition summarize (statuses : list HeartbeatStatus) : HeartbeatSummary :=
  let bad := filter (λ s, unresponsive s = true) statuses in
  mkSummary (length statuses) (length statuses - length bad) (length bad) bad.

(** ** A round of the monitor *)

Definition in_quiet_hours (r : registry) (minutes : Z) (i : AgentId) : bool :=
  match get r i with
  | Some e =>
      match autonomous (manifest e) with
      | Some a => match quiet_hours a with Some qh => is_quiet_hours qh minutes | None => false end
      | None => false
      end
  | None => false
  end.

(** The agents a round reports, with the seconds they have been silent. *)
Definition failures (r : registry) (config : HeartbeatConfig) (now minutes : Z) : list (AgentId * Z) :=
  omap (λ s, if negb (in_quiet_hours r minutes (status_agent s)) && unresponsive s
             then Some (status_agent s, inactive_secs s) else None)
    (check_agents r config now).

Definition health_event (eid : EventId) (now : Z) (f : AgentId * Z)
    : Event (AgentId := AgentId) (EventId := EventId) (Json := Json) :=
  mkEvent eid f.1 TSystem (PSystem (HealthCheckFailed f.1 f.2)) now None None.

(** [new_id] draws the ids of the events. *)
Definition monitor_round (shutting_down : bool) (new_id : nat → EventId) (r : registry)
    (config : HeartbeatConfig) (now minutes : Z)
    (bus : EventBus (AgentId := AgentId) (EventId := EventId) (Json := Json)) : option EventBus :=
  if shutting_down then None
  else Some (foldl (λ b p, publish b (health_event (new_id p.1) now p.2)) bus
               (enumerate (failures r config now minutes))).

Lemma list_agents_elem (r : registry) e :
  e ∈ list_agents r ↔ ∃ i, agents r !! i = Some e.
Proof.
  unfold list_agents. rewrite list_elem_of_fmap. split.
  - intros ([i e'] & -> & Hin%elem_of_map_to_list). by exists i.
  - intros [i Hi]. exists (i, e). split; [done|by apply elem_of_map_to_list].
Qed.

Lemma timeout_exact config e :
  (0 ≤ default_timeout_secs config < 9223372036854775808)%Z →
  (∀ a, autonomous (manifest e) = Some a → 0 ≤ heartbeat_interval_secs a < 4611686018427387904)%Z →
  timeout_of config e =
  match autonomous (manifest e) with
  | Some a => (heartbeat_interval_secs a * 2)%Z
  | None => default_timeout_secs config
  end.
Proof.
  intros Hd Ha. unfold timeout_of, u64_as_i64, doubled, UNRESPONSIVE_MULTIPLIER, u64_max.
  destruct (autonomous (manifest e)) as [a|].
  - specialize (Ha a eq_refl). rewrite Z.mod_small by lia.
    destruct (Z.ltb_spec (heartbeat_interval_secs a * 2) 9223372036854775808); lia.
  - destruct (Z.ltb_spec (default_timeout_secs config) 9223372036854775808); lia.
Qed.

(** A round of the heartbeat monitor reports exactly the running agents
    outside their quiet hours that have been silent for more than twice their
    heartbeat interval, or the default time, with the seconds of silence. *)
Theorem heartbeat_reports_exact (r : registry) config now minutes i secs :
  reg_inv r →
  (0 ≤ default_timeout_secs config < 9223372036854775808)%Z →
  (∀ j e a, agents r !! j = Some e → autonomous (manifest e) = Some a →
     0 ≤ heartbeat_interval_secs a < 4611686018427387904)%Z →
  (i, secs) ∈ failures r config now minutes ↔
  ∃ e, agents r !! i = Some e ∧ state e = Running
    ∧ in_quiet_hours r minutes i = false
    ∧ secs = inactive e now
    ∧ (match autonomous (manifest e) with
       | Some a => heartbeat_interval_secs a * 2
       | None => default_timeout_secs config
       end < secs)%Z.
Proof.
  intros Hinv Hd Hi. unfold failures, check_agents. rewrite list_elem_of_omap. split.
  - intros (s & (e & (j & Hj)%list_agents_elem & Hs)%list_elem_of_omap & Hf).
    unfold check_agent in Hs. case_bool_decide as Hrun; [|done]. injection Hs as <-. cbn in Hf.
    rewrite (inv_id _ Hinv _ _ Hj) in Hf. destruct (in_quiet_hours r minutes j) eqn:Eq; [done|].
    destruct (Z.ltb_spec (timeout_of config e) (inactive e now)) as [Hlt|]; [|done].
    injection Hf as <- <-. exists e. rewrite timeout_exact in Hlt by eauto. done.
  - intros (e & Hj & Hrun & Eq & -> & Hlt). rewrite <-timeout_exact in Hlt by eauto.
    eexists. split.
    + apply list_elem_of_omap. exists e. split; [apply list_agents_elem; eauto|].
      unfold check_agent. by rewrite bool_decide_true.
    + cbn. rewrite (inv_id _ Hinv _ _ Hj), Eq. cbn. by rewrite (proj2 (Z.ltb_lt _ _) Hlt).
Qed.
End Heartbeat.

Definition demo_registry : Registry (AgentId := nat) (SessionId := nat) (Json := nat) :=
  (run show_nat new_registry demo_ops).1.

Lemma heartbeat_reports_exact_witness :
  (1, 61%Z) ∈ failures demo_registry default_heartbeat (5 + 61 * NS_PER_SEC) 0.
Proof.
  apply (heartbeat_reports_exact demo_registry default_heartbeat (5 + 61 * NS_PER_SEC) 0 1 61).
  - apply (run_refines show_nat new_registry demo_ops (new_inv show_nat) demo_fresh).
  - vm_compute. split; [discriminate|reflexivity].
  - intros j e a Hj. assert (demo_registry.(agents) = {[ 1 := renamed (lit "c") 5 (demo_entry 1 (lit "a")) ]}) as E
      by (vm_compute; reflexivity).
    rewrite E in Hj. apply lookup_singleton_Some in Hj as [_ <-]. discriminate.
  - exists (renamed (lit "c") 5 (demo_entry 1 (lit "a"))). split_and!; vm_compute; reflexivity.
Defined.

(** An interval of [2^63] seconds counts as none at all. *)
Example huge_interval_wraps : u64_as_i64 (doubled 9223372036854775808) = 0%Z.
Proof. reflexivity. Qed.

(** ** The supervisor *)

Section Supervisor.
Context {AgentId : Type} `{Countable AgentId}.

Record Supervisor : Type := mkSupervisor {
  shutdown_sent : bool;
  restart_count : Z;
  panic_count : Z;
  agent_restarts : gmap AgentId Z
}.

Record SupervisorHealth : Type := mkHealth {
  health_shutting_down : bool;
  health_panics : Z;
  health_restarts : Z
}.

Definition new_supervisor : Supervisor := mkSupervisor false 0 0 ∅.

Definition shutdown (s : Supervisor) : Supervisor :=
  mkSupervisor true (restart_count s) (panic_count s) (agent_restarts s).

Definition is_shutting_down (s : Supervisor) : bool := shutdown_sent s.

Definition record_panic (s : Supervisor) : Supervisor :=
  mkSupervisor (shutdown_sent s) (restart_count s) (wrapping_add_u64 (panic_count s) 1) (agent_restarts s).

Definition record_restart (s : Supervisor) : Supervisor :=
  mkSupervisor (shutdown_sent s) (wrapping_add_u64 (restart_count s) 1) (panic_count s) (agent_restarts s).

(** The count wraps in a release build. *)
Definition record_agent_restart (s : Supervisor) (a : AgentId) (max_restarts : Z) : Supervisor * result Z Z :=
  let count := wrapping_add_u32 (default 0%Z (agent_restarts s !! a)) 1 in
  let s := record_restart (mkSupervisor (shutdown_sent s) (restart_count s) (panic_count s)
                             (<[ a := count ]> (agent_restarts s))) in
  (s, if (0 <? max_restarts)%Z && (max_restarts <? count)%Z then Err count else Ok count).

Definition agent_restart_count (s : Supervisor) (a : AgentId) : Z := default 0%Z (agent_restarts s !! a).

Definition reset_agent_restarts (s : Supervisor) (a : AgentId) : Supervisor :=
  mkSupervisor (shutdown_sent s) (restart_count s) (panic_count s) (delete a (agent_restarts s)).

Definition health (s : Supervisor) : SupervisorHealth :=
  mkHealth (is_shutting_down s) (panic_count s) (restart_count s).

Inductive SupOp : Type :=
| SShutdown | SPanic | SRestart (a : AgentId) (max_restarts : Z) | SReset (a : AgentId).

Definition sup_step (s : Supervisor) (op : SupOp) : Supervisor :=
  match op with
  | SShutdown => shutdown s
  | SPanic => record_panic s
  | SRestart a m => (record_agent_restart s a m).1
  | SReset a => reset_agent_restarts s a
  end.

Definition sup_run (ops : list SupOp) : Supervisor := foldl sup_step new_supervisor ops.

(** The restarts of an agent since its counter was last reset. *)
Definition count_op (a : AgentId) (n : Z) (op : SupOp) : Z :=
  match op with
  | SRestart b _ => if decide (b = a) then (n + 1)%Z else n
  | SReset b => if decide (b = a) then 0%Z else n
  | _ => n
  end.
Definition since_reset (a : AgentId) (ops : list SupOp) : Z := foldl (count_op a) 0%Z ops.

Lemma since_reset_bound a ops : (0 ≤ since_reset a ops ≤ Z.of_nat (length ops))%Z.
Proof.
  unfold since_reset. induction ops as [|op ops IH] using rev_ind; [simpl; lia|].
  rewrite foldl_snoc, length_app. destruct op; simpl; repeat case_decide; lia.
Qed.

Lemma restart_count_exact a ops :
  (Z.of_nat (length ops) ≤ u32_max)%Z → agent_restart_count (sup_run ops) a = since_reset a ops.
Proof.
  unfold sup_run, agent_restart_count. induction ops as [|op ops IH] using rev_ind; [done|].
  rewrite length_app. simpl. intros Hl. unfold since_reset. rewrite !foldl_snoc. fold (since_reset a ops).
  specialize (IH ltac:(lia)). pose proof (since_reset_bound a ops).
  destruct op as [| |b m|b]; simpl; try done.
  - case_decide as E.
    + subst b. rewrite lookup_insert_eq. cbn [default id]. rewrite IH. apply wrapping_add_u32_small; lia.
    + by rewrite lookup_insert_ne.
  - case_decide as E; [subst b; by rewrite lookup_delete_eq|by rewrite lookup_delete_ne].
Qed.

(** Whatever happens to other agents, a restart is accepted exactly while
    the restarts since the counter of the agent was last reset do not exceed
    its limit, no limit being zero, and the count is returned either way. *)
Theorem restart_limit ops a max_restarts :
  (Z.of_nat (length ops) < u32_max)%Z →
  let n := (since_reset a ops + 1)%Z in
  (record_agent_restart (sup_run ops) a max_restarts).2 =
  if decide (max_restarts ≤ 0 ∨ n ≤ max_restarts)%Z then Ok n else Err n.
Proof.
  intros Hl n. pose proof (since_reset_bound a ops). unfold record_agent_restart.
  pose proof (restart_count_exact a ops ltac:(lia)) as E. unfold agent_restart_count in E. rewrite E. cbn [snd].
  rewrite wrapping_add_u32_small by lia. fold n.
  destruct (Z.ltb_spec 0 max_restarts), (Z.ltb_spec max_restarts n); simpl; case_decide; done || lia.
Qed.
End Supervisor.

Lemma restart_limit_witness :
  (record_agent_restart (sup_run [SRestart 1 2; SRestart 2 2; SPanic; SRestart 1 2]) 1 2).2 = Err 3%Z.
Proof. exact (restart_limit [SRestart 1 2; SRestart 2 2; SPanic; SRestart 1 2] 1 2 eq_refl). Defined.
