(* ===== verification/ChannelRouter.v ===== *)
(** * Routing of channel messages

    [openfang-channels/src/router.rs] with the bindings of
    [openfang-types/src/config.rs]: which agent answers a message. The
    [Debug] text of a custom channel type is a parameter. *)

From Stdlib Require Import Ascii ZArith Lia.
From stdpp Require Import base gmap strings list sets sorting.
From S2P Require Import Prelude Strs.

Inductive ChannelType : Type :=
| Telegram | WhatsApp | Slack | Discord | Signal | Matrix | Email | Teams | Mattermost | WebChat | CLI
| CustomChannel (s : str).

Definition channel_type_to_str (ct : ChannelType) : str :=
  match ct with
  | Telegram => lit "telegram"
  | Discord => lit "discord"
  | Slack => lit "slack"
  | WhatsApp => lit "whatsapp"
  | Signal => lit "signal"
  | Matrix => lit "matrix"
  | Email => lit "email"
  | Teams => lit "teams"
  | Mattermost => lit "mattermost"
  | WebChat => lit "webchat"
  | CLI => lit "cli"
  | CustomChannel s => s
  end.

Record BindingMatchRule : Type := mkRule {
  channel : option str;
  account_id : option str;
  peer_id : option str;
  guild_id : option str;
  roles : list str
}.

Record AgentBinding : Type := mkBinding {
  agent : str;
  match_rule : BindingMatchRule
}.

Definition score_if (b : bool) (n : Z) : Z := if b then n else 0.

Definition specificity (r : BindingMatchRule) : Z :=
  score_if (bool_decide (is_Some (peer_id r))) 8 + score_if (bool_decide (is_Some (guild_id r))) 4
  + score_if (negb (bool_decide (roles r = []))) 2 + score_if (bool_decide (is_Some (account_id r))) 2
  + score_if (bool_decide (is_Some (channel r))) 1.

Record BindingContext : Type := mkContext {
  ctx_channel : str;
  ctx_account : option str;
  ctx_peer : str;
  ctx_guild : option str;
  ctx_roles : list str
}.

Definition field_matches (rule : option str) (value : option str) : bool :=
  match rule with Some r => bool_decide (value = Some r) | None => true end.

Definition binding_matches (b : AgentBinding) (ctx : BindingContext) : bool :=
  let rule := match_rule b in
  field_matches (channel rule) (Some (ctx_channel ctx))
  && field_matches (account_id rule) (ctx_account ctx)
  && field_matches (peer_id rule) (Some (ctx_peer ctx))
  && field_matches (guild_id rule) (ctx_guild ctx)
  && (bool_decide (roles rule = []) || existsb (λ r, bool_decide (r ∈ ctx_roles ctx)) (roles rule)).

Inductive BroadcastStrategy : Type := Parallel | Sequential.

Record BroadcastConfig : Type := mkBroadcast {
  strategy : BroadcastStrategy;
  routes : gmap str (list str)
}.

Definition default_broadcast : BroadcastConfig := mkBroadcast Parallel ∅.

Section Router.
Context {AgentId : Type}.
Context (debug_channel : ChannelType → str).

Record AgentRouter : Type := mkRouter {
  user_defaults : gmap str AgentId;
  direct_routes : gmap (str * str) AgentId;
  default_agent : option AgentId;
  bindings : list AgentBinding;
  broadcast : BroadcastConfig;
  agent_name_cache : gmap str AgentId
}.

Definition new_router : AgentRouter := mkRouter ∅ ∅ None [] default_broadcast ∅.

Definition set_default (r : AgentRouter) (i : AgentId) : AgentRouter :=
  mkRouter (user_defaults r) (direct_routes r) (Some i) (bindings r) (broadcast r) (agent_name_cache r).

Definition set_user_default (r : AgentRouter) (user_key : str) (i : AgentId) : AgentRouter :=
  mkRouter (<[ user_key := i ]> (user_defaults r)) (direct_routes r) (default_agent r) (bindings r)
    (broadcast r) (agent_name_cache r).

Definition set_direct_route (r : AgentRouter) (channel_key user : str) (i : AgentId) : AgentRouter :=
  mkRouter (user_defaults r) (<[ (channel_key, user) := i ]> (direct_routes r)) (default_agent r)
    (bindings r) (broadcast r) (agent_name_cache r).

(** Stable, most specific first. *)
Definition by_specificity (bs : list AgentBinding) : list AgentBinding :=
  sort_by_key (λ b, - specificity (match_rule b))%Z bs.

Definition with_bindings (r : AgentRouter) (bs : list AgentBinding) : AgentRouter :=
  mkRouter (user_defaults r) (direct_routes r) (default_agent r) bs (broadcast r) (agent_name_cache r).

Definition load_bindings (r : AgentRouter) (bs : list AgentBinding) : AgentRouter :=
  with_bindings r (by_specificity bs).

Definition add_binding (r : AgentRouter) (b : AgentBinding) : AgentRouter :=
  with_bindings r (by_specificity (bindings r ++ [b])).

Definition remove_binding (r : AgentRouter) (index : nat) : AgentRouter * option AgentBinding :=
  match bindings r !! index with
  | Some b => (with_bindings r (delete index (bindings r)), Some b)
  | None => (r, None)
  end.

Definition load_broadcast (r : AgentRouter) (b : BroadcastConfig) : AgentRouter :=
  mkRouter (user_defaults r) (direct_routes r) (default_agent r) (bindings r) b (agent_name_cache r).

Definition register_agent (r : AgentRouter) (name : str) (i : AgentId) : AgentRouter :=
  mkRouter (user_defaults r) (direct_routes r) (default_agent r) (bindings r) (broadcast r)
    (<[ name := i ]> (agent_name_cache r)).

(** The loop over the bindings: a binding whose agent is not known is passed
    over. *)
Fixpoint resolve_in (cache : gmap str AgentId) (ctx : BindingContext) (bs : list AgentBinding) : option AgentId :=
  match bs with
  | [] => None
  | b :: bs =>
      if binding_matches b ctx then
        match cache !! agent b with Some i => Some i | None => resolve_in cache ctx bs end
      else resolve_in cache ctx bs
  end.

Definition resolve_binding (r : AgentRouter) (ctx : BindingContext) : option AgentId :=
  resolve_in (agent_name_cache r) ctx (bindings r).

Definition or_try {A} (o o' : option A) : option A := match o with Some x => Some x | None => o' end.

Definition resolve_with_context (r : AgentRouter) (ct : ChannelType) (user : str) (user_key : option str)
    (ctx : BindingContext) : option AgentId :=
  or_try (resolve_binding r ctx)
    (or_try (direct_routes r !! (debug_channel ct, user))
       (or_try (user_key ≫= λ key, user_defaults r !! key)
          (or_try (user_defaults r !! user) (default_agent r)))).

Definition resolve (r : AgentRouter) (ct : ChannelType) (user : str) (user_key : option str) : option AgentId :=
  resolve_with_context r ct user user_key (mkContext (channel_type_to_str ct) None user None []).

Definition resolve_broadcast (r : AgentRouter) (peer : str) : list (str * option AgentId) :=
  match routes (broadcast r) !! peer with
  | Some names => (λ n, (n, agent_name_cache r !! n)) <$> names
  | None => []
  end.

Definition has_broadcast (r : AgentRouter) (peer : str) : bool :=
  bool_decide (is_Some (routes (broadcast r) !! peer)).
End Router.

(** ** The order of the bindings *)

Section RouterFacts.
Context {AgentId : Type} (debug_channel : ChannelType → str).
Abbreviation router := (AgentRouter (AgentId := AgentId)).

Inductive router_reachable : router → Prop :=
| router_new : router_reachable new_router
| router_default r i : router_reachable r → router_reachable (set_default r i)
| router_user r u i : router_reachable r → router_reachable (set_user_default r u i)
| router_direct r c u i : router_reachable r → router_reachable (set_direct_route r c u i)
| router_load r bs : router_reachable r → router_reachable (load_bindings r bs)
| router_add r b : router_reachable r → router_reachable (add_binding r b)
| router_remove r n : router_reachable r → router_reachable (remove_binding r n).1
| router_broadcast r b : router_reachable r → router_reachable (load_broadcast r b)
| router_register r n i : router_reachable r → router_reachable (register_agent r n i).

Definition more_specific (a b : AgentBinding) : Prop :=
  (- specificity (match_rule a) ≤ - specificity (match_rule b))%Z.

Lemma sorted_delete {A} (R : relation A) n l : StronglySorted R l → StronglySorted R (delete n l).
Proof.
  revert n. induction l as [|x l IH]; intros n Hs; [done|].
  apply StronglySorted_inv in Hs as [Hs Hx]. destruct n as [|n]; simpl; [done|].
  constructor; [by apply IH|]. apply Forall_forall. intros y Hy.
  rewrite Forall_forall in Hx. apply Hx. eapply elem_of_submseteq; [done|].
  apply sublist_submseteq, sublist_delete.
Qed.

Lemma router_sorted r : router_reachable r → StronglySorted more_specific (bindings r).
Proof.
  induction 1 as [| | | | | |r n _ IH| |]; simpl; try done; try constructor.
  - apply sort_by_key_sorted.
  - apply sort_by_key_sorted.
  - unfold remove_binding. destruct (bindings r !! n); [|done]. by apply sorted_delete.
Qed.

(** A binding that applies: it matches, and its agent is known. *)
Definition applies (r : router) (ctx : BindingContext) (b : AgentBinding) (i : AgentId) : Prop :=
  b ∈ bindings r ∧ binding_matches b ctx = true ∧ agent_name_cache r !! agent b = Some i.

Lemma resolve_in_Some (cache : gmap str AgentId) ctx bs i :
  StronglySorted more_specific bs → resolve_in cache ctx bs = Some i →
  ∃ b, b ∈ bs ∧ binding_matches b ctx = true ∧ cache !! agent b = Some i
    ∧ ∀ b', b' ∈ bs → binding_matches b' ctx = true → is_Some (cache !! agent b') → more_specific b b'.
Proof.
  induction bs as [|b bs IH]; intros Hs Hr; [done|].
  apply StronglySorted_inv in Hs as [Hs Hb]. rewrite Forall_forall in Hb. simpl in Hr.
  destruct (binding_matches b ctx) eqn:Em.
  - destruct (cache !! agent b) as [i'|] eqn:Ec.
    + simplify_eq. exists b. split_and!; [set_solver|done|done|].
      intros b' [->|Hin]%elem_of_cons _ _; [unfold more_specific; lia|by apply Hb].
    + destruct (IH Hs Hr) as (b1 & ? & ? & ? & Hmax). exists b1. split_and!; [set_solver|done|done|].
      intros b' [->|Hin]%elem_of_cons Hm Hc; [rewrite Ec in Hc; by destruct Hc|by apply Hmax].
  - destruct (IH Hs Hr) as (b1 & ? & ? & ? & Hmax). exists b1. split_and!; [set_solver|done|done|].
    intros b' [->|Hin]%elem_of_cons Hm Hc; [congruence|by apply Hmax].
Qed.

Lemma resolve_in_None (cache : gmap str AgentId) ctx bs :
  resolve_in cache ctx bs = None ↔
  ∀ b, b ∈ bs → binding_matches b ctx = true → cache !! agent b = (None : option AgentId).
Proof.
  induction bs as [|b bs IH]; simpl; [set_solver|].
  destruct (binding_matches b ctx) eqn:Em; [destruct (cache !! agent b) eqn:Ec|].
  - split; [done|]. intros Hall. specialize (Hall b ltac:(set_solver) Em). congruence.
  - rewrite IH. split; intros Hall b'; [intros [->|]%elem_of_cons; [done|by apply Hall]|].
    intros Hin. apply Hall. set_solver.
  - rewrite IH. split; intros Hall b'; [intros [->|]%elem_of_cons; [congruence|by apply Hall]|].
    intros Hin. apply Hall. set_solver.
Qed.

(** The routing of a message, whatever the router has been told before: the
    most specific binding that matches and names a known agent decides; only
    without one the direct route, the default of the user, the default of the
    platform id and the default agent count, in this order. *)
Theorem routing_priority r ct user user_key ctx :
  router_reachable r →
  match resolve_with_context debug_channel r ct user user_key ctx with
  | Some i =>
      (∃ b, applies r ctx b i
         ∧ ∀ b' i', applies r ctx b' i' → (specificity (match_rule b') ≤ specificity (match_rule b))%Z)
      ∨ ((∀ b i', ¬ applies r ctx b i')
         ∧ or_try (direct_routes r !! (debug_channel ct, user))
             (or_try (user_key ≫= λ key, user_defaults r !! key)
                (or_try (user_defaults r !! user) (default_agent r))) = Some i)
  | None =>
      (∀ b i', ¬ applies r ctx b i') ∧ direct_routes r !! (debug_channel ct, user) = None
      ∧ user_key ≫= (λ key, user_defaults r !! key) = None ∧ user_defaults r !! user = None
      ∧ default_agent r = None
  end.
Proof.
  intros Hs%router_sorted. unfold resolve_with_context, resolve_binding.
  destruct (resolve_in (agent_name_cache r) ctx (bindings r)) as [i|] eqn:E.
  - left. apply resolve_in_Some in E as (b & Hin & Hm & Hc & Hmax); [|done].
    exists b. split; [done|]. intros b' i' (Hin' & Hm' & Hc').
    specialize (Hmax b' Hin' Hm' ltac:(eauto)). unfold more_specific in Hmax. lia.
  - rewrite resolve_in_None in E.
    assert (∀ b i', ¬ applies r ctx b i') as Hno
      by (intros b i' (Hin & Hm & Hc); rewrite (E b Hin Hm) in Hc; done).
    unfold or_try at 1. destruct (or_try (direct_routes r !! _) _) as [i|] eqn:Eo; [by right|].
    unfold or_try in Eo.
    destruct (direct_routes r !! _); [done|]. destruct (user_key ≫= _); [done|].
    destruct (user_defaults r !! user); done.
Qed.
End RouterFacts.

Definition demo_router : AgentRouter (AgentId := nat) :=
  add_binding (register_agent (register_agent (set_default new_router 9) (lit "a") 1) (lit "b") 2)
    (mkBinding (lit "a") (mkRule (Some (lit "telegram")) None None None [])).

Definition demo_router2 : AgentRouter (AgentId := nat) :=
  add_binding demo_router (mkBinding (lit "b") (mkRule None None (Some (lit "u1")) None [])).

Lemma routing_priority_witness :
  resolve (λ _, []) demo_router2 Telegram (lit "u1") None = Some 2
  ∧ (∃ b, applies demo_router2 (mkContext (lit "telegram") None (lit "u1") None []) b 2
     ∧ ∀ b' i', applies demo_router2 (mkContext (lit "telegram") None (lit "u1") None []) b' i' →
         (specificity (match_rule b') ≤ specificity (match_rule b))%Z).
Proof.
  split; [vm_compute; reflexivity|].
  destruct (routing_priority (λ _, []) demo_router2 Telegram (lit "u1") None
    (mkContext (lit "telegram") None (lit "u1") None [])
    ltac:(repeat constructor)) as [H|[H _]]; [exact H|].
  exfalso. apply (H (mkBinding (lit "b") (mkRule None None (Some (lit "u1")) None [])) 2).
  split_and!; [|vm_compute; reflexivity..]. vm_compute. constructor.
Defined.

(** [resolve] knows no account, guild or roles, so that bindings that ask for
    them never match. *)
Lemma resolve_plain_only b ct user :
  binding_matches b (mkContext (channel_type_to_str ct) None user None []) = true →
  account_id (match_rule b) = None ∧ guild_id (match_rule b) = None ∧ roles (match_rule b) = [].
Proof.
  unfold binding_matches, field_matches. simpl. rewrite !andb_true_iff, orb_true_iff, bool_decide_eq_true.
  intros [[[[_ Ha] _] Hg] Hr]. split_and!.
  - by destruct (account_id (match_rule b)).
  - by destruct (guild_id (match_rule b)).
  - destruct Hr as [|Hr]; [done|]. apply existsb_exists in Hr as (x & _ & Hx). done.
Qed.
