(* ===== verification/Rbac.v ===== *)
(** * Users, roles and actions

    [openfang-kernel/src/auth.rs]: the users of the configuration, their
    identities on channels, and what their roles permit. The ids of users are
    drawn as they are registered. *)

From Stdlib Require Import Ascii ZArith Lia.
From stdpp Require Import base gmap strings list sets.
From S2P Require Import Prelude Strs.

Inductive UserRole : Type := Viewer | UserR | Admin | Owner.

Definition rank (r : UserRole) : Z :=
  match r with Viewer => 0 | UserR => 1 | Admin => 2 | Owner => 3 end.

Definition role_ge (r r' : UserRole) : bool := (rank r' <=? rank r)%Z.

Definition show_role (r : UserRole) : str :=
  match r with
  | Viewer => lit "viewer" | UserR => lit "user" | Admin => lit "admin" | Owner => lit "owner"
  end.

Definition from_str_role `{UnicodeCase} (s : str) : UserRole :=
  let s := to_lowercase s in
  if str_eqb s (lit "owner") then Owner
  else if str_eqb s (lit "admin") then Admin
  else if str_eqb s (lit "viewer") then Viewer
  else UserR.

Inductive Action : Type :=
| ChatWithAgent | SpawnAgent | KillAgent | InstallSkill | ViewConfig | ModifyConfig | ViewUsage | ManageUsers.

Definition debug_action (a : Action) : str :=
  match a with
  | ChatWithAgent => lit "ChatWithAgent"
  | SpawnAgent => lit "SpawnAgent"
  | KillAgent => lit "KillAgent"
  | InstallSkill => lit "InstallSkill"
  | ViewConfig => lit "ViewConfig"
  | ModifyConfig => lit "ModifyConfig"
  | ViewUsage => lit "ViewUsage"
  | ManageUsers => lit "ManageUsers"
  end.

Definition required_role (a : Action) : UserRole :=
  match a with
  | ChatWithAgent | ViewConfig => UserR
  | ViewUsage | SpawnAgent | KillAgent | InstallSkill => Admin
  | ModifyConfig | ManageUsers => Owner
  end.

Record UserConfig : Type := mkUserConfig {
  cfg_name : str;
  cfg_role : str;
  channel_bindings : list (str * str);
  api_key_hash : option str
}.

Section Auth.
Context {UserId : Type} `{Countable UserId} `{UnicodeCase}.

Record UserIdentity : Type := mkUser {
  user_id : UserId;
  user_name : str;
  user_role : UserRole
}.

Record AuthManager : Type := mkAuth {
  users : gmap UserId UserIdentity;
  channel_index : gmap str UserId
}.

Definition binding_key (channel_type platform_id : str) : str :=
  channel_type ++ lit ":" ++ platform_id.

Definition register_user (m : AuthManager) (p : UserId * UserConfig) : AuthManager :=
  let '(i, c) := p in
  mkAuth (<[ i := mkUser i (cfg_name c) (from_str_role (cfg_role c)) ]> (users m))
    (foldl (λ idx b, <[ binding_key b.1 b.2 := i ]> idx) (channel_index m) (channel_bindings c)).

(** The configurations with the ids drawn for them. *)
Definition new_auth (configs : list (UserId * UserConfig)) : AuthManager :=
  foldl register_user (mkAuth ∅ ∅) configs.

Definition identify (m : AuthManager) (channel_type platform_id : str) : option UserId :=
  channel_index m !! binding_key channel_type platform_id.

Definition get_user (m : AuthManager) (i : UserId) : option UserIdentity := users m !! i.

Definition denied (u : UserIdentity) (a : Action) : str :=
  lit "User '" ++ user_name u ++ lit "' (role: " ++ show_role (user_role u)
  ++ lit ") lacks permission for " ++ debug_action a ++ lit " (requires: " ++ show_role (required_role a)
  ++ lit ")".

Definition authorize (m : AuthManager) (i : UserId) (a : Action) : result unit str :=
  match users m !! i with
  | None => Err (lit "Unknown user")
  | Some u => if role_ge (user_role u) (required_role a) then Ok tt else Err (denied u a)
  end.

Definition is_enabled (m : AuthManager) : bool := negb (bool_decide (users m = ∅)).
Definition user_count (m : AuthManager) : nat := size (users m).
Definition list_users (m : AuthManager) : list UserIdentity := (map_to_list (users m)).*2.

(** [authorize_channel_user] of [openfang-api/src/channel_bridge.rs]. *)
Definition action_of (action : str) : Action :=
  if str_eqb action (lit "chat") then ChatWithAgent
  else if str_eqb action (lit "spawn") then SpawnAgent
  else if str_eqb action (lit "kill") then KillAgent
  else if str_eqb action (lit "install_skill") then InstallSkill
  else ChatWithAgent.

Definition auth_denied (e : str) : str := lit "Auth denied: " ++ e.

Definition authorize_channel_user (m : AuthManager) (channel_type platform_id action : str) : result unit str :=
  if negb (is_enabled m) then Ok tt
  else match identify m channel_type platform_id with
       | None => Err (lit "Unrecognized user. Contact an admin to get access.")
       | Some i =>
           match authorize m i (action_of action) with
           | Ok _ => Ok tt
           | Err e => Err (auth_denied e)
           end
       end.

(** ** What the configuration says *)

(** The last of the configurations, in order, with a binding of this key. *)
Definition owner_of (configs : list (UserId * UserConfig)) (key : str) : option UserId :=
  fst <$> last (filter (λ p, key ∈ (λ b, binding_key b.1 b.2) <$> channel_bindings p.2) configs).

Lemma bind_keys_lookup (i : UserId) (bs : list (str * str)) (idx : gmap str UserId) key :
  foldl (λ idx b, <[ binding_key b.1 b.2 := i ]> idx) idx bs !! key =
  if decide (key ∈ (λ b, binding_key b.1 b.2) <$> bs) then Some i else idx !! key.
Proof.
  revert idx. induction bs as [|b bs IH]; intros idx; cbn [foldl].
  - by rewrite decide_False by (apply not_elem_of_nil).
  - rewrite IH, fmap_cons. destruct (decide (key = binding_key b.1 b.2)) as [->|Hne].
    + rewrite lookup_insert_eq. repeat case_decide; set_solver.
    + rewrite lookup_insert_ne by done. repeat case_decide; set_solver.
Qed.

Lemma channel_index_spec configs key :
  channel_index (new_auth configs) !! key = owner_of configs key.
Proof.
  unfold new_auth, owner_of. induction configs as [|[i c] configs IH] using rev_ind; [done|].
  rewrite foldl_snoc, filter_app. cbn [register_user channel_index]. rewrite bind_keys_lookup, IH.
  rewrite filter_cons, filter_nil. cbn [snd]. case_decide.
  - by rewrite last_snoc.
  - by rewrite app_nil_r.
Qed.

Lemma users_spec configs i :
  users (new_auth configs) !! i =
  (λ p, mkUser p.1 (cfg_name p.2) (from_str_role (cfg_role p.2)))
    <$> last (filter (λ p, p.1 = i) configs).
Proof.
  unfold new_auth. induction configs as [|[j c] configs IH] using rev_ind; [done|].
  rewrite foldl_snoc, filter_app, filter_cons, filter_nil. cbn [register_user users fst snd].
  destruct (decide (j = i)) as [->|Hne].
  - by rewrite lookup_insert_eq, last_snoc.
  - by rewrite lookup_insert_ne, app_nil_r by done.
Qed.

(** Channel types without a colon make the key of a binding unambiguous. *)
Lemma binding_key_inj c p c' p' :
  ":"%char ∉ c → ":"%char ∉ c' → binding_key c p = binding_key c' p' → c = c' ∧ p = p'.
Proof.
  unfold binding_key. revert c'. induction c as [|x c IH]; intros [|y c'] Hc Hc' E; simpl in E.
  - by injection E.
  - injection E as <- _. destruct Hc'. constructor.
  - injection E as -> _. destruct Hc. constructor.
  - injection E as -> E. rewrite not_elem_of_cons in Hc, Hc'.
    destruct (IH c' (proj2 Hc) (proj2 Hc') E) as [-> ->]. done.
Qed.

Lemma filter_ext_Forall {A} (P Q : A → Prop) `{∀ x, Decision (P x), ∀ x, Decision (Q x)} (l : list A) :
  Forall (λ x, P x ↔ Q x) l → filter P l = filter Q l.
Proof.
  induction 1 as [|x l Hx _ IH]; [done|]. rewrite !filter_cons, IH. repeat case_decide; naive_solver.
Qed.

Lemma unique_filter (configs : list (UserId * UserConfig)) i c :
  NoDup configs.*1 → (i, c) ∈ configs → last (filter (λ p, p.1 = i) configs) = Some (i, c).
Proof.
  induction configs as [|[j d] configs IH] using rev_ind; [by intros _ ?%not_elem_of_nil|].
  rewrite fmap_app, filter_app, elem_of_app, list_elem_of_singleton, filter_cons, filter_nil.
  intros (Hnd & Hdisj & _)%NoDup_app Hin. cbn [fst] in *. case_decide as E; subst.
  - rewrite last_snoc. destruct Hin as [Hin|[= ->]]; [|done]. destruct (Hdisj i).
    + apply list_elem_of_fmap. by exists (i, c).
    + constructor.
  - rewrite app_nil_r. destruct Hin as [Hin|[= -> ->]]; [by apply IH|done].
Qed.

Lemma is_enabled_spec configs : is_enabled (new_auth configs) = true ↔ configs ≠ [].
Proof.
  unfold is_enabled. rewrite negb_true_iff, bool_decide_eq_false. split.
  - by intros Hne ->.
  - destruct configs as [|[i c] configs _] using rev_ind; [done|]. intros _ E.
    pose proof (users_spec (configs ++ [(i, c)]) i) as Hu. rewrite E, lookup_empty, filter_app, filter_cons in Hu.
    rewrite decide_True, filter_nil, last_snoc in Hu by done. done.
Qed.

(** Whose bindings name a sender, when no channel type has a colon. *)
Lemma bound_filter configs channel_type platform_id :
  Forall (λ p : UserId * UserConfig, Forall (λ b : str * str, ":"%char ∉ b.1) (channel_bindings p.2)) configs →
  ":"%char ∉ channel_type →
  filter (λ p : UserId * UserConfig, binding_key channel_type platform_id ∈
            (λ b, binding_key b.1 b.2) <$> channel_bindings p.2) configs
  = filter (λ p, (channel_type, platform_id) ∈ channel_bindings p.2) configs.
Proof.
  intros Hcol Hct. apply filter_ext_Forall. eapply Forall_impl; [exact Hcol|]. intros p Hp.
  rewrite list_elem_of_fmap. split.
  - intros ([c q] & E & Hin). rewrite Forall_forall in Hp. specialize (Hp _ Hin). simpl in *.
    apply binding_key_inj in E as [-> ->]; done.
  - intros Hin. by exists (channel_type, platform_id).
Qed.

Lemma registered_user configs (P : UserId * UserConfig → Prop) `{∀ p, Decision (P p)} i c :
  NoDup configs.*1 → last (filter P configs) = Some (i, c) →
  users (new_auth configs) !! i = Some (mkUser i (cfg_name c) (from_str_role (cfg_role c))).
Proof.
  intros Hnd Hl. rewrite users_spec, (unique_filter configs i c Hnd); [done|].
  apply last_Some_elem_of in Hl. by apply list_elem_of_filter in Hl as [_ ?].
Qed.

(** The sender of a channel message is allowed an action exactly if no
    users are configured, or the last configured user whose bindings name the
    sender has a role at least as high as the action requires; with no colon in
    a channel type no other binding can be taken for the sender's. *)
Theorem channel_action_allowed configs channel_type platform_id action :
  NoDup configs.*1 →
  Forall (λ p : UserId * UserConfig, Forall (λ b : str * str, ":"%char ∉ b.1) (channel_bindings p.2)) configs →
  ":"%char ∉ channel_type →
  authorize_channel_user (new_auth configs) channel_type platform_id action = Ok tt ↔
  configs = [] ∨
  ∃ i c, last (filter (λ p, (channel_type, platform_id) ∈ channel_bindings p.2) configs) = Some (i, c)
    ∧ (rank (required_role (action_of action)) ≤ rank (from_str_role (cfg_role c)))%Z.
Proof.
  intros Hnd Hcol Hct. unfold authorize_channel_user.
  destruct (is_enabled (new_auth configs)) eqn:Een; cbn [negb].
  2: { split; [intros _|done]. left. destruct (decide (configs = [])); [done|].
       apply is_enabled_spec in n. congruence. }
  apply is_enabled_spec in Een.
  unfold identify. rewrite channel_index_spec. unfold owner_of. rewrite bound_filter by done.
  destruct (last (filter _ _)) as [[i c]|] eqn:Hl; cbn [fmap option_fmap option_map fst];
    [|split; [done|by intros [?|(? & ? & ? & _)]]].
  unfold authorize. rewrite (registered_user _ _ _ _ Hnd Hl). unfold role_ge. simpl.
  destruct (Z.leb_spec (rank (required_role (action_of action))) (rank (from_str_role (cfg_role c)))).
  - split; [intros _; right; by exists i, c|done].
  - split; [done|]. intros [?|(? & ? & [= <- <-] & ?)]; [done|lia].
Qed.
End Auth.

Definition demo_users : list (nat * UserConfig) :=
  [ (1, mkUserConfig (lit "Alice") (lit "owner") [(lit "telegram", lit "1")] None);
    (2, mkUserConfig (lit "Guest") (lit "viewer") [(lit "telegram", lit "2")] None) ].

Lemma channel_action_allowed_witness :
  authorize_channel_user (new_auth demo_users) (lit "telegram") (lit "1") (lit "kill") = Ok tt
  ∧ authorize_channel_user (new_auth demo_users) (lit "telegram") (lit "2") (lit "chat") ≠ Ok tt.
Proof.
  split.
  - apply (channel_action_allowed demo_users).
    + vm_compute. repeat constructor; intros H; repeat inversion H as [|? ? ? H']; subst; try done; inversion H'.
    + vm_compute. repeat constructor; intros H; repeat (inversion H as [|? ? ? H0]; clear H; rename H0 into H).
    + vm_compute. intros H. repeat (inversion H as [|? ? ? H0]; clear H; rename H0 into H).
    + right. eexists _, _. split; [vm_compute; reflexivity|vm_compute; discriminate].
  - vm_compute. discriminate.
Defined.

(** Two bindings with one key: the name of a channel may hold a colon. *)
Example binding_keys_collide :
  binding_key (lit "custom:a") (lit "7") = binding_key (lit "custom") (lit "a:7").
Proof. reflexivity. Qed.
