(* ===== verification/Formatter.v ===== *)
(** * Formatting of replies for channels

    [openfang-channels/src/formatter.rs]: Markdown rewritten for a channel. The
    [while let] loops rewrite the first place that matches until none does;
    each removes a marker, so as many rounds as the text has bytes are enough
    ([rewrite_loop_unfold]). The markers are ASCII, so every slice is taken at a
    character boundary and the loops over [chars] may go over bytes. *)

From Stdlib Require Import Ascii ZArith Lia.
From stdpp Require Import base strings list.
From S2P Require Import Prelude Strs.

Inductive OutputFormat : Type := Markdown | TelegramHtml | SlackMrkdwn | PlainText.

Definition star : ascii := "*"%char.
Definition backtick : ascii := "`"%char.
Definition quote : ascii := ascii_of_nat 34.

Fixpoint rewrite_loop (step : str → option str) (fuel : nat) (s : str) : str :=
  match fuel with
  | 0 => s
  | S n => match step s with Some s' => rewrite_loop step n s' | None => s end
  end.

(** A pair of delimiters replaced by an opening and a closing text. *)
Definition wrap_step (delim open close : str) (s : str) : option str :=
  match find s delim with
  | None => None
  | Some start =>
      let from := start + length delim in
      match find (drop from s) delim with
      | None => None
      | Some len =>
          Some (take start s ++ open ++ take len (drop from s) ++ close
                ++ drop (from + len + length delim) s)
      end
  end.

(** [[text](url)], from the first bracket of the text. *)
Definition link_step (render : str → str → str) (s : str) : option str :=
  match find s (lit "[") with
  | None => None
  | Some bracket_start =>
      match find (drop bracket_start s) (lit "](") with
      | None => None
      | Some len =>
          let bracket_end := bracket_start + len in
          match find (drop (bracket_end + 2) s) (lit ")") with
          | None => None
          | Some url_len =>
              let link_text := take (len - 1) (drop (bracket_start + 1) s) in
              let url := take url_len (drop (bracket_end + 2) s) in
              Some (take bracket_start s ++ render link_text url ++ drop (bracket_end + 2 + url_len + 1) s)
          end
      end
  end.

Definition wrap (delim open close s : str) : str :=
  rewrite_loop (wrap_step delim open close) (length s) s.

Definition links (render : str → str → str) (s : str) : str :=
  rewrite_loop (link_step render) (length s) s.

(** A star with no star next to it. *)
Definition isolated_star (prev : option ascii) (s : str) : bool :=
  match s with
  | c :: s' => bool_decide (c = star ∧ prev ≠ Some star ∧ head s' ≠ Some star)
  | [] => false
  end.

Fixpoint italics (prev : option ascii) (in_italic : bool) (s : str) : str :=
  match s with
  | [] => []
  | c :: s' =>
      if isolated_star prev s
      then (if in_italic then lit "</i>" else lit "<i>") ++ italics (Some c) (negb in_italic) s'
      else c :: italics (Some c) in_italic s'
  end.

Fixpoint drop_isolated (prev : option ascii) (s : str) : str :=
  match s with
  | [] => []
  | c :: s' =>
      if isolated_star prev s then drop_isolated (Some c) s' else c :: drop_isolated (Some c) s'
  end.

Definition anchor (text url : str) : str :=
  lit "<a href=" ++ [quote] ++ url ++ [quote] ++ lit ">" ++ text ++ lit "</a>".
Definition slack_link (text url : str) : str := lit "<" ++ url ++ lit "|" ++ text ++ lit ">".
Definition plain_link (text url : str) : str := text ++ lit " (" ++ url ++ lit ")".

Definition markdown_to_telegram_html (text : str) : str :=
  let result := wrap (lit "**") (lit "<b>") (lit "</b>") text in
  let result := italics None false result in
  let result := wrap (lit "`") (lit "<code>") (lit "</code>") result in
  links anchor result.

Definition markdown_to_slack_mrkdwn (text : str) : str :=
  links slack_link (wrap (lit "**") (lit "*") (lit "*") text).

Definition markdown_to_plain (text : str) : str :=
  let result := replace text (lit "**") [] in
  let result := drop_isolated None result in
  let result := replace result (lit "`") [] in
  links plain_link result.

Definition format_for_channel (text : str) (format : OutputFormat) : str :=
  match format with
  | Markdown => text
  | TelegramHtml => markdown_to_telegram_html text
  | SlackMrkdwn => markdown_to_slack_mrkdwn text
  | PlainText => markdown_to_plain text
  end.

(** ** The loops *)

Definition count (c : ascii) (s : str) : nat := length (filter (eq c) s).

Lemma count_app c s t : count c (s ++ t) = count c s + count c t.
Proof. unfold count. by rewrite filter_app, length_app. Qed.

Lemma count_le c s : count c s ≤ length s.
Proof. apply length_filter. Qed.

Section Loop.
Context (step : str → option str) (c : ascii).
Hypothesis step_less : ∀ s s', step s = Some s' → count c s' < count c s.

Lemma rewrite_loop_stable fuel fuel' s :
  count c s ≤ fuel → count c s ≤ fuel' → rewrite_loop step fuel s = rewrite_loop step fuel' s.
Proof.
  revert fuel' s. induction fuel as [|fuel IH]; intros [|fuel'] s Hf Hf'; [done| | |]; simpl;
    destruct (step s) as [s'|] eqn:E; try done; pose proof (step_less _ _ E); [lia|lia|].
  apply IH; lia.
Qed.

(** The loop is the [while let] of the code. *)
Lemma rewrite_loop_unfold s :
  rewrite_loop step (length s) s =
  match step s with Some s' => rewrite_loop step (length s') s' | None => s end.
Proof.
  pose proof (count_le c s) as Hs. destruct (step s) as [s'|] eqn:E.
  - pose proof (step_less _ _ E) as Hl. destruct (length s) as [|n]; [lia|]. simpl. rewrite E.
    apply rewrite_loop_stable; [lia|apply count_le].
  - destruct (length s); simpl; [done|]. by rewrite E.
Qed.

Lemma rewrite_loop_final s : step (rewrite_loop step (length s) s) = None.
Proof.
  remember (count c s) as n eqn:Hn. revert s Hn. induction (lt_wf n) as [n _ IH]. intros s ->.
  rewrite rewrite_loop_unfold. destruct (step s) as [s'|] eqn:E; [|done].
  by apply (IH _ (step_less _ _ E)).
Qed.
End Loop.

(** ** One round *)

Lemma find_split s p n :
  find s p = Some n → s = take n s ++ p ++ drop (n + length p) s ∧ n + length p ≤ length s.
Proof.
  intros (a & b & -> & <-)%find_Some. rewrite take_app_length. split; [|rewrite !length_app; lia].
  by rewrite drop_app_add, drop_app_length.
Qed.

Lemma find_None s p a b : find s p = None → s ≠ a ++ p ++ b.
Proof. intros Hn E. destruct (find_leftmost _ _ _ _ E) as (n & ? & _). congruence. Qed.

Lemma wrap_step_Some delim open close s s' :
  wrap_step delim open close s = Some s' →
  ∃ a t b, s = a ++ delim ++ t ++ delim ++ b ∧ s' = a ++ open ++ t ++ close ++ b.
Proof.
  unfold wrap_step. destruct (find s delim) as [n|] eqn:E; [|done]. simpl.
  destruct (find (drop _ s) delim) as [k|] eqn:E'; [|done]. intros [= <-].
  apply find_split in E as [E _]. apply find_split in E' as [E' _].
  exists (take n s), (take k (drop (n + length delim) s)), (drop (n + length delim + k + length delim) s).
  split; [|done]. rewrite E at 1. do 2 f_equal. rewrite E' at 1. do 2 f_equal.
  rewrite drop_drop. f_equal. lia.
Qed.

Lemma wrap_step_less delim open close c s s' :
  count c open + count c close < count c delim + count c delim →
  wrap_step delim open close s = Some s' → count c s' < count c s.
Proof.
  intros Hc (a & t & b & -> & ->)%wrap_step_Some. rewrite !count_app. lia.
Qed.

Lemma wrap_unfold delim open close c s :
  count c open + count c close < count c delim + count c delim →
  wrap delim open close s =
  match wrap_step delim open close s with Some s' => wrap delim open close s' | None => s end.
Proof. intros Hc. apply (rewrite_loop_unfold _ c). intros ??. by apply wrap_step_less. Qed.

(** The three uses: bold for Telegram and Slack, code for Telegram. *)
Lemma wraps_end :
  count star (lit "<b>") + count star (lit "</b>") < count star (lit "**") + count star (lit "**")
  ∧ count star (lit "*") + count star (lit "*") < count star (lit "**") + count star (lit "**")
  ∧ count backtick (lit "<code>") + count backtick (lit "</code>")
    < count backtick (lit "`") + count backtick (lit "`").
Proof. vm_compute. split_and!; repeat constructor. Qed.

(** [link_step] from the places of its three markers. *)
Lemma link_step_eq render s :
  link_step render s =
  match find s (lit "[") with
  | None => None
  | Some n =>
      let r := drop (n + 1) s in
      match find r (lit "](") with
      | None => None
      | Some k =>
          let r' := drop (k + 2) r in
          match find r' (lit ")") with
          | None => None
          | Some j => Some (take n s ++ render (take k r) (take j r') ++ drop (j + 1) r')
          end
      end
  end.
Proof.
  unfold link_step. destruct (find s (lit "[")) as [n|] eqn:E; [|done]. cbv zeta.
  apply find_Some in E as (a & r & -> & <-).
  rewrite drop_app_length, take_app_length, drop_app_add.
  change (drop 1 (lit "[" ++ r)) with r.
  assert (find (lit "[" ++ r) (lit "](") = S <$> find r (lit "](")) as -> by done.
  destruct (find r (lit "](")) as [k|] eqn:E; [|done]. cbn [fmap option_fmap option_map].
  replace (length a + S k + 2) with (length a + (1 + (k + 2))) by lia.
  rewrite drop_app_add.
  change (drop (1 + (k + 2)) (lit "[" ++ r)) with (drop (k + 2) r).
  destruct (find (drop (k + 2) r) (lit ")")) as [j|]; [|done].
  replace (S k - 1) with k by lia. do 2 f_equal. f_equal. rewrite drop_drop.
  replace (length a + (1 + (k + 2)) + j + 1) with (length a + S (k + 2 + (j + 1))) by lia.
  by rewrite drop_app_add.
Qed.

Lemma link_step_Some render s s' :
  link_step render s = Some s' →
  ∃ a t u b, s = a ++ lit "[" ++ t ++ lit "](" ++ u ++ lit ")" ++ b ∧ s' = a ++ render t u ++ b.
Proof.
  rewrite link_step_eq. destruct (find s (lit "[")) as [n|] eqn:E; [|done]. cbv zeta.
  destruct (find _ (lit "](")) as [k|] eqn:E'; [|done].
  destruct (find _ (lit ")")) as [j|] eqn:E''; [|done]. intros [= <-].
  apply find_split in E as [E _]. apply find_split in E' as [E' _]. apply find_split in E'' as [E'' _].
  change (length (lit "[")) with 1 in E. change (length (lit "](")) with 2 in E'.
  eexists _, _, _, _. split; [|reflexivity]. etrans; [exact E|]. do 2 f_equal.
  etrans; [exact E'|]. do 2 f_equal. exact E''.
Qed.

Lemma link_step_None render s a t u b :
  link_step render s = None → s ≠ a ++ lit "[" ++ t ++ lit "](" ++ u ++ lit ")" ++ b.
Proof.
  rewrite link_step_eq. intros Hn E.
  destruct (find_leftmost _ _ _ _ E) as (n & Hf & Hna). rewrite Hf in Hn. cbv zeta in Hn.
  assert (∃ t', drop (n + 1) s = t' ++ lit "](" ++ u ++ lit ")" ++ b) as [t' Ht].
  { subst s. destruct (decide (n = length a)) as [->|].
    - exists t. by rewrite drop_app_add.
    - exists (drop (n + 1) a ++ lit "[" ++ t). rewrite drop_app_le by lia. by rewrite <-!app_assoc. }
  destruct (find_leftmost _ _ _ _ Ht) as (k & Hk & Hkt). rewrite Hk in Hn.
  assert (∃ u', drop (k + 2) (drop (n + 1) s) = u' ++ lit ")" ++ b) as [u' Hu].
  { rewrite Ht. destruct (decide (k = length t')) as [->|].
    - exists u. by rewrite drop_app_add.
    - destruct (decide (k + 1 = length t')) as [Hk1|].
      + exists (lit "(" ++ u). replace (k + 2) with (length t' + 1) by lia.
        by rewrite drop_app_add.
      + exists (drop (k + 2) t' ++ lit "](" ++ u). rewrite drop_app_le by lia. by rewrite <-!app_assoc. }
  destruct (find_leftmost _ _ _ _ Hu) as (j & Hj & _). rewrite Hj in Hn. done.
Qed.

(** Renderings that add no bracket of their own. *)
Class NoBracket (render : str → str → str) :=
  no_bracket : ∀ t u, count "["%char (render t u) ≤ count "["%char t + count "["%char u.

#[export] Instance anchor_no_bracket : NoBracket anchor.
Proof. intros t u. unfold anchor. rewrite !count_app. vm_compute (count _ (lit _)). vm_compute (count _ [_]). lia. Qed.
#[export] Instance slack_no_bracket : NoBracket slack_link.
Proof. intros t u. unfold slack_link. rewrite !count_app. vm_compute (count _ (lit _)). lia. Qed.
#[export] Instance plain_no_bracket : NoBracket plain_link.
Proof. intros t u. unfold plain_link. rewrite !count_app. vm_compute (count _ (lit _)). lia. Qed.

Lemma link_step_less render `{!NoBracket render} s s' :
  link_step render s = Some s' → count "["%char s' < count "["%char s.
Proof.
  intros (a & t & u & b & -> & ->)%link_step_Some. rewrite !count_app. pose proof (no_bracket t u).
  change (count "["%char (lit "[")) with 1. lia.
Qed.

Lemma links_unfold render `{!NoBracket render} s :
  links render s = match link_step render s with Some s' => links render s' | None => s end.
Proof. apply (rewrite_loop_unfold _ "["%char). intros ??. by apply link_step_less. Qed.

Lemma links_complete render `{!NoBracket render} s a t u b :
  links render s ≠ a ++ lit "[" ++ t ++ lit "](" ++ u ++ lit ")" ++ b.
Proof.
  apply (link_step_None render). apply (rewrite_loop_final _ "["%char). intros ??. by apply link_step_less.
Qed.

(** ** Plain text *)

Lemma replace_pair s : replace (star :: star :: s) (lit "**") [] = replace s (lit "**") [].
Proof. done. Qed.

Lemma replace_other c s : c ≠ star → replace (c :: s) (lit "**") [] = c :: replace s (lit "**") [].
Proof.
  intros Hc. unfold replace. cbn [replace_from].
  destruct (starts_with (c :: s) (lit "**")) eqn:E; [|done].
  apply starts_with_spec in E as [t E]. by injection E.
Qed.

Lemma replace_single s :
  head s ≠ Some star → replace (star :: s) (lit "**") [] = star :: replace s (lit "**") [].
Proof.
  intros Hs. unfold replace. cbn [replace_from].
  destruct (starts_with (star :: s) (lit "**")) eqn:E; [|done].
  apply starts_with_spec in E as [t E]. injection E as ->. by destruct Hs.
Qed.

(** Pairs first, then the stars left alone: no star remains. *)
Lemma stars_removed s prev :
  prev ≠ Some star → drop_isolated prev (replace s (lit "**") []) = filter (λ c, c ≠ star) s.
Proof.
  remember (length s) as n eqn:Hn. revert s prev Hn. induction (lt_wf n) as [n _ IH].
  intros [|c s] prev -> Hp; [done|]. rewrite filter_cons.
  destruct (decide (c = star)) as [->|Hc].
  - rewrite decide_False by (intros H; by apply H).
    destruct s as [|d s]; [simpl; rewrite bool_decide_true by done; done|].
    destruct (decide (d = star)) as [->|Hd].
    + rewrite replace_pair, filter_cons, decide_False by (intros H; by apply H).
      apply (IH (length s)); simpl; [lia|done|done].
    + rewrite replace_single by (simpl; congruence). rewrite replace_other by done.
      cbn [drop_isolated isolated_star head]. rewrite bool_decide_true by naive_solver.
      rewrite bool_decide_false by naive_solver. rewrite filter_cons, decide_True by done. f_equal.
      apply (IH (length s)); simpl; [lia|done|congruence].
  - rewrite replace_other by done. cbn [drop_isolated isolated_star]. rewrite bool_decide_false by naive_solver.
    rewrite decide_True by done. f_equal. apply (IH (length s)); simpl; [lia|done|congruence].
Qed.

Lemma backticks_removed s : replace s (lit "`") [] = filter (λ c, c ≠ backtick) s.
Proof.
  induction s as [|c s IH]; [done|]. unfold replace in *. cbn [replace_from]. rewrite filter_cons.
  destruct (starts_with (c :: s) (lit "`")) eqn:E.
  - apply starts_with_spec in E as [t [= -> ->]]. rewrite decide_False by (intros H; by apply H).
    exact IH.
  - rewrite IH. case_decide as Hc; [done|]. exfalso. subst c.
    assert (starts_with (backtick :: s) (lit "`") = true) by (apply starts_with_spec; by exists s). congruence.
Qed.

Definition unmarked (s : str) : str := filter (λ c, c ≠ star ∧ c ≠ backtick) s.

Lemma unmarked_eq s : filter (λ c, c ≠ backtick) (filter (λ c, c ≠ star) s) = unmarked s.
Proof.
  rewrite list_filter_filter. apply list_filter_iff. intros c. split; by intros [? ?].
Qed.

Lemma links_chars c s : c ∉ s → c ∉ lit " ()" → c ∉ links plain_link s.
Proof.
  intros Hs Hc. remember (count "["%char s) as n eqn:Hn. revert s Hn Hs. induction (lt_wf n) as [n _ IH].
  intros s -> Hs. rewrite (links_unfold plain_link). destruct (link_step plain_link s) as [s'|] eqn:E; [|done].
  apply (IH _ (link_step_less _ _ _ E) s' eq_refl).
  apply link_step_Some in E as (a & t & u & b & -> & ->). unfold plain_link.
  rewrite !not_elem_of_app in *. change (lit " ()") with (lit " (" ++ lit ")") in Hc.
  rewrite not_elem_of_app in Hc. naive_solver.
Qed.

(** Plain text is the text without its stars and backticks, with its links
    written out; no star, backtick or complete link is left, and the loop that
    writes the links out ends. *)
Theorem plain_text_clean text :
  let r := markdown_to_plain text in
  r = links plain_link (unmarked text)
  ∧ star ∉ r ∧ backtick ∉ r
  ∧ ∀ a t u b, r ≠ a ++ lit "[" ++ t ++ lit "](" ++ u ++ lit ")" ++ b.
Proof.
  assert (markdown_to_plain text = links plain_link (unmarked text)) as E.
  { unfold markdown_to_plain. by rewrite stars_removed, backticks_removed, unmarked_eq. }
  cbv zeta. rewrite E. split_and!; [done| | |intros a t u b; apply (links_complete plain_link)].
  - apply links_chars; [|vm_compute; intros H; repeat (inversion H as [|? ? ? H0]; clear H; rename H0 into H)].
    unfold unmarked. rewrite list_elem_of_filter. naive_solver.
  - apply links_chars; [|vm_compute; intros H; repeat (inversion H as [|? ? ? H0]; clear H; rename H0 into H)].
    unfold unmarked. rewrite list_elem_of_filter. naive_solver.
Qed.

(** A bracketed remark before a link becomes part of the link's text. *)
Example link_swallows_brackets :
  markdown_to_slack_mrkdwn (lit "[1] see [docs](u)") = lit "<u|1] see [docs>".
Proof. vm_compute. reflexivity. Qed.

(** Text is not escaped for HTML, and a star that opens a list stays open. *)
Example telegram_html_unescaped :
  markdown_to_telegram_html (lit "* a<b") = lit "<i> a<b".
Proof. vm_compute. reflexivity. Qed.
