(* ===== verification/ChannelBridge.v ===== *)
(** * The channel bridge

    [openfang-channels/src/bridge.rs] with the message types of
    [openfang-channels/src/types.rs] and the overrides of
    [openfang-types/src/config.rs]: what is done with a message from a channel.

    The kernel is behind the trait [ChannelBridgeHandle], here a class over the
    type of its states; every method may change the state. A dispatch is a
    computation in a state monad over the kernel, the router, the buckets of
    the rate limiter and what the adapter has been told to send. The results
    of the adapter's calls are only logged. [now] is the time, in nanoseconds,
    at which the limiter looks at its clock, and [order] the order in which the
    tasks of a parallel broadcast reach the kernel; a task that is not in it
    panicked. *)

From Stdlib Require Import Ascii ZArith Lia SpecFloat Sorted.
From stdpp Require Import base gmap strings list.
From S2P Require Import Prelude Strs Formatter ChannelRouter.

(** ** Messages *)

Record ChannelUser : Type := mkChannelUser {
  platform_id : str;
  display_name : str;
  openfang_user : option str
}.

Inductive ChannelContent : Type :=
| Text (t : str)
| Image (url : str) (caption : option str)
| File (url filename : str)
| Voice (url : str) (duration_seconds : Z)
| Location (lat lon : spec_float)
| Command (name : str) (args : list str).

Inductive DmPolicy : Type := Respond | AllowedOnly | IgnoreDm.
Inductive GroupPolicy : Type := AllGroup | MentionOnly | CommandsOnly | IgnoreGroup.
Inductive UsageFooterMode : Type := FooterOff | FooterTokens | FooterCost | FooterFull.
Inductive TypingMode : Type := TypingInstant | TypingMessage | TypingThinking | TypingNever.

Record ChannelOverrides : Type := mkOverrides {
  model : option str;
  system_prompt : option str;
  dm_policy : DmPolicy;
  group_policy : GroupPolicy;
  rate_limit_per_user : Z;
  threading : bool;
  output_format : option OutputFormat;
  usage_footer : option UsageFooterMode;
  typing_mode : option TypingMode
}.

Definition default_overrides : ChannelOverrides :=
  mkOverrides None None Respond MentionOnly 0 false None None None.

Definition channel_type_str (ct : ChannelType) : str := channel_type_to_str ct.

Section Messages.
Context {AgentId Json : Type}.

Record ChannelMessage : Type := mkChannelMessage {
  msg_channel : ChannelType;
  platform_message_id : str;
  msg_sender : ChannelUser;
  msg_content : ChannelContent;
  target_agent : option AgentId;
  timestamp : Z;
  is_group : bool;
  msg_thread : option str;
  metadata : gmap str Json
}.
End Messages.
Arguments ChannelMessage : clear implicits.

(** ** The rate limiter *)

Definition MINUTE_NS : Z := 60 * 1000000000.

Definition rate_error (max_per_minute : Z) : str :=
  lit "Rate limit exceeded (" ++ show_Z max_per_minute ++ lit " messages/minute). Please wait.".

Definition check (buckets : gmap str (list Z)) (channel_type user : str) (max_per_minute now : Z)
    : gmap str (list Z) * result unit str :=
  if (max_per_minute =? 0)%Z then (buckets, Ok tt)
  else
    let key := channel_type ++ lit ":" ++ user in
    let entry := filter (λ ts, now - ts < MINUTE_NS)%Z (default [] (buckets !! key)) in
    if (max_per_minute <=? Z.of_nat (length entry))%Z
    then (<[ key := entry ]> buckets, Err (rate_error max_per_minute))
    else (<[ key := entry ++ [now] ]> buckets, Ok tt).

(** ** The interface to the kernel *)

Class ChannelBridgeHandle (K AgentId : Type) := {
  send_message : AgentId → str → K → K * result str str;
  find_agent_by_name : str → K → K * result (option AgentId) str;
  list_agents : K → K * result (list (AgentId * str)) str;
  spawn_agent_by_name : str → K → K * result AgentId str;
  uptime_info : K → K * str;
  list_models_text : K → K * str;
  list_providers_text : K → K * str;
  reset_session : AgentId → K → K * result str str;
  compact_session : AgentId → K → K * result str str;
  set_model : AgentId → str → K → K * result str str;
  stop_run : AgentId → K → K * result str str;
  session_usage : AgentId → K → K * result str str;
  set_thinking : AgentId → bool → K → K * result str str;
  list_skills_text : K → K * str;
  list_hands_text : K → K * str;
  authorize_channel_user : str → str → str → K → K * result unit str;
  channel_overrides : str → K → K * option ChannelOverrides;
  record_delivery : AgentId → str → str → bool → option str → K → K;
  check_auto_reply : AgentId → str → K → K * option str;
  list_workflows_text : K → K * str;
  run_workflow_text : str → str → K → K * str;
  list_triggers_text : K → K * str;
  create_trigger_text : str → str → str → K → K * str;
  delete_trigger_text : str → K → K * str;
  list_schedules_text : K → K * str;
  manage_schedule_text : str → list str → K → K * str;
  list_approvals_text : K → K * str;
  resolve_approval_text : str → bool → K → K * str;
  budget_text : K → K * str;
  peers_text : K → K * str;
  a2a_agents_text : K → K * str
}.

(** What the adapter is told to do. *)
Inductive Outgoing : Type :=
| Typing (user : ChannelUser)
| Reply (user : ChannelUser) (text : str) (thread : option str).

Definition text_commands : list str :=
  [ lit "start"; lit "help"; lit "agents"; lit "agent"; lit "status"; lit "models"; lit "providers";
    lit "new"; lit "compact"; lit "model"; lit "stop"; lit "usage"; lit "think"; lit "skills";
    lit "hands"; lit "workflows"; lit "workflow"; lit "triggers"; lit "trigger"; lit "schedules";
    lit "schedule"; lit "approvals"; lit "approve"; lit "reject"; lit "budget"; lit "peers"; lit "a2a" ].

(** [text.splitn(2, ' ')], the command without its slash, and its arguments. *)
Definition split_command (text : str) : str * list str :=
  match find text (lit " ") with
  | Some n => (drop 1 (take n text), split_whitespace (drop (n + 1) text))
  | None => (drop 1 text, [])
  end.

Definition text_command (text : str) : option (str * list str) :=
  if starts_with text (lit "/") then
    let '(cmd, args) := split_command text in
    if existsb (str_eqb cmd) text_commands then Some (cmd, args) else None
  else None.

(** ** Dispatch *)

Section Dispatch.
Context {K AgentId Json : Type} {handle : ChannelBridgeHandle K AgentId}.
Context (debug_channel : ChannelType → str).

Record World : Type := mkWorld {
  kernel : K;
  router : AgentRouter (AgentId := AgentId);
  buckets : gmap str (list Z);
  outbox : list Outgoing
}.

Definition M (A : Type) : Type := World → World * A.
#[local] Instance M_ret : MRet M := λ _ x w, (w, x).
#[local] Instance M_bind : MBind M := λ _ _ f m w, let '(w', x) := m w in f x w'.

Definition call {A} (f : K → K * A) : M A :=
  λ w, let '(k, x) := f (kernel w) in (mkWorld k (router w) (buckets w) (outbox w), x).

Definition update_router (f : AgentRouter (AgentId := AgentId) → AgentRouter (AgentId := AgentId)) : M unit :=
  λ w, (mkWorld (kernel w) (f (router w)) (buckets w) (outbox w), tt).

Definition get_router : M (AgentRouter (AgentId := AgentId)) := λ w, (w, router w).

Definition emit (o : Outgoing) : M unit :=
  λ w, (mkWorld (kernel w) (router w) (buckets w) (outbox w ++ [o]), tt).

Definition rate_check (channel_type user : str) (max now : Z) : M (result unit str) :=
  λ w, let '(b, r) := check (buckets w) channel_type user max now in
       (mkWorld (kernel w) (router w) b (outbox w), r).

Definition send_response (user : ChannelUser) (text : str) (thread : option str) (f : OutputFormat) : M unit :=
  emit (Reply user (format_for_channel text f) thread).

(** [.unwrap_or_else(|e| format!("Error: {e}"))] *)
Definition or_error (r : result str str) : str :=
  match r with Ok s => s | Err e => lit "Error: " ++ e end.

(** [.unwrap_or_default()] on a list *)
Definition or_nil {A} (r : result (list A) str) : list A := match r with Ok l => l | Err _ => [] end.

Definition nl : str := [newline].

Definition list_names (agents : list (AgentId * str)) : str :=
  concat ((λ a, lit "  - " ++ a.2 ++ nl) <$> agents).

Definition start_text (agents : list (AgentId * str)) : str :=
  lit "Welcome to OpenFang! I connect you to AI agents." ++ nl ++ nl ++ lit "Available agents:" ++ nl
  ++ (match agents with [] => lit "  (none running)" ++ nl | _ => list_names agents end)
  ++ nl ++ lit "Commands:" ++ nl ++ lit "/agents - list agents" ++ nl
  ++ lit "/agent <name> - select an agent" ++ nl ++ lit "/help - show this help".

Definition help_text : str :=
  join [ lit "OpenFang Bot Commands:"; [];
    lit "Session:";
    lit "/agents - list running agents";
    lit "/agent <name> - select which agent to talk to";
    lit "/new - reset session (clear messages)";
    lit "/compact - trigger LLM session compaction";
    lit "/model [name] - show or switch agent model";
    lit "/stop - cancel current agent run";
    lit "/usage - show session token usage and cost";
    lit "/think [on|off] - toggle extended thinking"; [];
    lit "Info:";
    lit "/models - list available AI models";
    lit "/providers - show configured providers";
    lit "/skills - list installed skills";
    lit "/hands - list available and active hands";
    lit "/status - show system status"; [];
    lit "Automation:";
    lit "/workflows - list workflows";
    lit "/workflow run <name> [input] - run a workflow";
    lit "/triggers - list event triggers";
    lit "/trigger add <agent> <pattern> <prompt> - create trigger";
    lit "/trigger del <id> - remove trigger";
    lit "/schedules - list cron jobs";
    lit "/schedule add <agent> <cron-5-fields> <message> - create job";
    lit "/schedule del <id> - remove job";
    lit "/schedule run <id> - run job now";
    lit "/approvals - list pending approvals";
    lit "/approve <id> - approve a request";
    lit "/reject <id> - reject a request"; [];
    lit "Monitoring:";
    lit "/budget - show spending limits and current costs";
    lit "/peers - show OFP peer network status";
    lit "/a2a - list discovered external A2A agents"; [];
    lit "/start - show welcome message";
    lit "/help - show this help" ] nl.

Definition agents_text (agents : list (AgentId * str)) : str :=
  match agents with
  | [] => lit "No agents running."
  | _ => lit "Running agents:" ++ nl ++ list_names agents
  end.

Definition select_agent (sender : ChannelUser) (args : list str) : M str :=
  match args with
  | [] => mret (lit "Usage: /agent <name>")
  | agent_name :: _ =>
      found ← call (find_agent_by_name agent_name);
      match found with
      | Ok (Some agent_id) =>
          update_router (λ r, set_user_default r (platform_id sender) agent_id);;
          mret (lit "Now talking to agent: " ++ agent_name)
      | Ok None =>
          spawned ← call (spawn_agent_by_name agent_name);
          match spawned with
          | Ok agent_id =>
              update_router (λ r, set_user_default r (platform_id sender) agent_id);;
              mret (lit "Spawned and connected to agent: " ++ agent_name)
          | Err e => mret (lit "Agent '" ++ agent_name ++ lit "' not found and could not spawn: " ++ e)
          end
      | Err e => mret (lit "Error finding agent: " ++ e)
      end
  end.

(** The commands on the sender's current agent: the router is asked for the
    channel [CLI], whatever channel the command came from. *)
Definition on_current (sender : ChannelUser) (f : AgentId → K → K * result str str) : M str :=
  r ← get_router;
  match resolve debug_channel r CLI (platform_id sender) (openfang_user sender) with
  | Some aid => x ← call (f aid); mret (or_error x)
  | None => mret (lit "No agent selected. Use /agent <name> first.")
  end.

Definition run_workflow (args : list str) : M str :=
  match args with
  | sub :: wf_name :: input =>
      if str_eqb sub (lit "run") then call (run_workflow_text wf_name (join input (lit " ")))
      else mret (lit "Usage: /workflow run <name> [input]")
  | _ => mret (lit "Usage: /workflow run <name> [input]")
  end.

Definition trigger_usage : str :=
  lit "Usage:" ++ nl ++ lit "  /trigger add <agent> <pattern> <prompt>" ++ nl ++ lit "  /trigger del <id-prefix>".

Definition manage_trigger (args : list str) : M str :=
  match args with
  | sub :: agent_name :: rest =>
      if str_eqb sub (lit "add") && (2 <=? length rest) then
        match rest with
        | pattern :: prompt => call (create_trigger_text agent_name pattern (join prompt (lit " ")))
        | [] => mret trigger_usage
        end
      else if str_eqb sub (lit "del") then call (delete_trigger_text agent_name)
      else mret trigger_usage
  | _ => mret trigger_usage
  end.

Definition schedule_usage : str :=
  lit "Usage:" ++ nl ++ lit "  /schedule add <agent> <cron-5-fields> <message>" ++ nl
  ++ lit "  /schedule del <id-prefix>" ++ nl ++ lit "  /schedule run <id-prefix>".

Definition manage_schedule (args : list str) : M str :=
  match args with
  | [] => mret schedule_usage
  | action :: rest =>
      if existsb (str_eqb action) [lit "add"; lit "del"; lit "run"]
      then call (manage_schedule_text action rest) else mret schedule_usage
  end.

Definition decide_approval (approve : bool) (args : list str) : M str :=
  match args with
  | [] => mret (if approve then lit "Usage: /approve <id-prefix>" else lit "Usage: /reject <id-prefix>")
  | prefix :: _ => call (resolve_approval_text prefix approve)
  end.

Definition handle_command (name : str) (args : list str) (sender : ChannelUser) : M str :=
  if str_eqb name (lit "start") then l ← call list_agents; mret (start_text (or_nil l))
  else if str_eqb name (lit "help") then mret help_text
  else if str_eqb name (lit "status") then call uptime_info
  else if str_eqb name (lit "agents") then l ← call list_agents; mret (agents_text (or_nil l))
  else if str_eqb name (lit "agent") then select_agent sender args
  else if str_eqb name (lit "new") then on_current sender reset_session
  else if str_eqb name (lit "compact") then on_current sender compact_session
  else if str_eqb name (lit "model") then on_current sender (λ aid, set_model aid (default [] (head args)))
  else if str_eqb name (lit "stop") then on_current sender stop_run
  else if str_eqb name (lit "usage") then on_current sender session_usage
  else if str_eqb name (lit "think") then
    on_current sender (λ aid, set_thinking aid
      match head args with Some a => str_eqb a (lit "on") | None => true end)
  else if str_eqb name (lit "models") then call list_models_text
  else if str_eqb name (lit "providers") then call list_providers_text
  else if str_eqb name (lit "skills") then call list_skills_text
  else if str_eqb name (lit "hands") then call list_hands_text
  else if str_eqb name (lit "workflows") then call list_workflows_text
  else if str_eqb name (lit "workflow") then run_workflow args
  else if str_eqb name (lit "triggers") then call list_triggers_text
  else if str_eqb name (lit "trigger") then manage_trigger args
  else if str_eqb name (lit "schedules") then call list_schedules_text
  else if str_eqb name (lit "schedule") then manage_schedule args
  else if str_eqb name (lit "approvals") then call list_approvals_text
  else if str_eqb name (lit "approve") then decide_approval true args
  else if str_eqb name (lit "reject") then decide_approval false args
  else if str_eqb name (lit "budget") then call budget_text
  else if str_eqb name (lit "peers") then call peers_text
  else if str_eqb name (lit "a2a") then call a2a_agents_text
  else mret (lit "Unknown command: /" ++ name).

(** ** Policies *)

Definition is_command (c : ChannelContent) : bool :=
  match c with
  | Command _ _ => true
  | Text t => starts_with t (lit "/")
  | _ => false
  end.

(** Whether a message passes the policy for groups or direct messages. *)
Definition admitted (ov : option ChannelOverrides) (message : ChannelMessage AgentId Json) : bool :=
  match ov with
  | None => true
  | Some ov =>
      if is_group message then
        match group_policy ov with
        | IgnoreGroup => false
        | CommandsOnly => is_command (msg_content message)
        | MentionOnly | AllGroup => true
        end
      else match dm_policy ov with IgnoreDm => false | AllowedOnly | Respond => true end
  end.

Definition rate_limited (ov : option ChannelOverrides) (ct user : str) (now : Z) : M (result unit str) :=
  match ov with
  | Some ov =>
      if (0 <? rate_limit_per_user ov)%Z then rate_check ct user (rate_limit_per_user ov) now
      else mret (Ok tt)
  | None => mret (Ok tt)
  end.

(** ** Broadcasts *)

Definition known_targets (targets : list (str * option AgentId)) : list (str * AgentId) :=
  omap (λ t : str * option AgentId, (λ aid, (t.1, aid)) <$> t.2) targets.

Definition tagged (name : str) (r : result str str) : str :=
  lit "[" ++ name ++ lit "]: " ++ or_error r.

Fixpoint send_each (targets : list (str * AgentId)) (text : str) : M (list str) :=
  match targets with
  | [] => mret []
  | (name, aid) :: ts => r ← call (send_message aid text); rs ← send_each ts text; mret (tagged name r :: rs)
  end.

(** The tasks in the order they are served, with their results by position. *)
Fixpoint serve_tasks (targets : list (str * AgentId)) (text : str) (order : list nat) : M (gmap nat str) :=
  match order with
  | [] => mret ∅
  | i :: order =>
      match targets !! i with
      | Some (name, aid) =>
          r ← call (send_message aid text); rs ← serve_tasks targets text order; mret (<[ i := tagged name r ]> rs)
      | None => serve_tasks targets text order
      end
  end.

Definition send_parallel (targets : list (str * AgentId)) (text : str) (order : list nat) : M (list str) :=
  rs ← serve_tasks targets text order;
  mret (omap (λ i, rs !! i) (seq 0 (length targets))).

(** ** A message *)

Definition deliver (ct : str) (sender : ChannelUser) (text : str) (thread : option str) (f : OutputFormat)
    (agent_id : AgentId) : M unit :=
  auto ← call (check_auto_reply agent_id text);
  match auto with
  | Some reply =>
      send_response sender reply thread f;;
      call (λ k, (record_delivery agent_id ct (platform_id sender) true None k, tt))
  | None =>
      emit (Typing sender);;
      r ← call (send_message agent_id text);
      match r with
      | Ok response =>
          send_response sender response thread f;;
          call (λ k, (record_delivery agent_id ct (platform_id sender) true None k, tt))
      | Err e =>
          let err_msg := lit "Agent error: " ++ e in
          send_response sender err_msg thread f;;
          call (λ k, (record_delivery agent_id ct (platform_id sender) false (Some err_msg) k, tt))
      end
  end.

(** [body] if the sender may chat. *)
Definition authorized (ct : str) (sender : ChannelUser) (thread : option str) (f : OutputFormat)
    (body : M unit) : M unit :=
  allowed ← call (authorize_channel_user ct (platform_id sender) (lit "chat"));
  match allowed with
  | Ok _ => body
  | Err denied => send_response sender (lit "Access denied: " ++ denied) thread f
  end.

Definition no_agent_text : str :=
  lit "No agent assigned. Use /agents to list available agents, then /agent <name> to select one.".

Definition route_text (message : ChannelMessage AgentId Json) (ct text : str) (thread : option str)
    (f : OutputFormat) (order : list nat) : M unit :=
  let sender := msg_sender message in
  r ← get_router;
  let targets := resolve_broadcast r (platform_id sender) in
  if has_broadcast r (platform_id sender) && negb (bool_decide (targets = [])) then
    authorized ct sender thread f (
      emit (Typing sender);;
      responses ← match strategy (broadcast r) with
                  | Parallel => send_parallel (known_targets targets) text order
                  | Sequential => send_each (known_targets targets) text
                  end;
      send_response sender (join responses (nl ++ nl)) thread f)
  else
    match resolve debug_channel r (msg_channel message) (platform_id sender) (openfang_user sender) with
    | None => send_response sender no_agent_text thread f
    | Some agent_id => authorized ct sender thread f (deliver ct sender text thread f agent_id)
    end.

Definition dispatch_message (message : ChannelMessage AgentId Json) (now : Z) (order : list nat) : M unit :=
  let ct := channel_type_str (msg_channel message) in
  let sender := msg_sender message in
  overrides ← call (channel_overrides ct);
  let f := default Markdown (overrides ≫= output_format) in
  let thread := if default false (threading <$> overrides) then msg_thread message else None in
  if negb (admitted overrides message) then mret tt
  else
    limit ← rate_limited overrides ct (platform_id sender) now;
    match limit with
    | Err e => send_response sender e thread f
    | Ok _ =>
        match msg_content message with
        | Command name args =>
            result ← handle_command name args sender; send_response sender result thread f
        | Text text =>
            match text_command text with
            | Some (cmd, args) =>
                result ← handle_command cmd args sender; send_response sender result thread f
            | None => route_text message ct text thread f order
            end
        | _ => send_response sender (lit "I can only handle text messages for now.") thread f
        end
    end.

(** ** What a sender who may not chat can do *)

(** A message the bridge answers itself. *)
Definition command_of (c : ChannelContent) : option (str * list str) :=
  match c with
  | Command name args => Some (name, args)
  | Text t => text_command t
  | _ => None
  end.

Lemma send_response_eq u t th f w :
  send_response u t th f w =
  (mkWorld (kernel w) (router w) (buckets w) (outbox w ++ [Reply u (format_for_channel t f) th]), tt).
Proof. done. Qed.

Lemma rate_limited_kernel ov ct user now w w' r :
  rate_limited ov ct user now w = (w', r) →
  kernel w' = kernel w ∧ router w' = router w ∧ outbox w' = outbox w.
Proof.
  unfold rate_limited, rate_check. destruct ov as [ov|]; [|by intros [= <- _]].
  case_match; [|by intros [= <- _]]. destruct (check _ _ _ _ _). by intros [= <- _].
Qed.

(** The world after a body the sender is refused: a reply, nothing else. *)
Lemma authorized_denied ct u th f body w k e :
  authorize_channel_user ct (platform_id u) (lit "chat") (kernel w) = (k, Err e) →
  authorized ct u th f body w =
  (mkWorld k (router w) (buckets w)
     (outbox w ++ [Reply u (format_for_channel (lit "Access denied: " ++ e) f) th]), tt).
Proof. intros Ha. unfold authorized, mbind, M_bind, call. by rewrite Ha. Qed.

Lemma route_text_denied message ct text th f order w k e :
  authorize_channel_user ct (platform_id (msg_sender message)) (lit "chat") (kernel w) = (k, Err e) →
  ∃ o k', (route_text message ct text th f order w).1 = mkWorld k' (router w) (buckets w) (outbox w ++ [o])
    ∧ (k' = kernel w ∨ k' = k).
Proof.
  intros Ha. unfold route_text, get_router. unfold mbind at 1, M_bind at 1. cbv zeta beta iota.
  case_match; [rewrite (authorized_denied _ _ _ _ _ _ _ _ Ha); eauto|].
  case_match; [rewrite (authorized_denied _ _ _ _ _ _ _ _ Ha); eauto|].
  rewrite send_response_eq. eauto.
Qed.

Lemma dispatch_denied message now order w k1 ov k2 e :
  let ct := channel_type_str (msg_channel message) in
  channel_overrides ct (kernel w) = (k1, ov) →
  authorize_channel_user ct (platform_id (msg_sender message)) (lit "chat") k1 = (k2, Err e) →
  command_of (msg_content message) = None →
  ∃ k b replies, (dispatch_message message now order w).1 = mkWorld k (router w) b (outbox w ++ replies)
    ∧ (k = k1 ∨ k = k2) ∧ length replies ≤ 1.
Proof.
  intros ct Hov Ha Hc. unfold dispatch_message. cbv zeta. fold ct. unfold mbind at 1, M_bind at 1.
  unfold call at 1. rewrite Hov. cbv beta iota. set (w1 := mkWorld k1 _ _ _).
  case_match.
  { exists k1, (buckets w), []. rewrite app_nil_r. split; [done|]. split; [by left|simpl; lia]. }
  unfold mbind at 1, M_bind at 1. destruct (rate_limited _ _ _ _ w1) as [w2 limit] eqn:Hr.
  apply rate_limited_kernel in Hr as (Hk & Hro & Ho). cbn [kernel router outbox w1] in Hk, Hro, Ho.
  destruct limit as [[]|err].
  2: { rewrite send_response_eq, Hk, Hro, Ho. eexists _, _, [_]. split; [done|]. split; [by left|done]. }
  unfold command_of in Hc. destruct (msg_content message); try done;
    try (rewrite send_response_eq, Hk, Hro, Ho; eexists _, _, [_]; split; [done|]; split; [by left|done]).
  rewrite Hc. rewrite <-Hk in Ha.
    match goal with |- context [route_text message ct t ?th ?f order w2] =>
    destruct (route_text_denied message ct t th f order w2 k2 e Ha) as (o & k' & -> & Hk') end.
  rewrite Hro, Ho. rewrite Hk in Hk'. eexists _, _, [_]. split; [done|]. split; [done|done].
Qed.

(** C21: A message that is no command of the bridge, from a sender who may not
    chat, reaches no agent: beyond the questions for the overrides and the
    permission the kernel is not called, the routes do not change, and the
    sender gets at most one reply. *)
Theorem denied_sender_reaches_no_agent message now order w k1 ov k2 e :
  let ct := channel_type_str (msg_channel message) in
  channel_overrides ct (kernel w) = (k1, ov) →
  authorize_channel_user ct (platform_id (msg_sender message)) (lit "chat") k1 = (k2, Err e) →
  command_of (msg_content message) = None →
  let w' := (dispatch_message message now order w).1 in
  (kernel w' = k1 ∨ kernel w' = k2) ∧ router w' = router w
  ∧ ∃ replies, outbox w' = outbox w ++ replies ∧ length replies ≤ 1.
Proof.
  intros ct Hov Ha Hc.
  destruct (dispatch_denied message now order w k1 ov k2 e Hov Ha Hc) as (k & b & replies & -> & Hk & Hl).
  cbn [kernel router outbox]. eauto.
Qed.

(** A command is carried out whatever the permissions of its sender: the world
    after it is that of the handler, with the reply. *)
Lemma command_dispatched message now order w k1 name args :
  let ct := channel_type_str (msg_channel message) in
  channel_overrides ct (kernel w) = (k1, None) →
  command_of (msg_content message) = Some (name, args) →
  let '(w', reply) := handle_command name args (msg_sender message)
                        (mkWorld k1 (router w) (buckets w) (outbox w)) in
  (dispatch_message message now order w).1 =
  mkWorld (kernel w') (router w') (buckets w') (outbox w' ++ [Reply (msg_sender message) reply None]).
Proof.
  intros ct Hov Hc. destruct (handle_command _ _ _ _) as [w' reply] eqn:Eh.
  unfold dispatch_message. cbv zeta. fold ct. unfold mbind at 1, M_bind at 1.
  unfold call at 1. rewrite Hov. cbn [admitted negb default fmap option_fmap option_map].
  unfold mbind at 1, M_bind at 1. cbn [rate_limited]. unfold mret at 1, M_ret at 1. cbv beta iota.
  unfold command_of in Hc. destruct (msg_content message); try done.
  - rewrite Hc. cbv beta iota. unfold mbind at 1, M_bind at 1. rewrite Eh. by rewrite send_response_eq.
  - injection Hc as -> ->. unfold mbind at 1, M_bind at 1. rewrite Eh. by rewrite send_response_eq.
Qed.

(** A text for no broadcast, from a sender who may chat, goes to the agent
    the router chooses, and to no other; the sender gets the agent's reply, or
    its error, and the delivery is recorded as it turned out. *)
Theorem allowed_text_delivered message now order w k1 k2 k3 k4 text a r :
  let ct := channel_type_str (msg_channel message) in
  let sender := msg_sender message in
  msg_content message = Text text → text_command text = None →
  channel_overrides ct (kernel w) = (k1, None) →
  has_broadcast (router w) (platform_id sender) = false →
  resolve debug_channel (router w) (msg_channel message) (platform_id sender) (openfang_user sender) = Some a →
  authorize_channel_user ct (platform_id sender) (lit "chat") k1 = (k2, Ok tt) →
  check_auto_reply a text k2 = (k3, None) →
  send_message a text k3 = (k4, r) →
  let reply := match r with Ok s => s | Err e => lit "Agent error: " ++ e end in
  let failure := match r with Ok _ => None | Err _ => Some reply end in
  (dispatch_message message now order w).1 =
  mkWorld (record_delivery a ct (platform_id sender) (is_ok r) failure k4)
    (router w) (buckets w) (outbox w ++ [Typing sender; Reply sender reply None]).
Proof.
  intros ct sender Hm Hc Hov Hb Hr Ha Hauto Hs. cbv zeta. unfold dispatch_message. cbv zeta. fold ct sender.
  unfold mbind at 1, M_bind at 1. unfold call at 1. rewrite Hov. cbn [admitted negb default fmap option_fmap option_map].
  unfold mbind at 1, M_bind at 1. cbn [rate_limited]. unfold mret at 1, M_ret at 1. cbv beta iota.
  rewrite Hm, Hc. unfold route_text, get_router. unfold mbind at 1, M_bind at 1. cbn [router]. cbv zeta.
  fold sender. rewrite Hb. cbn [andb]. rewrite Hr. unfold authorized. unfold mbind at 1, M_bind at 1.
  unfold call at 1. cbn [kernel]. rewrite Ha. cbv beta iota. unfold deliver. unfold mbind at 1, M_bind at 1.
  unfold call at 1. cbn [kernel]. rewrite Hauto. cbv beta iota.
  unfold mbind, M_bind, emit, call. cbn [kernel]. rewrite Hs.
  destruct r as [x|x]; rewrite send_response_eq; cbn [kernel router buckets outbox fst is_ok];
    by rewrite <-(app_assoc (outbox w)).
Qed.
End Dispatch.

(** ** The rate limit *)

Definition user_key (channel_type user : str) : str := channel_type ++ lit ":" ++ user.

(** Checks at given times against one limit: the buckets, and the keys and
    times of those let through. *)
Definition check_step (max : Z) (st : gmap str (list Z) * list (str * Z)) (ev : str * str * Z)
    : gmap str (list Z) * list (str * Z) :=
  let '(b, acc) := st in
  let '(ct, user, now) := ev in
  let '(b', r) := check b ct user max now in
  (b', if is_ok r then acc ++ [(user_key ct user, now)] else acc).

Definition check_run (max : Z) (evs : list (str * str * Z)) : gmap str (list Z) * list (str * Z) :=
  foldl (check_step max) (∅, []) evs.

Definition times_of (key : str) (acc : list (str * Z)) : list Z := (filter (λ p, p.1 = key) acc).*2.

Definition in_window (t : Z) (ts : Z) : Prop := (t - MINUTE_NS < ts ≤ t)%Z.
#[local] Instance in_window_dec t ts : Decision (in_window t ts) := and_dec _ _.

Definition LimitInv (max last : Z) (st : gmap str (list Z) * list (str * Z)) : Prop :=
  (∀ key, Forall (λ ts, ts ≤ last)%Z (times_of key st.2))
  ∧ (∀ key t, (last ≤ t)%Z →
      filter (λ ts, t - ts < MINUTE_NS)%Z (default [] (st.1 !! key))
      = filter (λ ts, t - ts < MINUTE_NS)%Z (times_of key st.2))
  ∧ ∀ key t, (Z.of_nat (length (filter (in_window t) (times_of key st.2))) ≤ max)%Z.

Lemma times_of_snoc key acc k t :
  times_of key (acc ++ [(k, t)]) = if decide (k = key) then times_of key acc ++ [t] else times_of key acc.
Proof.
  unfold times_of. rewrite filter_app, filter_cons, filter_nil. simpl. case_decide.
  - by rewrite fmap_app.
  - by rewrite app_nil_r.
Qed.

(** What is old at [now] is old later. *)
Lemma filter_recent_later now t (l : list Z) :
  (now ≤ t)%Z →
  filter (λ ts, t - ts < MINUTE_NS)%Z (filter (λ ts, now - ts < MINUTE_NS)%Z l)
  = filter (λ ts, t - ts < MINUTE_NS)%Z l.
Proof. intros. apply list_filter_filter_l. intros ts ?. lia. Qed.

Lemma window_recent now t (l : list Z) :
  (now ≤ t)%Z → length (filter (in_window t) l) ≤ length (filter (λ ts, now - ts < MINUTE_NS)%Z l).
Proof.
  intros Ht. apply sublist_length. induction l as [|x l IH]; [done|]. rewrite !filter_cons.
  unfold in_window at 1. case_decide; case_decide; try (by constructor); [lia|done].
Qed.

Lemma check_step_inv max last st ct user now :
  (0 < max)%Z → (last ≤ now)%Z → LimitInv max last st → LimitInv max now (check_step max st (ct, user, now)).
Proof.
  destruct st as [b acc]. intros Hmax Hn (Hle & Hb & Hw). unfold check_step, check. fold (user_key ct user).
  rewrite (proj2 (Z.eqb_neq max 0)) by lia. cbv zeta. set (key := user_key ct user).
  cbn [fst snd] in *. rewrite (Hb key now Hn).
  assert (∀ k, Forall (λ ts, ts ≤ now)%Z (times_of k acc)) as Hle'.
  { intros k. eapply Forall_impl; [apply Hle|]. simpl. lia. }
  destruct (Z.leb_spec max (Z.of_nat (length (filter (λ ts, now - ts < MINUTE_NS)%Z (times_of key acc))))) as [Hfull|Hroom].
  - split; [done|]. split; [|done]. intros k t Ht. cbn [fst snd is_ok].
    destruct (decide (k = key)) as [->|Hne].
    + rewrite lookup_insert_eq. simpl. by apply filter_recent_later.
    + rewrite lookup_insert_ne by done. apply Hb. lia.
  - cbn [is_ok]. split_and!; cbn [fst snd].
    + intros k. rewrite times_of_snoc. case_decide; [|done]. apply Forall_app. split; [done|by repeat constructor].
    + intros k t Ht. rewrite times_of_snoc. destruct (decide (key = k)) as [<-|Hne].
      * rewrite lookup_insert_eq. cbn [default id]. rewrite !filter_app. f_equal. by apply filter_recent_later.
      * rewrite lookup_insert_ne by done. apply Hb. lia.
    + intros k t. rewrite times_of_snoc. case_decide as E; [subst k|apply Hw].
      rewrite filter_app, length_app, filter_cons, filter_nil. destruct (decide (now ≤ t)%Z) as [Hnt|Hnt].
      * pose proof (window_recent now t (times_of key acc) Hnt).
        case_decide; simpl; lia.
      * rewrite decide_False by (unfold in_window; lia). simpl. rewrite Nat.add_0_r. apply Hw.
Qed.

Lemma check_run_inv max evs last :
  (0 < max)%Z → Sorted Z.le (evs.*2 ++ [last]) → LimitInv max last (check_run max evs).
Proof.
  intros Hmax Hs. revert last Hs. induction evs as [|[[ct user] now] evs IH] using rev_ind; intros last Hs.
  - split_and!; [constructor|done|]. intros. simpl. lia.
  - unfold check_run. rewrite foldl_snoc. fold (check_run max evs).
    rewrite fmap_app, <-app_assoc in Hs. cbn [fmap list_fmap snd] in Hs.
    assert (Sorted Z.le (evs.*2 ++ [now]) ∧ (now ≤ last)%Z) as [Hs1 Hl].
    { clear -Hs. simpl in Hs. induction evs.*2 as [|x l IHl]; simpl in *.
      - inversion Hs as [|? ? ? Hh]; subst. inversion Hh; subst. split; [by repeat constructor|done].
      - inversion Hs as [|? ? Hs' Hh]; subst. destruct (IHl Hs') as [? ?]. split; [|done]. constructor; [done|].
        destruct l; inversion Hh; subst; by constructor. }
    pose proof (check_step_inv max now (check_run max evs) ct user now Hmax (Z.le_refl _) (IH now Hs1)) as (A & B & C).
    split_and!; [|intros k t Ht; apply B; lia|done].
    intros k. eapply Forall_impl; [apply A|]. simpl. lia.
Qed.

(** With a limit of [max] messages a minute, whatever messages arrive from
    whichever users, in the order of their times, no user has more than [max]
    of them let through within any sixty seconds. *)
Theorem rate_limit_bound max evs last channel_type user t :
  (0 < max)%Z → Sorted Z.le (evs.*2 ++ [last]) →
  (Z.of_nat (length (filter (in_window t) (times_of (user_key channel_type user) (check_run max evs).2))) ≤ max)%Z.
Proof. intros Hmax Hs. by apply (check_run_inv max evs last Hmax Hs). Qed.

Definition demo_checks : list (str * str * Z) :=
  [ (lit "telegram", lit "u", 0%Z); (lit "telegram", lit "u", 1%Z); (lit "telegram", lit "u", 2%Z);
    (lit "telegram", lit "v", 2%Z); (lit "telegram", lit "u", MINUTE_NS) ].

Lemma rate_limit_bound_witness :
  (check_run 2 demo_checks).2 =
    [ (lit "telegram:u", 0%Z); (lit "telegram:u", 1%Z); (lit "telegram:v", 2%Z); (lit "telegram:u", MINUTE_NS) ]
  ∧ (Z.of_nat (length (filter (in_window 5) (times_of (user_key (lit "telegram") (lit "u")) (check_run 2 demo_checks).2))) ≤ 2)%Z.
Proof.
  split; [vm_compute; reflexivity|].
  apply (rate_limit_bound 2 demo_checks MINUTE_NS (lit "telegram") (lit "u") 5); [lia|].
  unfold demo_checks. repeat constructor; vm_compute; discriminate.
Defined.

(** ** A kernel that logs what it is asked *)

Definition logs {A} (what : str) (x : A) (k : list str) : list str * A := (k ++ [what], x).

Definition demo_handle : ChannelBridgeHandle (list str) nat := {|
  send_message _ t := logs (lit "send " ++ t) (Ok (lit "hello"));
  find_agent_by_name _ := logs (lit "find") (Ok None);
  list_agents := logs (lit "list") (Ok []);
  spawn_agent_by_name _ := logs (lit "spawn") (Err (lit "no"));
  uptime_info := logs (lit "uptime") [];
  list_models_text := logs (lit "models") [];
  list_providers_text := logs (lit "providers") [];
  reset_session _ := logs (lit "reset") (Ok []);
  compact_session _ := logs (lit "compact") (Ok []);
  set_model _ _ := logs (lit "model") (Ok []);
  stop_run _ := logs (lit "stop") (Ok []);
  session_usage _ := logs (lit "usage") (Ok []);
  set_thinking _ _ := logs (lit "think") (Ok []);
  list_skills_text := logs (lit "skills") [];
  list_hands_text := logs (lit "hands") [];
  authorize_channel_user _ user _ k :=
    (k, if str_eqb user (lit "blocked") then Err (lit "no access") else Ok tt);
  channel_overrides _ k := (k, None);
  record_delivery _ _ _ ok _ k := k ++ [if ok then lit "delivered" else lit "failed"];
  check_auto_reply _ _ k := (k, None);
  list_workflows_text := logs (lit "workflows") [];
  run_workflow_text _ _ := logs (lit "workflow") [];
  list_triggers_text := logs (lit "triggers") [];
  create_trigger_text _ _ _ := logs (lit "trigger") [];
  delete_trigger_text _ := logs (lit "untrigger") [];
  list_schedules_text := logs (lit "schedules") [];
  manage_schedule_text _ _ := logs (lit "schedule") [];
  list_approvals_text := logs (lit "approvals") [];
  resolve_approval_text i _ := logs (lit "approve " ++ i) [];
  budget_text := logs (lit "budget") [];
  peers_text := logs (lit "peers") [];
  a2a_agents_text := logs (lit "a2a") []
|}.

Definition demo_message (user text : str) : ChannelMessage nat unit :=
  mkChannelMessage Telegram (lit "m1") (mkChannelUser user user None) (Text text) None 0 false None ∅.

Definition demo_world : World (K := list str) (AgentId := nat) :=
  mkWorld [] (set_default new_router 7) ∅ [].

Lemma denied_sender_reaches_no_agent_witness :
  kernel (dispatch_message (handle := demo_handle) (λ _, []) (demo_message (lit "blocked") (lit "hi")) 0 []
            demo_world).1 = []
  ∧ router (dispatch_message (handle := demo_handle) (λ _, []) (demo_message (lit "blocked") (lit "hi")) 0 []
              demo_world).1 = router demo_world.
Proof.
  destruct (denied_sender_reaches_no_agent (handle := demo_handle) (λ _, [])
    (demo_message (lit "blocked") (lit "hi")) 0 [] demo_world [] None [] (lit "no access")
    eq_refl ltac:(vm_compute; reflexivity) ltac:(vm_compute; reflexivity)) as ([H|H] & Hr & _); by split.
Defined.

Lemma allowed_text_delivered_witness :
  (dispatch_message (handle := demo_handle) (λ _, []) (demo_message (lit "u") (lit "hi")) 0 [] demo_world).1 =
  mkWorld [lit "send hi"; lit "delivered"] (set_default new_router 7) ∅
    [Typing (mkChannelUser (lit "u") (lit "u") None);
     Reply (mkChannelUser (lit "u") (lit "u") None) (lit "hello") None].
Proof.
  exact (allowed_text_delivered (handle := demo_handle) (λ _, []) (demo_message (lit "u") (lit "hi")) 0 []
    demo_world [] [] [] [lit "send hi"] (lit "hi") 7 (Ok (lit "hello"))
    eq_refl eq_refl eq_refl eq_refl eq_refl eq_refl eq_refl eq_refl).
Defined.

(** A command of a sender whose messages are refused is carried out. *)
Example blocked_sender_approves :
  kernel (dispatch_message (handle := demo_handle) (λ _, []) (demo_message (lit "blocked") (lit "/approve 1f"))
            0 [] demo_world).1 = [lit "approve 1f"].
Proof. vm_compute. reflexivity. Qed.
