(* ===== verification/ChannelApprovals.v ===== *)
(** * Approvals and permissions behind the channel bridge

    The methods [authorize_channel_user] and [resolve_approval_text] that
    [openfang-api/src/channel_bridge.rs] implements on the kernel, over the
    users of [Rbac] and the approvals of [Approval]; the other methods are those
    of any handle. It composes the bridge, the permissions and the approvals. *)

From Stdlib Require Import Ascii ZArith Lia.
From stdpp Require Import base gmap strings list.
From S2P Require Import Prelude Strs Approval Rbac Formatter ChannelRouter ChannelBridge.

Section Kernel.
Context {Uuid : Type} `{Countable Uuid} (uuid_to_string : Uuid → str).
Context {UserId : Type} `{Countable UserId}.

Record KernelState : Type := mkKernelState {
  auth : AuthManager (UserId := UserId);
  approvals : Approval.World (Uuid := Uuid)
}.

Definition matching (w : Approval.World (Uuid := Uuid)) (id_prefix : str) : list ApprovalRequest :=
  filter (λ r, starts_with (uuid_to_string (Approval.id r)) id_prefix = true) (list_pending (manager w)).

Definition resolved_text (approve : bool) (r : ApprovalRequest (Uuid := Uuid)) : str :=
  (if approve then lit "Approved" else lit "Rejected") ++ lit " [" ++ take 8 (uuid_to_string (Approval.id r))
  ++ lit "] " ++ Approval.tool_name r ++ lit " " ++ bytes [226; 128; 148] ++ lit " " ++ Approval.agent_id r.

Definition resolve_approval (w : Approval.World) (id_prefix : str) (approve : bool)
    : Approval.World * str :=
  match matching w id_prefix with
  | [] => (w, lit "No pending approval matching '" ++ id_prefix ++ lit "'.")
  | [r] =>
      let d := if approve then Approved else Denied in
      match Approval.resolve uuid_to_string w (Approval.id r) d (Some (lit "channel")) with
      | (w', Ok _) => (w', resolved_text approve r)
      | (w', Err e) => (w', lit "Failed to resolve approval: " ++ e)
      end
  | l => (w, show_nat (length l) ++ lit " approvals match '" ++ id_prefix ++ lit "'. Be more specific.")
  end.

Context {AgentId : Type}.

(** [h] with the two methods of the kernel. *)
Definition kernel_handle (h : ChannelBridgeHandle KernelState AgentId) : ChannelBridgeHandle KernelState AgentId := {|
  send_message := send_message;
  find_agent_by_name := find_agent_by_name;
  list_agents := list_agents;
  spawn_agent_by_name := spawn_agent_by_name;
  uptime_info := uptime_info;
  list_models_text := list_models_text;
  list_providers_text := list_providers_text;
  reset_session := reset_session;
  compact_session := compact_session;
  set_model := set_model;
  stop_run := stop_run;
  session_usage := session_usage;
  set_thinking := set_thinking;
  list_skills_text := list_skills_text;
  list_hands_text := list_hands_text;
  authorize_channel_user ct user action k :=
    (k, Rbac.authorize_channel_user (auth k) ct user action);
  channel_overrides := channel_overrides;
  record_delivery := record_delivery;
  check_auto_reply := check_auto_reply;
  list_workflows_text := list_workflows_text;
  run_workflow_text := run_workflow_text;
  list_triggers_text := list_triggers_text;
  create_trigger_text := create_trigger_text;
  delete_trigger_text := delete_trigger_text;
  list_schedules_text := list_schedules_text;
  manage_schedule_text := manage_schedule_text;
  list_approvals_text := list_approvals_text;
  resolve_approval_text id_prefix approve k :=
    let '(w, reply) := resolve_approval (approvals k) id_prefix approve in
    (mkKernelState (auth k) w, reply);
  budget_text := budget_text;
  peers_text := peers_text;
  a2a_agents_text := a2a_agents_text
|}.

Context (h : ChannelBridgeHandle KernelState AgentId) (debug_channel : ChannelType → str) {Json : Type}.

Abbreviation Bridge := (ChannelBridge.World (K := KernelState) (AgentId := AgentId)).

(** [resolve_approval] decides the one request that matches. *)
Lemma resolve_approval_one w id_prefix approve r p :
  matching w id_prefix = [r] → pending (manager w) !! Approval.id r = Some p →
  (resolve_approval w id_prefix approve).1 =
  Approval.mkWorld (mkManager (delete (Approval.id r) (pending (manager w))) (policy (manager w)))
    (alter (send (if approve then Approved else Denied)) (sender p) (tasks w)) (clock w).
Proof. intros Hm Hp. unfold resolve_approval, Approval.resolve. rewrite Hm, Hp. done. Qed.

Lemma handle_approve (w : Bridge) args id_prefix u :
  let '(k, _) := resolve_approval (approvals (kernel w)) id_prefix true in
  (handle_command (handle := kernel_handle h) debug_channel (lit "approve") (id_prefix :: args) u w).1 =
  ChannelBridge.mkWorld (mkKernelState (auth (kernel w)) k) (router w) (buckets w) (outbox w).
Proof.
  destruct (resolve_approval _ _ _) as [k t] eqn:E.
  unfold handle_command. repeat (case_match; [done|]).
  destruct (str_eqb (lit "approve") (lit "approve")) eqn:E1; [|done].
  unfold decide_approval, call. simpl. by rewrite E.
Qed.

(** C16: A sender whom the permissions refuse every action approves a pending
    request: the command [/approve] is carried out before the permissions are
    asked. The request leaves the pending ones and the task that waits for it
    is sent the approval. *)
Theorem refused_sender_approves (message : ChannelMessage AgentId Json) now order (w : Bridge) k1 id_prefix args r p :
  let ct := channel_type_str (msg_channel message) in
  channel_overrides ct (kernel w) = (k1, None) →
  (∀ action, Rbac.authorize_channel_user (auth k1) ct (platform_id (msg_sender message)) action ≠ Ok tt) →
  command_of (msg_content message) = Some (lit "approve", id_prefix :: args) →
  matching (approvals k1) id_prefix = [r] →
  pending (manager (approvals k1)) !! Approval.id r = Some p →
  let w' := (dispatch_message (handle := kernel_handle h) debug_channel message now order w).1 in
  pending (manager (approvals (kernel w'))) = delete (Approval.id r) (pending (manager (approvals k1)))
  ∧ tasks (approvals (kernel w')) = alter (send Approved) (sender p) (tasks (approvals k1)).
Proof.
  intros ct Hov _ Hc Hm Hp.
  pose proof (command_dispatched (handle := kernel_handle h) debug_channel message now order w k1
    (lit "approve") (id_prefix :: args) Hov Hc) as Hd.
  pose proof (handle_approve (ChannelBridge.mkWorld k1 (router w) (buckets w) (outbox w)) args id_prefix
    (msg_sender message)) as Ha.
  pose proof (resolve_approval_one (approvals k1) id_prefix true r p Hm Hp) as Hr.
  cbn [kernel router buckets outbox] in Ha. destruct (resolve_approval _ _ _) as [k t]. cbn [fst] in Hr. subst k.
  destruct (handle_command _ _ _ _ _) as [w2 reply]. cbn [fst] in Ha. subst w2. cbv zeta. rewrite Hd. done.
Qed.
End Kernel.

(** One waiting request of agent [a] for [shell_exec]. *)
Definition demo_request : ApprovalRequest (Uuid := nat) :=
  mkRequest 5 (lit "a") (lit "shell_exec") [] [] Critical 0 60.
Definition demo_state : KernelState (Uuid := nat) (UserId := nat) :=
  mkKernelState (new_auth demo_users)
    (Approval.mkWorld (mkManager {[ 5 := mkPending demo_request 0 ]} default_policy)
       [mkTask demo_request (Waiting 60) Open] 1).

Definition quiet_handle : ChannelBridgeHandle (KernelState (Uuid := nat) (UserId := nat)) nat := {|
  send_message _ _ k := (k, Ok []);
  find_agent_by_name _ k := (k, Ok None);
  list_agents k := (k, Ok []);
  spawn_agent_by_name _ k := (k, Err []);
  uptime_info k := (k, []);
  list_models_text k := (k, []);
  list_providers_text k := (k, []);
  reset_session _ k := (k, Ok []);
  compact_session _ k := (k, Ok []);
  set_model _ _ k := (k, Ok []);
  stop_run _ k := (k, Ok []);
  session_usage _ k := (k, Ok []);
  set_thinking _ _ k := (k, Ok []);
  list_skills_text k := (k, []);
  list_hands_text k := (k, []);
  authorize_channel_user _ _ _ k := (k, Ok tt);
  channel_overrides _ k := (k, None);
  record_delivery _ _ _ _ _ k := k;
  check_auto_reply _ _ k := (k, None);
  list_workflows_text k := (k, []);
  run_workflow_text _ _ k := (k, []);
  list_triggers_text k := (k, []);
  create_trigger_text _ _ _ k := (k, []);
  delete_trigger_text _ k := (k, []);
  list_schedules_text k := (k, []);
  manage_schedule_text _ _ k := (k, []);
  list_approvals_text k := (k, []);
  resolve_approval_text _ _ k := (k, []);
  budget_text k := (k, []);
  peers_text k := (k, []);
  a2a_agents_text k := (k, [])
|}.

(** A stranger on Telegram approves the command. *)
Lemma refused_sender_approves_witness :
  tasks (approvals (kernel (dispatch_message (handle := kernel_handle show_nat quiet_handle) (λ _, [])
    (demo_message (lit "stranger") (lit "/approve 5")) 0 []
    (ChannelBridge.mkWorld demo_state new_router ∅ [])).1))
  = [mkTask demo_request (Waiting 60) (Sent Approved)].
Proof.
  destruct (refused_sender_approves show_nat quiet_handle (λ _, [])
    (demo_message (lit "stranger") (lit "/approve 5")) 0 []
    (ChannelBridge.mkWorld demo_state new_router ∅ []) demo_state (lit "5") [] demo_request
    (mkPending demo_request 0) eq_refl) as [_ Ht].
  - intros action. vm_compute. discriminate.
  - vm_compute. reflexivity.
  - vm_compute. reflexivity.
  - vm_compute. reflexivity.
  - rewrite Ht. reflexivity.
Defined.
