(* ===== verification/Cron.v ===== *)
(** * Cron scheduler

    The job types and their validation, [openfang-types/src/scheduler.rs], and
    the scheduler that keeps the jobs, [openfang-kernel/src/cron.rs].

    Times are nanoseconds on the UTC clock, read once per operation and passed
    as [now] (two reads for [At] jobs in [add_job], one to validate and none to
    compute the next run). Reading and writing the file is left out: [load]
    starts from the outcome of reading and parsing it, [persist] ends at the
    list that is serialized. A [u64] interval becomes an [i64]; the panics of
    the date arithmetic far beyond the validated intervals are not modelled. *)

From Stdlib Require Import Ascii ZArith Lia.
From stdpp Require Import base gmap strings list.
From S2P Require Import Prelude Strs.

Local Open Scope result_scope.

Definition MAX_JOBS_PER_AGENT : nat := 50.
Definition MAX_NAME_LEN : nat := 128.
Definition MIN_EVERY_SECS : Z := 60.
Definition MAX_EVERY_SECS : Z := 86400.
Definition MAX_AT_HORIZON_SECS : Z := 365 * 24 * 3600.
(* Lengths of thousands of bytes are compared as integers. *)
Definition MAX_EVENT_TEXT_LEN : Z := 4096.
Definition MAX_TURN_MESSAGE_LEN : Z := 16384.
Definition MIN_TIMEOUT_SECS : Z := 10.
Definition MAX_TIMEOUT_SECS : Z := 600.
Definition MAX_WEBHOOK_URL_LEN : Z := 2048.
Definition MAX_CONSECUTIVE_ERRORS : Z := 5.

Inductive CronSchedule : Type :=
| At (at_ : Z)
| Every (every_secs : Z)
| CronExpr (expr : str) (tz : option str).

Inductive CronAction : Type :=
| SystemEvent (text : str)
| AgentTurn (message : str) (model_override : option str) (timeout_secs : option Z).

Inductive CronDelivery : Type :=
| DeliverNone
| Channel (channel to : str)
| LastChannel
| Webhook (url : str).

Definition len (s : str) : Z := Z.of_nat (length s).

Definition seconds (n : Z) : Z := n * 1000000000.

(** [x as i64] for a [u64]. *)
Definition u64_as_i64 (x : Z) : Z :=
  if (x <? 9223372036854775808)%Z then x else (x - 18446744073709551616)%Z.

Definition compute_next_run (schedule : CronSchedule) (now : Z) : Z :=
  match schedule with
  | At t => t
  | Every every_secs => now + seconds (u64_as_i64 every_secs)
  | CronExpr _ _ => now + seconds 60
  end.

(** ** Validation *)

Definition cron_char (c : str) : bool :=
  match c with
  | [c] => ascii_digit c || bool_decide (c ∈ ["*"; "/"; "-"; ","; "?"]%char)
  | _ => false
  end.

Fixpoint validate_fields (i : nat) (fields : list str) : result unit str :=
  match fields with
  | [] => Ok tt
  | field :: rest =>
      if is_empty field then Err (lit "cron field " ++ show_nat i ++ lit " is empty")
      else if negb (forallb cron_char (chars field))
      then Err (lit "cron field " ++ show_nat i ++ lit " contains invalid characters: "
                ++ bytes [34] ++ field ++ bytes [34])
      else validate_fields (S i) rest
  end.

Definition validate_cron_expr (expr : str) : result unit str :=
  let trimmed := trim expr in
  if is_empty trimmed then Err (lit "cron expression must not be empty")
  else
    let fields := split_whitespace trimmed in
    if negb (length fields =? 5)%nat
    then Err (lit "cron expression must have exactly 5 fields (got " ++ show_nat (length fields)
              ++ lit "): " ++ bytes [34] ++ trimmed ++ bytes [34])
    else validate_fields 0 fields.

Definition validate_schedule (schedule : CronSchedule) (now : Z) : result unit str :=
  match schedule with
  | Every s =>
      if (s <? MIN_EVERY_SECS)%Z
      then Err (lit "every_secs too small (" ++ show_Z s ++ lit ", min " ++ show_Z MIN_EVERY_SECS
                ++ lit ")")
      else if (MAX_EVERY_SECS <? s)%Z
      then Err (lit "every_secs too large (" ++ show_Z s ++ lit ", max " ++ show_Z MAX_EVERY_SECS
                ++ lit ")")
      else Ok tt
  | At t =>
      if (t <=? now)%Z then Err (lit "scheduled time must be in the future")
      else
        let delta := Z.quot (t - now) 1000000000 in
        if (MAX_AT_HORIZON_SECS <? delta)%Z
        then Err (lit "scheduled time too far in the future (max " ++ show_Z MAX_AT_HORIZON_SECS
                  ++ lit "s / ~1 year)")
        else Ok tt
  | CronExpr expr _ => validate_cron_expr expr
  end.

Definition validate_timeout (t : Z) : result unit str :=
  if (t <? MIN_TIMEOUT_SECS)%Z
  then Err (lit "timeout_secs too small (" ++ show_Z t ++ lit ", min " ++ show_Z MIN_TIMEOUT_SECS
            ++ lit ")")
  else if (MAX_TIMEOUT_SECS <? t)%Z
  then Err (lit "timeout_secs too large (" ++ show_Z t ++ lit ", max " ++ show_Z MAX_TIMEOUT_SECS
            ++ lit ")")
  else Ok tt.

Definition validate_action (action : CronAction) : result unit str :=
  match action with
  | SystemEvent text =>
      if is_empty text then Err (lit "system event text must not be empty")
      else if (MAX_EVENT_TEXT_LEN <? len text)%Z
      then Err (lit "system event text too long (" ++ show_Z (len text) ++ lit " chars, max "
                ++ show_Z MAX_EVENT_TEXT_LEN ++ lit ")")
      else Ok tt
  | AgentTurn message _ timeout_secs =>
      if is_empty message then Err (lit "agent turn message must not be empty")
      else if (MAX_TURN_MESSAGE_LEN <? len message)%Z
      then Err (lit "agent turn message too long (" ++ show_Z (len message) ++ lit " chars, max "
                ++ show_Z MAX_TURN_MESSAGE_LEN ++ lit ")")
      else match timeout_secs with
           | Some t => validate_timeout t
           | None => Ok tt
           end
  end.

Definition validate_delivery (delivery : CronDelivery) : result unit str :=
  match delivery with
  | Channel channel to =>
      if is_empty channel then Err (lit "delivery channel must not be empty")
      else if is_empty to then Err (lit "delivery recipient must not be empty")
      else Ok tt
  | Webhook url =>
      if negb (starts_with url (lit "http://")) && negb (starts_with url (lit "https://"))
      then Err (lit "webhook URL must start with http:// or https://")
      else if (MAX_WEBHOOK_URL_LEN <? len url)%Z
      then Err (lit "webhook URL too long (" ++ show_Z (len url) ++ lit " chars, max "
                ++ show_Z MAX_WEBHOOK_URL_LEN ++ lit ")")
      else Ok tt
  | DeliverNone | LastChannel => Ok tt
  end.

Section cron.
Context {AgentId JobId : Type} `{Countable JobId} `{EqDecision AgentId} `{UnicodeAlnum}.
Context (show_job : JobId → str).

Record CronJob : Type := mkJob {
  job_id : JobId;
  agent_id : AgentId;
  name : str;
  enabled : bool;
  schedule : CronSchedule;
  action : CronAction;
  delivery : CronDelivery;
  created_at : Z;
  last_run : option Z;
  next_run : option Z
}.

Definition name_char (c : str) : bool :=
  is_alphanumeric c || str_eqb c (lit " ") || str_eqb c (lit "-") || str_eqb c (lit "_").

Definition validate (job : CronJob) (existing_count : nat) (now : Z) : result unit str :=
  if (MAX_JOBS_PER_AGENT <=? existing_count)%nat
  then Err (lit "agent already has " ++ show_nat existing_count ++ lit " jobs (max "
            ++ show_nat MAX_JOBS_PER_AGENT ++ lit ")")
  else if is_empty (name job) then Err (lit "name must not be empty")
  else if (MAX_NAME_LEN <? length (name job))%nat
  then Err (lit "name too long (" ++ show_nat (length (name job)) ++ lit " chars, max "
            ++ show_nat MAX_NAME_LEN ++ lit ")")
  else if negb (forallb name_char (chars (name job)))
  then Err (lit "name may only contain alphanumeric characters, spaces, hyphens, and underscores")
  else
    let? _ := validate_schedule (schedule job) now in
    let? _ := validate_action (action job) in
    let? _ := validate_delivery (delivery job) in
    Ok tt.

(** ** The scheduler *)

Record JobMeta : Type := mkMeta {
  job : CronJob;
  one_shot : bool;
  last_status : option str;
  consecutive_errors : Z
}.

Definition new_meta (j : CronJob) (one_shot : bool) : JobMeta := mkMeta j one_shot None 0.

Record CronScheduler : Type := mkScheduler {
  jobs : gmap JobId JobMeta;
  max_total_jobs : nat
}.

Inductive OpenFangError : Type :=
| Internal (msg : str)
| InvalidInput (msg : str).

Definition new_scheduler (max : nat) : CronScheduler := mkScheduler ∅ max.

Definition set_max_total_jobs (s : CronScheduler) (new_max : nat) : CronScheduler :=
  mkScheduler (jobs s) new_max.

(** What reading and parsing the file gave. *)
Inductive JobFile : Type :=
| NoFile
| ReadError (e : str)
| ParseError (e : str)
| Parsed (metas : list JobMeta).

Definition load (s : CronScheduler) (file : JobFile)
    : CronScheduler * result nat OpenFangError :=
  match file with
  | NoFile => (s, Ok 0%nat)
  | ReadError e => (s, Err (Internal (lit "Failed to read cron jobs: " ++ e)))
  | ParseError e => (s, Err (Internal (lit "Failed to parse cron jobs: " ++ e)))
  | Parsed metas =>
      (mkScheduler (foldl (λ js m, <[job_id (job m) := m]> js) (jobs s) metas) (max_total_jobs s),
       Ok (length metas))
  end.

(** The list that is serialized, in the order the map yields. *)
Definition persist (s : CronScheduler) : list JobMeta := (map_to_list (jobs s)).*2.

Definition set_next_run (j : CronJob) (t : Z) : CronJob :=
  mkJob (job_id j) (agent_id j) (name j) (enabled j) (schedule j) (action j) (delivery j)
    (created_at j) (last_run j) (Some t).
Definition set_last_run (j : CronJob) (t : Z) : CronJob :=
  mkJob (job_id j) (agent_id j) (name j) (enabled j) (schedule j) (action j) (delivery j)
    (created_at j) (Some t) (next_run j).
Definition set_job_enabled (j : CronJob) (b : bool) : CronJob :=
  mkJob (job_id j) (agent_id j) (name j) b (schedule j) (action j) (delivery j)
    (created_at j) (last_run j) (next_run j).

Definition agent_count (s : CronScheduler) (a : AgentId) : nat :=
  length (List.filter (λ m, bool_decide (agent_id (job m) = a)) (map_to_list (jobs s)).*2).

Definition add_job (s : CronScheduler) (j : CronJob) (one_shot : bool) (now : Z)
    : CronScheduler * result JobId OpenFangError :=
  if (max_total_jobs s <=? size (jobs s))%nat
  then (s, Err (Internal (lit "Global cron job limit reached (" ++ show_nat (max_total_jobs s)
                          ++ lit ")")))
  else
    match validate j (agent_count s (agent_id j)) now with
    | Err e => (s, Err (InvalidInput e))
    | Ok _ =>
        let j := set_next_run j (compute_next_run (schedule j) now) in
        (mkScheduler (<[job_id j := new_meta j one_shot]> (jobs s)) (max_total_jobs s),
         Ok (job_id j))
    end.

Definition not_found (id : JobId) : OpenFangError :=
  Internal (lit "Cron job " ++ show_job id ++ lit " not found").

Definition remove_job (s : CronScheduler) (id : JobId)
    : CronScheduler * result CronJob OpenFangError :=
  match jobs s !! id with
  | Some meta => (mkScheduler (delete id (jobs s)) (max_total_jobs s), Ok (job meta))
  | None => (s, Err (not_found id))
  end.

Definition set_enabled (s : CronScheduler) (id : JobId) (b : bool) (now : Z)
    : CronScheduler * result unit OpenFangError :=
  match jobs s !! id with
  | Some meta =>
      let j := set_job_enabled (job meta) b in
      let meta :=
        if b then mkMeta (set_next_run j (compute_next_run (schedule j) now)) (one_shot meta)
                    (last_status meta) 0
        else mkMeta j (one_shot meta) (last_status meta) (consecutive_errors meta) in
      (mkScheduler (<[id := meta]> (jobs s)) (max_total_jobs s), Ok tt)
  | None => (s, Err (not_found id))
  end.

Definition get_job (s : CronScheduler) (id : JobId) : option CronJob := job <$> jobs s !! id.
Definition get_meta (s : CronScheduler) (id : JobId) : option JobMeta := jobs s !! id.

Definition list_all_jobs (s : CronScheduler) : list CronJob := job <$> (map_to_list (jobs s)).*2.

Definition list_jobs (s : CronScheduler) (a : AgentId) : list CronJob :=
  List.filter (λ j, bool_decide (agent_id j = a)) (list_all_jobs s).

Definition total_jobs (s : CronScheduler) : nat := size (jobs s).

Definition is_due (j : CronJob) (now : Z) : bool :=
  enabled j && match next_run j with Some t => (t <=? now)%Z | None => false end.

Definition due_jobs (s : CronScheduler) (now : Z) : list CronJob :=
  List.filter (λ j, is_due j now) (list_all_jobs s).

Definition record_success (s : CronScheduler) (id : JobId) (now : Z) : CronScheduler :=
  match jobs s !! id with
  | None => s
  | Some meta =>
      let j := set_last_run (job meta) now in
      if one_shot meta then mkScheduler (delete id (jobs s)) (max_total_jobs s)
      else
        let j := set_next_run j (compute_next_run (schedule j) now) in
        mkScheduler (<[id := mkMeta j (one_shot meta) (Some (lit "ok")) 0]> (jobs s))
          (max_total_jobs s)
  end.

(** [None] where the source panics, on the slice of the message. *)
Definition record_failure (s : CronScheduler) (id : JobId) (error_msg : str) (now : Z)
    : option CronScheduler :=
  match jobs s !! id with
  | None => Some s
  | Some meta =>
      match slice_to error_msg (length error_msg `min` 256) with
      | None => None
      | Some shown =>
          let j := set_last_run (job meta) now in
          let errors := wrapping_add_u32 (consecutive_errors meta) 1 in
          let j :=
            if (MAX_CONSECUTIVE_ERRORS <=? errors)%Z then set_job_enabled j false
            else set_next_run j (compute_next_run (schedule j) now) in
          Some (mkScheduler
            (<[id := mkMeta j (one_shot meta) (Some (lit "error: " ++ shown)) errors]> (jobs s))
            (max_total_jobs s))
      end
  end.

(** ** Reachable schedulers *)

Inductive reachable (max : nat) : CronScheduler → Prop :=
| reach_new : reachable max (new_scheduler max)
| reach_add s j os now : reachable max s → reachable max (add_job s j os now).1
| reach_remove s id : reachable max s → reachable max (remove_job s id).1
| reach_enabled s id b now : reachable max s → reachable max (set_enabled s id b now).1
| reach_success s id now : reachable max s → reachable max (record_success s id now)
| reach_failure s id msg now s' :
    reachable max s → record_failure s id msg now = Some s' → reachable max s'.

Definition meta_ok (id : JobId) (m : JobMeta) : Prop :=
  job_id (job m) = id ∧ (0 ≤ consecutive_errors m ≤ u32_max)%Z ∧
  (enabled (job m) = true → (consecutive_errors m < MAX_CONSECUTIVE_ERRORS)%Z) ∧
  ∃ n now, validate (job m) n now = Ok tt.

(** The jobs of an agent, as a map. *)
Definition jobs_of (a : AgentId) (js : gmap JobId JobMeta) : gmap JobId JobMeta :=
  filter (λ kv, agent_id (job kv.2) = a) js.

Record inv (max : nat) (s : CronScheduler) : Prop := {
  inv_ok : map_Forall meta_ok (jobs s);
  inv_max : max_total_jobs s = max;
  inv_total : size (jobs s) ≤ max;
  inv_agent a : size (jobs_of a (jobs s)) ≤ MAX_JOBS_PER_AGENT
}.

Lemma agent_count_size s a : agent_count s a = size (jobs_of a (jobs s)).
Proof.
  unfold agent_count, jobs_of. induction (jobs s) as [|k m js Hk IH] using map_ind.
  { by rewrite map_to_list_empty, map_filter_empty, map_size_empty. }
  assert ((map_to_list (<[k:=m]> js)).*2 ≡ₚ m :: (map_to_list js).*2) as Hp
    by (by rewrite map_to_list_insert).
  rewrite (length_List_filter_perm _ _ _ Hp). simpl. case_bool_decide as Ha; simpl; rewrite IH.
  - rewrite map_filter_insert_True by done. rewrite map_size_insert_None; [done|].
    apply map_lookup_filter_None. by left.
  - rewrite map_filter_insert_False by done. by rewrite delete_id.
Qed.

Lemma jobs_of_delete_le a js k : size (jobs_of a (delete k js)) ≤ size (jobs_of a js).
Proof. unfold jobs_of. rewrite map_filter_delete. apply map_subseteq_size, delete_subseteq. Qed.

Lemma jobs_of_insert_le a js k m :
  size (jobs_of a (<[k := m]> js)) ≤
  size (jobs_of a js) + if bool_decide (agent_id (job m) = a) then 1 else 0.
Proof.
  unfold jobs_of. rewrite map_filter_insert. simpl. case_decide as Ha.
  - rewrite bool_decide_eq_true_2 by done. rewrite map_size_insert. case_match; simpl; lia.
  - rewrite bool_decide_eq_false_2, Nat.add_0_r by done. apply jobs_of_delete_le.
Qed.

(** Replacing a job of the same agent. *)
Lemma jobs_of_replace_le a js k m m' :
  js !! k = Some m → agent_id (job m') = agent_id (job m) →
  size (jobs_of a (<[k := m']> js)) ≤ size (jobs_of a js).
Proof.
  intros Hk Ha. unfold jobs_of. rewrite map_filter_insert. simpl. case_decide as Hd.
  - rewrite map_size_insert_Some; [done|]. exists m. apply map_lookup_filter_Some. split; [done|].
    simpl. congruence.
  - apply jobs_of_delete_le.
Qed.

(** Replacing an entry by a good one of the same agent keeps the invariant. *)
Lemma inv_replace max s id m m' :
  inv max s → jobs s !! id = Some m → meta_ok id m' → agent_id (job m') = agent_id (job m) →
  inv max (mkScheduler (<[id := m']> (jobs s)) (max_total_jobs s)).
Proof.
  intros [Hok Hmax Htot Hag] Hid Hm' Ha. split; simpl.
  - by apply map_Forall_insert_2.
  - done.
  - by rewrite map_size_insert_Some by eauto.
  - intros a. etrans; [by eapply jobs_of_replace_le|done].
Qed.

Lemma inv_delete max s id : inv max s → inv max (mkScheduler (delete id (jobs s)) (max_total_jobs s)).
Proof.
  intros [Hok Hmax Htot Hag]. split; simpl.
  - by apply map_Forall_delete.
  - done.
  - etrans; [apply map_subseteq_size, delete_subseteq|done].
  - intros a. etrans; [apply jobs_of_delete_le|done].
Qed.

(** [validate] looks at the fields the scheduler never changes. *)
Lemma validate_same j j' n now :
  name j' = name j → schedule j' = schedule j → action j' = action j → delivery j' = delivery j →
  validate j' n now = validate j n now.
Proof. intros E1 E2 E3 E4. unfold validate. by rewrite E1, E2, E3, E4. Qed.

Lemma validate_count j n now :
  validate j n now = Ok tt → n < MAX_JOBS_PER_AGENT.
Proof.
  unfold validate. destruct (Nat.leb_spec MAX_JOBS_PER_AGENT n); [done|lia].
Qed.

Lemma inv_add max s j os now : inv max s → inv max (add_job s j os now).1.
Proof.
  intros Hinv. unfold add_job. destruct (Nat.leb_spec (max_total_jobs s) (size (jobs s))); [done|].
  destruct (validate j _ now) as [[]|e] eqn:Ev; [|done]. destruct Hinv as [Hok Hmax Htot Hag].
  pose proof (validate_count _ _ _ Ev) as Hn. rewrite agent_count_size in Hn.
  split; cbn [fst jobs max_total_jobs].
  - apply map_Forall_insert_2; [|done]. split_and!; [done|done|done|done|].
    exists (agent_count s (agent_id j)), now. by rewrite <-Ev; apply validate_same.
  - done.
  - rewrite map_size_insert. case_match; simpl; lia.
  - intros a. etrans; [apply jobs_of_insert_le|]. case_bool_decide as Ha; simpl in *; subst; [lia|].
    specialize (Hag a). lia.
Qed.

Lemma inv_enabled max s id b now : inv max s → inv max (set_enabled s id b now).1.
Proof.
  intros Hinv. unfold set_enabled. destruct (jobs s !! id) as [m|] eqn:Hm; [|done].
  destruct (inv_ok _ _ Hinv _ _ Hm) as (Hid & He & Hen & n & t & Hv).
  apply (inv_replace max s id m); [done|done| |by destruct b].
  destruct b; simpl.
  - split_and!; [done|done|done|done|]. exists n, t. by rewrite <-Hv; apply validate_same.
  - split_and!; [done|apply He|apply He|done|]. exists n, t. by rewrite <-Hv; apply validate_same.
Qed.

Lemma inv_success max s id now : inv max s → inv max (record_success s id now).
Proof.
  intros Hinv. unfold record_success. destruct (jobs s !! id) as [m|] eqn:Hm; [|done].
  destruct (one_shot m) eqn:Eos; [by apply inv_delete|].
  destruct (inv_ok _ _ Hinv _ _ Hm) as (Hid & He & Hen & n & t & Hv).
  apply (inv_replace max s id m); [done|done| |done].
  split_and!; [done|done|done|done|]. exists n, t. by rewrite <-Hv; apply validate_same.
Qed.

Lemma inv_failure max s id msg now s' :
  inv max s → record_failure s id msg now = Some s' → inv max s'.
Proof.
  intros Hinv. unfold record_failure. destruct (jobs s !! id) as [m|] eqn:Hm; [|by intros [= <-]].
  destruct (slice_to _ _); [|done]. intros [= <-].
  destruct (inv_ok _ _ Hinv _ _ Hm) as (Hid & He & Hen & n & t & Hv).
  assert (0 ≤ wrapping_add_u32 (consecutive_errors m) 1 ≤ u32_max)%Z as Hw.
  { unfold wrapping_add_u32.
    pose proof (Z.mod_pos_bound (consecutive_errors m + 1) (u32_max + 1) ltac:(done)). lia. }
  apply (inv_replace max s id m); [done|done| |by destruct (_ <=? _)%Z].
  destruct (Z.leb_spec MAX_CONSECUTIVE_ERRORS (wrapping_add_u32 (consecutive_errors m) 1));
    (split_and!; [done|apply Hw|apply Hw|simpl; (done || lia)|exists n, t]);
    by rewrite <-Hv; apply validate_same.
Qed.

Lemma cron_reachable_inv max s : reachable max s → inv max s.
Proof.
  induction 1 as [| | s id _ IH| | |];
    eauto using inv_add, inv_enabled, inv_success, inv_failure.
  - split; simpl; [apply map_Forall_empty|done|rewrite map_size_empty; lia|].
    intros a. unfold jobs_of. rewrite map_filter_empty, map_size_empty. lia.
  - unfold remove_job. destruct (jobs s !! id); [by apply inv_delete|done].
Qed.

(** ** Theorems *)

(** The limits hold in every state the scheduler can reach by its
    operations: at most the configured number of jobs in all and
    [MAX_JOBS_PER_AGENT] per agent, every job filed under its id and valid, and
    every enabled job with fewer than [MAX_CONSECUTIVE_ERRORS] errors in a
    row. *)
Theorem cron_limits max s :
  reachable max s →
  total_jobs s ≤ max ∧ (∀ a, agent_count s a ≤ MAX_JOBS_PER_AGENT) ∧
  ∀ id m, jobs s !! id = Some m →
    job_id (job m) = id ∧ (∃ n now, validate (job m) n now = Ok tt) ∧
    (enabled (job m) = true → (0 ≤ consecutive_errors m < MAX_CONSECUTIVE_ERRORS)%Z).
Proof.
  intros [Hok _ Htot Hag]%cron_reachable_inv. split_and!; [done|intros; by rewrite agent_count_size|].
  intros id m Hm. destruct (Hok _ _ Hm) as (? & ? & ? & ?). split_and!; [done..|]. intros. split; [lia|auto].
Qed.

(** A sequence of failures of one job. *)
Fixpoint record_failures (s : CronScheduler) (id : JobId) (errs : list (str * Z))
    : option CronScheduler :=
  match errs with
  | [] => Some s
  | (msg, now) :: errs =>
      match record_failure s id msg now with
      | Some s => record_failures s id errs
      | None => None
      end
  end.

Lemma record_failures_disable s id m errs s' :
  jobs s !! id = Some m → record_failures s id errs = Some s' →
  enabled (job m) = false ∨
  (0 ≤ consecutive_errors m < MAX_CONSECUTIVE_ERRORS ∧
   MAX_CONSECUTIVE_ERRORS ≤ consecutive_errors m + Z.of_nat (length errs))%Z →
  ∃ m', jobs s' !! id = Some m' ∧ enabled (job m') = false.
Proof.
  revert s m. induction errs as [|[msg now] errs IH]; intros s m Hm Hf Hc; simpl in Hf.
  { destruct Hc; [|simpl in *; lia]. injection Hf as <-. eauto. }
  unfold record_failure in Hf. rewrite Hm in Hf. destruct (slice_to _ _); [|done].
  eapply IH; [|exact Hf|]; [apply lookup_insert_eq|]. cbn [job consecutive_errors].
  destruct Hc as [Hc|[He Hc]].
  { left. destruct (_ <=? _)%Z; [done|]. exact Hc. }
  rewrite wrapping_add_u32_small by (unfold MAX_CONSECUTIVE_ERRORS, u32_max in *; lia).
  destruct (Z.leb_spec MAX_CONSECUTIVE_ERRORS (consecutive_errors m + 1)); [by left|right].
  cbn [length] in Hc. lia.
Qed.

(** A job that fails [MAX_CONSECUTIVE_ERRORS] times in a row is disabled and
    is not due again at any time. *)
Theorem failing_job_disabled max s id errs s' now :
  reachable max s → is_Some (jobs s !! id) →
  (MAX_CONSECUTIVE_ERRORS ≤ Z.of_nat (length errs))%Z →
  record_failures s id errs = Some s' →
  ∀ j, j ∈ due_jobs s' now → job_id j ≠ id.
Proof.
  intros Hr [m Hm] Hlen Hf j Hj Hjid.
  pose proof (cron_reachable_inv _ _ Hr) as Hinv.
  destruct (inv_ok _ _ Hinv _ _ Hm) as (_ & He & Hen & _).
  destruct (record_failures_disable s id m errs s' Hm Hf) as (m' & Hm' & Hd).
  { destruct (enabled (job m)); [right|by left]. specialize (Hen eq_refl). lia. }
  assert (inv max s') as Hinv'.
  { clear -Hinv Hf. revert s Hinv Hf. induction errs as [|[msg t] errs IH]; intros s Hinv Hf; simpl in Hf.
    - by injection Hf as <-.
    - destruct (record_failure s id msg t) as [s1|] eqn:E; [|done].
      eauto using inv_failure. }
  unfold due_jobs, list_all_jobs in Hj. apply elem_of_List_filter in Hj as [Hj Hdue].
  apply list_elem_of_fmap in Hj as (m2 & -> & ([k m2'] & -> & Hin)%list_elem_of_fmap).
  apply elem_of_map_to_list in Hin. pose proof (proj1 (inv_ok _ _ Hinv' _ _ Hin)) as Hk.
  simpl in *. assert (k = id) as -> by congruence. rewrite Hm' in Hin. injection Hin as <-.
  unfold is_due in Hdue. by rewrite Hd in Hdue.
Qed.

(** A job scheduled for one moment that is not marked one-shot is not done
    when it succeeds: recording the success leaves it enabled with [next_run]
    at the moment that has passed, so it is due again at every later moment. *)
Theorem at_job_due_forever s id m t now later :
  jobs s !! id = Some m → schedule (job m) = At t → enabled (job m) = true →
  one_shot m = false → (t ≤ later)%Z →
  ∃ m', jobs (record_success s id now) !! id = Some m' ∧ is_due (job m') later = true ∧
        schedule (job m') = At t ∧ enabled (job m') = true ∧ one_shot m' = false.
Proof.
  intros Hm Hs He Ho Hle. unfold record_success. rewrite Hm, Ho. eexists.
  split; [apply lookup_insert_eq|]. unfold is_due. cbn. rewrite Hs, He. cbn.
  split; [by apply Z.leb_le|done].
Qed.

(** What is persisted is loaded back: reading the saved list, in whatever
    order it was written, into a new scheduler restores exactly the jobs. *)
Theorem persist_load_roundtrip max s l max' :
  reachable max s → l ≡ₚ persist s →
  load (new_scheduler max') (Parsed l) = (mkScheduler (jobs s) max', Ok (total_jobs s)).
Proof.
  intros Hinv%cron_reachable_inv Hl. unfold load, persist, total_jobs in *. f_equal.
  2:{ f_equal. rewrite Hl, length_fmap, length_map_to_list. done. }
  f_equal. simpl.
  assert (∀ js, foldl (λ js m, <[job_id (job m) := m]> js) js l =
                list_to_map (reverse ((λ m, (job_id (job m), m)) <$> l)) ∪ js) as ->.
  { clear. induction l as [|m l IH] using rev_ind; intros js; simpl; [by rewrite map_empty_union|].
    rewrite foldl_app, fmap_app, reverse_app, IH. simpl.
    by rewrite insert_union_l. }
  rewrite map_union_empty.
  assert ((λ m, (job_id (job m), m)) <$> l ≡ₚ map_to_list (jobs s)) as Hp.
  { rewrite Hl, <-list_fmap_compose.
    assert ((λ m, (job_id (job m), m)) ∘ snd <$> map_to_list (jobs s) = id <$> map_to_list (jobs s))
      as ->; [|by rewrite list_fmap_id].
    apply list_fmap_ext. intros i [k m] Hi. simpl.
    apply list_elem_of_lookup_2, elem_of_map_to_list in Hi.
    by rewrite (proj1 (inv_ok _ _ Hinv _ _ Hi)). }
  rewrite (list_to_map_proper _ (map_to_list (jobs s))); [apply list_to_map_to_list| |].
  - rewrite reverse_Permutation, Hp. apply NoDup_fst_map_to_list.
  - by rewrite reverse_Permutation.
Qed.

(** Recording a failure panics exactly when the job exists and the error
    text has a multi-byte character across byte 256. *)
Theorem record_failure_panics s id msg now :
  record_failure s id msg now = None ↔
  is_Some (jobs s !! id) ∧ ∃ c, msg !! 256 = Some c ∧ is_continuation c = true.
Proof.
  rewrite <-slice_min_None by lia. unfold record_failure.
  destruct (jobs s !! id) as [m|]; [|split; [done|by intros [[]%is_Some_None _]]].
  destruct (slice_to msg _); split; [done|by intros [_ ?]|eauto|done].
Qed.
End cron.

(** ** Witnesses *)

Definition demo_job : CronJob (AgentId := nat) (JobId := nat) :=
  mkJob 7 1 (lit "report") true (Every 3600) (SystemEvent (lit "ping")) DeliverNone 0 None None.

Definition demo_scheduler : CronScheduler (AgentId := nat) (JobId := nat) :=
  (add_job (new_scheduler 10) demo_job false 1000).1.

Lemma cron_demo_reachable : reachable show_nat 10 demo_scheduler.
Proof. apply reach_add, reach_new. Qed.

Lemma cron_limits_witness :
  total_jobs demo_scheduler = 1 ∧ total_jobs demo_scheduler ≤ 10.
Proof.
  split; [vm_compute; reflexivity|].
  exact (proj1 (cron_limits show_nat 10 demo_scheduler cron_demo_reachable)).
Defined.

Definition demo_errors : list (str * Z) :=
  [(lit "e", 1); (lit "e", 2); (lit "e", 3); (lit "e", 4); (lit "e", 5)]%Z.

Lemma failing_job_disabled_witness :
  ∃ s', record_failures demo_scheduler 7 demo_errors = Some s' ∧
    ∀ j, j ∈ due_jobs s' 1000000000000000 → job_id j ≠ 7.
Proof.
  eexists. split; [reflexivity|].
  apply (failing_job_disabled show_nat 10 demo_scheduler 7 demo_errors).
  - exact cron_demo_reachable.
  - vm_compute. eexists. reflexivity.
  - vm_compute. discriminate.
  - reflexivity.
Defined.

Definition demo_at : CronScheduler (AgentId := nat) (JobId := nat) :=
  mkScheduler {[ 7 := new_meta (mkJob 7 1 (lit "once") true (At 500) (SystemEvent (lit "ping"))
                                  DeliverNone 0 None (Some 500%Z)) false ]} 10.

Lemma at_job_due_forever_witness :
  ∃ m', jobs (record_success demo_at 7 600) !! 7 = Some m' ∧ is_due (job m') 700 = true ∧
        schedule (job m') = At 500 ∧ enabled (job m') = true ∧ one_shot m' = false.
Proof.
  eapply (at_job_due_forever demo_at 7); [reflexivity|reflexivity|reflexivity|reflexivity|lia].
Defined.

Lemma persist_load_roundtrip_witness :
  load (new_scheduler 10) (Parsed (persist demo_scheduler)) =
    (mkScheduler (jobs demo_scheduler) 10, Ok (total_jobs demo_scheduler)).
Proof. apply (persist_load_roundtrip show_nat 10); [exact cron_demo_reachable|reflexivity]. Defined.
