(* ===== verification/SessionRepair.v ===== *)
(** * Session history validation and repair

    [openfang-runtime/src/session_repair.rs]: before a history is sent to the
    model, [validate_and_repair] drops orphaned and duplicate tool results
    and empty messages, moves every tool result behind the tool use it
    answers, answers the unanswered tool uses with a synthetic error and
    merges neighbours of the same role.

    A [Vec<Message>] is a list; the phases that mutate it return the new
    list and their count. A [HashMap] is a [gmap]; the two maps that are
    iterated over are sorted by their (unique) keys first, so the iteration
    order does not show. *)

From Stdlib Require Import Lia.
From stdpp Require Import base gmap strings list sorting.
From S2P Require Import Prelude Strs Message.

Section session_repair.
Context {Value : Type}.
Local Abbreviation Message := (Message Value).
Local Abbreviation ContentBlock := (ContentBlock Value).
Local Abbreviation MessageContent := (MessageContent Value).

Record RepairStats : Type := mkStats {
  orphaned_results_removed : nat;
  empty_messages_removed : nat;
  messages_merged : nat;
  results_reordered : nat;
  synthetic_results_inserted : nat;
  duplicates_removed : nat
}.

Definition default_stats : RepairStats := mkStats 0 0 0 0 0 0.

(** ** Phase 1: the tool-use ids *)

Definition tool_use_id (b : ContentBlock) : option str :=
  match b with ToolUse id _ _ => Some id | _ => None end.

Definition tool_result_id (b : ContentBlock) : option str :=
  match b with ToolResult id _ _ => Some id | _ => None end.

Definition blocks_of (m : Message) : list ContentBlock :=
  match content m with Blocks blocks => blocks | Text _ => [] end.

Definition collect_tool_use_ids (messages : list Message) : gset str :=
  list_to_set (messages ≫= λ m, omap tool_use_id (blocks_of m)).

(** ** Phase 2: orphaned results and empty messages *)

(** The filter of one block list; the second component counts the orphans. *)
Fixpoint filter_orphans (tool_use_ids : gset str) (blocks : list ContentBlock)
    : list ContentBlock * nat :=
  match blocks with
  | [] => ([], 0)
  | b :: bs =>
      let '(filtered, n) := filter_orphans tool_use_ids bs in
      match b with
      | ToolResult id _ _ =>
          if decide (id ∈ tool_use_ids) then (b :: filtered, n) else (filtered, S n)
      | _ => (b :: filtered, n)
      end
  end.

Definition clean_step (tool_use_ids : gset str) (st : list Message * RepairStats)
    (msg : Message) : list Message * RepairStats :=
  let '(cleaned, stats) := st in
  match content msg with
  | Text s =>
      if is_empty s
      then (cleaned, mkStats (orphaned_results_removed stats)
              (S (empty_messages_removed stats)) (messages_merged stats)
              (results_reordered stats) (synthetic_results_inserted stats)
              (duplicates_removed stats))
      else (cleaned ++ [mkMessage (role msg) (Text s)], stats)
  | Blocks blocks =>
      let '(filtered, orphans) := filter_orphans tool_use_ids blocks in
      let stats := mkStats (orphaned_results_removed stats + orphans)
              (empty_messages_removed stats) (messages_merged stats)
              (results_reordered stats) (synthetic_results_inserted stats)
              (duplicates_removed stats) in
      match filtered with
      | [] => (cleaned, mkStats (orphaned_results_removed stats)
              (S (empty_messages_removed stats)) (messages_merged stats)
              (results_reordered stats) (synthetic_results_inserted stats)
              (duplicates_removed stats))
      | _ => (cleaned ++ [mkMessage (role msg) (Blocks filtered)], stats)
      end
  end.

(** ** Phase 2b: misplaced results *)

(** [tool_use_id ↦] index of the last assistant message that has it. *)
Definition index_block (idx : nat) (index : gmap str nat) (b : ContentBlock) : gmap str nat :=
  match b with ToolUse id _ _ => <[id := idx]> index | _ => index end.

Definition index_message (index : gmap str nat) (p : nat * Message) : gmap str nat :=
  let '(idx, msg) := p in
  if decide (role msg = Assistant)
  then foldl (index_block idx) index (blocks_of msg)
  else index.

Definition tool_use_index (messages : list Message) : gmap str nat :=
  foldl index_message ∅ (enumerate messages).

(** The entries [(msg_idx, tool_use_id, block, target_assistant_idx)]. *)
Definition misplaced_entry (index : gmap str nat) (msg_idx : nat) (b : ContentBlock)
    : option (nat * str * ContentBlock * nat) :=
  match b with
  | ToolResult id _ _ =>
      match index !! id with
      | Some assistant_idx =>
          if decide (msg_idx = assistant_idx + 1) then None
          else Some (msg_idx, id, b, assistant_idx)
      | None => None
      end
  | _ => None
  end.

Definition misplaced_in (index : gmap str nat) (p : nat * Message)
    : list (nat * str * ContentBlock * nat) :=
  let '(msg_idx, msg) := p in
  if decide (role msg = User) then omap (misplaced_entry index msg_idx) (blocks_of msg) else [].

Definition misplaced (index : gmap str nat) (messages : list Message)
    : list (nat * str * ContentBlock * nat) :=
  enumerate messages ≫= misplaced_in index.

Definition misplaced_sources (entries : list (nat * str * ContentBlock * nat))
    : gset (nat * str) :=
  list_to_set ((λ e, (e.1.1.1, e.1.1.2)) <$> entries).

Definition keep_block (sources : gset (nat * str)) (msg_idx : nat) (b : ContentBlock) : bool :=
  match b with
  | ToolResult id _ _ => bool_decide ((msg_idx, id) ∉ sources)
  | _ => true
  end.

Definition remove_misplaced_in (sources : gset (nat * str)) (msg_idx : nat) (msg : Message)
    : Message :=
  if decide (role msg = User) then
    match content msg with
    | Blocks blocks => mkMessage (role msg) (Blocks (List.filter (keep_block sources msg_idx) blocks))
    | Text _ => msg
    end
  else msg.

Definition non_empty (m : Message) : bool :=
  match content m with
  | Text s => negb (is_empty s)
  | Blocks b => match b with [] => false | _ => true end
  end.

Definition remove_misplaced (sources : gset (nat * str)) (messages : list Message)
    : list Message :=
  List.filter non_empty (imap (remove_misplaced_in sources) messages).

(** [entry(k).or_default().push(b)]. *)
Definition push_at (m : gmap nat (list ContentBlock)) (k : nat) (b : ContentBlock)
    : gmap nat (list ContentBlock) :=
  <[k := default [] (m !! k) ++ [b]]> m.

Definition group_insertions (entries : list (nat * str * ContentBlock * nat))
    : gmap nat (list ContentBlock) :=
  foldl (λ m e, push_at m e.2 e.1.2) ∅ entries.

(** Original index of an assistant message [↦] its index after the removals. *)
Definition position_block (index : gmap str nat) (idx : nat) (pos : gmap nat nat)
    (b : ContentBlock) : gmap nat nat :=
  match b with
  | ToolUse id _ _ =>
      match index !! id with Some orig_idx => <[orig_idx := idx]> pos | None => pos end
  | _ => pos
  end.

Definition position_message (index : gmap str nat) (pos : gmap nat nat) (p : nat * Message)
    : gmap nat nat :=
  let '(idx, msg) := p in
  if decide (role msg = Assistant)
  then foldl (position_block index idx) pos (blocks_of msg)
  else pos.

Definition current_assistant_positions (index : gmap str nat) (messages : list Message)
    : gmap nat nat :=
  foldl (position_message index) ∅ (enumerate messages).

(** [sort_by(|a, b| b.0.cmp(&a.0))]: largest key first. *)
Definition key_ge (a b : nat * list ContentBlock) : Prop := b.1 ≤ a.1.

#[local] Instance key_ge_dec : RelDecision key_ge.
Proof. unfold key_ge. intros a b. apply _. Defined.

Definition sort_descending (m : gmap nat (list ContentBlock))
    : list (nat * list ContentBlock) :=
  merge_sort key_ge (map_to_list m).

Definition content_to_blocks (c : MessageContent) : list ContentBlock :=
  match c with Text s => [TextBlock s] | Blocks blocks => blocks end.

Definition extend_message (blocks : list ContentBlock) (m : Message) : Message :=
  mkMessage (role m) (Blocks (content_to_blocks (content m) ++ blocks)).

(** Appends [blocks] to the user message at [insert_pos], or inserts a new
    user message there. *)
Definition attach_results (messages : list Message) (insert_pos : nat)
    (blocks : list ContentBlock) : list Message :=
  match messages !! insert_pos with
  | Some m =>
      if decide (role m = User)
      then <[insert_pos := extend_message blocks m]> messages
      else vec_insert insert_pos (mkMessage User (Blocks blocks)) messages
  | None =>
      vec_insert (insert_pos `min` length messages) (mkMessage User (Blocks blocks)) messages
  end.

Definition reinsert_step (positions : gmap nat nat) (messages : list Message)
    (e : nat * list ContentBlock) : list Message :=
  let '(orig_assistant_idx, blocks) := e in
  match positions !! orig_assistant_idx with
  | Some current_idx =>
      attach_results messages ((current_idx + 1) `min` length messages) blocks
  | None => messages
  end.

Definition reorder_tool_results (messages : list Message) : list Message * nat :=
  let index := tool_use_index messages in
  let entries := misplaced index messages in
  match entries with
  | [] => (messages, 0)
  | _ =>
      let messages := remove_misplaced (misplaced_sources entries) messages in
      let insertions := group_insertions entries in
      let positions := current_assistant_positions index messages in
      (foldl (reinsert_step positions) messages (sort_descending insertions), length entries)
  end.

(** ** Phase 2c: synthetic results *)

Definition existing_result_ids (messages : list Message) : gset str :=
  list_to_set (messages ≫= λ m, omap tool_result_id (blocks_of m)).

Definition orphaned_use (existing : gset str) (b : ContentBlock) : option str :=
  match b with
  | ToolUse id _ _ => if decide (id ∈ existing) then None else Some id
  | _ => None
  end.

Definition orphaned_uses_in (existing : gset str) (p : nat * Message) : list (nat * str) :=
  let '(idx, msg) := p in
  if decide (role msg = Assistant)
  then pair idx <$> omap (orphaned_use existing) (blocks_of msg)
  else [].

Definition orphaned_uses (messages : list Message) : list (nat * str) :=
  enumerate messages ≫= orphaned_uses_in (existing_result_ids messages).

Definition synthetic_result (id : str) : ContentBlock :=
  ToolResult id (lit "[Tool execution was interrupted or lost]") true.

Definition group_synthetic (uses : list (nat * str)) : gmap nat (list ContentBlock) :=
  foldl (λ m e, push_at m e.1 (synthetic_result e.2)) ∅ uses.

Definition synthetic_step (messages : list Message) (e : nat * list ContentBlock)
    : list Message :=
  let '(assistant_idx, blocks) := e in attach_results messages (assistant_idx + 1) blocks.

Definition insert_synthetic_results (messages : list Message) : list Message * nat :=
  let uses := orphaned_uses messages in
  match uses with
  | [] => (messages, 0)
  | _ => (foldl synthetic_step messages (sort_descending (group_synthetic uses)), length uses)
  end.

(** ** Phase 2d: duplicates *)

Fixpoint dedup_blocks (seen : gset str) (blocks : list ContentBlock)
    : list ContentBlock * gset str :=
  match blocks with
  | [] => ([], seen)
  | b :: bs =>
      match b with
      | ToolResult id _ _ =>
          if decide (id ∈ seen) then dedup_blocks seen bs
          else let '(kept, seen) := dedup_blocks ({[id]} ∪ seen) bs in (b :: kept, seen)
      | _ => let '(kept, seen) := dedup_blocks seen bs in (b :: kept, seen)
      end
  end.

Fixpoint dedup_messages (seen : gset str) (messages : list Message) : list Message * nat :=
  match messages with
  | [] => ([], 0)
  | m :: ms =>
      match content m with
      | Text _ => let '(rest, removed) := dedup_messages seen ms in (m :: rest, removed)
      | Blocks blocks =>
          let '(kept, seen) := dedup_blocks seen blocks in
          let '(rest, removed) := dedup_messages seen ms in
          (mkMessage (role m) (Blocks kept) :: rest, (length blocks - length kept) + removed)
      end
  end.

Definition deduplicate_tool_results (messages : list Message) : list Message * nat :=
  let '(messages, removed) := dedup_messages ∅ messages in
  (List.filter non_empty messages, removed).

(** ** Phase 2e: aborted assistant messages *)

Definition blank_block (b : ContentBlock) : bool :=
  match b with
  | TextBlock text => is_empty (trim text)
  | Unknown => true
  | _ => false
  end.

Definition is_empty_or_blank_content (c : MessageContent) : bool :=
  match c with
  | Text s => is_empty (trim s)
  | Blocks blocks => match blocks with [] => true | _ => forallb blank_block blocks end
  end.

(** The loop; [skip_next] is carried along as in the code, which never sets
    it. *)
Fixpoint aborted_loop (msg_len : nat) (skip_next : bool) (i : nat) (messages : list Message)
    : list Message :=
  match messages with
  | [] => []
  | msg :: ms =>
      if skip_next then aborted_loop msg_len false (S i) ms
      else if bool_decide (role msg = Assistant) && is_empty_or_blank_content (content msg)
              && (i + 1 <? msg_len)
      then aborted_loop msg_len skip_next (S i) ms
      else msg :: aborted_loop msg_len skip_next (S i) ms
  end.

Definition remove_aborted_assistant_messages (messages : list Message) : list Message :=
  if length messages <? 2 then messages
  else aborted_loop (length messages) false 0 messages.

(** ** Phase 3: neighbours of the same role *)

Definition merge_content (dst src : MessageContent) : MessageContent :=
  Blocks (content_to_blocks dst ++ content_to_blocks src).

(** The accumulator is [merged] in reverse, so that its head is
    [merged.last_mut()]. *)
Fixpoint merge_loop (merged : list Message) (count : nat) (messages : list Message)
    : list Message * nat :=
  match messages with
  | [] => (reverse merged, count)
  | msg :: ms =>
      match merged with
      | last :: before =>
          if decide (role last = role msg)
          then merge_loop
                 (mkMessage (role last) (merge_content (content last) (content msg)) :: before)
                 (S count) ms
          else merge_loop (msg :: merged) count ms
      | [] => merge_loop [msg] count ms
      end
  end.

(** ** The repair *)

Definition validate_and_repair_with_stats (messages : list Message)
    : list Message * RepairStats :=
  let tool_use_ids := collect_tool_use_ids messages in
  let '(cleaned, stats) := foldl (clean_step tool_use_ids) ([], default_stats) messages in
  let '(cleaned, reordered_count) := reorder_tool_results cleaned in
  let '(cleaned, synthetic_count) := insert_synthetic_results cleaned in
  let '(cleaned, dedup_count) := deduplicate_tool_results cleaned in
  let pre_aborted_len := length cleaned in
  let cleaned := remove_aborted_assistant_messages cleaned in
  let aborted_removed := pre_aborted_len - length cleaned in
  let '(merged, merged_count) := merge_loop [] 0 cleaned in
  (merged, mkStats (orphaned_results_removed stats)
             (empty_messages_removed stats + aborted_removed) merged_count
             reordered_count synthetic_count dedup_count).

Definition validate_and_repair (messages : list Message) : list Message :=
  (validate_and_repair_with_stats messages).1.

(** ** Heartbeat pruning *)

Definition no_reply_text (text : str) : bool :=
  let t := trim text in
  str_eqb t (lit "NO_REPLY") || str_eqb t (lit "[no reply needed]").

Definition is_no_reply (c : MessageContent) : bool :=
  match c with
  | Text text => no_reply_text text
  | Blocks [TextBlock text] => no_reply_text text
  | Blocks _ => false
  end.

(** The indices one position contributes to [to_remove]. *)
Definition heartbeat_indices (messages : list Message) (i : nat) : list nat :=
  match messages !! i with
  | Some m =>
      if bool_decide (role m = Assistant) && is_no_reply (content m) then
        i :: match i with
             | 0 => []
             | S j => match messages !! j with
                      | Some m' => if decide (role m' = User) then [j] else []
                      | None => []
                      end
             end
      else []
  | None => []
  end.

(** [Vec::dedup]: drops an element equal to the one before it. *)
Fixpoint vec_dedup (l : list nat) : list nat :=
  match l with
  | x :: ((y :: _) as l') => if x =? y then vec_dedup l' else x :: vec_dedup l'
  | _ => l
  end.

(** [Vec::remove] for every index of [idxs], from the back. *)
Definition remove_all (messages : list Message) (idxs : list nat) : list Message :=
  foldl (λ ms idx, delete idx ms) messages (reverse idxs).

Definition prune_heartbeat_turns (messages : list Message) (keep_recent : nat) : list Message :=
  if length messages <=? keep_recent then messages
  else
    let prune_end := length messages - keep_recent in
    let to_remove := seq 0 prune_end ≫= heartbeat_indices messages in
    match to_remove with
    | [] => messages
    | _ => remove_all messages (vec_dedup (merge_sort le to_remove))
    end.

End session_repair.
