(* ===== verification/SessionRepairFacts.v ===== *)
(** * Lemmas on the phases of session repair

    For every phase of [validate_and_repair]: what it does to the tool uses,
    the tool results and the neighbourhood of a tool use. The vocabulary is
    [gather], the blocks of a history selected by a partial function, and
    [placed], a tool use whose first result is in the user message right
    after it. *)

From Stdlib Require Import Lia.
From stdpp Require Import base gmap strings list sorting.
From S2P Require Import Prelude Strs Message SessionRepair.

Section facts.
Context {Value : Type}.
Local Abbreviation Message := (Message Value).
Local Abbreviation ContentBlock := (ContentBlock Value).
Local Abbreviation MessageContent := (MessageContent Value).
Implicit Types (ms : list Message) (m : Message) (b : ContentBlock)
  (bs : list ContentBlock) (id : str).

(** ** Vocabulary *)

Definition uses (m : Message) : list str := omap tool_use_id (blocks_of m).
Definition results (m : Message) : list str := omap tool_result_id (blocks_of m).

Definition use_ids (ms : list Message) : list str := ms ≫= uses.
Definition result_ids (ms : list Message) : list str := ms ≫= results.

(** The ids of the tool uses the assistant made. *)
Definition assistant_uses (m : Message) : list str :=
  if decide (role m = Assistant) then uses m else [].
Definition assistant_use_ids (ms : list Message) : list str := ms ≫= assistant_uses.

(** The tool-result blocks of a history. *)
Definition result_block (b : ContentBlock) : option ContentBlock :=
  match b with ToolResult _ _ _ => Some b | _ => None end.
Definition result_blocks (ms : list Message) : list ContentBlock :=
  ms ≫= λ m, omap result_block (blocks_of m).

(** The blocks that [f] selects, from the messages whose role satisfies [P]. *)
Definition gather {B} (P : Role → bool) (f : ContentBlock → option B) (ms : list Message)
    : list B :=
  ms ≫= λ m, if P (role m) then omap f (blocks_of m) else [].

(** A selection that looks at tool uses only. *)
Definition use_like {B} (f : ContentBlock → option B) : Prop :=
  ∀ b, tool_use_id b = None → f b = None.

(** Tool results are in user messages only. *)
Definition results_from_user (ms : list Message) : Prop :=
  ∀ m id, m ∈ ms → role m ≠ User → id ∉ results m.

(** The first result for [id] is in the user message right after the
    assistant message that uses it. *)
Definition placed (id : str) (ms : list Message) : Prop :=
  ∃ i m m', ms !! i = Some m ∧ role m = Assistant ∧ id ∈ uses m ∧
    ms !! S i = Some m' ∧ role m' = User ∧ id ∈ results m' ∧
    ∀ j m'', j ≤ i → ms !! j = Some m'' → id ∉ results m''.

(** ** Selections *)

Lemma gather_app {B} P (f : ContentBlock → option B) ms ms' :
  gather P f (ms ++ ms') = gather P f ms ++ gather P f ms'.
Proof. apply bind_app. Qed.

Lemma gather_cons {B} P (f : ContentBlock → option B) m ms :
  gather P f (m :: ms) = (if P (role m) then omap f (blocks_of m) else []) ++ gather P f ms.
Proof. done. Qed.

Lemma use_ids_gather ms : use_ids ms = gather (λ _, true) tool_use_id ms.
Proof. done. Qed.

Lemma assistant_use_ids_gather ms :
  assistant_use_ids ms = gather (λ r, bool_decide (r = Assistant)) tool_use_id ms.
Proof.
  induction ms as [|m ms IH]; [done|]. rewrite gather_cons. cbn. unfold assistant_use_ids in IH.
  rewrite IH. unfold assistant_uses. by rewrite <-decide_bool_decide.
Qed.

Lemma elem_of_use_ids ms id : id ∈ use_ids ms ↔ ∃ m, m ∈ ms ∧ id ∈ uses m.
Proof. unfold use_ids. rewrite list_elem_of_bind. naive_solver. Qed.

Lemma elem_of_result_ids ms id : id ∈ result_ids ms ↔ ∃ m, m ∈ ms ∧ id ∈ results m.
Proof. unfold result_ids. rewrite list_elem_of_bind. naive_solver. Qed.

Lemma elem_of_assistant_use_ids ms id :
  id ∈ assistant_use_ids ms ↔ ∃ m, m ∈ ms ∧ role m = Assistant ∧ id ∈ uses m.
Proof.
  unfold assistant_use_ids, assistant_uses. rewrite list_elem_of_bind.
  split.
  - intros (m & Hid & Hm). case_decide; [eauto|set_solver].
  - intros (m & Hm & Hr & Hid). exists m. by rewrite decide_True.
Qed.

Lemma elem_of_result_blocks ms b :
  b ∈ result_blocks ms ↔ ∃ m, m ∈ ms ∧ b ∈ blocks_of m ∧ is_Some (tool_result_id b).
Proof.
  unfold result_blocks. rewrite list_elem_of_bind. setoid_rewrite list_elem_of_omap. split.
  - intros (m & (b' & Hb' & Heq) & Hm). exists m. destruct b'; simplify_eq/=; eauto.
  - intros (m & Hm & Hb & [id Hid]). exists m. split; [|done]. exists b. by destruct b.
Qed.

Lemma elem_of_results m id :
  id ∈ results m ↔ ∃ c e, ToolResult id c e ∈ blocks_of m.
Proof.
  unfold results. rewrite list_elem_of_omap. split.
  - intros (b & Hb & Hid). destruct b; simplify_eq/=. eauto.
  - intros (c & e & Hb). eauto.
Qed.

Lemma elem_of_uses m id : id ∈ uses m ↔ ∃ n v, ToolUse id n v ∈ blocks_of m.
Proof.
  unfold uses. rewrite list_elem_of_omap. split.
  - intros (b & Hb & Hid). destruct b; simplify_eq/=. eauto.
  - intros (c & e & Hb). eauto.
Qed.

Lemma result_ids_blocks ms id :
  id ∈ result_ids ms ↔ ∃ c e, ToolResult id c e ∈ result_blocks ms.
Proof.
  rewrite elem_of_result_ids. setoid_rewrite elem_of_results.
  setoid_rewrite elem_of_result_blocks. split.
  - intros (m & Hm & c & e & Hb). exists c, e, m. eauto.
  - intros (c & e & m & Hm & Hb & _). eauto.
Qed.

Lemma omap_filter_keep {B} (f : ContentBlock → option B) (g : ContentBlock → bool) bs :
  (∀ b, g b = false → f b = None) → omap f (List.filter g bs) = omap f bs.
Proof.
  intros Hg. induction bs as [|b bs IH]; [done|]. cbn [List.filter].
  destruct (g b) eqn:E; rewrite !omap_cons, IH; [done|]. by rewrite Hg.
Qed.

Lemma omap_content_to_blocks {B} (f : ContentBlock → option B) m :
  (∀ t, f (TextBlock t) = None) →
  omap f (content_to_blocks (content m)) = omap f (blocks_of m).
Proof.
  intros Hf. unfold blocks_of. destruct (content m); simpl; [|done]. by rewrite Hf.
Qed.

Lemma use_like_text {B} (f : ContentBlock → option B) t : use_like f → f (TextBlock t) = None.
Proof. intros Hf. by apply Hf. Qed.

Lemma use_like_result {B} (f : ContentBlock → option B) b :
  use_like f → is_Some (tool_result_id b) → f b = None.
Proof. intros Hf [id Hid]. apply Hf. by destruct b. Qed.

Lemma use_like_id : use_like tool_use_id.
Proof. by intros b. Qed.
(** ** Phase 2 *)

Definition keeps_orphan_free (ids : gset str) (b : ContentBlock) : bool :=
  match b with ToolResult id _ _ => bool_decide (id ∈ ids) | _ => true end.

Lemma filter_orphans_filter ids bs :
  (filter_orphans ids bs).1 = List.filter (keeps_orphan_free ids) bs.
Proof.
  induction bs as [|b bs IH]; [done|]. simpl.
  destruct (filter_orphans ids bs) as [fl n]. simpl in IH. subst.
  destruct b; simpl; try done. by case_decide; case_bool_decide.
Qed.

(** What phase 2 makes of one message. *)
Definition clean_message (ids : gset str) (m : Message) : option Message :=
  match content m with
  | Text s => if is_empty s then None else Some m
  | Blocks bs => match List.filter (keeps_orphan_free ids) bs with
                 | [] => None
                 | bs' => Some (mkMessage (role m) (Blocks bs'))
                 end
  end.

Lemma clean_fold ids ms acc stats :
  (foldl (clean_step ids) (acc, stats) ms).1 = acc ++ omap (clean_message ids) ms.
Proof.
  revert acc stats. induction ms as [|m ms IH]; intros acc stats.
  { simpl. by rewrite app_nil_r. }
  rewrite omap_cons. cbn [foldl]. destruct m as [r c]. unfold clean_step, clean_message. simpl.
  destruct c as [s|bs].
  - destruct (is_empty s); rewrite IH; [done|]. by rewrite <-app_assoc.
  - pose proof (filter_orphans_filter ids bs) as E.
    destruct (filter_orphans ids bs) as [fl n]. simpl in E. subst fl.
    destruct (List.filter _ bs); rewrite IH; [done|]. by rewrite <-app_assoc.
Qed.

Lemma clean_message_Some ids m m' :
  clean_message ids m = Some m' →
  role m' = role m ∧ non_empty m' = true ∧
  blocks_of m' = List.filter (keeps_orphan_free ids) (blocks_of m).
Proof.
  unfold clean_message, blocks_of, non_empty. destruct m as [r [s|bs]]; simpl.
  - destruct s; [done|]. by intros [= <-].
  - destruct (List.filter _ bs) eqn:E; [done|]. by intros [= <-].
Qed.

Lemma clean_message_None ids m :
  clean_message ids m = None → List.filter (keeps_orphan_free ids) (blocks_of m) = [].
Proof.
  unfold clean_message, blocks_of. destruct m as [r [s|bs]]; simpl.
  - by destruct s.
  - by destruct (List.filter _ bs).
Qed.

Lemma clean_gather {B} P (f : ContentBlock → option B) ids ms :
  use_like f → gather P f (omap (clean_message ids) ms) = gather P f ms.
Proof.
  intros Hf.
  assert (∀ bs, omap f (List.filter (keeps_orphan_free ids) bs) = omap f bs) as Hk.
  { intros bs. apply omap_filter_keep. intros b Hb. apply Hf. by destruct b. }
  induction ms as [|m ms IH]; [done|]. rewrite omap_cons, gather_app, IH, gather_cons. f_equal.
  destruct (clean_message ids m) as [m'|] eqn:E; simpl.
  - apply clean_message_Some in E as (-> & _ & Hb). rewrite app_nil_r, Hb. by rewrite Hk.
  - apply clean_message_None in E. rewrite <-(Hk (blocks_of m)), E. by destruct (P (role m)).
Qed.

Lemma clean_elem ids ms m' :
  m' ∈ omap (clean_message ids) ms ↔ ∃ m, m ∈ ms ∧ clean_message ids m = Some m'.
Proof. rewrite list_elem_of_omap. done. Qed.

Lemma clean_non_empty ids ms : Forall (λ m, non_empty m = true) (omap (clean_message ids) ms).
Proof.
  apply Forall_forall. intros m' (m & _ & Hm)%clean_elem.
  by apply clean_message_Some in Hm as (_ & ? & _).
Qed.

Lemma clean_result_blocks ids ms b :
  b ∈ result_blocks (omap (clean_message ids) ms) ↔
  b ∈ result_blocks ms ∧ ∃ id, tool_result_id b = Some id ∧ id ∈ ids.
Proof.
  rewrite !elem_of_result_blocks. split.
  - intros (m' & (m & Hm & Hc)%clean_elem & Hb & [id Hid]).
    apply clean_message_Some in Hc as (_ & _ & E). rewrite E, elem_of_List_filter in Hb.
    destruct Hb as [Hb Hk]. split; [eauto|]. exists id. split; [done|].
    destruct b; simplify_eq/=. by apply bool_decide_eq_true in Hk.
  - intros ((m & Hm & Hb & Hr) & id & Hid & Hin).
    assert (b ∈ List.filter (keeps_orphan_free ids) (blocks_of m)) as Hf.
    { apply elem_of_List_filter. split; [done|]. destruct b; simplify_eq/=.
      by apply bool_decide_eq_true. }
    destruct (clean_message ids m) as [m'|] eqn:E.
    + exists m'. rewrite clean_elem. split; [eauto|].
      apply clean_message_Some in E as (_ & _ & ->). done.
    + apply clean_message_None in E. rewrite E in Hf. set_solver.
Qed.

Lemma clean_results_from_user ids ms :
  results_from_user ms → results_from_user (omap (clean_message ids) ms).
Proof.
  intros H m' id (m & Hm & Hc)%clean_elem Hr (c & e & Hb)%elem_of_results.
  apply clean_message_Some in Hc as (Hrole & _ & E). rewrite Hrole in Hr.
  rewrite E, elem_of_List_filter in Hb. destruct Hb as [Hb _].
  apply (H m id Hm Hr). apply elem_of_results. eauto.
Qed.
(** ** Attaching results to the message after a tool use *)

Definition block_result_ids (bs : list ContentBlock) : list str := omap tool_result_id bs.

Definition results_only (bs : list ContentBlock) : Prop :=
  ∀ b, b ∈ bs → is_Some (tool_result_id b).

Lemma elem_of_block_result_ids bs id :
  id ∈ block_result_ids bs ↔ ∃ c e, ToolResult id c e ∈ bs.
Proof.
  unfold block_result_ids. rewrite list_elem_of_omap. split.
  - intros (b & Hb & Hid). destruct b; simplify_eq/=. eauto.
  - intros (c & e & Hb). eauto.
Qed.

Lemma results_only_gather {B} (f : ContentBlock → option B) bs :
  use_like f → results_only bs → omap f bs = [].
Proof.
  intros Hf. induction bs as [|b bs IH]; [done|]. intros Hr.
  rewrite omap_cons, IH by (intros b' ?; apply Hr; set_solver).
  rewrite use_like_result; [done|done|]. apply Hr. set_solver.
Qed.

(** The two ways [attach_results] can go. *)
Lemma attach_cases ms p bs :
  p ≤ length ms →
  (∃ m, ms !! p = Some m ∧ role m = User ∧
        attach_results ms p bs = <[p := extend_message bs m]> ms) ∨
  ((∀ m, ms !! p = Some m → role m ≠ User) ∧
   attach_results ms p bs = vec_insert p (mkMessage User (Blocks bs)) ms).
Proof.
  intros Hp. unfold attach_results. destruct (ms !! p) as [m|] eqn:E.
  - case_decide; [left; eauto|right]. split; [|done]. by intros ? [= <-].
  - right. split; [done|]. by replace (p `min` length ms) with p by lia.
Qed.

Lemma blocks_of_extend bs m :
  blocks_of (extend_message bs m) = content_to_blocks (content m) ++ bs.
Proof. done. Qed.

Lemma uses_extend bs m : results_only bs → uses (extend_message bs m) = uses m.
Proof.
  intros Hr. unfold uses. rewrite blocks_of_extend, omap_app, omap_content_to_blocks by done.
  by rewrite (results_only_gather tool_use_id bs use_like_id Hr), app_nil_r.
Qed.

Lemma results_extend bs m : results (extend_message bs m) = results m ++ block_result_ids bs.
Proof.
  unfold results. by rewrite blocks_of_extend, omap_app, omap_content_to_blocks by done.
Qed.

Lemma attach_gather {B} P (f : ContentBlock → option B) ms p bs :
  use_like f → results_only bs → p ≤ length ms →
  gather P f (attach_results ms p bs) = gather P f ms.
Proof.
  intros Hf Hr Hp.
  pose proof (results_only_gather f bs Hf Hr) as Hbs.
  destruct (attach_cases ms p bs Hp) as [(m & Hm & Hu & ->)|[_ ->]].
  - rewrite insert_take_drop by (by apply lookup_lt_Some in Hm).
    rewrite <-(take_drop_middle ms p m Hm) at 3.
    rewrite !gather_app, !gather_cons. simpl. f_equal. f_equal.
    destruct (P (role m)); [|done]. rewrite blocks_of_extend, omap_app, Hbs, app_nil_r.
    apply omap_content_to_blocks. intros. by apply use_like_text.
  - unfold vec_insert. rewrite <-(take_drop p ms) at 3.
    rewrite !gather_app, gather_cons. simpl. unfold blocks_of at 1. simpl.
    rewrite Hbs. by destruct (P User).
Qed.

Lemma attach_length ms p bs : p ≤ length ms → length ms ≤ length (attach_results ms p bs).
Proof.
  intros Hp. destruct (attach_cases ms p bs Hp) as [(m & _ & _ & ->)|[_ ->]].
  - by rewrite length_insert.
  - rewrite length_vec_insert. lia.
Qed.

Lemma attach_lookup_before ms p bs j :
  j < p → p ≤ length ms → attach_results ms p bs !! j = ms !! j.
Proof.
  intros Hj Hp. destruct (attach_cases ms p bs Hp) as [(m & _ & _ & ->)|[_ ->]].
  - by rewrite list_lookup_insert_ne by lia.
  - by apply lookup_vec_insert_lt.
Qed.

(** The message at the position has the results; everything else is a message
    that was there. *)
Lemma attach_lookup_at ms p bs :
  p ≤ length ms → ∃ m', attach_results ms p bs !! p = Some m' ∧ role m' = User ∧
    (∀ b, b ∈ bs → b ∈ blocks_of m').
Proof.
  intros Hp. destruct (attach_cases ms p bs Hp) as [(m & Hm & Hu & ->)|[_ ->]].
  - exists (extend_message bs m). rewrite list_lookup_insert_eq by (by apply lookup_lt_Some in Hm).
    split; [done|]. split; [done|]. intros b Hb. rewrite blocks_of_extend. set_solver.
  - exists (mkMessage User (Blocks bs)). by rewrite lookup_vec_insert_eq.
Qed.

Lemma attach_elem ms p bs m' :
  p ≤ length ms → m' ∈ attach_results ms p bs →
  m' ∈ ms ∨ m' = mkMessage User (Blocks bs) ∨
  ∃ m, m ∈ ms ∧ role m = User ∧ m' = extend_message bs m.
Proof.
  intros Hp. destruct (attach_cases ms p bs Hp) as [(m & Hm & Hu & ->)|[_ ->]].
  - intros [i Hi]%list_elem_of_lookup. destruct (decide (i = p)) as [->|].
    + rewrite list_lookup_insert_eq in Hi by (by apply lookup_lt_Some in Hm). simplify_eq.
      right. right. exists m. apply list_elem_of_lookup_2 in Hm. done.
    + rewrite list_lookup_insert_ne in Hi by done. left. by eapply list_elem_of_lookup_2.
  - rewrite elem_of_vec_insert. tauto.
Qed.

Lemma attach_elem_old ms p bs m b :
  p ≤ length ms → m ∈ ms → b ∈ blocks_of m →
  ∃ m', m' ∈ attach_results ms p bs ∧ b ∈ blocks_of m'.
Proof.
  intros Hp Hm Hb. destruct (attach_cases ms p bs Hp) as [(m0 & Hm0 & Hu & ->)|[_ ->]].
  - apply list_elem_of_lookup in Hm as [i Hi]. destruct (decide (i = p)) as [->|].
    + simplify_eq. exists (extend_message bs m). split.
      * apply list_elem_of_lookup_2 with p. apply list_lookup_insert_eq.
        by apply lookup_lt_Some in Hi.
      * rewrite blocks_of_extend. unfold blocks_of in Hb.
        destruct (content m); simpl in *; set_solver.
    + exists m. split; [|done]. apply list_elem_of_lookup_2 with i.
      by rewrite list_lookup_insert_ne.
  - exists m. rewrite elem_of_vec_insert. auto.
Qed.

Lemma attach_result_blocks ms p bs b :
  p ≤ length ms → results_only bs →
  b ∈ result_blocks (attach_results ms p bs) ↔ b ∈ result_blocks ms ∨ b ∈ bs.
Proof.
  intros Hp Hr. rewrite !elem_of_result_blocks. split.
  - intros (m' & Hm' & Hb & Hid). destruct (attach_elem ms p bs m' Hp Hm') as [?|[->|(m & Hm & _ & ->)]].
    + left. eauto.
    + by right.
    + rewrite blocks_of_extend, elem_of_app in Hb. destruct Hb as [Hb|Hb]; [left|by right].
      exists m. split; [done|]. split; [|done]. unfold blocks_of. destruct (content m); [|done].
      simpl in Hb. apply list_elem_of_singleton in Hb. subst. by destruct Hid.
  - intros [(m & Hm & Hb & Hid)|Hb].
    + destruct (attach_elem_old ms p bs m b Hp Hm Hb) as (m' & ? & ?). eauto.
    + destruct (attach_lookup_at ms p bs Hp) as (m' & Hm' & _ & Hbs).
      exists m'. split; [by eapply list_elem_of_lookup_2|]. eauto.
Qed.

Lemma attach_results_from_user ms p bs :
  p ≤ length ms → results_from_user ms → results_from_user (attach_results ms p bs).
Proof.
  intros Hp H m' id Hm'. destruct (attach_elem ms p bs m' Hp Hm') as [?|[->|(m & _ & Hu & ->)]].
  - by apply H.
  - done.
  - simpl. by rewrite Hu.
Qed.

Lemma attach_non_empty ms p bs :
  p ≤ length ms → bs ≠ [] → Forall (λ m, non_empty m = true) ms →
  Forall (λ m, non_empty m = true) (attach_results ms p bs).
Proof.
  intros Hp Hbs H. rewrite Forall_forall in H |- *. intros m' Hm'.
  destruct (attach_elem ms p bs m' Hp Hm') as [?|[->|(m & _ & _ & ->)]].
  - auto.
  - unfold non_empty. simpl. by destruct bs.
  - unfold non_empty. simpl. by destruct (content_to_blocks (content m)), bs.
Qed.

(** ** A run of insertions, from the back to the front *)

Definition attach_step (ms : list Message) (e : nat * list ContentBlock) : list Message :=
  attach_results ms (S e.1) e.2.

(** Insertions behind assistant messages of [ms], with results only. *)
Definition insertions_ok (ms : list Message) (es : list (nat * list ContentBlock)) : Prop :=
  ∀ e, e ∈ es → e.2 ≠ [] ∧ results_only e.2 ∧
       ∃ m, ms !! e.1 = Some m ∧ role m = Assistant.

Definition descending (es : list (nat * list ContentBlock)) : Prop :=
  StronglySorted (λ x y, y.1 < x.1) es.

Lemma insertions_ok_step ms e es :
  descending (e :: es) → insertions_ok ms (e :: es) → insertions_ok (attach_step ms e) es.
Proof.
  intros Hd Hok e' He'. destruct (Hok e') as (? & ? & m & Hm & ?); [set_solver|].
  split; [done|]. split; [done|]. exists m. split; [|done].
  destruct (Hok e) as (_ & _ & m0 & Hm0%lookup_lt_Some & _); [set_solver|].
  inversion Hd as [|? ? _ Hall]; subst. rewrite Forall_forall in Hall.
  specialize (Hall _ He'). unfold attach_step. rewrite attach_lookup_before; [done|lia|lia].
Qed.

Lemma insertions_ok_bound ms e es : insertions_ok ms (e :: es) → S e.1 ≤ length ms.
Proof.
  intros Hok. destruct (Hok e) as (_ & _ & m & Hm%lookup_lt_Some & _); [set_solver|]. lia.
Qed.

(** Anything an attachment keeps, a run of them keeps. *)
Lemma attach_fold_ind (Q : list Message → Prop) ms es :
  descending es → insertions_ok ms es → Q ms →
  (∀ ms' e, S e.1 ≤ length ms' → e ∈ es → Q ms' → Q (attach_step ms' e)) →
  Q (foldl attach_step ms es).
Proof.
  intros Hd Hok HQ Hstep. revert ms Hok HQ.
  induction es as [|e es IH]; intros ms Hok HQ; [done|]. simpl. apply IH.
  - by inversion Hd.
  - intros. apply Hstep; [done| |done]. set_solver.
  - by apply insertions_ok_step.
  - apply Hstep; [|set_solver|done]. by eapply insertions_ok_bound.
Qed.

Lemma attach_fold_gather {B} P (f : ContentBlock → option B) ms es :
  use_like f → descending es → insertions_ok ms es →
  gather P f (foldl attach_step ms es) = gather P f ms.
Proof.
  intros Hf Hd Hok.
  apply (attach_fold_ind (λ ms', gather P f ms' = gather P f ms)); [done..|].
  intros ms' e Hb He <-. apply attach_gather; [done| |done]. by apply Hok.
Qed.

Lemma attach_fold_results_from_user ms es :
  descending es → insertions_ok ms es → results_from_user ms →
  results_from_user (foldl attach_step ms es).
Proof.
  intros Hd Hok Hr. apply attach_fold_ind; [done..|].
  intros. by apply attach_results_from_user.
Qed.

Lemma attach_fold_non_empty ms es :
  descending es → insertions_ok ms es → Forall (λ m, non_empty m = true) ms →
  Forall (λ m, non_empty m = true) (foldl attach_step ms es).
Proof.
  intros Hd Hok Hne. apply attach_fold_ind; [done..|].
  intros ms' e ? He ?. apply attach_non_empty; [done| |done]. by apply Hok.
Qed.

Lemma attach_fold_result_blocks ms es b :
  descending es → insertions_ok ms es →
  b ∈ result_blocks (foldl attach_step ms es) ↔
  b ∈ result_blocks ms ∨ ∃ e, e ∈ es ∧ b ∈ e.2.
Proof.
  intros Hd. revert ms. induction es as [|e es IH]; intros ms Hok; simpl.
  - set_solver.
  - pose proof (insertions_ok_bound _ _ _ Hok) as Hb.
    destruct (Hok e) as (_ & Hro & _); [set_solver|].
    rewrite IH; [|by inversion Hd|by apply insertions_ok_step].
    unfold attach_step. rewrite attach_result_blocks by done. set_solver.
Qed.

(** The attachment places the ids of its results... *)
Lemma attach_placed ms c bs m id :
  ms !! c = Some m → role m = Assistant → id ∈ uses m → id ∈ block_result_ids bs →
  (∀ j m', j ≤ c → ms !! j = Some m' → id ∉ results m') →
  placed id (attach_results ms (S c) bs).
Proof.
  intros Hm Hr Hu Hid Hbefore. pose proof (lookup_lt_Some _ _ _ Hm) as Hlt.
  destruct (attach_lookup_at ms (S c) bs) as (m' & Hm' & Hr' & Hbs); [lia|].
  exists c, m, m'. rewrite attach_lookup_before by lia.
  repeat split; [done..| |].
  - apply elem_of_block_result_ids in Hid as (t & e & Hb).
    apply elem_of_results. eauto.
  - intros j m'' Hj. rewrite attach_lookup_before by lia. by apply Hbefore.
Qed.

(** ...and leaves the other ids where they are. *)
Lemma attach_keeps_placed ms c bs m id :
  ms !! c = Some m → role m = Assistant → results_only bs → id ∉ block_result_ids bs →
  placed id ms → placed id (attach_results ms (S c) bs).
Proof.
  intros Hm Hr Hro Hid (i & n & n' & Hn & Hnr & Hnu & Hn' & Hnr' & Hnres & Hfirst).
  pose proof (lookup_lt_Some _ _ _ Hm) as Hlt.
  destruct (attach_cases ms (S c) bs) as [(u & Hu & Hur & E)|[Hnot E]]; [lia| |]; rewrite E.
  - assert (i ≠ S c) by (intros ->; congruence).
    assert (∀ j, <[S c:=extend_message bs u]> ms !! j =
                 if decide (j = S c) then Some (extend_message bs u) else ms !! j) as Hlook.
    { intros j. case_decide; subst.
      - apply list_lookup_insert_eq. by apply lookup_lt_Some in Hu.
      - by apply list_lookup_insert_ne. }
    assert (∀ k, id ∈ results (extend_message bs k) ↔ id ∈ results k) as Hres.
    { intros k. rewrite results_extend, elem_of_app. tauto. }
    exists i, n, (if decide (S i = S c) then extend_message bs u else n').
    rewrite !Hlook. rewrite (decide_False (P := i = S c)) by done.
    repeat split; [done..| | | |].
    + case_decide; done.
    + case_decide; [|done]. simpl. done.
    + case_decide; [|done]. apply Hres. congruence.
    + intros j m'' Hj. rewrite Hlook. case_decide.
      * intros [= <-]. rewrite Hres. subst j. by eapply Hfirst.
      * by apply Hfirst.
  - assert (i ≠ c) by (intros ->; simplify_eq; by apply (Hnot n')).
    assert (id ∉ results (mkMessage User (Blocks bs))) as Hnew by done.
    destruct (decide (i < c)).
    + exists i, n, n'. rewrite !lookup_vec_insert_lt by lia. repeat split; [done..|].
      intros j m'' Hj. rewrite lookup_vec_insert_lt by lia. by apply Hfirst.
    + exists (S i), n, n'. rewrite !lookup_vec_insert_gt by lia. simpl.
      repeat split; [done..|]. intros j m'' Hj.
      destruct (decide (j < S c)); [rewrite lookup_vec_insert_lt by lia|].
      { apply Hfirst. lia. }
      destruct (decide (j = S c)) as [->|].
      { rewrite lookup_vec_insert_eq by lia. by intros [= <-]. }
      rewrite lookup_vec_insert_gt by lia. apply Hfirst. lia.
Qed.

Lemma attach_fold_keeps_placed ms es id :
  descending es → insertions_ok ms es →
  (∀ e, e ∈ es → id ∉ block_result_ids e.2) →
  placed id ms → placed id (foldl attach_step ms es).
Proof.
  intros Hd. revert ms. induction es as [|e es IH]; intros ms Hok Hid Hp; [done|]. simpl.
  destruct (Hok e) as (_ & Hro & m & Hm & Hr); [set_solver|].
  apply IH; [by inversion Hd|by apply insertions_ok_step|set_solver|].
  unfold attach_step. apply (attach_keeps_placed ms e.1 e.2 m); [done..| |done]. set_solver.
Qed.

(** A pending insertion of [id] places it, however many there are. *)
Lemma attach_fold_placed ms es c bs m id :
  descending es → insertions_ok ms es → (c, bs) ∈ es →
  ms !! c = Some m → id ∈ uses m → id ∈ block_result_ids bs →
  (∀ e, e ∈ es → e.1 ≠ c → id ∉ block_result_ids e.2) →
  (∀ j m', j ≤ c → ms !! j = Some m' → id ∉ results m') →
  placed id (foldl attach_step ms es).
Proof.
  intros Hd. revert ms. induction es as [|e es IH]; intros ms Hok Hin Hm Hu Hid Hother Hbefore.
  { set_solver. }
  simpl. inversion Hd as [|? ? Hd' Hall]; subst. rewrite Forall_forall in Hall.
  pose proof (insertions_ok_bound _ _ _ Hok) as Hb.
  pose proof (insertions_ok_step _ _ _ Hd Hok) as Hok'.
  destruct (Hok (c, bs) Hin) as (_ & _ & m0 & Hm0 & Hr). simplify_eq/=.
  apply elem_of_cons in Hin as [<-|Hin].
  - apply attach_fold_keeps_placed; [done|done| |].
    + intros e' He'. apply Hother; [set_solver|]. specialize (Hall e' He'). simpl in Hall. lia.
    + unfold attach_step. simpl. by eapply attach_placed.
  - specialize (Hall (c, bs) Hin) as Hlt. simpl in Hlt.
    assert (∀ j, j ≤ c → attach_step ms e !! j = ms !! j) as Hsame.
    { intros j Hj. apply attach_lookup_before; lia. }
    apply IH; [done|done|done| |done|done| |].
    + by rewrite Hsame.
    + intros e' He'. apply Hother. set_solver.
    + intros j m' Hj. rewrite Hsame by done. by apply Hbefore.
Qed.

(** ** The maps of phase 2b *)

Lemma foldl_ext_in {A B} (f g : A → B → A) (l : list B) a :
  (∀ x y, f x y = g x y) → foldl f a l = foldl g a l.
Proof. intros H. revert a. induction l as [|y l IH]; intros a; simpl; [done|]. by rewrite H, IH. Qed.

Lemma index_blocks (idx : nat) (index : gmap str nat) bs :
  foldl (index_block idx) index bs = foldl (λ i id, <[id := idx]> i) index (omap tool_use_id bs).
Proof.
  revert index. induction bs as [|b bs IH]; intros index; [done|].
  rewrite omap_cons. cbn [foldl]. rewrite IH. by destruct b.
Qed.

Lemma tool_use_index_last ms : tool_use_index ms = last_index assistant_uses ms.
Proof.
  unfold tool_use_index, last_index. apply foldl_ext_in. intros index [idx m]. simpl.
  unfold assistant_uses, uses. case_decide; [apply index_blocks|done].
Qed.

Definition position_keys (index : gmap str nat) (m : Message) : list nat :=
  if decide (role m = Assistant) then omap (λ id, index !! id) (uses m) else [].

Lemma position_blocks (index : gmap str nat) (idx : nat) (pos : gmap nat nat) bs :
  foldl (position_block index idx) pos bs =
  foldl (λ p k, <[k := idx]> p) pos (omap (λ id, index !! id) (omap tool_use_id bs)).
Proof.
  revert pos. induction bs as [|b bs IH]; intros pos; [done|].
  rewrite omap_cons, omap_app, foldl_app. cbn [foldl]. rewrite IH. f_equal.
  destruct b; simpl; try done. by destruct (index !! id).
Qed.

Lemma positions_last (index : gmap str nat) ms :
  current_assistant_positions index ms = last_index (position_keys index) ms.
Proof.
  unfold current_assistant_positions, last_index. apply foldl_ext_in. intros pos [idx m]. simpl.
  unfold position_keys, uses. case_decide; [apply position_blocks|done].
Qed.

Lemma elem_of_assistant_uses m id : id ∈ assistant_uses m ↔ role m = Assistant ∧ id ∈ uses m.
Proof. unfold assistant_uses. case_decide; set_solver. Qed.

Lemma index_Some ms id k :
  tool_use_index ms !! id = Some k →
  ∃ m, ms !! k = Some m ∧ role m = Assistant ∧ id ∈ uses m.
Proof.
  rewrite tool_use_index_last. intros (m & Hm & Hid)%last_index_Some.
  apply elem_of_assistant_uses in Hid as [? ?]. eauto.
Qed.

Lemma index_last ms id k m :
  ms !! k = Some m → role m = Assistant → id ∈ uses m →
  ∃ k', tool_use_index ms !! id = Some k' ∧ k ≤ k'.
Proof.
  intros Hm Hr Hid. rewrite tool_use_index_last. eapply last_index_elem; [done|].
  by apply elem_of_assistant_uses.
Qed.

(** Every assistant tool use has its id to itself. *)
Definition unique_uses (ms : list Message) : Prop :=
  ∀ i j m m' id, ms !! i = Some m → ms !! j = Some m' →
    id ∈ assistant_uses m → id ∈ assistant_uses m' → i = j.

Lemma unique_uses_NoDup ms : NoDup (assistant_use_ids ms) → unique_uses ms.
Proof.
  unfold assistant_use_ids. induction ms as [|m ms IH]; [done|].
  rewrite bind_cons, NoDup_app. intros (_ & Hdisj & Hnd) i j n n' id Hi Hj Hn Hn'.
  assert (∀ k x, ms !! k = Some x → id ∈ assistant_uses x → id ∉ assistant_uses m) as Hd.
  { intros k x Hk Hx Hm. apply (Hdisj id Hm). apply list_elem_of_bind. exists x.
    split; [done|]. by eapply list_elem_of_lookup_2. }
  destruct i, j; simplify_eq/=; [done|exfalso; by eapply Hd..|].
  f_equal. by eapply IH.
Qed.

Lemma index_unique ms id k m :
  unique_uses ms → ms !! k = Some m → role m = Assistant → id ∈ uses m →
  tool_use_index ms !! id = Some k.
Proof.
  intros Hu Hm Hr Hid. destruct (index_last ms id k m Hm Hr Hid) as (k' & Hk' & _).
  rewrite Hk'. f_equal. apply index_Some in Hk' as (m' & Hm' & Hr' & Hid').
  eapply Hu; [exact Hm'|exact Hm|..]; by apply elem_of_assistant_uses.
Qed.

Lemma elem_of_misplaced ms (index : gmap str nat) j id b k :
  (j, id, b, k) ∈ misplaced index ms ↔
  ∃ m c e, ms !! j = Some m ∧ role m = User ∧ b = ToolResult id c e ∧ b ∈ blocks_of m ∧
           index !! id = Some k ∧ j ≠ k + 1.
Proof.
  unfold misplaced. rewrite list_elem_of_bind. split.
  - intros ([j' m] & Hin & Hm%elem_of_enumerate). unfold misplaced_in in Hin.
    case_decide as Hr; [|set_solver]. apply list_elem_of_omap in Hin as (b' & Hb' & He).
    unfold misplaced_entry in He. destruct b' as [| | |id' c e| |]; try done.
    destruct (index !! id') eqn:Hi; [|done]. case_decide; [done|]. simplify_eq.
    exists m, c, e. done.
  - intros (m & c & e & Hm & Hr & -> & Hb & Hi & Hne). exists (j, m).
    rewrite elem_of_enumerate. split; [|done]. unfold misplaced_in.
    rewrite decide_True by done. apply list_elem_of_omap. eexists. split; [exact Hb|].
    simpl. rewrite Hi. by rewrite decide_False.
Qed.

Lemma elem_of_sources entries j id :
  (j, id) ∈ misplaced_sources (Value := Value) entries ↔ ∃ b k, (j, id, b, k) ∈ entries.
Proof.
  unfold misplaced_sources. rewrite elem_of_list_to_set, list_elem_of_fmap. split.
  - intros ([[[j' id'] b] k] & [= <- <-] & He). eauto.
  - intros (b & k & He). by exists (j, id, b, k).
Qed.

(** ** The removal *)

Lemma role_remove sources j m : role (remove_misplaced_in sources j m) = role m.
Proof. unfold remove_misplaced_in. case_decide; [|done]. by destruct m as [r [?|?]]. Qed.

Lemma blocks_of_remove sources j m :
  blocks_of (remove_misplaced_in sources j m) =
  if decide (role m = User) then List.filter (keep_block sources j) (blocks_of m) else blocks_of m.
Proof. unfold remove_misplaced_in. case_decide; [|done]. by destruct m as [r [?|?]]. Qed.

Lemma gather_remove_one {B} (f : ContentBlock → option B) sources j m :
  use_like f → omap f (blocks_of (remove_misplaced_in sources j m)) = omap f (blocks_of m).
Proof.
  intros Hf. rewrite blocks_of_remove. case_decide; [|done].
  apply omap_filter_keep. intros b Hb. apply Hf. by destruct b.
Qed.

Lemma uses_remove sources j m : uses (remove_misplaced_in sources j m) = uses m.
Proof. apply gather_remove_one, use_like_id. Qed.

Lemma gather_filter_non_empty {B} P (f : ContentBlock → option B) ms :
  gather P f (List.filter non_empty ms) = gather P f ms.
Proof.
  induction ms as [|m ms IH]; [done|]. cbn [List.filter]. rewrite (gather_cons P f m ms).
  destruct (non_empty m) eqn:E; [by rewrite gather_cons, IH|]. rewrite IH.
  unfold non_empty, blocks_of in *. destruct (content m) as [s|[|? ?]]; simpl in *; try done;
    by destruct (P (role m)).
Qed.

Lemma gather_imap {B} P (f : ContentBlock → option B) (g : nat → Message → Message) ms :
  (∀ i m, role (g i m) = role m ∧ omap f (blocks_of (g i m)) = omap f (blocks_of m)) →
  gather P f (imap g ms) = gather P f ms.
Proof.
  intros Hg. revert g Hg. induction ms as [|m ms IH]; intros g Hg; [done|].
  rewrite imap_cons, !gather_cons. destruct (Hg 0 m) as [-> ->]. f_equal. apply IH.
  intros i. apply (Hg (S i)).
Qed.

Lemma remove_gather {B} P (f : ContentBlock → option B) sources ms :
  use_like f → gather P f (remove_misplaced sources ms) = gather P f ms.
Proof.
  intros Hf. unfold remove_misplaced. rewrite gather_filter_non_empty. apply gather_imap.
  intros i m. split; [apply role_remove|]. by apply gather_remove_one.
Qed.

Lemma uses_non_empty m id : id ∈ uses m → non_empty m = true.
Proof.
  unfold uses, non_empty, blocks_of. destruct (content m) as [|[|]]; simpl; set_solver.
Qed.

Lemma results_non_empty m id : id ∈ results m → non_empty m = true.
Proof.
  unfold results, non_empty, blocks_of. destruct (content m) as [|[|]]; simpl; set_solver.
Qed.

(** ** The pending insertions *)

Definition entry_key (e : nat * str * ContentBlock * nat) : nat := e.2.
Definition entry_block (e : nat * str * ContentBlock * nat) : ContentBlock := e.1.2.

Lemma group_insertions_group entries :
  group_insertions entries = group_by entry_key entry_block entries.
Proof. done. Qed.

Lemma sort_descending_elem (g : gmap nat (list ContentBlock)) k bs :
  (k, bs) ∈ sort_descending g ↔ g !! k = Some bs.
Proof.
  unfold sort_descending. rewrite merge_sort_Permutation. by rewrite elem_of_map_to_list.
Qed.

Lemma sort_descending_sorted (g : gmap nat (list ContentBlock)) : descending (sort_descending g).
Proof.
  assert (StronglySorted key_ge (sort_descending g)) as Hs.
  { apply StronglySorted_merge_sort; unfold key_ge.
    - intros x y z. lia.
    - intros x y. lia. }
  assert (NoDup (sort_descending g).*1) as Hnd.
  { unfold sort_descending. rewrite merge_sort_Permutation. apply NoDup_fst_map_to_list. }
  unfold descending. induction Hs as [|x l Hl IH Hx]; [constructor|].
  rewrite fmap_cons, NoDup_cons in Hnd. destruct Hnd as [Hnot Hnd].
  constructor; [by apply IH|]. rewrite Forall_forall in Hx |- *. intros y Hy.
  specialize (Hx y Hy). unfold key_ge in Hx.
  assert (y.1 ≠ x.1) by (intros E; apply Hnot; rewrite <-E; by apply list_elem_of_fmap_2).
  lia.
Qed.

Lemma descending_map (g : nat → nat) (P : nat → Prop) es :
  (∀ e, e ∈ es → P e.1) → (∀ x y, P x → P y → y < x → g y < g x) →
  descending es → descending ((λ e, (g e.1, e.2)) <$> es).
Proof.
  intros HP Hg Hd. induction Hd as [|e es Hd IH Hall]; [constructor|].
  constructor; [apply IH; set_solver|]. rewrite Forall_forall in Hall |- *.
  intros e' (e0 & -> & He0)%list_elem_of_fmap. simpl.
  apply Hg; [apply HP; set_solver..|]. by apply Hall.
Qed.

Lemma reinsert_fold (pos : gmap nat nat) (g : nat → nat) ms es :
  (∀ e, e ∈ es → pos !! e.1 = Some (g e.1) ∧ g e.1 < length ms) →
  foldl (reinsert_step pos) ms es = foldl attach_step ms ((λ e, (g e.1, e.2)) <$> es).
Proof.
  revert ms. induction es as [|[k bs] es IH]; intros ms Hes; [done|].
  destruct (Hes (k, bs)) as [Hpos Hlt]; [set_solver|]. simpl in Hpos, Hlt.
  assert (reinsert_step pos ms (k, bs) = attach_step ms (g k, bs)) as E.
  { unfold reinsert_step, attach_step. rewrite Hpos. simpl. f_equal. lia. }
  cbn [foldl fmap list_fmap]. simpl fst. simpl snd. rewrite E. apply IH. intros e He.
  destruct (Hes e) as [? ?]; [set_solver|]. split; [done|].
  pose proof (attach_length ms (S (g k)) bs). unfold attach_step. simpl. lia.
Qed.

Section reorder.
Context (ms : list Message).
Let index := tool_use_index ms.
Let entries := misplaced index ms.
Let sources := misplaced_sources entries.
Let ms1 := imap (remove_misplaced_in sources) ms.
Let ms2 := remove_misplaced sources ms.
Let pos := current_assistant_positions index ms2.
Let es := sort_descending (group_insertions entries).
Let es' := (λ e, (rank non_empty ms1 e.1, e.2)) <$> es.

Lemma ms1_lookup j : ms1 !! j = remove_misplaced_in sources j <$> ms !! j.
Proof. apply list_lookup_imap. Qed.

Lemma ms1_use id k :
  index !! id = Some k → ∃ m', ms1 !! k = Some m' ∧ non_empty m' = true ∧
    role m' = Assistant ∧ id ∈ uses m'.
Proof.
  intros (m & Hm & Hr & Hid)%index_Some. exists (remove_misplaced_in sources k m).
  rewrite ms1_lookup, Hm, role_remove, uses_remove. repeat split; try done.
  apply uses_non_empty with id. by rewrite uses_remove.
Qed.

Lemma ms2_use id k :
  index !! id = Some k → ∃ m', ms2 !! rank non_empty ms1 k = Some m' ∧
    role m' = Assistant ∧ id ∈ uses m'.
Proof.
  intros (m' & Hm & Hne & Hr & Hid)%ms1_use. exists m'.
  split; [by apply filter_lookup_rank|done].
Qed.

Lemma pos_spec id k : index !! id = Some k → pos !! k = Some (rank non_empty ms1 k).
Proof.
  intros Hi. destruct (ms2_use id k Hi) as (m' & Hm' & Hr' & Hid').
  assert (k ∈ position_keys index m') as Hkey.
  { unfold position_keys. rewrite decide_True by done. apply list_elem_of_omap. eauto. }
  subst pos. rewrite positions_last.
  destruct (last_index_elem _ _ _ _ _ Hm' Hkey) as (c & Hc & Hle). rewrite Hc. f_equal.
  apply last_index_Some in Hc as (n & Hn & Hkn).
  apply filter_lookup_inv in Hn as (k' & Hk' & Hne & <-). fold ms1 in Hk', Hle |- *.
  unfold position_keys in Hkn. case_decide as Hrn; [|set_solver].
  apply list_elem_of_omap in Hkn as (id' & Hid2 & Hidx).
  enough (k' ≤ k) by (pose proof (rank_le non_empty ms1 k' k); lia).
  rewrite ms1_lookup in Hk'. apply fmap_Some in Hk' as (m & Hm & ->).
  rewrite role_remove in Hrn. rewrite uses_remove in Hid2.
  destruct (index_last ms id' k' m Hm Hrn Hid2) as (k2 & Hk2 & ?).
  fold index in Hk2. by simplify_eq.
Qed.

Lemma es_elem k bs :
  (k, bs) ∈ es → (∃ id, index !! id = Some k) ∧ bs ≠ [] ∧ results_only bs ∧
  ∀ b, b ∈ bs ↔ ∃ j id, (j, id, b, k) ∈ entries.
Proof.
  subst es. rewrite sort_descending_elem, group_insertions_group. intros Hg.
  assert (∀ b, b ∈ bs ↔ ∃ j id, (j, id, b, k) ∈ entries) as Hbs.
  { intros b. rewrite (group_by_elem _ _ _ _ _ _ Hg). split.
    - intros ([[[j id] b'] k'] & He & <- & <-). eauto.
    - intros (j & id & He). exists (j, id, b, k). done. }
  assert (∃ b, b ∈ bs) as [b0 Hb0].
  { rewrite group_by_lookup in Hg. destruct (entry_block <$> _); simplify_eq. eexists. by left. }
  repeat split; [| | |apply Hbs|apply Hbs].
  - apply Hbs in Hb0 as (j & id & He). apply elem_of_misplaced in He. naive_solver.
  - intros ->. by apply not_elem_of_nil in Hb0.
  - intros b (j & id & He)%Hbs. apply elem_of_misplaced in He as (? & ? & ? & _ & _ & -> & _).
    eauto.
Qed.

Lemma es_entry j id b k : (j, id, b, k) ∈ entries → ∃ bs, (k, bs) ∈ es ∧ b ∈ bs.
Proof.
  intros He. destruct (group_by_is_Some entry_key entry_block entries _ He) as [bs Hbs].
  exists bs. split.
  - by apply sort_descending_elem.
  - apply (group_by_elem _ _ _ _ _ _ Hbs). eauto.
Qed.

Lemma es'_elem c bs : (c, bs) ∈ es' ↔ ∃ k, (k, bs) ∈ es ∧ c = rank non_empty ms1 k.
Proof.
  subst es'. rewrite list_elem_of_fmap. split.
  - intros ([k bs'] & [= -> ->] & ?). eauto.
  - intros (k & Hk & ->). by exists (k, bs).
Qed.

Lemma es'_descending : descending es'.
Proof.
  apply descending_map with (P := λ k, ∃ id, index !! id = Some k).
  - intros [k bs] He. by apply es_elem in He as [? _].
  - intros x y _ [id Hid] Hlt. apply ms1_use in Hid as (m & Hm & Hne & _).
    by eapply rank_lt.
  - apply sort_descending_sorted.
Qed.

Lemma es'_ok : insertions_ok ms2 es'.
Proof.
  intros [c bs] (k & He & ->)%es'_elem.
  apply es_elem in He as ([id Hid] & Hne & Hro & _). apply ms2_use in Hid as (m & ? & ? & _).
  eauto.
Qed.

Lemma reorder_fold : foldl (reinsert_step pos) ms2 es = foldl attach_step ms2 es'.
Proof.
  apply reinsert_fold. intros [k bs] He. apply es_elem in He as ([id Hid] & _).
  split; [by apply pos_spec with id|].
  apply ms2_use in Hid as (m & Hm & _). by apply lookup_lt_Some in Hm.
Qed.

Lemma reorder_cases :
  (entries = [] ∧ (reorder_tool_results ms).1 = ms) ∨
  (reorder_tool_results ms).1 = foldl attach_step ms2 es'.
Proof.
  assert (∀ (T : Type) (l : list T) (x y : list Message * nat),
    l ≠ [] → match l with [] => x | _ :: _ => y end = y) as Hmatch by (by intros ? []).
  destruct (decide (length entries = 0)) as [E%nil_length_inv|E].
  - left. split; [done|]. unfold reorder_tool_results. fold index. fold entries. by rewrite E.
  - right. unfold reorder_tool_results. fold index. fold entries.
    rewrite Hmatch by (by intros ->). apply reorder_fold.
Qed.

(** What the removal leaves of the results. *)
Lemma ms1_results j m id :
  ms !! j = Some m →
  id ∈ results (remove_misplaced_in sources j m) ↔
  id ∈ results m ∧ (role m = User → ∀ k, index !! id = Some k → j = k + 1).
Proof.
  intros Hm. rewrite !elem_of_results, blocks_of_remove.
  case_decide as Hr; [|naive_solver].
  setoid_rewrite elem_of_List_filter. simpl. setoid_rewrite bool_decide_eq_true.
  unfold sources, entries. setoid_rewrite elem_of_sources.
  split.
  - intros (c & e & Hb & Hnot). split; [eauto|]. intros _ k Hk.
    destruct (decide (j = k + 1)); [done|]. exfalso. apply Hnot.
    exists (ToolResult id c e), k. apply elem_of_misplaced. naive_solver.
  - intros [(c & e & Hb) Hk]. exists c, e. split; [done|].
    intros (b & k & (? & ? & ? & ? & ? & ? & ? & ? & Hne)%elem_of_misplaced).
    apply Hne. by apply Hk.
Qed.

Lemma ms2_lookup_inv c m' :
  ms2 !! c = Some m' →
  ∃ k m, ms !! k = Some m ∧ m' = remove_misplaced_in sources k m ∧ non_empty m' = true ∧
         rank non_empty ms1 k = c.
Proof.
  intros (k & Hk & Hne & Hrank)%filter_lookup_inv. fold ms1 in Hk.
  rewrite ms1_lookup in Hk. apply fmap_Some in Hk as (m & Hm & ->). eauto 10.
Qed.

(** ** What phase 2b guarantees *)

Lemma reorder_gather {B} P (f : ContentBlock → option B) :
  use_like f → gather P f (reorder_tool_results ms).1 = gather P f ms.
Proof.
  intros Hf. destruct reorder_cases as [[_ ->]| ->]; [done|].
  rewrite attach_fold_gather by (done || apply es'_descending || apply es'_ok).
  by apply remove_gather.
Qed.

Lemma ms2_non_empty : Forall (λ m, non_empty m = true) ms2.
Proof. apply Forall_forall. intros m Hm. by apply elem_of_List_filter in Hm as [_ ?]. Qed.

Lemma reorder_non_empty :
  Forall (λ m, non_empty m = true) ms →
  Forall (λ m, non_empty m = true) (reorder_tool_results ms).1.
Proof.
  intros Hne. destruct reorder_cases as [[_ ->]| ->]; [done|].
  apply attach_fold_non_empty; [apply es'_descending|apply es'_ok|apply ms2_non_empty].
Qed.

Lemma ms2_results_from_user : results_from_user ms → results_from_user ms2.
Proof.
  intros H m' id [c Hc]%list_elem_of_lookup Hr Hid.
  apply ms2_lookup_inv in Hc as (k & m & Hm & -> & _). rewrite role_remove in Hr.
  apply (ms1_results k m id Hm) in Hid as [Hid _].
  apply (H m id); [by eapply list_elem_of_lookup_2|done|done].
Qed.

Lemma reorder_results_from_user :
  results_from_user ms → results_from_user (reorder_tool_results ms).1.
Proof.
  intros H. destruct reorder_cases as [[_ ->]| ->]; [done|].
  apply attach_fold_results_from_user; [apply es'_descending|apply es'_ok|].
  by apply ms2_results_from_user.
Qed.

(** A result block is either kept where it is or pending. *)
Lemma reorder_kept_or_pending j m id c e :
  ms !! j = Some m → ToolResult id c e ∈ blocks_of m →
  ToolResult id c e ∈ result_blocks ms2 ∨ ∃ k, (j, id, ToolResult id c e, k) ∈ entries.
Proof.
  intros Hm Hb.
  destruct (decide (role m = User ∧ (j, id) ∈ sources)) as [[Hr Hsrc]|Hkeep].
  - right. apply elem_of_sources in Hsrc as (b & k & He).
    apply elem_of_misplaced in He as (? & ? & ? & ? & _ & _ & _ & Hi & Hne). exists k.
    apply elem_of_misplaced. exists m, c, e. done.
  - left. assert (ToolResult id c e ∈ blocks_of (remove_misplaced_in sources j m)) as Hb'.
    { rewrite blocks_of_remove. case_decide; [|done]. apply elem_of_List_filter.
      split; [done|]. simpl. apply bool_decide_eq_true. tauto. }
    apply elem_of_result_blocks. exists (remove_misplaced_in sources j m).
    split; [|eauto]. apply elem_of_List_filter. split.
    + apply list_elem_of_lookup_2 with j. change (ms1 !! j = Some (remove_misplaced_in sources j m)).
      by rewrite ms1_lookup, Hm.
    + apply results_non_empty with id. apply elem_of_results. eauto.
Qed.

Lemma reorder_result_blocks b :
  b ∈ result_blocks (reorder_tool_results ms).1 ↔ b ∈ result_blocks ms.
Proof.
  destruct reorder_cases as [[_ ->]| ->]; [done|].
  rewrite attach_fold_result_blocks by (apply es'_descending || apply es'_ok). split.
  - intros [Hb|([x bs] & (k & He & ->)%es'_elem & Hb)].
    + apply elem_of_result_blocks in Hb as (m' & [x Hx]%list_elem_of_lookup & Hb & Hid).
      apply ms2_lookup_inv in Hx as (k & m & Hm & -> & _). rewrite blocks_of_remove in Hb.
      apply elem_of_result_blocks. exists m. split; [by eapply list_elem_of_lookup_2|].
      split; [|done]. case_decide; [|done]. by apply elem_of_List_filter in Hb as [? _].
    + apply es_elem in He as (_ & _ & _ & Hbs). apply Hbs in Hb as (j & id & He).
      apply elem_of_misplaced in He as (m & c & e & Hm & _ & -> & Hb & _).
      apply elem_of_result_blocks. exists m. split; [by eapply list_elem_of_lookup_2|eauto].
  - intros (m & [j Hm]%list_elem_of_lookup & Hb & [id Hid])%elem_of_result_blocks.
    destruct b as [| | |id' c e| |]; simplify_eq/=.
    destruct (reorder_kept_or_pending j m id c e Hm Hb) as [?|[k He]]; [by left|right].
    destruct (es_entry _ _ _ _ He) as (bs & Hes & Hin).
    exists (rank non_empty ms1 k, bs). rewrite es'_elem. eauto.
Qed.

(** No result for [id] is at or before the position of its use. *)
Lemma ms2_no_earlier_result id k :
  results_from_user ms → index !! id = Some k →
  ∀ c m', c ≤ rank non_empty ms1 k → ms2 !! c = Some m' → id ∉ results m'.
Proof.
  intros Hu Hi c m' Hc Hm' Hid.
  apply ms2_lookup_inv in Hm' as (k' & m & Hm & -> & _ & <-).
  apply (ms1_results k' m id Hm) in Hid as [Hid Hk'].
  destruct (decide (role m = User)) as [Hr|Hr].
  - specialize (Hk' Hr k Hi) as ->. destruct (ms1_use id k Hi) as (n & Hn & Hne & _).
    assert (rank non_empty ms1 k < rank non_empty ms1 (k + 1)) by (eapply rank_lt; [done..|lia]).
    lia.
  - apply (Hu m id); [by eapply list_elem_of_lookup_2|done|done].
Qed.

Lemma ms2_placed id k :
  results_from_user ms → index !! id = Some k → id ∈ result_ids ms2 → placed id ms2.
Proof.
  intros Hu Hi (m' & [c Hc]%list_elem_of_lookup & Hid)%elem_of_result_ids.
  pose proof (ms2_use id k Hi) as (n & Hn & Hnr & Hnu).
  pose proof Hc as Hc'. apply ms2_lookup_inv in Hc' as (j & m & Hm & -> & Hne & Hrank).
  assert (role m = User) as Hr.
  { destruct (decide (role m = User)); [done|]. exfalso.
    apply (ms2_results_from_user Hu _ id (list_elem_of_lookup_2 _ _ _ Hc)); [|done].
    by rewrite role_remove. }
  pose proof Hid as Hid'. apply (ms1_results j m id Hm) in Hid' as [_ Hj].
  specialize (Hj Hr k Hi) as ->.
  destruct (ms1_use id k Hi) as (n1 & Hn1 & Hn1ne & _).
  pose proof (rank_S non_empty ms1 k n1 Hn1) as HS. rewrite Hn1ne in HS.
  replace (k + 1) with (S k) in * by lia.
  exists (rank non_empty ms1 k), n, (remove_misplaced_in sources (S k) m).
  replace (S (rank non_empty ms1 k)) with c by lia. rewrite role_remove.
  repeat split; [done..|]. by apply ms2_no_earlier_result.
Qed.

Lemma reorder_placed id :
  unique_uses ms → results_from_user ms → id ∈ assistant_use_ids ms →
  id ∈ result_ids (reorder_tool_results ms).1 → placed id (reorder_tool_results ms).1.
Proof.
  intros Huniq Hu (m & [k Hm]%list_elem_of_lookup & Hr & Hid)%elem_of_assistant_use_ids.
  pose proof (index_unique ms id k m Huniq Hm Hr Hid) as Hi. fold index in Hi.
  destruct reorder_cases as [[He ->]| ->].
  - intros (m' & [j Hj]%list_elem_of_lookup & Hid')%elem_of_result_ids.
    assert (∀ j m', ms !! j = Some m' → id ∈ results m' → j = k + 1 ∧ role m' = User) as Honly.
    { clear j m' Hj Hid'. intros j m' Hj Hid'. pose proof Hid' as (c & e & Hb)%elem_of_results.
      destruct (decide (role m' = User)) as [Hr'|Hr'].
      - split; [|done]. destruct (decide (j = k + 1)); [done|]. exfalso.
        assert ((j, id, ToolResult id c e, k) ∈ entries) as Hin
          by (apply elem_of_misplaced; by exists m', c, e).
        rewrite He in Hin. by apply not_elem_of_nil in Hin.
      - exfalso. apply (Hu m' id); [by eapply list_elem_of_lookup_2|done|done]. }
    destruct (Honly j m' Hj Hid') as [-> Hr'].
    exists k, m, m'. replace (S k) with (k + 1) by lia. repeat split; [done..|].
    intros j n Hjk Hn Hidn. destruct (Honly j n Hn Hidn). lia.
  - intros Hres.
    destruct (decide (Exists (λ e, id ∈ block_result_ids e.2) es')) as [Hpend|Hnone].
    + apply Exists_exists in Hpend as ([x bs] & Hes & Hin). simpl in Hin.
      assert (∀ x bs, (x, bs) ∈ es' → id ∈ block_result_ids bs → x = rank non_empty ms1 k) as Hkey.
      { intros x' bs' (k' & He & ->)%es'_elem (c & e & Hb)%elem_of_block_result_ids.
        apply es_elem in He as (_ & _ & _ & Hbs). apply Hbs in Hb as (j & id' & He).
        apply elem_of_misplaced in He as (? & ? & ? & _ & _ & ? & _ & Hi' & _). by simplify_eq. }
      pose proof (Hkey x bs Hes Hin) as ->. destruct (ms2_use id k Hi) as (n & Hn & _ & Hnu).
      apply (attach_fold_placed ms2 es' _ bs n id es'_descending es'_ok Hes Hn Hnu Hin).
      * intros [x' bs'] Hx' Hne Hb'. by apply Hne, (Hkey x' bs').
      * by apply ms2_no_earlier_result.
    + assert (∀ e, e ∈ es' → id ∉ block_result_ids e.2) as Hno.
      { intros e He Hin. apply Hnone. apply Exists_exists. eauto. }
      apply attach_fold_keeps_placed; [apply es'_descending|apply es'_ok|done|].
      apply ms2_placed with k; [done..|].
      apply result_ids_blocks in Hres as (c & e & Hb).
      apply attach_fold_result_blocks in Hb as [Hb|(e' & He' & Hb)];
        [|exfalso|apply es'_descending|apply es'_ok].
      * apply result_ids_blocks. eauto.
      * apply (Hno e' He'). apply elem_of_block_result_ids. eauto.
Qed.
End reorder.

(** ** Phase 2c *)

Lemma elem_of_existing_result_ids ms id : id ∈ existing_result_ids ms ↔ id ∈ result_ids ms.
Proof. unfold existing_result_ids. by rewrite elem_of_list_to_set. Qed.

Lemma elem_of_orphaned_uses ms k id :
  (k, id) ∈ orphaned_uses ms ↔
  ∃ m, ms !! k = Some m ∧ role m = Assistant ∧ id ∈ uses m ∧ id ∉ result_ids ms.
Proof.
  unfold orphaned_uses. rewrite list_elem_of_bind. split.
  - intros ([j m] & Hin & Hm%elem_of_enumerate). unfold orphaned_uses_in in Hin.
    case_decide as Hr; [|set_solver]. apply list_elem_of_fmap in Hin as (id' & [= <- <-] & Hin).
    apply list_elem_of_omap in Hin as (b & Hb & Ho). destruct b as [| |id' nm v| | |]; try done.
    simpl in Ho. case_decide as Hex; [done|]. simplify_eq.
    rewrite elem_of_existing_result_ids in Hex. exists m. repeat split; try done.
    apply elem_of_uses. eauto.
  - intros (m & Hm & Hr & (nm & v & Hb)%elem_of_uses & Hnot). exists (k, m).
    rewrite elem_of_enumerate. split; [|done]. unfold orphaned_uses_in.
    rewrite decide_True by done. apply list_elem_of_fmap. exists id. split; [done|].
    apply list_elem_of_omap. eexists. split; [exact Hb|]. simpl.
    by rewrite decide_False by (by rewrite elem_of_existing_result_ids).
Qed.

Section synthetic.
Context (ms : list Message).
Let es := sort_descending (group_synthetic (Value := Value) (orphaned_uses ms)).

Lemma synthetic_elem k bs :
  (k, bs) ∈ es → bs ≠ [] ∧ (∃ m, ms !! k = Some m ∧ role m = Assistant) ∧
  ∀ b, b ∈ bs ↔ ∃ id, b = synthetic_result id ∧ (k, id) ∈ orphaned_uses ms.
Proof.
  subst es. rewrite sort_descending_elem. intros Hg.
  change (group_by fst (λ e, synthetic_result e.2) (orphaned_uses ms) !! k = Some bs) in Hg.
  assert (∀ b, b ∈ bs ↔ ∃ id, b = synthetic_result id ∧ (k, id) ∈ orphaned_uses ms) as Hbs.
  { intros b. rewrite (group_by_elem _ _ _ _ _ _ Hg). split.
    - intros ([k' id] & He & <- & <-). eauto.
    - intros (id & -> & He). by exists (k, id). }
  assert (∃ b, b ∈ bs) as [b0 Hb0].
  { rewrite group_by_lookup in Hg. destruct (_ <$> filter _ _); simplify_eq. eexists. by left. }
  split; [intros ->; by apply not_elem_of_nil in Hb0|]. split; [|done].
  apply Hbs in Hb0 as (id & _ & He). apply elem_of_orphaned_uses in He. naive_solver.
Qed.

Lemma synthetic_entry k id :
  (k, id) ∈ orphaned_uses ms → ∃ bs, (k, bs) ∈ es ∧ synthetic_result id ∈ bs.
Proof.
  intros He. destruct (group_by_is_Some fst (λ e, synthetic_result (Value := Value) e.2)
    (orphaned_uses ms) _ He) as [bs Hbs]. simpl in Hbs.
  exists bs. split.
  - by apply sort_descending_elem.
  - apply (group_by_elem _ _ _ _ _ _ Hbs). by exists (k, id).
Qed.

Lemma synthetic_ok : insertions_ok ms es.
Proof.
  intros [k bs] He. apply synthetic_elem in He as (Hne & Hm & Hbs).
  split; [done|]. split; [|done]. intros b (id & -> & _)%Hbs. simpl. eauto.
Qed.

Lemma synthetic_descending : descending es.
Proof. apply sort_descending_sorted. Qed.

Lemma synthetic_fold : (insert_synthetic_results ms).1 = foldl attach_step ms es.
Proof.
  assert (∀ es ms, foldl synthetic_step ms es = foldl attach_step (ms : list Message) es) as Heq.
  { intros l. induction l as [|[k bs] l IH]; intros ms'; [done|]. simpl. rewrite IH.
    unfold attach_step. simpl. by rewrite Nat.add_1_r. }
  unfold insert_synthetic_results. subst es.
  destruct (orphaned_uses ms) eqn:E; [done|]. apply Heq.
Qed.

Lemma synthetic_gather {B} P (f : ContentBlock → option B) :
  use_like f → gather P f (insert_synthetic_results ms).1 = gather P f ms.
Proof.
  intros. rewrite synthetic_fold.
  apply attach_fold_gather; [done|apply synthetic_descending|apply synthetic_ok].
Qed.

Lemma synthetic_non_empty :
  Forall (λ m, non_empty m = true) ms →
  Forall (λ m, non_empty m = true) (insert_synthetic_results ms).1.
Proof.
  intros. rewrite synthetic_fold.
  apply attach_fold_non_empty; [apply synthetic_descending|apply synthetic_ok|done].
Qed.

Lemma synthetic_result_blocks b :
  b ∈ result_blocks (insert_synthetic_results ms).1 ↔
  b ∈ result_blocks ms ∨
  ∃ id, b = synthetic_result id ∧ id ∈ assistant_use_ids ms ∧ id ∉ result_ids ms.
Proof.
  rewrite synthetic_fold, attach_fold_result_blocks
    by (apply synthetic_descending || apply synthetic_ok).
  split; (intros [?|H]; [by left|right]).
  - destruct H as ([k bs] & He & Hb). apply synthetic_elem in He as (_ & _ & Hbs).
    apply Hbs in Hb as (id & -> & (m & Hm & Hr & Hid & Hnot)%elem_of_orphaned_uses).
    exists id. split; [done|]. split; [|done]. apply elem_of_assistant_use_ids.
    exists m. split; [by eapply list_elem_of_lookup_2|done].
  - destruct H as (id & -> & (m & [k Hk]%list_elem_of_lookup & Hr & Hid)%elem_of_assistant_use_ids & Hnot).
    destruct (synthetic_entry k id) as (bs & Hes & Hin).
    { apply elem_of_orphaned_uses. eauto. }
    by exists (k, bs).
Qed.

Lemma synthetic_placed id :
  unique_uses ms → id ∈ assistant_use_ids ms → (id ∈ result_ids ms → placed id ms) →
  placed id (insert_synthetic_results ms).1.
Proof.
  intros Huniq Hid Hplaced. rewrite synthetic_fold.
  assert (∀ k bs, (k, bs) ∈ es → id ∈ block_result_ids bs → (k, id) ∈ orphaned_uses ms) as Hkey.
  { intros k bs He (c & e & Hb)%elem_of_block_result_ids.
    apply synthetic_elem in He as (_ & _ & Hbs). apply Hbs in Hb as (id' & E & ?).
    unfold synthetic_result in E. by simplify_eq. }
  destruct (decide (id ∈ result_ids ms)) as [Hres|Hres].
  - apply attach_fold_keeps_placed; [apply synthetic_descending|apply synthetic_ok| |auto].
    intros [k bs] He Hin. apply (Hkey k bs He) in Hin.
    apply elem_of_orphaned_uses in Hin as (? & _ & _ & _ & ?). done.
  - apply elem_of_assistant_use_ids in Hid as (m & [k Hk]%list_elem_of_lookup & Hr & Hid).
    destruct (synthetic_entry k id) as (bs & Hes & Hin).
    { apply elem_of_orphaned_uses. eauto. }
    eapply (attach_fold_placed ms es k bs m id synthetic_descending synthetic_ok Hes Hk Hid).
    + apply elem_of_block_result_ids. unfold synthetic_result in Hin. eauto.
    + intros [k' bs'] He' Hne Hin'. apply Hne. simpl in *.
      apply (Hkey k' bs' He') in Hin'. apply elem_of_orphaned_uses in Hin' as (m' & Hm' & Hr' & Hu' & _).
      eapply (Huniq k' k); [done|done| |]; by apply elem_of_assistant_uses.
    + intros j m' _ Hm' Hin'. apply Hres. apply elem_of_result_ids. exists m'.
      split; [by eapply list_elem_of_lookup_2|done].
Qed.
End synthetic.

(** ** Phase 2d *)

Lemma dedup_blocks_seen seen bs :
  (dedup_blocks seen bs).2 = seen ∪ list_to_set (block_result_ids bs).
Proof.
  unfold block_result_ids. revert seen.
  induction bs as [|b bs IH]; intros seen; [simpl; by rewrite union_empty_r_L|].
  rewrite omap_cons, list_to_set_app_L. destruct b as [| | |id c e| |]; simpl.
  - rewrite union_empty_l_L, <-IH. by destruct (dedup_blocks seen bs).
  - rewrite union_empty_l_L, <-IH. by destruct (dedup_blocks seen bs).
  - rewrite union_empty_l_L, <-IH. by destruct (dedup_blocks seen bs).
  - case_decide as Hin.
    + rewrite IH. clear IH. set_solver.
    + pose proof (IH ({[id]} ∪ seen)) as E. destruct (dedup_blocks ({[id]} ∪ seen) bs) as [k s].
      simpl in *. rewrite E. clear. set_solver.
  - rewrite union_empty_l_L, <-IH. by destruct (dedup_blocks seen bs).
  - rewrite union_empty_l_L, <-IH. by destruct (dedup_blocks seen bs).
Qed.

Lemma dedup_blocks_ids seen bs :
  NoDup (block_result_ids (dedup_blocks seen bs).1) ∧
  ∀ id, id ∈ block_result_ids (dedup_blocks seen bs).1 ↔ id ∈ block_result_ids bs ∧ id ∉ seen.
Proof.
  unfold block_result_ids. revert seen.
  induction bs as [|b bs IH]; intros seen; [split; [constructor|set_solver]|].
  setoid_rewrite (omap_cons tool_result_id b bs).
  destruct b as [| | |id c e| |]; simpl.
  all: try (destruct (dedup_blocks seen bs) as [k s] eqn:E; specialize (IH seen);
    rewrite E in IH; simpl in *; done).
  case_decide as Hin.
  - destruct (IH seen) as [Hnd Hids]. split; [done|]. intros id'. rewrite Hids, elem_of_cons.
    destruct (decide (id' = id)) as [->|]; tauto.
  - destruct (dedup_blocks ({[id]} ∪ seen) bs) as [k s] eqn:E.
    destruct (IH ({[id]} ∪ seen)) as [Hnd Hids]. rewrite E in Hnd, Hids. simpl in *. split.
    + constructor; [|done]. rewrite Hids, elem_of_union, elem_of_singleton. tauto.
    + intros id'. rewrite !elem_of_cons, Hids, elem_of_union, elem_of_singleton.
      destruct (decide (id' = id)) as [->|]; tauto.
Qed.

Lemma dedup_blocks_sublist seen bs : (dedup_blocks seen bs).1 `sublist_of` bs.
Proof.
  revert seen. induction bs as [|b bs IH]; intros seen; [done|].
  destruct b as [| | |id c e| |]; simpl.
  all: try (destruct (dedup_blocks seen bs) as [k s] eqn:E; specialize (IH seen);
    rewrite E in IH; simpl in *; by apply sublist_skip).
  case_decide as Hin; [by apply sublist_cons|].
  destruct (dedup_blocks ({[id]} ∪ seen) bs) as [k s] eqn:E.
  specialize (IH ({[id]} ∪ seen)). rewrite E in IH. by apply sublist_skip.
Qed.

Lemma dedup_blocks_uses {B} (f : ContentBlock → option B) seen bs :
  use_like f → omap f (dedup_blocks seen bs).1 = omap f bs.
Proof.
  intros Hf. revert seen. induction bs as [|b bs IH]; intros seen; [done|].
  rewrite omap_cons. destruct b as [| | |id c e| |]; cbn [dedup_blocks].
  all: try (destruct (dedup_blocks seen bs) as [k s] eqn:E; specialize (IH seen);
    rewrite E in IH; cbn [fst] in *; rewrite omap_cons, IH; done).
  rewrite (use_like_result f _ Hf) by (simpl; eauto). case_decide; [apply IH|].
  destruct (dedup_blocks ({[id]} ∪ seen) bs) as [k s] eqn:E.
  specialize (IH ({[id]} ∪ seen)). rewrite E in IH. cbn [fst] in *.
  rewrite omap_cons, IH. by rewrite (use_like_result f _ Hf) by (simpl; eauto).
Qed.

(** What deduplication makes of one message. *)
Definition dedup_message (seen : gset str) (m : Message) : Message :=
  match content m with
  | Text _ => m
  | Blocks bs => mkMessage (role m) (Blocks (dedup_blocks seen bs).1)
  end.

Lemma dedup_messages_cons seen m ms :
  (dedup_messages seen (m :: ms)).1 =
  dedup_message seen m :: (dedup_messages (seen ∪ list_to_set (results m)) ms).1.
Proof.
  unfold dedup_message, results, blocks_of. simpl. destruct (content m) as [s|bs].
  - simpl. rewrite union_empty_r_L. by destruct (dedup_messages seen ms).
  - pose proof (dedup_blocks_seen seen bs) as Hs. unfold block_result_ids in Hs.
    destruct (dedup_blocks seen bs) as [k s]. simpl in Hs. subst s.
    by destruct (dedup_messages _ ms).
Qed.

Lemma role_dedup seen m : role (dedup_message seen m) = role m.
Proof. unfold dedup_message. by destruct (content m). Qed.

Lemma blocks_of_dedup seen m :
  blocks_of (dedup_message seen m) = (dedup_blocks seen (blocks_of m)).1.
Proof. unfold dedup_message, blocks_of. by destruct (content m) eqn:E; rewrite ?E. Qed.

Lemma results_dedup seen m :
  NoDup (results (dedup_message seen m)) ∧
  ∀ id, id ∈ results (dedup_message seen m) ↔ id ∈ results m ∧ id ∉ seen.
Proof. unfold results. rewrite blocks_of_dedup. apply dedup_blocks_ids. Qed.

Lemma uses_dedup seen m : uses (dedup_message seen m) = uses m.
Proof. unfold uses. rewrite blocks_of_dedup. apply dedup_blocks_uses, use_like_id. Qed.

Lemma dedup_messages_gather {B} P (f : ContentBlock → option B) seen ms :
  use_like f → gather P f (dedup_messages seen ms).1 = gather P f ms.
Proof.
  intros Hf. revert seen. induction ms as [|m ms IH]; intros seen; [done|].
  rewrite dedup_messages_cons, !gather_cons, role_dedup, blocks_of_dedup, IH.
  by rewrite dedup_blocks_uses.
Qed.

Lemma dedup_messages_results seen ms :
  NoDup (result_ids (dedup_messages seen ms).1) ∧
  ∀ id, id ∈ result_ids (dedup_messages seen ms).1 ↔ id ∈ result_ids ms ∧ id ∉ seen.
Proof.
  unfold result_ids. revert seen.
  induction ms as [|m ms IH]; intros seen; [split; [constructor|set_solver]|].
  rewrite dedup_messages_cons, !bind_cons.
  destruct (IH (seen ∪ list_to_set (results m))) as [Hnd Hids].
  destruct (results_dedup seen m) as [Hndm Hidsm]. split.
  - apply NoDup_app. split; [done|]. split; [|done]. intros id Hid.
    rewrite Hids, elem_of_union, elem_of_list_to_set. apply Hidsm in Hid. tauto.
  - intros id. rewrite !elem_of_app, Hids, Hidsm, elem_of_union, elem_of_list_to_set.
    destruct (decide (id ∈ results m)); tauto.
Qed.

Lemma dedup_messages_lookup seen ms i m' :
  (dedup_messages seen ms).1 !! i = Some m' →
  ∃ m s, ms !! i = Some m ∧ m' = dedup_message s m ∧
    ∀ id, id ∈ s ↔ id ∈ seen ∨ ∃ j n, j < i ∧ ms !! j = Some n ∧ id ∈ results n.
Proof.
  revert seen i. induction ms as [|m ms IH]; intros seen i; [done|].
  rewrite dedup_messages_cons. destruct i as [|i]; simpl.
  - intros [= <-]. exists m, seen. split; [done|]. split; [done|]. intros id.
    split; [by left|]. intros [?|(j & n & ? & _)]; [done|lia].
  - intros (n & s & Hn & -> & Hs)%IH. exists n, s. split; [done|]. split; [done|].
    intros id. rewrite Hs, elem_of_union, elem_of_list_to_set. split.
    + intros [[?|?]|(j & n' & ? & ? & ?)]; [by left|right; exists 0, m; naive_solver lia|].
      right. exists (S j), n'. naive_solver lia.
    + intros [?|([|j] & n' & ? & ? & ?)]; simplify_eq/=; [by do 2 left|by left; right|].
      right. exists j, n'. naive_solver lia.
Qed.

Lemma dedup_messages_length seen ms : length (dedup_messages seen ms).1 = length ms.
Proof.
  revert seen. induction ms as [|m ms IH]; intros seen; [done|].
  rewrite dedup_messages_cons. simpl. by rewrite IH.
Qed.

Lemma dedup_messages_placed ms id :
  placed id ms → placed id (dedup_messages ∅ ms).1.
Proof.
  intros (i & m & m' & Hm & Hr & Hu & Hm' & Hr' & Hres & Hfirst).
  destruct (lookup_lt_is_Some_2 (dedup_messages ∅ ms).1 i) as [n Hn].
  { rewrite dedup_messages_length. by apply lookup_lt_Some in Hm. }
  destruct (lookup_lt_is_Some_2 (dedup_messages ∅ ms).1 (S i)) as [n' Hn'].
  { rewrite dedup_messages_length. by apply lookup_lt_Some in Hm'. }
  pose proof (dedup_messages_lookup _ _ _ _ Hn) as (x & s & Hx & -> & _).
  pose proof (dedup_messages_lookup _ _ _ _ Hn') as (x' & s' & Hx' & -> & Hs').
  simplify_eq. exists i, (dedup_message s m), (dedup_message s' m').
  rewrite !role_dedup, uses_dedup. repeat split; [done..| |].
  - apply results_dedup. split; [done|]. rewrite Hs'.
    intros [?|(j & k & Hj & Hk & Hin)]; [set_solver|].
    by apply (Hfirst j k); [lia|..].
  - intros j k Hj Hk. pose proof (dedup_messages_lookup _ _ _ _ Hk) as (y & t & Hy & -> & _).
    rewrite (proj2 (results_dedup t y)). intros [Hin _]. by apply (Hfirst j y).
Qed.

(** A filter that keeps the two messages keeps the placement. *)
Lemma filter_placed (f : Message → bool) ms id :
  (∀ m, m ∈ ms → id ∈ uses m → f m = true) →
  (∀ m, m ∈ ms → role m = User → id ∈ results m → f m = true) →
  placed id ms → placed id (List.filter f ms).
Proof.
  intros Hfu Hfr (i & m & m' & Hm & Hr & Hu & Hm' & Hr' & Hres & Hfirst).
  assert (f m = true) as Fm by (apply Hfu; [by eapply list_elem_of_lookup_2|done]).
  assert (f m' = true) as Fm' by (apply Hfr; [exact (list_elem_of_lookup_2 _ _ _ Hm')|done|done]).
  pose proof (rank_S f ms i m Hm) as HS. rewrite Fm, Nat.add_1_r in HS.
  exists (rank f ms i), m, m'. rewrite (filter_lookup_rank f ms i m) by done.
  rewrite <-HS, (filter_lookup_rank f ms (S i) m') by done.
  repeat split; [done..|]. intros j n Hj Hn. apply filter_lookup_inv in Hn as (k & Hk & _ & <-).
  apply (Hfirst k); [|done]. destruct (decide (k ≤ i)); [done|].
  pose proof (rank_lt f ms i k m Hm Fm). lia.
Qed.

Lemma filter_non_empty_results ms :
  result_ids (List.filter non_empty ms) = result_ids ms.
Proof. exact (gather_filter_non_empty (λ _, true) tool_result_id ms). Qed.

Lemma dedup_fst ms :
  (deduplicate_tool_results ms).1 = List.filter non_empty (dedup_messages ∅ ms).1.
Proof. unfold deduplicate_tool_results. by destruct (dedup_messages ∅ ms). Qed.

Lemma dedup_gather {B} P (f : ContentBlock → option B) ms :
  use_like f → gather P f (deduplicate_tool_results ms).1 = gather P f ms.
Proof.
  intros Hf. rewrite dedup_fst, gather_filter_non_empty. by apply dedup_messages_gather.
Qed.

Lemma dedup_non_empty ms :
  Forall (λ m, non_empty m = true) (deduplicate_tool_results ms).1.
Proof.
  rewrite dedup_fst. apply Forall_forall. intros m Hm. by apply elem_of_List_filter in Hm as [_ ?].
Qed.

Lemma dedup_results ms :
  NoDup (result_ids (deduplicate_tool_results ms).1) ∧
  ∀ id, id ∈ result_ids (deduplicate_tool_results ms).1 ↔ id ∈ result_ids ms.
Proof.
  rewrite dedup_fst, filter_non_empty_results.
  destruct (dedup_messages_results ∅ ms) as [? Hids]. split; [done|].
  intros id. rewrite Hids. set_solver.
Qed.

Lemma dedup_result_blocks ms b :
  b ∈ result_blocks (deduplicate_tool_results ms).1 → b ∈ result_blocks ms.
Proof.
  rewrite dedup_fst, !elem_of_result_blocks.
  intros (m' & [[i Hi]%list_elem_of_lookup _]%elem_of_List_filter & Hb & Hid).
  apply dedup_messages_lookup in Hi as (m & s & Hm & -> & _). rewrite blocks_of_dedup in Hb.
  exists m. split; [by eapply list_elem_of_lookup_2|]. split; [|done].
  eapply elem_of_sublist; [exact Hb|]. apply dedup_blocks_sublist.
Qed.

Lemma dedup_placed ms id : placed id ms → placed id (deduplicate_tool_results ms).1.
Proof.
  intros Hp. rewrite dedup_fst. apply filter_placed; [| |by apply dedup_messages_placed].
  - intros m _. apply uses_non_empty.
  - intros m _ _. apply results_non_empty.
Qed.

(** ** Phase 2e *)

Definition aborted (m : Message) : bool :=
  bool_decide (role m = Assistant) && is_empty_or_blank_content (content m).

Lemma aborted_loop_filter len i ms :
  i + length ms < len →
  aborted_loop len false i ms = List.filter (λ m, negb (aborted m)) ms.
Proof.
  revert i. induction ms as [|m ms IH]; intros i Hlt; [done|]. simpl in *.
  rewrite IH by lia. assert ((i + 1 <? len) = true) as -> by (apply Nat.ltb_lt; lia).
  rewrite andb_true_r. unfold aborted. by destruct (_ && _).
Qed.

Lemma aborted_loop_app len i ms m :
  i + length ms + 1 = len →
  aborted_loop len false i (ms ++ [m]) = List.filter (λ m, negb (aborted m)) ms ++ [m].
Proof.
  revert i. induction ms as [|n ms IH]; intros i Hlen; simpl in *.
  - assert ((i + 1 <? len) = false) as -> by (apply Nat.ltb_ge; lia). by rewrite andb_false_r.
  - rewrite IH by lia. assert ((i + 1 <? len) = true) as -> by (apply Nat.ltb_lt; lia).
    rewrite andb_true_r. unfold aborted. by destruct (_ && _).
Qed.

(** Every aborted message goes, except the last message of the history. *)
Lemma remove_aborted_snoc ms m :
  remove_aborted_assistant_messages (ms ++ [m]) =
  List.filter (λ m, negb (aborted m)) ms ++ [m].
Proof.
  unfold remove_aborted_assistant_messages. rewrite length_app. simpl.
  destruct ms as [|n ms]; [done|].
  assert ((length (n :: ms) + 1 <? 2) = false) as -> by (apply Nat.ltb_ge; simpl; lia).
  apply aborted_loop_app. done.
Qed.

Lemma aborted_blocks m b :
  aborted m = true → b ∈ blocks_of m → tool_use_id b = None ∧ tool_result_id b = None.
Proof.
  unfold aborted, blocks_of, is_empty_or_blank_content.
  rewrite andb_true_iff. intros [_ Hb]. destruct (content m) as [|bs]; [set_solver|].
  intros Hin. assert (forallb blank_block bs = true) as Hall by (by destruct bs).
  rewrite List.forallb_forall in Hall. apply list_elem_of_In, Hall in Hin. by destruct b.
Qed.

Lemma aborted_gather {B} P (f : ContentBlock → option B) ms :
  (∀ b, tool_use_id b = None → tool_result_id b = None → f b = None) →
  gather P f (remove_aborted_assistant_messages ms) = gather P f ms.
Proof.
  intros Hf. assert (∀ m, aborted m = true → omap f (blocks_of m) = []) as Hnil.
  { intros m Hm. pose proof (aborted_blocks m) as Hab.
    induction (blocks_of m) as [|b bs IH]; [done|]. rewrite omap_cons, IH.
    - destruct (Hab b Hm) as [? ?]; [set_solver|]. by rewrite Hf.
    - intros b' ? ?. apply Hab; [done|set_solver]. }
  destruct ms as [|m ms _] using rev_ind; [done|]. rewrite remove_aborted_snoc, !gather_app.
  f_equal. clear m. induction ms as [|m ms IH]; [done|]. cbn [List.filter].
  rewrite gather_cons. destruct (aborted m) eqn:E; simpl negb; cbv iota.
  - rewrite IH, Hnil by done. by destruct (P (role m)).
  - by rewrite gather_cons, IH.
Qed.

Lemma aborted_elem ms m : m ∈ remove_aborted_assistant_messages ms → m ∈ ms.
Proof.
  destruct ms as [|n ms _] using rev_ind; [done|]. rewrite remove_aborted_snoc, !elem_of_app.
  rewrite elem_of_List_filter. tauto.
Qed.

Lemma placed_app ms ms' id : placed id ms → placed id (ms ++ ms').
Proof.
  intros (i & m & m' & Hm & Hr & Hu & Hm' & Hr' & Hres & Hfirst). exists i, m, m'.
  rewrite (lookup_app_l_Some _ _ _ _ Hm), (lookup_app_l_Some _ _ _ _ Hm').
  repeat split; [done..|]. intros j n Hj. apply lookup_lt_Some in Hm.
  rewrite lookup_app_l by lia. by apply Hfirst.
Qed.

Lemma aborted_placed ms id :
  placed id ms → placed id (remove_aborted_assistant_messages ms).
Proof.
  intros Hp. destruct ms as [|m ms _] using rev_ind; [done|]. rewrite remove_aborted_snoc.
  assert (placed id (List.filter (λ m, negb (aborted m)) (ms ++ [m]))) as Hf.
  { apply filter_placed; [| |done]; intros n _; destruct (aborted n) eqn:E; try done.
    - intros (nm & v & Hb)%elem_of_uses. by destruct (aborted_blocks n _ E Hb).
    - intros _ (c & e & Hb)%elem_of_results. by destruct (aborted_blocks n _ E Hb). }
  rewrite List.filter_app in Hf. simpl in Hf. destruct (aborted m); [|done].
  simpl in Hf. rewrite app_nil_r in Hf. by apply placed_app.
Qed.

(** ** Phase 3 *)

Definition merge_messages (x y : Message) : Message :=
  mkMessage (role x) (merge_content (content x) (content y)).

(** Anything a merge of two neighbours keeps, the loop keeps. *)
Lemma merge_loop_ind (Q : list Message → Prop) acc n ms :
  (∀ l1 x y l2, role x = role y → Q (l1 ++ x :: y :: l2) → Q (l1 ++ merge_messages x y :: l2)) →
  Q (reverse acc ++ ms) → Q (merge_loop acc n ms).1.
Proof.
  intros Hmerge. revert acc n. induction ms as [|m ms IH]; intros acc n HQ.
  { simpl. by rewrite app_nil_r in HQ. }
  simpl. destruct acc as [|x acc].
  - apply IH. by rewrite reverse_singleton.
  - case_decide as Hr.
    + apply IH. rewrite reverse_cons, <-app_assoc in HQ |- *. simpl in *.
      by apply (Hmerge (reverse acc) x m ms).
    + apply IH. by rewrite reverse_cons, <-app_assoc.
Qed.

Lemma blocks_of_merge x y :
  blocks_of (merge_messages x y) = content_to_blocks (content x) ++ content_to_blocks (content y).
Proof. done. Qed.

Lemma omap_merge {B} (f : ContentBlock → option B) x y :
  (∀ t, f (TextBlock t) = None) →
  omap f (blocks_of (merge_messages x y)) = omap f (blocks_of x) ++ omap f (blocks_of y).
Proof. intros Hf. by rewrite blocks_of_merge, omap_app, !omap_content_to_blocks. Qed.

Lemma uses_merge x y : uses (merge_messages x y) = uses x ++ uses y.
Proof. by apply omap_merge. Qed.

Lemma results_merge x y : results (merge_messages x y) = results x ++ results y.
Proof. by apply omap_merge. Qed.

Lemma merge_gather {B} P (f : ContentBlock → option B) ms :
  (∀ t, f (TextBlock t) = None) → gather P f (merge_loop [] 0 ms).1 = gather P f ms.
Proof.
  intros Hf. apply (merge_loop_ind (λ ms', gather P f ms' = gather P f ms)); [|done].
  intros l1 x y l2 Hr <-. rewrite !gather_app, !gather_cons, omap_merge by done.
  change (role (merge_messages x y)) with (role x). rewrite <-Hr.
  destruct (P (role x)); [|done]. by rewrite <-app_assoc.
Qed.

Lemma merge_non_empty ms :
  Forall (λ m, non_empty m = true) ms → Forall (λ m, non_empty m = true) (merge_loop [] 0 ms).1.
Proof.
  intros Hne. apply merge_loop_ind; [|done].
  intros l1 x y l2 _. rewrite !Forall_app, !Forall_cons. intros (? & Hx & _ & ?).
  split; [done|]. split; [|done]. unfold non_empty in *. simpl.
  by destruct (content x) as [|[|]].
Qed.

Lemma merge_step_placed id l1 x y l2 :
  role x = role y → placed id (l1 ++ x :: y :: l2) → placed id (l1 ++ merge_messages x y :: l2).
Proof.
  intros Hxy (i & m & m' & Hm & Hr & Hu & Hm' & Hr' & Hres & Hfirst).
  set (new := l1 ++ merge_messages x y :: l2). set (k := length l1).
  assert (∀ j, j < k → new !! j = (l1 ++ x :: y :: l2) !! j) as Hlow
    by (intros; subst new k; by rewrite !lookup_app_l by done).
  assert (new !! k = Some (merge_messages x y)) as Hmid
    by (subst new k; by rewrite lookup_app_r, Nat.sub_diag by lia).
  assert (∀ j, k < j → new !! j = (l1 ++ x :: y :: l2) !! S j) as Hhigh.
  { intros j Hj. subst new k. rewrite !lookup_app_r by lia.
    replace (S j - length l1) with (S (j - length l1)) by lia.
    destruct (j - length l1) eqn:E; [lia|done]. }
  assert ((l1 ++ x :: y :: l2) !! k = Some x) as Hk
    by (subst k; by rewrite lookup_app_r, Nat.sub_diag by lia).
  assert ((l1 ++ x :: y :: l2) !! S k = Some y) as HSk
    by (subst k; rewrite lookup_app_r by lia; by replace (S (length l1) - length l1) with 1 by lia).
  assert (S k ≤ i → ∀ j n, j < i → new !! j = Some n → id ∉ results n) as Hearlier.
  { intros Hcase j n Hj Hn.
    destruct (Nat.lt_trichotomy j k) as [Hjk|[->|Hjk]].
    - rewrite Hlow in Hn by done. by apply (Hfirst j); [lia|].
    - rewrite Hmid in Hn. simplify_eq. rewrite results_merge, elem_of_app.
      intros [Hin|Hin]; [apply (Hfirst k x)|apply (Hfirst (S k) y)]; (done || lia).
    - rewrite Hhigh in Hn by done. apply (Hfirst (S j) n); [lia|done]. }
  destruct (Nat.lt_trichotomy i k) as [Hik|[->|Hik]].
  - exists i, m, (if decide (S i = k) then merge_messages x y else m').
    rewrite Hlow by done. split; [done|]. split; [done|]. split; [done|].
    case_decide as Hk'.
    + rewrite Hk', Hmid. rewrite Hk' in Hm'. simplify_eq. repeat split; try done.
      * rewrite results_merge, elem_of_app. by left.
      * intros j n Hj Hn. rewrite Hlow in Hn by lia. by apply (Hfirst j).
    + rewrite Hlow by lia. repeat split; try done.
      intros j n Hj Hn. rewrite Hlow in Hn by lia. by apply (Hfirst j).
  - exfalso. rewrite HSk in Hm'. rewrite Hk in Hm. simplify_eq. congruence.
  - exists (pred i), (if decide (i = S k) then merge_messages x y else m), m'.
    replace (S (pred i)) with i by lia.
    assert (new !! i = Some m') as -> by (rewrite Hhigh by lia; done).
    assert (∀ j n, j ≤ pred i → new !! j = Some n → id ∉ results n) as Hlast
      by (intros j n Hj; apply Hearlier; lia).
    case_decide as Hi.
    + subst i. simpl. rewrite HSk in Hm. simplify_eq. rewrite Hmid, uses_merge, elem_of_app.
      repeat split; try done; [simpl; congruence|by right].
    + rewrite Hhigh by lia. replace (S (pred i)) with i by lia. done.
Qed.

Lemma merge_placed ms id : placed id ms → placed id (merge_loop [] 0 ms).1.
Proof. intros Hp. apply merge_loop_ind; [apply merge_step_placed|done]. Qed.

(** Neighbours have different roles. *)
Definition alternating (ms : list Message) : Prop :=
  ∀ i m m', ms !! i = Some m → ms !! S i = Some m' → role m ≠ role m'.

Lemma alternating_reverse ms : alternating ms → alternating (reverse ms).
Proof.
  intros H i m m' Hm Hm'. apply reverse_lookup_Some in Hm as [Hm ?], Hm' as [Hm' ?].
  intros E. apply (H (length ms - S (S i)) m' m); [done| |done].
  by replace (S (length ms - S (S i))) with (length ms - S i) by lia.
Qed.

Lemma alternating_cons m ms :
  (∀ n, head ms = Some n → role m ≠ role n) → alternating ms → alternating (m :: ms).
Proof.
  intros Hh H [|i] n n'; simpl; [|by apply H]. intros [= <-] Hn. apply Hh. by destruct ms.
Qed.

Lemma merge_alternating acc n ms : alternating acc → alternating (merge_loop acc n ms).1.
Proof.
  revert acc n. induction ms as [|m ms IH]; intros acc n Hacc; simpl.
  { by apply alternating_reverse. }
  destruct acc as [|x acc].
  - apply IH. apply alternating_cons; [done|]. by intros ? ? ?.
  - case_decide as Hr; apply IH.
    + intros [|i] y y'; [|apply (Hacc (S i))]. intros [= <-] Hy'. by apply (Hacc 0 x y').
    + apply alternating_cons; [|done]. by intros ? [= <-].
Qed.
End facts.
