(* ===== verification/SessionRepairTheorems.v ===== *)
(** * What session repair guarantees

    The theorems on [validate_and_repair]: the repaired history alternates
    roles, has no empty message and no duplicate or orphaned tool result,
    keeps every tool use, invents a result only where there was none, answers
    every tool use in the very next message, and a repaired history is left
    alone. *)

From Stdlib Require Import Lia.
From stdpp Require Import base gmap strings list sorting.
From S2P Require Import Prelude Strs Message SessionRepair SessionRepairFacts.

Section theorems.
Context {Value : Type}.
Local Abbreviation Message := (Message Value).
Local Abbreviation ContentBlock := (ContentBlock Value).
Implicit Types (ms : list Message) (m : Message) (b : ContentBlock) (id : str).

(** ** Vocabulary of the statements *)

(** The tool-use blocks of a history, in order. *)
Definition use_block (b : ContentBlock) : option ContentBlock :=
  match b with ToolUse _ _ _ => Some b | _ => None end.
Definition use_blocks (ms : list Message) : list ContentBlock :=
  ms ≫= λ m, omap use_block (blocks_of m).

(** Every assistant tool use is answered in the next message. *)
Definition answered (ms : list Message) : Prop :=
  ∀ i m id, ms !! i = Some m → role m = Assistant → id ∈ uses m →
    ∃ m', ms !! S i = Some m' ∧ role m' = User ∧ id ∈ results m'.

(** Only the last message can be a blank assistant message. *)
Definition no_aborted_turn (ms : list Message) : Prop :=
  ∀ i m, ms !! i = Some m → S i < length ms → aborted m = false.

(** Tool uses come from the assistant and tool results from the user. *)
Definition well_roled (ms : list Message) : Prop :=
  results_from_user ms ∧ ∀ m id, m ∈ ms → id ∈ uses m → role m = Assistant.

(** The histories a model API accepts. *)
Record well_formed (ms : list Message) : Prop := {
  wf_roled : well_roled ms;
  wf_non_empty : Forall (λ m, non_empty m = true) ms;
  wf_alternating : alternating ms;
  wf_uses : NoDup (assistant_use_ids ms);
  wf_results : NoDup (result_ids ms);
  wf_matched : ∀ id, id ∈ result_ids ms → id ∈ assistant_use_ids ms;
  wf_answered : answered ms;
  wf_no_aborted : no_aborted_turn ms
}.

(** ** The pipeline *)

Definition cleaned (ms : list Message) : list Message :=
  omap (clean_message (collect_tool_use_ids ms)) ms.
Definition reordered (ms : list Message) : list Message := (reorder_tool_results (cleaned ms)).1.
Definition completed (ms : list Message) : list Message :=
  (insert_synthetic_results (reordered ms)).1.
Definition deduplicated (ms : list Message) : list Message :=
  (deduplicate_tool_results (completed ms)).1.
Definition unaborted (ms : list Message) : list Message :=
  remove_aborted_assistant_messages (deduplicated ms).

Lemma repair_pipeline ms : validate_and_repair ms = (merge_loop [] 0 (unaborted ms)).1.
Proof.
  unfold validate_and_repair, validate_and_repair_with_stats, unaborted, deduplicated, completed,
    reordered, cleaned.
  pose proof (clean_fold (collect_tool_use_ids ms) ms [] default_stats) as E.
  destruct (foldl _ _ ms) as [c st]. simpl in E. subst c.
  destruct (reorder_tool_results _) as [r n]. simpl.
  destruct (insert_synthetic_results r) as [r' n']. simpl.
  destruct (deduplicate_tool_results r') as [r'' n'']. simpl.
  by destruct (merge_loop [] 0 _).
Qed.

Lemma elem_of_collect ms id : id ∈ collect_tool_use_ids ms ↔ id ∈ use_ids ms.
Proof. unfold collect_tool_use_ids. by rewrite elem_of_list_to_set. Qed.

Lemma deduplicated_gather {B} P (f : ContentBlock → option B) ms :
  use_like f → gather P f (deduplicated ms) = gather P f ms.
Proof.
  intros Hf. unfold deduplicated, completed, reordered, cleaned.
  by rewrite dedup_gather, synthetic_gather, reorder_gather, clean_gather.
Qed.

Lemma repair_gather {B} P (f : ContentBlock → option B) ms :
  use_like f → gather P f (validate_and_repair ms) = gather P f ms.
Proof.
  intros Hf. rewrite repair_pipeline, merge_gather by (intros; by apply use_like_text).
  unfold unaborted. rewrite aborted_gather by (intros; by apply Hf).
  by apply deduplicated_gather.
Qed.

Lemma repair_assistant_use_ids ms :
  assistant_use_ids (validate_and_repair ms) = assistant_use_ids ms.
Proof. rewrite !assistant_use_ids_gather. apply repair_gather, use_like_id. Qed.

Lemma repair_use_ids ms : use_ids (validate_and_repair ms) = use_ids ms.
Proof. rewrite !use_ids_gather. apply repair_gather, use_like_id. Qed.

(** The last two phases move no result. *)
Lemma repair_result_blocks ms :
  result_blocks (validate_and_repair ms) = result_blocks (deduplicated ms).
Proof.
  change (gather (λ _, true) result_block (validate_and_repair ms) =
          gather (λ _, true) result_block (deduplicated ms)).
  rewrite repair_pipeline, merge_gather by done. unfold unaborted.
  apply aborted_gather. by intros [].
Qed.

Lemma repair_result_ids ms : result_ids (validate_and_repair ms) = result_ids (deduplicated ms).
Proof.
  change (gather (λ _, true) tool_result_id (validate_and_repair ms) =
          gather (λ _, true) tool_result_id (deduplicated ms)).
  rewrite repair_pipeline, merge_gather by done. unfold unaborted. by apply aborted_gather.
Qed.

Lemma reordered_uses ms : assistant_use_ids (reordered ms) = assistant_use_ids ms.
Proof.
  rewrite !assistant_use_ids_gather. unfold reordered, cleaned.
  by rewrite reorder_gather, clean_gather by apply use_like_id.
Qed.

Lemma reordered_result_blocks ms b :
  b ∈ result_blocks (reordered ms) ↔
  b ∈ result_blocks ms ∧ ∃ id, tool_result_id b = Some id ∧ id ∈ use_ids ms.
Proof.
  unfold reordered, cleaned. rewrite reorder_result_blocks, clean_result_blocks.
  by setoid_rewrite elem_of_collect.
Qed.

Lemma assistant_use_is_use ms id : id ∈ assistant_use_ids ms → id ∈ use_ids ms.
Proof.
  rewrite elem_of_assistant_use_ids, elem_of_use_ids. intros (m & ? & _ & ?). eauto.
Qed.

Lemma completed_result_blocks ms b :
  b ∈ result_blocks (completed ms) ↔
  (b ∈ result_blocks ms ∧ ∃ id, tool_result_id b = Some id ∧ id ∈ use_ids ms) ∨
  ∃ id, b = synthetic_result id ∧ id ∈ assistant_use_ids ms ∧ id ∉ result_ids ms.
Proof.
  unfold completed. rewrite synthetic_result_blocks, reordered_result_blocks, reordered_uses.
  split; (intros [?|(id & -> & Hu & Hnot)]; [by left|right]); exists id; repeat split; try done.
  - rewrite result_ids_blocks. intros (c & e & Hb). apply Hnot, result_ids_blocks.
    exists c, e. apply reordered_result_blocks. split; [done|]. exists id.
    split; [done|]. by apply assistant_use_is_use.
  - rewrite result_ids_blocks. intros (c & e & [Hb _]%reordered_result_blocks). apply Hnot.
    apply result_ids_blocks. eauto.
Qed.

Lemma repair_placed ms id :
  results_from_user ms → NoDup (assistant_use_ids ms) → id ∈ assistant_use_ids ms →
  placed id (validate_and_repair ms).
Proof.
  intros Hu Hnd Hid. rewrite repair_pipeline.
  apply merge_placed, aborted_placed, dedup_placed.
  apply synthetic_placed.
  - apply unique_uses_NoDup. by rewrite reordered_uses.
  - by rewrite reordered_uses.
  - apply reorder_placed.
    + apply unique_uses_NoDup. unfold cleaned. rewrite assistant_use_ids_gather, clean_gather
        by apply use_like_id. by rewrite <-assistant_use_ids_gather.
    + by apply clean_results_from_user.
    + unfold cleaned. rewrite assistant_use_ids_gather, clean_gather by apply use_like_id.
      by rewrite <-assistant_use_ids_gather.
Qed.

Lemma placed_answered ms :
  unique_uses ms → (∀ id, id ∈ assistant_use_ids ms → placed id ms) → answered ms.
Proof.
  intros Huniq Hp i m id Hm Hr Hu.
  destruct (Hp id) as (k & n & n' & Hn & Hnr & Hnu & Hn' & Hr' & Hres & _).
  { apply elem_of_assistant_use_ids. exists m. split; [by eapply list_elem_of_lookup_2|done]. }
  assert (k = i) as -> by (eapply Huniq; [exact Hn|exact Hm|..]; by apply elem_of_assistant_uses).
  eauto.
Qed.

Lemma unaborted_no_aborted ms : no_aborted_turn (unaborted ms).
Proof.
  unfold unaborted. destruct (deduplicated ms) as [|m ds _] using rev_ind; [by intros []|].
  rewrite remove_aborted_snoc. intros i n Hn Hlt. rewrite length_app in Hlt. simpl in Hlt.
  rewrite lookup_app_l in Hn by lia.
  apply list_elem_of_lookup_2, elem_of_List_filter in Hn as [_ Hn]. by apply negb_true_iff in Hn.
Qed.

Lemma merge_aborted (x y : Message) : aborted x = false → aborted (merge_messages x y) = false.
Proof.
  unfold aborted. simpl. destruct (bool_decide (role x = Assistant)); [|done]. simpl.
  unfold is_empty_or_blank_content, merge_content. destruct (content x) as [s|bs]; simpl.
  - by intros ->.
  - intros Hb. destruct bs as [|b bs]; [done|]. change (forallb blank_block ((b :: bs) ++ content_to_blocks (content y)) = false).
    by rewrite List.forallb_app, Hb.
Qed.

Lemma merge_no_aborted ms : no_aborted_turn ms → no_aborted_turn (merge_loop [] 0 ms).1.
Proof.
  intros H. apply merge_loop_ind; [|done]. clear ms H.
  intros l1 x y l2 _ H i m Hm Hlt. rewrite length_app in Hlt. simpl in Hlt.
  assert (∀ j, j < length l1 → l1 !! j = Some m → aborted m = false) as Hlow.
  { intros j Hj Hl. apply (H j); [by rewrite lookup_app_l|]. rewrite length_app. simpl. lia. }
  destruct (Nat.lt_trichotomy i (length l1)) as [Hi|[->|Hi]].
  - rewrite lookup_app_l in Hm by done. by apply Hlow with i.
  - rewrite lookup_app_r, Nat.sub_diag in Hm by lia. simplify_eq/=. apply merge_aborted.
    apply (H (length l1)); [by rewrite lookup_app_r, Nat.sub_diag by lia|].
    rewrite length_app. simpl. lia.
  - apply (H (S i)); [|rewrite length_app; simpl; lia].
    rewrite lookup_app_r in Hm |- * by lia.
    replace (S i - length l1) with (S (i - length l1)) by lia.
    destruct (i - length l1) eqn:E; [lia|done].
Qed.

(** A gathered block is in a message of an admitted role. *)
Lemma elem_of_gather {B} P (f : ContentBlock → option B) ms x :
  x ∈ gather P f ms ↔ ∃ m, m ∈ ms ∧ P (role m) = true ∧ x ∈ omap f (blocks_of m).
Proof.
  unfold gather. rewrite list_elem_of_bind. split.
  - intros (m & Hx & Hm). destruct (P (role m)) eqn:E; [eauto|set_solver].
  - intros (m & Hm & Hp & Hx). exists m. by rewrite Hp.
Qed.

Lemma results_from_user_gather ms :
  results_from_user ms ↔ gather (λ r, negb (bool_decide (r = User))) tool_result_id ms = [].
Proof.
  split.
  - intros H. apply elem_of_nil_inv. intros id (m & Hm & Hp & Hid)%elem_of_gather.
    apply (H m id Hm); [|done]. apply negb_true_iff, bool_decide_eq_false in Hp. done.
  - intros H m id Hm Hr Hid. apply (not_elem_of_nil id). rewrite <-H.
    apply elem_of_gather. exists m. split; [done|]. split; [|done].
    apply negb_true_iff, bool_decide_eq_false. done.
Qed.

Lemma repair_results_from_user ms :
  results_from_user ms → results_from_user (validate_and_repair ms).
Proof.
  intros H. rewrite repair_pipeline. apply results_from_user_gather.
  rewrite merge_gather by done. unfold unaborted. rewrite aborted_gather by done.
  apply results_from_user_gather.
  assert (results_from_user (completed ms)) as Hc.
  { unfold completed. rewrite synthetic_fold.
    apply attach_fold_results_from_user; [apply synthetic_descending|apply synthetic_ok|].
    by apply reorder_results_from_user, clean_results_from_user. }
  unfold deduplicated. rewrite dedup_fst.
  intros m id [[i Hi]%list_elem_of_lookup _]%elem_of_List_filter Hr Hid.
  apply dedup_messages_lookup in Hi as (n & s & Hn & -> & _).
  rewrite role_dedup in Hr. apply results_dedup in Hid as [Hid _].
  by apply (Hc n id (list_elem_of_lookup_2 _ _ _ Hn)).
Qed.

Lemma repair_uses_from_assistant ms :
  (∀ m id, m ∈ ms → id ∈ uses m → role m = Assistant) →
  ∀ m id, m ∈ validate_and_repair ms → id ∈ uses m → role m = Assistant.
Proof.
  intros H m id Hm Hid. destruct (decide (role m = Assistant)) as [?|Hr]; [done|].
  assert (id ∈ gather (λ r, negb (bool_decide (r = Assistant))) tool_use_id (validate_and_repair ms))
    as Hin.
  { apply elem_of_gather. exists m. split; [done|]. split; [|done].
    by apply negb_true_iff, bool_decide_eq_false. }
  rewrite repair_gather in Hin by apply use_like_id.
  apply elem_of_gather in Hin as (n & Hn & Hp & Hid').
  apply negb_true_iff, bool_decide_eq_false in Hp. exfalso. by apply Hp, (H n id).
Qed.

(** ** The parts of the guarantees *)

Lemma repaired_alternating ms : alternating (validate_and_repair ms).
Proof. rewrite repair_pipeline. apply merge_alternating. by intros ? ? ?. Qed.

Lemma repaired_non_empty ms : Forall (λ m, non_empty m = true) (validate_and_repair ms).
Proof.
  rewrite repair_pipeline. apply merge_non_empty.
  pose proof (dedup_non_empty (completed ms)) as H. rewrite Forall_forall in H |- *.
  intros m Hm%aborted_elem. by apply H.
Qed.

Lemma repaired_results_unique ms : NoDup (result_ids (validate_and_repair ms)).
Proof. rewrite repair_result_ids. apply dedup_results. Qed.

Lemma repaired_result_has_use ms id : id ∈ result_ids (validate_and_repair ms) → id ∈ use_ids ms.
Proof.
  rewrite repair_result_ids. unfold deduplicated. rewrite (proj2 (dedup_results _)), result_ids_blocks.
  intros (c & e & Hb).
  apply completed_result_blocks in Hb as [[_ (id' & [= <-] & ?)]|(id' & E & Hu & _)]; [done|].
  unfold synthetic_result in E. simplify_eq. by apply assistant_use_is_use.
Qed.

Lemma repaired_use_has_result ms id :
  id ∈ assistant_use_ids ms → id ∈ result_ids (validate_and_repair ms).
Proof.
  intros Hu. rewrite repair_result_ids. unfold deduplicated.
  rewrite (proj2 (dedup_results _)), result_ids_blocks.
  destruct (decide (id ∈ result_ids ms)) as [Hres|Hres].
  - apply result_ids_blocks in Hres as (c & e & Hb). exists c, e.
    apply completed_result_blocks. left. split; [done|]. exists id.
    split; [done|]. by apply assistant_use_is_use.
  - do 2 eexists. apply completed_result_blocks. right. exists id. done.
Qed.

Lemma repaired_answered ms :
  results_from_user ms → NoDup (assistant_use_ids ms) → answered (validate_and_repair ms).
Proof.
  intros Hu Hnd. apply placed_answered.
  - apply unique_uses_NoDup. by rewrite repair_assistant_use_ids.
  - intros id Hid. rewrite repair_assistant_use_ids in Hid. by apply repair_placed.
Qed.

Lemma use_ids_well_roled ms id : well_roled ms → id ∈ use_ids ms → id ∈ assistant_use_ids ms.
Proof.
  intros [_ H]. rewrite elem_of_use_ids, elem_of_assistant_use_ids. intros (m & Hm & Hid).
  exists m. eauto.
Qed.

Lemma repaired_well_formed ms :
  well_roled ms → NoDup (assistant_use_ids ms) → well_formed (validate_and_repair ms).
Proof.
  intros Hr Hnd. constructor.
  - split; [apply repair_results_from_user, Hr|apply repair_uses_from_assistant, Hr].
  - apply repaired_non_empty.
  - apply repaired_alternating.
  - by rewrite repair_assistant_use_ids.
  - apply repaired_results_unique.
  - intros id Hid. rewrite repair_assistant_use_ids. apply use_ids_well_roled; [done|].
    by apply repaired_result_has_use.
  - apply repaired_answered; [apply Hr|done].
  - rewrite repair_pipeline. apply merge_no_aborted, unaborted_no_aborted.
Qed.

(** ** A well-formed history *)

Section well_formed_history.
Context (ms : list Message) (Hwf : well_formed ms).

Lemma wf_result_use m id : m ∈ ms → id ∈ results m → id ∈ collect_tool_use_ids ms.
Proof.
  intros Hm Hid. apply elem_of_collect, assistant_use_is_use, (wf_matched _ Hwf).
  apply elem_of_result_ids. eauto.
Qed.

Lemma filter_orphans_keep (ids : gset str) (bs : list ContentBlock) :
  (∀ id, id ∈ block_result_ids bs → id ∈ ids) → filter_orphans ids bs = (bs, 0).
Proof.
  induction bs as [|b bs IH]; [done|]. unfold block_result_ids. rewrite omap_cons. intros Hin.
  simpl. rewrite IH by (intros id Hid; apply Hin, elem_of_app; by right).
  destruct b; try done. by rewrite decide_True by (apply Hin; set_solver).
Qed.

Lemma clean_step_keep (ids : gset str) m acc st :
  non_empty m = true → (∀ id, id ∈ results m → id ∈ ids) →
  clean_step ids (acc, st) m = (acc ++ [m], st).
Proof.
  unfold non_empty, results, blocks_of, clean_step. intros Hne Hin.
  destruct m as [r [s|bs]]; simpl in *.
  - by destruct (is_empty s).
  - rewrite filter_orphans_keep by done. destruct bs; [done|]. rewrite Nat.add_0_r. by destruct st.
Qed.

Lemma wf_clean :
  foldl (clean_step (collect_tool_use_ids ms)) ([], default_stats) ms = (ms, default_stats).
Proof.
  assert (∀ l acc, (∀ m, m ∈ l → m ∈ ms) →
    foldl (clean_step (collect_tool_use_ids ms)) (acc, default_stats) l = (acc ++ l, default_stats))
    as H; [|by apply (H ms [])].
  intros l. induction l as [|m l IH]; intros acc Hl; [by rewrite app_nil_r|]. cbn [foldl].
  assert (m ∈ ms) as Hm by (apply Hl; set_solver).
  rewrite clean_step_keep.
  - rewrite IH by (intros; apply Hl; set_solver). by rewrite <-app_assoc.
  - pose proof (wf_non_empty _ Hwf) as Hne. rewrite Forall_forall in Hne. by apply Hne.
  - intros id Hid. by apply wf_result_use with m.
Qed.

(** A result id occurs in one message only. *)
Lemma wf_result_once i j m n id :
  ms !! i = Some m → ms !! j = Some n → id ∈ results m → id ∈ results n → i = j.
Proof.
  pose proof (wf_results _ Hwf) as Hnd. unfold result_ids in Hnd. revert i j Hnd. clear Hwf.
  induction ms as [|x l IH]; intros i j Hnd Hm Hn Him Hin; [done|].
  rewrite bind_cons, NoDup_app in Hnd. destruct Hnd as (_ & Hdisj & Hnd).
  assert (∀ k y, l !! k = Some y → id ∈ results y → id ∉ results x) as Hd.
  { intros k y Hk Hy Hx. apply (Hdisj id Hx). apply list_elem_of_bind. exists y.
    split; [done|]. by eapply list_elem_of_lookup_2. }
  destruct i, j; simplify_eq/=; [done|exfalso; by eapply Hd..|]. f_equal. by apply IH.
Qed.

Lemma wf_no_misplaced : misplaced (tool_use_index ms) ms = [].
Proof.
  apply elem_of_nil_inv. intros [[[j id] b] k] He.
  apply elem_of_misplaced in He as (m & c & e & Hm & _ & -> & Hb & Hi & Hne).
  apply index_Some in Hi as (n & Hn & Hr & Hu).
  destruct (wf_answered _ Hwf k n id Hn Hr Hu) as (m' & Hm' & _ & Hres).
  apply Hne. rewrite Nat.add_1_r. eapply wf_result_once; [exact Hm|exact Hm'| |exact Hres].
  apply elem_of_results. eauto.
Qed.

Lemma wf_no_orphaned_use : orphaned_uses ms = [].
Proof.
  apply elem_of_nil_inv. intros [k id] (m & Hm & Hr & Hu & Hnot)%elem_of_orphaned_uses.
  destruct (wf_answered _ Hwf k m id Hm Hr Hu) as (m' & Hm' & _ & Hres). apply Hnot.
  apply elem_of_result_ids. exists m'. split; [by eapply list_elem_of_lookup_2|done].
Qed.

Lemma dedup_blocks_keep seen (bs : list ContentBlock) :
  NoDup (block_result_ids bs) → (∀ id, id ∈ block_result_ids bs → id ∉ seen) →
  (dedup_blocks seen bs).1 = bs.
Proof.
  unfold block_result_ids. revert seen.
  induction bs as [|b bs IH]; intros seen; [done|]. rewrite omap_cons. simpl.
  destruct b as [| | |id c e| |]; simpl; intros Hnd Hns.
  all: try (specialize (IH seen Hnd Hns); destruct (dedup_blocks seen bs); simpl in *; by subst).
  rewrite decide_False by (apply Hns; set_solver). apply NoDup_cons in Hnd as [Hid Hnd].
  assert ((dedup_blocks ({[id]} ∪ seen) bs).1 = bs) as E.
  { apply IH; [done|]. intros id' Hid'. specialize (Hns id'). set_solver. }
  destruct (dedup_blocks ({[id]} ∪ seen) bs). simpl in *. by subst.
Qed.

Lemma dedup_messages_keep seen (l : list Message) :
  NoDup (result_ids l) → (∀ id, id ∈ result_ids l → id ∉ seen) → dedup_messages seen l = (l, 0).
Proof.
  unfold result_ids. revert seen. induction l as [|m l IH]; intros seen; [done|].
  rewrite bind_cons, NoDup_app. intros (Hm & Hdisj & Hl) Hns. simpl.
  assert (∀ s, (∀ id, id ∈ s → id ∈ seen ∨ id ∈ results m) → dedup_messages s l = (l, 0)) as Hrest.
  { intros s Hs. apply IH; [done|]. intros id Hid Hin. apply Hs in Hin as [Hin|Hin].
    - by apply (Hns id); [apply elem_of_app; right|].
    - by apply (Hdisj id). }
  destruct m as [r [s|bs]]; simpl.
  - by rewrite Hrest by auto.
  - assert ((dedup_blocks seen bs).1 = bs) as E.
    { apply dedup_blocks_keep; [done|]. intros id Hid. apply Hns, elem_of_app. by left. }
    pose proof (dedup_blocks_seen seen bs) as Hseen.
    destruct (dedup_blocks seen bs) as [k s]. simpl in *. subst k s.
    rewrite Hrest, Nat.sub_diag; [done|]. intros id.
    rewrite elem_of_union, elem_of_list_to_set. done.
Qed.

Lemma wf_dedup : deduplicate_tool_results ms = (ms, 0).
Proof.
  unfold deduplicate_tool_results.
  rewrite dedup_messages_keep by (apply (wf_results _ Hwf) || set_solver). f_equal.
  pose proof (wf_non_empty _ Hwf) as Hne. clear Hwf.
  induction Hne as [|m l Hm _ IH]; [done|]. simpl. by rewrite Hm, IH.
Qed.

Lemma wf_aborted : remove_aborted_assistant_messages ms = ms.
Proof.
  pose proof (wf_no_aborted _ Hwf) as Hna. clear Hwf.
  destruct ms as [|m l _] using rev_ind; [done|]. rewrite remove_aborted_snoc. f_equal.
  assert (∀ x, x ∈ l → aborted x = false) as Hl.
  { intros x [i Hi]%list_elem_of_lookup. apply (Hna i); [by apply lookup_app_l_Some|].
    rewrite length_app. simpl. apply lookup_lt_Some in Hi. lia. }
  clear Hna. induction l as [|x l IH]; [done|]. simpl. rewrite Hl by set_solver. simpl. f_equal.
  apply IH. intros y Hy. apply Hl. set_solver.
Qed.

Lemma merge_loop_keep acc (l : list Message) :
  alternating (reverse acc ++ l) → merge_loop acc 0 l = (reverse acc ++ l, 0).
Proof.
  revert acc. induction l as [|m l IH]; intros acc Halt; [by rewrite app_nil_r|]. simpl.
  destruct acc as [|x acc].
  - by rewrite IH by (by rewrite reverse_singleton).
  - rewrite decide_False.
    + rewrite IH; rewrite (reverse_cons (x :: acc)), <-app_assoc; done.
    + rewrite reverse_cons, <-app_assoc in Halt. simpl in Halt.
      apply (Halt (length (reverse acc)));
        (rewrite lookup_app_r by lia; by rewrite ?Nat.sub_diag, ?Nat.sub_succ_l, ?Nat.sub_diag by lia).
Qed.
End well_formed_history.

Lemma well_formed_unchanged ms :
  well_formed ms → validate_and_repair_with_stats ms = (ms, default_stats).
Proof.
  intros Hwf. unfold validate_and_repair_with_stats. rewrite wf_clean by done.
  unfold reorder_tool_results. rewrite wf_no_misplaced by done.
  unfold insert_synthetic_results. rewrite wf_no_orphaned_use by done.
  rewrite wf_dedup, wf_aborted by done.
  rewrite merge_loop_keep by apply (wf_alternating _ Hwf). simpl. by rewrite Nat.sub_diag.
Qed.

(** ** Guarantees *)

(** C4: When tool results come from user messages only and no two assistant
    tool uses share an id, every assistant tool use of the repaired history is
    answered in the very next message, which is a user message. *)
Theorem repair_answers_next ms :
  results_from_user ms → NoDup (assistant_use_ids ms) → answered (validate_and_repair ms).
Proof. apply repaired_answered. Qed.

(** In a repaired history the tool results and the tool uses correspond:
    no id has two results, every result has a tool use, and every assistant
    tool use has a result. No assumption is made on the history. *)
Theorem repair_results_match ms :
  NoDup (result_ids (validate_and_repair ms)) ∧
  (∀ id, id ∈ result_ids (validate_and_repair ms) → id ∈ use_ids (validate_and_repair ms)) ∧
  (∀ id, id ∈ assistant_use_ids (validate_and_repair ms) →
         id ∈ result_ids (validate_and_repair ms)).
Proof.
  rewrite repair_use_ids, repair_assistant_use_ids.
  split; [apply repaired_results_unique|].
  split; [apply repaired_result_has_use|apply repaired_use_has_result].
Qed.

(** C20: The repair is idempotent: on a history whose tool uses come from the
    assistant, whose results come from the user and whose ids are not reused,
    a second repair changes nothing and counts no fix. *)
Theorem repair_idempotent ms :
  well_roled ms → NoDup (assistant_use_ids ms) →
  validate_and_repair_with_stats (validate_and_repair ms) =
  (validate_and_repair ms, default_stats).
Proof. intros. by apply well_formed_unchanged, repaired_well_formed. Qed.

(** Neighbours in a repaired history have different roles and no message
    is empty, whatever the history. *)
Theorem repair_alternates ms :
  alternating (validate_and_repair ms) ∧
  Forall (λ m, non_empty m = true) (validate_and_repair ms).
Proof. split; [apply repaired_alternating|apply repaired_non_empty]. Qed.

(** No tool use is lost, duplicated, altered or reordered by the repair,
    whatever the history. *)
Theorem repair_preserves_tool_uses ms : use_blocks (validate_and_repair ms) = use_blocks ms.
Proof. apply (repair_gather (λ _, true) use_block ms). by intros []. Qed.

(** Every tool result of the repaired history is one of the original
    results, unaltered, or the synthetic error for a tool use that had no
    result at all. *)
Theorem repair_results_genuine ms b :
  b ∈ result_blocks (validate_and_repair ms) →
  b ∈ result_blocks ms ∨ ∃ id, b = synthetic_result id ∧ id ∉ result_ids ms.
Proof.
  rewrite repair_result_blocks. intros Hb%dedup_result_blocks.
  apply completed_result_blocks in Hb as [[? _]|(id & -> & _ & ?)]; eauto.
Qed.

(** ** Heartbeat pruning *)

(** The messages at the positions that satisfy [f]. *)
Definition keep_positions (f : nat → bool) (ms : list Message) : list Message :=
  snd <$> List.filter (λ p, f p.1) (enumerate ms).

(** The message at [i] is an assistant message that only says there is
    nothing to reply. *)
Definition no_reply_at (ms : list Message) (i : nat) : bool :=
  match ms !! i with
  | Some m => bool_decide (role m = Assistant) && is_no_reply (content m)
  | None => false
  end.

Definition user_at (ms : list Message) (i : nat) : bool :=
  match ms !! i with Some m => bool_decide (role m = User) | None => false end.

(** Position [i] is pruned: a no-reply turn, or the user message that
    triggered one, in the part of the history that is not recent. *)
Definition pruned_at (ms : list Message) (keep_recent i : nat) : bool :=
  ((i <? length ms - keep_recent) && no_reply_at ms i) ||
  ((S i <? length ms - keep_recent) && user_at ms i && no_reply_at ms (S i)).

Lemma keep_positions_cons f m ms :
  keep_positions f (m :: ms) = (if f 0 then [m] else []) ++ keep_positions (λ i, f (S i)) ms.
Proof.
  unfold keep_positions, enumerate. rewrite imap_cons. simpl.
  assert (∀ (l : list Message) (g : nat → nat),
    snd <$> List.filter (λ p, f p.1) (imap (pair ∘ S ∘ g) l) =
    snd <$> List.filter (λ p, f (S p.1)) (imap (pair ∘ g) l)) as H.
  { clear. intros l. induction l as [|x l IH]; intros g; [done|]. rewrite !imap_cons. simpl.
    pose proof (IH (g ∘ S)) as E. destruct (f (S (g 0))); simpl; [f_equal|]; exact E. }
  pose proof (H ms id) as E. destruct (f 0); simpl; [f_equal|]; exact E.
Qed.

Lemma keep_positions_ext f g ms :
  (∀ i, i < length ms → f i = g i) → keep_positions f ms = keep_positions g ms.
Proof.
  revert f g. induction ms as [|m ms IH]; intros f g H; [done|].
  rewrite !keep_positions_cons, (H 0), (IH _ (λ i, g (S i))); [done| |simpl; lia].
  intros i Hi. apply H. simpl. lia.
Qed.

Lemma keep_positions_all f ms : (∀ i, i < length ms → f i = true) → keep_positions f ms = ms.
Proof.
  revert f. induction ms as [|m ms IH]; intros f H; [done|].
  rewrite keep_positions_cons, H by (simpl; lia). simpl. f_equal. apply IH.
  intros i Hi. apply H. simpl. lia.
Qed.

Lemma delete_keep_positions f ms x :
  (∀ i, i ≤ x → f i = true) →
  delete x (keep_positions f ms) = keep_positions (λ i, f i && negb (i =? x)) ms.
Proof.
  revert f x. induction ms as [|m ms IH]; intros f x H; [by destruct x|].
  rewrite !keep_positions_cons, (H 0) by lia. destruct x as [|x]; simpl.
  - apply keep_positions_ext. intros i _. by rewrite andb_true_r.
  - f_equal. apply IH. intros i Hi. apply H. lia.
Qed.

Lemma remove_all_keep ms idxs :
  StronglySorted lt idxs →
  remove_all ms idxs = keep_positions (λ i, negb (bool_decide (i ∈ idxs))) ms.
Proof.
  unfold remove_all. intros Hs. induction Hs as [|x idxs _ IH Hall].
  - symmetry. by apply keep_positions_all.
  - rewrite reverse_cons, foldl_app. simpl. rewrite IH, delete_keep_positions.
    + apply keep_positions_ext. intros i _. rewrite <-negb_orb. f_equal.
      destruct (Nat.eqb_spec i x); repeat case_bool_decide; set_solver.
    + intros i Hi. apply negb_true_iff, bool_decide_eq_false. intros Hin.
      rewrite Forall_forall in Hall. specialize (Hall i Hin). lia.
Qed.

Lemma vec_dedup_cons y z l :
  vec_dedup (y :: z :: l) = if y =? z then vec_dedup (z :: l) else y :: vec_dedup (z :: l).
Proof. done. Qed.

Lemma vec_dedup_elem l x : x ∈ vec_dedup l ↔ x ∈ l.
Proof.
  induction l as [|y [|z l] IH]; [done..|]. rewrite vec_dedup_cons.
  destruct (Nat.eqb_spec y z) as [->|]; [|rewrite !elem_of_cons, IH; set_solver].
  rewrite IH. set_solver.
Qed.

Lemma vec_dedup_sorted l : StronglySorted le l → StronglySorted lt (vec_dedup l).
Proof.
  induction l as [|y [|z l] IH]; intros Hs; [constructor|by repeat constructor|].
  inversion Hs as [|? ? Hs' Hall]; subst. rewrite vec_dedup_cons.
  destruct (Nat.eqb_spec y z) as [|Hne]; [by apply IH|]. constructor; [by apply IH|].
  apply Forall_forall. intros x Hx. rewrite vec_dedup_elem in Hx. rewrite Forall_forall in Hall.
  inversion Hs' as [|? ? _ Hall']; subst. rewrite Forall_forall in Hall'.
  pose proof (Hall z ltac:(set_solver)). apply elem_of_cons in Hx as [->|Hx]; [lia|].
  specialize (Hall' x Hx). lia.
Qed.

Lemma heartbeat_indices_spec ms i j :
  j ∈ heartbeat_indices ms i ↔
  no_reply_at ms i = true ∧ (j = i ∨ (i = S j ∧ user_at ms j = true)).
Proof.
  unfold heartbeat_indices, no_reply_at, user_at.
  destruct (ms !! i) as [m|] eqn:Hi; [|set_solver].
  destruct (bool_decide _ && _); [|set_solver].
  destruct i as [|i]; [rewrite list_elem_of_singleton; split; [auto|by intros [_ [?|[? _]]]]|].
  rewrite elem_of_cons. split.
  - intros [->|Hj]; [auto|]. split; [done|]. destruct (ms !! i) as [n|] eqn:Hn; [|set_solver].
    case_decide; [|set_solver]. apply list_elem_of_singleton in Hj as ->. right.
    split; [done|]. rewrite Hn. by apply bool_decide_eq_true.
  - intros [_ [->|[[= ->] Hj]]]; [by left|right]. destruct (ms !! j); [|done].
    apply bool_decide_eq_true in Hj. rewrite decide_True by done. set_solver.
Qed.

Lemma to_remove_spec ms n j :
  j ∈ seq 0 n ≫= heartbeat_indices ms ↔
  (j < n ∧ no_reply_at ms j = true) ∨
  (S j < n ∧ user_at ms j = true ∧ no_reply_at ms (S j) = true).
Proof.
  rewrite list_elem_of_bind. setoid_rewrite heartbeat_indices_spec. split.
  - intros (i & [Hn [->|[-> Hu]]] & [_ Hi]%elem_of_seq); [left|right]; auto.
  - intros [[Hj Hn]|(Hj & Hu & Hn)].
    + exists j. split; [auto|]. apply elem_of_seq. lia.
    + exists (S j). split; [auto|]. apply elem_of_seq. lia.
Qed.

(** Heartbeat pruning removes exactly the no-reply assistant turns and
    the user messages right before them, among the messages that are not the
    [keep_recent] last ones; everything else stays, in order. The sorted,
    deduplicated removal from the back therefore never removes a wrong
    message. *)
Theorem prune_removes_exactly ms keep_recent :
  prune_heartbeat_turns ms keep_recent =
  keep_positions (λ i, negb (pruned_at ms keep_recent i)) ms.
Proof.
  unfold prune_heartbeat_turns. destruct (Nat.leb_spec (length ms) keep_recent) as [Hle|Hlt].
  { symmetry. apply keep_positions_all. intros i _. unfold pruned_at.
    replace (length ms - keep_recent) with 0 by lia. done. }
  set (n := length ms - keep_recent). set (l := seq 0 n ≫= heartbeat_indices ms).
  assert (∀ i, bool_decide (i ∈ l) = pruned_at ms keep_recent i) as Hl.
  { intros i. apply eq_true_iff_eq. rewrite bool_decide_eq_true. unfold l. rewrite to_remove_spec.
    unfold pruned_at. fold n.
    rewrite !orb_true_iff, !andb_true_iff, !Nat.ltb_lt. tauto. }
  assert (keep_positions (λ i, negb (pruned_at ms keep_recent i)) ms =
          remove_all ms (vec_dedup (merge_sort le l))) as E.
  { rewrite remove_all_keep by (apply vec_dedup_sorted, StronglySorted_merge_sort; apply _).
    apply keep_positions_ext. intros i _. rewrite <-Hl. f_equal. apply bool_decide_ext.
    rewrite vec_dedup_elem. by rewrite merge_sort_Permutation. }
  rewrite E. destruct l eqn:El; [|done]. symmetry.
  change (vec_dedup (merge_sort le [])) with (@nil nat). done.
Qed.
End theorems.

(** ** Witnesses *)

Definition sample_use (id : string) : ContentBlock nat := ToolUse (lit id) (lit "search") 0.
Definition sample_result (id : string) : ContentBlock nat := ToolResult (lit id) (lit "found") false.

(** A tool use whose result comes too late, one without a result, an orphaned
    result, a blank assistant turn and two user messages in a row. *)
Definition sample_history : list (Message nat) :=
  [ mkMessage User (Text (lit "Look it up"));
    mkMessage Assistant (Blocks [sample_use "a"; sample_use "b"]);
    mkMessage User (Text (lit "And hurry"));
    mkMessage User (Blocks [sample_result "a"; sample_result "z"]);
    mkMessage Assistant (Text (lit "  "));
    mkMessage Assistant (Text (lit "Here you are")) ].

Lemma sample_results_from_user : results_from_user sample_history.
Proof. apply results_from_user_gather. vm_compute. reflexivity. Defined.

Lemma sample_uses_distinct : NoDup (assistant_use_ids sample_history).
Proof. apply (bool_decide_unpack _). vm_compute. exact I. Defined.

Lemma repair_answers_next_witness :
  validate_and_repair sample_history ≠ sample_history ∧
  answered (validate_and_repair sample_history).
Proof.
  split; [by vm_compute|].
  apply repair_answers_next; [apply sample_results_from_user|apply sample_uses_distinct].
Defined.

Lemma repair_idempotent_witness :
  validate_and_repair_with_stats (validate_and_repair sample_history) =
  (validate_and_repair sample_history, default_stats).
Proof.
  apply repair_idempotent; [|apply sample_uses_distinct].
  split; [apply sample_results_from_user|].
  intros m id Hm Hid. unfold sample_history in Hm.
  repeat (apply elem_of_cons in Hm as [->|Hm]; [first [done|by apply not_elem_of_nil in Hid]|]).
  by apply not_elem_of_nil in Hm.
Defined.

Lemma repair_results_genuine_witness :
  synthetic_result (lit "b") ∈ result_blocks sample_history ∨
  ∃ id, synthetic_result (Value := nat) (lit "b") = synthetic_result id ∧
        id ∉ result_ids sample_history.
Proof.
  apply repair_results_genuine. apply list_elem_of_lookup. exists 1. vm_compute. reflexivity.
Defined.
