(* ===== verification/Hooks.v ===== *)
(** * Hooks of the agent loop

    [openfang-runtime/src/hooks.rs]: handlers registered for four events. A
    handler of [BeforeToolCall] can block the call; the others only observe.
    [Seen] is what a handler can see of the world beside the context it is
    given, and [Data] the payload of the event. *)

From Stdlib Require Import Ascii ZArith Lia.
From stdpp Require Import base gmap list.
From S2P Require Import Prelude Strs.

Inductive HookEvent : Type :=
| BeforeToolCall
| AfterToolCall
| BeforePromptBuild
| AgentLoopEnd.

#[export] Instance hook_event_eq_dec : EqDecision HookEvent.
Proof. solve_decision. Defined.

#[export] Instance hook_event_countable : Countable HookEvent.
Proof.
  refine (inj_countable'
    (λ e, match e with
          | BeforeToolCall => 0 | AfterToolCall => 1 | BeforePromptBuild => 2 | AgentLoopEnd => 3
          end%nat)
    (λ n, match n with
          | 0 => BeforeToolCall | 1 => AfterToolCall | 2 => BeforePromptBuild | _ => AgentLoopEnd
          end%nat) _).
  by intros [].
Defined.

Section hooks.
Context {Data Seen : Type}.

Record HookContext : Type := mkContext {
  hook_agent_name : str;
  hook_agent_id : str;
  event : HookEvent;
  data : Data
}.

(** [on_event] *)
Definition HookHandler : Type := Seen → HookContext → result unit str.

Record HookRegistry : Type := mkRegistry { handlers : gmap HookEvent (list HookHandler) }.

Definition new_registry : HookRegistry := mkRegistry ∅.

Definition register (r : HookRegistry) (e : HookEvent) (h : HookHandler) : HookRegistry :=
  mkRegistry (<[e := default [] (handlers r !! e) ++ [h]]> (handlers r)).

(** The loop over the handlers of an event. *)
Fixpoint fire_handlers (hs : list HookHandler) (seen : Seen) (ctx : HookContext)
    : result unit str :=
  match hs with
  | [] => Ok tt
  | handler :: hs =>
      match handler seen ctx with
      | Err reason =>
          if decide (event ctx = BeforeToolCall) then Err reason
          else fire_handlers hs seen ctx
      | Ok _ => fire_handlers hs seen ctx
      end
  end.

Definition fire (r : HookRegistry) (seen : Seen) (ctx : HookContext) : result unit str :=
  match handlers r !! event ctx with
  | Some hs => fire_handlers hs seen ctx
  | None => Ok tt
  end.

Definition has_handlers (r : HookRegistry) (e : HookEvent) : bool :=
  match handlers r !! e with Some v => negb (bool_decide (length v = 0)) | None => false end.

(** A registry made by a sequence of registrations. *)
Definition registered (hs : list (HookEvent * HookHandler)) : HookRegistry :=
  foldl (λ r h, register r h.1 h.2) new_registry hs.

Lemma registered_lookup hs e :
  default [] (handlers (registered hs) !! e) = (filter (λ h, h.1 = e) hs).*2.
Proof.
  unfold registered. induction hs as [|[e' h] hs IH] using rev_ind; [done|].
  rewrite foldl_app, filter_app, fmap_app, filter_cons, filter_nil. cbn [foldl fst snd].
  revert IH.
  generalize (foldl (λ (r : HookRegistry) h, register r h.1 h.2) new_registry hs) as r. intros r IH.
  unfold register. cbn [handlers]. destruct (decide (e' = e)) as [->|Hne].
  - rewrite lookup_insert_eq. simpl. by rewrite IH.
  - rewrite lookup_insert_ne by done. rewrite IH. simpl. by rewrite app_nil_r.
Qed.

Lemma fire_default r seen ctx : fire r seen ctx = fire_handlers (default [] (handlers r !! event ctx)) seen ctx.
Proof. unfold fire. by destruct (handlers r !! event ctx). Qed.

(** Handlers of the other events cannot stop anything. *)
Lemma fire_observes r seen ctx : event ctx ≠ BeforeToolCall → fire r seen ctx = Ok tt.
Proof.
  intros Hne. rewrite fire_default. induction (default [] (handlers r !! event ctx)) as [|h hs IH]; [done|]. simpl.
  destruct (h seen ctx); [done|]. by rewrite decide_False.
Qed.

(** A tool call is let through exactly if no handler registered for it
    refuses, and the reason of a refusal is that of the handler registered
    first among those that refuse; events other than [BeforeToolCall] are
    never refused. *)
Theorem hooks_fire_spec hs seen ctx :
  match fire (registered hs) seen ctx with
  | Ok _ => event ctx ≠ BeforeToolCall ∨ ∀ h, (BeforeToolCall, h) ∈ hs → is_ok (h seen ctx) = true
  | Err reason =>
      event ctx = BeforeToolCall ∧
      ∃ before h after, hs = before ++ (BeforeToolCall, h) :: after ∧ h seen ctx = Err reason ∧
        ∀ h', (BeforeToolCall, h') ∈ before → is_ok (h' seen ctx) = true
  end.
Proof.
  destruct (decide (event ctx = BeforeToolCall)) as [He|Hne]; [|rewrite fire_observes by done; by left].
  rewrite fire_default, registered_lookup, He.
  induction hs as [|[e h] hs IH]; [right; by intros ? ?%not_elem_of_nil|].
  rewrite filter_cons. simpl. destruct (decide (e = BeforeToolCall)) as [->|Hne'].
  - simpl. destruct (h seen ctx) as [[]|reason] eqn:Eh.
    + destruct (fire_handlers _ _ _) as [[]|reason].
      * destruct IH as [?|IH]; [done|]. right. intros h' [E|Hin]%elem_of_cons; [|auto].
        injection E as <-. by rewrite Eh.
      * destruct IH as (_ & b & h' & a & -> & Hh' & Hb). split; [done|].
        exists ((BeforeToolCall, h) :: b), h', a. split; [done|]. split; [done|].
        intros h'' [E|Hin]%elem_of_cons; [|auto]. injection E as <-. by rewrite Eh.
    + rewrite decide_True by done. split; [done|]. exists [], h, hs.
      split; [done|]. split; [done|]. by intros ? ?%not_elem_of_nil.
  - destruct (fire_handlers _ _ _) as [[]|reason].
    + destruct IH as [?|IH]; [done|]. right. intros h' [E|Hin]%elem_of_cons; [congruence|auto].
    + destruct IH as (_ & b & h' & a & -> & Hh' & Hb). split; [done|].
      exists ((e, h) :: b), h', a. split; [done|]. split; [done|].
      intros h'' [E|Hin]%elem_of_cons; [congruence|auto].
Qed.
End hooks.

Arguments HookContext : clear implicits.
Arguments HookHandler : clear implicits.
Arguments HookRegistry : clear implicits.
