(* ===== verification/PromptBuilder.v ===== *)
(** * The system prompt

    [openfang-runtime/src/prompt_builder.rs]: the prompt is made of sections
    in a fixed order, each left out if it has nothing to say. The [BTreeMap] of
    tool groups is a list sorted by its keys. *)

From Stdlib Require Import Ascii ZArith Lia Sorted.
From stdpp Require Import base strings list sets.
From S2P Require Import Prelude Strs TextLines.

Record PromptContext : Type := mkPromptContext {
  agent_name : str;
  agent_description : str;
  base_system_prompt : str;
  granted_tools : list str;
  recalled_memories : list (str * str);
  skill_summary : str;
  skill_prompt_context : str;
  mcp_summary : str;
  workspace_path : option str;
  soul_md : option str;
  user_md : option str;
  memory_md : option str;
  canonical_context : option str;
  user_name : option str;
  channel_type : option str;
  is_subagent : bool;
  is_autonomous : bool;
  agents_md : option str;
  bootstrap_md : option str;
  workspace_context : option str;
  identity_md : option str;
  heartbeat_md : option str
}.

Definition TOOL_CALL_BEHAVIOR : str := join (lit <$>
  ["## Tool Call Behavior";
   "- When you need to use a tool, call it immediately. Do not narrate or explain routine tool calls.";
   "- Only explain tool calls when the action is destructive, unusual, or the user explicitly asked for an explanation.";
   "- Prefer action over narration. If you can answer by using a tool, do it.";
   "- When executing multiple sequential tool calls, batch them — don't output reasoning between each call.";
   "- If a tool returns useful results, present the KEY information, not the raw output.";
   "- Start with the answer, not meta-commentary about how you'll help."]%string) [newline].

Definition SAFETY_SECTION : str := join (lit <$>
  ["## Safety";
   "- Prioritize safety and human oversight over task completion.";
   "- NEVER auto-execute purchases, payments, account deletions, or irreversible actions without explicit user confirmation.";
   "- If a tool could cause data loss, explain what it will do and confirm first.";
   "- If you cannot accomplish a task safely, explain the limitation.";
   "- When in doubt, ask the user."]%string) [newline].

Definition OPERATIONAL_GUIDELINES : str := join (lit <$>
  ["## Operational Guidelines";
   "- Do NOT retry a tool call with identical parameters if it failed. Try a different approach.";
   "- If a tool returns an error, analyze the error before calling it again.";
   "- Prefer targeted, specific tool calls over broad ones.";
   "- Plan your approach before executing multiple tool calls.";
   "- If you cannot accomplish a task after a few attempts, explain what went wrong instead of looping.";
   "- Never call the same tool more than 3 times with the same parameters.";
   "- If a message requires no response (simple acknowledgments, reactions, messages not directed at you), respond with exactly NO_REPLY."]%string) [newline].

Definition CATEGORIES : list (str * list str) :=
  (λ c : string * list string, (lit c.1, lit <$> c.2)) <$>
  [("Files", ["file_read"; "file_write"; "file_list"; "file_delete"; "file_move"; "file_copy"; "file_search"]);
   ("Web", ["web_search"; "web_fetch"]);
   ("Browser", ["browser_navigate"; "browser_click"; "browser_type"; "browser_screenshot"; "browser_read_page"; "browser_close"; "browser_scroll"; "browser_wait"; "browser_evaluate"; "browser_select"; "browser_back"]);
   ("Shell", ["shell_exec"; "shell_background"]);
   ("Memory", ["memory_store"; "memory_recall"; "memory_delete"; "memory_list"]);
   ("Agents", ["agent_send"; "agent_spawn"; "agent_list"; "agent_kill"]);
   ("Media", ["image_describe"; "image_generate"; "audio_transcribe"; "tts_speak"]);
   ("Docker", ["docker_exec"; "docker_build"; "docker_run"]);
   ("Scheduling", ["cron_create"; "cron_list"; "cron_delete"]);
   ("Processes", ["process_start"; "process_poll"; "process_write"; "process_kill"; "process_list"])]%string.

Definition HINTS : list (str * str) :=
  prod_map lit lit <$>
  [("file_read", "read file contents");
   ("file_write", "create or overwrite a file");
   ("file_list", "list directory contents");
   ("file_delete", "delete a file");
   ("file_move", "move or rename a file");
   ("file_copy", "copy a file");
   ("file_search", "search files by name pattern");
   ("web_search", "search the web for information");
   ("web_fetch", "fetch a URL and get its content as markdown");
   ("browser_navigate", "open a URL in the browser");
   ("browser_click", "click an element on the page");
   ("browser_type", "type text into an input field");
   ("browser_screenshot", "capture a screenshot");
   ("browser_read_page", "extract page content as text");
   ("browser_close", "close the browser session");
   ("browser_scroll", "scroll the page");
   ("browser_wait", "wait for an element or condition");
   ("browser_evaluate", "run JavaScript on the page");
   ("browser_select", "select a dropdown option");
   ("browser_back", "go back to the previous page");
   ("shell_exec", "execute a shell command");
   ("shell_background", "run a command in the background");
   ("memory_store", "save a key-value pair to memory");
   ("memory_recall", "search memory for relevant context");
   ("memory_delete", "delete a memory entry");
   ("memory_list", "list stored memory keys");
   ("agent_send", "send a message to another agent");
   ("agent_spawn", "create a new agent");
   ("agent_list", "list running agents");
   ("agent_kill", "terminate an agent");
   ("image_describe", "describe an image");
   ("image_generate", "generate an image from a prompt");
   ("audio_transcribe", "transcribe audio to text");
   ("tts_speak", "convert text to speech");
   ("docker_exec", "run a command in a container");
   ("docker_build", "build a Docker image");
   ("docker_run", "start a Docker container");
   ("cron_create", "schedule a recurring task");
   ("cron_list", "list scheduled tasks");
   ("cron_delete", "remove a scheduled task");
   ("process_start", "start a long-running process (REPL, server)");
   ("process_poll", "read stdout/stderr from a running process");
   ("process_write", "write to a process's stdin");
   ("process_kill", "terminate a running process");
   ("process_list", "list active processes")]%string.

Definition paragraph : str := [newline; newline].
Definition quote_mark : str := bytes [34].

(** ** Utilities *)

Definition cap_str (s : str) (max_chars : nat) : str :=
  if length (chars s) <=? max_chars then s
  else concat (take max_chars (chars s)) ++ lit "...".

(** [capitalize], whose argument is always one of the categories, which are
    ASCII. *)
Definition capitalize (s : str) : str :=
  match s with
  | [] => []
  | f :: c =>
      let n := nat_of_ascii f in
      (if (97 <=? n) && (n <=? 122) then ascii_of_nat (n - 32) else f) :: c
  end.

(** ** Tools *)

Definition tool_category (name : str) : str :=
  match List.find (λ c, bool_decide (name ∈ c.2)) CATEGORIES with
  | Some c => c.1
  | None =>
      if starts_with name (lit "mcp_") then lit "MCP"
      else if starts_with name (lit "skill_") then lit "Skills"
      else lit "Other"
  end.

Definition tool_hint (name : str) : str :=
  match List.find (λ h, str_eqb name h.1) HINTS with Some h => h.2 | None => [] end.

(** The order of strings, by bytes. *)
Fixpoint str_lt (s t : str) : bool :=
  match s, t with
  | _, [] => false
  | [], _ :: _ => true
  | x :: s, y :: t =>
      (nat_of_ascii x <? nat_of_ascii y) || (bool_decide (x = y) && str_lt s t)
  end.

(** [entry(k).or_default().push(v)] on a map kept in the order of its keys. *)
Fixpoint push_entry {V} (k : str) (v : V) (m : list (str * list V)) : list (str * list V) :=
  match m with
  | [] => [(k, [v])]
  | (k', vs) :: m =>
      if str_eqb k k' then (k', vs ++ [v]) :: m
      else if str_lt k k' then (k, [v]) :: (k', vs) :: m
      else (k', vs) :: push_entry k v m
  end.

Definition group_tools (tools : list str) : list (str * list (str * str)) :=
  foldl (λ groups name, push_entry (tool_category name) (name, tool_hint name) groups) [] tools.

Definition describe_tool (t : str * str) : str :=
  if is_empty t.2 then t.1 else t.1 ++ lit " (" ++ t.2 ++ lit ")".

Definition describe_group (g : str * list (str * str)) : str :=
  [newline] ++ lit "**" ++ capitalize g.1 ++ lit "**: " ++ join (describe_tool <$> g.2) (lit ", ").

Definition build_tools_section (tools : list str) : str :=
  if bool_decide (tools = []) then []
  else lit "## Your Tools" ++ [newline] ++ lit "You have access to these capabilities:" ++ [newline]
       ++ concat (describe_group <$> group_tools tools).

(** ** The other sections *)

Definition build_identity_section (ctx : PromptContext) : str :=
  if is_empty (base_system_prompt ctx)
  then lit "You are " ++ agent_name ctx ++ lit ", an AI agent running inside the OpenFang Agent OS."
       ++ [newline] ++ agent_description ctx
  else base_system_prompt ctx.

Definition memory_line (m : str * str) : str :=
  let capped := cap_str m.2 (Z.to_nat 500) in
  if is_empty m.1 then lit "- " ++ capped ++ [newline]
  else lit "- [" ++ m.1 ++ lit "] " ++ capped ++ [newline].

Definition build_memory_section (memories : list (str * str)) : str :=
  lit "## Memory" ++ [newline]
  ++ lit "- When the user asks about something from a previous conversation, use memory_recall first."
  ++ [newline]
  ++ lit "- Store important preferences, decisions, and context with memory_store for future use."
  ++ (if bool_decide (memories = []) then []
      else paragraph ++ lit "Recalled memories:" ++ [newline] ++ concat (memory_line <$> take 5 memories)).

Definition build_skills_section (skill_summary prompt_context : str) : str :=
  lit "## Skills" ++ [newline]
  ++ (if is_empty skill_summary then []
      else lit "You have installed skills. If a request matches a skill, use its tools directly."
           ++ [newline] ++ trim skill_summary)
  ++ (if is_empty prompt_context then [] else [newline] ++ cap_str prompt_context (Z.to_nat 2000)).

Definition build_mcp_section (mcp_summary : str) : str :=
  lit "## Connected Tool Servers (MCP)" ++ [newline] ++ trim mcp_summary.

(** A file that is there and not blank. *)
Definition filled (file : option str) : option str :=
  match file with Some s => if is_empty (trim s) then None else Some s | None => None end.

Definition section_of (file : option str) (render : str → str) : list str :=
  match filled file with Some s => [render s] | None => [] end.

Definition build_persona_section (identity_md soul_md user_md memory_md workspace_path : option str)
    : str :=
  join
    ((match workspace_path with
      | Some ws => [lit "## Workspace" ++ [newline] ++ lit "Workspace: " ++ ws]
      | None => []
      end)
     ++ section_of identity_md (λ s, lit "## Identity" ++ [newline] ++ cap_str s (Z.to_nat 500))
     ++ section_of soul_md (λ s, lit "## Persona" ++ [newline]
          ++ lit "Embody this identity in your tone and communication style. Be natural, not stiff or generic."
          ++ [newline] ++ cap_str s (Z.to_nat 1000))
     ++ section_of user_md (λ s, lit "## User Context" ++ [newline] ++ cap_str s (Z.to_nat 500))
     ++ section_of memory_md (λ s, lit "## Long-Term Memory" ++ [newline] ++ cap_str s (Z.to_nat 500)))
    paragraph.

Definition build_user_section (user_name : option str) : str :=
  lit "## User Profile" ++ [newline]
  ++ match user_name with
     | Some name =>
         lit "The user's name is " ++ quote_mark ++ name ++ quote_mark
         ++ lit ". Address them by name naturally when appropriate (greetings, farewells, etc.), but don't overuse it."
     | None =>
         lit "You don't know the user's name yet. On your FIRST reply in this conversation, warmly introduce yourself by your agent name and ask what they'd like to be called. Once they tell you, immediately use the `memory_store` tool with key "
         ++ quote_mark ++ lit "user_name" ++ quote_mark
         ++ lit " and their name as the value so you remember it for future sessions. Keep the introduction brief — don't let it overshadow their actual request."
     end.

Definition CHANNELS : list (str * (str * str)) :=
  prod_map lit (prod_map lit lit) <$>
  [("telegram", ("4096", "Use Telegram-compatible formatting (bold with *, code with `backticks`)."));
   ("discord", ("2000", "Use Discord markdown. Split long responses across multiple messages if needed."));
   ("slack", ("4000", "Use Slack mrkdwn formatting (*bold*, _italic_, `code`)."));
   ("whatsapp", ("4096", "Keep messages concise. WhatsApp has limited formatting."));
   ("irc", ("512", "Keep messages very short. No markdown — plain text only."));
   ("matrix", ("65535", "Matrix supports rich formatting. Use markdown freely."));
   ("teams", ("28000", "Use Teams-compatible markdown."))]%string.

Definition build_channel_section (channel : str) : str :=
  let '(limit, hints) :=
    match List.find (λ c, str_eqb channel c.1) CHANNELS with
    | Some c => c.2
    | None => (lit "4096", lit "Use markdown formatting where supported.")
    end in
  lit "## Channel" ++ [newline] ++ lit "You are responding via " ++ channel
  ++ lit ". Keep messages under " ++ limit ++ lit " chars." ++ [newline] ++ hints.

(** ** The prompt *)

(** A section for agents that are not subagents. *)
Definition unless_subagent (ctx : PromptContext) (sections : list str) : list str :=
  if is_subagent ctx then [] else sections.

Definition non_empty_section (s : str) : list str := if is_empty s then [] else [s].

Definition bootstrap_wanted (ctx : PromptContext) : bool :=
  negb (existsb (λ m, str_eqb m.1 (lit "user_name")) (recalled_memories ctx))
  && bool_decide (user_name ctx = None).

Definition prompt_sections (ctx : PromptContext) : list str :=
  [build_identity_section ctx]
  ++ unless_subagent ctx [TOOL_CALL_BEHAVIOR]
  ++ unless_subagent ctx (section_of (agents_md ctx) (λ s, cap_str s (Z.to_nat 2000)))
  ++ non_empty_section (build_tools_section (granted_tools ctx))
  ++ [build_memory_section (recalled_memories ctx)]
  ++ (if negb (is_empty (skill_summary ctx)) || negb (is_empty (skill_prompt_context ctx))
      then [build_skills_section (skill_summary ctx) (skill_prompt_context ctx)] else [])
  ++ (if is_empty (mcp_summary ctx) then [] else [build_mcp_section (mcp_summary ctx)])
  ++ unless_subagent ctx
       (non_empty_section (build_persona_section (identity_md ctx) (soul_md ctx) (user_md ctx)
                             (memory_md ctx) (workspace_path ctx)))
  ++ unless_subagent ctx
       (if is_autonomous ctx
        then section_of (heartbeat_md ctx)
               (λ s, lit "## Heartbeat Checklist" ++ [newline] ++ cap_str s (Z.to_nat 1000))
        else [])
  ++ unless_subagent ctx [build_user_section (user_name ctx)]
  ++ unless_subagent ctx
       (match channel_type ctx with Some channel => [build_channel_section channel] | None => [] end)
  ++ unless_subagent ctx [SAFETY_SECTION]
  ++ [OPERATIONAL_GUIDELINES]
  ++ unless_subagent ctx
       (match canonical_context ctx with
        | Some canonical =>
            if is_empty canonical then []
            else [lit "## Previous Conversation Context" ++ [newline] ++ cap_str canonical (Z.to_nat 500)]
        | None => []
        end)
  ++ unless_subagent ctx
       (if bootstrap_wanted ctx
        then section_of (bootstrap_md ctx)
               (λ s, lit "## First-Run Protocol" ++ [newline] ++ cap_str s (Z.to_nat 1500))
        else [])
  ++ unless_subagent ctx (section_of (workspace_context ctx) (λ s, cap_str s (Z.to_nat 1000))).

Definition build_system_prompt (ctx : PromptContext) : str := join (prompt_sections ctx) paragraph.

(** ** Properties *)

Lemma chars_short s : length s ≤ 3 → length (chars s) ≤ 3.
Proof.
  intros Hs. assert (length (chars s) ≤ length s); [|lia].
  clear Hs. induction s as [|c s IH]; [done|]. rewrite chars_eq. repeat case_match; simpl in *; lia.
Qed.

(** A capped text has at most three characters more than the cap, and is the
    text itself or a beginning of it followed by dots. *)
Lemma cap_str_spec s n :
  length (chars (cap_str s n)) ≤ n + 3 ∧
  (cap_str s n = s ∨ ∃ t u, s = t ++ u ∧ cap_str s n = t ++ lit "..." ∧ length (chars t) = n).
Proof.
  unfold cap_str. destruct (Nat.leb_spec (length (chars s)) n) as [Hle|Hgt].
  - split; [lia|by left].
  - assert (length (chars (concat (take n (chars s)))) = n) as Hl
      by (rewrite chars_take, length_take; lia).
    split.
    + rewrite chars_app by done. rewrite length_app, Hl. pose proof (chars_short (lit "...")). simpl in *. lia.
    + right. exists (concat (take n (chars s))), (concat (drop n (chars s))).
      split; [|done]. by rewrite <-concat_app, take_drop, concat_chars.
Qed.

Lemma str_lt_irrefl s : str_lt s s = false.
Proof. induction s as [|c s IH]; [done|]. simpl. rewrite Nat.ltb_irrefl, IH. by rewrite andb_false_r. Qed.

Lemma str_lt_trans s t u : str_lt s t = true → str_lt t u = true → str_lt s u = true.
Proof.
  revert t u. induction s as [|x s IH]; intros [|y t] [|z u]; simpl; try done.
  rewrite !orb_true_iff, !andb_true_iff, !bool_decide_eq_true, !Nat.ltb_lt.
  intros [?|[-> ?]] [?|[-> ?]]; [left; lia|by left|by left|right; eauto].
Qed.

Lemma str_lt_total s t : s ≠ t → str_lt s t = false → str_lt t s = true.
Proof.
  revert t. induction s as [|x s IH]; intros [|y t]; simpl; try done.
  rewrite orb_false_iff, orb_true_iff, andb_true_iff, bool_decide_eq_true, Nat.ltb_lt, Nat.ltb_ge.
  intros Hne [Hle Hst]. destruct (decide (x = y)) as [->|Hxy].
  - right. split; [done|]. rewrite bool_decide_true in Hst by done. apply IH; [congruence|done].
  - left. assert (nat_of_ascii x ≠ nat_of_ascii y); [|lia]. intros E. apply Hxy.
    by rewrite <-(ascii_nat_embedding x), <-(ascii_nat_embedding y), E.
Qed.

Section entries.
Context {V : Type}.
Implicit Types m : list (str * list V).

Definition sorted_keys m : Prop := StronglySorted (λ a b, str_lt a b = true) m.*1.

(** The values of a key. *)
Definition entry m (k : str) : list V := default [] (snd <$> List.find (λ e, str_eqb k e.1) m).

Lemma push_entry_keys k v m x : x ∈ (push_entry k v m).*1 ↔ x = k ∨ x ∈ m.*1.
Proof.
  induction m as [|[k' vs] m IH]; cbn [push_entry].
  - rewrite fmap_cons, fmap_nil. set_solver.
  - destruct (str_eqb k k') eqn:E; [apply str_eqb_spec in E as ->; rewrite !fmap_cons; set_solver|].
    destruct (str_lt k k'); rewrite !fmap_cons, !elem_of_cons; [tauto|]. rewrite IH. tauto.
Qed.

Lemma push_entry_sorted k v m : sorted_keys m → sorted_keys (push_entry k v m).
Proof.
  unfold sorted_keys. induction m as [|[k' vs] m IH]; cbn [push_entry].
  { intros _. repeat constructor. }
  rewrite fmap_cons. intros [Hs Hf]%StronglySorted_inv. cbn [fst] in Hf.
  destruct (str_eqb k k') eqn:E; [by constructor|].
  destruct (str_lt k k') eqn:El; rewrite !fmap_cons; constructor; cbn [fst].
  - by constructor.
  - constructor; [done|]. eapply List.Forall_impl; [|exact Hf]. intros y. by apply str_lt_trans.
  - auto.
  - rewrite List.Forall_forall in Hf |- *. intros y Hy%list_elem_of_In.
    apply push_entry_keys in Hy as [->|Hy]; [|by apply Hf, list_elem_of_In].
    apply str_lt_total; [|done]. intros Heq. by rewrite (proj2 (str_eqb_spec k k') Heq) in E.
Qed.

Lemma entry_cons k k' vs m : entry ((k', vs) :: m) k = if str_eqb k k' then vs else entry m k.
Proof. unfold entry. simpl. by destruct (str_eqb k k'). Qed.

Lemma entry_absent m k : k ∉ m.*1 → entry m k = [].
Proof.
  induction m as [|[k' vs] m IH]; [done|]. rewrite entry_cons, fmap_cons, not_elem_of_cons. intros [Hne Hk].
  destruct (str_eqb k k') eqn:E; [by apply str_eqb_spec in E|auto].
Qed.

Lemma push_entry_entry k v m x :
  sorted_keys m → entry (push_entry k v m) x = if str_eqb x k then entry m x ++ [v] else entry m x.
Proof.
  unfold sorted_keys. induction m as [|[k' vs] m IH]; cbn [push_entry].
  { intros _. rewrite entry_cons. by destruct (str_eqb x k). }
  rewrite fmap_cons. intros [Hs Hf]%StronglySorted_inv. cbn [fst] in Hf.
  destruct (str_eqb k k') eqn:E.
  { apply str_eqb_spec in E as ->. rewrite !entry_cons. by destruct (str_eqb x k'). }
  destruct (str_lt k k') eqn:El; rewrite !entry_cons.
  - destruct (str_eqb x k) eqn:Ex; [|done]. apply str_eqb_spec in Ex as ->. rewrite E.
    rewrite entry_absent; [done|]. intros Hin%list_elem_of_In. rewrite List.Forall_forall in Hf.
    specialize (Hf _ Hin). pose proof (str_lt_trans _ _ _ El Hf) as Hl. by rewrite str_lt_irrefl in Hl.
  - destruct (str_eqb x k') eqn:Ex; [|auto]. apply str_eqb_spec in Ex as ->.
    destruct (str_eqb k' k) eqn:Ek; [|done]. apply str_eqb_spec in Ek.
    by rewrite (proj2 (str_eqb_spec k k') (eq_sym Ek)) in E.
Qed.

Lemma push_entry_non_empty k v m : Forall (λ e, e.2 ≠ []) m → Forall (λ e, e.2 ≠ []) (push_entry k v m).
Proof.
  induction 1 as [|[k' vs] m Hvs Hm IH]; cbn [push_entry]; [by repeat constructor|].
  destruct (str_eqb k k'); [constructor; [by destruct vs|done]|].
  destruct (str_lt k k'); repeat constructor; done.
Qed.

Lemma entry_elem m k vs : sorted_keys m → (k, vs) ∈ m → entry m k = vs.
Proof.
  unfold sorted_keys. induction m as [|[k' vs'] m IH]; [by intros _ ?%not_elem_of_nil|].
  rewrite fmap_cons. intros [Hs Hf]%StronglySorted_inv [E|Hin]%elem_of_cons; rewrite entry_cons.
  - injection E as -> ->. by rewrite (proj2 (str_eqb_spec k' k') eq_refl).
  - destruct (str_eqb k k') eqn:E; [|auto]. apply str_eqb_spec in E as ->. exfalso.
    rewrite List.Forall_forall in Hf. cbn [fst] in Hf.
    specialize (Hf k'). rewrite str_lt_irrefl in Hf. discriminate Hf. apply list_elem_of_In.
    apply list_elem_of_fmap. by exists (k', vs).
Qed.
End entries.

(** The tools of the prompt are grouped by category: the categories come
    in the order of their names, none twice and none empty, and under each are
    the granted tools of that category with their hints, in the order they
    were granted. *)
Theorem tools_grouped tools :
  sorted_keys (group_tools tools) ∧
  ∀ cat ts, (cat, ts) ∈ group_tools tools ↔
    ts ≠ [] ∧ ts = (λ n, (n, tool_hint n)) <$> filter (λ n, tool_category n = cat) tools.
Proof.
  assert (sorted_keys (group_tools tools) ∧ Forall (λ e, e.2 ≠ []) (group_tools tools) ∧
    ∀ cat, entry (group_tools tools) cat = (λ n, (n, tool_hint n)) <$> filter (λ n, tool_category n = cat) tools)
    as (Hs & Hne & He).
  { unfold group_tools. induction tools as [|n tools (Hs & Hne & He)] using rev_ind.
    { split; [constructor|]. split; [constructor|done]. }
    rewrite foldl_app. cbn [foldl]. split; [by apply push_entry_sorted|].
    split; [by apply push_entry_non_empty|]. intros cat.
    rewrite push_entry_entry, He, filter_app, fmap_app, filter_cons, filter_nil by done.
    unfold str_eqb. case_bool_decide as Hc.
    - by rewrite decide_True by done.
    - rewrite decide_False by done. by rewrite app_nil_r. }
  split; [done|]. intros cat ts. split.
  - intros Hin. rewrite Forall_forall in Hne. split; [by apply (Hne _ Hin)|].
    by rewrite <-He, (entry_elem _ _ ts).
  - intros [Hts ->]. rewrite <-He in Hts |- *. unfold entry in *.
    destruct (List.find _ _) as [[k vs]|] eqn:E; [|done]. apply List.find_some in E as [Hin Ek].
    apply str_eqb_spec in Ek. cbn in *. subst. by apply list_elem_of_In.
Qed.

(** The prompt of a subagent depends only on its description, its tools,
    the recalled memories, the skills and the servers: nothing from the
    persona, user, memory and workspace files, the channel or the earlier
    conversation reaches it. *)
Theorem subagent_prompt_isolated ctx ctx' :
  is_subagent ctx = true → is_subagent ctx' = true →
  (agent_name ctx, agent_description ctx, base_system_prompt ctx, granted_tools ctx) =
  (agent_name ctx', agent_description ctx', base_system_prompt ctx', granted_tools ctx') →
  (recalled_memories ctx, skill_summary ctx, skill_prompt_context ctx, mcp_summary ctx) =
  (recalled_memories ctx', skill_summary ctx', skill_prompt_context ctx', mcp_summary ctx') →
  build_system_prompt ctx = build_system_prompt ctx'.
Proof.
  intros H1 H2 [= E1 E2 E3 E4] [= E5 E6 E7 E8]. unfold build_system_prompt, prompt_sections, unless_subagent,
    build_identity_section. by rewrite H1, H2, E1, E2, E3, E4, E5, E6, E7, E8.
Qed.
