(* ===== verification/AgentLoop.v ===== *)
(** * The agent loop

    [run_agent_loop] and [run_agent_loop_streaming] of
    [openfang-runtime/src/agent_loop.rs], with the entry of [execute_tool] in
    [tool_runner.rs]: one user message is answered by calls of the model and
    the tools it asks for. The loop composes the repair of the session, the
    context recovery and guard, the provider call, the loop guard, the hooks,
    the approval gate, the recovery of calls from text and the reply
    directives, which have files of their own.

    What the loop does to the outside is the [trace]: every call of the model,
    of a tool, of the memory, of hooks and callbacks is an event. What the
    outside answers is the [Environment]: functions of the trace so far. The
    two functions differ in the driver they call and in the events they send
    to the channel; [Mode] tells them apart. A panic is [None]. *)

From Stdlib Require Import Ascii ZArith Lia.
From stdpp Require Import base gmap strings list.
From S2P Require Import Prelude Strs Floats Message ContextWindow TextToolCalls ReplyDirectives AgentTypes AgentQuota.
From S2P Require Import Cooldown LlmErrors ProviderCall LoopGuard Approval Hooks PromptBuilder SessionRepair.

Definition MAX_ITERATIONS : Z := 50.
Definition TOOL_TIMEOUT_SECS : Z := 120.
Definition MAX_CONTINUATIONS : Z := 5.
Definition MAX_HISTORY_MESSAGES : nat := 20.
Definition DEFAULT_CONTEXT_WINDOW : nat := Z.to_nat 200000.

Inductive LoopPhase : Type :=
| PhaseThinking
| PhaseToolUse (tool_name : str)
| PhaseStreaming
| PhaseDone
| PhaseError.

Inductive StopReason : Type := EndTurn | StopToolUse | MaxTokens | StopSequence.

(** An I/O error is its text. The loop returns [Memory], [LlmDriver],
    [Internal] and [MaxIterationsExceeded] only. *)
Inductive OpenFangError : Type :=
| AgentNotFound (e : str)
| AgentAlreadyExists (e : str)
| CapabilityDenied (e : str)
| QuotaExceeded (e : str)
| InvalidState (current operation : str)
| SessionNotFound (e : str)
| Memory (e : str)
| ToolExecution (tool_id reason : str)
| LlmDriver (e : str)
| Config (e : str)
| ManifestParse (e : str)
| Sandbox (e : str)
| Network (e : str)
| Serialization (e : str)
| MaxIterationsExceeded (n : Z)
| ShuttingDown
| Io (e : str)
| Internal (e : str)
| AuthDenied (e : str)
| MeteringError (e : str)
| InvalidInput (e : str).

Record ThinkingConfig : Type := mkThinking { budget_tokens : Z; stream_thinking : bool }.

Definition default_usage : TokenUsage := mkUsage 0 0.

Definition sum_usage (total u : TokenUsage) : TokenUsage :=
  mkUsage (wrapping_add_u64 (input_tokens total) (input_tokens u))
    (wrapping_add_u64 (output_tokens total) (output_tokens u)).

Record AgentLoopResult : Type := mkResult {
  response : str;
  total_usage : TokenUsage;
  iterations : Z;
  cost_usd : option SpecFloat.spec_float;
  is_silent : bool;
  reply_directives : DirectiveSet
}.

(** [char::is_control] *)
Definition is_control (c : str) : bool :=
  match nat_of_ascii <$> c with
  | [n] => (n <? 32) || (n =? 127)
  | [194; n] => (128 <=? n) && (n <=? 159)
  | _ => false
  end.

(** The name of a tool as it is shown. *)
Definition shown_tool_name (name : str) : str :=
  concat (take 64 (List.filter (λ c, negb (is_control c)) (chars name))).

Inductive Mode : Type := Buffered | Streaming.

Section agent_loop.
Context {Value Vec Uuid : Type} `{EqDecision Value} `{Countable Uuid} `{UnicodeCase}.

Abbreviation Msg := (Message Value).
Abbreviation Tool := (ContextWindow.ToolDefinition (Value := Value)).
Abbreviation Call := (ToolCall Value).

Record CompletionRequest : Type := mkRequest {
  req_model : str;
  req_messages : list Msg;
  req_tools : list Tool;
  req_max_tokens : Z;
  req_temperature : SpecFloat.spec_float;
  req_system : option str;
  req_thinking : option ThinkingConfig
}.

Record CompletionResponse : Type := mkResponse {
  resp_content : list (ContentBlock Value);
  stop_reason : StopReason;
  resp_tool_calls : list Call;
  resp_usage : TokenUsage
}.

Definition response_text (r : CompletionResponse) : str := join (omap block_text (resp_content r)) [].

Inductive StreamEvent : Type :=
| TextDelta (text : str)
| ToolUseStart (id name : str)
| ToolInputDelta (text : str)
| ToolUseEnd (id name : str) (input : Value)
| ThinkingDelta (text : str)
| ContentComplete (reason : StopReason) (usage : TokenUsage)
| PhaseChange (phase : str) (detail : option str)
| ToolExecutionResult (name result_preview : str) (is_error : bool).

(** The payloads of the hooks. *)
Inductive HookData : Type :=
| PromptData (system_prompt user_message : str)
| CallData (tool_name : str) (input : Value)
| ResultData (tool_name result : str) (is_error : bool)
| EndData (iterations : Z) (response_length : nat)
| CircuitBreakData (error : str)
| ContinuationsData (iterations : Z)
| ExceededData (iterations : Z).

(** [ToolResult] of [openfang-types/src/tool.rs]. *)
Record ToolOutput : Type := mkOutput {
  out_id : str;
  out_content : str;
  out_is_error : bool
}.

(** How the branch of a tool ends: with its result, or with an early return of
    a refusal. *)
Inductive BranchOutcome : Type :=
| Returned (r : result str str)
| Refused (content : str).

Inductive LoopEvent : Type :=
| Embedded (text : str)
| Recalled (query : str) (embedding : option Vec)
| Remembered (text : str) (embedding : option Vec)
| Fired (ctx : HookContext HookData)
| Phase (p : LoopPhase)
| Requested (r : CompletionRequest)
| Slept (ms : Z)
| Dispatched (c : Call)
| Saved (messages : list Msg)
| Streamed (e : StreamEvent).

Abbreviation Trace := (list LoopEvent).

Record Environment : Type := mkEnv {
  embed : option (Trace → str → result Vec str);
  recall : Trace → str → option Vec → result (list str) str;
  hooks : option (HookRegistry HookData Trace);
  on_phase : bool;
  (** the answer to the [n]-th request of a call *)
  complete : Trace → nat → CompletionRequest → result CompletionResponse LlmError;
  stream : Trace → nat → CompletionRequest → result CompletionResponse LlmError;
  kernel : Trace → option (ApprovalManager (Uuid := Uuid) * (str → str → str → result bool str));
  (** the time for the tool passes while an approval is awaited *)
  approval_late : Trace → bool;
  (** the branch of a tool; [None]: the time passes first *)
  branch : Trace → Call → option BranchOutcome;
  save : Trace → list Msg → result unit str;
  uuid : Trace → nat → str
}.

(** The arguments of a run that do not change. *)
Record Setup : Type := mkSetup {
  manifest : AgentTypes.AgentManifest (Json := Value);
  user_message : str;
  agent_id : str;
  available_tools : list Tool;
  context_window_tokens : option nat
}.

(** ** Effects *)

Record World : Type := mkWorld { session : list Msg; trace : Trace }.

Definition M (A : Type) : Type := World → option (World * result A OpenFangError).

#[export] Instance M_ret : MRet M := λ _ x w, Some (w, Ok x).
#[export] Instance M_bind : MBind M := λ _ _ f m w,
  match m w with
  | None => None
  | Some (w', Err e) => Some (w', Err e)
  | Some (w', Ok x) => f x w'
  end.

Definition fail {A} (e : OpenFangError) : M A := λ w, Some (w, Err e).
Definition or_panic {A} (o : option A) : M A := λ w, (λ x, (w, Ok x)) <$> o.
Definition look {A} (f : Trace → A) : M A := λ w, Some (w, Ok (f (trace w))).
Definition emit (e : LoopEvent) : M unit := λ w, Some (mkWorld (session w) (trace w ++ [e]), Ok tt).
Definition emit_all (es : Trace) : M unit := λ w, Some (mkWorld (session w) (trace w ++ es), Ok tt).
Definition update_session (f : list Msg → list Msg) : M unit :=
  λ w, Some (mkWorld (f (session w)) (trace w), Ok tt).

(** [session.messages.push] *)
Definition push (m : Msg) : M unit := update_session (λ ms, ms ++ [m]).

Definition session_messages : M (list Msg) := λ w, Some (w, Ok (session w)).

(** [Message::user] and [Message::assistant] *)
Definition user_text (s : str) : Msg := mkMessage User (Text s).
Definition assistant_text (s : str) : Msg := mkMessage Assistant (Text s).

Section run.
Context (json_to_string : Value → str) (json_command : Value → option str) (sha256_hex : str → str).
Context (schema_to_string : Value → option str) (parse_json : str → option Value).
Context (env : Environment) (setup : Setup).

Definition notify (p : LoopPhase) : M unit := if on_phase env then emit (Phase p) else mret tt.

Definition fire_hook (e : HookEvent) (d : HookData) : M (result unit str) :=
  match hooks env with
  | None => mret (Ok tt)
  | Some hook_reg =>
      let ctx := mkContext (m_name (manifest setup)) (agent_id setup) e d in
      r ← look (λ t, fire hook_reg t ctx);
      emit (Fired ctx);;
      mret r
  end.

Definition save_session : M (result unit str) :=
  λ w, Some (mkWorld (session w) (trace w ++ [Saved (session w)]), Ok (save env (trace w) (session w))).

(** [memory.save_session(session).map_err(..)?] *)
Definition save_or_fail : M unit :=
  r ← save_session;
  match r with Ok _ => mret tt | Err e => fail (Memory e) end.

Definition recall_by (embedding : option Vec) : M (list str) :=
  r ← look (λ t, recall env t (user_message setup) embedding);
  emit (Recalled (user_message setup) embedding);;
  mret (match r with Ok l => l | Err _ => [] end).

(** The embedding of a text, if there is a driver and it succeeds. *)
Definition embed_one (text : str) : M (option Vec) :=
  match embed env with
  | None => mret None
  | Some emb =>
      r ← look (λ t, emb t text);
      emit (Embedded text);;
      mret (match r with Ok v => Some v | Err _ => None end)
  end.

Definition recall_memories : M (list str) :=
  query_vec ← embed_one (user_message setup);
  recall_by query_vec.

Definition remember (interaction_text : str) : M unit :=
  v ← embed_one interaction_text;
  emit (Remembered interaction_text v).

(** ** Before the loop *)

Definition full_system_prompt (memories : list str) : str :=
  system_prompt (m_model (manifest setup))
  ++ (if bool_decide (memories = []) then []
      else paragraph ++ build_memory_section (pair [] <$> memories)).

Definition trim_history (messages : list Msg) : list Msg :=
  if MAX_HISTORY_MESSAGES <? length messages
  then drop (length messages - MAX_HISTORY_MESSAGES) messages else messages.

(** The messages for the model. *)
Definition prepare_messages (session : list Msg) : list Msg :=
  trim_history
    (validate_and_repair (List.filter (λ m, negb (bool_decide (role m = System))) session)).

Definition max_iterations : Z :=
  match autonomous (manifest setup) with
  | Some a => AgentTypes.max_iterations a
  | None => MAX_ITERATIONS
  end.

Definition loop_guard_config : LoopGuardConfig :=
  let cfg := LoopGuard.default_config in
  if (global_circuit_breaker cfg <? max_iterations)%Z
  then LoopGuard.mkConfig (warn_threshold cfg) (block_threshold cfg) (wrapping_mul_u32 max_iterations 3)
         (poll_multiplier cfg) (outcome_warn_threshold cfg) (outcome_block_threshold cfg)
         (ping_pong_min_repeats cfg) (max_warnings_per_call cfg)
  else cfg.

Definition ctx_window : nat := default DEFAULT_CONTEXT_WINDOW (context_window_tokens setup).

Definition context_budget : ContextBudget := new_budget ctx_window.

(** What changes from round to round. *)
Record Loop : Type := mkLoop {
  messages : list Msg;
  loop_usage : TokenUsage;
  loop_guard : LoopGuard;
  consecutive_max_tokens : Z
}.

(** ** A call of the model *)

Fixpoint attempt_events (r : CompletionRequest) (n : nat) (naps : list Z) : Trace :=
  match n with
  | 0 => []
  | S n =>
      Requested r ::
      match naps with
      | [] => attempt_events r n []
      | ms :: naps => Slept ms :: attempt_events r n naps
      end
  end.

(** What a call with retries did: its requests and pauses, and its answer. *)
Definition called_model {St} (r : CompletionRequest)
    (called : ProviderCall.Called (St := St) (Response := CompletionResponse)) : M CompletionResponse :=
  emit_all (attempt_events r (requests called) (slept called));;
  match ProviderCall.outcome called with
  | Ok response => mret response
  | Err e => fail (LlmDriver e)
  end.

(** [call_with_retry(&*driver, request, Some(provider_name), None)] *)
Definition call_model (r : CompletionRequest) : M CompletionResponse :=
  let provider_name := AgentTypes.provider (m_model (manifest setup)) in
  called ← look (λ t,
    call_with_retry (brk := cooldown_breaker Cooldown.default_config) (λ _ : nat, (0, 0)%Z)
      (λ n, complete env t n r) (Some provider_name) None);
  called_model r called.

Definition call_block (c : Call) : ContentBlock Value := ToolUse (call_id c) (call_name c) (call_input c).

(** Calls found in the text make the response a tool use. *)
Definition promote_text_calls (t : Trace) (r : CompletionResponse) : CompletionResponse :=
  match stop_reason r with
  | EndTurn | StopSequence =>
      if bool_decide (length (resp_tool_calls r) = 0) then
        let recovered := recover_text_tool_calls parse_json (uuid env t)
                           (ContextWindow.tool_name <$> available_tools setup) (response_text r) in
        if bool_decide (length recovered = 0) then r
        else mkResponse (call_block <$> recovered) StopToolUse recovered (resp_usage r)
      else r
  | _ => r
  end.

(** ** Tools *)

Definition tool_names : list str := ContextWindow.tool_name <$> available_tools setup.

Definition timed_out (c : Call) : ToolOutput :=
  mkOutput (call_id c)
    (lit "Tool '" ++ call_name c ++ lit "' timed out after " ++ show_Z TOOL_TIMEOUT_SECS ++ lit "s.") true.

Definition awaits_approval (k : option (ApprovalManager (Uuid := Uuid) * (str → str → str → result bool str)))
    (c : Call) : bool :=
  existsb (λ t, str_eqb t (call_name c)) tool_names &&
  match k with Some (m, _) => requires_approval m (call_name c) | None => false end.

Definition branch_output (c : Call) (o : option BranchOutcome) : ToolOutput :=
  match o with
  | None => timed_out c
  | Some (Refused content) => mkOutput (call_id c) content true
  | Some (Returned (Ok content)) => mkOutput (call_id c) content false
  | Some (Returned (Err e)) => mkOutput (call_id c) (lit "Error: " ++ e) true
  end.

(** [execute_tool] under the time limit. *)
Definition execute_tool (c : Call) : M ToolOutput :=
  k ← look (kernel env);
  late ← look (approval_late env);
  gate ← or_panic (tool_gate (Some tool_names) k (Some (agent_id setup)) (call_name c)
                     (json_to_string (call_input c)));
  if awaits_approval k c && late then mret (timed_out c)
  else match gate with
       | inl content => mret (mkOutput (call_id c) content true)
       | inr _ =>
           o ← look (λ t, branch env t c);
           emit (Dispatched c);;
           mret (branch_output c o)
       end.

(** One tool call that the loop guard lets through with [verdict]. *)
Definition run_tool (verdict : LoopGuardVerdict) (c : Call) : M (ContentBlock Value) :=
  notify (PhaseToolUse (shown_tool_name (call_name c)));;
  allowed ← fire_hook BeforeToolCall (CallData (call_name c) (call_input c));
  match allowed with
  | Err reason =>
      mret (ToolResult (call_id c)
              (lit "Hook blocked tool '" ++ call_name c ++ lit "': " ++ reason) true)
  | Ok _ =>
      result ← execute_tool c;
      fire_hook AfterToolCall (ResultData (call_name c) (out_content result) (out_is_error result));;
      content ← or_panic (truncate_tool_result_dynamic (out_content result) context_budget);
      let final_content :=
        match verdict with
        | Warn warn_msg => content ++ paragraph ++ lit "[LOOP GUARD] " ++ warn_msg
        | _ => content
        end in
      mret (ToolResult (out_id result) final_content (out_is_error result))
  end.

Definition guard_check (g : LoopGuard) (c : Call) : LoopGuard * LoopGuardVerdict :=
  LoopGuard.check json_to_string json_command sha256_hex g (call_name c) (call_input c).

Definition use_tool (g : LoopGuard) (c : Call) : M (LoopGuard * ContentBlock Value) :=
  let '(g, verdict) := guard_check g c in
  match verdict with
  | CircuitBreak msg =>
      save_session;;
      fire_hook AgentLoopEnd (CircuitBreakData msg);;
      fail (Internal msg)
  | Block msg => mret (g, ToolResult (call_id c) msg true)
  | _ => b ← run_tool verdict c; mret (g, b)
  end.

Fixpoint use_tools (g : LoopGuard) (cs : list Call) : M (LoopGuard * list (ContentBlock Value)) :=
  match cs with
  | [] => mret (g, [])
  | c :: cs =>
      '(g, b) ← use_tool g c;
      '(g, bs) ← use_tools g cs;
      mret (g, b :: bs)
  end.

(** ** The three ways on from a response *)

Abbreviation Outcome := (Loop + AgentLoopResult)%type.

Definition no_reply (text : str) (d : DirectiveSet) : bool :=
  str_eqb (trim text) (lit "NO_REPLY") || silent d.

Definition fallback_text (iteration : Z) : str :=
  if (0 <? iteration)%Z
  then lit "[Task completed — the agent executed tools but did not produce a text summary.]"
  else lit "[The model returned an empty response. This usually means the model is overloaded, the context is too large, or the API key lacks credits. Try again or check /status.]".

Definition end_turn (iteration : Z) (l : Loop) (r : CompletionResponse) : M Outcome :=
  let '(text, directives) := parse_directives (response_text r) in
  if no_reply text directives then
    push (assistant_text (lit "[no reply needed]"));;
    save_or_fail;;
    mret (inr (mkResult [] (loop_usage l) (iteration + 1) None true
                 (mkDirectives (reply_to directives) (current_thread directives) true)))
  else if is_empty (trim text) && (iteration =? 0)%Z && bool_decide (length (resp_tool_calls r) = 0) then
    mret (inl (mkLoop (messages l ++ [assistant_text (lit "[no response]");
                                      user_text (lit "Please provide your response.")])
                 (loop_usage l) (loop_guard l) (consecutive_max_tokens l)))
  else
    let final_response := if is_empty (trim text) then fallback_text iteration else text in
    push (assistant_text final_response);;
    update_session (λ ms, prune_heartbeat_turns ms 10);;
    save_or_fail;;
    remember (lit "User asked: " ++ user_message setup ++ [newline] ++ lit "I responded: " ++ final_response);;
    notify PhaseDone;;
    fire_hook AgentLoopEnd (EndData (iteration + 1) (length final_response));;
    mret (inr (mkResult final_response (loop_usage l) (iteration + 1) None false default_directives)).

Definition tool_turn (l : Loop) (r : CompletionResponse) : M Outcome :=
  let assistant := mkMessage Assistant (Blocks (resp_content r)) in
  push assistant;;
  '(g, blocks) ← use_tools (loop_guard l) (resp_tool_calls r);
  let results := mkMessage User (Blocks blocks) in
  push results;;
  save_session;;
  mret (inl (mkLoop (messages l ++ [assistant; results]) (loop_usage l) g 0)).

Definition max_tokens_turn (iteration : Z) (l : Loop) (r : CompletionResponse) : M Outcome :=
  let consecutive := (consecutive_max_tokens l + 1)%Z in
  let text := response_text r in
  if (MAX_CONTINUATIONS <=? consecutive)%Z then
    let text := if is_empty (trim text)
                then lit "[Partial response — token limit reached with no text output.]" else text in
    push (assistant_text text);;
    save_session;;
    fire_hook AgentLoopEnd (ContinuationsData (iteration + 1));;
    mret (inr (mkResult text (loop_usage l) (iteration + 1) None false default_directives))
  else
    push (assistant_text text);;
    push (user_text (lit "Please continue."));;
    mret (inl (mkLoop (messages l ++ [assistant_text text; user_text (lit "Please continue.")])
                 (loop_usage l) (loop_guard l) consecutive)).

(** ** The loop *)

Definition request_of (system : str) (messages : list Msg) : CompletionRequest :=
  let m := m_model (manifest setup) in
  mkRequest (AgentTypes.model m) messages (available_tools setup) (max_tokens m) (temperature m)
    (Some system) None.

Definition iterate (system : str) (iteration : Z) (l : Loop) : M Outcome :=
  '(ms, _) ← or_panic (recover_from_overflow schema_to_string system (available_tools setup)
                         ctx_window (messages l));
  '(ms, _) ← or_panic (apply_context_guard ms context_budget);
  notify PhaseThinking;;
  answer ← call_model (request_of system ms);
  r ← look (λ t, promote_text_calls t answer);
  let l := mkLoop ms (sum_usage (loop_usage l) (resp_usage answer)) (loop_guard l)
             (consecutive_max_tokens l) in
  match stop_reason r with
  | EndTurn | StopSequence => end_turn iteration l r
  | StopToolUse => tool_turn l r
  | MaxTokens => max_tokens_turn iteration l r
  end.

(** [for iteration in 0..max_iterations], with [n] rounds to go. *)
Fixpoint run_loop (system : str) (n : nat) (iteration : Z) (l : Loop) : M AgentLoopResult :=
  match n with
  | 0 =>
      save_session;;
      fire_hook AgentLoopEnd (ExceededData max_iterations);;
      fail (MaxIterationsExceeded max_iterations)
  | S n =>
      o ← iterate system iteration l;
      match o with
      | inl l => run_loop system n (iteration + 1) l
      | inr result => mret result
      end
  end.

Definition run_agent_loop : M AgentLoopResult :=
  memories ← recall_memories;
  fire_hook BeforePromptBuild (PromptData (system_prompt (m_model (manifest setup))) (user_message setup));;
  push (user_text (user_message setup));;
  history ← session_messages;
  run_loop (full_system_prompt memories) (Z.to_nat max_iterations) 0
    (mkLoop (prepare_messages history) default_usage (new_guard loop_guard_config) 0).

(** * The streaming loop

    [run_agent_loop_streaming] is written out a second time in the code; so it
    is here. What both share are the calls into other files and the reading of
    the configuration ([max_iterations], [loop_guard_config],
    [context_budget], [tool_names], [request_of]). *)

Definition recall_memories_streaming : M (list str) :=
  match embed env with
  | Some emb =>
      r ← look (λ t, emb t (user_message setup));
      emit (Embedded (user_message setup));;
      match r with
      | Ok query_vec => recall_by (Some query_vec)
      | Err _ => recall_by None
      end
  | None => recall_by None
  end.

Definition full_system_prompt_streaming (memories : list str) : str :=
  if bool_decide (memories = []) then system_prompt (m_model (manifest setup))
  else system_prompt (m_model (manifest setup)) ++ paragraph ++ build_memory_section (pair [] <$> memories).

Definition prepare_messages_streaming (session : list Msg) : list Msg :=
  let llm_messages := List.filter (λ m, negb (bool_decide (role m = System))) session in
  let messages := validate_and_repair llm_messages in
  if MAX_HISTORY_MESSAGES <? length messages
  then drop (length messages - MAX_HISTORY_MESSAGES) messages else messages.

(** [stream_tx.send]; whether anybody listens is ignored. *)
Definition send_event (e : StreamEvent) : M unit := emit (Streamed e).

Definition warn_context (recovery : RecoveryStage) : M unit :=
  match recovery with
  | NoRecovery => mret tt
  | FinalError =>
      send_event (PhaseChange (lit "context_warning")
        (Some (lit "Context overflow unrecoverable. Use /reset or /compact.")))
  | _ =>
      send_event (PhaseChange (lit "context_warning")
        (Some (lit "Older messages trimmed to stay within context limits. Use /compact for smarter summarization.")))
  end.

(** [stream_with_retry(&*driver, request, stream_tx, Some(provider_name), None)] *)
Definition call_model_streaming (r : CompletionRequest) : M CompletionResponse :=
  let provider_name := AgentTypes.provider (m_model (manifest setup)) in
  called ← look (λ t,
    stream_with_retry (brk := cooldown_breaker Cooldown.default_config) (λ _ : nat, (0, 0)%Z)
      (λ n, stream env t n r) (Some provider_name) None);
  called_model r called.

Definition promote_streaming (t : Trace) (r : CompletionResponse) : CompletionResponse :=
  match stop_reason r with
  | EndTurn | StopSequence =>
      if bool_decide (length (resp_tool_calls r) = 0) then
        let recovered := recover_text_tool_calls parse_json (uuid env t)
                           (ContextWindow.tool_name <$> available_tools setup) (response_text r) in
        if bool_decide (length recovered = 0) then r
        else mkResponse ((λ tc, ToolUse (call_id tc) (call_name tc) (call_input tc)) <$> recovered)
               StopToolUse recovered (resp_usage r)
      else r
  | _ => r
  end.

Definition run_tool_streaming (verdict : LoopGuardVerdict) (c : Call) : M (ContentBlock Value) :=
  notify (PhaseToolUse (shown_tool_name (call_name c)));;
  allowed ← fire_hook BeforeToolCall (CallData (call_name c) (call_input c));
  match allowed with
  | Err reason =>
      mret (ToolResult (call_id c)
              (lit "Hook blocked tool '" ++ call_name c ++ lit "': " ++ reason) true)
  | Ok _ =>
      result ← execute_tool c;
      fire_hook AfterToolCall (ResultData (call_name c) (out_content result) (out_is_error result));;
      content ← or_panic (truncate_tool_result_dynamic (out_content result) context_budget);
      let final_content :=
        match verdict with
        | Warn warn_msg => content ++ paragraph ++ lit "[LOOP GUARD] " ++ warn_msg
        | _ => content
        end in
      let preview := concat (take 300 (chars final_content)) in
      send_event (ToolExecutionResult (call_name c) preview (out_is_error result));;
      mret (ToolResult (out_id result) final_content (out_is_error result))
  end.

Definition use_tool_streaming (g : LoopGuard) (c : Call) : M (LoopGuard * ContentBlock Value) :=
  let '(g, verdict) := guard_check g c in
  match verdict with
  | CircuitBreak msg =>
      save_session;;
      fire_hook AgentLoopEnd (CircuitBreakData msg);;
      fail (Internal msg)
  | Block msg => mret (g, ToolResult (call_id c) msg true)
  | _ => b ← run_tool_streaming verdict c; mret (g, b)
  end.

Fixpoint use_tools_streaming (g : LoopGuard) (cs : list Call) : M (LoopGuard * list (ContentBlock Value)) :=
  match cs with
  | [] => mret (g, [])
  | c :: cs =>
      '(g, b) ← use_tool_streaming g c;
      '(g, bs) ← use_tools_streaming g cs;
      mret (g, b :: bs)
  end.

Definition remember_streaming (interaction_text : str) : M unit :=
  match embed env with
  | Some emb =>
      r ← look (λ t, emb t interaction_text);
      emit (Embedded interaction_text);;
      match r with
      | Ok v => emit (Remembered interaction_text (Some v))
      | Err _ => emit (Remembered interaction_text None)
      end
  | None => emit (Remembered interaction_text None)
  end.

Definition end_turn_streaming (iteration : Z) (l : Loop) (r : CompletionResponse) : M Outcome :=
  let '(text, directives) := parse_directives (response_text r) in
  if str_eqb (trim text) (lit "NO_REPLY") || silent directives then
    push (assistant_text (lit "[no reply needed]"));;
    save_or_fail;;
    mret (inr (mkResult [] (loop_usage l) (iteration + 1) None true
                 (mkDirectives (reply_to directives) (current_thread directives) true)))
  else if is_empty (trim text) && (iteration =? 0)%Z && bool_decide (length (resp_tool_calls r) = 0) then
    mret (inl (mkLoop (messages l ++ [assistant_text (lit "[no response]");
                                      user_text (lit "Please provide your response.")])
                 (loop_usage l) (loop_guard l) (consecutive_max_tokens l)))
  else
    let text :=
      if is_empty (trim text) then
        if (0 <? iteration)%Z
        then lit "[Task completed — the agent executed tools but did not produce a text summary.]"
        else lit "[The model returned an empty response. This usually means the model is overloaded, the context is too large, or the API key lacks credits. Try again or check /status.]"
      else text in
    push (assistant_text text);;
    update_session (λ ms, prune_heartbeat_turns ms 10);;
    save_or_fail;;
    remember_streaming (lit "User asked: " ++ user_message setup ++ [newline] ++ lit "I responded: " ++ text);;
    notify PhaseDone;;
    fire_hook AgentLoopEnd (EndData (iteration + 1) (length text));;
    mret (inr (mkResult text (loop_usage l) (iteration + 1) None false default_directives)).

Definition tool_turn_streaming (l : Loop) (r : CompletionResponse) : M Outcome :=
  let assistant := mkMessage Assistant (Blocks (resp_content r)) in
  push assistant;;
  '(g, blocks) ← use_tools_streaming (loop_guard l) (resp_tool_calls r);
  let results := mkMessage User (Blocks blocks) in
  push results;;
  save_session;;
  mret (inl (mkLoop (messages l ++ [assistant; results]) (loop_usage l) g 0)).

Definition max_tokens_turn_streaming (iteration : Z) (l : Loop) (r : CompletionResponse) : M Outcome :=
  let consecutive := (consecutive_max_tokens l + 1)%Z in
  let text := response_text r in
  if (MAX_CONTINUATIONS <=? consecutive)%Z then
    let text := if is_empty (trim text)
                then lit "[Partial response — token limit reached with no text output.]" else text in
    push (assistant_text text);;
    save_session;;
    fire_hook AgentLoopEnd (ContinuationsData (iteration + 1));;
    mret (inr (mkResult text (loop_usage l) (iteration + 1) None false default_directives))
  else
    push (assistant_text text);;
    push (user_text (lit "Please continue."));;
    mret (inl (mkLoop (messages l ++ [assistant_text text; user_text (lit "Please continue.")])
                 (loop_usage l) (loop_guard l) consecutive)).

Definition iterate_streaming (system : str) (iteration : Z) (l : Loop) : M Outcome :=
  '(ms, recovery) ← or_panic (recover_from_overflow schema_to_string system (available_tools setup)
                                ctx_window (messages l));
  warn_context recovery;;
  '(ms, _) ← or_panic (apply_context_guard ms context_budget);
  notify PhaseStreaming;;
  answer ← call_model_streaming (request_of system ms);
  r ← look (λ t, promote_streaming t answer);
  let l := mkLoop ms (sum_usage (loop_usage l) (resp_usage answer)) (loop_guard l)
             (consecutive_max_tokens l) in
  match stop_reason r with
  | EndTurn | StopSequence => end_turn_streaming iteration l r
  | StopToolUse => tool_turn_streaming l r
  | MaxTokens => max_tokens_turn_streaming iteration l r
  end.

Fixpoint run_loop_streaming (system : str) (n : nat) (iteration : Z) (l : Loop) : M AgentLoopResult :=
  match n with
  | 0 =>
      save_session;;
      fire_hook AgentLoopEnd (ExceededData max_iterations);;
      fail (MaxIterationsExceeded max_iterations)
  | S n =>
      o ← iterate_streaming system iteration l;
      match o with
      | inl l => run_loop_streaming system n (iteration + 1) l
      | inr result => mret result
      end
  end.

Definition run_agent_loop_streaming : M AgentLoopResult :=
  memories ← recall_memories_streaming;
  fire_hook BeforePromptBuild (PromptData (system_prompt (m_model (manifest setup))) (user_message setup));;
  push (user_text (user_message setup));;
  history ← session_messages;
  run_loop_streaming (full_system_prompt_streaming memories) (Z.to_nat max_iterations) 0
    (mkLoop (prepare_messages_streaming history) default_usage (new_guard loop_guard_config) 0).

(** One of the two functions. *)
Definition run_mode (mode : Mode) : M AgentLoopResult :=
  match mode with Buffered => run_agent_loop | Streaming => run_agent_loop_streaming end.
End run.
End agent_loop.
