(* ===== verification/AgentLoopFacts.v ===== *)
(** * Reasoning about the agent loop

    Relations between the world before and after a computation ([always]),
    with a rule for each effect of the monad, and what each part of the loop
    does to the session and to the trace. *)

From Stdlib Require Import Ascii ZArith Lia.
From stdpp Require Import base gmap strings list.
From S2P Require Import Prelude Strs Floats Message ContextWindow TextToolCalls ReplyDirectives AgentTypes AgentQuota.
From S2P Require Import LlmErrors ProviderCall LoopGuard Approval Hooks PromptBuilder SessionRepair AgentLoop.

(** ** The two loops as one

    The two functions differ in the driver's function they call and in what
    they tell callbacks and the channel. For the proofs they are instances of
    one loop with a mode ([run_mode_by]). *)

Definition same {Value Vec A : Type} (m m' : AgentLoop.M (Value := Value) (Vec := Vec) A) : Prop := ∀ w, m w = m' w.

Module AnyLoop.
Section any_loop.
Context {Value Vec Uuid : Type} `{EqDecision Value} `{Countable Uuid} `{UnicodeCase}.
Context (json_to_string : Value → str) (json_command : Value → option str) (sha256_hex : str → str).
Context (schema_to_string : Value → option str) (parse_json : str → option Value).
Context (env : Environment (Value := Value) (Vec := Vec) (Uuid := Uuid)) (setup : Setup (Value := Value)).

Abbreviation M := (AgentLoop.M (Value := Value) (Vec := Vec)).
Abbreviation Call := (ToolCall Value).
Abbreviation Outcome := (AgentLoop.Loop (Value := Value) + AgentLoopResult)%type.

Definition call_model_by (mode : Mode) (r : CompletionRequest) : M CompletionResponse :=
  let provider_name := AgentTypes.provider (m_model (manifest setup)) in
  called ← look (λ t,
    let clock := λ _ : nat, (0, 0)%Z in
    match mode with
    | Buffered =>
        call_with_retry (brk := cooldown_breaker Cooldown.default_config) clock
          (λ n, complete env t n r) (Some provider_name) None
    | Streaming =>
        stream_with_retry (brk := cooldown_breaker Cooldown.default_config) clock
          (λ n, stream env t n r) (Some provider_name) None
    end);
  called_model r called.

Definition warn_context_by (mode : Mode) (recovery : RecoveryStage) : M unit :=
  match mode with Buffered => mret tt | Streaming => warn_context recovery end.

Definition preview_by (c : Call) (mode : Mode) (content : str) (is_error : bool) : M unit :=
  match mode with
  | Buffered => mret tt
  | Streaming => send_event (ToolExecutionResult (call_name c) (concat (take 300 (chars content))) is_error)
  end.

Definition run_tool_by (mode : Mode) (verdict : LoopGuardVerdict) (c : Call) : M (ContentBlock Value) :=
  notify env (PhaseToolUse (shown_tool_name (call_name c)));;
  allowed ← fire_hook env setup BeforeToolCall (CallData (call_name c) (call_input c));
  match allowed with
  | Err reason =>
      mret (ToolResult (call_id c)
              (lit "Hook blocked tool '" ++ call_name c ++ lit "': " ++ reason) true)
  | Ok _ =>
      result ← execute_tool json_to_string env setup c;
      fire_hook env setup AfterToolCall (ResultData (call_name c) (out_content result) (out_is_error result));;
      content ← or_panic (truncate_tool_result_dynamic (out_content result) (context_budget setup));
      let final_content :=
        match verdict with
        | Warn warn_msg => content ++ paragraph ++ lit "[LOOP GUARD] " ++ warn_msg
        | _ => content
        end in
      preview_by c mode final_content (out_is_error result);;
      mret (ToolResult (out_id result) final_content (out_is_error result))
  end.

Definition use_tool_by (mode : Mode) (g : LoopGuard) (c : Call) : M (LoopGuard * ContentBlock Value) :=
  let '(g, verdict) := guard_check json_to_string json_command sha256_hex g c in
  match verdict with
  | CircuitBreak msg =>
      save_session env;;
      fire_hook env setup AgentLoopEnd (CircuitBreakData msg);;
      fail (Internal msg)
  | Block msg => mret (g, ToolResult (call_id c) msg true)
  | _ => b ← run_tool_by mode verdict c; mret (g, b)
  end.

Fixpoint use_tools_by (mode : Mode) (g : LoopGuard) (cs : list Call) : M (LoopGuard * list (ContentBlock Value)) :=
  match cs with
  | [] => mret (g, [])
  | c :: cs =>
      '(g, b) ← use_tool_by mode g c;
      '(g, bs) ← use_tools_by mode g cs;
      mret (g, b :: bs)
  end.

Definition tool_turn_by (mode : Mode) (l : Loop) (r : CompletionResponse) : M Outcome :=
  let assistant := mkMessage Assistant (Blocks (resp_content r)) in
  push assistant;;
  '(g, blocks) ← use_tools_by mode (loop_guard l) (resp_tool_calls r);
  let results := mkMessage User (Blocks blocks) in
  push results;;
  save_session env;;
  mret (inl (mkLoop (messages l ++ [assistant; results]) (loop_usage l) g 0)).

Definition iterate_by (mode : Mode) (system : str) (iteration : Z) (l : Loop) : M Outcome :=
  '(ms, recovery) ← or_panic (recover_from_overflow schema_to_string system (available_tools setup)
                                (ctx_window setup) (messages l));
  warn_context_by mode recovery;;
  '(ms, _) ← or_panic (apply_context_guard ms (context_budget setup));
  notify env (match mode with Buffered => PhaseThinking | Streaming => PhaseStreaming end);;
  answer ← call_model_by mode (request_of setup system ms);
  r ← look (λ t, promote_text_calls parse_json env setup t answer);
  let l := mkLoop ms (sum_usage (loop_usage l) (resp_usage answer)) (loop_guard l)
             (consecutive_max_tokens l) in
  match stop_reason r with
  | EndTurn | StopSequence => end_turn env setup iteration l r
  | StopToolUse => tool_turn_by mode l r
  | MaxTokens => max_tokens_turn env setup iteration l r
  end.

Fixpoint run_loop_by (mode : Mode) (system : str) (n : nat) (iteration : Z) (l : Loop) : M AgentLoopResult :=
  match n with
  | 0 =>
      save_session env;;
      fire_hook env setup AgentLoopEnd (ExceededData (max_iterations setup));;
      fail (MaxIterationsExceeded (max_iterations setup))
  | S n =>
      o ← iterate_by mode system iteration l;
      match o with
      | inl l => run_loop_by mode system n (iteration + 1) l
      | inr result => mret result
      end
  end.

Definition run_by (mode : Mode) : M AgentLoopResult :=
  memories ← recall_memories env setup;
  fire_hook env setup BeforePromptBuild
    (PromptData (system_prompt (m_model (manifest setup))) (AgentLoop.user_message setup));;
  push (user_text (AgentLoop.user_message setup));;
  history ← session_messages;
  run_loop_by mode (full_system_prompt setup memories) (Z.to_nat (max_iterations setup)) 0
    (mkLoop (prepare_messages history) default_usage (new_guard (loop_guard_config setup)) 0).

(** *** The functions of the code are the instances *)

Lemma same_bind {A B} (m m' : M A) (k k' : A → M B) : same m m' → (∀ x, same (k x) (k' x)) → same (m ≫= k) (m' ≫= k').
Proof. intros Hm Hk w. unfold mbind, M_bind. rewrite Hm. destruct (m' w) as [[w1 [x|e]]|]; [apply Hk|done..]. Qed.

Lemma same_refl {A} (m : M A) : same m m.
Proof. done. Qed.

Lemma use_tools_same (f : LoopGuard → list Call → M (LoopGuard * list (ContentBlock Value))) mode :
  (∀ g, same (f g []) (mret (g, []))) →
  (∀ g c cs, same (f g (c :: cs)) ('(g, b) ← use_tool_by mode g c; '(g, bs) ← f g cs; mret (g, b :: bs))) →
  ∀ g cs, same (f g cs) (use_tools_by mode g cs).
Proof.
  intros H0' H1 g cs. revert g. induction cs as [|c cs IH]; intros g w; [apply H0'|].
  rewrite H1. cbn [use_tools_by]. revert w. apply same_bind; [apply same_refl|]. intros [g1 b].
  apply same_bind; [apply IH|]. intros [g2 bs]. apply same_refl.
Qed.

Lemma use_tools_buffered g cs :
  same (use_tools json_to_string json_command sha256_hex env setup g cs) (use_tools_by Buffered g cs).
Proof. by apply use_tools_same. Qed.

Lemma use_tools_streamed g cs :
  same (use_tools_streaming json_to_string json_command sha256_hex env setup g cs) (use_tools_by Streaming g cs).
Proof. by apply use_tools_same. Qed.

Lemma tool_turn_buffered l r :
  same (tool_turn json_to_string json_command sha256_hex env setup l r) (tool_turn_by Buffered l r).
Proof.
  apply same_bind; [apply same_refl|]. intros _. apply same_bind; [apply use_tools_buffered|]. intros [g bs]. apply same_refl.
Qed.

Lemma tool_turn_streamed l r :
  same (tool_turn_streaming json_to_string json_command sha256_hex env setup l r) (tool_turn_by Streaming l r).
Proof.
  apply same_bind; [apply same_refl|]. intros _. apply same_bind; [apply use_tools_streamed|]. intros [g bs]. apply same_refl.
Qed.

Lemma iterate_buffered system it l :
  same (iterate json_to_string json_command sha256_hex schema_to_string parse_json env setup system it l)
    (iterate_by Buffered system it l).
Proof.
  unfold iterate, iterate_by. apply same_bind; [apply same_refl|]. intros [ms recovery].
  change (same ?m (warn_context_by Buffered recovery;; ?k)) with (same m k).
  apply same_bind; [apply same_refl|]. intros [ms' ?].
  apply same_bind; [apply same_refl|]. intros _. apply same_bind; [apply same_refl|]. intros answer.
  apply same_bind; [apply same_refl|]. intros r. cbv zeta.
  destruct (stop_reason r); first [apply tool_turn_buffered|apply same_refl].
Qed.

Lemma run_loop_buffered system n it l :
  same (run_loop json_to_string json_command sha256_hex schema_to_string parse_json env setup system n it l)
    (run_loop_by Buffered system n it l).
Proof.
  revert it l. induction n as [|n IH]; intros it l; cbn [run_loop run_loop_by]; [apply same_refl|].
  apply same_bind; [apply iterate_buffered|]. intros [l'|res]; [apply IH|apply same_refl].
Qed.

Lemma recall_streaming : same (recall_memories_streaming env setup) (recall_memories env setup).
Proof.
  intros w. unfold recall_memories_streaming, recall_memories, embed_one. destruct (AgentLoop.embed env) as [emb|]; [|done].
  unfold mbind, M_bind, look. cbn [trace emit session]. by destruct (emb (trace w) _).
Qed.

Lemma remember_streamed text : same (remember_streaming env text) (remember env text).
Proof.
  intros w. unfold remember_streaming, remember, embed_one. destruct (AgentLoop.embed env) as [emb|]; [|done].
  unfold mbind, M_bind, look. cbn [trace emit session]. by destruct (emb (trace w) _).
Qed.

Lemma end_turn_streamed it l r : same (end_turn_streaming env setup it l r) (end_turn env setup it l r).
Proof.
  unfold end_turn_streaming, end_turn, no_reply, fallback_text. destruct (parse_directives (response_text r)) as [text d].
  case_match; [apply same_refl|]. case_match; [apply same_refl|].
  apply same_bind; [apply same_refl|]. intros _. apply same_bind; [apply same_refl|]. intros _.
  apply same_bind; [apply same_refl|]. intros _. apply same_bind; [apply remember_streamed|]. intros _. apply same_refl.
Qed.

Lemma iterate_streamed system it l :
  same (iterate_streaming json_to_string json_command sha256_hex schema_to_string parse_json env setup system it l)
    (iterate_by Streaming system it l).
Proof.
  unfold iterate_streaming, iterate_by. apply same_bind; [apply same_refl|]. intros [ms recovery].
  apply same_bind; [apply same_refl|]. intros _. apply same_bind; [apply same_refl|]. intros [ms' ?].
  apply same_bind; [apply same_refl|]. intros _. apply same_bind; [apply same_refl|]. intros answer.
  apply same_bind; [apply same_refl|]. intros r. cbv zeta.
  destruct (stop_reason r); first [apply end_turn_streamed|apply tool_turn_streamed|apply same_refl].
Qed.

Lemma run_loop_streamed system n it l :
  same (run_loop_streaming json_to_string json_command sha256_hex schema_to_string parse_json env setup system n it l)
    (run_loop_by Streaming system n it l).
Proof.
  revert it l. induction n as [|n IH]; intros it l; cbn [run_loop_streaming run_loop_by]; [apply same_refl|].
  apply same_bind; [apply iterate_streamed|]. intros [l'|res]; [apply IH|apply same_refl].
Qed.

Lemma system_prompt_streamed memories :
  full_system_prompt_streaming setup memories = full_system_prompt setup memories.
Proof. unfold full_system_prompt_streaming, full_system_prompt. case_bool_decide; [by rewrite app_nil_r|done]. Qed.

(** The loops of the code are the two instances. *)
Lemma run_mode_by mode :
  same (run_mode json_to_string json_command sha256_hex schema_to_string parse_json env setup mode) (run_by mode).
Proof.
  destruct mode; unfold run_mode, run_agent_loop, run_agent_loop_streaming, run_by.
  - do 4 (apply same_bind; [apply same_refl|]; intros ?). apply run_loop_buffered.
  - apply same_bind; [apply recall_streaming|]. intros memories. rewrite system_prompt_streamed.
    do 3 (apply same_bind; [apply same_refl|]; intros ?). apply run_loop_streamed.
Qed.
End any_loop.
End AnyLoop.
Export AnyLoop.

Section logic.
Context {Value Vec : Type}.

Abbreviation World := (AgentLoop.World (Value := Value) (Vec := Vec)).
Abbreviation M := (AgentLoop.M (Value := Value) (Vec := Vec)).
Abbreviation Event := (LoopEvent (Value := Value) (Vec := Vec)).

(** Every run of [m] that does not panic relates the world before to the one
    after. *)
Definition always {A} (R : World → World → Prop) (m : M A) : Prop :=
  ∀ w w' r, m w = Some (w', r) → R w w'.

Lemma bind_inv {A B} (m : M A) (k : A → M B) w w' r :
  (m ≫= k) w = Some (w', r) →
  (∃ e, m w = Some (w', Err e) ∧ r = Err e) ∨ ∃ x w1, m w = Some (w1, Ok x) ∧ k x w1 = Some (w', r).
Proof.
  unfold mbind, M_bind. destruct (m w) as [[w1 [x|e]]|]; [|intros [= -> <-]|done]; eauto.
Qed.

Section rules.
Context (R : World → World → Prop) `{!PreOrder R}.

Lemma always_bind {A B} (m : M A) (k : A → M B) :
  always R m → (∀ x, always R (k x)) → always R (m ≫= k).
Proof.
  intros Hm Hk w w' r [(e & He & _)|(x & w1 & Hx & Hr)]%bind_inv; [by eapply Hm|].
  etrans; [by eapply Hm|by eapply Hk].
Qed.

Lemma always_ret {A} (x : A) : always R (mret x : M A).
Proof. intros w w' r [= <- _]. done. Qed.

Lemma always_fail {A} e : always R (fail e : M A).
Proof. intros w w' r [= <- _]. done. Qed.

Lemma always_look {A} (f : list Event → A) : always R (look f).
Proof. intros w w' r [= <- _]. done. Qed.

Lemma always_session_messages : always R session_messages.
Proof. intros w w' r [= <- _]. done. Qed.

Lemma always_or_panic {A} (o : option A) : always R (or_panic o : M A).
Proof. intros w w' r. unfold or_panic. destruct o as [x|]; [|done]. by intros [= <- _]. Qed.
End rules.

(** ** Two relations *)

(** The session is untouched. *)
Definition same_session (w w' : World) : Prop := session w' = session w.

#[export] Instance same_session_preorder : PreOrder same_session.
Proof. split; [done|]. intros w1 w2 w3. unfold same_session. congruence. Qed.

(** The trace grows, by events each of which is [Good] where it stands. *)
Definition grows (Good : list Event → Event → Prop) (w w' : World) : Prop :=
  ∃ ev, trace w' = trace w ++ ev ∧
        ∀ ev1 e ev2, ev = ev1 ++ e :: ev2 → Good (trace w ++ ev1) e.

#[export] Instance grows_preorder Good : PreOrder (grows Good).
Proof.
  split.
  - intros w. exists []. split; [by rewrite app_nil_r|]. by intros [] ? ?.
  - intros w1 w2 w3 (ev & E & G) (ev' & E' & G'). exists (ev ++ ev'). split; [by rewrite E', E, <-app_assoc|].
    intros a e b Hab. apply app_eq_inv in Hab as [(k & -> & Hk)|(k & -> & Hk)].
    + destruct k as [|x k].
      * rewrite app_nil_r in E. specialize (G' [] e b (eq_sym Hk)). by rewrite E, app_nil_r in G'.
      * injection Hk as -> ->. by apply (G a x k).
    + specialize (G' k e b Hk). by rewrite E, <-app_assoc in G'.
Qed.

Lemma grows_weaken (P Q : list Event → Event → Prop) w w' :
  (∀ t e, P t e → Q t e) → grows P w w' → grows Q w w'.
Proof. intros HPQ (ev & E & G). exists ev. split; [done|]. eauto. Qed.

Lemma grows_update_session Good f : always (grows Good) (update_session f).
Proof. intros w w' r [= <- _]. exists []. split; [by rewrite app_nil_r|]. by intros [] ? ?. Qed.

End logic.

(** Applies the rules to a computation, down to the calls it is made of. *)
Ltac walk :=
  repeat first
    [ solve [eauto 2 with openfang]
    | apply always_ret; apply _
    | apply always_fail; apply _
    | apply always_look; apply _
    | apply always_session_messages; apply _
    | apply always_or_panic; apply _
    | apply always_bind; [apply _| |intros ?]
    | progress case_match ].

Section parts.
Context {Value Vec Uuid : Type} `{EqDecision Value} `{Countable Uuid} `{UnicodeCase}.
Context (json_to_string : Value → str) (json_command : Value → option str) (sha256_hex : str → str).
Context (schema_to_string : Value → option str) (parse_json : str → option Value).
Context (env : Environment (Value := Value) (Vec := Vec) (Uuid := Uuid)) (setup : Setup (Value := Value)).

Abbreviation World := (AgentLoop.World (Value := Value) (Vec := Vec)).
Abbreviation M := (AgentLoop.M (Value := Value) (Vec := Vec)).
Abbreviation Event := (LoopEvent (Value := Value) (Vec := Vec)).
Abbreviation Call := (ToolCall Value).
Abbreviation tool_names := (AgentLoop.tool_names setup).
Abbreviation fire_hook := (fire_hook env setup).
Abbreviation save_session := (save_session env).
Abbreviation execute_tool := (execute_tool json_to_string env setup).
Abbreviation run_tool_by := (run_tool_by json_to_string env setup).
Abbreviation use_tool_by := (use_tool_by json_to_string json_command sha256_hex env setup).
Abbreviation use_tools_by := (use_tools_by json_to_string json_command sha256_hex env setup).
Abbreviation call_model_by := (call_model_by env setup).

(** ** Events and where they may stand *)

Definition call_context (c : Call) : HookContext HookData :=
  mkContext (m_name (manifest setup)) (agent_id setup) BeforeToolCall (CallData (call_name c) (call_input c)).

(** Approval of a call after the trace [t], as far as it needs one. *)
Definition approved (t : list Event) (c : Call) : Prop :=
  match kernel env t with
  | Some (m, ask) =>
      requires_approval m (call_name c) = true →
      approval_late env t = false ∧ ∃ summary, ask (agent_id setup) (call_name c) summary = Ok true
  | None => True
  end.

(** The hooks have just been asked, and let the call through. *)
Definition unhindered (t : list Event) (c : Call) : Prop :=
  match hooks env with
  | Some reg => ∃ t0, t = t0 ++ [Fired (call_context c)] ∧ fire reg t0 (call_context c) = Ok tt
  | None => True
  end.

Definition permitted (t : list Event) (c : Call) : Prop :=
  call_name c ∈ tool_names ∧ approved t c ∧ unhindered t c.

Definition event_ok (t : list Event) (e : Event) : Prop :=
  match e with Dispatched c => permitted t c | _ => True end.

(** The gate lets a call through. *)
Lemma tool_gate_passed allowed (k : option (ApprovalManager (Uuid := Uuid) * (str → str → str → result bool str)))
    agent tool input :
  tool_gate (Some allowed) k (Some agent) tool input = Some (inr tt) →
  tool ∈ allowed ∧
  match k with
  | Some (m, ask) => requires_approval m tool = true → ∃ summary, ask agent tool summary = Ok true
  | None => True
  end.
Proof.
  unfold tool_gate. destruct (existsb (λ t, str_eqb t tool) allowed) eqn:Ea; [|done]. cbn [negb].
  intros Hg. split.
  - apply existsb_exists in Ea as (t & Hin & Ht). apply str_eqb_spec in Ht as ->. by apply list_elem_of_In.
  - destruct k as [[m ask]|]; [|done]. intros Hr. rewrite Hr in Hg. cbn [default] in Hg.
    destruct (slice_to _ _) as [shown|]; [|done]. cbn [mbind option_bind] in Hg. cbv zeta in Hg.
    unfold Datatypes.id in Hg. destruct (ask agent tool (tool ++ lit ": " ++ shown)) as [[]|e] eqn:Ee; [|done..]. eauto.
Qed.

Lemma tool_gate_unit (x : str + unit) : (∃ s, x = inl s) ∨ x = inr tt.
Proof. destruct x as [s|[]]; eauto. Qed.

(** A hook that lets a call through leaves its mark. *)
Lemma fire_unhindered c w w' :
  fire_hook BeforeToolCall (CallData (call_name c) (call_input c)) w = Some (w', Ok (Ok tt)) →
  unhindered (trace w') c.
Proof.
  unfold AgentLoop.fire_hook, unhindered. destruct (hooks env) as [reg|]; [|done].
  intros E. apply bind_inv in E as [(? & E & _)|(f & w1 & [= <- Hf] & E)]; [done|].
  apply bind_inv in E as [(? & E & _)|(u & w1 & [= <- <-] & E)]; [done|].
  injection E as <- E. exists (trace w). split; [done|]. by rewrite <-E.
Qed.

(** ** Relations that events of the loop itself keep *)

(** Events of hooks, callbacks and recalled memories. *)
Definition calm (e : Event) : bool :=
  match e with Embedded _ | Recalled _ _ | Remembered _ _ | Fired _ | Phase _ => true | _ => false end.

Section calm.
Context (R : World → World → Prop) `{!PreOrder R}.
Hypothesis R_calm : ∀ w e, calm e = true → R w (mkWorld (session w) (trace w ++ [e])).

Lemma always_emit_calm e : calm e = true → always R (emit e).
Proof. intros He w w' r [= <- _]. by apply R_calm. Qed.

#[local] Hint Extern 1 (always R (emit _)) => (apply always_emit_calm; done) : openfang.

Lemma always_notify p : always R (notify env p).
Proof. unfold notify. walk. Qed.

Lemma always_fire e d : always R (fire_hook e d).
Proof. unfold AgentLoop.fire_hook. walk. Qed.

Lemma always_embed text : always R (embed_one env text).
Proof. unfold embed_one. walk. Qed.

#[local] Hint Resolve always_embed : openfang.

Lemma always_recall : always R (recall_memories env setup).
Proof. unfold recall_memories, recall_by. walk. Qed.

Lemma always_remember text : always R (remember env text).
Proof. unfold remember. walk. Qed.
End calm.

(** ** Relations that all events but those of tools and requests keep *)

Definition requesting (e : Event) : bool := match e with Requested _ | Slept _ => true | _ => false end.

Definition inert (e : Event) : bool :=
  match e with Dispatched _ => false | _ => negb (requesting e) end.

Section inert.
Context (R : World → World → Prop) `{!PreOrder R}.
Hypothesis R_inert : ∀ w e, inert e = true → R w (mkWorld (session w) (trace w ++ [e])).

Lemma inert_calm w e : calm e = true → R w (mkWorld (session w) (trace w ++ [e])).
Proof. intros He. apply R_inert. by destruct e. Qed.

Lemma always_emit_inert e : inert e = true → always R (emit e).
Proof. intros He w w' r [= <- _]. by apply R_inert. Qed.

#[local] Hint Extern 1 (always R (emit _)) => (apply always_emit_inert; done) : openfang.

Lemma always_save : always R save_session.
Proof. intros w w' r [= <- _]. by apply R_inert. Qed.

#[local] Hint Resolve always_save : openfang.

Lemma always_save_or_fail : always R (save_or_fail env).
Proof. unfold save_or_fail. walk. Qed.

Lemma always_warn mode s : always R (warn_context_by mode s : M unit).
Proof. unfold warn_context_by, warn_context, send_event. walk. Qed.

Lemma attempt_events_requesting r n naps : forallb requesting (attempt_events r n naps) = true.
Proof. revert naps. induction n as [|n IH]; intros [|ms naps]; cbn; auto. Qed.

Lemma always_call mode r :
  (∀ w e, requesting e = true → R w (mkWorld (session w) (trace w ++ [e]))) → always R (call_model_by mode r).
Proof.
  intros R_request. unfold AnyLoop.call_model_by, called_model. apply always_bind; [done|walk|]. intros called.
  apply always_bind; [done| |intros ?; walk]. intros w w' x [= <- _].
  pose proof (attempt_events_requesting r (requests called) (slept called)) as He. revert w He.
  induction (attempt_events r (requests called) (slept called)) as [|e es IH]; intros w He.
  - rewrite app_nil_r. by destruct w.
  - apply andb_true_iff in He as [He Hes].
    transitivity (mkWorld (session w) (trace w ++ [e])); [by apply R_request|].
    rewrite (app_assoc (trace w) [e] es : trace w ++ e :: es = _).
    apply (IH (mkWorld (session w) (trace w ++ [e])) Hes).
Qed.

Lemma always_preview c mode s e : always R (preview_by c mode s e : M unit).
Proof. unfold preview_by, send_event. walk. Qed.

(** A tool call but for the tool itself. *)
Lemma run_tool_frame (S : World → World → Prop) mode v c :
  (∀ w1 w2 w3, R w1 w2 → S w2 w3 → S w1 w3) → (∀ w1 w2 w3, S w1 w2 → R w2 w3 → S w1 w3) →
  (∀ w w', R w w' → S w w') →
  (∀ w w' r, unhindered (trace w) c → execute_tool c w = Some (w', r) → S w w') →
  always S (run_tool_by mode v c).
Proof.
  intros HL HR HRS Hx. unfold AnyLoop.run_tool_by. intros w w' r E.
  pose proof (always_notify R inert_calm) as Hn. pose proof (always_fire R inert_calm) as Hf.
  apply bind_inv in E as [(? & E & _)|(u & w0 & E0 & E)]; [apply HRS; by eapply Hn|].
  apply bind_inv in E as [(? & E & _)|(allowed & w1 & E1 & E)];
    [apply HRS; etrans; [by eapply Hn|by eapply Hf]|].
  assert (R w w1) as Hw1 by (etrans; [by eapply Hn|by eapply Hf]).
  destruct allowed as [[]|reason]; [|injection E as <- _; by apply HRS].
  apply fire_unhindered in E1. apply (HL _ w1); [done|].
  apply bind_inv in E as [(? & E & _)|(result & w2 & E2 & E)]; [by eapply Hx|].
  apply (HR _ w2); [by eapply Hx|]. revert E. clear - Hf PreOrder0 R_inert. revert w2 w' r.
  apply always_bind; [done|apply Hf|]. intros _. apply always_bind; [done|walk|]. intros content.
  apply always_bind; [done|apply always_preview|]. intros _. walk.
Qed.
End inert.

(** ** Relations that permitted events keep *)

Section keeping.
Context (R : World → World → Prop) `{!PreOrder R}.
Hypothesis R_event : ∀ w e,
  requesting e = false → event_ok (trace w) e → R w (mkWorld (session w) (trace w ++ [e])).

Lemma R_inert w e : inert e = true → R w (mkWorld (session w) (trace w ++ [e])).
Proof. intros He. apply R_event; by destruct e. Qed.

Lemma execute_tool_keeps c w w' r :
  execute_tool c w = Some (w', r) → unhindered (trace w) c → R w w'.
Proof.
  unfold AgentLoop.execute_tool. intros E Hh.
  apply bind_inv in E as [(? & E & _)|(k & w1 & [= <- <-] & E)]; [done|].
  apply bind_inv in E as [(? & E & _)|(late & w1 & [= <- <-] & E)]; [done|].
  destruct (tool_gate _ _ _ _ _) as [gate|] eqn:Eg; [|done].
  apply bind_inv in E as [(? & E & _)|(gate' & w1 & [= <- <-] & E)]; [done|].
  destruct (awaits_approval _ _ _ && _) eqn:Ea; [by injection E as <- _|].
  destruct (tool_gate_unit gate) as [[s ->]| ->]; [by injection E as <- _|].
  apply bind_inv in E as [(? & E & _)|(o & w1 & [= <- <-] & E)]; [done|].
  apply bind_inv in E as [(? & E & _)|(u & w1 & [= <- <-] & E)]; [done|].
  injection E as <- _. apply R_event; [done|]. cbn [event_ok]. apply tool_gate_passed in Eg as [Hn Hk].
  split; [done|]. split; [|done]. unfold approved. destruct (kernel env (trace w)) as [[m ask]|]; [|done].
  intros Hr. split; [|by apply Hk]. unfold awaits_approval in Ea. rewrite Hr, andb_true_r in Ea.
  assert (existsb (λ t, str_eqb t (call_name c)) tool_names = true) as Hx.
  { apply existsb_exists. exists (call_name c). split; [by apply list_elem_of_In|by apply str_eqb_spec]. }
  by rewrite Hx in Ea.
Qed.

Lemma always_run_tool mode v c : always R (run_tool_by mode v c).
Proof.
  apply (run_tool_frame R R_inert R); [intros *; apply transitivity..|done|].
  intros w w' r Hh E. by eapply execute_tool_keeps.
Qed.

#[local] Hint Extern 1 (always R (AgentLoop.fire_hook _ _ _ _)) =>
  (apply always_fire; [apply _|apply (inert_calm R R_inert)]) : openfang.
#[local] Hint Extern 1 (always R (AgentLoop.save_session _)) =>
  (apply always_save; apply R_inert) : openfang.
#[local] Hint Resolve always_run_tool : openfang.

Lemma always_use_tool mode g c : always R (use_tool_by mode g c).
Proof. unfold AnyLoop.use_tool_by. walk. Qed.

#[local] Hint Resolve always_use_tool : openfang.

Lemma always_use_tools mode g cs : always R (use_tools_by mode g cs).
Proof. revert g. induction cs as [|c cs IH]; intros g; cbn [AnyLoop.use_tools_by]; walk. Qed.
End keeping.

(** ** What computations return *)

Definition returns {A} (m : M A) (P : A → Prop) (Q : World → OpenFangError → Prop) : Prop :=
  ∀ w w' r, m w = Some (w', r) → match r with Ok x => P x | Err e => Q w' e end.

Lemma returns_bind {A B} (m : M A) (k : A → M B) P P' Q :
  returns m P' Q → (∀ x, P' x → returns (k x) P Q) → returns (m ≫= k) P Q.
Proof.
  intros Hm Hk w w' r [(e & He & ->)|(x & w1 & Hx & Hr)]%bind_inv; [by apply (Hm _ _ _ He)|].
  eapply Hk; [|done]. by apply (Hm _ _ _ Hx).
Qed.

Lemma returns_ret {A} (x : A) P Q : P x → returns (mret x : M A) P Q.
Proof. by intros HP w w' r [= _ <-]. Qed.

(** Computations that do not fail. *)
Definition safe {A} (m : M A) : Prop := returns m (λ _, True) (λ _ _, False).

Lemma safe_bind {A B} (m : M A) (k : A → M B) : safe m → (∀ x, safe (k x)) → safe (m ≫= k).
Proof. intros Hm Hk. eapply returns_bind; [exact Hm|]. intros x _. apply Hk. Qed.

Lemma safe_ret {A} (x : A) : safe (mret x : M A).
Proof. by intros w w' r [= _ <-]. Qed.

Lemma safe_look {A} (f : list Event → A) : safe (look f).
Proof. by intros w w' r [= _ <-]. Qed.

Lemma safe_emit e : safe (emit e).
Proof. by intros w w' r [= _ <-]. Qed.

Lemma safe_or_panic {A} (o : option A) : safe (or_panic o : M A).
Proof. intros w w' r. destruct o; [|done]. by intros [= _ <-]. Qed.

Lemma safe_returns {A B} (m : M A) (k : A → M B) P Q :
  safe m → (∀ x, returns (k x) P Q) → returns (m ≫= k) P Q.
Proof.
  intros Hm Hk. eapply (returns_bind _ _ _ (λ _, True)); [|auto].
  intros w w' [x|e] E; [done|]. by apply Hm in E.
Qed.

Ltac tread :=
  repeat first
    [ apply safe_ret | apply safe_look | apply safe_emit | apply safe_or_panic
    | apply safe_bind; [|intros ?] | progress case_match ].

Lemma safe_notify p : safe (notify env p).
Proof. unfold notify. tread. Qed.

Lemma safe_fire e d : safe (fire_hook e d).
Proof. unfold AgentLoop.fire_hook. tread. Qed.

Lemma safe_save : safe save_session.
Proof. by intros w w' r [= _ <-]. Qed.

Lemma safe_embed text : safe (embed_one env text).
Proof. unfold embed_one. tread. Qed.

Lemma safe_remember text : safe (remember env text).
Proof. unfold remember. apply safe_bind; [apply safe_embed|]. intros v. tread. Qed.

Lemma safe_recall : safe (recall_memories env setup).
Proof. unfold recall_memories, recall_by. apply safe_bind; [apply safe_embed|]. intros v. tread. Qed.

Lemma safe_preview c mode s e : safe (preview_by c mode s e : M unit).
Proof. unfold preview_by, send_event. tread. Qed.

Lemma safe_warn mode s : safe (warn_context_by mode s : M unit).
Proof. unfold warn_context_by, warn_context, send_event. tread. Qed.

(** ** Results of tools *)

Definition is_result (c : Call) (b : ContentBlock Value) : Prop :=
  ∃ text e, b = ToolResult (call_id c) text e.

Lemma execute_tool_id c : returns (execute_tool c) (λ o, out_id o = call_id c) (λ _ _, False).
Proof.
  unfold AgentLoop.execute_tool. do 3 (apply safe_returns; [tread|intros ?]).
  case_match; [by apply returns_ret|]. case_match; [by apply returns_ret|].
  do 2 (apply safe_returns; [tread|intros ?]). apply returns_ret. unfold branch_output. by repeat case_match.
Qed.

Lemma run_tool_result mode v c : returns (run_tool_by mode v c) (is_result c) (λ _ _, False).
Proof.
  unfold AnyLoop.run_tool_by. apply safe_returns; [apply safe_notify|intros _].
  apply safe_returns; [apply safe_fire|intros [[]|reason]]; [|apply returns_ret; by eexists _, _].
  eapply returns_bind; [apply execute_tool_id|]. intros o Ho.
  apply safe_returns; [apply safe_fire|intros _]. apply safe_returns; [tread|intros content].
  apply safe_returns; [apply safe_preview|intros _]. apply returns_ret. rewrite Ho. by eexists _, _.
Qed.

(** Messages last handed to the memory. *)
Definition saved_of (e : Event) : option (list (Message Value)) :=
  match e with Saved ms => Some ms | _ => None end.

Definition last_saved (t : list Event) : option (list (Message Value)) := last (omap saved_of t).

Definition still_saved (w w' : World) : Prop :=
  session w' = session w ∧ last_saved (trace w') = last_saved (trace w).

#[export] Instance still_saved_preorder : PreOrder still_saved.
Proof. split; [done|]. intros w1 w2 w3 [? ?] [? ?]. split; congruence. Qed.

Lemma still_saved_event w e : saved_of e = None → still_saved w (mkWorld (session w) (trace w ++ [e])).
Proof. intros He. split; [done|]. unfold last_saved. cbn [trace]. rewrite omap_app, omap_cons, He. by rewrite app_nil_r. Qed.

Lemma still_saved_calm w e : calm e = true → still_saved w (mkWorld (session w) (trace w ++ [e])).
Proof. intros He. apply still_saved_event. by destruct e. Qed.

(** The memory has been given the session as it is. *)
Definition up_to_date (w : World) : Prop := last_saved (trace w) = Some (session w).

Lemma still_saved_up_to_date w w' : still_saved w w' → up_to_date w → up_to_date w'.
Proof. unfold up_to_date. intros [-> ->]. done. Qed.

Lemma save_up_to_date w w' r : save_session w = Some (w', r) → up_to_date w' ∧ session w' = session w.
Proof.
  intros [= <- _]. split; [|done]. unfold up_to_date, last_saved. cbn [trace session].
  by rewrite omap_app, last_app.
Qed.

Definition broke (w : World) (e : OpenFangError) : Prop := (∃ msg, e = Internal msg) ∧ up_to_date w.

Lemma use_tool_result mode g c :
  returns (use_tool_by mode g c) (λ p, is_result c p.2) broke.
Proof.
  unfold AnyLoop.use_tool_by. destruct (guard_check _ _ _ g c) as [g' v].
  assert (returns (b ← run_tool_by mode v c; mret (g', b)) (λ p, is_result c p.2) broke) as Hrun.
  { eapply returns_bind; [|intros b Hb; by apply returns_ret].
    intros w w' r E. apply run_tool_result in E. by destruct r. }
  destruct v as [| |msg|msg]; [done|done|apply returns_ret; by eexists _, _|].
  intros w w' r E. apply bind_inv in E as [(? & E & _)|(x & w1 & E1 & E)]; [by apply safe_save in E|].
  apply bind_inv in E as [(? & E & _)|(y & w2 & E2 & E)]; [by apply safe_fire in E|].
  injection E as <- <-. split; [by eexists|].
  apply (still_saved_up_to_date w1); [by eapply (always_fire still_saved still_saved_calm)|by eapply save_up_to_date].
Qed.

Lemma use_tools_result mode g cs :
  returns (use_tools_by mode g cs) (λ p, Forall2 is_result cs p.2) broke.
Proof.
  revert g. induction cs as [|c cs IH]; intros g; cbn [AnyLoop.use_tools_by]; [by apply returns_ret|].
  eapply returns_bind; [apply use_tool_result|]. intros [g1 b] Hb.
  eapply returns_bind; [apply IH|]. intros [g2 bs] Hbs. apply returns_ret. by constructor.
Qed.

(** ** The loop guard over a run *)

Definition signature_of (e : Event) : option (str * Value) :=
  match e with Dispatched c => Some (call_name c, call_input c) | _ => None end.

(** The tools run, with their inputs. *)
Definition dispatched (t : list Event) : list (str * Value) := omap signature_of t.

Definition same_dispatched (w w' : World) : Prop := dispatched (trace w') = dispatched (trace w).

#[export] Instance same_dispatched_preorder : PreOrder same_dispatched.
Proof. split; [done|]. intros w1 w2 w3. unfold same_dispatched. congruence. Qed.

Lemma same_dispatched_inert w e : inert e = true → same_dispatched w (mkWorld (session w) (trace w ++ [e])).
Proof.
  intros He. unfold same_dispatched, dispatched. cbn [trace]. rewrite omap_app.
  destruct e; try done; simpl; by rewrite app_nil_r.
Qed.

Lemma same_dispatched_request w e : requesting e = true → same_dispatched w (mkWorld (session w) (trace w ++ [e])).
Proof.
  intros He. unfold same_dispatched, dispatched. cbn [trace]. rewrite omap_app.
  destruct e; try done; simpl; by rewrite app_nil_r.
Qed.

(** At most one tool was run, that of [c]. *)
Definition may_dispatch (c : Call) (w w' : World) : Prop :=
  ∃ b : bool, dispatched (trace w') = dispatched (trace w) ++ (if b then [(call_name c, call_input c)] else []).

Lemma execute_tool_dispatch c w w' r : execute_tool c w = Some (w', r) → may_dispatch c w w'.
Proof.
  assert (∀ w, may_dispatch c w w) as Hid by (intros w0; exists false; by rewrite app_nil_r).
  unfold AgentLoop.execute_tool. intros E.
  apply bind_inv in E as [(? & E & _)|(k & w1 & [= <- <-] & E)]; [done|].
  apply bind_inv in E as [(? & E & _)|(late & w1 & [= <- <-] & E)]; [done|].
  destruct (tool_gate _ _ _ _ _) as [gate|]; [|done].
  apply bind_inv in E as [(? & E & _)|(gate' & w1 & [= <- <-] & E)]; [done|].
  destruct (awaits_approval _ _ _ && _); [by injection E as <- _|].
  destruct gate as [s|[]]; [by injection E as <- _|].
  apply bind_inv in E as [(? & E & _)|(o & w1 & [= <- <-] & E)]; [done|].
  apply bind_inv in E as [(? & E & _)|(u & w1 & [= <- <-] & E)]; [done|].
  injection E as <- _. exists true. unfold dispatched. cbn [trace]. by rewrite omap_app.
Qed.

Lemma run_tool_dispatch mode v c : always (may_dispatch c) (run_tool_by mode v c).
Proof.
  apply (run_tool_frame same_dispatched same_dispatched_inert).
  - intros w1 w2 w3 E [b Hb]. exists b. by rewrite Hb, E.
  - intros w1 w2 w3 [b Hb] E. exists b. by rewrite E, Hb.
  - intros w w' E. exists false. by rewrite app_nil_r.
  - intros w w' r _. apply execute_tool_dispatch.
Qed.

Abbreviation guard_run := (LoopGuard.run json_to_string json_command sha256_hex).
Abbreviation guard_check := (AgentLoop.guard_check json_to_string json_command sha256_hex).

(** The calls the guard let through. *)
Definition let_through (vs : list (str * Value * LoopGuardVerdict)) : list (str * Value) :=
  (List.filter (λ x, passes x.2) vs).*1.

(** The guard [g] has checked the calls [ops], and [d] are tools run. *)
Record tracked (cfg : LoopGuardConfig) (ops : list (op (Json := Value))) (g : LoopGuard) (d : list (str * Value)) : Prop := {
  tracked_guard : g = (guard_run cfg ops).1;
  tracked_checks : Forall (λ o, is_check o = true) ops;
  tracked_bound : (Z.of_nat (length ops) ≤ Z.max 0 (global_circuit_breaker cfg))%Z;
  tracked_run : d `sublist_of` let_through (guard_run cfg ops).2
}.

Section tracking.
Context (cfg : LoopGuardConfig) (Hcfg : (global_circuit_breaker cfg < u32_max)%Z).

Lemma number_checks ops : Forall (λ o : op (Json := Value), is_check o = true) ops → number is_check ops = Z.of_nat (length ops).
Proof.
  unfold number. induction 1 as [|o ops Ho Hops IH]; [done|]. simpl. rewrite Ho. simpl. lia.
Qed.

Lemma tracked_step ops g d c g' v (b : bool) :
  tracked cfg ops g d → guard_check g c = (g', v) → is_circuit_break v = false → (b = true → passes v = true) →
  tracked cfg (ops ++ [Check (call_name c) (call_input c)]) g'
    (d ++ if b then [(call_name c, call_input c)] else []).
Proof.
  intros [-> Hc Hb Hs] E Hv Hp. unfold AgentLoop.guard_check in E.
  assert (guard_run cfg (ops ++ [Check (call_name c) (call_input c)])
          = (g', (guard_run cfg ops).2 ++ [(call_name c, call_input c, v)])) as Hrun
    by (by rewrite run_snoc; cbn [step]; rewrite E).
  split.
  - by rewrite Hrun.
  - apply Forall_app. split; [done|]. by repeat constructor.
  - pose proof (run_invariant json_to_string json_command sha256_hex cfg ops) as Hi.
    unfold counters_fit in Hi. destruct Hi as [I1 I2 _ _ _]; [unfold u32_max in *; lia|].
    apply check_spec in E as (_ & E2 & _ & _ & Hrest). rewrite I2, (number_checks _ Hc) in E2.
    rewrite wrapping_add_u32_small in E2 by (unfold u32_max in *; lia).
    rewrite length_app. simpl.
    destruct (Z.ltb_spec (global_circuit_breaker (config (guard_run cfg ops).1)) (total_calls g')) as [Hlt|Hge];
      rewrite I1 in *; [|lia]. destruct Hrest as [Hcb _]. rewrite Hcb in Hv. done.
  - rewrite Hrun. unfold let_through. cbn [snd]. rewrite List.filter_app, fmap_app. apply sublist_app; [done|].
    destruct b; [|apply sublist_nil_l]. simpl. rewrite Hp by done. done.
Qed.

(** What a computation that may return a guard keeps track of. *)
Definition keeps_track {A} (guard_of : A → option LoopGuard) (g : LoopGuard) (m : M A) : Prop :=
  ∀ w w' r d0 ops d,
    m w = Some (w', r) → tracked cfg ops g d → dispatched (trace w) = d0 ++ d →
    ∃ ops' g' d', tracked cfg ops' g' d' ∧ dispatched (trace w') = d0 ++ d' ∧
                  ∀ x g'', r = Ok x → guard_of x = Some g'' → g'' = g'.

Lemma use_tool_tracked mode g c : keeps_track (λ p, Some p.1) g (use_tool_by mode g c).
Proof.
  intros w w' r d0 ops d E Ht Hd. unfold AnyLoop.use_tool_by in E.
  destruct (guard_check g c) as [g' v] eqn:Ev.
  assert (∀ w', same_dispatched w w' → (∀ x, r = Ok x → x.1 = g' ∧ is_circuit_break v = false) →
    ∃ ops' g' d', tracked cfg ops' g' d' ∧ dispatched (trace w') = d0 ++ d' ∧
                  ∀ x g'', r = Ok x → Some x.1 = Some g'' → g'' = g') as Hquiet.
  { intros w1 Hw Hr. destruct r as [x|e].
    - destruct (Hr x eq_refl) as [Hx Hv]. exists (ops ++ [Check (call_name c) (call_input c)]), g', (d ++ []).
      split; [by apply (tracked_step _ g _ _ _ _ false Ht Ev)|]. split; [by rewrite app_nil_r, Hw|].
      intros y g'' [= <-] [= <-]. done.
    - exists ops, g, d. split; [done|]. split; [by rewrite Hw|]. done. }
  assert ((b ← run_tool_by mode v c; mret (g', b)) w = Some (w', r) → passes v = true →
    ∃ ops' g' d', tracked cfg ops' g' d' ∧ dispatched (trace w') = d0 ++ d' ∧
                  ∀ x g'', r = Ok x → Some x.1 = Some g'' → g'' = g') as Hrun.
  { clear E. intros E Hp. apply bind_inv in E as [(e & E & _)|(b & w1 & E1 & E)];
      [by apply run_tool_result in E|]. injection E as <- <-. apply run_tool_dispatch in E1 as [b' E1].
    exists (ops ++ [Check (call_name c) (call_input c)]), g', (d ++ if b' then [(call_name c, call_input c)] else []).
    split; [apply (tracked_step _ g _ _ _ v _ Ht Ev); [by destruct v|done]|].
    split; [by rewrite E1, Hd, <-app_assoc|]. by intros x g'' [= <-] [= <-]. }
  destruct v as [|msg|msg|msg]; [by apply Hrun|by apply Hrun| |].
  - injection E as <- <-. apply Hquiet; [done|]. by intros x [= <-].
  - apply bind_inv in E as [(? & E & _)|(x & w1 & E1 & E)]; [by apply safe_save in E|].
    apply bind_inv in E as [(? & E & _)|(y & w2 & E2 & E)]; [by apply safe_fire in E|].
    injection E as <- <-. apply Hquiet; [|done]. transitivity w1.
    + by eapply (always_save same_dispatched same_dispatched_inert).
    + by eapply (always_fire same_dispatched (inert_calm _ same_dispatched_inert)).
Qed.

Lemma use_tools_tracked mode g cs : keeps_track (λ p, Some p.1) g (use_tools_by mode g cs).
Proof.
  revert g. induction cs as [|c cs IH]; intros g w w' r d0 ops d E Ht Hd; cbn [AnyLoop.use_tools_by] in E.
  { injection E as <- <-. exists ops, g, d. split; [done|]. split; [done|]. by intros x g'' [= <-] [= <-]. }
  apply bind_inv in E as [(e & E & ->)|([g1 b] & w1 & E1 & E)].
  { destruct (use_tool_tracked _ _ _ _ _ _ _ _ _ E Ht Hd) as (ops' & g' & d' & ? & ? & _).
    exists ops', g', d'. split; [done|]. split; done. }
  destruct (use_tool_tracked _ _ _ _ _ _ _ _ _ E1 Ht Hd) as (ops' & g' & d' & Ht' & Hd' & Hg').
  specialize (Hg' (g1, b) g1 eq_refl eq_refl) as ->.
  apply bind_inv in E as [(e & E & ->)|([g2 bs] & w2 & E2 & E)].
  { destruct (IH _ _ _ _ _ _ _ E Ht' Hd') as (? & ? & ? & ? & ? & _). eexists _, _, _. by split_and!. }
  destruct (IH _ _ _ _ _ _ _ E2 Ht' Hd') as (ops2 & g2' & d2 & Ht2 & Hd2 & Hg2).
  specialize (Hg2 (g2, bs) g2 eq_refl eq_refl) as ->. injection E as <- <-.
  exists ops2, g2', d2. split; [done|]. split; [done|]. by intros x g'' [= <-] [= <-].
Qed.
End tracking.
End parts.

(** * A concrete environment for the agent loop

    A driver that follows a script, one answer a request, with a tool that
    needs approval, a hook that watches and a memory that takes everything:
    the theorems about the loop are applied to runs in it. JSON values are
    their text. *)

Abbreviation DemoEvent := (LoopEvent (Value := str) (Vec := unit)).
Abbreviation DemoResponse := (CompletionResponse (Value := str)).

Definition demo_request (e : DemoEvent) : bool := match e with Requested _ => true | _ => false end.

Definition demo_call (k : str) : ToolCall str := mkCall (lit "call_" ++ k) (lit "shell_exec") (lit "ls " ++ k).

(** An answer with tool calls, and one with text. *)
Definition demo_uses (cs : list (ToolCall str)) : DemoResponse :=
  mkResponse (call_block <$> cs) StopToolUse cs (mkUsage 10 5).

Definition demo_says (text : str) : DemoResponse :=
  mkResponse [TextBlock text] EndTurn [] (mkUsage 10 5).

Section demo.
Context (script : list DemoResponse).

Definition demo_driver (t : list DemoEvent) (n : nat) (r : CompletionRequest (Value := str))
    : result DemoResponse LlmError :=
  match script !! (length (List.filter demo_request t) + n) with
  | Some answer => Ok answer
  | None => Err (Parse (lit "end of script"))
  end.

Definition demo_hooks : HookRegistry (HookData (Value := str)) (list DemoEvent) :=
  registered [(BeforeToolCall, λ _ _, Ok tt)].

Definition demo_env : Environment (Value := str) (Vec := unit) (Uuid := nat) :=
  mkEnv (Some (λ _ _, Ok tt)) (λ _ _ _, Ok [lit "likes tea"]) (Some demo_hooks) true
    demo_driver demo_driver (λ _, Some (Approval.new Approval.default_policy, λ _ _ _, Ok true)) (λ _, false)
    (λ _ _, Some (Returned (Ok (lit "done")))) (λ _ _, Ok tt) (λ _ k, show_nat k).
End demo.

Definition demo_tool : ContextWindow.ToolDefinition (Value := str) :=
  ContextWindow.mkTool (lit "shell_exec") (lit "run a command") (lit "{}").

Definition demo_setup : Setup (Value := str) :=
  mkSetup (default_manifest (f64_lit 7 10)) (lit "list it") (lit "agent-1") [demo_tool] None.

(** A loop with the demonstration's environment. *)
Abbreviation demo_run script mode history :=
  (run_mode (H0 := ascii_case) (λ s, s) (λ s, Some s) (λ s, s) Some Some (demo_env script) demo_setup mode
    (mkWorld history [])).

Definition demo_script : list DemoResponse :=
  [demo_uses [demo_call (lit "a"); demo_call (lit "b")]; demo_says (lit "[[reply:42]] Two files.")].
