(* ===== verification/AgentLoopTheorems.v ===== *)
(** * What the agent loop guarantees

    Theorems about [run_agent_loop] and [run_agent_loop_streaming]: what a run
    leaves in the session and hands to the memory, which tools it may run and
    how often, and how many requests it makes. *)

From Stdlib Require Import Ascii ZArith Lia.
From stdpp Require Import base gmap strings list.
From S2P Require Import Prelude Strs Message ContextWindow TextToolCalls ReplyDirectives AgentTypes AgentQuota.
From S2P Require Import LlmErrors Cooldown ProviderCall LoopGuard Approval Hooks SessionRepair SessionRepairFacts SessionRepairTheorems AgentLoop AgentLoopFacts.

Section runs.
Context {Value Vec Uuid : Type} `{EqDecision Value} `{Countable Uuid} `{UnicodeCase}.
Context (json_to_string : Value → str) (json_command : Value → option str) (sha256_hex : str → str).
Context (schema_to_string : Value → option str) (parse_json : str → option Value).
Context (env : Environment (Value := Value) (Vec := Vec) (Uuid := Uuid)) (setup : Setup (Value := Value)).

Abbreviation World := (AgentLoop.World (Value := Value) (Vec := Vec)).
Abbreviation M := (AgentLoop.M (Value := Value) (Vec := Vec)).
Abbreviation Event := (LoopEvent (Value := Value) (Vec := Vec)).
Abbreviation Msg := (Message Value).
Abbreviation Response := (CompletionResponse (Value := Value)).
Abbreviation Loop := (AgentLoop.Loop (Value := Value)).
Abbreviation tool_turn_by := (tool_turn_by json_to_string json_command sha256_hex env setup).
Abbreviation end_turn := (end_turn env setup).
Abbreviation max_tokens_turn := (max_tokens_turn env setup).
Abbreviation iterate_by := (iterate_by json_to_string json_command sha256_hex schema_to_string parse_json env setup).
Abbreviation run_loop_by := (run_loop_by json_to_string json_command sha256_hex schema_to_string parse_json env setup).
Abbreviation run_mode := (run_mode json_to_string json_command sha256_hex schema_to_string parse_json env setup).
Abbreviation run_by := (run_by json_to_string json_command sha256_hex schema_to_string parse_json env setup).
Abbreviation promote := (promote_text_calls parse_json env setup).
Abbreviation last_saved := (AgentLoopFacts.last_saved (Value := Value) (Vec := Vec)).

Lemma by_mode mode w : run_mode mode w = run_by mode w.
Proof. apply run_mode_by. Qed.

(** ** One round *)

Definition driver_of (mode : Mode) : list Event → nat → CompletionRequest → result Response LlmError :=
  match mode with Buffered => complete env | Streaming => stream env end.

Definition is_request (e : Event) : bool := match e with Requested _ => true | _ => false end.

Definition requested (t : list Event) : nat := length (List.filter is_request t).

Lemma requested_app t t' : requested (t ++ t') = requested t + requested t'.
Proof. unfold requested. by rewrite List.filter_app, length_app. Qed.

Lemma requested_attempts r n naps : requested (attempt_events r n naps) = n.
Proof. revert naps. induction n as [|n IH]; intros [|ms naps]; cbn; auto; f_equal; apply IH. Qed.

(** A call makes at most four requests and returns an answer to one. *)
Lemma call_model_answer mode req w w' r :
  call_model_by env setup mode req w = Some (w', r) →
  requested (trace w') ≤ requested (trace w) + 4 ∧
  match r with
  | Ok x => ∃ n, driver_of mode (trace w) n req = Ok x
  | Err e => ∃ msg, e = LlmDriver msg
  end.
Proof.
  unfold call_model_by, called_model. intros E.
  apply bind_inv in E as [(? & E & _)|(called & w1 & E1 & E)]; [done|]. injection E1 as <- Ec.
  apply bind_inv in E as [(? & E & _)|(u & w1 & [= <- <-] & E)]; [done|].
  assert (∃ k, k ≤ 3 ∧ requests called = k + 1 ∧
    match driver_of mode (trace w) k req with
    | Ok x => ProviderCall.outcome called = Ok x
    | Err _ => is_ok (ProviderCall.outcome called) = false
    end) as (k & Hk & Hr & Ho).
  { set (driver := λ n, driver_of mode (trace w) n req).
    destruct (settles_exists driver 0 ProviderCall.MAX_RETRIES) as [k Hk]. exists k.
    assert (called = attempts (brk := cooldown_breaker Cooldown.default_config) (λ _ : nat, (0, 0)%Z) driver
              (Some (AgentTypes.provider (m_model (manifest setup)))) ProviderCall.MAX_RETRIES None 0 []) as ->.
    { rewrite <-Ec. by destruct mode. }
    destruct (attempts_ends (brk := cooldown_breaker Cooldown.default_config) (λ _ : nat, (0, 0)%Z) driver
                (Some (AgentTypes.provider (m_model (manifest setup)))) None _ _ [] k Hk) as [[Hr Ho] _].
    destruct Hk as [Hk _]. unfold ProviderCall.MAX_RETRIES in Hk. split; [lia|]. split; [done|].
    unfold driver in Ho. destruct (driver_of mode (trace w) k req); apply Ho. }
  clear Ec. assert (requested (trace w') ≤ requested (trace w) + 4) as Hreq.
  { assert (trace w' = trace w ++ attempt_events req (requests called) (slept called)) as ->
      by (destruct (ProviderCall.outcome called); by injection E as <- _).
    rewrite requested_app, requested_attempts. lia. }
  destruct (driver_of mode (trace w) k req) as [x|e] eqn:Ed.
  - rewrite Ho in E. injection E as <- <-. eauto.
  - destruct (ProviderCall.outcome called); [done|]. injection E as <- <-. eauto.
Qed.

Definition turn_of (mode : Mode) (iteration : Z) (l : Loop) (r : Response) : M (Loop + AgentLoopResult) :=
  match stop_reason r with
  | EndTurn | StopSequence => end_turn iteration l r
  | StopToolUse => tool_turn_by mode l r
  | MaxTokens => max_tokens_turn iteration l r
  end.

(** What a step does to the trace but for running tools. *)
Record inert_step (n : nat) (w w' : World) : Prop := {
  is_session : session w' = session w;
  is_dispatched : same_dispatched w w';
  is_requested : requested (trace w') ≤ requested (trace w) + n
}.

Definition calm_step : World → World → Prop := inert_step 0.

#[local] Instance calm_step_preorder : PreOrder calm_step.
Proof.
  split; [split; [done..|lia]|]. intros w1 w2 w3 [] []. split; [congruence|by etrans|lia].
Qed.

Lemma calm_step_event w e : calm e = true ∨ (∃ s, e = Streamed s) ∨ (∃ ms, e = Saved ms) →
  calm_step w (mkWorld (session w) (trace w ++ [e])).
Proof.
  intros He. split; [done| |].
  - apply same_dispatched_inert. destruct He as [?|[[? ->]|[? ->]]]; [by destruct e|done..].
  - cbn [trace]. rewrite requested_app. destruct He as [?|[[? ->]|[? ->]]]; [destruct e|..]; try done; simpl; lia.
Qed.

Lemma calm_step_calm w e : calm e = true → calm_step w (mkWorld (session w) (trace w ++ [e])).
Proof. intros He. apply calm_step_event. by left. Qed.

Lemma calm_step_warn mode s : always calm_step (warn_context_by mode s : M unit).
Proof.
  unfold warn_context_by, warn_context, send_event. repeat case_match; try (apply always_ret; apply _);
    intros w w' r [= <- _]; apply calm_step_event; eauto.
Qed.

Lemma calm_step_save : always calm_step (save_session env).
Proof. intros w w' r [= <- _]. apply calm_step_event. eauto. Qed.

(** A round, up to the response. *)
Lemma iterate_inv mode system it l w w' r :
  iterate_by mode system it l w = Some (w', r) →
  ∃ w1, inert_step 4 w w1 ∧
    ((∃ e, r = Err (LlmDriver e) ∧ w' = w1) ∨
     ∃ ms answer t0 t n req u,
       driver_of mode t0 n req = Ok answer ∧
       turn_of mode it (mkLoop ms u (loop_guard l) (consecutive_max_tokens l)) (promote t answer) w1
       = Some (w', r)).
Proof.
  unfold AnyLoop.iterate_by. intros E.
  apply bind_inv in E as [(? & E & _)|([ms rec] & w1 & E1 & E)]; [by apply safe_or_panic in E|].
  assert (w1 = w) as -> by (unfold or_panic in E1; destruct (recover_from_overflow _ _ _ _ _); by simplify_eq/=).
  apply bind_inv in E as [(? & E & _)|(u1 & w2 & E2 & E)]; [by apply safe_warn in E|].
  apply bind_inv in E as [(? & E & _)|([ms' k] & w3 & E3 & E)]; [by apply safe_or_panic in E|].
  assert (w3 = w2) as -> by (unfold or_panic in E3; destruct (apply_context_guard _ _); by simplify_eq/=).
  apply bind_inv in E as [(? & E & _)|(u2 & w3 & E4 & E)]; [by apply safe_notify in E|].
  assert (calm_step w w3) as Hc.
  { transitivity w2; [by eapply calm_step_warn|by eapply (always_notify env calm_step calm_step_calm)]. }
  assert (∀ w4 x, call_model_by env setup mode (request_of setup system ms') w3 = Some (w4, x) → inert_step 4 w w4) as Hs.
  { intros w4 x E5. destruct Hc as [Hc1 Hc2 Hc3]. pose proof (call_model_answer _ _ _ _ _ E5) as [Hq _]. split.
    - transitivity (session w3); [|done]. by eapply (always_call env setup same_session _ _ (λ _ _ _, eq_refl)).
    - etrans; [exact Hc2|]. by eapply (always_call env setup same_dispatched _ _ same_dispatched_request).
    - lia. }
  apply bind_inv in E as [(e & E & ->)|(answer & w4 & E5 & E)].
  - exists w'. split; [by eapply Hs|]. left. apply call_model_answer in E as [_ [msg ->]]. eauto.
  - exists w4. split; [by eapply Hs|]. right. apply call_model_answer in E5 as [_ [n Hn]].
    apply bind_inv in E as [(? & E & _)|(resp & w5 & [= <- <-] & E)]; [done|]. eauto 12.
Qed.

(** ** The session after a run *)

(** Drivers list the tool calls of a response as they are in its content. *)
Definition faithful_driver : Prop :=
  ∀ mode t n req r, driver_of mode t n req = Ok r → stop_reason r = StopToolUse →
    omap tool_use_id (resp_content r) = call_id <$> resp_tool_calls r.

(** Messages a round adds: tool uses and, in the next message, exactly their
    results in the same order; or a cut answer and the request to go on. *)
Inductive is_turn : list Msg → Prop :=
| turn_tools content blocks :
    omap tool_use_id content = omap tool_result_id blocks →
    Forall (λ b, is_Some (tool_result_id b)) blocks →
    is_turn [mkMessage Assistant (Blocks content); mkMessage User (Blocks blocks)]
| turn_more text : is_turn [assistant_text text; user_text (lit "Please continue.")].

(** How a run that has added its turns to the history [h] ends: with the
    session and the result it leaves. *)
Inductive finished (h : list Msg) : list Msg → result AgentLoopResult OpenFangError → Prop :=
| finished_silent s res :
    is_silent res = true → response res = [] →
    s = h ++ [assistant_text (lit "[no reply needed]")] → finished h s (Ok res)
| finished_reply s res :
    is_silent res = false → reply_directives res = default_directives → trim (response res) ≠ [] →
    s = prune_heartbeat_turns (h ++ [assistant_text (response res)]) 10 → finished h s (Ok res)
| finished_partial s res :
    is_silent res = false → reply_directives res = default_directives →
    s = h ++ [assistant_text (response res)] → finished h s (Ok res)
| finished_unsaved s e :
    (s = h ++ [assistant_text (lit "[no reply needed]")] ∨
     ∃ text, s = prune_heartbeat_turns (h ++ [assistant_text text]) 10) →
    finished h s (Err (Memory e))
| finished_broken content msg : finished h (h ++ [mkMessage Assistant (Blocks content)]) (Err (Internal msg))
| finished_no_answer e : finished h h (Err (LlmDriver e))
| finished_exceeded n : finished h h (Err (MaxIterationsExceeded n)).

Definition settled (h : list Msg) (w : World) (r : result AgentLoopResult OpenFangError) : Prop :=
  finished h (session w) r ∧ ((∀ e, r ≠ Err (LlmDriver e)) → up_to_date w).

Lemma promote_faithful mode t0 n req answer t :
  faithful_driver → driver_of mode t0 n req = Ok answer → stop_reason (promote t answer) = StopToolUse →
  omap tool_use_id (resp_content (promote t answer)) = call_id <$> resp_tool_calls (promote t answer).
Proof.
  intros Hf Hd. specialize (Hf _ _ _ _ _ Hd). unfold promote_text_calls.
  assert (∀ calls : list (ToolCall Value), omap tool_use_id (call_block <$> calls) = call_id <$> calls) as Hc.
  { induction calls as [|c calls IH]; [done|]. rewrite !fmap_cons, omap_cons. cbn [call_block tool_use_id option_list app].
    by rewrite IH. }
  repeat case_match; cbn [stop_reason resp_content resp_tool_calls]; auto; intros ?; congruence.
Qed.

Lemma results_ids (calls : list (ToolCall Value)) bs :
  Forall2 is_result calls bs →
  omap tool_result_id bs = call_id <$> calls ∧ Forall (λ b, is_Some (tool_result_id b)) bs.
Proof.
  induction 1 as [|c b calls bs (text & e & ->) _ [IH1 IH2]]; [by split|].
  rewrite omap_cons, fmap_cons, IH1. split; [done|]. by constructor.
Qed.

(** Saving, and failing if it fails. *)
Lemma save_or_fail_inv w w' r :
  save_or_fail env w = Some (w', r) →
  up_to_date w' ∧ session w' = session w ∧ (r = Ok tt ∨ ∃ e, r = Err (Memory e)).
Proof.
  unfold save_or_fail. intros E. apply bind_inv in E as [(? & E & _)|(x & w1 & E1 & E)]; [by apply safe_save in E|].
  apply save_up_to_date in E1 as [Hu Hs]. destruct x as [[]|e]; injection E as <- <-; eauto.
Qed.

Lemma push_inv (m : Msg) (w w' : World) r : push m w = Some (w', r) → r = Ok tt ∧ session w' = session w ++ [m] ∧ trace w' = trace w.
Proof. by intros [= <- <-]. Qed.

Lemma tool_turn_session mode l r w w' o :
  omap tool_use_id (resp_content r) = call_id <$> resp_tool_calls r →
  tool_turn_by mode l r w = Some (w', o) →
  match o with
  | Ok (inl _) => ∃ t, is_turn t ∧ session w' = session w ++ t
  | Ok (inr res) => False
  | Err e => settled (session w) w' (Err e)
  end.
Proof.
  intros Hids E. unfold AnyLoop.tool_turn_by in E.
  apply bind_inv in E as [(? & E & _)|(u & w1 & (_ & Hs1 & _)%push_inv & E)]; [by apply push_inv in E as [? _]|].
  apply bind_inv in E as [(e & E & ->)|([g bs] & w2 & E2 & E)].
  - pose proof (use_tools_result _ _ _ _ _ _ _ _ _ _ _ E) as [[msg ->] Hup].
    eapply (always_use_tools _ _ _ _ _ same_session) in E; [|by intros]. split; [|done].
    rewrite E, Hs1. apply finished_broken.
  - pose proof (use_tools_result _ _ _ _ _ _ _ _ _ _ _ E2) as Hbs. cbn [snd] in Hbs. apply results_ids in Hbs as [Hb1 Hb2].
    eapply (always_use_tools _ _ _ _ _ same_session) in E2; [|by intros].
    apply bind_inv in E as [(? & E & _)|(u2 & w3 & (_ & Hs3 & _)%push_inv & E)]; [by apply push_inv in E as [? _]|].
    apply bind_inv in E as [(? & E & _)|(x & w4 & E4 & E)]; [by apply safe_save in E|].
    injection E as <- <-. apply save_up_to_date in E4 as [_ Hs4].
    eexists. split; [|rewrite Hs4, Hs3, E2, Hs1, <-app_assoc; reflexivity]. constructor; [|done]. by rewrite Hb1.
Qed.

Lemma max_tokens_turn_session it l r w w' o :
  max_tokens_turn it l r w = Some (w', o) →
  match o with
  | Ok (inl _) => ∃ t, is_turn t ∧ session w' = session w ++ t
  | Ok (inr res) => settled (session w) w' (Ok res)
  | Err e => False
  end.
Proof.
  unfold AgentLoop.max_tokens_turn. case_match; intros E.
  - apply bind_inv in E as [(? & E & _)|(u & w1 & (_ & Hs1 & _)%push_inv & E)]; [by apply push_inv in E as [? _]|].
    apply bind_inv in E as [(? & E & _)|(x & w2 & E2 & E)]; [by apply safe_save in E|].
    apply save_up_to_date in E2 as [Hu Hs2].
    apply bind_inv in E as [(? & E & _)|(y & w3 & E3 & E)]; [by apply safe_fire in E|].
    injection E as <- <-. eapply (always_fire env setup still_saved still_saved_calm) in E3. split.
    + destruct E3 as [-> _]. by apply finished_partial; [..|rewrite Hs2, Hs1].
    + intros _. by eapply still_saved_up_to_date.
  - apply bind_inv in E as [(? & E & _)|(u & w1 & (_ & Hs1 & _)%push_inv & E)]; [by apply push_inv in E as [? _]|].
    apply bind_inv in E as [(? & E & _)|(u2 & w2 & (_ & Hs2 & _)%push_inv & E)]; [by apply push_inv in E as [? _]|].
    injection E as <- <-. eexists. split; [|rewrite Hs2, Hs1, <-app_assoc; reflexivity]. constructor.
Qed.

Lemma fallback_not_blank it : trim (fallback_text it) ≠ [].
Proof. unfold fallback_text. case_match; by vm_compute. Qed.

Lemma end_turn_session it l r w w' o :
  end_turn it l r w = Some (w', o) →
  match o with
  | Ok (inl _) => session w' = session w
  | Ok (inr res) => settled (session w) w' (Ok res)
  | Err e => settled (session w) w' (Err e)
  end.
Proof.
  unfold AgentLoop.end_turn. destruct (parse_directives (response_text r)) as [text d].
  destruct (no_reply text d); [|case_match]; intros E; [|by injection E as <- <-|].
  - apply bind_inv in E as [(? & E & _)|(u & w1 & (_ & Hs1 & _)%push_inv & E)]; [by apply push_inv in E as [? _]|].
    apply bind_inv in E as [(e & E & ->)|(u2 & w2 & E2 & E)].
    + apply save_or_fail_inv in E as (Hu & Hs & [?|[e' [= ->]]]); [done|].
      split; [|done]. apply finished_unsaved. left. by rewrite Hs, Hs1.
    + apply save_or_fail_inv in E2 as (Hu & Hs & _). injection E as <- <-.
      split; [|done]. by apply finished_silent; [..|rewrite Hs, Hs1].
  - set (final := if is_empty (trim text) then fallback_text it else text) in *.
    assert (trim final ≠ []) as Hfinal.
    { unfold final. destruct (trim text) as [|c t] eqn:Et; [apply fallback_not_blank|]. simpl. by rewrite Et. }
    apply bind_inv in E as [(? & E & _)|(u & w1 & (_ & Hs1 & _)%push_inv & E)]; [by apply push_inv in E as [? _]|].
    apply bind_inv in E as [(? & E & _)|(u2 & w2 & [= <- _] & E)]; [done|].
    apply bind_inv in E as [(e & E & ->)|(u3 & w3 & E3 & E)].
    + apply save_or_fail_inv in E as (Hu & Hs & [?|[e' [= ->]]]); [done|].
      split; [|done]. apply finished_unsaved. right. eexists. rewrite Hs. cbn [session]. by rewrite Hs1.
    + apply save_or_fail_inv in E3 as (Hu & Hs & _). cbn [session] in Hs.
      apply bind_inv in E as [(? & E & _)|(u4 & w4 & E4 & E)]; [by apply safe_remember in E|].
      apply bind_inv in E as [(? & E & _)|(u5 & w5 & E5 & E)]; [by apply safe_notify in E|].
      apply bind_inv in E as [(? & E & _)|(u6 & w6 & E6 & E)]; [by apply safe_fire in E|].
      injection E as <- <-.
      assert (still_saved w3 w6) as Hst.
      { transitivity w4; [by eapply (always_remember env still_saved still_saved_calm)|].
        transitivity w5; [by eapply (always_notify env still_saved still_saved_calm)|].
        by eapply (always_fire env setup still_saved still_saved_calm). }
      split; [|intros _; by eapply still_saved_up_to_date].
      destruct Hst as [-> _]. by apply finished_reply; [..|rewrite Hs, Hs1].
Qed.

Lemma turn_session mode it l r w w' o :
  (stop_reason r = StopToolUse → omap tool_use_id (resp_content r) = call_id <$> resp_tool_calls r) →
  turn_of mode it l r w = Some (w', o) →
  match o with
  | Ok (inl _) => ∃ ts, Forall is_turn ts ∧ length ts ≤ 1 ∧ session w' = session w ++ concat ts
  | Ok (inr res) => settled (session w) w' (Ok res)
  | Err e => settled (session w) w' (Err e)
  end.
Proof.
  intros Hids E. unfold turn_of in E.
  assert (end_turn it l r w = Some (w', o) →
    match o with
    | Ok (inl _) => ∃ ts, Forall is_turn ts ∧ length ts ≤ 1 ∧ session w' = session w ++ concat ts
    | Ok (inr res) => settled (session w) w' (Ok res)
    | Err e => settled (session w) w' (Err e)
    end) as Hend.
  { intros Eo%end_turn_session. destruct o as [[l'|res]|e]; [|done..].
    exists []. split; [constructor|]. split; [simpl; lia|]. by rewrite app_nil_r. }
  destruct (stop_reason r); [by apply Hend| | |by apply Hend].
  - apply tool_turn_session in E; [|by apply Hids]. destruct o as [[l'|res]|e]; [|done..].
    destruct E as (t & Ht & Hs). exists [t]. split; [by constructor|]. split; [simpl; lia|].
    by rewrite Hs; simpl; rewrite app_nil_r.
  - apply max_tokens_turn_session in E. destruct o as [[l'|res]|e]; [|done..].
    destruct E as (t & Ht & Hs). exists [t]. split; [by constructor|]. split; [simpl; lia|].
    by rewrite Hs; simpl; rewrite app_nil_r.
Qed.

(** The number of rounds a result reports. *)
Lemma returns_skip {A B} (m : M A) (k : A → M B) P :
  (∀ x, returns (k x) P (λ _ _, True)) → returns (m ≫= k) P (λ _ _, True).
Proof. intros Hk w w' r [(e & _ & ->)|(x & w1 & _ & Hr)]%bind_inv; [done|]. by apply (Hk _ _ _ _ Hr). Qed.

Definition counted (it : Z) (o : Loop + AgentLoopResult) : Prop :=
  match o with inl _ => True | inr res => iterations res = (it + 1)%Z end.

Lemma turn_counted mode it l r : returns (turn_of mode it l r) (counted it) (λ _ _, True).
Proof.
  unfold turn_of, AgentLoop.end_turn, AnyLoop.tool_turn_by, AgentLoop.max_tokens_turn.
  repeat first [apply returns_ret; done|apply returns_skip; intros ?|progress case_match].
Qed.

Lemma run_loop_session mode system n it l w w' r :
  faithful_driver → run_loop_by mode system n it l w = Some (w', r) →
  ∃ turns, Forall is_turn turns ∧ length turns ≤ n ∧ settled (session w ++ concat turns) w' r ∧
    ∀ res, r = Ok res → (it + 1 ≤ iterations res ≤ it + Z.of_nat n)%Z.
Proof.
  intros Hf. revert it l w. induction n as [|n IH]; intros it l w E; cbn [AnyLoop.run_loop_by] in E.
  - apply bind_inv in E as [(? & E & _)|(x & w2 & E2 & E)]; [by apply safe_save in E|].
    apply save_up_to_date in E2 as [Hu Hs2].
    apply bind_inv in E as [(? & E & _)|(y & w3 & E3 & E)]; [by apply safe_fire in E|].
    injection E as <- <-. eapply (always_fire env setup still_saved still_saved_calm) in E3.
    exists []. split; [constructor|]. split; [simpl; lia|]. split; [|done]. rewrite app_nil_r. split.
    + destruct E3 as [-> _]. rewrite Hs2. constructor.
    + intros _. by eapply still_saved_up_to_date.
  - assert (∀ w1 r', iterate_by mode system it l w = Some (w1, r') →
      match r' with
      | Ok (inl _) => ∃ ts, Forall is_turn ts ∧ length ts ≤ 1 ∧ session w1 = session w ++ concat ts
      | Ok (inr res) => settled (session w) w1 (Ok res) ∧ iterations res = (it + 1)%Z
      | Err e => settled (session w) w1 (Err e)
      end) as Hit.
    { intros w1 r' (w0 & [Hs0 _ _] & [(e & -> & ->)|(ms & answer & t0 & t & k & req & u & Hd & Et)])%iterate_inv.
      - split; [rewrite Hs0; constructor|]. intros Hne. by destruct (Hne e).
      - pose proof (turn_counted _ _ _ _ _ _ _ Et) as Hcount. apply turn_session in Et; [|by eapply promote_faithful].
        rewrite <-Hs0. by destruct r' as [[l'|res]|e]. }
    apply bind_inv in E as [(e & E & ->)|(o & w1 & E1 & E)].
    + apply Hit in E. exists []. split; [constructor|]. split; [simpl; lia|]. by rewrite app_nil_r.
    + apply Hit in E1. destruct o as [l'|res].
      * destruct E1 as (ts & Hts & Hlen & Hs). apply IH in E as (turns & Hturns & Hl & Hset & Hr).
        exists (ts ++ turns). split; [by apply Forall_app|]. split; [rewrite length_app; lia|].
        split; [by rewrite concat_app, app_assoc, <-Hs|]. intros res Hres. apply Hr in Hres. lia.
      * destruct E1 as [Hset Hi]. injection E as <- <-. exists []. split; [constructor|]. split; [simpl; lia|].
        split; [by rewrite app_nil_r|]. intros res' [= <-]. lia.
Qed.


(** ** Which tools may run *)

Abbreviation event_ok := (AgentLoopFacts.event_ok env setup).
Abbreviation lawful := (grows event_ok).

Lemma lawful_event (w : World) e : event_ok (trace w) e → lawful w (mkWorld (session w) (trace w ++ [e])).
Proof.
  intros He. exists [e]. split; [done|]. intros [|x ev1] e' ev2 E; [|by destruct ev1].
  injection E as <- _. by rewrite app_nil_r.
Qed.

Lemma lawful_inert (w : World) e : inert e = true → lawful w (mkWorld (session w) (trace w ++ [e])).
Proof. intros He. apply lawful_event. by destruct e. Qed.

Lemma lawful_calm (w : World) e : calm e = true → lawful w (mkWorld (session w) (trace w ++ [e])).
Proof. intros He. apply lawful_event. by destruct e. Qed.

Lemma lawful_request (w : World) e : requesting e = true → lawful w (mkWorld (session w) (trace w ++ [e])).
Proof. intros He. apply lawful_event. by destruct e. Qed.

Lemma lawful_push m : always lawful (push m).
Proof. apply grows_update_session. Qed.

Lemma lawful_fire e d : always lawful (fire_hook env setup e d).
Proof. apply (always_fire env setup lawful lawful_calm). Qed.

Lemma lawful_notify p : always lawful (notify env p).
Proof. apply (always_notify env lawful lawful_calm). Qed.

Lemma lawful_remember t : always lawful (remember env t).
Proof. apply (always_remember env lawful lawful_calm). Qed.

Lemma lawful_recall : always lawful (recall_memories env setup).
Proof. apply (always_recall env setup lawful lawful_calm). Qed.

Lemma lawful_save : always lawful (save_session env).
Proof. apply (always_save env lawful lawful_inert). Qed.

Lemma lawful_save_or_fail : always lawful (save_or_fail env).
Proof. apply (always_save_or_fail env lawful lawful_inert). Qed.

Lemma lawful_warn mode s : always lawful (warn_context_by mode s : M unit).
Proof. apply (always_warn lawful lawful_inert). Qed.

Lemma lawful_call mode r : always lawful (call_model_by env setup mode r).
Proof. apply (always_call env setup lawful _ _ lawful_request). Qed.

Lemma lawful_tools mode g cs :
  always lawful (use_tools_by json_to_string json_command sha256_hex env setup mode g cs).
Proof. apply (always_use_tools _ _ _ env setup lawful). intros w e _. apply lawful_event. Qed.

#[local] Hint Resolve lawful_push lawful_fire lawful_notify lawful_remember lawful_recall lawful_save
  lawful_save_or_fail lawful_warn lawful_call lawful_tools grows_update_session : openfang.

Lemma lawful_iterate mode system it l : always lawful (iterate_by mode system it l).
Proof.
  unfold AnyLoop.iterate_by, AgentLoop.end_turn, AnyLoop.tool_turn_by, AgentLoop.max_tokens_turn. walk.
Qed.

#[local] Hint Resolve lawful_iterate : openfang.

Lemma lawful_loop mode system n it l : always lawful (run_loop_by mode system n it l).
Proof. revert it l. induction n as [|n IH]; intros it l; cbn [AnyLoop.run_loop_by]; walk. Qed.

#[local] Hint Resolve lawful_loop : openfang.

Lemma lawful_run mode : always lawful (run_mode mode).
Proof. intros w w' r E. rewrite by_mode in E. revert w w' r E. change (always lawful (run_by mode)). unfold AnyLoop.run_by. walk. Qed.

(** C2: A tool is run only with permission: it is one of the tools offered to
    the model, if it needs approval then approval was given in time, and if
    there are hooks then they were asked immediately before and none of them
    refused. *)
Theorem tools_permitted mode w w' r t1 c t2 :
  run_mode mode w = Some (w', r) → trace w' = t1 ++ Dispatched c :: t2 → length (trace w) ≤ length t1 →
  permitted env setup t1 c.
Proof.
  intros (ev & E & G)%lawful_run Et Hl. rewrite E in Et.
  apply app_eq_inv in Et as [(k & Hk & Hev)|(k & -> & Hev)].
  - assert (k = []) as -> by (apply (f_equal length) in Hk; rewrite length_app in Hk; destruct k; simpl in *; [done|lia]).
    rewrite app_nil_r in Hk. specialize (G [] (Dispatched c) t2 (eq_sym Hev)). by rewrite app_nil_r, Hk in G.
  - apply (G k (Dispatched c) t2 Hev).
Qed.

(** ** How many *)

(** Rounds without tools. *)

Definition same_requests (w w' : World) : Prop := requested (trace w') = requested (trace w).

#[local] Instance same_requests_preorder : PreOrder same_requests.
Proof. split; [done|]. intros w1 w2 w3. unfold same_requests. congruence. Qed.

Definition quiet_step (w w' : World) : Prop := same_dispatched w w' ∧ same_requests w w'.

#[local] Instance quiet_step_preorder : PreOrder quiet_step.
Proof. split; [done|]. intros w1 w2 w3 [? ?] [? ?]. split; by etrans. Qed.

Lemma quiet_inert (w : World) e : inert e = true → quiet_step w (mkWorld (session w) (trace w ++ [e])).
Proof.
  intros He. split; [by apply same_dispatched_inert|]. unfold same_requests. cbn [trace].
  rewrite requested_app. destruct e; try done; simpl; lia.
Qed.

Lemma quiet_update f : always quiet_step (update_session f : M unit).
Proof. by intros w w' r [= <- _]. Qed.

#[local] Hint Extern 1 (always quiet_step (push _)) => (apply quiet_update) : openfang.
#[local] Hint Extern 1 (always quiet_step (update_session _)) => (apply quiet_update) : openfang.
#[local] Hint Extern 1 (always quiet_step (fire_hook _ _ _ _)) =>
  (apply (always_fire env setup quiet_step (inert_calm _ quiet_inert))) : openfang.
#[local] Hint Extern 1 (always quiet_step (notify _ _)) =>
  (apply (always_notify env quiet_step (inert_calm _ quiet_inert))) : openfang.
#[local] Hint Extern 1 (always quiet_step (remember _ _)) =>
  (apply (always_remember env quiet_step (inert_calm _ quiet_inert))) : openfang.
#[local] Hint Extern 1 (always quiet_step (save_session _)) =>
  (apply (always_save env quiet_step quiet_inert)) : openfang.
#[local] Hint Extern 1 (always quiet_step (save_or_fail _)) =>
  (apply (always_save_or_fail env quiet_step quiet_inert)) : openfang.

Lemma quiet_end it l r : always quiet_step (end_turn it l r).
Proof. unfold AgentLoop.end_turn. walk. Qed.

Lemma quiet_max it l r : always quiet_step (max_tokens_turn it l r).
Proof. unfold AgentLoop.max_tokens_turn. walk. Qed.

Definition same_guard (l : Loop) (o : Loop + AgentLoopResult) : Prop :=
  match o with inl l' => loop_guard l' = loop_guard l | inr _ => True end.

Lemma end_guard it l r : returns (end_turn it l r) (same_guard l) (λ _ _, True).
Proof.
  unfold AgentLoop.end_turn.
  repeat first [apply returns_ret; done|apply returns_skip; intros ?|progress case_match].
Qed.

Lemma max_guard it l r : returns (max_tokens_turn it l r) (same_guard l) (λ _ _, True).
Proof.
  unfold AgentLoop.max_tokens_turn.
  repeat first [apply returns_ret; done|apply returns_skip; intros ?|progress case_match].
Qed.

Section bounds.
Context (cfg : LoopGuardConfig) (Hcfg : (global_circuit_breaker cfg < u32_max)%Z).

Abbreviation tracked := (AgentLoopFacts.tracked json_to_string json_command sha256_hex cfg).

(** The relation of [tracked] worlds, with at most [n] requests more. *)
Definition follows (d0 : list (str * Value)) (n : nat) (w w' : World) (g' : LoopGuard) : Prop :=
  requested (trace w') ≤ requested (trace w) + n ∧
  ∃ ops' d', tracked ops' g' d' ∧ dispatched (trace w') = d0 ++ d'.

Lemma same_requests_tools mode g cs w w' r :
  use_tools_by json_to_string json_command sha256_hex env setup mode g cs w = Some (w', r) →
  same_requests w w'.
Proof.
  eapply (always_use_tools _ _ _ env setup same_requests). intros w0 e He _.
  unfold same_requests. cbn [trace]. rewrite requested_app. destruct e; try done; simpl; lia.
Qed.

Lemma turn_follows mode it l r w w' o d0 ops d :
  turn_of mode it l r w = Some (w', o) → tracked ops (loop_guard l) d → dispatched (trace w) = d0 ++ d →
  ∃ g', follows d0 0 w w' g' ∧ ∀ l', o = Ok (inl l') → loop_guard l' = g'.
Proof.
  intros E Ht Hd. unfold turn_of in E.
  assert (∀ m : M (Loop + AgentLoopResult), always quiet_step m → returns m (same_guard l) (λ _ _, True) →
    m w = Some (w', o) → ∃ g', follows d0 0 w w' g' ∧ ∀ l', o = Ok (inl l') → loop_guard l' = g') as Hq.
  { intros m Hm Hg Em. pose proof (Hm _ _ _ Em) as [Hd1 Hr1]. apply Hg in Em. exists (loop_guard l). split.
    - split; [rewrite Hr1; lia|]. exists ops, d. split; [done|]. by rewrite Hd1.
    - intros l' ->. done. }
  destruct (stop_reason r); [eapply Hq, E; [apply quiet_end|apply end_guard]| | |eapply Hq, E; [apply quiet_end|apply end_guard]].
  2: { eapply Hq, E; [apply quiet_max|apply max_guard]. }
  clear Hq. unfold AnyLoop.tool_turn_by in E.
  apply bind_inv in E as [(? & E & _)|(u & w1 & (_ & _ & Ht1)%push_inv & E)]; [by apply push_inv in E as [? _]|].
  rewrite <-Ht1 in Hd. unfold follows. rewrite <-Ht1.
  apply bind_inv in E as [(e & E & ->)|([g bs] & w2 & E2 & E)].
  - pose proof (same_requests_tools _ _ _ _ _ _ E) as Hr.
    apply (use_tools_tracked _ _ _ env setup cfg Hcfg _ _ _ _ _ _ d0 ops d) in E as (ops' & g' & d' & Ht' & Hd' & _); [|done..].
    exists g'. split; [|done]. split; [rewrite Hr; lia|]. eauto.
  - pose proof (same_requests_tools _ _ _ _ _ _ E2) as Hr.
    apply (use_tools_tracked _ _ _ env setup cfg Hcfg _ _ _ _ _ _ d0 ops d) in E2 as (ops' & g' & d' & Ht' & Hd' & Hg'); [|done..].
    specialize (Hg' (g, bs) g eq_refl eq_refl) as ->.
    apply bind_inv in E as [(? & E & _)|(u2 & w3 & (_ & _ & Ht3)%push_inv & E)]; [by apply push_inv in E as [? _]|].
    apply bind_inv in E as [(? & E & _)|(x & w4 & E4 & E)]; [by apply safe_save in E|].
    injection E as <- <-. apply (always_save env quiet_step quiet_inert) in E4 as [Hd4 Hr4].
    exists g'. split; [|by intros l' [= <-]]. split; [rewrite Hr4, Ht3, Hr; lia|].
    exists ops', d'. split; [done|]. by rewrite Hd4, Ht3.
Qed.

Lemma loop_follows mode system n it l w w' r d0 ops d :
  run_loop_by mode system n it l w = Some (w', r) → tracked ops (loop_guard l) d → dispatched (trace w) = d0 ++ d →
  ∃ g', follows d0 (4 * n) w w' g'.
Proof.
  revert it l w ops d. induction n as [|n IH]; intros it l w ops d E Ht Hd; cbn [AnyLoop.run_loop_by] in E.
  - apply bind_inv in E as [(? & E & _)|(x & w2 & E2 & E)]; [by apply safe_save in E|].
    apply (always_save env quiet_step quiet_inert) in E2 as [Hd2 Hr2].
    apply bind_inv in E as [(? & E & _)|(y & w3 & E3 & E)]; [by apply safe_fire in E|].
    injection E as <- <-. apply (always_fire env setup quiet_step (inert_calm _ quiet_inert)) in E3 as [Hd3 Hr3].
    exists (loop_guard l). unfold same_requests in *. split; [lia|]. exists ops, d. split; [done|]. by rewrite Hd3, Hd2.
  - assert (∀ w1 x, iterate_by mode system it l w = Some (w1, x) →
              ∃ g', follows d0 4 w w1 g' ∧ ∀ l', x = Ok (inl l') → loop_guard l' = g') as Hit.
    { intros w1 x (w0 & [_ Hd0 Hr0] & [(e & -> & ->)|(ms & answer & t0 & t & k & req & u & _ & Et)])%iterate_inv.
      - exists (loop_guard l). split; [|done]. split; [lia|]. exists ops, d. split; [done|]. by rewrite Hd0.
      - eapply turn_follows in Et as (g' & [Hr Hf] & Hg); [|exact Ht|by rewrite Hd0].
        exists g'. split; [|done]. split; [lia|done]. }
    apply bind_inv in E as [(e & E & ->)|(o & w1 & E1 & E)].
    + apply Hit in E as (g' & [Hr Hf] & _). exists g'. split; [lia|done].
    + apply Hit in E1 as (g' & [Hr (ops' & d' & Ht' & Hd')] & Hg). destruct o as [l'|res].
      * specialize (Hg l' eq_refl). subst g'. destruct (IH _ _ _ _ _ E Ht' Hd') as (g'' & Hr' & Hf').
        exists g''. split; [lia|done].
      * injection E as <- _. exists g'. split; [lia|]. eauto.
Qed.
End bounds.

Definition times (x : str * Value) (l : list (str * Value)) : nat := length (filter (λ y, y = x) l).

Lemma times_sublist x l l' : l `sublist_of` l' → times x l ≤ times x l'.
Proof.
  unfold times. induction 1 as [|y l l' _ IH|y l l' _ IH]; rewrite ?filter_cons; [done| |];
    repeat case_decide; simpl; lia.
Qed.

Lemma times_let_through t p vs : Z.of_nat (times (t, p) (let_through vs)) = passed t p vs.
Proof.
  unfold times, let_through, passed. induction vs as [|[x v] vs IH]; [done|]. cbn [List.filter fst snd].
  destruct (passes v).
  - rewrite andb_true_r, fmap_cons, filter_cons. cbn [fst]. case_decide as Hx.
    + rewrite bool_decide_true by done. cbn [length]. lia.
    + by rewrite bool_decide_false by done.
  - by rewrite andb_false_r.
Qed.

Lemma length_let_through (vs : list (str * Value * LoopGuardVerdict)) : length (let_through vs) ≤ length vs.
Proof. unfold let_through. rewrite length_fmap. apply List.filter_length_le. Qed.

(** How often the same call is run at most. *)
Definition repeats_allowed (tool : str) (input : Value) : Z :=
  if is_poll_call json_to_string json_command tool input then 14 else 4.

Lemma effective_block_config tool input :
  effective_block json_to_string json_command (loop_guard_config setup) tool input
  = (repeats_allowed tool input + 1)%Z.
Proof.
  unfold effective_block, multiplier, repeats_allowed, loop_guard_config. by repeat case_match.
Qed.

Lemma breaker_config :
  (0 ≤ max_iterations setup)%Z → (3 * max_iterations setup < u32_max)%Z →
  global_circuit_breaker (loop_guard_config setup)
  = (if 30 <? max_iterations setup then 3 * max_iterations setup else 30)%Z.
Proof.
  intros H0' H1. unfold loop_guard_config. cbn [global_circuit_breaker LoopGuard.default_config].
  destruct (Z.ltb_spec 30 (max_iterations setup)); [|done]. cbn [global_circuit_breaker].
  unfold wrapping_mul_u32. rewrite Z.mod_small; lia.
Qed.

(** C6: Bounds of a run with [n] rounds: at most four requests to the model a
    round; at most [3 n] tools are run (30, if there are no more than 30
    rounds); and the same tool with the same input is run at most four times,
    or 14 times for calls that poll. *)
Theorem run_bounds mode w w' r :
  (0 ≤ max_iterations setup)%Z → (3 * max_iterations setup < u32_max)%Z →
  run_mode mode w = Some (w', r) →
  ∃ ev, trace w' = trace w ++ ev ∧
    (Z.of_nat (requested ev) ≤ 4 * max_iterations setup)%Z ∧
    (Z.of_nat (length (dispatched ev)) ≤
     if 30 <? max_iterations setup then 3 * max_iterations setup else 30)%Z ∧
    ∀ tool input, (Z.of_nat (times (tool, input) (dispatched ev)) ≤ repeats_allowed tool input)%Z.
Proof.
  intros H1 H2 E. set (cfg := loop_guard_config setup).
  assert (global_circuit_breaker cfg < u32_max)%Z as Hcfg.
  { unfold cfg. rewrite breaker_config by done. case_match; [done|]. by unfold u32_max. }
  destruct (lawful_run _ _ _ _ E) as (ev & Hev & _). exists ev. split; [done|].
  assert (∃ g', follows cfg (dispatched (trace w)) (4 * Z.to_nat (max_iterations setup)) w w' g')
    as (g' & Hr & ops & d & [-> Hc Hb Hs] & Hd).
  { rewrite by_mode in E. unfold AnyLoop.run_by in E.
    apply bind_inv in E as [(? & E & _)|(mem & w1 & E1 & E)]; [by apply safe_recall in E|].
    apply bind_inv in E as [(? & E & _)|(x & w2 & E2 & E)]; [by apply safe_fire in E|].
    apply bind_inv in E as [(? & E & _)|(u & w3 & (_ & _ & Ht3)%push_inv & E)]; [by apply push_inv in E as [? _]|].
    apply bind_inv in E as [(? & E & _)|(h & w4 & [= <- <-] & E)]; [done|].
    apply (always_recall env setup quiet_step (inert_calm _ quiet_inert)) in E1 as [Hd1 Hr1].
    apply (always_fire env setup quiet_step (inert_calm _ quiet_inert)) in E2 as [Hd2 Hr2].
    destruct (loop_follows cfg Hcfg _ _ _ _ _ _ _ _ (dispatched (trace w)) [] [] E) as (g' & Hr & Hf).
    - split; [done|constructor|simpl; lia|apply sublist_nil_l].
    - rewrite Ht3, app_nil_r. by rewrite Hd2.
    - exists g'. split; [|done]. unfold same_requests in *. rewrite Ht3 in Hr. lia. }
  rewrite Hev in Hr, Hd. unfold dispatched in Hd. rewrite omap_app in Hd. apply app_inv_head in Hd.
  fold (dispatched ev) in Hd. rewrite Hd. rewrite requested_app in Hr.
  split; [lia|]. rewrite <-(breaker_config H1 H2). fold cfg. split.
  - apply sublist_length in Hs.
    pose proof (length_let_through (LoopGuard.run json_to_string json_command sha256_hex cfg ops).2).
    pose proof (run_length json_to_string json_command sha256_hex cfg ops) as Hlen.
    rewrite number_checks in Hlen by done.
    assert (0 ≤ global_circuit_breaker cfg)%Z by (unfold cfg; rewrite breaker_config by done; case_match; lia). lia.
  - intros tool input. apply (times_sublist (tool, input)) in Hs.
    pose proof (times_let_through tool input (LoopGuard.run json_to_string json_command sha256_hex cfg ops).2) as Ht.
    assert (counters_fit ops) as Hfit by (unfold counters_fit; unfold u32_max in *; lia).
    pose proof (proj2 (run_passed json_to_string json_command sha256_hex cfg ops tool input Hfit)) as Hp.
    unfold cfg in Hp at 2. rewrite effective_block_config in Hp.
    assert (0 ≤ repeats_allowed tool input)%Z by (unfold repeats_allowed; by case_match). lia.
Qed.
End runs.

(** ** Runs of the demonstration *)

Lemma demo_faithful script :
  Forall (λ r : DemoResponse, omap tool_use_id (resp_content r) = call_id <$> resp_tool_calls r) script →
  faithful_driver (demo_env script).
Proof.
  intros Hs mode t n req r Hd _. assert (demo_driver script t n req = Ok r) as Hr by (by destruct mode).
  unfold demo_driver in Hr. destruct (script !! _) as [answer|] eqn:E; [|done]. injection Hr as ->.
  rewrite Forall_forall in Hs. apply Hs. by eapply list_elem_of_lookup_2.
Defined.

(** The runs that the theorems are applied to. *)
Lemma demo_answers :
  match demo_run demo_script Buffered [] with Some (_, Ok _) => True | _ => False end.
Proof. vm_compute. exact I. Qed.

Lemma demo_dispatches :
  match demo_run demo_script Streaming [] with
  | Some (w', _) => trace w' = take 7 (trace w') ++ Dispatched (demo_call (lit "a")) :: drop 8 (trace w')
  | None => False
  end.
Proof. vm_compute. reflexivity. Qed.


Lemma tools_permitted_witness :
  match demo_run demo_script Streaming [] with
  | Some (w', _) => permitted (demo_env demo_script) demo_setup (take 7 (trace w')) (demo_call (lit "a"))
  | None => False
  end.
Proof.
  pose proof demo_dispatches as Ht.
  destruct (demo_run demo_script Streaming []) as [[w' r]|] eqn:E; [|exact Ht].
  eapply tools_permitted in E; [exact E|exact Ht|cbn [trace length]; lia].
Defined.

Lemma run_bounds_witness :
  match demo_run demo_script Buffered [] with
  | Some (w', _) => ∃ ev, trace w' = ev ∧ (Z.of_nat (requested ev) ≤ 200)%Z ∧
      (Z.of_nat (length (dispatched ev)) ≤ 150)%Z ∧
      (Z.of_nat (times (lit "shell_exec", lit "ls a") (dispatched ev)) ≤ 4)%Z
  | None => False
  end.
Proof.
  pose proof demo_answers as Ha.
  destruct (demo_run demo_script Buffered []) as [[w' r]|] eqn:E; [|exact Ha].
  eapply run_bounds in E; [|by vm_compute|by vm_compute]. destruct E as (ev & Hev & Hq & Hd & Ht).
  exists ev. split; [exact Hev|]. split; [exact Hq|]. split; [exact Hd|]. exact (Ht (lit "shell_exec") (lit "ls a")).
Defined.

(** The directives of a reply that is not silent are parsed and dropped. *)
Example directives_dropped :
  match demo_run demo_script Buffered [] with
  | Some (_, Ok res) => response res = lit "Two files." ∧ reply_to (reply_directives res) = None
  | _ => False
  end ∧ reply_to (parse_directives (lit "[[reply:42]] Two files.")).2 = Some (lit "42").
Proof. vm_compute. done. Qed.

(** ** Histories *)

Definition old_turn (k : nat) : list (Message str) :=
  [assistant_text (lit "answer " ++ show_nat k); user_text (lit "question " ++ show_nat k)].

(** A long history is cut before the repair is looked at again: the model is
    sent a conversation that the assistant opens. *)
Example trimmed_starts_with_assistant :
  let history := user_text (lit "hello") :: concat (old_turn <$> seq 0 12) in
  head (prepare_messages history) = Some (assistant_text (lit "answer 2")).
Proof. vm_compute. reflexivity. Qed.

(** Pruning a turn in which the agent used a tool and then did not reply takes
    the results of the tool with it and leaves its use unanswered. *)
Example prune_drops_results :
  let use := mkMessage Assistant (Blocks [call_block (demo_call (lit "a"))]) in
  let results := mkMessage User (Blocks [ToolResult (lit "call_a") (lit "done") false]) in
  let rest := concat (old_turn <$> seq 0 5) in
  prune_heartbeat_turns
    ([user_text (lit "hello"); use; results; assistant_text (lit "[no reply needed]")] ++ rest) 10
  = [user_text (lit "hello"); use] ++ rest.
Proof. vm_compute. reflexivity. Qed.
