(* ===== verification/AgentLoopStreaming.v ===== *)
(** * The streaming loop and the buffered one

    [run_agent_loop] and [run_agent_loop_streaming] do the same, up to the
    events sent to callbacks and to the channel, when the environment answers
    them alike: a logical relation on worlds ([similar]) that every part of
    the loop preserves ([agree]). *)

From Stdlib Require Import Ascii ZArith Lia.
From stdpp Require Import base gmap strings list.
From S2P Require Import Prelude Strs Message ContextWindow TextToolCalls ReplyDirectives AgentTypes AgentQuota.
From S2P Require Import LlmErrors Cooldown ProviderCall LoopGuard Approval Hooks SessionRepair AgentLoop AgentLoopFacts.

Section attempts.
Context {St : Type} `{brk : Breaker St} {Response : Type} `{UnicodeCase} (clock : nat → Z * Z).

Lemma attempts_ext (d d' : nat → result Response LlmError) p more c k naps :
  (∀ n, d n = d' n) → attempts clock d p more c k naps = attempts clock d' p more c k naps.
Proof.
  intros Hd. revert k naps. induction more as [|more IH]; intros k naps; cbn [attempts]; rewrite Hd; [done|].
  destruct (d' k) as [r|[]]; auto.
Qed.

Lemma guarded_call_ext (d d' : nat → result Response LlmError) p c :
  (∀ n, d n = d' n) → guarded_call clock d p c = guarded_call clock d' p c.
Proof.
  intros Hd. unfold guarded_call. repeat case_match; try done; by apply attempts_ext.
Qed.
End attempts.

Section streaming.
Context {Value Vec Uuid : Type} `{EqDecision Value} `{Countable Uuid} `{UnicodeCase}.
Context (json_to_string : Value → str) (json_command : Value → option str) (sha256_hex : str → str).
Context (schema_to_string : Value → option str) (parse_json : str → option Value).
Context (env : Environment (Value := Value) (Vec := Vec) (Uuid := Uuid)) (setup : Setup (Value := Value)).

Abbreviation World := (AgentLoop.World (Value := Value) (Vec := Vec)).
Abbreviation M := (AgentLoop.M (Value := Value) (Vec := Vec)).
Abbreviation Event := (LoopEvent (Value := Value) (Vec := Vec)).

(** Events other than those for callbacks and the channel. *)
Definition essential (e : Event) : bool := match e with Phase _ | Streamed _ => false | _ => true end.

Definition core (t : list Event) : list Event := List.filter essential t.

(** The environment does not look at the callbacks and the channel, and the
    driver answers a streamed request as a plain one. *)
Record oblivious : Prop := {
  ob_embed t t' emb text : embed env = Some emb → core t = core t' → emb t text = emb t' text;
  ob_recall t t' q v : core t = core t' → recall env t q v = recall env t' q v;
  ob_hooks t t' reg ctx : hooks env = Some reg → core t = core t' → fire reg t ctx = fire reg t' ctx;
  ob_driver t t' n r : core t = core t' → complete env t n r = stream env t' n r;
  ob_kernel t t' : core t = core t' → kernel env t = kernel env t';
  ob_late t t' : core t = core t' → approval_late env t = approval_late env t';
  ob_branch t t' c : core t = core t' → branch env t c = branch env t' c;
  ob_save t t' ms : core t = core t' → save env t ms = save env t' ms;
  ob_uuid t t' : core t = core t' → uuid env t = uuid env t'
}.

Context (Hob : oblivious).

Definition similar (w w' : World) : Prop := session w = session w' ∧ core (trace w) = core (trace w').

#[local] Instance similar_equivalence : Equivalence similar.
Proof.
  split; [done|by intros ? ? [? ?]|]. intros ? ? ? [? ?] [? ?]. split; by etrans.
Qed.

Definition agree {A} (m m' : M A) : Prop :=
  ∀ w w', similar w w' →
    match m w, m' w' with
    | Some (w1, r), Some (w1', r') => similar w1 w1' ∧ r = r'
    | None, None => True
    | _, _ => False
    end.

Lemma agree_bind {A B} (m m' : M A) (k k' : A → M B) :
  agree m m' → (∀ x, agree (k x) (k' x)) → agree (m ≫= k) (m' ≫= k').
Proof.
  intros Hm Hk w w' Hw. specialize (Hm w w' Hw). unfold mbind, M_bind.
  destruct (m w) as [[w1 r]|], (m' w') as [[w1' r']|]; try done. destruct Hm as [Hw1 <-].
  destruct r as [x|e]; [by apply Hk|done].
Qed.

Lemma agree_ret {A} (x : A) : agree (mret x) (mret x).
Proof. intros w w' Hw. by split. Qed.

Lemma agree_fail {A} e : agree (fail e : M A) (fail e).
Proof. intros w w' Hw. by split. Qed.

Lemma agree_or_panic {A} (o : option A) : agree (or_panic o : M A) (or_panic o).
Proof. intros w w' Hw. destruct o; [by split|done]. Qed.

Lemma agree_look {A} (f f' : list Event → A) :
  (∀ t t', core t = core t' → f t = f' t') → agree (look f) (look f').
Proof. intros Hf w w' Hw. split; [done|]. by rewrite (Hf _ _ (proj2 Hw)). Qed.

Lemma core_app t t' : core (t ++ t') = core t ++ core t'.
Proof. apply List.filter_app. Qed.

Lemma agree_emit_all es : agree (emit_all es) (emit_all es).
Proof. intros w w' [Hs Ht]. split; [|done]. split; [done|]. cbn [trace]. by rewrite !core_app, Ht. Qed.

Lemma agree_emit e : agree (emit e) (emit e).
Proof. apply (agree_emit_all [e]). Qed.

Lemma agree_update f : agree (update_session f) (update_session f).
Proof. intros w w' [Hs Ht]. split; [|done]. split; [|done]. cbn [session]. by rewrite Hs. Qed.

Lemma agree_session_messages : agree session_messages session_messages.
Proof. intros w w' Hw. split; [done|]. by rewrite (proj1 Hw). Qed.

(** Events for callbacks and the channel do not matter. *)
Definition unseen (m : M unit) : Prop :=
  ∀ w, ∃ w', m w = Some (w', Ok tt) ∧ similar w w'.

Lemma unseen_ret : unseen (mret tt).
Proof. intros w. by exists w. Qed.

Lemma unseen_emit e : essential e = false → unseen (emit e).
Proof.
  intros He w. eexists. split; [done|]. split; [done|]. cbn [trace]. rewrite core_app. simpl. by rewrite He, app_nil_r.
Qed.

Lemma agree_unseen m m' : unseen m → unseen m' → agree m m'.
Proof.
  intros Hm Hm' w w' Hw. destruct (Hm w) as (w1 & -> & H1), (Hm' w') as (w1' & -> & H1').
  split; [|done]. by rewrite <-H1, <-H1'.
Qed.

Lemma unseen_notify p : unseen (notify env p).
Proof. unfold notify. destruct (on_phase env); [by apply unseen_emit|apply unseen_ret]. Qed.

Lemma unseen_warn mode s : unseen (warn_context_by mode s).
Proof. unfold warn_context_by, warn_context, send_event. destruct mode, s; first [apply unseen_ret|by apply unseen_emit]. Qed.

Lemma unseen_preview c mode s e : unseen (preview_by c mode s e).
Proof. unfold preview_by, send_event. destruct mode; first [apply unseen_ret|by apply unseen_emit]. Qed.

(** ** The parts agree *)

Ltac pace :=
  repeat first
    [ solve [eauto 2 with openfang]
    | apply agree_ret | apply agree_fail | apply agree_or_panic | apply agree_emit | apply agree_emit_all
    | apply agree_update | apply agree_session_messages
    | apply agree_bind; [|intros ?] | progress case_match ].

Lemma agree_notify p p' : agree (notify env p) (notify env p').
Proof. apply agree_unseen; apply unseen_notify. Qed.

Lemma agree_warn s : agree (warn_context_by Buffered s) (warn_context_by Streaming s).
Proof. apply agree_unseen; apply unseen_warn. Qed.

Lemma agree_preview c s e : agree (preview_by c Buffered s e) (preview_by c Streaming s e).
Proof. apply agree_unseen; apply unseen_preview. Qed.

Lemma agree_fire e d : agree (fire_hook env setup e d) (fire_hook env setup e d).
Proof.
  unfold fire_hook. destruct (hooks env) as [reg|] eqn:Er; [|pace]. apply agree_bind; [|intros ?; pace].
  apply agree_look. intros t t' Ht. by apply (ob_hooks Hob).
Qed.

Lemma agree_save : agree (save_session env) (save_session env).
Proof.
  intros w w' [Hs Ht]. split; [split; [done|]|].
  - cbn [trace]. by rewrite !core_app, Ht, Hs.
  - by rewrite Hs, (ob_save Hob _ _ _ Ht).
Qed.

#[local] Hint Resolve agree_notify agree_warn agree_preview agree_fire agree_save : openfang.

Lemma agree_save_or_fail : agree (save_or_fail env) (save_or_fail env).
Proof. unfold save_or_fail. pace. Qed.

Lemma agree_embed text : agree (embed_one env text) (embed_one env text).
Proof.
  unfold embed_one. destruct (embed env) as [emb|] eqn:Ee; [|pace]. apply agree_bind; [|intros ?; pace].
  apply agree_look. intros t t' Ht. by apply (ob_embed Hob).
Qed.

#[local] Hint Resolve agree_save_or_fail agree_embed : openfang.

Lemma agree_recall : agree (recall_memories env setup) (recall_memories env setup).
Proof.
  unfold recall_memories, recall_by. apply agree_bind; [pace|]. intros v. apply agree_bind; [|intros ?; pace].
  apply agree_look. intros t t' Ht. by apply (ob_recall Hob).
Qed.

Lemma agree_remember text : agree (remember env text) (remember env text).
Proof. unfold remember. pace. Qed.

Lemma agree_call r : agree (call_model_by env setup Buffered r) (call_model_by env setup Streaming r).
Proof.
  unfold call_model_by, called_model. apply agree_bind; [|intros called; pace]. apply agree_look. intros t t' Ht.
  unfold call_with_retry, stream_with_retry. apply guarded_call_ext. intros n. by apply (ob_driver Hob).
Qed.

Lemma agree_execute c : agree (execute_tool json_to_string env setup c) (execute_tool json_to_string env setup c).
Proof.
  unfold execute_tool. apply agree_bind; [apply agree_look; intros t t' Ht; by apply (ob_kernel Hob)|]. intros k.
  apply agree_bind; [apply agree_look; intros t t' Ht; by apply (ob_late Hob)|]. intros late.
  apply agree_bind; [pace|]. intros gate. case_match; [pace|]. case_match; [pace|].
  apply agree_bind; [apply agree_look; intros t t' Ht; by apply (ob_branch Hob)|]. intros o. pace.
Qed.

#[local] Hint Resolve agree_recall agree_remember agree_call agree_execute : openfang.

Lemma agree_run_tool v c :
  agree (run_tool_by json_to_string env setup Buffered v c) (run_tool_by json_to_string env setup Streaming v c).
Proof. unfold run_tool_by. pace. Qed.

#[local] Hint Resolve agree_run_tool : openfang.

Lemma agree_use_tool g c :
  agree (use_tool_by json_to_string json_command sha256_hex env setup Buffered g c)
        (use_tool_by json_to_string json_command sha256_hex env setup Streaming g c).
Proof. unfold use_tool_by. destruct (guard_check _ _ _ g c) as [g' v]. pace. Qed.

#[local] Hint Resolve agree_use_tool : openfang.

Lemma agree_use_tools g cs :
  agree (use_tools_by json_to_string json_command sha256_hex env setup Buffered g cs)
        (use_tools_by json_to_string json_command sha256_hex env setup Streaming g cs).
Proof.
  revert g. induction cs as [|c cs IH]; intros g; cbn [use_tools_by]; [pace|].
  apply agree_bind; [pace|]. intros [g1 b]. apply agree_bind; [apply IH|]. intros [g2 bs]. pace.
Qed.

#[local] Hint Resolve agree_use_tools : openfang.

Lemma agree_end_turn it l r : agree (end_turn env setup it l r) (end_turn env setup it l r).
Proof. unfold end_turn, push. destruct (parse_directives (response_text r)) as [text d]. pace. Qed.

Lemma agree_max_tokens it l r : agree (max_tokens_turn env setup it l r) (max_tokens_turn env setup it l r).
Proof. unfold max_tokens_turn, push. pace. Qed.

Lemma agree_tool_turn l r :
  agree (tool_turn_by json_to_string json_command sha256_hex env setup Buffered l r)
        (tool_turn_by json_to_string json_command sha256_hex env setup Streaming l r).
Proof.
  unfold tool_turn_by, push. apply agree_bind; [pace|]. intros _. apply agree_bind; [pace|]. intros [g bs]. pace.
Qed.

#[local] Hint Resolve agree_end_turn agree_max_tokens agree_tool_turn : openfang.

Lemma agree_iterate system it l :
  agree (iterate_by json_to_string json_command sha256_hex schema_to_string parse_json env setup Buffered system it l)
        (iterate_by json_to_string json_command sha256_hex schema_to_string parse_json env setup Streaming system it l).
Proof.
  unfold iterate_by. apply agree_bind; [pace|]. intros [ms rec]. apply agree_bind; [pace|]. intros _.
  apply agree_bind; [pace|]. intros [ms' k]. apply agree_bind; [pace|]. intros _.
  apply agree_bind; [pace|]. intros answer. apply agree_bind; [|intros r; pace].
  apply agree_look. intros t t' Ht. unfold promote_text_calls. by rewrite (ob_uuid Hob _ _ Ht).
Qed.

#[local] Hint Resolve agree_iterate : openfang.

Lemma agree_loop system n it l :
  agree (run_loop_by json_to_string json_command sha256_hex schema_to_string parse_json env setup Buffered system n it l)
        (run_loop_by json_to_string json_command sha256_hex schema_to_string parse_json env setup Streaming system n it l).
Proof. revert it l. induction n as [|n IH]; intros it l; cbn [run_loop_by]; pace. Qed.

#[local] Hint Resolve agree_loop : openfang.

Lemma agree_run :
  agree (run_by json_to_string json_command sha256_hex schema_to_string parse_json env setup Buffered)
        (run_by json_to_string json_command sha256_hex schema_to_string parse_json env setup Streaming).
Proof. unfold run_by, push. pace. Qed.

(** C7: Streaming does not change what an agent does. [run_agent_loop] and
    [run_agent_loop_streaming], which are two functions in the code, give the
    same result or both panic, leave the same session, and call the model, the
    tools, the memory and the hooks in the same order with the same arguments,
    if the environment is [oblivious]: it answers the same requests alike and
    does not look at callbacks and the channel. That holds of the driver only
    if its streaming call returns what its plain call returns: the driver for
    Anthropic does, for responses whose input can be read; the one for OpenAI
    drops or recovers parts of a response in one of the two calls only. *)
Theorem streaming_equivalent w :
  match run_agent_loop json_to_string json_command sha256_hex schema_to_string parse_json env setup w,
        run_agent_loop_streaming json_to_string json_command sha256_hex schema_to_string parse_json env setup w with
  | Some (w1, r), Some (w2, r') => session w1 = session w2 ∧ core (trace w1) = core (trace w2) ∧ r = r'
  | None, None => True
  | _, _ => False
  end.
Proof.
  pose proof (run_mode_by json_to_string json_command sha256_hex schema_to_string parse_json env setup Buffered w) as E1.
  pose proof (run_mode_by json_to_string json_command sha256_hex schema_to_string parse_json env setup Streaming w) as E2.
  unfold run_mode in E1, E2. rewrite E1, E2.
  pose proof (agree_run w w ltac:(reflexivity)) as Ha. repeat case_match; try done. by destruct Ha as [[? ?] ?].
Qed.
End streaming.

Lemma demo_oblivious script : oblivious (demo_env script).
Proof.
  split; try done; cbn [embed hooks demo_env].
  - by intros t t' emb text [= <-] _.
  - intros t t' reg ctx [= <-] _. unfold demo_hooks. by destruct ctx as [? ? []].
  - intros t t' n r Ht. cbn [complete stream demo_env]. unfold demo_driver.
    assert (∀ t, List.filter demo_request t = List.filter demo_request (core t)) as Hc.
    { intros t0. unfold core. induction t0 as [|e t0 IH]; [done|]. destruct e; cbn; by rewrite ?IH. }
    by rewrite (Hc t), (Hc t'), Ht.
Defined.

Lemma streaming_equivalent_witness :
  match run_agent_loop (H0 := ascii_case) (λ s, s) (λ s, Some s) (λ s, s) Some Some (demo_env demo_script)
          demo_setup (mkWorld [] []),
        run_agent_loop_streaming (H0 := ascii_case) (λ s, s) (λ s, Some s) (λ s, s) Some Some
          (demo_env demo_script) demo_setup (mkWorld [] []) with
  | Some (w1, r), Some (w2, r') => session w1 = session w2 ∧ core (trace w1) = core (trace w2) ∧ r = r'
  | None, None => True
  | _, _ => False
  end.
Proof. eapply streaming_equivalent. apply demo_oblivious. Defined.
