(* ===== verification/Pairing.v ===== *)
(** * Device pairing

    [openfang-kernel/src/pairing.rs] with its configuration in
    [openfang-types/src/config.rs]: short-lived tokens, the devices paired with
    them, and the notification of the devices.

    The manager keeps two [DashMap]s and takes no lock around a call, so calls
    overlap. The operations are given twice: as the functions of the code, for
    calls that do not overlap, and as a [Call] that [advance]s by one access to
    the shared state at a time, which is what the runs interleave;
    [calls_alone] shows that a call that is not interrupted is the function.
    One access is the length of a map, the search for a token, [retain], an
    insertion, a removal, or the persistence callback, whose calls are recorded
    in [persisted]. Times are milliseconds; a token and the time are arguments
    of the operations that draw or read them. The range of the date arithmetic
    is not modelled. *)

From Stdlib Require Import Ascii ZArith Lia.
From stdpp Require Import base gmap strings list.
From S2P Require Import Prelude Strs.

Definition MAX_PENDING_REQUESTS : nat := 5.

Record PairingConfig : Type := mkPairingConfig {
  enabled : bool;
  max_devices : nat;
  token_expiry_secs : Z;
  push_provider : str;
  ntfy_url : option str;
  ntfy_topic : option str
}.

Definition default_config : PairingConfig := mkPairingConfig false 10 300 (lit "none") None None.

Record PairedDevice : Type := mkDevice {
  device_id : str;
  display_name : str;
  platform : str;
  paired_at : Z;
  last_seen : Z;
  push_token : option str
}.

Record PairingRequest : Type := mkPairing {
  token : str;
  created_at : Z;
  expires_at : Z
}.

Inductive PersistOp : Type := Save | Remove.

Record PairingManager : Type := mkManager {
  config : PairingConfig;
  pending : gmap str PairingRequest;
  devices : gmap str PairedDevice;
  (** whether a callback is attached, and what it has been called with *)
  persist : bool;
  persisted : list (PairedDevice * PersistOp)
}.

Definition new (cfg : PairingConfig) : PairingManager := mkManager cfg ∅ ∅ false [].

Definition with_pending (m : PairingManager) (p : gmap str PairingRequest) : PairingManager :=
  mkManager (config m) p (devices m) (persist m) (persisted m).

Definition with_devices (m : PairingManager) (d : gmap str PairedDevice) : PairingManager :=
  mkManager (config m) (pending m) d (persist m) (persisted m).

Definition set_persist (m : PairingManager) : PairingManager :=
  mkManager (config m) (pending m) (devices m) true (persisted m).

(** [if let Some(ref persist) = self.persist { persist(device, op) }] *)
Definition call_persist (m : PairingManager) (d : PairedDevice) (op : PersistOp) : PairingManager :=
  if persist m
  then mkManager (config m) (pending m) (devices m) true (persisted m ++ [(d, op)])
  else m.

Definition load_devices (m : PairingManager) (ds : list PairedDevice) : PairingManager :=
  with_devices m (foldl (λ acc d, <[device_id d := d]> acc) (devices m) ds).

Definition clean_expired (m : PairingManager) (now : Z) : PairingManager :=
  with_pending m (filter (λ e, (now < expires_at e.2)%Z) (pending m)).

(** [fresh] is the token drawn. *)
Definition create_pairing_request (m : PairingManager) (fresh : str) (now : Z)
    : PairingManager * result PairingRequest str :=
  if negb (enabled (config m)) then (m, Err (lit "Device pairing is disabled"))
  else
    let m := if MAX_PENDING_REQUESTS <=? size (pending m) then clean_expired m now else m in
    if MAX_PENDING_REQUESTS <=? size (pending m)
    then (m, Err (lit "Too many pending pairing requests. Try again later."))
    else
      let request := mkPairing fresh now (now + 1000 * token_expiry_secs (config m))%Z in
      (with_pending m (<[fresh := request]> (pending m)), Ok request).

(** The search for the token: the key and the request of the entry found. *)
Definition held_request (m : PairingManager) (tok : str) : option (str * PairingRequest) :=
  List.find (λ e, str_eqb (token e.2) tok) (map_to_list (pending m)).

Definition finish_pairing (m : PairingManager) (now : Z) (key : str) (request : PairingRequest)
    (device_info : PairedDevice) : PairingManager * result PairedDevice str :=
  if (expires_at request <? now)%Z
  then (with_pending m (delete key (pending m)), Err (lit "Pairing token has expired"))
  else if max_devices (config m) <=? size (devices m)
  then (m, Err (lit "Maximum paired devices (" ++ show_nat (max_devices (config m))
                ++ lit ") reached. Remove a device first."))
  else
    let m := with_pending m (delete key (pending m)) in
    let m := with_devices m (<[device_id device_info := device_info]> (devices m)) in
    (call_persist m device_info Save, Ok device_info).

Definition complete_pairing (m : PairingManager) (now : Z) (tok : str) (device_info : PairedDevice)
    : PairingManager * result PairedDevice str :=
  match held_request m tok with
  | None => (m, Err (lit "Invalid or expired pairing token"))
  | Some (key, request) => finish_pairing m now key request device_info
  end.

Definition list_devices (m : PairingManager) : list PairedDevice := (map_to_list (devices m)).*2.

Definition remove_device (m : PairingManager) (id : str) : PairingManager * result unit str :=
  match devices m !! id with
  | None => (m, Err (lit "Device '" ++ id ++ lit "' not found"))
  | Some d => (call_persist (with_devices m (delete id (devices m))) d Remove, Ok tt)
  end.

(** ** Notifications *)

(** How a request to the push service ends. *)
Inductive PushOutcome : Type :=
| PushSent
| PushStatus (status : str)
| PushFailed (e : str).

Definition push_results (m : PairingManager) (service : str) (o : PushOutcome)
    : list (str * result unit str) :=
  match o with
  | PushSent => (λ d, (device_id d, Ok tt)) <$> list_devices m
  | PushStatus status => [(service, Err (service ++ lit " returned HTTP " ++ status))]
  | PushFailed e => [(service, Err (service ++ lit " request failed: " ++ e))]
  end.

Fixpoint trim_end_slashes (s : str) : str :=
  match s with
  | [] => []
  | c :: s =>
      match trim_end_slashes s with
      | [] => if bool_decide ([c] = lit "/") then [] else [c]
      | s => c :: s
      end
  end.

(** [var] reads the environment and [post url key] is the outcome of the
    request to [url], with a Gotify key or without. *)
Definition notify_devices (var : str → option str) (post : str → option str → PushOutcome)
    (m : PairingManager) : list (str * result unit str) :=
  let provider := push_provider (config m) in
  if str_eqb provider (lit "ntfy") then
    let url := default (lit "https://ntfy.sh") (ntfy_url (config m)) in
    match ntfy_topic (config m) with
    | None => [(lit "ntfy", Err (lit "ntfy_topic not configured"))]
    | Some topic =>
        push_results m (lit "ntfy") (post (trim_end_slashes url ++ lit "/" ++ topic) None)
    end
  else if str_eqb provider (lit "gotify") then
    match var (lit "GOTIFY_APP_TOKEN") with
    | None => [(lit "gotify", Err (lit "GOTIFY_APP_TOKEN not set"))]
    | Some app_token =>
        match var (lit "GOTIFY_SERVER_URL") with
        | None => [(lit "gotify", Err (lit "GOTIFY_SERVER_URL not set"))]
        | Some server_url =>
            push_results m (lit "gotify") (post (trim_end_slashes server_url ++ lit "/message") (Some app_token))
        end
    end
  else [].

(** ** Calls, one access at a time *)

Inductive Invocation : Type :=
| Create (fresh : str)
| Complete (tok : str) (d : PairedDevice)
| Drop (id : str)
| Sweep.

(** What a call returns. *)
Inductive Answer : Type :=
| Requested (a : result PairingRequest str)
| Paired (a : result PairedDevice str)
| Dropped (a : result unit str)
| Swept.

(** The access a call makes next, with its local variables. *)
Inductive Call : Type :=
| CreateCheck (fresh : str)
| CreateClean (fresh : str)
| CreateRecheck (fresh : str)
| CreateInsert (fresh : str)
| CompleteLook (tok : str) (d : PairedDevice)
| CompleteExpiry (key : str) (r : PairingRequest) (d : PairedDevice)
| CompleteExpired (key : str)
| CompleteLimit (key : str) (r : PairingRequest) (d : PairedDevice)
| CompleteTake (key : str) (r : PairingRequest) (d : PairedDevice)
| CompleteStore (key : str) (r : PairingRequest) (d : PairedDevice)
| CompleteSave (d : PairedDevice)
| DropRemove (id : str)
| DropSave (d : PairedDevice)
| SweepClean
| Returned (a : Answer).

Definition begin (i : Invocation) : Call :=
  match i with
  | Create fresh => CreateCheck fresh
  | Complete tok d => CompleteLook tok d
  | Drop id => DropRemove id
  | Sweep => SweepClean
  end.

Definition advance (m : PairingManager) (now : Z) (c : Call) : PairingManager * Call :=
  match c with
  | CreateCheck fresh =>
      (m, if negb (enabled (config m)) then Returned (Requested (Err (lit "Device pairing is disabled")))
          else if MAX_PENDING_REQUESTS <=? size (pending m) then CreateClean fresh else CreateInsert fresh)
  | CreateClean fresh => (clean_expired m now, CreateRecheck fresh)
  | CreateRecheck fresh =>
      (m, if MAX_PENDING_REQUESTS <=? size (pending m)
          then Returned (Requested (Err (lit "Too many pending pairing requests. Try again later.")))
          else CreateInsert fresh)
  | CreateInsert fresh =>
      let request := mkPairing fresh now (now + 1000 * token_expiry_secs (config m))%Z in
      (with_pending m (<[fresh := request]> (pending m)), Returned (Requested (Ok request)))
  | CompleteLook tok d =>
      (m, match held_request m tok with
          | None => Returned (Paired (Err (lit "Invalid or expired pairing token")))
          | Some (key, request) => CompleteExpiry key request d
          end)
  | CompleteExpiry key request d =>
      (m, if (expires_at request <? now)%Z then CompleteExpired key else CompleteLimit key request d)
  | CompleteExpired key =>
      (with_pending m (delete key (pending m)), Returned (Paired (Err (lit "Pairing token has expired"))))
  | CompleteLimit key request d =>
      (m, if max_devices (config m) <=? size (devices m)
          then Returned (Paired (Err (lit "Maximum paired devices (" ++ show_nat (max_devices (config m))
                                      ++ lit ") reached. Remove a device first.")))
          else CompleteTake key request d)
  | CompleteTake key request d =>
      (with_pending m (delete key (pending m)), CompleteStore key request d)
  | CompleteStore key request d =>
      (with_devices m (<[device_id d := d]> (devices m)), CompleteSave d)
  | CompleteSave d => (call_persist m d Save, Returned (Paired (Ok d)))
  | DropRemove id =>
      match devices m !! id with
      | None => (m, Returned (Dropped (Err (lit "Device '" ++ id ++ lit "' not found"))))
      | Some d => (with_devices m (delete id (devices m)), DropSave d)
      end
  | DropSave d => (call_persist m d Remove, Returned (Dropped (Ok tt)))
  | SweepClean => (clean_expired m now, Returned Swept)
  | Returned a => (m, Returned a)
  end.

(** A call that is not interrupted, and takes no time. *)
Definition serve (m : PairingManager) (now : Z) (i : Invocation) : PairingManager * Answer :=
  match i with
  | Create fresh => let '(m, a) := create_pairing_request m fresh now in (m, Requested a)
  | Complete tok d => let '(m, a) := complete_pairing m now tok d in (m, Paired a)
  | Drop id => let '(m, a) := remove_device m id in (m, Dropped a)
  | Sweep => (clean_expired m now, Swept)
  end.

(** No call makes more than six accesses. *)
Theorem calls_alone m now i :
  Nat.iter 6 (λ s, advance s.1 now s.2) (m, begin i) =
  ((serve m now i).1, Returned (serve m now i).2).
Proof.
  destruct i as [fresh|tok d|id|]; cbn -[MAX_PENDING_REQUESTS Nat.leb].
  - unfold create_pairing_request. destruct (enabled (config m)) eqn:E; cbn -[MAX_PENDING_REQUESTS Nat.leb]; [|done].
    destruct (MAX_PENDING_REQUESTS <=? size (pending m)) eqn:E1; cbn -[MAX_PENDING_REQUESTS Nat.leb];
      rewrite ?E1; cbn -[MAX_PENDING_REQUESTS Nat.leb]; [|done].
    by case_match.
  - unfold complete_pairing. destruct (held_request m tok) as [[key q]|]; cbn -[Nat.leb]; [|done].
    unfold finish_pairing. destruct (expires_at q <? now)%Z; cbn -[Nat.leb]; [done|].
    by destruct (max_devices (config m) <=? size (devices m)).
  - unfold remove_device. by destruct (devices m !! id).
  - done.
Qed.

(** ** Runs *)

(** A call begins, or the [n]-th call makes its next access. *)
Inductive op : Type :=
| Begin (i : Invocation)
| Step (n : nat) (now : Z).

(** The manager and the calls made so far. *)
Definition step (s : PairingManager * list Call) (o : op) : PairingManager * list Call :=
  let '(m, cs) := s in
  match o with
  | Begin i => (m, cs ++ [begin i])
  | Step n now =>
      match cs !! n with
      | Some c => let '(m, c) := advance m now c in (m, <[n := c]> cs)
      | None => (m, cs)
      end
  end.

(** What is in the map of the database after the callbacks. *)
Definition stored (db : gmap str PairedDevice) (log : list (PairedDevice * PersistOp))
    : gmap str PairedDevice :=
  foldl (λ db e, match e.2 with
                 | Save => <[device_id e.1 := e.1]> db
                 | Remove => delete (device_id e.1) db
                 end) db log.

Definition booted (cfg : PairingConfig) (db : list PairedDevice) : PairingManager :=
  set_persist (load_devices (new cfg) db).

(** The calls that have counted the requests and are about to insert one. *)
Definition inserting (c : Call) : bool := match c with CreateInsert _ => true | _ => false end.
Definition admitted (cs : list Call) : nat := length (List.filter inserting cs).

(** What the callback that a call is about to make will write under [id]. *)
Definition unsaved (id : str) (c : Call) : option (option PairedDevice) :=
  match c with
  | CompleteSave d => if decide (device_id d = id) then Some (Some d) else None
  | DropSave d => if decide (device_id d = id) then Some None else None
  | _ => None
  end.
Definition writes (id : str) (cs : list Call) : list (option PairedDevice) := omap (unsaved id) cs.

(** ** What a manager keeps *)

Section runs.
Context (cfg : PairingConfig) (db : list PairedDevice).

Definition database : gmap str PairedDevice := foldl (λ acc d, <[device_id d := d]> acc) ∅ db.

Definition run (ops : list op) : PairingManager * list Call := foldl step (booted cfg db, []) ops.

(** In the run a call has made its next access [c] at time [now]. *)
Definition happened (ops : list op) (now : Z) (c : Call) : Prop :=
  ∃ ops1 n ops2, ops = ops1 ++ Step n now :: ops2 ∧ (run ops1).2 !! n = Some c.

(** The request was made by a call of the run. *)
Definition issued (ops : list op) (r : PairingRequest) : Prop :=
  happened ops (created_at r) (CreateInsert (token r)) ∧
  expires_at r = (created_at r + 1000 * token_expiry_secs cfg)%Z.

(** The token of an issued request was submitted for the device, and was
    looked at while it had not expired. *)
Definition redeemed (ops : list op) (r : PairingRequest) (d : PairedDevice) : Prop :=
  issued ops r ∧ Begin (Complete (token r) d) ∈ ops ∧
  ∃ now, happened ops now (CompleteExpiry (token r) r d) ∧ (now ≤ expires_at r)%Z.

Definition call_ok (ops : list op) (c : Call) : Prop :=
  match c with
  | CompleteLook tok d => Begin (Complete tok d) ∈ ops
  | CompleteExpiry key r d => key = token r ∧ issued ops r ∧ Begin (Complete key d) ∈ ops
  | CompleteLimit key r d | CompleteTake key r d | CompleteStore key r d =>
      key = token r ∧ redeemed ops r d
  | _ => True
  end.

Record sound (ops : list op) (s : PairingManager * list Call) : Prop := {
  sound_config : config s.1 = cfg;
  sound_persist : persist s.1 = true;
  sound_pending : map_Forall (λ k r, token r = k ∧ issued ops r) (pending s.1);
  sound_calls : Forall (call_ok ops) s.2;
  sound_keys : map_Forall (λ k d, device_id d = k) (devices s.1);
  sound_devices :
    map_Forall (λ k d, database !! k = Some d ∨ ∃ r, redeemed ops r d) (devices s.1)
}.

Lemma happened_more ops o now c : happened ops now c → happened (ops ++ [o]) now c.
Proof.
  intros (ops1 & n & ops2 & -> & H). exists ops1, n, (ops2 ++ [o]). by rewrite <-app_assoc.
Qed.

Lemma issued_more ops o r : issued ops r → issued (ops ++ [o]) r.
Proof. intros [? ?]. split; [by apply happened_more|done]. Qed.

Lemma begun_more ops o (i : Invocation) : Begin i ∈ ops → Begin i ∈ ops ++ [o].
Proof. intros. apply elem_of_app. by left. Qed.

Lemma redeemed_more ops o r d : redeemed ops r d → redeemed (ops ++ [o]) r d.
Proof.
  intros (Hi & Hb & now & Hh & ?). split; [by apply issued_more|]. split; [by apply begun_more|].
  exists now. split; [by apply happened_more|done].
Qed.

#[local] Hint Resolve happened_more issued_more begun_more redeemed_more : openfang.

Lemma call_ok_more ops o c : call_ok ops c → call_ok (ops ++ [o]) c.
Proof. destruct c; cbn; intuition eauto with openfang. Qed.

(** A later step keeps what an earlier one established. *)
Lemma sound_more ops o s : sound ops s → sound (ops ++ [o]) s.
Proof.
  intros [? ? Hp Hc ? Hd]. split; try done.
  - eapply map_Forall_impl; [exact Hp|]. intros k r [? ?]. eauto with openfang.
  - eapply Forall_impl; [exact Hc|]. apply call_ok_more.
  - eapply map_Forall_impl; [exact Hd|]. intros k d [?|[r ?]]; eauto with openfang.
Qed.

Lemma database_keys : map_Forall (λ k d, device_id d = k) database.
Proof.
  unfold database. induction db as [|d ds IH] using rev_ind; [apply map_Forall_empty|].
  rewrite foldl_app. by apply map_Forall_insert_2.
Qed.

Lemma sound_booted : sound [] (booted cfg db, []).
Proof.
  split; try done; cbn [fst snd booted set_persist load_devices with_devices new pending devices].
  - apply database_keys.
  - intros k d. by left.
Qed.

(** Fewer requests. *)
Lemma sound_with_pending ops m cs p :
  p ⊆ pending m → sound ops (m, cs) → sound ops (with_pending m p, cs).
Proof.
  intros Hs [? ? Hp ? ? ?]. split; try done; cbn in *.
  intros k r Hk. apply Hp. by eapply lookup_weaken.
Qed.

Lemma sound_persist_call ops m cs d o : sound ops (m, cs) → sound ops (call_persist m d o, cs).
Proof. intros [? Hp ? ? ? ?]. unfold call_persist. cbn in *. rewrite Hp. by split. Qed.

Lemma held_request_Some m tok k r :
  held_request m tok = Some (k, r) → pending m !! k = Some r ∧ token r = tok.
Proof.
  intros [Hin Ht%str_eqb_spec]%List.find_some. split; [|done].
  by apply elem_of_map_to_list, list_elem_of_In.
Qed.

(** What an access of a call does to the manager and makes of the call. *)
Lemma advance_sound ops m cs n now c :
  run ops = (m, cs) → cs !! n = Some c → sound ops (m, cs) →
  let '(m', c') := advance m now c in
  sound (ops ++ [Step n now]) (m', cs) ∧ call_ok (ops ++ [Step n now]) c'.
Proof.
  intros Hrun Hn Hs. pose proof (sound_more _ (Step n now) _ Hs) as Hs'.
  assert (happened (ops ++ [Step n now]) now c) as Hnow
    by (exists ops, n, []; rewrite Hrun; done).
  assert (call_ok (ops ++ [Step n now]) c) as Hc.
  { apply call_ok_more. pose proof (sound_calls _ _ Hs) as Hcs. rewrite Forall_lookup in Hcs. eauto. }
  destruct c; cbn [advance call_ok] in *; try (split; [|done]); try done.
  - split; [done|]. by repeat case_match.
  - apply sound_with_pending; [apply map_filter_subseteq|done].
  - split; [done|]. by case_match.
  - pose proof (sound_config _ _ Hs) as Hcfg. destruct Hs' as [? ? Hp ? ? ?]. split; try done; cbn in *.
    apply map_Forall_insert_2; [|done]. split; [done|]. split; [done|]. cbn. by rewrite Hcfg.
  - split; [done|]. destruct (held_request m tok) as [[k q]|] eqn:E; [|done].
    apply held_request_Some in E as [E <-]. destruct (sound_pending _ _ Hs' _ _ E) as [Ht ?]. by subst k.
  - split; [done|]. destruct Hc as (-> & Hi & Hb). destruct (Z.ltb_spec (expires_at r) now); cbn; [done|].
    split; [done|]. split; [done|]. split; [done|]. eauto.
  - apply sound_with_pending; [apply delete_subseteq|done].
  - split; [done|]. by destruct (max_devices (config m) <=? size (devices m)).
  - apply sound_with_pending; [apply delete_subseteq|done].
  - destruct Hc as [_ Hr]. destruct Hs' as [? ? ? ? ? ?]. split; try done; cbn.
    + by apply map_Forall_insert_2.
    + apply map_Forall_insert_2; [|done]. eauto.
  - by apply sound_persist_call.
  - destruct (devices m !! id) as [d|]; split; try done.
    destruct Hs' as [? ? ? ? ? ?]. split; try done; cbn; by apply map_Forall_delete.
  - by apply sound_persist_call.
  - apply sound_with_pending; [apply map_filter_subseteq|done].
Qed.

Lemma pairing_run_snoc ops o : run (ops ++ [o]) = step (run ops) o.
Proof. unfold run. by rewrite foldl_app. Qed.

Lemma run_sound ops : sound ops (run ops).
Proof.
  induction ops as [|o ops IH] using rev_ind; [apply sound_booted|].
  rewrite pairing_run_snoc. destruct (run ops) as [m cs] eqn:Hrun. destruct o as [i|n now]; cbn [step].
  - apply (sound_more _ (Begin i)) in IH. destruct IH as [? ? ? Hc ? ?]. split; try done. cbn in *.
    apply Forall_app. split; [done|]. apply Forall_singleton.
    destruct i; cbn; try done. apply elem_of_app. right. by apply list_elem_of_singleton.
  - destruct (cs !! n) as [c|] eqn:Hn; [|by apply sound_more].
    pose proof (advance_sound ops m cs n now c Hrun Hn IH) as Ha.
    destruct (advance m now c) as [m' c']. destruct Ha as [[? ? ? Hc ? ?] Hok]. split; try done. cbn in *.
    by apply Forall_insert.
Qed.

(** ** Overlapping calls *)

(** A list whose [n]-th element is replaced. *)
Lemma insert_split (cs : list Call) n c c' :
  cs !! n = Some c → ∃ l1 l2, cs = l1 ++ c :: l2 ∧ <[n := c']> cs = l1 ++ c' :: l2.
Proof.
  intros Hn. exists (take n cs), (drop (S n) cs). split; [by rewrite take_drop_middle|].
  apply insert_take_drop. by eapply lookup_lt_Some.
Qed.

Lemma admitted_app l1 c l2 :
  admitted (l1 ++ c :: l2) = admitted (l1 ++ l2) + Nat.b2n (inserting c).
Proof.
  unfold admitted. rewrite !List.filter_app, !length_app. cbn [List.filter].
  destruct (inserting c); cbn; lia.
Qed.

(** Only a count below the limit lets the sum of the requests and the
    admitted calls grow. *)
Lemma advance_limit m now c :
  let '(m', c') := advance m now c in
  let load := λ m c, size (pending m) + Nat.b2n (inserting c) in
  load m' c' ≤ load m c ∨ inserting c' = true ∧ size (pending m') < MAX_PENDING_REQUESTS.
Proof.
  assert (∀ p, p ⊆ pending m → size p ≤ size (pending m)) as Hsub by (intros; by apply map_subseteq_size).
  destruct c as [f|f|f|f|t d|k q d|k|k q d|k q d|k q d|d|i|d| |a]; cbn -[MAX_PENDING_REQUESTS Nat.leb].
  all: try (left; cbn; unfold call_persist; repeat case_match; cbn; lia).
  - destruct (enabled (config m)); cbn -[MAX_PENDING_REQUESTS Nat.leb]; [|left; cbn; lia].
    destruct (Nat.leb_spec MAX_PENDING_REQUESTS (size (pending m))); [left; cbn; lia|by right].
  - left. pose proof (Hsub _ (map_filter_subseteq (λ e, (now < expires_at e.2)%Z) (pending m))). lia.
  - destruct (Nat.leb_spec MAX_PENDING_REQUESTS (size (pending m))); [left; cbn; lia|by right].
  - left. rewrite map_size_insert. case_match; cbn; lia.
  - left. pose proof (Hsub _ (delete_subseteq (pending m) k)). lia.
  - left. pose proof (Hsub _ (delete_subseteq (pending m) k)). lia.
  - destruct (devices m !! i); left; cbn; lia.
  - left. pose proof (Hsub _ (map_filter_subseteq (λ e, (now < expires_at e.2)%Z) (pending m))). lia.
Qed.

Lemma run_limit_pairing M ops :
  (∀ ops1, ops1 `prefix_of` ops → admitted (run ops1).2 ≤ M) →
  size (pending (run ops).1) + admitted (run ops).2 ≤ MAX_PENDING_REQUESTS - 1 + M.
Proof.
  induction ops as [|o ops IH] using rev_ind; intros HM.
  { cbn. rewrite map_size_empty. lia. }
  pose proof (HM _ (reflexivity _)) as Ho. rewrite pairing_run_snoc in *.
  assert (size (pending (run ops).1) + admitted (run ops).2 ≤ MAX_PENDING_REQUESTS - 1 + M) as Hl.
  { apply IH. intros ops1 Hp. apply HM. by apply prefix_app_r. }
  destruct (run ops) as [m cs]. cbn [fst snd] in *. destruct o as [i|n now]; cbn [step] in *.
  - cbn [fst snd]. rewrite admitted_app, app_nil_r. destruct i; cbn [begin inserting Nat.b2n]; lia.
  - destruct (cs !! n) as [c|] eqn:Hn; [|done]. pose proof (advance_limit m now c) as Ha.
    destruct (advance m now c) as [m' c']. cbn [fst snd] in *.
    destruct (insert_split cs n c c' Hn) as (l1 & l2 & Hcs & E). rewrite E in *. subst cs.
    rewrite admitted_app in Ho, Hl |- *. destruct Ha as [Ha|[Hi ?]]; [lia|].
    rewrite Hi in *. cbn [Nat.b2n] in *. lia.
Qed.

Lemma stored_snoc db0 log d o id :
  stored db0 (log ++ [(d, o)]) !! id =
  if decide (device_id d = id) then match o with Save => Some d | Remove => None end
  else stored db0 log !! id.
Proof.
  unfold stored. rewrite foldl_app. cbn. destruct o; case_decide as Hd; subst;
    by rewrite ?lookup_insert_eq, ?lookup_delete_eq, ?lookup_insert_ne, ?lookup_delete_ne.
Qed.

(** What an access does to the device [id] of the manager and the database. *)
Lemma advance_writes ops m cs now c id :
  sound ops (m, cs) →
  let '(m', c') := advance m now c in
  let db' := stored database (persisted m') !! id in
  (unsaved id c' = unsaved id c ∧ devices m' !! id = devices m !! id ∧
   db' = stored database (persisted m) !! id) ∨
  (unsaved id c = None ∧ unsaved id c' = Some (devices m' !! id)) ∨
  (unsaved id c = Some db' ∧ unsaved id c' = None ∧ devices m' = devices m).
Proof.
  intros [_ Hp _ _ Hk _]. cbn [fst snd] in *.
  destruct c as [f|f|f|f|t d|k q d|k|k q d|k q d|k q d|d|i|d| |a];
    cbn -[MAX_PENDING_REQUESTS Nat.leb]; unfold call_persist; try (left; by repeat case_match).
  - case_decide as Hd; subst; [|left; by rewrite lookup_insert_ne].
    right. left. by rewrite lookup_insert_eq.
  - rewrite Hp. cbn. rewrite stored_snoc. case_decide; auto.
  - destruct (devices m !! i) as [d|] eqn:E; cbn; [|by left].
    pose proof (Hk _ _ E) as Hi. cbn in Hi. subst i.
    case_decide as Hd; subst; [|left; by rewrite lookup_delete_ne].
    right. left. by rewrite lookup_delete_eq.
  - rewrite Hp. cbn. rewrite stored_snoc. case_decide; auto.
Qed.

(** What is known of device [id] while at most one callback for it is due. *)
Definition in_step (id : str) (s : PairingManager * list Call) : Prop :=
  match writes id s.2 with
  | [] => stored database (persisted s.1) !! id = devices s.1 !! id
  | [v] => devices s.1 !! id = v
  | _ => True
  end.

Lemma run_in_step id ops :
  (∀ ops1, ops1 `prefix_of` ops → length (writes id (run ops1).2) ≤ 1) → in_step id (run ops).
Proof.
  induction ops as [|o ops IH] using rev_ind; intros HM; [done|].
  pose proof (HM _ (reflexivity _)) as H1. pose proof (HM ops (prefix_app_r _ _ _ (reflexivity _))) as H0.
  assert (in_step id (run ops)) as Hi.
  { apply IH. intros ops1 Hp. apply HM. by apply prefix_app_r. }
  pose proof (run_sound ops) as Hs. rewrite pairing_run_snoc in *. destruct (run ops) as [m cs].
  destruct o as [i|n now]; cbn [step] in *.
  - unfold in_step, writes in *. cbn [fst snd] in *. rewrite omap_app.
    replace (omap (unsaved id) [begin i]) with (@nil (option PairedDevice)) by (by destruct i).
    by rewrite app_nil_r.
  - destruct (cs !! n) as [c|] eqn:Hn; [|done]. pose proof (advance_writes ops m cs now c id Hs) as Ha.
    destruct (advance m now c) as [m' c']. cbn beta iota zeta in Ha.
    destruct (insert_split cs n c c' Hn) as (l1 & l2 & Hcs & E). unfold in_step, writes in *.
    cbn [fst snd] in *. rewrite E in *. subst cs. rewrite omap_app in *. cbn [omap list_omap] in *.
    destruct Ha as [(-> & -> & ->)|[[Hu Hu']|(Hu & Hu' & ->)]]; [done| |]; rewrite Hu, Hu' in *.
    + rewrite length_app in H1. cbn in H1.
      destruct (omap (unsaved id) l1), (omap (unsaved id) l2); cbn in *; try lia. done.
    + rewrite length_app in H0. cbn in H0.
      destruct (omap (unsaved id) l1), (omap (unsaved id) l2); cbn in *; try lia. done.
Qed.

(** C32: However the accesses of overlapping calls interleave, every pending
    request was made by a call, and every device of the manager was in the
    database at the start or was paired by a completion that submitted the
    token of such a request and looked at it before it expired. There are at
    most four more requests than calls that were ever at the same time between
    their count and their insertion: five if creations do not overlap. And
    if at most one call at a time is between changing a device and telling the
    database, the database and the manager agree on it whenever none is. *)
Theorem pairing_safe ops :
  let m := (run ops).1 in
  (∀ key r, pending m !! key = Some r → token r = key ∧ issued ops r) ∧
  (∀ id d, devices m !! id = Some d →
     device_id d = id ∧ (database !! id = Some d ∨ ∃ r, redeemed ops r d)) ∧
  (∀ M, (∀ ops1, ops1 `prefix_of` ops → admitted (run ops1).2 ≤ M) → size (pending m) ≤ 4 + M) ∧
  (∀ id, (∀ ops1, ops1 `prefix_of` ops → length (writes id (run ops1).2) ≤ 1) →
     writes id (run ops).2 = [] → stored database (persisted m) !! id = devices m !! id).
Proof.
  intros m. destruct (run_sound ops) as [_ _ Hp _ Hk Hd]. split_and!; [exact Hp| | |].
  - intros id d E. split; [by apply (Hk id)|by apply Hd].
  - intros M HM%run_limit_pairing. fold m in HM. unfold MAX_PENDING_REQUESTS in HM. lia.
  - intros id HM%run_in_step Hw. unfold in_step in HM. by rewrite Hw in HM.
Qed.

(** ** Calls that do not overlap *)

Definition serve_all (m : PairingManager) (calls : list (Invocation * Z)) : PairingManager :=
  foldl (λ m i, (serve m i.2 i.1).1) m calls.

Lemma finish_limit m now key r d n :
  config m = cfg → n ≥ max_devices cfg → config (finish_pairing m now key r d).1 = cfg ∧
  (size (devices m) ≤ n → size (devices (finish_pairing m now key r d).1) ≤ n).
Proof.
  intros Hc Hn. unfold finish_pairing. case_match; [done|].
  destruct (Nat.leb_spec (max_devices (config m)) (size (devices m))); [done|].
  unfold call_persist. split; [by case_match|]. intros.
  case_match; cbn; rewrite map_size_insert; case_match; cbn [Datatypes.id]; rewrite Hc in *; lia.
Qed.

(** If calls do not overlap, the number of devices stays within the limit,
    or within the number loaded if that is larger. *)
Theorem device_limit calls :
  size (devices (serve_all (booted cfg db) calls)) ≤ max_devices cfg `max` size database.
Proof.
  assert (∀ m n, config m = cfg → n ≥ max_devices cfg → size (devices m) ≤ n →
          size (devices (serve_all m calls)) ≤ n) as Hall; [|apply Hall; cbn; fold database; [done|lia..]].
  induction calls as [|[i now] calls IH]; intros m n Hc Hn Hs; [done|]. cbn [serve_all foldl fst snd].
  change (size (devices (serve_all (serve m now i).1 calls)) ≤ n).
  assert (config (serve m now i).1 = cfg ∧ size (devices (serve m now i).1) ≤ n) as [? ?]; [|by apply IH].
  destruct i as [fresh|tok d|id|]; cbn [serve]; [| | |done].
  - unfold create_pairing_request. by repeat case_match; simplify_eq/=.
  - unfold complete_pairing. destruct (held_request m tok) as [[key r]|]; [|done].
    pose proof (finish_limit m now key r d n Hc Hn) as [? Hf].
    destruct (finish_pairing m now key r d) as [m' a]. cbn [fst] in *. auto.
  - unfold remove_device. destruct (devices m !! id) as [d|] eqn:E; [|done]. unfold call_persist.
    case_match; cbn; rewrite map_size_delete, E; (split; [done|lia]).
Qed.
End runs.

(** ** Tokens are used once *)

(** Every entry is under its token, and [tok] is not there. *)
Definition spent (tok : str) (m : PairingManager) : Prop :=
  map_Forall (λ k r, token r = k) (pending m) ∧ pending m !! tok = None.

Lemma spent_subset tok m p : p ⊆ pending m → spent tok m → spent tok (with_pending m p).
Proof.
  intros Hs [Hk Ht]. split; cbn.
  - intros k r E. apply Hk. by eapply lookup_weaken.
  - by eapply lookup_weaken_None.
Qed.

Lemma spent_pending tok m m' : pending m = pending m' → spent tok m → spent tok m'.
Proof. unfold spent. by intros ->. Qed.

Lemma spent_finish tok m now key r d : spent tok m → spent tok (finish_pairing m now key r d).1.
Proof.
  intros Hs. pose proof (spent_subset _ _ _ (delete_subseteq (pending m) key) Hs) as Hd.
  unfold finish_pairing. case_match; [done|]. case_match; [done|].
  eapply spent_pending; [|exact Hd]. unfold call_persist. by case_match.
Qed.

Lemma spent_held tok m : spent tok m → held_request m tok = None.
Proof.
  intros [Hk Ht]. destruct (held_request m tok) as [[k r]|] eqn:E; [|done].
  apply held_request_Some in E as [E <-]. rewrite (Hk _ _ E) in Ht. congruence.
Qed.

Lemma spent_serve tok m now i :
  i ≠ Create tok → spent tok m → spent tok (serve m now i).1.
Proof.
  intros Hne Hs. destruct i as [fresh|t d|id|]; cbn [serve].
  - unfold create_pairing_request. destruct (enabled (config m)); cbn [negb]; [|done].
    set (m1 := if MAX_PENDING_REQUESTS <=? size (pending m) then _ else m).
    assert (spent tok m1) as [Hk Ht].
    { unfold m1. case_match; [|done]. apply spent_subset; [apply map_filter_subseteq|done]. }
    destruct (MAX_PENDING_REQUESTS <=? size (pending m1)); [done|].
    split; cbn; [by apply map_Forall_insert_2|].
    rewrite lookup_insert_ne; [done|]. by intros ->.
  - unfold complete_pairing. destruct (held_request m t) as [[k r]|]; [|done].
    pose proof (spent_finish tok m now k r d Hs). by destruct (finish_pairing m now k r d).
  - unfold remove_device. destruct (devices m !! id); [|done].
    eapply spent_pending; [|exact Hs]. unfold call_persist. by case_match.
  - apply spent_subset; [apply map_filter_subseteq|done].
Qed.

(** A token that has paired a device pairs no other, as long as it is not
    drawn again and calls do not overlap. *)
Theorem token_single_use m now tok d m' r calls now' d' :
  map_Forall (λ k r, token r = k) (pending m) →
  complete_pairing m now tok d = (m', Ok r) →
  Forall (λ i, i.1 ≠ Create tok) calls →
  (complete_pairing (serve_all m' calls) now' tok d').2 = Err (lit "Invalid or expired pairing token").
Proof.
  intros Hk E Hops.
  assert (spent tok m') as Hs.
  { unfold complete_pairing in E. destruct (held_request m tok) as [[k q]|] eqn:Eh; [|done].
    apply held_request_Some in Eh as [Eh <-]. rewrite (Hk _ _ Eh).
    assert (spent k (with_pending m (delete k (pending m)))) as Hd.
    { split; cbn; [by apply map_Forall_delete|apply lookup_delete_eq]. }
    unfold finish_pairing in E. case_match; [done|]. case_match; [done|]. injection E as <- _.
    eapply spent_pending; [|exact Hd]. unfold call_persist. by case_match. }
  assert (spent tok (serve_all m' calls)) as Hr; [|unfold complete_pairing; by rewrite spent_held].
  clear E. revert m' Hs. induction Hops as [|[i t] calls Hi _ IH]; intros m' Hs; [done|].
  apply IH. by apply spent_serve.
Qed.

(** ** Examples *)

Definition open_config : PairingConfig := mkPairingConfig true 10 300 (lit "none") None None.
Definition phone (id : str) : PairedDevice := mkDevice id (lit "Phone") (lit "ios") 0 0 None.

Lemma token_single_use_witness :
  (complete_pairing
     (serve_all (booted open_config [])
        [(Create (lit "t"), 0); (Complete (lit "t") (phone (lit "a")), 1); (Sweep, 2)]%Z) 3 (lit "t")
     (phone (lit "b"))).2
  = Err (lit "Invalid or expired pairing token").
Proof.
  apply (token_single_use (serve_all (booted open_config []) [(Create (lit "t"), 0%Z)]) 1 (lit "t")
    (phone (lit "a"))
    (serve_all (booted open_config []) [(Create (lit "t"), 0); (Complete (lit "t") (phone (lit "a")), 1)]%Z)
    (phone (lit "a")) [(Sweep, 2%Z)] 3 (phone (lit "b"))); [|by vm_compute|repeat constructor; done].
  cbn. by apply map_Forall_insert_2.
Defined.

(** A call that makes all its accesses in a row; [n] calls were made before. *)
Definition in_a_row (n : nat) (i : Invocation) (now : Z) : list op :=
  Begin i :: replicate 6 (Step n now).

(** A pairing without overlap: its run satisfies both conditions. *)
Definition demo_ops : list op :=
  in_a_row 0 (Create (lit "t")) 0 ++ in_a_row 1 (Complete (lit "t") (phone (lit "a"))) 1.

Lemma demo_prefix (P : list op → Prop) `{∀ ops, Decision (P ops)} :
  bool_decide (Forall (λ k, P (take k demo_ops)) (seq 0 15)) = true →
  ∀ ops1, ops1 `prefix_of` demo_ops → P ops1.
Proof.
  intros Hall%bool_decide_eq_true ops1 [k Hk].
  assert (length ops1 < 15) by (apply (f_equal length) in Hk; rewrite length_app in Hk; cbn in Hk; lia).
  assert (ops1 = take (length ops1) demo_ops) as -> by (by rewrite Hk, take_app_length).
  rewrite Forall_forall in Hall. apply Hall, elem_of_seq. lia.
Qed.

Lemma pairing_safe_witness :
  size (pending (run open_config [] demo_ops).1) ≤ 5 ∧
  stored (database []) (persisted (run open_config [] demo_ops).1) !! lit "a" = Some (phone (lit "a")).
Proof.
  destruct (pairing_safe open_config [] demo_ops) as (_ & _ & Hl & Hd). split.
  - apply (Hl 1). apply (demo_prefix (λ ops, admitted (run open_config [] ops).2 ≤ 1)).
    vm_compute. reflexivity.
  - rewrite (Hd (lit "a")); [vm_compute; reflexivity| |vm_compute; reflexivity].
    apply (demo_prefix (λ ops, length (writes (lit "a") (run open_config [] ops).2) ≤ 1)).
    vm_compute. reflexivity.
Defined.

(** Two completions that overlap pair two devices with one token. *)
Example token_used_twice :
  let s := run open_config []
    (in_a_row 0 (Create (lit "t")) 0 ++
     [Begin (Complete (lit "t") (phone (lit "a"))); Step 1 1] ++
     in_a_row 2 (Complete (lit "t") (phone (lit "b"))) 2 ++ replicate 5 (Step 1 3))%Z in
  (devices s.1 !! lit "a", devices s.1 !! lit "b") = (Some (phone (lit "a")), Some (phone (lit "b"))).
Proof. vm_compute. reflexivity. Qed.

(** Two creations that both count four requests leave six. *)
Example six_requests :
  size (pending (run open_config []
    (in_a_row 0 (Create (lit "a")) 0 ++ in_a_row 1 (Create (lit "b")) 0 ++
     in_a_row 2 (Create (lit "c")) 0 ++ in_a_row 3 (Create (lit "d")) 0 ++
     [Begin (Create (lit "e")); Begin (Create (lit "f")); Step 4 0; Step 5 0; Step 4 0; Step 5 0])%Z).1) = 6.
Proof. vm_compute. reflexivity. Qed.

(** A device removed while its pairing is being saved stays in the database. *)
Example removed_device_saved :
  let s := run open_config []
    (in_a_row 0 (Create (lit "t")) 0 ++
     Begin (Complete (lit "t") (phone (lit "a"))) :: replicate 5 (Step 1 1) ++
     in_a_row 2 (Drop (lit "a")) 2 ++ [Step 1 3])%Z in
  (devices s.1 !! lit "a", stored ∅ (persisted s.1) !! lit "a") = (None, Some (phone (lit "a"))).
Proof. vm_compute. reflexivity. Qed.

(** A device that is paired already cannot renew its pairing when the limit
    is reached, and the attempt leaves its token usable. *)
Example renewal_refused :
  let cfg := mkPairingConfig true 1 300 (lit "none") None None in
  let m := serve_all (booted cfg [phone (lit "a")]) [(Create (lit "t"), 0%Z)] in
  (complete_pairing m 1 (lit "t") (phone (lit "a"))).2
  = Err (lit "Maximum paired devices (1) reached. Remove a device first.").
Proof. vm_compute. reflexivity. Qed.
