(* ===== verification/WireProtocol.v ===== *)
(** * The wire protocol between nodes

    [openfang-wire/src/message.rs] and [openfang-wire/src/peer.rs]: framed JSON
    messages over TCP, the handshake with an HMAC, and the loop that serves a
    peer.

    A connection is what can be read from it ([Reader]: the bytes that arrive
    and, if it breaks instead of being closed, the error) and what is written
    to it. The functions are computations in a monad over the registry, the
    reader, the messages written and the calls made to the kernel through
    [PeerHandle]. The codec of JSON and HMAC-SHA256 in hexadecimal are
    parameters; fresh ids and the time are arguments. [write_error n] is the
    error of the write after [n] messages. Every message takes at least four
    bytes, so the number of bytes is fuel enough for [connection_loop]
    ([connection_loop_enough]). *)

From Stdlib Require Import Ascii ZArith Lia.
From stdpp Require Import base gmap strings pretty list sets.
From S2P Require Import Prelude Strs.

(** * The registry of peers

    [openfang-wire/src/registry.rs], with [RemoteAgentInfo] of
    [openfang-wire/src/message.rs]: the peers a node knows, whether they are
    connected, and the agents they advertise. The lock makes every operation
    one step. The order in which the values of a [HashMap] are visited is a
    parameter. Addresses are their printed form and times milliseconds. *)

Module PeerRegistry.

Record RemoteAgentInfo : Type := mkAgent {
  agent_id : str;
  agent_name : str;
  description : str;
  tags : list str;
  tools : list str;
  agent_state : str
}.

Record RemoteAgent : Type := mkRemote { peer_node_id : str; info : RemoteAgentInfo }.

Inductive PeerState : Type := Connected | Disconnected.

#[export] Instance peer_state_eq_dec : EqDecision PeerState.
Proof. solve_decision. Defined.

Record PeerEntry : Type := mkPeer {
  node_id : str;
  node_name : str;
  address : str;
  agents : list RemoteAgentInfo;
  state : PeerState;
  connected_at : Z;
  protocol_version : Z
}.

Abbreviation PeerRegistry := (gmap str PeerEntry).

Definition with_state (st : PeerState) (p : PeerEntry) : PeerEntry :=
  mkPeer (node_id p) (node_name p) (address p) (agents p) st (connected_at p) (protocol_version p).

Definition with_agents (l : list RemoteAgentInfo) (p : PeerEntry) : PeerEntry :=
  mkPeer (node_id p) (node_name p) (address p) l (state p) (connected_at p) (protocol_version p).

Definition new_registry : PeerRegistry := ∅.

Definition add_peer (r : PeerRegistry) (entry : PeerEntry) : PeerRegistry := <[node_id entry := entry]> r.

Definition remove_peer (r : PeerRegistry) (id : str) : PeerRegistry * option PeerEntry := (delete id r, r !! id).

Definition mark_disconnected (r : PeerRegistry) (id : str) : PeerRegistry := alter (with_state Disconnected) id r.
Definition mark_connected (r : PeerRegistry) (id : str) : PeerRegistry := alter (with_state Connected) id r.

Definition get_peer (r : PeerRegistry) (id : str) : option PeerEntry := r !! id.

Definition update_agents (r : PeerRegistry) (id : str) (l : list RemoteAgentInfo) : PeerRegistry :=
  alter (with_agents l) id r.

(** The first agent with the same id is replaced, or the agent is pushed. *)
Fixpoint put_agent (a : RemoteAgentInfo) (l : list RemoteAgentInfo) : list RemoteAgentInfo :=
  match l with
  | [] => [a]
  | existing :: l => if str_eqb (agent_id existing) (agent_id a) then a :: l else existing :: put_agent a l
  end.

Definition add_agent (r : PeerRegistry) (id : str) (a : RemoteAgentInfo) : PeerRegistry :=
  alter (λ p, with_agents (put_agent a (agents p)) p) id r.

Definition remove_agent (r : PeerRegistry) (id aid : str) : PeerRegistry :=
  alter (λ p, with_agents (List.filter (λ a, negb (str_eqb (agent_id a) aid)) (agents p)) p) id r.

Definition is_connected (p : PeerEntry) : bool := bool_decide (state p = Connected).

Definition total_count (r : PeerRegistry) : nat := size r.

Section queries.
Context `{UnicodeCase} (values : PeerRegistry → list PeerEntry).
Hypothesis values_perm : ∀ r, values r ≡ₚ (map_to_list r).*2.

Definition all_peers (r : PeerRegistry) : list PeerEntry := values r.
Definition connected_peers (r : PeerRegistry) : list PeerEntry := List.filter is_connected (values r).
Definition connected_count (r : PeerRegistry) : nat := length (connected_peers r).

Definition agent_matches (query_lower : str) (a : RemoteAgentInfo) : bool :=
  contains (to_lowercase (agent_name a)) query_lower
  || contains (to_lowercase (description a)) query_lower
  || existsb (λ t, contains (to_lowercase t) query_lower) (tags a).

(** The loops over the connected peers and their agents. *)
Definition collect (keep : RemoteAgentInfo → bool) (r : PeerRegistry) : list RemoteAgent :=
  concat ((λ p, if is_connected p
                then mkRemote (node_id p) <$> List.filter keep (agents p) else []) <$> values r).

Definition find_agents (r : PeerRegistry) (query : str) : list RemoteAgent :=
  collect (agent_matches (to_lowercase query)) r.

Definition all_remote_agents (r : PeerRegistry) : list RemoteAgent := collect (λ _, true) r.

(** ** Entries are under their node id, and agents are listed once *)

Definition listed_once (p : PeerEntry) : Prop := NoDup (agent_id <$> agents p).

Definition registry_ok (r : PeerRegistry) : Prop :=
  map_Forall (λ id p, node_id p = id ∧ listed_once p) r.

Lemma put_agent_ids a l x : x ∈ agent_id <$> put_agent a l ↔ x = agent_id a ∨ x ∈ agent_id <$> l.
Proof.
  induction l as [|b l IH]; cbn [put_agent]; [rewrite fmap_cons, fmap_nil; set_solver|].
  destruct (str_eqb (agent_id b) (agent_id a)) eqn:E; rewrite !fmap_cons, !elem_of_cons.
  - apply str_eqb_spec in E as ->. tauto.
  - rewrite IH. tauto.
Qed.

Lemma put_agent_NoDup a l : NoDup (agent_id <$> l) → NoDup (agent_id <$> put_agent a l).
Proof.
  induction l as [|b l IH]; cbn [put_agent]; [intros _; apply NoDup_singleton|].
  rewrite fmap_cons. intros [Hb Hl]%NoDup_cons.
  destruct (str_eqb (agent_id b) (agent_id a)) eqn:E.
  - apply str_eqb_spec in E. rewrite fmap_cons, <-E. by apply NoDup_cons.
  - rewrite fmap_cons. apply NoDup_cons. split; [|auto]. rewrite put_agent_ids.
    intros [Heq|Hin]; [|done]. rewrite Heq in E. by rewrite (proj2 (str_eqb_spec _ _) eq_refl) in E.
Qed.

Lemma filter_ids_NoDup (f : RemoteAgentInfo → bool) l :
  NoDup (agent_id <$> l) → NoDup (agent_id <$> List.filter f l).
Proof.
  induction l as [|b l IH]; [done|]. rewrite fmap_cons. intros [Hb Hl]%NoDup_cons. cbn [List.filter].
  destruct (f b); [|auto]. rewrite fmap_cons. apply NoDup_cons. split; [|auto].
  intros (c & Hc & Hin)%list_elem_of_fmap. apply Hb. rewrite Hc. apply list_elem_of_fmap_2.
  by apply elem_of_List_filter in Hin as [Hin _].
Qed.

Lemma registry_ok_alter f r id :
  (∀ p, node_id (f p) = node_id p) → (∀ p, listed_once p → listed_once (f p)) →
  registry_ok r → registry_ok (alter f id r).
Proof.
  intros Hn Hl Hr i p. destruct (decide (i = id)) as [->|Hne].
  - rewrite lookup_alter_eq. intros (q & Hq & ->)%fmap_Some. apply Hr in Hq as [Hq Hq'].
    split; [by rewrite Hn|auto].
  - rewrite lookup_alter_ne by done. apply Hr.
Qed.

Inductive registry_op : Type :=
| Add (p : PeerEntry) | RemovePeer (id : str) | Down (id : str) | Up (id : str)
| Agents (id : str) (l : list RemoteAgentInfo) | AddAgent (id : str) (a : RemoteAgentInfo)
| RemoveAgent (id aid : str).

Definition registry_step (r : PeerRegistry) (o : registry_op) : PeerRegistry :=
  match o with
  | Add p => add_peer r p
  | RemovePeer id => (remove_peer r id).1
  | Down id => mark_disconnected r id
  | Up id => mark_connected r id
  | Agents id l => update_agents r id l
  | AddAgent id a => add_agent r id a
  | RemoveAgent id aid => remove_agent r id aid
  end.

(** The lists that peers send name every agent once. *)
Definition op_ok (o : registry_op) : Prop :=
  match o with
  | Add p => listed_once p
  | Agents _ l => NoDup (agent_id <$> l)
  | _ => True
  end.

Lemma registry_step_ok r o : op_ok o → registry_ok r → registry_ok (registry_step r o).
Proof.
  intros Ho Hr. destruct o; cbn [registry_step].
  - apply map_Forall_insert_2; [|done]. by split.
  - by apply map_Forall_delete.
  - by apply registry_ok_alter.
  - by apply registry_ok_alter.
  - by apply registry_ok_alter.
  - apply registry_ok_alter; try done. intros p. apply put_agent_NoDup.
  - apply registry_ok_alter; try done. intros p. apply filter_ids_NoDup.
Qed.

Lemma elem_of_collected keep r id a :
  registry_ok r →
  mkRemote id a ∈ collect keep r ↔
  ∃ p, r !! id = Some p ∧ state p = Connected ∧ a ∈ agents p ∧ keep a = true.
Proof.
  intros Hr. unfold collect. rewrite list_elem_of_In, in_concat. split.
  - intros (l & (p & -> & Hp)%list_elem_of_In%list_elem_of_fmap & Ha%list_elem_of_In).
    unfold is_connected in Ha. case_bool_decide as Hst; [|by apply not_elem_of_nil in Ha].
    apply list_elem_of_fmap in Ha as (b & [= -> ->] & [Hin Hk]%elem_of_List_filter).
    rewrite values_perm in Hp. apply list_elem_of_fmap in Hp as ([k q] & -> & Hkq%elem_of_map_to_list).
    cbn [snd] in *. destruct (Hr _ _ Hkq) as [-> _]. eauto.
  - intros (p & Hp & Hst & Hin & Hk). destruct (Hr _ _ Hp) as [Hid _].
    exists (mkRemote (node_id p) <$> List.filter keep (agents p)). rewrite <-!list_elem_of_In. split.
    + apply list_elem_of_fmap. exists p. unfold is_connected. rewrite bool_decide_true by done. split; [done|].
      rewrite values_perm. apply list_elem_of_fmap. exists (id, p). by rewrite elem_of_map_to_list.
    + rewrite Hid. apply list_elem_of_fmap_2, elem_of_List_filter. by split.
Qed.

(** After any sequence of operations, a search finds exactly the agents of
    connected peers that match, a peer is under its node id, and no peer lists
    an agent twice. *)
Theorem registry_search ops query id a :
  Forall op_ok ops →
  let r := foldl registry_step new_registry ops in
  registry_ok r ∧
  (mkRemote id a ∈ find_agents r query ↔
   ∃ p, r !! id = Some p ∧ state p = Connected ∧ a ∈ agents p ∧ agent_matches (to_lowercase query) a = true) ∧
  connected_count r = size (filter (λ e, state e.2 = Connected) r).
Proof.
  intros Hops r. assert (registry_ok r) as Hr.
  { unfold r. clear r. induction ops as [|o ops IH] using rev_ind; [apply map_Forall_empty|].
    apply Forall_app in Hops as [Hops [Ho _]%Forall_cons]. rewrite foldl_app. by apply registry_step_ok; auto. }
  split; [done|]. split; [by apply elem_of_collected|].
  unfold connected_count, connected_peers. rewrite (length_List_filter_perm _ _ _ (values_perm r)).
  clear. generalize r. clear r. apply map_ind.
  - rewrite map_to_list_empty, map_filter_empty, map_size_empty. done.
  - intros i x m Hi IH. rewrite (length_List_filter_perm _ _ ((x :: (map_to_list m).*2))).
    2:{ by rewrite map_to_list_insert. }
    cbn [List.filter]. unfold is_connected at 1. case_bool_decide as Hst.
    + rewrite map_filter_insert_True by done. rewrite map_size_insert_None; [cbn; by rewrite IH|].
      apply map_lookup_filter_None. by left.
    + rewrite map_filter_insert_False by done. rewrite delete_id by done. exact IH.
Qed.
End queries.

End PeerRegistry.
Import PeerRegistry.

Inductive WireRequest : Type :=
| Handshake (node_id node_name : str) (protocol_version : Z) (agents : list RemoteAgentInfo)
    (nonce auth_hmac : str)
| Discover (query : str)
| AgentMessage (agent message : str) (sender : option str)
| Ping.

Inductive WireResponse : Type :=
| HandshakeAck (node_id node_name : str) (protocol_version : Z) (agents : list RemoteAgentInfo)
    (nonce auth_hmac : str)
| DiscoverResult (agents : list RemoteAgentInfo)
| AgentResponse (text : str)
| Pong (uptime_secs : Z)
| Error (code : Z) (message : str).

Inductive WireNotification : Type :=
| AgentSpawned (agent : RemoteAgentInfo)
| AgentTerminated (agent_id : str)
| ShuttingDown.

Inductive WireMessageKind : Type :=
| Request (r : WireRequest)
| Response (r : WireResponse)
| Notification (n : WireNotification).

Record WireMessage : Type := mkMessage { id : str; kind : WireMessageKind }.

Definition PROTOCOL_VERSION : Z := 1.
Definition MAX_MESSAGE_SIZE : Z := 16 * 1024 * 1024.

Inductive WireError : Type :=
| Io (e : str)
| Json (e : str)
| HandshakeFailed (e : str)
| ConnectionClosed
| MessageTooLarge (size max : Z)
| VersionMismatch (local remote : Z).

Record PeerConfig : Type := mkPeerConfig {
  listen_addr : str;
  local_id : str;
  local_name : str;
  shared_secret : str
}.

(** [u32::to_be_bytes] and [u32::from_be_bytes] *)
Definition to_be_bytes (n : Z) : str :=
  (λ k, ascii_of_nat (Z.to_nat (Z.land (Z.shiftr n k) 255))) <$> [24; 16; 8; 0]%Z.

Definition decode_length (header : str) : Z :=
  foldl (λ acc c, Z.lor (Z.shiftl acc 8) (Z.of_nat (nat_of_ascii c))) 0%Z header.

(** The calls made to the kernel. *)
Inductive PeerCall : Type :=
| AskedAgents
| AskedMessage (agent message : str) (sender : option str)
| AskedDiscover (query : str)
| AskedUptime.

(** The kernel: what it answers after the calls so far. *)
Record PeerHandle : Type := mkHandle {
  local_agents : list PeerCall → list RemoteAgentInfo;
  handle_agent_message : list PeerCall → str → str → option str → result str str;
  discover_agents : list PeerCall → str → list RemoteAgentInfo;
  uptime_secs : list PeerCall → Z
}.

Record Reader : Type := mkReader { unread : str; broken : option str }.

Record World : Type := mkWorld {
  registry : PeerRegistry;
  reader : Reader;
  sent : list WireMessage;
  calls : list PeerCall
}.

Definition W (A : Type) : Type := World → World * result A WireError.

#[export] Instance W_ret : MRet W := λ _ x w, (w, Ok x).
#[export] Instance W_bind : MBind W := λ _ _ f m w,
  match m w with
  | (w', Ok x) => f x w'
  | (w', Err e) => (w', Err e)
  end.

Definition fail {A} (e : WireError) : W A := λ w, (w, Err e).
Definition update (f : PeerRegistry → PeerRegistry) : W unit :=
  λ w, (mkWorld (f (registry w)) (reader w) (sent w) (calls w), Ok tt).
Definition ask {A} (c : PeerCall) (f : list PeerCall → A) : W A :=
  λ w, (mkWorld (registry w) (reader w) (sent w) (calls w ++ [c]), Ok (f (calls w))).

Section protocol.
Context (to_json : WireMessage → result str str) (from_json : str → result WireMessage str).
Context (hmac : str → str → str).

(** ** Frames *)

Definition encode_message (m : WireMessage) : result str str :=
  match to_json m with
  | Err e => Err e
  | Ok json => Ok (to_be_bytes (Z.of_nat (length json) mod 2 ^ 32) ++ json)
  end.

Definition decode_message (body : str) : result WireMessage str := from_json body.

(** [read_exact]: the bytes, or how the reading ends. *)
Definition read_exact (r : Reader) (n : nat) : result (str * Reader) WireError :=
  if length (unread r) <? n
  then Err (match broken r with Some e => Io e | None => ConnectionClosed end)
  else Ok (take n (unread r), mkReader (drop n (unread r)) (broken r)).

Definition read_from (r : Reader) : result (WireMessage * Reader) WireError :=
  match read_exact r 4 with
  | Err e => Err e
  | Ok (header, r) =>
      let len := decode_length header in
      if (MAX_MESSAGE_SIZE <? len)%Z then Err (MessageTooLarge len MAX_MESSAGE_SIZE)
      else match read_exact r (Z.to_nat len) with
           | Err ConnectionClosed => Err (Io (lit "unexpected end of file"))
           | Err e => Err e
           | Ok (body, r) =>
               match decode_message body with
               | Ok m => Ok (m, r)
               | Err e => Err (Json e)
               end
           end
  end.

(** After an error nothing more is read from the connection. *)
Definition read_message : W WireMessage := λ w,
  match read_from (reader w) with
  | Ok (m, r) => (mkWorld (registry w) r (sent w) (calls w), Ok m)
  | Err e => (w, Err e)
  end.

Context (write_error : nat → option str).

Definition write_message (m : WireMessage) : W unit := λ w,
  match encode_message m with
  | Err e => (w, Err (Json e))
  | Ok _ =>
      match write_error (length (sent w)) with
      | Some e => (w, Err (Io e))
      | None => (mkWorld (registry w) (reader w) (sent w ++ [m]) (calls w), Ok tt)
      end
  end.

(** ** Authentication *)

Definition hmac_sign (secret data : str) : str := hmac secret data.

Definition hmac_verify (secret data signature : str) : bool := str_eqb (hmac_sign secret data) signature.

(** ** Serving a peer *)

Context (handle : PeerHandle) (node : PeerConfig).

Definition ask_agents : W (list RemoteAgentInfo) := ask AskedAgents (local_agents handle).

Definition handle_notification (peer : str) (n : WireNotification) : W unit :=
  match n with
  | AgentSpawned a => update (λ r, add_agent r peer a)
  | AgentTerminated aid => update (λ r, remove_agent r peer aid)
  | ShuttingDown => update (λ r, mark_disconnected r peer)
  end.

Definition handle_request_in_loop (i : str) (q : WireRequest) : W WireMessage :=
  answer ←
    match q with
    | Ping => u ← ask AskedUptime (uptime_secs handle); mret (Pong u)
    | Discover query => l ← ask (AskedDiscover query) (λ c, discover_agents handle c query); mret (DiscoverResult l)
    | AgentMessage agent message sender =>
        r ← ask (AskedMessage agent message sender) (λ c, handle_agent_message handle c agent message sender);
        mret (match r with Ok text => AgentResponse text | Err e => Error 500 e end)
    | Handshake _ _ _ _ _ _ => mret (Error 400 (lit "Unexpected request in connection loop"))
    end;
  mret (mkMessage i (Response answer)).

Fixpoint connection_loop (fuel : nat) (peer : str) : W unit := λ w,
  match fuel with
  | 0 => (w, Ok tt)
  | S fuel =>
      match read_message w with
      | (w, Err ConnectionClosed) => (w, Ok tt)
      | (w, Err e) => (w, Err e)
      | (w, Ok m) =>
          (match kind m with
           | Notification n => handle_notification peer n;; connection_loop fuel peer
           | Request q =>
               response ← handle_request_in_loop (id m) q;
               write_message response;;
               connection_loop fuel peer
           | Response _ => connection_loop fuel peer
           end) w
      end
  end.

(** The loop until the connection ends, and what follows it. *)
Definition serve (peer : str) : W unit := λ w,
  let w' := (connection_loop (S (length (unread (reader w)))) peer w).1 in
  update (λ r, mark_disconnected r peer) w'.

(** ** Inbound connections *)

Definition refuse {A} (i : str) (code : Z) (text : str) (e : WireError) : W A :=
  write_message (mkMessage i (Response (Error code text)));;
  fail e.

Definition handle_inbound (addr ack_nonce : str) (now : Z) : W unit :=
  m ← read_message;
  match kind m with
  | Request (Handshake peer_id peer_name version peer_agents nonce auth_hmac) =>
      if negb (version =? PROTOCOL_VERSION)%Z then
        refuse (id m) 1
          (lit "Protocol version mismatch: expected " ++ show_Z PROTOCOL_VERSION ++ lit ", got " ++ show_Z version)
          (VersionMismatch PROTOCOL_VERSION version)
      else if negb (hmac_verify (shared_secret node) (nonce ++ peer_id) auth_hmac) then
        refuse (id m) 403 (lit "HMAC authentication failed")
          (HandshakeFailed (lit "HMAC verification failed on incoming Handshake"))
      else
        own ← ask_agents;
        write_message (mkMessage (id m)
          (Response (HandshakeAck (local_id node) (local_name node) PROTOCOL_VERSION own ack_nonce
             (hmac_sign (shared_secret node) (ack_nonce ++ local_id node)))));;
        update (λ r, add_peer r (mkPeer peer_id peer_name addr peer_agents Connected now version));;
        serve peer_id
  | _ =>
      refuse (id m) 401 (lit "Authentication required: complete HMAC handshake first")
        (HandshakeFailed (lit "Rejected unauthenticated request — handshake required"))
  end.

(** ** Outbound connections *)

Definition send_handshake (nonce msg_id : str) : W unit :=
  own ← ask_agents;
  write_message (mkMessage msg_id
    (Request (Handshake (local_id node) (local_name node) PROTOCOL_VERSION own nonce
       (hmac_sign (shared_secret node) (nonce ++ local_id node))))).

(** The checks on the answer to a handshake: the node that answered. *)
Definition check_ack (k : WireMessageKind) : result (str * str * Z * list RemoteAgentInfo) WireError :=
  match k with
  | Response (HandshakeAck peer_id peer_name version peer_agents ack_nonce ack_hmac) =>
      if negb (version =? PROTOCOL_VERSION)%Z then Err (VersionMismatch PROTOCOL_VERSION version)
      else if negb (hmac_verify (shared_secret node) (ack_nonce ++ peer_id) ack_hmac)
      then Err (HandshakeFailed (lit "HMAC verification failed on HandshakeAck"))
      else Ok (peer_id, peer_name, version, peer_agents)
  | Response (Error code message) =>
      Err (HandshakeFailed (lit "Remote error " ++ lit (pretty code) ++ lit ": " ++ message))
  | _ => Err (HandshakeFailed (lit "Unexpected response to handshake"))
  end.

Definition or_fail {A} (r : result A WireError) : W A := λ w, (w, r).

(** [TcpStream::connect]: the new connection, or the error. *)
Definition connect (dial : result Reader str) : W unit := λ w,
  match dial with
  | Ok r => (mkWorld (registry w) r (sent w) (calls w), Ok tt)
  | Err e => (w, Err (Io e))
  end.

(** [connect_to_peer] up to the task it spawns, which is [serve] for the peer
    returned. *)
Definition connect_to_peer (addr : str) (dial : result Reader str) (nonce msg_id : str) (now : Z) : W str :=
  connect dial;;
  send_handshake nonce msg_id;;
  m ← read_message;
  '(peer_id, peer_name, version, peer_agents) ← or_fail (check_ack (kind m));
  update (λ r, add_peer r (mkPeer peer_id peer_name addr peer_agents Connected now version));;
  mret peer_id.

Definition send_to_peer (target : str) (dial : str → result Reader str) (nonce hs_id msg_id : str)
    (agent message : str) (sender : option str) : W str :=
  peer ← (λ w, (w, match get_peer (registry w) target with
                   | Some p => Ok p
                   | None => Err (HandshakeFailed (lit "Unknown peer: " ++ target))
                   end));
  connect (dial (address peer));;
  send_handshake nonce hs_id;;
  ack ← read_message;
  or_fail (check_ack (kind ack));;
  write_message (mkMessage msg_id (Request (AgentMessage agent message sender)));;
  response ← read_message;
  match kind response with
  | Response (AgentResponse text) => mret text
  | Response (Error code message) =>
      fail (HandshakeFailed (lit "Remote error " ++ lit (pretty code) ++ lit ": " ++ message))
  | _ => fail (HandshakeFailed (lit "Unexpected response type"))
  end.

(** [broadcast_notification]: a connection to every connected peer, on which
    one message is written; the errors. *)
Definition broadcast_notification (values : PeerRegistry → list PeerEntry) (fresh : PeerEntry → str)
    (dial : PeerEntry → option WireError) (n : WireNotification) (r : PeerRegistry)
    : list (PeerEntry * WireMessage) * list (str * WireError) :=
  let peers := connected_peers values r in
  ((λ p, (p, mkMessage (fresh p) (Notification n))) <$> List.filter (λ p, negb (bool_decide (is_Some (dial p)))) peers,
   omap (λ p, pair (node_id p) <$> dial p) peers).

Definition start_check : result unit WireError :=
  if is_empty (shared_secret node)
  then Err (HandshakeFailed (lit "OFP requires shared_secret. Set [network] shared_secret in config.toml"))
  else Ok tt.
End protocol.

(** ** Frames are read back *)

Lemma byte_value x : (0 ≤ x < 256)%Z → Z.of_nat (nat_of_ascii (ascii_of_nat (Z.to_nat x))) = x.
Proof. intros Hx. rewrite nat_ascii_embedding by lia. lia. Qed.

Lemma shift_or acc b : (0 ≤ b < 256)%Z → Z.lor (Z.shiftl acc 8) b = (acc * 256 + b)%Z.
Proof.
  intros Hb. pose proof (Z.add_lor_land (Z.shiftl acc 8) b) as Hs.
  assert (Z.land (Z.shiftl acc 8) b = 0%Z) as Hz.
  { apply Z.bits_inj'. intros k Hk. rewrite Z.land_spec, Z.bits_0.
    destruct (Z.ltb_spec k 8).
    - rewrite Z.shiftl_spec_low by done. done.
    - rewrite (Z.bits_above_log2 b k), andb_false_r; [done|lia|].
      destruct (decide (b = 0)%Z) as [->|]; [cbn; lia|]. apply Z.log2_lt_pow2; [lia|].
      eapply Z.lt_le_trans; [exact (proj2 Hb)|]. apply (Z.pow_le_mono_r 2 8 k); lia. }
  rewrite Hz in Hs. rewrite Z.shiftl_mul_pow2 in * by lia. change (2 ^ 8)%Z with 256%Z in *. lia.
Qed.

Lemma decode_length_spec n : (0 ≤ n < 2 ^ 32)%Z → decode_length (to_be_bytes n) = n.
Proof.
  intros Hn. unfold decode_length, to_be_bytes. cbn [fmap list_fmap foldl].
  change 255%Z with (Z.ones 8). rewrite !Z.land_ones by lia. rewrite !Z.shiftr_div_pow2 by lia.
  change (2 ^ 8)%Z with 256%Z. change (2 ^ 32)%Z with 4294967296%Z in Hn.
  change (2 ^ 24)%Z with 16777216%Z. change (2 ^ 16)%Z with 65536%Z. change (2 ^ 0)%Z with 1%Z.
  assert (∀ x, 0 ≤ x mod 256 < 256)%Z as Hm by (intros x; apply Z.mod_pos_bound; lia).
  rewrite !byte_value by apply Hm. rewrite !shift_or by apply Hm.
  Z.div_mod_to_equations. lia.
Qed.

Lemma length_to_be_bytes n : length (to_be_bytes n) = 4.
Proof. done. Qed.

Lemma Ok_inj {T E} (x y : T) : Ok (E := E) x = Ok y → x = y.
Proof. congruence. Qed.

Section codec.
Context (to_json : WireMessage → result str str) (from_json : str → result WireMessage str).

(** What is serialized is parsed back. *)
Definition faithful_json : Prop := ∀ m json, to_json m = Ok json → from_json json = Ok m.

(** A message that fits into a frame. *)
Definition frame_of (m : WireMessage) (f : str) : Prop :=
  encode_message to_json m = Ok f ∧ (Z.of_nat (length f) ≤ MAX_MESSAGE_SIZE + 4)%Z.

Lemma read_frame m f rest b :
  faithful_json → frame_of m f →
  read_from from_json (mkReader (f ++ rest) b) = Ok (m, mkReader rest b).
Proof.
  intros Hj [He Hl]. unfold encode_message in He. destruct (to_json m) as [json|] eqn:E; [|done].
  apply Ok_inj in He as <-. apply Hj in E. rewrite length_app, length_to_be_bytes in Hl. unfold MAX_MESSAGE_SIZE in Hl.
  unfold read_from, read_exact. cbn [unread broken].
  rewrite !length_app, length_to_be_bytes, (proj2 (Nat.ltb_ge _ _)) by lia.
  rewrite Z.mod_small by lia. rewrite <-app_assoc, take_app_length', drop_app_length' by done.
  rewrite decode_length_spec by lia. rewrite (proj2 (Z.ltb_ge _ _)) by (unfold MAX_MESSAGE_SIZE; lia).
  cbn [unread broken]. rewrite Nat2Z.id, length_app, (proj2 (Nat.ltb_ge _ _)) by lia.
  rewrite take_app_length', drop_app_length' by done. unfold decode_message. by rewrite E.
Qed.

Fixpoint read_all (fuel : nat) (r : Reader) : list WireMessage * WireError :=
  match fuel with
  | 0 => ([], ConnectionClosed)
  | S fuel =>
      match read_from from_json r with
      | Err e => ([], e)
      | Ok (m, r) => let '(ms, e) := read_all fuel r in (m :: ms, e)
      end
  end.

Lemma read_all_frames ms fs rest b fuel :
  faithful_json → Forall2 frame_of ms fs → length ms < fuel →
  read_all fuel (mkReader (concat fs ++ rest) b) =
  let '(ms', e) := read_all (fuel - length ms) (mkReader rest b) in (ms ++ ms', e).
Proof.
  intros Hj Hf. revert fuel. induction Hf as [|m f ms fs Hm Hf IH]; intros fuel Hfuel.
  - cbn [concat app length]. rewrite Nat.sub_0_r. by destruct (read_all _ _).
  - destruct fuel as [|fuel]; [lia|]. cbn [concat length Nat.sub]. cbn [read_all]. rewrite <-app_assoc.
    rewrite (read_frame m) by done. rewrite IH by (cbn in Hfuel; lia). by destruct (read_all _ _).
Qed.

Lemma read_cut m f cut :
  frame_of m f → 4 ≤ cut < length f → read_from from_json (mkReader (take cut f) None) = Err (Io (lit "unexpected end of file")).
Proof.
  intros [He Hl] Hcut.
  unfold encode_message in He. destruct (to_json m) as [json|]; [|done]. apply Ok_inj in He as <-.
  rewrite length_app, length_to_be_bytes in *. unfold MAX_MESSAGE_SIZE in Hl. rewrite Z.mod_small by lia.
  rewrite take_app, length_to_be_bytes, (take_ge (to_be_bytes _)) by (rewrite length_to_be_bytes; lia).
  unfold read_from, read_exact. cbn [unread broken].
  rewrite length_app, length_to_be_bytes, (proj2 (Nat.ltb_ge _ _)) by lia.
  rewrite take_app_length', drop_app_length' by done.
  rewrite decode_length_spec by lia. rewrite (proj2 (Z.ltb_ge _ _)) by (unfold MAX_MESSAGE_SIZE; lia).
  cbn [unread broken]. by rewrite Nat2Z.id, length_take, (proj2 (Nat.ltb_lt _ _)) by lia.
Qed.

Lemma read_too_large len body b :
  (MAX_MESSAGE_SIZE < len < 2 ^ 32)%Z →
  read_from from_json (mkReader (to_be_bytes len ++ body) b) = Err (MessageTooLarge len MAX_MESSAGE_SIZE).
Proof.
  intros Hlen. unfold read_from, read_exact. cbn [unread broken].
  rewrite length_app, length_to_be_bytes, (proj2 (Nat.ltb_ge _ _)) by lia.
  rewrite take_app_length' by done. unfold MAX_MESSAGE_SIZE in *.
  rewrite decode_length_spec by lia. by rewrite (proj2 (Z.ltb_lt _ _)) by lia.
Qed.

(** C27: Messages written to a connection are read back one by one whatever
    follows them, and what follows is then read as if it stood alone; the end
    of the connection is noticed; a connection that ends within the body of a
    message is an error, and so is a frame over the limit, whatever its body. *)
Theorem frames_round_trip ms fs :
  faithful_json → Forall2 frame_of ms fs →
  (∀ rest b fuel, length ms < fuel →
    read_all fuel (mkReader (concat fs ++ rest) b) =
    let '(ms', e) := read_all (fuel - length ms) (mkReader rest b) in (ms ++ ms', e)) ∧
  (∀ fuel, length ms < fuel → read_all fuel (mkReader (concat fs) None) = (ms, ConnectionClosed)) ∧
  (∀ m f cut fuel, frame_of m f → length ms < fuel → 4 ≤ cut < length f →
    ∃ e, read_all fuel (mkReader (concat fs ++ take cut f) None) = (ms, Io e)) ∧
  (∀ len body b fuel, (MAX_MESSAGE_SIZE < len < 2 ^ 32)%Z → length ms < fuel →
    read_all fuel (mkReader (concat fs ++ to_be_bytes len ++ body) b) = (ms, MessageTooLarge len MAX_MESSAGE_SIZE)).
Proof.
  intros Hj Hf. split; [intros; by apply read_all_frames|]. split; [|split].
  - intros fuel Hfuel. rewrite <-(app_nil_r (concat fs)), (read_all_frames ms) by done.
    destruct (fuel - length ms) as [|k] eqn:E; [lia|]. cbn. by rewrite app_nil_r.
  - intros m f cut fuel Hm Hfuel Hcut. exists (lit "unexpected end of file"). rewrite (read_all_frames ms) by done.
    destruct (fuel - length ms) as [|k] eqn:E; [lia|]. cbn [read_all].
    rewrite (read_cut m) by done. by rewrite app_nil_r.
  - intros len body b fuel Hlen Hfuel. rewrite (read_all_frames ms) by done.
    destruct (fuel - length ms) as [|k] eqn:E; [lia|]. cbn [read_all].
    rewrite read_too_large by done. by rewrite app_nil_r.
Qed.
End codec.

(** ** What a connection can do *)

Section connection.
Context (to_json : WireMessage → result str str) (from_json : str → result WireMessage str).
Context (hmac : str → str → str) (write_error : nat → option str) (handle : PeerHandle) (node : PeerConfig).

Abbreviation read_message := (read_message from_json).
Abbreviation write_message := (write_message to_json write_error).
Abbreviation connection_loop := (connection_loop to_json from_json write_error handle).
Abbreviation serve := (serve to_json from_json write_error handle).
Abbreviation handle_inbound := (handle_inbound to_json from_json hmac write_error handle node).

Lemma bind_eq {A B} (m : W A) (f : A → W B) w :
  (m ≫= f) w = match m w with (w', Ok x) => f x w' | (w', Err e) => (w', Err e) end.
Proof. reflexivity. Qed.

(** What serving a peer does to the world: a relation that is kept by every
    effect the loop has is kept by the loop. *)
Section effects.
Context (peer : str) (R : World → World → Prop) `{!PreOrder R}.

Definition always {A} (m : W A) : Prop := ∀ w, R w (m w).1.

Record harmless : Prop := {
  harmless_read w rd : R w (mkWorld (registry w) rd (sent w) (calls w));
  harmless_write w m : R w (mkWorld (registry w) (reader w) (sent w ++ [m]) (calls w));
  harmless_ask w c : R w (mkWorld (registry w) (reader w) (sent w) (calls w ++ [c]));
  harmless_alter w f : R w (mkWorld (alter f peer (registry w)) (reader w) (sent w) (calls w))
}.

Context (HR : harmless).

Lemma steps_bind {A B} (m : W A) (f : A → W B) : always m → (∀ x, always (f x)) → always (m ≫= f).
Proof.
  intros Hm Hf w. rewrite bind_eq. specialize (Hm w).
  destruct (m w) as [w' [x|e]]; cbn in *; [|done]. etrans; [done|apply Hf].
Qed.

Lemma steps_ret {A} (x : A) : always (mret x).
Proof. by intros w. Qed.

Lemma always_write m : always (write_message m).
Proof. intros w. unfold WireProtocol.write_message. repeat case_match; try reflexivity. apply (harmless_write HR). Qed.

Lemma always_read : always read_message.
Proof. intros w. unfold WireProtocol.read_message. repeat case_match; try reflexivity. apply (harmless_read HR). Qed.

Lemma always_ask {A} c (f : list PeerCall → A) : always (ask c f).
Proof. intros w. apply (harmless_ask HR). Qed.

Lemma always_alter f : always (update (alter f peer)).
Proof. intros w. apply (harmless_alter HR). Qed.

#[local] Hint Resolve steps_bind steps_ret always_write always_ask always_alter : openfang.

Lemma always_request i q : always (handle_request_in_loop handle i q).
Proof. unfold handle_request_in_loop. apply steps_bind; [|auto with openfang]. destruct q; auto with openfang. Qed.

Lemma always_notification n : always (handle_notification peer n).
Proof. destruct n; apply always_alter. Qed.

#[local] Hint Resolve always_request always_notification : openfang.

Lemma always_loop fuel : always (connection_loop fuel peer).
Proof.
  induction fuel as [|fuel IH]; intros w; cbn [WireProtocol.connection_loop]; [reflexivity|].
  etrans; [apply always_read|]. destruct (read_message w) as [w' [m|[]]]; cbn [fst]; try reflexivity.
  destruct (kind m) as [q|q|n]; revert w';
    [change (always (response ← handle_request_in_loop handle (id m) q;
                     write_message response;; connection_loop fuel peer))
    |exact IH
    |change (always (handle_notification peer n;; connection_loop fuel peer))];
    auto 8 with openfang.
Qed.

Lemma always_serve : always (serve peer).
Proof. intros w. etrans; [apply always_loop|]. apply always_alter. Qed.
End effects.

(** Only the entry of one peer changes. *)
Definition confined (peer : str) (w w' : World) : Prop := ∀ p, p ≠ peer → registry w' !! p = registry w !! p.

#[export] Instance confined_preorder peer : PreOrder (confined peer).
Proof. split; [by intros w p|]. intros w1 w2 w3 H1 H2 p Hp. rewrite H2 by done. by apply H1. Qed.

Lemma confined_harmless peer : harmless peer (confined peer).
Proof. split; intros; intros p Hp; cbn; try done. by apply lookup_alter_ne. Qed.

(** The entry of the peer stays. *)
Definition keeps (peer : str) (w w' : World) : Prop :=
  is_Some (registry w !! peer) → is_Some (registry w' !! peer).

#[export] Instance keeps_preorder peer : PreOrder (keeps peer).
Proof. split; unfold keeps; [by intros w|]. intros w1 w2 w3 H1 H2. auto. Qed.

Lemma keeps_harmless peer : harmless peer (keeps peer).
Proof. split; unfold keeps; intros; cbn; try done. rewrite lookup_alter_eq. by apply fmap_is_Some. Qed.

(** Messages are only added. *)
Definition sends_more (w w' : World) : Prop := ∃ more, sent w' = sent w ++ more.

#[export] Instance sends_more_preorder : PreOrder sends_more.
Proof.
  split; [intros w; exists []; by rewrite app_nil_r|].
  intros w1 w2 w3 [m1 H1] [m2 H2]. exists (m1 ++ m2). by rewrite H2, H1, app_assoc.
Qed.

Lemma sends_more_harmless peer : harmless peer sends_more.
Proof. split; intros; unfold sends_more; cbn; eauto; exists []; by rewrite app_nil_r. Qed.

(** When the connection has ended, the peer is registered as disconnected. *)
Lemma serve_disconnects peer w :
  is_Some (registry w !! peer) →
  ∃ p, registry (serve peer w).1 !! peer = Some p ∧ state p = Disconnected.
Proof.
  intros Hw.
  destruct (always_loop peer _ (keeps_harmless peer) (S (length (unread (reader w)))) w Hw) as [p Hp].
  unfold WireProtocol.serve, update, mark_disconnected. cbn [fst registry].
  rewrite lookup_alter_eq, Hp. by eexists.
Qed.

(** ** The loop ends *)

Lemma read_shorter w w' m :
  read_message w = (w', Ok m) → length (unread (reader w')) < length (unread (reader w)).
Proof.
  unfold WireProtocol.read_message, read_from, read_exact. intros E.
  destruct (Nat.ltb_spec (length (unread (reader w))) 4); [done|].
  cbn [unread broken] in E. repeat (case_match; simplify_eq/=; try done);
  rewrite !length_drop; lia.
Qed.

Lemma write_reader m w : reader (write_message m w).1 = reader w.
Proof. unfold WireProtocol.write_message. by repeat case_match. Qed.

Lemma request_reader i q w : reader (handle_request_in_loop handle i q w).1 = reader w.
Proof. by destruct q. Qed.

(** More fuel than there are bytes to read changes nothing: the loop of the
    code is the loop with that much fuel. *)
Lemma connection_loop_enough peer fuel fuel' w :
  length (unread (reader w)) < fuel → length (unread (reader w)) < fuel' →
  connection_loop fuel peer w = connection_loop fuel' peer w.
Proof.
  revert fuel' w. induction fuel as [|fuel IH]; intros [|fuel'] w Hf Hf'; try lia.
  cbn [WireProtocol.connection_loop]. destruct (read_message w) as [w' [m|[]]] eqn:E; try done.
  apply read_shorter in E.
  assert (∀ v, reader v = reader w' → connection_loop fuel peer v = connection_loop fuel' peer v) as Hnext.
  { intros v Hv. apply IH; rewrite Hv; lia. }
  destruct (kind m) as [q|q|n]; [|by apply Hnext|].
  - rewrite !bind_eq. pose proof (request_reader (id m) q w') as Hr.
    destruct (handle_request_in_loop _ _ _ _) as [w1 [resp|]]; [|done]. cbn in Hr. rewrite !bind_eq.
    pose proof (write_reader resp w1) as Hw. destruct (write_message resp w1) as [w2 [[]|]]; [|done].
    apply Hnext. cbn in Hw. congruence.
  - rewrite !bind_eq. assert (reader (handle_notification peer n w').1 = reader w') as Hr by (by destruct n).
    destruct (handle_notification peer n w') as [w1 [[]|]]; [|done]. by apply Hnext.
Qed.

(** ** Inbound connections *)

(** The connection starts with a handshake of this version whose HMAC is that
    of the shared secret. *)
Definition authenticated (w : World) (peer : str) : Prop :=
  ∃ i name ags nonce mac r,
    read_from from_json (reader w)
    = Ok (mkMessage i (Request (Handshake peer name PROTOCOL_VERSION ags nonce mac)), r) ∧
    mac = hmac (shared_secret node) (nonce ++ peer).

(** The connection was refused: nothing was done, and if anything was written
    it is one error in answer to the first message. *)
Definition refused (w w' : World) (r : result unit WireError) : Prop :=
  registry w' = registry w ∧ calls w' = calls w ∧ (∃ e, r = Err e) ∧
  match read_from from_json (reader w) with
  | Err e => sent w' = sent w ∧ r = Err e
  | Ok (m, _) =>
      sent w' = sent w ∨
      ∃ code text, code ∈ [1; 401; 403]%Z ∧ sent w' = sent w ++ [mkMessage (id m) (Response (Error code text))]
  end.

Lemma refuse_refused i k rd code text e w :
  read_from from_json (reader w) = Ok (mkMessage i k, rd) → code ∈ [1; 401; 403]%Z →
  let '(w', r) := refuse (A := unit) to_json write_error i code text e
                    (mkWorld (registry w) rd (sent w) (calls w)) in refused w w' r.
Proof.
  intros Hr Hc. unfold refused. rewrite Hr. unfold refuse. rewrite bind_eq. unfold WireProtocol.write_message.
  destruct (encode_message _ _); [destruct (write_error _)|]; cbn;
    (split; [done|]; split; [done|]; split; [by eexists|]; first [by left|right; by exists code, text]).
Qed.

(** What follows a handshake that is accepted. *)
Definition accept (peer name addr : str) (ags : list RemoteAgentInfo) (now : Z) (i ack_nonce : str) : W unit :=
  own ← ask_agents handle;
  write_message (mkMessage i
    (Response (HandshakeAck (local_id node) (local_name node) PROTOCOL_VERSION own ack_nonce
       (hmac_sign hmac (shared_secret node) (ack_nonce ++ local_id node)))));;
  update (λ r, add_peer r (mkPeer peer name addr ags Connected now PROTOCOL_VERSION));;
  serve peer.

Lemma accept_confined peer name addr ags now i ack_nonce w :
  confined peer w (accept peer name addr ags now i ack_nonce w).1.
Proof.
  revert w. change (always (confined peer) (accept peer name addr ags now i ack_nonce)).
  pose proof (confined_harmless peer) as HR. unfold accept, ask_agents.
  apply steps_bind; [apply _|apply (always_ask _ _ HR)|]. intros own.
  apply steps_bind; [apply _|apply (always_write _ _ HR)|]. intros _.
  apply steps_bind; [apply _| |intros _; by apply (always_serve _ _ HR)].
  intros w p Hp. cbn. by apply lookup_insert_ne.
Qed.

Lemma accept_disconnects peer name addr ags now i ack_nonce w :
  let '(w', r) := accept peer name addr ags now i ack_nonce w in
  r = Ok tt → ∃ p, registry w' !! peer = Some p ∧ state p = Disconnected.
Proof.
  unfold accept, ask_agents. rewrite bind_eq. cbn [ask]. rewrite bind_eq.
  destruct (write_message _ _) as [w1 [[]|]]; [|done]. rewrite bind_eq. cbn [update].
  match goal with |- context [serve peer ?v] =>
    pose proof (serve_disconnects peer v) as Hs; destruct (serve peer v) as [w' r] end.
  intros _. apply Hs. cbn. eexists. apply lookup_insert_eq.
Qed.

(** C13: Nothing is done for a peer that has not proved that it knows the
    shared secret: a connection changes the registry or makes a call to the
    kernel only if it starts with an authenticated handshake, and then only
    the entry of the node named there changes, which is registered as
    disconnected at the end; any other connection is closed with an error, and
    nothing is written to it but at most one error message in answer to what it
    sent. *)
Theorem inbound_authenticated addr ack_nonce now w :
  let '(w', r) := handle_inbound addr ack_nonce now w in
  (∃ peer, authenticated w peer ∧ (∀ p, p ≠ peer → registry w' !! p = registry w !! p) ∧
     (r = Ok tt → ∃ p, registry w' !! peer = Some p ∧ state p = Disconnected)) ∨
  ((∀ peer, ¬ authenticated w peer) ∧ refused w w' r).
Proof.
  unfold WireProtocol.handle_inbound. rewrite bind_eq. unfold WireProtocol.read_message at 1.
  unfold authenticated at 2.
  destruct (read_from from_json (reader w)) as [[m rd]|e] eqn:Er.
  2:{ right. split; [intros ? (? & ? & ? & ? & ? & ? & ? & _); done|]. unfold refused. rewrite Er.
      do 2 (split; [done|]). split; [by eexists|done]. }
  set (w1 := mkWorld (registry w) rd (sent w) (calls w)).
  pose proof (λ i k, refuse_refused i k rd) as Href.
  destruct m as [i [[peer name version ags nonce mac| | | ]|q|n]]; cbn [kind id];
    try (specialize (Href i _ 401%Z (lit "Authentication required: complete HMAC handshake first")
           (HandshakeFailed (lit "Rejected unauthenticated request — handshake required")) w Er
           ltac:(set_solver)); fold w1 in Href;
         destruct (refuse _ _ _ _ _ _ w1); right; split; [by intros ? (? & ? & ? & ? & ? & ? & ? & _)|done]).
  destruct (Z.eqb_spec version PROTOCOL_VERSION) as [->|Hv]; cbn [negb].
  2:{ match goal with |- context [refuse _ _ ?i ?c ?t ?e w1] =>
        specialize (Href i _ c t e w Er ltac:(set_solver)); fold w1 in Href; destruct (refuse _ _ i c t e w1) end.
      right. split; [|done]. intros ? (? & ? & ? & ? & ? & ? & ? & _). congruence. }
  unfold hmac_verify. destruct (str_eqb _ mac) eqn:Em; cbn [negb].
  2:{ match goal with |- context [refuse _ _ ?i ?c ?t ?e w1] =>
        specialize (Href i _ c t e w Er ltac:(set_solver)); fold w1 in Href; destruct (refuse _ _ i c t e w1) end.
      right. split; [|done]. intros ? (? & ? & ? & ? & ? & ? & [= <- <- <- <- <- <-] & ->).
      unfold hmac_sign in Em. by rewrite (proj2 (str_eqb_spec _ _) eq_refl) in Em. }
  apply str_eqb_spec in Em.
  pose proof (accept_confined peer name addr ags now i ack_nonce w1) as Hc.
  pose proof (accept_disconnects peer name addr ags now i ack_nonce w1) as Hd.
  unfold accept in *. match type of Hd with match ?x with _ => _ end => destruct x as [w' r] end.
  left. exists peer. split; [|by split].
  exists i, name, ags, nonce, mac, rd. by split.
Qed.
End connection.

(** ** Two nodes *)

Section nodes.
Context (to_json : WireMessage → result str str) (from_json : str → result WireMessage str).
Context (hmac : str → str → str).
Context (Hjson : faithful_json to_json from_json).

Definition all_sent (n : nat) : option str := None.

Abbreviation inbound := (handle_inbound to_json from_json hmac all_sent).

Definition handshake_message (node : PeerConfig) (ags : list RemoteAgentInfo) (nonce i : str) : WireMessage :=
  mkMessage i (Request (Handshake (local_id node) (local_name node) PROTOCOL_VERSION ags nonce
    (hmac (shared_secret node) (nonce ++ local_id node)))).

Definition ack_message (node : PeerConfig) (ags : list RemoteAgentInfo) (nonce i : str) : WireMessage :=
  mkMessage i (Response (HandshakeAck (local_id node) (local_name node) PROTOCOL_VERSION ags nonce
    (hmac (shared_secret node) (nonce ++ local_id node)))).

Lemma frame_encodes m f : frame_of to_json m f → encode_message to_json m = Ok f.
Proof. by intros [? _]. Qed.

(** An inbound connection that starts with a handshake whose HMAC fits. *)
Lemma inbound_accepts node handle addr ack_nonce now w peer name ags nonce mac i f f2 rest b :
  frame_of to_json (mkMessage i (Request (Handshake peer name PROTOCOL_VERSION ags nonce mac))) f →
  reader w = mkReader (f ++ rest) b →
  mac = hmac (shared_secret node) (nonce ++ peer) →
  frame_of to_json (ack_message node (local_agents handle (calls w)) ack_nonce i) f2 →
  inbound handle node addr ack_nonce now w =
  serve to_json from_json all_sent handle peer
    (mkWorld (add_peer (registry w) (mkPeer peer name addr ags Connected now PROTOCOL_VERSION)) (mkReader rest b)
       (sent w ++ [ack_message node (local_agents handle (calls w)) ack_nonce i]) (calls w ++ [AskedAgents])).
Proof.
  intros Hf Hr -> Hf2. unfold handle_inbound. rewrite bind_eq. unfold read_message at 1.
  rewrite Hr, (read_frame to_json from_json _ f rest b Hjson Hf). cbn [kind id]. rewrite Z.eqb_refl. cbn [negb].
  unfold hmac_verify, hmac_sign. rewrite (proj2 (str_eqb_spec _ _) eq_refl). cbn [negb].
  rewrite bind_eq. unfold ask_agents, ask. rewrite bind_eq. cbn [registry reader sent calls].
  unfold write_message at 1. unfold ack_message in Hf2. rewrite (frame_encodes _ _ Hf2). cbn [all_sent].
  cbn [registry reader sent calls]. rewrite bind_eq. reflexivity.
Qed.

(** Two nodes with the same secret find each other: the node that
    connects registers the one that answers, with its agents and as
    connected, and the node that answers sends its acknowledgement first and
    serves the other, which it registers. *)
Theorem handshake_completes a b ha hb wa wb addr_a addr_b nonce ack_nonce i now now' f1 f2 rest brk :
  shared_secret a = shared_secret b →
  frame_of to_json (handshake_message a (local_agents ha (calls wa)) nonce i) f1 →
  frame_of to_json (ack_message b (local_agents hb (calls wb)) ack_nonce i) f2 →
  reader wb = mkReader (f1 ++ rest) brk →
  let '(wa', ra) := connect_to_peer to_json from_json hmac all_sent ha a addr_b (Ok (mkReader f2 None)) nonce i now wa in
  let '(wb', rb) := inbound hb b addr_a ack_nonce now' wb in
  ra = Ok (local_id b) ∧ rb = Ok tt ∧
  sent wa' = sent wa ++ [handshake_message a (local_agents ha (calls wa)) nonce i] ∧
  (∃ more, sent wb' = sent wb ++ ack_message b (local_agents hb (calls wb)) ack_nonce i :: more) ∧
  registry wa' = add_peer (registry wa)
    (mkPeer (local_id b) (local_name b) addr_b (local_agents hb (calls wb)) Connected now PROTOCOL_VERSION) ∧
  is_Some (registry wb' !! local_id a).
Proof.
  intros Hsec Hf1 Hf2 Hrd. unfold connect_to_peer. rewrite !bind_eq. cbn [connect]. rewrite bind_eq.
  unfold send_handshake. rewrite bind_eq. unfold ask_agents, ask. cbn [registry reader sent calls].
  unfold write_message at 1. unfold hmac_sign. unfold handshake_message in Hf1. rewrite (frame_encodes _ _ Hf1).
  cbn [all_sent registry reader sent calls]. rewrite bind_eq. unfold read_message at 1. cbn [registry reader sent calls].
  pose proof (read_frame to_json from_json _ f2 [] None Hjson Hf2) as Hread. rewrite app_nil_r in Hread.
  rewrite Hread. unfold ack_message. rewrite bind_eq. cbn [kind or_fail check_ack]. rewrite Z.eqb_refl. cbn [negb].
  unfold hmac_verify, hmac_sign. rewrite Hsec, (proj2 (str_eqb_spec _ _) eq_refl). cbn [negb]. rewrite bind_eq.
  cbn [update registry].
  rewrite (inbound_accepts b hb addr_a ack_nonce now' wb (local_id a) (local_name a) _ nonce _ i f1 f2 rest brk Hf1 Hrd)
    by (try done; by rewrite Hsec).
  match goal with |- context [serve ?t ?f ?e ?h ?p ?v] =>
    pose proof (always_serve t f e h p _ (sends_more_harmless p) v) as [more Hmore];
    pose proof (always_serve t f e h p _ (keeps_harmless p) v) as Hkeep;
    destruct (serve t f e h p v) as [wb' rb] eqn:Es end.
  unfold mret, W_ret. cbn [fst sent registry] in *. split; [done|]. split; [unfold serve, update in Es; by injection Es as _ <-|].
  split; [unfold handshake_message; by rewrite Hsec|]. split; [exists more; by rewrite Hmore, <-app_assoc|]. split; [done|].
  apply Hkeep. cbn. rewrite lookup_insert_eq. by eexists.
Qed.

Lemma loop_request write_error handle fuel peer w w1 m q :
  read_message from_json w = (w1, Ok m) → kind m = Request q →
  connection_loop to_json from_json write_error handle (S fuel) peer w =
  (response ← handle_request_in_loop handle (id m) q;
   write_message to_json write_error response;;
   connection_loop to_json from_json write_error handle fuel peer) w1.
Proof. intros Hr Hk. cbn [connection_loop]. by rewrite Hr, Hk. Qed.

Lemma loop_closed write_error handle fuel peer w :
  reader w = mkReader [] None →
  connection_loop to_json from_json write_error handle fuel peer w = (w, Ok tt).
Proof. intros Hr. destruct fuel; cbn [connection_loop]; [done|]. unfold read_message. by rewrite Hr. Qed.

(** The HMAC of a handshake does not tell the nonce from the node id and
    does not cover the rest, and the nonce is chosen by the sender: whoever
    has seen the nonce and the HMAC of one handshake is accepted as any node
    whose id is an end of that nonce followed by the original id, with agents
    of its own, and the messages it sends reach the agents of the node. *)
Theorem forged_identity_accepted victim ags seen_nonce head tail node handle addr ack_nonce now w i j name evil
    agent text f fm f2 :
  seen_nonce = head ++ tail → shared_secret victim = shared_secret node →
  let mac := match kind (handshake_message victim ags seen_nonce i) with
             | Request (Handshake _ _ _ _ _ mac) => mac
             | _ => []
             end in
  frame_of to_json
    (mkMessage i (Request (Handshake (tail ++ local_id victim) name PROTOCOL_VERSION evil head mac))) f →
  frame_of to_json (mkMessage j (Request (AgentMessage agent text None))) fm →
  frame_of to_json (ack_message node (local_agents handle (calls w)) ack_nonce i) f2 →
  reader w = mkReader (f ++ fm) None →
  let '(w', r) := inbound handle node addr ack_nonce now w in
  r = Ok tt ∧ AskedMessage agent text None ∈ calls w' ∧
  ∃ p, registry w' !! (tail ++ local_id victim) = Some p ∧ agents p = evil.
Proof.
  intros -> Hsec mac Hf Hfm Hf2 Hrd. subst mac. cbn [kind handshake_message] in Hf.
  rewrite (inbound_accepts _ _ addr ack_nonce now _ _ _ _ _ _ _ _ f2 fm None Hf Hrd) by
    (try done; by rewrite Hsec, <-app_assoc).
  unfold serve. cbn [reader unread registry calls].
  assert (1 ≤ length fm) as Hlen.
  { destruct Hfm as [Hfm _]. unfold encode_message in Hfm. destruct (to_json _); [|done].
    apply Ok_inj in Hfm as <-. rewrite length_app, length_to_be_bytes. lia. }
  destruct (length fm) as [|n]; [lia|].
  pose proof (read_frame to_json from_json _ fm [] None Hjson Hfm) as Hread. rewrite app_nil_r in Hread.
  erewrite loop_request; [|unfold read_message; cbn [reader]; by rewrite Hread|done].
  unfold handle_request_in_loop. rewrite !bind_eq. cbn [ask id]. unfold mret, W_ret. cbn [registry reader sent calls].
  rewrite bind_eq. unfold write_message at 1. destruct (encode_message to_json _);
    cbn [all_sent registry reader sent calls]; [rewrite loop_closed by done|]; cbn [fst update calls registry];
    (split; [done|]; split; [apply elem_of_app; right; by left|]);
    unfold mark_disconnected, add_peer; cbn [node_id]; rewrite lookup_alter_eq, lookup_insert_eq; cbn; by eexists.
Qed.

(** A notification broadcast to the peers reaches none of them: it is the
    first message of its connection, so the peer answers that a handshake is
    required and leaves its registry alone. *)
Theorem broadcast_ignored values fresh dial n r p m node handle addr ack_nonce now w f :
  (p, m) ∈ (broadcast_notification values fresh dial n r).1 →
  frame_of to_json m f → reader w = mkReader f None →
  let '(w', r) := inbound handle node addr ack_nonce now w in
  registry w' = registry w ∧ calls w' = calls w ∧ ∃ e, r = Err e.
Proof.
  intros Hin Hf Hrd. cbn [broadcast_notification fst] in Hin.
  apply list_elem_of_fmap in Hin as (q & [= -> ->] & _).
  unfold handle_inbound. rewrite bind_eq. unfold read_message at 1. rewrite Hrd.
  pose proof (read_frame to_json from_json _ f [] None Hjson Hf) as Hread. rewrite app_nil_r in Hread. rewrite Hread.
  cbn [kind id]. unfold refuse. rewrite bind_eq. unfold write_message. cbn [all_sent].
  destruct (encode_message _ _); cbn; eauto.
Qed.
End nodes.

(** ** A codec for a list of messages *)

#[export] Instance remote_agent_info_eq_dec : EqDecision RemoteAgentInfo.
Proof. solve_decision. Defined.

#[export] Instance wire_request_eq_dec : EqDecision WireRequest.
Proof. solve_decision. Defined.

#[export] Instance wire_response_eq_dec : EqDecision WireResponse.
Proof. solve_decision. Defined.

#[export] Instance wire_notification_eq_dec : EqDecision WireNotification.
Proof. solve_decision. Defined.

#[export] Instance wire_kind_eq_dec : EqDecision WireMessageKind.
Proof. solve_decision. Defined.

#[export] Instance wire_message_eq_dec : EqDecision WireMessage.
Proof. solve_decision. Defined.

(** A message is written as that many bytes as there are messages before it
    in the table. *)
Definition table_write (table : list WireMessage) (m : WireMessage) : result str str :=
  match list_find (m =.) table with
  | Some (n, _) => Ok (replicate n newline)
  | None => Err (lit "not in the table")
  end.

Definition table_read (table : list WireMessage) (s : str) : result WireMessage str :=
  match table !! length s with Some m => Ok m | None => Err (lit "not in the table") end.

Lemma table_faithful table : faithful_json (table_write table) (table_read table).
Proof.
  intros m json. unfold table_write, table_read. destruct (list_find (m =.) table) as [[n x]|] eqn:E; [|done].
  intros [= <-]. apply list_find_Some in E as (Hn & <- & _). by rewrite length_replicate, Hn.
Qed.

Definition demo_hmac (secret data : str) : str := secret ++ lit ":" ++ data.
Definition demo_node (i : str) : PeerConfig := mkPeerConfig (lit "127.0.0.1:0") i (lit "node " ++ i) (lit "s").
Definition demo_handle : PeerHandle :=
  mkHandle (λ _, []) (λ _ _ _ _, Ok (lit "hello")) (λ _ _, []) (λ _, 1%Z).

Definition demo_hs : WireMessage := handshake_message demo_hmac (demo_node (lit "alice")) [] (lit "n-xyz") (lit "1").
Definition demo_ack : WireMessage := ack_message demo_hmac (demo_node (lit "bob")) [] (lit "m") (lit "1").
Definition demo_ask : WireMessage := mkMessage (lit "2") (Request (AgentMessage (lit "helper") (lit "hi") None)).
Definition demo_forged : WireMessage :=
  mkMessage (lit "1") (Request (Handshake (lit "xyzalice") (lit "alice") PROTOCOL_VERSION [] (lit "n-")
    (demo_hmac (lit "s") (lit "n-xyzalice")))).
Definition demo_shutdown : WireMessage := mkMessage (lit "3") (Notification ShuttingDown).

Definition demo_table : list WireMessage := [demo_hs; demo_ack; demo_ask; demo_forged; demo_shutdown].

Definition demo_frame (m : WireMessage) : str :=
  match encode_message (table_write demo_table) m with Ok f => f | Err _ => [] end.

Definition demo_world (ms : list WireMessage) : World :=
  mkWorld ∅ (mkReader (concat (demo_frame <$> ms)) None) [] [].

Lemma demo_frames : Forall (λ m, frame_of (table_write demo_table) m (demo_frame m)) demo_table.
Proof. repeat constructor; by vm_compute. Qed.

Lemma demo_frame_of k m : demo_table !! k = Some m → frame_of (table_write demo_table) m (demo_frame m).
Proof. intros Hk. pose proof demo_frames as Hf. rewrite Forall_lookup in Hf. by apply (Hf k). Qed.

Lemma frames_round_trip_witness :
  read_all (table_read demo_table) 4 (mkReader (concat (demo_frame <$> [demo_ask; demo_hs])) None)
  = ([demo_ask; demo_hs], ConnectionClosed).
Proof.
  apply (frames_round_trip (table_write demo_table) (table_read demo_table) [demo_ask; demo_hs]
    (demo_frame <$> [demo_ask; demo_hs])); [apply table_faithful| |cbn; lia].
  constructor; [by apply (demo_frame_of 2)|]. constructor; [by apply (demo_frame_of 0)|constructor].
Defined.

Lemma handshake_completes_witness :
  ∃ wa wb,
    connect_to_peer (table_write demo_table) (table_read demo_table) demo_hmac all_sent demo_handle
      (demo_node (lit "alice")) (lit "b") (Ok (mkReader (demo_frame demo_ack) None)) (lit "n-xyz") (lit "1") 0
      (demo_world []) = (wa, Ok (lit "bob")) ∧
    handle_inbound (table_write demo_table) (table_read demo_table) demo_hmac all_sent demo_handle
      (demo_node (lit "bob")) (lit "a") (lit "m") 0 (demo_world [demo_hs; demo_ask]) = (wb, Ok tt) ∧
    is_Some (registry wb !! lit "alice").
Proof.
  pose proof (handshake_completes (table_write demo_table) (table_read demo_table) demo_hmac
    (table_faithful demo_table) (demo_node (lit "alice")) (demo_node (lit "bob")) demo_handle demo_handle
    (demo_world []) (demo_world [demo_hs; demo_ask]) (lit "a") (lit "b") (lit "n-xyz") (lit "m") (lit "1") 0 0
    (demo_frame demo_hs) (demo_frame demo_ack) (demo_frame demo_ask ++ []) None eq_refl
    (demo_frame_of 0 _ eq_refl) (demo_frame_of 1 _ eq_refl) eq_refl) as H.
  destruct (connect_to_peer _ _ _ _ _ _ _ _ _ _ _ _) as [wa ra].
  destruct (handle_inbound _ _ _ _ _ _ _ _ _ _) as [wb rb].
  destruct H as (-> & -> & _ & _ & _ & H). exists wa, wb. split; [reflexivity|]. split; [reflexivity|exact H].
Defined.

Lemma forged_identity_accepted_witness :
  ∃ w, handle_inbound (table_write demo_table) (table_read demo_table) demo_hmac all_sent demo_handle
         (demo_node (lit "bob")) (lit "a") (lit "m") 0 (demo_world [demo_forged; demo_ask]) = (w, Ok tt) ∧
       AskedMessage (lit "helper") (lit "hi") None ∈ calls w ∧ is_Some (registry w !! lit "xyzalice").
Proof.
  pose proof (forged_identity_accepted (table_write demo_table) (table_read demo_table) demo_hmac
    (table_faithful demo_table) (demo_node (lit "alice")) [] (lit "n-xyz") (lit "n-") (lit "xyz")
    (demo_node (lit "bob")) demo_handle (lit "a") (lit "m") 0 (demo_world [demo_forged; demo_ask])
    (lit "1") (lit "2") (lit "alice") [] (lit "helper") (lit "hi")
    (demo_frame demo_forged) (demo_frame demo_ask) (demo_frame demo_ack) eq_refl eq_refl
    (demo_frame_of 3 _ eq_refl) (demo_frame_of 2 _ eq_refl) (demo_frame_of 1 _ eq_refl) eq_refl) as H.
  destruct (handle_inbound _ _ _ _ _ _ _ _ _ _) as [w r]. destruct H as (-> & Hc & p & Hp & _).
  exists w. split; [reflexivity|]. split; [exact Hc|]. exists p. exact Hp.
Defined.

Lemma broadcast_ignored_witness :
  (handle_inbound (table_write demo_table) (table_read demo_table) demo_hmac all_sent demo_handle
     (demo_node (lit "bob")) (lit "a") (lit "m") 0 (demo_world [demo_shutdown])).1.(registry) = ∅.
Proof.
  set (peer := mkPeer (lit "bob") (lit "node bob") (lit "b") [] Connected 0 1).
  pose proof (broadcast_ignored (table_write demo_table) (table_read demo_table) demo_hmac
    (table_faithful demo_table) (λ _, [peer]) (λ _, lit "3") (λ _, None) ShuttingDown ∅ peer demo_shutdown
    (demo_node (lit "bob")) demo_handle (lit "a") (lit "m") 0 (demo_world [demo_shutdown])
    (demo_frame demo_shutdown) ltac:(by left) (demo_frame_of 4 _ eq_refl) eq_refl) as H.
  destruct (handle_inbound _ _ _ _ _ _ _ _ _ _) as [w r]. destruct H as [H _]. exact H.
Defined.
