(* ===== verification/ModelCatalog.v ===== *)
(** * The model catalog

    [openfang-runtime/src/model_catalog.rs] without its built-in tables, and the
    data of [openfang-types/src/model_catalog.rs]: the known models with their
    aliases and prices, and the providers with the state of their keys. The
    tables are parameters of [new_catalog]; [var] tells whether a variable of
    the environment is set. *)

From Stdlib Require Import Ascii ZArith Lia SpecFloat.
From stdpp Require Import base gmap strings list sets.
From S2P Require Import Prelude Strs Floats.

Inductive ModelTier : Type := Frontier | Smart | Balanced | Fast | Local.

Inductive AuthStatus : Type := Configured | Missing | NotRequired.

#[export] Instance model_tier_eq_dec : EqDecision ModelTier.
Proof. solve_decision. Defined.

#[export] Instance auth_status_eq_dec : EqDecision AuthStatus.
Proof. solve_decision. Defined.

Definition show_tier (t : ModelTier) : str :=
  lit match t with
      | Frontier => "frontier" | Smart => "smart" | Balanced => "balanced" | Fast => "fast" | Local => "local"
      end.

Definition show_auth (s : AuthStatus) : str :=
  lit match s with Configured => "configured" | Missing => "missing" | NotRequired => "not_required" end.

Record ModelCatalogEntry : Type := mkModel {
  model_id : str;
  model_display_name : str;
  model_provider : str;
  tier : ModelTier;
  context_window : Z;
  max_output_tokens : Z;
  input_cost_per_m : spec_float;
  output_cost_per_m : spec_float;
  supports_tools : bool;
  supports_vision : bool;
  supports_streaming : bool;
  model_aliases : list str
}.

Record ProviderInfo : Type := mkProvider {
  provider_id : str;
  provider_display_name : str;
  api_key_env : str;
  base_url : str;
  key_required : bool;
  auth_status : AuthStatus;
  model_count : nat
}.

Record ModelCatalog : Type := mkCatalog {
  models : list ModelCatalogEntry;
  aliases : gmap str str;
  providers : list ProviderInfo
}.

Definition with_count (n : nat) (p : ProviderInfo) : ProviderInfo :=
  mkProvider (provider_id p) (provider_display_name p) (api_key_env p) (base_url p) (key_required p)
    (auth_status p) n.

Definition with_auth (s : AuthStatus) (p : ProviderInfo) : ProviderInfo :=
  mkProvider (provider_id p) (provider_display_name p) (api_key_env p) (base_url p) (key_required p)
    s (model_count p).

Definition with_url (url : str) (p : ProviderInfo) : ProviderInfo :=
  mkProvider (provider_id p) (provider_display_name p) (api_key_env p) url (key_required p)
    (auth_status p) (model_count p).

Definition models_of (ms : list ModelCatalogEntry) (provider : str) : list ModelCatalogEntry :=
  List.filter (λ m, str_eqb (model_provider m) provider) ms.

(** [providers.iter_mut().find(|p| p.id == provider)], changed by [f]. *)
Fixpoint update_first (provider : str) (f : ProviderInfo → ProviderInfo) (ps : list ProviderInfo)
    : list ProviderInfo :=
  match ps with
  | [] => []
  | p :: ps => if str_eqb (provider_id p) provider then f p :: ps else p :: update_first provider f ps
  end.

Section catalog.
Context `{UnicodeCase}.

Definition new_catalog (builtin_models : list ModelCatalogEntry) (builtin_aliases : gmap str str)
    (builtin_providers : list ProviderInfo) : ModelCatalog :=
  mkCatalog builtin_models builtin_aliases
    ((λ p, with_count (length (models_of builtin_models (provider_id p))) p) <$> builtin_providers).

Definition detected (var : str → bool) (p : ProviderInfo) : AuthStatus :=
  if negb (key_required p) then NotRequired
  else if var (api_key_env p) then Configured
  else if str_eqb (provider_id p) (lit "gemini") && var (lit "GOOGLE_API_KEY") then Configured
  else Missing.

Definition detect_auth (var : str → bool) (c : ModelCatalog) : ModelCatalog :=
  mkCatalog (models c) (aliases c) ((λ p, with_auth (detected var p) p) <$> providers c).

Definition find_model (c : ModelCatalog) (id_or_alias : str) : option ModelCatalogEntry :=
  let lower := to_lowercase id_or_alias in
  match List.find (λ m, str_eqb (to_lowercase (model_id m)) lower) (models c) with
  | Some entry => Some entry
  | None =>
      match aliases c !! lower with
      | Some canonical => List.find (λ m, str_eqb (model_id m) canonical) (models c)
      | None => None
      end
  end.

Definition resolve_alias (c : ModelCatalog) (alias : str) : option str := aliases c !! to_lowercase alias.

Definition get_provider (c : ModelCatalog) (provider : str) : option ProviderInfo :=
  List.find (λ p, str_eqb (provider_id p) provider) (providers c).

Definition models_by_provider (c : ModelCatalog) (provider : str) : list ModelCatalogEntry :=
  models_of (models c) provider.

Definition models_by_tier (c : ModelCatalog) (t : ModelTier) : list ModelCatalogEntry :=
  List.filter (λ m, bool_decide (tier m = t)) (models c).

Definition available_models (c : ModelCatalog) : list ModelCatalogEntry :=
  let configured := provider_id <$> List.filter (λ p, negb (bool_decide (auth_status p = Missing))) (providers c) in
  List.filter (λ m, existsb (str_eqb (model_provider m)) configured) (models c).

Definition pricing (c : ModelCatalog) (id : str) : option (spec_float * spec_float) :=
  (λ m, (input_cost_per_m m, output_cost_per_m m)) <$> find_model c id.

Definition set_provider_url (c : ModelCatalog) (provider url : str) : ModelCatalog * bool :=
  if existsb (λ p, str_eqb (provider_id p) provider) (providers c)
  then (mkCatalog (models c) (aliases c) (update_first provider (with_url url) (providers c)), true)
  else (c, false).

(** [overrides] in the order in which the map is visited. *)
Definition apply_url_overrides (c : ModelCatalog) (overrides : list (str * str)) : ModelCatalog :=
  foldl (λ c o, (set_provider_url c o.1 o.2).1) c overrides.

Definition discovered (provider id : str) : ModelCatalogEntry :=
  mkModel id (id ++ lit " (" ++ provider ++ lit ")") provider Local 32768 4096 (f64_lit 0 1) (f64_lit 0 1)
    true false true [].

Definition merge_discovered_models (c : ModelCatalog) (provider : str) (model_ids : list str) : ModelCatalog :=
  let existing_ids := (λ m, to_lowercase (model_id m)) <$> models_of (models c) provider in
  let added := discovered provider <$>
    List.filter (λ id, negb (existsb (str_eqb (to_lowercase id)) existing_ids)) model_ids in
  let ms := models c ++ added in
  mkCatalog ms (aliases c)
    (if bool_decide (length added = 0) then providers c
     else update_first provider (with_count (length (models_of ms provider))) (providers c)).

(** ** Counts, keys and discovery *)

(** Providers have different ids and count their models. *)
Record catalog_ok (c : ModelCatalog) : Prop := {
  ok_distinct : NoDup (provider_id <$> providers c);
  ok_counts : Forall (λ p, model_count p = length (models_of (models c) (provider_id p))) (providers c)
}.

Lemma update_first_map provider f ps :
  NoDup (provider_id <$> ps) →
  update_first provider f ps = (λ p, if str_eqb (provider_id p) provider then f p else p) <$> ps.
Proof.
  induction ps as [|p ps IH]; [done|]. rewrite fmap_cons. intros [Hp Hn]%NoDup_cons. cbn [update_first].
  rewrite fmap_cons. destruct (str_eqb (provider_id p) provider) eqn:E; [|by rewrite IH].
  f_equal. apply str_eqb_spec in E as <-. clear IH Hn. induction ps as [|q ps IH]; [done|].
  rewrite fmap_cons. rewrite fmap_cons in Hp. apply not_elem_of_cons in Hp as [Hq Hps].
  destruct (str_eqb (provider_id q) (provider_id p)) eqn:E; [apply str_eqb_spec in E; congruence|].
  by rewrite <-IH.
Qed.

Lemma map_providers_ok c (f : ProviderInfo → ProviderInfo) ms :
  (∀ p, provider_id (f p) = provider_id p) →
  (∀ p, p ∈ providers c → model_count (f p) = length (models_of ms (provider_id p))) →
  catalog_ok c → catalog_ok (mkCatalog ms (aliases c) (f <$> providers c)).
Proof.
  intros Hid Hcount [Hn _]. split; cbn [providers models].
  - rewrite <-list_fmap_compose. erewrite list_fmap_ext; [exact Hn|]. intros i p _. apply Hid.
  - rewrite Forall_forall. intros q (p & -> & Hp)%list_elem_of_fmap. rewrite Hid. by apply Hcount.
Qed.

Lemma models_of_app ms ms' provider : models_of (ms ++ ms') provider = models_of ms provider ++ models_of ms' provider.
Proof. apply List.filter_app. Qed.

Lemma models_of_discovered provider provider' ids :
  models_of (discovered provider <$> ids) provider' =
  if str_eqb provider provider' then discovered provider <$> ids else [].
Proof.
  induction ids as [|i ids IH]; [by case_match|]. rewrite fmap_cons. unfold models_of in *. cbn [List.filter].
  rewrite IH. cbn [discovered model_provider]. by case_match.
Qed.

Lemma new_catalog_ok ms al ps :
  NoDup (provider_id <$> ps) → catalog_ok (new_catalog ms al ps).
Proof.
  intros Hn. split; cbn [new_catalog providers models].
  - rewrite <-list_fmap_compose. exact Hn.
  - rewrite Forall_forall. by intros q (p & -> & Hp)%list_elem_of_fmap.
Qed.

Lemma detect_auth_ok var c : catalog_ok c → catalog_ok (detect_auth var c).
Proof.
  intros Hc. apply map_providers_ok; [done| |done]. intros p Hp. cbn.
  destruct Hc as [_ Hc]. rewrite Forall_forall in Hc. by apply Hc.
Qed.

Lemma set_provider_url_ok c provider url : catalog_ok c → catalog_ok (set_provider_url c provider url).1.
Proof.
  intros Hc. unfold set_provider_url. case_match; [|done]. cbn [fst].
  rewrite update_first_map by apply Hc. apply map_providers_ok; [by intros p; case_match| |done].
  intros p Hp. destruct Hc as [_ Hc]. rewrite Forall_forall in Hc.
  case_match; exact (Hc p Hp).
Qed.

Lemma merge_ok c provider ids : catalog_ok c → catalog_ok (merge_discovered_models c provider ids).
Proof.
  intros Hc. unfold merge_discovered_models. cbv zeta.
  set (new := List.filter _ ids).
  assert (∀ p, p ∈ providers c → str_eqb provider (provider_id p) = false ∨ new = [] →
    model_count p = length (models_of (models c ++ (discovered provider <$> new)) (provider_id p))) as Hsame.
  { intros p Hp Hnew. rewrite models_of_app, models_of_discovered.
    destruct Hc as [_ Hc]. rewrite Forall_forall in Hc. rewrite (Hc p Hp).
    destruct Hnew as [->| ->]; [by rewrite app_nil_r|]. by case_match; rewrite app_nil_r. }
  case_bool_decide as Hl.
  - rewrite length_fmap in Hl. apply length_zero_iff_nil in Hl.
    rewrite <-(list_fmap_id (providers c)). apply (map_providers_ok c (λ p, p)); [done| |done]. intros p Hp.
    apply Hsame; [done|by right].
  - rewrite update_first_map by apply Hc. apply map_providers_ok; [by intros p; case_match| |done].
    intros p Hp. destruct (str_eqb (provider_id p) provider) eqn:E.
    + apply str_eqb_spec in E as <-. done.
    + apply Hsame; [done|]. left. destruct (str_eqb provider (provider_id p)) eqn:E'; [|done].
      apply str_eqb_spec in E' as ->. by rewrite (proj2 (str_eqb_spec _ _) eq_refl) in E.
Qed.

Inductive catalog_op : Type :=
| Detect (var : str → bool) | SetUrl (provider url : str) | Merge (provider : str) (ids : list str).

Definition catalog_step (c : ModelCatalog) (o : catalog_op) : ModelCatalog :=
  match o with
  | Detect var => detect_auth var c
  | SetUrl provider url => (set_provider_url c provider url).1
  | Merge provider ids => merge_discovered_models c provider ids
  end.

(** After any sequence of operations every provider counts its models, and
    a second discovery of the same models adds none. *)
Theorem catalog_consistent ms al ps ops provider ids :
  NoDup (provider_id <$> ps) →
  let c := foldl catalog_step (new_catalog ms al ps) ops in
  Forall (λ p, model_count p = length (models_by_provider c (provider_id p))) (providers c) ∧
  let c' := merge_discovered_models c provider ids in
  merge_discovered_models c' provider ids = c' ∧
  models_by_provider c' provider = models_by_provider c provider ++
    (discovered provider <$> List.filter (λ id, negb (existsb (str_eqb (to_lowercase id))
       ((λ m, to_lowercase (model_id m)) <$> models_by_provider c provider))) ids).
Proof.
  intros Hn c. assert (catalog_ok c) as Hc.
  { unfold c. clear c. induction ops as [|o ops IH] using rev_ind; [by apply new_catalog_ok|].
    rewrite foldl_app. cbn [foldl]. destruct o; cbn [catalog_step];
      [by apply detect_auth_ok|by apply set_provider_url_ok|by apply merge_ok]. }
  split; [apply Hc|]. intros c'. set (new := List.filter _ ids).
  assert (models_by_provider c' provider = models_by_provider c provider ++ (discovered provider <$> new)) as Hm.
  { unfold c', merge_discovered_models, models_by_provider. cbn [models].
    rewrite models_of_app, models_of_discovered, (proj2 (str_eqb_spec _ _) eq_refl). done. }
  split; [|done]. unfold merge_discovered_models at 1. cbv zeta.
  assert (List.filter (λ id, negb (existsb (str_eqb (to_lowercase id))
    ((λ m, to_lowercase (model_id m)) <$> models_of (models c') provider))) ids = []) as ->.
  { unfold models_by_provider in Hm. rewrite Hm. apply List.incl_l_nil.
    intros i [Hi Hex]%List.filter_In. exfalso. apply negb_true_iff in Hex.
    assert (existsb (str_eqb (to_lowercase i)) ((λ m, to_lowercase (model_id m)) <$>
      models_of (models c) provider ++ (discovered provider <$> new)) = true) as Ht; [|congruence].
    apply existsb_exists.
    destruct (existsb (str_eqb (to_lowercase i)) ((λ m, to_lowercase (model_id m)) <$> models_by_provider c provider)) eqn:E.
    - apply existsb_exists in E as (x & Hx & Hix). exists x. split; [|done].
      rewrite fmap_app. apply in_or_app. by left.
    - exists (to_lowercase i). split; [|by apply str_eqb_spec]. rewrite fmap_app. apply in_or_app. right.
      apply list_elem_of_In, list_elem_of_fmap. exists (discovered provider i). split; [done|].
      apply list_elem_of_fmap. exists i. split; [done|]. apply list_elem_of_In, List.filter_In. by rewrite E. }
  clearbody c'. rewrite fmap_nil, app_nil_r, bool_decide_true by done. by destruct c'.
Qed.
End catalog.

(** A model found twice in one discovery is listed twice. *)
Example discovered_twice :
  length (models (merge_discovered_models (new_catalog [] ∅ []) (lit "ollama") [lit "llama3"; lit "Llama3"])) = 2.
Proof. vm_compute. reflexivity. Qed.
