(* ===== verification/ModelTables.v ===== *)
(** * The models the catalogue knows

    The tables of [openfang-runtime/src/model_catalog.rs]: the providers, the
    aliases and the models, row by row, with the addresses of
    [openfang-types/src/model_catalog.rs]. A price is a decimal fraction,
    rounded as the compiler rounds the literal.

    The catalogue made of them is consistent: every alias leads to a model,
    every model is found by its id except one whose id differs from that of
    another provider's model in case only, and every provider has models. *)

From Stdlib Require Import Ascii ZArith Lia SpecFloat.
From stdpp Require Import base gmap strings list.
From S2P Require Import Prelude Strs Floats ModelCatalog.

Definition row (id display provider : string) (t : ModelTier) (window output : Z) (input_price output_price : Z * Z)
    (tools vision streaming : bool) (names : list string) : ModelCatalogEntry :=
  mkModel (lit id) (lit display) (lit provider) t window output
    (f64_lit input_price.1 input_price.2) (f64_lit output_price.1 output_price.2) tools vision streaming (lit <$> names).
Arguments row (id display provider)%_string t (window output)%_Z input_price output_price tools vision streaming
  names%_string.

Definition service (id display key_env url : string) (required : bool) (auth : AuthStatus) (count : nat) : ProviderInfo :=
  mkProvider (lit id) (lit display) (lit key_env) (lit url) required auth count.
Arguments service (id display key_env url)%_string required auth count.

(** ** Providers *)

Definition first_providers : list ProviderInfo :=
  [service "anthropic" "Anthropic" "ANTHROPIC_API_KEY" "https://api.anthropic.com"
     true Missing 0;
   service "openai" "OpenAI" "OPENAI_API_KEY" "https://api.openai.com/v1"
     true Missing 0;
   service "gemini" "Google Gemini" "GEMINI_API_KEY" "https://generativelanguage.googleapis.com"
     true Missing 0;
   service "deepseek" "DeepSeek" "DEEPSEEK_API_KEY" "https://api.deepseek.com/v1"
     true Missing 0;
   service "groq" "Groq" "GROQ_API_KEY" "https://api.groq.com/openai/v1"
     true Missing 0;
   service "openrouter" "OpenRouter" "OPENROUTER_API_KEY" "https://openrouter.ai/api/v1"
     true Missing 0;
   service "mistral" "Mistral AI" "MISTRAL_API_KEY" "https://api.mistral.ai/v1"
     true Missing 0;
   service "together" "Together AI" "TOGETHER_API_KEY" "https://api.together.xyz/v1"
     true Missing 0;
   service "fireworks" "Fireworks AI" "FIREWORKS_API_KEY" "https://api.fireworks.ai/inference/v1"
     true Missing 0;
   service "ollama" "Ollama" "OLLAMA_API_KEY" "http://localhost:11434/v1"
     false NotRequired 0;
   service "vllm" "vLLM" "VLLM_API_KEY" "http://localhost:8000/v1"
     false NotRequired 0;
   service "lmstudio" "LM Studio" "LMSTUDIO_API_KEY" "http://localhost:1234/v1"
     false NotRequired 0]%string.

Definition new_providers : list ProviderInfo :=
  [service "perplexity" "Perplexity AI" "PERPLEXITY_API_KEY" "https://api.perplexity.ai"
     true Missing 0;
   service "cohere" "Cohere" "COHERE_API_KEY" "https://api.cohere.com/v2"
     true Missing 0;
   service "ai21" "AI21 Labs" "AI21_API_KEY" "https://api.ai21.com/studio/v1"
     true Missing 0;
   service "cerebras" "Cerebras" "CEREBRAS_API_KEY" "https://api.cerebras.ai/v1"
     true Missing 0;
   service "sambanova" "SambaNova" "SAMBANOVA_API_KEY" "https://api.sambanova.ai/v1"
     true Missing 0;
   service "huggingface" "Hugging Face" "HF_API_KEY" "https://api-inference.huggingface.co/v1"
     true Missing 0;
   service "xai" "xAI" "XAI_API_KEY" "https://api.x.ai/v1"
     true Missing 0;
   service "replicate" "Replicate" "REPLICATE_API_TOKEN" "https://api.replicate.com/v1"
     true Missing 0]%string.

Definition copilot_provider : list ProviderInfo :=
  [service "github-copilot" "GitHub Copilot" "GITHUB_TOKEN" "https://api.githubcopilot.com"
     true Missing 0]%string.

Definition chinese_providers : list ProviderInfo :=
  [service "qwen" "Qwen (Alibaba)" "DASHSCOPE_API_KEY" "https://dashscope.aliyuncs.com/compatible-mode/v1"
     true Missing 0;
   service "minimax" "MiniMax" "MINIMAX_API_KEY" "https://api.minimax.chat/v1"
     true Missing 0;
   service "zhipu" "Zhipu AI (GLM)" "ZHIPU_API_KEY" "https://open.bigmodel.cn/api/paas/v4"
     true Missing 0;
   service "moonshot" "Moonshot (Kimi)" "MOONSHOT_API_KEY" "https://api.moonshot.cn/v1"
     true Missing 0;
   service "qianfan" "Baidu Qianfan" "QIANFAN_API_KEY" "https://qianfan.baidubce.com/v2"
     true Missing 0]%string.

Definition bedrock_provider : list ProviderInfo :=
  [service "bedrock" "AWS Bedrock" "AWS_ACCESS_KEY_ID" "https://bedrock-runtime.us-east-1.amazonaws.com"
     true Missing 0]%string.

Definition builtin_providers : list ProviderInfo :=
  first_providers ++ new_providers ++ copilot_provider ++ chinese_providers ++ bedrock_provider.

(** ** Models *)

Definition anthropic_models : list ModelCatalogEntry :=
  [row "claude-opus-4-6" "Claude Opus 4.6" "anthropic" Frontier
     200000 128000 (5, 1)%Z (25, 1)%Z true true true ["opus"; "claude-opus"];
   row "claude-sonnet-4-6" "Claude Sonnet 4.6" "anthropic" Smart
     200000 64000 (3, 1)%Z (15, 1)%Z true true true ["sonnet"; "claude-sonnet"];
   row "claude-opus-4-20250514" "Claude Opus 4" "anthropic" Frontier
     200000 32000 (15, 1)%Z (75, 1)%Z true true true [];
   row "claude-sonnet-4-20250514" "Claude Sonnet 4" "anthropic" Smart
     200000 64000 (3, 1)%Z (15, 1)%Z true true true [];
   row "claude-haiku-4-5-20251001" "Claude Haiku 4.5" "anthropic" Fast
     200000 8192 (25, 100)%Z (125, 100)%Z true true true ["haiku"; "claude-haiku"];
   row "claude-sonnet-4-5-20250514" "Claude Sonnet 4.5" "anthropic" Smart
     200000 64000 (3, 1)%Z (15, 1)%Z true true true [];
   row "claude-3-5-sonnet-20241022" "Claude 3.5 Sonnet" "anthropic" Smart
     200000 8192 (3, 1)%Z (15, 1)%Z true true true []]%string.

Definition openai_models : list ModelCatalogEntry :=
  [row "gpt-4o" "GPT-4o" "openai" Smart
     128000 16384 (25, 10)%Z (10, 1)%Z true true true ["gpt4"; "gpt4o"];
   row "gpt-4o-mini" "GPT-4o Mini" "openai" Fast
     128000 16384 (15, 100)%Z (6, 10)%Z true true true ["gpt4-mini"];
   row "gpt-4.1" "GPT-4.1" "openai" Frontier
     1047576 32768 (2, 1)%Z (8, 1)%Z true true true [];
   row "gpt-4.1-mini" "GPT-4.1 Mini" "openai" Balanced
     1047576 32768 (4, 10)%Z (16, 10)%Z true true true [];
   row "gpt-4.1-nano" "GPT-4.1 Nano" "openai" Fast
     1047576 32768 (1, 10)%Z (4, 10)%Z true false true [];
   row "o3" "o3" "openai" Frontier
     200000 100000 (2, 1)%Z (8, 1)%Z true true true [];
   row "o3-mini" "o3-mini" "openai" Smart
     200000 100000 (11, 10)%Z (44, 10)%Z true false true [];
   row "o4-mini" "o4-mini" "openai" Smart
     200000 100000 (11, 10)%Z (44, 10)%Z true true true [];
   row "gpt-4-turbo" "GPT-4 Turbo" "openai" Smart
     128000 4096 (10, 1)%Z (30, 1)%Z true true true [];
   row "gpt-3.5-turbo" "GPT-3.5 Turbo" "openai" Fast
     16385 4096 (5, 10)%Z (15, 10)%Z true false true [];
   row "gpt-5" "GPT-5" "openai" Frontier
     400000 128000 (125, 100)%Z (10, 1)%Z true true true [];
   row "gpt-5-mini" "GPT-5 Mini" "openai" Balanced
     400000 128000 (25, 100)%Z (2, 1)%Z true true true ["gpt5-mini"];
   row "gpt-5-nano" "GPT-5 Nano" "openai" Fast
     400000 128000 (5, 100)%Z (4, 10)%Z true false true [];
   row "gpt-5.1" "GPT-5.1" "openai" Frontier
     400000 128000 (125, 100)%Z (10, 1)%Z true true true [];
   row "gpt-5.2" "GPT-5.2" "openai" Frontier
     400000 128000 (175, 100)%Z (14, 1)%Z true true true ["gpt5"];
   row "gpt-5.2-pro" "GPT-5.2 Pro" "openai" Frontier
     400000 128000 (175, 100)%Z (14, 1)%Z true true true []]%string.

Definition gemini_models : list ModelCatalogEntry :=
  [row "gemini-3.1-pro" "Gemini 3.1 Pro" "gemini" Frontier
     1048576 65536 (25, 10)%Z (15, 1)%Z true true true ["gemini-pro"];
   row "gemini-3-flash" "Gemini 3 Flash" "gemini" Smart
     1048576 65536 (5, 10)%Z (3, 1)%Z true true true ["flash"; "gemini-flash"];
   row "gemini-3-deep-think" "Gemini 3 Deep Think" "gemini" Frontier
     1048576 65536 (25, 10)%Z (15, 1)%Z true true true [];
   row "gemini-2.5-flash-lite" "Gemini 2.5 Flash Lite" "gemini" Fast
     1048576 8192 (4, 100)%Z (15, 100)%Z true true true [];
   row "gemini-2.5-pro" "Gemini 2.5 Pro" "gemini" Frontier
     1048576 65536 (125, 100)%Z (10, 1)%Z true true true [];
   row "gemini-2.5-flash" "Gemini 2.5 Flash" "gemini" Smart
     1048576 65536 (15, 100)%Z (6, 10)%Z true true true [];
   row "gemini-2.0-flash" "Gemini 2.0 Flash" "gemini" Fast
     1048576 8192 (1, 10)%Z (4, 10)%Z true true true [];
   row "gemini-2.0-flash-lite" "Gemini 2.0 Flash Lite" "gemini" Fast
     1048576 8192 (75, 1000)%Z (3, 10)%Z true true true [];
   row "gemini-1.5-pro" "Gemini 1.5 Pro" "gemini" Smart
     2097152 8192 (125, 100)%Z (5, 1)%Z true true true [];
   row "gemini-1.5-flash" "Gemini 1.5 Flash" "gemini" Fast
     1048576 8192 (75, 1000)%Z (3, 10)%Z true true true []]%string.

Definition deepseek_models : list ModelCatalogEntry :=
  [row "deepseek-chat" "DeepSeek V3" "deepseek" Smart
     64000 8192 (27, 100)%Z (11, 10)%Z true false true ["deepseek"; "deepseek-v3"];
   row "deepseek-reasoner" "DeepSeek R1" "deepseek" Frontier
     64000 8192 (55, 100)%Z (219, 100)%Z false false true ["deepseek-r1"];
   row "deepseek-coder" "DeepSeek Coder V2" "deepseek" Balanced
     128000 8192 (14, 100)%Z (28, 100)%Z true false true [];
   row "deepseek-chat-v3-0324" "DeepSeek V3 0324" "deepseek" Smart
     64000 8192 (27, 100)%Z (11, 10)%Z true false true []]%string.

Definition groq_models : list ModelCatalogEntry :=
  [row "llama-3.3-70b-versatile" "Llama 3.3 70B" "groq" Balanced
     128000 32768 (59, 1000)%Z (79, 1000)%Z true false true ["llama"; "llama-70b"];
   row "llama-3.1-8b-instant" "Llama 3.1 8B" "groq" Fast
     128000 8192 (5, 100)%Z (8, 100)%Z true false true [];
   row "llama-3.2-90b-vision-preview" "Llama 3.2 90B Vision" "groq" Smart
     128000 8192 (9, 10)%Z (9, 10)%Z true true true [];
   row "llama-3.2-11b-vision-preview" "Llama 3.2 11B Vision" "groq" Balanced
     128000 8192 (18, 100)%Z (18, 100)%Z true true true [];
   row "llama-3.2-3b-preview" "Llama 3.2 3B" "groq" Fast
     128000 8192 (6, 100)%Z (6, 100)%Z true false true [];
   row "llama-3.2-1b-preview" "Llama 3.2 1B" "groq" Fast
     128000 8192 (4, 100)%Z (4, 100)%Z true false true [];
   row "deepseek-r1-distill-llama-70b" "DeepSeek R1 Distill 70B" "groq" Smart
     128000 16384 (75, 100)%Z (99, 100)%Z true false true [];
   row "mixtral-8x7b-32768" "Mixtral 8x7B" "groq" Balanced
     32768 4096 (24, 1000)%Z (24, 1000)%Z true false true ["mixtral"];
   row "gemma2-9b-it" "Gemma 2 9B" "groq" Fast
     8192 4096 (2, 100)%Z (2, 100)%Z false false true [];
   row "qwen-qwq-32b" "Qwen QWQ 32B" "groq" Balanced
     128000 16384 (2, 10)%Z (2, 10)%Z true false true [];
   row "meta-llama/llama-4-scout-17b-16e-instruct" "Llama 4 Scout 17B" "groq" Balanced
     128000 8192 (11, 100)%Z (34, 100)%Z true true true []]%string.

Definition openrouter_models : list ModelCatalogEntry :=
  [row "openrouter/auto" "OpenRouter Auto" "openrouter" Smart
     200000 32000 (1, 1)%Z (3, 1)%Z true true true [];
   row "openrouter/optimus" "OpenRouter Optimus" "openrouter" Balanced
     200000 32000 (5, 10)%Z (15, 10)%Z true false true [];
   row "openrouter/nitro" "OpenRouter Nitro" "openrouter" Fast
     128000 16000 (2, 10)%Z (6, 10)%Z true false true [];
   row "openrouter/anthropic/claude-sonnet-4" "Claude Sonnet 4 (OpenRouter)" "openrouter" Smart
     200000 64000 (3, 1)%Z (15, 1)%Z true true true [];
   row "openrouter/google/gemini-2.5-flash" "Gemini 2.5 Flash (OpenRouter)" "openrouter" Smart
     1048576 65536 (15, 100)%Z (6, 10)%Z true true true []]%string.

Definition mistral_models : list ModelCatalogEntry :=
  [row "mistral-large-latest" "Mistral Large" "mistral" Smart
     128000 8192 (2, 1)%Z (6, 1)%Z true false true ["mistral"];
   row "mistral-medium-latest" "Mistral Medium" "mistral" Balanced
     128000 8192 (27, 10)%Z (81, 10)%Z true false true [];
   row "mistral-small-latest" "Mistral Small" "mistral" Fast
     128000 8192 (1, 10)%Z (3, 10)%Z true false true [];
   row "codestral-latest" "Codestral" "mistral" Smart
     32000 8192 (3, 10)%Z (9, 10)%Z true false true ["codestral"];
   row "open-mistral-nemo" "Mistral Nemo" "mistral" Fast
     128000 8192 (15, 100)%Z (15, 100)%Z true false true ["mistral-nemo"];
   row "pixtral-large-latest" "Pixtral Large" "mistral" Smart
     128000 8192 (2, 1)%Z (6, 1)%Z true true true ["pixtral"]]%string.

Definition together_models : list ModelCatalogEntry :=
  [row "meta-llama/Meta-Llama-3.1-405B-Instruct-Turbo" "Llama 3.1 405B (Together)" "together" Frontier
     130000 4096 (35, 10)%Z (35, 10)%Z true false true [];
   row "meta-llama/Llama-3.3-70B-Instruct-Turbo" "Llama 3.3 70B (Together)" "together" Smart
     128000 4096 (88, 100)%Z (88, 100)%Z true false true [];
   row "meta-llama/Llama-4-Maverick-17B-128E-Instruct-FP8" "Llama 4 Maverick (Together)" "together" Smart
     1048576 8192 (27, 100)%Z (35, 100)%Z true false true [];
   row "meta-llama/Llama-4-Scout-17B-16E-Instruct" "Llama 4 Scout (Together)" "together" Balanced
     512000 8192 (18, 100)%Z (3, 10)%Z true false true [];
   row "deepseek-ai/DeepSeek-R1" "DeepSeek R1 (Together)" "together" Frontier
     64000 8192 (3, 1)%Z (7, 1)%Z false false true [];
   row "deepseek-ai/DeepSeek-V3" "DeepSeek V3 (Together)" "together" Smart
     64000 8192 (9, 10)%Z (9, 10)%Z true false true [];
   row "Qwen/Qwen2.5-72B-Instruct-Turbo" "Qwen 2.5 72B (Together)" "together" Smart
     32768 4096 (2, 10)%Z (6, 10)%Z true false true [];
   row "mistralai/Mixtral-8x22B-Instruct-v0.1" "Mixtral 8x22B (Together)" "together" Balanced
     65536 4096 (6, 10)%Z (6, 10)%Z true false true []]%string.

Definition fireworks_models : list ModelCatalogEntry :=
  [row "accounts/fireworks/models/llama-v3p1-405b-instruct" "Llama 3.1 405B (Fireworks)" "fireworks" Frontier
     131072 16384 (3, 1)%Z (3, 1)%Z true false true [];
   row "accounts/fireworks/models/llama-v3p3-70b-instruct" "Llama 3.3 70B (Fireworks)" "fireworks" Smart
     131072 16384 (9, 10)%Z (9, 10)%Z true false true [];
   row "accounts/fireworks/models/deepseek-r1" "DeepSeek R1 (Fireworks)" "fireworks" Frontier
     64000 8192 (3, 1)%Z (8, 1)%Z false false true [];
   row "accounts/fireworks/models/deepseek-v3" "DeepSeek V3 (Fireworks)" "fireworks" Smart
     64000 8192 (9, 10)%Z (9, 10)%Z true false true [];
   row "accounts/fireworks/models/mixtral-8x22b-instruct" "Mixtral 8x22B (Fireworks)" "fireworks" Balanced
     65536 4096 (9, 10)%Z (9, 10)%Z true false true []]%string.

Definition ollama_models : list ModelCatalogEntry :=
  [row "llama3.2" "Llama 3.2 (Ollama)" "ollama" Local
     128000 4096 (0, 1)%Z (0, 1)%Z true false true [];
   row "llama3.1" "Llama 3.1 (Ollama)" "ollama" Local
     128000 4096 (0, 1)%Z (0, 1)%Z true false true [];
   row "mistral:latest" "Mistral (Ollama)" "ollama" Local
     32768 4096 (0, 1)%Z (0, 1)%Z true false true [];
   row "qwen2.5" "Qwen 2.5 (Ollama)" "ollama" Local
     32768 4096 (0, 1)%Z (0, 1)%Z true false true [];
   row "phi3" "Phi-3 (Ollama)" "ollama" Local
     128000 4096 (0, 1)%Z (0, 1)%Z false false true [];
   row "deepseek-r1:latest" "DeepSeek R1 (Ollama)" "ollama" Local
     64000 4096 (0, 1)%Z (0, 1)%Z false false true []]%string.

Definition vllm_models : list ModelCatalogEntry :=
  [row "vllm-local" "vLLM Local Model" "vllm" Local
     32768 4096 (0, 1)%Z (0, 1)%Z true false true []]%string.

Definition lmstudio_models : list ModelCatalogEntry :=
  [row "lmstudio-local" "LM Studio Local Model" "lmstudio" Local
     32768 4096 (0, 1)%Z (0, 1)%Z true false true []]%string.

Definition perplexity_models : list ModelCatalogEntry :=
  [row "sonar-pro" "Sonar Pro" "perplexity" Smart
     200000 8192 (3, 1)%Z (15, 1)%Z false false true ["sonar"];
   row "sonar-reasoning-pro" "Sonar Reasoning Pro" "perplexity" Frontier
     200000 8192 (2, 1)%Z (8, 1)%Z false false true [];
   row "sonar-reasoning" "Sonar Reasoning" "perplexity" Balanced
     128000 8192 (1, 1)%Z (5, 1)%Z false false true [];
   row "sonar-basic" "Sonar" "perplexity" Fast
     128000 8192 (1, 1)%Z (5, 1)%Z false false true []]%string.

Definition cohere_models : list ModelCatalogEntry :=
  [row "command-r-plus" "Command R+" "cohere" Smart
     128000 4096 (25, 10)%Z (10, 1)%Z true false true ["command-r"];
   row "command-r-08-2024" "Command R (Aug 2024)" "cohere" Balanced
     128000 4096 (15, 100)%Z (6, 10)%Z true false true [];
   row "command-a" "Command A" "cohere" Smart
     256000 8192 (25, 10)%Z (10, 1)%Z true false true [];
   row "command-light" "Command Light" "cohere" Fast
     4096 4096 (3, 10)%Z (6, 10)%Z true false true []]%string.

Definition ai21_models : list ModelCatalogEntry :=
  [row "jamba-1.5-large" "Jamba 1.5 Large" "ai21" Smart
     256000 4096 (2, 1)%Z (8, 1)%Z true false true ["jamba"];
   row "jamba-1.5-mini" "Jamba 1.5 Mini" "ai21" Fast
     256000 4096 (2, 10)%Z (4, 10)%Z true false true [];
   row "jamba-instruct" "Jamba Instruct" "ai21" Balanced
     256000 4096 (5, 10)%Z (7, 10)%Z true false true []]%string.

Definition cerebras_models : list ModelCatalogEntry :=
  [row "cerebras/llama3.3-70b" "Llama 3.3 70B (Cerebras)" "cerebras" Balanced
     128000 8192 (6, 100)%Z (6, 100)%Z true false true [];
   row "cerebras/llama3.1-8b" "Llama 3.1 8B (Cerebras)" "cerebras" Fast
     128000 8192 (1, 100)%Z (1, 100)%Z true false true [];
   row "cerebras/llama-4-scout-17b" "Llama 4 Scout (Cerebras)" "cerebras" Smart
     512000 8192 (1, 10)%Z (1, 10)%Z true false true [];
   row "cerebras/qwen-2.5-32b" "Qwen 2.5 32B (Cerebras)" "cerebras" Balanced
     32768 8192 (6, 100)%Z (6, 100)%Z true false true []]%string.

Definition sambanova_models : list ModelCatalogEntry :=
  [row "sambanova/llama-3.3-70b" "Llama 3.3 70B (SambaNova)" "sambanova" Balanced
     128000 8192 (6, 100)%Z (6, 100)%Z true false true [];
   row "sambanova/deepseek-r1" "DeepSeek R1 (SambaNova)" "sambanova" Smart
     64000 8192 (6, 100)%Z (6, 100)%Z false false true [];
   row "sambanova/qwen-2.5-72b" "Qwen 2.5 72B (SambaNova)" "sambanova" Smart
     32768 8192 (6, 100)%Z (6, 100)%Z true false true []]%string.

Definition xai_models : list ModelCatalogEntry :=
  [row "grok-4" "Grok 4" "xai" Frontier
     256000 32768 (3, 1)%Z (15, 1)%Z true true true ["grok"];
   row "grok-4.1-fast" "Grok 4.1 Fast" "xai" Fast
     2000000 32768 (2, 10)%Z (5, 10)%Z true false true ["grok-fast"];
   row "grok-3" "Grok 3" "xai" Frontier
     131072 32768 (3, 1)%Z (15, 1)%Z true true true ["grok3"];
   row "grok-3-mini" "Grok 3 Mini" "xai" Balanced
     131072 32768 (3, 10)%Z (5, 10)%Z true false true [];
   row "grok-2" "Grok 2" "xai" Smart
     131072 32768 (2, 1)%Z (10, 1)%Z true true true [];
   row "grok-2-mini" "Grok 2 Mini" "xai" Fast
     131072 32768 (3, 10)%Z (5, 10)%Z true false true ["grok-mini"]]%string.

Definition huggingface_models : list ModelCatalogEntry :=
  [row "hf/meta-llama/Llama-3.3-70B-Instruct" "Llama 3.3 70B (HF)" "huggingface" Balanced
     128000 4096 (3, 10)%Z (3, 10)%Z false false true [];
   row "hf/deepseek-ai/DeepSeek-R1" "DeepSeek R1 (HF)" "huggingface" Smart
     64000 4096 (3, 10)%Z (3, 10)%Z false false true [];
   row "hf/Qwen/Qwen2.5-72B-Instruct" "Qwen 2.5 72B (HF)" "huggingface" Balanced
     32768 4096 (3, 10)%Z (3, 10)%Z false false true []]%string.

Definition replicate_models : list ModelCatalogEntry :=
  [row "replicate/meta-llama-3.3-70b-instruct" "Llama 3.3 70B (Replicate)" "replicate" Balanced
     128000 4096 (4, 10)%Z (4, 10)%Z false false true [];
   row "replicate/deepseek-r1" "DeepSeek R1 (Replicate)" "replicate" Smart
     64000 4096 (4, 10)%Z (4, 10)%Z false false true [];
   row "replicate/mistral-7b-instruct" "Mistral 7B (Replicate)" "replicate" Fast
     32768 4096 (5, 100)%Z (25, 100)%Z false false true []]%string.

Definition github_copilot_models : list ModelCatalogEntry :=
  [row "copilot/gpt-4o" "GPT-4o (Copilot)" "github-copilot" Smart
     128000 4096 (0, 1)%Z (0, 1)%Z true true true ["copilot-gpt4o"];
   row "copilot/gpt-4" "GPT-4 (Copilot)" "github-copilot" Frontier
     128000 4096 (0, 1)%Z (0, 1)%Z true false true ["copilot-gpt4"]]%string.

Definition qwen_models : list ModelCatalogEntry :=
  [row "qwen-max" "Qwen Max" "qwen" Frontier
     32768 8192 (4, 1)%Z (12, 1)%Z true false true [];
   row "qwen-plus" "Qwen Plus" "qwen" Smart
     131072 8192 (8, 10)%Z (2, 1)%Z true false true ["qwen"];
   row "qwen-turbo" "Qwen Turbo" "qwen" Fast
     131072 8192 (3, 10)%Z (6, 10)%Z true false true [];
   row "qwen-vl-plus" "Qwen VL Plus" "qwen" Smart
     32768 8192 (15, 10)%Z (45, 10)%Z false true true [];
   row "qwen-coder-plus" "Qwen Coder Plus" "qwen" Smart
     131072 8192 (8, 10)%Z (2, 1)%Z true false true [];
   row "qwen-long" "Qwen Long" "qwen" Balanced
     1000000 8192 (5, 10)%Z (2, 1)%Z true false true []]%string.

Definition minimax_models : list ModelCatalogEntry :=
  [row "minimax-text-01" "MiniMax Text 01" "minimax" Smart
     1048576 16384 (1, 1)%Z (3, 1)%Z true false true ["minimax"];
   row "MiniMax-M2.1" "MiniMax M2.1" "minimax" Smart
     1048576 16384 (1, 1)%Z (3, 1)%Z true false true [];
   row "abab6.5-chat" "ABAB 6.5 Chat" "minimax" Balanced
     245760 8192 (5, 10)%Z (15, 10)%Z true false true []]%string.

Definition zhipu_models : list ModelCatalogEntry :=
  [row "glm-4-plus" "GLM-4 Plus" "zhipu" Smart
     131072 8192 (15, 10)%Z (5, 1)%Z true false true ["glm"];
   row "glm-4-flash" "GLM-4 Flash" "zhipu" Fast
     131072 8192 (1, 10)%Z (1, 10)%Z true false true [];
   row "glm-4v-plus" "GLM-4V Plus" "zhipu" Smart
     8192 4096 (2, 1)%Z (5, 1)%Z true true true [];
   row "glm-4-long" "GLM-4 Long" "zhipu" Balanced
     1000000 8192 (1, 10)%Z (1, 10)%Z true false true []]%string.

Definition moonshot_models : list ModelCatalogEntry :=
  [row "moonshot-v1-128k" "Moonshot V1 128K" "moonshot" Smart
     131072 8192 (8, 10)%Z (8, 10)%Z true false true ["kimi"];
   row "moonshot-v1-32k" "Moonshot V1 32K" "moonshot" Balanced
     32768 8192 (3, 10)%Z (3, 10)%Z true false true [];
   row "moonshot-v1-8k" "Moonshot V1 8K" "moonshot" Fast
     8192 4096 (1, 10)%Z (1, 10)%Z true false true []]%string.

Definition qianfan_models : list ModelCatalogEntry :=
  [row "ernie-4.5-8k" "ERNIE 4.5 8K" "qianfan" Smart
     8192 4096 (2, 1)%Z (6, 1)%Z true false true ["ernie"];
   row "ernie-4.0-turbo-8k" "ERNIE 4.0 Turbo 8K" "qianfan" Balanced
     8192 4096 (1, 1)%Z (3, 1)%Z true false true [];
   row "ernie-speed-128k" "ERNIE Speed 128K" "qianfan" Fast
     131072 4096 (0, 1)%Z (0, 1)%Z true false true []]%string.

Definition bedrock_models : list ModelCatalogEntry :=
  [row "bedrock/anthropic.claude-opus-4-6" "Claude Opus 4.6 (Bedrock)" "bedrock" Frontier
     200000 128000 (5, 1)%Z (25, 1)%Z true true true [];
   row "bedrock/anthropic.claude-sonnet-4-6" "Claude Sonnet 4.6 (Bedrock)" "bedrock" Smart
     200000 64000 (3, 1)%Z (15, 1)%Z true true true [];
   row "bedrock/anthropic.claude-opus-4-20250514" "Claude Opus 4 (Bedrock)" "bedrock" Frontier
     200000 32000 (15, 1)%Z (75, 1)%Z true true true [];
   row "bedrock/anthropic.claude-sonnet-4-20250514" "Claude Sonnet 4 (Bedrock)" "bedrock" Smart
     200000 64000 (3, 1)%Z (15, 1)%Z true true true [];
   row "bedrock/anthropic.claude-haiku-4-5-20251001" "Claude Haiku 4.5 (Bedrock)" "bedrock" Fast
     200000 8192 (25, 100)%Z (125, 100)%Z true true true [];
   row "bedrock/amazon.nova-pro-v1:0" "Amazon Nova Pro (Bedrock)" "bedrock" Smart
     300000 5120 (8, 10)%Z (32, 10)%Z true true true [];
   row "bedrock/amazon.nova-lite-v1:0" "Amazon Nova Lite (Bedrock)" "bedrock" Fast
     300000 5120 (6, 100)%Z (24, 100)%Z true true true [];
   row "bedrock/meta.llama3-3-70b-instruct-v1:0" "Llama 3.3 70B (Bedrock)" "bedrock" Balanced
     128000 4096 (72, 100)%Z (72, 100)%Z true false true []]%string.

Definition builtin_models : list ModelCatalogEntry :=
  anthropic_models ++ openai_models ++ gemini_models ++ deepseek_models ++ groq_models ++ openrouter_models ++
  mistral_models ++ together_models ++ fireworks_models ++ ollama_models ++ vllm_models ++ lmstudio_models ++
  perplexity_models ++ cohere_models ++ ai21_models ++ cerebras_models ++ sambanova_models ++ xai_models ++
  huggingface_models ++ replicate_models ++ github_copilot_models ++ qwen_models ++ minimax_models ++
  zhipu_models ++ moonshot_models ++ qianfan_models ++ bedrock_models.

(** ** Aliases *)

Definition alias_pairs : list (string * string) :=
  [("sonnet", "claude-sonnet-4-6"); ("claude-sonnet", "claude-sonnet-4-6"); ("haiku", "claude-haiku-4-5-20251001");
   ("claude-haiku", "claude-haiku-4-5-20251001"); ("opus", "claude-opus-4-6"); ("claude-opus", "claude-opus-4-6");
   ("gpt4", "gpt-4o"); ("gpt4o", "gpt-4o"); ("gpt4-mini", "gpt-4o-mini");
   ("gpt5", "gpt-5.2"); ("gpt5-mini", "gpt-5-mini"); ("flash", "gemini-3-flash");
   ("gemini-flash", "gemini-3-flash"); ("gemini-pro", "gemini-3.1-pro"); ("deepseek", "deepseek-chat");
   ("llama", "llama-3.3-70b-versatile"); ("llama-70b", "llama-3.3-70b-versatile"); ("mixtral", "mixtral-8x7b-32768");
   ("mistral", "mistral-large-latest"); ("codestral", "codestral-latest"); ("deepseek-v3", "deepseek-chat");
   ("deepseek-r1", "deepseek-reasoner"); ("mistral-nemo", "open-mistral-nemo"); ("pixtral", "pixtral-large-latest");
   ("grok", "grok-4"); ("grok-mini", "grok-2-mini"); ("grok3", "grok-3");
   ("grok-fast", "grok-4.1-fast"); ("sonar", "sonar-pro"); ("jamba", "jamba-1.5-large");
   ("command-r", "command-r-plus"); ("command", "command-a"); ("copilot", "copilot/gpt-4o");
   ("copilot-4o", "copilot/gpt-4o"); ("copilot-4", "copilot/gpt-4"); ("copilot-gpt4o", "copilot/gpt-4o");
   ("copilot-gpt4", "copilot/gpt-4"); ("qwen", "qwen-plus"); ("glm", "glm-4-plus");
   ("ernie", "ernie-4.5-8k"); ("kimi", "moonshot-v1-128k"); ("minimax", "minimax-text-01")]%string.

Section catalogue.
Context `{UnicodeCase}.

Definition builtin_aliases : gmap str str :=
  foldl (λ acc p, <[to_lowercase (lit p.1) := lit p.2]> acc) ∅ alias_pairs.

Definition builtin_catalog : ModelCatalog := new_catalog builtin_models builtin_aliases builtin_providers.
End catalogue.

(** ** The tables are consistent *)

(** On ASCII text every case mapping agrees with that of the ASCII letters,
    so what is found does not depend on it. *)
Definition plain_catalog (c : ModelCatalog) : bool := forallb (λ m, is_ascii (model_id m)) (models c).

Lemma find_ext {A} (f g : A → bool) l : (∀ x, In x l → f x = g x) → List.find f l = List.find g l.
Proof.
  induction l as [|x l IH]; [done|]. intros Hfg. cbn [List.find]. rewrite (Hfg x) by by left.
  rewrite IH; [done|]. intros y Hy. apply Hfg. by right.
Qed.

Lemma find_model_plain `{UnicodeCase} c name :
  plain_catalog c = true → is_ascii name = true → find_model c name = find_model (H := ascii_case) c name.
Proof.
  intros Hc Hn. unfold find_model. rewrite to_lowercase_ascii by done.
  rewrite (find_ext _ (λ m, str_eqb (to_lowercase (UnicodeCase := ascii_case) (model_id m)) (ascii_lower <$> name))); [done|].
  intros m Hm. rewrite to_lowercase_ascii; [done|]. unfold plain_catalog in Hc. rewrite forallb_forall in Hc. by apply Hc.
Qed.

Lemma builtin_aliases_plain `{UnicodeCase} : builtin_aliases = builtin_aliases (H := ascii_case).
Proof.
  unfold builtin_aliases. assert (forallb (λ p, is_ascii (lit p.1)) alias_pairs = true) as Hp
    by (vm_compute; reflexivity).
  revert Hp. generalize (∅ : gmap str str). induction alias_pairs as [|p l IH]; [done|].
  intros acc [Hp Hl]%andb_true_iff. cbn [foldl]. rewrite to_lowercase_ascii by done. by apply IH.
Qed.

Lemma builtin_catalog_plain `{UnicodeCase} : builtin_catalog = builtin_catalog (H := ascii_case).
Proof. unfold builtin_catalog. by rewrite builtin_aliases_plain. Qed.

Lemma by_table {A} (f : A → bool) l x : forallb f l = true → x ∈ l → f x = true.
Proof. rewrite forallb_forall, list_elem_of_In. auto. Qed.

(** The id of the one model that another model hides. *)
Definition hidden_model : str := lit "meta-llama/Llama-4-Scout-17B-16E-Instruct".

Definition same_model (m m' : ModelCatalogEntry) : bool :=
  str_eqb (model_id m) (model_id m') && str_eqb (model_provider m) (model_provider m').

Abbreviation plain := (builtin_catalog (H := ascii_case)).

Definition aliases_lead (c : ModelCatalog) : bool :=
  forallb (λ p, is_ascii p.1 && match find_model (H := ascii_case) c p.1 with
                                | Some m => str_eqb (model_id m) p.2
                                | None => false
                                end) (map_to_list (aliases c)).

Definition models_found (c : ModelCatalog) : bool :=
  forallb (λ m, match find_model (H := ascii_case) c (model_id m) with
                | Some m' => same_model m m' || str_eqb (model_id m) hidden_model
                | None => false
                end) (models c).

Definition providers_known (c : ModelCatalog) : bool :=
  forallb (λ m, bool_decide (is_Some (get_provider c (model_provider m)))) (models c)
  && forallb (λ p, 0 <? model_count p) (providers c).

Lemma tables_checked :
  (λ c, plain_catalog c && aliases_lead c && models_found c && providers_known c) plain
  && bool_decide (NoDup (provider_id <$> builtin_providers))
  && bool_decide (NoDup ((λ m, (model_id m, model_provider m)) <$> builtin_models)) = true.
Proof. vm_compute. reflexivity. Qed.

(** The models of one provider have different ids. *)
Lemma same_model_eq m m' : m ∈ builtin_models → m' ∈ builtin_models → same_model m m' = true → m = m'.
Proof.
  pose proof tables_checked as [_ Hd%bool_decide_eq_true]%andb_true_iff.
  intros (i & Hi)%list_elem_of_lookup (j & Hj)%list_elem_of_lookup [Em%str_eqb_spec Ep%str_eqb_spec]%andb_true_iff.
  enough (i = j) as <- by congruence.
  eapply (NoDup_lookup _ _ _ (model_id m, model_provider m) Hd); rewrite list_lookup_fmap; [by rewrite Hi|].
  rewrite Hj. cbn. by rewrite Em, Ep.
Qed.

Lemma builtin_models_eq : models plain = builtin_models.
Proof. reflexivity. Qed.

Lemma find_model_in `{UnicodeCase} c name m : find_model c name = Some m → m ∈ models c.
Proof.
  unfold find_model. rewrite list_elem_of_In.
  case_match eqn:E; [intros [= <-]; exact (proj1 (List.find_some _ _ E))|]. case_match; [|done].
  by intros [? _]%List.find_some.
Qed.

(** The catalogue the program starts with is consistent: every alias leads to
    the model it names; every model is found by its id, except the one whose
    id differs from that of another provider's model in case only; every
    model belongs to a provider, which counts at least one; and the
    providers have different ids. *)
Theorem builtin_catalog_consistent `{UnicodeCase} :
  let c := builtin_catalog in
  (∀ alias id, aliases c !! alias = Some id → ∃ m, find_model c alias = Some m ∧ model_id m = id)
  ∧ (∀ m, m ∈ models c → model_id m ≠ hidden_model → find_model c (model_id m) = Some m)
  ∧ (∀ m, m ∈ models c → ∃ p, get_provider c (model_provider m) = Some p ∧ 0 < model_count p)
  ∧ NoDup (provider_id <$> providers c).
Proof.
  intros c. unfold c. rewrite builtin_catalog_plain.
  pose proof tables_checked as [[Ht Hp]%andb_true_iff _]%andb_true_iff. cbv beta in Ht.
  apply andb_true_iff in Ht as [[[Hascii Ha]%andb_true_iff Hm]%andb_true_iff [Hk Hc]%andb_true_iff].
  split_and!.
  - intros alias id Hal%elem_of_map_to_list. pose proof (by_table _ _ _ Ha Hal) as [Hi Hf]%andb_true_iff. cbn [fst snd] in *.
    rewrite find_model_plain by done. destruct (find_model _ alias) as [m|]; [|done].
    exists m. split; [done|]. by apply str_eqb_spec.
  - intros m Hin Hne. pose proof (by_table _ _ _ Hm Hin) as Hf. cbv beta in Hf.
    rewrite find_model_plain; [|done|exact (by_table _ _ _ Hascii Hin)].
    destruct (find_model _ (model_id m)) as [m'|] eqn:E; [|discriminate Hf]. apply find_model_in in E.
    rewrite builtin_models_eq in E, Hin.
    apply orb_true_iff in Hf as [Hf|Hf%str_eqb_spec]; [|contradiction]. f_equal. symmetry.
    exact (same_model_eq _ _ Hin E Hf).
  - intros m Hin. pose proof (by_table _ _ _ Hk Hin) as Hf. apply bool_decide_eq_true in Hf as [p Hf].
    exists p. split; [done|]. apply List.find_some in Hf as [Hf _].
    apply Nat.ltb_lt. apply (by_table (λ p, 0 <? model_count p) _ _ Hc). by apply list_elem_of_In.
  - unfold builtin_catalog, new_catalog. cbn [providers]. rewrite <-list_fmap_compose. by apply bool_decide_eq_true in Hp.
Qed.

(** The hidden model is found as that of the other provider, with its window
    and its price. *)
Example hidden_model_found :
  (λ m, (model_provider m, context_window m)) <$> find_model (H := ascii_case) plain hidden_model
  = Some (lit "groq", 128000%Z)
  ∧ (λ m, (model_provider m, context_window m)) <$> List.filter (λ m, str_eqb (model_id m) hidden_model) builtin_models
  = [(lit "together", 512000%Z)].
Proof. vm_compute. done. Qed.
