(* ===== verification/Metering.v ===== *)
(** * Metering

    [openfang-kernel/src/metering.rs]: the limits on what agents spend, and the
    estimated price of a call. The sums over the usage table of the memory
    crate are parameters: what a query returns. *)

From Stdlib Require Import Ascii ZArith Lia SpecFloat.
From stdpp Require Import base gmap strings list.
From S2P Require Import Prelude Strs Floats ModelCatalog AgentTypes.

(** [0.05] is [5/100]: a price with its decimals, correctly rounded. *)
Definition price (p : Z * Z) : spec_float := f64_lit p.1 p.2.

(** The rows of [estimate_cost_rates]: what a name must contain one of, and
    the prices of a million input and output tokens. *)
Definition RATES : list (list str * (spec_float * spec_float)) :=
  (λ r : list string * (Z * Z) * (Z * Z), (lit <$> r.1.1, (price r.1.2, price r.2))) <$>
  ([
   (["haiku"], (25, 100), (125, 100));
   (["opus-4-6"; "claude-opus-4-6"], (5, 1), (25, 1));
   (["opus"], (15, 1), (75, 1));
   (["sonnet-4-6"; "claude-sonnet-4-6"], (3, 1), (15, 1));
   (["sonnet"], (3, 1), (15, 1));
   (["gpt-5.2-pro"], (175, 100), (14, 1));
   (["gpt-5.2"], (175, 100), (14, 1));
   (["gpt-5.1"], (125, 100), (10, 1));
   (["gpt-5-nano"], (5, 100), (4, 10));
   (["gpt-5-mini"], (25, 100), (2, 1));
   (["gpt-5"], (125, 100), (10, 1));
   (["gpt-4o-mini"], (15, 100), (6, 10));
   (["gpt-4o"], (25, 10), (10, 1));
   (["gpt-4.1-nano"], (1, 10), (4, 10));
   (["gpt-4.1-mini"], (4, 10), (16, 10));
   (["gpt-4.1"], (2, 1), (8, 1));
   (["o4-mini"], (11, 10), (44, 10));
   (["o3-mini"], (11, 10), (44, 10));
   (["o3"], (2, 1), (8, 1));
   (["gpt-4"], (25, 10), (10, 1));
   (["gemini-3.1"], (25, 10), (15, 1));
   (["gemini-3"], (5, 10), (3, 1));
   (["gemini-2.5-flash-lite"], (4, 100), (15, 100));
   (["gemini-2.5-pro"], (125, 100), (10, 1));
   (["gemini-2.5-flash"], (15, 100), (6, 10));
   (["gemini-2.0-flash"; "gemini-flash"], (1, 10), (4, 10));
   (["gemini"], (15, 100), (6, 10));
   (["deepseek-reasoner"; "deepseek-r1"], (55, 100), (219, 100));
   (["deepseek"], (27, 100), (11, 10));
   (["cerebras"], (6, 100), (6, 100));
   (["sambanova"], (6, 100), (6, 100));
   (["replicate"], (4, 10), (4, 10));
   (["llama-4-maverick"], (5, 10), (77, 100));
   (["llama-4-scout"], (11, 100), (34, 100));
   (["llama"; "mixtral"], (5, 100), (1, 10));
   (["qwen-max"], (4, 1), (12, 1));
   (["qwen-vl"], (15, 10), (45, 10));
   (["qwen-plus"], (8, 10), (2, 1));
   (["qwen-turbo"], (3, 10), (6, 10));
   (["qwen"], (2, 10), (6, 10));
   (["minimax"], (1, 1), (3, 1));
   (["glm-4-flash"], (1, 10), (1, 10));
   (["glm"], (15, 10), (5, 1));
   (["moonshot"; "kimi"], (8, 10), (8, 10));
   (["ernie"], (2, 1), (6, 1));
   (["nova-pro"], (8, 10), (32, 10));
   (["nova-lite"], (6, 100), (24, 100));
   (["mistral-large"], (2, 1), (6, 1));
   (["mistral-small"; "mistral"], (1, 10), (3, 10));
   (["command-r-plus"], (25, 10), (10, 1));
   (["command-r"], (15, 100), (6, 10));
   (["sonar-pro"], (3, 1), (15, 1));
   (["sonar"], (1, 1), (5, 1));
   (["grok-4.1"], (2, 10), (5, 10));
   (["grok-4"], (3, 1), (15, 1));
   (["grok-3-mini"; "grok-2-mini"; "grok-mini"], (3, 10), (5, 10));
   (["grok-3"], (3, 1), (15, 1));
   (["grok"], (2, 1), (10, 1));
   (["jamba"], (2, 1), (8, 1))
  ]%string%Z).

Definition DEFAULT_RATES : spec_float * spec_float := (price (1, 1)%Z, price (3, 1)%Z).

Definition estimate_cost_rates (model : str) : spec_float * spec_float :=
  match List.find (λ r, existsb (contains model) r.1) RATES with
  | Some r => r.2
  | None => DEFAULT_RATES
  end.

Definition cost_of (rates : spec_float * spec_float) (input_tokens output_tokens : Z) : spec_float :=
  let million := f64_of_Z 1000000 in
  f64_add (f64_mul (f64_div (f64_of_Z input_tokens) million) rates.1)
          (f64_mul (f64_div (f64_of_Z output_tokens) million) rates.2).

Section metering.
Context `{UnicodeCase}.

Definition estimate_cost (model : str) (input_tokens output_tokens : Z) : spec_float :=
  cost_of (estimate_cost_rates (to_lowercase model)) input_tokens output_tokens.

Definition estimate_cost_with_catalog (c : ModelCatalog) (model : str) (input_tokens output_tokens : Z) : spec_float :=
  cost_of (default DEFAULT_RATES (pricing c model)) input_tokens output_tokens.

(** ** Limits *)

Inductive MeteringError : Type := StoreError (e : str) | QuotaExceeded (e : str).

Definition f64_geb (x y : spec_float) : bool := SFleb y x.

Context (fmt_f64_4 : spec_float → str).

(** One limit: zero or less is no limit. *)
Definition check_limit (limit : spec_float) (query : result spec_float str) (exceeded : str)
    : result unit MeteringError :=
  if f64_gtb limit (f64_of_Z 0) then
    match query with
    | Err e => Err (StoreError e)
    | Ok cost =>
        if f64_geb cost limit
        then Err (QuotaExceeded (exceeded ++ lit ": $" ++ fmt_f64_4 cost ++ lit " / $" ++ fmt_f64_4 limit))
        else Ok tt
    end
  else Ok tt.

Definition and_then (r k : result unit MeteringError) : result unit MeteringError :=
  match r with Ok _ => k | Err e => Err e end.

(** The sums of an agent, or of all agents, by hour, day and month. *)
Record Spending : Type := mkSpending {
  hourly : result spec_float str;
  daily : result spec_float str;
  monthly : result spec_float str
}.

Definition check_quota (agent : str) (s : Spending) (q : ResourceQuota) : result unit MeteringError :=
  let text := λ span, lit "Agent " ++ agent ++ lit " exceeded " ++ lit span ++ lit " cost quota" in
  and_then (check_limit (max_cost_per_hour_usd q) (hourly s) (text "hourly"%string))
    (and_then (check_limit (max_cost_per_day_usd q) (daily s) (text "daily"%string))
       (check_limit (max_cost_per_month_usd q) (monthly s) (text "monthly"%string))).

Record BudgetConfig : Type := mkBudget {
  max_hourly_usd : spec_float;
  max_daily_usd : spec_float;
  max_monthly_usd : spec_float;
  alert_threshold : spec_float
}.

Definition default_budget : BudgetConfig := mkBudget (f64_of_Z 0) (f64_of_Z 0) (f64_of_Z 0) (f64_lit 8 10).

Definition check_global_budget (s : Spending) (b : BudgetConfig) : result unit MeteringError :=
  let text := λ span, lit "Global " ++ lit span ++ lit " budget exceeded" in
  and_then (check_limit (max_hourly_usd b) (hourly s) (text "hourly"%string))
    (and_then (check_limit (max_daily_usd b) (daily s) (text "daily"%string))
       (check_limit (max_monthly_usd b) (monthly s) (text "monthly"%string))).

Record SpanStatus : Type := mkSpan { spend : spec_float; limit : spec_float; pct : spec_float }.

(** [BudgetStatus], its fields by span. *)
Record BudgetStatus : Type := mkStatus {
  hourly_status : SpanStatus;
  daily_status : SpanStatus;
  monthly_status : SpanStatus;
  status_threshold : spec_float
}.

Definition span_status (query : result spec_float str) (lim : spec_float) : SpanStatus :=
  let spent := match query with Ok x => x | Err _ => f64_of_Z 0 end in
  mkSpan spent lim (if f64_gtb lim (f64_of_Z 0) then f64_div spent lim else f64_of_Z 0).

Definition budget_status (s : Spending) (b : BudgetConfig) : BudgetStatus :=
  mkStatus (span_status (hourly s) (max_hourly_usd b)) (span_status (daily s) (max_daily_usd b))
    (span_status (monthly s) (max_monthly_usd b)) (alert_threshold b).

(** ** What is allowed *)

(** A sum that leaves room under a limit. *)
Definition within (limit : spec_float) (query : result spec_float str) : Prop :=
  f64_gtb limit (f64_of_Z 0) = false ∨ ∃ cost, query = Ok cost ∧ f64_geb cost limit = false.

Lemma check_limit_ok limit query exceeded : check_limit limit query exceeded = Ok tt ↔ within limit query.
Proof.
  unfold check_limit, within. destruct (f64_gtb limit (f64_of_Z 0)); [|tauto].
  destruct query as [cost|e]; [|by split; [|intros [?|(? & ? & _)]]].
  destruct (f64_geb cost limit) eqn:E; split; try done.
  - intros [?|(? & [= <-] & ?)]; congruence.
  - intros _. right. eauto.
Qed.

Lemma and_then_ok r k : and_then r k = Ok tt ↔ r = Ok tt ∧ k = Ok tt.
Proof. destruct r as [[]|]; cbn; [tauto|]. split; [done|]. by intros [? _]. Qed.

(** An agent may run exactly if every limit that is set has room: the
    query must succeed and the sum be under the limit; a sum that is not a
    number is let through. *)
Theorem quota_allows agent s q :
  check_quota agent s q = Ok tt ↔
  within (max_cost_per_hour_usd q) (hourly s) ∧ within (max_cost_per_day_usd q) (daily s) ∧
  within (max_cost_per_month_usd q) (monthly s).
Proof. unfold check_quota. cbv zeta. by rewrite !and_then_ok, !check_limit_ok. Qed.

Theorem budget_allows s b :
  check_global_budget s b = Ok tt ↔
  within (max_hourly_usd b) (hourly s) ∧ within (max_daily_usd b) (daily s) ∧ within (max_monthly_usd b) (monthly s).
Proof. unfold check_global_budget. cbv zeta. by rewrite !and_then_ok, !check_limit_ok. Qed.
End metering.

(** The price table is in order: no row is hidden by one before it, so every
    pattern has the prices of its own row. *)
Definition row_visible (r : list str * (spec_float * spec_float)) : bool :=
  forallb (λ p, match List.find (λ r', existsb (contains p) r'.1) RATES with
                | Some r' => bool_decide (r'.1 = r.1)
                | None => false
                end) r.1.

Lemma rates_in_order : forallb row_visible RATES = true.
Proof. vm_compute. reflexivity. Qed.

Lemma find_row_eq (r r' : list str * (spec_float * spec_float)) :
  r ∈ RATES → r' ∈ RATES → r.1 = r'.1 → r.2 = r'.2.
Proof.
  assert (NoDup (RATES.*1)) as Hn by (apply (bool_decide_unpack _); vm_compute; exact I).
  intros [i Hi]%list_elem_of_lookup [j Hj]%list_elem_of_lookup Heq.
  assert (i = j) as ->; [|congruence].
  eapply NoDup_lookup; [exact Hn| |]; rewrite list_lookup_fmap; [by rewrite Hi|by rewrite Hj, Heq].
Qed.

Theorem rates_by_pattern r p : r ∈ RATES → p ∈ r.1 → estimate_cost_rates p = r.2.
Proof.
  intros Hr Hp. pose proof rates_in_order as Ho. rewrite forallb_forall in Ho.
  specialize (Ho r (proj1 (list_elem_of_In _ _) Hr)). unfold row_visible in Ho. rewrite forallb_forall in Ho.
  specialize (Ho p (proj1 (list_elem_of_In _ _) Hp)). unfold estimate_cost_rates.
  destruct (List.find _ RATES) as [r'|] eqn:E; [|done]. apply bool_decide_eq_true in Ho.
  apply List.find_some in E as [E _]. apply find_row_eq; [by apply list_elem_of_In|done|done].
Qed.
