(* ===== verification/ModelRouter.v ===== *)
(** * The choice of a model and of its driver

    [openfang-runtime/src/routing.rs], which picks a model by the complexity of
    a request; [resolve_driver] of [openfang-kernel/src/kernel.rs], which picks
    the drivers for an agent; and [openfang-runtime/src/drivers/fallback.rs],
    which tries them in turn. Drivers are a type [D] and [create_driver] a
    parameter; [var] reads the environment. *)

From Stdlib Require Import Ascii ZArith Lia SpecFloat.
From stdpp Require Import base gmap strings list.
From S2P Require Import Prelude Strs Message ModelCatalog ContextWindow AgentTypes LlmErrors ProviderCall AgentLoop.

Inductive TaskComplexity : Type := Simple | Medium | Complex.

#[export] Instance task_complexity_eq_dec : EqDecision TaskComplexity.
Proof. solve_decision. Defined.

Definition show_complexity (c : TaskComplexity) : str :=
  lit match c with Simple => "simple" | Medium => "medium" | Complex => "complex" end.

Definition code_markers : list str :=
  lit <$> ["```"; "fn "; "def "; "class "; "import "; "function "; "async "; "await "; "struct "; "impl ";
           "return "]%string.

(** [n as u32] *)
Definition as_u32 (n : nat) : Z := (Z.of_nat n mod (u32_max + 1))%Z.

Section router.
Context `{UnicodeCase} {Value : Type}.

Definition length_points (r : CompletionRequest (Value := Value)) : Z :=
  as_u32 (sum_list ((λ m, text_length (content m)) <$> req_messages r) / 4).

Definition tool_points (r : CompletionRequest (Value := Value)) : Z :=
  wrapping_mul_u32 (as_u32 (length (req_tools r))) 20.

Definition code_points (r : CompletionRequest (Value := Value)) : Z :=
  match last (req_messages r) with
  | Some last_msg =>
      let text_lower := to_lowercase (text_content (content last_msg)) in
      wrapping_mul_u32 (as_u32 (length (List.filter (contains text_lower) code_markers))) 30
  | None => 0
  end.

Definition depth_points (r : CompletionRequest (Value := Value)) : Z :=
  let msg_count := as_u32 (length (req_messages r)) in
  if (10 <? msg_count)%Z then wrapping_mul_u32 (msg_count - 10) 15 else 0.

Definition system_points (r : CompletionRequest (Value := Value)) : Z :=
  match req_system r with
  | Some system =>
      let sys_len := as_u32 (length system) in
      if (500 <? sys_len)%Z then ((sys_len - 500) / 10)%Z else 0
  | None => 0
  end.

Definition points (r : CompletionRequest (Value := Value)) : Z :=
  foldl wrapping_add_u32 0%Z [length_points r; tool_points r; code_points r; depth_points r; system_points r].

Definition classify (cfg : ModelRoutingConfig) (score : Z) : TaskComplexity :=
  if (score <? simple_threshold cfg)%Z then Simple
  else if (complex_threshold cfg <=? score)%Z then Complex
  else Medium.

Definition score (cfg : ModelRoutingConfig) (r : CompletionRequest (Value := Value)) : TaskComplexity :=
  classify cfg (points r).

Definition model_for_complexity (cfg : ModelRoutingConfig) (c : TaskComplexity) : str :=
  match c with Simple => simple_model cfg | Medium => medium_model cfg | Complex => complex_model cfg end.

Definition select_model (cfg : ModelRoutingConfig) (r : CompletionRequest (Value := Value)) : TaskComplexity * str :=
  let complexity := score cfg r in
  (complexity, model_for_complexity cfg complexity).

Definition validate_models (cfg : ModelRoutingConfig) (c : ModelCatalog) : list str :=
  (λ m, lit "Model '" ++ m ++ lit "' not found in catalog") <$>
  List.filter (λ m, negb (bool_decide (is_Some (find_model c m))))
    [simple_model cfg; medium_model cfg; complex_model cfg].

Definition resolved (c : ModelCatalog) (m : str) : str := default m (resolve_alias c m).

Definition resolve_aliases (cfg : ModelRoutingConfig) (c : ModelCatalog) : ModelRoutingConfig :=
  mkRouting (resolved c (simple_model cfg)) (resolved c (medium_model cfg)) (resolved c (complex_model cfg))
    (simple_threshold cfg) (complex_threshold cfg).

(** ** More points never mean a simpler tier *)

Definition tier_rank (c : TaskComplexity) : nat := match c with Simple => 0 | Medium => 1 | Complex => 2 end.

Lemma classify_mono cfg s s' : (s ≤ s')%Z → tier_rank (classify cfg s) ≤ tier_rank (classify cfg s').
Proof.
  intros Hs. unfold classify. destruct (Z.ltb_spec s (simple_threshold cfg)); [cbn; lia|].
  destruct (Z.ltb_spec s' (simple_threshold cfg)); [lia|].
  destruct (Z.leb_spec (complex_threshold cfg) s), (Z.leb_spec (complex_threshold cfg) s'); cbn; lia.
Qed.

(** Sizes for which the arithmetic of the score does not wrap. *)
Definition moderate (r : CompletionRequest (Value := Value)) : Prop :=
  (Z.of_nat (sum_list ((λ m, text_length (content m)) <$> req_messages r)) ≤ 1000000000 ∧
   Z.of_nat (length (req_tools r)) ≤ 1000000 ∧ Z.of_nat (length (req_messages r)) ≤ 1000000 ∧
   match req_system r with Some s => Z.of_nat (length s) ≤ 1000000000 | None => True end)%Z.

Lemma as_u32_small n : (Z.of_nat n ≤ u32_max)%Z → as_u32 n = Z.of_nat n.
Proof. intros Hn. unfold as_u32. rewrite Z.mod_small; lia. Qed.

Lemma sum_no_wrap a b c d e :
  (0 ≤ a ≤ 500000000 → 0 ≤ b ≤ 500000000 → 0 ≤ c ≤ 500000000 → 0 ≤ d ≤ 500000000 → 0 ≤ e ≤ 500000000 →
   foldl wrapping_add_u32 0 [a; b; c; d; e] = a + b + c + d + e)%Z.
Proof.
  intros. cbn [foldl]. unfold wrapping_add_u32, u32_max. rewrite (Z.mod_small (0 + a)) by lia.
  rewrite (Z.mod_small (0 + a + b)) by lia. rewrite (Z.mod_small (0 + a + b + c)) by lia.
  rewrite (Z.mod_small (0 + a + b + c + d)) by lia. rewrite Z.mod_small by lia. lia.
Qed.

(** The score of a request of moderate size: the sum of its points. *)
Lemma points_exact r :
  moderate r →
  points r = (Z.of_nat (sum_list ((λ m, text_length (content m)) <$> req_messages r) / 4)
    + 20 * Z.of_nat (length (req_tools r)) + code_points r
    + 15 * Z.max 0 (Z.of_nat (length (req_messages r)) - 10)
    + match req_system r with Some s => Z.max 0 (Z.of_nat (length s) - 500) / 10 | None => 0 end)%Z
  ∧ (0 ≤ code_points r ≤ 330)%Z.
Proof.
  intros (H1 & H2 & H3 & H4). set (total := sum_list _) in *.
  assert (0 ≤ code_points r ≤ 330)%Z as Hc.
  { unfold code_points. destruct (last (req_messages r)); [|lia]. cbv zeta.
    match goal with |- context [List.filter ?f code_markers] =>
      pose proof (List.filter_length_le f code_markers) as Hl; set (k := length (List.filter f code_markers)) in * end.
    change (length code_markers) with 11 in Hl. unfold wrapping_mul_u32. rewrite as_u32_small by (unfold u32_max; lia).
    rewrite Z.mod_small by (unfold u32_max; lia). lia. }
  split; [|done].
  assert (length_points r = Z.of_nat (total / 4) ∧ (Z.of_nat (total / 4) ≤ 250000000)%Z) as [Hlen Hlb].
  { assert (Z.of_nat (total / 4) ≤ 250000000)%Z
      by (rewrite Nat2Z.inj_div; apply Z.div_le_upper_bound; lia).
    unfold length_points. fold total. rewrite as_u32_small by (unfold u32_max; lia). lia. }
  assert (tool_points r = 20 * Z.of_nat (length (req_tools r)))%Z as Htool.
  { unfold tool_points, wrapping_mul_u32. rewrite as_u32_small by (unfold u32_max; lia).
    rewrite Z.mod_small by (unfold u32_max; lia). lia. }
  assert (depth_points r = 15 * Z.max 0 (Z.of_nat (length (req_messages r)) - 10))%Z as Hdepth.
  { unfold depth_points. rewrite as_u32_small by (unfold u32_max; lia). cbv zeta.
    destruct (Z.ltb_spec 10 (Z.of_nat (length (req_messages r)))); [|lia].
    unfold wrapping_mul_u32. rewrite Z.mod_small by (unfold u32_max; lia). lia. }
  assert (system_points r = match req_system r with Some s => Z.max 0 (Z.of_nat (length s) - 500) / 10 | None => 0 end
          ∧ 0 ≤ system_points r ≤ 100000000)%Z as [Hsys Hsb].
  { unfold system_points. destruct (req_system r) as [s|]; [|lia]. rewrite as_u32_small by (unfold u32_max; lia).
    cbv zeta. destruct (Z.ltb_spec 500 (Z.of_nat (length s))).
    - rewrite Z.max_r by lia. split; [done|]. split; [apply Z.div_pos; lia|].
      apply Z.div_le_upper_bound; lia.
    - rewrite Z.max_l by lia. done. }
  unfold points. rewrite sum_no_wrap; rewrite ?Hlen, ?Htool, ?Hdepth, <-?Hsys; lia.
Qed.

(** Without wrapping, a request with the same messages and more tools or a
    longer system prompt is never routed to a simpler tier. *)
Theorem routing_monotone cfg r r' :
  moderate r → moderate r' → req_messages r = req_messages r' →
  length (req_tools r) ≤ length (req_tools r') →
  length (default [] (req_system r)) ≤ length (default [] (req_system r')) →
  tier_rank (select_model cfg r).1 ≤ tier_rank (select_model cfg r').1.
Proof.
  intros Hr Hr' Hm Ht Hs. apply classify_mono.
  destruct (points_exact r Hr) as [-> _]. destruct (points_exact r' Hr') as [-> _].
  assert (code_points r = code_points r') as -> by (unfold code_points; by rewrite Hm). rewrite Hm.
  assert (∀ o : option str, match o with Some s => Z.max 0 (Z.of_nat (length s) - 500) / 10 | None => 0 end
          = Z.max 0 (Z.of_nat (length (default [] o)) - 500) / 10)%Z as Hd by (by intros [s|]).
  rewrite !Hd. assert (Z.max 0 (Z.of_nat (length (default [] (req_system r))) - 500) / 10 ≤
    Z.max 0 (Z.of_nat (length (default [] (req_system r'))) - 500) / 10)%Z by (apply Z.div_le_mono; lia). lia.
Qed.
End router.

(** ** Drivers *)

Record AuthProfile : Type := mkProfile { profile_name : str; profile_key_env : str; profile_priority : Z }.

Record DriverConfig : Type := mkDriverConfig {
  driver_provider : str;
  driver_api_key : option str;
  driver_base_url : option str
}.

Section drivers.
Context {D Json : Type}.
Context (create_driver : DriverConfig → result D str) (var : str → option str).
Context (default_provider default_api_key_env : str) (default_driver : D).
Context (auth_profiles : gmap str (list AuthProfile)).

(** The variable that holds the key. *)
Definition key_env (provider default_key_env : str) : str :=
  match auth_profiles !! provider with
  | Some profiles =>
      match sort_by_key profile_priority profiles with
      | best :: _ => if bool_decide (is_Some (var (profile_key_env best))) then profile_key_env best else default_key_env
      | [] => default_key_env
      end
  | None => default_key_env
  end.

Definition primary_driver (m : ModelConfig) : result D str :=
  if str_eqb (provider m) default_provider && negb (bool_decide (is_Some (api_key_env m)))
     && negb (bool_decide (is_Some (base_url m)))
  then Ok default_driver
  else
    let env := key_env (provider m) (default default_api_key_env (api_key_env m)) in
    match create_driver (mkDriverConfig (provider m) (var env) (base_url m)) with
    | Ok d => Ok d
    | Err e => Err (lit "Agent LLM driver init failed: " ++ e)
    end.

Definition fallback_driver (fb : FallbackModel) : option D :=
  match create_driver (mkDriverConfig (fb_provider fb) (fb_api_key_env fb ≫= var) (fb_base_url fb)) with
  | Ok d => Some d
  | Err _ => None
  end.

(** The chain of drivers; a chain of one is the driver itself. *)
Definition resolve_driver (m : AgentManifest (Json := Json)) : result (list D) str :=
  match primary_driver (m_model m) with
  | Err e => Err e
  | Ok primary => Ok (primary :: omap fallback_driver (fallback_models m))
  end.
End drivers.

Section fallback.
Context {Req Resp : Type}.

(** The loop over the drivers. *)
Fixpoint fallback_from (last_error : option LlmError) (drivers : list (Req → result Resp LlmError)) (request : Req)
    : result Resp LlmError :=
  match drivers with
  | [] => Err (default (Api 0 (lit "No drivers configured in fallback chain")) last_error)
  | driver :: drivers =>
      match driver request with
      | Ok response => Ok response
      | Err (RateLimited ms) => Err (RateLimited ms)
      | Err (ModelOverloaded ms) => Err (ModelOverloaded ms)
      | Err e => fallback_from (Some e) drivers request
      end
  end.

Definition fallback_complete (drivers : list (Req → result Resp LlmError)) (request : Req) : result Resp LlmError :=
  fallback_from None drivers request.

(** An error that the next driver is tried after. *)
Definition passes_on (e : LlmError) : bool :=
  match e with RateLimited _ | ModelOverloaded _ => false | _ => true end.

Definition decisive (r : result Resp LlmError) : bool :=
  match r with Ok _ => true | Err e => negb (passes_on e) end.

Lemma fallback_from_spec last_error drivers request :
  fallback_from last_error drivers request =
  match List.find (λ d, decisive (d request)) drivers with
  | Some d => d request
  | None =>
      match last drivers with
      | Some d => d request
      | None => Err (default (Api 0 (lit "No drivers configured in fallback chain")) last_error)
      end
  end.
Proof.
  revert last_error. induction drivers as [|d ds IH]; intros last_error; [done|].
  cbn [fallback_from List.find]. destruct (d request) as [resp|e] eqn:E; [cbn; by rewrite E|].
  destruct e; cbn [decisive passes_on negb]; try (by rewrite E).
  all: rewrite IH; destruct (List.find _ ds); [done|]; rewrite last_cons; destruct (last ds); by rewrite ?E.
Qed.

(** The answer of a chain is that of the first driver that answers or is
    limited or overloaded; if all of them fail otherwise, it is the error of
    the last. *)
Theorem fallback_first_decisive drivers request :
  fallback_complete drivers request =
  match List.find (λ d, decisive (d request)) drivers with
  | Some d => d request
  | None =>
      match last drivers with
      | Some d => d request
      | None => Err (Api 0 (lit "No drivers configured in fallback chain"))
      end
  end.
Proof. apply fallback_from_spec. Qed.
End fallback.

(** A rate limit of the first driver keeps the second from being asked. *)
Example limited_not_passed_on :
  fallback_complete [(λ _ : unit, Err (RateLimited 1000)); (λ _, Ok tt)] tt = Err (RateLimited 1000).
Proof. reflexivity. Qed.
