(* ===== verification/AgentMessages.v ===== *)
(** * Messages to agents

    [send_message_with_handle] and [execute_llm_agent] of
    [openfang-kernel/src/kernel.rs]: a message to an agent passes the quotas,
    runs the agent loop with the tools and the prompt of the agent on its
    session, and is accounted for. The file composes the registry, the
    quotas, the capabilities, the prompt builder, the choice of the model and
    of its drivers, the agent loop, the metering, the audit log and the
    supervisor.

    What the kernel asks of the memory, the file system, the skills and the MCP
    servers is the record [Services]; WASM and Python agents are parameters.
    The writes to the memory and to the workspace are the effects returned. A
    panic is [None].

    While the agent loop runs, its own tools and other tasks spawn and kill
    agents, send messages and change quotas and the audit log. A message is
    therefore two steps: [begin_message], up to the run, whose inputs are read
    from the kernel before it starts, and [account], the bookkeeping on the
    kernel as it is when the run has ended. [send_message_with_handle] has
    what happens in between as an argument; the steps of all messages, spawns
    and kills interleave in [node_reachable]. What the preparation and the
    bookkeeping do by themselves is one step each. *)

From Stdlib Require Import Ascii ZArith Lia SpecFloat.
From stdpp Require Import base gmap strings list.
From S2P Require Import Prelude Strs Floats Message ChannelBridge ModelCatalog Metering ContextWindow AgentTypes.
From S2P Require Import AgentQuota AgentRegistry Capability AuditChain Supervision Triggers Background AgentLifecycle.
From S2P Require Import TextToolCalls ReplyDirectives LlmErrors ProviderCall Hooks PromptBuilder AgentLoop AgentLoopFacts AgentLoopTheorems ModelRouter.

(** [OpenFangError] as text. *)
Definition show_openfang_error (e : OpenFangError) : str :=
  match e with
  | AgentNotFound s => lit "Agent not found: " ++ s
  | AgentAlreadyExists s => lit "Agent already exists: " ++ s
  | CapabilityDenied s => lit "Capability denied: " ++ s
  | AgentLoop.QuotaExceeded s => lit "Resource quota exceeded: " ++ s
  | InvalidState current operation =>
      lit "Agent is in invalid state '" ++ current ++ lit "' for operation '" ++ operation ++ lit "'"
  | SessionNotFound s => lit "Session not found: " ++ s
  | Memory s => lit "Memory error: " ++ s
  | ToolExecution tool reason => lit "Tool execution failed: " ++ tool ++ lit " — " ++ reason
  | LlmDriver s => lit "LLM driver error: " ++ s
  | Config s => lit "Configuration error: " ++ s
  | ManifestParse s => lit "Manifest parsing error: " ++ s
  | Sandbox s => lit "WASM sandbox error: " ++ s
  | Network s => lit "Network error: " ++ s
  | Serialization s => lit "Serialization error: " ++ s
  | MaxIterationsExceeded n => lit "Max iterations exceeded: " ++ show_Z n
  | ShuttingDown => lit "Shutdown in progress"
  | Io s => lit "IO error: " ++ s
  | Internal s => lit "Internal error: " ++ s
  | AuthDenied s => lit "Auth denied: " ++ s
  | AgentLoop.MeteringError s => lit "Metering error: " ++ s
  | InvalidInput s => lit "Invalid input: " ++ s
  end.

Inductive KernelError : Type :=
| OpenFang (e : OpenFangError)
| BootFailed (s : str).

Definition show_kernel_error (e : KernelError) : str :=
  match e with OpenFang e => show_openfang_error e | BootFailed s => lit "Boot failed: " ++ s end.

Section messages.
Context {Value Vec Uuid : Type} `{EqDecision Value} `{Countable Uuid} `{UnicodeCase}.
Context {AgentId SessionId TriggerId EventId LoopId : Type}.
Context `{Countable AgentId} `{Countable TriggerId} `{Countable LoopId}.
Context (show_agent : AgentId → str).
Context (json_to_string : Value → str) (json_command : Value → option str) (sha256_hex : str → str).
Context (schema_to_string : Value → option str) (parse_json : str → option Value).
Context (json_bool : Value → option bool) (fmt_f64_4 : spec_float → str).

Abbreviation manifest_t := (AgentManifest (Json := Value)).
Abbreviation entry_t := (AgentEntry (AgentId := AgentId) (SessionId := SessionId) (Json := Value)).
Abbreviation kernel_t := (Kernel (AgentId := AgentId) (SessionId := SessionId) (TriggerId := TriggerId)
  (EventId := EventId) (LoopId := LoopId) (Json := Value)).
Abbreviation tool_t := (ContextWindow.ToolDefinition (Value := Value)).
Abbreviation env_t := (Environment (Value := Value) (Vec := Vec) (Uuid := Uuid)).

(** A driver: the answer to a request after a trace, the [n]-th of a call. *)
Abbreviation driver_t := (list (LoopEvent (Value := Value) (Vec := Vec)) → nat →
  CompletionRequest (Value := Value) → result (CompletionResponse (Value := Value)) LlmError).

Record UsageRecord : Type := mkUsageRecord {
  used_by : AgentId;
  used_model : str;
  used_input : Z;
  used_output : Z;
  used_cost : spec_float;
  used_tool_calls : Z
}.

Record Services : Type := mkServices {
  spending : Spending;
  stored_session : result (option (list (Message Value))) str;
  builtin_tools : list tool_t;
  mcp_tools : list tool_t;
  skill_tools : list str → list tool_t;
  ensure_workspace : str → result unit str;
  build_skill_summary : list str → str;
  collect_prompt_context : list str → str;
  build_mcp_summary : list str → str;
  known_user : option str;
  read_identity_file : str → str → option str;
  canonical : option str;
  workspace_section : str → str;
  stable_mode : bool;
  catalog : ModelCatalog;
  create_driver : DriverConfig → result driver_t str;
  env_var : str → option str;
  default_key_env : str;
  default_driver : driver_t;
  auth_profiles : gmap str (list AuthProfile);
  build_link_context : str → option str;
  loop_env : env_t;
  footer : UsageFooterMode
}.

(** What is written to the memory and the workspace after a run; the run
    itself comes first, with the world it leaves. *)
Inductive MessageEffect : Type :=
| RanLoop (w : AgentLoop.World (Value := Value) (Vec := Vec))
| AppendedCanonical (ms : list (Message Value))
| Mirrored (ms : list (Message Value))
| LoggedDaily (workspace response : str)
| Metered (u : UsageRecord).

Context (cfg : KernelConfig) (s : Services).

(** ** Preparing the run *)

Definition with_registry (k : kernel_t) (r : Registry (AgentId := AgentId) (SessionId := SessionId) (Json := Value))
    : kernel_t :=
  mkKernel r (scheduler k) (caps k) (trigger_engine k) (audit_log k) (background k) (event_bus k).

(** The workspace of an agent that has none yet. *)
Definition backfill (k : kernel_t) (i : AgentId) (m : manifest_t) (now : Z) : kernel_t * manifest_t :=
  match workspace m with
  | Some _ => (k, m)
  | None =>
      let dir := workspace_dir show_agent cfg i m in
      match ensure_workspace s dir with
      | Err _ => (k, m)
      | Ok _ =>
          let m := m_set_workspace (Some dir) m in
          (with_registry k (update_workspace show_agent (registry k) i (workspace m) now).1, m)
      end
  end.

Definition identity_file (m : manifest_t) (file : string) : option str :=
  workspace m ≫= λ w, read_identity_file s w (lit file).

Definition prompt_context (m : manifest_t) (tools : list tool_t) : PromptContext :=
  mkPromptContext (m_name m) (AgentTypes.description m) (system_prompt (m_model m))
    (ContextWindow.tool_name <$> tools) [] (build_skill_summary s (skills m)) (collect_prompt_context s (skills m))
    (if 3 <=? length (mcp_tools s) then build_mcp_summary s (mcp_servers m) else [])
    (workspace m) (identity_file m "SOUL.md") (identity_file m "USER.md") (identity_file m "MEMORY.md")
    (canonical s) (known_user s) None
    (default false (m_metadata m !! lit "is_subagent" ≫= json_bool))
    (bool_decide (is_Some (autonomous m)))
    (identity_file m "AGENTS.md") (identity_file m "BOOTSTRAP.md") (workspace_section s <$> workspace m)
    (identity_file m "IDENTITY.md")
    (if bool_decide (is_Some (autonomous m)) then identity_file m "HEARTBEAT.md" else None).

Definition with_prompt (m : manifest_t) (tools : list tool_t) : manifest_t :=
  m_on_model (model_with None None (Some (build_system_prompt (prompt_context m tools)))) m.

Definition choose_model (m : manifest_t) (tools : list tool_t) (message : str) : manifest_t :=
  if stable_mode s then
    match pinned_model m with
    | Some pinned => m_on_model (model_with None (Some pinned) None) m
    | None => m
    end
  else
    match routing m with
    | None => m
    | Some routing_config =>
        let router := resolve_aliases routing_config (catalog s) in
        let probe := mkRequest (AgentTypes.model (m_model m)) [user_text message] tools (max_tokens (m_model m))
                       (temperature (m_model m)) (Some (system_prompt (m_model m))) None in
        m_on_model (model_with None (Some (select_model router probe).2) None) m
    end.

Definition drivers_of (m : manifest_t) : result (list driver_t) str :=
  resolve_driver (create_driver s) (env_var s) (dm_provider (k_default_model cfg)) (default_key_env s)
    (default_driver s) (auth_profiles s) m.

(** The environment of the loop: the drivers of the agent, in turn, and no
    callback for phases. *)
Definition env_with (ds : list driver_t) : env_t :=
  let e := loop_env s in
  mkEnv (embed e) (recall e) (hooks e) false
    (λ t n r, fallback_complete ((λ d : driver_t, d t n) <$> ds) r) (stream e) (kernel e) (approval_late e)
    (branch e) (save e) (uuid e).

Definition link_message (message : str) : str :=
  match build_link_context s message with Some link_ctx => message ++ link_ctx | None => message end.

(** ** After the run *)

Definition cost_shown (cost : spec_float) : option spec_float :=
  match footer s with
  | FooterOff | FooterTokens => None
  | FooterCost | FooterFull => if f64_gtb cost (f64_of_Z 0) then Some cost else None
  end.

Definition with_cost (c : option spec_float) (r : AgentLoopResult) : AgentLoopResult :=
  mkResult (response r) (total_usage r) (iterations r) c (is_silent r) (reply_directives r).

Definition new_messages (before : nat) (session : list (Message Value)) : list MessageEffect :=
  if before <? length session then [AppendedCanonical (drop before session)] else [].

Definition usage_of (i : AgentId) (m : manifest_t) (r : AgentLoopResult) : UsageRecord :=
  let model := AgentTypes.model (m_model m) in
  let cost := estimate_cost_with_catalog (catalog s) model (input_tokens (total_usage r))
                (output_tokens (total_usage r)) in
  mkUsageRecord i model (input_tokens (total_usage r)) (output_tokens (total_usage r)) cost
    (saturating_sub (iterations r) 1).

Definition aftermath (i : AgentId) (m : manifest_t) (before : nat) (session : list (Message Value))
    (r : AgentLoopResult) : list MessageEffect :=
  new_messages before session
  ++ match workspace m with
     | Some w => [Mirrored session; LoggedDaily w (response r)]
     | None => []
     end
  ++ [Metered (usage_of i m r)].

Definition run_loop_for (m : manifest_t) (i : AgentId) (message : str) (tools : list tool_t)
    (ds : list driver_t) (session : list (Message Value)) :=
  run_agent_loop json_to_string json_command sha256_hex schema_to_string parse_json (env_with ds)
    (mkSetup m (link_message message) (show_agent i) tools
       ((λ md, Z.to_nat (context_window md)) <$> find_model (catalog s) (AgentTypes.model (m_model m))))
    (mkWorld session []).

Definition metering_error (e : Metering.MeteringError) : KernelError :=
  match e with
  | StoreError e => OpenFang (Memory e)
  | Metering.QuotaExceeded e => OpenFang (AgentLoop.QuotaExceeded e)
  end.

Definition execute_llm_agent (k : kernel_t) (entry : entry_t) (i : AgentId) (message : str) (now : Z)
    : option (kernel_t * list MessageEffect * result AgentLoopResult KernelError) :=
  match Metering.check_quota fmt_f64_4 (show_agent i) (spending s) (resources (AgentTypes.manifest entry)) with
  | Err e => Some (k, [], Err (metering_error e))
  | Ok _ =>
      match stored_session s with
      | Err e => Some (k, [], Err (OpenFang (Memory e)))
      | Ok stored =>
          let session := default [] stored in
          let tools := filter_tools (agent_mode entry)
                         (AgentLifecycle.available_tools (builtin_tools s) (mcp_tools s) (skill_tools s) k i) in
          let '(k, m) := backfill k i (AgentTypes.manifest entry) now in
          let m := choose_model (with_prompt m tools) tools message in
          match drivers_of m with
          | Err e => Some (k, [], Err (BootFailed e))
          | Ok ds =>
              match run_loop_for m i message tools ds session with
              | None => None
              | Some (w, Err e) => Some (k, [RanLoop w], Err (OpenFang e))
              | Some (w, Ok r) =>
                  Some (k, RanLoop w :: aftermath i m (length session) (AgentLoop.session w) r,
                        Ok (with_cost (cost_shown (used_cost (usage_of i m r))) r))
              end
          end
      end
  end.

(** ** Sending *)

Record Node : Type := mkNode { node_kernel : kernel_t; node_supervisor : Supervisor (AgentId := AgentId) }.

(** The times a message reads: at the check of the quota, when the workspace
    is made, at the end, and the timestamp of the audit entry. *)
Record Times : Type := mkTimes { at_check : Z; at_workspace : Z; at_end : Z; stamp : str }.

Context (run_wasm run_python : entry_t → str → result AgentLoopResult KernelError).

Definition with_scheduler (k : kernel_t) (sc : AgentScheduler (AgentId := AgentId)) : kernel_t :=
  mkKernel (registry k) sc (caps k) (trigger_engine k) (audit_log k) (background k) (event_bus k).

Definition with_audit (k : kernel_t) (l : AuditLog) : kernel_t :=
  mkKernel (registry k) (scheduler k) (caps k) (trigger_engine k) l (background k) (event_bus k).

Definition run_entry (k : kernel_t) (entry : entry_t) (i : AgentId) (message : str) (now : Z)
    : option (kernel_t * list MessageEffect * result AgentLoopResult KernelError) :=
  if starts_with (module (AgentTypes.manifest entry)) (lit "wasm:") then Some (k, [], run_wasm entry message)
  else if starts_with (module (AgentTypes.manifest entry)) (lit "python:") then Some (k, [], run_python entry message)
  else execute_llm_agent k entry i message now.

(** The bookkeeping at the end. *)
Definition account (n : Node) (i : AgentId) (t : Times) (r : result AgentLoopResult KernelError) : Node :=
  let k := node_kernel n in
  match r with
  | Ok result =>
      let k := with_scheduler k (record_usage (scheduler k) i (total_usage result) (at_end t)) in
      let k := with_registry k (set_state show_agent (registry k) i Running (at_end t)).1 in
      let detail := lit "tokens_in=" ++ show_Z (input_tokens (total_usage result)) ++ lit ", tokens_out="
                    ++ show_Z (output_tokens (total_usage result)) in
      mkNode (with_audit k (AuditChain.record sha256_hex (audit_log k) (stamp t) (show_agent i)
                AgentMessage detail (lit "ok")).1) (node_supervisor n)
  | Err e =>
      mkNode (with_audit k (AuditChain.record sha256_hex (audit_log k) (stamp t) (show_agent i)
                AgentMessage (lit "agent loop failed") (lit "error: " ++ show_kernel_error e)).1)
        (record_panic (node_supervisor n))
  end.

(** A message that is refused, or whose run ends with a result. *)
Inductive Begun : Type :=
| Refused (e : KernelError)
| Ran (r : result AgentLoopResult KernelError).

Definition begin_message (n : Node) (i : AgentId) (message : str) (t : Times)
    : option (Node * list MessageEffect * Begun) :=
  let k := node_kernel n in
  let '(sc, allowed) := check_quota (scheduler k) i (at_check t) in
  let k := with_scheduler k sc in
  match allowed with
  | Err e => Some (mkNode k (node_supervisor n), [], Refused (OpenFang (AgentLoop.QuotaExceeded e)))
  | Ok _ =>
      match AgentRegistry.get (registry k) i with
      | None => Some (mkNode k (node_supervisor n), [], Refused (OpenFang (AgentNotFound (show_agent i))))
      | Some entry =>
          match run_entry k entry i message (at_workspace t) with
          | None => None
          | Some (k, effects, r) => Some (mkNode k (node_supervisor n), effects, Ran r)
          end
      end
  end.

(** [meanwhile]: what its tools and others do to the node during the run. *)
Definition send_message_with_handle (n : Node) (meanwhile : Node → Node) (i : AgentId) (message : str) (t : Times)
    : option (Node * list MessageEffect * result AgentLoopResult KernelError) :=
  match begin_message n i message t with
  | None => None
  | Some (n, effects, Refused e) => Some (n, effects, Err e)
  | Some (n, effects, Ran r) => Some (account (meanwhile n) i t r, effects, r)
  end.

(** ** What a message leaves behind *)

(** The scheduler lets the message through and the registry has the agent. *)
Definition admitted (k : kernel_t) (i : AgentId) (now : Z) : Prop :=
  (check_quota (scheduler k) i now).2 = Ok tt ∧ is_Some (agents (registry k) !! i).

Definition metered (e : MessageEffect) : option UsageRecord :=
  match e with Metered u => Some u | _ => None end.

Definition is_ok {A E} (r : result A E) : bool := match r with Ok _ => true | Err _ => false end.

Lemma update_entry_lookup (r : Registry (AgentId := AgentId) (SessionId := SessionId) (Json := Value)) i f j :
  agents (update_entry show_agent r i f).1 !! j
  = (if decide (j = i) then f <$> agents r !! i else agents r !! j).
Proof.
  unfold update_entry. destruct (agents r !! i) as [e|] eqn:E; simpl.
  - case_decide; [subst; by rewrite lookup_insert_eq|by rewrite lookup_insert_ne].
  - case_decide; [by subst|done].
Qed.

(** The preparation touches the registry only, and there only the workspace
    of the agent. *)
Lemma backfill_registry k i m now :
  ∃ f, (backfill k i m now).1 = with_registry k (update_entry show_agent (registry k) i f).1
       ∧ ∀ e, f e = e ∨ ∃ ws, f e = touch now (on_manifest (m_set_workspace ws) e).
Proof.
  unfold backfill. destruct (workspace m); [|destruct (ensure_workspace _ _)].
  2: { eexists. split; [reflexivity|]. intros e. right. eexists. reflexivity. }
  all: exists (λ e, e); split; [|by left]; simpl; unfold update_entry;
    destruct k as [[ags ni ti] ? ? ? ? ? ?]; cbn [registry agents];
    destruct (ags !! i) eqn:E; simpl; unfold with_registry; simpl; rewrite ?insert_id; done.
Qed.

Lemma aftermath_metered i m before session r :
  omap metered (aftermath i m before session r) = [usage_of i m r].
Proof.
  unfold aftermath, new_messages. rewrite !omap_app. by case_match; case_match.
Qed.

Lemma aftermath_writes i m before session r w : RanLoop w ∉ aftermath i m before session r.
Proof.
  unfold aftermath, new_messages. rewrite !elem_of_app.
  case_match; case_match; rewrite !elem_of_cons, ?elem_of_nil; intros ?; by destruct_or?.
Qed.

(** A run of the model: what it changes, what it writes, and its meter. *)
Lemma execute_llm_inv k e i message now k' effs r :
  execute_llm_agent k e i message now = Some (k', effs, r) →
  (∃ f, k' = with_registry k (update_entry show_agent (registry k) i f).1
        ∧ ∀ e, f e = e ∨ ∃ ws, f e = touch now (on_manifest (m_set_workspace ws) e))
  ∧ match r with
    | Ok result => ∃ u, omap metered effs = [u] ∧ used_by u = i
        ∧ used_input u = input_tokens (total_usage result) ∧ used_output u = output_tokens (total_usage result)
    | Err _ => omap metered effs = []
    end
  ∧ ∀ w, RanLoop w ∈ effs → ∃ m ds session r,
      run_loop_for m i message
        (filter_tools (agent_mode e) (AgentLifecycle.available_tools (builtin_tools s) (mcp_tools s) (skill_tools s) k i))
        ds session = Some (w, r).
Proof.
  assert (∃ f, k = with_registry k (update_entry show_agent (registry k) i f).1
        ∧ ∀ e, f e = e ∨ ∃ ws, f e = touch now (on_manifest (m_set_workspace ws) e)) as Hid.
  { exists (λ e, e). split; [|by left]. unfold update_entry. destruct k as [[ags ni ti] ? ? ? ? ? ?].
    cbn [registry agents]. destruct (ags !! i) eqn:E; simpl; unfold with_registry; simpl; rewrite ?insert_id; done. }
  unfold execute_llm_agent. destruct (Metering.check_quota _ _ _ _).
  2: { intros [= <- <- <-]. split_and!; [done|done|]. by intros w ?%elem_of_nil. }
  destruct (stored_session s) as [stored|].
  2: { intros [= <- <- <-]. split_and!; [done|done|]. by intros w ?%elem_of_nil. }
  pose proof (backfill_registry k i (AgentTypes.manifest e) now) as Hb.
  destruct (backfill _ _ _ _) as [k1 m]. simpl in Hb.
  destruct (drivers_of _) as [ds|].
  2: { intros [= <- <- <-]. split_and!; [done|done|]. by intros w ?%elem_of_nil. }
  destruct (run_loop_for _ _ _ _ _ _) as [[w [result|err]]|] eqn:Er; intros [= <- <- <-];
    (split; [done|]); split.
  - eexists. cbn [omap list_omap metered]. rewrite aftermath_metered. done.
  - intros w' [[= ->]|Hw]%elem_of_cons; [by eauto|]. by apply aftermath_writes in Hw.
  - done.
  - intros w' [[= ->]|[]%elem_of_nil]%elem_of_cons. eauto.
Qed.

(** A setter keeps the agents there are. *)
Lemma update_entry_some (r : Registry (AgentId := AgentId) (SessionId := SessionId) (Json := Value)) i f j :
  is_Some (agents r !! j) → is_Some (agents (update_entry show_agent r i f).1 !! j).
Proof. rewrite update_entry_lookup. case_decide; [subst; by rewrite fmap_is_Some|done]. Qed.

Lemma run_entry_inv k e i message now k' effs r :
  run_entry k e i message now = Some (k', effs, r) →
  scheduler k' = scheduler k ∧ audit_log k' = audit_log k ∧ caps k' = caps k
  ∧ (∀ j, j ≠ i → agents (registry k') !! j = agents (registry k) !! j)
  ∧ (∀ j, is_Some (agents (registry k) !! j) → is_Some (agents (registry k') !! j)).
Proof.
  unfold run_entry. case_match; [by intros [= <- <- <-]|]. case_match; [by intros [= <- <- <-]|].
  intros ((f & -> & _) & _)%execute_llm_inv. split_and!; [done..| |].
  - intros j Hj. cbn [with_registry registry]. by rewrite update_entry_lookup, decide_False.
  - intros j. apply update_entry_some.
Qed.

(** What the preparation of a run leaves of the node [n]: the window of the
    agent's quota may have been reset and its workspace made. *)
Definition prepared (n n1 : Node) (i : AgentId) (t : Times) : Prop :=
  let k := node_kernel n in
  let k1 := node_kernel n1 in
  scheduler k1 = (check_quota (scheduler k) i (at_check t)).1
  ∧ audit_log k1 = audit_log k ∧ caps k1 = caps k ∧ node_supervisor n1 = node_supervisor n
  ∧ (∀ j, j ≠ i → agents (registry k1) !! j = agents (registry k) !! j) ∧ is_Some (agents (registry k1) !! i).

(** What the bookkeeping makes of the node [m] at the end of the run. *)
Definition accounted (m n' : Node) (i : AgentId) (t : Times) (r : result AgentLoopResult KernelError) : Prop :=
  let k := node_kernel m in
  let k' := node_kernel n' in
  scheduler k' = match r with
                 | Ok result => record_usage (scheduler k) i (total_usage result) (at_end t)
                 | Err _ => scheduler k
                 end
  ∧ (∃ a, entries (audit_log k') = entries (audit_log k) ++ [a] ∧ action a = AgentMessage
          ∧ AuditChain.agent_id a = show_agent i
          ∧ bool_decide (AuditChain.outcome a = lit "ok") = is_ok r)
  ∧ node_supervisor n' = (if is_ok r then node_supervisor m else record_panic (node_supervisor m))
  ∧ caps k' = caps k
  ∧ (∀ j, j ≠ i → agents (registry k') !! j = agents (registry k) !! j)
  ∧ (if is_ok r
     then AgentTypes.state <$> agents (registry k') !! i = (λ _, Running) <$> agents (registry k) !! i
     else registry k' = registry k).

Lemma account_accounted m i t r : accounted m (account m i t r) i t r.
Proof.
  unfold accounted. destruct r as [res|e]; simpl; (split; [done|]; split).
  - eexists. split; [reflexivity|]. split_and!; try done; by rewrite bool_decide_eq_true_2.
  - split; [done|]. split; [done|]. unfold set_state. split.
    + intros j Hj. by rewrite update_entry_lookup, decide_False.
    + rewrite update_entry_lookup, decide_True by done. by destruct (agents _ !! i).
  - eexists. split; [reflexivity|]. split_and!; try done; by rewrite bool_decide_eq_false_2.
  - done.
Qed.

End messages.

(** ** Which tools a message may use *)

Section reachable.
Context {Value Vec Uuid : Type} `{EqDecision Value} `{Countable Uuid} `{UnicodeCase}.
Context {AgentId SessionId TriggerId EventId LoopId : Type}.
Context `{Countable AgentId} `{Countable TriggerId} `{Countable LoopId}.
Context (show_agent : AgentId → str) (show_parent : option AgentId → str).
Context (debug_network : Event.NetworkEvent → str) (debug_system : Event.SystemEvent (AgentId := AgentId) → str).
Context (fmt_f32_1 fmt_f64_4 : spec_float → str).
Context (trigger_order : gmap TriggerId (Trigger (AgentId := AgentId) (TriggerId := TriggerId))
                         → list (TriggerId * Trigger (AgentId := AgentId) (TriggerId := TriggerId))).
Context (new_trigger_id : TriggerEngine (AgentId := AgentId) (TriggerId := TriggerId) → TriggerId).
Context (json_to_string : Value → str) (json_command : Value → option str) (sha256_hex : str → str).
Context (schema_to_string : Value → option str) (parse_json : str → option Value).
Context (json_bool : Value → option bool).
Context (cfg : KernelConfig).
Context (run_wasm run_python : AgentEntry (AgentId := AgentId) (SessionId := SessionId) (Json := Value) → str →
                               result AgentLoopResult KernelError).
Context (new_trigger_id_fresh : ∀ e, triggers e !! new_trigger_id e = None).
Context (trigger_order_perm : ∀ ts, trigger_order ts ≡ₚ map_to_list ts).

Abbreviation kernel_t := (Kernel (AgentId := AgentId) (SessionId := SessionId) (TriggerId := TriggerId)
  (EventId := EventId) (LoopId := LoopId) (Json := Value)).
Abbreviation node_t := (Node (Value := Value) (AgentId := AgentId) (SessionId := SessionId)
  (TriggerId := TriggerId) (EventId := EventId) (LoopId := LoopId)).
Abbreviation begins := (begin_message (Vec := Vec) (Uuid := Uuid) show_agent json_to_string json_command
  sha256_hex schema_to_string parse_json json_bool fmt_f64_4 cfg).
Abbreviation send := (send_message_with_handle (Vec := Vec) (Uuid := Uuid) show_agent json_to_string json_command
  sha256_hex schema_to_string parse_json json_bool fmt_f64_4 cfg).
Abbreviation spawn := (spawn_agent show_agent show_parent debug_network debug_system fmt_f32_1 fmt_f64_4
  trigger_order sha256_hex new_trigger_id cfg).

Definition on_kernel (n : node_t) (k : kernel_t) : node_t := mkNode k (node_supervisor n).

(** The runs under way: the agent, its times, and how the run ends. *)
Abbreviation run_t := (AgentId * Times * result AgentLoopResult KernelError)%type.

(** Agents are spawned and killed and messages are sent to them, by tools and
    by others, while any number of runs is under way. *)
Inductive node_reachable : node_t → list run_t → Prop :=
| node_new : node_reachable (mkNode new_kernel new_supervisor) []
| node_spawn n runs c :
    node_reachable n runs → agents (registry (node_kernel n)) !! s_id c = None →
    node_reachable (on_kernel n (spawn (node_kernel n) c).1) runs
| node_kill n runs i now_text :
    node_reachable n runs →
    node_reachable (on_kernel n (kill_agent show_agent sha256_hex (node_kernel n) i now_text).1) runs
| node_refused n runs n' s i message t effs e :
    node_reachable n runs → begins s run_wasm run_python n i message t = Some (n', effs, Refused e) →
    node_reachable n' runs
| node_begun n runs n' s i message t effs r :
    node_reachable n runs → begins s run_wasm run_python n i message t = Some (n', effs, Ran r) →
    node_reachable n' ((i, t, r) :: runs)
| node_ended n runs1 i t r runs2 :
    node_reachable n (runs1 ++ (i, t, r) :: runs2) →
    node_reachable (account show_agent sha256_hex n i t r) (runs1 ++ runs2).

(** A change of an entry that keeps what the kernel decides by. *)
Definition keeps_entry (f : AgentEntry (AgentId := AgentId) (SessionId := SessionId) (Json := Value) →
                            AgentEntry (AgentId := AgentId) (SessionId := SessionId) (Json := Value)) : Prop :=
  ∀ e, (AgentTypes.id (f e) = AgentTypes.id e ∧ name (f e) = name e ∧ tags (f e) = tags e)
       ∧ manifest_to_capabilities (AgentTypes.manifest (f e)) = manifest_to_capabilities (AgentTypes.manifest e)
       ∧ resources (AgentTypes.manifest (f e)) = resources (AgentTypes.manifest e).

Lemma update_entry_ok (k : kernel_t) i f :
  kernel_ok k → keeps_entry f → kernel_ok (with_registry k (update_entry show_agent (registry k) i f).1).
Proof.
  intros [Hreg Htrig Heq] Hf. split; cbn [with_registry registry trigger_engine]; [|done|].
  - apply update_entry_inv; [done|]. intros e. apply Hf.
  - intros j e. cbn [with_registry registry caps scheduler]. rewrite update_entry_lookup. case_decide; [subst|apply Heq].
    rewrite fmap_Some. intros (e0 & He0 & ->). destruct (Hf e0) as (_ & -> & ->). by apply Heq.
Qed.

Lemma scheduler_ok (k : kernel_t) sc :
  kernel_ok k → quotas sc = quotas (scheduler k) →
  (∀ i, is_Some (usage (scheduler k) !! i) → is_Some (usage sc !! i)) → kernel_ok (with_scheduler k sc).
Proof.
  intros [Hreg Htrig Heq] Hq Hu. split; [done|done|]. intros i e Hi. apply Heq in Hi as (? & ? & ?).
  cbn [with_scheduler scheduler caps]. rewrite Hq. eauto.
Qed.

Lemma audit_ok (k : kernel_t) l : kernel_ok k → kernel_ok (with_audit k l).
Proof. by intros []. Qed.

Lemma check_quota_ok (k : kernel_t) i now : kernel_ok k → kernel_ok (with_scheduler k (check_quota (scheduler k) i now).1).
Proof.
  intros Hk. apply scheduler_ok; [done|unfold check_quota; by repeat case_match|].
  intros j. unfold check_quota. repeat case_match; try done; simpl; intros Hj; apply lookup_insert_is_Some'; eauto.
Qed.

Lemma record_usage_ok (k : kernel_t) i u now : kernel_ok k → kernel_ok (with_scheduler k (record_usage (scheduler k) i u now)).
Proof. intros Hk. apply scheduler_ok; [done|done|]. intros j Hj. simpl. by rewrite lookup_alter_is_Some. Qed.

Lemma run_entry_ok s (k : kernel_t) e i message now k' effs r :
  run_entry (Vec := Vec) (Uuid := Uuid) show_agent json_to_string json_command sha256_hex schema_to_string parse_json
    json_bool fmt_f64_4 cfg s run_wasm run_python k e i message now = Some (k', effs, r) →
  kernel_ok k → kernel_ok k'.
Proof.
  unfold run_entry. case_match; [by intros [= <- <- <-]|]. case_match; [by intros [= <- <- <-]|].
  intros ((f & -> & Hf) & _)%execute_llm_inv Hk. apply update_entry_ok; [done|].
  intros e'. destruct (Hf e') as [->|[ws ->]]; (split; [done|]); destruct e' as [? ? m]; try destruct m; done.
Qed.

#[local] Hint Resolve audit_ok check_quota_ok record_usage_ok : openfang.

Lemma begin_ok s (n n' : node_t) i message t effs r :
  begins s run_wasm run_python n i message t = Some (n', effs, r) → kernel_ok (node_kernel n) → kernel_ok (node_kernel n').
Proof.
  unfold begin_message. intros E Hk. apply (check_quota_ok _ i (at_check t)) in Hk.
  destruct (check_quota _ _ _) as [sc [[]|err]]; [|by injection E as <- _ _].
  destruct (AgentRegistry.get _ _) as [e|]; [|by injection E as <- _ _].
  destruct (run_entry _ _ _ _ _ _ _ _ _ _ _ _ _ _ _ _ _) as [[[k1 effs1] r1]|] eqn:Er; [|done].
  injection E as <- _ _. by eapply run_entry_ok in Er.
Qed.

Lemma account_ok (n : node_t) i t r :
  kernel_ok (node_kernel n) → kernel_ok (node_kernel (account show_agent sha256_hex n i t r)).
Proof.
  intros Hk. destruct r; cbn [account node_kernel]; apply audit_ok; [|done].
  by apply (update_entry_ok (with_scheduler _ _)); [auto with openfang|].
Qed.

Lemma node_reachable_ok n runs : node_reachable n runs → kernel_ok (node_kernel n).
Proof.
  induction 1; cbn [on_kernel node_kernel].
  - apply (kernel_reachable_ok show_agent show_parent debug_network debug_system fmt_f32_1 fmt_f64_4 trigger_order
      sha256_hex new_trigger_id new_trigger_id_fresh trigger_order_perm cfg). apply kernel_new.
  - by apply spawn_ok.
  - by eapply kill_ok.
  - by eapply begin_ok.
  - by eapply begin_ok.
  - by apply account_ok.
Qed.

(** C3: Whatever was spawned, killed and sent before, and whatever happens during
    the run: a tool is run for a message only if, when it begins, the agent has it in its effective capabilities, by name or by the
    wildcard, and the mode of the agent lets it: none in observe mode, only
    tools that read in assist mode. *)
Theorem message_tools_granted s n runs meanwhile n' i message t effs r w c :
  node_reachable n runs → send s run_wasm run_python n meanwhile i message t = Some (n', effs, r) →
  RanLoop w ∈ effs → Dispatched c ∈ trace w →
  ∃ e, agents (registry (node_kernel n)) !! i = Some e
    ∧ (call_name c ∈ tools (effective_caps (AgentTypes.manifest e))
       ∨ lit "*" ∈ tools (effective_caps (AgentTypes.manifest e)))
    ∧ match agent_mode e with
      | Observe => False
      | Assist => call_name c ∈ read_only_tools
      | FullMode => True
      end.
Proof.
  intros Hk%node_reachable_ok E Hw Hc. apply (check_quota_ok _ i (at_check t)) in Hk.
  unfold send_message_with_handle, begin_message in E.
  destruct (check_quota _ _ _) as [sc [[]|err]]; [|injection E as _ <- _; by apply elem_of_nil in Hw].
  unfold AgentRegistry.get in E. destruct (agents _ !! i) as [e|] eqn:Ei; [|injection E as _ <- _; by apply elem_of_nil in Hw].
  cbn [fst] in Hk. set (k := with_scheduler (node_kernel n) sc) in *.
  destruct (run_entry _ _ _ _ _ _ _ _ _ _ _ _ _ _ _ _ _) as [[[k1 effs1] r1]|] eqn:Er; [|done].
  injection E as _ -> _. exists e. split; [done|]. unfold run_entry in Er.
  case_match; [injection Er as _ <- _; by apply elem_of_nil in Hw|].
  case_match; [injection Er as _ <- _; by apply elem_of_nil in Hw|].
  apply execute_llm_inv in Er as (_ & _ & Hrun). apply Hrun in Hw as (m & ds & session & res & Hl).
  unfold run_loop_for in Hl. apply (lawful_run _ _ _ _ _ _ _ Buffered) in Hl as (ev & Htr & Hok). cbn [trace app] in Htr.
  rewrite Htr in Hc. apply list_elem_of_split in Hc as (l1 & l2 & Hev). apply Hok in Hev as [Hn _].
  unfold tool_names in Hn. cbn [available_tools] in Hn. apply list_elem_of_fmap in Hn as (tool & -> & Ht).
  replace i with (AgentTypes.id e) in Ht by (by eapply inv_id; [apply (ok_registry _ Hk)|]).
  apply (tools_of_ok show_agent trigger_order sha256_hex new_trigger_id new_trigger_id_fresh trigger_order_perm
    k _ _ _ i Hk) in Ht; tauto.
Qed.
End reachable.


(** ** A concrete kernel *)

Abbreviation demo_node := (Node (Value := str) (AgentId := nat) (SessionId := nat) (TriggerId := nat)
  (EventId := nat) (LoopId := nat)).

(** An agent with the tool of the demonstration. *)
Definition worker : AgentManifest (Json := str) :=
  let m := default_manifest (Json := str) (f64_lit 7 10) in
  mkManifest (lit "worker") [] [] [] (lit "builtin:chat") Reactive (m_model m) [] default_quota NormalPriority
    {| network := []; tools := [lit "shell_exec"]; memory_read := []; memory_write := []; agent_spawn := false;
       AgentTypes.agent_message := []; shell := []; ofp_discover := false; ofp_connect := [] |}
    None ∅ [] [] ∅ [] None None None (Some (lit "/ws/worker")) false None.

Definition worker_call : SpawnCall (AgentId := nat) (SessionId := nat) (EventId := nat) (Json := str) :=
  mkSpawnCall 1 100 200 worker None 0 (lit "t0") (Ok tt) (Ok tt) (Ok tt).

Abbreviation worker_node :=
  (on_kernel (mkNode new_kernel new_supervisor : demo_node)
    (spawn_agent show_nat (λ _, []) (λ _, []) (λ _, []) (λ _, []) (λ _, []) map_to_list (λ x, x) demo_trigger_id
       AgentLifecycle.demo_cfg new_kernel worker_call).1).

Definition demo_services (history : list (Message str)) (script : list DemoResponse)
    : Services (Value := str) (Vec := unit) (Uuid := nat) :=
  mkServices (mkSpending (Ok (f64_of_Z 0)) (Ok (f64_of_Z 0)) (Ok (f64_of_Z 0))) (Ok (Some history))
    [AgentLoopFacts.demo_tool] [] (λ _, []) (λ _, Ok tt) (λ _, []) (λ _, []) (λ _, []) None (λ _ _, None) None (λ _, [])
    false (mkCatalog [] ∅ []) (λ _, Ok (demo_driver script)) (λ _, None) [] (demo_driver script) ∅
    (λ _, None) (demo_env script) FooterOff.

Abbreviation demo_send history script :=
  (send_message_with_handle (H0 := ascii_case) show_nat (λ s, s) (λ s, Some s) (λ s, s) Some Some (λ _, None) (λ _, [])
     AgentLifecycle.demo_cfg (demo_services history script) (λ _ _, Err (BootFailed [])) (λ _ _, Err (BootFailed []))
     worker_node (λ n, n) 1 (lit "list it") (mkTimes 1 2 3 (lit "t1"))).

Definition appended {Value Vec AgentId : Type} (e : MessageEffect (Value := Value) (Vec := Vec) (AgentId := AgentId))
    : option (list (Message Value)) :=
  match e with AppendedCanonical ms => Some ms | _ => None end.

Definition seen {Value Vec AgentId : Type} (e : MessageEffect (Value := Value) (Vec := Vec) (AgentId := AgentId))
    : list (list (Message Value)) :=
  match e with RanLoop w => [session w] | _ => [] end.

(** A conversation with a turn without a reply, ten messages ago. *)
Definition quiet_history : list (Message str) :=
  [user_text (lit "tick"); assistant_text (lit "NO_REPLY")]
  ++ concat (replicate 5 [user_text (lit "hi"); assistant_text (lit "hello")]).

(** The messages that are new are those past the length the session had; the
    loop prunes old turns without a reply, so that the session need not be
    longer after a run. Then neither the question nor the answer gets to the
    canonical session. *)
Example pruned_session_not_appended :
  match demo_send quiet_history [demo_says (lit "Done.")] with
  | Some (_, effs, r) =>
      is_ok r = true ∧ omap appended effs = []
      ∧ effs ≫= seen = [drop 2 quiet_history ++ [user_text (lit "list it"); assistant_text (lit "Done.")]]
  | None => False
  end.
Proof. vm_compute. done. Qed.

Lemma worker_reachable :
  node_reachable (Vec := unit) (Uuid := nat) (H0 := ascii_case) show_nat (λ _, []) (λ _, []) (λ _, []) (λ _, []) (λ _, [])
    map_to_list demo_trigger_id (λ s, s) (λ s, Some s) (λ s, s) Some Some (λ _, None) AgentLifecycle.demo_cfg
    (λ _ _, Err (BootFailed [])) (λ _ _, Err (BootFailed [])) worker_node [].
Proof. apply (node_spawn _ _ _ _ _ _ _ _ _ _ _ _ _ _ _ _ _ (mkNode new_kernel new_supervisor)); [apply node_new|vm_compute; reflexivity]. Qed.

(** The tools run in the loop. *)
Definition calls_run {Value Vec : Type} (w : AgentLoop.World (Value := Value) (Vec := Vec)) : list (ToolCall Value) :=
  omap (λ e, match e with Dispatched c => Some c | _ => None end) (trace w).

Lemma calls_run_spec {Value Vec : Type} (w : AgentLoop.World (Value := Value) (Vec := Vec)) c :
  c ∈ calls_run w → Dispatched c ∈ trace w.
Proof. intros (e & He & Hc)%list_elem_of_omap. by destruct e; simplify_eq. Qed.

Lemma worker_runs :
  ∃ n' effs r w c, demo_send [] demo_script = Some (n', effs, r) ∧ RanLoop w ∈ effs ∧ Dispatched c ∈ trace w
    ∧ is_ok r = true.
Proof.
  assert (match demo_send [] demo_script with
          | Some (_, RanLoop w :: _, r) => (0 <? length (calls_run w)) && is_ok r
          | _ => false
          end = true) as E by (vm_compute; reflexivity).
  destruct (demo_send [] demo_script) as [[[n' [|[w| | | |] effs]] r]|]; try done.
  apply andb_true_iff in E as [E ?]. destruct (calls_run w) as [|c cs] eqn:Ec; [done|].
  exists n', (RanLoop w :: effs), r, w, c. split_and!; [done|apply list_elem_of_here| |done].
  apply calls_run_spec. rewrite Ec. apply list_elem_of_here.
Qed.

Lemma message_tools_granted_witness :
  ∃ n' effs r w c e, demo_send [] demo_script = Some (n', effs, r) ∧ RanLoop w ∈ effs ∧ Dispatched c ∈ trace w
    ∧ agents (registry (node_kernel worker_node)) !! 1 = Some e
    ∧ (call_name c ∈ tools (effective_caps (AgentTypes.manifest e))
       ∨ lit "*" ∈ tools (effective_caps (AgentTypes.manifest e))).
Proof.
  destruct worker_runs as (n' & effs & r & w & c & E & Hw & Hc & _).
  destruct (message_tools_granted show_nat (λ _, []) (λ _, []) (λ _, []) (λ _, []) (λ _, []) map_to_list
    demo_trigger_id (λ s, s) (λ s, Some s) (λ s, s) Some Some (λ _, None) AgentLifecycle.demo_cfg
    (λ _ _, Err (BootFailed [])) (λ _ _, Err (BootFailed [])) demo_trigger_id_fresh (λ ts, reflexivity _)
    _ _ _ _ _ _ _ _ _ _ w c worker_reachable E Hw Hc) as (e & He & Ht & _).
  exists n', effs, r, w, c, e. exact (conj E (conj Hw (conj Hc (conj He Ht)))).
Defined.

Lemma worker_admitted : admitted (node_kernel worker_node) 1 1.
Proof. split; [vm_compute; reflexivity|]. apply (bool_decide_eq_true (is_Some _)). vm_compute. reflexivity. Qed.

(** A tool of the run kills the agent itself. *)
Abbreviation killed_meanwhile := (λ n : demo_node, on_kernel n (kill_agent show_nat (λ s, s) (node_kernel n) 1 (lit "t2")).1).
Abbreviation demo_send_killed :=
  (send_message_with_handle (H0 := ascii_case) show_nat (λ s, s) (λ s, Some s) (λ s, s) Some Some (λ _, None) (λ _, [])
     AgentLifecycle.demo_cfg (demo_services [] demo_script) (λ _ _, Err (BootFailed [])) (λ _ _, Err (BootFailed []))
     worker_node killed_meanwhile 1 (lit "list it") (mkTimes 1 2 3 (lit "t1"))).

(** The run is booked all the same: the entries of the spawn, the kill and the
    run, and no agent. *)
Lemma killed_run_booked :
  ∃ n' effs r, demo_send_killed = Some (n', effs, r) ∧ is_ok r = true
    ∧ length (entries (audit_log (node_kernel n'))) = 3 ∧ agents (registry (node_kernel n')) !! 1 = None.
Proof.
  assert (match demo_send_killed with
          | Some (n', _, r) => is_ok r && bool_decide (length (entries (audit_log (node_kernel n'))) = 3)
                               && match agents (registry (node_kernel n')) !! 1 with None => true | _ => false end
          | None => false
          end = true) as E by (vm_compute; reflexivity).
  destruct demo_send_killed as [[[n' effs] r]|]; [|done].
  apply andb_true_iff in E as [[E1 E2%bool_decide_eq_true]%andb_true_iff E3].
  exists n', effs, r. split_and!; try done. by destruct (agents _ !! 1).
Qed.

