(* ===== verification/Json.v ===== *)
(** * JSON values

    What the program uses of [serde_json::Value]. Objects are lists of fields
    in the order of their keys; no key is twice in what the parser returns.
    Numbers that are not integers are floats. *)

From Stdlib Require Import Ascii ZArith SpecFloat.
From stdpp Require Import base strings list.
From S2P Require Import Prelude Strs.

#[warnings="-register-all"]
Inductive Json : Type :=
| JNull
| JBool (b : bool)
| JNum (n : Z)
| JFloat (x : spec_float)
| JStr (s : str)
| JArr (l : list Json)
| JObj (fields : list (str * Json)).

Definition lookup_field (key : str) (fields : list (str * Json)) : option Json :=
  snd <$> List.find (λ f, str_eqb f.1 key) fields.

(** [v.get(key)] *)
Definition get (v : Json) (key : str) : option Json :=
  match v with JObj fields => lookup_field key fields | _ => None end.

(** [v[key]]: null where there is no such field. *)
Definition index (v : Json) (key : string) : Json := default JNull (get v (lit key)).

Definition as_str (v : Json) : option str := match v with JStr s => Some s | _ => None end.
Definition as_array (v : Json) : option (list Json) := match v with JArr l => Some l | _ => None end.
Definition as_object (v : Json) : option (list (str * Json)) := match v with JObj fs => Some fs | _ => None end.
Definition as_bool (v : Json) : option bool := match v with JBool b => Some b | _ => None end.
Definition as_u64 (v : Json) : option Z :=
  match v with JNum n => if (0 <=? n)%Z && (n <=? u64_max)%Z then Some n else None | _ => None end.

(** [serde_json::to_string] of a value and [serde_json::from_str]; the empty
    text is not JSON. *)
Class JsonText := {
  to_string : Json → str;
  from_str : str → result Json str;
  from_str_empty : is_ok (from_str []) = false
}.

(** [serde_json::from_str(..).unwrap_or_default()] *)
Definition from_str_or_null `{JsonText} (s : str) : Json :=
  match from_str s with Ok v => v | Err _ => JNull end.
