(* ===== verification/WasmHost.v ===== *)
(** * What the host does for WASM modules

    [openfang-runtime/src/host_functions.rs]: a guest asks the host by the name
    of a method and JSON parameters, and every method but the clock is behind
    a capability of the guest. A handler returns the JSON answer and what it
    did to the outside. The outside (files, network, processes, environment,
    kernel) is the record [Host], as it is when the call is made. *)

From Stdlib Require Import Ascii ZArith Lia.
From stdpp Require Import base strings list sets.
From S2P Require Import Prelude Strs Json TextLines Capability WorkspaceSandbox SsrfGuard.

Definition text_param (params : Json) (key : string) : option str := get params (lit key) ≫= as_str.

(** [json!({"ok": ..})] and [json!({"error": ..})] *)
Definition ok (v : Json) : Json := JObj [(lit "ok", v)].
Definition error (text : str) : Json := JObj [(lit "error", JStr text)].
Definition missing (key : string) : Json := error (lit "Missing '" ++ lit key ++ lit "' parameter").

(** The part of [KernelHandle] that guests reach. *)
Record KernelApi : Type := mkApi {
  memory_recall : str → result (option Json) str;
  memory_store : str → Json → result unit str;
  send_to_agent : str → str → result str str;
  spawn_agent_checked : str → option str → list Capability → result (str * str) str
}.

Inductive HttpMethod : Type := GET | POST | PUT | DELETE.

Record HttpResponse : Type := mkHttp { status : Z; text : result str str }.

Record Output : Type := mkOutput { exit_code : option Z; stdout : str; stderr : str }.

Record Host : Type := mkHost {
  unix_time : Z;
  canonical_path : str → result str str;
  read_file : str → result str str;
  write_file : str → str → result unit str;
  read_dir : str → result (list str) str;
  resolve : str → Z → option (list IpAddr);
  fetch : HttpMethod → str → str → result HttpResponse str;
  run_command : str → list str → result Output str;
  env_var : str → option str
}.

(** What a call does to the outside. *)
Inductive HostEffect : Type :=
| ReadFile (path : str)
| WroteFile (path content : str)
| ListedDir (path : str)
| Fetched (method : HttpMethod) (url body : str)
| RanCommand (command : str) (args : list str)
| ReadVar (name : str)
| Recalled (key : str)
| Stored (key : str) (value : Json)
| SentTo (target message : str)
| Spawned (manifest : str) (parent : option str) (parent_caps : list Capability).

Record GuestState : Type := mkGuest {
  capabilities : list Capability;
  kernel : option KernelApi;
  agent_id : str
}.

Definition reply : Type := list HostEffect * Json.

Section host.
Context (debug_capability : Capability → str) (show_ip : IpAddr → str) (to_uppercase : str → str).
Context (host : Host).

Definition check_capability (caps : list Capability) (required : Capability) : result unit Json :=
  if existsb (λ granted, capability_matches granted required) caps then Ok tt
  else Err (error (lit "Capability denied: " ++ debug_capability required)).

(** The rest of a handler, behind a capability. *)
Definition guarded (state : GuestState) (required : Capability) (k : reply) : reply :=
  match check_capability (capabilities state) required with Ok _ => k | Err e => ([], e) end.

Definition with_text (params : Json) (key : string) (k : str → reply) : reply :=
  match text_param params key with Some s => k s | None => ([], missing key) end.

Definition with_kernel (state : GuestState) (k : KernelApi → reply) : reply :=
  match kernel state with Some api => k api | None => ([], error (lit "No kernel handle available")) end.

(** ** Paths *)

Definition climbs (path : str) : bool := bool_decide (ParentDir ∈ components path).

Definition safe_resolve_path (path : str) : result str Json :=
  if climbs path then Err (error (lit "Path traversal denied: '..' components forbidden"))
  else match canonical_path host path with
       | Ok p => Ok p
       | Err e => Err (error (lit "Cannot resolve path: " ++ e))
       end.

Definition safe_resolve_parent (path : str) : result str Json :=
  if climbs path then Err (error (lit "Path traversal denied: '..' components forbidden"))
  else
    match path_parent path with
    | None | Some [] => Err (error (lit "Invalid path: no parent directory"))
    | Some parent =>
        match canonical_path host parent with
        | Err e => Err (error (lit "Cannot resolve parent directory: " ++ e))
        | Ok canonical_parent =>
            match file_name path with
            | None => Err (error (lit "Invalid path: no file name"))
            | Some name =>
                if contains name (lit "..") then Err (error (lit "Path traversal denied in file name"))
                else Ok (path_join canonical_parent name)
            end
        end
    end.

Definition is_ssrf_target (url : str) : result unit Json :=
  match check_ssrf (resolve host) show_ip url with Ok _ => Ok tt | Err e => Err (error e) end.

(** ** Handlers *)

Definition host_time_now : reply := ([], ok (JNum (unix_time host))).

Definition host_fs_read (state : GuestState) (params : Json) : reply :=
  with_text params "path" (λ path,
  guarded state (FileRead path)
    match safe_resolve_path path with
    | Err e => ([], e)
    | Ok canonical =>
        ([ReadFile canonical],
         match read_file host canonical with
         | Ok content => ok (JStr content)
         | Err e => error (lit "fs_read failed: " ++ e)
         end)
    end).

Definition host_fs_write (state : GuestState) (params : Json) : reply :=
  with_text params "path" (λ path,
  with_text params "content" (λ content,
  guarded state (FileWrite path)
    match safe_resolve_parent path with
    | Err e => ([], e)
    | Ok write_path =>
        ([WroteFile write_path content],
         match write_file host write_path content with
         | Ok _ => ok (JBool true)
         | Err e => error (lit "fs_write failed: " ++ e)
         end)
    end)).

Definition host_fs_list (state : GuestState) (params : Json) : reply :=
  with_text params "path" (λ path,
  guarded state (FileRead path)
    match safe_resolve_path path with
    | Err e => ([], e)
    | Ok canonical =>
        ([ListedDir canonical],
         match read_dir host canonical with
         | Ok names => ok (JArr (JStr <$> names))
         | Err e => error (lit "fs_list failed: " ++ e)
         end)
    end).

Definition http_method (method : str) : HttpMethod :=
  let m := to_uppercase method in
  if str_eqb m (lit "POST") then POST
  else if str_eqb m (lit "PUT") then PUT
  else if str_eqb m (lit "DELETE") then DELETE
  else GET.

Definition host_net_fetch (state : GuestState) (params : Json) : reply :=
  with_text params "url" (λ url,
  let method := http_method (default (lit "GET") (text_param params "method")) in
  let body := default [] (text_param params "body") in
  match is_ssrf_target url with
  | Err e => ([], e)
  | Ok _ =>
      guarded state (NetConnect (extract_host url))
        ([Fetched method url match method with POST | PUT => body | _ => [] end],
         match fetch host method url match method with POST | PUT => body | _ => [] end with
         | Ok resp =>
             match text resp with
             | Ok body => ok (JObj [(lit "status", JNum (status resp)); (lit "body", JStr body)])
             | Err e => error (lit "Failed to read response: " ++ e)
             end
         | Err e => error (lit "Request failed: " ++ e)
         end)
  end).

Definition host_shell_exec (state : GuestState) (params : Json) : reply :=
  with_text params "command" (λ command,
  guarded state (ShellExec command)
    (let args := match get params (lit "args") ≫= as_array with Some l => omap as_str l | None => [] end in
     ([RanCommand command args],
      match run_command host command args with
      | Ok o => ok (JObj [(lit "exit_code", match exit_code o with Some c => JNum c | None => JNull end);
                          (lit "stdout", JStr (stdout o)); (lit "stderr", JStr (stderr o))])
      | Err e => error (lit "shell_exec failed: " ++ e)
      end))).

Definition host_env_read (state : GuestState) (params : Json) : reply :=
  with_text params "name" (λ name,
  guarded state (EnvRead name)
    ([ReadVar name], ok match env_var host name with Some v => JStr v | None => JNull end)).

Definition host_kv_get (state : GuestState) (params : Json) : reply :=
  with_text params "key" (λ key,
  guarded state (MemoryRead key)
    (with_kernel state (λ api,
       ([Recalled key],
        match memory_recall api key with
        | Ok (Some v) => ok v
        | Ok None => ok JNull
        | Err e => error e
        end)))).

Definition host_kv_set (state : GuestState) (params : Json) : reply :=
  with_text params "key" (λ key,
  match get params (lit "value") with
  | None => ([], missing "value")
  | Some value =>
      guarded state (MemoryWrite key)
        (with_kernel state (λ api,
           ([Stored key value],
            match memory_store api key value with Ok _ => ok (JBool true) | Err e => error e end)))
  end).

Definition host_agent_send (state : GuestState) (params : Json) : reply :=
  with_text params "target" (λ target,
  with_text params "message" (λ message,
  guarded state (AgentMessage target)
    (with_kernel state (λ api,
       ([SentTo target message],
        match send_to_agent api target message with Ok response => ok (JStr response) | Err e => error e end))))).

Definition host_agent_spawn (state : GuestState) (params : Json) : reply :=
  guarded state AgentSpawn
    (with_text params "manifest" (λ manifest,
     with_kernel state (λ api,
       ([Spawned manifest (Some (agent_id state)) (capabilities state)],
        match spawn_agent_checked api manifest (Some (agent_id state)) (capabilities state) with
        | Ok (id, name) => ok (JObj [(lit "id", JStr id); (lit "name", JStr name)])
        | Err e => error e
        end)))).

Definition dispatch (state : GuestState) (method : str) (params : Json) : reply :=
  let asked name := str_eqb method (lit name) in
  if asked "time_now"%string then host_time_now
  else if asked "fs_read"%string then host_fs_read state params
  else if asked "fs_write"%string then host_fs_write state params
  else if asked "fs_list"%string then host_fs_list state params
  else if asked "net_fetch"%string then host_net_fetch state params
  else if asked "shell_exec"%string then host_shell_exec state params
  else if asked "env_read"%string then host_env_read state params
  else if asked "kv_get"%string then host_kv_get state params
  else if asked "kv_set"%string then host_kv_set state params
  else if asked "agent_send"%string then host_agent_send state params
  else if asked "agent_spawn"%string then host_agent_spawn state params
  else ([], error (lit "Unknown host method: " ++ method)).

(** ** Nothing without a capability *)

(** What a guest must have for an effect, and what the host has checked. *)
Definition allowed (state : GuestState) (e : HostEffect) : Prop :=
  ∃ required, existsb (λ granted, capability_matches granted required) (capabilities state) = true ∧
  match e with
  | ReadFile p | ListedDir p => ∃ path, required = FileRead path ∧ safe_resolve_path path = Ok p
  | WroteFile p _ => ∃ path, required = FileWrite path ∧ safe_resolve_parent path = Ok p
  | Fetched _ url _ => required = NetConnect (extract_host url) ∧ is_ssrf_target url = Ok tt
  | RanCommand command _ => required = ShellExec command
  | ReadVar name => required = EnvRead name
  | Recalled key => required = MemoryRead key
  | Stored key _ => required = MemoryWrite key
  | SentTo target _ => required = AgentMessage target
  | Spawned _ parent caps => required = AgentSpawn ∧ parent = Some (agent_id state) ∧ caps = capabilities state
  end.

Definition is_error (v : Json) : Prop := ∃ text, v = error text.

(** The guards of the handlers, for a property of the effects. *)
Lemma guarded_effects (P : HostEffect → Prop) state required k :
  (existsb (λ granted, capability_matches granted required) (capabilities state) = true → Forall P k.1) →
  Forall P (guarded state required k).1.
Proof.
  intros Hk. unfold guarded, check_capability. case_match eqn:E; simplify_eq; [|constructor].
  apply Hk. by case_match.
Qed.

Lemma with_text_effects (P : HostEffect → Prop) params key k :
  (∀ s, Forall P (k s).1) → Forall P (with_text params key k).1.
Proof. intros Hk. unfold with_text. case_match; [apply Hk|constructor]. Qed.

Lemma with_kernel_effects (P : HostEffect → Prop) state k :
  (∀ api, Forall P (k api).1) → Forall P (with_kernel state k).1.
Proof. intros Hk. unfold with_kernel. case_match; [apply Hk|constructor]. Qed.

Lemma one_effect (P : HostEffect → Prop) e (v : Json) : P e → Forall P ([e], v).1.
Proof. intros He. by repeat constructor. Qed.

(** Walks through a handler down to the effect. *)
Ltac walk_handler :=
  repeat first [apply with_text_effects; intros ?|apply with_kernel_effects; intros ?
               |apply guarded_effects; intros ?|case_match|by constructor].

(** A guest gets the host to do something only if it has the capability for
    it: a file is read, written or listed under the path the capability names,
    without a step up, where the host resolves it to; a URL is fetched if its
    host is granted and is not internal; commands, variables, keys and agents
    are granted by name; and an agent is spawned as a child with the
    capabilities of the guest as the limit. *)
Theorem host_effects_allowed state method params : Forall (allowed state) (dispatch state method params).1.
Proof.
  unfold dispatch. repeat case_match; try by constructor.
  - unfold host_fs_read. walk_handler; apply one_effect; eexists; eauto.
  - unfold host_fs_write. walk_handler; apply one_effect; eexists; eauto.
  - unfold host_fs_list. walk_handler; apply one_effect; eexists; eauto.
  - unfold host_net_fetch. walk_handler; apply one_effect; eexists; match goal with u : unit |- _ => destruct u end; eauto.
  - unfold host_shell_exec. walk_handler; apply one_effect; eexists; eauto.
  - unfold host_env_read. walk_handler; apply one_effect; eexists; eauto.
  - unfold host_kv_get. walk_handler; apply one_effect; eexists; eauto.
  - unfold host_kv_set. walk_handler; apply one_effect; eexists; eauto.
  - unfold host_agent_send. walk_handler; apply one_effect; eexists; eauto.
  - unfold host_agent_spawn. walk_handler; apply one_effect; eexists; eauto.
Qed.

(** A handler that ends in an error without an effect. *)
Definition refused (r : reply) : Prop := r.1 = [] ∧ is_error r.2.

Lemma refused_error text : refused ([], error text).
Proof. split; [done|by eexists]. Qed.

Lemma with_text_refused params key k : (∀ s, refused (k s)) → refused (with_text params key k).
Proof. intros Hk. unfold with_text. case_match; [apply Hk|apply refused_error]. Qed.

Lemma guarded_refused state required k : capabilities state = [] → refused (guarded state required k).
Proof. intros Hc. unfold guarded, check_capability. rewrite Hc. apply refused_error. Qed.

(** A guest without capabilities is refused everything but the time. *)
Theorem powerless_guest state method params :
  capabilities state = [] → method ≠ lit "time_now" → refused (dispatch state method params).
Proof.
  intros Hc Hm. unfold dispatch. case_match eqn:E; [by apply str_eqb_spec in E|].
  repeat case_match; unfold host_fs_read, host_fs_write, host_fs_list, host_net_fetch, host_shell_exec, host_env_read,
    host_kv_get, host_kv_set, host_agent_send, host_agent_spawn;
    repeat first [by apply guarded_refused|apply refused_error|apply with_text_refused; intros ?|case_match].
  all: try by apply guarded_refused. all: by unfold is_ssrf_target in *; repeat case_match; simplify_eq; apply refused_error.
Qed.
End host.

(** ** What the checks miss *)

(** A host with one link, one address and one answer to everything. *)
Definition demo_host : Host :=
  mkHost 0 (λ p, if str_eqb p (lit "/data/link") then Ok (lit "/etc/passwd") else Ok p) (λ _, Ok (lit "root"))
    (λ _ _, Ok tt) (λ _, Ok []) (λ h _, if str_eqb h (lit "127.0.0.1") then Some [V4 127 0 0 1] else None)
    (λ _ _ _, Ok (mkHttp 200 (Ok (lit "hello")))) (λ _ _, Ok (mkOutput (Some 0%Z) [] [])) (λ _, None).

Definition demo_dispatch (caps : list Capability) (method : string) (key value : string) : reply :=
  dispatch (λ _, []) (λ _, []) (λ s, s) demo_host (mkGuest caps None (lit "guest")) (lit method)
    (JObj [(lit key, JStr (lit value))]).

(** The capability is compared with the path as it is written, not with the
    file it leads to. *)
Example link_leaves_grant :
  demo_dispatch [FileRead (lit "/data/*")] "fs_read" "path" "/data/link"
  = ([ReadFile (lit "/etc/passwd")], ok (JStr (lit "root")))
  ∧ capability_matches (FileRead (lit "/data/*")) (FileRead (lit "/etc/passwd")) = false.
Proof. vm_compute. done. Qed.

(** The host is cut out at the first slash, so a question mark hides where
    the request goes from the capability. *)
Example query_hides_host :
  (demo_dispatch [NetConnect (lit "*.example.com:443")] "net_fetch" "url" "https://evil.test?.example.com").1
  = [Fetched GET (lit "https://evil.test?.example.com") []]
  ∧ uri_host (lit "https://evil.test?.example.com") = Some (lit "evil.test").
Proof. vm_compute. done. Qed.

(** A user name hides an internal address from the guard. *)
Example user_hides_address :
  (demo_dispatch [NetConnect (lit "*")] "net_fetch" "url" "http://x@127.0.0.1/").1
  = [Fetched GET (lit "http://x@127.0.0.1/") []]
  ∧ uri_host (lit "http://x@127.0.0.1/") = Some (lit "127.0.0.1")
  ∧ (demo_dispatch [NetConnect (lit "*")] "net_fetch" "url" "http://127.0.0.1/").1 = [].
Proof. vm_compute. done. Qed.

Lemma powerless_guest_witness : refused (demo_dispatch [] "fs_read" "path" "/data/link").
Proof. apply powerless_guest; [reflexivity|]. intros E. vm_compute in E. discriminate E. Defined.
