(* ===== verification/WasmSandbox.v ===== *)
(** * Running WASM modules

    [openfang-runtime/src/sandbox.rs]: a module is given its input in its own
    memory, runs, calls the host and leaves a packed pointer to its result.
    The module and the engine under it are not part of the program: a run of
    a function of a module is a tree [GuestRun] of what it does between the
    calls it makes, with its memory at each of them. Modules call the host
    from their start function, their allocator and their entry point. Pointers are [i32] and [i64] values in
    [Z]; a cast to [usize] is modulo [2^64] and additions wrap, as in a release
    build. A panic of the host is [None].

    The engine counts epochs for all modules; [interrupted] is whether the
    watchdogs have stopped an execution. *)

From Stdlib Require Import Ascii ZArith Lia.
From stdpp Require Import base strings list sorting.
From S2P Require Import Prelude Strs Json Capability SsrfGuard WasmHost.

Record SandboxConfig : Type := mkConfig {
  fuel_limit : Z;
  max_memory_bytes : Z;
  granted : list Capability;
  timeout_secs : option Z
}.

Definition default_config : SandboxConfig := mkConfig 1000000 (16 * 1024 * 1024) [] None.

Record ExecutionResult : Type := mkExecution { output : Json; fuel_consumed : Z }.

Inductive SandboxError : Type :=
| Compilation (e : str)
| Instantiation (e : str)
| Execution (e : str)
| FuelExhausted
| AbiError (e : str).

Definition show_sandbox_error (e : SandboxError) : str :=
  match e with
  | Compilation e => lit "WASM compilation failed: " ++ e
  | Instantiation e => lit "WASM instantiation failed: " ++ e
  | Execution e => lit "WASM execution failed: " ++ e
  | FuelExhausted => lit "Fuel exhausted: skill exceeded CPU budget"
  | AbiError e => lit "Guest ABI violation: " ++ e
  end.

(** ** Guest memory *)

Abbreviation memory := (list ascii).

Definition as_usize (z : Z) : Z := (z mod 2 ^ 64)%Z.
Definition as_i32 (z : Z) : Z := ((z + 2 ^ 31) mod 2 ^ 32 - 2 ^ 31)%Z.
Definition as_i64 (z : Z) : Z := ((z + 2 ^ 63) mod 2 ^ 64 - 2 ^ 63)%Z.

(** [start + len], wrapping *)
Definition range_end (start len : Z) : Z := as_usize (start + len).

(** [&data[start..end]] *)
Definition slice (data : memory) (start stop : Z) : option memory :=
  if (start <=? stop)%Z && (stop <=? Z.of_nat (length data))%Z
  then Some (take (Z.to_nat (stop - start)) (drop (Z.to_nat start) data))
  else None.

Definition out_of_bounds (data : memory) (stop : Z) : bool := (Z.of_nat (length data) <? stop)%Z.

(** [data[start..end].copy_from_slice(bytes)] *)
Definition copy_into (data bytes : memory) (start stop : Z) : option memory :=
  match slice data start stop with
  | Some old =>
      if length old =? length bytes
      then Some (take (Z.to_nat start) data ++ bytes ++ drop (Z.to_nat stop) data)
      else None
  | None => None
  end.

(** [((ptr as i64) << 32) | (len as i64)], and how the host reads it back. *)
Definition pack (ptr len : Z) : Z := as_i64 (Z.lor (Z.shiftl ptr 32) len).
Definition unpack (packed : Z) : Z * Z :=
  (as_usize (Z.shiftr packed 32), as_usize (Z.land packed (2 ^ 32 - 1))).

(** ** Guests *)

Inductive Trap : Type := OutOfFuel | Interrupt | OtherTrap (e : str).

(** What a function of the guest does from some point on: it calls the host
    with a request in its memory, for whose answer its allocator is called,
    and goes on with what the call returned; it logs; it returns a value; or it
    traps. [Globals] is the state of the guest outside its memory. *)
Inductive GuestRun {Globals : Type} : Type :=
| Returns (globals : Globals) (mem : memory) (value fuel_left : Z)
| Traps (t : Trap)
| HostCall (mem : memory) (ptr len : Z) (alloc : Z → GuestRun) (next : Globals → memory → Z → GuestRun)
| HostLog (mem : memory) (ptr len : Z) (next : GuestRun).
Arguments GuestRun : clear implicits.

(** The export [alloc]: there, not a function, or one of another type, with
    the errors of the two ways to look for it. *)
Inductive AllocExport : Type :=
| AllocFound
| AllocMissing (e : str)
| AllocMistyped (e e_call : str).

(** What the engine makes of a module. *)
Record Module {Globals : Type} : Type := mkModule {
  compiled : result unit str;
  linked : result unit str;
  start : GuestRun Globals;
  exports_memory : bool;
  exports_alloc : AllocExport;
  exports_execute : result unit str;
  first_alloc : Globals → memory → Z → GuestRun Globals;
  execute : Globals → memory → Z → Z → GuestRun Globals
}.
Arguments Module : clear implicits.
Arguments mkModule {Globals}.

(** ** Runs

    A run counts the calls made so far, because the world may be different at
    each of them, and collects their effects. *)

Inductive Outcome (A : Type) : Type :=
| Done (a : A)
| Trapped (t : Trap)
| Panicked.
Arguments Done {A} a.
Arguments Trapped {A} t.
Arguments Panicked {A}.

Definition Run (A : Type) : Type := nat → nat * list HostEffect * Outcome A.

Definition ends {A} (o : Outcome A) : Run A := λ n, (n, [], o).

#[export] Instance run_ret : MRet Run := λ _ a, ends (Done a).

#[export] Instance run_bind : MBind Run := λ _ _ f x n,
  match x n with
  | (n, effects, Done a) => let '(n, more, o) := f a n in (n, effects ++ more, o)
  | (n, effects, Trapped t) => (n, effects, Trapped t)
  | (n, effects, Panicked) => (n, effects, Panicked)
  end.

(** An operation on slices that may panic, or fail and trap the guest. *)
Definition checked {A} (o : option (result A str)) : Run A :=
  ends match o with Some (Ok a) => Done a | Some (Err e) => Trapped (OtherTrap e) | None => Panicked end.

Section sandbox.
Context {Globals : Type}.
Context (debug_capability : Capability → str) (show_ip : IpAddr → str) (to_uppercase : str → str).
Context (to_json : Json → str) (from_json : memory → result Json str) (show_trap : Trap → str).

(** A request as JSON. *)
Definition request_method (request : Json) : str := default [] (get request (lit "method") ≫= as_str).
Definition request_params (request : Json) : Json := default JNull (get request (lit "params")).

(** The first half of [host_call]: the request in the memory of the guest. *)
Definition read_request (mem : memory) (request_ptr request_len : Z) : option (result Json str) :=
  let start := as_usize request_ptr in
  let stop := range_end start (as_usize request_len) in
  if out_of_bounds mem stop then Some (Err (lit "host_call: request out of bounds"))
  else match slice mem start stop with Some bytes => Some (from_json bytes) | None => None end.

(** The second half: the answer is written where the guest allocated it. *)
Definition write_response (mem : memory) (ptr : Z) (response_bytes : memory) : option (result (memory * Z) str) :=
  let dest := as_usize ptr in
  let dest_end := range_end dest (Z.of_nat (length response_bytes)) in
  if out_of_bounds mem dest_end then Some (Err (lit "host_call: response exceeds memory bounds"))
  else
    match copy_into mem response_bytes dest dest_end with
    | None => None
    | Some mem => Some (Ok (mem, pack ptr (as_i32 (Z.of_nat (length response_bytes)))))
    end.

(** [host_log]: whether the guest goes on. *)
Definition host_log (mem : memory) (msg_ptr msg_len : Z) : option (result unit str) :=
  let start := as_usize msg_ptr in
  let stop := range_end start (as_usize msg_len) in
  if out_of_bounds mem stop then Some (Err (lit "host_log: pointer out of bounds"))
  else match slice mem start stop with Some _ => Some (Ok tt) | None => None end.

Section module.
Context (hosts : nat → Host) (state : GuestState) (m : Module Globals).

Definition need_memory : Run unit :=
  if exports_memory m then mret tt else ends (Trapped (OtherTrap (lit "no memory export"))).

Definition need_alloc : Run unit :=
  match exports_alloc m with
  | AllocFound => mret tt
  | AllocMissing _ => ends (Trapped (OtherTrap (lit "no alloc export")))
  | AllocMistyped _ e => ends (Trapped (OtherTrap e))
  end.

Definition dispatched (request : Json) : Run Json := λ n,
  let '(effects, response) :=
    dispatch debug_capability show_ip to_uppercase (hosts n) state (request_method request) (request_params request) in
  (S n, effects, Done response).

(** A run of the guest, with [host_call] and [host_log] as the host has them. *)
Fixpoint run_guest (g : GuestRun Globals) : Run (Globals * memory * Z * Z) :=
  match g with
  | Returns globals mem value fuel => mret (globals, mem, value, fuel)
  | Traps t => ends (Trapped t)
  | HostCall mem ptr len alloc next =>
      need_memory ≫= λ _,
      checked (read_request mem ptr len) ≫= λ request,
      dispatched request ≫= λ response,
      need_alloc ≫= λ _,
      run_guest (alloc (as_i32 (Z.of_nat (length (to_json response))))) ≫= λ '(globals, mem, ptr, _),
      checked (write_response mem ptr (to_json response)) ≫= λ '(mem, packed),
      run_guest (next globals mem packed)
  | HostLog mem ptr len next =>
      need_memory ≫= λ _,
      checked (host_log mem ptr len) ≫= λ _,
      run_guest next
  end.

Definition finish (config : SandboxConfig) (mem : memory) (packed fuel_left : Z)
    : option (result ExecutionResult SandboxError) :=
  let '(result_ptr, result_len) := unpack packed in
  let stop := range_end result_ptr result_len in
  if out_of_bounds mem stop then Some (Err (AbiError (lit "Result pointer out of bounds")))
  else
    match slice mem result_ptr stop with
    | None => None
    | Some bytes =>
        Some match from_json bytes with
             | Err e => Err (AbiError (lit "Invalid JSON output from guest: " ++ e))
             | Ok output => Ok (mkExecution output (Z.max 0 (fuel_limit config - fuel_left)))
             end
    end.

Definition trap_error (timeout : Z) (t : Trap) : SandboxError :=
  match t with
  | OutOfFuel => FuelExhausted
  | Interrupt => Execution (lit "WASM execution timed out after " ++ show_Z timeout ++ lit "s (epoch interrupt)")
  | OtherTrap _ => Execution (show_trap t)
  end.

(** A stage of an execution: a function of the guest, how its traps are
    reported, and what comes next. The result is the effects and the outcome,
    [None] if the host panics. *)
Definition stage (g : GuestRun Globals) (report : Trap → SandboxError) (n : nat)
    (next : Globals * memory * Z * Z → nat → list HostEffect * option (result ExecutionResult SandboxError))
    : list HostEffect * option (result ExecutionResult SandboxError) :=
  match run_guest g n with
  | (n, effects, Done a) => let '(more, r) := next a n in (effects ++ more, r)
  | (_, effects, Trapped t) => (effects, Some (Err (report t)))
  | (_, effects, Panicked) => (effects, None)
  end.

(** The call of [execute] and what comes after it. *)
Definition run_module (config : SandboxConfig) (globals : Globals) (mem : memory) (input_ptr input_len : Z) (n : nat)
    : list HostEffect * option (result ExecutionResult SandboxError) :=
  stage (execute m globals mem input_ptr input_len) (trap_error (default 30%Z (timeout_secs config))) n
    (λ '(_, mem, packed, fuel_left) _, ([], finish config mem packed fuel_left)).

Definition fails (e : SandboxError) : list HostEffect * option (result ExecutionResult SandboxError) :=
  ([], Some (Err e)).

(** The input is written where the guest allocates it. *)
Definition run_on (input : Json) (config : SandboxConfig) (globals : Globals) (mem : memory) (n : nat)
    : list HostEffect * option (result ExecutionResult SandboxError) :=
  let input_bytes := to_json input in
  let input_len := as_i32 (Z.of_nat (length input_bytes)) in
  stage (first_alloc m globals mem input_len) (λ t, AbiError (lit "alloc call failed: " ++ show_trap t)) n
    (λ '(globals, mem, input_ptr, _) n,
       let start := as_usize input_ptr in
       let stop := range_end start (Z.of_nat (length input_bytes)) in
       if out_of_bounds mem stop then fails (AbiError (lit "Input exceeds memory bounds"))
       else
         match copy_into mem input_bytes start stop with
         | None => ([], None)
         | Some mem => run_module config globals mem input_ptr input_len n
         end).

(** The exports the module must have. *)
Definition check_exports : option SandboxError :=
  if negb (exports_memory m) then Some (AbiError (lit "Module must export 'memory'"))
  else
    match exports_alloc m, exports_execute m with
    | AllocMissing e, _ | AllocMistyped e _, _ => Some (AbiError (lit "Module must export 'alloc(i32)->i32': " ++ e))
    | AllocFound, Err e => Some (AbiError (lit "Module must export 'execute(i32,i32)->i64': " ++ e))
    | AllocFound, Ok _ => None
    end.
End module.

Definition execute_sync (hosts : nat → Host) (m : Module Globals) (input : Json) (config : SandboxConfig)
    (kernel : option KernelApi) (agent_id : str)
    : list HostEffect * option (result ExecutionResult SandboxError) :=
  let state := mkGuest (granted config) kernel agent_id in
  match compiled m, linked m with
  | Err e, _ => fails (Compilation e)
  | Ok _, Err e => fails (Instantiation e)
  | Ok _, Ok _ =>
      stage hosts state m (start m) (λ t, Instantiation (show_trap t)) 0
        (λ '(globals, mem, _, _) n,
           match check_exports m with
           | Some e => fails e
           | None => run_on hosts state m input config globals mem n
           end)
  end.

(** ** Everything a module does is allowed *)

Abbreviation allowed_by state :=
  (λ e, ∃ h, allowed show_ip h state e).

(** All effects of a run are allowed. *)
Definition run_allowed {A} (state : GuestState) (x : Run A) : Prop := ∀ n, Forall (allowed_by state) (x n).1.2.

Lemma run_allowed_ends {A} state (o : Outcome A) : run_allowed state (ends o).
Proof. intros n. constructor. Qed.

Lemma run_allowed_bind {A B} state (x : Run A) (f : A → Run B) :
  run_allowed state x → (∀ a, run_allowed state (f a)) → run_allowed state (x ≫= f).
Proof.
  intros Hx Hf n. unfold mbind, run_bind. specialize (Hx n). destruct (x n) as [[n' effects] [a|t|]]; [|done..].
  specialize (Hf a n'). destruct (f a n') as [[n'' more] o]. by apply Forall_app.
Qed.

Lemma dispatched_allowed hosts state request : run_allowed state (dispatched hosts state request).
Proof.
  intros n. unfold dispatched.
  pose proof (host_effects_allowed debug_capability show_ip to_uppercase (hosts n) state (request_method request)
    (request_params request)) as Hf.
  destruct (dispatch _ _ _ _ _ _ _) as [effects response]. eapply Forall_impl; [exact Hf|]. eauto.
Qed.

#[local] Ltac run_step := first [apply run_allowed_ends | apply dispatched_allowed | apply run_allowed_bind; [|intros] | progress case_match].

Lemma run_guest_effects hosts state m g : run_allowed state (run_guest hosts state m g).
Proof.
  induction g as [globals mem value fuel|t|mem ptr len alloc IHa next IH|mem ptr len next IH]; cbn [run_guest];
    unfold need_memory, need_alloc, checked; repeat first [done | run_step | apply IHa | apply IH].
Qed.

Lemma stage_effects hosts state m g report n next :
  (∀ a n, Forall (allowed_by state) (next a n).1) → Forall (allowed_by state) (stage hosts state m g report n next).1.
Proof.
  intros Hnext. unfold stage. pose proof (run_guest_effects hosts state m g n) as Hf.
  destruct (run_guest _ _ _ g n) as [[n' effects] [a|t|]]; [|done..].
  specialize (Hnext a n'). destruct (next a n') as [more r]. by apply Forall_app.
Qed.

(** However a module behaves, when it is instantiated, in its allocator and
    when it is executed, and however it ends, what it got the host to do was
    allowed by the capabilities of its configuration; without any it gets
    nothing done. *)
Theorem sandbox_effects_allowed hosts m input config kernel agent_id :
  let effects := (execute_sync hosts m input config kernel agent_id).1 in
  Forall (allowed_by (mkGuest (granted config) kernel agent_id)) effects ∧ (granted config = [] → effects = []).
Proof.
  intros effects. assert (Forall (allowed_by (mkGuest (granted config) kernel agent_id)) effects) as Hf.
  { unfold effects, execute_sync. do 2 (case_match; [|constructor]).
    apply stage_effects. intros [[[globals mem] v] fuel] n. case_match; [constructor|].
    apply stage_effects. intros [[[globals' mem'] ptr] fuel'] n'. cbv zeta. case_match; [constructor|]. case_match; [|constructor].
    apply stage_effects. intros [[[globals'' mem''] packed] fuel''] n''. constructor. }
  split; [done|]. intros Hg. destruct Hf as [|e l (h & required & Hx & _) _]; [done|].
  cbn [capabilities] in Hx. by rewrite Hg in Hx.
Qed.

(** ** Pointers *)

Lemma as_usize_small z : (0 ≤ z < 2 ^ 64)%Z → as_usize z = z.
Proof. apply Z.mod_small. Qed.

(** What the host packs it reads back, for pointers below 2 GiB. *)
Theorem pack_unpack ptr len :
  (0 ≤ ptr < 2 ^ 31)%Z → (0 ≤ len < 2 ^ 31)%Z → unpack (pack ptr len) = (ptr, len).
Proof.
  intros Hp Hl.
  assert (Z.lor (Z.shiftl ptr 32) len = ptr * 2 ^ 32 + len)%Z as E.
  { rewrite Z.shiftl_mul_pow2 by lia. symmetry. rewrite <-Z.add_lor_land.
    enough (Z.land (ptr * 2 ^ 32) len = 0)%Z by lia.
    apply Z.bits_inj'. intros k Hk. rewrite Z.land_spec, Z.bits_0.
    destruct (Z.ltb_spec k 32); [by rewrite Z.mul_pow2_bits_low|].
    rewrite (Z.bits_above_log2 len k), andb_false_r; [done|lia|].
    destruct (decide (len = 0)%Z) as [->|]; [cbn; lia|]. apply Z.log2_lt_pow2; [lia|].
    eapply Z.lt_le_trans; [exact (proj2 Hl)|]. apply Z.pow_le_mono_r; lia. }
  unfold pack, unpack. rewrite E. unfold as_i64.
  rewrite (Z.mod_small (ptr * 2 ^ 32 + len + 2 ^ 63)) by lia.
  replace (ptr * 2 ^ 32 + len + 2 ^ 63 - 2 ^ 63)%Z with (ptr * 2 ^ 32 + len)%Z by lia.
  rewrite Z.shiftr_div_pow2 by lia. change (2 ^ 32 - 1)%Z with (Z.ones 32). rewrite Z.land_ones by lia.
  rewrite Z.div_add_l, (Z.div_small len), Z.add_0_r by lia.
  rewrite Z.add_comm, Z.mod_add, (Z.mod_small len) by lia.
  by rewrite !as_usize_small by lia.
Qed.

(** A range that neither starts nor extends below zero is sliced without a
    panic once it is in bounds. *)
Lemma slice_in_bounds data start len :
  (0 ≤ start)%Z → (0 ≤ len)%Z → (start + len < 2 ^ 64)%Z → out_of_bounds data (range_end start len) = false →
  slice data start (range_end start len) = Some (take (Z.to_nat len) (drop (Z.to_nat start) data)).
Proof.
  intros Hs Hl Hb Ho. unfold out_of_bounds in Ho. apply Z.ltb_ge in Ho.
  unfold range_end in *. rewrite as_usize_small in * by lia. unfold slice.
  rewrite (proj2 (Z.leb_le _ _)), (proj2 (Z.leb_le _ _)) by lia. cbn [andb].
  by replace (start + len - start)%Z with len by lia.
Qed.

Lemma copy_in_bounds data bytes start :
  (0 ≤ start)%Z → (start + Z.of_nat (length bytes) < 2 ^ 64)%Z →
  out_of_bounds data (range_end start (Z.of_nat (length bytes))) = false →
  is_Some (copy_into data bytes start (range_end start (Z.of_nat (length bytes)))).
Proof.
  intros Hs Hb Ho. unfold copy_into. rewrite slice_in_bounds by (lia || done).
  unfold out_of_bounds in Ho. apply Z.ltb_ge in Ho. unfold range_end in Ho. rewrite as_usize_small in Ho by lia.
  rewrite length_take, length_drop, (proj2 (Nat.eqb_eq _ _)) by lia. eauto.
Qed.

(** With pointers and lengths that are not negative neither half of
    [host_call] panics. *)
Theorem host_call_no_panic mem mem' ptr len dest bytes :
  (0 ≤ ptr < 2 ^ 31)%Z → (0 ≤ len < 2 ^ 31)%Z → (0 ≤ dest < 2 ^ 31)%Z → (Z.of_nat (length bytes) < 2 ^ 31)%Z →
  is_Some (read_request mem ptr len) ∧ is_Some (write_response mem' dest bytes).
Proof.
  intros Hp Hl Hd Hb. unfold read_request, write_response. rewrite !(as_usize_small ptr), !(as_usize_small len), !(as_usize_small dest) by lia.
  split.
  - case_match eqn:Eo; [eauto|]. rewrite slice_in_bounds by (lia || done). eauto.
  - case_match eqn:Ew; [eauto|]. edestruct (copy_in_bounds mem' bytes dest) as [x ->]; [lia|lia|done|eauto].
Qed.
End sandbox.

(** ** Epochs *)

(** An execution: when it starts and its timeout. Its watchdog adds one to
    the epoch of the engine when the timeout is over, whether or not the
    execution still runs. *)
Record Launch : Type := mkLaunch { started : Z; timeout : Z }.

Definition fires (l : Launch) : Z := (started l + timeout l)%Z.

(** The epoch of the engine at a time, and whether an execution that started
    at [since] is past its deadline of one epoch. *)
Definition epoch (ls : list Launch) (now : Z) : nat := length (List.filter (λ l, (fires l <=? now)%Z) ls).

Definition interrupted (ls : list Launch) (since now : Z) : bool := epoch ls since + 1 <=? epoch ls now.

Lemma epoch_split ls since now :
  (since ≤ now)%Z →
  epoch ls now = epoch ls since + length (List.filter (λ l, (since <? fires l)%Z && (fires l <=? now)%Z) ls).
Proof.
  intros Hle. unfold epoch. induction ls as [|l ls IH]; [done|]. cbn [List.filter].
  destruct (Z.leb_spec (fires l) now), (Z.leb_spec (fires l) since), (Z.ltb_spec since (fires l)); cbn [andb length]; lia.
Qed.

(** An execution is interrupted as soon as any watchdog of the engine fires
    after its start, its own or that of another execution. *)
Theorem interrupted_iff ls since now :
  (since ≤ now)%Z →
  interrupted ls since now = true ↔ ∃ l, l ∈ ls ∧ (since < fires l ≤ now)%Z.
Proof.
  intros Hle. unfold interrupted. rewrite (epoch_split ls since now Hle), Nat.leb_le.
  set (f := List.filter _ ls).
  assert ((∃ l, l ∈ ls ∧ (since < fires l ≤ now)%Z) ↔ ∃ l, l ∈ f) as ->.
  { split; intros (l & Hl).
    - exists l. apply list_elem_of_In, List.filter_In. rewrite list_elem_of_In in Hl. split; [tauto|].
      apply andb_true_iff. rewrite Z.ltb_lt, Z.leb_le. tauto.
    - apply list_elem_of_In, List.filter_In in Hl as [Hl [?%Z.ltb_lt ?%Z.leb_le]%andb_true_iff].
      exists l. rewrite list_elem_of_In. done. }
  destruct f as [|l f]; cbn [length]; split; try lia.
  - intros (l & Hl). by apply elem_of_nil in Hl.
  - intros _. exists l. apply list_elem_of_here.
Qed.

(** A module that could run for thirty seconds is stopped after one, because a
    module that was done long ago was started twenty-nine seconds before. *)
Example stopped_by_another : interrupted [mkLaunch 0 30; mkLaunch 29 30] 29 30 = true.
Proof. reflexivity. Qed.

(** A negative pointer passes the check of the bounds and the host panics. *)
Example negative_pointer_panics : read_request (λ _, Ok JNull) (lit "memory") (-1) 1 = None.
Proof. vm_compute. reflexivity. Qed.

Lemma pack_unpack_witness : unpack (pack 65536 12) = (65536%Z, 12%Z).
Proof. apply pack_unpack; lia. Defined.

Lemma interrupted_iff_witness : ∃ l, l ∈ [mkLaunch 0 30; mkLaunch 29 30] ∧ (29 < fires l ≤ 30)%Z.
Proof. apply (interrupted_iff _ 29 30); [lia|reflexivity]. Defined.

(** A guest that asks for a file and returns what it was told. *)
Definition demo_module : Module unit :=
  mkModule (Ok tt) (Ok tt) (Returns tt [] 0 7) true AllocFound (Ok tt)
    (λ _ _ _, Returns tt (replicate 16 "x"%char) 0 7)
    (λ _ mem _ _, HostCall mem 0 4 (λ _, Returns tt mem 0 7) (λ _ mem packed, Returns tt mem packed 7)).

Example demo_module_reads :
  (execute_sync (λ _, []) (λ _, []) (λ s, s) (λ _, lit "json")
    (λ _, Ok (JObj [(lit "method", JStr (lit "env_read")); (lit "params", JObj [(lit "name", JStr (lit "HOME"))])]))
    (λ _, []) (λ _, demo_host) demo_module JNull (mkConfig 100 0 [EnvRead (lit "HOME")] None) None []).1
  = [ReadVar (lit "HOME")].
Proof. vm_compute. reflexivity. Qed.
