(* ===== verification/WasmAgents.v ===== *)
(** * Agents that are WASM modules

    [execute_wasm_agent] and [resolve_module_path] of
    [openfang-kernel/src/kernel.rs]: the module of an agent is run in the
    sandbox with the capabilities of its manifest, and its answer is taken out
    of the JSON it returns. What the engine makes of the bytes of a module is
    a parameter. *)

From Stdlib Require Import Ascii ZArith Lia.
From stdpp Require Import base gmap strings list.
From S2P Require Import Prelude Strs TextLines Message Capability WorkspaceSandbox SsrfGuard AgentTypes AgentQuota AgentRegistry Background AgentLifecycle.
From S2P Require Import ReplyDirectives AgentLoop AgentMessages Json WasmHost WasmSandbox.

(** ** URLs without tricks *)

(** A scheme, a host, perhaps a port, and perhaps a path: no user name, no
    query or fragment right after the host. *)
Definition plain_url (url : str) (s : Scheme) (host port rest : str) : Prop :=
  url = url_of s (host ++ port ++ rest) ∧
  Forall (λ c, ends_authority c = false) (host ++ port) ∧ "@"%char ∉ host ++ port ∧ ":"%char ∉ host ∧
  (port = [] ∨ ∃ p, port = ":"%char :: p ∧ p ≠ [] ∧ ":"%char ∉ p) ∧
  match rest with [] => True | c :: _ => c = "/"%char end.

(** The host with its port, or the port of the scheme. *)
Definition destination (s : Scheme) (host port : str) : str :=
  host ++ match port with [] => lit ":" ++ show_Z (scheme_port s) | _ => port end.

Lemma plain_uri_host url s host port rest : plain_url url s host port rest → uri_host url = Some host.
Proof.
  intros (-> & Hf & Ha & Hh & Hp & Hr). unfold uri_host. rewrite find_scheme. cbn [mbind option_bind].
  assert (drop (length (scheme_text s) + 3) (url_of s (host ++ port ++ rest)) = (host ++ port) ++ rest) as ->
    by (rewrite <-app_assoc; by destruct s).
  rewrite authority_of_app; [|done|by destruct rest as [|c rest]; [|subst c]].
  unfold host_of_authority. rewrite split_no_sep_id by done. simpl.
  destruct Hp as [->|(p & -> & _)]; [rewrite app_nil_r; by rewrite before_none|by rewrite before_app].
Qed.

(** The mark of a second scheme comes after the host and the port. *)
Lemma scheme_mark_later host port rest k :
  "/"%char ∉ host ++ port → ":"%char ∉ host → (port = [] ∨ ∃ p, port = ":"%char :: p ∧ p ≠ [] ∧ ":"%char ∉ p) →
  find ((host ++ port) ++ rest) (lit "://") = Some k → length (host ++ port) ≤ k.
Proof.
  intros Hs Hh Hp (x & y & E & <-)%find_Some.
  destruct (decide (length (host ++ port) ≤ length x)) as [|Hlt]; [done|]. exfalso.
  assert ((host ++ port) !! length x = Some ":"%char) as Hx.
  { rewrite <-(lookup_app_l _ rest) by lia. rewrite E. rewrite lookup_app_r, Nat.sub_diag by lia. done. }
  rewrite lookup_app_Some in Hx. destruct Hx as [Hx|[Hl Hx]].
  { apply Hh. by apply list_elem_of_lookup_2 in Hx. }
  destruct Hp as [->|(p & -> & Hne & Hp)]; [done|].
  destruct (length x - length host) as [|j] eqn:Ej; [|cbn in Hx; apply Hp; by apply list_elem_of_lookup_2 in Hx].
  assert (length x = length host) as Hxl by lia. destruct p as [|c p]; [done|].
  apply (f_equal (λ l, l !! S (length x))) in E.
  rewrite (lookup_app_r x) in E by lia. replace (S (length x) - length x) with 1 in E by lia. cbn in E.
  rewrite <-app_assoc, (lookup_app_r host) in E by lia. replace (S (length x) - length host) with 1 in E by lia.
  cbn in E. injection E as ->. apply Hs, elem_of_app. right. right. left.
Qed.

(** For such a URL the text that is checked is where the request goes. *)
Lemma plain_extract_host url s host port rest :
  plain_url url s host port rest → extract_host url = destination s host port.
Proof.
  intros (-> & Hf & Ha & Hh & Hp & Hr).
  assert ("/"%char ∉ host ++ port) as Hs.
  { intros Hin. rewrite Forall_forall in Hf. by apply Hf in Hin. }
  unfold extract_host, after_scheme. rewrite find_scheme.
  assert (drop (length (scheme_text s) + 3) (url_of s (host ++ port ++ rest)) = (host ++ port) ++ rest) as ->
    by (rewrite <-app_assoc; by destruct s).
  assert (∃ rest', match rest' with [] => True | c :: _ => c = "/"%char end ∧
    match find ((host ++ port) ++ rest) (lit "://") with
    | Some k => take k ((host ++ port) ++ rest) | None => (host ++ port) ++ rest end = (host ++ port) ++ rest')
    as (rest' & Hr' & ->).
  { destruct (find _ _) as [k|] eqn:E; [|by exists rest]. apply scheme_mark_later in E; [|done..].
    exists (take (k - length (host ++ port)) rest). split; [by destruct (k - _), rest|]. by rewrite take_app_ge. }
  assert (before ((host ++ port) ++ rest') "/"%char = host ++ port) as ->.
  { destruct rest' as [|c rest']; [rewrite app_nil_r; by apply before_none|]. subst c. by apply before_app. }
  unfold destination. destruct Hp as [->|(p & -> & _)].
  - rewrite app_nil_r. destruct (contains host (lit ":")) eqn:E.
    { apply contains_spec in E as (a & b & ->). exfalso. apply Hh. rewrite !elem_of_app. right. left. constructor. }
    rewrite url_https. by destruct s.
  - assert (contains (host ++ ":"%char :: p) (lit ":") = true) as -> by (apply contains_spec; by exists host, p). done.
Qed.

Section wasm_agents.
Context {AgentId SessionId Value Globals : Type}.
Context (show_agent : AgentId → str).
Context (debug_capability : Capability → str) (show_ip : IpAddr → str) (to_uppercase : str → str).
Context (to_json : Json → str) (from_json : str → result Json str).
Context (read_bytes : str → result str str) (load_module : str → Module Globals) (show_trap : Trap → str).
Context (home_dir : str).

Abbreviation entry_t := (AgentEntry (AgentId := AgentId) (SessionId := SessionId) (Json := Value)).

Definition resolve_module_path (path : str) : str :=
  if is_absolute path then path else path_join home_dir path.

Definition wasm_config (e : entry_t) : SandboxConfig :=
  mkConfig (wrapping_mul_u64 (max_cpu_time_ms (resources (AgentTypes.manifest e))) 100000)
    (AgentTypes.max_memory_bytes (resources (AgentTypes.manifest e)))
    (manifest_to_capabilities (AgentTypes.manifest e)) (Some 30%Z).

Definition wasm_input (e : entry_t) (message : str) : Json :=
  JObj [(lit "message", JStr message); (lit "agent_id", JStr (show_agent (AgentTypes.id e)));
        (lit "agent_name", JStr (name e))].

(** The text of the answer: a field, the value itself, or all of it. *)
Definition wasm_response (output : Json) : str :=
  match get output (lit "response") ≫= as_str with
  | Some s => s
  | None =>
      match get output (lit "text") ≫= as_str with
      | Some s => s
      | None => match as_str output with Some s => s | None => to_json output end
      end
  end.

Definition internal_error (s : str) : KernelError := OpenFang (Internal s).

(** A panic of the thread the module runs on is an error; [joined] is its
    text. *)
Definition execute_wasm_agent (hosts : nat → Host) (kernel : option KernelApi) (joined : str) (e : entry_t)
    (message : str) : list HostEffect * result AgentLoopResult KernelError :=
  let source := module (AgentTypes.manifest e) in
  let module_path := if starts_with source (lit "wasm:") then drop 5 source else [] in
  let wasm_path := resolve_module_path module_path in
  match read_bytes wasm_path with
  | Err err => ([], Err (internal_error (lit "Failed to read WASM module '" ++ wasm_path ++ lit "': " ++ err)))
  | Ok bytes =>
      match execute_sync debug_capability show_ip to_uppercase to_json from_json show_trap hosts (load_module bytes)
              (wasm_input e message) (wasm_config e) kernel (show_agent (AgentTypes.id e)) with
      | (effects, None) =>
          (effects, Err (internal_error (lit "WASM execution failed: " ++
                 show_sandbox_error (Execution (lit "spawn_blocking join failed: " ++ joined)))))
      | (effects, Some (Err err)) =>
          (effects, Err (internal_error (lit "WASM execution failed: " ++ show_sandbox_error err)))
      | (effects, Some (Ok r)) =>
          (effects, Ok (mkResult (wasm_response (output r)) (mkUsage 0 0) 1 None false default_directives))
      end
  end.

(** ** What a WASM agent can do *)

Definition covers (patterns : list str) (value : str) : bool := existsb (λ p, glob_matches p value) patterns.

(** The part of the manifest an effect needs. *)
Definition effect_granted (m : AgentManifest (Json := Value)) (e : HostEffect) : Prop :=
  let c := effective_caps m in
  match e with
  | ReadFile _ | WroteFile _ _ | ListedDir _ | ReadVar _ => False
  | Fetched _ url _ =>
      covers (network c) (extract_host url) = true ∧
      ∀ s host port rest, plain_url url s host port rest →
        uri_host url = Some host ∧ covers (network c) (destination s host port) = true
  | RanCommand command _ => covers (shell c) command = true
  | Recalled key => covers (memory_read c) key = true
  | Stored key _ => covers (memory_write c) key = true
  | SentTo target _ => covers (AgentTypes.agent_message c) target = true
  | Spawned _ _ caps => agent_spawn c = true ∧ caps = manifest_to_capabilities m
  end.

Lemma existsb_fmap {A B} (p : B → bool) (f : A → B) l : existsb p (f <$> l) = existsb (λ x, p (f x)) l.
Proof. induction l as [|x l IH]; [done|]. rewrite fmap_cons. cbn [existsb]. by rewrite IH. Qed.

Lemma existsb_never {A} (l : list A) : existsb (λ _, false) l = false.
Proof. by induction l. Qed.

Lemma existsb_if {A} (p : A → bool) (b : bool) x : existsb p (if b then [x] else []) = b && p x.
Proof. destruct b; cbn [existsb]; [by rewrite orb_false_r|done]. Qed.

(** Which part of a manifest covers a capability. *)
Lemma manifest_covers (m : AgentManifest (Json := Value)) required :
  existsb (λ granted, capability_matches granted required) (manifest_to_capabilities m) =
  let c := effective_caps m in
  match required with
  | NetConnect host => covers (network c) host
  | Capability.ToolInvoke id => existsb (λ t, str_eqb t id || str_eqb t (lit "*")) (tools c)
  | MemoryRead key => covers (memory_read c) key
  | MemoryWrite key => covers (memory_write c) key
  | Capability.AgentSpawn => agent_spawn c
  | Capability.AgentMessage target => covers (AgentTypes.agent_message c) target
  | Capability.ShellExec command => covers (shell c) command
  | OfpDiscover => ofp_discover c
  | OfpConnect peer => covers (ofp_connect c) peer
  | _ => false
  end.
Proof.
  unfold manifest_to_capabilities, covers. rewrite !existsb_app, !existsb_if, !existsb_fmap.
  destruct required; cbn [capability_matches]; rewrite ?existsb_never, ?andb_false_r, ?andb_true_r, ?orb_false_r, ?orb_false_l;
    done.
Qed.

End wasm_agents.
