(* ===== verification/Hands.v ===== *)
(** * Hands

    [openfang-hands/src/lib.rs] and [registry.rs], and the activation of hands
    in [openfang-kernel/src/kernel.rs]: a hand is a packaged agent; activating
    it makes an instance in the registry of hands and spawns the agent, and
    deactivating it removes the instance and kills the agent. Parsing the
    definitions that come with the program, the environment and the search
    path are parameters. *)

From Stdlib Require Import Ascii ZArith Lia SpecFloat.
From stdpp Require Import base gmap strings list.
From S2P Require Import Prelude Strs TextLines Floats ShellExec AgentTypes AgentQuota AgentRegistry Capability AuditChain.
From S2P Require Import Triggers Background AgentLifecycle.

Inductive HandCategory : Type := Content | Security | Productivity | Development | Communication | Data.

Definition show_category (c : HandCategory) : str :=
  lit match c with
      | Content => "Content" | Security => "Security" | Productivity => "Productivity"
      | Development => "Development" | Communication => "Communication" | Data => "Data"
      end.

Inductive RequirementType : Type := Binary | EnvVar | ApiKey.

Record HandInstallInfo : Type := mkInstall {
  macos : option str;
  windows : option str;
  linux_apt : option str;
  linux_dnf : option str;
  linux_pacman : option str;
  pip : option str;
  signup_url : option str;
  docs_url : option str;
  env_example : option str;
  manual_url : option str;
  estimated_time : option str;
  steps : list str
}.

Record HandRequirement : Type := mkRequirement {
  req_key : str;
  req_label : str;
  requirement_type : RequirementType;
  check_value : str;
  req_description : option str;
  install : option HandInstallInfo
}.

Record HandMetric : Type := mkMetric { metric_label : str; memory_key : str; format : str }.

Inductive HandSettingType : Type := Select | Text | Toggle.

Record HandSettingOption : Type := mkOption {
  option_value : str;
  option_label : str;
  provider_env : option str;
  binary : option str
}.

Record HandSetting : Type := mkSetting {
  setting_key : str;
  setting_label : str;
  setting_description : str;
  setting_type : HandSettingType;
  setting_default : str;
  options : list HandSettingOption
}.

Record ResolvedSettings : Type := mkResolved { prompt_block : str; env_vars : list str }.

Record HandAgentConfig : Type := mkHandAgent {
  agent_name : str;
  agent_description : str;
  agent_module : str;
  agent_provider : str;
  agent_model : str;
  agent_api_key_env : option str;
  agent_base_url : option str;
  agent_max_tokens : Z;
  agent_temperature : spec_float;
  agent_system_prompt : str;
  agent_max_iterations : option Z
}.

Record HandDefinition : Type := mkHand {
  hand_def_id : str;
  hand_name : str;
  hand_description : str;
  category : HandCategory;
  icon : str;
  hand_tools : list str;
  hand_skills : list str;
  hand_mcp_servers : list str;
  requires : list HandRequirement;
  settings : list HandSetting;
  agent : HandAgentConfig;
  dashboard : list HandMetric;
  skill_content : option str
}.

Inductive HandStatus : Type := Active | Paused | ErrorStatus (msg : str) | Inactive.

Definition show_status (s : HandStatus) : str :=
  match s with
  | Active => lit "Active" | Paused => lit "Paused" | ErrorStatus msg => lit "Error: " ++ msg | Inactive => lit "Inactive"
  end.

#[export] Instance hand_status_eq_dec : EqDecision HandStatus.
Proof. solve_decision. Defined.

Inductive HandError {Uuid : Type} : Type :=
| HandNotFound (id : str)
| AlreadyActive (id : str)
| InstanceNotFound (id : Uuid).
Arguments HandError : clear implicits.

Section hands.
Context {Uuid AgentId Value : Type} `{Countable Uuid} `{EqDecision AgentId}.
Context (as_str : Value → option str).

(** ** Settings *)

(** The line of a setting in the prompt, and the variable it lets through. *)
Definition resolve_setting (config : gmap str Value) (s : HandSetting) : option str * option str :=
  let chosen := default (setting_default s) (config !! setting_key s ≫= as_str) in
  match setting_type s with
  | Select =>
      let matched := List.find (λ o, str_eqb (option_value o) chosen) (options s) in
      let display := match matched with Some o => option_label o | None => chosen end in
      (Some (lit "- " ++ setting_label s ++ lit ": " ++ display ++ lit " (" ++ chosen ++ lit ")"),
       matched ≫= provider_env)
  | Toggle =>
      let enabled := str_eqb chosen (lit "true") || str_eqb chosen (lit "1") in
      (Some (lit "- " ++ setting_label s ++ lit ": " ++ lit (if enabled then "Enabled" else "Disabled")), None)
  | Text =>
      (if Strs.is_empty chosen then None else Some (lit "- " ++ setting_label s ++ lit ": " ++ chosen), None)
  end.

Definition resolve_settings (ss : list HandSetting) (config : gmap str Value) : ResolvedSettings :=
  let lines := omap (λ s, (resolve_setting config s).1) ss in
  mkResolved
    (match lines with
     | [] => []
     | _ => lit "## User Configuration" ++ [newline; newline] ++ join lines [newline]
     end)
    (omap (λ s, (resolve_setting config s).2) ss).

(** ** The registry *)

Record HandInstance : Type := mkInstance {
  instance_id : Uuid;
  hand_id : str;
  status : HandStatus;
  hand_agent : option AgentId;
  instance_agent_name : str;
  config : gmap str Value;
  activated_at : Z;
  updated_at : Z
}.

Record HandRegistry : Type := mkHands {
  definitions : gmap str HandDefinition;
  instances : gmap Uuid HandInstance
}.

Definition new_hands : HandRegistry := mkHands ∅ ∅.

Definition with_instances (r : HandRegistry) (m : gmap Uuid HandInstance) : HandRegistry := mkHands (definitions r) m.

(** [parse_bundled]: a definition or an error, for each that comes with the
    program. *)
Definition load_bundled (r : HandRegistry) (parsed : list (result HandDefinition str)) : HandRegistry * nat :=
  foldl (λ acc p, match p with
                  | Ok def => (mkHands (<[hand_def_id def := def]> (definitions acc.1)) (instances acc.1), S acc.2)
                  | Err _ => acc
                  end) (r, 0) parsed.

Definition get_definition (r : HandRegistry) (id : str) : option HandDefinition := definitions r !! id.

Definition is_active_for (id : str) (i : HandInstance) : bool :=
  str_eqb (hand_id i) id && bool_decide (status i = Active).

Definition active_for (r : HandRegistry) (id : str) : bool :=
  existsb (λ e, is_active_for id e.2) (map_to_list (instances r)).

(** [fresh] is the id drawn for the instance. *)
Definition activate (r : HandRegistry) (id : str) (cfg : gmap str Value) (fresh : Uuid) (now : Z)
    : HandRegistry * result HandInstance (HandError Uuid) :=
  match definitions r !! id with
  | None => (r, Err (HandNotFound id))
  | Some def =>
      if active_for r id then (r, Err (AlreadyActive id))
      else
        let i := mkInstance fresh id Active None (agent_name (agent def)) cfg now now in
        (with_instances r (<[fresh := i]> (instances r)), Ok i)
  end.

Definition deactivate (r : HandRegistry) (i : Uuid) : HandRegistry * result HandInstance (HandError Uuid) :=
  match instances r !! i with
  | None => (r, Err (InstanceNotFound i))
  | Some inst => (with_instances r (delete i (instances r)), Ok inst)
  end.

(** The common shape of the setters. *)
Definition change (r : HandRegistry) (i : Uuid) (f : HandInstance → HandInstance)
    : HandRegistry * result unit (HandError Uuid) :=
  match instances r !! i with
  | None => (r, Err (InstanceNotFound i))
  | Some inst => (with_instances r (<[i := f inst]> (instances r)), Ok tt)
  end.

Definition set_status (s : HandStatus) (now : Z) (i : HandInstance) : HandInstance :=
  mkInstance (instance_id i) (hand_id i) s (hand_agent i) (instance_agent_name i) (config i) (activated_at i) now.

Definition with_agent (a : AgentId) (now : Z) (i : HandInstance) : HandInstance :=
  mkInstance (instance_id i) (hand_id i) (status i) (Some a) (instance_agent_name i) (config i) (activated_at i) now.

Definition pause r i now := change r i (set_status Paused now).
Definition resume r i now := change r i (set_status Active now).
Definition set_error r i msg now := change r i (set_status (ErrorStatus msg) now).
Definition set_agent r i a now := change r i (with_agent a now).

Definition find_by_agent (order : gmap Uuid HandInstance → list HandInstance) (r : HandRegistry) (a : AgentId)
    : option HandInstance :=
  List.find (λ i, bool_decide (hand_agent i = Some a)) (order (instances r)).

Definition get_instance (r : HandRegistry) (i : Uuid) : option HandInstance := instances r !! i.

(** ** Requirements *)

Context (var : str → option str) (is_file : str → bool).

Definition var_filled (name : str) : bool := match var name with Some v => negb (Strs.is_empty v) | None => false end.

(** On Unix: a directory of the search path holds the file. *)
Definition which_binary (name : str) : bool :=
  existsb (λ dir, is_file (WorkspaceSandbox.path_join dir name)) (split (default [] (var (lit "PATH"))) ":"%char).

Definition check_requirement (q : HandRequirement) : bool :=
  match requirement_type q with Binary => which_binary (check_value q) | EnvVar | ApiKey => var_filled (check_value q) end.

Definition check_requirements (r : HandRegistry) (id : str)
    : result (list (HandRequirement * bool)) (HandError Uuid) :=
  match definitions r !! id with
  | None => Err (HandNotFound id)
  | Some def => Ok ((λ q, (q, check_requirement q)) <$> requires def)
  end.

Definition check_option_available (env bin : option str) : bool :=
  let binary_ok := match bin with Some b => which_binary b | None => true end in
  match env with
  | None => binary_ok
  | Some e =>
      if var_filled e then binary_ok
      else str_eqb e (lit "GEMINI_API_KEY") && var_filled (lit "GOOGLE_API_KEY") && binary_ok
  end.

Definition check_settings_availability (r : HandRegistry) (id : str)
    : result (list (HandSetting * list (HandSettingOption * bool))) (HandError Uuid) :=
  match definitions r !! id with
  | None => Err (HandNotFound id)
  | Some def =>
      Ok ((λ s, (s, (λ o, (o, check_option_available (provider_env o) (binary o))) <$> options s)) <$> settings def)
  end.
End hands.

(** ** Hands and agents *)

Section kernel.
Context {Uuid : Type} `{Countable Uuid}.
Context {AgentId SessionId TriggerId EventId LoopId Value : Type}.
Context `{Countable AgentId} `{Countable TriggerId} `{Countable LoopId} `{UnicodeCase}.
Context (show_agent : AgentId → str) (show_parent : option AgentId → str) (show_uuid : Uuid → str).
Context (debug_network : Event.NetworkEvent → str) (debug_system : Event.SystemEvent (AgentId := AgentId) → str).
Context (fmt_f32_1 fmt_f64_4 : spec_float → str).
Context (trigger_order : gmap TriggerId (Trigger (AgentId := AgentId) (TriggerId := TriggerId))
                         → list (TriggerId * Trigger (AgentId := AgentId) (TriggerId := TriggerId))).
Context (sha256_hex : str → str).
Context (new_trigger_id : TriggerEngine (AgentId := AgentId) (TriggerId := TriggerId) → TriggerId).
Context (as_str : Value → option str) (strings_to_json : list str → Value) (temperature_07 : spec_float).
Context (cfg : KernelConfig).

Abbreviation manifest_t := (AgentManifest (Json := Value)).
Abbreviation kernel_t := (Kernel (AgentId := AgentId) (SessionId := SessionId) (TriggerId := TriggerId)
  (EventId := EventId) (LoopId := LoopId) (Json := Value)).
Abbreviation hands_t := (HandRegistry (Uuid := Uuid) (AgentId := AgentId) (Value := Value)).
Abbreviation instance_t := (HandInstance (Uuid := Uuid) (AgentId := AgentId) (Value := Value)).
Abbreviation spawn_call := (SpawnCall (AgentId := AgentId) (SessionId := SessionId) (EventId := EventId) (Json := Value)).
Abbreviation spawn := (spawn_agent show_agent show_parent debug_network debug_system fmt_f32_1 fmt_f64_4
  trigger_order sha256_hex new_trigger_id cfg).
Abbreviation kill := (kill_agent show_agent sha256_hex).

Inductive HandKernelError : Type :=
| NoSuchHand (e : str)
| HandInternal (e : str)
| SpawnFailed (e : AgentLifecycle.KernelError).

Definition show_hand_error (e : HandError Uuid) : str :=
  match e with
  | HandNotFound id => lit "Hand not found: " ++ id
  | AlreadyActive id => lit "Hand already active: " ++ id
  | InstanceNotFound i => lit "Hand instance not found: " ++ show_uuid i
  end.

(** [provider] or [model], with ["default"] for the kernel's own. *)
Definition or_default (own fallback : str) : str := if str_eqb own (lit "default") then fallback else own.

Definition section_break : str := [newline; newline] ++ lit "---" ++ [newline; newline].

(** The prompt with the settings and the knowledge that comes with the hand. *)
Definition hand_prompt (def : HandDefinition) (resolved : ResolvedSettings) : str :=
  let prompt := agent_system_prompt (agent def) in
  let prompt := match prompt_block resolved with [] => prompt | block => prompt ++ section_break ++ block end in
  match skill_content def with
  | Some content =>
      prompt ++ section_break ++ lit "## Reference Knowledge" ++ [newline; newline] ++ content
  | None => prompt
  end.

(** Hands that declare [shell_exec] run commands without restrictions. *)
Definition hand_exec_policy (def : HandDefinition) : option ExecPolicy :=
  if existsb (str_eqb (lit "shell_exec")) (hand_tools def)
  then Some (mkExecPolicy Full default_safe_bins [] 300 (100 * 1024) 120)
  else None.

Definition hand_manifest (def : HandDefinition) (id : str) (i : instance_t) : manifest_t :=
  let base := default_manifest temperature_07 in
  let resolved := resolve_settings as_str (settings def) (config i) in
  mkManifest (agent_name (agent def)) (version base) (agent_description (agent def)) (author base)
    (agent_module (agent def)) (schedule base)
    (mkModel (or_default (agent_provider (agent def)) (dm_provider (k_default_model cfg)))
       (or_default (agent_model (agent def)) (dm_model (k_default_model cfg)))
       (agent_max_tokens (agent def)) (agent_temperature (agent def)) (hand_prompt def resolved)
       (agent_api_key_env (agent def)) (agent_base_url (agent def)))
    (fallback_models base) (resources base) (priority base)
    (mkManifestCaps [] (hand_tools def) [] [] false [] [] false []) (profile base) (m_tools base) (hand_skills def)
    (hand_mcp_servers def)
    (match env_vars resolved with
     | [] => m_metadata base
     | vars => <[lit "hand_allowed_env" := strings_to_json vars]> (m_metadata base)
     end)
    [lit "hand:" ++ id; lit "hand_instance:" ++ show_uuid (instance_id i)] (routing base)
    ((λ n, mkAutonomous None n 10 30 None) <$> agent_max_iterations (agent def)) (pinned_model base) (workspace base)
    (generate_identity_files base) (hand_exec_policy def).

Record HandKernel : Type := mkHandKernel { hand_registry : hands_t; hand_kernel : kernel_t }.

(** [spawn_agent]: a manifest is spawned without a parent; [c] has the ids
    drawn and the answers of the memory and the disk. *)
Definition hand_call (c : spawn_call) (m : manifest_t) : spawn_call :=
  mkSpawnCall (s_id c) (s_session c) (s_event c) m None (s_now c) (s_now_text c) (session_created c)
    (workspace_made c) (agent_saved c).

Definition activate_hand (s : HandKernel) (id : str) (config : gmap str Value) (fresh : Uuid) (now linked : Z)
    (c : spawn_call) : HandKernel * result instance_t HandKernelError :=
  match get_definition (hand_registry s) id with
  | None => (s, Err (NoSuchHand (lit "Hand not found: " ++ id)))
  | Some def =>
      let '(r, activated) := activate (hand_registry s) id config fresh now in
      match activated with
      | Err e => (mkHandKernel r (hand_kernel s), Err (HandInternal (show_hand_error e)))
      | Ok i =>
          let '(k, spawned) := spawn (hand_kernel s) (hand_call c (hand_manifest def id i)) in
          match spawned with
          | Err e => (mkHandKernel r k, Err (SpawnFailed e))
          | Ok a =>
              let '(r, set) := set_agent r (instance_id i) a linked in
              match set with
              | Err e => (mkHandKernel r k, Err (HandInternal (show_hand_error e)))
              | Ok _ => (mkHandKernel r k, Ok (default i (get_instance r (instance_id i))))
              end
          end
      end
  end.

Definition deactivate_hand (s : HandKernel) (i : Uuid) (now_text : str) : HandKernel * result unit HandKernelError :=
  let '(r, removed) := deactivate (hand_registry s) i in
  match removed with
  | Err e => (mkHandKernel r (hand_kernel s), Err (HandInternal (show_hand_error e)))
  | Ok inst =>
      (mkHandKernel r
         match hand_agent inst with Some a => (kill (hand_kernel s) a now_text).1 | None => hand_kernel s end, Ok tt)
  end.

Definition lift_hand (s : HandKernel) (p : hands_t * result unit (HandError Uuid)) : HandKernel * result unit HandKernelError :=
  (mkHandKernel p.1 (hand_kernel s),
   match p.2 with Ok _ => Ok tt | Err e => Err (HandInternal (show_hand_error e)) end).

Definition pause_hand (s : HandKernel) (i : Uuid) (now : Z) := lift_hand s (pause (hand_registry s) i now).
Definition resume_hand (s : HandKernel) (i : Uuid) (now : Z) := lift_hand s (resume (hand_registry s) i now).

(** ** Activation *)

Lemma spawn_entry (k k' : kernel_t) c a :
  s_parent c = None → spawn k c = (k', Ok a) →
  a = s_id c ∧ ∃ e, agents (registry k') !! a = Some e
    ∧ AgentTypes.manifest e = prepare show_agent cfg (s_id c) (s_manifest c).
Proof.
  intros Hp. unfold spawn_agent. destruct (session_created c), (workspace_made c); try done.
  match goal with |- context [AgentRegistry.register ?r ?e] => pose proof (register_agents r e) as Hr;
    destruct (AgentRegistry.register r e) as [r' [[]|]] end; [|done].
  rewrite Hp. destruct (agent_saved c); [|done]. intros [= <- <-]. split; [done|].
  eexists. cbn [finish_spawn registry] in *. cbn [fst snd] in Hr. rewrite Hr by done. rewrite lookup_insert_eq. split; reflexivity.
Qed.

Lemma prepare_caps (i : AgentId) (m : manifest_t) : effective_caps (prepare show_agent cfg i m) = effective_caps m.
Proof.
  unfold prepare, overlay_model, m_on_model, effective_caps. destruct m. cbn.
  by destruct (api_key_env m_model), (base_url m_model).
Qed.

Lemma active_for_spec (r : hands_t) id :
  active_for r id = true ↔ ∃ j i, instances r !! j = Some i ∧ hand_id i = id ∧ status i = Active.
Proof.
  unfold active_for. rewrite existsb_exists. split.
  - intros ([j i] & Hin & [Hid%str_eqb_spec Hs%bool_decide_eq_true]%andb_true_iff).
    apply list_elem_of_In, elem_of_map_to_list in Hin. eauto.
  - intros (j & i & Hi & <- & Hs). exists (j, i). rewrite <-list_elem_of_In, elem_of_map_to_list. split; [done|].
    unfold is_active_for. by rewrite (proj2 (str_eqb_spec _ _) eq_refl), bool_decide_eq_true_2.
Qed.

(** Activating a hand either gives an active instance that is linked to a new
    agent, which is granted exactly the tools of the hand; or it changes
    nothing; or the agent could not be spawned. *)
Theorem activate_hand_outcome s id config fresh now linked c s' r :
  activate_hand s id config fresh now linked c = (s', r) →
  match r with
  | Ok i => ∃ def e, get_definition (hand_registry s) id = Some def
      ∧ instances (hand_registry s') = <[fresh := i]> (instances (hand_registry s))
      ∧ hand_id i = id ∧ status i = Active ∧ hand_agent i = Some (s_id c)
      ∧ agents (registry (hand_kernel s')) !! s_id c = Some e
      ∧ tools (effective_caps (AgentTypes.manifest e)) = hand_tools def
  | Err (NoSuchHand _) | Err (HandInternal _) => s' = s
  | Err (SpawnFailed _) => ∃ i, instances (hand_registry s') = <[fresh := i]> (instances (hand_registry s))
      ∧ hand_id i = id ∧ status i = Active ∧ hand_agent i = None
  end.
Proof.
  unfold activate_hand, activate, get_definition. destruct (definitions _ !! id) as [def|]; [|by intros [= <- <-]].
  destruct (active_for _ _); [intros [= <- <-]; by destruct s as [[]]|].
  match goal with |- context [spawn ?k ?c'] => pose proof (spawn_entry k) as Hs; destruct (spawn k c') as [k' [a|e]] eqn:Es end.
  2: { intros [= <- <-]. eexists. split; [reflexivity|]. done. }
  apply Hs in Es as [-> (e & He & Hm)]; [|done]. unfold set_agent, change, get_instance. cbn [instances with_instances instance_id].
  rewrite lookup_insert_eq. intros [= <- <-]. cbn [instances with_instances hand_registry hand_kernel].
  rewrite lookup_insert_eq, insert_insert_eq. cbn [default].
  eexists def, e. split_and!; try done. by rewrite Hm, prepare_caps.
Qed.

(** An activation whose agent could not be spawned leaves the hand active
    without an agent, so that it is not activated any more. *)
Theorem failed_activation_blocks s id config fresh now linked c s' e :
  activate_hand s id config fresh now linked c = (s', Err (SpawnFailed e)) →
  ∀ config' fresh' now' linked' c',
    activate_hand s' id config' fresh' now' linked' c' = (s', Err (HandInternal (lit "Hand already active: " ++ id))).
Proof.
  intros E config' fresh' now' linked' c'. pose proof E as (i & Hi & Hid & Hst & _)%activate_hand_outcome.
  assert (definitions (hand_registry s') = definitions (hand_registry s)) as Hd.
  { revert E. unfold activate_hand, activate. repeat case_match; simplify_eq; intros; by simplify_eq. }
  unfold activate_hand, activate, get_definition. rewrite Hd.
  destruct (definitions (hand_registry s) !! id) as [def|] eqn:Ed.
  2: { unfold activate_hand, get_definition in E. by rewrite Ed in E. }
  rewrite (proj2 (active_for_spec _ _)); [by destruct s' as [[]]|].
  exists fresh, i. rewrite Hi, lookup_insert_eq. done.
Qed.
End kernel.

(** ** One active instance of a hand *)

Section once.
Context {Uuid AgentId Value : Type} `{Countable Uuid}.
Abbreviation registry_t := (HandRegistry (Uuid := Uuid) (AgentId := AgentId) (Value := Value)).

Inductive hand_op : Type :=
| OActivate (id : str) (cfg : gmap str Value) (fresh : Uuid) (now : Z)
| ODeactivate (i : Uuid)
| OPause (i : Uuid) (now : Z)
| OResume (i : Uuid) (now : Z)
| OError (i : Uuid) (msg : str) (now : Z)
| OAgent (i : Uuid) (a : AgentId) (now : Z).

Definition hand_step (r : registry_t) (o : hand_op) : registry_t :=
  match o with
  | OActivate id cfg fresh now => (activate r id cfg fresh now).1
  | ODeactivate i => (deactivate r i).1
  | OPause i now => (pause r i now).1
  | OResume i now => (resume r i now).1
  | OError i msg now => (set_error r i msg now).1
  | OAgent i a now => (set_agent r i a now).1
  end.

Definition resumes (o : hand_op) : bool := match o with OResume _ _ => true | _ => false end.

Definition one_active (r : registry_t) : Prop :=
  ∀ j1 j2 i1 i2, instances r !! j1 = Some i1 → instances r !! j2 = Some i2 →
    hand_id i1 = hand_id i2 → status i1 = Active → status i2 = Active → j1 = j2.

Lemma change_once (r : registry_t) i f :
  (∀ x, hand_id (f x) = hand_id x ∧ (status (f x) = Active → status x = Active)) →
  one_active r → one_active (change r i f).1.
Proof.
  intros Hf Hr. unfold change. destruct (instances r !! i) as [x|] eqn:Ex; [|done]. cbn [fst].
  assert (∀ j y, <[i := f x]> (instances r) !! j = Some y →
            ∃ y0, instances r !! j = Some y0 ∧ hand_id y = hand_id y0 ∧ (status y = Active → status y0 = Active)) as Hold.
  { intros j y [[<- <-]|[Hne Hj]]%lookup_insert_Some; [|by eauto]. exists x. destruct (Hf x). done. }
  intros j1 j2 i1 i2. cbn [instances with_instances].
  intros (y1 & H1 & E1 & A1)%Hold (y2 & H2 & E2 & A2)%Hold He Ha1 Ha2.
  eapply Hr; [exact H1|exact H2|congruence|auto|auto].
Qed.

Lemma hand_step_once r o : resumes o = false → one_active r → one_active (hand_step r o).
Proof.
  intros Ho Hr. destruct o as [id cfg fresh now|i|i now|i now|i msg now|i a now]; cbn [hand_step]; try done.
  - unfold activate. destruct (definitions r !! id) as [def|]; [|done].
    destruct (active_for r id) eqn:Ea; [done|]. cbn [fst].
    assert (∀ j i, instances r !! j = Some i → hand_id i = id → status i = Active → False) as Hno.
    { intros j i Hi Hid Hs. assert (active_for r id = true) as E'; [|congruence].
      unfold active_for. apply existsb_exists. exists (j, i). rewrite <-list_elem_of_In, elem_of_map_to_list.
      split; [done|]. unfold is_active_for. cbn [snd]. subst id.
      by rewrite (proj2 (str_eqb_spec _ _) eq_refl), bool_decide_eq_true_2. }
    intros j1 j2 i1 i2. cbn [instances with_instances].
    intros [[<- <-]|[Hn1 H1]]%lookup_insert_Some [[<- <-]|[Hn2 H2]]%lookup_insert_Some He Ha1 Ha2; cbn in *; try done.
    + exfalso. by eapply Hno.
    + exfalso. by eapply Hno.
    + by eapply Hr.
  - unfold deactivate. destruct (instances r !! i); [|done].
    intros j1 j2 i1 i2. cbn [fst instances with_instances]. intros [_ H1]%lookup_delete_Some [_ H2]%lookup_delete_Some. by apply Hr.
  - by apply change_once.
  - by apply change_once.
  - by apply change_once.
Qed.

(** As long as no hand is resumed, at most one instance of every hand is
    active. *)
Theorem hand_active_once (defs : gmap str HandDefinition) (ops : list hand_op) :
  forallb (λ o, negb (resumes o)) ops = true → one_active (foldl hand_step (mkHands defs ∅) ops).
Proof.
  induction ops as [|o ops IH] using rev_ind; intros Hops.
  - intros j1 j2 i1 i2 H1. cbn in H1. by rewrite lookup_empty in H1.
  - rewrite forallb_app in Hops. apply andb_true_iff in Hops as [Hops [Ho _]%andb_true_iff].
    rewrite foldl_app. cbn [foldl]. apply hand_step_once; [by apply negb_true_iff|by apply IH].
Qed.
End once.

(** ** A hand *)

Definition clip : HandDefinition :=
  mkHand (lit "clip") (lit "Clip") [] Content [] [lit "shell_exec"] [] [] []
    [mkSetting (lit "stt") (lit "Speech") [] Select (lit "auto") [mkOption (lit "groq") (lit "Groq") (Some (lit "GROQ_API_KEY")) None]]
    (mkHandAgent (lit "clip-hand") [] (lit "builtin:chat") (lit "default") (lit "default") None None 4096
       (SpecFloat.S754_zero false) (lit "You cut videos.") None) [] None.

Abbreviation clip_op := (hand_op (Uuid := nat) (AgentId := nat) (Value := str)).
Definition clip_definitions : gmap str HandDefinition := {[ lit "clip" := clip ]}.

(** An instance that is paused leaves room for another, and both are active
    when it is resumed. *)
Example two_active :
  let r := foldl hand_step (mkHands clip_definitions ∅)
    [OActivate (lit "clip") ∅ 0 0; OPause 0 1; OActivate (lit "clip") ∅ 1 2; OResume 0 3 : clip_op] in
  (status <$> instances r !! 0, status <$> instances r !! 1) = (Some Active, Some Active).
Proof. vm_compute. reflexivity. Qed.

Lemma hand_active_once_witness :
  one_active (foldl hand_step (mkHands clip_definitions ∅)
    [OActivate (lit "clip") ∅ 0 0; OPause 0 1; OActivate (lit "clip") ∅ 1 2 : clip_op]).
Proof. apply hand_active_once. reflexivity. Defined.

(** The name of the agent is taken as long as the first instance lives, so a
    second one is left without an agent and blocks the hand. *)
Abbreviation clip_activate s fresh a :=
  (activate_hand (SessionId := nat) (EventId := nat) show_nat (λ _, []) show_nat (λ _, []) (λ _, []) (λ _, []) (λ _, []) map_to_list
    (λ x, x) demo_trigger_id Some (λ _, []) (SpecFloat.S754_zero false) demo_cfg s (lit "clip") ∅ fresh 0 0
    (mkSpawnCall a 100 200 (default_manifest (SpecFloat.S754_zero false)) None 0 (lit "t0") (Ok tt) (Ok tt) (Ok tt))).

Abbreviation clip_start :=
  (mkHandKernel (LoopId := nat) (mkHands clip_definitions ∅ : HandRegistry (Uuid := nat) (AgentId := nat) (Value := str))
     new_kernel).

Lemma second_activation_fails :
  (clip_activate (pause_hand show_nat (clip_activate clip_start 0 1).1 0 1).1 1 2).2
  = Err (SpawnFailed (RegistryFailed (AgentAlreadyExists (lit "clip-hand")))).
Proof. vm_compute. reflexivity. Qed.

Lemma failed_activation_blocks_witness :
  let s := (clip_activate (pause_hand show_nat (clip_activate clip_start 0 1).1 0 1).1 1 2).1 in
  clip_activate s 2 3 = (s, Err (HandInternal (lit "Hand already active: " ++ lit "clip"))).
Proof.
  intros s. eapply failed_activation_blocks. rewrite (surjective_pairing (clip_activate _ 1 2)), second_activation_fails.
  reflexivity.
Defined.
