(* ===== verification/SessionStore.v ===== *)
(** * Stored sessions

    [openfang-memory/src/session.rs]: the table of sessions, the canonical
    session of an agent that all channels write to, its compaction, and the
    mirror of a session as lines of JSON. A table is the map from its key to
    the rest of the row; a statement is its effect on the rows it names, and
    [fault] is the error of the connection, if there is one. Encoding the
    messages of a row is lossless. Times are parameters. A panic is [None]. *)

From Stdlib Require Import Ascii ZArith Lia.
From stdpp Require Import base gmap strings list.
From S2P Require Import Prelude Strs TextLines Message.

Section store.
Context {AgentId SessionId Value : Type} `{Countable AgentId} `{Countable SessionId}.

Record Session : Type := mkSession {
  session_id : SessionId;
  session_agent : AgentId;
  messages : list (Message Value);
  context_window_tokens : Z;
  label : option str
}.

(** A row of [sessions] without its key. *)
Record SessionRow : Type := mkRow {
  row_agent : AgentId;
  row_messages : list (Message Value);
  row_tokens : Z;
  row_label : option str;
  created_at : str;
  updated_at : str
}.

Record CanonicalSession : Type := mkCanonical {
  canonical_messages : list (Message Value);
  compaction_cursor : nat;
  compacted_summary : option str;
  canonical_updated : str
}.

Record Store : Type := mkStore {
  sessions : gmap SessionId SessionRow;
  canonical_sessions : gmap AgentId CanonicalSession
}.

Definition with_sessions (s : Store) (t : gmap SessionId SessionRow) : Store := mkStore t (canonical_sessions s).
Definition with_canonical (s : Store) (t : gmap AgentId CanonicalSession) : Store := mkStore (sessions s) t.

(** ** Sessions *)

Definition session_of (i : SessionId) (r : SessionRow) : Session :=
  mkSession i (row_agent r) (row_messages r) (row_tokens r) (row_label r).

(** A statement, unless the connection fails. *)
Definition executed (s : Store) (fault : option str) (f : Store → Store) : Store * result unit str :=
  match fault with Some e => (s, Err e) | None => (f s, Ok tt) end.

Definition queried {A} (fault : option str) (x : A) : result A str :=
  match fault with Some e => Err e | None => Ok x end.

Definition get_session (s : Store) (fault : option str) (i : SessionId) : result (option Session) str :=
  queried fault (session_of i <$> sessions s !! i).

(** [INSERT .. ON CONFLICT(id) DO UPDATE]: the owner and the time of creation
    of a row that exists stay. *)
Definition save_session (s : Store) (fault : option str) (x : Session) (now : str) : Store * result unit str :=
  executed s fault (λ s, with_sessions s
    (<[session_id x := match sessions s !! session_id x with
                       | Some r => mkRow (row_agent r) (messages x) (context_window_tokens x) (label x) (created_at r) now
                       | None => mkRow (session_agent x) (messages x) (context_window_tokens x) (label x) now now
                       end]> (sessions s))).

Definition delete_session (s : Store) (fault : option str) (i : SessionId) : Store * result unit str :=
  executed s fault (λ s, with_sessions s (delete i (sessions s))).

Definition delete_agent_sessions (s : Store) (fault : option str) (a : AgentId) : Store * result unit str :=
  executed s fault (λ s, with_sessions s (filter (λ e, row_agent e.2 ≠ a) (sessions s))).

Definition create_session_with_label (s : Store) (fault : option str) (a : AgentId) (l : option str)
    (fresh : SessionId) (now : str) : Store * result Session str :=
  let x := mkSession fresh a [] 0 l in
  match save_session s fault x now with (s, Ok _) => (s, Ok x) | (s, Err e) => (s, Err e) end.

Definition create_session s fault a fresh now := create_session_with_label s fault a None fresh now.

Definition relabel (l : option str) (now : str) (r : SessionRow) : SessionRow :=
  mkRow (row_agent r) (row_messages r) (row_tokens r) l (created_at r) now.

Definition set_session_label (s : Store) (fault : option str) (i : SessionId) (l : option str) (now : str)
    : Store * result unit str :=
  executed s fault (λ s, with_sessions s (alter (relabel l now) i (sessions s))).

(** [LIMIT 1]: the first row in the order the engine visits them. *)
Definition find_session_by_label (order : gmap SessionId SessionRow → list (SessionId * SessionRow)) (s : Store)
    (fault : option str) (a : AgentId) (l : str) : result (option Session) str :=
  queried fault
    ((λ e, session_of e.1 e.2) <$>
     List.find (λ e, bool_decide (row_agent e.2 = a) && bool_decide (row_label e.2 = Some l)) (order (sessions s))).

(** ** The canonical session *)

Definition DEFAULT_CANONICAL_WINDOW : nat := 50.
Definition DEFAULT_COMPACTION_THRESHOLD : nat := 100.

Definition load_canonical (s : Store) (fault : option str) (a : AgentId) (now : str) : result CanonicalSession str :=
  queried fault (default (mkCanonical [] 0 None now) (canonical_sessions s !! a)).

Definition save_canonical (s : Store) (fault : option str) (a : AgentId) (c : CanonicalSession) : Store * result unit str :=
  executed s fault (λ s, with_canonical s (<[a := c]> (canonical_sessions s))).

Definition role_name (r : Role) : str :=
  lit match r with User => "User" | Assistant => "Assistant" | System => "System" end.

(** The line of a message in the summary; a long text is cut at 200 bytes. *)
Definition summary_line (m : Message Value) : option (list str) :=
  let text := text_content (content m) in
  if is_empty text then Some []
  else
    truncated ← (if 200 <? length text then t ← slice_to text 200; Some (t ++ lit "...") else Some text);
    Some [role_name (role m) ++ lit ": " ++ truncated].

(** The summary, of which the last 4000 bytes are kept. *)
Definition build_summary (existing : option str) (compacting : list (Message Value)) : option str :=
  lines ← mapM summary_line compacting;
  let full := join (option_list existing ++ concat lines) [newline] in
  if 4000 <? length full then slice_from full (length full - 4000) else Some full.

Definition compact_canonical (c : CanonicalSession) (threshold : nat) : option CanonicalSession :=
  let ms := canonical_messages c in
  if threshold <? length ms then
    let to_compact := length ms - DEFAULT_CANONICAL_WINDOW in
    if compaction_cursor c <? to_compact then
      summary ← build_summary (compacted_summary c)
                  (take (to_compact - compaction_cursor c) (drop (compaction_cursor c) ms));
      Some (mkCanonical (drop to_compact ms) 0 (Some summary) (canonical_updated c))
    else Some c
  else Some c.

(** [faults] are those of reading and of writing. *)
Definition append_canonical (s : Store) (faults : option str * option str) (a : AgentId)
    (new_messages : list (Message Value)) (compaction_threshold : option nat) (now : str)
    : option (Store * result CanonicalSession str) :=
  match load_canonical s faults.1 a now with
  | Err e => Some (s, Err e)
  | Ok c =>
      let c := mkCanonical (canonical_messages c ++ new_messages) (compaction_cursor c) (compacted_summary c)
                 (canonical_updated c) in
      c ← compact_canonical c (default DEFAULT_COMPACTION_THRESHOLD compaction_threshold);
      let c := mkCanonical (canonical_messages c) (compaction_cursor c) (compacted_summary c) now in
      match save_canonical s faults.2 a c with
      | (s, Ok _) => Some (s, Ok c)
      | (s, Err e) => Some (s, Err e)
      end
  end.

Definition canonical_context (s : Store) (fault : option str) (a : AgentId) (window_size : option nat) (now : str)
    : result (option str * list (Message Value)) str :=
  match load_canonical s fault a now with
  | Err e => Err e
  | Ok c =>
      let window := default DEFAULT_CANONICAL_WINDOW window_size in
      Ok (compacted_summary c, drop (length (canonical_messages c) - window) (canonical_messages c))
  end.

Definition store_llm_summary (s : Store) (faults : option str * option str) (a : AgentId) (summary : str)
    (kept : list (Message Value)) (now : str) : Store * result unit str :=
  match load_canonical s faults.1 a now with
  | Err e => (s, Err e)
  | Ok _ => save_canonical s faults.2 a (mkCanonical kept 0 (Some summary) now)
  end.

(** ** The mirror *)

Inductive ToolPart : Type :=
| UsePart (id name : str) (input : Value)
| ResultPart (tool_use_id content : str) (is_error : bool).

Record JsonlLine : Type := mkLine {
  line_timestamp : str;
  line_role : str;
  line_content : str;
  line_tool_use : option (list ToolPart)
}.

Definition lower_role (r : Role) : str := lit match r with User => "user" | Assistant => "assistant" | System => "system" end.

(** The text and the tool parts of a block. *)
Definition mirror_block (b : ContentBlock Value) : option (list str * list ToolPart) :=
  match b with
  | TextBlock text => Some ([text], [])
  | ToolUse id name input => Some ([], [UsePart id name input])
  | ToolResult id content is_error => Some ([], [ResultPart id content is_error])
  | Image media_type _ => Some ([lit "[image: " ++ media_type ++ lit "]"], [])
  | Thinking thinking =>
      t ← slice_to thinking (Nat.min (length thinking) 200);
      Some ([lit "[thinking: " ++ t ++ lit "]"], [])
  | Unknown => Some ([], [])
  end.

Definition mirror_message (now : str) (m : Message Value) : option JsonlLine :=
  parts ← match content m with
          | Text t => Some [([t], [])]
          | Blocks blocks => mapM mirror_block blocks
          end;
  let tools := concat parts.*2 in
  Some (mkLine now (lower_role (role m)) (join (concat parts.*1) [newline])
          match tools with [] => None | _ => Some tools end).

(** The lines written to [<session>.jsonl]. *)
Definition write_jsonl_mirror (x : Session) (now : str) : option (list JsonlLine) :=
  mapM (mirror_message now) (messages x).

(** ** Sessions are what was saved *)

(** A session that is saved is read back, under the owner its row has, and
    no other session changes. *)
Theorem session_saved s x now :
  let s' := (save_session s None x now).1 in
  get_session s' None (session_id x)
  = Ok (Some (mkSession (session_id x) (from_option row_agent (session_agent x) (sessions s !! session_id x))
                (messages x) (context_window_tokens x) (label x)))
  ∧ (∀ j, j ≠ session_id x → sessions s' !! j = sessions s !! j)
  ∧ canonical_sessions s' = canonical_sessions s.
Proof.
  cbn. split_and!; [|intros j Hj; by rewrite lookup_insert_ne|done].
  unfold get_session, queried. cbn [sessions with_sessions]. rewrite lookup_insert_eq. by destruct (sessions s !! session_id x).
Qed.

(** ** The canonical session stays small *)

Definition plain_message (m : Message Value) : bool := is_ascii (text_content (content m)).

Record canonical_ok (c : CanonicalSession) : Prop := {
  ok_cursor : compaction_cursor c = 0;
  ok_length : length (canonical_messages c) ≤ DEFAULT_COMPACTION_THRESHOLD;
  ok_summary : length (default [] (compacted_summary c)) ≤ 4000;
  ok_plain : is_ascii (default [] (compacted_summary c)) = true
}.

Lemma join_ascii ls sep : is_ascii sep = true → forallb is_ascii ls = true → is_ascii (join ls sep) = true.
Proof.
  intros Hs. induction ls as [|l ls IH]; [done|]. cbn [forallb]. intros [Hl Hls]%andb_true_iff.
  cbn [join]. destruct ls; [done|]. rewrite !is_ascii_app, Hl, Hs. by apply IH.
Qed.

Lemma summary_line_plain m : plain_message m = true → ∃ ls, summary_line m = Some ls ∧ forallb is_ascii ls = true.
Proof.
  unfold plain_message, summary_line. intros Hm. case_match; [eauto|].
  case_match eqn:E.
  - apply Nat.ltb_lt in E. rewrite is_ascii_slice_to by (done || lia). cbn [mbind option_bind]. eexists. split; [reflexivity|]. cbn [forallb].
    pose proof (is_ascii_take_drop _ 200 0 Hm) as Ht. rewrite drop_0 in Ht. rewrite !is_ascii_app, Ht. by destruct (role m).
  - cbn [mbind option_bind]. eexists. split; [reflexivity|]. cbn [forallb]. rewrite !is_ascii_app, Hm. by destruct (role m).
Qed.

Lemma summary_lines_plain ms :
  forallb plain_message ms = true → ∃ ls, mapM summary_line ms = Some ls ∧ forallb is_ascii (concat ls) = true.
Proof.
  induction ms as [|m ms IH]; [by exists []|]. cbn [forallb]. intros [Hm Hms]%andb_true_iff.
  destruct (summary_line_plain m Hm) as (l & El & Hl). destruct (IH Hms) as (ls & Els & Hls).
  exists (l :: ls). cbn. rewrite El. cbn. rewrite Els. split; [done|]. by rewrite forallb_app, Hl, Hls.
Qed.

Lemma build_summary_plain existing ms :
  is_ascii (default [] existing) = true → forallb plain_message ms = true →
  ∃ t, build_summary existing ms = Some t ∧ length t ≤ 4000 ∧ is_ascii t = true.
Proof.
  intros He Hms. unfold build_summary. destruct (summary_lines_plain ms Hms) as (ls & -> & Hls). cbn [mbind option_bind].
  set (full := join _ _). assert (is_ascii full = true) as Hf.
  { apply join_ascii; [done|]. rewrite forallb_app, Hls, andb_true_r. destruct existing as [t|]; [|done].
    change (is_ascii t && true = true). by rewrite andb_true_r. }
  case_match eqn:E.
  - apply Nat.ltb_lt in E. rewrite is_ascii_slice_from by (done || lia). eexists. split; [reflexivity|].
    rewrite length_drop. split; [lia|]. rewrite <-(take_ge (drop _ full) (length full)) by (rewrite length_drop; lia).
    by apply is_ascii_take_drop.
  - apply Nat.ltb_ge in E. eauto.
Qed.

Lemma compact_canonical_plain c :
  compaction_cursor c = 0 → is_ascii (default [] (compacted_summary c)) = true →
  length (default [] (compacted_summary c)) ≤ 4000 → forallb plain_message (canonical_messages c) = true →
  ∃ c', compact_canonical c DEFAULT_COMPACTION_THRESHOLD = Some c' ∧ canonical_ok c'
    ∧ canonical_messages c' = (if length (canonical_messages c) <=? DEFAULT_COMPACTION_THRESHOLD then canonical_messages c
                               else drop (length (canonical_messages c) - DEFAULT_CANONICAL_WINDOW) (canonical_messages c)).
Proof.
  intros Hcur Ha Hl Hms. unfold compact_canonical. rewrite Hcur, drop_0, Nat.sub_0_r.
  unfold DEFAULT_COMPACTION_THRESHOLD, DEFAULT_CANONICAL_WINDOW in *.
  destruct (Nat.ltb_spec 100 (length (canonical_messages c))) as [Hlt|Hge].
  - rewrite (proj2 (Nat.ltb_lt _ _)) by lia. rewrite (proj2 (Nat.leb_gt _ _)) by lia.
    destruct (build_summary_plain (compacted_summary c)
      (take (length (canonical_messages c) - 50) (canonical_messages c))) as (t & -> & Ht & Hta); [done| |].
    { rewrite forallb_forall in *. intros m Hm. apply Hms. by apply list_elem_of_In, elem_of_take in Hm as (j & Hj%list_elem_of_lookup_2%list_elem_of_In & _). }
    eexists. split; [reflexivity|]. split; [|done].
    split; cbn [compaction_cursor canonical_messages compacted_summary default]; try done.
    rewrite length_drop. unfold DEFAULT_COMPACTION_THRESHOLD. lia.
  - rewrite (proj2 (Nat.leb_le _ _)) by done. eexists. split; [reflexivity|]. split; [|done].
    split; try done.
Qed.

(** Appending messages of plain text to a canonical session always succeeds.
    The session then has all messages while they are at most a hundred, and
    the last fifty otherwise; the summary never has more than 4000 bytes; the
    sessions of other agents do not change. *)
Theorem canonical_appended s a c new_messages now :
  (canonical_sessions s !! a = Some c ∧ canonical_ok c ∧ forallb plain_message (canonical_messages c) = true
   ∨ canonical_sessions s !! a = None ∧ c = mkCanonical [] 0 None now) →
  forallb plain_message new_messages = true →
  ∃ s' c', append_canonical s (None, None) a new_messages None now = Some (s', Ok c')
    ∧ canonical_sessions s' = <[a := c']> (canonical_sessions s) ∧ sessions s' = sessions s
    ∧ canonical_ok c' ∧ forallb plain_message (canonical_messages c') = true
    ∧ let all := canonical_messages c ++ new_messages in
      canonical_messages c' = (if length all <=? DEFAULT_COMPACTION_THRESHOLD then all
                               else drop (length all - DEFAULT_CANONICAL_WINDOW) all).
Proof.
  intros Hc Hnew.
  assert (load_canonical s None a now = Ok c ∧ canonical_ok c ∧ forallb plain_message (canonical_messages c) = true)
    as (Hl & Hok & Hp).
  { unfold load_canonical, queried. destruct Hc as [(-> & ? & ?)|(-> & ->)]; [done|]. split_and!; [done| |done].
    split; cbn; unfold DEFAULT_COMPACTION_THRESHOLD; try done; lia. }
  unfold append_canonical. cbn [fst snd]. rewrite Hl.
  match goal with |- context [compact_canonical ?x _] => set (c1 := x) end.
  destruct Hok as [Hcur Hlen Hsum Hasc].
  destruct (compact_canonical_plain c1) as (c' & E & Hok' & Hms); [done|done|done|..].
  { cbn. by rewrite forallb_app, Hp, Hnew. }
  cbn [default]. rewrite E. cbn [mbind option_bind]. unfold save_canonical, executed.
  eexists _, _. split; [reflexivity|]. split_and!; try done.
  - by destruct Hok'.
  - assert (forallb plain_message (canonical_messages c ++ new_messages) = true) as Hall by by rewrite forallb_app, Hp, Hnew.
    cbn [canonical_messages]. rewrite Hms. change (canonical_messages c1) with (canonical_messages c ++ new_messages).
    destruct (length _ <=? _); [done|].
    rewrite <-(take_drop (length (canonical_messages c ++ new_messages) - DEFAULT_CANONICAL_WINDOW)
                 (canonical_messages c ++ new_messages)), forallb_app in Hall.
    by apply andb_true_iff in Hall as [_ ?].
Qed.

(** Compaction panics at a long message that has no character boundary at 200
    bytes. *)
Lemma summary_line_panics m :
  200 < length (text_content (content m)) → slice_to (text_content (content m)) 200 = None → summary_line m = None.
Proof.
  intros Hl Hs. unfold summary_line. rewrite (proj2 (Nat.ltb_lt _ _)) by done. rewrite Hs.
  destruct (text_content (content m)); [cbn in Hl; lia|done].
Qed.

(** A session of at most a hundred messages, one of the first of which is long
    and has no character boundary at byte 200, cannot be extended past a
    hundred: the append panics before it saves, so that the session stays as
    it is and every later append that crosses the limit panics too. *)
Theorem canonical_append_panics s a c new_messages threshold now k m :
  canonical_sessions s !! a = Some c → compaction_cursor c = 0 →
  let all := canonical_messages c ++ new_messages in
  default DEFAULT_COMPACTION_THRESHOLD threshold < length all →
  all !! k = Some m → k < length all - DEFAULT_CANONICAL_WINDOW →
  200 < length (text_content (content m)) → slice_to (text_content (content m)) 200 = None →
  append_canonical s (None, None) a new_messages threshold now = None.
Proof.
  cbn zeta. intros Hc Hcur Hlen Hk Hlt Hl Hs. unfold append_canonical, load_canonical, queried. cbn [fst snd].
  rewrite Hc. unfold compact_canonical. cbn [from_option id canonical_messages compaction_cursor compacted_summary].
  rewrite Hcur, drop_0, Nat.sub_0_r, (proj2 (Nat.ltb_lt _ _)), (proj2 (Nat.ltb_lt 0 _)) by lia.
  enough (mapM summary_line (take (length (canonical_messages c ++ new_messages) - DEFAULT_CANONICAL_WINDOW)
            (canonical_messages c ++ new_messages)) = None) as E by (unfold build_summary; by rewrite E).
  apply mapM_None. apply Exists_exists. exists m. split; [|by apply summary_line_panics].
  apply list_elem_of_lookup. exists k. by rewrite lookup_take_lt.
Qed.
End store.

(** ** Examples *)

Definition empty_store : Store (AgentId := nat) (SessionId := nat) (Value := unit) := mkStore ∅ ∅.

Definition said (t : str) : Message unit := mkMessage User (Text t).

(** 199 letters and a character of two bytes. *)
Definition accented : str := repeat (ascii_of_nat 97) 199 ++ [ascii_of_nat 195; ascii_of_nat 169].

Lemma canonical_appended_witness :
  ∃ s' c', append_canonical empty_store (None, None) 7 (repeat (said (lit "hello")) 101) None (lit "now") = Some (s', Ok c')
    ∧ length (canonical_messages c') = 50.
Proof.
  destruct (canonical_appended empty_store 7 (mkCanonical [] 0 None (lit "now")) (repeat (said (lit "hello")) 101) (lit "now"))
    as (s' & c' & E & _ & _ & _ & _ & Hm).
  - right. split; reflexivity.
  - vm_compute. reflexivity.
  - exists s', c'. split; [exact E|]. rewrite Hm. vm_compute. reflexivity.
Defined.

Lemma canonical_append_panics_witness :
  append_canonical
    (with_canonical empty_store {[ 7 := mkCanonical (said accented :: repeat (said (lit "hello")) 99) 0 None (lit "now") ]})
    (None, None) 7 [said (lit "hello")] None (lit "later") = None.
Proof.
  eapply (canonical_append_panics _ _ (mkCanonical (said accented :: repeat (said (lit "hello")) 99) 0 None (lit "now"))
            _ _ _ 0 (said accented)).
  - vm_compute. reflexivity.
  - reflexivity.
  - vm_compute. lia.
  - reflexivity.
  - vm_compute. lia.
  - vm_compute. lia.
  - vm_compute. reflexivity.
Defined.
