(* ===== verification/StreamChunker.v ===== *)
(** * Chunks of streamed text

    [openfang-api/src/stream_chunker.rs] and [stream_dedup.rs]: streamed text is
    buffered and sent in chunks that end where a paragraph, a line or a
    sentence ends, and chunks that were sent before can be recognised. A
    slice outside a character boundary panics, [None]. *)

From Stdlib Require Import Ascii ZArith Lia.
From stdpp Require Import base strings list.
From S2P Require Import Prelude Strs.

(** ** The chunker *)

Record StreamChunker : Type := mkChunker {
  buffer : str;
  in_code_fence : bool;
  fence_marker : str;
  min_chunk_chars : nat;
  max_chunk_chars : nat
}.

Definition new_chunker (min max : nat) : StreamChunker := mkChunker [] false [] min max.

(** [s.split_inclusive(c)] *)
Fixpoint split_inclusive (s : str) (c : ascii) : list str :=
  match s with
  | [] => []
  | d :: s' =>
      if decide (d = c) then [d] :: split_inclusive s' c
      else match split_inclusive s' c with [] => [[d]] | part :: parts => (d :: part) :: parts end
  end.

Definition fence : str := repeat (ascii_of_nat 96) 3.

Definition push_line (c : StreamChunker) (line : str) : StreamChunker :=
  let trimmed := trim line in
  let '(inside, marker) :=
    if starts_with trimmed fence then
      if in_code_fence c then
        if str_eqb trimmed fence || starts_with trimmed (fence_marker c) then (false, [])
        else (in_code_fence c, fence_marker c)
      else (true, fence)
    else (in_code_fence c, fence_marker c) in
  mkChunker (buffer c ++ line) inside marker (min_chunk_chars c) (max_chunk_chars c).

Definition push (c : StreamChunker) (text : str) : StreamChunker := foldl push_line c (split_inclusive text newline).

(** [s.rfind(p)] *)
Fixpoint rfind_str (s p : str) : option nat :=
  match s with
  | [] => if starts_with s p then Some 0 else None
  | _ :: s' => match rfind_str s' p with
               | Some n => Some (S n)
               | None => if starts_with s p then Some 0 else None
               end
  end.

Definition find_last_in_range (text pattern : str) (start stop : nat) : option (option nat) :=
  search_text ← slice text start (Nat.min stop (length text));
  Some ((λ pos, start + pos) <$> rfind_str search_text pattern).

Definition with_buffer (c : StreamChunker) (b : str) : StreamChunker :=
  mkChunker b (in_code_fence c) (fence_marker c) (min_chunk_chars c) (max_chunk_chars c).

Definition break_buffer (c : StreamChunker) (break_at : nat) : option (StreamChunker * option str) :=
  chunk ← slice_to (buffer c) break_at;
  rest ← slice_from (buffer c) break_at;
  Some (with_buffer c rest, Some chunk).

(** The patterns in the order they are looked for; each is searched from the
    right, and the break is behind it. *)
Definition break_patterns : list str :=
  [[newline; newline]; [newline]; lit ". "; lit "! "; lit "? "].

Fixpoint break_at_pattern (c : StreamChunker) (patterns : list str) : option (StreamChunker * option str) :=
  let b := buffer c in
  match patterns with
  | [] => if max_chunk_chars c <=? length b then break_buffer c (max_chunk_chars c) else Some (c, None)
  | p :: ps =>
      found ← find_last_in_range b p (min_chunk_chars c) (Nat.min (length b) (max_chunk_chars c));
      match found with
      | Some pos => break_buffer c (pos + length p)
      | None => break_at_pattern c ps
      end
  end.

(** [trim_start_matches('`')] *)
Definition without_ticks (s : str) : str := drop_while (λ c, bool_decide (c = ascii_of_nat 96)) s.

Definition try_flush (c : StreamChunker) : option (StreamChunker * option str) :=
  if length (buffer c) <? min_chunk_chars c then Some (c, None)
  else if in_code_fence c then
    if length (buffer c) <? max_chunk_chars c then Some (c, None)
    else Some (with_buffer c (fence ++ without_ticks (fence_marker c) ++ [newline]),
               Some (buffer c ++ [newline] ++ fence ++ [newline]))
  else break_at_pattern c break_patterns.

Definition flush_remaining (c : StreamChunker) : StreamChunker * option str :=
  if is_empty (buffer c) then (c, None) else (with_buffer c [], Some (buffer c)).

(** ** Duplicates *)

Definition MIN_DEDUP_LENGTH : nat := 10.
Definition DEDUP_WINDOW : nat := 50.

Record StreamDedup : Type := mkDedup { recent_chunks : list str; recent_normalized : list str }.

Definition new_dedup : StreamDedup := mkDedup [] [].

Section dedup.
(** [ch.to_lowercase().next().unwrap_or(ch)] *)
Context (lower_char : str → str).

Fixpoint normalize_from (last_was_space : bool) (cs : list str) : str :=
  match cs with
  | [] => []
  | ch :: cs =>
      if is_whitespace ch
      then (if last_was_space then [] else lit " ") ++ normalize_from true cs
      else lower_char ch ++ normalize_from false cs
  end.

Definition normalize (text : str) : str := trim (normalize_from false (chars text)).

Definition is_duplicate (d : StreamDedup) (text : str) : bool :=
  if length text <? MIN_DEDUP_LENGTH then false
  else existsb (str_eqb text) (recent_chunks d) || existsb (str_eqb (normalize text)) (recent_normalized d).

Definition evict (d : StreamDedup) : StreamDedup :=
  if DEDUP_WINDOW <=? length (recent_chunks d) then mkDedup (tail (recent_chunks d)) (tail (recent_normalized d)) else d.

Definition record_sent (d : StreamDedup) (text : str) : StreamDedup :=
  if length text <? MIN_DEDUP_LENGTH then d
  else let d := evict d in mkDedup (recent_chunks d ++ [text]) (recent_normalized d ++ [normalize text]).

Definition clear (d : StreamDedup) : StreamDedup := new_dedup.

(** What the window holds: the last fifty texts that are not short. *)
Definition long_texts (sent : list str) : list str := List.filter (λ t, MIN_DEDUP_LENGTH <=? length t) sent.
Definition window (sent : list str) : list str := drop (length (long_texts sent) - DEDUP_WINDOW) (long_texts sent).

Lemma tail_drop {A} n (l : list A) : tail (drop n l) = drop (S n) l.
Proof. revert n. induction l as [|x l IH]; intros [|n]; try done. cbn [drop]. by rewrite IH. Qed.

Lemma record_window sent t :
  record_sent (mkDedup (window sent) (normalize <$> window sent)) t
  = mkDedup (window (sent ++ [t])) (normalize <$> window (sent ++ [t])).
Proof.
  unfold record_sent, window, long_texts. rewrite List.filter_app. cbn [List.filter].
  destruct (Nat.ltb_spec (length t) MIN_DEDUP_LENGTH) as [Hs|Hl].
  - rewrite (proj2 (Nat.leb_gt _ _)) by done. by rewrite app_nil_r.
  - rewrite (proj2 (Nat.leb_le _ _)) by done. set (l := List.filter _ sent). unfold evict. cbn [recent_chunks recent_normalized].
    rewrite length_app, length_drop. cbn [length].
    destruct (Nat.leb_spec DEDUP_WINDOW (length l - (length l - DEDUP_WINDOW))) as [Hfull|Hroom];
      cbn [recent_chunks recent_normalized].
    + unfold DEDUP_WINDOW in *. rewrite (drop_app_le l) by lia. replace (length l + 1 - 50) with (S (length l - 50)) by lia.
      by rewrite fmap_app, !fmap_drop, !tail_drop.
    + unfold DEDUP_WINDOW in *. replace (length l + 1 - 50) with 0 by lia. replace (length l - 50) with 0 by lia.
      rewrite !drop_0. by rewrite fmap_app.
Qed.

(** After any texts were sent, a text is a duplicate exactly if it has at
    least ten bytes and is equal, up to case and white space, to one of the
    last fifty such texts. *)
Theorem duplicate_iff sent text :
  is_duplicate (foldl record_sent new_dedup sent) text = true ↔
  10 ≤ length text ∧ ∃ t, t ∈ window sent ∧ normalize t = normalize text.
Proof.
  assert (foldl record_sent new_dedup sent = mkDedup (window sent) (normalize <$> window sent)) as ->.
  { induction sent as [|t sent IH] using rev_ind; [done|]. by rewrite foldl_snoc, IH, record_window. }
  unfold is_duplicate. cbn [recent_chunks recent_normalized].
  destruct (Nat.ltb_spec (length text) MIN_DEDUP_LENGTH) as [Hs|Hl]; unfold MIN_DEDUP_LENGTH in *.
  { split; [done|]. intros [? _]. lia. }
  rewrite orb_true_iff, !existsb_exists. split.
  - intros [(t & Ht & E%str_eqb_spec)|(t & Ht & E%str_eqb_spec)]; apply list_elem_of_In in Ht.
    + split; [done|]. exists t. by subst.
    + apply list_elem_of_fmap in Ht as (u & -> & Hu). split; [done|]. by exists u.
  - intros (_ & t & Ht & E). right. exists (normalize t). split; [|by apply str_eqb_spec].
    apply list_elem_of_In, list_elem_of_fmap. eauto.
Qed.
End dedup.

(** ** What the chunker sends *)

Lemma concat_split_inclusive s c : concat (split_inclusive s c) = s.
Proof.
  induction s as [|d s IH]; [done|]. cbn. case_decide; cbn; [by rewrite IH|].
  destruct (split_inclusive s c) as [|p ps]; cbn in *; by rewrite <-IH.
Qed.

Lemma push_buffer c text : buffer (push c text) = buffer c ++ text.
Proof.
  unfold push. rewrite <-(concat_split_inclusive text newline) at 2. generalize (split_inclusive text newline). intros ls.
  revert c. induction ls as [|l ls IH]; intros c; cbn [foldl concat]; [by rewrite app_nil_r|].
  rewrite IH. unfold push_line. repeat case_match; cbn [buffer]; by rewrite app_assoc.
Qed.

Lemma push_limits c text :
  min_chunk_chars (push c text) = min_chunk_chars c ∧ max_chunk_chars (push c text) = max_chunk_chars c.
Proof.
  unfold push. generalize (split_inclusive text newline). intros ls. revert c.
  induction ls as [|l ls IH]; intros c; [done|]. cbn [foldl]. destruct (IH (push_line c l)) as [-> ->].
  unfold push_line. by repeat case_match.
Qed.

Lemma break_buffer_spec c n c' o :
  break_buffer c n = Some (c', o) →
  ∃ chunk, o = Some chunk ∧ buffer c = chunk ++ buffer c' ∧ chunk = take n (buffer c) ∧ n ≤ length (buffer c)
    ∧ c' = with_buffer c (buffer c').
Proof.
  unfold break_buffer. destruct (slice_to _ _) as [a|] eqn:Ea; [|done]. cbn.
  destruct (slice_from _ _) as [b|] eqn:Eb; [|done]. cbn. intros [= <- <-]. exists a.
  unfold slice_to in Ea. case_match; [|done]. injection Ea as <-.
  unfold slice_from, slice in Eb. destruct ((n <=? length (buffer c)) && _ && _ && _) eqn:E; [|done]. injection Eb as <-.
  apply andb_true_iff in E as [[[Hn%Nat.leb_le _]%andb_true_iff _]%andb_true_iff _]. cbn [buffer with_buffer].
  rewrite (take_ge (drop n _)) by (rewrite length_drop; lia). by rewrite take_drop.
Qed.

Lemma rfind_bound s p n : rfind_str s p = Some n → n + length p ≤ length s.
Proof.
  revert n. induction s as [|c s IH]; cbn [rfind_str]; intros n.
  - case_match eqn:E; [|done]. intros [= <-]. apply starts_with_spec in E as [t Ht]. destruct p; [cbn; lia|done].
  - destruct (rfind_str s p) as [k|] eqn:Ek.
    + intros [= <-]. specialize (IH k eq_refl). cbn. lia.
    + case_match eqn:E; [|done]. intros [= <-]. apply starts_with_spec in E as [t Ht].
      rewrite Ht, length_app. lia.
Qed.

Lemma find_last_bound text p start stop pos :
  find_last_in_range text p start stop = Some (Some pos) → start ≤ pos ∧ pos + length p ≤ Nat.min stop (length text).
Proof.
  unfold find_last_in_range. destruct (slice _ _ _) as [t|] eqn:Et; [|done]. cbn.
  intros [= E]. apply fmap_Some in E as (k & Ek%rfind_bound & ->). unfold slice in Et.
  destruct ((start <=? _) && _ && _ && _) eqn:Eb; [|done]. injection Et as <-.
  apply andb_true_iff in Eb as [[[Hs%Nat.leb_le _]%andb_true_iff _]%andb_true_iff _].
  rewrite length_take in Ek. lia.
Qed.

(** A break at a pattern: nothing, or a chunk within the limits that is cut
    off the front of the buffer. *)
Lemma break_at_pattern_spec c ps c' o :
  min_chunk_chars c ≤ max_chunk_chars c → break_at_pattern c ps = Some (c', o) →
  match o with
  | None => c' = c ∧ length (buffer c) < max_chunk_chars c
  | Some chunk => buffer c = chunk ++ buffer c' ∧ min_chunk_chars c ≤ length chunk ≤ max_chunk_chars c
                  ∧ c' = with_buffer c (buffer c')
  end.
Proof.
  intros Hm. induction ps as [|p ps IH]; cbn [break_at_pattern].
  - destruct (Nat.leb_spec (max_chunk_chars c) (length (buffer c))) as [Hle|Hlt]; [|intros [= <- <-]; by split].
    intros (chunk & -> & Hb & Hc & Hn & Hw)%break_buffer_spec. split_and!; [done| | |done]; rewrite Hc, length_take; lia.
  - destruct (find_last_in_range _ _ _ _) as [[pos|]|] eqn:Ef; cbn; [|done..].
    apply find_last_bound in Ef as [Hlo Hhi].
    intros (chunk & -> & Hb & Hc & Hn & Hw)%break_buffer_spec. split_and!; [done| | |done]; rewrite Hc, length_take; lia.
Qed.

(** A sequence of operations, with the chunks sent. *)
Inductive chunk_op : Type := Push (text : str) | TryFlush | FlushRemaining.

Definition chunk_step (c : StreamChunker) (o : chunk_op) : option (StreamChunker * option str) :=
  match o with
  | Push text => Some (push c text, None)
  | TryFlush => try_flush c
  | FlushRemaining => Some (flush_remaining c)
  end.

Fixpoint run_chunker (c : StreamChunker) (os : list chunk_op) : option (StreamChunker * list str) :=
  match os with
  | [] => Some (c, [])
  | o :: os =>
      '(c, sent) ← chunk_step c o;
      '(c, more) ← run_chunker c os;
      Some (c, option_list sent ++ more)
  end.

Definition pushed (o : chunk_op) : str := match o with Push text => text | _ => [] end.

(** The text with fences closed and opened again at some places. *)
Definition fence_break (marker : str) : str := [newline] ++ fence ++ [newline] ++ fence ++ marker ++ [newline].

Inductive refenced : str → str → Prop :=
| refenced_nil : refenced [] []
| refenced_char c s t : refenced s t → refenced (c :: s) (c :: t)
| refenced_break s t : refenced s t → refenced s (fence_break [] ++ t).

Lemma refenced_refl s : refenced s s.
Proof. induction s; by constructor. Qed.

Lemma refenced_app s s' t t' : refenced s t → refenced s' t' → refenced (s ++ s') (t ++ t').
Proof.
  intros H. revert s' t'. induction H as [|c s t _ IH|s t _ IH]; intros s' t' H'; [done| |].
  - cbn. constructor. by apply IH.
  - rewrite <-app_assoc. constructor. by apply IH.
Qed.

(** The marker of an open fence is the bare fence. *)
Definition marker_ok (c : StreamChunker) : Prop := fence_marker c = if in_code_fence c then fence else [].

Lemma push_marker c text : marker_ok c → marker_ok (push c text).
Proof.
  unfold push. generalize (split_inclusive text newline). intros ls. revert c.
  induction ls as [|l ls IH]; intros c Hc; [done|]. cbn [foldl]. apply IH. unfold marker_ok, push_line in *.
  destruct (starts_with (trim l) fence) eqn:Es; cbn [fence_marker in_code_fence]; [|done].
  destruct (in_code_fence c) eqn:Ei; [|done]. rewrite Hc, Es, orb_true_r. done.
Qed.

(** A flush sends the front of the text that is left, perhaps with a fence
    closed and opened again behind it. *)
Lemma try_flush_spec c c' o :
  min_chunk_chars c ≤ max_chunk_chars c → marker_ok c → try_flush c = Some (c', o) →
  marker_ok c' ∧ min_chunk_chars c' ≤ max_chunk_chars c'
  ∧ (default [] o ++ buffer c' = buffer c ∨ in_code_fence c = true ∧ default [] o ++ buffer c' = buffer c ++ fence_break []).
Proof.
  intros Hm Hk. unfold try_flush. case_match; [intros [= <- <-]; by split_and!; [| |left]|].
  destruct (in_code_fence c) eqn:Ei.
  - case_match; intros [= <- <-]; [by split_and!; [| |left]|].
    split_and!; [done|done|right]. split; [done|]. cbn [default buffer with_buffer]. unfold marker_ok in Hk.
    rewrite Ei in Hk. rewrite Hk. unfold fence_break. cbn [from_option id]. rewrite <-!app_assoc. reflexivity.
  - intros Hb. apply break_at_pattern_spec in Hb; [|done]. destruct o as [chunk|].
    + destruct Hb as (-> & _ & ->). split_and!; [|done|by left]. unfold marker_ok in *. by cbn.
    + destruct Hb as [-> _]. split_and!; [done|done|by left].
Qed.

Lemma run_chunker_refenced c os c' sent pre out :
  min_chunk_chars c ≤ max_chunk_chars c → marker_ok c → refenced pre (out ++ buffer c) →
  run_chunker c os = Some (c', sent) →
  refenced (pre ++ concat (pushed <$> os)) (out ++ concat sent ++ buffer c').
Proof.
  revert c pre out sent. induction os as [|o os IH]; intros c pre out sent Hm Hk Hr; cbn [run_chunker].
  { intros [= <- <-]. by rewrite app_nil_r. }
  destruct (chunk_step c o) as [[c1 s1]|] eqn:E1; [|done]. cbn [mbind option_bind].
  destruct (run_chunker c1 os) as [[c2 s2]|] eqn:E2; [|done]. cbn [mbind option_bind]. intros [= <- <-].
  assert (marker_ok c1 ∧ min_chunk_chars c1 ≤ max_chunk_chars c1 ∧
          refenced (pre ++ pushed o) ((out ++ default [] s1) ++ buffer c1)) as (Hk1 & Hm1 & Hr1).
  { destruct o as [text| |]; cbn [chunk_step pushed] in *.
    - injection E1 as <- <-. destruct (push_limits c text) as [-> ->]. split_and!; [by apply push_marker|done|].
      cbn. rewrite app_nil_r, push_buffer, app_assoc. apply refenced_app; [done|apply refenced_refl].
    - apply try_flush_spec in E1 as (? & ? & E1); [|done..]. split_and!; [done..|]. rewrite app_nil_r, <-app_assoc.
      destruct E1 as [->|[_ ->]]; [done|]. rewrite app_assoc, <-(app_nil_r pre). apply refenced_app; [done|].
      rewrite <-(app_nil_r (fence_break [])). by do 2 constructor.
    - unfold flush_remaining in E1. destruct (buffer c) eqn:Eb; cbn in E1; injection E1 as <- <-;
        cbn; rewrite ?app_nil_r in *; rewrite ?Eb, ?app_nil_r; done. }
  pose proof (IH _ _ _ _ Hm1 Hk1 Hr1 E2) as IHr. rewrite fmap_cons. cbn [concat].
  rewrite <-!app_assoc in IHr. by destruct s1; cbn in *; rewrite <-?app_assoc.
Qed.

(** Whatever is pushed and flushed, the chunks sent and the text still in the
    buffer are, in order, the text that was pushed, with code fences closed and
    opened again at some places and nothing else added, lost or moved. *)
Theorem chunks_in_order min max os c' sent :
  min ≤ max → run_chunker (new_chunker min max) os = Some (c', sent) →
  refenced (concat (pushed <$> os)) (concat sent ++ buffer c').
Proof.
  intros Hm Hr. exact (run_chunker_refenced (new_chunker min max) os c' sent [] [] Hm eq_refl refenced_nil Hr).
Qed.

(** Outside code fences a chunk is within the limits. *)
Theorem chunk_within_limits c c' chunk :
  min_chunk_chars c ≤ max_chunk_chars c → in_code_fence c = false → try_flush c = Some (c', Some chunk) →
  min_chunk_chars c ≤ length chunk ≤ max_chunk_chars c ∧ buffer c = chunk ++ buffer c'.
Proof.
  intros Hm Hf. unfold try_flush. rewrite Hf. case_match; [done|]. intros Hb. apply break_at_pattern_spec in Hb; [|done].
  tauto.
Qed.

(** ** Flushing all there is *)

(** The loop [while let Some(chunk) = chunker.try_flush()]. *)
Fixpoint drain (fuel : nat) (c : StreamChunker) : option (StreamChunker * list str) :=
  match fuel with
  | 0 => Some (c, [])
  | S fuel =>
      '(c, sent) ← try_flush c;
      match sent with
      | None => Some (c, [])
      | Some chunk => '(c, more) ← drain fuel c; Some (c, chunk :: more)
      end
  end.

Lemma break_buffer_ascii c n :
  is_ascii (buffer c) = true → n ≤ length (buffer c) → is_Some (break_buffer c n).
Proof.
  intros Ha Hn. unfold break_buffer. rewrite is_ascii_slice_to by done. cbn [mbind option_bind].
  rewrite is_ascii_slice_from by done. eauto.
Qed.

Lemma try_flush_ascii c :
  is_ascii (buffer c) = true → min_chunk_chars c ≤ max_chunk_chars c → is_Some (try_flush c).
Proof.
  intros Ha Hm. unfold try_flush. destruct (Nat.ltb_spec (length (buffer c)) (min_chunk_chars c)) as [|Hge]; [eauto|].
  destruct (in_code_fence c); [case_match; eauto|]. induction break_patterns as [|p ps IH]; cbn [break_at_pattern].
  - destruct (Nat.leb_spec (max_chunk_chars c) (length (buffer c))); [by apply break_buffer_ascii|eauto].
  - destruct (find_last_in_range _ _ _ _) as [[pos|]|] eqn:Ef; cbn [mbind option_bind]; [|done|].
    + apply find_last_bound in Ef as [? ?]. apply break_buffer_ascii; [done|lia].
    + exfalso. unfold find_last_in_range in Ef. rewrite is_ascii_slice in Ef by (done || lia). done.
Qed.

(** With ASCII text outside a code fence, flushing until nothing comes ends
    after at most as many rounds as the buffer has bytes, with less than the
    upper limit left. *)
Theorem drain_complete c :
  is_ascii (buffer c) = true → in_code_fence c = false → 0 < min_chunk_chars c ≤ max_chunk_chars c →
  ∃ c' sent, drain (S (length (buffer c))) c = Some (c', sent) ∧ try_flush c' = Some (c', None)
    ∧ concat sent ++ buffer c' = buffer c ∧ length (buffer c') < max_chunk_chars c.
Proof.
  intros Ha Hf Hm. remember (S (length (buffer c))) as fuel eqn:Hfuel.
  assert (length (buffer c) < fuel) as Hlt by lia. clear Hfuel.
  revert c Ha Hf Hm Hlt. induction fuel as [|fuel IH]; intros c Ha Hf Hm Hlt; [lia|]. cbn [drain].
  destruct (try_flush_ascii c Ha ltac:(lia)) as [[c1 [chunk|]] Et]; rewrite Et; cbn [mbind option_bind].
  - pose proof Et as Eb. unfold try_flush in Eb. rewrite Hf in Eb. case_match; [done|].
    apply break_at_pattern_spec in Eb as (Hb & Hl & Hw); [|lia].
    destruct (IH c1) as (c' & sent & -> & Hd & Hcat & Hmax).
    + rewrite Hb, is_ascii_app in Ha. by apply andb_true_iff in Ha as [_ ?].
    + by rewrite Hw.
    + by rewrite Hw.
    + rewrite Hb, length_app in Hlt. lia.
    + exists c', (chunk :: sent). cbn. split_and!; [done|done| |by rewrite Hw in Hmax].
      by rewrite Hb, <-app_assoc, Hcat.
  - pose proof Et as Eb. unfold try_flush in Eb. rewrite Hf in Eb.
    exists c, []. destruct (Nat.ltb_spec (length (buffer c)) (min_chunk_chars c)).
    + injection Eb as <-. split_and!; [done|done|done|lia].
    + apply break_at_pattern_spec in Eb as [-> ?]; [|lia]. done.
Qed.

(** ** Panics *)

(** Outside a code fence a flush panics as soon as the byte at the lower limit
    is inside a character. *)
Theorem flush_panics c x :
  in_code_fence c = false → 0 < min_chunk_chars c → buffer c !! min_chunk_chars c = Some x → is_continuation x = true →
  try_flush c = None.
Proof.
  intros Hf Hm Hx Hc. pose proof (lookup_lt_Some _ _ _ Hx) as Hl. unfold try_flush.
  rewrite Hf, (proj2 (Nat.ltb_ge _ _)) by lia. cbn [break_at_pattern break_patterns].
  unfold find_last_in_range, slice. 
  assert (is_char_boundary (buffer c) (min_chunk_chars c) = false) as ->.
  { unfold is_char_boundary. rewrite (proj2 (Nat.eqb_neq _ 0)), (proj2 (Nat.eqb_neq _ (length _))) by lia.
    by rewrite Hx, Hc. }
  by rewrite andb_false_r.
Qed.

(** ** Examples *)

Definition tick_line : str := fence ++ [newline].

Abbreviation three_ops := [Push (lit "One. Two. Three"); TryFlush; FlushRemaining].
Abbreviation three := (push (new_chunker 4 12) (lit "One. Two. Three")).

Lemma three_run : ∃ c', run_chunker (new_chunker 4 12) three_ops = Some (c', [lit "One. Two. "; lit "Three"]).
Proof. eexists. vm_compute. reflexivity. Qed.

Lemma three_flush : ∃ c', try_flush three = Some (c', Some (lit "One. Two. ")).
Proof. eexists. vm_compute. reflexivity. Qed.

Lemma chunks_in_order_witness :
  ∃ c' sent, run_chunker (new_chunker 4 12) three_ops = Some (c', sent)
    ∧ refenced (concat (pushed <$> three_ops)) (concat sent ++ buffer c').
Proof.
  destruct three_run as [c' E]. exists c', [lit "One. Two. "; lit "Three"].
  exact (conj E (chunks_in_order 4 12 three_ops c' _ ltac:(lia) E)).
Defined.

Lemma chunk_within_limits_witness :
  ∃ c' chunk, try_flush three = Some (c', Some chunk) ∧ 4 ≤ length chunk ≤ 12.
Proof.
  destruct three_flush as [c' E]. exists c', (lit "One. Two. ").
  exact (conj E (proj1 (chunk_within_limits three c' _ ltac:(vm_compute; lia) ltac:(vm_compute; reflexivity) E))).
Defined.

Lemma drain_complete_witness :
  ∃ c' sent, drain (S (length (buffer three))) three = Some (c', sent) ∧ concat sent ++ buffer c' = buffer three.
Proof.
  destruct (drain_complete three) as (c' & sent & E & _ & Hc & _);
    [vm_compute; reflexivity|vm_compute; reflexivity|vm_compute; lia|].
  exists c', sent. exact (conj E Hc).
Defined.

Lemma flush_panics_witness :
  try_flush (push (new_chunker 4 12) (lit "cafe" ++ [ascii_of_nat 169; ascii_of_nat 33])) = None.
Proof.
  eapply (flush_panics _ (ascii_of_nat 169));
    [vm_compute; reflexivity|vm_compute; lia|vm_compute; reflexivity|vm_compute; reflexivity].
Defined.

(** A piece of text that ends in the middle of a line can look like a fence. *)
Example split_fence_missed :
  in_code_fence (push (push (new_chunker 1 9) (lit "``")) (lit "`rust")) = false.
Proof. vm_compute. reflexivity. Qed.

(** Where the limits are small a forced break in a fence never ends. *)
Example endless_fence :
  let c := mkChunker tick_line true fence 1 4 in
  push (new_chunker 1 4) tick_line = c ∧ try_flush c = Some (c, Some (tick_line ++ [newline] ++ tick_line)).
Proof. vm_compute. split; reflexivity. Qed.
