(* ===== verification/DockerSandbox.v ===== *)
(** * Containers for commands of agents

    [openfang-runtime/src/docker_sandbox.rs] and [tool_docker_exec] of
    [tool_runner.rs]: a command of an agent is run in a container that is made
    for it and removed after it. The [docker] program is a parameter: [docker n
    args] is the outcome of call number [n] of an operation. A handler returns
    the calls it made, and [None] if it panicked. [docker_call] adds the
    timeout of the agent loop, which can drop the tool while it waits for any
    of these calls. *)

From Stdlib Require Import Ascii ZArith Lia SpecFloat.
From stdpp Require Import base gmap strings list.
From S2P Require Import Prelude Strs Json WorkspaceSandbox WasmHost.

Inductive DockerSandboxMode : Type := Off | NonMain | All.
Inductive DockerScope : Type := SessionScope | AgentScope | SharedScope.

Record DockerSandboxConfig : Type := mkDocker {
  enabled : bool;
  image : str;
  container_prefix : str;
  workdir : str;
  network : str;
  memory_limit : str;
  cpu_limit : spec_float;
  timeout_secs : Z;
  read_only_root : bool;
  cap_add : list str;
  tmpfs : list str;
  pids_limit : Z;
  mode : DockerSandboxMode;
  scope : DockerScope;
  reuse_cool_secs : Z;
  idle_timeout_secs : Z;
  max_age_secs : Z;
  blocked_mounts : list str
}.

Definition default_docker (cpu_1 : spec_float) : DockerSandboxConfig :=
  mkDocker false (lit "python:3.12-slim") (lit "openfang-sandbox") (lit "/workspace") (lit "none") (lit "512m") cpu_1 60
    true [] [lit "/tmp:size=64m"] 100 Off SessionScope 300 86400 604800 [].

Record SandboxContainer : Type := mkContainer { container_id : str; agent_id : str; created_at : Z }.

Record ExecResult : Type := mkExec { exec_stdout : str; exec_stderr : str; exec_code : Z }.

(** ** Validation *)

Section names.
Context `{UnicodeAlnum}.

Definition name_char (c : str) : str := if is_alphanumeric c || str_eqb c (lit "-") then c else lit "-".

Definition sanitize_container_name (name : str) : result str str :=
  let sanitized := concat (name_char <$> chars name) in
  if is_empty sanitized then Err (lit "Container name cannot be empty")
  else if 63 <? length sanitized then Err (lit "Container name too long (max 63 chars)")
  else Ok sanitized.

Definition image_char (c : str) : bool := is_alphanumeric c || contains (lit ".:/-_") c.

Definition validate_image_name (image : str) : result unit str :=
  if is_empty image then Err (lit "Docker image name cannot be empty")
  else if negb (forallb image_char (chars image)) then Err (lit "Invalid Docker image name: " ++ image)
  else Ok tt.

Definition capability_name (cap : str) : bool := forallb (λ c, is_alphanumeric c || str_eqb c (lit "_")) (chars cap).
End names.

Definition dangerous_patterns : list str := [lit "`"; lit "$("; lit "${"].

Definition dash : str := bytes [32; 226; 128; 148; 32].

Definition validate_command (command : str) : result unit str :=
  if is_empty command then Err (lit "Command cannot be empty")
  else
    match List.find (contains command) dangerous_patterns with
    | Some pattern =>
        Err (lit "Command contains disallowed pattern '" ++ pattern ++ lit "'" ++ dash ++ lit "potential injection")
    | None => Ok tt
    end.

(** ** Containers *)

Record DockerOutput : Type := mkDockerOutput { succeeded : bool; out : str; err : str; code : option Z }.

Section containers.
Context `{UnicodeAlnum} (show_f64 : spec_float → str).
Context (docker : nat → list str → result DockerOutput str).

Abbreviation calls := (list (list str)).

Definition version_args : list str := [lit "version"; lit "--format"; lit "{{.Server.Version}}"].

Definition is_docker_available (n : nat) : calls * bool :=
  ([version_args], match docker n version_args with Ok o => succeeded o | Err _ => false end).

(** The arguments of [docker run]. *)
Definition run_args (config : DockerSandboxConfig) (name workspace : str) : list str :=
  [lit "run"; lit "-d"; lit "--name"; name; lit "--memory"; memory_limit config; lit "--cpus"; show_f64 (cpu_limit config);
   lit "--pids-limit"; show_Z (pids_limit config); lit "--cap-drop"; lit "ALL"; lit "--security-opt"; lit "no-new-privileges"]
  ++ concat ((λ cap, if capability_name cap then [lit "--cap-add"; cap] else []) <$> cap_add config)
  ++ (if read_only_root config then [lit "--read-only"] else [])
  ++ [lit "--network"; network config]
  ++ concat ((λ mount, [lit "--tmpfs"; mount]) <$> tmpfs config)
  ++ [lit "-v"; workspace ++ lit ":" ++ workdir config ++ lit ":ro"; lit "-w"; workdir config; image config; lit "sleep"; lit "infinity"].

Definition container_name (config : DockerSandboxConfig) (agent_id : str) : option (result str str) :=
  short ← slice_to agent_id (Nat.min (length agent_id) 8);
  Some (sanitize_container_name (container_prefix config ++ lit "-" ++ short)).

Definition create_sandbox (n : nat) (config : DockerSandboxConfig) (agent_id workspace : str) (now : Z)
    : calls * option (result SandboxContainer str) :=
  match validate_image_name (image config) with
  | Err e => ([], Some (Err e))
  | Ok _ =>
      match container_name config agent_id with
      | None => ([], None)
      | Some (Err e) => ([], Some (Err e))
      | Some (Ok name) =>
          let args := run_args config name workspace in
          ([args], Some match docker n args with
                        | Err e => Err (lit "Failed to run docker: " ++ e)
                        | Ok o => if succeeded o then Ok (mkContainer (trim (out o)) agent_id now)
                                  else Err (lit "Docker create failed: " ++ trim (err o))
                        end)
      end
  end.

Definition exec_args (container : SandboxContainer) (command : str) : list str :=
  [lit "exec"; container_id container; lit "sh"; lit "-c"; command].

Definition max_output : nat := Z.to_nat 50000.

Definition truncated (s : str) : option str :=
  if max_output <? length s then
    t ← slice_to s max_output; Some (t ++ lit "... [truncated, " ++ show_nat (length s) ++ lit " total bytes]")
  else Some s.

(** [in_time]: the command ends before the timeout. *)
Definition exec_in_sandbox (n : nat) (in_time : bool) (container : SandboxContainer) (command : str) (timeout : Z)
    : calls * option (result ExecResult str) :=
  match validate_command command with
  | Err e => ([], Some (Err e))
  | Ok _ =>
      let args := exec_args container command in
      ([args],
       if negb in_time then Some (Err (lit "Docker exec timed out after " ++ show_Z timeout ++ lit "s"))
       else match docker n args with
            | Err e => Some (Err (lit "Docker exec failed: " ++ e))
            | Ok o =>
                stdout ← truncated (out o);
                stderr ← truncated (err o);
                Some (Ok (mkExec stdout stderr (default (-1)%Z (code o))))
            end)
  end.

Definition rm_args (container : SandboxContainer) : list str := [lit "rm"; lit "-f"; container_id container].

Definition destroy_sandbox (n : nat) (container : SandboxContainer) : calls * result unit str :=
  ([rm_args container],
   match docker n (rm_args container) with Err e => Err (lit "Failed to destroy container: " ++ e) | Ok _ => Ok tt end).

(** ** The tool *)

Context (to_string_pretty : Json → result str str).

Definition docker_response (r : ExecResult) (container : SandboxContainer) : Json :=
  JObj [(lit "exit_code", JNum (exec_code r)); (lit "stdout", JStr (exec_stdout r)); (lit "stderr", JStr (exec_stderr r));
        (lit "container_id", JStr (container_id container))].

Definition run_in_container (config : DockerSandboxConfig) (container : SandboxContainer) (command : str) (in_time : bool)
    : calls * option (result str str) :=
  match exec_in_sandbox 2 in_time container command (timeout_secs config) with
  | (calls, None) => (calls, None)
  | (calls, Some result) =>
      let '(more, _) := destroy_sandbox 3 container in
      (calls ++ more,
       Some match result with
            | Err e => Err e
            | Ok r => match to_string_pretty (docker_response r container) with
                      | Ok s => Ok s
                      | Err e => Err (lit "Serialize error: " ++ e)
                      end
            end)
  end.

Definition tool_docker_exec (input : Json) (docker_config : option DockerSandboxConfig) (workspace_root caller_agent_id : option str)
    (now : Z) (in_time : bool) : calls * option (result str str) :=
  match docker_config with
  | None => ([], Some (Err (lit "Docker sandbox not configured")))
  | Some config =>
      if negb (enabled config)
      then ([], Some (Err (lit "Docker sandbox is disabled. Set docker.enabled=true in config.")))
      else
        match text_param input "command", workspace_root with
        | None, _ => ([], Some (Err (lit "Missing 'command' parameter")))
        | Some _, None => ([], Some (Err (lit "Docker exec requires a workspace directory")))
        | Some command, Some workspace =>
            let '(calls0, available) := is_docker_available 0 in
            if negb available
            then (calls0, Some (Err (lit "Docker is not available on this system. Install Docker to use docker_exec.")))
            else
              match create_sandbox 1 config (default (lit "default") caller_agent_id) workspace now with
              | (calls, None) => (calls0 ++ calls, None)
              | (calls, Some (Err e)) => (calls0 ++ calls, Some (Err e))
              | (calls, Some (Ok container)) =>
                  let '(more, r) := run_in_container config container command in_time in
                  (calls0 ++ calls ++ more, r)
              end
        end
  end.

(** How a call of the tool ends: with a result, by a panic, or dropped by the
    timeout that [run_agent_loop] puts around [execute_tool]. *)
Inductive Ending : Type :=
| Finished (r : result str str)
| Panicked
| Dropped.

(** [dropped_at = Some k]: the timeout fires while call [k] of [docker] is
    awaited, if the tool makes so many. That process is not killed. *)
Definition docker_call (input : Json) (docker_config : option DockerSandboxConfig)
    (workspace_root caller_agent_id : option str) (now : Z) (in_time : bool) (dropped_at : option nat)
    : calls * Ending :=
  let '(calls, r) := tool_docker_exec input docker_config workspace_root caller_agent_id now in_time in
  let ended := (calls, match r with Some r => Finished r | None => Panicked end) in
  match dropped_at with
  | Some k => if k <? length calls then (take (S k) calls, Dropped) else ended
  | None => ended
  end.

(** ** Containers are removed *)

Lemma validate_command_ok command :
  validate_command command = Ok tt ↔ command ≠ [] ∧ Forall (λ p, contains command p = false) dangerous_patterns.
Proof.
  unfold validate_command. destruct command as [|c s]; [by split; [|intros []]|]. cbn [is_empty].
  destruct (List.find _ _) as [p|] eqn:E.
  - split; [done|]. intros [_ Hf]. apply find_some in E as [Hin Hp]. apply list_elem_of_In in Hin.
    rewrite Forall_forall in Hf. rewrite Hf in Hp; done.
  - split; [|done]. intros _. split; [done|]. apply Forall_forall. intros p Hp.
    apply (List.find_none _ _ E), list_elem_of_In, Hp.
Qed.

(** What happens to a container that was made: the command is run in it if it
    is not empty and has none of the patterns, and then it is removed. *)
Definition container_calls (container : SandboxContainer) (command : str) : calls :=
  match validate_command command with Ok _ => [exec_args container command] | Err _ => [] end ++ [rm_args container].

Lemma run_in_container_calls config container command in_time calls r :
  run_in_container config container command in_time = (calls, r) →
  calls `prefix_of` container_calls container command ∧
  (is_Some r → calls = container_calls container command).
Proof.
  unfold run_in_container, exec_in_sandbox, container_calls.
  destruct (validate_command command) as [[]|e]; [|by intros [= <- _]].
  destruct in_time; cbn [negb]; [|by intros [= <- _]]. destruct (docker 2 _) as [o|e]; [|by intros [= <- _]].
  destruct (truncated (out o)); [destruct (truncated (err o))|]; intros [= <- <-]; cbn; try done;
    (split; [by exists [rm_args container]|by intros []]).
Qed.

(** The container that [docker run] says it has started. *)
Definition started (o : result DockerOutput str) : option str :=
  match o with Ok o => if succeeded o then Some (trim (out o)) else None | Err _ => None end.

Lemma tool_docker_exec_calls input docker_config workspace_root caller now in_time calls r :
  tool_docker_exec input docker_config workspace_root caller now in_time = (calls, r) →
  calls `prefix_of` [version_args] ∨
  ∃ config name workspace command,
    docker_config = Some config ∧ workspace_root = Some workspace ∧ text_param input "command" = Some command ∧
    let run := run_args config name workspace in
    match started (docker 1 run) with
    | Some id =>
        let container := mkContainer id (default (lit "default") caller) now in
        ∃ more, calls = [version_args; run] ++ more ∧ more `prefix_of` container_calls container command ∧
          (is_Some r → more = container_calls container command)
    | None => calls = [version_args; run]
    end.
Proof.
  assert ([] `prefix_of` [version_args]) as Hnil by (by exists [version_args]).
  unfold tool_docker_exec. destruct docker_config as [config|]; [|intros [= <- _]; by left].
  case_match; [intros [= <- _]; by left|]. destruct (text_param input "command") as [command|]; [|intros [= <- _]; by left].
  destruct workspace_root as [workspace|]; [|intros [= <- _]; by left]. cbn [is_docker_available].
  case_match; [intros [= <- _]; by left|]. unfold create_sandbox.
  destruct (validate_image_name _); [|intros [= <- _]; by left].
  destruct (container_name _ _) as [[name|e]|]; [|intros [= <- _]; by left..].
  intros Hr. right. exists config, name, workspace, command. split_and!; [done..|]. cbn zeta. unfold started.
  destruct (docker 1 _) as [o|e]; [|by injection Hr as <- _]. destruct (succeeded o); [|by injection Hr as <- _].
  destruct (run_in_container _ _ _ _) as [more r'] eqn:Er. apply run_in_container_calls in Er as [? ?].
  injection Hr as <- <-. by exists more.
Qed.

Lemma docker_call_calls input docker_config workspace_root caller now in_time dropped_at calls e :
  docker_call input docker_config workspace_root caller now in_time dropped_at = (calls, e) →
  calls `prefix_of` [version_args] ∨
  ∃ config name workspace command,
    docker_config = Some config ∧ workspace_root = Some workspace ∧ text_param input "command" = Some command ∧
    let run := run_args config name workspace in
    match started (docker 1 run) with
    | Some id =>
        let container := mkContainer id (default (lit "default") caller) now in
        ∃ more, calls = [version_args; run] ++ more ∧ more `prefix_of` container_calls container command ∧
          (∀ r, e = Finished r → more = container_calls container command)
    | None => calls = [version_args; run]
    end.
Proof.
  unfold docker_call. destruct (tool_docker_exec _ _ _ _ _ _) as [all r] eqn:Et.
  apply tool_docker_exec_calls in Et.
  intros Hd. assert (calls = all ∧ (∀ x, e = Finished x → is_Some r) ∨
    ∃ k, calls = take (S k) all ∧ e = Dropped) as [[-> Hr]|(k & -> & ->)].
  { destruct dropped_at as [k|]; [case_match|]; simplify_eq/=; [right; by exists k|left..]; (split; [done|]);
      intros x; destruct r; by eauto. }
  - destruct Et as [?|(config & name & workspace & command & ? & ? & ? & Hc)]; [by left|right].
    exists config, name, workspace, command. split_and!; [done..|]. cbn zeta in *.
    destruct (started _); [|done]. destruct Hc as (more & ? & ? & Hf). exists more. eauto.
  - destruct Et as [Ha|(config & name & workspace & command & H1 & H2 & H3 & Hc)].
    { left. etrans; [apply prefix_take|done]. }
    destruct k as [|k].
    { left. cbn zeta in Hc. destruct (started _); [destruct Hc as (more & -> & _)|subst all]; done. }
    right. exists config, name, workspace, command. split_and!; [done..|]. cbn zeta in *.
    destruct (started _); [|subst all; by destruct k]. destruct Hc as (more & -> & Hp & _).
    exists (take k more). split; [done|]. split; [|done]. etrans; [apply prefix_take|done].
Qed.

(** *** What is left on the host

    [made args] is the container that the call of [docker run] with [args]
    leaves on the host, also if it fails; when it succeeds it has printed it. *)
Section host.
Context (made : list str → option str)
        (made_printed : ∀ args id, started (docker 1 args) = Some id → made args = Some id).

Definition left_behind (calls : calls) : option str :=
  id ← calls !! 1 ≫= made;
  if decide ([lit "rm"; lit "-f"; id] ∈ calls) then None else Some id.

Lemma container_rm container command : rm_args container ∈ container_calls container command.
Proof. apply elem_of_app. right. by left. Qed.

Lemma left_behind_run config name workspace more id :
  made (run_args config name workspace) = Some id →
  left_behind ([version_args; run_args config name workspace] ++ more) =
  if decide ([lit "rm"; lit "-f"; id] ∈ more) then None else Some id.
Proof.
  intros Hm. unfold left_behind. cbn [lookup list_lookup app]. cbn [mbind option_bind]. rewrite Hm.
  cbn [mbind option_bind]. apply decide_ext. rewrite !elem_of_cons. split; [|auto].
  intros [Hx|[Hx|Hx]]; [discriminate Hx|discriminate Hx|done].
Qed.

End host.

(** The panic: output that is long and has no character boundary at the limit
    leaves the container running. *)
Theorem long_output_leaks input config workspace caller now command name o0 o1 o2 c :
  enabled config = true → text_param input "command" = Some command → validate_command command = Ok tt →
  validate_image_name (image config) = Ok tt → container_name config (default (lit "default") caller) = Some (Ok name) →
  docker 0 version_args = Ok o0 → succeeded o0 = true →
  docker 1 (run_args config name workspace) = Ok o1 → succeeded o1 = true →
  let container := mkContainer (trim (out o1)) (default (lit "default") caller) now in
  docker 2 (exec_args container command) = Ok o2 → out o2 !! max_output = Some c → is_continuation c = true →
  tool_docker_exec input (Some config) (Some workspace) caller now true
  = ([version_args; run_args config name workspace; exec_args container command], None).
Proof.
  intros He Hc Hv Hi Hn H0 Hs0 H1 Hs1 container H2 Hx Hcont. unfold tool_docker_exec.
  rewrite He, Hc. cbn [negb is_docker_available]. rewrite H0, Hs0. cbn [negb]. unfold create_sandbox.
  rewrite Hi, Hn, H1, Hs1. unfold run_in_container, exec_in_sandbox. rewrite Hv. cbn [negb]. fold container. rewrite H2.
  enough (truncated (out o2) = None) as -> by done.
  pose proof (lookup_lt_Some _ _ _ Hx) as Hl. unfold truncated. rewrite (proj2 (Nat.ltb_lt _ _)) by done.
  enough (slice_to (out o2) max_output = None) as -> by done.
  unfold slice_to, is_char_boundary. rewrite Hx, Hcont.
  assert (max_output ≠ 0) by (unfold max_output; lia).
  by rewrite (proj2 (Nat.eqb_neq _ 0)), (proj2 (Nat.eqb_neq _ (length _))) by lia.
Qed.

End containers.

(** ** The pool *)

Record PoolEntry : Type := mkPoolEntry { container : SandboxContainer; entry_hash : Z; last_used : Z; created : Z }.

Abbreviation ContainerPool := (gmap str PoolEntry).

Section pool.
(** The order in which the pool is visited, and the hash. *)
Context (order : ContainerPool → list (str * PoolEntry)) (hash : str * str * str * str → Z).

Definition config_hash (config : DockerSandboxConfig) : Z :=
  hash (image config, network config, memory_limit config, workdir config).

Definition usable (config_hash cool_secs now : Z) (e : PoolEntry) : bool :=
  (entry_hash e =? config_hash)%Z && (cool_secs <=? now - last_used e)%Z.

(** Times in whole seconds. *)
Definition acquire (p : ContainerPool) (config_hash cool_secs now : Z) : ContainerPool * option SandboxContainer :=
  match List.find (λ e, usable config_hash cool_secs now e.2) (order p) with
  | Some (key, e) => (delete key p, Some (container e))
  | None => (p, None)
  end.

Definition release (p : ContainerPool) (c : SandboxContainer) (config_hash now : Z) : ContainerPool :=
  <[container_id c := mkPoolEntry c config_hash now now]> p.

Definition stale (idle_timeout_secs max_age_secs now : Z) (e : PoolEntry) : bool :=
  (idle_timeout_secs <? now - last_used e)%Z || (max_age_secs <? now - created e)%Z.

(** The containers destroyed, in the order of the pool. *)
Definition cleanup (p : ContainerPool) (idle_timeout_secs max_age_secs now : Z) : ContainerPool * list SandboxContainer :=
  let to_remove := List.filter (λ e, stale idle_timeout_secs max_age_secs now e.2) (order p) in
  (foldl (λ p e, delete e.1 p) p to_remove, (λ e, container e.2) <$> to_remove).

Inductive pool_op : Type :=
| Acquire (hash cool now : Z)
| Release (c : SandboxContainer) (hash now : Z)
| Cleanup (idle age now : Z).

Definition pool_step (p : ContainerPool) (o : pool_op) : ContainerPool :=
  match o with
  | Acquire h cool now => (acquire p h cool now).1
  | Release c h now => release p c h now
  | Cleanup idle age now => (cleanup p idle age now).1
  end.

Definition keyed (p : ContainerPool) : Prop := ∀ k e, p !! k = Some e → container_id (container e) = k.

Lemma foldl_delete_lookup (l : list (str * PoolEntry)) (p : ContainerPool) k :
  foldl (λ p e, delete e.1 p) p l !! k = if bool_decide (k ∈ l.*1) then None else p !! k.
Proof.
  revert p. induction l as [|[x e] l IH]; intros p; cbn [foldl fst]; [done|]. rewrite IH, fmap_cons. cbn [fst].
  destruct (decide (k ∈ l.*1)).
  - rewrite !bool_decide_eq_true_2; [done| |done]. by right.
  - rewrite (bool_decide_eq_false_2 (k ∈ l.*1)) by done. destruct (decide (k = x)) as [->|].
    + rewrite bool_decide_eq_true_2 by left. apply lookup_delete_eq.
    + rewrite bool_decide_eq_false_2; [by rewrite lookup_delete_ne|]. intros [?|?]%elem_of_cons; done.
Qed.

Lemma pool_keyed ops : keyed (foldl pool_step ∅ ops).
Proof.
  induction ops as [|o ops IH] using rev_ind; [intros k e; cbn [foldl]; by rewrite lookup_empty|]. rewrite foldl_snoc.
  set (p := foldl pool_step ∅ ops) in *. destruct o as [h cool now|c h now|idle age now]; cbn [pool_step].
  - unfold acquire. destruct (List.find _ _) as [[key e]|]; [|done]. intros k e'. cbn [fst]. intros [_ Hk]%lookup_delete_Some. by apply IH.
  - intros k e'. unfold release. intros [[<- <-]|[_ ?]]%lookup_insert_Some; [done|]. by apply IH.
  - intros k e'. cbn [cleanup fst]. rewrite foldl_delete_lookup. case_bool_decide; [done|]. apply IH.
Qed.

Context (order_perm : ∀ p, order p ≡ₚ map_to_list p).

(** After any operations, a container taken from the pool was in it with the
    hash asked for and for the time asked for, and is in it no more; a cleanup
    leaves exactly the containers that are neither idle nor old and destroys
    the others. *)
Theorem pool_exclusive ops wanted cool now idle age :
  let p := foldl pool_step ∅ ops in
  match acquire p wanted cool now with
  | (p', Some c) => p' = delete (container_id c) p
                    ∧ ∃ e, p !! container_id c = Some e ∧ container e = c ∧ usable wanted cool now e = true
  | (p', None) => p' = p ∧ ∀ k e, p !! k = Some e → usable wanted cool now e = false
  end
  ∧ ∀ k, (cleanup p idle age now).1 !! k = p !! k ≫= λ e, if stale idle age now e then None else Some e.
Proof.
  intros p. pose proof (pool_keyed ops) as Hk. fold p in Hk. split.
  - unfold acquire. destruct (List.find _ _) as [[key e]|] eqn:E.
    + apply find_some in E as [Hin%list_elem_of_In Hu]. rewrite order_perm, elem_of_map_to_list in Hin.
      rewrite (Hk _ _ Hin). split; [done|]. by exists e.
    + split; [done|]. intros k e He. apply (List.find_none _ _ E (k, e)), list_elem_of_In. rewrite order_perm.
      by apply elem_of_map_to_list.
  - intros k. cbn [cleanup fst]. rewrite foldl_delete_lookup. case_bool_decide as Hin.
    + apply list_elem_of_fmap in Hin as ([k' e] & -> & [Hin Hs]%list_elem_of_In%List.filter_In). cbn [fst snd] in *.
      apply list_elem_of_In in Hin. rewrite order_perm, elem_of_map_to_list in Hin. rewrite Hin. cbn. by rewrite Hs.
    + destruct (p !! k) as [e|] eqn:Ee; [|done]. cbn. destruct (stale idle age now e) eqn:Es; [|done]. exfalso. apply Hin.
      apply list_elem_of_fmap. exists (k, e). split; [done|]. apply list_elem_of_In, List.filter_In. split; [|done].
      apply list_elem_of_In. rewrite order_perm. by apply elem_of_map_to_list.
Qed.
End pool.

(** ** Bind mounts *)

Definition BLOCKED_MOUNT_PATHS : list str :=
  lit <$> ["/etc"; "/proc"; "/sys"; "/dev"; "/var/run/docker.sock"; "/root"; "/boot"]%string.

Definition arrow : str := bytes [32; 226; 134; 146; 32].

Section mounts.
Context (path_exists : str → bool) (canonicalize : str → result str str).

Definition first_prefix (path : str) (blocked : list str) : option str := List.find (starts_with path) blocked.

Definition validate_bind_mount (path : str) (blocked : list str) : result unit str :=
  if negb (is_absolute path) then Err (lit "Bind mount path must be absolute: " ++ path)
  else if climbs path then Err (lit "Bind mount path contains '..': " ++ path)
  else
    match first_prefix path BLOCKED_MOUNT_PATHS, first_prefix path blocked with
    | Some p, _ => Err (lit "Bind mount to '" ++ p ++ lit "' is blocked for security")
    | None, Some p => Err (lit "Bind mount to '" ++ p ++ lit "' is blocked by configuration")
    | None, None =>
        if path_exists path then
          match canonicalize path with
          | Ok canonical =>
              match first_prefix canonical BLOCKED_MOUNT_PATHS with
              | Some _ => Err (lit "Bind mount resolves to blocked path via symlink: " ++ path ++ arrow ++ canonical)
              | None => Ok tt
              end
          | Err _ => Ok tt
          end
        else Ok tt
    end.

Lemma first_prefix_none path l : first_prefix path l = None ↔ Forall (λ p, starts_with path p = false) l.
Proof.
  unfold first_prefix. rewrite Forall_forall. split.
  - intros E p Hp. apply (List.find_none _ _ E), list_elem_of_In, Hp.
  - intros Hf. destruct (List.find _ _) as [p|] eqn:E; [|done]. apply find_some in E as [Hin Hp].
    rewrite Hf in Hp; [done|by apply list_elem_of_In].
Qed.

(** A mount is accepted exactly if its path is absolute without [..], starts
    with no blocked path of the program or the configuration, and, where it
    exists and can be resolved, does not resolve to one of the program's. *)
Theorem bind_mount_accepted path blocked :
  validate_bind_mount path blocked = Ok tt ↔
  is_absolute path = true ∧ climbs path = false
  ∧ Forall (λ p, starts_with path p = false) (BLOCKED_MOUNT_PATHS ++ blocked)
  ∧ (∀ canonical, path_exists path = true → canonicalize path = Ok canonical →
       Forall (λ p, starts_with canonical p = false) BLOCKED_MOUNT_PATHS).
Proof.
  rewrite Forall_app, <-!first_prefix_none. setoid_rewrite <-first_prefix_none. unfold validate_bind_mount.
  destruct (is_absolute path); [|naive_solver]. destruct (climbs path); [naive_solver|].
  destruct (first_prefix path BLOCKED_MOUNT_PATHS); [naive_solver|]. destruct (first_prefix path blocked); [naive_solver|].
  destruct (path_exists path); [|naive_solver]. destruct (canonicalize path) as [canonical|]; [|naive_solver].
  destruct (first_prefix canonical BLOCKED_MOUNT_PATHS) eqn:E; naive_solver.
Qed.
End mounts.

(** ** Examples *)

(** The root of the host may be mounted, and a directory blocked in the
    configuration through a link. *)
Example root_mountable :
  validate_bind_mount (λ _, true) Ok (lit "/") [lit "/secret"] = Ok tt
  ∧ validate_bind_mount (λ _, true) (λ _, Ok (lit "/secret")) (lit "/tmp/link") [lit "/secret"] = Ok tt.
Proof. split; vm_compute; reflexivity. Qed.

(** A directory whose name begins like a blocked one is refused. *)
Example etcetera_refused : validate_bind_mount (λ _, false) Ok (lit "/etcetera") [] ≠ Ok tt.
Proof. vm_compute. discriminate. Qed.

(** An image name may be an option of docker. *)
Example image_is_option : validate_image_name (lit "--privileged") = Ok tt.
Proof. vm_compute. reflexivity. Qed.

Definition demo_docker (n : nat) (args : list str) : result DockerOutput str :=
  Ok (mkDockerOutput true (lit "abc") [] (Some 0%Z)).

Definition demo_config : DockerSandboxConfig :=
  mkDocker true (lit "alpine") (lit "box") (lit "/w") (lit "none") (lit "1g") (S754_zero false) 60 true [] [] 10 All
    SessionScope 0 0 0 [].

Abbreviation demo_input := (JObj [(lit "command", JStr (lit "ls"))]).
Abbreviation demo_exec docker := (tool_docker_exec (λ _, lit "1") docker (λ _, Ok (lit "{}")) demo_input (Some demo_config)
  (Some (lit "/home")) (Some (lit "agent")) 0 true).

Lemma demo_exec_run : ∃ calls, demo_exec demo_docker = (calls, Some (Ok (lit "{}"))) ∧ last calls = Some [lit "rm"; lit "-f"; lit "abc"].
Proof. eexists. vm_compute. split; reflexivity. Qed.

(** What [demo_docker] says it has made. *)
Definition demo_made (args : list str) : option str := Some (lit "abc").

Abbreviation demo_call dropped_at := (docker_call (λ _, lit "1") demo_docker (λ _, Ok (lit "{}")) demo_input
  (Some demo_config) (Some (lit "/home")) (Some (lit "agent")) 0 true dropped_at).

(** A call that is dropped while the command runs leaves the container. *)
Example dropped_leaves : left_behind demo_made (demo_call (Some 2)).1 = Some (lit "abc").
Proof. vm_compute. reflexivity. Qed.

(** So does a [docker run] that fails after it has made the container. *)
Example failed_run_leaves :
  let docker (n : nat) (args : list str) :=
    Ok (mkDockerOutput (n =? 0) [] (lit "cannot start") (Some 125%Z)) in
  left_behind demo_made (demo_exec docker).1 = Some (lit "abc")
  ∧ (demo_exec docker).2 = Some (Err (lit "Docker create failed: cannot start")).
Proof. split; vm_compute; reflexivity. Qed.


(** A command whose output is long and not ASCII. *)
Definition verbose_docker (n : nat) (args : list str) : result DockerOutput str :=
  match n with
  | 2 => Ok (mkDockerOutput true (replicate (S max_output) (ascii_of_nat 169)) [] (Some 0%Z))
  | _ => Ok (mkDockerOutput true (lit "abc") [] (Some 0%Z))
  end.

Lemma verbose_at_limit : replicate (S max_output) (ascii_of_nat 169) !! max_output = Some (ascii_of_nat 169).
Proof. apply lookup_replicate_2. lia. Qed.

Lemma long_output_leaks_witness :
  (demo_exec verbose_docker).2 = None ∧ [lit "rm"; lit "-f"; lit "abc"] ∉ (demo_exec verbose_docker).1.
Proof.
  rewrite (long_output_leaks (λ _, lit "1") verbose_docker (λ _, Ok (lit "{}")) demo_input demo_config (lit "/home") (Some (lit "agent"))
    0 (lit "ls") (lit "box-agent") (mkDockerOutput true (lit "abc") [] (Some 0%Z)) (mkDockerOutput true (lit "abc") [] (Some 0%Z))
    (mkDockerOutput true (replicate (S max_output) (ascii_of_nat 169)) [] (Some 0%Z)) (ascii_of_nat 169));
    first [exact verbose_at_limit | reflexivity | idtac].
  split; [reflexivity|]. apply (bool_decide_unpack _). vm_compute. exact I.
Defined.

Lemma pool_exclusive_witness :
  let p := foldl (pool_step map_to_list) ∅ [Release (mkContainer (lit "a") [] 0) 7 0] in
  acquire map_to_list p 7 0 5 = (∅, Some (mkContainer (lit "a") [] 0))
  ∧ match acquire map_to_list p 7 0 5 with
    | (p', Some c) => p' = delete (container_id c) p
                      ∧ ∃ e, p !! container_id c = Some e ∧ container e = c ∧ usable 7 0 5 e = true
    | (p', None) => p' = p ∧ ∀ k e, p !! k = Some e → usable 7 0 5 e = false
    end.
Proof.
  split; [vm_compute; reflexivity|].
  exact (proj1 (pool_exclusive map_to_list (λ p, reflexivity (map_to_list p)) [Release (mkContainer (lit "a") [] 0) 7 0] 7 0 5 0 0)).
Defined.
