(* ===== verification/ProcessManager.v ===== *)
(** * Long-running processes of agents

    [openfang-runtime/src/process_manager.rs] and the process tools of
    [tool_runner.rs]. The operating system is a parameter: whether a process
    can be spawned, whether its input takes data, and what it prints. Lines
    arrive in the background, [print_line]. Times are in whole seconds. *)

From Stdlib Require Import Ascii ZArith Lia.
From stdpp Require Import base gmap strings list fin_maps.
From S2P Require Import Prelude Strs Json WasmHost.

Record ManagedProcess : Type := mkProcess {
  has_stdin : bool;
  stdout_buf : list str;
  stderr_buf : list str;
  alive : bool;
  owner : str;
  process_command : str;
  started_at : Z
}.

Record ProcessInfo : Type := mkInfo {
  info_id : str;
  info_agent : str;
  info_command : str;
  info_alive : bool;
  uptime_secs : Z
}.

Record ProcessManager : Type := mkManager {
  processes : gmap str ManagedProcess;
  max_per_agent : nat;
  next_id : Z
}.

Definition new_manager (max_per_agent : nat) : ProcessManager := mkManager ∅ max_per_agent 1.
Definition default_manager : ProcessManager := new_manager 5.

Definition with_processes (m : ProcessManager) (p : gmap str ManagedProcess) : ProcessManager :=
  mkManager p (max_per_agent m) (next_id m).

Definition not_found (process_id : str) : str := lit "Process '" ++ process_id ++ lit "' not found".

(** ** Starting *)

Definition owned (agent : str) (p : gmap str ManagedProcess) : gmap str ManagedProcess := filter (λ e, owner e.2 = agent) p.

Definition agent_count (m : ProcessManager) (agent : str) : nat := size (owned agent (processes m)).

Definition check_limit (m : ProcessManager) (agent : str) : result unit str :=
  if max_per_agent m <=? agent_count m agent
  then Err (lit "Agent '" ++ agent ++ lit "' already has " ++ show_nat (agent_count m agent) ++ lit " processes (max: "
            ++ show_nat (max_per_agent m) ++ lit ")")
  else Ok tt.

Definition process_name (n : Z) : str := lit "proc_" ++ show_Z n.

Definition cmd_display (command : str) (args : list str) : str :=
  match args with [] => command | _ => command ++ lit " " ++ join args (lit " ") end.

(** The process is up: it gets an id and is kept. [piped] is whether its input
    could be taken. *)
Definition add_process (m : ProcessManager) (agent command : str) (args : list str) (piped : bool) (now : Z)
    : ProcessManager * str :=
  let id := process_name (next_id m) in
  (mkManager (<[id := mkProcess piped [] [] true agent (cmd_display command args) now]> (processes m)) (max_per_agent m)
     (wrapping_add_u64 (next_id m) 1), id).

Definition start (m : ProcessManager) (agent command : str) (args : list str) (spawned : result bool str) (now : Z)
    : ProcessManager * result str str :=
  match check_limit m agent with
  | Err e => (m, Err e)
  | Ok _ =>
      match spawned with
      | Err e => (m, Err (lit "Failed to start process '" ++ command ++ lit "': " ++ e))
      | Ok piped => let '(m, id) := add_process m agent command args piped now in (m, Ok id)
      end
  end.

(** ** Output *)

(** A line that arrives; at a thousand lines the oldest hundred go. *)
Definition push_line (b : list str) (line : str) : list str :=
  (if 1000 <=? length b then drop 100 b else b) ++ [line].

Definition on_stdout (line : str) (p : ManagedProcess) : ManagedProcess :=
  mkProcess (has_stdin p) (push_line (stdout_buf p) line) (stderr_buf p) (alive p) (owner p) (process_command p) (started_at p).
Definition on_stderr (line : str) (p : ManagedProcess) : ManagedProcess :=
  mkProcess (has_stdin p) (stdout_buf p) (push_line (stderr_buf p) line) (alive p) (owner p) (process_command p) (started_at p).
Definition drained (p : ManagedProcess) : ManagedProcess :=
  mkProcess (has_stdin p) [] [] (alive p) (owner p) (process_command p) (started_at p).

Definition print_line (m : ProcessManager) (id : str) (err : bool) (line : str) : ProcessManager :=
  with_processes m (alter (if err then on_stderr line else on_stdout line) id (processes m)).

Definition read (m : ProcessManager) (id : str) : ProcessManager * result (list str * list str) str :=
  match processes m !! id with
  | None => (m, Err (not_found id))
  | Some p => (with_processes m (<[id := drained p]> (processes m)), Ok (stdout_buf p, stderr_buf p))
  end.

(** ** Input, listing and killing *)

(** The data sent, and the answer; [accepted] is what the pipe says. *)
Definition write (m : ProcessManager) (id data : str) (accepted : result unit str) : option str * result unit str :=
  match processes m !! id with
  | None => (None, Err (not_found id))
  | Some p => if has_stdin p then (Some data, accepted) else (None, Err (lit "Process stdin is closed"))
  end.

Definition kill (m : ProcessManager) (id : str) : ProcessManager * result unit str :=
  match processes m !! id with
  | None => (m, Err (not_found id))
  | Some _ => (with_processes m (delete id (processes m)), Ok tt)
  end.

Definition info_of (now : Z) (e : str * ManagedProcess) : ProcessInfo :=
  mkInfo e.1 (owner e.2) (process_command e.2) (alive e.2) (now - started_at e.2)%Z.

Definition list_processes (order : gmap str ManagedProcess → list (str * ManagedProcess)) (m : ProcessManager) (agent : str)
    (now : Z) : list ProcessInfo :=
  info_of now <$> List.filter (λ e, str_eqb (owner e.2) agent) (order (processes m)).

Definition cleanup (order : gmap str ManagedProcess → list (str * ManagedProcess)) (m : ProcessManager) (max_age_secs now : Z)
    : ProcessManager :=
  let to_remove := fst <$> List.filter (λ e, (max_age_secs <? now - started_at e.2)%Z) (order (processes m)) in
  foldl (λ m id, (kill m id).1) m to_remove.

(** ** The tools *)

Section tools.
Context (to_string : Json → str).

Definition string_args (input : Json) : list str :=
  match get input (lit "args") ≫= as_array with Some l => omap as_str l | None => [] end.

Definition no_manager : str := lit "Process manager not available".
Definition missing_text (key : string) : str := lit "Missing '" ++ lit key ++ lit "' parameter".

Definition tool_process_start (input : Json) (pm : option ProcessManager) (caller : option str) (spawned : result bool str)
    (now : Z) : option ProcessManager * result str str :=
  match pm, text_param input "command" with
  | None, _ => (None, Err no_manager)
  | Some m, None => (Some m, Err (missing_text "command"))
  | Some m, Some command =>
      let '(m, r) := start m (default (lit "default") caller) command (string_args input) spawned now in
      (Some m, match r with
               | Ok id => Ok (to_string (JObj [(lit "process_id", JStr id); (lit "status", JStr (lit "started"))]))
               | Err e => Err e
               end)
  end.

Definition tool_process_poll (input : Json) (pm : option ProcessManager) : option ProcessManager * result str str :=
  match pm, text_param input "process_id" with
  | None, _ => (None, Err no_manager)
  | Some m, None => (Some m, Err (missing_text "process_id"))
  | Some m, Some id =>
      let '(m, r) := read m id in
      (Some m, match r with
               | Ok (o, e) => Ok (to_string (JObj [(lit "stdout", JArr (JStr <$> o)); (lit "stderr", JArr (JStr <$> e))]))
               | Err e => Err e
               end)
  end.

Definition with_newline (data : str) : str := if ends_with data [newline] then data else data ++ [newline].

Definition quote : str := [ascii_of_nat 34].
Definition status_text (s : string) : str := lit "{" ++ quote ++ lit "status" ++ quote ++ lit ": " ++ quote ++ lit s ++ quote ++ lit "}".

Definition tool_process_write (input : Json) (pm : option ProcessManager) (accepted : result unit str)
    : option str * result str str :=
  match pm, text_param input "process_id", text_param input "data" with
  | None, _, _ => (None, Err no_manager)
  | Some _, None, _ => (None, Err (missing_text "process_id"))
  | Some _, Some _, None => (None, Err (missing_text "data"))
  | Some m, Some id, Some data =>
      let '(sent, r) := write m id (with_newline data) accepted in
      (sent, match r with Ok _ => Ok (status_text "written") | Err e => Err e end)
  end.

Definition tool_process_kill (input : Json) (pm : option ProcessManager) : option ProcessManager * result str str :=
  match pm, text_param input "process_id" with
  | None, _ => (None, Err no_manager)
  | Some m, None => (Some m, Err (missing_text "process_id"))
  | Some m, Some id =>
      let '(m, r) := kill m id in (Some m, match r with Ok _ => Ok (status_text "killed") | Err e => Err e end)
  end.

Definition tool_process_list (order : gmap str ManagedProcess → list (str * ManagedProcess)) (pm : option ProcessManager)
    (caller : option str) (now : Z) : result str str :=
  match pm with
  | None => Err no_manager
  | Some m =>
      Ok (to_string (JArr ((λ p, JObj [(lit "id", JStr (info_id p)); (lit "command", JStr (info_command p));
                                       (lit "alive", JBool (info_alive p)); (lit "uptime_secs", JNum (uptime_secs p))])
                           <$> list_processes order m (default (lit "default") caller) now)))
  end.
End tools.

(** ** Limits *)

Inductive process_op : Type :=
| Start (agent command : str) (args : list str) (spawned : result bool str) (now : Z)
| Print (id : str) (err : bool) (line : str)
| Read (id : str)
| Kill (id : str)
| Cleanup (max_age now : Z).

Definition process_step (m : ProcessManager) (o : process_op) : ProcessManager :=
  match o with
  | Start agent command args spawned now => (start m agent command args spawned now).1
  | Print id err line => print_line m id err line
  | Read id => (read m id).1
  | Kill id => (kill m id).1
  | Cleanup max_age now => cleanup map_to_list m max_age now
  end.

Record within_limits (m : ProcessManager) : Prop := {
  agents_within : ∀ agent, agent_count m agent ≤ max_per_agent m;
  buffers_within : ∀ id p, processes m !! id = Some p → length (stdout_buf p) ≤ 1000 ∧ length (stderr_buf p) ≤ 1000
}.

Lemma push_line_bound b line : length b ≤ 1000 → length (push_line b line) ≤ 1000.
Proof.
  intros Hb. unfold push_line. destruct (Nat.leb_spec 1000 (length b)); rewrite length_app, ?length_drop; cbn [length]; lia.
Qed.

Lemma owned_insert_size agent id p m :
  size (owned agent (<[id := p]> m)) ≤ size (owned agent m) + (if decide (owner p = agent) then 1 else 0).
Proof.
  unfold owned. destruct (decide (owner p = agent)) as [Ho|Ho].
  - rewrite map_filter_insert_True by done. rewrite map_size_insert. case_match; simpl; lia.
  - rewrite map_filter_insert_False, map_filter_delete, map_size_delete by done. case_match; simpl; lia.
Qed.

(** A change of one process that leaves its owner. *)
Lemma owned_update_size agent id p p' m :
  m !! id = Some p → owner p' = owner p → size (owned agent (<[id := p']> m)) = size (owned agent m).
Proof.
  intros Hp Ho. unfold owned. destruct (decide (owner p = agent)) as [Ha|Ha].
  - rewrite map_filter_insert_True by (cbn; congruence). rewrite map_size_insert.
    by rewrite (proj2 (map_lookup_filter_Some (λ e, owner e.2 = agent) m id p)).
  - rewrite map_filter_insert_False, map_filter_delete, map_size_delete by (cbn; congruence).
    rewrite (proj2 (map_lookup_filter_None (λ e, owner e.2 = agent) m id)); [done|]. right. intros q Hq. by simplify_eq.
Qed.

Lemma kill_within m id : within_limits m → within_limits (kill m id).1.
Proof.
  intros [Ha Hb]. unfold kill. destruct (processes m !! id) eqn:E; [|done]. split; cbn.
  - intros agent. unfold agent_count, owned. cbn. rewrite map_filter_delete, map_size_delete. specialize (Ha agent).
    unfold agent_count, owned in Ha. case_match; simpl; lia.
  - intros k p [_ Hk]%lookup_delete_Some. by apply (Hb k).
Qed.

Lemma update_within m id p p' :
  within_limits m → processes m !! id = Some p → owner p' = owner p → length (stdout_buf p') ≤ 1000 →
  length (stderr_buf p') ≤ 1000 → within_limits (with_processes m (<[id := p']> (processes m))).
Proof.
  intros [Ha Hb] Hp Ho H1 H2. split; cbn.
  - intros agent. unfold agent_count. cbn. rewrite (owned_update_size _ _ p) by done. apply Ha.
  - intros k q [[<- <-]|[_ Hk]]%lookup_insert_Some; [done|]. by apply (Hb k).
Qed.

Lemma step_within m o : within_limits m → within_limits (process_step m o).
Proof.
  intros Hm. destruct o as [agent command args spawned now|id err line|id|id|max_age now]; cbn [process_step].
  - unfold start, check_limit. destruct (Nat.leb_spec (max_per_agent m) (agent_count m agent)) as [|Hlt]; [done|].
    destruct spawned as [piped|]; [|done]. destruct Hm as [Ha Hb]. cbn. split; cbn.
    + intros a. unfold agent_count. cbn [processes].
      pose proof (owned_insert_size a (process_name (next_id m)) (mkProcess piped [] [] true agent (cmd_display command args) now)
        (processes m)) as Hs. cbn [owner] in Hs. specialize (Ha a). unfold agent_count in *.
      change (size (owned a (<[process_name (next_id m) := mkProcess piped [] [] true agent (cmd_display command args) now]>
        (processes m))) ≤ max_per_agent m). destruct (decide (agent = a)) as [->|]; lia.
    + intros k q [[<- <-]|[_ Hk]]%lookup_insert_Some; [cbn; lia|]. by apply (Hb k).
  - unfold print_line. destruct (processes m !! id) as [p|] eqn:Ep.
    + pose proof (buffers_within m Hm id p Ep) as [H1 H2].
      rewrite (alter_alt_Some _ _ _ p) by done.
      destruct err; apply (update_within m id p); cbn [owner stdout_buf stderr_buf on_stdout on_stderr]; auto using push_line_bound.
    + rewrite alter_id by (intros x Hx; congruence). by destruct m.
  - unfold read. destruct (processes m !! id) as [p|] eqn:Ep; [|done]. cbn.
    eapply update_within; [done|done|done|cbn; lia..].
  - by apply kill_within.
  - unfold cleanup. generalize (fst <$> List.filter (λ e, (max_age <? now - started_at e.2)%Z) (map_to_list (processes m))).
    intros l. revert m Hm. induction l as [|id l IH]; intros m Hm; [done|]. cbn [foldl]. by apply IH, kill_within.
Qed.

(** If starting a process is one step, an agent never has more processes than
    the limit; no buffer ever has more than a thousand lines. *)
Theorem process_limits max ops : within_limits (foldl process_step (new_manager max) ops).
Proof.
  induction ops as [|o ops IH] using rev_ind; [|rewrite foldl_snoc; by apply step_within]. split; cbn.
  - intros agent. unfold agent_count, owned. cbn. rewrite map_filter_empty, map_size_empty. lia.
  - intros id p. by rewrite lookup_empty.
Qed.

(** What is read is the newest output: all of it up to a thousand lines, and
    always at least the last 901. *)
Theorem buffer_keeps_newest lines :
  let b := foldl push_line [] lines in
  b `suffix_of` lines ∧ Nat.min (length lines) 901 ≤ length b ≤ 1000 ∧ (length lines ≤ 1000 → b = lines).
Proof.
  cbn zeta. induction lines as [|line lines IH] using rev_ind; [by split_and!; [| |cbn; lia|]|].
  rewrite foldl_snoc. set (b := foldl push_line [] lines) in *. destruct IH as ([k Hk] & [Hlo Hhi] & Hall).
  unfold push_line. rewrite length_app. cbn [length]. destruct (Nat.leb_spec 1000 (length b)) as [Hf|Hf].
  - rewrite length_app, length_drop. cbn [length]. split_and!; [|lia|lia|].
    + exists (k ++ take 100 b). rewrite Hk at 1. by rewrite <-!app_assoc, (app_assoc (take 100 b)), take_drop.
    + intros Hle. rewrite Hall in Hf by lia. lia.
  - rewrite length_app. cbn [length]. split_and!; [|lia|lia|].
    + exists k. by rewrite Hk at 1; rewrite app_assoc.
    + intros Hle. by rewrite Hall by lia.
Qed.

(** ** What is not checked *)

(** Two starts that both look at the count before either has added its
    process go over the limit. *)
Example starts_race :
  let m := new_manager 1 in
  check_limit m (lit "a") = Ok tt ∧ check_limit m (lit "a") = Ok tt ∧
  agent_count (add_process (add_process m (lit "a") (lit "x") [] true 0).1 (lit "a") (lit "y") [] true 0).1 (lit "a") = 2.
Proof. vm_compute. split_and!; reflexivity. Qed.

(** The tools that read, write and kill do not know who calls them: a process
    of one agent is killed for whoever has its id, and ids are counted. *)
Example other_agent_kills :
  let m := (start (new_manager 5) (lit "a") (lit "server") [] (Ok true) 0).1 in
  tool_process_kill (JObj [(lit "process_id", JStr (lit "proc_1"))]) (Some m) = (Some (mkManager ∅ 5 2), Ok (status_text "killed")).
Proof. vm_compute. reflexivity. Qed.
