(* ===== verification/ConfigLoad.v ===== *)
(** * Loading the configuration

    [openfang-kernel/src/config.rs]: a TOML file, the files it includes merged
    under it, and the defaults where anything goes wrong. A table is an
    association list with different keys. The file system, the TOML parser and
    the deserializer are parameters. *)

From Stdlib Require Import Ascii ZArith Lia.
From stdpp Require Import base strings list.
From S2P Require Import Prelude Strs Json TextLines WorkspaceSandbox WasmHost.

#[warnings="-register-all"]
Inductive Toml : Type :=
| TString (s : str)
| TInteger (n : Z)
| TFloat (text : str)
| TBoolean (b : bool)
| TDatetime (text : str)
| TArray (l : list Toml)
| TTable (t : list (str * Toml)).

Abbreviation table := (list (str * Toml)).

Definition lookup_key (k : str) (t : table) : option Toml := snd <$> List.find (λ e, str_eqb e.1 k) t.

Fixpoint put (k : str) (v : Toml) (t : table) : table :=
  match t with
  | [] => [(k, v)]
  | e :: t => if str_eqb e.1 k then (k, v) :: t else e :: put k v t
  end.

Definition remove_key (k : str) (t : table) : table := List.filter (λ e, negb (str_eqb e.1 k)) t.

(** ** Merging *)

Fixpoint deep_merge_toml (base overlay : Toml) {struct overlay} : Toml :=
  match base, overlay with
  | TTable base_tbl, TTable overlay_tbl =>
      TTable ((fix go (base_tbl overlay_tbl : table) {struct overlay_tbl} : table :=
                 match overlay_tbl with
                 | [] => base_tbl
                 | (key, overlay_val) :: rest =>
                     go (put key match lookup_key key base_tbl with
                                 | Some base_val => deep_merge_toml base_val overlay_val
                                 | None => overlay_val
                                 end base_tbl) rest
                 end) base_tbl overlay_tbl)
  | _, _ => overlay
  end.

(** The entries of a table, one after the other. *)
Fixpoint merge_tables (base_tbl overlay_tbl : table) : table :=
  match overlay_tbl with
  | [] => base_tbl
  | (key, overlay_val) :: rest =>
      merge_tables (put key match lookup_key key base_tbl with
                            | Some base_val => deep_merge_toml base_val overlay_val
                            | None => overlay_val
                            end base_tbl) rest
  end.

Lemma deep_merge_tables b o : deep_merge_toml (TTable b) (TTable o) = TTable (merge_tables b o).
Proof. revert b. induction o as [|[k v] o IH]; intros b; [done|]. exact (IH _). Qed.

Lemma lookup_put k k' v t : lookup_key k' (put k v t) = if str_eqb k k' then Some v else lookup_key k' t.
Proof.
  unfold lookup_key. induction t as [|[x w] t IH]; cbn [put List.find fst].
  - by destruct (str_eqb k k').
  - destruct (str_eqb x k) eqn:E; cbn [List.find fst].
    + apply str_eqb_spec in E as ->. by destruct (str_eqb k k').
    + destruct (str_eqb x k') eqn:E'; [|done]. apply str_eqb_spec in E' as ->.
      destruct (str_eqb k k') eqn:Ek; [|done]. apply str_eqb_spec in Ek as ->.
      by rewrite (proj2 (str_eqb_spec _ _) eq_refl) in E.
Qed.

Lemma lookup_key_None k t : k ∉ t.*1 → lookup_key k t = None.
Proof.
  unfold lookup_key. induction t as [|[x w] t IH]; [done|]. rewrite fmap_cons. cbn [List.find fst]. intros Hk.
  apply not_elem_of_cons in Hk as [Hx Hk]. destruct (str_eqb x k) eqn:E; [|by apply IH]. by apply str_eqb_spec in E as ->.
Qed.

Lemma lookup_merge k b o :
  NoDup o.*1 →
  lookup_key k (merge_tables b o) =
  match lookup_key k o with
  | None => lookup_key k b
  | Some v => Some match lookup_key k b with Some w => deep_merge_toml w v | None => v end
  end.
Proof.
  revert b. induction o as [|[x v] o IH]; intros b; [done|]. rewrite fmap_cons. cbn [fst]. intros [Hx Ho]%NoDup_cons.
  cbn [merge_tables]. rewrite IH by done. rewrite lookup_put.
  assert (lookup_key k ((x, v) :: o) = if str_eqb x k then Some v else lookup_key k o) as ->.
  { unfold lookup_key. cbn [List.find fst]. by destruct (str_eqb x k). }
  destruct (str_eqb x k) eqn:E; [|done]. apply str_eqb_spec in E as ->. by rewrite lookup_key_None.
Qed.

(** The value at a path of keys. *)
Fixpoint at_path (v : Toml) (p : list str) : option Toml :=
  match p with
  | [] => Some v
  | k :: p => match v with TTable t => lookup_key k t ≫= λ w, at_path w p | _ => None end
  end.

(** A value that is not a table is above the path. *)
Fixpoint cut_off (v : Toml) (p : list str) : bool :=
  match p with
  | [] => false
  | k :: p => match v with
              | TTable t => match lookup_key k t with Some w => cut_off w p | None => false end
              | _ => true
              end
  end.

(** Every table has different keys. *)
Definition keys_distinct (v : Toml) : Prop := ∀ p t, at_path v p = Some (TTable t) → NoDup t.*1.

(** At every path a merge has what the overlay has there, merged with the base
    where both have tables, and what the base has where the overlay says
    nothing. *)
Theorem merge_by_path b o p :
  keys_distinct o →
  at_path (deep_merge_toml b o) p =
  match at_path o p with
  | Some x => Some match at_path b p with Some y => deep_merge_toml y x | None => x end
  | None => if cut_off o p then None else at_path b p
  end.
Proof.
  revert b o. induction p as [|k p IH]; intros b o Ho; [done|].
  destruct o as [| | | | | |ot]; try (by destruct b).
  destruct b as [| | | | | |bt]; try (cbn [deep_merge_toml at_path cut_off];
    destruct (lookup_key k ot) as [w|]; cbn [mbind option_bind]; [|done]; destruct (at_path w p); [done|by destruct (cut_off w p)]).
  rewrite deep_merge_tables. cbn [at_path cut_off]. rewrite lookup_merge by exact (Ho [] ot eq_refl).
  destruct (lookup_key k ot) as [w|] eqn:Ew; cbn [mbind option_bind]; [|by destruct (lookup_key k bt)].
  assert (keys_distinct w) as Hw.
  { intros q t Hq. apply (Ho (k :: q)). cbn [at_path]. by rewrite Ew. }
  destruct (lookup_key k bt) as [y|]; cbn [mbind option_bind]; [by apply IH|].
  destruct (at_path w p); [done|by destruct (cut_off w p)].
Qed.

(** ** Includes *)

Definition MAX_INCLUDE_DEPTH : Z := 10.

Definition without_include (v : Toml) : Toml :=
  match v with TTable t => TTable (remove_key (lit "include") t) | _ => v end.

(** The list of files to include, [None] if there is none to look at. *)
Definition includes_of (v : Toml) : option (list str) :=
  match v with
  | TTable t =>
      match lookup_key (lit "include") t with
      | Some (TArray l) => Some (omap (λ v, match v with TString s => Some s | _ => None end) l)
      | _ => None
      end
  | _ => None
  end.

(** The set of files visited so far and the files that were read, the last
    first. *)
Record Trail : Type := mkTrail { visited : list str; reads : list str }.

Section includes.
Context (canonicalize read_to_string : str → result str str) (parse : str → result Toml str).

(** The checks of the path of one include, and the file it leads to. *)
Definition include_target (config_dir include_path : str) : result str str :=
  if is_absolute include_path then Err (lit "Config include rejects absolute path: " ++ include_path)
  else if climbs include_path then Err (lit "Config include rejects path traversal: " ++ include_path)
  else
    match canonicalize (path_join config_dir include_path) with
    | Err e => Err (lit "Config include '" ++ include_path ++ lit "' cannot be resolved: " ++ e)
    | Ok canonical =>
        match canonicalize config_dir with
        | Err e => Err (lit "Config dir cannot be canonicalized: " ++ e)
        | Ok canonical_dir =>
            if path_starts_with canonical canonical_dir then Ok canonical
            else Err (lit "Config include '" ++ include_path ++ lit "' escapes config directory")
        end
    end.

(** A computation on the trail. *)
Definition Visiting (A : Type) : Type := Trail → Trail * result A str.

(** The file is read, which the trail shows whether or not it succeeds. *)
Definition read_include (include_path canonical : str) : Visiting Toml := λ t,
  (mkTrail (visited t) (canonical :: reads t),
   match read_to_string canonical with
   | Err e => Err (lit "Failed to read config include '" ++ include_path ++ lit "': " ++ e)
   | Ok contents =>
       match parse contents with
       | Err e => Err (lit "Failed to parse config include '" ++ include_path ++ lit "': " ++ e)
       | Ok v => Ok v
       end
   end).

(** The loop over the includes, with [resolve] for the files they lead to. *)
Fixpoint include_all (resolve : Toml → str → Visiting Toml) (config_dir : str) (merged_base : Toml) (includes : list str)
    : Visiting Toml :=
  match includes with
  | [] => λ t, (t, Ok merged_base)
  | include_path :: rest => λ t,
      match include_target config_dir include_path with
      | Err e => (t, Err e)
      | Ok canonical =>
          if bool_decide (canonical ∈ visited t)
          then (t, Err (lit "Circular config include detected: " ++ include_path))
          else
            let t := mkTrail (canonical :: visited t) (reads t) in
            match read_include include_path canonical t with
            | (t, Err e) => (t, Err e)
            | (t, Ok include_value) =>
                match resolve include_value (default config_dir (path_parent canonical)) t with
                | (t, Err e) => (t, Err e)
                | (t, Ok include_value) =>
                    include_all resolve config_dir (deep_merge_toml merged_base (without_include include_value)) rest t
                end
            end
      end
  end.

(** [fuel] counts the levels; the depth is checked first, and is the bound. *)
Fixpoint resolve_from (fuel : nat) (depth : Z) (root_value : Toml) (config_dir : str) : Visiting Toml := λ t,
  match fuel with
  | 0 => (t, Err [])
  | S fuel =>
      if (MAX_INCLUDE_DEPTH <? depth)%Z
      then (t, Err (lit "Config include depth exceeded maximum of " ++ show_Z MAX_INCLUDE_DEPTH))
      else
        match includes_of root_value with
        | None | Some [] => (t, Ok root_value)
        | Some includes =>
            match include_all (resolve_from fuel (depth + 1)) config_dir (TTable []) includes t with
            | (t, Err e) => (t, Err e)
            | (t, Ok merged_base) => (t, Ok (deep_merge_toml merged_base (without_include root_value)))
            end
        end
  end.

Definition resolve_config_includes (root_value : Toml) (config_dir : str) : Visiting Toml :=
  resolve_from (Z.to_nat MAX_INCLUDE_DEPTH + 2) 0 root_value config_dir.

(** ** The configuration *)

Context {Config : Type} (deserialize : Toml → result Config str) (default_config : Config) (path_exists : str → bool).

(** A failed include leaves the root file alone; every other failure gives the
    defaults. *)
Definition load_config (config_path : str) : Config :=
  if path_exists config_path then
    match read_to_string config_path with
    | Err _ => default_config
    | Ok contents =>
        match parse contents with
        | Err _ => default_config
        | Ok root_value =>
            let config_dir := default (lit ".") (path_parent config_path) in
            let t := mkTrail [match canonicalize config_path with Ok c => c | Err _ => config_path end] [config_path] in
            let root_value :=
              match (resolve_config_includes root_value config_dir t).2 with Ok v => v | Err _ => root_value end in
            match deserialize (without_include root_value) with
            | Ok config => config
            | Err _ => default_config
            end
        end
    end
  else default_config.

(** ** The bound on the depth is enough *)

Lemma include_all_ext (r1 r2 : Toml → str → Visiting Toml) dir base includes t :
  (∀ v d t, r1 v d t = r2 v d t) → include_all r1 dir base includes t = include_all r2 dir base includes t.
Proof.
  intros Hr. revert base t. induction includes as [|i others IH]; intros base t; [done|]. cbn [include_all].
  destruct (include_target dir i) as [c|]; [|done]. case_bool_decide; [done|].
  destruct (read_include i c _) as [t' [v|]]; [|done]. rewrite Hr. destruct (r2 _ _ _) as [t1 [w|]]; [|done]. apply IH.
Qed.

(** Any fuel that reaches past the largest depth gives the same result: the
    recursion always stops at the depth. *)
Theorem include_fuel_enough fuel fuel' depth root_value dir t :
  (MAX_INCLUDE_DEPTH + 1 < depth + Z.of_nat fuel)%Z → (MAX_INCLUDE_DEPTH + 1 < depth + Z.of_nat fuel')%Z →
  fuel ≠ 0 → fuel' ≠ 0 →
  resolve_from fuel depth root_value dir t = resolve_from fuel' depth root_value dir t.
Proof.
  revert fuel' depth root_value dir t. induction fuel as [|fuel IH]; intros fuel' depth root_value dir t Hf Hf' H0 H0';
    [done|]. destruct fuel' as [|fuel']; [done|]. cbn [resolve_from].
  destruct (Z.ltb_spec MAX_INCLUDE_DEPTH depth) as [|Hd]; [done|].
  destruct (includes_of root_value) as [[|i others]|]; [done| |done].
  rewrite (include_all_ext (resolve_from fuel (depth + 1)) (resolve_from fuel' (depth + 1))); [done|].
  intros v d t'. apply IH; lia.
Qed.

(** ** Only files below the directory are read *)

Lemma split_join_parts c ps : Forall (λ p, c ∉ p) ps → ps ≠ [] → split (join ps [c]) c = ps.
Proof.
  intros Hps Hne. induction Hps as [|p ps Hp Hps IH]; [done|]. destruct ps as [|q ps].
  - cbn [join]. by apply split_no_sep_id.
  - change (join (p :: q :: ps) [c]) with (p ++ c :: join (q :: ps) [c]). by rewrite split_app_sep, IH.
Qed.

Lemma bind_skipped ps : Forall (λ p, skipped p = true) ps → (ps ≫= component_of) = [].
Proof. induction 1 as [|p ps Hp _ IH]; [done|]. rewrite bind_cons, IH. unfold component_of. by rewrite Hp. Qed.

Lemma trim_parts_split rparts :
  ∃ pre, rparts = pre ++ trim_parts rparts ∧ Forall (λ p, skipped p = true) pre
    ∧ match trim_parts rparts with [] => True | x :: _ => skipped x = false end.
Proof.
  unfold trim_parts. induction rparts as [|p ps (pre & E & Hf & Hx)]; [by exists []|]. cbn [drop_while].
  destruct (skipped p) eqn:Ep; [|by exists []]. exists (p :: pre). cbn [app]. rewrite <-E. split_and!; [done|by constructor|done].
Qed.

(** The parent of an absolute path has its components but the last. *)
Lemma parent_components p q :
  is_absolute p = true → path_parent p = Some q → ∃ x, components p = components q ++ [x].
Proof.
  intros Ha. unfold path_parent. set (parts := split (path_body p) slash).
  destruct (trim_parts_split (reverse parts)) as (pre & Epre & Hpre & Hx).
  destruct (trim_parts (reverse parts)) as [|x front]; [by rewrite Ha|]. intros [= <-].
  destruct (trim_parts_split front) as (pre2 & Epre2 & Hpre2 & _). set (kept := trim_parts front) in *.
  assert (parts = reverse kept ++ reverse pre2 ++ [x] ++ reverse pre) as Eparts.
  { rewrite <-(reverse_involutive parts), Epre, Epre2. rewrite reverse_app, reverse_cons, reverse_app.
    by rewrite <-!app_assoc. }
  assert (Forall (λ p, slash ∉ p) (reverse kept)) as Hk.
  { pose proof (split_no_sep (path_body p) slash) as Hs. fold parts in Hs. rewrite Eparts in Hs. by apply Forall_app in Hs as [? _]. }
  unfold path_start. rewrite Ha.
  assert (components ([slash] ++ join (reverse kept) [slash]) = [RootDir] ++ (reverse kept ≫= component_of)) as ->.
  { unfold components, start_component, path_body, path_start.
    assert (is_absolute ([slash] ++ join (reverse kept) [slash]) = true) as ->.
    { apply starts_with_spec. by eexists. }
    cbn [length]. change (drop 1 ([slash] ++ join (reverse kept) [slash])) with (join (reverse kept) [slash]).
    destruct (reverse kept) as [|k ks] eqn:Ek; [done|]. by rewrite split_join_parts. }
  exists (if str_eqb x (lit "..") then ParentDir else Normal x).
  unfold components, start_component. rewrite Ha. fold parts. rewrite Eparts, !bind_app.
  rewrite (bind_skipped (reverse pre2)), (bind_skipped (reverse pre)) by by apply Forall_reverse.
  rewrite app_nil_l, app_nil_r, <-app_assoc. do 2 f_equal. rewrite bind_cons. unfold component_of. rewrite Hx. by case_match.
Qed.

Lemma parent_within c d base :
  is_absolute c = true → path_parent c = Some d → path_starts_with c base = true → components c ≠ components base →
  path_starts_with d base = true.
Proof.
  intros Ha Hd [l Hl]%bool_decide_eq_true Hne. destruct (parent_components c d Ha Hd) as [x Hx].
  apply bool_decide_eq_true. destruct l as [|y l _] using rev_ind; [by rewrite app_nil_r in Hl|].
  exists l. rewrite Hl, app_assoc in Hx. by apply app_inj_tail in Hx as [<- _].
Qed.

Section confined.
(** What is assumed of the file system: canonical paths are absolute, the
    directory of a canonical path is canonical, and a directory that something
    was looked up in cannot be read as a file. *)
Context (canon_absolute : ∀ p c, canonicalize p = Ok c → is_absolute c = true).
Context (canon_parent : ∀ p c d, canonicalize p = Ok c → path_parent c = Some d → canonicalize d = Ok d).
Context (dir_not_file : ∀ dir i c d, is_absolute i = false → canonicalize (path_join dir i) = Ok c → canonicalize dir = Ok d →
  components c = components d → ∀ text, read_to_string c ≠ Ok text).

(** The files added to a trail: those visited are those read. *)
Definition extends (base : str) (new : list str) (t t' : Trail) : Prop :=
  visited t' = new ++ visited t ∧ reads t' = new ++ reads t ∧ NoDup new
  ∧ Forall (λ f, f ∉ visited t ∧ path_starts_with f base = true) new.

Definition adds_within (base : str) {A} (x : Visiting A) : Prop :=
  ∀ t, ∃ new, extends base new t (x t).1.

Lemma extends_refl base t : extends base [] t t.
Proof. split_and!; [done|done|constructor|constructor]. Qed.

Lemma include_target_ok dir i c :
  include_target dir i = Ok c →
  ∃ d, canonicalize dir = Ok d ∧ path_starts_with c d = true ∧ canonicalize (path_join dir i) = Ok c
    ∧ is_absolute i = false.
Proof.
  unfold include_target. destruct (is_absolute i); [done|]. case_match; [done|]. destruct (canonicalize (path_join dir i)) as [c'|]; [|done].
  destruct (canonicalize dir) as [d|]; [|done]. case_match; [|done]. intros [= <-]. eauto.
Qed.

Lemma extends_trans base new1 new2 t t1 t2 :
  extends base new1 t t1 → extends base new2 t1 t2 → extends base (new2 ++ new1) t t2.
Proof.
  intros (V1 & R1 & N1 & F1) (V2 & R2 & N2 & F2). rewrite V1 in F2, V2. rewrite R1 in R2.
  rewrite Forall_forall in F1, F2. split_and!; [by rewrite <-app_assoc|by rewrite <-app_assoc| |].
  - apply NoDup_app. split_and!; [done| |done]. intros f Hf Hf'. destruct (F2 f Hf) as [Hn _]. apply Hn, elem_of_app. by left.
  - rewrite Forall_app, !Forall_forall. split; [|done]. intros f Hf. destruct (F2 f Hf) as [Hn ?]. split; [|done].
    intros ?. apply Hn, elem_of_app. by right.
Qed.

Lemma starts_with_trans a b c : path_starts_with a b = true → path_starts_with b c = true → path_starts_with a c = true.
Proof. unfold path_starts_with. rewrite !bool_decide_eq_true. intros H1 H2. by etrans. Qed.

Lemma include_all_within resolve dir d base_dir includes base :
  canonicalize dir = Ok d → path_starts_with d base_dir = true →
  (∀ v dir' d', canonicalize dir' = Ok d' → path_starts_with d' base_dir = true → adds_within base_dir (resolve v dir')) →
  adds_within base_dir (include_all resolve dir base includes).
Proof.
  intros Hd Hb Hr. revert base. induction includes as [|i others IH]; intros base t.
  { exists []. apply extends_refl. }
  cbn [include_all]. destruct (include_target dir i) as [c|] eqn:Et; [|exists []; apply extends_refl].
  apply include_target_ok in Et as (d' & Hd' & Hc & Hcan & Hrel). rewrite Hd in Hd'. injection Hd' as <-.
  case_bool_decide as Hv; [exists []; apply extends_refl|].
  pose proof (starts_with_trans _ _ _ Hc Hb) as Hcb. unfold read_include at 1. cbn [visited reads].
  set (t0 := mkTrail (c :: visited t) (c :: reads t)).
  assert (extends base_dir [c] t t0) as E0 by (split_and!; [done|done|apply NoDup_singleton|by repeat constructor]).
  destruct (read_to_string c) as [text|] eqn:Hread; [|by exists [c]].
  destruct (parse text) as [v|]; [|by exists [c]].
  assert (∃ dir' d', default dir (path_parent c) = dir' ∧ canonicalize dir' = Ok d' ∧ path_starts_with d' base_dir = true)
    as (dir' & d' & -> & Hd' & Hb').
  { destruct (path_parent c) as [pd|] eqn:Ep; [|by eexists _, d]. exists pd, pd. split_and!; [done|by eapply canon_parent|].
    eapply starts_with_trans; [|exact Hb]. eapply parent_within; [by eapply canon_absolute|done|done|].
    intros E. by eapply dir_not_file. }
  destruct (Hr v dir' d' Hd' Hb' t0) as (new1 & E1).
  destruct (resolve v dir' t0) as [t1 [w|]]; cbn [fst] in E1; [|exists (new1 ++ [c]); by eapply extends_trans].
  destruct (IH (deep_merge_toml base (without_include w)) t1) as (new2 & E2).
  exists (new2 ++ new1 ++ [c]). eapply extends_trans; [|exact E2]. by eapply extends_trans.
Qed.

Lemma resolve_from_within fuel depth root_value dir d base_dir :
  canonicalize dir = Ok d → path_starts_with d base_dir = true → adds_within base_dir (resolve_from fuel depth root_value dir).
Proof.
  revert depth root_value dir d. induction fuel as [|fuel IH]; intros depth root_value dir d Hd Hb t; cbn [resolve_from].
  { exists []. apply extends_refl. }
  case_match; [exists []; apply extends_refl|].
  destruct (includes_of root_value) as [[|i others]|]; [exists []; apply extends_refl| |exists []; apply extends_refl].
  destruct (include_all_within (resolve_from fuel (depth + 1)) dir d base_dir (i :: others) (TTable []) Hd Hb) with (t := t)
    as (new & E); [intros; by eapply IH|].
  exists new. by destruct (include_all _ _ _ _ t) as [t1 [w|]].
Qed.

(** C33: Whatever the files say, resolving the includes of a configuration reads
    only files below its directory, none of them twice, and none that was
    visited before; every file it visits it has tried to read. *)
Theorem includes_confined root_value config_dir d before :
  canonicalize config_dir = Ok d →
  let t := (resolve_config_includes root_value config_dir (mkTrail before [])).1 in
  NoDup (reads t) ∧ Forall (λ f, f ∉ before ∧ path_starts_with f d = true) (reads t) ∧
  visited t = reads t ++ before.
Proof.
  intros Hd t. destruct (resolve_from_within (Z.to_nat MAX_INCLUDE_DEPTH + 2) 0 root_value config_dir d d Hd)
    with (t := mkTrail before []) as (new & V & R & N & F); [by apply bool_decide_eq_true|].
  cbn [visited reads] in *. rewrite app_nil_r in R. fold (resolve_config_includes root_value config_dir) in V, R.
  subst t. by rewrite R.
Qed.
End confined.

(** ** The root file has the last word *)

Lemma lookup_remove_key k k' t : lookup_key k (remove_key k' t) = if str_eqb k k' then None else lookup_key k t.
Proof.
  unfold lookup_key, remove_key. induction t as [|[x w] t IH]; cbn [List.filter List.find fst].
  - by destruct (str_eqb k k').
  - destruct (str_eqb x k') eqn:E; cbn [negb List.find fst].
    + rewrite IH. apply str_eqb_spec in E as ->. destruct (str_eqb k k') eqn:Ek; [done|].
      destruct (str_eqb k' k) eqn:Ek'; [|done]. apply str_eqb_spec in Ek' as ->.
      by rewrite (proj2 (str_eqb_spec _ _) eq_refl) in Ek.
    + destruct (str_eqb x k) eqn:Ex; [|done]. apply str_eqb_spec in Ex as ->. by rewrite E.
Qed.

Lemma remove_key_keys k t : NoDup t.*1 → NoDup (remove_key k t).*1.
Proof.
  intros Ht. eapply sublist_NoDup; [exact Ht|]. clear Ht. apply fmap_sublist. unfold remove_key.
  induction t as [|e t IH]; [done|]. cbn [List.filter]. case_match; [by apply sublist_skip|by apply sublist_cons].
Qed.

Lemma without_include_at v k p x :
  at_path (without_include v) (k :: p) = Some x → at_path v (k :: p) = Some x.
Proof.
  destruct v as [| | | | | |t]; try done. cbn [without_include at_path]. rewrite lookup_remove_key. by case_match.
Qed.

Lemma without_include_distinct v : keys_distinct v → keys_distinct (without_include v).
Proof.
  intros Hv [|k p] t.
  - destruct v as [| | | | | |t']; try done. cbn. intros [= <-]. apply remove_key_keys. exact (Hv [] t' eq_refl).
  - intros Hp%without_include_at. by eapply Hv.
Qed.

Definition is_table (v : Toml) : bool := match v with TTable _ => true | _ => false end.

Lemma merge_leaf b x : is_table x = false → deep_merge_toml b x = x.
Proof. by destruct x, b. Qed.

(** Every setting of the root file other than the includes is as the root file
    says, whatever the included files say. *)
Theorem root_overrides root_value config_dir t t' v k p x :
  keys_distinct root_value → resolve_config_includes root_value config_dir t = (t', Ok v) →
  at_path (without_include root_value) (k :: p) = Some x → is_table x = false → at_path v (k :: p) = Some x.
Proof.
  intros Hk Hr Hx Hl. unfold resolve_config_includes in Hr.
  change (Z.to_nat MAX_INCLUDE_DEPTH + 2) with (S (Z.to_nat MAX_INCLUDE_DEPTH + 1)) in Hr. cbn [resolve_from] in Hr.
  case_match; [done|].
  destruct (includes_of root_value) as [[|i others]|];
    [injection Hr as _ <-; by apply without_include_at| |injection Hr as _ <-; by apply without_include_at].
  destruct (include_all _ _ _ _ _) as [t1 [merged|]]; [|done]. injection Hr as _ <-.
  rewrite merge_by_path by by apply without_include_distinct. rewrite Hx. f_equal.
  destruct (at_path merged (k :: p)); [by apply merge_leaf|done].
Qed.
End includes.

(** ** Examples *)

Definition demo_paths : list str := lit <$> ["/"; "/conf"; "/conf/a"; "/conf/b"; "/conf/c"]%string.

Definition demo_canonicalize (p : str) : result str str := if bool_decide (p ∈ demo_paths) then Ok p else Err (lit "missing").

Definition demo_read (p : str) : result str str :=
  if bool_decide (p ∈ drop 2 demo_paths) then Ok p else Err (lit "unreadable").

Definition including (files : list string) : Toml := TTable [(lit "include", TArray ((λ f, TString (lit f)) <$> files))].

(** Two files that include a third. *)
Definition demo_parse (text : str) : result Toml str :=
  if str_eqb text (lit "/conf/c") then Ok (TTable [(lit "level", TInteger 3)]) else Ok (including ["c"%string]).

Lemma demo_canon p c : demo_canonicalize p = Ok c → c = p ∧ c ∈ demo_paths.
Proof. unfold demo_canonicalize. case_bool_decide; [|done]. by intros [= <-]. Qed.

Lemma demo_absolute p c : demo_canonicalize p = Ok c → is_absolute c = true.
Proof.
  intros [-> Hin]%demo_canon. revert p Hin. apply Forall_forall. apply (bool_decide_unpack _). vm_compute. exact I.
Qed.

Lemma demo_parent p c d : demo_canonicalize p = Ok c → path_parent c = Some d → demo_canonicalize d = Ok d.
Proof.
  intros [-> Hin]%demo_canon Hd. assert (Forall (λ p, from_option (λ d, d ∈ demo_paths) True (path_parent p)) demo_paths) as Hf.
  { repeat constructor; apply (bool_decide_unpack _); vm_compute; exact I. }
  rewrite Forall_forall in Hf. specialize (Hf p Hin). rewrite Hd in Hf. unfold demo_canonicalize. by rewrite bool_decide_eq_true_2.
Qed.

Lemma demo_dir dir i c d :
  is_absolute i = false → demo_canonicalize (path_join dir i) = Ok c → demo_canonicalize dir = Ok d →
  components c = components d → ∀ text, demo_read c ≠ Ok text.
Proof.
  intros Hi [-> Hin]%demo_canon [-> Hdir]%demo_canon E text. unfold demo_read. rewrite bool_decide_eq_false_2; [done|].
  intros Hf. unfold path_join in *. rewrite Hi in *.
  assert (∀ p q, p ∈ drop 2 demo_paths → q ∈ demo_paths → components p = components q → p = q) as Hinj.
  { intros p q Hp Hq. revert p Hp q Hq. 
    assert (Forall (λ p, Forall (λ q, components p = components q → p = q) demo_paths) (drop 2 demo_paths)) as HF.
    { repeat constructor; apply (bool_decide_unpack _); vm_compute; exact I. }
    intros p Hp q Hq. rewrite Forall_forall in HF. specialize (HF p Hp). rewrite Forall_forall in HF. by apply HF. }
  apply Hinj in E; [|done|done].
  assert (length (dir ++ (match last dir with Some c => if decide (c = slash) then [] else [slash] | None => [] end) ++ i)
    = length dir) as El by by rewrite E.
  rewrite !length_app in El. rewrite E in Hf.
  assert (Forall (λ p, last p = Some slash → False) (drop 2 demo_paths)) as Hlast.
  { repeat constructor; vm_compute; discriminate. }
  rewrite Forall_forall in Hlast. specialize (Hlast dir Hf). destruct (last dir) as [x|] eqn:Ex.
  - destruct (decide (x = slash)) as [->|]; [by apply Hlast|]. cbn in El. lia.
  - apply last_None in Ex as ->. revert Hf. apply (bool_decide_unpack _). vm_compute. exact I.
Qed.

(** Two files may not include the same third one, though nothing is circular:
    all includes are dropped. *)
Example diamond_refused :
  resolve_config_includes demo_canonicalize demo_read demo_parse (including ["a"; "b"]%string) (lit "/conf")
    (mkTrail [lit "/conf/root"] [])
  = (mkTrail [lit "/conf/b"; lit "/conf/c"; lit "/conf/a"; lit "/conf/root"] [lit "/conf/b"; lit "/conf/c"; lit "/conf/a"], Err (lit "Circular config include detected: c")).
Proof. vm_compute. reflexivity. Qed.

Lemma includes_confined_witness :
  let t := (resolve_config_includes demo_canonicalize demo_read demo_parse (including ["a"%string]) (lit "/conf")
              (mkTrail [lit "/conf/b"] [])).1 in
  reads t = [lit "/conf/c"; lit "/conf/a"] ∧ NoDup (reads t).
Proof.
  intros t. split; [vm_compute; reflexivity|].
  apply (includes_confined demo_canonicalize demo_read demo_parse demo_absolute demo_parent demo_dir _ _ (lit "/conf")).
  vm_compute. reflexivity.
Defined.

Lemma single_distinct k v : is_table v = false → keys_distinct (TTable [(k, v)]).
Proof.
  intros Hv [|x p] t; cbn [at_path].
  - intros [= <-]. apply NoDup_singleton.
  - unfold lookup_key. cbn [List.find fst]. case_match; [|done]. cbn. destruct p; [by intros [= ->]|]. by destruct v.
Qed.

Lemma merge_by_path_witness :
  at_path (deep_merge_toml (TTable [(lit "a", TInteger 1); (lit "b", TInteger 2)]) (TTable [(lit "b", TInteger 3)])) [lit "b"]
  = Some (TInteger 3).
Proof. rewrite (merge_by_path _ _ [lit "b"]); [reflexivity|]. by apply single_distinct. Defined.

Definition demo_root : Toml := TTable [(lit "include", TArray [TString (lit "c")]); (lit "level", TInteger 5)].

Lemma demo_root_distinct : keys_distinct demo_root.
Proof.
  intros [|x p] t; cbn [at_path demo_root].
  - intros [= <-]. apply (bool_decide_unpack _). vm_compute. exact I.
  - unfold lookup_key. cbn [List.find fst]. case_match; [by destruct p|]. case_match; [by destruct p|done].
Qed.

Lemma root_overrides_witness :
  ∃ vis v, resolve_config_includes demo_canonicalize demo_read demo_parse demo_root (lit "/conf") (mkTrail [] []) = (vis, Ok v)
    ∧ at_path v [lit "level"] = Some (TInteger 5).
Proof.
  eexists _, _. split; [vm_compute; reflexivity|].
  eapply (root_overrides demo_canonicalize demo_read demo_parse demo_root (lit "/conf") (mkTrail [] []));
    [exact demo_root_distinct|vm_compute; reflexivity|vm_compute; reflexivity|reflexivity].
Defined.

Lemma include_fuel_enough_witness :
  resolve_from demo_canonicalize demo_read demo_parse 12 0 demo_root (lit "/conf") (mkTrail [] [])
  = resolve_from demo_canonicalize demo_read demo_parse 99 0 demo_root (lit "/conf") (mkTrail [] []).
Proof. apply (include_fuel_enough demo_canonicalize demo_read demo_parse 12 99 0); unfold MAX_INCLUDE_DEPTH; lia. Defined.
