(* ===== verification/ConfigReload.v ===== *)
(** * Reloading the configuration

    [openfang-kernel/src/config_reload.rs], [reload_config] and
    [apply_hot_actions] of [kernel.rs]: the file is read again, compared with
    the configuration the kernel started with, and some of the changes are
    applied to the running kernel. The sections of the configuration that are
    only compared by their JSON text are values of one type with the text as a
    parameter; [provider_urls] is a map in the order in which it is visited. *)

From Stdlib Require Import Ascii ZArith Lia.
From stdpp Require Import base gmap strings list.
From S2P Require Import Prelude Strs WorkspaceSandbox.
From S2P Require Approval Cron ModelCatalog ConfigLoad.

Inductive HotAction : Type :=
| ReloadChannels | ReloadSkills | UpdateUsageFooter | ReloadWebConfig | ReloadBrowserConfig | UpdateApprovalPolicy
| UpdateCronConfig | UpdateWebhookConfig | ReloadExtensions | ReloadMcpServers | ReloadA2aConfig | ReloadFallbackProviders
| ReloadProviderUrls.

Record ReloadPlan : Type := mkPlan {
  restart_required : bool;
  restart_reasons : list str;
  hot_actions : list HotAction;
  noop_changes : list str
}.

Definition has_changes (p : ReloadPlan) : bool :=
  restart_required p || negb (match hot_actions p with [] => true | _ => false end)
  || negb (match noop_changes p with [] => true | _ => false end).

Definition is_hot_reloadable (p : ReloadPlan) : bool := negb (restart_required p).

Inductive ReloadMode : Type := Off | Restart | Hot | Hybrid.

Inductive UsageFooterMode : Type := FooterOff | FooterTokens | FooterCost | FooterFull.
#[export] Instance footer_eq_dec : EqDecision UsageFooterMode.
Proof. solve_decision. Defined.

Inductive KernelMode : Type := Stable | DefaultMode | Dev.
#[export] Instance mode_eq_dec : EqDecision KernelMode.
Proof. solve_decision. Defined.

Definition debug_mode (m : KernelMode) : str := lit match m with Stable => "Stable" | DefaultMode => "Default" | Dev => "Dev" end.

Section reload.
Context {Section : Type} (to_json : Section → option str).
Context (policy_json : Approval.ApprovalPolicy → option str) (urls_json : list (str * str) → option str).
Context (shared_secret : Section → str) (debug_path : str → str).
Context `{UnicodeAlnum}.

(** The fields of [KernelConfig] that a reload looks at. *)
Record KernelConfig : Type := mkKernelConfig {
  home_dir : str;
  data_dir : str;
  log_level : str;
  api_listen : str;
  network_enabled : bool;
  default_model : Section;
  memory : Section;
  network : Section;
  channels : Section;
  api_key : str;
  mode : KernelMode;
  language : str;
  mcp_servers : Section;
  a2a : Section;
  usage_footer : UsageFooterMode;
  web : Section;
  fallback_providers : Section;
  browser : Section;
  extensions : Section;
  vault : Section;
  reload_mode : ReloadMode;
  webhook_triggers : Section;
  approval : Approval.ApprovalPolicy;
  max_cron_jobs : nat;
  provider_urls : list (str * str)
}.

(** [field_changed]: the texts differ. *)
Definition field_changed {A} (json : A → option str) (old new : A) : bool := negb (bool_decide (json old = json new)).

Definition changed_str (old new : str) : bool := negb (str_eqb old new).

(** An entry that is there if a condition holds. *)
Definition when {A} (b : bool) (x : A) : list A := if b then [x] else [].

Definition arrow (old new : str) : str := old ++ lit " -> " ++ new.

Definition reasons (old new : KernelConfig) : list str :=
  when (changed_str (api_listen old) (api_listen new)) (lit "api_listen changed: " ++ arrow (api_listen old) (api_listen new))
  ++ when (changed_str (api_key old) (api_key new)) (lit "api_key changed")
  ++ when (negb (eqb (network_enabled old) (network_enabled new))) (lit "network_enabled changed")
  ++ when (field_changed to_json (network old) (network new)) (lit "network config changed")
  ++ when (field_changed to_json (memory old) (memory new)) (lit "memory config changed")
  ++ when (field_changed to_json (default_model old) (default_model new)) (lit "default_model changed")
  ++ when (negb (path_eqb (home_dir old) (home_dir new)))
       (lit "home_dir changed: " ++ arrow (debug_path (home_dir old)) (debug_path (home_dir new)))
  ++ when (negb (path_eqb (data_dir old) (data_dir new)))
       (lit "data_dir changed: " ++ arrow (debug_path (data_dir old)) (debug_path (data_dir new)))
  ++ when (field_changed to_json (vault old) (vault new)) (lit "vault config changed").

Definition hot (old new : KernelConfig) : list HotAction :=
  when (field_changed to_json (channels old) (channels new)) ReloadChannels
  ++ when (negb (bool_decide (usage_footer old = usage_footer new))) UpdateUsageFooter
  ++ when (field_changed to_json (web old) (web new)) ReloadWebConfig
  ++ when (field_changed to_json (browser old) (browser new)) ReloadBrowserConfig
  ++ when (field_changed policy_json (approval old) (approval new)) UpdateApprovalPolicy
  ++ when (negb (max_cron_jobs old =? max_cron_jobs new)) UpdateCronConfig
  ++ when (field_changed to_json (webhook_triggers old) (webhook_triggers new)) UpdateWebhookConfig
  ++ when (field_changed to_json (extensions old) (extensions new)) ReloadExtensions
  ++ when (field_changed to_json (mcp_servers old) (mcp_servers new)) ReloadMcpServers
  ++ when (field_changed to_json (a2a old) (a2a new)) ReloadA2aConfig
  ++ when (field_changed to_json (fallback_providers old) (fallback_providers new)) ReloadFallbackProviders
  ++ when (field_changed urls_json (provider_urls old) (provider_urls new)) ReloadProviderUrls.

Definition noops (old new : KernelConfig) : list str :=
  when (changed_str (log_level old) (log_level new)) (lit "log_level: " ++ arrow (log_level old) (log_level new))
  ++ when (changed_str (language old) (language new)) (lit "language: " ++ arrow (language old) (language new))
  ++ when (negb (bool_decide (mode old = mode new))) (lit "mode: " ++ arrow (debug_mode (mode old)) (debug_mode (mode new))).

Definition build_reload_plan (old new : KernelConfig) : ReloadPlan :=
  mkPlan (match reasons old new with [] => false | _ => true end) (reasons old new) (hot old new) (noops old new).

Definition policy_errors (p : Approval.ApprovalPolicy) : list str :=
  match Approval.validate_policy p with Ok _ => [] | Err e => [lit "approval policy: " ++ e] end.

Definition validate_config_for_reload (config : KernelConfig) : result unit (list str) :=
  match when (is_empty (api_listen config)) (lit "api_listen cannot be empty")
        ++ when (Z.of_nat (max_cron_jobs config) >? 10000)%Z (lit "max_cron_jobs exceeds reasonable limit (10000)")
        ++ policy_errors (approval config)
        ++ when (network_enabled config && is_empty (shared_secret (network config)))
             (lit "network_enabled is true but network.shared_secret is empty")
  with
  | [] => Ok tt
  | errors => Err errors
  end.

Definition should_apply_hot (m : ReloadMode) (plan : ReloadPlan) : bool :=
  match m with
  | Off | Restart => false
  | Hot | Hybrid => negb (match hot_actions plan with [] => true | _ => false end)
  end.

(** ** The running kernel *)

Context {AgentId JobId : Type} `{Countable JobId}.

Abbreviation scheduler_t := (Cron.CronScheduler (AgentId := AgentId) (JobId := JobId)).

(** [config] never changes. *)
Record Kernel : Type := mkKernel {
  config : KernelConfig;
  approval_policy : Approval.ApprovalPolicy;
  cron_scheduler : scheduler_t;
  model_catalog : ModelCatalog.ModelCatalog
}.

Definition apply_action (new_config : KernelConfig) (k : Kernel) (a : HotAction) : Kernel :=
  match a with
  | UpdateApprovalPolicy => mkKernel (config k) (approval new_config) (cron_scheduler k) (model_catalog k)
  | UpdateCronConfig =>
      mkKernel (config k) (approval_policy k) (Cron.set_max_total_jobs (cron_scheduler k) (max_cron_jobs new_config)) (model_catalog k)
  | ReloadProviderUrls =>
      mkKernel (config k) (approval_policy k) (cron_scheduler k)
        (ModelCatalog.apply_url_overrides (model_catalog k) (provider_urls new_config))
  | _ => k
  end.

Definition apply_hot_actions (k : Kernel) (plan : ReloadPlan) (new_config : KernelConfig) : Kernel :=
  foldl (apply_action new_config) k (hot_actions plan).

(** [loaded] is the configuration in the file, if the file exists. *)
Definition reload_with (k : Kernel) (loaded : option KernelConfig) : Kernel * result ReloadPlan str :=
  match loaded with
  | None => (k, Err (lit "Config file not found"))
  | Some new_config =>
      match validate_config_for_reload new_config with
      | Err errors => (k, Err (lit "Validation failed: " ++ join errors (lit "; ")))
      | Ok _ =>
          let plan := build_reload_plan (config k) new_config in
          (if should_apply_hot (reload_mode (config k)) plan then apply_hot_actions k plan new_config else k, Ok plan)
      end
  end.

Context (canonicalize read_to_string : str → result str str) (parse : str → result ConfigLoad.Toml str).
Context (deserialize : ConfigLoad.Toml → result KernelConfig str) (default_config : KernelConfig) (path_exists : str → bool).

Definition config_path (k : Kernel) : str := path_join (home_dir (config k)) (lit "config.toml").

Definition reload_config (k : Kernel) : Kernel * result ReloadPlan str :=
  reload_with k
    (if path_exists (config_path k)
     then Some (ConfigLoad.load_config canonicalize read_to_string parse deserialize default_config path_exists (config_path k))
     else None).

(** ** What a reload does *)

Lemma foldl_when {A B} (f : A → B → A) k b x l : foldl f k (when b x ++ l) = foldl f (if b then f k x else k) l.
Proof. by destruct b. Qed.

Lemma if_same {A} (b : bool) (x : A) : (if b then x else x) = x.
Proof. by destruct b. Qed.

(** The three actions that do something. *)
Definition applied (k : Kernel) (new : KernelConfig) : Kernel :=
  mkKernel (config k)
    (if field_changed policy_json (approval (config k)) (approval new) then approval new else approval_policy k)
    (if max_cron_jobs (config k) =? max_cron_jobs new then cron_scheduler k
     else Cron.set_max_total_jobs (cron_scheduler k) (max_cron_jobs new))
    (if field_changed urls_json (provider_urls (config k)) (provider_urls new)
     then ModelCatalog.apply_url_overrides (model_catalog k) (provider_urls new) else model_catalog k).

Lemma apply_hot k new : apply_hot_actions k (build_reload_plan (config k) new) new = applied k new.
Proof.
  unfold apply_hot_actions, build_reload_plan, hot. cbn [hot_actions].
  rewrite <-(app_nil_r (when (field_changed urls_json _ _) _)), !foldl_when. cbn [apply_action foldl]. rewrite !if_same.
  unfold applied. destruct k, (field_changed policy_json _ _), (_ =? _), (field_changed urls_json _ _); reflexivity.
Qed.

(** If nothing is to be done then nothing is done. *)
Lemma no_hot k new : hot_actions (build_reload_plan (config k) new) = [] → applied k new = k.
Proof. intros Hn. rewrite <-apply_hot. unfold apply_hot_actions. by rewrite Hn. Qed.

Definition applies_hot (m : ReloadMode) : bool := match m with Hot | Hybrid => true | _ => false end.

Lemma reload_valid k new :
  validate_config_for_reload new = Ok tt →
  reload_with k (Some new) =
  (if applies_hot (reload_mode (config k)) then applied k new else k, Ok (build_reload_plan (config k) new)).
Proof.
  intros Hv. unfold reload_with. rewrite Hv, apply_hot. f_equal. unfold should_apply_hot, applies_hot.
  destruct (hot_actions _) eqn:E; [apply no_hot in E|]; by destruct (reload_mode (config k)).
Qed.

(** A reload in a mode that applies changes to a kernel that runs as its
    configuration says leaves it with the approval policy and the limit on cron
    jobs of the file; no other reload, and none that fails, changes anything. *)
Theorem reload_applies k loaded :
  let '(k', r) := reload_with k loaded in
  config k' = config k ∧
  match loaded, r with
  | Some new, Ok plan =>
      validate_config_for_reload new = Ok tt ∧ plan = build_reload_plan (config k) new ∧
      if applies_hot (reload_mode (config k)) then
        (approval_policy k = approval (config k) →
         policy_json (approval_policy k') = policy_json (approval new)) ∧
        (Cron.max_total_jobs (cron_scheduler k) = max_cron_jobs (config k) →
         Cron.max_total_jobs (cron_scheduler k') = max_cron_jobs new) ∧
        Cron.jobs (cron_scheduler k') = Cron.jobs (cron_scheduler k)
      else k' = k
  | _, Err _ => k' = k
  | None, Ok _ => False
  end.
Proof.
  destruct loaded as [new|]; [|done]. destruct (validate_config_for_reload new) as [[]|errors] eqn:Ev.
  - rewrite reload_valid by done. destruct (applies_hot _); [|done]. split; [done|]. split_and!; [done|done|..].
    + intros Hp. unfold applied, field_changed. cbn [approval_policy]. case_bool_decide as E; cbn [negb]; [|done].
      by rewrite Hp.
    + intros Hm. unfold applied. cbn [cron_scheduler]. destruct (Nat.eqb_spec (max_cron_jobs (config k)) (max_cron_jobs new)); [|done].
      by rewrite Hm.
    + unfold applied. cbn [cron_scheduler]. by case_match.
  - unfold reload_with. by rewrite Ev.
Qed.

(** The kernel compares with the configuration it started with: going back to
    it changes nothing, and the policy that was applied in between stays. *)
Theorem revert_ignored k new :
  applies_hot (reload_mode (config k)) = true →
  validate_config_for_reload new = Ok tt → validate_config_for_reload (config k) = Ok tt →
  policy_json (approval (config k)) ≠ policy_json (approval new) →
  let k1 := (reload_with k (Some new)).1 in
  reload_with k1 (Some (config k)) = (k1, Ok (build_reload_plan (config k) (config k)))
  ∧ has_changes (build_reload_plan (config k) (config k)) = false ∧ approval_policy k1 = approval new.
Proof.
  intros Hm Hv Hc Hne k1.
  assert (k1 = applied k new) as Ek by (unfold k1; by rewrite reload_valid, Hm).
  assert (hot_actions (build_reload_plan (config k1) (config k)) = []) as Hh.
  { rewrite Ek. cbn [config applied build_reload_plan hot_actions]. unfold hot, when, field_changed.
    by rewrite !bool_decide_eq_true_2, Nat.eqb_refl. }
  split_and!.
  - rewrite reload_valid by done. rewrite (no_hot k1 (config k)) by done. rewrite Ek. cbn [config applied]. by rewrite if_same.
  - unfold has_changes, build_reload_plan, reasons, hot, noops, when, field_changed, changed_str. cbn [restart_required hot_actions noop_changes].
    rewrite !bool_decide_eq_true_2, Nat.eqb_refl by done. unfold path_eqb. rewrite !bool_decide_eq_true_2, eqb_reflx by done.
    by rewrite !(proj2 (str_eqb_spec _ _) eq_refl).
  - rewrite Ek. unfold applied, field_changed. cbn [approval_policy]. by rewrite bool_decide_eq_false_2.
Qed.

(** A file that cannot be read, parsed or deserialized is taken for the
    defaults, and their policy is applied. *)
Theorem broken_file_resets k :
  path_exists (config_path k) = true →
  (∀ contents root, read_to_string (config_path k) = Ok contents → parse contents = Ok root → False) →
  reload_config k = reload_with k (Some default_config).
Proof.
  intros He Hb. unfold reload_config, ConfigLoad.load_config. rewrite He.
  destruct (read_to_string _) as [contents|] eqn:Er; [|done]. destruct (parse contents) as [root|] eqn:Ep; [|done].
  by destruct (Hb _ _ eq_refl Ep).
Qed.
End reload.

(** ** Examples *)

Definition demo_json (p : Approval.ApprovalPolicy) : option str := Some (show_Z (Approval.policy_timeout_secs p)).

Definition demo_config (timeout : Z) (urls : list (str * str)) : KernelConfig (Section := unit) :=
  mkKernelConfig (lit "/home") (lit "/data") (lit "info") (lit "127.0.0.1:4200") false tt tt tt tt [] DefaultMode (lit "en") tt tt
    FooterFull tt tt tt tt tt Hybrid tt (Approval.mkPolicy [lit "shell_exec"] timeout false) 500 urls.

Abbreviation demo_kernel := (mkKernel (AgentId := nat) (JobId := nat) (demo_config 60 []) (Approval.mkPolicy [lit "shell_exec"] 60 false)
  (Cron.new_scheduler 500) (ModelCatalog.mkCatalog [] ∅ [])).
Abbreviation demo_reload := (reload_with (λ _ : unit, None) demo_json (λ u, Some (join (u.*2) (lit ","))) (λ _, []) (λ p, p)).

Lemma revert_ignored_witness :
  let k1 := (demo_reload demo_kernel (Some (demo_config 90 []))).1 in
  Approval.policy_timeout_secs (approval_policy (demo_reload k1 (Some (demo_config 60 []))).1) = 90%Z.
Proof.
  destruct (revert_ignored (λ _ : unit, None) demo_json (λ u, Some (join (u.*2) (lit ","))) (λ _, []) (λ p, p) demo_kernel (demo_config 90 []))
    as (E & _ & Hp); [reflexivity|vm_compute; reflexivity|vm_compute; reflexivity|vm_compute; discriminate|].
  intros k1. change (demo_config 60 []) with (config demo_kernel).
  exact (eq_trans (f_equal (λ x, Approval.policy_timeout_secs (approval_policy x.1)) E) (f_equal Approval.policy_timeout_secs Hp)).
Defined.

Lemma broken_file_resets_witness :
  reload_config (λ _ : unit, None) demo_json (λ _, None) (λ _, []) (λ p, p) Ok Ok (λ _, Err (lit "bad")) (λ _, Err []) (demo_config 10 [])
    (λ _, true) demo_kernel
  = reload_with (λ _ : unit, None) demo_json (λ _, None) (λ _, []) (λ p, p) demo_kernel (Some (demo_config 10 [])).
Proof. apply (broken_file_resets (λ _ : unit, None) demo_json (λ _, None) (λ _, []) (λ p, p)); [reflexivity|done]. Defined.

(** An override of an address that is taken out of the file stays in force. *)
Example removed_url_stays :
  let provider url := ModelCatalog.mkProvider (lit "ollama") [] [] url false ModelCatalog.NotRequired 0 in
  let k := mkKernel (AgentId := nat) (JobId := nat) (demo_config 60 [(lit "ollama", lit "http://a")]) (Approval.mkPolicy [] 60 false)
             (Cron.new_scheduler 500) (ModelCatalog.mkCatalog [] ∅ [provider (lit "http://a")]) in
  ModelCatalog.providers (model_catalog (demo_reload k (Some (demo_config 60 []))).1) = [provider (lit "http://a")].
Proof. vm_compute. reflexivity. Qed.

(** The same overrides visited in another order count as a change. *)
Example same_urls_changed :
  let a := (lit "ollama", lit "http://a") in let b := (lit "vllm", lit "http://b") in
  hot_actions (build_reload_plan (λ _ : unit, None) demo_json (λ u, Some (join (u.*2) (lit ","))) (λ p, p)
    (demo_config 60 [a; b]) (demo_config 60 [b; a])) = [ReloadProviderUrls].
Proof. vm_compute. reflexivity. Qed.
