(* ===== verification/Sql.v ===== *)
(** * What the stores use of SQL

    The statements of the stores of [openfang-memory] on top of SQLite: the
    order of texts, [ORDER BY], and [LIKE]. Rows an [ORDER BY] does not tell
    apart come in an order of the engine's choice, so that the order is an
    operation of the engine, with its laws as an interface; [insertion_order]
    is an engine. *)

From Stdlib Require Import Ascii ZArith Lia Sorting.Sorted.
From stdpp Require Import base strings list.
From S2P Require Import Prelude Strs.

(** ** Texts: [memcmp] and then the length *)

Fixpoint text_ltb (s t : str) : bool :=
  match s, t with
  | _, [] => false
  | [], _ :: _ => true
  | c :: s, d :: t =>
      if nat_of_ascii c <? nat_of_ascii d then true
      else if nat_of_ascii d <? nat_of_ascii c then false
      else text_ltb s t
  end.

Definition text_leb (s t : str) : bool := negb (text_ltb t s).

Lemma text_ltb_app p s t : text_ltb (p ++ s) (p ++ t) = text_ltb s t.
Proof. induction p as [|c p IH]; [done|]. cbn [app text_ltb]. by rewrite Nat.ltb_irrefl. Qed.

Ltac text_cases :=
  repeat match goal with
  | |- context [?a <? ?b] => destruct (Nat.ltb_spec a b)
  | H : context [?a <? ?b] |- _ => destruct (Nat.ltb_spec a b)
  end.

Lemma text_leb_total s t : text_leb s t = true ∨ text_leb t s = true.
Proof.
  unfold text_leb. revert t. induction s as [|c s IH]; intros [|d t]; cbn [text_ltb]; auto.
  text_cases; auto; lia.
Qed.

Lemma text_leb_trans s t u : text_leb s t = true → text_leb t u = true → text_leb s u = true.
Proof.
  unfold text_leb. revert t u. induction s as [|c s IH]; intros [|d t] [|e u]; cbn [text_ltb]; try done.
  text_cases; try done; try lia. apply IH.
Qed.

Lemma text_leb_antisym s t : text_leb s t = true → text_leb t s = true → s = t.
Proof.
  unfold text_leb. revert t. induction s as [|c s IH]; intros [|d t]; cbn [text_ltb]; try done.
  text_cases; try done; try lia. intros Hs Ht. f_equal; [|by apply IH].
  rewrite <-(ascii_nat_embedding c), <-(ascii_nat_embedding d). f_equal. lia.
Qed.

(** ** Orders *)

(** A comparison every list can be sorted by. *)
Record preorder {A} (leb : A → A → bool) : Prop := mkPreorder {
  preorder_total a b : leb a b = true ∨ leb b a = true;
  preorder_trans a b c : leb a b = true → leb b c = true → leb a c = true
}.

(** .. on the elements of a list *)
Record preorder_on {A} (P : A → Prop) (leb : A → A → bool) : Prop := mkPreorderOn {
  on_total a b : P a → P b → leb a b = true ∨ leb b a = true;
  on_trans a b c : P a → P b → P c → leb a b = true → leb b c = true → leb a c = true
}.

Section lexicographic.
Context {A : Type} (first second : A → A → bool).

(** By the first comparison, and where it does not decide by the second. *)
Definition lex_leb (a b : A) : bool := first a b && (negb (first b a) || second a b).

Lemma lex_preorder : preorder first → preorder second → preorder lex_leb.
Proof.
  intros [Ht Htr] [Ht' Htr']. unfold lex_leb. split.
  - intros a b. destruct (Ht a b) as [E|E]; rewrite E.
    + destruct (first b a); [|by left]. destruct (Ht' a b) as [->| ->]; auto.
    + destruct (first a b); [|by right]. destruct (Ht' a b) as [->| ->]; auto.
  - intros a b c. rewrite !andb_true_iff, !orb_true_iff, !negb_true_iff.
    intros [Hab Hab'] [Hbc Hbc']. split; [by eapply Htr|].
    destruct (first c a) eqn:Hca; [|by left]. right.
    rewrite (Htr b c a Hbc Hca) in Hab'. rewrite (Htr c a b Hca Hab) in Hbc'.
    destruct Hab'; [done|]. destruct Hbc'; [done|]. by eapply Htr'.
Qed.
End lexicographic.

Definition descending {A} (leb : A → A → bool) (a b : A) : bool := leb b a.

Lemma descending_preorder {A} (leb : A → A → bool) : preorder leb → preorder (descending leb).
Proof. intros [Ht Htr]. split; unfold descending; eauto. Qed.

Lemma text_preorder {A} (f : A → str) : preorder (λ a b, text_leb (f a) (f b)).
Proof. split; [intros; apply text_leb_total|intros a b c; apply text_leb_trans]. Qed.

Lemma Z_preorder {A} (f : A → Z) : preorder (λ a b, (f a <=? f b)%Z).
Proof. split; intros *; rewrite !Z.leb_le; lia. Qed.

Create HintDb preorders.
#[export] Hint Resolve lex_preorder descending_preorder text_preorder Z_preorder : preorders.

(** [ORDER BY] *)
Class SqlOrder := {
  order_by {A} (leb : A → A → bool) (l : list A) : list A;
  order_by_perm {A} (leb : A → A → bool) l : order_by leb l ≡ₚ l;
  order_by_sorted {A} (leb : A → A → bool) l :
    preorder leb → StronglySorted (λ a b, leb a b = true) (order_by leb l)
}.

(** [ORDER BY .. LIMIT n] *)
Definition limited `{SqlOrder} {A} (leb : A → A → bool) (n : nat) (l : list A) : list A :=
  take n (order_by leb l).

Lemma elem_of_limited `{SqlOrder} {A} (leb : A → A → bool) n l x : x ∈ limited leb n l → x ∈ l.
Proof. unfold limited. intros Hx. apply elem_of_take in Hx as (i & Hx & _). apply list_elem_of_lookup_2 in Hx. by rewrite order_by_perm in Hx. Qed.

Lemma limited_length `{SqlOrder} {A} (leb : A → A → bool) n l : length (limited leb n l) = n `min` length l.
Proof. unfold limited. by rewrite length_take, order_by_perm. Qed.

(** Nothing is left out while there is room. *)
Lemma limited_all `{SqlOrder} {A} (leb : A → A → bool) n l : length l ≤ n → limited leb n l ≡ₚ l.
Proof. intros Hn. unfold limited. rewrite take_ge; [apply order_by_perm|]. by rewrite order_by_perm. Qed.

Lemma sorted_take_drop {A} (R : A → A → Prop) n l x y :
  StronglySorted R l → x ∈ take n l → y ∈ drop n l → R x y.
Proof.
  intros Hs. revert n. induction Hs as [|z l Hs IH Hz]; intros [|n]; cbn [take drop]; rewrite ?elem_of_nil; try done.
  intros Hx Hy. apply elem_of_cons in Hx as [->|Hx]; [|by eapply IH].
  rewrite Forall_forall in Hz. apply Hz. apply list_elem_of_lookup in Hy as [i Hy].
  rewrite lookup_drop in Hy. by eapply list_elem_of_lookup_2.
Qed.

Lemma sorted_take {A} (R : A → A → Prop) n l : StronglySorted R l → StronglySorted R (take n l).
Proof.
  intros Hs. revert n. induction Hs as [|x l Hs IH Hx]; intros [|n]; cbn [take]; constructor; [done|].
  by apply Forall_take.
Qed.

(** What is left out comes after what is kept. *)
Lemma limited_first `{SqlOrder} {A} (leb : A → A → bool) n l x y :
  preorder leb → x ∈ limited leb n l → y ∈ l → y ∉ limited leb n l → leb x y = true.
Proof.
  intros Hp Hx Hy Hn. eapply sorted_take_drop with (n := n) (l := order_by leb l) (R := λ a b, leb a b = true); [|done|].
  - by apply order_by_sorted.
  - rewrite <-(order_by_perm leb l), <-(take_drop n (order_by leb l)) in Hy. apply elem_of_app in Hy as [Hy|Hy]; done.
Qed.

(** ** An engine *)

Section insertion.
Context {A : Type} (leb : A → A → bool).

Fixpoint insert_before (x : A) (l : list A) : list A :=
  match l with [] => [x] | y :: l' => if leb x y then x :: l else y :: insert_before x l' end.

Definition insertion_sort (l : list A) : list A := foldr insert_before [] l.

Lemma insert_before_perm x l : insert_before x l ≡ₚ x :: l.
Proof. induction l as [|y l IH]; cbn; [done|]. case_match; [done|]. rewrite IH. constructor. Qed.

Lemma insertion_sort_perm l : insertion_sort l ≡ₚ l.
Proof. induction l as [|x l IH]; cbn; [done|]. by rewrite insert_before_perm, IH. Qed.

Lemma insertion_sort_sorted_on l :
  preorder_on (λ x, x ∈ l) leb → StronglySorted (λ a b, leb a b = true) (insertion_sort l).
Proof.
  intros Hp. assert (∀ x, x ∈ l → x ∈ l) as Hl by done. revert Hl. generalize l at 1 3.
  intros k. induction k as [|x k IH]; intros Hk; cbn; [constructor|].
  fold (insertion_sort k). assert (x ∈ l) as Hx by (apply Hk; left).
  assert (Forall (λ y, y ∈ l) (insertion_sort k)) as Hall.
  { rewrite insertion_sort_perm. apply Forall_forall. intros y Hy. apply Hk. by right. }
  specialize (IH (λ y Hy, Hk y (list_elem_of_further _ _ _ Hy))).
  induction IH as [|y m Hm IH' Hy]; cbn; [repeat constructor|].
  apply Forall_cons in Hall as [Hyl Hall]. destruct (leb x y) eqn:E.
  - constructor; [by constructor|]. constructor; [done|].
    rewrite Forall_forall in Hy, Hall |- *. intros z Hz. eapply (on_trans _ _ Hp x y z); auto.
  - constructor; [by apply IH'|]. rewrite insert_before_perm. constructor; [|done].
    by destruct (on_total _ _ Hp x y) as [?|?]; [..|congruence|].
Qed.

Lemma insertion_sort_sorted l : preorder leb → StronglySorted (λ a b, leb a b = true) (insertion_sort l).
Proof. intros [Ht Htr]. apply insertion_sort_sorted_on. split; eauto. Qed.
End insertion.

Definition insertion_order : SqlOrder :=
  {| order_by := @insertion_sort;
     order_by_perm := @insertion_sort_perm;
     order_by_sorted := @insertion_sort_sorted |}.

(** ** [LIKE]

    A percent sign stands for any characters, an underscore for one, and the
    letters of ASCII are compared without their case. Patterns of more than
    50,000 bytes, which SQLite refuses, are not considered. *)

Definition fold_char (c : str) : str := ascii_lower <$> c.

Fixpoint like_chars (p s : list str) : bool :=
  match p with
  | [] => bool_decide (s = [])
  | c :: p' =>
      if str_eqb c (lit "%") then
        (fix any (s : list str) : bool := like_chars p' s || match s with [] => false | _ :: s' => any s' end) s
      else
        match s with
        | [] => false
        | d :: s' => (str_eqb c (lit "_") || str_eqb (fold_char c) (fold_char d)) && like_chars p' s'
        end
  end.

Definition like (pattern s : str) : bool := like_chars (chars pattern) (chars s).

Definition wildcard (c : str) : bool := str_eqb c (lit "%") || str_eqb c (lit "_").

Lemma like_any p s : like_chars (lit "%" :: p) s = true ↔ ∃ a b, s = a ++ b ∧ like_chars p b = true.
Proof.
  cbn [like_chars]. rewrite str_eqb_refl. split.
  - induction s as [|d s IH]; rewrite orb_true_iff.
    + intros [Hp|?]; [|done]. by exists [], [].
    + intros [Hp|Hs]; [by exists [], (d :: s)|]. destruct (IH Hs) as (a & b & -> & Hb). by exists (d :: a), b.
  - intros (a & b & -> & Hb). induction a as [|d a IH]; cbn [app].
    + destruct b; by rewrite Hb.
    + by rewrite IH, orb_true_r.
Qed.

Lemma like_literal p q s :
  Forall (λ c, wildcard c = false) p →
  like_chars (p ++ q) s = true ↔ ∃ m b, s = m ++ b ∧ fold_char <$> m = fold_char <$> p ∧ like_chars q b = true.
Proof.
  intros Hp. revert s. induction Hp as [|c p Hc Hp IH]; intros s; cbn [app].
  - split; [intros Hq; by exists [], s|]. intros (m & b & -> & Hm & Hq). by destruct m.
  - unfold wildcard in Hc. apply orb_false_iff in Hc as [Hc Hc']. cbn [like_chars]. rewrite Hc, Hc'. destruct s as [|d s].
    + split; [done|]. intros (m & b & E & Hm & _). by destruct m.
    + cbn [orb]. rewrite andb_true_iff, IH, str_eqb_spec. split.
      * intros [Hd (m & b & -> & Hm & Hq)]. exists (d :: m), b. cbn. by rewrite Hm, Hd.
      * intros ([|d' m] & b & E & Hm & Hq); [done|]. injection E as -> ->. injection Hm as Hd Hm. eauto 10.
Qed.

(** With no wildcard in it, a text between percent signs is searched for
    without regard to case. *)
Lemma like_contains p s :
  Forall (λ c, wildcard c = false) p →
  like_chars (lit "%" :: p ++ [lit "%"]) s = true ↔
  ∃ a m b, s = a ++ m ++ b ∧ fold_char <$> m = fold_char <$> p.
Proof.
  intros Hp. rewrite like_any. split.
  - intros (a & r & -> & Hr). apply like_literal in Hr as (m & b & -> & Hm & _); [|done]. eauto.
  - intros (a & m & b & -> & Hm). exists a, (m ++ b). split; [done|]. apply like_literal; [done|].
    exists m, b. split; [done|]. split; [done|]. apply like_any. exists b, []. by rewrite app_nil_r.
Qed.
