(* ===== verification/UsageStore.v ===== *)
(** * Stored usage

    [openfang-memory/src/usage.rs]: the events of the metering and the sums over
    them. The table is the list of its rows. Times are texts: an event has the
    date, the letter [T] and the time, as [to_rfc3339] writes them, and SQLite's
    [datetime] has a space in the middle; SQLite compares texts by their
    bytes. What a sum of floats over some rows is, the engine decides. *)

From Stdlib Require Import Ascii ZArith Lia SpecFloat.
From stdpp Require Import base strings list.
From S2P Require Import Prelude Strs Floats Sql AgentTypes Metering WasmSandbox.

Section usage.
Context {AgentId : Type} `{EqDecision AgentId}.

Record UsageRecord : Type := mkUsageRecord {
  record_agent : AgentId;
  record_model : str;
  record_input : Z;
  record_output : Z;
  record_cost : spec_float;
  record_tools : Z
}.

(** A row of [usage_events]. *)
Record UsageEvent : Type := mkEvent {
  event_agent : AgentId;
  timestamp : str;
  event_model : str;
  input_tokens : Z;
  output_tokens : Z;
  cost_usd : spec_float;
  tool_calls : Z
}.

Record UsageSummary : Type := mkSummary {
  total_input_tokens : Z;
  total_output_tokens : Z;
  total_cost_usd : spec_float;
  call_count : Z;
  total_tool_calls : Z
}.

(** ** Times *)

(** A date of ten characters and a time. *)
Record Moment : Type := mkMoment { date : str; time : str }.

Definition to_rfc3339 (m : Moment) : str := date m ++ lit "T" ++ time m.
Definition datetime (m : Moment) : str := date m ++ lit " " ++ time m.

(** The moments [datetime] is asked for. *)
Record Clock : Type := mkClock {
  hour_ago : Moment;
  day_start : Moment;
  month_start : Moment;
  days_ago : Z → Moment
}.

(** ** Queries *)

Context (total : list spec_float → spec_float).

Definition sum_cost (rows : list UsageEvent) : spec_float :=
  match rows with [] => f64_of_Z 0 | _ => total (cost_usd <$> rows) end.

Definition since (m : Moment) (e : UsageEvent) : bool := text_ltb (datetime m) (timestamp e).
Definition by_agent (a : AgentId) (e : UsageEvent) : bool := bool_decide (event_agent e = a).

Definition record (events : list UsageEvent) (r : UsageRecord) (now : Moment) : list UsageEvent :=
  events ++ [mkEvent (record_agent r) (to_rfc3339 now) (record_model r) (as_i64 (record_input r)) (as_i64 (record_output r))
               (record_cost r) (record_tools r)].

Definition cost_since (events : list UsageEvent) (a : AgentId) (m : Moment) : spec_float :=
  sum_cost (List.filter (λ e, by_agent a e && since m e) events).

Definition query_hourly (events : list UsageEvent) (c : Clock) (a : AgentId) : spec_float := cost_since events a (hour_ago c).
Definition query_daily (events : list UsageEvent) (c : Clock) (a : AgentId) : spec_float := cost_since events a (day_start c).
Definition query_monthly (events : list UsageEvent) (c : Clock) (a : AgentId) : spec_float := cost_since events a (month_start c).

Definition query_global_hourly (events : list UsageEvent) (c : Clock) : spec_float := sum_cost (List.filter (since (hour_ago c)) events).
Definition query_global_monthly (events : list UsageEvent) (c : Clock) : spec_float := sum_cost (List.filter (since (month_start c)) events).
Definition query_today_cost (events : list UsageEvent) (c : Clock) : spec_float := sum_cost (List.filter (since (day_start c)) events).

Definition i64_sum (l : list Z) : result Z str :=
  let s := foldr Z.add 0%Z l in
  if (- 2 ^ 63 <=? s)%Z && (s <? 2 ^ 63)%Z then Ok s else Err (lit "integer overflow").

Definition query_summary (events : list UsageEvent) (a : option AgentId) : result UsageSummary str :=
  let rows := match a with Some a => List.filter (by_agent a) events | None => events end in
  match i64_sum (input_tokens <$> rows), i64_sum (output_tokens <$> rows), i64_sum (tool_calls <$> rows) with
  | Ok i, Ok o, Ok t => Ok (mkSummary (as_usize i) (as_usize o) (sum_cost rows) (Z.of_nat (length rows)) (as_usize t))
  | Err e, _, _ | Ok _, Err e, _ | Ok _, Ok _, Err e => Err e
  end.

(** [MIN(timestamp)] *)
Definition query_first_event_date (events : list UsageEvent) : option str :=
  foldl (λ acc e, match acc with
                  | None => Some (timestamp e)
                  | Some t => Some (if text_ltb (timestamp e) t then timestamp e else t)
                  end) None events.

Definition cleanup_old (events : list UsageEvent) (c : Clock) (days : Z) : list UsageEvent * nat :=
  let old := λ e, text_ltb (timestamp e) (datetime (days_ago c days)) in
  (List.filter (λ e, negb (old e)) events, length (List.filter old events)).

(** What the metering is told of an agent. *)
Definition spending (events : list UsageEvent) (c : Clock) (a : AgentId) : Spending :=
  mkSpending (Ok (query_hourly events c a)) (Ok (query_daily events c a)) (Ok (query_monthly events c a)).

(** ** How times compare *)

(** An event is after a moment exactly if its date is not before that of the
    moment: the time is not looked at. *)
Lemma compare_by_date d t m :
  length d = length (date m) → text_ltb (datetime m) (to_rfc3339 (mkMoment d t)) = negb (text_ltb d (date m)).
Proof.
  unfold datetime, to_rfc3339. cbn [date time]. generalize (date m). revert d.
  induction d as [|x d IH]; intros [|y p] Hl; try done. injection Hl as Hl. cbn [app text_ltb].
  destruct (Nat.ltb_spec (nat_of_ascii y) (nat_of_ascii x)), (Nat.ltb_spec (nat_of_ascii x) (nat_of_ascii y)); try lia; try done.
  by apply IH.
Qed.

Definition dated (n : nat) (e : UsageEvent) : Prop := ∃ d t, timestamp e = to_rfc3339 (mkMoment d t) ∧ length d = n.

Lemma since_same_date m m' e :
  dated (length (date m)) e → date m = date m' → since m e = since m' e.
Proof. intros (d & t & E & Hl) Hd. unfold since. rewrite E, !compare_by_date by congruence. by rewrite Hd. Qed.

Lemma filter_ext_forall {A} (f g : A → bool) l : Forall (λ x, f x = g x) l → List.filter f l = List.filter g l.
Proof. induction 1 as [|x l Hx _ IH]; [done|]. cbn. by rewrite Hx, IH. Qed.

(** The costs of the last hour are those of the whole day, except in the first
    hour after midnight, when they are those of two days: the limit per hour is
    one per day. *)
Theorem hourly_is_daily events c a :
  Forall (dated (length (date (hour_ago c)))) events → date (hour_ago c) = date (day_start c) →
  query_hourly events c a = query_daily events c a ∧ query_global_hourly events c = query_today_cost events c.
Proof.
  intros Hd E. unfold query_hourly, query_daily, cost_since, query_global_hourly, query_today_cost. split; f_equal;
    apply filter_ext_forall; eapply Forall_impl; try exact Hd; intros e He; cbn beta; by rewrite (since_same_date _ (day_start c)).
Qed.

(** So an agent over its limit per hour is refused for the rest of the day,
    whatever it spent in the last hour. *)
Theorem hourly_limit_holds_all_day fmt name events c a q :
  Forall (dated (length (date (hour_ago c)))) events → date (hour_ago c) = date (day_start c) →
  f64_gtb (max_cost_per_hour_usd q) (f64_of_Z 0) = true → f64_geb (query_daily events c a) (max_cost_per_hour_usd q) = true →
  check_quota fmt name (spending events c a) q ≠ Ok tt.
Proof.
  intros Hd E Hq Hc. destruct (hourly_is_daily events c a Hd E) as [Eh _].
  unfold check_quota, spending. cbn [hourly]. unfold check_limit at 1. rewrite Eh, Hq, Hc. done.
Qed.

(** Recording keeps the events dated. *)
Lemma record_dated n events r now : length (date now) = n → Forall (dated n) events → Forall (dated n) (record events r now).
Proof.
  intros Hn He. apply Forall_app. split; [done|]. repeat constructor. exists (date now), (time now). by destruct now.
Qed.

(** A cleanup removes exactly the events of the days before the given one. *)
Theorem cleanup_by_date events c days :
  Forall (dated (length (date (days_ago c days)))) events →
  let '(kept, n) := cleanup_old events c days in
  Forall (λ e, since (days_ago c days) e = true) kept
  ∧ kept = List.filter (since (days_ago c days)) events ∧ n + length kept = length events.
Proof.
  intros Hd. cbn. assert (∀ e, e ∈ events → text_ltb (timestamp e) (datetime (days_ago c days)) = negb (since (days_ago c days) e)) as Hs.
  { intros e He. rewrite Forall_forall in Hd. destruct (Hd e He) as (d & t & E & Hl). unfold since.
    rewrite E, compare_by_date by done. rewrite negb_involutive. unfold to_rfc3339, datetime. cbn [date time].
    generalize (date (days_ago c days)) Hl. clear. revert d. induction d as [|x d IH]; intros [|y p] Hl; try done.
    injection Hl as Hl. cbn [app text_ltb]. case_match; [done|]. case_match; [done|]. by apply IH. }
  assert (List.filter (λ e, negb (text_ltb (timestamp e) (datetime (days_ago c days)))) events
          = List.filter (since (days_ago c days)) events) as Ek.
  { apply filter_ext_forall, Forall_forall. intros e He. by rewrite Hs, negb_involutive. }
  rewrite Ek. split_and!; [|done|].
  - apply Forall_forall. intros e [_ He]%list_elem_of_In%List.filter_In. done.
  - clear -Hs. induction events as [|e events IH]; [done|]. cbn [List.filter].
    rewrite (Hs e) by left. specialize (IH (λ x Hx, Hs x (list_elem_of_further _ _ _ Hx))).
    destruct (since _ e); cbn [negb length]; lia.
Qed.
End usage.

(** ** Examples *)

Abbreviation add_up := (foldr f64_add (f64_of_Z 0)).

(** At four in the afternoon. *)
Definition afternoon : Clock :=
  mkClock (mkMoment (lit "2026-02-14") (lit "15:00:00")) (mkMoment (lit "2026-02-14") (lit "00:00:00"))
    (mkMoment (lit "2026-02-01") (lit "00:00:00")) (λ _, mkMoment (lit "2026-02-04") (lit "16:00:00")).

(** Five dollars at one in the morning. *)
Definition morning_call : list (UsageEvent (AgentId := nat)) :=
  record [] (mkUsageRecord 7 (lit "m") 10 10 (f64_of_Z 5) 0) (mkMoment (lit "2026-02-14") (lit "01:00:00+00:00")).

Lemma morning_dated : Forall (dated (length (date (hour_ago afternoon)))) morning_call.
Proof. apply record_dated; [reflexivity|constructor]. Qed.

Lemma hourly_is_daily_witness :
  query_hourly add_up morning_call afternoon 7 = query_daily add_up morning_call afternoon 7.
Proof. apply (hourly_is_daily add_up morning_call afternoon 7); [exact morning_dated|reflexivity]. Defined.

Example morning_counts_in_the_afternoon : query_hourly add_up morning_call afternoon 7 = f64_of_Z 5.
Proof. vm_compute. reflexivity. Qed.

(** By default an agent has one dollar an hour and no limit a day. *)
Lemma hourly_limit_holds_all_day_witness :
  check_quota (λ _, []) (lit "7") (spending add_up morning_call afternoon 7) default_quota ≠ Ok tt.
Proof.
  apply hourly_limit_holds_all_day; [exact morning_dated|reflexivity|vm_compute; reflexivity|vm_compute; reflexivity].
Defined.

Lemma cleanup_by_date_witness :
  (cleanup_old morning_call afternoon 10).1 = List.filter (since (days_ago afternoon 10)) morning_call.
Proof.
  apply (cleanup_by_date morning_call afternoon 10). apply record_dated; [reflexivity|constructor].
Defined.
