(* ===== verification/SemanticMemory.v ===== *)
(** * Semantic memory

    [openfang-memory/src/semantic.rs], [consolidation.rs] and the types of
    [openfang-types/src/memory.rs]: the table of memories, its search by text
    and by embedding, and the decay of confidence. The table is the list of its
    rows; [fault] is the error of the connection, if there is one. An [f32] of
    an embedding is its 32 bits. The encoding of metadata and the reading of
    times are parameters; texts of times are those of [to_rfc3339]. A panic of
    [sort_by] is [None]. *)

From Stdlib Require Import Ascii ZArith Lia SpecFloat Sorting.Sorted.
From stdpp Require Import base strings list relations.
From S2P Require Import Prelude Strs Floats Sql.

(** ** [f32] *)

#[export] Instance spec_float_eq_dec : EqDecision spec_float.
Proof. solve_decision. Defined.

Definition f32_add : spec_float → spec_float → spec_float := SFadd 24 128.
Definition f32_mul : spec_float → spec_float → spec_float := SFmul 24 128.
Definition f32_div : spec_float → spec_float → spec_float := SFdiv 24 128.
Definition f32_sqrt : spec_float → spec_float := SFsqrt 24 128.

(** [f32::EPSILON] *)
Definition EPSILON : spec_float := S754_finite false 8388608 (-46).

Definition f32_zero : spec_float := S754_zero false.
Definition f32_minus_one : spec_float := S754_finite true 8388608 (-23).

(** [f32::from_bits] *)
Definition f32_value (bits : Z) : spec_float :=
  let sign := Z.testbit bits 31 in
  let exponent := Z.land (Z.shiftr bits 23) 255 in
  let fraction := Z.land bits 8388607 in
  if (exponent =? 255)%Z then (if (fraction =? 0)%Z then S754_infinity sign else S754_nan)
  else if (exponent =? 0)%Z then
    (if (fraction =? 0)%Z then S754_zero sign else S754_finite sign (Z.to_pos fraction) (-149))
  else S754_finite sign (Z.to_pos (fraction + 8388608)) (exponent - 150).

(** [x as f32] for an [f64], and [x as f64] for an [f32]. *)
Definition rounded_to (precision max_exponent : Z) (x : spec_float) : spec_float :=
  match x with
  | S754_finite s m e => binary_normalize precision max_exponent (if s then Zneg m else Zpos m) e s
  | _ => x
  end.

Definition f64_as_f32 : spec_float → spec_float := rounded_to 24 128.
Definition f32_as_f64 : spec_float → spec_float := rounded_to 53 1024.

(** [f32::to_le_bytes] and [f32::from_le_bytes] *)
Definition to_le_bytes (bits : Z) : str :=
  (λ k, ascii_of_nat (Z.to_nat (Z.land (Z.shiftr bits k) 255))) <$> [0; 8; 16; 24]%Z.

Definition from_le_bytes (b : str) : Z :=
  foldr (λ c acc, Z.of_nat (nat_of_ascii c) + 256 * acc)%Z 0%Z b.

(** ** Embeddings *)

Abbreviation Embedding := (list Z).

Definition embedding_to_bytes (e : Embedding) : str := concat (to_le_bytes <$> e).

Fixpoint embedding_from_bytes (b : str) : Embedding :=
  match b with
  | b0 :: b1 :: b2 :: b3 :: b => from_le_bytes [b0; b1; b2; b3] :: embedding_from_bytes b
  | _ => []
  end.

(** The loop of [cosine_similarity]: the product and the two norms. *)
Fixpoint products (a b : Embedding) (dot norm_a norm_b : spec_float) : spec_float * spec_float * spec_float :=
  match a, b with
  | x :: a, y :: b =>
      let x := f32_value x in
      let y := f32_value y in
      products a b (f32_add dot (f32_mul x y)) (f32_add norm_a (f32_mul x x)) (f32_add norm_b (f32_mul y y))
  | _, _ => (dot, norm_a, norm_b)
  end.

Definition cosine_similarity (a b : Embedding) : spec_float :=
  if negb (length a =? length b) || bool_decide (a = []) then f32_zero
  else
    let '(dot, norm_a, norm_b) := products a b f32_zero f32_zero f32_zero in
    let denom := f32_mul (f32_sqrt norm_a) (f32_sqrt norm_b) in
    if SFltb denom EPSILON then f32_zero else f32_div dot denom.

(** ** [f32] at work *)

Lemma products_swap a b dot na nb :
  products b a dot nb na = let '(d, x, y) := products a b dot na nb in (d, y, x).
Proof.
  revert b dot na nb. induction a as [|x a IH]; intros [|y b] dot na nb; try done. cbn [products].
  unfold f32_mul at 1. rewrite SFmul_comm. apply IH.
Qed.

Lemma cosine_comm a b : cosine_similarity a b = cosine_similarity b a.
Proof.
  unfold cosine_similarity. rewrite (Nat.eqb_sym (length b)). destruct (Nat.eqb_spec (length a) (length b)) as [Hl|]; [|done].
  cbn [negb orb]. destruct a as [|x a], b as [|y b]; try done. rewrite (products_swap (x :: a)).
  destruct (products _ _ _ _ _) as [[d na] nb]. unfold f32_mul. by rewrite SFmul_comm.
Qed.

Lemma le_byte n k : (0 ≤ n)%Z → (0 ≤ k)%Z →
  Z.of_nat (nat_of_ascii (ascii_of_nat (Z.to_nat (Z.land (Z.shiftr n k) 255)))) = (n / 2 ^ k mod 256)%Z.
Proof.
  intros Hn Hk. change 255%Z with (Z.ones 8). rewrite Z.land_ones, Z.shiftr_div_pow2 by lia. change (2 ^ 8)%Z with 256%Z.
  pose proof (Z.mod_pos_bound (n / 2 ^ k) 256). rewrite nat_ascii_embedding by lia. lia.
Qed.

Lemma from_to_le_bytes n : (0 ≤ n < 2 ^ 32)%Z → from_le_bytes (to_le_bytes n) = n.
Proof.
  intros Hn. unfold from_le_bytes, to_le_bytes. cbn [fmap list_fmap foldr]. rewrite !le_byte by lia.
  change (2 ^ 32)%Z with 4294967296%Z in Hn. change (2 ^ 24)%Z with 16777216%Z. change (2 ^ 16)%Z with 65536%Z.
  change (2 ^ 8)%Z with 256%Z. change (2 ^ 0)%Z with 1%Z. Z.div_mod_to_equations. lia.
Qed.

(** An embedding read back from its column is the one that was stored. *)
Theorem embedding_round_trip (e : Embedding) :
  Forall (λ b, 0 ≤ b < 2 ^ 32)%Z e → embedding_from_bytes (embedding_to_bytes e) = e.
Proof.
  induction 1 as [|b e Hb He IH]; [done|]. unfold embedding_to_bytes in *. cbn [fmap list_fmap concat].
  rewrite <-(from_to_le_bytes b Hb) at 2. rewrite <-IH at 2. done.
Qed.

(** ** [sort_by] *)

Definition not_greater {A} (cmp : A → A → comparison) (a b : A) : bool :=
  match cmp a b with Gt => false | _ => true end.

(** A comparison function that is a total order sorts, any other gives some
    arrangement or a panic. *)
Class SortBy := {
  sort_by {A} (cmp : A → A → comparison) (l : list A) : option (list A);
  sort_by_perm {A} (cmp : A → A → comparison) l l' : sort_by cmp l = Some l' → l' ≡ₚ l;
  sort_by_sorted {A} (cmp : A → A → comparison) l :
    preorder_on (λ x, x ∈ l) (not_greater cmp) →
    ∃ l', sort_by cmp l = Some l' ∧ StronglySorted (λ a b, not_greater cmp a b = true) l'
}.

Definition insertion_sort_by {A} (cmp : A → A → comparison) (l : list A) : option (list A) :=
  Some (insertion_sort (not_greater cmp) l).

Lemma insertion_sort_by_perm {A} (cmp : A → A → comparison) l l' : insertion_sort_by cmp l = Some l' → l' ≡ₚ l.
Proof. intros [= <-]. apply insertion_sort_perm. Qed.

Lemma insertion_sort_by_sorted {A} (cmp : A → A → comparison) l :
  preorder_on (λ x, x ∈ l) (not_greater cmp) →
  ∃ l', insertion_sort_by cmp l = Some l' ∧ StronglySorted (λ a b, not_greater cmp a b = true) l'.
Proof. intros Hp. eexists. split; [done|]. by apply insertion_sort_sorted_on. Qed.

Definition insertion_sorting : SortBy :=
  {| sort_by := @insertion_sort_by;
     sort_by_perm := @insertion_sort_by_perm;
     sort_by_sorted := @insertion_sort_by_sorted |}.

(** ** Memories *)

Inductive MemorySource : Type := Conversation | Document | Observation | Inference | UserProvided | System.

#[export] Instance source_eq_dec : EqDecision MemorySource.
Proof. solve_decision. Defined.

Definition sources : list MemorySource := [Conversation; Document; Observation; Inference; UserProvided; System].

(** As [serde_json] writes it, in quotes. *)
Definition source_text (s : MemorySource) : str :=
  let quote := ascii_of_nat 34 in
  [quote] ++
  lit match s with
      | Conversation => "conversation" | Document => "document" | Observation => "observation"
      | Inference => "inference" | UserProvided => "user_provided" | System => "system"
      end ++ [quote].

Definition parse_source (text : str) : MemorySource :=
  default System (List.find (λ s, str_eqb (source_text s) text) sources).

Lemma not_less {A} (f : A → spec_float) (a b : A) :
  not_greater (λ a b, default Eq (SFcompare (f b) (f a))) a b = true → SFltb (f a) (f b) = false.
Proof.
  unfold not_greater, SFltb. destruct (f a) as [[]|[]| |[] ? ?], (f b) as [[]|[]| |[] ? ?]; cbn; try done; float_cases.
Qed.

Section store.
Context {AgentId MemoryId Metadata Time : Type} `{EqDecision AgentId} `{EqDecision MemoryId}.
Context (metadata_to_string : Metadata → str) (metadata_from_str : str → option Metadata) (no_metadata : Metadata).
Context (parse_from_rfc3339 : str → option Time).
Context `{SqlOrder} `{SortBy}.

(** A row of [memories]. *)
Record MemoryRow : Type := mkMemoryRow {
  row_id : MemoryId;
  row_agent : AgentId;
  row_content : str;
  row_source : str;
  row_scope : str;
  row_confidence : spec_float;
  row_metadata : str;
  row_created : str;
  row_accessed : str;
  row_count : Z;
  row_deleted : bool;
  row_embedding : option str
}.

#[export] Instance row_eq_dec : EqDecision MemoryRow.
Proof. solve_decision. Defined.

Record MemoryFragment : Type := mkFragment {
  fragment_id : MemoryId;
  fragment_agent : AgentId;
  fragment_content : str;
  embedding : option Embedding;
  metadata : Metadata;
  source : MemorySource;
  confidence : spec_float;
  fragment_created : Time;
  fragment_accessed : Time;
  access_count : Z;
  scope : str
}.

Record MemoryFilter : Type := mkFilter {
  filter_agent : option AgentId;
  filter_source : option MemorySource;
  filter_scope : option str;
  min_confidence : option spec_float;
  after : option Time;
  before : option Time;
  filter_metadata : Metadata
}.

(** [MemoryFilter::agent] *)
Definition agent_filter (a : AgentId) : MemoryFilter := mkFilter (Some a) None None None None None no_metadata.

Abbreviation table := (list MemoryRow).

(** ** Remembering *)

Definition remember_with_embedding (t : table) (fault : option str) (a : AgentId) (content : str) (src : MemorySource)
    (scp : str) (meta : Metadata) (emb : option Embedding) (fresh : MemoryId) (now : str) : table * result MemoryId str :=
  match fault with
  | Some e => (t, Err e)
  | None =>
      if decide (fresh ∈ row_id <$> t) then (t, Err (lit "UNIQUE constraint failed: memories.id"))
      else (t ++ [mkMemoryRow fresh a content (source_text src) scp (f64_of_Z 1) (metadata_to_string meta) now now 0 false
                    (embedding_to_bytes <$> emb)], Ok fresh)
  end.

Definition remember (t : table) (fault : option str) (a : AgentId) (content : str) (src : MemorySource)
    (scp : str) (meta : Metadata) (fresh : MemoryId) (now : str) : table * result MemoryId str :=
  remember_with_embedding t fault a content src scp meta None fresh now.

(** [UPDATE .. WHERE id = ..] *)
Definition update_where (i : MemoryId) (f : MemoryRow → MemoryRow) (t : table) : table :=
  (λ r, if decide (row_id r = i) then f r else r) <$> t.

Definition with_deleted (r : MemoryRow) : MemoryRow :=
  mkMemoryRow (row_id r) (row_agent r) (row_content r) (row_source r) (row_scope r) (row_confidence r) (row_metadata r)
    (row_created r) (row_accessed r) (row_count r) true (row_embedding r).

Definition forget (t : table) (fault : option str) (i : MemoryId) : table * result unit str :=
  match fault with Some e => (t, Err e) | None => (update_where i with_deleted t, Ok tt) end.

Definition with_embedding (b : str) (r : MemoryRow) : MemoryRow :=
  mkMemoryRow (row_id r) (row_agent r) (row_content r) (row_source r) (row_scope r) (row_confidence r) (row_metadata r)
    (row_created r) (row_accessed r) (row_count r) (row_deleted r) (Some b).

Definition update_embedding (t : table) (fault : option str) (i : MemoryId) (e : Embedding) : table * result unit str :=
  match fault with
  | Some err => (t, Err err)
  | None => (update_where i (with_embedding (embedding_to_bytes e)) t, Ok tt)
  end.

(** ** Recalling *)

Definition asked {A} (x : option A) (p : A → bool) : bool := match x with Some x => p x | None => true end.

(** The conditions of the filter. *)
Definition passes (f : MemoryFilter) (r : MemoryRow) : bool :=
  asked (filter_agent f) (λ a, bool_decide (row_agent r = a)) &&
  asked (filter_scope f) (str_eqb (row_scope r)) &&
  asked (min_confidence f) (λ c, SFleb (f32_as_f64 c) (row_confidence r)) &&
  asked (filter_source f) (λ s, str_eqb (row_source r) (source_text s)).

(** The [WHERE] of a recall. *)
Definition selected (query : str) (filter : option MemoryFilter) (by_vector : bool) (r : MemoryRow) : bool :=
  negb (row_deleted r) &&
  (by_vector || is_empty query || like (lit "%" ++ query ++ lit "%") (row_content r)) &&
  asked filter (λ f, passes f r).

(** [ORDER BY accessed_at DESC, access_count DESC] *)
Definition newest : MemoryRow → MemoryRow → bool :=
  lex_leb (descending (λ a b, text_leb (row_accessed a) (row_accessed b)))
          (descending (λ a b, (row_count a <=? row_count b)%Z)).

Definition fragment_of (now : Time) (r : MemoryRow) : MemoryFragment :=
  mkFragment (row_id r) (row_agent r) (row_content r) (embedding_from_bytes <$> row_embedding r)
    (default no_metadata (metadata_from_str (row_metadata r))) (parse_source (row_source r))
    (f64_as_f32 (row_confidence r)) (default now (parse_from_rfc3339 (row_created r)))
    (default now (parse_from_rfc3339 (row_accessed r))) (row_count r mod 2 ^ 64) (row_scope r).

Definition similarity (qe : Embedding) (f : MemoryFragment) : spec_float :=
  match embedding f with Some e => cosine_similarity qe e | None => f32_minus_one end.

(** [sim_b.partial_cmp(&sim_a)] *)
Definition by_similarity (qe : Embedding) (a b : MemoryFragment) : comparison :=
  default Eq (SFcompare (similarity qe b) (similarity qe a)).

Definition fetch_limit (limit : nat) (qe : option Embedding) : nat :=
  match qe with Some _ => (limit * 10) `max` 100 | None => limit end.

(** The best of the candidates. *)
Definition ranked (limit : nat) (qe : option Embedding) (fs : list MemoryFragment) : option (list MemoryFragment) :=
  match qe with
  | None => Some fs
  | Some q => take limit <$> sort_by (by_similarity q) fs
  end.

Definition with_access (now : str) (r : MemoryRow) : MemoryRow :=
  mkMemoryRow (row_id r) (row_agent r) (row_content r) (row_source r) (row_scope r) (row_confidence r) (row_metadata r)
    (row_created r) now (row_count r + 1) (row_deleted r) (row_embedding r).

(** The last loop: the [n]-th update has its own time, and may fail, which is
    ignored. *)
Fixpoint touch_all (clock : nat → str) (stuck : nat → bool) (n : nat) (ids : list MemoryId) (t : table) : table :=
  match ids with
  | [] => t
  | i :: ids => touch_all clock stuck (S n) ids (if stuck n then t else update_where i (with_access (clock n)) t)
  end.

Definition candidates (t : table) (query : str) (limit : nat) (filter : option MemoryFilter) (qe : option Embedding) : list MemoryRow :=
  limited newest (fetch_limit limit qe) (List.filter (selected query filter (bool_decide (is_Some qe))) t).

Definition recall_with_embedding (t : table) (fault : option str) (query : str) (limit : nat) (filter : option MemoryFilter)
    (qe : option Embedding) (now : Time) (clock : nat → str) (stuck : nat → bool)
    : option (table * result (list MemoryFragment) str) :=
  match fault with
  | Some e => Some (t, Err e)
  | None =>
      fs ← ranked limit qe (fragment_of now <$> candidates t query limit filter qe);
      Some (touch_all clock stuck 0 (fragment_id <$> fs) t, Ok fs)
  end.

Definition recall (t : table) (fault : option str) (query : str) (limit : nat) (filter : option MemoryFilter)
    (now : Time) (clock : nat → str) (stuck : nat → bool) : option (table * result (list MemoryFragment) str) :=
  recall_with_embedding t fault query limit filter None now clock stuck.

(** ** Consolidation *)

Record ConsolidationReport : Type := mkConsolidation {
  memories_merged : Z;
  memories_decayed : Z
}.

Definition FLOOR : spec_float := f64_lit 1 10.

(** [MAX(0.1, confidence * factor)]; no number, which SQLite takes for [NULL],
    is [None]. *)
Definition decayed (factor c : spec_float) : option spec_float :=
  match f64_mul c factor with
  | S754_nan => None
  | x => Some (if SFltb FLOOR x then x else FLOOR)
  end.

Lemma decayed_floor factor c x : decayed factor c = Some x → SFleb FLOOR x = true.
Proof.
  unfold decayed. assert (SFleb FLOOR FLOOR = true) as Hr by (vm_compute; reflexivity).
  assert (∀ y, SFleb FLOOR (if SFltb FLOOR y then y else FLOOR) = true) as Hm.
  { intros y. destruct (SFltb FLOOR y) eqn:E; [by apply SFltb_leb|exact Hr]. }
  clear Hr. revert Hm. generalize FLOOR (f64_mul c factor). intros low y Hm. destruct y; intros Hx; try discriminate Hx; apply Some_inj in Hx as <-; apply Hm.
Qed.

Definition decays (cutoff : str) (r : MemoryRow) : bool :=
  negb (row_deleted r) && text_ltb (row_accessed r) cutoff && SFltb FLOOR (row_confidence r).

Definition with_confidence (c : spec_float) (r : MemoryRow) : MemoryRow :=
  mkMemoryRow (row_id r) (row_agent r) (row_content r) (row_source r) (row_scope r) c (row_metadata r)
    (row_created r) (row_accessed r) (row_count r) (row_deleted r) (row_embedding r).

Definition decay_row (cutoff : str) (factor : spec_float) (r : MemoryRow) : option MemoryRow :=
  if decays cutoff r then c ← decayed factor (row_confidence r); Some (with_confidence c r) else Some r.

(** [cutoff] is the text of the time seven days ago. A statement that fails
    changes nothing. *)
Definition consolidate (t : table) (fault : option str) (decay_rate : spec_float) (cutoff : str)
    : table * result ConsolidationReport str :=
  match fault with
  | Some e => (t, Err e)
  | None =>
      let factor := SFsub 53 1024 (f64_of_Z 1) (f32_as_f64 decay_rate) in
      match mapM (decay_row cutoff factor) t with
      | None => (t, Err (lit "NOT NULL constraint failed: memories.confidence"))
      | Some t' => (t', Ok (mkConsolidation 0 (Z.of_nat (length (List.filter (decays cutoff) t)))))
      end
  end.

(** ** What a recall returns *)

Lemma length_ranked limit qe fs fs' :
  length fs ≤ fetch_limit limit qe → ranked limit qe fs = Some fs' → length fs' ≤ limit.
Proof.
  destruct qe as [q|]; cbn [ranked fetch_limit].
  - intros _ Hs. apply fmap_Some in Hs as (l & _ & ->). rewrite length_take. lia.
  - by intros Hl [= <-].
Qed.

Lemma elem_of_ranked limit qe fs fs' x : ranked limit qe fs = Some fs' → x ∈ fs' → x ∈ fs.
Proof.
  destruct qe as [q|]; cbn [ranked]; [|by intros [= ->]].
  intros Hs Hx. apply fmap_Some in Hs as (l & Hs & ->). apply sort_by_perm in Hs. rewrite <-Hs.
  apply elem_of_take in Hx as (i & Hx & _). by eapply list_elem_of_lookup_2.
Qed.

Lemma elem_of_candidates t query limit filter qe r :
  r ∈ candidates t query limit filter qe → r ∈ t ∧ selected query filter (bool_decide (is_Some qe)) r = true.
Proof. intros Hr. apply elem_of_limited in Hr. apply list_elem_of_In, filter_In in Hr as [Hr Hs]. by apply list_elem_of_In in Hr. Qed.

(** A successful recall, taken apart. *)
Lemma recall_inv t fault query limit filter qe now clock stuck t' fs :
  recall_with_embedding t fault query limit filter qe now clock stuck = Some (t', Ok fs) →
  fault = None ∧ ranked limit qe (fragment_of now <$> candidates t query limit filter qe) = Some fs ∧
  t' = touch_all clock stuck 0 (fragment_id <$> fs) t.
Proof.
  unfold recall_with_embedding. destruct fault; [done|]. intros Hr. apply bind_Some in Hr as (l & Hl & [= <- <-]). done.
Qed.

Lemma recalled_selected t fault query limit filter qe now clock stuck t' fs x :
  recall_with_embedding t fault query limit filter qe now clock stuck = Some (t', Ok fs) → x ∈ fs →
  ∃ r, r ∈ t ∧ x = fragment_of now r ∧ selected query filter (bool_decide (is_Some qe)) r = true.
Proof.
  intros (_ & Hk & _)%recall_inv Hx. apply (elem_of_ranked _ _ _ _ _ Hk) in Hx.
  apply list_elem_of_fmap in Hx as (r & -> & Hr). apply elem_of_candidates in Hr as [Hr Hs]. eauto.
Qed.

Lemma selected_live query filter v r : selected query filter v r = true → row_deleted r = false.
Proof. unfold selected. by destruct (row_deleted r). Qed.

Lemma selected_passes query f v r : selected query (Some f) v r = true → passes f r = true.
Proof. unfold selected. rewrite !andb_true_iff. by intros [_ ?]. Qed.

Lemma passes_agent f a r : filter_agent f = Some a → passes f r = true → row_agent r = a.
Proof. unfold passes. intros ->. rewrite !andb_true_iff. cbn [asked]. rewrite bool_decide_eq_true. by intros [[[? _] _] _]. Qed.

(** ** What an update leaves alone *)

Lemma row_id_update i f t : (∀ r, row_id (f r) = row_id r) → row_id <$> update_where i f t = row_id <$> t.
Proof. intros Hf. unfold update_where. rewrite <-list_fmap_compose. apply list_fmap_ext. intros k r _. cbn. case_decide; auto. Qed.

Lemma row_id_touch clock stuck n ids t : row_id <$> touch_all clock stuck n ids t = row_id <$> t.
Proof.
  revert n t. induction ids as [|i ids IH]; intros n t; [done|]. cbn [touch_all]. rewrite IH.
  destruct (stuck n); [done|]. by apply row_id_update.
Qed.

(** The rows, as far as the columns a recall does not write go. *)
Definition same_memory (r r' : MemoryRow) : Prop :=
  row_id r' = row_id r ∧ row_agent r' = row_agent r ∧ row_content r' = row_content r ∧ row_source r' = row_source r ∧
  row_scope r' = row_scope r ∧ row_confidence r' = row_confidence r ∧ row_metadata r' = row_metadata r ∧
  row_created r' = row_created r ∧ row_deleted r' = row_deleted r ∧ row_embedding r' = row_embedding r.

(** A row counts one access for every time its identifier was touched. *)
Definition counted (ids : list MemoryId) (r r' : MemoryRow) : Prop :=
  same_memory r r' ∧ row_count r' = (row_count r + Z.of_nat (length (List.filter (λ i, bool_decide (row_id r = i)) ids)))%Z ∧
  (row_id r ∉ ids → r' = r).

Lemma touch_counted clock n ids t : Forall2 (counted ids) t (touch_all clock (λ _, false) n ids t).
Proof using Type.
  clear metadata_to_string metadata_from_str no_metadata parse_from_rfc3339.
  revert n t. induction ids as [|i ids IH]; intros n t; cbn [touch_all].
  - apply Forall_Forall2_diag, Forall_true. intros r. split; [done|]. cbn. split; [lia|done].
  - specialize (IH (S n) (update_where i (with_access (clock n)) t)). unfold update_where in IH at 1.
    apply (Forall2_fmap_l (λ r, if decide (row_id r = i) then with_access (clock n) r else r)) in IH. eapply Forall2_impl; [exact IH|]. intros r r' (Hs & Hc & Hn).
    unfold counted. cbn [List.filter]. destruct (decide (row_id r = i)) as [E|E].
    + cbn [with_access row_id row_count] in *. rewrite (bool_decide_eq_true_2 _ E). cbn [length].
      split; [exact Hs|]. split; [lia|]. intros Hni. destruct Hni. rewrite E. left.
    + rewrite (bool_decide_eq_false_2 _ E). split; [done|]. split; [done|]. rewrite not_elem_of_cons. tauto.
Qed.

Lemma count_once (i : MemoryId) (ids : list MemoryId) :
  NoDup ids → Z.of_nat (length (List.filter (λ j, bool_decide (i = j)) ids)) = if decide (i ∈ ids) then 1%Z else 0%Z.
Proof using Type.
  clear metadata_to_string metadata_from_str no_metadata parse_from_rfc3339.
  induction 1 as [|j ids Hj Hnd IH]; [by case_decide as Hi; [apply elem_of_nil in Hi|]|]. cbn [List.filter].
  destruct (decide (i = j)) as [<-|Hne].
  - rewrite bool_decide_eq_true_2 by done. rewrite decide_True by left. cbn [length].
    rewrite decide_False in IH by done. lia.
  - rewrite bool_decide_eq_false_2, IH by done. apply decide_ext. rewrite elem_of_cons. tauto.
Qed.

Lemma candidates_ids t query limit filter qe now :
  NoDup (row_id <$> t) → NoDup (fragment_id <$> (fragment_of now <$> candidates t query limit filter qe)).
Proof.
  intros Hnd. rewrite <-list_fmap_compose. change (fragment_id ∘ fragment_of now) with row_id. unfold candidates, limited.
  rewrite fmap_take. eapply sublist_NoDup; [|apply sublist_take]. rewrite order_by_perm.
  induction t as [|r t IH]; [constructor|]. apply NoDup_cons in Hnd as [Hr Hnd]. cbn [List.filter].
  destruct (selected _ _ _ r); [|auto]. cbn. constructor; [|auto]. contradict Hr.
  apply list_elem_of_fmap in Hr as (r' & -> & Hr'). apply list_elem_of_In, filter_In in Hr' as [Hr' _].
  apply list_elem_of_fmap_2. by apply list_elem_of_In.
Qed.

Lemma ranked_ids limit qe fs fs' :
  NoDup (fragment_id <$> fs) → ranked limit qe fs = Some fs' → NoDup (fragment_id <$> fs').
Proof.
  destruct qe as [q|]; cbn [ranked]; [|by intros ? [= <-]]. intros Hnd Hs.
  apply fmap_Some in Hs as (l & Hs & ->). apply sort_by_perm in Hs. rewrite fmap_take.
  eapply sublist_NoDup; [|apply sublist_take]. by rewrite Hs.
Qed.

(** A recall returns at most as many memories as asked for, all of them
    present, not forgotten, and passing the filter; without an embedding their
    text matches the query. It counts one access for each memory returned, and
    changes no other column of the table. *)
Theorem recall_sound t query limit filter qe now clock t' fs :
  NoDup (row_id <$> t) →
  recall_with_embedding t None query limit filter qe now clock (λ _, false) = Some (t', Ok fs) →
  length fs ≤ limit ∧
  (∀ x, x ∈ fs → ∃ r, r ∈ t ∧ x = fragment_of now r ∧ row_deleted r = false ∧ asked filter (λ f, passes f r) = true ∧
     (qe = None → query ≠ [] → like (lit "%" ++ query ++ lit "%") (row_content r) = true)) ∧
  Forall2 (λ r r', same_memory r r' ∧
                   row_count r' = (row_count r + if decide (row_id r ∈ fragment_id <$> fs) then 1 else 0)%Z) t t'.
Proof.
  intros Hnd Hr. pose proof (recall_inv _ _ _ _ _ _ _ _ _ _ _ Hr) as (_ & Hk & ->). split; [|split].
  - eapply length_ranked; [|exact Hk]. rewrite length_fmap. unfold candidates. rewrite limited_length. lia.
  - intros x Hx. destruct (recalled_selected _ _ _ _ _ _ _ _ _ _ _ _ Hr Hx) as (r & Hrt & -> & Hs).
    exists r. unfold selected in Hs. rewrite !andb_true_iff, negb_true_iff in Hs. destruct Hs as [[Hd Hq] Hf].
    split; [done|]. split; [done|]. split; [done|]. split; [done|]. intros -> Hne. cbn in Hq. by destruct query.
  - eapply Forall2_impl; [apply touch_counted|]. intros r r' (Hs & Hc & _). split; [done|]. rewrite Hc. f_equal.
    apply count_once. eapply ranked_ids; [|exact Hk]. by apply candidates_ids.
Qed.

Lemma newest_preorder : preorder newest.
Proof. unfold newest. auto with preorders. Qed.

(** A recall by text misses no memory it should return, unless there are more
    than asked for; then what it returns was used later, or as late and at
    least as often, than what it leaves out. *)
Theorem recall_text_complete t query limit filter now clock stuck t' fs r :
  recall t None query limit filter now clock stuck = Some (t', Ok fs) →
  r ∈ t → selected query filter false r = true →
  fragment_of now r ∈ fs ∨
  (length fs = limit ∧ ∀ x, x ∈ fs → ∃ r', r' ∈ t ∧ x = fragment_of now r' ∧ newest r' r = true).
Proof.
  unfold recall. intros (_ & [= <-] & _)%recall_inv Hr Hs. set (l := List.filter (selected query filter false) t).
  assert (r ∈ l) as Hl by (apply list_elem_of_In, filter_In; split; [by apply list_elem_of_In|done]).
  change (candidates t query limit filter None) with (limited newest limit l).
  destruct (decide (r ∈ limited newest limit l)) as [Hin|Hout].
  - left. by apply list_elem_of_fmap_2.
  - right. split.
    + rewrite length_fmap, limited_length. apply Nat.min_l. destruct (Nat.le_gt_cases limit (length l)); [done|].
      destruct Hout. rewrite limited_all by lia. done.
    + intros x Hx. apply list_elem_of_fmap in Hx as (r' & -> & Hr'). exists r'.
      split; [|split; [done|]].
      * apply elem_of_limited, list_elem_of_In, filter_In in Hr' as [? _]. by apply list_elem_of_In.
      * eapply limited_first; eauto using newest_preorder.
Qed.

(** ** The best matches *)

Lemma similarity_preorder q (fs : list MemoryFragment) :
  (∀ x, x ∈ fs → similarity q x ≠ S754_nan) → preorder_on (λ x, x ∈ fs) (not_greater (by_similarity q)).
Proof.
  intros Hn.
  assert (∀ a b, a ∈ fs → b ∈ fs → not_greater (by_similarity q) a b = SFleb (similarity q b) (similarity q a)) as E.
  { intros a b Ha Hb. unfold not_greater, by_similarity, SFleb.
    destruct (SFcompare (similarity q b) (similarity q a)) as [[]|] eqn:Ec; try done.
    apply SFcompare_None in Ec as [Ec|Ec]; by apply Hn in Ec. }
  split.
  - intros a b Ha Hb. rewrite !E by done. apply SFleb_total; auto.
  - intros a b c Ha Hb Hc. rewrite !E by done. intros ? ?. by eapply SFleb_trans.
Qed.

(** With an embedding, and similarities that are numbers, a recall gives the
    best of the candidates, best first: of the candidates, none that is left
    out is more similar than one that is returned. *)
Theorem recall_best t query limit filter q now clock stuck :
  let cs := fragment_of now <$> candidates t query limit filter (Some q) in
  (∀ x, x ∈ cs → similarity q x ≠ S754_nan) →
  ∃ t' fs, recall_with_embedding t None query limit filter (Some q) now clock stuck = Some (t', Ok fs) ∧
    StronglySorted (λ a b, SFltb (similarity q a) (similarity q b) = false) fs ∧
    (∀ x y, x ∈ fs → y ∈ cs → y ∉ fs → SFltb (similarity q x) (similarity q y) = false) ∧
    length fs = limit `min` length cs.
Proof.
  intros cs Hn. destruct (sort_by_sorted (by_similarity q) cs (similarity_preorder q cs Hn)) as (l & Hl & Hs).
  pose proof (sort_by_perm _ _ _ Hl) as Hp.
  assert (StronglySorted (λ a b, SFltb (similarity q a) (similarity q b) = false) l) as Hsorted.
  { clear -Hs. induction Hs as [|x l Hs IH Hx]; constructor; [done|]. eapply Forall_impl; [exact Hx|].
    intros y Hy. by apply not_less. }
  exists (touch_all clock stuck 0 (fragment_id <$> take limit l) t), (take limit l).
  split; [|split; [|split]].
  - unfold recall_with_embedding. cbn [ranked]. fold cs. by rewrite Hl.
  - by apply sorted_take.
  - intros x y Hx Hy Hny. rewrite <-Hp, <-(take_drop limit l) in Hy. apply elem_of_app in Hy as [Hy|Hy]; [done|].
    exact (sorted_take_drop _ limit l x y Hsorted Hx Hy).
  - by rewrite length_take, Hp.
Qed.

(** What the search by embedding does not look at is not found, however
    similar it is. *)
Lemma recall_candidates_only t query limit filter q now clock stuck t' fs r :
  recall_with_embedding t None query limit filter (Some q) now clock stuck = Some (t', Ok fs) →
  fragment_of now r ∈ fs → fragment_of now r ∈ fragment_of now <$> candidates t query limit filter (Some q).
Proof. intros (_ & Hk & _)%recall_inv Hx. by eapply elem_of_ranked. Qed.

(** ** Forgetting is for good *)

Inductive memory_step : table → table → Prop :=
| step_remember t fault a content src scp meta emb fresh now :
    memory_step t (remember_with_embedding t fault a content src scp meta emb fresh now).1
| step_recall t fault query limit filter qe now clock stuck t' r :
    recall_with_embedding t fault query limit filter qe now clock stuck = Some (t', r) → memory_step t t'
| step_forget t fault i : memory_step t (forget t fault i).1
| step_embedding t fault i e : memory_step t (update_embedding t fault i e).1
| step_consolidate t fault rate cutoff : memory_step t (consolidate t fault rate cutoff).1.

(** The identifier is taken, and its rows are deleted. *)
Definition gone (i : MemoryId) (t : table) : Prop :=
  i ∈ row_id <$> t ∧ ∀ r, r ∈ t → row_id r = i → row_deleted r = true.

Lemma gone_update i j f t :
  (∀ r, row_id (f r) = row_id r) → (∀ r, row_deleted r = true → row_deleted (f r) = true) →
  gone i t → gone i (update_where j f t).
Proof.
  intros Hi Hd [Hin Hg]. split; [by rewrite row_id_update|]. intros r Hr E.
  apply list_elem_of_fmap in Hr as (r0 & -> & Hr). case_decide; auto. rewrite Hi in E. auto.
Qed.

Lemma gone_touch i clock stuck n ids t : gone i t → gone i (touch_all clock stuck n ids t).
Proof.
  revert n t. induction ids as [|j ids IH]; intros n t Hg; [done|]. cbn [touch_all]. apply IH.
  destruct (stuck n); [done|]. by apply gone_update.
Qed.

Lemma decay_rows cutoff factor t t' :
  mapM (decay_row cutoff factor) t = Some t' →
  Forall2 (λ r r', r' = r ∧ decays cutoff r = false ∨
    decays cutoff r = true ∧ ∃ c, decayed factor (row_confidence r) = Some c ∧ r' = with_confidence c r) t t'.
Proof.
  intros Hm. apply mapM_Some in Hm. eapply Forall2_impl; [exact Hm|]. intros r r'. unfold decay_row.
  destruct (decays cutoff r); [|by intros [= ->]; left]. intros (c & Hc & [= <-])%bind_Some. right. eauto.
Qed.

Lemma gone_consolidate i t fault rate cutoff : gone i t → gone i (consolidate t fault rate cutoff).1.
Proof.
  intros [Hin Hg]. unfold consolidate. destruct fault; [done|]. cbv zeta. destruct (mapM _ t) as [t'|] eqn:E; [|done]. cbn [fst].
  apply decay_rows in E. split.
  - assert (row_id <$> t' = row_id <$> t) as ->; [|done]. clear -E.
    induction E as [|r r' t t' Hr _ IH]; [done|]. cbn. rewrite IH. f_equal. by destruct Hr as [[-> _]|(_ & c & _ & ->)].
  - intros r' Hr' Ei. apply list_elem_of_lookup in Hr' as [k Hk]. destruct (Forall2_lookup_r _ _ _ _ _ E Hk) as (r & Hr & Hs).
    apply list_elem_of_lookup_2 in Hr. destruct Hs as [[-> _]|(_ & c & _ & ->)]; auto. cbn. auto.
Qed.

Lemma gone_step i t t' : memory_step t t' → gone i t → gone i t'.
Proof.
  intros Hs Hg. destruct Hs.
  - unfold remember_with_embedding. destruct fault; [done|]. case_decide as Hf; [done|]. destruct Hg as [Hin Hg]. cbn. split.
    + rewrite fmap_app, elem_of_app. by left.
    + intros r Hr E. apply elem_of_app in Hr as [Hr|Hr%list_elem_of_singleton]; [auto|]. subst r. cbn in E. by subst.
  - unfold recall_with_embedding in *. destruct fault as [e|]; [by simplify_eq|].
    match goal with H : _ = Some _ |- _ => apply bind_Some in H as (l & _ & [= <- <-]) end. by apply gone_touch.
  - unfold forget. destruct fault; [done|]. by apply gone_update.
  - unfold update_embedding. destruct fault; [done|]. by apply gone_update.
  - by apply gone_consolidate.
Qed.

(** A memory that was forgotten is never recalled, whatever is remembered,
    recalled, changed and consolidated after. *)
Theorem forgotten_never_recalled t i t2 fault query limit filter qe now clock stuck t3 fs :
  i ∈ row_id <$> t → rtc memory_step (forget t None i).1 t2 →
  recall_with_embedding t2 fault query limit filter qe now clock stuck = Some (t3, Ok fs) →
  i ∉ fragment_id <$> fs.
Proof.
  intros Hi Hsteps Hr Hin.
  assert (gone i (forget t None i).1) as Hg.
  { split; cbn [forget fst]; [by rewrite row_id_update|]. intros r Hr' E.
    apply list_elem_of_fmap in Hr' as (r0 & -> & _). case_decide; [done|]. done. }
  assert (gone i t2) as [_ Hg2] by (clear Hi Hr; induction Hsteps; eauto using gone_step).
  apply list_elem_of_fmap in Hin as (x & -> & Hx).
  destruct (recalled_selected _ _ _ _ _ _ _ _ _ _ _ _ Hr Hx) as (r & Hrt & -> & Hs).
  apply selected_live in Hs. rewrite (Hg2 r) in Hs; done.
Qed.

(** ** Consolidation *)

(** Consolidation keeps every memory, and changes nothing but the confidence of
    those that were not used since the cutoff; none falls below a tenth. *)
Theorem consolidate_spec t rate cutoff t' report :
  consolidate t None rate cutoff = (t', Ok report) →
  Forall2 (λ r r', r' = r ∨ text_ltb (row_accessed r) cutoff = true ∧ row_deleted r = false ∧
                   ∃ c, r' = with_confidence c r ∧ SFleb FLOOR c = true) t t' ∧
  memories_merged report = 0%Z.
Proof.
  unfold consolidate. cbv zeta. destruct (mapM _ t) as [l|] eqn:E; [|done]. intros [= <- <-]. split; [|done].
  apply decay_rows in E. eapply Forall2_impl; [exact E|]. intros r r' [[-> _]|(Hd & c & Hc & ->)]; [by left|].
  right. unfold decays in Hd. rewrite !andb_true_iff, negb_true_iff in Hd. destruct Hd as [[Hd Ha] _].
  split; [done|]. split; [done|]. exists c. split; [done|]. by eapply decayed_floor.
Qed.
End store.

Lemma embedding_round_trip_witness :
  embedding_from_bytes (embedding_to_bytes [1065353216; 3204448256; 0]%Z) = [1065353216; 3204448256; 0]%Z.
Proof. apply embedding_round_trip. repeat constructor; lia. Defined.

(** ** A small store *)

Module SemanticDemo.
#[local] Existing Instance insertion_order.
#[local] Existing Instance insertion_sorting.

Abbreviation demo_remember := (remember_with_embedding (AgentId := nat) (MemoryId := nat) (λ _ : unit, lit "{}")).
Abbreviation demo_recall :=
  (recall_with_embedding (AgentId := nat) (MemoryId := nat) (λ _, Some tt) tt (λ s : str, Some s)).

Definition no_clock (n : nat) : str := lit "2026-03-01T00:00:00+00:00".

(** [1.0] and [0.0], as the bits of an [f32] *)
Definition east : Embedding := [1065353216; 0]%Z.
Definition north : Embedding := [0; 1065353216]%Z.

Definition add (id agent : nat) (content time : str) (e : Embedding) (t : list (MemoryRow (AgentId := nat) (MemoryId := nat))) :=
  (demo_remember t None agent content Conversation (lit "episodic") tt (Some e) id time).1.

Definition demo_table :=
  add 3 2 (lit "Rust is fast") (lit "2026-01-03T00:00:00+00:00") east
    (add 2 1 (lit "nothing to see") (lit "2026-01-02T00:00:00+00:00") north
       (add 1 1 (lit "The user likes Rust") (lit "2026-01-01T00:00:00+00:00") east [])).

Definition mine : MemoryFilter := agent_filter (AgentId := nat) (Time := str) tt 1.

Definition ids_of (r : option (list (MemoryRow (AgentId := nat) (MemoryId := nat)) *
                               result (list (MemoryFragment (AgentId := nat) (MemoryId := nat) (Metadata := unit) (Time := str))) str))
    : option (list nat) :=
  match r with Some (_, Ok fs) => Some (fragment_id <$> fs) | _ => None end.

Example recall_by_text :
  ids_of (demo_recall demo_table None (lit "rust") 5 (Some mine) None (lit "now") no_clock (λ _, false)) = Some [1].
Proof. vm_compute. reflexivity. Qed.

Example recall_by_vector :
  ids_of (demo_recall demo_table None (lit "rust") 5 (Some mine) (Some east) (lit "now") no_clock (λ _, false)) = Some [1; 2].
Proof. vm_compute. reflexivity. Qed.

(** The query is a pattern. *)
Example query_is_pattern :
  ids_of (demo_recall demo_table None (lit "n_t%g") 5 None None (lit "now") no_clock (λ _, false)) = Some [2].
Proof. vm_compute. reflexivity. Qed.

(** A filter on the time of creation, or on metadata, excludes nothing. *)
Example bounds_ignored :
  ids_of (demo_recall demo_table None [] 5
            (Some (mkFilter (Some 1) None None None (Some (lit "2026-02-01T00:00:00+00:00")) None tt))
            None (lit "now") no_clock (λ _, false)) = Some [2; 1].
Proof. vm_compute. reflexivity. Qed.

(** The one memory that fits the query is not found when a hundred others were
    used after it. *)
Definition crowded :=
  foldr (λ n t, add n 1 (lit "small talk") (lit "2026-01-02T00:00:00+00:00") north t)
    (add 200 1 (lit "The user likes Rust") (lit "2026-01-01T00:00:00+00:00") east []) (seq 0 100).

Example old_memory_missed :
  (λ ids, (bool_decide (200 ∈ ids), length ids)) <$>
  ids_of (demo_recall crowded None (lit "rust") 5 (Some mine) (Some east) (lit "now") no_clock (λ _, false)) = Some (false, 5).
Proof. vm_compute. reflexivity. Qed.

Lemma recall_sound_witness :
  ∃ t' fs, demo_recall demo_table None (lit "rust") 5 (Some mine) None (lit "now") no_clock (λ _, false) = Some (t', Ok fs) ∧
    length fs ≤ 5 ∧
    (∀ x, x ∈ fs → ∃ r, r ∈ demo_table ∧ row_deleted r = false ∧ passes mine r = true).
Proof.
  eexists _, _. split; [vm_compute; reflexivity|].
  edestruct (recall_sound (AgentId := nat) (MemoryId := nat) (λ _, Some tt) tt (λ s : str, Some s) demo_table
               (lit "rust") 5 (Some mine) None (lit "now") no_clock) as (Hl & Hs & _).
  - apply (bool_decide_unpack _). vm_compute. reflexivity.
  - vm_compute. reflexivity.
  - split; [exact Hl|]. intros x Hx. destruct (Hs x Hx) as (r & ? & _ & ? & ? & _). eauto.
Defined.

Lemma recall_text_complete_witness :
  ∃ t' fs r, demo_recall demo_table None (lit "rust") 5 (Some mine) None (lit "now") no_clock (λ _, false) = Some (t', Ok fs) ∧
    demo_table !! 0 = Some r ∧
    (fragment_of (λ _, Some tt) tt (λ s : str, Some s) (lit "now") r ∈ fs ∨
     length fs = 5 ∧ ∀ x, x ∈ fs → ∃ r', r' ∈ demo_table ∧ newest r' r = true).
Proof.
  eexists _, _, _. split; [vm_compute; reflexivity|]. split; [vm_compute; reflexivity|].
  edestruct (recall_text_complete (AgentId := nat) (MemoryId := nat) (λ _, Some tt) tt (λ s : str, Some s) demo_table
               (lit "rust") 5 (Some mine) (lit "now") no_clock (λ _, false)) as [Hl|[Hl Hs]].
  - vm_compute. reflexivity.
  - apply (list_elem_of_lookup_2 _ 0). vm_compute. reflexivity.
  - vm_compute. reflexivity.
  - left. exact Hl.
  - right. split; [exact Hl|]. intros x Hx. destruct (Hs x Hx) as (r & ? & _ & ?). eauto.
Defined.

Lemma recall_best_witness :
  ∃ t' fs, demo_recall demo_table None (lit "rust") 1 (Some mine) (Some east) (lit "now") no_clock (λ _, false) = Some (t', Ok fs) ∧
    length fs = 1.
Proof.
  destruct (recall_best (AgentId := nat) (MemoryId := nat) (λ _, Some tt) tt (λ s : str, Some s) demo_table
              (lit "rust") 1 (Some mine) east (lit "now") no_clock (λ _, false)) as (t' & fs & Hr & _ & _ & Hl).
  - intros x Hx.
    assert (Forall (λ x, similarity east x ≠ S754_nan)
      (fragment_of (λ _, Some tt) tt (λ s : str, Some s) (lit "now") <$> candidates demo_table (lit "rust") 1 (Some mine) (Some east))) as Hall.
    { apply (bool_decide_unpack _). vm_compute. reflexivity. }
    rewrite Forall_forall in Hall. exact (Hall x Hx).
  - exists t', fs. split; [exact Hr|]. rewrite Hl. vm_compute. reflexivity.
Defined.

Lemma forgotten_never_recalled_witness :
  ∃ t fs, demo_recall (forget demo_table None 1).1 None (lit "rust") 5 None None (lit "now") no_clock (λ _, false) = Some (t, Ok fs) ∧
    1 ∉ fragment_id <$> fs.
Proof.
  eexists _, _. split; [vm_compute; reflexivity|].
  eapply (forgotten_never_recalled (λ _ : unit, lit "{}") (λ _, Some tt) tt (λ s : str, Some s) demo_table 1
            (forget demo_table None 1).1 None (lit "rust") 5 None None (lit "now") no_clock (λ _, false)).
  - apply (bool_decide_unpack _). vm_compute. reflexivity.
  - apply rtc_refl.
  - vm_compute. reflexivity.
Defined.

Lemma consolidate_spec_witness :
  ∃ t' report, consolidate demo_table None (f64_as_f32 (f64_lit 1 10)) (lit "2026-01-02T00:00:00+00:00") = (t', Ok report) ∧
    memories_decayed report = 1%Z ∧ memories_merged report = 0%Z ∧ length t' = 3.
Proof.
  eexists _, _. split; [vm_compute; reflexivity|]. split; [vm_compute; reflexivity|].
  edestruct (consolidate_spec demo_table (f64_as_f32 (f64_lit 1 10)) (lit "2026-01-02T00:00:00+00:00")) as [Ht Hm].
  - vm_compute. reflexivity.
  - split; [exact Hm|]. apply Forall2_length in Ht. rewrite <-Ht. vm_compute. reflexivity.
Defined.
End SemanticDemo.
