(* ===== verification/LoopMemory.v ===== *)
(** * The memory of the agent loop

    The calls of [run_agent_loop] in [openfang-runtime/src/agent_loop.rs] to the
    semantic store: before the loop five memories of the agent are recalled for
    the message, and at its end the exchange is remembered. [store_recall] is
    the [recall] of an [Environment] of the loop that answers from a table, on
    which the calls of the trace so far are carried out. *)

From Stdlib Require Import Ascii ZArith Lia.
From stdpp Require Import base gmap strings list.
From S2P Require Import Prelude Strs Sql SemanticMemory Message Floats AgentTypes AgentLoop AgentLoopFacts.

Section loop_memory.
Context {Value Uuid AgentId MemoryId Metadata Time : Type} `{EqDecision Value} `{Countable Uuid} `{UnicodeCase}.
Context `{EqDecision AgentId} `{EqDecision MemoryId}.
Context (metadata_to_string : Metadata → str) (metadata_from_str : str → option Metadata) (no_metadata : Metadata).
Context (parse_from_rfc3339 : str → option Time).
Context `{SqlOrder} `{SortBy}.
(** The agent; fresh identifiers, and times. *)
Context (a : AgentId) (fresh : nat → MemoryId) (now_text : nat → str) (now : Time).

Abbreviation table := (list (MemoryRow (AgentId := AgentId) (MemoryId := MemoryId))).
Abbreviation Event := (LoopEvent (Value := Value) (Vec := Embedding)).

(** [recall_with_embedding_async(user_message, 5, ..)] and [recall(..)] *)
Definition loop_recall (t : table) (n : nat) (query : str) (embedding : option Embedding) :=
  recall_with_embedding metadata_from_str no_metadata parse_from_rfc3339 t None query 5 (Some (agent_filter no_metadata a))
    embedding now (λ _, now_text n) (λ _, false).

(** [remember_with_embedding_async(.., Conversation, "episodic", ..)] and [remember(..)] *)
Definition loop_remember (t : table) (n : nat) (text : str) (embedding : option Embedding) :=
  remember_with_embedding metadata_to_string t None a text Conversation (lit "episodic") no_metadata embedding
    (fresh n) (now_text n).

(** The [n]-th event of a trace, on the table. *)
Definition replay_event (n : nat) (t : table) (e : Event) : table :=
  match e with
  | Recalled query v => match loop_recall t n query v with Some (t', _) => t' | None => t end
  | Remembered text v => (loop_remember t n text v).1
  | _ => t
  end.

Fixpoint replay (n : nat) (t : table) (tr : list Event) : table :=
  match tr with [] => t | e :: tr => replay (S n) (replay_event n t e) tr end.

Definition store_recall (t0 : table) (tr : list Event) (query : str) (embedding : option Embedding) : result (list str) str :=
  match loop_recall (replay 0 t0 tr) (length tr) query embedding with
  | Some (_, Ok fs) => Ok (fragment_content <$> fs)
  | Some (_, Err e) => Err e
  | None => Err (lit "task panicked")
  end.

(** ** Where memories come from *)

(** A live row of the agent with this text. *)
Definition known (t : table) (c : str) : Prop :=
  ∃ r, r ∈ t ∧ row_agent r = a ∧ row_deleted r = false ∧ row_content r = c.

Lemma known_touch clock n ids t c :
  known (touch_all clock (λ _, false) n ids t) c → known t c.
Proof using Type.
  clear metadata_to_string metadata_from_str no_metadata parse_from_rfc3339 fresh now_text.
  intros (r' & Hr' & Ha & Hd & <-). apply list_elem_of_lookup in Hr' as [k Hk].
  destruct (Forall2_lookup_r _ _ _ _ _ (touch_counted clock n ids t) Hk) as (r & Hr & Hs & _).
  exists r. split; [by eapply list_elem_of_lookup_2|]. unfold same_memory in Hs. intuition congruence.
Qed.

Lemma known_replay_event n t e c : known (replay_event n t e) c → known t c ∨ ∃ v, e = Remembered c v.
Proof.
  destruct e; cbn [replay_event]; try (by left).
  - destruct (loop_recall t n query embedding) as [[t' r]|] eqn:E; [|by left]. unfold loop_recall, recall_with_embedding in E.
    apply bind_Some in E as (l & _ & [= <- <-]). intros Hk. left. by eapply known_touch.
  - unfold loop_remember, remember_with_embedding. case_decide; [by left|]. cbn [fst]. intros (r & Hr & Ha & Hd & Hc).
    apply elem_of_app in Hr as [Hr|Hr%list_elem_of_singleton]; [left; by exists r|]. subst r. cbn in Hc. subst. right. eauto.
Qed.

Lemma known_replay n t tr c : known (replay n t tr) c → known t c ∨ ∃ v, Remembered c v ∈ tr.
Proof.
  revert n t. induction tr as [|e tr IH]; intros n t Hk; [by left|]. cbn [replay] in Hk.
  apply IH in Hk as [Hk|[v Hv]]; [|right; exists v; by right].
  apply known_replay_event in Hk as [Hk|[v ->]]; [by left|]. right. exists v. left.
Qed.

Lemma store_recall_known t0 tr query v cs c :
  store_recall t0 tr query v = Ok cs → c ∈ cs → known t0 c ∨ ∃ u, Remembered c u ∈ tr.
Proof.
  unfold store_recall. destruct (loop_recall _ _ _ _) as [[t' [fs|e]]|] eqn:E; [|done..]. intros [= <-] Hc.
  apply list_elem_of_fmap in Hc as (x & -> & Hx).
  destruct (recalled_selected _ _ _ _ _ _ _ _ _ _ _ _ _ _ _ E Hx) as (r & Hr & -> & Hs).
  apply known_replay with (n := 0). exists r. split; [done|].
  split; [eapply passes_agent; [|by eapply selected_passes]; done|]. split; [by eapply selected_live|done].
Qed.

(** C15: The memories an agent is prompted with are texts of its own that are not
    forgotten: they were in the table for this agent when the run began, or the
    run itself remembered them. Of other agents it is told nothing. *)
Theorem loop_memories_private (env : Environment (Value := Value) (Vec := Embedding) (Uuid := Uuid))
    (setup : Setup (Value := Value)) t0 w w' memories c :
  AgentLoop.recall env = store_recall t0 →
  recall_memories env setup w = Some (w', Ok memories) → c ∈ memories →
  known t0 c ∨ ∃ v, Remembered c v ∈ trace w.
Proof.
  intros Henv Hr Hc.
  assert (∀ v w1, recall_by env setup v w1 = Some (w', Ok memories) →
    known t0 c ∨ ∃ u, Remembered c u ∈ trace w1) as Hby.
  { intros v w1 Hv. unfold recall_by, mbind, M_bind, look, emit, mret, M_ret in Hv. simplify_eq. rewrite Henv in Hc.
    destruct (store_recall t0 (trace w1) (user_message setup) v) as [cs|e] eqn:E; [|by apply elem_of_nil in Hc].
    by eapply store_recall_known. }
  unfold recall_memories, embed_one in Hr. destruct (embed env) as [emb|]; [|exact (Hby None w Hr)].
  unfold mbind, M_bind, look, emit in Hr. cbn in Hr.
  destruct (Hby _ _ Hr) as [Hk|[u Hu]]; [by left|]. right. exists u. cbn [trace] in Hu.
  apply elem_of_app in Hu as [Hu|Hu%list_elem_of_singleton]; [done|discriminate].
Qed.
End loop_memory.

(** The store of [SemanticDemo], with the loop of its first agent. *)
Definition memory_env : Environment (Value := str) (Vec := Embedding) (Uuid := nat) :=
  mkEnv (Some (λ _ _, Ok SemanticDemo.east))
    (store_recall (H1 := insertion_order) (H2 := insertion_sorting) (λ _ : unit, lit "{}") (λ _, Some tt) tt (λ s : str, Some s)
       1 (λ n, 100 + n) SemanticDemo.no_clock (lit "now") SemanticDemo.demo_table)
    None false (λ _ _ _, Err (ProviderCall.Parse [])) (λ _ _ _, Err (ProviderCall.Parse [])) (λ _, None) (λ _, false)
    (λ _ _, None) (λ _ _, Ok tt) (λ _ k, show_nat k).

Lemma loop_memories_private_witness :
  ∃ w' memories, recall_memories memory_env demo_setup (mkWorld [] []) = Some (w', Ok memories) ∧
    memories = [lit "The user likes Rust"; lit "nothing to see"] ∧
    (known 1 SemanticDemo.demo_table (lit "The user likes Rust") ∨
     ∃ v, Remembered (Value := str) (Vec := Embedding) (lit "The user likes Rust") v ∈ []).
Proof.
  eexists _, _. split; [vm_compute; reflexivity|]. split; [vm_compute; reflexivity|].
  eapply (loop_memories_private (H1 := insertion_order) (H2 := insertion_sorting) (λ _ : unit, lit "{}") (λ _, Some tt) tt
            (λ s : str, Some s) 1 (λ n, 100 + n) SemanticDemo.no_clock (lit "now") memory_env demo_setup
            SemanticDemo.demo_table (mkWorld [] [])).
  - reflexivity.
  - vm_compute. reflexivity.
  - apply (list_elem_of_lookup_2 _ 0). vm_compute. reflexivity.
Defined.
