(* ===== verification/TaskQueue.v ===== *)
(** * The shared queue of tasks

    The task operations of [openfang-memory/src/substrate.rs], the kernel's
    wrappers of them in [openfang-kernel/src/kernel.rs] and the four tools of
    agents in [openfang-runtime/src/tool_runner.rs]. Each operation holds the
    lock of the connection to its end, so that operations of different agents
    come one after the other. The table is the list of its rows; [fault] is the
    error of the connection, if there is one. *)

From Stdlib Require Import Ascii ZArith Lia Sorting.Sorted.
From stdpp Require Import base strings list.
From S2P Require Import Prelude Strs Sql Json.

(** A row of [task_queue], as far as the operations go. *)
Record Task : Type := mkTask {
  task_id : str;
  title : str;
  description : str;
  status : str;
  priority : Z;
  created_at : str;
  assigned_to : str;
  created_by : str;
  completed_at : option str;
  outcome : option str
}.

#[export] Instance task_eq_dec : EqDecision Task.
Proof. solve_decision. Defined.

Definition pending : str := lit "pending".
Definition in_progress : str := lit "in_progress".
Definition completed : str := lit "completed".

Inductive QueueError : Type := MemoryError (e : str) | Internal (e : str).

Definition show_error (e : QueueError) : str :=
  match e with MemoryError e => lit "Memory error: " ++ e | Internal e => lit "Internal error: " ++ e end.

(** [UPDATE .. WHERE id = ?1] *)
Definition update_task (i : str) (f : Task → Task) (q : list Task) : list Task :=
  (λ t, if decide (task_id t = i) then f t else t) <$> q.

Definition with_claim (agent : str) (t : Task) : Task :=
  mkTask (task_id t) (title t) (description t) in_progress (priority t) (created_at t) agent (created_by t)
    (completed_at t) (outcome t).

Definition with_outcome (result now : str) (t : Task) : Task :=
  mkTask (task_id t) (title t) (description t) completed (priority t) (created_at t) (assigned_to t) (created_by t)
    (Some now) (Some result).

Section queue.
Context `{SqlOrder}.

Definition task_post (q : list Task) (fault : option str) (ttl descr : str) (assignee creator : option str)
    (fresh now : str) : list Task * result str QueueError :=
  match fault with
  | Some e => (q, Err (MemoryError e))
  | None =>
      if decide (fresh ∈ task_id <$> q) then (q, Err (MemoryError (lit "UNIQUE constraint failed: task_queue.id")))
      else (q ++ [mkTask fresh ttl descr pending 0 now (default [] assignee) (default [] creator) None (Some [])], Ok fresh)
  end.

(** [WHERE status = 'pending' AND (assigned_to = ?1 OR assigned_to = '')] *)
Definition claimable (agent : str) (t : Task) : bool :=
  str_eqb (status t) pending && (str_eqb (assigned_to t) agent || is_empty (assigned_to t)).

(** [ORDER BY priority DESC, created_at ASC] *)
Definition sooner : Task → Task → bool :=
  lex_leb (descending (λ a b, (priority a <=? priority b)%Z)) (λ a b, text_leb (created_at a) (created_at b)).

(** What the caller is told of a task. *)
Definition claim_json (agent : str) (t : Task) : Json :=
  JObj [(lit "assigned_to", JStr (if is_empty (assigned_to t) then agent else assigned_to t));
        (lit "created_at", JStr (created_at t));
        (lit "created_by", JStr (created_by t));
        (lit "description", JStr (description t));
        (lit "id", JStr (task_id t));
        (lit "status", JStr in_progress);
        (lit "title", JStr (title t))].

(** The first row of the query. *)
Definition next_task (q : list Task) (agent : str) : option Task :=
  head (limited sooner 1 (List.filter (claimable agent) q)).

(** [faults] are those of the query and of the update. *)
Definition task_claim (q : list Task) (faults : option str * option str) (agent : str)
    : list Task * result (option Json) QueueError :=
  match faults.1 with
  | Some e => (q, Err (MemoryError e))
  | None =>
      match next_task q agent with
      | None => (q, Ok None)
      | Some t =>
          match faults.2 with
          | Some e => (q, Err (MemoryError e))
          | None => (update_task (task_id t) (with_claim agent) q, Ok (Some (claim_json agent t)))
          end
      end
  end.

Definition task_complete (q : list Task) (fault : option str) (i result now : str) : list Task * Prelude.result unit QueueError :=
  match fault with
  | Some e => (q, Err (MemoryError e))
  | None =>
      if decide (i ∈ task_id <$> q) then (update_task i (with_outcome result now) q, Ok tt)
      else (q, Err (Internal (lit "Task not found: " ++ i)))
  end.

Definition opt_json (s : option str) : Json := match s with Some s => JStr s | None => JNull end.

Definition task_json (t : Task) : Json :=
  JObj [(lit "assigned_to", JStr (assigned_to t));
        (lit "completed_at", opt_json (completed_at t));
        (lit "created_at", JStr (created_at t));
        (lit "created_by", JStr (created_by t));
        (lit "description", JStr (description t));
        (lit "id", JStr (task_id t));
        (lit "result", opt_json (outcome t));
        (lit "status", JStr (status t));
        (lit "title", JStr (title t))].

Definition task_list (q : list Task) (fault : option str) (s : option str) : result (list Json) QueueError :=
  match fault with
  | Some e => Err (MemoryError e)
  | None =>
      Ok (task_json <$> order_by (descending (λ a b, text_leb (created_at a) (created_at b)))
            match s with Some s => List.filter (λ t, str_eqb (status t) s) q | None => q end)
  end.

(** ** The tools *)

Context (to_string_pretty : Json → str).

(** [require_kernel(kernel)?] *)
Definition with_kernel (kernel : bool) (q : list Task) (k : list Task * result str str) : list Task * result str str :=
  if kernel then k
  else (q, Err (lit "Kernel handle not available. Inter-agent tools require a running kernel.")).

(** [map_err] of the kernel. *)
Definition wrapped {A} (what : string) (r : result A QueueError) : result A str :=
  match r with Ok x => Ok x | Err e => Err (lit what ++ show_error e) end.

Definition tool_task_post (kernel : bool) (q : list Task) (fault : option str) (input : Json) (caller : option str) (fresh now : str)
    : list Task * result str str :=
  with_kernel kernel q
  match as_str (index input "title") with
  | None => (q, Err (lit "Missing 'title' parameter"))
  | Some ttl =>
      match as_str (index input "description") with
      | None => (q, Err (lit "Missing 'description' parameter"))
      | Some descr =>
          let '(q, r) := task_post q fault ttl descr (as_str (index input "assigned_to")) caller fresh now in
          (q, match wrapped "Task post failed: " r with Ok i => Ok (lit "Task created with ID: " ++ i) | Err e => Err e end)
      end
  end.

Definition tool_task_claim (kernel : bool) (q : list Task) (faults : option str * option str) (caller : option str)
    : list Task * result str str :=
  with_kernel kernel q
  (let '(q, r) := task_claim q faults (default [] caller) in
  (q, match wrapped "Task claim failed: " r with
      | Ok (Some task) => Ok (to_string_pretty task)
      | Ok None => Ok (lit "No tasks available.")
      | Err e => Err e
      end)).

Definition tool_task_complete (kernel : bool) (q : list Task) (fault : option str) (input : Json) (now : str) : list Task * result str str :=
  with_kernel kernel q
  match as_str (index input "task_id") with
  | None => (q, Err (lit "Missing 'task_id' parameter"))
  | Some i =>
      match as_str (index input "result") with
      | None => (q, Err (lit "Missing 'result' parameter"))
      | Some result =>
          let '(q, r) := task_complete q fault i result now in
          (q, match wrapped "Task complete failed: " r with
              | Ok _ => Ok (lit "Task " ++ i ++ lit " marked as completed.")
              | Err e => Err e
              end)
      end
  end.

Definition tool_task_list (kernel : bool) (q : list Task) (fault : option str) (input : Json) : result str str :=
  (with_kernel kernel q (q,
  match wrapped "Task list failed: " (task_list q fault (as_str (index input "status"))) with
  | Err e => Err e
  | Ok tasks => if bool_decide (tasks = []) then Ok (lit "No tasks found.") else Ok (to_string_pretty (JArr tasks))
  end)).2.

(** ** The next task *)

Lemma sooner_preorder : preorder sooner.
Proof. unfold sooner. auto with preorders. Qed.

Lemma next_task_Some q agent t :
  next_task q agent = Some t →
  t ∈ q ∧ claimable agent t = true ∧ ∀ u, u ∈ q → claimable agent u = true → sooner t u = true.
Proof.
  intros Hn. assert (t ∈ limited sooner 1 (List.filter (claimable agent) q)) as Hl.
  { unfold next_task in Hn. destruct (limited _ _ _); [done|]. injection Hn as ->. left. }
  pose proof Hl as Hf. apply elem_of_limited, list_elem_of_In, filter_In in Hf as [Hq Hc]. apply list_elem_of_In in Hq.
  split; [done|]. split; [done|]. intros u Hu Hcu.
  assert (u ∈ List.filter (claimable agent) q) as Huf by (apply list_elem_of_In, filter_In; split; [by apply list_elem_of_In|done]).
  destruct (decide (u ∈ limited sooner 1 (List.filter (claimable agent) q))) as [Hin|Hout].
  - assert (u = t) as ->; [|by destruct (preorder_total _ sooner_preorder t t)].
    pose proof (limited_length sooner 1 (List.filter (claimable agent) q)) as Hlen.
    unfold next_task in Hn. destruct (limited _ _ _) as [|x [|y l]]; cbn in Hn; cbn [length] in Hlen; [done| |lia].
    injection Hn as ->. by apply list_elem_of_singleton in Hin.
  - by eapply limited_first; eauto using sooner_preorder.
Qed.

Lemma next_task_None q agent : next_task q agent = None ↔ ∀ t, t ∈ q → claimable agent t = false.
Proof.
  unfold next_task. pose proof (limited_length sooner 1 (List.filter (claimable agent) q)) as Hlen. split.
  - destruct (limited _ _ _); [|done]. intros _ t Ht. destruct (claimable agent t) eqn:E; [|done].
    assert (t ∈ List.filter (claimable agent) q) as Hf by (apply list_elem_of_In, filter_In; split; [by apply list_elem_of_In|done]).
    destruct (List.filter (claimable agent) q); [by apply elem_of_nil in Hf|]. cbn [length] in Hlen. lia.
  - intros Hn. destruct (List.filter (claimable agent) q) as [|t l] eqn:E.
    + destruct (limited sooner 1 []); [done|]. cbn [length] in Hlen. lia.
    + assert (In t (List.filter (claimable agent) q)) as Ht by (rewrite E; by left).
      apply filter_In in Ht as [Ht Hc]. rewrite Hn in Hc by (by apply list_elem_of_In). done.
Qed.

Lemma task_id_update i f q : (∀ t, task_id (f t) = task_id t) → task_id <$> update_task i f q = task_id <$> q.
Proof. intros Hf. unfold update_task. rewrite <-list_fmap_compose. apply list_fmap_ext. intros k t _. cbn. case_decide; auto. Qed.

(** A claim gives an agent a pending task that is for it or for anyone, none of
    higher priority and none that is older with the same one; the task is then
    in progress with the agent, and all others are as they were. There is no
    task exactly if there is none to claim. *)
Theorem task_claim_spec q agent :
  match task_claim q (None, None) agent with
  | (q', Ok (Some json)) =>
      ∃ t, t ∈ q ∧ status t = pending ∧ (assigned_to t = agent ∨ assigned_to t = []) ∧
        (∀ u, u ∈ q → claimable agent u = true → sooner t u = true) ∧
        json = claim_json agent t ∧ q' = update_task (task_id t) (with_claim agent) q
  | (q', Ok None) => q' = q ∧ ∀ t, t ∈ q → claimable agent t = false
  | (_, Err _) => False
  end.
Proof.
  unfold task_claim. cbn [fst snd]. destruct (next_task q agent) as [t|] eqn:E.
  - apply next_task_Some in E as (Hq & Hc & Hs). exists t. unfold claimable in Hc.
    rewrite andb_true_iff, orb_true_iff, !str_eqb_spec in Hc. destruct Hc as [Hp Ha].
    split; [done|]. split; [done|]. split; [|done]. destruct Ha as [Ha|Ha]; [by left|right]. by destruct (assigned_to t).
  - split; [done|]. by apply next_task_None.
Qed.

(** ** No task is handed out twice *)

Inductive queue_op : Type :=
| Post (fault : option str) (ttl descr : str) (assignee creator : option str) (fresh now : str)
| Claim (faults : option str * option str) (agent : str)
| Complete (fault : option str) (i result now : str).

(** The table after an operation, and the task it handed out. *)
Definition queue_step (q : list Task) (o : queue_op) : list Task * option str :=
  match o with
  | Post fault ttl descr assignee creator fresh now => ((task_post q fault ttl descr assignee creator fresh now).1, None)
  | Claim faults agent =>
      match task_claim q faults agent with
      | (q', Ok (Some _)) => (q', task_id <$> next_task q agent)
      | (q', _) => (q', None)
      end
  | Complete fault i result now => ((task_complete q fault i result now).1, None)
  end.

Fixpoint handed_out (q : list Task) (ops : list queue_op) : list str :=
  match ops with
  | [] => []
  | o :: ops => option_list (queue_step q o).2 ++ handed_out (queue_step q o).1 ops
  end.

(** The identifier is taken, by tasks that are no longer pending. *)
Definition taken (i : str) (q : list Task) : Prop :=
  i ∈ task_id <$> q ∧ ∀ t, t ∈ q → task_id t = i → status t ≠ pending.

Lemma taken_update i j f q :
  (∀ t, task_id (f t) = task_id t) → (∀ t, status (f t) ≠ pending) → taken i q → taken i (update_task j f q).
Proof.
  intros Hi Hs [Hin Ht]. split; [by rewrite task_id_update|]. intros t Hq E.
  apply list_elem_of_fmap in Hq as (t0 & -> & Hq). case_decide; auto.
Qed.

Lemma taken_step i q o : taken i q → taken i (queue_step q o).1 ∧ (queue_step q o).2 ≠ Some i.
Proof.
  intros Ht. destruct o; cbn [queue_step].
  - split; [|done]. unfold task_post. destruct fault; [done|]. case_decide as Hf; [done|]. destruct Ht as [Hin Ht]. cbn [fst]. split.
    + rewrite fmap_app, elem_of_app. by left.
    + intros t Hq E. apply elem_of_app in Hq as [Hq|Hq%list_elem_of_singleton]; [auto|]. subst t. cbn in E. by subst.
  - unfold task_claim. destruct (faults.1); [done|]. destruct (next_task q agent) as [t|] eqn:E; [|done].
    destruct (faults.2); [done|]. cbn. split; [by apply taken_update|].
    apply next_task_Some in E as (Hq & Hc & _). intros [= Hi]. apply andb_true_iff in Hc as [Hc%str_eqb_spec _].
    by eapply (proj2 Ht).
  - split; [|done]. unfold task_complete. destruct fault; [done|]. case_decide; [|done]. by apply taken_update.
Qed.

Lemma taken_not_handed i q ops : taken i q → i ∉ handed_out q ops.
Proof.
  revert q. induction ops as [|o ops IH]; intros q Ht; cbn [handed_out]; [apply not_elem_of_nil|].
  destruct (taken_step i q o Ht) as [Ht' Hne]. rewrite not_elem_of_app. split; [|auto].
  destruct (queue_step q o).2 as [j|]; cbn; [|apply not_elem_of_nil]. intros Hj%list_elem_of_singleton. congruence.
Qed.

Lemma handed_taken q o i : (queue_step q o).2 = Some i → taken i (queue_step q o).1.
Proof.
  destruct o; cbn [queue_step]; [done| |done]. unfold task_claim. destruct (faults.1); [done|].
  destruct (next_task q agent) as [t|] eqn:E; [|done]. destruct (faults.2); [done|]. cbn. intros [= <-].
  apply next_task_Some in E as (Hq & _). split; [rewrite task_id_update by done; by apply list_elem_of_fmap_2|].
  intros u Hu Ei. apply list_elem_of_fmap in Hu as (u0 & -> & _). case_decide; done.
Qed.

(** C26: Whatever agents post, claim and complete, in whatever order, no task is
    handed out twice. *)
Theorem tasks_claimed_once q ops : NoDup (handed_out q ops).
Proof.
  revert q. induction ops as [|o ops IH]; intros q; cbn [handed_out]; [constructor|].
  destruct (queue_step q o).2 as [i|] eqn:E; cbn; [|apply IH].
  constructor; [|apply IH]. by apply taken_not_handed, handed_taken.
Qed.

(** ** A queue that is emptied *)

(** The tasks of [n] claims of an agent, and the table after. *)
Fixpoint claim_times (n : nat) (agent : str) (q : list Task) : list Task * list Task :=
  match n with
  | 0 => ([], q)
  | S n =>
      match next_task q agent with
      | None => ([], q)
      | Some t => let '(ts, q') := claim_times n agent (task_claim q (None, None) agent).1 in (t :: ts, q')
      end
  end.

Lemma claim_removes agent t q :
  NoDup (task_id <$> q) → t ∈ q → claimable agent t = true →
  List.filter (claimable agent) q ≡ₚ t :: List.filter (claimable agent) (update_task (task_id t) (with_claim agent) q).
Proof.
  intros Hnd Ht Hc. induction q as [|u q IH]; [by apply elem_of_nil in Ht|].
  apply NoDup_cons in Hnd as [Hu Hnd]. cbn [update_task fmap list_fmap]. fold (update_task (task_id t) (with_claim agent) q).
  apply elem_of_cons in Ht as [<-|Ht].
  - rewrite decide_True by done. cbn [List.filter]. rewrite Hc.
    replace (claimable agent (with_claim agent t)) with false by done.
    assert (update_task (task_id t) (with_claim agent) q = q) as ->; [|done].
    unfold update_task. transitivity (id <$> q); [|apply list_fmap_id]. apply list_fmap_ext. intros k v Hk.
    rewrite decide_False; [done|]. intros E. destruct Hu. rewrite <-E. apply list_elem_of_fmap_2. by eapply list_elem_of_lookup_2.
  - rewrite decide_False by (intros E; destruct Hu; rewrite E; by apply list_elem_of_fmap_2).
    cbn [List.filter]. destruct (claimable agent u); [|by apply IH]. rewrite (IH Hnd Ht). constructor.
Qed.

(** An agent that claims as often as there are tasks for it gets them all, the
    urgent ones first and the old ones before the new ones; then there are
    none left. *)
Theorem claims_drain q agent :
  NoDup (task_id <$> q) →
  let '(ts, q') := claim_times (length (List.filter (claimable agent) q)) agent q in
  ts ≡ₚ List.filter (claimable agent) q ∧ StronglySorted (λ a b, sooner a b = true) ts ∧
  task_claim q' (None, None) agent = (q', Ok None).
Proof.
  remember (length (List.filter (claimable agent) q)) as n eqn:Hn. revert q Hn.
  induction n as [|n IH]; intros q Hn Hnd; cbn [claim_times].
  - symmetry in Hn. apply nil_length_inv in Hn. rewrite Hn. split; [done|]. split; [constructor|].
    unfold task_claim. cbn [fst]. rewrite (proj2 (next_task_None q agent)); [done|].
    intros t Ht. destruct (claimable agent t) eqn:E; [|done].
    assert (In t (List.filter (claimable agent) q)) as Hin by (apply filter_In; split; [by apply list_elem_of_In|done]).
    by rewrite Hn in Hin.
  - destruct (next_task q agent) as [t|] eqn:E.
    2:{ exfalso. rewrite next_task_None in E. destruct (List.filter (claimable agent) q) as [|t l] eqn:El; [done|].
        assert (In t (List.filter (claimable agent) q)) as Hin by (rewrite El; by left).
        apply filter_In in Hin as [Hin Hc]. rewrite E in Hc by (by apply list_elem_of_In). done. }
    unfold task_claim. cbn [fst snd]. rewrite E. cbn [fst].
    apply next_task_Some in E as (Hq & Hc & Hs). pose proof (claim_removes agent t q Hnd Hq Hc) as Hp.
    specialize (IH (update_task (task_id t) (with_claim agent) q)). rewrite Hp in Hn. cbn [length] in Hn.
    destruct (claim_times n agent _) as [ts q'] eqn:Ec. rewrite task_id_update in IH by done.
    destruct IH as (Hts & Hsort & Hnone); [lia|done|]. split; [by rewrite Hp, Hts|]. split; [|done].
    constructor; [done|]. apply Forall_forall. intros u Hu. rewrite Hts in Hu.
    assert (u ∈ List.filter (claimable agent) q) as Huq by (rewrite Hp; by right).
    apply list_elem_of_In, filter_In in Huq as [Huq Hcu]. apply Hs; [by apply list_elem_of_In|done].
Qed.
End queue.

(** ** A small queue *)

Module TaskDemo.
#[local] Existing Instance insertion_order.

Definition post (assignee : option str) (i now : str) (q : list Task) : list Task :=
  (task_post q None (lit "review") (lit "the patch") assignee None i now).1.

Definition demo_queue : list Task :=
  post (Some (lit "agent-2")) (lit "t3") (lit "03") (post (Some (lit "agent-1")) (lit "t2") (lit "01") (post None (lit "t1") (lit "02") [])).

Lemma claims_drain_witness :
  let '(ts, q') := claim_times 2 (lit "agent-1") demo_queue in
  task_id <$> ts = [lit "t2"; lit "t1"] ∧ task_claim q' (None, None) (lit "agent-1") = (q', Ok None).
Proof.
  assert (NoDup (task_id <$> demo_queue)) as Hnd by (apply (bool_decide_unpack _); vm_compute; reflexivity).
  pose proof (claims_drain demo_queue (lit "agent-1") Hnd) as Hd.
  change (length (List.filter (claimable (lit "agent-1")) demo_queue)) with 2 in Hd.
  destruct (claim_times 2 (lit "agent-1") demo_queue) as [ts q'] eqn:E. split; [|apply Hd].
  apply (f_equal (λ p, task_id <$> p.1)) in E. cbn [fst] in E. rewrite <-E. vm_compute. reflexivity.
Defined.

(** A task for an agent by its name is not claimed by the agent, which claims
    by its identifier. *)
Example named_task_stays :
  (task_claim (post (Some (lit "coder")) (lit "t1") (lit "01") []) (None, None) (lit "agent-1")).2 = Ok None.
Proof. vm_compute. reflexivity. Qed.

(** A task can be completed by an agent that did not claim it, when nobody did. *)
Example unclaimed_completed :
  status <$> (tool_task_complete true (post None (lit "t1") (lit "01") []) None
                (JObj [(lit "result", JStr (lit "fine")); (lit "task_id", JStr (lit "t1"))]) (lit "02")).1 = [completed].
Proof. vm_compute. reflexivity. Qed.
End TaskDemo.
