(* ===== verification/KnowledgeGraph.v ===== *)
(** * The knowledge graph

    [openfang-memory/src/knowledge.rs], the graph types of
    [openfang-types/src/memory.rs] and the three tools of agents in
    [openfang-runtime/src/tool_runner.rs]: entities, relations between them,
    and the query for relations with their two ends. The tables are the lists
    of their rows; [fault] is the error of the connection, if there is one.
    Properties are kept in their encoding, which is a parameter. *)

From Stdlib Require Import Ascii ZArith Lia SpecFloat.
From stdpp Require Import base strings list.
From S2P Require Import Prelude Strs Floats Sql Json SemanticMemory TaskQueue.

Inductive EntityType : Type :=
| Person | Organization | Project | Concept | EventEntity | Location | DocumentEntity | ToolEntity
| CustomEntity (name : str).

Inductive RelationType : Type :=
| WorksAt | KnowsAbout | RelatedTo | DependsOn | OwnedBy | CreatedBy | LocatedIn | PartOf | Uses | Produces
| CustomRelation (name : str).

#[export] Instance entity_type_eq_dec : EqDecision EntityType.
Proof. solve_decision. Defined.

#[export] Instance relation_type_eq_dec : EqDecision RelationType.
Proof. solve_decision. Defined.

Section graph.
Context {Properties Time : Type}.
(** [serde_json::to_string] of the types and of properties, and [from_str]. *)
Context (entity_type_text : EntityType → str) (entity_type_of : str → option EntityType).
Context (relation_type_text : RelationType → str) (relation_type_of : str → option RelationType).
Context (properties_text : Properties → str) (properties_of : str → option Properties) (no_properties : Properties).
Context (parse_from_rfc3339 : str → option Time).

Record Entity : Type := mkEntity {
  entity_id : str;
  entity_type : EntityType;
  entity_name : str;
  entity_properties : Properties;
  entity_created : Time;
  entity_updated : Time
}.

Record Relation : Type := mkRelation {
  relation_source : str;
  relation : RelationType;
  relation_target : str;
  relation_properties : Properties;
  relation_confidence : spec_float;
  relation_created : Time
}.

Record GraphPattern : Type := mkPattern {
  pattern_source : option str;
  pattern_relation : option RelationType;
  pattern_target : option str;
  max_depth : Z
}.

Record GraphMatch : Type := mkMatch { match_source : Entity; match_relation : Relation; match_target : Entity }.

(** Rows of [entities] and [relations]. *)
Record EntityRow : Type := mkEntityRow {
  er_id : str;
  er_type : str;
  er_name : str;
  er_properties : str;
  er_created : str;
  er_updated : str
}.

Record RelationRow : Type := mkRelationRow {
  rr_id : str;
  rr_source : str;
  rr_type : str;
  rr_target : str;
  rr_properties : str;
  rr_confidence : spec_float;
  rr_created : str
}.

Record Graph : Type := mkGraph { entities : list EntityRow; relations : list RelationRow }.

(** [ON CONFLICT(id) DO UPDATE SET name, properties, updated_at] *)
Definition upsert_entity (row : EntityRow) (es : list EntityRow) : list EntityRow :=
  if decide (er_id row ∈ er_id <$> es)
  then (λ e, if decide (er_id e = er_id row)
             then mkEntityRow (er_id e) (er_type e) (er_name row) (er_properties row) (er_created e) (er_updated row)
             else e) <$> es
  else es ++ [row].

Definition add_entity (g : Graph) (fault : option str) (e : Entity) (fresh now : str) : Graph * result str QueueError :=
  let id := if is_empty (entity_id e) then fresh else entity_id e in
  match fault with
  | Some err => (g, Err (MemoryError err))
  | None =>
      (mkGraph (upsert_entity (mkEntityRow id (entity_type_text (entity_type e)) (entity_name e)
                                 (properties_text (entity_properties e)) now now) (entities g)) (relations g), Ok id)
  end.

Definition add_relation (g : Graph) (fault : option str) (r : Relation) (fresh now : str) : Graph * result str QueueError :=
  match fault with
  | Some err => (g, Err (MemoryError err))
  | None =>
      if decide (fresh ∈ rr_id <$> relations g)
      then (g, Err (MemoryError (lit "UNIQUE constraint failed: relations.id")))
      else
        (mkGraph (entities g)
           (relations g ++ [mkRelationRow fresh (relation_source r) (relation_type_text (relation r)) (relation_target r)
                              (properties_text (relation_properties r)) (f32_as_f64 (relation_confidence r)) now]), Ok fresh)
  end.

(** ** Queries *)

(** [JOIN entities s ON r.source_entity = s.id JOIN entities t ON ..] *)
Definition joined (g : Graph) : list (EntityRow * RelationRow * EntityRow) :=
  r ← relations g;
  s ← List.filter (λ e, str_eqb (rr_source r) (er_id e)) (entities g);
  t ← List.filter (λ e, str_eqb (rr_target r) (er_id e)) (entities g);
  [(s, r, t)].

Definition named (x : str) (e : EntityRow) : bool := str_eqb (er_id e) x || str_eqb (er_name e) x.

(** The conditions of the pattern. *)
Definition fits (p : GraphPattern) (m : EntityRow * RelationRow * EntityRow) : bool :=
  let '(s, r, t) := m in
  asked (pattern_source p) (λ x, named x s) &&
  asked (pattern_relation p) (λ x, str_eqb (rr_type r) (relation_type_text x)) &&
  asked (pattern_target p) (λ x, named x t).

Definition parse_entity (now : Time) (e : EntityRow) : Entity :=
  mkEntity (er_id e) (default (CustomEntity (lit "unknown")) (entity_type_of (er_type e))) (er_name e)
    (default no_properties (properties_of (er_properties e)))
    (default now (parse_from_rfc3339 (er_created e))) (default now (parse_from_rfc3339 (er_updated e))).

Definition parse_relation (now : Time) (r : RelationRow) : Relation :=
  mkRelation (rr_source r) (default RelatedTo (relation_type_of (rr_type r))) (rr_target r)
    (default no_properties (properties_of (rr_properties r))) (f64_as_f32 (rr_confidence r))
    (default now (parse_from_rfc3339 (rr_created r))).

Definition match_of (now : Time) (m : EntityRow * RelationRow * EntityRow) : GraphMatch :=
  let '(s, r, t) := m in mkMatch (parse_entity now s) (parse_relation now r) (parse_entity now t).

(** Without an [ORDER BY], the engine visits the rows in an order of its own. *)
Context (visit : list (EntityRow * RelationRow * EntityRow) → list (EntityRow * RelationRow * EntityRow)).

Definition query_graph (g : Graph) (fault : option str) (p : GraphPattern) (now : Time) : result (list GraphMatch) QueueError :=
  match fault with
  | Some e => Err (MemoryError e)
  | None => Ok (match_of now <$> take 100 (visit (List.filter (fits p) (joined g))))
  end.

(** ** The tools *)

Context `{UnicodeCase}.
(** [as_object] of properties, collected. *)
Context (properties_from : option Json → Properties) (as_f64 : Json → option spec_float).
Context (debug_entity_type : EntityType → str) (debug_relation_type : RelationType → str) (fmt_percent : spec_float → str).

Definition among (s : str) (l : list string) : bool := existsb (λ x, str_eqb s (lit x)) l.

Definition parse_entity_type (s : str) : EntityType :=
  let s := to_lowercase s in
  if among s ["person"] then Person
  else if among s ["organization"; "org"] then Organization
  else if among s ["project"] then Project
  else if among s ["concept"] then Concept
  else if among s ["event"] then EventEntity
  else if among s ["location"] then Location
  else if among s ["document"; "doc"] then DocumentEntity
  else if among s ["tool"] then ToolEntity
  else CustomEntity s.

Definition parse_relation_type (s : str) : RelationType :=
  let s := to_lowercase s in
  if among s ["works_at"; "worksat"] then WorksAt
  else if among s ["knows_about"; "knowsabout"; "knows"] then KnowsAbout
  else if among s ["related_to"; "relatedto"; "related"] then RelatedTo
  else if among s ["depends_on"; "dependson"; "depends"] then DependsOn
  else if among s ["owned_by"; "ownedby"] then OwnedBy
  else if among s ["created_by"; "createdby"] then CreatedBy
  else if among s ["located_in"; "locatedin"] then LocatedIn
  else if among s ["part_of"; "partof"] then PartOf
  else if among s ["uses"] then Uses
  else if among s ["produces"] then Produces
  else CustomRelation s.

Definition no_kernel : str := lit "Kernel handle not available. Inter-agent tools require a running kernel.".

Definition tool_knowledge_add_entity (kernel : bool) (g : Graph) (fault : option str) (input : Json)
    (time : Time) (fresh now : str) : Graph * result str str :=
  if negb kernel then (g, Err no_kernel)
  else
    match as_str (index input "name") with
    | None => (g, Err (lit "Missing 'name' parameter"))
    | Some name =>
        match as_str (index input "entity_type") with
        | None => (g, Err (lit "Missing 'entity_type' parameter"))
        | Some et =>
            let e := mkEntity [] (parse_entity_type et) name (properties_from (Json.get input (lit "properties"))) time time in
            let '(g, r) := add_entity g fault e fresh now in
            (g, match wrapped "Knowledge add entity failed: " r with
                | Ok id => Ok (lit "Entity '" ++ name ++ lit "' added with ID: " ++ id)
                | Err e => Err e
                end)
        end
    end.

Definition tool_knowledge_add_relation (kernel : bool) (g : Graph) (fault : option str) (input : Json)
    (time : Time) (fresh now : str) : Graph * result str str :=
  if negb kernel then (g, Err no_kernel)
  else
    match as_str (index input "source") with
    | None => (g, Err (lit "Missing 'source' parameter"))
    | Some source =>
        match as_str (index input "relation") with
        | None => (g, Err (lit "Missing 'relation' parameter"))
        | Some rel =>
            match as_str (index input "target") with
            | None => (g, Err (lit "Missing 'target' parameter"))
            | Some target =>
                let confidence := f64_as_f32 (default (f64_of_Z 1) (as_f64 (index input "confidence"))) in
                let r := mkRelation source (parse_relation_type rel) target
                           (properties_from (Json.get input (lit "properties"))) confidence time in
                let '(g, r) := add_relation g fault r fresh now in
                (g, match wrapped "Knowledge add relation failed: " r with
                    | Ok id =>
                        Ok (lit "Relation '" ++ source ++ lit "' --[" ++ rel ++ lit "]--> '" ++ target
                            ++ lit "' added with ID: " ++ id)
                    | Err e => Err e
                    end)
            end
        end
    end.

Definition match_line (m : GraphMatch) : str :=
  [newline] ++ lit "  " ++ entity_name (match_source m) ++ lit " (" ++ debug_entity_type (entity_type (match_source m))
  ++ lit ") --[" ++ debug_relation_type (relation (match_relation m)) ++ lit " ("
  ++ fmt_percent (f32_mul (relation_confidence (match_relation m)) (f64_as_f32 (f64_of_Z 100))) ++ lit "%)]--> "
  ++ entity_name (match_target m) ++ lit " (" ++ debug_entity_type (entity_type (match_target m)) ++ lit ")".

Definition query_pattern (input : Json) : GraphPattern :=
  mkPattern (as_str (index input "source")) (parse_relation_type <$> as_str (index input "relation"))
    (as_str (index input "target")) (default 1 (as_u64 (index input "max_depth")) mod 2 ^ 32)%Z.

Definition tool_knowledge_query (kernel : bool) (g : Graph) (fault : option str) (input : Json) (now : Time) : result str str :=
  if negb kernel then Err no_kernel
  else
    match wrapped "Knowledge query failed: " (query_graph g fault (query_pattern input) now) with
    | Err e => Err e
    | Ok [] => Ok (lit "No matching knowledge graph entries found.")
    | Ok ms => Ok (lit "Found " ++ show_nat (length ms) ++ lit " match(es):" ++ [newline] ++ concat (match_line <$> ms))
    end.

(** ** What a query finds *)

Lemma elem_of_joined g s r t :
  (s, r, t) ∈ joined g ↔
  r ∈ relations g ∧ s ∈ entities g ∧ rr_source r = er_id s ∧ t ∈ entities g ∧ rr_target r = er_id t.
Proof.
  unfold joined. rewrite list_elem_of_bind. setoid_rewrite list_elem_of_bind. setoid_rewrite list_elem_of_bind.
  setoid_rewrite list_elem_of_In. setoid_rewrite filter_In. setoid_rewrite str_eqb_spec. split.
  - intros (r' & (s' & (t' & Hin & Ht) & Hs) & Hr). cbn in Hin. destruct Hin as [[= <- <- <-]|[]]. destruct Hs, Ht. auto.
  - intros (Hr & Hs & Es & Ht & Et). exists r. split; [|done]. exists s. split; [|done]. exists t. split; [by left|done].
Qed.

(** A query finds the relations that fit, with the entities at their ends, and
    nothing else; it finds all of them if they are at most a hundred. *)
Theorem query_graph_spec g p now :
  (∀ l, visit l ≡ₚ l) →
  ∃ ms, query_graph g None p now = Ok ms ∧ length ms ≤ 100 ∧
    (∀ m, m ∈ ms → ∃ s r t, m = match_of now (s, r, t) ∧ (s, r, t) ∈ joined g ∧ fits p (s, r, t) = true) ∧
    (length (List.filter (fits p) (joined g)) ≤ 100 →
     ∀ s r t, r ∈ relations g → s ∈ entities g → t ∈ entities g → rr_source r = er_id s → rr_target r = er_id t →
       fits p (s, r, t) = true → match_of now (s, r, t) ∈ ms).
Proof.
  intros Hv. eexists. split; [done|]. split; [rewrite length_fmap, length_take; lia|]. split.
  - intros m Hm. apply list_elem_of_fmap in Hm as ([[s r] t] & -> & Hm). exists s, r, t. split; [done|].
    apply elem_of_take in Hm as (i & Hm & _). apply list_elem_of_lookup_2 in Hm.
    rewrite Hv in Hm. apply list_elem_of_In, filter_In in Hm as [Hm Hf]. by apply list_elem_of_In in Hm.
  - intros Hn s r t Hr Hs Ht Es Et Hf. apply list_elem_of_fmap_2. rewrite take_ge by (by rewrite Hv).
    rewrite Hv. apply list_elem_of_In, filter_In. split; [|done]. apply list_elem_of_In. apply elem_of_joined. auto.
Qed.

(** A relation whose source or target is not the identifier of an entity, as
    when its ends are given by their names, changes the answer of no query. *)
Theorem dangling_relation_invisible g r fresh now p time :
  relation_source r ∉ er_id <$> entities g ∨ relation_target r ∉ er_id <$> entities g →
  query_graph (add_relation g None r fresh now).1 None p time = query_graph g None p time.
Proof.
  intros Hd. unfold add_relation. case_decide; [done|]. cbn [fst]. unfold query_graph.
  assert (∀ row, joined (mkGraph (entities g) (relations g ++ [row])) =
    joined g ++ (s ← List.filter (λ e, str_eqb (rr_source row) (er_id e)) (entities g);
                 t ← List.filter (λ e, str_eqb (rr_target row) (er_id e)) (entities g); [(s, row, t)])) as Hj.
  { intros row. unfold joined. cbn [relations entities]. by rewrite bind_app, (bind_cons _ row []), app_nil_r. }
  rewrite Hj. cbn [rr_source rr_target]. clear Hj.
  assert (∀ x, x ∉ er_id <$> entities g → List.filter (λ e, str_eqb x (er_id e)) (entities g) = []) as He.
  { intros x Hx. destruct (List.filter _ _) as [|e l] eqn:E; [done|]. destruct Hx.
    assert (In e (List.filter (λ e, str_eqb x (er_id e)) (entities g))) as Hin by (rewrite E; by left).
    apply filter_In in Hin as [Hin ->%str_eqb_spec]. apply list_elem_of_fmap_2. by apply list_elem_of_In. }
  destruct Hd as [Hd|Hd]; rewrite (He _ Hd).
  - cbn. by rewrite app_nil_r.
  - replace (mbind _ _) with (@nil (EntityRow * RelationRow * EntityRow)); [by rewrite app_nil_r|].
    by induction (List.filter _ (entities g)).
Qed.

(** ** Entities *)

Lemma upsert_ids row es : NoDup (er_id <$> es) → NoDup (er_id <$> upsert_entity row es).
Proof.
  intros Hnd. unfold upsert_entity. case_decide as Hin.
  - rewrite <-list_fmap_compose. erewrite list_fmap_ext; [exact Hnd|]. intros i e _. cbn. by case_decide.
  - rewrite fmap_app. apply NoDup_app. split; [done|]. split; [|apply NoDup_singleton].
    intros x Hx Hr. apply list_elem_of_singleton in Hr as ->. done.
Qed.

(** Adding an entity leaves identifiers unique and the other entities alone.
    Under its identifier there is then the name and the properties given; an
    entity that was there keeps its type and the time of its creation. *)
Theorem add_entity_spec g e fresh now g' id :
  NoDup (er_id <$> entities g) → add_entity g None e fresh now = (g', Ok id) →
  NoDup (er_id <$> entities g') ∧ relations g' = relations g ∧
  (∀ row, er_id row ≠ id → row ∈ entities g' ↔ row ∈ entities g) ∧
  ∃ row, row ∈ entities g' ∧ er_id row = id ∧ er_name row = entity_name e ∧
    er_properties row = properties_text (entity_properties e) ∧ er_updated row = now ∧
    match List.find (λ r, str_eqb (er_id r) id) (entities g) with
    | Some old => er_type row = er_type old ∧ er_created row = er_created old
    | None => er_type row = entity_type_text (entity_type e) ∧ er_created row = now
    end.
Proof.
  intros Hnd [= <- Hid]. rewrite Hid. cbn [entities relations].
  set (new := mkEntityRow id _ _ _ now now). split; [by apply upsert_ids|]. split; [done|].
  change id with (er_id new). unfold upsert_entity. case_decide as Hin.
  - split.
    + intros row Hne. rewrite list_elem_of_fmap. split.
      * intros (r & -> & Hr). case_decide; [by destruct Hne|done].
      * intros Hr. exists row. by rewrite decide_False.
    + destruct (List.find _ (entities g)) as [old|] eqn:Ef.
      * apply find_some in Ef as [Ho E%str_eqb_spec]. apply list_elem_of_In in Ho.
        exists (mkEntityRow (er_id old) (er_type old) (er_name new) (er_properties new) (er_created old) now).
        split; [|done]. apply list_elem_of_fmap. exists old. by rewrite decide_True.
      * apply list_elem_of_fmap in Hin as (r & E & Hr). apply list_elem_of_In in Hr.
        apply (find_none _ _ Ef) in Hr. rewrite <-E, str_eqb_refl in Hr. done.
  - split.
    + intros row Hne. rewrite elem_of_app, list_elem_of_singleton. split; [|by left]. intros [?| ->]; [done|by destruct Hne].
    + exists new. split; [apply elem_of_app; right; by apply list_elem_of_singleton|].
      destruct (List.find _ (entities g)) as [old|] eqn:Ef; [|done].
      apply find_some in Ef as [Ho E%str_eqb_spec]. apply list_elem_of_In in Ho. destruct Hin. rewrite <-E.
      by apply list_elem_of_fmap_2.
Qed.
End graph.

(** ** A small graph *)

Module GraphDemo.
#[local] Existing Instance ascii_case.

Definition type_text (t : EntityType) : str :=
  match t with Person => lit "person" | Organization => lit "organization" | CustomEntity s => s | _ => lit "other" end.
Definition type_of (s : str) : option EntityType :=
  if str_eqb s (lit "person") then Some Person else if str_eqb s (lit "organization") then Some Organization else None.
Definition relation_text (t : RelationType) : str := match t with WorksAt => lit "works_at" | _ => lit "other" end.
Definition relation_of (s : str) : option RelationType := if str_eqb s (lit "works_at") then Some WorksAt else None.

Definition field (k : string) (v : string) : str * Json := (lit k, JStr (lit v)).

Definition demo_add_entity (g : Graph) (name kind id : string) : Graph :=
  (tool_knowledge_add_entity type_text (λ _ : unit, lit "{}") (λ _, tt) true g None
     (JObj [field "entity_type" kind; field "name" name]) (lit "now") (lit id) (lit "01")).1.

Definition demo_relate (g : Graph) (source rel target : string) : Graph :=
  (tool_knowledge_add_relation relation_text (λ _ : unit, lit "{}") (λ _, tt) (λ _, None) true g None
     (JObj [field "relation" rel; field "source" source; field "target" target]) (lit "now") (lit "r1") (lit "02")).1.

Abbreviation demo_query := (query_graph (Properties := unit) (Time := str) type_of relation_text relation_of (λ _, Some tt) tt Some (λ l, l)).

Definition people : Graph := demo_add_entity (demo_add_entity (mkGraph [] []) "Alice" "Person" "e1") "Acme" "org" "e2".

Definition anything : GraphPattern := mkPattern None None None 1.

Definition found (r : result (list (GraphMatch (Properties := unit) (Time := str))) QueueError) : option (list (str * str)) :=
  match r with
  | Ok ms => Some ((λ m, (entity_name (match_source m), entity_name (match_target m))) <$> ms)
  | Err _ => None
  end.

Example related_by_ids : found (demo_query (demo_relate people "e1" "worksat" "e2") None anything (lit "now")) = Some [(lit "Alice", lit "Acme")].
Proof. vm_compute. reflexivity. Qed.

(** The tool takes names as well as identifiers, and reports success. *)
Example related_by_names : found (demo_query (demo_relate people "Alice" "works_at" "Acme") None anything (lit "now")) = Some [].
Proof. vm_compute. reflexivity. Qed.

(** Two steps away is not reached, whatever the depth. *)
Example depth_ignored :
  let g := demo_add_entity people "Berlin" "location" "e3" in
  let g := mkGraph (entities g) (relations (demo_relate g "e1" "works_at" "e2") ++
             [mkRelationRow (lit "r2") (lit "e2") (lit "other") (lit "e3") (lit "{}") (f64_of_Z 1) (lit "02")]) in
  found (demo_query g None (mkPattern (Some (lit "Alice")) None (Some (lit "Berlin")) 5) (lit "now")) = Some [].
Proof. vm_compute. reflexivity. Qed.

Lemma query_graph_spec_witness :
  ∃ ms, demo_query (demo_relate people "e1" "works_at" "e2") None anything (lit "now") = Ok ms ∧ length ms ≤ 100.
Proof.
  destruct (query_graph_spec (Properties := unit) (Time := str) type_of relation_text relation_of (λ _, Some tt) tt Some (λ l, l)
              (demo_relate people "e1" "works_at" "e2") anything (lit "now")) as (ms & Hq & Hl & _).
  - intros l. reflexivity.
  - exists ms. split; [exact Hq|exact Hl].
Defined.

Definition by_name : Relation := mkRelation (lit "Alice") WorksAt (lit "Acme") tt (f64_as_f32 (f64_of_Z 1)) (lit "now").

Lemma dangling_relation_invisible_witness :
  demo_query (add_relation relation_text (λ _ : unit, lit "{}") people None by_name (lit "r1") (lit "02")).1 None anything (lit "now")
  = demo_query people None anything (lit "now").
Proof.
  apply (dangling_relation_invisible (Properties := unit) (Time := str) type_of relation_text relation_of (λ _, lit "{}")
           (λ _, Some tt) tt Some (λ l, l) people by_name).
  left. apply (bool_decide_unpack _). vm_compute. reflexivity.
Defined.

Definition renamed : Entity := mkEntity (lit "e1") Organization (lit "Alice B.") tt (lit "now") (lit "now").

(** The new type is not stored. *)
Lemma add_entity_spec_witness :
  ∃ row, row ∈ entities (add_entity type_text (λ _ : unit, lit "{}") people None renamed (lit "x") (lit "09")).1 ∧
    er_name row = lit "Alice B." ∧ er_type row = lit "person".
Proof.
  destruct (add_entity_spec type_text (λ _ : unit, lit "{}") people renamed (lit "x") (lit "09")
              (add_entity type_text (λ _ : unit, lit "{}") people None renamed (lit "x") (lit "09")).1 (lit "e1"))
    as (_ & _ & _ & row & Hr & _ & Hn & _ & _ & Ht).
  - apply (bool_decide_unpack _). vm_compute. reflexivity.
  - vm_compute. reflexivity.
  - exists row. split; [exact Hr|]. split; [exact Hn|]. exact (proj1 Ht).
Defined.
End GraphDemo.
