(* ===== verification/RuntimeServices.v ===== *)
(** * Smaller services around the runtime

    One module each for retries, the cache of web results, automatic replies
    and the links in messages. *)

From Stdlib Require Import Ascii ZArith Lia SpecFloat Sorting.Sorted.
From stdpp Require Import base gmap strings list.
From S2P Require Import Prelude Strs Floats.

(** * Retrying operations

    [openfang-runtime/src/retry.rs]: an operation is attempted again after
    errors that a predicate accepts, with delays that double up to a limit.
    [operation n] is the outcome of attempt [n], counted from 0, and [nanos n]
    the nanoseconds of the clock when the delay after it is drawn. *)

Module Retry.

Record RetryConfig : Type := mkRetry {
  max_attempts : Z;
  min_delay_ms : Z;
  max_delay_ms : Z;
  jitter : spec_float
}.

Definition default_retry : RetryConfig := mkRetry 3 300 30000 (f64_lit 2 10).
Definition llm_retry_config : RetryConfig := mkRetry 3 1000 60000 (f64_lit 2 10).
Definition network_retry_config : RetryConfig := mkRetry 3 500 30000 (f64_lit 1 10).
Definition channel_retry_config : RetryConfig := mkRetry 3 400 15000 (f64_lit 1 10).

Inductive RetryOutcome (T E : Type) : Type :=
| Success (value : T) (attempts : Z)
| Exhausted (last_error : E) (attempts : Z).
Arguments Success {T E} value attempts.
Arguments Exhausted {T E} last_error attempts.

(** ** Delays *)

(** [1u64.checked_shl(attempt).unwrap_or(u64::MAX)] *)
Definition shifted (attempt : Z) : Z := if (attempt <? 64)%Z then Z.shiftl 1 attempt else u64_max.

Definition saturating_mul_u64 (x y : Z) : Z := Z.min (x * y) u64_max.

Definition capped_delay (config : RetryConfig) (attempt : Z) : Z :=
  Z.min (saturating_mul_u64 (min_delay_ms config) (shifted attempt)) (max_delay_ms config).

Definition mixed (nanos : Z) : Z := wrapping_mul_u32 nanos 2654435761.

Definition pseudo_random_fraction (nanos : Z) : spec_float := f64_div (f64_of_Z (mixed nanos)) (f64_of_Z u32_max).

Definition compute_backoff (config : RetryConfig) (attempt nanos : Z) : Z :=
  let capped := capped_delay config attempt in
  if SFleb (jitter config) (f64_of_Z 0) then capped
  else
    let frac := pseudo_random_fraction nanos in
    let jitter_offset := f64_mul (f64_mul (f64_of_Z capped) frac) (jitter config) in
    Z.min (f64_to_u64 (f64_add (f64_of_Z capped) jitter_offset)) (max_delay_ms config).

(** ** Attempts *)

Section retry.
Context {T E : Type}.
Context (config : RetryConfig) (operation : nat → result T E) (should_retry : E → bool)
  (retry_after_hint : E → option Z) (nanos : nat → Z).

Definition attempts_allowed : Z := Z.max (max_attempts config) 1.

Definition delay_after (attempt : nat) (e : E) : Z :=
  match retry_after_hint e with
  | Some hinted => Z.min hinted (max_delay_ms config)
  | None => compute_backoff config (Z.of_nat attempt) (nanos attempt)
  end.

(** The loop from [attempt] with [rounds] rounds to go: the delays slept and the
    outcome. [None] after the last round is the [expect] that is not reached. *)
Fixpoint retry_from (rounds attempt : nat) : list Z * option (RetryOutcome T E) :=
  match rounds with
  | 0 => ([], None)
  | S rounds =>
      match operation attempt with
      | Ok value => ([], Some (Success value (Z.of_nat attempt + 1)))
      | Err e =>
          if (attempts_allowed <=? Z.of_nat attempt + 1)%Z || negb (should_retry e)
          then ([], Some (Exhausted e (Z.of_nat attempt + 1)))
          else
            let '(delays, outcome) := retry_from rounds (S attempt) in
            (delay_after attempt e :: delays, outcome)
      end
  end.

Definition retry_async : list Z * option (RetryOutcome T E) := retry_from (Z.to_nat attempts_allowed) 0.

(** ** What a retry returns *)

(** Whether the operation is tried again after an attempt. *)
Definition goes_on (attempt : nat) : Prop :=
  ∃ e, operation attempt = Err e ∧ should_retry e = true ∧ (Z.of_nat attempt + 1 < attempts_allowed)%Z.

Definition outcome_of (attempt : nat) : RetryOutcome T E :=
  match operation attempt with
  | Ok value => Success value (Z.of_nat attempt + 1)
  | Err e => Exhausted e (Z.of_nat attempt + 1)
  end.

Definition delay_of (attempt : nat) : Z :=
  match operation attempt with Ok _ => 0%Z | Err e => delay_after attempt e end.

Lemma retry_from_spec rounds attempt :
  Z.of_nat (rounds + attempt) = attempts_allowed → rounds ≠ 0 →
  ∃ k, k < rounds ∧ (∀ i, i < k → goes_on (attempt + i)) ∧ ¬ goes_on (attempt + k)
    ∧ retry_from rounds attempt = (delay_of <$> seq attempt k, Some (outcome_of (attempt + k))).
Proof.
  revert attempt. induction rounds as [|rounds IH]; intros attempt Hsum Hne; [done|]. cbn [retry_from].
  destruct (operation attempt) as [v|e] eqn:Eo.
  { exists 0. rewrite Nat.add_0_r. split_and!; [lia|lia| |].
    - intros (e & Ee & _). congruence.
    - unfold outcome_of. by rewrite Eo. }
  destruct ((attempts_allowed <=? Z.of_nat attempt + 1)%Z || negb (should_retry e)) eqn:Eg.
  { exists 0. rewrite Nat.add_0_r. split_and!; [lia|lia| |].
    - intros (e' & Ee & Hr & Hlt). rewrite Eo in Ee. injection Ee as <-. rewrite Hr, orb_false_r in Eg. apply Z.leb_le in Eg. lia.
    - unfold outcome_of. by rewrite Eo. }
  apply orb_false_iff in Eg as [Hlt%Z.leb_gt Hr%negb_false_iff].
  destruct (IH (S attempt)) as (k & Hk & Hon & Hoff & ->); [lia|lia|].
  exists (S k). split_and!; [lia| | |].
  - intros [|i] Hi.
    + rewrite Nat.add_0_r. by exists e.
    + rewrite <-Nat.add_succ_comm. apply Hon. lia.
  - by rewrite <-Nat.add_succ_comm.
  - cbn [seq]. rewrite fmap_cons, Nat.add_succ_comm. unfold delay_of at 2. by rewrite Eo.
Qed.

Lemma delay_bound attempt e : (delay_after attempt e ≤ max_delay_ms config)%Z.
Proof.
  unfold delay_after, compute_backoff, capped_delay. destruct (retry_after_hint e); [lia|]. case_match; lia.
Qed.

(** A retry always returns. It returns after the first attempt that succeeds,
    fails with an error that is not to be retried, or is the last one; the
    outcome is that of this attempt, with its number; it slept once after each
    attempt before it, never longer than the limit. *)
Theorem retry_returns :
  ∃ k, (Z.of_nat k < attempts_allowed)%Z ∧ (∀ i, i < k → goes_on i) ∧ ¬ goes_on k
    ∧ retry_async = (delay_of <$> seq 0 k, Some (outcome_of k))
    ∧ Forall (λ d, d ≤ max_delay_ms config)%Z (retry_async).1.
Proof.
  destruct (retry_from_spec (Z.to_nat attempts_allowed) 0) as (k & Hk & Hon & Hoff & E0).
  { unfold attempts_allowed. lia. }
  { unfold attempts_allowed. lia. }
  cbn [Nat.add] in *. exists k. unfold retry_async. rewrite E0. split_and!; try done; [lia|]. cbn [fst].
  apply Forall_fmap, Forall_seq. intros i Hi. destruct (Hon i) as (e & Ee & _); [lia|].
  cbn. unfold delay_of. rewrite Ee. apply delay_bound.
Qed.
End retry.

(** Without jitter the delay doubles with each attempt up to the limit, at any
    number of attempts. *)
Theorem backoff_doubles config attempt nanos :
  SFleb (jitter config) (f64_of_Z 0) = true → (0 ≤ attempt)%Z → (0 ≤ min_delay_ms config)%Z →
  (0 ≤ max_delay_ms config ≤ u64_max)%Z →
  compute_backoff config attempt nanos = Z.min (min_delay_ms config * 2 ^ attempt) (max_delay_ms config).
Proof.
  intros Hj Ha Hmin Hmax. unfold compute_backoff, capped_delay, saturating_mul_u64, shifted. rewrite Hj.
  destruct (Z.ltb_spec attempt 64).
  - rewrite Z.shiftl_1_l. lia.
  - assert (2 ^ 64 ≤ 2 ^ attempt)%Z by (apply Z.pow_le_mono_r; lia).
    destruct (decide (min_delay_ms config = 0)%Z) as [->|]; [lia|].
    assert (u64_max < 2 ^ 64)%Z by (unfold u64_max; lia). unfold u64_max in *. nia.
Qed.

(** The fraction drawn for the jitter is below one: no number of nanoseconds
    is mixed to the largest [u32]. *)
Theorem fraction_below_one nanos : (0 ≤ nanos < 1000000000)%Z → (0 ≤ mixed nanos < u32_max)%Z.
Proof.
  intros Hn. unfold mixed, wrapping_mul_u32. pose proof (Z.mod_pos_bound (nanos * 2654435761) (u32_max + 1)) as Hb.
  unfold u32_max in *. split; [lia|]. apply Z.le_neq. split; [lia|]. intros E0.
  assert ((nanos * 2654435761 * 244002641) mod (4294967295 + 1) = 4050964655)%Z as E1.
  { rewrite <-Z.mul_mod_idemp_l, E0 by lia. reflexivity. }
  assert ((nanos * 2654435761 * 244002641) mod (4294967295 + 1) = nanos)%Z as E2.
  { rewrite <-Z.mul_assoc, <-Z.mul_mod_idemp_r by lia. change ((2654435761 * 244002641) mod (4294967295 + 1))%Z with 1%Z.
    rewrite Z.mul_1_r. apply Z.mod_small. lia. }
  lia.
Qed.

Lemma backoff_doubles_witness :
  compute_backoff (mkRetry 5 100 100000 (f64_of_Z 0)) 3 77 = 800%Z.
Proof. rewrite backoff_doubles; [reflexivity|reflexivity|lia|cbn; lia|cbn; unfold u64_max; lia]. Defined.

Lemma fraction_below_one_witness : (mixed 999999999 < u32_max)%Z.
Proof. apply (fraction_below_one 999999999). lia. Defined.

End Retry.

(** * The cache of web results

    [openfang-runtime/src/web_cache.rs]: values by key that are kept for a
    while. Times are nanoseconds of a clock that never goes back. Threads share
    the cache: [get] looks a value up, and where it is too old lets go of the
    entry before it removes the key, so that other threads come in between;
    the operations are therefore also given as the steps they are made of. *)

Module WebCache.

Record CacheEntry : Type := mkEntry { value : str; inserted_at : Z }.

Abbreviation entries := (gmap (list ascii) CacheEntry).

Section cache.
Context (ttl : Z).

Definition is_zero : bool := (ttl =? 0)%Z.

(** [entry.inserted_at.elapsed()] *)
Definition elapsed (now : Z) (e : CacheEntry) : Z := Z.max 0 (now - inserted_at e).

(** What the first part of [get] finds. *)
Inductive Lookup : Type := Hit (v : str) | Stale | Miss.

Definition look_up (c : entries) (key : str) (now : Z) : Lookup :=
  if is_zero then Miss
  else
    match c !! key with
    | None => Miss
    | Some e => if (ttl <? elapsed now e)%Z then Stale else Hit (value e)
    end.

(** [get] on its own. *)
Definition get (c : entries) (key : str) (now : Z) : entries * option str :=
  match look_up c key now with
  | Hit v => (c, Some v)
  | Stale => (delete key c, None)
  | Miss => (c, None)
  end.

Definition put (c : entries) (key v : str) (now : Z) : entries :=
  if is_zero then c else <[key := mkEntry v now]> c.

Definition evict_expired (c : entries) (now : Z) : entries :=
  filter (λ e, (elapsed now e.2 <=? ttl)%Z = true) c.

(** ** Threads *)

(** A part of an operation, with its time. *)
Inductive cache_step : Type :=
| Look (key : str) (now : Z)
| Remove (key : str)
| Put (key v : str) (now : Z)
| Evict (now : Z).

(** The keys some thread is about to remove. *)
Record Shared : Type := mkShared { cached : entries; removing : list (list ascii) }.

Fixpoint remove_first (key : str) (l : list (list ascii)) : list (list ascii) :=
  match l with [] => [] | k :: l => if decide (k = key) then l else k :: remove_first key l end.

(** A step, and the value it returns from a [get]; [None] where no thread is at
    that step. *)
Definition shared_step (s : Shared) (o : cache_step) : option (Shared * option str) :=
  match o with
  | Look key now =>
      Some match look_up (cached s) key now with
           | Hit v => (s, Some v)
           | Stale => (mkShared (cached s) (key :: removing s), None)
           | Miss => (s, None)
           end
  | Remove key =>
      if decide (key ∈ removing s)
      then Some (mkShared (delete key (cached s)) (remove_first key (removing s)), None)
      else None
  | Put key v now => Some (mkShared (put (cached s) key v now) (removing s), None)
  | Evict now => Some (mkShared (evict_expired (cached s) now) (removing s), None)
  end.

Fixpoint shared_run (s : Shared) (ops : list cache_step) : option Shared :=
  match ops with
  | [] => Some s
  | o :: ops => match shared_step s o with Some (s', _) => shared_run s' ops | None => None end
  end.

(** Every entry is one that was put, at its time. *)
Definition put_before (ops : list cache_step) (c : entries) : Prop :=
  ∀ key e, c !! key = Some e → Put key (value e) (inserted_at e) ∈ ops.

Lemma put_before_step ops s o s' r :
  put_before ops (cached s) → shared_step s o = Some (s', r) → put_before (ops ++ [o]) (cached s').
Proof.
  intros Hp Hs.
  assert (put_before (ops ++ [o]) (cached s)) as Hp' by (intros key e He; apply elem_of_app; left; by apply Hp).
  destruct o; cbn [shared_step] in Hs.
  - destruct (look_up _ _ _); by simplify_eq.
  - case_decide; simplify_eq. intros k e He. apply Hp'. cbn in He. by apply lookup_delete_Some in He as [_ He].
  - simplify_eq. cbn [cached]. unfold put. destruct is_zero; [done|]. intros k e He.
    apply lookup_insert_Some in He as [[<- <-]|[_ He]]; [|by apply Hp']. apply elem_of_app. right. by apply list_elem_of_singleton.
  - simplify_eq. intros k e He. apply Hp'. cbn in He. by apply map_lookup_filter_Some in He as [He _].
Qed.

Lemma put_before_run ops done s s' :
  put_before done (cached s) → shared_run s ops = Some s' → put_before (done ++ ops) (cached s').
Proof.
  revert done s. induction ops as [|o ops IH]; intros done s Hp Hr; cbn [shared_run] in Hr.
  - injection Hr as <-. by rewrite app_nil_r.
  - destruct (shared_step s o) as [[s1 r]|] eqn:E; [|done]. rewrite (cons_middle o done ops), app_assoc.
    eapply IH; [|exact Hr]. by eapply put_before_step.
Qed.

(** However threads interleave, a value that is returned was put for this key,
    and not longer ago than values are kept. *)
Theorem cache_never_stale ops s key now s' v :
  shared_run (mkShared ∅ []) ops = Some s → shared_step s (Look key now) = Some (s', Some v) →
  ∃ t, Put key v t ∈ ops ∧ (now - t ≤ ttl)%Z ∧ s' = s.
Proof.
  intros Hr Hs. assert (put_before ops (cached s)) as Hp.
  { apply (put_before_run ops [] (mkShared ∅ [])); [|done]. intros k e He. cbn [cached] in He. by rewrite lookup_empty in He. }
  cbn [shared_step] in Hs. unfold look_up in Hs. destruct is_zero; [done|].
  destruct (cached s !! key) as [e|] eqn:E; [|done]. destruct (Z.ltb_spec ttl (elapsed now e)) as [|Hle]; [done|].
  simplify_eq. exists (inserted_at e). split; [by apply Hp|]. unfold elapsed in Hle. split; [lia|done].
Qed.

(** ** One thread *)

Inductive cache_op : Type := GetOp (key : str) (now : Z) | PutOp (key v : str) (now : Z) | EvictOp (now : Z).

Definition time_of (o : cache_op) : Z := match o with GetOp _ t | PutOp _ _ t | EvictOp t => t end.

Definition cache_run (c : entries) (o : cache_op) : entries :=
  match o with
  | GetOp key now => (get c key now).1
  | PutOp key v now => put c key v now
  | EvictOp now => evict_expired c now
  end.

(** The last value put, with its time: a cache that removes nothing. *)
Fixpoint last_put (key : str) (ops : list cache_op) (e : option CacheEntry) : option CacheEntry :=
  match ops with
  | [] => e
  | PutOp k v now :: ops => last_put key ops (if decide (k = key) then Some (mkEntry v now) else e)
  | _ :: ops => last_put key ops e
  end.

Definition fresh (now : Z) (e : CacheEntry) : Prop := (elapsed now e ≤ ttl)%Z.

(** What is fresh is there, and what is there was put last. *)
Definition agrees (now : Z) (c : entries) (key : str) (e : option CacheEntry) : Prop :=
  (∀ x, c !! key = Some x → e = Some x) ∧ (∀ x, e = Some x → fresh now x → c !! key = Some x).

Lemma agrees_later now now' c key e : (now ≤ now')%Z → agrees now c key e → agrees now' c key e.
Proof. intros Hn [H1 H2]. split; [done|]. intros x Hx Hf. apply H2; [done|]. unfold fresh, elapsed in *. lia. Qed.

Lemma last_put_app key ops ops' e : last_put key (ops ++ ops') e = last_put key ops' (last_put key ops e).
Proof. revert e. induction ops as [|[] ops IH]; intros e; cbn; auto. Qed.

Lemma agrees_step now c key e o :
  is_zero = false → (now ≤ time_of o)%Z → agrees now c key e →
  agrees (time_of o) (cache_run c o) key (last_put key [o] e).
Proof.
  intros Hz Hn Ha. apply (agrees_later _ _ _ _ _ Hn) in Ha as [H1 H2]. destruct o as [k t|k v t|t]; cbn [cache_run time_of last_put] in *.
  - unfold get, look_up. rewrite Hz. destruct (c !! k) as [x|] eqn:E; [|done].
    destruct (Z.ltb_spec ttl (elapsed t x)) as [Hlt|]; [|done]. cbn [fst]. destruct (decide (k = key)) as [->|Hne].
    + split; [intros y Hy; by rewrite lookup_delete_eq in Hy|]. intros y Hy Hf. pose proof (H1 _ E) as E1. simplify_eq.
      unfold fresh in Hf. lia.
    + split; intros y; rewrite lookup_delete_ne by done; auto.
  - unfold put. rewrite Hz. destruct (decide (k = key)) as [->|Hne].
    + split; intros y; rewrite lookup_insert_eq; intros [= <-]; done.
    + split; intros y; rewrite lookup_insert_ne by done; auto.
  - unfold evict_expired. split.
    + intros y Hy. apply map_lookup_filter_Some in Hy as [Hy _]. auto.
    + intros y Hy Hf. apply map_lookup_filter_Some. split; [auto|]. cbn. apply Z.leb_le. done.
Qed.

Lemma run_disabled ops : is_zero = true → foldl cache_run ∅ ops = ∅.
Proof.
  intros Hz. induction ops as [|[k t|k v t|t] ops IH] using rev_ind; [done|rewrite foldl_snoc, IH; cbn..].
  - unfold get, look_up. by rewrite Hz.
  - unfold put. by rewrite Hz.
  - unfold evict_expired. by rewrite map_filter_empty.
Qed.

Lemma run_agrees ops key now :
  is_zero = false → StronglySorted Z.le ((time_of <$> ops) ++ [now]) →
  agrees now (foldl cache_run ∅ ops) key (last_put key ops None).
Proof.
  intros Hz Hs. assert (∀ t0 c e, Forall (Z.le t0) ((time_of <$> ops) ++ [now]) → agrees t0 c key e →
    agrees now (foldl cache_run c ops) key (last_put key ops e)) as Hgen.
  { clear -Hz Hs. induction ops as [|o ops IH]; intros t0 c e Ht Ha.
    - cbn in Ht. apply Forall_cons in Ht as [Ht _]. by eapply agrees_later.
    - cbn in Hs, Ht. apply StronglySorted_inv in Hs as [Hs Hle]. apply Forall_cons in Ht as [Ht _].
      change (last_put key (o :: ops) e) with (last_put key ([o] ++ ops) e). rewrite last_put_app. cbn [foldl].
      eapply (IH Hs (time_of o)); [done|]. by eapply agrees_step. }
  destruct ((time_of <$> ops) ++ [now]) as [|t0 l] eqn:E; [by destruct ops|].
  apply StronglySorted_inv in Hs as [_ Hle]. apply (Hgen t0); [constructor; [lia|done]|].
  split; [intros x Hx; by rewrite lookup_empty in Hx|done].
Qed.

(** C31: Used by one thread, with a time that does not go back, the cache answers
    as one that removes nothing and looks at the age of what was put last:
    removing old entries, at whatever moment, changes no answer. With a time to
    live of zero it is switched off: it keeps nothing and answers nothing. *)
Theorem cache_refines ops key now :
  StronglySorted Z.le ((time_of <$> ops) ++ [now]) →
  (get (foldl cache_run ∅ ops) key now).2 =
    match last_put key ops None with
    | Some e => if negb (ttl =? 0)%Z && (elapsed now e <=? ttl)%Z then Some (value e) else None
    | None => None
    end ∧
  (ttl = 0%Z → foldl cache_run ∅ ops = ∅).
Proof.
  intros Hs. split; [|intros Hz; apply run_disabled; by apply Z.eqb_eq].
  unfold get, look_up. change (ttl =? 0)%Z with is_zero. destruct is_zero eqn:Hz; cbn [negb andb].
  { by destruct (last_put key ops None). }
  destruct (run_agrees ops key now Hz Hs) as [H1 H2].
  destruct (last_put key ops None) as [e|].
  - destruct (Z.leb_spec (elapsed now e) ttl) as [Hf|Hf].
    + rewrite (H2 e) by done. rewrite (proj2 (Z.ltb_ge _ _)) by done. done.
    + destruct (foldl cache_run ∅ ops !! key) as [x|] eqn:E; [|done]. pose proof (H1 _ eq_refl) as [= <-].
      by rewrite (proj2 (Z.ltb_lt _ _)).
  - destruct (foldl cache_run ∅ ops !! key) as [x|] eqn:E; [|done]. by pose proof (H1 _ eq_refl).
Qed.
End cache.

Lemma cache_refines_witness :
  let ops := [PutOp (lit "k") (lit "v") 1; GetOp (lit "k") 70; PutOp (lit "k") (lit "w") 80; EvictOp 100] in
  (get 60 (foldl (cache_run 60) ∅ ops) (lit "k") 120).2 = Some (lit "w") ∧
  (get 0 (foldl (cache_run 0) ∅ ops) (lit "k") 120).2 = None.
Proof.
  intros ops. split.
  - apply (cache_refines 60 ops (lit "k") 120). cbn. repeat constructor; lia.
  - apply (cache_refines 0 ops (lit "k") 120). cbn. repeat constructor; lia.
Defined.

Lemma cache_never_stale_witness :
  ∃ t, Put (lit "k") (lit "v") t ∈ [Put (lit "k") (lit "v") 5] ∧ (40 - t ≤ 60)%Z ∧
    mkShared {[lit "k" := mkEntry (lit "v") 5]} [] = mkShared {[lit "k" := mkEntry (lit "v") 5]} [].
Proof.
  apply (cache_never_stale 60 [Put (lit "k") (lit "v") 5] _ (lit "k") 40 _ (lit "v")); vm_compute; reflexivity.
Defined.

(** A value that is put while another thread lets go of an old one is lost. *)
Example put_lost :
  cached <$> shared_run 60 (mkShared ∅ [])
    [Put (lit "k") (lit "v") 0; Look (lit "k") 100; Put (lit "k") (lit "w") 101; Remove (lit "k")] = Some ∅.
Proof. vm_compute. reflexivity. Qed.

End WebCache.

(** * Automatic replies

    [openfang-kernel/src/auto_reply.rs] and [check_auto_reply] of
    [openfang-api/src/channel_bridge.rs]: which messages are answered
    automatically, and how many answers are worked on at a time. The agent is
    asked in a task of its own, which holds a permit of the semaphore to its
    end, however it ends. *)

Module AutoReply.

(** [AutoReplyConfig] of [openfang-types/src/config.rs]. *)
Record AutoReplyConfig : Type := mkAutoReply {
  enabled : bool;
  max_concurrent : nat;
  timeout_secs : Z;
  suppress_patterns : list str
}.

Record AutoReplyChannel : Type := mkReplyChannel {
  channel_type : str;
  peer_id : str;
  thread_id : option str
}.

Definition default_config : AutoReplyConfig := mkAutoReply false 3 120 [lit "/stop"; lit "/pause"].

Section engine.
Context {AgentId : Type} `{UnicodeCase}.

Definition should_reply (c : AutoReplyConfig) (message channel : str) (a : AgentId) : option AgentId :=
  if negb (enabled c) then None
  else
    let lower := to_lowercase message in
    if existsb (λ p, contains lower (to_lowercase p)) (suppress_patterns c) then None else Some a.

(** A task: what it is to ask of whom, and where the answer goes. *)
Record ReplyTask : Type := mkReplyTask {
  task_agent : AgentId;
  task_message : str;
  reply_channel : AutoReplyChannel
}.

(** The permits that are left, and the tasks by their number. *)
Record Engine : Type := mkEngine {
  config : AutoReplyConfig;
  permits : nat;
  tasks : gmap nat ReplyTask
}.

Definition new (c : AutoReplyConfig) : Engine := mkEngine c (max_concurrent c `max` 1) ∅.

(** [try_acquire_owned], and the task that is spawned; [n] is its number. *)
Definition execute_reply (e : Engine) (n : nat) (t : ReplyTask) : Engine * result nat str :=
  match permits e with
  | 0 => (e, Err (lit "Auto-reply concurrency limit reached (" ++ show_nat (max_concurrent (config e)) ++ lit " max)"))
  | S p => (mkEngine (config e) p (<[n := t]> (tasks e)), Ok n)
  end.

(** How [send_to_agent] under the timeout ends. *)
Inductive Answer : Type := Answered (r : result str str) | TimedOut.

(** The end of a task: what is sent to the channel, and its permit given back. *)
Definition finish (e : Engine) (n : nat) (x : Answer) : option (Engine * option (str * AutoReplyChannel)) :=
  t ← tasks e !! n;
  Some (mkEngine (config e) (S (permits e)) (delete n (tasks e)),
        match x with Answered (Ok response) => Some (response, reply_channel t) | _ => None end).

(** [check_auto_reply] of the bridge, with the kernel's [send_message]. *)
Definition check_auto_reply (e : Engine) (send_message : AgentId → str → result str str) (a : AgentId) (message : str)
    : option str :=
  match should_reply (config e) message (lit "bridge") a with
  | None => None
  | Some _ => match send_message a message with Ok response => Some response | Err _ => None end
  end.

(** ** The limit *)

Inductive engine_step : Engine → Engine → Prop :=
| step_execute e n t : tasks e !! n = None → engine_step e (execute_reply e n t).1
| step_finish e n x e' r : finish e n x = Some (e', r) → engine_step e e'.

Lemma permits_step e e' :
  engine_step e e' → permits e' + size (tasks e') = permits e + size (tasks e) ∧ config e' = config e.
Proof.
  intros [e0 n t Hn|e0 n x e1 r Hf].
  - unfold execute_reply. destruct (permits e0) as [|p] eqn:E; [by cbn [fst]; rewrite E|]. cbn. rewrite map_size_insert_None by done. split; [lia|done].
  - apply bind_Some in Hf as (t & Ht & [= <- <-]). cbn.
    assert (size (delete n (tasks e0)) = pred (size (tasks e0))) as Hs by (apply map_size_delete_Some; by eexists).
    assert (size (tasks e0) ≠ 0) by (rewrite map_size_non_empty_iff; intros He; by rewrite He, lookup_empty in Ht).
    split; [lia|done].
Qed.

(** At no moment are more answers worked on than the configuration allows, at
    least one, and a reply is refused only while there are that many. *)
Theorem replies_bounded c e n t :
  rtc engine_step (new c) e →
  size (tasks e) ≤ max_concurrent c `max` 1 ∧
  (is_ok (execute_reply e n t).2 = false ↔ size (tasks e) = max_concurrent c `max` 1).
Proof.
  intros Hr. assert (permits e + size (tasks e) = max_concurrent c `max` 1) as Hp.
  { assert (permits e + size (tasks e) = permits (new c) + size (tasks (new c))) as ->.
    - induction Hr as [|e0 e1 e2 Hs _ IH]; [done|]. destruct (permits_step _ _ Hs). congruence.
    - cbn. rewrite map_size_empty. lia. }
  split; [lia|]. unfold execute_reply. destruct (permits e); cbn; split; try done; lia.
Qed.

(** A message is answered exactly if replies are enabled and no pattern occurs
    in it, whatever the case of the letters. *)
Theorem should_reply_iff c message channel a :
  should_reply c message channel a = Some a ↔
  enabled c = true ∧ ∀ p, p ∈ suppress_patterns c → contains (to_lowercase message) (to_lowercase p) = false.
Proof.
  unfold should_reply. destruct (enabled c); cbn [negb]; [|naive_solver].
  destruct (existsb _ _) eqn:E.
  - apply List.existsb_exists in E as (p & Hp & Hc). split; [done|]. intros [_ Hn].
    rewrite Hn in Hc by (by apply list_elem_of_In). done.
  - split; [|done]. intros _. split; [done|]. intros p Hp. destruct (contains _ _) eqn:Ec; [|done].
    rewrite <-E. symmetry. apply List.existsb_exists. exists p. split; [by apply list_elem_of_In|done].
Qed.
End engine.

Definition one_at_a_time : AutoReplyConfig := mkAutoReply true 0 120 [lit "/stop"].
Definition some_task : ReplyTask := mkReplyTask 7 (lit "hello") (mkReplyChannel (lit "telegram") (lit "1") None).

Lemma replies_bounded_witness :
  size (tasks (execute_reply (new one_at_a_time) 1 some_task).1) ≤ 1 ∧
  is_ok (execute_reply (execute_reply (new one_at_a_time) 1 some_task).1 2 some_task).2 = false.
Proof.
  destruct (replies_bounded one_at_a_time (execute_reply (new one_at_a_time) 1 some_task).1 2 some_task) as [Hl Hr].
  - eapply rtc_l; [apply step_execute; reflexivity|apply rtc_refl].
  - split; [exact Hl|]. apply Hr. vm_compute. reflexivity.
Defined.

(** The bridge asks the agent although all permits are taken. *)
Example bridge_not_limited :
  let e := (execute_reply (new one_at_a_time) 1 some_task).1 in
  permits e = 0 ∧ check_auto_reply (H := ascii_case) e (λ _ m, Ok m) 7 (lit "hello") = Some (lit "hello").
Proof. vm_compute. split; reflexivity. Qed.

End AutoReply.

(** * Links in messages

    [openfang-runtime/src/link_understanding.rs]: the addresses in a message
    that the agent is told of. The matches of the regular expression, in their
    order, are a parameter. *)

Module LinkUnderstanding.

(** [s.split(p).next()] and [s.split(p).nth(1)] for a text that is not empty. *)
Definition first_part (s p : str) : str := match find s p with Some n => take n s | None => s end.

Definition second_part (s p : str) : option str :=
  match find s p with Some n => Some (first_part (drop (n + length p) s) p) | None => None end.

(** [s.trim_start_matches('[')] *)
Fixpoint trim_brackets (s : str) : str :=
  match s with c :: s' => if bool_decide (c = "["%char) then trim_brackets s' else s | [] => [] end.

(** [LinkConfig] of [openfang-types/src/media.rs]. *)
Record LinkConfig : Type := mkLinkConfig { links_enabled : bool; max_links : nat }.

Section links.
Context `{UnicodeCase} (find_iter : str → list str).

Definition url_host (authority : str) : str :=
  if starts_with authority (lit "[") then trim_brackets (first_part authority (lit "]"))
  else first_part authority (lit ":").

Definition private_names : list str :=
  lit <$> ["localhost"; "127.0.0.1"; "0.0.0.0"; "::1"; "[::1]"; "metadata.google.internal"; "169.254.169.254"]%string.

Definition private_172 (host : str) : bool :=
  starts_with host (lit "172.") &&
  match second_part host (lit ".") with
  | Some octet => match parse_unsigned 255 octet with Some n => (16 <=? n)%Z && (n <=? 31)%Z | None => false end
  | None => false
  end.

Definition private_host (host_lower : str) : bool :=
  bool_decide (host_lower ∈ private_names) ||
  ends_with host_lower (lit ".local") || ends_with host_lower (lit ".internal") ||
  starts_with host_lower (lit "10.") || starts_with host_lower (lit "192.168.") ||
  private_172 host_lower.

Definition is_private_url (url : str) : bool :=
  match second_part url (lit "://") with
  | None => true
  | Some rest => private_host (to_lowercase (url_host (first_part rest (lit "/"))))
  end.

(** The loop: the addresses seen, those kept, and the matches to come. *)
Fixpoint collect (max : nat) (seen urls ms : list str) : list str :=
  match ms with
  | [] => urls
  | url :: ms =>
      if decide (url ∈ seen) then collect max seen urls ms
      else if is_private_url url then collect max (url :: seen) urls ms
      else
        let urls := urls ++ [url] in
        if max <=? length urls then urls else collect max (url :: seen) urls ms
  end.

Definition extract_urls (text : str) (max : nat) : list str := collect max [] [] (find_iter text).

Definition build_link_context (text : str) (c : LinkConfig) : option str :=
  if negb (links_enabled c) then None
  else
    match extract_urls text (max_links c) with
    | [] => None
    | urls =>
        Some ([newline; newline] ++ lit "[Link Context - URLs detected in message]" ++ [newline]
              ++ concat ((λ url, lit "- " ++ url ++ [newline]) <$> urls)
              ++ lit "Use web_fetch to retrieve content from these URLs if relevant to the user's request." ++ [newline])
    end.

(** What is to be kept of the matches: the first [n] that are not private, each
    once. *)
Fixpoint nub (l : list str) : list str :=
  match l with [] => [] | x :: l => x :: List.filter (λ y, negb (str_eqb x y)) (nub l) end.

Definition wanted (ms : list str) : list str := List.filter (λ u, negb (is_private_url u)) (nub ms).

Definition unseen (seen : list str) (u : str) : bool := bool_decide (u ∉ seen).

Lemma unseen_tail seen x l :
  List.filter (unseen seen) (List.filter (λ y, negb (str_eqb x y)) l) =
  List.filter (unseen (if decide (x ∈ seen) then seen else x :: seen)) l.
Proof.
  induction l as [|y l IH]; [done|]. cbn [List.filter]. unfold str_eqb at 1.
  destruct (decide (x = y)) as [<-|Hne].
  - rewrite bool_decide_eq_true_2 by done. cbn [negb]. rewrite IH. unfold unseen at 2. rewrite bool_decide_eq_false_2; [done|].
    case_decide; [by auto|]. intros Hn. apply Hn. left.
  - rewrite bool_decide_eq_false_2 by done. cbn [negb List.filter]. rewrite IH.
    assert (unseen seen y = unseen (if decide (x ∈ seen) then seen else x :: seen) y) as ->; [|done].
    unfold unseen. apply bool_decide_ext. case_decide; [done|]. rewrite elem_of_cons. naive_solver.
Qed.

Lemma collect_spec max seen urls ms :
  length urls < max `max` 1 →
  collect max seen urls ms =
  urls ++ take (max `max` 1 - length urls) (List.filter (λ u, negb (is_private_url u)) (List.filter (unseen seen) (nub ms))).
Proof.
  revert seen urls. induction ms as [|u ms IH]; intros seen urls Hl; cbn [collect nub].
  - cbn. by rewrite take_nil, app_nil_r.
  - cbn [List.filter]. rewrite unseen_tail. unfold unseen at 1. case_decide as Hs.
    + rewrite bool_decide_eq_false_2 by auto. by apply IH.
    + rewrite bool_decide_eq_true_2 by done. cbn [List.filter]. destruct (is_private_url u) eqn:Ep; cbn [negb]; [by apply IH|].
      cbv zeta. rewrite length_app. cbn [length]. replace (max `max` 1 - length urls) with (S (max `max` 1 - (length urls + 1))) by lia.
      cbn [take]. destruct (Nat.leb_spec max (length urls + 1)).
      * by replace (max `max` 1 - (length urls + 1)) with 0 by lia.
      * rewrite IH by (rewrite length_app; cbn; lia). rewrite length_app. cbn [length]. by rewrite <-app_assoc.
Qed.

Lemma elem_of_nub u ms : u ∈ nub ms → u ∈ ms.
Proof.
  induction ms as [|x ms IH]; [done|]. cbn [nub]. intros [->|Hu]%elem_of_cons; [left|right].
  apply list_elem_of_In, filter_In in Hu as [Hu _]. by apply IH, list_elem_of_In.
Qed.

Lemma NoDup_filter_b {A} (f : A → bool) l : NoDup l → NoDup (List.filter f l).
Proof.
  induction 1 as [|x l Hx Hnd IH]; cbn; [constructor|]. destruct (f x); [|done]. constructor; [|done].
  intros Hin. by apply list_elem_of_In, filter_In in Hin as [Hin%list_elem_of_In _].
Qed.

Lemma NoDup_nub ms : NoDup (nub ms).
Proof.
  induction ms as [|x ms IH]; [constructor|]. cbn [nub]. constructor; [|by apply NoDup_filter_b].
  intros Hin. apply list_elem_of_In, filter_In in Hin as [_ Hin]. by rewrite str_eqb_refl in Hin.
Qed.

(** The addresses the agent is told of are the first of those in the message
    that are not private, each once; there are at most as many as configured,
    but one where none is. *)
Theorem extract_urls_spec text max :
  extract_urls text max = take (max `max` 1) (wanted (find_iter text)) ∧
  NoDup (extract_urls text max) ∧
  ∀ u, u ∈ extract_urls text max → u ∈ find_iter text ∧ is_private_url u = false.
Proof.
  assert (extract_urls text max = take (max `max` 1) (wanted (find_iter text))) as E.
  { unfold extract_urls, wanted. rewrite collect_spec by (cbn; lia). cbn [app length]. rewrite Nat.sub_0_r. f_equal. f_equal.
    induction (nub (find_iter text)) as [|u l IH]; [done|]. cbn [List.filter]. by rewrite IH. }
  rewrite E. split; [done|]. split.
  - eapply sublist_NoDup; [|apply sublist_take]. apply NoDup_filter_b, NoDup_nub.
  - intros u Hu. apply elem_of_take in Hu as (i & Hu & _). apply list_elem_of_lookup_2 in Hu.
    unfold wanted in Hu. apply list_elem_of_In, filter_In in Hu as [Hu Hp]. apply negb_true_iff in Hp.
    split; [|done]. by apply elem_of_nub, list_elem_of_In.
Qed.
End links.

(** A limit of none lets one through. *)
Example one_of_none :
  extract_urls (H := ascii_case) (λ s, [s]) (lit "https://example.com/a") 0 = [lit "https://example.com/a"].
Proof. vm_compute. reflexivity. Qed.

(** Loopback is not recognised behind a user name, with a query right after the
    host, or at another address of the network. *)
Example private_missed :
  is_private_url (H := ascii_case) <$>
    [lit "http://127.0.0.1/"; lit "http://user@127.0.0.1/"; lit "http://127.0.0.1?q=1"; lit "http://127.0.0.2/"]
  = [true; false; false; false].
Proof. vm_compute. reflexivity. Qed.

End LinkUnderstanding.
