(* ===== verification/AgentStore.v ===== *)
(** * Stored agents and values

    [openfang-memory/src/structured.rs] and the part of [boot] in
    [openfang-kernel/src/kernel.rs] that restores agents: the values agents
    remember by key, the table of agents, and what becomes of them when the
    program starts again. A table is the list of its rows, or a map from the
    key; [fault] is the error of the connection, if there is one. Encodings are
    parameters. *)

From Stdlib Require Import Ascii ZArith Lia.
From stdpp Require Import base gmap strings list.
From S2P Require Import Prelude Strs ShellExec AgentTypes Capability Event Triggers Background AuditChain AgentQuota AgentRegistry AgentLifecycle.

(** ** Values by key *)

(** A value in a column of type [BLOB]. *)
Inductive SqlValue : Type := SqlBlob (bytes : str) | SqlText (text : str).

(** [row.get::<_, Vec<u8>>] and [row.get::<_, String>] *)
Definition get_blob (v : SqlValue) : result str str := match v with SqlBlob b => Ok b | SqlText _ => Err (lit "Invalid column type") end.
Definition get_text (v : SqlValue) : result str str := match v with SqlText t => Ok t | SqlBlob _ => Err (lit "Invalid column type") end.

Section values.
Context {AgentId Value : Type} `{Countable AgentId}.
Context (to_vec : Value → str) (from_slice : str → result Value str) (json_string : str → Value).
(** [ORDER BY key] *)
Context (by_key : gmap (AgentId * str) (SqlValue * Z * str) → list ((AgentId * str) * (SqlValue * Z * str))).

Abbreviation kv_store := (gmap (AgentId * str) (SqlValue * Z * str)).

Definition get (s : kv_store) (fault : option str) (a : AgentId) (key : str) : result (option Value) str :=
  match fault with
  | Some e => Err e
  | None =>
      match s !! (a, key) with
      | None => Ok None
      | Some (v, _, _) =>
          match get_blob v with
          | Err e => Err e
          | Ok blob => match from_slice blob with Ok value => Ok (Some value) | Err e => Err e end
          end
      end
  end.

Definition set (s : kv_store) (fault : option str) (a : AgentId) (key : str) (value : Value) (now : str)
    : kv_store * result unit str :=
  match fault with
  | Some e => (s, Err e)
  | None =>
      (<[(a, key) := match s !! (a, key) with
                     | Some (_, version, _) => (SqlBlob (to_vec value), (version + 1)%Z, now)
                     | None => (SqlBlob (to_vec value), 1%Z, now)
                     end]> s, Ok tt)
  end.

Definition delete_value (s : kv_store) (fault : option str) (a : AgentId) (key : str) : kv_store * result unit str :=
  match fault with Some e => (s, Err e) | None => (delete (a, key) s, Ok tt) end.

Fixpoint list_rows (rows : list ((AgentId * str) * (SqlValue * Z * str))) : result (list (str * Value)) str :=
  match rows with
  | [] => Ok []
  | ((_, key), (v, _, _)) :: rows =>
      match get_text v with
      | Err e => Err e
      | Ok text =>
          match list_rows rows with
          | Err e => Err e
          | Ok pairs => Ok ((key, match from_slice text with Ok value => value | Err _ => json_string text end) :: pairs)
          end
      end
  end.

Definition list_kv (s : kv_store) (fault : option str) (a : AgentId) : result (list (str * Value)) str :=
  match fault with
  | Some e => Err e
  | None => list_rows (List.filter (λ r, bool_decide (r.1.1 = a)) (by_key s))
  end.

Inductive kv_op : Type :=
| SetValue (a : AgentId) (key : str) (value : Value) (now : str)
| DeleteValue (a : AgentId) (key : str).

Definition kv_step (s : kv_store) (o : kv_op) : kv_store :=
  match o with
  | SetValue a key value now => (set s None a key value now).1
  | DeleteValue a key => (delete_value s None a key).1
  end.

(** The value last set, unless it was deleted after. *)
Fixpoint last_value (a : AgentId) (key : str) (ops : list kv_op) (v : option Value) : option Value :=
  match ops with
  | [] => v
  | SetValue b k x _ :: ops => last_value a key ops (if decide ((b, k) = (a, key)) then Some x else v)
  | DeleteValue b k :: ops => last_value a key ops (if decide ((b, k) = (a, key)) then None else v)
  end.

Lemma kv_last s ops a key v :
  (∀ x, from_slice (to_vec x) = Ok x) →
  get s None a key = Ok v → get (foldl kv_step s ops) None a key = Ok (last_value a key ops v).
Proof.
  intros Hcodec. revert s v. induction ops as [|o ops IH]; intros s v Hg; [done|]. cbn [foldl].
  destruct o as [b k x now|b k]; cbn [last_value]; apply IH; unfold get in *; cbn [kv_step set delete_value fst].
  - destruct (decide ((b, k) = (a, key))) as [E|Hne].
    + rewrite E, lookup_insert_eq. destruct (s !! (a, key)) as [[[? ?] ?]|]; cbn; by rewrite Hcodec.
    + by rewrite lookup_insert_ne.
  - destruct (decide ((b, k) = (a, key))) as [E|Hne].
    + by rewrite E, lookup_delete_eq.
    + by rewrite lookup_delete_ne.
Qed.

(** If the encoding of values round-trips, every key of every agent reads the
    value last set for it, and nothing after it was deleted. *)
Theorem values_read_back ops a key :
  (∀ x, from_slice (to_vec x) = Ok x) → get (foldl kv_step ∅ ops) None a key = Ok (last_value a key ops None).
Proof. intros Hcodec. apply kv_last; [done|]. unfold get. by rewrite lookup_empty. Qed.

Lemma stored_blobs ops k v : foldl kv_step ∅ ops !! k = Some v → ∃ b, v.1.1 = SqlBlob b.
Proof.
  revert k v. induction ops as [|o ops IH] using rev_ind; intros k v; cbn [foldl]; [by rewrite lookup_empty|].
  rewrite foldl_snoc. destruct o as [a key x now|a key]; cbn [kv_step set delete_value fst].
  - intros [[_ <-]|[_ ?]]%lookup_insert_Some; [|eauto]. destruct (foldl _ _ _ !! (a, key)) as [[[? ?] ?]|]; cbn; eauto.
  - intros [_ ?]%lookup_delete_Some. eauto.
Qed.

(** Values are stored as bytes and listed as text: listing fails for every
    agent that has any value. *)
Theorem listing_fails ops a key :
  (∀ s, by_key s ≡ₚ map_to_list s) → is_Some (foldl kv_step ∅ ops !! (a, key)) →
  ∃ e, list_kv (foldl kv_step ∅ ops) None a = Err e.
Proof.
  intros Hperm [v Hv]. unfold list_kv. set (rows := List.filter _ _).
  assert (((a, key), v) ∈ rows) as Hin.
  { apply list_elem_of_In, List.filter_In. cbn. rewrite bool_decide_eq_true_2 by done. split; [|done].
    apply list_elem_of_In. rewrite Hperm. by apply elem_of_map_to_list. }
  assert (Forall (λ r, ∃ b, r.2.1.1 = SqlBlob b) rows) as Hb.
  { apply Forall_forall. intros [k w] [Hr%list_elem_of_In _]%list_elem_of_In%List.filter_In. rewrite Hperm, elem_of_map_to_list in Hr.
    cbn. by eapply stored_blobs. }
  destruct rows as [|[[b k] [[w n] t]] rows]; [by apply elem_of_nil in Hin|]. apply Forall_cons in Hb as [[x Hx] _]. cbn in Hx.
  subst w. cbn. eauto.
Qed.
End values.

(** ** Agents *)

Record AgentRow : Type := mkRow {
  row_id : str;
  row_name : str;
  row_manifest : str;
  row_state : str;
  row_created : str;
  row_session : str
}.

Section agents.
Context {AgentId SessionId Value : Type} `{Countable AgentId} `{UnicodeCase}.

Abbreviation entry_t := (AgentEntry (AgentId := AgentId) (SessionId := SessionId) (Json := Value)).
Abbreviation manifest_t := (AgentManifest (Json := Value)).

(** Encodings: MessagePack, JSON, UUIDs and times. [new_session n] is the id
    drawn for row [n] if its own cannot be read. *)
Context (encode_manifest : manifest_t → str) (decode_manifest : str → result manifest_t str).
Context (encode_state : AgentState → str) (decode_state : str → result AgentState str).
Context (show_agent : AgentId → str) (parse_agent : str → option AgentId).
Context (show_session : SessionId → str) (parse_session : str → option SessionId) (new_session : nat → SessionId).
Context (show_time : Z → str) (parse_time : str → option Z).

Definition row_of (e : entry_t) : AgentRow :=
  mkRow (show_agent (AgentTypes.id e)) (AgentTypes.name e) (encode_manifest (AgentTypes.manifest e)) (encode_state (AgentTypes.state e)) (show_time (AgentTypes.created_at e))
    (show_session (AgentTypes.session_id e)).

(** [ON CONFLICT(id)]: everything but the time of creation is replaced. *)
Definition update_row (e : entry_t) (r : AgentRow) : AgentRow :=
  mkRow (row_id r) (AgentTypes.name e) (encode_manifest (AgentTypes.manifest e)) (encode_state (AgentTypes.state e)) (row_created r) (show_session (AgentTypes.session_id e)).

Definition has_id (i : str) (r : AgentRow) : bool := str_eqb (row_id r) i.

Definition save_agent (t : list AgentRow) (fault : option str) (e : entry_t) : list AgentRow * result unit str :=
  match fault with
  | Some err => (t, Err err)
  | None =>
      (if existsb (has_id (show_agent (AgentTypes.id e))) t
       then (λ r, if has_id (show_agent (AgentTypes.id e)) r then update_row e r else r) <$> t
       else t ++ [row_of e], Ok tt)
  end.

Definition remove_agent (t : list AgentRow) (fault : option str) (i : AgentId) : list AgentRow * result unit str :=
  match fault with
  | Some err => (t, Err err)
  | None => (List.filter (λ r, negb (has_id (show_agent i) r)) t, Ok tt)
  end.

(** The entry of a row: what is not in the table has its default. *)
Definition entry_of (i : AgentId) (r : AgentRow) (m : manifest_t) (s : AgentState) (n : nat) (now : Z) : entry_t :=
  mkEntry i (row_name r) m s default_mode (default now (parse_time (row_created r))) now None []
    (default (new_session n) (parse_session (row_session r))) [] default_identity false None.

Definition load_agent (t : list AgentRow) (fault : option str) (i : AgentId) (now : Z) : result (option entry_t) str :=
  match fault with
  | Some err => Err err
  | None =>
      match List.find (has_id (show_agent i)) t with
      | None => Ok None
      | Some r =>
          match decode_manifest (row_manifest r), decode_state (row_state r) with
          | Err e, _ => Err e
          | Ok _, Err e => Err e
          | Ok m, Ok s => Ok (Some (entry_of i r m s 0 now))
          end
      end
  end.

(** The loop over the rows: the names seen, the agents, and the blobs to write
    back. *)
Fixpoint load_rows (n : nat) (seen : list str) (rows : list AgentRow) (now : Z) : list entry_t * list (str * str) :=
  match rows with
  | [] => ([], [])
  | r :: rows =>
      let name_lower := to_lowercase (row_name r) in
      if bool_decide (name_lower ∈ seen) then load_rows (S n) seen rows now
      else
        let '(agents, repairs) := load_rows (S n) (name_lower :: seen) rows now in
        match parse_agent (row_id r), decode_manifest (row_manifest r) with
        | None, _ | Some _, Err _ => (agents, repairs)
        | Some i, Ok m =>
            let new_blob := encode_manifest m in
            let repairs := if str_eqb new_blob (row_manifest r) then repairs else (row_id r, new_blob) :: repairs in
            match decode_state (row_state r) with
            | Err _ => (agents, repairs)
            | Ok s => (entry_of i r m s n now :: agents, repairs)
            end
        end
  end.

Definition repair_row (t : list AgentRow) (repair : str * str) : list AgentRow :=
  (λ r, if has_id repair.1 r then mkRow (row_id r) (row_name r) repair.2 (row_state r) (row_created r) (row_session r) else r) <$> t.

Definition load_all_agents (t : list AgentRow) (fault : option str) (now : Z) : list AgentRow * result (list entry_t) str :=
  match fault with
  | Some err => (t, Err err)
  | None => let '(agents, repairs) := load_rows 0 [] t now in (foldl repair_row t repairs, Ok agents)
  end.

(** ** Restarting *)

Context {TriggerId EventId LoopId : Type} `{Countable TriggerId} `{Countable LoopId}.

Abbreviation kernel_t := (Kernel (AgentId := AgentId) (SessionId := SessionId) (TriggerId := TriggerId)
  (EventId := EventId) (LoopId := LoopId) (Json := Value)).

Definition with_state_and_policy (cfg : KernelConfig) (e : entry_t) : entry_t :=
  mkEntry (AgentTypes.id e) (AgentTypes.name e) (inherit_policy cfg (AgentTypes.manifest e)) Running (AgentTypes.agent_mode e) (AgentTypes.created_at e) (AgentTypes.last_active e) (AgentTypes.parent e)
    (AgentTypes.children e) (AgentTypes.session_id e) (AgentTypes.tags e) (AgentTypes.identity e) (onboarding_completed e) (onboarding_completed_at e).

Definition restore_agent (cfg : KernelConfig) (now : Z) (k : kernel_t) (e : entry_t) : kernel_t :=
  mkKernel (AgentRegistry.register (registry k) (with_state_and_policy cfg e)).1
    (AgentQuota.register (scheduler k) (AgentTypes.id e) (resources (AgentTypes.manifest e)) now)
    (Capability.grant (caps k) (AgentTypes.id e) (manifest_to_capabilities (AgentTypes.manifest e)))
    (trigger_engine k) (audit_log k) (background k) (event_bus k).

Definition restore (cfg : KernelConfig) (now : Z) (k : kernel_t) (loaded : result (list entry_t) str) : kernel_t :=
  match loaded with Ok agents => foldl (restore_agent cfg now) k agents | Err _ => k end.

(** ** What is kept and what is lost *)

(** An agent that was saved, with what the table does not hold reset. *)
Definition reset_entry (e : entry_t) (created now : Z) : entry_t :=
  mkEntry (AgentTypes.id e) (AgentTypes.name e) (AgentTypes.manifest e) (AgentTypes.state e) default_mode created now None []
    (AgentTypes.session_id e) [] default_identity false None.

Lemma find_updated (i : str) (f : AgentRow → AgentRow) t :
  (∀ r, row_id (f r) = row_id r) → existsb (has_id i) t = true →
  ∃ r, List.find (has_id i) ((λ r, if has_id i r then f r else r) <$> t) = Some (f r).
Proof.
  intros Hf. induction t as [|r t IH]; [done|]. rewrite fmap_cons. cbn [existsb List.find].
  destruct (has_id i r) eqn:E.
  - intros _. exists r. unfold has_id in *. by rewrite Hf, E.
  - rewrite E. exact IH.
Qed.

Lemma find_appended (i : str) r t :
  existsb (has_id i) t = false → has_id i r = true → List.find (has_id i) (t ++ [r]) = Some r.
Proof.
  induction t as [|x t IH]; cbn [existsb app List.find]; [by intros _ ->|]. destruct (has_id i x); [done|]. apply IH.
Qed.

(** If the encodings round-trip, an agent that was saved is loaded with its name, manifest, state and
    session; its mode, parent, children, tags and identity are lost. *)
Theorem agent_read_back t e now :
  decode_manifest (encode_manifest (AgentTypes.manifest e)) = Ok (AgentTypes.manifest e) →
  decode_state (encode_state (AgentTypes.state e)) = Ok (AgentTypes.state e) →
  parse_session (show_session (AgentTypes.session_id e)) = Some (AgentTypes.session_id e) →
  ∃ created, load_agent (save_agent t None e).1 None (AgentTypes.id e) now = Ok (Some (reset_entry e created now)).
Proof.
  intros manifest_codec state_codec session_codec. unfold load_agent, save_agent. set (i := show_agent (AgentTypes.id e)). cbn [fst].
  destruct (existsb (has_id i) t) eqn:Ex.
  - destruct (find_updated i (update_row e) t (λ r, eq_refl) Ex) as [r ->]. cbn [row_manifest row_state update_row].
    rewrite manifest_codec, state_codec. eexists. unfold entry_of, update_row. cbn [row_name row_session row_created].
    rewrite session_codec. reflexivity.
  - rewrite find_appended; [|done|by apply str_eqb_spec]. cbn [row_manifest row_state row_of].
    rewrite manifest_codec, state_codec. eexists. unfold entry_of, row_of. cbn [row_name row_session row_created].
    rewrite session_codec. reflexivity.
Qed.
(** An agent as it is after a restart. *)
Definition unrestricted (e : entry_t) : Prop :=
  AgentTypes.agent_mode e = FullMode ∧ AgentTypes.parent e = None ∧ AgentTypes.tags e = [].

Lemma load_rows_unrestricted n seen rows now : Forall unrestricted (load_rows n seen rows now).1.
Proof.
  revert n seen. induction rows as [|r rows IH]; intros n seen; cbn [load_rows]; [constructor|].
  case_bool_decide; [apply IH|]. specialize (IH (S n) (to_lowercase (row_name r) :: seen)).
  destruct (load_rows _ _ rows now) as [agents repairs]. cbn [fst] in IH.
  destruct (parse_agent (row_id r)), (decode_manifest (row_manifest r)); [|done..]. destruct (decode_state (row_state r)); [|done].
  by constructor.
Qed.

(** Whatever was stored and in whatever mode and state agents were, after a
    restart every agent runs, in the mode with all tools. *)
Theorem restart_lifts_modes cfg t now i e :
  agents (registry (restore cfg now new_kernel (load_all_agents t None now).2)) !! i = Some e →
  AgentTypes.state e = Running ∧ AgentTypes.agent_mode e = FullMode ∧ AgentTypes.parent e = None.
Proof.
  unfold load_all_agents. pose proof (load_rows_unrestricted 0 [] t now) as Hl.
  destruct (load_rows 0 [] t now) as [loaded repairs]. cbn [fst snd restore] in *.
  assert (∀ (k : kernel_t), (∀ i e, agents (registry k) !! i = Some e →
      AgentTypes.state e = Running ∧ AgentTypes.agent_mode e = FullMode ∧ AgentTypes.parent e = None) →
    ∀ i e, agents (registry (foldl (restore_agent cfg now) k loaded)) !! i = Some e →
      AgentTypes.state e = Running ∧ AgentTypes.agent_mode e = FullMode ∧ AgentTypes.parent e = None) as Hk.
  { induction Hl as [|x loaded (Hm & Hp & _) _ IH]; intros k Hk; [exact Hk|]. cbn [foldl]. apply IH.
    intros j y. cbn [restore_agent registry]. unfold AgentRegistry.register. case_bool_decide; cbn [fst agents]; [apply Hk|].
    intros [[_ <-]|[_ Hy]]%lookup_insert_Some; [done|]. by eapply Hk. }
  intros He. apply (Hk new_kernel) with (i := i); [|done]. intros j y. cbn. by rewrite lookup_empty.
Qed.
End agents.

(** ** Examples *)

Definition plain_manifest : AgentManifest (Json := unit) := default_manifest (Floats.f64_of_Z 0).

(** An agent that may only look. *)
Definition watcher : AgentEntry (AgentId := nat) (SessionId := nat) (Json := unit) :=
  mkEntry 7 (lit "watcher") plain_manifest AgentTypes.Suspended Observe 0 0 (Some 3) [] 9 [lit "ops"] default_identity false None.

Definition demo_states (s : str) : result AgentState str := if Strs.is_empty s then Ok AgentTypes.Suspended else Err [].

Abbreviation demo_saved := (save_agent (λ _ : AgentManifest (Json := unit), lit "m") (λ _, []) (λ _ : nat, lit "7") (λ _ : nat, []) (λ _, []) [] None watcher).1.
Abbreviation demo_restored := (restore (TriggerId := nat) (EventId := nat) (LoopId := nat) demo_cfg 5 new_kernel
  (load_all_agents (λ _, lit "m") (λ _, Ok plain_manifest) demo_states (λ _ : str, Some 7) (λ _ : str, Some 9) (λ _, 0) (λ _, Some 0%Z)
     demo_saved None 5).2).

Lemma agent_read_back_witness :
  ∃ created, load_agent (λ _, Ok plain_manifest) demo_states (λ _ : nat, lit "7") (λ _ : str, Some 9) (λ _, 0) (λ _, Some 0%Z)
    demo_saved None 7 5 = Ok (Some (reset_entry watcher created 5)).
Proof.
  apply (agent_read_back (λ _ : AgentManifest (Json := unit), lit "m") (λ _, Ok plain_manifest) (λ _, []) demo_states (λ _ : nat, lit "7")
    (λ _ : nat, []) (λ _ : str, Some 9) (λ _, 0) (λ _, []) (λ _, Some 0%Z) [] watcher 5); reflexivity.
Defined.

Lemma values_read_back_witness :
  get Ok (foldl (kv_step (λ x : str, x)) ∅ [SetValue 7 (lit "k") (lit "v") []; SetValue 7 (lit "k") (lit "w") []]) None 7 (lit "k")
  = Ok (Some (lit "w")).
Proof. rewrite (values_read_back (λ x : str, x) Ok _ 7 (lit "k") (λ x, eq_refl)). vm_compute. reflexivity. Defined.

Lemma listing_fails_witness :
  ∃ e, list_kv Ok (λ x : str, x) map_to_list (foldl (kv_step (λ x : str, x)) ∅ [SetValue 7 (lit "k") (lit "v") []]) None 7 = Err e.
Proof.
  apply (listing_fails (λ x : str, x) Ok (λ x, x) map_to_list [SetValue 7 (lit "k") (lit "v") []] 7 (lit "k") (λ s, reflexivity _)).
  vm_compute. eauto.
Defined.

Lemma watcher_restored : ∃ e, agents (registry demo_restored) !! 7 = Some e.
Proof. eexists. vm_compute. reflexivity. Qed.

Lemma restart_lifts_modes_witness :
  ∃ e, agents (registry demo_restored) !! 7 = Some e ∧ AgentTypes.agent_mode watcher = Observe ∧ AgentTypes.agent_mode e = FullMode.
Proof.
  destruct watcher_restored as [e He]. exists e.
  exact (conj He (conj eq_refl (proj1 (proj2 (restart_lifts_modes _ _ _ _ _ _ _ demo_cfg demo_saved 5 7 e He))))).
Defined.
