(* ===== verification/ToolSchema.v ===== *)
(** * Schemas of tools for the providers

    [normalize_schema_for_provider] of [openfang-types/src/tool.rs]: the schema
    of a tool is rewritten for providers that do not take all of JSON Schema.
    Objects of [serde_json] are maps in the order of their keys. *)

From Stdlib Require Import Ascii ZArith Lia Sorted.
From stdpp Require Import base strings list.
From S2P Require Import Prelude Strs Json.

(** ** Ordered maps *)

(** The order of [String]: byte by byte. *)
Fixpoint str_ltb (s t : str) : bool :=
  match s, t with
  | [], _ :: _ => true
  | _, [] => false
  | a :: s, b :: t => (nat_of_ascii a <? nat_of_ascii b) || ((nat_of_ascii a =? nat_of_ascii b) && str_ltb s t)
  end.

(** [map.insert(key, value)] *)
Fixpoint insert_field (key : str) (value : Json) (fields : list (str * Json)) : list (str * Json) :=
  match fields with
  | [] => [(key, value)]
  | (k, v) :: rest =>
      if str_eqb key k then (key, value) :: rest
      else if str_ltb key k then (key, value) :: fields
      else (k, v) :: insert_field key value rest
  end.

Definition insert_fields (new fields : list (str * Json)) : list (str * Json) :=
  foldl (λ m f, insert_field f.1 f.2 m) fields new.

(** ** Normalization *)

Definition str_type (item : Json) : option str := as_object item ≫= λ obj, lookup_field (lit "type") obj ≫= as_str.

Definition try_flatten_any_of (any_of : Json) : option (list (str * Json)) :=
  items ← as_array any_of;
  if bool_decide (items = []) then None
  else
    all ← mapM str_type items;
    let types := List.filter (λ t, negb (str_eqb t (lit "null"))) all in
    let has_null := existsb (λ t, str_eqb t (lit "null")) all in
    match has_null, types with
    | true, [t] => Some [(lit "type", JStr t); (lit "nullable", JBool true)]
    | _, _ =>
        if (length types =? length items) && (1 <? length types)
        then Some [(lit "type", JArr (JStr <$> types))]
        else None
    end.

Fixpoint normalize_schema_recursive (schema : Json) : Json :=
  match schema with
  | JObj obj =>
      JObj ((fix fields (fs result : list (str * Json)) {struct fs} : list (str * Json) :=
               match fs with
               | [] => result
               | (key, value) :: fs =>
                   fields fs
                     (if str_eqb key (lit "$schema") then result
                      else
                        match (if str_eqb key (lit "anyOf") then try_flatten_any_of value else None) with
                        | Some converted => insert_fields converted result
                        | None =>
                            match str_eqb key (lit "properties"), value with
                            | true, JObj props =>
                                insert_field key
                                  (JObj ((fix each (ps new_props : list (str * Json)) {struct ps} : list (str * Json) :=
                                            match ps with
                                            | [] => new_props
                                            | (name, sub) :: ps => each ps (insert_field name (normalize_schema_recursive sub) new_props)
                                            end) props [])) result
                            | _, _ =>
                                if str_eqb key (lit "items") then insert_field key (normalize_schema_recursive value) result
                                else insert_field key value result
                            end
                        end)
               end) obj [])
  | _ => schema
  end.

Definition normalize_schema_for_provider (schema : Json) (provider : str) : Json :=
  if str_eqb provider (lit "anthropic") then schema else normalize_schema_recursive schema.

(** The body of the loop over the fields, and that over the properties. *)
Definition normal_value (key : str) (value : Json) : Json :=
  match str_eqb key (lit "properties"), value with
  | true, JObj props => JObj (insert_fields ((λ p, (p.1, normalize_schema_recursive p.2)) <$> props) [])
  | _, _ => if str_eqb key (lit "items") then normalize_schema_recursive value else value
  end.

Definition add_field (result : list (str * Json)) (field : str * Json) : list (str * Json) :=
  let '(key, value) := field in
  if str_eqb key (lit "$schema") then result
  else match (if str_eqb key (lit "anyOf") then try_flatten_any_of value else None) with
       | Some converted => insert_fields converted result
       | None => insert_field key (normal_value key value) result
       end.

Lemma normalize_object obj : normalize_schema_recursive (JObj obj) = JObj (foldl add_field [] obj).
Proof.
  cbn [normalize_schema_recursive]. f_equal.
  match goal with |- ?f obj [] = _ => enough (∀ result, f obj result = foldl add_field result obj) by done end.
  induction obj as [|[key value] obj IH]; intros result; [done|]. cbn [foldl]. rewrite <- IH. f_equal.
  unfold add_field, normal_value. destruct (str_eqb key (lit "$schema")); [done|].
  destruct (if str_eqb key (lit "anyOf") then _ else _); [done|].
  destruct (str_eqb key (lit "properties")); [|by destruct (str_eqb key (lit "items"))].
  destruct value as [| | | | | |props]; [by destruct (str_eqb key (lit "items"))..|].
  f_equal. f_equal. unfold insert_fields.
  match goal with |- ?g props [] = _ => enough (∀ m, g props m = foldl (λ m f, insert_field f.1 f.2 m) m
    ((λ p, (p.1, normalize_schema_recursive p.2)) <$> props)) by done end.
  induction props as [|[n sub] props IHp]; intros m; [done|]. apply IHp.
Qed.

(** ** Maps with their keys in order *)

Lemma str_ltb_irrefl s : str_ltb s s = false.
Proof. induction s as [|c s IH]; [done|]. cbn [str_ltb]. by rewrite Nat.ltb_irrefl, Nat.eqb_refl, IH. Qed.

Lemma str_ltb_trans s t u : str_ltb s t = true → str_ltb t u = true → str_ltb s u = true.
Proof.
  revert t u. induction s as [|a s IH]; intros [|b t] [|c u]; try done. cbn [str_ltb].
  rewrite !orb_true_iff, !andb_true_iff, !Nat.ltb_lt, !Nat.eqb_eq.
  intros [H1|[H1 H2]] [H3|[H3 H4]]; [left; lia..|right; split; [lia|by eapply IH]].
Qed.

Lemma str_ltb_total s t : str_ltb s t = false → s = t ∨ str_ltb t s = true.
Proof.
  revert t. induction s as [|a s IH]; intros [|b t]; [by left|done|by right|]. cbn [str_ltb].
  rewrite orb_false_iff, andb_false_iff, Nat.ltb_ge, Nat.eqb_neq, orb_true_iff, andb_true_iff, Nat.ltb_lt, Nat.eqb_eq.
  intros [H1 H2]. destruct (decide (nat_of_ascii a = nat_of_ascii b)) as [E|]; [|right; left; lia].
  destruct H2 as [|H2]; [lia|]. apply (f_equal ascii_of_nat) in E as E'. rewrite !ascii_nat_embedding in E'. subst b.
  destruct (IH t H2) as [->|]; [by left|right; right; done].
Qed.

Definition keys_ordered (fields : list (str * Json)) : Prop := StronglySorted (λ f g, str_ltb f.1 g.1 = true) fields.

Definition ordered (v : Json) : Prop := match v with JObj fields => keys_ordered fields | _ => True end.

Lemma lookup_field_cons k key value fields :
  lookup_field k ((key, value) :: fields) = if str_eqb key k then Some value else lookup_field k fields.
Proof. unfold lookup_field. cbn [List.find fst]. by destruct (str_eqb key k). Qed.

Lemma lookup_insert_field k key value fields :
  lookup_field k (insert_field key value fields) = if str_eqb key k then Some value else lookup_field k fields.
Proof.
  induction fields as [|[k' v'] fields IH]; cbn [insert_field]; [apply lookup_field_cons|].
  destruct (str_eqb key k') eqn:E.
  - apply str_eqb_spec in E as ->. rewrite !lookup_field_cons. by destruct (str_eqb k' k).
  - destruct (str_ltb key k'); rewrite lookup_field_cons; [done|]. rewrite IH, lookup_field_cons.
    destruct (str_eqb k' k) eqn:E'; [|done]. apply str_eqb_spec in E' as ->. by rewrite E.
Qed.

Lemma lookup_field_app k fields f :
  lookup_field k (fields ++ [f]) =
  match lookup_field k fields with Some v => Some v | None => if str_eqb f.1 k then Some f.2 else None end.
Proof.
  induction fields as [|[k' v'] fields IH]; cbn [app]; [by destruct f; rewrite lookup_field_cons|].
  rewrite !lookup_field_cons, IH. by destruct (str_eqb k' k).
Qed.

Lemma lookup_field_In k fields v : lookup_field k fields = Some v → (k, v) ∈ fields.
Proof.
  unfold lookup_field. intros ([k' v'] & E & ->)%fmap_Some. apply find_some in E as [Hin E%str_eqb_spec].
  cbn in E. subst. by apply list_elem_of_In.
Qed.

Lemma keys_ordered_app fields f : keys_ordered (fields ++ [f]) →
  keys_ordered fields ∧ ∀ k v, lookup_field k fields = Some v → str_ltb k f.1 = true.
Proof.
  intros Hs. split.
  - unfold keys_ordered in *. induction fields as [|g fields IH]; [constructor|]. cbn [app] in Hs. inversion Hs as [|? ? Hs' Hf]; subst.
    constructor; [by apply IH|]. by apply Forall_app in Hf as [? _].
  - intros k v H%lookup_field_In. revert H. unfold keys_ordered in *. induction fields as [|g fields IH]; [by intros ?%elem_of_nil|].
    cbn [app] in Hs. inversion Hs as [|? ? Hs' Hf]; subst. intros [<-|H]%elem_of_cons; [|by apply IH].
    apply Forall_app in Hf as [_ Hf]. inversion Hf. done.
Qed.

Lemma flattened_keys any converted k v :
  try_flatten_any_of any = Some converted → lookup_field k converted = Some v → k = lit "type" ∨ k = lit "nullable".
Proof.
  unfold try_flatten_any_of. destruct (as_array any) as [items|]; [|done]. cbn [mbind option_bind].
  case_bool_decide; [done|]. destruct (mapM str_type items) as [all|]; [|done]. cbn [mbind option_bind].
  assert (∀ ts, Some [(lit "type", JArr (JStr <$> ts))] = Some converted → lookup_field k converted = Some v →
    k = lit "type" ∨ k = lit "nullable") as Hone.
  { intros ts [= <-] [[= -> _]|[]%elem_of_nil]%lookup_field_In%elem_of_cons. by left. }
  destruct (existsb _ all); [|destruct (_ && _); [apply Hone|done]].
  destruct (List.filter _ all) as [|t [|t' ts]]; [destruct (_ && _); [apply (Hone [])|done]| |destruct (_ && _); [apply Hone|done]].
  intros [= <-] [[= -> _]|[[= -> _]|[]%elem_of_nil]%elem_of_cons]%lookup_field_In%elem_of_cons; [by left|by right].
Qed.

Lemma lookup_insert_fields k new fields :
  NoDup new.*1 →
  lookup_field k (insert_fields new fields) =
  match lookup_field k new with Some v => Some v | None => lookup_field k fields end.
Proof.
  unfold insert_fields. revert fields. induction new as [|[key value] new IH]; intros fields; [done|].
  rewrite fmap_cons, NoDup_cons. intros [Hn Hd]. cbn [foldl fst snd]. rewrite (IH _ Hd), lookup_field_cons, lookup_insert_field.
  destruct (str_eqb key k) eqn:E; [|done]. apply str_eqb_spec in E as <-.
  destruct (lookup_field key new) as [v|] eqn:El; [|done]. exfalso. apply Hn.
  apply lookup_field_In in El. apply list_elem_of_fmap. by exists (key, v).
Qed.

Lemma flattened_NoDup any converted : try_flatten_any_of any = Some converted → NoDup converted.*1.
Proof.
  unfold try_flatten_any_of. destruct (as_array any) as [items|]; [|done]. cbn [mbind option_bind].
  case_bool_decide; [done|]. destruct (mapM str_type items) as [all|]; [|done]. cbn [mbind option_bind].
  destruct (existsb _ all); [|destruct (_ && _); [|done]; intros [= <-]; apply NoDup_singleton].
  destruct (List.filter _ all) as [|t [|t' ts]]; [destruct (_ && _); [|done]; intros [= <-]; apply NoDup_singleton| |destruct (_ && _); [|done]; intros [= <-]; apply NoDup_singleton].
  intros [= <-]. apply NoDup_cons. split; [|apply NoDup_singleton]. by intros [[=]|[]%elem_of_nil]%elem_of_cons.
Qed.

(** ** What a schema becomes *)

(** A field of the normalized schema. *)
Definition schema_field (obj : list (str * Json)) (k : str) : option Json :=
  if str_eqb k (lit "$schema") then None
  else if str_eqb k (lit "anyOf") then
    v ← lookup_field k obj; match try_flatten_any_of v with Some _ => None | None => Some v end
  else match lookup_field k obj with
       | Some v => Some (normal_value k v)
       | None => any ← lookup_field (lit "anyOf") obj; converted ← try_flatten_any_of any; lookup_field k converted
       end.

Lemma normal_value_other k v : str_eqb k (lit "properties") = false → str_eqb k (lit "items") = false → normal_value k v = v.
Proof. unfold normal_value. by intros -> ->. Qed.

Lemma str_eqb_sym s t : str_eqb s t = str_eqb t s.
Proof. unfold str_eqb. by apply bool_decide_ext. Qed.

Lemma lookup_field_app_ne k fields f : str_eqb f.1 k = false → lookup_field k (fields ++ [f]) = lookup_field k fields.
Proof. intros E. rewrite lookup_field_app, E. by destruct (lookup_field k fields). Qed.

Lemma lookup_field_app_eq fields k v : lookup_field k fields = None → lookup_field k (fields ++ [(k, v)]) = Some v.
Proof. intros E. rewrite lookup_field_app, E. cbn [fst snd]. by rewrite str_eqb_refl. Qed.

(** The step of the loop, when [anyOf] is made flat and when a field is kept. *)
Lemma flattened_field obj value converted k :
  keys_ordered (obj ++ [(lit "anyOf", value)]) → try_flatten_any_of value = Some converted →
  match lookup_field k converted with Some v => Some v | None => schema_field obj k end =
  schema_field (obj ++ [(lit "anyOf", value)]) k.
Proof.
  intros [_ Hl]%keys_ordered_app Hc. cbn [fst] in Hl.
  assert (lookup_field (lit "anyOf") obj = None) as Ha.
  { destruct (lookup_field (lit "anyOf") obj) as [v|] eqn:E; [|done]. apply Hl in E. by rewrite str_ltb_irrefl in E. }
  assert (∀ v, lookup_field k converted = Some v → str_ltb k (lit "anyOf") = false ∧ k ≠ lit "$schema" ∧ k ≠ lit "anyOf") as Hk.
  { intros v E. by destruct (flattened_keys _ _ _ _ Hc E) as [->| ->]. }
  unfold schema_field. rewrite (lookup_field_app_eq _ _ _ Ha), Ha. cbn [mbind option_bind]. rewrite Hc. cbn [mbind option_bind].
  destruct (lookup_field k converted) as [v|] eqn:E.
  - destruct (Hk v eq_refl) as (Hlt & H1 & H2). rewrite (str_eqb_neq _ _ H1), (str_eqb_neq _ _ H2), lookup_field_app_ne
      by (cbn; rewrite str_eqb_sym; by apply str_eqb_neq).
    destruct (lookup_field k obj) as [w|] eqn:Ek; [|done]. apply Hl in Ek. by rewrite Ek in Hlt.
  - destruct (str_eqb k (lit "$schema")); [done|]. destruct (str_eqb k (lit "anyOf")) eqn:Ek.
    + apply str_eqb_spec in Ek as ->. rewrite (lookup_field_app_eq _ _ _ Ha), Ha. cbn [mbind option_bind]. by rewrite Hc.
    + rewrite lookup_field_app_ne by (cbn; by rewrite str_eqb_sym). done.
Qed.

Lemma kept_field obj key value k :
  lookup_field key obj = None → str_eqb key (lit "$schema") = false →
  (str_eqb key (lit "anyOf") = true → try_flatten_any_of value = None) →
  (if str_eqb key k then Some (normal_value key value) else schema_field obj k) = schema_field (obj ++ [(key, value)]) k.
Proof.
  intros Hkey Hs Ha. destruct (str_eqb key k) eqn:E.
  - apply str_eqb_spec in E as <-. unfold schema_field. rewrite Hs, (lookup_field_app_eq _ _ _ Hkey). cbn [mbind option_bind].
    destruct (str_eqb key (lit "anyOf")) eqn:Ea; [|done]. rewrite (Ha eq_refl). apply str_eqb_spec in Ea as ->. done.
  - unfold schema_field. rewrite (lookup_field_app_ne k) by done. destruct (str_eqb k (lit "$schema")); [done|].
    destruct (str_eqb k (lit "anyOf")); [done|]. destruct (lookup_field k obj); [done|].
    destruct (str_eqb key (lit "anyOf")) eqn:Ea.
    + apply str_eqb_spec in Ea as ->. rewrite (lookup_field_app_eq _ _ _ Hkey), Hkey. cbn [mbind option_bind]. by rewrite (Ha eq_refl).
    + by rewrite lookup_field_app_ne.
Qed.

(** What the fields of a normalized schema are, for every key. *)
Lemma normalized_fields obj k : keys_ordered obj →
  lookup_field k (foldl add_field [] obj) = schema_field obj k.
Proof.
  induction obj as [|[key value] obj IH] using rev_ind; intros Ho.
  - unfold schema_field. destruct (str_eqb _ _); [done|]. by destruct (str_eqb _ _).
  - pose proof Ho as [Ho' Hl]%keys_ordered_app. specialize (IH Ho'). cbn [fst] in Hl.
    assert (lookup_field key obj = None) as Hkey.
    { destruct (lookup_field key obj) as [v|] eqn:E; [|done]. apply Hl in E. by rewrite str_ltb_irrefl in E. }
    rewrite foldl_app. cbn [foldl add_field]. destruct (str_eqb key (lit "$schema")) eqn:E1.
    + apply str_eqb_spec in E1 as ->. rewrite IH. unfold schema_field.
      destruct (str_eqb k (lit "$schema")) eqn:Ek; [done|].
      rewrite !lookup_field_app_ne by (done || (cbn; by rewrite str_eqb_sym)). done.
    + destruct (str_eqb key (lit "anyOf")) eqn:E2.
      * apply str_eqb_spec in E2 as ->. destruct (try_flatten_any_of value) as [converted|] eqn:Ec.
        { rewrite lookup_insert_fields by (by eapply flattened_NoDup). rewrite IH. by apply flattened_field. }
        rewrite lookup_insert_field, IH. by apply kept_field.
      * rewrite lookup_insert_field, IH. apply kept_field; [done..|by rewrite E2].
Qed.

(** ** Schemas inside of schemas *)

Inductive schema_at : Json → Json → Prop :=
| schema_here s : schema_at s s
| schema_property s props name sub p :
    get s (lit "properties") = Some (JObj props) → (name, sub) ∈ props → schema_at sub p → schema_at s p
| schema_items s items p : get s (lit "items") = Some items → schema_at items p → schema_at s p.

Lemma insert_field_In f key value fields : f ∈ insert_field key value fields → f = (key, value) ∨ f ∈ fields.
Proof.
  induction fields as [|[k v] fields IH]; cbn [insert_field]; [intros [->|[]%elem_of_nil]%elem_of_cons; by left|].
  destruct (str_eqb key k); [|destruct (str_ltb key k)]; rewrite ?elem_of_cons; naive_solver.
Qed.

Lemma insert_fields_In f new fields : f ∈ insert_fields new fields → f ∈ new ∨ f ∈ fields.
Proof.
  unfold insert_fields. revert fields. induction new as [|g new IH]; intros fields; [by right|]. cbn [foldl].
  intros [H|H]%IH; [rewrite elem_of_cons; auto|]. apply insert_field_In in H as [->|H]; [|auto].
  left. rewrite elem_of_cons. left. by destruct g.
Qed.

(** The field of a normalized schema that holds others. *)
Lemma inner_field obj k w : k = lit "properties" ∨ k = lit "items" → schema_field obj k = Some w →
  ∃ v, lookup_field k obj = Some v ∧ w = normal_value k v.
Proof.
  intros Hk. unfold schema_field.
  assert (str_eqb k (lit "$schema") = false) as -> by (by destruct Hk as [->| ->]).
  assert (str_eqb k (lit "anyOf") = false) as -> by (by destruct Hk as [->| ->]).
  destruct (lookup_field k obj) as [v|]; [intros [= <-]; eauto|].
  destruct (lookup_field _ obj) as [any|]; [|done]. cbn [mbind option_bind].
  destruct (try_flatten_any_of any) as [c|] eqn:Ec; [|done]. cbn [mbind option_bind]. intros E.
  exfalso. by destruct (flattened_keys _ _ _ _ Ec E) as [->| ->], Hk.
Qed.

(** Everywhere in the schema that is sent, the keys that providers refuse are
    gone: [$schema], and an [anyOf] that can be written as a type. *)
Theorem schema_normalized schema provider p :
  (∀ q, schema_at schema q → ordered q) → provider ≠ lit "anthropic" →
  schema_at (normalize_schema_for_provider schema provider) p →
  get p (lit "$schema") = None ∧ ∀ v, get p (lit "anyOf") = Some v → try_flatten_any_of v = None.
Proof.
  intros Ho Hp. unfold normalize_schema_for_provider. rewrite str_eqb_neq by done.
  intros Hs. remember (normalize_schema_recursive schema) as t eqn:Et. revert schema Ho Et.
  induction Hs as [t|t props name sub p Hg Hin _ IH|t items p Hg _ IH]; intros schema Ho ->.
  - destruct schema as [| | | | | |obj]; [done..|]. rewrite normalize_object. cbn [get].
    pose proof (Ho _ (schema_here _)) as Hk. cbn [ordered] in Hk. rewrite !normalized_fields by done.
    split; [done|]. intros v. unfold schema_field. cbn. destruct (lookup_field _ obj) as [w|]; [|done]. cbn.
    destruct (try_flatten_any_of w) eqn:E; [done|]. by intros [= <-].
  - destruct schema as [| | | | | |obj]; [done..|]. rewrite normalize_object in Hg. cbn [get] in Hg.
    pose proof (Ho _ (schema_here _)) as Hk. cbn [ordered] in Hk. rewrite normalized_fields in Hg by done.
    apply inner_field in Hg as (v & Hv & Hn); [|by left]. unfold normal_value in Hn. cbn in Hn.
    destruct v as [| | | | | |ps]; try done. injection Hn as ->.
    apply insert_fields_In in Hin as [Hin|[]%elem_of_nil].
    apply list_elem_of_fmap in Hin as ([n sub'] & [= -> ->] & Hin). cbn [snd] in *.
    apply (IH sub'); [|done]. intros q Hq. apply Ho. by eapply schema_property.
  - destruct schema as [| | | | | |obj]; [done..|]. rewrite normalize_object in Hg. cbn [get] in Hg.
    pose proof (Ho _ (schema_here _)) as Hk. cbn [ordered] in Hk. rewrite normalized_fields in Hg by done.
    apply inner_field in Hg as (v & Hv & Hn); [|by right]. cbn in Hn.
    apply (IH v); [|done]. intros q Hq. apply Ho. by eapply schema_items.
Qed.

Definition demo_schema : Json :=
  JObj [(lit "$schema", JStr (lit "draft-07")); (lit "properties", JObj [(lit "v", JObj [(lit "anyOf",
    JArr [JObj [(lit "enum", JArr [JStr (lit "a")]); (lit "type", JStr (lit "string"))]; JObj [(lit "type", JStr (lit "null"))]])])]);
        (lit "type", JStr (lit "object"))].

(** Besides the type, everything that was said of the variants is lost. *)
Example variants_lost :
  normalize_schema_for_provider demo_schema (lit "gemini") =
  JObj [(lit "properties", JObj [(lit "v", JObj [(lit "nullable", JBool true); (lit "type", JStr (lit "string"))])]);
        (lit "type", JStr (lit "object"))].
Proof. reflexivity. Qed.

Lemma demo_schema_ordered q : schema_at demo_schema q → ordered q.
Proof.
  intros Hq. inversion Hq as [s|s props name sub p Hg Hin Hs|s items p Hg]; subst; [|injection Hg as <-|done].
  { repeat constructor. }
  apply list_elem_of_singleton in Hin as [= -> ->].
  inversion Hs as [s|s props name sub p Hg|s items p Hg]; subst; [repeat constructor|done..].
Qed.

Lemma schema_normalized_witness :
  get (normalize_schema_for_provider demo_schema (lit "gemini")) (lit "$schema") = None.
Proof.
  exact (proj1 (schema_normalized demo_schema (lit "gemini") (normalize_schema_for_provider demo_schema (lit "gemini"))
                  demo_schema_ordered ltac:(done) (schema_here _))).
Defined.
