(* ===== verification/DriverHttp.v ===== *)
(** * Requests of the drivers over HTTP

    What the drivers in [openfang-runtime/src/drivers] share: the answers of a
    server, what a call of a driver leaves behind, and the loop of attempts
    that the drivers for Anthropic and Gemini have in common. What the server
    answers to an attempt is a parameter. *)

From Stdlib Require Import Ascii ZArith Lia.
From stdpp Require Import base gmap strings list.
From S2P Require Import Prelude Strs Json Message TextToolCalls AgentQuota ProviderCall AgentLoop.

(** * Streams of server-sent events

    How the drivers of [openfang-runtime/src/drivers] read the body of a
    streaming response: every chunk of bytes is decoded on its own by
    [String::from_utf8_lossy] and appended to a buffer, from which complete
    events, ended by a separator, are taken and handled one by one. *)

(** ** [String::from_utf8_lossy]

    [char_at s] is the number of bytes that begin [s] and are read as one
    character, and whether they are one. A sequence that breaks off counts up
    to the byte that does not continue it. *)

Definition byte_in (lo hi : nat) (c : ascii) : bool := (lo <=? nat_of_ascii c) && (nat_of_ascii c <=? hi).

(** The bytes that may follow the first byte of a character. *)
Definition second_byte (first : nat) (c : ascii) : bool :=
  if first =? 224 then byte_in 160 191 c
  else if first =? 237 then byte_in 128 159 c
  else if first =? 240 then byte_in 144 191 c
  else if first =? 244 then byte_in 128 143 c
  else byte_in 128 191 c.

Definition char_width (first : nat) : nat :=
  if first <? 128 then 1
  else if (194 <=? first) && (first <=? 223) then 2
  else if (224 <=? first) && (first <=? 239) then 3
  else if (240 <=? first) && (first <=? 244) then 4
  else 0.

(** The continuation bytes [n] more of which are wanted. *)
Fixpoint continued (n : nat) (s : str) : nat * bool :=
  match n, s with
  | 0, _ => (0, true)
  | S n, c :: s => if byte_in 128 191 c then let '(k, ok) := continued n s in (S k, ok) else (0, false)
  | S _, [] => (0, false)
  end.

Definition char_at (c : ascii) (s : str) : nat * bool :=
  let first := nat_of_ascii c in
  match char_width first with
  | 0 => (1, false)
  | 1 => (1, true)
  | S (S w) =>
      match s with
      | d :: s => if second_byte first d then let '(k, ok) := continued w s in (S (S k), ok) else (1, false)
      | [] => (1, false)
      end
  end.

Definition replacement_character : str := bytes [239; 191; 189].

Fixpoint lossy (fuel : nat) (s : str) : str :=
  match fuel, s with
  | S fuel, c :: t =>
      let '(n, ok) := char_at c t in (if ok then take n s else replacement_character) ++ lossy fuel (drop n s)
  | _, _ => []
  end.

Definition from_utf8_lossy (s : str) : str := lossy (length s) s.

(** Texts that are decoded without a replacement. *)
Inductive valid_utf8 : str → Prop :=
| valid_nil : valid_utf8 []
| valid_char c t n : char_at c t = (n, true) → valid_utf8 (drop n (c :: t)) → valid_utf8 (c :: t).

Fixpoint valid_from (fuel : nat) (s : str) : bool :=
  match fuel, s with
  | _, [] => true
  | S fuel, c :: t => let '(n, ok) := char_at c t in ok && valid_from fuel (drop n s)
  | 0, _ => false
  end.

Definition is_valid_utf8 (s : str) : bool := valid_from (length s) s.

Lemma continued_app n s t k : continued n s = (k, true) → continued n (s ++ t) = (k, true) ∧ k ≤ length s.
Proof.
  revert s k. induction n as [|n IH]; intros s k; cbn [continued].
  - intros [= <-]. split; [done|lia].
  - destruct s as [|c s]; [done|]. cbn [app length]. destruct (byte_in 128 191 c); [|done].
    destruct (continued n s) as [k' ok] eqn:E. intros [= <- ->]. destruct (IH s k' E) as [-> ?]. split; [done|lia].
Qed.

Lemma char_at_app c t u n : char_at c t = (n, true) → char_at c (t ++ u) = (n, true) ∧ n ≤ S (length t) ∧ n ≠ 0.
Proof.
  unfold char_at. destruct (char_width (nat_of_ascii c)) as [|[|w]]; [done|intros [= <-]; split_and!; [done|lia..]|].
  destruct t as [|d t]; [done|]. cbn [app length]. destruct (second_byte _ d); [|done].
  destruct (continued w t) as [k ok] eqn:E. intros [= <- ->].
  destruct (continued_app w t u k E) as [-> ?]. split_and!; [done|lia..].
Qed.

Lemma continued_bound n s : (continued n s).1 ≤ length s.
Proof.
  revert s. induction n as [|n IH]; intros s; cbn [continued]; [cbn [fst]; lia|].
  destruct s as [|c s]; [cbn [fst]; lia|]. destruct (byte_in 128 191 c); [|cbn [fst]; lia].
  specialize (IH s). destruct (continued n s). cbn [fst length] in *. lia.
Qed.

Lemma char_at_bound c t : 0 < (char_at c t).1 ≤ S (length t).
Proof.
  unfold char_at. destruct (char_width (nat_of_ascii c)) as [|[|w]]; [cbn [fst]; lia..|].
  destruct t as [|d t]; [cbn [fst length]; lia|]. destruct (second_byte _ d); [|cbn [fst length]; lia].
  pose proof (continued_bound w t). destruct (continued w t). cbn [fst length] in *. lia.
Qed.

(** More fuel than the text has bytes changes nothing. *)
Lemma lossy_fuels f g s : length s ≤ f → length s ≤ g → lossy f s = lossy g s.
Proof.
  revert g s. induction f as [|f IH]; intros g [|c t] Hf Hg; [by destruct g|cbn in Hf; lia|by destruct g|].
  destruct g as [|g]; [cbn in Hg; lia|]. cbn [length lossy] in *.
  pose proof (char_at_bound c t) as Hb. destruct (char_at c t) as [n ok]. cbn [fst] in Hb. f_equal.
  apply IH; rewrite length_drop; cbn [length]; lia.
Qed.

Lemma lossy_fuel fuel s : length s ≤ fuel → lossy fuel s = from_utf8_lossy s.
Proof. intros Hl. by apply lossy_fuels. Qed.

(** A valid beginning is kept, whatever follows. *)
Lemma lossy_valid_app s t : valid_utf8 s → from_utf8_lossy (s ++ t) = s ++ from_utf8_lossy t.
Proof.
  intros Hv. induction Hv as [|c s n E _ IH]; [done|].
  destruct (char_at_app c s t n E) as (E' & Hn & Hz). unfold from_utf8_lossy at 1. cbn [app length lossy]. rewrite E'.
  change (c :: s ++ t) with ((c :: s) ++ t). rewrite take_app_le, drop_app_le by (cbn [length]; lia).
  rewrite lossy_fuel by (rewrite !length_app, length_drop; cbn [length]; lia).
  rewrite IH, app_assoc, take_drop. done.
Qed.

Lemma lossy_valid s : valid_utf8 s → from_utf8_lossy s = s.
Proof. intros Hv. rewrite <- (app_nil_r s) at 1. rewrite lossy_valid_app by done. apply app_nil_r. Qed.

Lemma valid_from_ok fuel s : valid_from fuel s = true → valid_utf8 s.
Proof.
  revert s. induction fuel as [|fuel IH]; intros [|c t]; cbn [valid_from]; try (constructor; fail); [done|].
  destruct (char_at c t) as [n ok] eqn:E. intros [-> H]%andb_true_iff. by apply (valid_char c t n); [|apply IH].
Qed.

Lemma is_valid_utf8_ok s : is_valid_utf8 s = true → valid_utf8 s.
Proof. apply valid_from_ok. Qed.

Lemma valid_app s t : valid_utf8 s → valid_utf8 t → valid_utf8 (s ++ t).
Proof.
  intros Hs Ht. induction Hs as [|c s n E _ IH]; [done|]. cbn [app].
  destruct (char_at_app c s t n E) as (E' & Hn & Hz). apply (valid_char c (s ++ t) n E').
  change (c :: s ++ t) with ((c :: s) ++ t). by rewrite drop_app_le by (cbn [length]; lia).
Qed.

#[export] Hint Constructors valid_utf8 : openfang.
#[export] Hint Resolve valid_app is_valid_utf8_ok : openfang.

(** ** Events *)

Section events.
Context (sep : str) (Hsep : sep ≠ []).

(** [while let Some(pos) = buffer.find(sep)]. The separators are ASCII, so the
    slices are at boundaries of characters. *)
Fixpoint cut (fuel : nat) (buffer : str) : list str * str :=
  match fuel with
  | 0 => ([], buffer)
  | S fuel =>
      match find buffer sep with
      | Some pos => let '(events, rest) := cut fuel (drop (pos + length sep) buffer) in (take pos buffer :: events, rest)
      | None => ([], buffer)
      end
  end.

Definition split_events (buffer : str) : list str * str := cut (S (length buffer)) buffer.

Lemma cut_fuels f g b : length b < f → length b < g → cut f b = cut g b.
Proof.
  revert g b. induction f as [|f IH]; intros [|g] b Hf Hg; [lia..|]. cbn [cut]. destruct (find b sep) as [pos|] eqn:E; [|done].
  assert (length sep ≠ 0) by (by intros ?%nil_length_inv).
  apply find_Some in E as (a & t & -> & <-). rewrite !length_app in *.
  rewrite (IH g); [done|rewrite length_drop, !length_app; lia..].
Qed.

Lemma cut_step b :
  split_events b = match find b sep with
                   | Some pos => let '(events, rest) := split_events (drop (pos + length sep) b) in (take pos b :: events, rest)
                   | None => ([], b)
                   end.
Proof.
  unfold split_events at 1. cbn [cut]. destruct (find b sep) as [pos|] eqn:E; [|done].
  unfold split_events. assert (length sep ≠ 0) by (by intros ?%nil_length_inv).
  apply find_Some in E as (a & t & -> & <-).
  rewrite (cut_fuels _ (S (length (drop (length a + length sep) (a ++ sep ++ t))))); [done|rewrite length_drop, !length_app; lia|lia].
Qed.

Lemma split_nil : split_events [] = ([], []).
Proof.
  rewrite cut_step. destruct (find [] sep) as [pos|] eqn:E; [|done].
  apply find_Some in E as (a & t & Ha & _). symmetry in Ha. by apply app_eq_nil in Ha as [_ [-> _]%app_eq_nil].
Qed.

(** What is cut off does not depend on what comes later. *)
Lemma split_events_app b c :
  split_events (b ++ c) =
  ((split_events b).1 ++ (split_events ((split_events b).2 ++ c)).1, (split_events ((split_events b).2 ++ c)).2).
Proof.
  remember (length b) as n eqn:Hn. revert b Hn. induction n as [n IH] using lt_wf_ind. intros b ->.
  rewrite (cut_step b). destruct (find b sep) as [pos|] eqn:E; [|cbn [fst snd app]; by destruct (split_events (b ++ c))].
  rewrite (cut_step (b ++ c)), (find_app _ _ _ _ E).
  assert (length sep ≠ 0) by (by intros ?%nil_length_inv).
  assert (pos + length sep ≤ length b) as Hl.
  { apply find_Some in E as (a & t & -> & <-). rewrite !length_app. lia. }
  rewrite take_app_le, drop_app_le by lia. rewrite (IH (length (drop (pos + length sep) b))); [|rewrite length_drop; lia|done].
  by destruct (split_events (drop (pos + length sep) b)).
Qed.

Lemma split_rest b : (split_events (split_events b).2).1 = [].
Proof.
  pose proof (split_events_app b []) as H. rewrite !app_nil_r in H. apply (f_equal (λ x, length x.1)) in H.
  cbn [fst] in H. rewrite length_app in H. apply nil_length_inv. lia.
Qed.

(** Events that a separator ends where it is put. *)
Definition frameable (e : str) : Prop := find (e ++ sep) sep = Some (length e).

Lemma split_frame e t : frameable e →
  split_events (e ++ sep ++ t) = (e :: (split_events t).1, (split_events t).2).
Proof.
  intros He. rewrite cut_step. rewrite app_assoc, (find_app _ _ t _ He), <- app_assoc, take_app_length, drop_app_add', drop_app_length by done.
  by destruct (split_events t).
Qed.

(** What was framed is split into the same events. *)
Lemma split_framed es : Forall frameable es → split_events (concat ((λ e, e ++ sep) <$> es)) = (es, []).
Proof.
  induction 1 as [|e es He _ IH].
  - apply split_nil.
  - rewrite fmap_cons. cbn [concat]. rewrite <- app_assoc, split_frame by done. by rewrite IH.
Qed.

(** ** Reading a body

    [handle] is what is done with an event. A chunk that cannot be read ends
    the response with its error. *)

Section body.
Context {St : Type} (handle : St → str → St).

Definition read_chunk (acc : str * St) (chunk : str) : str * St :=
  let '(events, rest) := split_events (acc.1 ++ from_utf8_lossy chunk) in (rest, foldl handle acc.2 events).

Fixpoint read_chunks (acc : str * St) (body : list (result str str)) : St * option str :=
  match body with
  | [] => (acc.2, None)
  | Err e :: _ => (acc.2, Some e)
  | Ok chunk :: body => read_chunks (read_chunk acc chunk) body
  end.

Definition read_body (st : St) (body : list (result str str)) : St * option str := read_chunks ([], st) body.

(** Where a body is cut into chunks makes no difference, as long as no
    character is cut. *)
Lemma read_chunks_concat buffer st chunks : Forall valid_utf8 chunks → (split_events buffer).1 = [] →
  read_chunks (buffer, st) (Ok <$> chunks) = (foldl handle st (split_events (buffer ++ concat chunks)).1, None).
Proof.
  intros Hc. revert buffer st. induction Hc as [|chunk chunks Hc _ IH]; intros buffer st Eb.
  - rewrite fmap_nil. cbn [concat read_chunks snd]. by rewrite app_nil_r, Eb.
  - rewrite fmap_cons. cbn [concat read_chunks]. unfold read_chunk. cbn [fst snd]. rewrite lossy_valid by done.
    pose proof (split_rest (buffer ++ chunk)) as Hr. rewrite app_assoc, (split_events_app (buffer ++ chunk)).
    destruct (split_events (buffer ++ chunk)) as [es rest]. cbn [fst snd] in *. by rewrite IH, foldl_app.
Qed.

Lemma read_body_concat st chunks : Forall valid_utf8 chunks →
  read_body st (Ok <$> chunks) = (foldl handle st (split_events (concat chunks)).1, None).
Proof.
  intros Hc. apply (read_chunks_concat [] st chunks Hc). by rewrite split_nil.
Qed.

(** Events that are framed and sent in any chunks are handled one by one. *)
Lemma read_body_framed st chunks es : Forall valid_utf8 chunks → Forall frameable es →
  concat chunks = concat ((λ e, e ++ sep) <$> es) → read_body st (Ok <$> chunks) = (foldl handle st es, None).
Proof. intros Hc He E. by rewrite read_body_concat, E, split_framed. Qed.
End body.
End events.

(** A character that is cut by the end of a chunk is lost: each half of it is
    replaced. *)
Example cut_character_lost :
  read_body [newline; newline] (λ es e, es ++ [e]) [] [Ok (bytes [195]); Ok (bytes [169; 10; 10])] =
    ([replacement_character ++ replacement_character], None) ∧
  read_body [newline; newline] (λ es e, es ++ [e]) [] [Ok (bytes [195; 169; 10; 10])] = ([bytes [195; 169]], None).
Proof. split; reflexivity. Qed.

(** ** Calls *)

(** [reply_text] is what [resp.text()] gives, [reply_chunks] the stream of
    bytes; a driver uses one of them. *)
Record Reply : Type := mkReply {
  reply_status : Z;
  reply_text : result str str;
  reply_chunks : list (result str str)
}.

Definition is_success (r : Reply) : bool := (200 <=? reply_status r)%Z && (reply_status r <=? 299)%Z.

(** What a call of a driver leaves: its result, the requests made, the delays
    slept in milliseconds and the events sent to the channel. *)
Abbreviation Request := (CompletionRequest (Value := Json)).
Abbreviation Response := (CompletionResponse (Value := Json)).
Abbreviation Event := (StreamEvent (Value := Json)).

Record Driven (Body : Type) : Type := mkDriven {
  outcome : result Response LlmError;
  requests : list Body;
  slept : list Z;
  sent_events : list Event
}.
Arguments mkDriven {Body} outcome requests slept sent_events.
Arguments outcome {Body} d.
Arguments requests {Body} d.
Arguments slept {Body} d.
Arguments sent_events {Body} d.

Definition prepend {Body} (request : Body) (delay : option Z) (d : Driven Body) : Driven Body :=
  mkDriven (outcome d) (request :: requests d) (option_list delay ++ slept d) (sent_events d).

Definition max_retries : nat := 3.

Section retry.
Context {Body : Type} (server : nat → Body → result Reply str).
Context (overloaded : Z) (error_message : str → option str).
Context (finish : Reply → result Response LlmError * list Event).

Definition give_up_error (status : Z) : LlmError :=
  if (status =? 429)%Z then RateLimited 5000 else ModelOverloaded 5000.

(** The loop over the attempts from [attempt] on, after which [remaining] more
    are allowed. The error after the loop is never reached. *)
Fixpoint attempts (remaining attempt : nat) (request : Body) : Driven Body :=
  match server attempt request with
  | Err e => mkDriven (Err (Http e)) [request] [] []
  | Ok resp =>
      let status := reply_status resp in
      if (status =? 429)%Z || (status =? overloaded)%Z then
        match remaining with
        | S remaining => prepend request (Some (Z.of_nat (attempt + 1) * 2000)%Z) (attempts remaining (attempt + 1) request)
        | 0 => mkDriven (Err (give_up_error status)) [request] [] []
        end
      else if is_success resp then let '(r, events) := finish resp in mkDriven r [request] [] events
      else
        let body := match reply_text resp with Ok body => body | Err _ => [] end in
        mkDriven (Err (Api status (default body (error_message body)))) [request] [] []
  end.

(** An answer that is not an order to wait. *)
Definition decides (r : result Reply str) : Prop :=
  match r with Ok resp => reply_status resp ≠ 429%Z ∧ reply_status resp ≠ overloaded | Err _ => True end.

Lemma attempts_last remaining attempt request :
  (0 < remaining → decides (server attempt request)) →
  requests (attempts remaining attempt request) = [request] ∧ slept (attempts remaining attempt request) = [].
Proof.
  intros Hd. destruct remaining as [|remaining]; cbn [attempts].
  - destruct (server attempt request) as [r|e]; [|done]. destruct (_ || _); [done|].
    destruct (is_success r); [|done]. by destruct (finish r).
  - specialize (Hd ltac:(lia)). destruct (server attempt request) as [r|e]; [|done]. cbn [decides] in Hd.
    destruct (_ || _) eqn:Ew; [rewrite orb_true_iff, !Z.eqb_eq in Ew; naive_solver|].
    destruct (is_success r); [|done]. by destruct (finish r).
Qed.

(** The requests of a call: one for each order to wait, of which there are at
    most three, and one that decides. *)
Lemma attempts_spec remaining attempt request k :
  k ≤ remaining →
  (∀ i, i < k → ¬ decides (server (attempt + i) request)) →
  (k < remaining → decides (server (attempt + k) request)) →
  requests (attempts remaining attempt request) = replicate (S k) request ∧
  slept (attempts remaining attempt request) = (λ i, Z.of_nat (attempt + i + 1) * 2000)%Z <$> seq 0 k ∧
  outcome (attempts remaining attempt request) = outcome (attempts (remaining - k) (attempt + k) request).
Proof.
  revert remaining attempt. induction k as [|k IH]; intros remaining attempt Hk Hwait Hdec.
  - rewrite Nat.sub_0_r, Nat.add_0_r in *. by destruct (attempts_last remaining attempt request Hdec) as [-> ->].
  - destruct remaining as [|remaining]; [lia|]. pose proof (Hwait 0 ltac:(lia)) as H0. rewrite Nat.add_0_r in H0.
    cbn [attempts]. destruct (server attempt request) as [r|e]; [|by destruct H0].
    destruct (_ || _) eqn:Ew; [|exfalso; rewrite orb_false_iff, !Z.eqb_neq in Ew; by apply H0].
    destruct (IH remaining (attempt + 1)) as (E1 & E2 & E3); [lia| | |].
    { intros i Hi. rewrite <- Nat.add_assoc. apply Hwait. lia. }
    { intros Hr. rewrite <- Nat.add_assoc. apply Hdec. lia. }
    cbn [prepend requests slept outcome option_list app]. rewrite E1, E2, E3. split_and!; [done| |].
    + cbn [seq fmap list_fmap]. rewrite Nat.add_0_r, <- fmap_S_seq, <- list_fmap_compose. f_equal.
      apply list_fmap_ext. intros i x _. unfold compose. f_equal. lia.
    + by rewrite <- Nat.add_assoc.
Qed.
End retry.

(** Two servers that answer alike, up to a relation [R] between what is made
    of a success. *)
Definition related (R : result Response LlmError → result Response LlmError → Prop)
    (finish finish' : Reply → result Response LlmError * list Event) (a b : result Reply str) : Prop :=
  match a, b with
  | Ok a, Ok b =>
      reply_status a = reply_status b ∧
      if is_success a then R (finish a).1 (finish' b).1 else reply_text a = reply_text b
  | Err e, Err e' => e = e'
  | _, _ => False
  end.

Abbreviation alike := (related eq).

Lemma attempts_related {Body Body'} R (server : nat → Body → result Reply str) (server' : nat → Body' → result Reply str)
    overloaded error_message finish finish' remaining attempt q q' :
  Reflexive R →
  (∀ n, related R finish finish' (server n q) (server' n q')) →
  let d := attempts server overloaded error_message finish remaining attempt q in
  let d' := attempts server' overloaded error_message finish' remaining attempt q' in
  R (outcome d) (outcome d') ∧ slept d = slept d' ∧ length (requests d) = length (requests d').
Proof.
  intros HR Ha. cbn zeta. revert attempt. induction remaining as [|remaining IH]; intros attempt; cbn [attempts];
    pose proof (Ha attempt) as Hn; destruct (server attempt q) as [a|e], (server' attempt q') as [b|e']; cbn [related] in Hn; try done;
    try (by subst); destruct Hn as [Hs Hf]; rewrite <- Hs; destruct (_ || _).
  - done.
  - assert (is_success b = is_success a) as -> by (unfold is_success; by rewrite Hs).
    destruct (is_success a); [|by rewrite Hf]. by destruct (finish a), (finish' b).
  - destruct (IH (attempt + 1)) as (E1 & E2 & E3). cbn [prepend outcome slept requests length]. by rewrite E2, E3.
  - assert (is_success b = is_success a) as -> by (unfold is_success; by rewrite Hs).
    destruct (is_success a); [|by rewrite Hf]. by destruct (finish a), (finish' b).
Qed.
