(* ===== verification/AnthropicDriver.v ===== *)
(** * The driver of the Anthropic API

    [openfang-runtime/src/drivers/anthropic.rs]: a request is converted to the
    format of the API; the answer is one JSON body, or a stream of events from
    which the same response is put together. The parsers that serde derives
    are parameters. *)

From Stdlib Require Import Ascii ZArith Lia.
From stdpp Require Import base gmap strings list.
From S2P Require Import Prelude Strs TextLines Json Message ContextWindow TextToolCalls AgentQuota ProviderCall AgentLoop DriverHttp.

(** ** Requests *)

Inductive ApiContentBlock : Type :=
| ApiText (text : str)
| ApiImage (source_type media_type data : str)
| ApiToolUse (id name : str) (input : Json)
| ApiToolResult (tool_use_id content : str) (is_error : bool).

Inductive ApiContent : Type :=
| ContentText (text : str)
| ContentBlocks (blocks : list ApiContentBlock).

Record ApiMessage : Type := mkApiMessage { api_role : str; api_content : ApiContent }.

Record ApiTool : Type := mkApiTool { api_tool_name : str; api_description : str; api_schema : Json }.

Record ApiRequest : Type := mkApiRequest {
  api_model : str;
  api_max_tokens : Z;
  api_system : option str;
  api_messages : list ApiMessage;
  api_tools : list ApiTool;
  api_temperature : option SpecFloat.spec_float;
  api_stream : bool
}.

Definition api_role_of (r : Role) : str :=
  match r with User => lit "user" | Assistant => lit "assistant" | System => lit "user" end.

Definition convert_block (b : ContentBlock Json) : option ApiContentBlock :=
  match b with
  | TextBlock text => Some (ApiText text)
  | Image media_type data => Some (ApiImage (lit "base64") media_type data)
  | ToolUse id name input => Some (ApiToolUse id name input)
  | ToolResult tool_use_id content is_error => Some (ApiToolResult tool_use_id content is_error)
  | Thinking _ | Unknown => None
  end.

Definition convert_message (msg : Message Json) : ApiMessage :=
  mkApiMessage (api_role_of (role msg))
    (match content msg with
     | Text text => ContentText text
     | Blocks blocks => ContentBlocks (omap convert_block blocks)
     end).

(** The text of the first system message that has one. *)
Definition system_text (msg : Message Json) : option str :=
  match role msg, content msg with System, Text t => Some t | _, _ => None end.

Fixpoint find_map {A B} (f : A → option B) (l : list A) : option B :=
  match l with [] => None | x :: l => match f x with Some y => Some y | None => find_map f l end end.

Definition system_of (request : Request) : option str :=
  match req_system request with Some s => Some s | None => find_map system_text (req_messages request) end.

Definition not_system (msg : Message Json) : bool := negb (bool_decide (role msg = System)).

Definition convert_tool (t : ToolDefinition (Value := Json)) : ApiTool :=
  mkApiTool (tool_name t) (description t) (input_schema t).

Definition api_request (request : Request) (stream : bool) : ApiRequest :=
  mkApiRequest (req_model request) (req_max_tokens request) (system_of request)
    (convert_message <$> List.filter not_system (req_messages request)) (convert_tool <$> req_tools request)
    (Some (req_temperature request)) stream.

(** ** Responses *)

Inductive ResponseContentBlock : Type :=
| RespText (text : str)
| RespToolUse (id name : str) (input : Json)
| RespThinking (thinking : str).

Record ApiResponse : Type := mkApiResponse {
  resp_blocks : list ResponseContentBlock;
  resp_stop : str;
  resp_input_tokens : Z;
  resp_output_tokens : Z
}.

Definition response_block (b : ResponseContentBlock) : ContentBlock Json :=
  match b with
  | RespText text => TextBlock text
  | RespToolUse id name input => ToolUse id name input
  | RespThinking thinking => Thinking thinking
  end.

Definition response_call (b : ResponseContentBlock) : option (ToolCall Json) :=
  match b with RespToolUse id name input => Some (mkCall id name input) | _ => None end.

Definition stop_reason_of (s : str) : StopReason :=
  if str_eqb s (lit "end_turn") then EndTurn
  else if str_eqb s (lit "tool_use") then StopToolUse
  else if str_eqb s (lit "max_tokens") then MaxTokens
  else if str_eqb s (lit "stop_sequence") then StopSequence
  else EndTurn.

Definition convert_response (api : ApiResponse) : Response :=
  mkResponse (response_block <$> resp_blocks api) (stop_reason_of (resp_stop api)) (omap response_call (resp_blocks api))
    (mkUsage (resp_input_tokens api) (resp_output_tokens api)).

(** ** Streams *)

Inductive ContentBlockAccum : Type :=
| AccText (text : str)
| AccThinking (thinking : str)
| AccToolUse (id name input_json : str).

Record Accum : Type := mkAccum {
  acc_blocks : list ContentBlockAccum;
  acc_stop : StopReason;
  acc_usage : TokenUsage;
  acc_sent : list Event
}.

Definition start_accum : Accum := mkAccum [] EndTurn default_usage [].

Definition with_blocks (a : Accum) (bs : list ContentBlockAccum) : Accum := mkAccum bs (acc_stop a) (acc_usage a) (acc_sent a).
Definition emit (a : Accum) (e : Event) : Accum :=
  mkAccum (acc_blocks a) (acc_stop a) (acc_usage a) (acc_sent a ++ [e]).

(** [blocks.last_mut()]: a change of the last block. *)
Fixpoint update_last (f : ContentBlockAccum → ContentBlockAccum) (bs : list ContentBlockAccum) : list ContentBlockAccum :=
  match bs with [] => [] | [b] => [f b] | b :: bs => b :: update_last f bs end.

Definition push_text (text : str) (b : ContentBlockAccum) : ContentBlockAccum :=
  match b with AccText t => AccText (t ++ text) | _ => b end.
Definition push_thinking (text : str) (b : ContentBlockAccum) : ContentBlockAccum :=
  match b with AccThinking t => AccThinking (t ++ text) | _ => b end.
Definition push_input (text : str) (b : ContentBlockAccum) : ContentBlockAccum :=
  match b with AccToolUse id name j => AccToolUse id name (j ++ text) | _ => b end.

Section driver.
Context `{JsonText} (parse_response : str → result ApiResponse str) (parse_error : str → option str).

Definition text_or_empty (v : Json) : str := default [] (as_str v).

Definition on_block_start (a : Accum) (json : Json) : Accum :=
  let block := index json "content_block" in
  let type := text_or_empty (index block "type") in
  if str_eqb type (lit "text") then with_blocks a (acc_blocks a ++ [AccText []])
  else if str_eqb type (lit "tool_use") then
    let id := text_or_empty (index block "id") in
    let name := text_or_empty (index block "name") in
    let a := emit a (ToolUseStart id name) in
    with_blocks a (acc_blocks a ++ [AccToolUse id name []])
  else if str_eqb type (lit "thinking") then with_blocks a (acc_blocks a ++ [AccThinking []])
  else a.

Definition on_block_delta (a : Accum) (json : Json) : Accum :=
  let delta := index json "delta" in
  let type := text_or_empty (index delta "type") in
  if str_eqb type (lit "text_delta") then
    match as_str (index delta "text") with
    | Some text => emit (with_blocks a (update_last (push_text text) (acc_blocks a))) (TextDelta text)
    | None => a
    end
  else if str_eqb type (lit "input_json_delta") then
    match as_str (index delta "partial_json") with
    | Some partial => emit (with_blocks a (update_last (push_input partial) (acc_blocks a))) (ToolInputDelta partial)
    | None => a
    end
  else if str_eqb type (lit "thinking_delta") then
    match as_str (index delta "thinking") with
    | Some thinking => with_blocks a (update_last (push_thinking thinking) (acc_blocks a))
    | None => a
    end
  else a.

Definition on_block_stop (a : Accum) : Accum :=
  match last (acc_blocks a) with
  | Some (AccToolUse id name input_json) => emit a (ToolUseEnd id name (from_str_or_null input_json))
  | _ => a
  end.

Definition on_message_start (a : Accum) (json : Json) : Accum :=
  match as_u64 (index (index (index json "message") "usage") "input_tokens") with
  | Some it => mkAccum (acc_blocks a) (acc_stop a) (mkUsage it (output_tokens (acc_usage a))) (acc_sent a)
  | None => a
  end.

Definition on_message_delta (a : Accum) (json : Json) : Accum :=
  let a := match as_str (index (index json "delta") "stop_reason") with
           | Some sr => mkAccum (acc_blocks a) (stop_reason_of sr) (acc_usage a) (acc_sent a)
           | None => a
           end in
  match as_u64 (index (index json "usage") "output_tokens") with
  | Some ot => mkAccum (acc_blocks a) (acc_stop a) (mkUsage (input_tokens (acc_usage a)) ot) (acc_sent a)
  | None => a
  end.

Definition on_event (a : Accum) (event : str * Json) : Accum :=
  let '(event_type, json) := event in
  if str_eqb event_type (lit "message_start") then on_message_start a json
  else if str_eqb event_type (lit "content_block_start") then on_block_start a json
  else if str_eqb event_type (lit "content_block_delta") then on_block_delta a json
  else if str_eqb event_type (lit "content_block_stop") then on_block_stop a
  else if str_eqb event_type (lit "message_delta") then on_message_delta a json
  else a.

(** The type and the data of an event: the last line of each counts. *)
Definition event_line (acc : str * str) (line : str) : str * str :=
  match strip_prefix line (lit "event: ") with
  | Some et => (et, acc.2)
  | None => match strip_prefix line (lit "data: ") with Some d => (acc.1, d) | None => acc end
  end.

Definition parse_event (event_text : str) : option (str * Json) :=
  let '(event_type, data) := foldl event_line ([], []) (lines event_text) in
  if is_empty data then None
  else match from_str data with Ok json => Some (event_type, json) | Err _ => None end.

Definition on_event_text (a : Accum) (event_text : str) : Accum :=
  match parse_event event_text with Some event => on_event a event | None => a end.

Definition accum_block (b : ContentBlockAccum) : ContentBlock Json :=
  match b with
  | AccText text => TextBlock text
  | AccThinking thinking => Thinking thinking
  | AccToolUse id name input_json => ToolUse id name (from_str_or_null input_json)
  end.

Definition accum_call (b : ContentBlockAccum) : option (ToolCall Json) :=
  match b with AccToolUse id name input_json => Some (mkCall id name (from_str_or_null input_json)) | _ => None end.

Definition accum_response (a : Accum) : Response :=
  mkResponse (accum_block <$> acc_blocks a) (acc_stop a) (omap accum_call (acc_blocks a)) (acc_usage a).

Definition event_end : str := [newline; newline].

(** A successful answer to [stream], and to [complete]. *)
Definition finish_stream (resp : Reply) : result Response LlmError * list Event :=
  match read_body event_end on_event_text start_accum (reply_chunks resp) with
  | (a, Some e) => (Err (Http e), acc_sent a)
  | (a, None) => (Ok (accum_response a), acc_sent a ++ [ContentComplete (acc_stop a) (acc_usage a)])
  end.

Definition finish_complete (resp : Reply) : result Response LlmError * list Event :=
  (match reply_text resp with
   | Err e => Err (Http e)
   | Ok body => match parse_response body with Err e => Err (Parse e) | Ok api => Ok (convert_response api) end
   end, []).

Section server.
Context (server : nat → ApiRequest → result Reply str).

Definition complete (request : Request) : Driven ApiRequest :=
  attempts server 529 parse_error finish_complete max_retries 0 (api_request request false).

Definition stream (request : Request) : Driven ApiRequest :=
  attempts server 529 parse_error finish_stream max_retries 0 (api_request request true).
End server.

(** ** A streamed answer is the same answer

    The events a server sends for a response: [block_events] those of one
    block, whose content comes in any number of pieces. The input of a tool
    use is what the driver makes of the pieces, null if they are no JSON: the
    API sends no piece of the input of a call without arguments. *)

Definition is_event (type : string) (e : str * Json) : Prop := e.1 = lit type.

Definition delta_of (type key : string) (piece : str) (e : str * Json) : Prop :=
  is_event "content_block_delta" e ∧ as_str (index (index e.2 "delta") "type") = Some (lit type) ∧
  as_str (index (index e.2 "delta") key) = Some piece.

Definition starts_block (type : string) (e : str * Json) : Prop :=
  is_event "content_block_start" e ∧ as_str (index (index e.2 "content_block") "type") = Some (lit type).

Inductive block_events : ResponseContentBlock → list (str * Json) → Prop :=
| text_events start pieces deltas stop :
    starts_block "text" start → Forall2 (delta_of "text_delta" "text") pieces deltas → is_event "content_block_stop" stop →
    block_events (RespText (concat pieces)) (start :: deltas ++ [stop])
| thinking_events start pieces deltas stop :
    starts_block "thinking" start → Forall2 (delta_of "thinking_delta" "thinking") pieces deltas → is_event "content_block_stop" stop →
    block_events (RespThinking (concat pieces)) (start :: deltas ++ [stop])
| tool_use_events id name input start pieces deltas stop :
    starts_block "tool_use" start →
    as_str (index (index start.2 "content_block") "id") = Some id →
    as_str (index (index start.2 "content_block") "name") = Some name →
    Forall2 (delta_of "input_json_delta" "partial_json") pieces deltas → from_str_or_null (concat pieces) = input →
    is_event "content_block_stop" stop →
    block_events (RespToolUse id name input) (start :: deltas ++ [stop]).

(** Events the driver does not know, such as [ping] and [message_stop]. *)
Definition known (e : str * Json) : bool :=
  existsb (λ t, str_eqb e.1 (lit t))
    ["message_start"; "content_block_start"; "content_block_delta"; "content_block_stop"; "message_delta"].

Inductive streamed : ApiResponse → list (str * Json) → Prop :=
| streamed_intro r first groups final events :
    is_event "message_start" first →
    as_u64 (index (index (index first.2 "message") "usage") "input_tokens") = Some (resp_input_tokens r) →
    Forall2 block_events (resp_blocks r) groups →
    is_event "message_delta" final →
    as_str (index (index final.2 "delta") "stop_reason") = Some (resp_stop r) →
    as_u64 (index (index final.2 "usage") "output_tokens") = Some (resp_output_tokens r) →
    List.filter known events = first :: concat groups ++ [final] →
    streamed r events.

Lemma on_event_unknown a e : known e = false → on_event a e = a.
Proof.
  destruct e as [t j]. unfold known, on_event. cbn [existsb fst].
  rewrite !orb_false_iff. intros (-> & -> & -> & -> & -> & _). done.
Qed.

Lemma on_events_known a es : foldl on_event a es = foldl on_event a (List.filter known es).
Proof.
  revert a. induction es as [|e es IH]; intros a; [done|]. cbn [foldl List.filter].
  destruct (known e) eqn:E; [apply IH|]. rewrite on_event_unknown by done. apply IH.
Qed.

Lemma on_texts a texts : foldl on_event_text a texts = foldl on_event a (omap parse_event texts).
Proof.
  revert a. induction texts as [|t texts IH]; intros a; [done|]. cbn [foldl omap list_omap]. unfold on_event_text at 2.
  destruct (parse_event t); cbn [foldl]; apply IH.
Qed.

Lemma update_last_app f bs b : update_last f (bs ++ [b]) = bs ++ [f b].
Proof. induction bs as [|x bs IH]; [done|]. cbn [app update_last]. rewrite IH. by destruct bs. Qed.

(** What a piece of a block does: it goes into the last block, and [evt] is
    sent. *)
Definition piece_effect (push : str → ContentBlockAccum → ContentBlockAccum) (evt : str → list Event)
    (type key : string) : Prop :=
  ∀ bs b stop usage sent piece e, delta_of type key piece e →
    on_event (mkAccum (bs ++ [b]) stop usage sent) e = mkAccum (bs ++ [push piece b]) stop usage (sent ++ evt piece).

Lemma delta_is type key piece e a : delta_of type key piece e → on_event a e = on_block_delta a e.2.
Proof. destruct e as [t j]. by intros (-> & _ & _). Qed.

Lemma text_piece : piece_effect push_text (λ t, [TextDelta t]) "text_delta" "text".
Proof.
  intros bs b stop usage sent piece e He. rewrite (delta_is _ _ _ _ _ He). destruct He as (_ & Ht & Hp).
  unfold on_block_delta, text_or_empty. rewrite Ht, Hp. cbn. unfold emit, with_blocks. cbn. by rewrite update_last_app.
Qed.

Lemma input_piece : piece_effect push_input (λ t, [ToolInputDelta t]) "input_json_delta" "partial_json".
Proof.
  intros bs b stop usage sent piece e He. rewrite (delta_is _ _ _ _ _ He). destruct He as (_ & Ht & Hp).
  unfold on_block_delta, text_or_empty. rewrite Ht, Hp. cbn. unfold emit, with_blocks. cbn. by rewrite update_last_app.
Qed.

Lemma thinking_piece : piece_effect push_thinking (λ _, []) "thinking_delta" "thinking".
Proof.
  intros bs b stop usage sent piece e He. rewrite (delta_is _ _ _ _ _ He). destruct He as (_ & Ht & Hp).
  unfold on_block_delta, text_or_empty. rewrite Ht, Hp. cbn. unfold with_blocks. cbn. by rewrite update_last_app, app_nil_r.
Qed.

Lemma pieces_effect push evt type key pieces deltas bs b stop usage sent :
  piece_effect push evt type key → Forall2 (delta_of type key) pieces deltas →
  foldl on_event (mkAccum (bs ++ [b]) stop usage sent) deltas =
  mkAccum (bs ++ [foldl (λ b p, push p b) b pieces]) stop usage (sent ++ concat (evt <$> pieces)).
Proof.
  intros He Hd. revert b sent. induction Hd as [|p e pieces deltas Hp _ IH]; intros b sent; [by rewrite app_nil_r|].
  cbn [foldl]. rewrite (He _ _ _ _ _ _ _ Hp), IH, fmap_cons. cbn [concat]. by rewrite app_assoc.
Qed.

Lemma texts_pushed t pieces : foldl (λ b p, push_text p b) (AccText t) pieces = AccText (t ++ concat pieces).
Proof. revert t. induction pieces as [|p pieces IH]; intros t; [by rewrite app_nil_r|]. cbn [foldl push_text concat]. by rewrite IH, app_assoc. Qed.

Lemma thinking_pushed t pieces : foldl (λ b p, push_thinking p b) (AccThinking t) pieces = AccThinking (t ++ concat pieces).
Proof. revert t. induction pieces as [|p pieces IH]; intros t; [by rewrite app_nil_r|]. cbn [foldl push_thinking concat]. by rewrite IH, app_assoc. Qed.

Lemma input_pushed id name t pieces :
  foldl (λ b p, push_input p b) (AccToolUse id name t) pieces = AccToolUse id name (t ++ concat pieces).
Proof. revert t. induction pieces as [|p pieces IH]; intros t; [by rewrite app_nil_r|]. cbn [foldl push_input concat]. by rewrite IH, app_assoc. Qed.

(** The text and the finished tool uses among the events sent. *)
Definition delta_text (e : Event) : option str := match e with TextDelta t => Some t | _ => None end.
Definition ended_call (e : Event) : option (ToolCall Json) :=
  match e with ToolUseEnd id name input => Some (mkCall id name input) | _ => None end.
Definition block_text_of (b : ResponseContentBlock) : str := match b with RespText t => t | _ => [] end.

Lemma text_events_sent pieces :
  concat (omap delta_text (concat ((λ t, [TextDelta t]) <$> pieces))) = concat pieces ∧
  omap ended_call (concat ((λ t, [TextDelta t]) <$> pieces) : list Event) = [].
Proof.
  induction pieces as [|p pieces [IH1 IH2]]; [done|]. rewrite fmap_cons. cbn [concat app omap list_omap delta_text ended_call].
  cbn [concat]. by rewrite IH1, IH2.
Qed.

Lemma input_events_sent pieces :
  omap delta_text (concat ((λ t, [ToolInputDelta t]) <$> pieces) : list Event) = [] ∧
  omap ended_call (concat ((λ t, [ToolInputDelta t]) <$> pieces) : list Event) = [].
Proof.
  induction pieces as [|p pieces [IH1 IH2]]; [done|]. rewrite fmap_cons. cbn [concat app omap list_omap delta_text ended_call].
  done.
Qed.

Lemma text_start bs stop usage sent e : starts_block "text" e →
  on_event (mkAccum bs stop usage sent) e = mkAccum (bs ++ [AccText []]) stop usage sent.
Proof.
  destruct e as [t j]. intros [-> Hs]. change (on_event ?a (lit "content_block_start", j)) with (on_block_start a j). cbn [snd] in Hs.
  unfold on_block_start, text_or_empty. by rewrite Hs.
Qed.

Lemma thinking_start bs stop usage sent e : starts_block "thinking" e →
  on_event (mkAccum bs stop usage sent) e = mkAccum (bs ++ [AccThinking []]) stop usage sent.
Proof.
  destruct e as [t j]. intros [-> Hs]. change (on_event ?a (lit "content_block_start", j)) with (on_block_start a j). cbn [snd] in Hs.
  unfold on_block_start, text_or_empty. by rewrite Hs.
Qed.

Lemma tool_start bs stop usage sent e id name : starts_block "tool_use" e →
  as_str (index (index e.2 "content_block") "id") = Some id → as_str (index (index e.2 "content_block") "name") = Some name →
  on_event (mkAccum bs stop usage sent) e = mkAccum (bs ++ [AccToolUse id name []]) stop usage (sent ++ [ToolUseStart id name]).
Proof.
  destruct e as [t j]. intros [-> Hs]. change (on_event ?a (lit "content_block_start", j)) with (on_block_start a j). cbn [snd] in *.
  unfold on_block_start, text_or_empty. intros Hi Hn. by rewrite Hs, Hi, Hn.
Qed.

Lemma stop_is e a : is_event "content_block_stop" e → on_event a e = on_block_stop a.
Proof. destruct e as [t j]. by intros ->. Qed.

Lemma block_handled a b es : block_events b es → ∃ acc ev,
  foldl on_event a es = mkAccum (acc_blocks a ++ [acc]) (acc_stop a) (acc_usage a) (acc_sent a ++ ev) ∧
  accum_block acc = response_block b ∧ accum_call acc = response_call b ∧
  concat (omap delta_text ev) = block_text_of b ∧ omap ended_call ev = option_list (response_call b).
Proof.
  intros Hb. destruct a as [bs st us se], Hb as [start pieces deltas stop Hs Hd He|start pieces deltas stop Hs Hd He
    |id name input start pieces deltas stop Hs Hi Hn Hd Hj He]; cbn [foldl acc_blocks acc_stop acc_usage acc_sent].
  - rewrite (text_start _ _ _ _ _ Hs), foldl_app, (pieces_effect _ _ _ _ _ _ _ _ _ _ _ text_piece Hd), texts_pushed.
    cbn [foldl]. rewrite (stop_is _ _ He). unfold on_block_stop. cbn [acc_blocks]. rewrite last_snoc.
    eexists _, _. split; [done|]. split_and!; [done..| |]; apply text_events_sent.
  - rewrite (thinking_start _ _ _ _ _ Hs), foldl_app, (pieces_effect _ _ _ _ _ _ _ _ _ _ _ thinking_piece Hd), thinking_pushed.
    cbn [foldl]. rewrite (stop_is _ _ He). unfold on_block_stop. cbn [acc_blocks]. rewrite last_snoc.
    eexists _, _. split; [done|]. split_and!; [done..| |]; clear; by induction pieces.
  - rewrite (tool_start _ _ _ _ _ _ _ Hs Hi Hn), foldl_app, (pieces_effect _ _ _ _ _ _ _ _ _ _ _ input_piece Hd), input_pushed.
    cbn [foldl]. rewrite (stop_is _ _ He). unfold on_block_stop. cbn [acc_blocks]. rewrite last_snoc. cbn [app].
    unfold emit. cbn [acc_blocks acc_stop acc_usage acc_sent]. rewrite <- !app_assoc.
    rewrite Hj.
    destruct (input_events_sent pieces) as [E1 E2].
    eexists _, _. split; [done|]. cbn [accum_block accum_call]. rewrite Hj.
    split_and!; [done..| |]; cbn [app omap list_omap delta_text ended_call]; rewrite omap_app, ?E1, ?E2; done.
Qed.

Lemma blocks_handled a blocks groups : Forall2 block_events blocks groups → ∃ accs ev,
  foldl on_event a (concat groups) = mkAccum (acc_blocks a ++ accs) (acc_stop a) (acc_usage a) (acc_sent a ++ ev) ∧
  accum_block <$> accs = response_block <$> blocks ∧ omap accum_call accs = omap response_call blocks ∧
  concat (omap delta_text ev) = concat (block_text_of <$> blocks) ∧ omap ended_call ev = omap response_call blocks.
Proof.
  intros Hg. revert a. induction Hg as [|b g blocks groups Hb _ IH]; intros a.
  - exists [], []. cbn. rewrite !app_nil_r. by destruct a.
  - cbn [concat]. rewrite foldl_app. destruct (block_handled a b g Hb) as (acc & ev & -> & E1 & E2 & E3 & E4).
    destruct (IH (mkAccum (acc_blocks a ++ [acc]) (acc_stop a) (acc_usage a) (acc_sent a ++ ev)))
      as (accs & ev' & -> & F1 & F2 & F3 & F4). cbn [acc_blocks acc_stop acc_usage acc_sent].
    exists (acc :: accs), (ev ++ ev'). rewrite <- !app_assoc. split; [done|]. rewrite !fmap_cons, E1, F1, !omap_app, concat_app, E3, F3, E4, F4.
    cbn [omap list_omap concat]. rewrite E2. destruct (response_call b); cbn [option_list app]; by rewrite ?F2.
Qed.

(** The chunks are a stream of the response [r]. *)
Definition streams (r : ApiResponse) (chunks : list (result str str)) : Prop :=
  ∃ pieces texts, chunks = Ok <$> pieces ∧ Forall valid_utf8 pieces ∧ Forall (frameable event_end) texts ∧
    concat pieces = concat ((λ e, e ++ event_end) <$> texts) ∧ streamed r (omap parse_event texts).

Lemma finish_streamed r resp : streams r (reply_chunks resp) →
  ∃ ev, finish_stream resp = (Ok (convert_response r), ev ++ [ContentComplete (stop_reason_of (resp_stop r))
                                (mkUsage (resp_input_tokens r) (resp_output_tokens r))]) ∧
    concat (omap delta_text ev) = concat (block_text_of <$> resp_blocks r) ∧
    omap ended_call ev = resp_tool_calls (convert_response r).
Proof.
  intros (pieces & texts & Ec & Hp & Ht & E & Hs). unfold finish_stream. rewrite Ec.
  rewrite (read_body_framed event_end ltac:(done) on_event_text start_accum pieces texts Hp Ht E), on_texts, on_events_known.
  destruct Hs as [r first groups final events H1 H2 Hg H3 H4 H5 ->]. cbn [foldl].
  destruct first as [t0 j0], final as [t1 j1]. unfold is_event in H1, H3; cbn [fst] in H1, H3. rewrite H1, H3. cbn [snd] in *.
  assert (on_event start_accum (lit "message_start", j0) = mkAccum [] EndTurn (mkUsage (resp_input_tokens r) 0) []) as ->.
  { change (on_event start_accum (lit "message_start", j0)) with (on_message_start start_accum j0).
    unfold on_message_start. by rewrite H2. }
  rewrite foldl_app. destruct (blocks_handled (mkAccum [] EndTurn (mkUsage (resp_input_tokens r) 0) []) _ _ Hg)
    as (accs & ev & -> & E1 & E2 & E3 & E4). cbn [foldl acc_blocks acc_stop acc_usage acc_sent app].
  change (on_event ?a (lit "message_delta", j1)) with (on_message_delta a j1). unfold on_message_delta. rewrite H4, H5.
  cbn [acc_blocks acc_stop acc_usage acc_sent input_tokens]. exists ev. split; [|done].
  unfold accum_response, convert_response. cbn [acc_blocks acc_stop acc_usage]. by rewrite E1, E2.
Qed.

(** The input of a call as the API gives it, and as a stream of it has it: the
    same, or, unless the streams are [spelled] out, null for no arguments. *)
Definition same_input (spelled : bool) (input input' : Json) : Prop :=
  input' = input ∨ spelled = false ∧ input = JObj [] ∧ input' = JNull.

Inductive same_block (spelled : bool) : ResponseContentBlock → ResponseContentBlock → Prop :=
| same_text text : same_block spelled (RespText text) (RespText text)
| same_thinking thinking : same_block spelled (RespThinking thinking) (RespThinking thinking)
| same_tool_use id name input input' :
    same_input spelled input input' → same_block spelled (RespToolUse id name input) (RespToolUse id name input').

Definition same_response (spelled : bool) (r r' : ApiResponse) : Prop :=
  Forall2 (same_block spelled) (resp_blocks r) (resp_blocks r') ∧ resp_stop r = resp_stop r' ∧
  resp_input_tokens r = resp_input_tokens r' ∧ resp_output_tokens r = resp_output_tokens r'.

(** A response in which no arguments and null are not told apart. *)
Definition blank (input : Json) : Json := match input with JObj [] => JNull | _ => input end.
Definition blank_block (b : ContentBlock Json) : ContentBlock Json :=
  match b with ToolUse id name input => ToolUse id name (blank input) | _ => b end.
Definition blank_call (c : ToolCall Json) : ToolCall Json := mkCall (call_id c) (call_name c) (blank (call_input c)).
Definition blanked (o : result Response LlmError) : result Response LlmError :=
  match o with
  | Ok r => Ok (mkResponse (blank_block <$> resp_content r) (stop_reason r) (blank_call <$> resp_tool_calls r) (resp_usage r))
  | Err e => Err e
  end.

Definition agree (spelled : bool) (o o' : result Response LlmError) : Prop :=
  if spelled then o = o' else blanked o = blanked o'.

#[local] Instance agree_refl spelled : Reflexive (agree spelled).
Proof. by destruct spelled. Qed.

Lemma same_input_blank spelled i i' : same_input spelled i i' → blank i = blank i'.
Proof. by intros [->|(_ & -> & ->)]. Qed.

Lemma same_response_agree spelled r r' :
  same_response spelled r r' → agree spelled (Ok (convert_response r)) (Ok (convert_response r')).
Proof.
  destruct r as [bs st it ot], r' as [bs' st' it' ot']. intros (Hb & [= <-] & [= <-] & [= <-]). cbn in Hb.
  unfold agree, convert_response. cbn [resp_blocks resp_stop resp_input_tokens resp_output_tokens]. destruct spelled.
  - enough (bs = bs') as -> by done.
    induction Hb as [|b b' bs bs' Hx _ ->]; [done|]. destruct Hx as [| |? ? ? ? [->|[? _]]]; done.
  - cbn [blanked resp_content stop_reason resp_tool_calls resp_usage]. do 2 f_equal.
    + induction Hb as [|b b' bs bs' Hx _ IH]; [done|]. rewrite !fmap_cons, IH. f_equal.
      destruct Hx as [| |? ? ? ? Hi]; cbn; try done. by rewrite (same_input_blank _ _ _ Hi).
    + induction Hb as [|b b' bs bs' Hx _ IH]; [done|]. destruct Hx as [| |? ? ? ? Hi]; [done..|].
      cbn [omap list_omap response_call]. rewrite !fmap_cons. f_equal; [|exact IH].
      unfold blank_call. cbn. by rewrite (same_input_blank _ _ _ Hi).
Qed.

Section servers.
Context (server server' : nat → ApiRequest → result Reply str).

(** What the two servers answer to an attempt: the same, a response in one
    piece or as a stream; [r'] is the response as the stream has it. *)
Definition same_answer (spelled : bool) (a b : result Reply str) : Prop :=
  match a, b with
  | Ok a, Ok b =>
      reply_status a = reply_status b ∧
      if is_success a then ∃ body r r', reply_text a = Ok body ∧ parse_response body = Ok r ∧ streams r' (reply_chunks b) ∧ same_response spelled r r'
      else reply_text a = reply_text b
  | Err e, Err e' => e = e'
  | _, _ => False
  end.

(** C9: A streaming call returns what a call without a stream returns, however
    the server cuts the response into events and the events into chunks, as
    long as no character is cut; it makes as many requests and sleeps as long.
    There is one difference: the input of a call without arguments is null, if
    the stream has no text for it, where it is an empty object without a
    stream; the responses are equal up to that, and equal if the streams spell
    the inputs out. *)
Theorem anthropic_stream_equivalent spelled request :
  (∀ n, same_answer spelled (server n (api_request request false)) (server' n (api_request request true))) →
  agree spelled (outcome (complete server request)) (outcome (stream server' request)) ∧
  slept (stream server' request) = slept (complete server request) ∧
  length (requests (stream server' request)) = length (requests (complete server request)).
Proof.
  intros Ha. unfold stream, complete.
  destruct (attempts_related (agree spelled) server server' 529 parse_error finish_complete finish_stream max_retries 0
              (api_request request false) (api_request request true)) as (HR & -> & ->); [apply _| |done].
  intros n. specialize (Ha n). unfold same_answer, related in *.
  destruct (server n _) as [a|e], (server' n _) as [b|e']; try done. destruct Ha as [Hs Hr]. split; [done|].
  destruct (is_success a); [|done]. destruct Hr as (body & r & r' & Et & Ep & Hst & Hsame).
  destruct (finish_streamed r' b Hst) as (ev & -> & _). cbn [fst finish_complete]. unfold finish_complete. rewrite Et, Ep.
  by apply same_response_agree.
Qed.
End servers.

(** Whatever a stream carries besides, an error reported by the server as an
    event is passed over: the call returns what was read as a response. *)
Theorem stream_errors_ignored resp resp' before error after :
  parse_event error ≫= (λ e, Some (e.1)) = Some (lit "error") →
  Forall (frameable event_end) (before ++ error :: after) →
  Forall valid_utf8 (before ++ error :: after) →
  reply_chunks resp = [Ok (concat ((λ e, e ++ event_end) <$> before ++ after))] →
  reply_chunks resp' = [Ok (concat ((λ e, e ++ event_end) <$> before ++ error :: after))] →
  finish_stream resp' = finish_stream resp ∧ is_ok (finish_stream resp').1 = true.
Proof.
  intros He Hf Hv E1 E2.
  assert (∀ es, Forall valid_utf8 es → valid_utf8 (concat ((λ e, e ++ event_end) <$> es))) as Hc.
  { induction 1; [constructor|]. rewrite fmap_cons. cbn [concat]. repeat apply valid_app; [done|by apply is_valid_utf8_ok|done]. }
  assert (∀ es, Forall (frameable event_end) es → Forall valid_utf8 es →
    read_body event_end on_event_text start_accum [Ok (concat ((λ e, e ++ event_end) <$> es))] =
    (foldl on_event_text start_accum es, None)) as Hr.
  { intros es Hfe Hve. apply (read_body_framed event_end ltac:(done) on_event_text start_accum [_] es); [|done|apply app_nil_r].
    constructor; [by apply Hc|constructor]. }
  apply Forall_app in Hf as [Hf1 Hf2], Hv as [Hv1 Hv2]. inversion_clear Hf2. inversion_clear Hv2.
  unfold finish_stream. rewrite E1, E2, !Hr by (apply Forall_app; split; try constructor; done).
  assert (∀ a, on_event_text a error = a) as Hi.
  { intros a. unfold on_event_text. destruct (parse_event error) as [[t j]|] eqn:Ep; [|done].
    cbn in He. injection He as ->. by apply on_event_unknown. }
  rewrite !foldl_app. cbn [foldl]. by rewrite Hi.
Qed.
End driver.

(** ** A concrete stream *)

Definition demo_object (fields : list (string * Json)) : Json := JObj ((λ f, (lit f.1, f.2)) <$> fields).
Definition demo_text (s : string) : Json := JStr (lit s).

Definition demo_delta (type key piece : string) : Json :=
  demo_object [("delta", demo_object [("type", demo_text type); (key, demo_text piece)])].
Definition demo_block (fields : list (string * Json)) : Json := demo_object [("content_block", demo_object fields)].

(** The data of the events, by number. *)
Definition demo_data : list (string * Json) :=
  [("0", demo_object [("message", demo_object [("usage", demo_object [("input_tokens", JNum 7)])])]);
   ("1", demo_block [("type", demo_text "text"); ("text", demo_text "")]);
   ("2", demo_delta "text_delta" "text" "Hel");
   ("3", demo_delta "text_delta" "text" "lo");
   ("4", demo_object []);
   ("5", demo_block [("type", demo_text "tool_use"); ("id", demo_text "t1"); ("name", demo_text "sum")]);
   ("6", demo_delta "input_json_delta" "partial_json" "[");
   ("7", demo_delta "input_json_delta" "partial_json" "1]");
   ("8", demo_object [("delta", demo_object [("stop_reason", demo_text "tool_use")]);
                      ("usage", demo_object [("output_tokens", JNum 9)])]);
   ("10", demo_block [("type", demo_text "tool_use"); ("id", demo_text "t2"); ("name", demo_text "now")]);
   ("[1]", JArr [JNum 1]);
   ("9", demo_object [("error", demo_object [("message", demo_text "Overloaded")])])].

Definition demo_from_str (s : str) : result Json str :=
  match List.find (λ d, str_eqb (lit d.1) s) demo_data with Some d => Ok d.2 | None => Err (lit "expected value") end.

#[local] Instance demo_json : JsonText := {| to_string _ := []; from_str := demo_from_str; from_str_empty := eq_refl |}.

Definition demo_event (type data : string) : str := lit "event: " ++ lit type ++ [newline] ++ lit "data: " ++ lit data.

Definition demo_texts : list str :=
  [demo_event "message_start" "0"; demo_event "content_block_start" "1"; demo_event "ping" "4";
   demo_event "content_block_delta" "2"; demo_event "content_block_delta" "3"; demo_event "content_block_stop" "4";
   demo_event "content_block_start" "5"; demo_event "content_block_delta" "6"; demo_event "content_block_delta" "7";
   demo_event "content_block_stop" "4"; demo_event "content_block_start" "10"; demo_event "content_block_stop" "4";
   demo_event "message_delta" "8"; demo_event "message_stop" "4"].

Definition demo_body : str := concat ((λ e, e ++ event_end) <$> demo_texts).

(** Cut inside of an event and inside of a separator. *)
Definition demo_chunks : list str := [take 31 demo_body; take 100 (drop 31 demo_body); drop 131 demo_body].

(** The second call has no arguments: its input is [{}], and null in a stream. *)
Definition demo_response (no_input : Json) : ApiResponse :=
  mkApiResponse [RespText (lit "Hello"); RespToolUse (lit "t1") (lit "sum") (JArr [JNum 1]); RespToolUse (lit "t2") (lit "now") no_input]
    (lit "tool_use") 7 9.

Definition demo_request : Request :=
  mkRequest (lit "claude") [mkMessage System (Text (lit "Be brief.")); mkMessage User (Text (lit "Hi"))] [] 1000
    (SpecFloat.S754_zero false) None None.

(** A server that wants the second attempt. *)
Definition demo_server (streaming : bool) (n : nat) (_ : ApiRequest) : result Reply str :=
  if n =? 0 then Ok (mkReply 529 (Ok []) [])
  else Ok (mkReply 200 (if streaming then Err [] else Ok (lit "body")) (Ok <$> demo_chunks)).

Lemma demo_streamed : streamed (demo_response JNull) (omap parse_event demo_texts).
Proof.
  apply (streamed_intro (demo_response JNull) (lit "message_start", demo_object [("message", demo_object [("usage", demo_object [("input_tokens", JNum 7)])])])
    [[(lit "content_block_start", demo_block [("type", demo_text "text"); ("text", demo_text "")]);
      (lit "content_block_delta", demo_delta "text_delta" "text" "Hel");
      (lit "content_block_delta", demo_delta "text_delta" "text" "lo"); (lit "content_block_stop", demo_object [])];
     [(lit "content_block_start", demo_block [("type", demo_text "tool_use"); ("id", demo_text "t1"); ("name", demo_text "sum")]);
      (lit "content_block_delta", demo_delta "input_json_delta" "partial_json" "[");
      (lit "content_block_delta", demo_delta "input_json_delta" "partial_json" "1]"); (lit "content_block_stop", demo_object [])];
     [(lit "content_block_start", demo_block [("type", demo_text "tool_use"); ("id", demo_text "t2"); ("name", demo_text "now")]);
      (lit "content_block_stop", demo_object [])]]
    (lit "message_delta", demo_object [("delta", demo_object [("stop_reason", demo_text "tool_use")]);
                      ("usage", demo_object [("output_tokens", JNum 9)])])); try reflexivity.
  repeat constructor.
  - apply (text_events _ [lit "Hel"; lit "lo"] [_; _]); repeat constructor.
  - apply (tool_use_events _ _ _ _ [lit "["; lit "1]"] [_; _]); repeat constructor.
  - apply (tool_use_events _ _ _ _ [] []); repeat constructor.
Qed.

Lemma demo_streams : streams (demo_response JNull) (Ok <$> demo_chunks).
Proof.
  exists demo_chunks, demo_texts. split; [done|]. split; [repeat constructor; apply is_valid_utf8_ok; vm_compute; reflexivity|].
  split; [repeat constructor; vm_compute; reflexivity|]. split; [vm_compute; reflexivity|apply demo_streamed].
Qed.

Definition demo_parse (_ : str) : result ApiResponse str := Ok (demo_response (JObj [])).

Lemma demo_same n (q q' : ApiRequest) : same_answer demo_parse false (demo_server false n q) (demo_server true n q').
Proof.
  unfold demo_server. destruct (n =? 0); split; [done..|].
  exists (lit "body"), (demo_response (JObj [])), (demo_response JNull). split_and!; [done..|apply demo_streams|].
  split; [|done]. constructor; [constructor|]. constructor; [constructor; by left|].
  constructor; [|constructor]. constructor. by right.
Qed.

Lemma anthropic_stream_equivalent_witness :
  blanked (outcome (stream (λ _, None) (demo_server true) demo_request)) = blanked (Ok (convert_response (demo_response (JObj []))))
  ∧ slept (stream (λ _, None) (demo_server true) demo_request) = [2000%Z].
Proof.
  destruct (anthropic_stream_equivalent demo_parse (λ _, None) (demo_server false) (demo_server true) false demo_request
              (λ n, demo_same n _ _)) as (E1 & E2 & _).
  cbn [agree] in E1. rewrite <- E1, E2. split; reflexivity.
Defined.

Definition demo_error : str := demo_event "error" "9".

Lemma stream_errors_ignored_witness :
  is_ok (finish_stream (mkReply 200 (Ok []) [Ok (concat ((λ e, e ++ event_end) <$> take 4 demo_texts ++ [demo_error]))])).1 = true.
Proof.
  refine (proj2 (stream_errors_ignored (mkReply 200 (Ok []) [Ok (concat ((λ e, e ++ event_end) <$> take 4 demo_texts ++ []))])
                  (mkReply 200 (Ok []) [Ok (concat ((λ e, e ++ event_end) <$> take 4 demo_texts ++ [demo_error]))])
                  (take 4 demo_texts) demo_error [] _ _ _ eq_refl eq_refl)).
  - vm_compute. reflexivity.
  - repeat constructor; vm_compute; reflexivity.
  - repeat constructor; apply is_valid_utf8_ok; vm_compute; reflexivity.
Defined.

(** A tool that is called without arguments: the API sends no part of an input
    then, and the input is null instead of an empty object. *)
Example no_input_is_null :
  resp_tool_calls (accum_response (foldl on_event start_accum
    [(lit "content_block_start", demo_block [("type", demo_text "tool_use"); ("id", demo_text "t1"); ("name", demo_text "now");
                                             ("input", JObj [])]);
     (lit "content_block_delta", demo_delta "input_json_delta" "partial_json" ""); (lit "content_block_stop", JObj [])])) =
  [mkCall (lit "t1") (lit "now") JNull].
Proof. reflexivity. Qed.

(** A stream that breaks off without an error is a response that ended. *)
Example broken_off_accepted :
  (finish_stream (mkReply 200 (Ok []) [Ok (concat ((λ e, e ++ event_end) <$> take 4 demo_texts))])).1 =
  Ok (mkResponse [TextBlock (lit "Hel")] EndTurn [] (mkUsage 7 0)).
Proof. vm_compute. reflexivity. Qed.
