(* ===== verification/OpenAIDriver.v ===== *)
(** * The driver of OpenAI-compatible APIs

    [openfang-runtime/src/drivers/openai.rs], used for OpenAI, Ollama, Groq and
    others. [complete] and [stream] convert the messages in different ways;
    both lower the limit on tokens when the model refuses it, and recover tool
    calls from the error that Groq reports for them. *)

From Stdlib Require Import Ascii ZArith Lia.
From stdpp Require Import base gmap strings list.
From S2P Require Import Prelude Strs TextLines Json ToolSchema Message ContextWindow TextToolCalls AgentQuota ProviderCall AgentLoop DriverHttp.
From S2P Require Import SessionRepair SessionRepairFacts SessionRepairTheorems.

(** ** Requests *)

Inductive OaiContentPart : Type :=
| PartText (text : str)
| PartImageUrl (url : str).

Inductive OaiMessageContent : Type :=
| OaiText (text : str)
| OaiParts (parts : list OaiContentPart).

Record OaiToolCall : Type := mkOaiCall { oai_id : str; oai_type : str; oai_name : str; oai_arguments : str }.

Record OaiMessage : Type := mkOaiMessage {
  oai_role : str;
  oai_content : option OaiMessageContent;
  oai_tool_calls : option (list OaiToolCall);
  oai_tool_call_id : option str
}.

Record OaiTool : Type := mkOaiTool { oai_tool_type : str; oai_tool_name : str; oai_description : str; oai_parameters : Json }.

Record OaiRequest : Type := mkOaiRequest {
  oai_model : str;
  oai_messages : list OaiMessage;
  oai_max_tokens : Z;
  oai_temperature : SpecFloat.spec_float;
  oai_tools : list OaiTool;
  oai_tool_choice : option Json;
  oai_stream : bool
}.

Definition plain (role text : str) : OaiMessage := mkOaiMessage role (Some (OaiText text)) None None.

Section driver.
Context `{JsonText}.

(** The result of a tool in a message of its own. *)
Definition tool_message (b : ContentBlock Json) : option OaiMessage :=
  match b with
  | ToolResult tool_use_id content _ => Some (mkOaiMessage (lit "tool") (Some (OaiText content)) None (Some tool_use_id))
  | _ => None
  end.

Definition content_part (b : ContentBlock Json) : option OaiContentPart :=
  match b with
  | TextBlock text => Some (PartText text)
  | Image media_type data => Some (PartImageUrl (lit "data:" ++ media_type ++ lit ";base64," ++ data))
  | _ => None
  end.

(** The blocks of a user message, in [complete] and in [stream]. *)
Definition user_blocks (blocks : list (ContentBlock Json)) : list OaiMessage :=
  let results := omap tool_message blocks in
  let parts := omap content_part blocks in
  results ++ (if negb (bool_decide (parts = [])) && bool_decide (results = [])
              then [mkOaiMessage (lit "user") (Some (OaiParts parts)) None None] else []).

Definition user_blocks_stream (blocks : list (ContentBlock Json)) : list OaiMessage := omap tool_message blocks.

Definition oai_call (b : ContentBlock Json) : option OaiToolCall :=
  match b with ToolUse id name input => Some (mkOaiCall id (lit "function") name (to_string input)) | _ => None end.

Definition assistant_blocks (blocks : list (ContentBlock Json)) : OaiMessage :=
  let text_parts := omap block_text blocks in
  let tool_calls := omap oai_call blocks in
  mkOaiMessage (lit "assistant") (if bool_decide (text_parts = []) then None else Some (OaiText (join text_parts [])))
    (if bool_decide (tool_calls = []) then None else Some tool_calls) None.

Definition convert_message (streaming : bool) (system : option str) (msg : Message Json) : list OaiMessage :=
  match role msg, content msg with
  | System, Text text => match system with None => [plain (lit "system") text] | Some _ => [] end
  | User, Text text => [plain (lit "user") text]
  | Assistant, Text text => [plain (lit "assistant") text]
  | User, Blocks blocks => if streaming then user_blocks_stream blocks else user_blocks blocks
  | Assistant, Blocks blocks => [assistant_blocks blocks]
  | System, Blocks _ => []
  end.

Definition convert_messages (streaming : bool) (request : Request) : list OaiMessage :=
  match req_system request with Some system => [plain (lit "system") system] | None => [] end
  ++ concat (convert_message streaming (req_system request) <$> req_messages request).

Definition convert_tool (t : ToolDefinition (Value := Json)) : OaiTool :=
  mkOaiTool (lit "function") (tool_name t) (description t) (normalize_schema_for_provider (input_schema t) (lit "openai")).

Definition oai_request (streaming : bool) (request : Request) : OaiRequest :=
  let oai_tools := convert_tool <$> req_tools request in
  mkOaiRequest (req_model request) (convert_messages streaming request) (req_max_tokens request) (req_temperature request)
    oai_tools (if bool_decide (oai_tools = []) then None else Some (JStr (lit "auto"))) streaming.

(** ** Errors that are worked around *)

Definition limit_patterns : list str :=
  [lit "less than or equal to `"; lit "must be <= `"; lit "maximum value for `max_tokens` is `"].

Definition limit_after (body pat : str) : option Z :=
  idx ← find body pat;
  let after := drop (idx + length pat) body in
  let stop := match find after (lit "`") with
              | Some e => e
              | None => default (length after) (find after [ascii_of_nat 34])
              end in
  parse_unsigned u32_max (trim (take stop after)).

Fixpoint first_limit (body : str) (patterns : list str) : option Z :=
  match patterns with
  | [] => None
  | pat :: patterns => match limit_after body pat with Some n => Some n | None => first_limit body patterns end
  end.

Definition extract_max_tokens_limit (body : str) : option Z := first_limit body limit_patterns.

Definition FUNCTION_OPEN : str := lit "<function=".
Definition FUNCTION_CLOSE : str := lit "</function>".

(** The name and the arguments of a call: [None] is the empty object that is
    taken where there are none. *)
Definition call_parts (call_content : str) : str * option str :=
  let call_content := default call_content (strip_suffix_char call_content ">"%char) in
  match find call_content (lit "{") with
  | Some brace_pos => (trim (take brace_pos call_content), Some (drop brace_pos call_content))
  | None => (trim call_content, None)
  end.

Definition recovered_call (n : nat) (call_content : str) : ToolCall Json :=
  let '(name, args) := call_parts call_content in
  let args_value := match args with
                    | None => JObj []
                    | Some args => match from_str args with Ok v => v | Err _ => JObj [] end
                    end in
  mkCall (lit "groq_recovered_" ++ show_nat n) name args_value.

(** [None] is a tag that is not closed. *)
Fixpoint recovered_calls (fuel : nat) (remaining : str) (calls : list (ToolCall Json)) : option (list (ToolCall Json)) :=
  match fuel with
  | 0 => Some calls
  | S fuel =>
      match find remaining FUNCTION_OPEN with
      | None => Some calls
      | Some start =>
          let remaining := drop (start + length FUNCTION_OPEN) remaining in
          stop ← find remaining FUNCTION_CLOSE;
          recovered_calls fuel (drop (stop + length FUNCTION_CLOSE) remaining)
            (calls ++ [recovered_call (length calls) (take stop remaining)])
      end
  end.

Definition failed_generation (json_body : Json) : option str :=
  get json_body (lit "error") ≫= λ e, get e (lit "failed_generation") ≫= as_str.

Definition parse_groq_failed_tool_call (body : str) : option Response :=
  match from_str body with
  | Err _ => None
  | Ok json_body =>
      failed ← failed_generation json_body;
      tool_calls ← recovered_calls (S (length failed)) failed [];
      if bool_decide (length tool_calls = 0) then
        if is_empty (trim failed) then None
        else Some (mkResponse [TextBlock failed] EndTurn [] (mkUsage 0 0))
      else Some (mkResponse [] StopToolUse tool_calls (mkUsage 0 0))
  end.

(** ** Attempts *)

Definition with_max_tokens (q : OaiRequest) (n : Z) : OaiRequest :=
  mkOaiRequest (oai_model q) (oai_messages q) n (oai_temperature q) (oai_tools q) (oai_tool_choice q) (oai_stream q).

(** What to do with an answer that is not a success: return, send the request
    again after a delay, or at once with another limit on tokens. *)
Inductive Verdict : Type :=
| Final (r : result Response LlmError)
| Wait (ms : Z)
| Cap (n : Z).

Definition failed_verdict (last : bool) (attempt : nat) (q : OaiRequest) (status : Z) (body : str) : Verdict :=
  let capped := if (status =? 400)%Z && contains body (lit "max_tokens") && negb last
                then Cap (default (oai_max_tokens q / 2)%Z (extract_max_tokens_limit body))
                else Final (Err (Api status body)) in
  if (status =? 400)%Z && contains body (lit "tool_use_failed") then
    match parse_groq_failed_tool_call body with
    | Some response => Final (Ok response)
    | None => if last then capped else Wait (Z.of_nat (attempt + 1) * 1500)%Z
    end
  else capped.

Section attempts.
Context (finish : Reply → result Response LlmError * list Event) (server : nat → OaiRequest → result Reply str).

Fixpoint oai_attempts (remaining attempt : nat) (q : OaiRequest) : Driven OaiRequest :=
  match server attempt q with
  | Err e => mkDriven (Err (Http e)) [q] [] []
  | Ok resp =>
      let status := reply_status resp in
      if (status =? 429)%Z then
        match remaining with
        | S remaining => prepend q (Some (Z.of_nat (attempt + 1) * 2000)%Z) (oai_attempts remaining (attempt + 1) q)
        | 0 => mkDriven (Err (RateLimited 5000)) [q] [] []
        end
      else if is_success resp then let '(r, events) := finish resp in mkDriven r [q] [] events
      else
        let body := match reply_text resp with Ok body => body | Err _ => [] end in
        match failed_verdict (bool_decide (remaining = 0)) attempt q status body, remaining with
        | Final r, _ => mkDriven r [q] [] []
        | Wait ms, S remaining => prepend q (Some ms) (oai_attempts remaining (attempt + 1) q)
        | Cap n, S remaining => prepend q None (oai_attempts remaining (attempt + 1) (with_max_tokens q n))
        | _, 0 => mkDriven (Err (Api status body)) [q] [] []
        end
  end.
End attempts.

(** ** Responses *)

Record OaiChoice : Type := mkChoice {
  choice_content : option str;
  choice_tool_calls : option (list OaiToolCall);
  choice_finish : option str
}.

Record OaiResponse : Type := mkOaiResponse { choices : list OaiChoice; oai_usage : option TokenUsage }.

Definition tool_use_block (id name arguments : str) : ContentBlock Json := ToolUse id name (from_str_or_null arguments).
Definition tool_use_call (id name arguments : str) : ToolCall Json := mkCall id name (from_str_or_null arguments).

Definition text_blocks (text : str) : list (ContentBlock Json) := if is_empty text then [] else [TextBlock text].

Definition finish_reason_of (r : option str) (has_calls : bool) : StopReason :=
  match r with
  | Some r =>
      if str_eqb r (lit "stop") then EndTurn
      else if str_eqb r (lit "tool_calls") then StopToolUse
      else if str_eqb r (lit "length") then MaxTokens
      else if has_calls then StopToolUse else EndTurn
  | None => if has_calls then StopToolUse else EndTurn
  end.

Definition response_of (text : str) (calls : list (str * str * str)) (finish_reason : option str) (usage : TokenUsage) : Response :=
  mkResponse (text_blocks text ++ ((λ '(id, name, arguments), tool_use_block id name arguments) <$> calls))
    (finish_reason_of finish_reason (negb (bool_decide (length calls = 0))))
    ((λ '(id, name, arguments), tool_use_call id name arguments) <$> calls) usage.

Definition call_triple (c : OaiToolCall) : str * str * str := (oai_id c, oai_name c, oai_arguments c).

Definition convert_response (r : OaiResponse) : result Response LlmError :=
  match choices r with
  | [] => Err (Parse (lit "No choices in response"))
  | choice :: _ =>
      Ok (response_of (default [] (choice_content choice)) (call_triple <$> default [] (choice_tool_calls choice))
            (choice_finish choice) (default default_usage (oai_usage r)))
  end.

(** ** Streams *)

Record OaiAccum : Type := mkOaiAccum {
  text_content : str;
  tool_accum : list (str * str * str);
  finish_reason : option str;
  acc_usage : TokenUsage;
  acc_sent : list Event
}.

Definition oai_start : OaiAccum := mkOaiAccum [] [] None default_usage [].

Definition send (a : OaiAccum) (e : Event) : OaiAccum :=
  mkOaiAccum (text_content a) (tool_accum a) (finish_reason a) (acc_usage a) (acc_sent a ++ [e]).
Definition with_tools (a : OaiAccum) (t : list (str * str * str)) : OaiAccum :=
  mkOaiAccum (text_content a) t (finish_reason a) (acc_usage a) (acc_sent a).

Definition on_usage (a : OaiAccum) (json : Json) : OaiAccum :=
  match get json (lit "usage") with
  | Some u =>
      mkOaiAccum (text_content a) (tool_accum a) (finish_reason a)
        (mkUsage (default (input_tokens (acc_usage a)) (as_u64 (index u "prompt_tokens")))
           (default (output_tokens (acc_usage a)) (as_u64 (index u "completion_tokens")))) (acc_sent a)
  | None => a
  end.

Definition on_text (a : OaiAccum) (delta : Json) : OaiAccum :=
  match as_str (index delta "content") with
  | Some text =>
      if is_empty text then a
      else send (mkOaiAccum (text_content a ++ text) (tool_accum a) (finish_reason a) (acc_usage a) (acc_sent a)) (TextDelta text)
  | None => a
  end.

(** [while tool_accum.len() <= idx] *)
Definition ensure (idx : nat) (t : list (str * str * str)) : list (str * str * str) :=
  t ++ replicate (S idx - length t) ([], [], []).

Definition set_id (id : str) (c : str * str * str) : str * str * str := (id, c.1.2, c.2).
Definition set_name (name : str) (c : str * str * str) : str * str * str := (c.1.1, name, c.2).
Definition push_arguments (args : str) (c : str * str * str) : str * str * str := (c.1.1, c.1.2, c.2 ++ args).

Definition on_function_name (a : OaiAccum) (idx : nat) (func : Json) : OaiAccum :=
  match as_str (index func "name") with
  | Some name =>
      let a := with_tools a (alter (set_name name) idx (tool_accum a)) in
      send a (ToolUseStart (default [] ((λ c, c.1.1) <$> tool_accum a !! idx)) name)
  | None => a
  end.

Definition on_arguments (a : OaiAccum) (idx : nat) (func : Json) : OaiAccum :=
  match as_str (index func "arguments") with
  | Some args =>
      let a := with_tools a (alter (push_arguments args) idx (tool_accum a)) in
      if is_empty args then a else send a (ToolInputDelta args)
  | None => a
  end.

Definition on_call (a : OaiAccum) (call : Json) : OaiAccum :=
  let idx := Z.to_nat (default 0%Z (as_u64 (index call "index"))) in
  let a := with_tools a (ensure idx (tool_accum a)) in
  let a := match as_str (index call "id") with
           | Some id => with_tools a (alter (set_id id) idx (tool_accum a))
           | None => a
           end in
  match get call (lit "function") with
  | Some func => on_arguments (on_function_name a idx func) idx func
  | None => a
  end.

Definition on_choice (a : OaiAccum) (choice : Json) : OaiAccum :=
  let delta := index choice "delta" in
  let a := on_text a delta in
  let a := foldl on_call a (default [] (as_array (index delta "tool_calls"))) in
  match as_str (index choice "finish_reason") with
  | Some fr => mkOaiAccum (text_content a) (tool_accum a) (Some fr) (acc_usage a) (acc_sent a)
  | None => a
  end.

Definition on_json (a : OaiAccum) (json : Json) : OaiAccum :=
  foldl on_choice (on_usage a json) (default [] (as_array (index json "choices"))).

Definition parse_line (event : str) : option Json :=
  let line := trim_end event in
  if is_empty line || starts_with line (lit ":") then None
  else
    data ← strip_prefix line (lit "data: ");
    if str_eqb data (lit "[DONE]") then None
    else match from_str data with Ok json => Some json | Err _ => None end.

Definition on_line (a : OaiAccum) (event : str) : OaiAccum :=
  match parse_line event with Some json => on_json a json | None => a end.

Definition line_end : str := [newline].

Definition finish_stream (resp : Reply) : result Response LlmError * list Event :=
  match read_body line_end on_line oai_start (reply_chunks resp) with
  | (a, Some e) => (Err (Http e), acc_sent a)
  | (a, None) =>
      let r := response_of (text_content a) (tool_accum a) (finish_reason a) (acc_usage a) in
      (Ok r, acc_sent a ++ ((λ '(id, name, arguments), ToolUseEnd id name (from_str_or_null arguments)) <$> tool_accum a)
                        ++ [ContentComplete (stop_reason r) (acc_usage a)])
  end.

Context (parse_response : str → result OaiResponse str).

Definition finish_complete (resp : Reply) : result Response LlmError * list Event :=
  (match reply_text resp with
   | Err e => Err (Http e)
   | Ok body => match parse_response body with Err e => Err (Parse e) | Ok r => convert_response r end
   end, []).

Definition complete (server : nat → OaiRequest → result Reply str) (request : Request) : Driven OaiRequest :=
  oai_attempts finish_complete server max_retries 0 (oai_request false request).

Definition stream (server : nat → OaiRequest → result Reply str) (request : Request) : Driven OaiRequest :=
  oai_attempts finish_stream server max_retries 0 (oai_request true request).

(** ** What is sent of a history *)

Lemma concat_split {A B} (f : A → list B) l pre m post : concat (f <$> l) = pre ++ m :: post →
  ∃ i x p q, l !! i = Some x ∧ f x = p ++ m :: q ∧ post = q ++ concat (f <$> drop (S i) l).
Proof.
  revert pre. induction l as [|x l IH]; intros pre; [by destruct pre|]. rewrite fmap_cons. cbn [concat]. intros E.
  apply app_eq_inv in E as [(k & E1 & E2)|(k & -> & E2)].
  - destruct k as [|m' k].
    + destruct (IH [] (eq_sym E2)) as (i & y & p & q & Hi & Hf & Hq). by exists (S i), y, p, q.
    + injection E2 as <- ->. by exists 0, x, pre, k.
  - destruct (IH _ E2) as (i & y & p & q & Hi & Hf & Hq). by exists (S i), y, p, q.
Qed.

Definition is_tool (m : OaiMessage) : Prop := oai_role m = lit "tool".

Lemma tool_messages (blocks : list (ContentBlock Json)) : Forall is_tool (omap tool_message blocks).
Proof. induction blocks as [|b blocks IH]; [constructor|]. destruct b; cbn [omap list_omap tool_message]; by try constructor. Qed.

Lemma tool_messages_In (blocks : list (ContentBlock Json)) id : id ∈ omap tool_result_id blocks →
  ∃ t, t ∈ omap tool_message blocks ∧ oai_tool_call_id t = Some id.
Proof.
  rewrite list_elem_of_omap. intros (b & Hb & E). destruct b as [| | |tid content err| |]; try done. injection E as ->.
  eexists. split; [apply list_elem_of_omap; by exists (ToolResult id content err)|done].
Qed.

(** The tool messages come first. *)
Lemma user_converted streaming system msg : role msg = User → ∃ rest,
  convert_message streaming system msg = omap tool_message (blocks_of msg) ++ rest.
Proof.
  unfold convert_message, blocks_of. intros ->. destruct (content msg) as [t|blocks]; [by eexists|].
  destruct streaming; [exists []; by rewrite app_nil_r|]. by eexists.
Qed.

Lemma calls_converted streaming system msg p m q calls :
  convert_message streaming system msg = p ++ m :: q → oai_tool_calls m = Some calls →
  role msg = Assistant ∧ q = [] ∧ calls = omap oai_call (blocks_of msg).
Proof.
  assert (∀ l, Forall (λ m, oai_tool_calls m = None) l → l = p ++ m :: q → oai_tool_calls m = Some calls → False) as Hno.
  { intros l Hl -> Hc. apply Forall_app in Hl as [_ Hl]. inversion Hl. congruence. }
  assert (∀ bs : list (ContentBlock Json), Forall (λ m, oai_tool_calls m = None) (omap tool_message bs)) as Ht.
  { induction bs as [|b bs IH]; [constructor|]. destruct b; cbn [omap list_omap tool_message]; by try constructor. }
  assert (∀ bs, Forall (λ m, oai_tool_calls m = None) (user_blocks bs)) as Hu.
  { intros bs. unfold user_blocks. apply Forall_app. split; [apply Ht|]. destruct (_ && _); repeat constructor. }
  unfold convert_message, blocks_of. destruct (role msg), (content msg) as [t|blocks]; intros E Hc.
  - exfalso. destruct system; (eapply Hno; [|exact E|exact Hc]; repeat constructor).
  - by destruct p.
  - exfalso. eapply Hno; [|exact E|exact Hc]. repeat constructor.
  - exfalso. destruct streaming; [by apply (Hno _ (Ht blocks) E Hc)|by apply (Hno _ (Hu blocks) E Hc)].
  - exfalso. eapply Hno; [|exact E|exact Hc]. repeat constructor.
  - destruct p as [|? [|]]; [|done..]. injection E as <- <-. split_and!; [done..|]. unfold assistant_blocks in Hc. cbn in Hc.
    case_bool_decide; [done|]. by injection Hc.
Qed.

(** C10: In what is sent of a repaired history every tool call of the assistant is
    followed at once by the tool messages of the next message, one of which
    answers it, provided that before the repair tool results came in user
    messages only and the assistant used no id for two tool uses. *)
Theorem oai_calls_answered ms streaming system pre m post calls c :
  results_from_user ms → NoDup (assistant_use_ids ms) →
  concat (convert_message streaming system <$> validate_and_repair ms) = pre ++ m :: post →
  oai_tool_calls m = Some calls → c ∈ calls →
  ∃ tools rest, post = tools ++ rest ∧ Forall is_tool tools ∧ ∃ t, t ∈ tools ∧ oai_tool_call_id t = Some (oai_id c).
Proof.
  intros Hu Hd E Hc Hin. pose proof (repaired_answered ms Hu Hd) as Ha.
  destruct (concat_split _ _ _ _ _ E) as (i & x & p & q & Hi & Hf & ->).
  destruct (calls_converted _ _ _ _ _ _ _ Hf Hc) as (Hr & -> & ->).
  apply list_elem_of_omap in Hin as (b & Hb & Eb).
  destruct b as [| |id name input| | |]; try done. injection Eb as <-. cbn [oai_id].
  destruct (Ha i x id Hi Hr) as (m' & Hi' & Hr' & Hres).
  { unfold uses. apply list_elem_of_omap. by exists (ToolUse id name input). }
  destruct (user_converted streaming system m' Hr') as [rest Em].
  rewrite (drop_S _ _ _ Hi'), fmap_cons. cbn [concat app]. rewrite Em, <- app_assoc.
  eexists _, _. split; [done|]. split; [apply tool_messages|by apply tool_messages_In].
Qed.

(** What the blocks of a user message become: every tool result is sent, in
    order. Text and images are sent by [complete] only where there is no tool
    result, and never by [stream]. *)
Theorem oai_user_blocks (blocks : list (ContentBlock Json)) system :
  let results := omap tool_message blocks in
  let parts := omap content_part blocks in
  convert_message true system (mkMessage User (Blocks blocks)) = results ∧
  convert_message false system (mkMessage User (Blocks blocks)) =
    (if bool_decide (results = []) then if bool_decide (parts = []) then [] else [mkOaiMessage (lit "user") (Some (OaiParts parts)) None None]
     else results).
Proof.
  cbn zeta. split; [done|]. cbn [convert_message role content]. unfold user_blocks.
  case_bool_decide as E1; case_bool_decide as E2; rewrite ?E1, ?E2; cbn; by rewrite ?app_nil_r.
Qed.

(** ** Attempts *)

(** At most [n] requests, that differ from [q] in the limit on tokens only, and
    no delay longer than [t]. *)
Definition bounded_by (n : nat) (t : Z) (q : OaiRequest) (d : Driven OaiRequest) : Prop :=
  1 ≤ length (requests d) ≤ n ∧
  Forall (λ q', with_max_tokens q' (oai_max_tokens q) = q) (requests d) ∧
  Forall (λ ms, 0 ≤ ms ≤ t)%Z (slept d).

Lemma bounded_one n t q r events : 1 ≤ n → bounded_by n t q (mkDriven r [q] [] events).
Proof. intros Hn. unfold bounded_by. cbn. split_and!; [lia..| |constructor]. constructor; [by destruct q|constructor]. Qed.

Lemma bounded_prepend n t q limit delay d :
  bounded_by n t (with_max_tokens q limit) d → (∀ ms, delay = Some ms → 0 ≤ ms ≤ t)%Z →
  bounded_by (S n) t q (prepend q delay d).
Proof.
  unfold bounded_by, prepend. cbn [requests slept length]. intros (H1 & H2 & H3) Hd. split_and!; [lia..| |].
  - constructor; [by destruct q|]. eapply Forall_impl; [exact H2|]. intros q' E. destruct q, q'. cbn in *. injection E as -> -> -> -> -> ->. done.
  - destruct delay as [ms|]; cbn; [|done]. constructor; [by apply Hd|done].
Qed.

Lemma wait_bound last attempt q status body ms :
  failed_verdict last attempt q status body = Wait ms → (ms = Z.of_nat (attempt + 1) * 1500)%Z.
Proof. unfold failed_verdict. repeat case_match; naive_solver. Qed.

Lemma oai_attempts_bounded finish server remaining attempt q t :
  (2000 * Z.of_nat (attempt + remaining) ≤ t)%Z →
  bounded_by (S remaining) t q (oai_attempts finish server remaining attempt q).
Proof.
  revert attempt q. induction remaining as [|remaining IH]; intros attempt q Ht; cbn [oai_attempts].
  - destruct (server attempt q) as [resp|e]; [|apply bounded_one; lia]. destruct (_ =? 429)%Z; [apply bounded_one; lia|].
    destruct (is_success resp); [destruct (finish resp); apply bounded_one; lia|].
    destruct (failed_verdict _ _ _ _ _); apply bounded_one; lia.
  - assert (∀ q' delay limit, q' = with_max_tokens q limit → (∀ ms, delay = Some ms → 0 ≤ ms ≤ t)%Z →
      bounded_by (S (S remaining)) t q (prepend q delay (oai_attempts finish server remaining (attempt + 1) q'))) as Hnext.
    { intros q' delay limit -> Hd. eapply bounded_prepend; [|done]. apply IH. lia. }
    assert (with_max_tokens q (oai_max_tokens q) = q) as Hq by (by destruct q).
    destruct (server attempt q) as [resp|e]; [|apply bounded_one; lia].
    destruct (_ =? 429)%Z; [apply (Hnext q _ _ (eq_sym Hq)); intros ms [= <-]; lia|].
    destruct (is_success resp); [destruct (finish resp); apply bounded_one; lia|].
    destruct (failed_verdict _ _ _ _ _) as [r|ms|n] eqn:Ev; [apply bounded_one; lia| |].
    + apply (Hnext q _ _ (eq_sym Hq)). intros ms' [= <-]. apply wait_bound in Ev. lia.
    + by apply (Hnext _ _ n eq_refl).
Qed.

(** A call makes at most four requests, which differ in the limit on tokens
    only, and sleeps at most six seconds before each but the first. *)
Theorem oai_requests_bounded server request :
  bounded_by 4 6000 (oai_request false request) (complete server request) ∧
  bounded_by 4 6000 (oai_request true request) (stream server request).
Proof. split; by apply oai_attempts_bounded. Qed.

(** ** A streamed answer is the same answer *)

Definition no_usage (j : Json) : Prop :=
  as_u64 (index (index j "usage") "prompt_tokens") = None ∧ as_u64 (index (index j "usage") "completion_tokens") = None.

(** A chunk with one choice, and what it says. *)
Definition chunk_says (j : Json) (text : option str) (calls : option (list Json)) (fr : option str) : Prop :=
  no_usage j ∧ ∃ c, as_array (index j "choices") = Some [c] ∧ as_str (index (index c "delta") "content") = text ∧
    as_array (index (index c "delta") "tool_calls") = calls ∧ as_str (index c "finish_reason") = fr.

Definition text_chunk (piece : str) (j : Json) : Prop := chunk_says j (Some piece) None None.

Definition call_chunk (i : nat) (id name : option str) (args : str) (j : Json) : Prop :=
  ∃ call func, chunk_says j None (Some [call]) None ∧ as_u64 (index call "index") = Some (Z.of_nat i) ∧
    as_str (index call "id") = id ∧ get call (lit "function") = Some func ∧
    as_str (index func "name") = name ∧ as_str (index func "arguments") = Some args.

Definition finish_chunk (fr : str) (j : Json) : Prop := chunk_says j None None (Some fr).

Definition usage_chunk (u : TokenUsage) (j : Json) : Prop :=
  as_u64 (index (index j "usage") "prompt_tokens") = Some (input_tokens u) ∧
  as_u64 (index (index j "usage") "completion_tokens") = Some (output_tokens u) ∧ as_array (index j "choices") = Some [].

(** The chunks of the calls from number [i] on: the first one of a call has its
    id and its name, and its arguments come in any number of pieces. *)
Inductive calls_streamed : nat → list OaiToolCall → list Json → Prop :=
| no_calls i : calls_streamed i [] []
| next_call i id type name args pieces j js calls rest :
    call_chunk i (Some id) (Some name) args j → Forall2 (call_chunk i None None) pieces js →
    calls_streamed (S i) calls rest →
    calls_streamed i (mkOaiCall id type name (args ++ concat pieces) :: calls) (j :: js ++ rest).

Inductive oai_streamed : OaiResponse → list Json → Prop :=
| oai_streamed_intro text calls fr usage pieces tjs cjs fjs ujs :
    Forall2 text_chunk pieces tjs → text = concat pieces → calls_streamed 0 calls cjs →
    Forall2 finish_chunk (option_list fr) fjs → Forall2 usage_chunk (option_list usage) ujs →
    oai_streamed (mkOaiResponse [mkChoice (Some text) (Some calls) fr] usage) (tjs ++ cjs ++ fjs ++ ujs).

Lemma no_usage_kept a j : no_usage j → on_usage a j = a.
Proof.
  unfold no_usage, on_usage, index at 2 4. destruct (get j (lit "usage")) as [u|]; [|done]. cbn [from_option Datatypes.id].
  intros [-> ->]. by destruct a as [? ? ? []].
Qed.

Lemma says_effect a j text calls fr : chunk_says j text calls fr →
  ∃ c, on_json a j = on_choice a c ∧ as_str (index (index c "delta") "content") = text ∧
    as_array (index (index c "delta") "tool_calls") = calls ∧ as_str (index c "finish_reason") = fr.
Proof.
  intros (Hu & c & Ec & H1 & H2 & H3). exists c. unfold on_json. by rewrite no_usage_kept, Ec.
Qed.

Lemma texts_effect pieces js t tools fr u sent : Forall2 text_chunk pieces js →
  ∃ ev, foldl on_json (mkOaiAccum t tools fr u sent) js = mkOaiAccum (t ++ concat pieces) tools fr u (sent ++ ev).
Proof.
  intros Hp. revert t sent. induction Hp as [|p j pieces js Hj _ IH]; intros t sent.
  - exists []. by rewrite !app_nil_r.
  - cbn [foldl]. destruct (says_effect (mkOaiAccum t tools fr u sent) j _ _ _ Hj) as (c & -> & H1 & H2 & H3).
    unfold on_choice, on_text, send. rewrite H1, H2, H3. cbn [from_option Datatypes.id foldl concat]. rewrite app_assoc.
    destruct p as [|x p]; cbn [is_empty bool_decide text_content tool_accum finish_reason acc_usage acc_sent].
    + rewrite app_nil_r. apply IH.
    + destruct (IH (t ++ x :: p) (sent ++ [TextDelta (x :: p)])) as [ev ->]. exists (TextDelta (x :: p) :: ev). by rewrite <- (app_assoc sent).
Qed.

Lemma ensure_next (t : list (str * str * str)) : ensure (length t) t = t ++ [([], [], [])].
Proof. unfold ensure. by replace (S (length t) - length t) with 1 by lia. Qed.

Lemma ensure_last (t : list (str * str * str)) x : ensure (length t) (t ++ [x]) = t ++ [x].
Proof. unfold ensure. rewrite length_app. cbn [length]. replace (S (length t) - (length t + 1)) with 0 by lia. apply app_nil_r. Qed.

Lemma alter_last (f : str * str * str → str * str * str) t x : alter f (length t) (t ++ [x]) = t ++ [f x].
Proof. induction t as [|y t IH]; [done|]. cbn. by f_equal. Qed.

Lemma call_start t tools fr u sent id name args j : call_chunk (length tools) (Some id) (Some name) args j →
  ∃ ev, on_json (mkOaiAccum t tools fr u sent) j = mkOaiAccum t (tools ++ [(id, name, args)]) fr u (sent ++ ev).
Proof.
  intros (call & func & Hs & Hi & Hid & Hf & Hn & Ha).
  destruct (says_effect (mkOaiAccum t tools fr u sent) j _ _ _ Hs) as (c & -> & H1 & H2 & H3).
  unfold on_choice, on_text. rewrite H1, H2, H3. cbn [from_option Datatypes.id foldl]. unfold on_call, on_arguments, on_function_name.
  rewrite Hi, Hid, Hf, Hn, Ha. cbn [from_option Datatypes.id]. rewrite Nat2Z.id. cbn zeta.
  unfold with_tools, send; cbn [text_content tool_accum finish_reason acc_usage acc_sent].
  rewrite ensure_next, !alter_last. cbn [set_id set_name push_arguments fst snd app].
  destruct (is_empty args); cbn [text_content tool_accum finish_reason acc_usage acc_sent]; eexists; by rewrite <- ?app_assoc.
Qed.

Lemma call_more t tools fr u sent id name a args j : call_chunk (length tools) None None args j →
  ∃ ev, on_json (mkOaiAccum t (tools ++ [(id, name, a)]) fr u sent) j = mkOaiAccum t (tools ++ [(id, name, a ++ args)]) fr u (sent ++ ev).
Proof.
  intros (call & func & Hs & Hi & Hid & Hf & Hn & Ha).
  destruct (says_effect (mkOaiAccum t (tools ++ [(id, name, a)]) fr u sent) j _ _ _ Hs) as (c & -> & H1 & H2 & H3).
  unfold on_choice, on_text. rewrite H1, H2, H3. cbn [from_option Datatypes.id foldl]. unfold on_call, on_arguments, on_function_name.
  rewrite Hi, Hid, Hf, Hn, Ha. cbn [from_option Datatypes.id]. rewrite Nat2Z.id. cbn zeta.
  unfold with_tools, send; cbn [text_content tool_accum finish_reason acc_usage acc_sent].
  rewrite ensure_last, !alter_last. cbn [push_arguments fst snd].
  destruct (is_empty args); cbn [text_content tool_accum finish_reason acc_usage acc_sent]; [exists []; by rewrite app_nil_r|by eexists].
Qed.

Lemma calls_effect tools calls js t fr u sent : calls_streamed (length tools) calls js →
  ∃ ev, foldl on_json (mkOaiAccum t tools fr u sent) js = mkOaiAccum t (tools ++ (call_triple <$> calls)) fr u (sent ++ ev).
Proof.
  remember (length tools) as n eqn:En. intros Hc. revert tools sent En.
  induction Hc as [i|i id type name args pieces j js calls rest Hj Hp _ IH]; intros tools sent ->.
  - exists []. by rewrite !app_nil_r.
  - cbn [foldl]. destruct (call_start t tools fr u sent id name args j Hj) as [ev ->]. rewrite foldl_app.
    assert (∀ a sent, ∃ ev, foldl on_json (mkOaiAccum t (tools ++ [(id, name, a)]) fr u sent) js =
      mkOaiAccum t (tools ++ [(id, name, a ++ concat pieces)]) fr u (sent ++ ev)) as Hmore.
    { clear -Hp. induction Hp as [|p j pieces js Hj _ IHp]; intros a sent; [exists []; by rewrite !app_nil_r|].
      cbn [foldl concat]. destruct (call_more t tools fr u sent id name a p j Hj) as [ev ->].
      destruct (IHp (a ++ p) (sent ++ ev)) as [ev' ->]. exists (ev ++ ev'). by rewrite <- !app_assoc. }
    destruct (Hmore args (sent ++ ev)) as [ev' ->].
    destruct (IH (tools ++ [(id, name, args ++ concat pieces)]) ((sent ++ ev) ++ ev')) as [ev'' ->].
    { rewrite length_app. cbn. lia. }
    exists (ev ++ ev' ++ ev''). rewrite fmap_cons. cbn [call_triple oai_id oai_name oai_arguments]. by rewrite <- !app_assoc.
Qed.

Lemma finish_effect t tools u sent fr fjs : Forall2 finish_chunk (option_list fr) fjs →
  foldl on_json (mkOaiAccum t tools None u sent) fjs = mkOaiAccum t tools fr u sent.
Proof.
  destruct fr as [fr|]; cbn [option_list]; intros Hf; inversion Hf as [|? j ? ? Hj Hn]; subst; [|done].
  inversion Hn; subst. cbn [foldl].
  destruct (says_effect (mkOaiAccum t tools None u sent) j _ _ _ Hj) as (c & -> & H1 & H2 & H3).
  unfold on_choice, on_text. by rewrite H1, H2, H3.
Qed.

Lemma usage_effect t tools fr sent u ujs : Forall2 usage_chunk (option_list u) ujs →
  foldl on_json (mkOaiAccum t tools fr default_usage sent) ujs = mkOaiAccum t tools fr (default default_usage u) sent.
Proof.
  destruct u as [u|]; cbn [option_list]; intros Hf; inversion Hf as [|? j ? ? Hj Hn]; subst; [|done].
  inversion Hn; subst. cbn [foldl]. destruct Hj as (H1 & H2 & H3). unfold on_json. rewrite H3. cbn [from_option Datatypes.id foldl].
  unfold on_usage. unfold index at 2 in H1. unfold index at 2 in H2.
  destruct (get j (lit "usage")) as [v|]; [|done]. cbn [from_option Datatypes.id] in *. rewrite H1, H2. by destruct u.
Qed.

Lemma on_lines a texts : foldl on_line a texts = foldl on_json a (omap parse_line texts).
Proof.
  revert a. induction texts as [|t texts IH]; intros a; [done|]. cbn [foldl omap list_omap]. unfold on_line at 2.
  destruct (parse_line t); cbn [foldl]; apply IH.
Qed.

Definition oai_streams (r : OaiResponse) (chunks : list (result str str)) : Prop :=
  ∃ pieces texts, chunks = Ok <$> pieces ∧ Forall valid_utf8 pieces ∧ Forall (frameable line_end) texts ∧
    concat pieces = concat ((λ e, e ++ line_end) <$> texts) ∧ oai_streamed r (omap parse_line texts).

Lemma oai_finish_streamed r resp : oai_streams r (reply_chunks resp) → (finish_stream resp).1 = convert_response r.
Proof.
  intros (pieces & texts & Ec & Hp & Ht & E & Hs). unfold finish_stream. rewrite Ec.
  rewrite (read_body_framed line_end ltac:(done) on_line oai_start pieces texts Hp Ht E), on_lines.
  destruct Hs as [text calls fr usage ps tjs cjs fjs ujs Hps -> Hc Hf Hu]. rewrite !foldl_app. unfold oai_start.
  destruct (texts_effect ps tjs [] [] None default_usage [] Hps) as [ev ->].
  destruct (calls_effect [] calls cjs ([] ++ concat ps) None default_usage ([] ++ ev) Hc) as [ev' ->].
  rewrite (finish_effect _ _ _ _ _ _ Hf), (usage_effect _ _ _ _ _ _ Hu). done.
Qed.

(** ** Both calls together *)

Definition same_course (d d' : Driven OaiRequest) : Prop :=
  outcome d = outcome d' ∧ slept d = slept d' ∧ length (requests d) = length (requests d').

Lemma same_prepend q q' delay d d' : same_course d d' → same_course (prepend q delay d) (prepend q' delay d').
Proof. intros (E1 & E2 & E3). unfold same_course. cbn [prepend outcome slept requests length]. by rewrite E1, E2, E3. Qed.

Lemma verdict_same last attempt q q' status body : oai_max_tokens q = oai_max_tokens q' →
  failed_verdict last attempt q status body = failed_verdict last attempt q' status body.
Proof. unfold failed_verdict. by intros ->. Qed.

Lemma oai_attempts_alike finish finish' server server' remaining attempt q q' :
  oai_max_tokens q = oai_max_tokens q' →
  (∀ n limit, alike finish finish' (server n (with_max_tokens q limit)) (server' n (with_max_tokens q' limit))) →
  same_course (oai_attempts finish server remaining attempt q) (oai_attempts finish' server' remaining attempt q').
Proof.
  revert attempt q q'. induction remaining as [|remaining IH]; intros attempt q q' Hm Ha;
    pose proof (Ha attempt (oai_max_tokens q)) as Hn;
    replace (with_max_tokens q (oai_max_tokens q)) with q in Hn by (by destruct q); rewrite Hm in Hn;
    replace (with_max_tokens q' (oai_max_tokens q')) with q' in Hn by (by destruct q');
    cbn [oai_attempts]; destruct (server attempt q) as [a|e], (server' attempt q') as [b|e']; cbn [related] in Hn; try done; try (by subst);
    destruct Hn as [Hs Hf]; rewrite <- Hs;
    assert (is_success b = is_success a) as Hb by (unfold is_success; by rewrite Hs);
    (destruct (_ =? 429)%Z; [try done|rewrite Hb; destruct (is_success a);
      [by destruct (finish a), (finish' b); cbn [fst] in Hf; subst|rewrite <- Hf, (verdict_same _ _ q q') by done;
       destruct (failed_verdict _ _ _ _ _) as [r|ms|n]; try done]]); apply same_prepend, IH; try done.
Qed.

(** What the two servers answer: the same, a response in one piece or as a
    stream. *)
Definition oai_same_answer (a b : result Reply str) : Prop :=
  match a, b with
  | Ok a, Ok b =>
      reply_status a = reply_status b ∧
      if is_success a then ∃ body r, reply_text a = Ok body ∧ parse_response body = Ok r ∧ oai_streams r (reply_chunks b)
      else reply_text a = reply_text b
  | Err e, Err e' => e = e'
  | _, _ => False
  end.

(** A streaming call returns what a call without a stream returns for the same
    answers of the server, however a response is cut, as long as no character
    is; and it makes as many requests and sleeps as long. *)
Theorem oai_stream_equivalent server server' request :
  (∀ n limit, oai_same_answer (server n (with_max_tokens (oai_request false request) limit))
                (server' n (with_max_tokens (oai_request true request) limit))) →
  outcome (stream server' request) = outcome (complete server request) ∧
  slept (stream server' request) = slept (complete server request).
Proof.
  intros Ha. unfold stream, complete.
  destruct (oai_attempts_alike finish_complete finish_stream server server' max_retries 0
              (oai_request false request) (oai_request true request)) as (-> & -> & _); [done| |done].
  intros n limit. specialize (Ha n limit). unfold oai_same_answer, related in *.
  destruct (server n _) as [a|e], (server' n _) as [b|e']; try done. destruct Ha as [Hs Hr]. split; [done|].
  destruct (is_success a); [|done]. destruct Hr as (body & r & Et & Ep & Hst).
  rewrite (oai_finish_streamed r b Hst). unfold finish_complete. cbn [fst]. by rewrite Et, Ep.
Qed.

(** ** Calls recovered from an error *)

Definition show_call (c : str * str) : str := FUNCTION_OPEN ++ c.1 ++ c.2 ++ lit ">" ++ FUNCTION_CLOSE.

(** A call as models write it: a name, and arguments that are an object. *)
Definition call_ok (c : str * str) (v : Json) : Prop :=
  "<"%char ∉ c.1 ++ c.2 ∧ "{"%char ∉ c.1 ∧ trim c.1 = c.1 ∧ from_str c.2 = Ok v ∧ ∃ t, c.2 = "{"%char :: t.

Definition numbered (n : nat) (calls : list (str * str)) (values : list Json) : list (ToolCall Json) :=
  zip_with (λ k '(c, v), mkCall (lit "groq_recovered_" ++ show_nat k) c.1 v) (seq n (length calls)) (zip calls values).

Lemma recovered_call_ok n c v : call_ok c v → recovered_call n (c.1 ++ c.2 ++ lit ">") = mkCall (lit "groq_recovered_" ++ show_nat n) c.1 v.
Proof.
  destruct c as [name args]. intros (_ & Hb & Ht & Hv & t & E). cbn [fst snd] in *.
  unfold recovered_call, call_parts.
  assert (strip_suffix_char (name ++ args ++ lit ">") ">"%char = Some (name ++ args)) as ->.
  { rewrite app_assoc. unfold strip_suffix_char. change (lit ">") with [">"%char]. rewrite last_snoc. cbn.
    rewrite length_app. cbn [length]. replace (length (name ++ args) + 1 - 1) with (length (name ++ args)) by lia. by rewrite take_app_length. }
  cbn [from_option Datatypes.id].
  assert (find (name ++ args) (lit "{") = Some (length name)) as ->.
  { subst args. change ("{"%char :: t) with (lit "{" ++ t). apply (find_tag "{"%char []); [apply not_elem_of_nil|].
    apply (contains_absent "{"%char); [done|by left]. }
  by rewrite take_app_length, drop_app_length, Ht, Hv.
Qed.

Lemma recovered_calls_shown fuel calls values acc : Forall2 call_ok calls values → length calls < fuel →
  recovered_calls fuel (concat (show_call <$> calls)) acc = Some (acc ++ numbered (length acc) calls values).
Proof.
  intros Hc. revert fuel acc. induction Hc as [|c v calls values Hok _ IH]; intros fuel acc Hl.
  - destruct fuel; cbn; by rewrite app_nil_r.
  - destruct fuel as [|fuel]; [cbn in Hl; lia|]. rewrite fmap_cons. cbn [concat recovered_calls].
    set (rest := concat (show_call <$> calls)). unfold show_call. rewrite <- !app_assoc, find_here. change (0 + length FUNCTION_OPEN) with (length FUNCTION_OPEN). rewrite drop_app_length.
    assert (find (c.1 ++ c.2 ++ lit ">" ++ FUNCTION_CLOSE ++ rest) FUNCTION_CLOSE =
            Some (length (c.1 ++ c.2 ++ lit ">"))) as E.
    { rewrite (app_assoc c.2), (app_assoc c.1). apply (find_tag "<"%char (tail FUNCTION_CLOSE)); [by apply not_in_literal|].
      apply (contains_absent "<"%char); [|by left]. destruct Hok as (Hn & _). rewrite app_assoc, elem_of_app.
      intros [?|Hg]; [done|]. by apply list_elem_of_singleton in Hg. }
    rewrite E. cbn [mbind option_bind].
    replace (c.1 ++ c.2 ++ lit ">" ++ FUNCTION_CLOSE ++ rest) with ((c.1 ++ c.2 ++ lit ">") ++ FUNCTION_CLOSE ++ rest)
      by (by rewrite <- !app_assoc).
    rewrite take_app_length, drop_past. subst rest. rewrite (recovered_call_ok _ c v Hok), IH by (cbn in Hl; lia).
    rewrite length_app. cbn [length numbered seq zip zip_with]. rewrite <- app_assoc, Nat.add_1_r. done.
Qed.

(** The calls that Groq refused are recovered in order, but in the list of
    calls only: the content of the response, which the agent loop keeps as the
    assistant's message, is empty. *)
Theorem groq_calls_recovered body json calls values :
  from_str body = Ok json → failed_generation json = Some (concat (show_call <$> calls)) →
  Forall2 call_ok calls values → calls ≠ [] →
  parse_groq_failed_tool_call body = Some (mkResponse [] StopToolUse (numbered 0 calls values) (mkUsage 0 0)).
Proof.
  intros Hb Hf Hc Hn. unfold parse_groq_failed_tool_call. rewrite Hb, Hf. cbn [mbind option_bind].
  rewrite (recovered_calls_shown _ calls values [] Hc). 2: {
    clear -Hc. induction Hc as [|c v calls values Hok _ IH]; [cbn; lia|]. rewrite fmap_cons. cbn [concat length].
    rewrite length_app. unfold show_call at 1. rewrite !length_app. cbn [FUNCTION_OPEN] in *. cbn. lia. }
  cbn [mbind option_bind app length]. rewrite bool_decide_eq_false_2; [done|].
  destruct Hc; [done|]. unfold numbered. cbn. done.
Qed.
End driver.

(** ** Concrete runs *)

Definition obj (fields : list (string * Json)) : Json := JObj ((λ f, (lit f.1, f.2)) <$> fields).
Definition txt (s : string) : Json := JStr (lit s).
Definition demo_chunk (delta : list (string * Json)) (finish : Json) : Json :=
  obj [("choices", JArr [obj [("delta", obj delta); ("finish_reason", finish)]])].
Definition demo_call (fields func : list (string * Json)) : Json :=
  demo_chunk [("tool_calls", JArr [obj ([("index", JNum 0)] ++ fields ++ [("function", obj func)])])] JNull.

Definition demo_failure : string := "<function=sum{}></function>".

Definition demo_data : list (string * Json) :=
  [("0", demo_chunk [("content", txt "He")] JNull);
   ("1", demo_chunk [("content", txt "llo")] JNull);
   ("2", demo_call [("id", txt "c1")] [("name", txt "sum"); ("arguments", txt "")]);
   ("3", demo_call [] [("arguments", txt "[1")]);
   ("4", demo_call [] [("arguments", txt "]")]);
   ("5", demo_chunk [] (txt "tool_calls"));
   ("6", obj [("choices", JArr []); ("usage", obj [("prompt_tokens", JNum 5); ("completion_tokens", JNum 3)])]);
   ("[1]", JArr [JNum 1]);
   ("{}", JObj []);
   ("tool_use_failed", obj [("error", obj [("failed_generation", txt demo_failure)])])].

Definition demo_from_str (s : str) : result Json str :=
  match List.find (λ d, str_eqb (lit d.1) s) demo_data with Some d => Ok d.2 | None => Err (lit "expected value") end.

#[local] Instance demo_json : JsonText := {| to_string _ := lit "{}"; from_str := demo_from_str; from_str_empty := eq_refl |}.

Definition demo_texts : list str :=
  (λ n, lit "data: " ++ lit n) <$> ["0"; "1"; "2"; "3"; "4"; "5"; "6"; "[DONE]"].

Definition demo_body : str := concat ((λ e, e ++ line_end) <$> demo_texts).
Definition demo_chunks : list str := [take 9 demo_body; drop 9 demo_body].

Definition demo_response : OaiResponse :=
  mkOaiResponse [mkChoice (Some (lit "Hello")) (Some [mkOaiCall (lit "c1") (lit "function") (lit "sum") (lit "[1]")]) (Some (lit "tool_calls"))]
    (Some (mkUsage 5 3)).

Definition demo_parse (_ : str) : result OaiResponse str := Ok demo_response.

Definition demo_request : Request := mkRequest (lit "llama") [mkMessage User (Text (lit "Hi"))] [] 9000 (SpecFloat.S754_zero false) None None.

(** A server that takes at most 8192 tokens. *)
Definition demo_server (streaming : bool) (n : nat) (q : OaiRequest) : result Reply str :=
  if (8192 <? oai_max_tokens q)%Z
  then Ok (mkReply 400 (Ok (lit "max_tokens must be less than or equal to `8192`")) [])
  else Ok (mkReply 200 (Ok []) (Ok <$> demo_chunks)).

Lemma oai_demo_streams : oai_streams demo_response (Ok <$> demo_chunks).
Proof.
  exists demo_chunks, demo_texts. split; [done|]. split; [repeat constructor; apply is_valid_utf8_ok; vm_compute; reflexivity|].
  split; [repeat constructor; vm_compute; reflexivity|]. split; [vm_compute; reflexivity|].
  apply (oai_streamed_intro (lit "Hello") [mkOaiCall (lit "c1") (lit "function") (lit "sum") (lit "[1]")] (Some (lit "tool_calls")) (Some (mkUsage 5 3))
    [lit "He"; lit "llo"]
    [demo_chunk [("content", txt "He")] JNull; demo_chunk [("content", txt "llo")] JNull]
    [demo_call [("id", txt "c1")] [("name", txt "sum"); ("arguments", txt "")]; demo_call [] [("arguments", txt "[1")]; demo_call [] [("arguments", txt "]")]]
    [demo_chunk [] (txt "tool_calls")] [obj [("choices", JArr []); ("usage", obj [("prompt_tokens", JNum 5); ("completion_tokens", JNum 3)])]]).
  - repeat constructor; eexists; by split_and!.
  - reflexivity.
  - apply (next_call 0 (lit "c1") (lit "function") (lit "sum") [] [lit "[1"; lit "]"] _ [_; _] [] []); [| |constructor].
    + eexists _, _. split; [split; [done|eexists; by split_and!]|by split_and!].
    + repeat constructor; eexists _, _; (split; [split; [done|eexists; by split_and!]|by split_and!]).
  - repeat constructor. eexists. by split_and!.
  - repeat constructor.
Qed.

Lemma oai_stream_equivalent_witness :
  is_ok (outcome (stream (demo_server true) demo_request)) = true ∧
  outcome (stream (demo_server true) demo_request) = outcome (complete demo_parse (demo_server false) demo_request).
Proof.
  destruct (oai_stream_equivalent demo_parse (demo_server false) (demo_server true) demo_request) as [E _].
  - intros n limit. unfold demo_server. cbn [oai_max_tokens with_max_tokens]. destruct (8192 <? limit)%Z; split; [done..|].
    exists [], demo_response. split_and!; [done..|apply oai_demo_streams].
  - split; [|exact E]. rewrite E. reflexivity.
Defined.

Definition demo_history : list (Message Json) :=
  [mkMessage User (Text (lit "What is the sum?")); mkMessage Assistant (Blocks [ToolUse (lit "c1") (lit "sum") (JObj [])]);
   mkMessage User (Blocks [ToolResult (lit "c1") (lit "3") false]); mkMessage User (Text (lit "And the product?"))].

Lemma oai_calls_answered_witness :
  ∃ tools rest, (tools ++ rest = [mkOaiMessage (lit "tool") (Some (OaiText (lit "3"))) None (Some (lit "c1"))]) ∧
    ∃ t, t ∈ tools ∧ oai_tool_call_id t = Some (lit "c1").
Proof.
  destruct (oai_calls_answered demo_history false None [plain (lit "user") (lit "What is the sum?")]
    (mkOaiMessage (lit "assistant") None (Some [mkOaiCall (lit "c1") (lit "function") (lit "sum") (lit "{}")]) None)
    [mkOaiMessage (lit "tool") (Some (OaiText (lit "3"))) None (Some (lit "c1"))]
    [mkOaiCall (lit "c1") (lit "function") (lit "sum") (lit "{}")] (mkOaiCall (lit "c1") (lit "function") (lit "sum") (lit "{}")))
    as (tools & rest & E & _ & Ht).
  - intros m i Hm Hr. unfold demo_history in Hm. rewrite !elem_of_cons in Hm.
    destruct Hm as [->|[->|[->|[->|Hm]]]]; [done|by intros ?%elem_of_nil|done|done|by apply elem_of_nil in Hm].
  - vm_compute. constructor; [by intros ?%elem_of_nil|constructor].
  - vm_compute. reflexivity.
  - reflexivity.
  - apply list_elem_of_singleton. reflexivity.
  - exists tools, rest. split; [by rewrite E|exact Ht].
Defined.

(** The second question of the history is in nothing that is sent: repairing
    the session merges it with the result of the tool. *)
Example question_dropped :
  concat (convert_message false None <$> validate_and_repair demo_history) =
  [plain (lit "user") (lit "What is the sum?");
   mkOaiMessage (lit "assistant") None (Some [mkOaiCall (lit "c1") (lit "function") (lit "sum") (lit "{}")]) None;
   mkOaiMessage (lit "tool") (Some (OaiText (lit "3"))) None (Some (lit "c1"))].
Proof. vm_compute. reflexivity. Qed.

Lemma groq_calls_recovered_witness :
  parse_groq_failed_tool_call (lit "tool_use_failed") =
  Some (mkResponse [] StopToolUse [mkCall (lit "groq_recovered_0") (lit "sum") (JObj [])] (mkUsage 0 0)).
Proof.
  refine (groq_calls_recovered (lit "tool_use_failed") (obj [("error", obj [("failed_generation", txt demo_failure)])])
            [(lit "sum", lit "{}")] [JObj []] eq_refl eq_refl _ _); [|done].
  constructor; [|constructor]. split_and!.
  - refine (bool_decide_unpack _ _). vm_compute. exact I.
  - refine (bool_decide_unpack _ _). vm_compute. exact I.
  - reflexivity.
  - reflexivity.
  - by exists (lit "}").
Defined.

(** A recovered answer is returned by a streaming call, but nothing of it is
    sent to the channel. *)
Example recovered_not_streamed :
  let d := stream (λ _ _, Ok (mkReply 400 (Ok (lit "tool_use_failed")) [])) demo_request in
  is_ok (outcome d) = true ∧ sent_events d = [].
Proof. vm_compute. split; reflexivity. Qed.

