(* ===== verification/GeminiDriver.v ===== *)
(** * The driver of the Gemini API

    [openfang-runtime/src/drivers/gemini.rs]. The API has no ids for calls of
    functions, so the driver makes them up; the parsers that serde derives are
    parameters. *)

From Stdlib Require Import Ascii ZArith Lia.
From stdpp Require Import base gmap strings list.
From S2P Require Import Prelude Strs TextLines Json ToolSchema Message ContextWindow TextToolCalls AgentQuota ProviderCall AgentLoop DriverHttp.

(** ** Requests *)

Inductive GeminiPart : Type :=
| GText (text : str)
| GInlineData (mime_type data : str)
| GFunctionCall (name : str) (args : Json)
| GFunctionResponse (name : str) (response : Json).

Record GeminiContent : Type := mkContent { g_role : option str; g_parts : list GeminiPart }.

Record GeminiFunctionDeclaration : Type := mkDeclaration { decl_name : str; decl_description : str; decl_parameters : Json }.

Record GenerationConfig : Type := mkGeneration { g_temperature : option SpecFloat.spec_float; max_output_tokens : option Z }.

(** [g_url_model] is not in the body, but in the address of the request. *)
Record GeminiRequest : Type := mkGeminiRequest {
  g_url_model : str;
  g_url_stream : bool;
  g_contents : list GeminiContent;
  system_instruction : option GeminiContent;
  g_tools : list (list GeminiFunctionDeclaration);
  generation_config : option GenerationConfig
}.

Definition convert_part (b : ContentBlock Json) : option GeminiPart :=
  match b with
  | TextBlock text => Some (GText text)
  | ToolUse _ name input => Some (GFunctionCall name input)
  | Image media_type data => Some (GInlineData media_type data)
  | ToolResult _ content _ => Some (GFunctionResponse [] (JObj [(lit "result", JStr content)]))
  | Thinking _ | Unknown => None
  end.

Definition message_parts (msg : Message Json) : list GeminiPart :=
  match content msg with Text text => [GText text] | Blocks blocks => omap convert_part blocks end.

Definition convert_message (msg : Message Json) : option GeminiContent :=
  let content role :=
    let parts := message_parts msg in
    if bool_decide (length parts = 0) then None else Some (mkContent (Some role) parts) in
  match role msg with
  | System => None
  | User => content (lit "user")
  | Assistant => content (lit "model")
  end.

Definition system_text (msg : Message Json) : option str :=
  match role msg, content msg with System, Text t => Some t | _, _ => None end.

Definition extract_system (messages : list (Message Json)) (system : option str) : option GeminiContent :=
  (λ text, mkContent None [GText text]) <$>
    match system with Some s => Some s | None => head (omap system_text messages) end.

Definition convert_messages (messages : list (Message Json)) (system : option str) : list GeminiContent * option GeminiContent :=
  (omap convert_message messages, extract_system messages system).

Definition convert_tools (request : Request) : list (list GeminiFunctionDeclaration) :=
  match req_tools request with
  | [] => []
  | tools => [(λ t, mkDeclaration (tool_name t) (description t)
                      (normalize_schema_for_provider (input_schema t) (lit "gemini"))) <$> tools]
  end.

Definition gemini_request (request : Request) (streaming : bool) : GeminiRequest :=
  let '(contents, system) := convert_messages (req_messages request) (req_system request) in
  mkGeminiRequest (req_model request) streaming contents system (convert_tools request)
    (Some (mkGeneration (Some (req_temperature request)) (Some (req_max_tokens request)))).

(** ** Responses *)

Record GeminiCandidate : Type := mkCandidate { cand_content : option GeminiContent; cand_finish : option str }.

Record GeminiResponse : Type := mkGeminiResponse { candidates : list GeminiCandidate; usage_metadata : option TokenUsage }.

Definition candidate_parts (c : GeminiCandidate) : list GeminiPart :=
  match cand_content c with Some content => g_parts content | None => [] end.

Section driver.
Context `{JsonText} (new_uuid : nat → str).
Context (parse_gemini : str → result GeminiResponse str) (parse_error : str → option str).

Definition new_call_id (n : nat) : str := lit "call_" ++ new_uuid n.

(** The blocks and calls of the parts, when [n] ids were made before. *)
Fixpoint convert_parts (n : nat) (parts : list GeminiPart) : list (ContentBlock Json) * list (ToolCall Json) :=
  match parts with
  | [] => ([], [])
  | GText text :: parts =>
      let '(blocks, calls) := convert_parts n parts in
      (if is_empty text then blocks else TextBlock text :: blocks, calls)
  | GFunctionCall name args :: parts =>
      let '(blocks, calls) := convert_parts (S n) parts in
      (ToolUse (new_call_id n) name args :: blocks, mkCall (new_call_id n) name args :: calls)
  | GInlineData _ _ :: parts | GFunctionResponse _ _ :: parts => convert_parts n parts
  end.

Definition is_reason (r : option str) (s : string) : bool := match r with Some r => str_eqb r (lit s) | None => false end.

Definition convert_response (resp : GeminiResponse) : result Response LlmError :=
  match candidates resp with
  | [] => Err (Parse (lit "No candidates in Gemini response"))
  | candidate :: _ =>
      let '(content, tool_calls) := convert_parts 0 (candidate_parts candidate) in
      let stop := if negb (bool_decide (length tool_calls = 0)) then StopToolUse
                  else if is_reason (cand_finish candidate) "MAX_TOKENS" then MaxTokens else EndTurn in
      Ok (mkResponse content stop tool_calls (default default_usage (usage_metadata resp)))
  end.

(** ** Streams *)

Record GAccum : Type := mkGAccum {
  g_text : str;
  fn_calls : list (str * Json);
  g_finish : option str;
  g_usage : TokenUsage;
  g_sent : list Event;
  ids_made : nat
}.

Definition g_start : GAccum := mkGAccum [] [] None default_usage [] 0.

Definition on_part (a : GAccum) (p : GeminiPart) : GAccum :=
  match p with
  | GText text =>
      if is_empty text then a
      else mkGAccum (g_text a ++ text) (fn_calls a) (g_finish a) (g_usage a) (g_sent a ++ [TextDelta text]) (ids_made a)
  | GFunctionCall name args =>
      let id := new_call_id (ids_made a) in
      mkGAccum (g_text a) (fn_calls a ++ [(name, args)]) (g_finish a) (g_usage a)
        (g_sent a ++ [ToolUseStart id name; ToolInputDelta (to_string args); ToolUseEnd id name args]) (S (ids_made a))
  | GInlineData _ _ | GFunctionResponse _ _ => a
  end.

Definition on_candidate (a : GAccum) (c : GeminiCandidate) : GAccum :=
  foldl on_part
    (match cand_finish c with
     | Some fr => mkGAccum (g_text a) (fn_calls a) (Some fr) (g_usage a) (g_sent a) (ids_made a)
     | None => a
     end) (candidate_parts c).

Definition on_response (a : GAccum) (r : GeminiResponse) : GAccum :=
  foldl on_candidate
    (match usage_metadata r with
     | Some u => mkGAccum (g_text a) (fn_calls a) (g_finish a) u (g_sent a) (ids_made a)
     | None => a
     end) (candidates r).

(** The first line of an event with data. *)
Definition event_data (event_text : str) : str :=
  default [] (head (omap (λ line, strip_prefix line (lit "data: ")) (lines event_text))).

Definition parse_event (event_text : str) : option GeminiResponse :=
  let data := event_data event_text in
  if is_empty data then None else match parse_gemini data with Ok r => Some r | Err _ => None end.

Definition on_event_text (a : GAccum) (event_text : str) : GAccum :=
  match parse_event event_text with Some r => on_response a r | None => a end.

Definition accum_response (a : GAccum) : Response :=
  let calls := imap (λ k '(name, args), mkCall (new_call_id (ids_made a + k)) name args) (fn_calls a) in
  let stop := if is_reason (g_finish a) "STOP" then EndTurn
              else if is_reason (g_finish a) "MAX_TOKENS" then MaxTokens
              else if is_reason (g_finish a) "SAFETY" then EndTurn
              else if negb (bool_decide (length calls = 0)) then StopToolUse else EndTurn in
  mkResponse ((if is_empty (g_text a) then [] else [TextBlock (g_text a)])
              ++ ((λ c, ToolUse (call_id c) (call_name c) (call_input c)) <$> calls)) stop calls (g_usage a).

Definition event_end : str := [newline; newline].

Definition finish_stream (resp : Reply) : result Response LlmError * list Event :=
  match read_body event_end on_event_text g_start (reply_chunks resp) with
  | (a, Some e) => (Err (Http e), g_sent a)
  | (a, None) => (Ok (accum_response a), g_sent a ++ [ContentComplete (stop_reason (accum_response a)) (g_usage a)])
  end.

Definition finish_complete (resp : Reply) : result Response LlmError * list Event :=
  (match reply_text resp with
   | Err e => Err (Http e)
   | Ok body => match parse_gemini body with Err e => Err (Parse e) | Ok r => convert_response r end
   end, []).

Definition complete (server : nat → GeminiRequest → result Reply str) (request : Request) : Driven GeminiRequest :=
  attempts server 503 parse_error finish_complete max_retries 0 (gemini_request request false).

Definition stream (server : nat → GeminiRequest → result Reply str) (request : Request) : Driven GeminiRequest :=
  attempts server 503 parse_error finish_stream max_retries 0 (gemini_request request true).

(** ** Streaming and not *)

Definition part_text (p : GeminiPart) : option str := match p with GText t => Some t | _ => None end.
Definition part_call (p : GeminiPart) : option (str * Json) := match p with GFunctionCall name args => Some (name, args) | _ => None end.
Definition call_of (c : ToolCall Json) : str * Json := (call_name c, call_input c).

Lemma parts_effect a parts : ∃ ev k,
  foldl on_part a parts =
  mkGAccum (g_text a ++ concat (omap part_text parts)) (fn_calls a ++ omap part_call parts) (g_finish a) (g_usage a) (g_sent a ++ ev) k.
Proof.
  revert a. induction parts as [|p parts IH]; intros a.
  - exists [], (ids_made a). cbn. rewrite !app_nil_r. by destruct a.
  - cbn [foldl]. destruct (IH (on_part a p)) as (ev & k & ->).
    destruct p as [t|m d|name args|name r]; cbn [on_part omap list_omap part_text part_call concat].
    + destruct t as [|x t]; cbn [is_empty g_text fn_calls g_finish g_usage g_sent]; [by exists ev, k|].
      exists (TextDelta (x :: t) :: ev), k. by rewrite <- !app_assoc.
    + by exists ev, k.
    + cbn [g_text fn_calls g_finish g_usage g_sent]. eexists _, k. by rewrite <- !app_assoc.
    + by exists ev, k.
Qed.

(** Events with one candidate each, and the response they are parts of. *)
Definition one_candidate (r : GeminiResponse) : Prop := ∃ c, candidates r = [c].
Definition parts_of (r : GeminiResponse) : list GeminiPart := concat (candidate_parts <$> candidates r).
Definition finish_of (r : GeminiResponse) : option str := head (candidates r) ≫= cand_finish.

Definition whole (rs : list GeminiResponse) : GeminiResponse :=
  mkGeminiResponse [mkCandidate (Some (mkContent (Some (lit "model")) (concat (parts_of <$> rs)))) (last (omap finish_of rs))]
    (last (omap usage_metadata rs)).

Lemma responses_effect a rs : Forall one_candidate rs → ∃ ev k,
  foldl on_response a rs =
  mkGAccum (g_text a ++ concat (omap part_text (concat (parts_of <$> rs)))) (fn_calls a ++ omap part_call (concat (parts_of <$> rs)))
    (match last (omap finish_of rs) with Some r => Some r | None => g_finish a end)
    (match last (omap usage_metadata rs) with Some u => u | None => g_usage a end) (g_sent a ++ ev) k.
Proof.
  intros Hr. revert a. induction Hr as [|r rs [c Ec] _ IH]; intros a.
  - exists [], (ids_made a). cbn. rewrite !app_nil_r. by destruct a.
  - cbn [foldl]. destruct (IH (on_response a r)) as (ev & k & ->).
    assert (parts_of r = candidate_parts c) as Ep by (unfold parts_of; rewrite Ec; cbn; apply app_nil_r).
    assert (finish_of r = cand_finish c) as Ef by (unfold finish_of; by rewrite Ec).
    rewrite fmap_cons. cbn [concat omap list_omap]. rewrite Ep, Ef.
    unfold on_response. rewrite Ec. cbn [foldl]. unfold on_candidate.
    match goal with |- context [foldl on_part ?b (candidate_parts c)] =>
      destruct (parts_effect b (candidate_parts c)) as (ev' & k' & ->) end.
    exists (ev' ++ ev), k. rewrite !omap_app, !concat_app.
    destruct (cand_finish c) as [fr|], (usage_metadata r) as [u|]; cbn [g_text fn_calls g_finish g_usage g_sent];
      rewrite ?last_cons, <- !app_assoc; f_equal; repeat case_match; naive_solver.
Qed.

Lemma convert_parts_spec n parts :
  concat (omap block_text (convert_parts n parts).1) = concat (omap part_text parts) ∧
  call_of <$> (convert_parts n parts).2 = omap part_call parts.
Proof.
  revert n. induction parts as [|p parts IH]; intros n; [done|]. destruct p as [t|m d|name args|name r]; cbn [convert_parts omap list_omap part_text part_call concat].
  - destruct (IH n) as [E1 E2]. destruct (convert_parts n parts) as [bs cs]. cbn [fst snd] in *. split; [|done].
    destruct t as [|x t]; cbn [is_empty omap list_omap block_text concat app]; [done|by rewrite E1].
  - apply IH.
  - destruct (IH (S n)) as [E1 E2]. destruct (convert_parts (S n) parts) as [bs cs]. cbn [fst snd] in *. split; [done|].
    rewrite fmap_cons. by rewrite E2.
  - apply IH.
Qed.

Lemma join_nil (l : list str) : join l [] = concat l.
Proof. induction l as [|x l IH]; [done|]. destruct l as [|y l]; cbn [join concat] in *; [by rewrite app_nil_r|by rewrite IH]. Qed.

Definition made_calls (n : nat) (fcs : list (str * Json)) : list (ToolCall Json) :=
  imap (λ k '(name, args), mkCall (new_call_id (n + k)) name args) fcs.

Lemma made_calls_of n fcs : call_of <$> made_calls n fcs = fcs.
Proof.
  unfold made_calls. rewrite fmap_imap. apply list_eq. intros i. rewrite list_lookup_imap.
  by destruct (fcs !! i) as [[name args]|].
Qed.

Lemma accum_text a : response_text (accum_response a) = g_text a.
Proof.
  unfold response_text, accum_response. cbn [resp_content]. rewrite join_nil, omap_app, concat_app.
  assert (∀ calls : list (ToolCall Json), omap block_text ((λ c, ToolUse (call_id c) (call_name c) (call_input c)) <$> calls) = []) as ->.
  { by induction calls. }
  rewrite app_nil_r. destruct (g_text a); [done|]. cbn. by rewrite app_nil_r.
Qed.

Definition final_reason (r : option str) : bool := is_reason r "STOP" || is_reason r "MAX_TOKENS" || is_reason r "SAFETY".

(** A streaming call gives the same text, calls and usage as a call that gets
    all parts at once, however the parts are spread over events and the events
    over chunks. The stop reasons agree as long as no function is called; with
    calls, a stream asks for the tools only if the API gives no final reason,
    and it always gives one. *)
Theorem gemini_stream_agrees resp chunks texts :
  reply_chunks resp = Ok <$> chunks → Forall valid_utf8 chunks → Forall (frameable event_end) texts →
  concat chunks = concat ((λ e, e ++ event_end) <$> texts) → Forall one_candidate (omap parse_event texts) →
  ∃ s c, (finish_stream resp).1 = Ok s ∧ convert_response (whole (omap parse_event texts)) = Ok c ∧
    response_text s = response_text c ∧ call_of <$> resp_tool_calls s = call_of <$> resp_tool_calls c ∧
    resp_usage s = resp_usage c ∧
    (resp_tool_calls c = [] → stop_reason s = stop_reason c) ∧
    (resp_tool_calls c ≠ [] → stop_reason c = StopToolUse ∧
       (stop_reason s = StopToolUse ↔ final_reason (last (omap finish_of (omap parse_event texts))) = false)).
Proof.
  intros Ec Hv Hf E Hone. unfold finish_stream. rewrite Ec.
  rewrite (read_body_framed event_end ltac:(done) on_event_text g_start chunks texts Hv Hf E).
  assert (foldl on_event_text g_start texts = foldl on_response g_start (omap parse_event texts)) as ->.
  { generalize g_start. clear. induction texts as [|t texts IH]; intros a; [done|]. cbn [foldl omap list_omap]. unfold on_event_text at 2.
    destruct (parse_event t); cbn [foldl]; apply IH. }
  revert Hone. generalize (omap parse_event texts) as rs. intros rs Hone.
  destruct (responses_effect g_start rs Hone) as (ev & k & ->). cbn [g_start g_text fn_calls g_finish g_usage g_sent app].
  unfold convert_response, whole. cbn [candidates candidate_parts cand_content cand_finish usage_metadata g_parts].
  pose proof (convert_parts_spec 0 (concat (parts_of <$> rs))) as [E1 E2].
  destruct (convert_parts 0 (concat (parts_of <$> rs))) as [content calls]. cbn [fst snd] in E1, E2.
  eexists _, _. split; [done|]. split; [done|]. rewrite accum_text. cbn [g_text].
  set (fcs := omap part_call (concat (parts_of <$> rs))) in *.
  assert (length calls = length fcs) as El by (by rewrite <- E2, length_fmap).
  split; [unfold response_text; cbn [resp_content]; by rewrite join_nil|].
  split; [cbn [resp_tool_calls]; rewrite E2; exact (made_calls_of k fcs)|].
  split; [cbn; by destruct (last (omap usage_metadata rs))|].
  cbn [resp_tool_calls stop_reason accum_response g_finish fn_calls ids_made]. rewrite length_imap, El.
  replace (match last (omap finish_of rs) with Some r => Some r | None => None end) with (last (omap finish_of rs)) by (by destruct (last _)).
  split.
  - intros ->. rewrite <- El. cbn. unfold is_reason. destruct (last (omap finish_of rs)) as [r|]; [|done].
    destruct (str_eqb r (lit "STOP")) eqn:E'; [apply str_eqb_spec in E' as ->; done|]. by destruct (str_eqb r (lit "MAX_TOKENS")), (str_eqb r (lit "SAFETY")).
  - intros Hn. rewrite bool_decide_eq_false_2 by (rewrite <- El; by intros ?%nil_length_inv). split; [done|].
    unfold final_reason. destruct (is_reason _ "STOP"), (is_reason _ "MAX_TOKENS"), (is_reason _ "SAFETY"); done.
Qed.
End driver.

(** ** A concrete stream *)

#[local] Instance demo_json : JsonText := {| to_string _ := lit "{}"; from_str _ := Err []; from_str_empty := eq_refl |}.

Definition demo_part (parts : list GeminiPart) (finish : option str) (usage : option TokenUsage) : GeminiResponse :=
  mkGeminiResponse [mkCandidate (Some (mkContent (Some (lit "model")) parts)) finish] usage.

Definition demo_parse (s : str) : result GeminiResponse str :=
  if str_eqb s (lit "1") then Ok (demo_part [GText (lit "Let me ")] None None)
  else if str_eqb s (lit "2") then Ok (demo_part [GText (lit "see."); GFunctionCall (lit "look") (JObj [])] (Some (lit "STOP")) (Some (mkUsage 4 6)))
  else Err (lit "expected value").

Definition demo_texts : list str := [lit "data: 1"; lit "data: 2"].
Definition demo_body : str := concat ((λ e, e ++ event_end) <$> demo_texts).
Definition demo_chunks : list str := [take 8 demo_body; drop 8 demo_body].

(** With a call of a tool, a stream ends the turn. *)
Lemma gemini_stream_agrees_witness :
  ∃ s c, (finish_stream (λ _, lit "0") demo_parse (mkReply 200 (Ok []) (Ok <$> demo_chunks))).1 = Ok s ∧
    convert_response (λ _, lit "0") (whole (omap (parse_event demo_parse) demo_texts)) = Ok c ∧
    response_text s = response_text c ∧ stop_reason s = EndTurn ∧ stop_reason c = StopToolUse.
Proof.
  destruct (gemini_stream_agrees (λ _, lit "0") demo_parse (mkReply 200 (Ok []) (Ok <$> demo_chunks)) demo_chunks demo_texts)
    as (s & c & E1 & E2 & E3 & _).
  - reflexivity.
  - repeat constructor; apply is_valid_utf8_ok; vm_compute; reflexivity.
  - repeat constructor; vm_compute; reflexivity.
  - vm_compute. reflexivity.
  - repeat constructor; by eexists.
  - exists s, c. split; [exact E1|]. split; [exact E2|]. split; [exact E3|].
    assert (stop_reason <$> Some s = Some EndTurn) as Hs.
    { change (Some s) with (match Ok s : result Response LlmError with Ok s => Some s | Err _ => None end). rewrite <- E1. vm_compute. reflexivity. }
    assert (stop_reason <$> Some c = Some StopToolUse) as Hc.
    { change (Some c) with (match Ok c : result Response LlmError with Ok c => Some c | Err _ => None end). rewrite <- E2. vm_compute. reflexivity. }
    injection Hs as ->. injection Hc as ->. done.
Defined.
