(* ===== verification/DriverFactory.v ===== *)
(** * Choosing a driver

    [openfang-runtime/src/drivers/mod.rs] makes the driver for a provider, and
    [drivers/copilot.rs] wraps the one for OpenAI with a token that is
    exchanged and kept. The environment, the clock and the exchange of tokens
    are parameters. *)

From Stdlib Require Import Ascii ZArith Lia.
From stdpp Require Import base gmap strings list.
From S2P Require Import Prelude Strs Floats Json Message TextToolCalls AgentQuota ProviderCall AgentLoop ModelCatalog ModelTables ModelRouter OpenAIDriver DriverHttp.

(** ** Providers *)

Record ProviderDefaults : Type := mkDefaults {
  default_base_url : str;
  default_key_env : str;
  default_key_required : bool
}.

Definition GITHUB_COPILOT_BASE_URL : string := "https://api.githubcopilot.com".

Definition defaults_table : list (list string * (string * string * bool)) :=
  [(["groq"], ("https://api.groq.com/openai/v1", "GROQ_API_KEY", true));
   (["openrouter"], ("https://openrouter.ai/api/v1", "OPENROUTER_API_KEY", true));
   (["deepseek"], ("https://api.deepseek.com/v1", "DEEPSEEK_API_KEY", true));
   (["together"], ("https://api.together.xyz/v1", "TOGETHER_API_KEY", true));
   (["mistral"], ("https://api.mistral.ai/v1", "MISTRAL_API_KEY", true));
   (["fireworks"], ("https://api.fireworks.ai/inference/v1", "FIREWORKS_API_KEY", true));
   (["openai"], ("https://api.openai.com/v1", "OPENAI_API_KEY", true));
   (["gemini"; "google"], ("https://generativelanguage.googleapis.com", "GEMINI_API_KEY", true));
   (["ollama"], ("http://localhost:11434/v1", "OLLAMA_API_KEY", false));
   (["vllm"], ("http://localhost:8000/v1", "VLLM_API_KEY", false));
   (["lmstudio"], ("http://localhost:1234/v1", "LMSTUDIO_API_KEY", false));
   (["perplexity"], ("https://api.perplexity.ai", "PERPLEXITY_API_KEY", true));
   (["cohere"], ("https://api.cohere.com/v2", "COHERE_API_KEY", true));
   (["ai21"], ("https://api.ai21.com/studio/v1", "AI21_API_KEY", true));
   (["cerebras"], ("https://api.cerebras.ai/v1", "CEREBRAS_API_KEY", true));
   (["sambanova"], ("https://api.sambanova.ai/v1", "SAMBANOVA_API_KEY", true));
   (["huggingface"], ("https://api-inference.huggingface.co/v1", "HF_API_KEY", true));
   (["xai"], ("https://api.x.ai/v1", "XAI_API_KEY", true));
   (["replicate"], ("https://api.replicate.com/v1", "REPLICATE_API_TOKEN", true));
   (["github-copilot"; "copilot"], (GITHUB_COPILOT_BASE_URL, "GITHUB_TOKEN", true));
   (["moonshot"; "kimi"], ("https://api.moonshot.cn/v1", "MOONSHOT_API_KEY", true));
   (["qwen"; "dashscope"], ("https://dashscope.aliyuncs.com/compatible-mode/v1", "DASHSCOPE_API_KEY", true));
   (["minimax"], ("https://api.minimax.chat/v1", "MINIMAX_API_KEY", true));
   (["zhipu"; "glm"], ("https://open.bigmodel.cn/api/paas/v4", "ZHIPU_API_KEY", true));
   (["qianfan"; "baidu"], ("https://qianfan.baidubce.com/v2", "QIANFAN_API_KEY", true))]%string.

Definition provider_is (provider : str) (names : list string) : bool := existsb (λ n, str_eqb provider (lit n)) names.

Definition provider_defaults (provider : str) : option ProviderDefaults :=
  match List.find (λ row, provider_is provider row.1) defaults_table with
  | Some (_, (url, env, required)) => Some (mkDefaults (lit url) (lit env) required)
  | None => None
  end.

(** A driver is which API it speaks, its key and where it sends requests. The
    driver for Copilot does not keep the address it is given. *)
Inductive Driver : Type :=
| DAnthropic (api_key base_url : str)
| DGemini (api_key base_url : str)
| DCopilot (github_token : str)
| DOpenAI (api_key base_url : str).

Definition unknown_text (provider : str) : str :=
  lit "Unknown provider '" ++ provider ++ lit "'. Supported: anthropic, gemini, openai, groq, openrouter, deepseek, together, mistral, fireworks, ollama, vllm, lmstudio, perplexity, cohere, ai21, cerebras, sambanova, huggingface, xai, replicate, github-copilot. Or set base_url for a custom OpenAI-compatible endpoint.".

Section factory.
Context (var : str → option str).

Definition or_var (key : option str) (env : string) : option str :=
  match key with Some k => Some k | None => var (lit env) end.

Definition create_driver (config : DriverConfig) : result Driver LlmError :=
  let p := driver_provider config in
  let url default_url := default (lit default_url) (driver_base_url config) in
  if str_eqb p (lit "anthropic") then
    match or_var (driver_api_key config) "ANTHROPIC_API_KEY" with
    | Some key => Ok (DAnthropic key (url "https://api.anthropic.com"))
    | None => Err (MissingApiKey (lit "Set ANTHROPIC_API_KEY environment variable"))
    end
  else if provider_is p ["gemini"; "google"] then
    match or_var (or_var (driver_api_key config) "GEMINI_API_KEY") "GOOGLE_API_KEY" with
    | Some key => Ok (DGemini key (url "https://generativelanguage.googleapis.com"))
    | None => Err (MissingApiKey (lit "Set GEMINI_API_KEY or GOOGLE_API_KEY environment variable"))
    end
  else if provider_is p ["github-copilot"; "copilot"] then
    match or_var (driver_api_key config) "GITHUB_TOKEN" with
    | Some token => Ok (DCopilot token)
    | None => Err (MissingApiKey (lit "Set GITHUB_TOKEN environment variable for GitHub Copilot"))
    end
  else
    match provider_defaults p with
    | Some d =>
        let key := default [] (match driver_api_key config with Some k => Some k | None => var (default_key_env d) end) in
        if default_key_required d && is_empty key
        then Err (MissingApiKey (lit "Set " ++ default_key_env d ++ lit " environment variable for provider '" ++ p ++ lit "'"))
        else Ok (DOpenAI key (default (default_base_url d) (driver_base_url config)))
    | None =>
        match driver_base_url config with
        | Some base_url => Ok (DOpenAI (default [] (driver_api_key config)) base_url)
        | None => Err (Api 0 (unknown_text p))
        end
    end.
End factory.

Definition known_providers : list string :=
  ["anthropic"; "gemini"; "openai"; "groq"; "openrouter"; "deepseek"; "together"; "mistral"; "fireworks"; "ollama"; "vllm";
   "lmstudio"; "perplexity"; "cohere"; "ai21"; "cerebras"; "sambanova"; "huggingface"; "xai"; "replicate"; "github-copilot";
   "moonshot"; "qwen"; "minimax"; "zhipu"; "qianfan"]%string.

(** Where requests are sent; for Copilot the token says. *)
Definition driver_url (d : Driver) : option str :=
  match d with DAnthropic _ u | DGemini _ u | DOpenAI _ u => Some u | DCopilot _ => None end.
Definition driver_key (d : Driver) : str :=
  match d with DAnthropic k _ | DGemini k _ | DOpenAI k _ => k | DCopilot t => t end.

(** ** Agreement with the catalogue *)

Definition agrees (p : ProviderInfo) : bool :=
  match (if str_eqb (provider_id p) (lit "anthropic")
         then Some (mkDefaults (lit "https://api.anthropic.com") (lit "ANTHROPIC_API_KEY") true) else provider_defaults (provider_id p)) with
  | Some d => str_eqb (default_base_url d) (ModelCatalog.base_url p) && str_eqb (default_key_env d) (ModelCatalog.api_key_env p)
              && Bool.eqb (default_key_required d) (key_required p)
  | None => false
  end.

Definition supported (p : ProviderInfo) : bool := negb (str_eqb (provider_id p) (lit "bedrock")).

Lemma catalogue_agrees : forallb agrees (List.filter supported builtin_providers) = true.
Proof. vm_compute. reflexivity. Qed.

Lemma catalogue_supported : forallb (λ p, provider_is (provider_id p) known_providers) (List.filter supported builtin_providers) = true.
Proof. vm_compute. reflexivity. Qed.

Lemma agrees_spec d p :
  str_eqb (default_base_url d) (ModelCatalog.base_url p) && str_eqb (default_key_env d) (ModelCatalog.api_key_env p)
    && Bool.eqb (default_key_required d) (key_required p) = true →
  default_base_url d = ModelCatalog.base_url p ∧ default_key_env d = ModelCatalog.api_key_env p ∧ default_key_required d = key_required p.
Proof. by intros [[->%str_eqb_spec ->%str_eqb_spec]%andb_true_iff ->%eqb_prop]%andb_true_iff. Qed.

Lemma is_either n a b : provider_is n [a; b] = true → n = lit a ∨ n = lit b.
Proof. unfold provider_is. cbn [existsb]. rewrite orb_false_r, orb_true_iff, !str_eqb_spec. done. Qed.

Lemma created_for var p url :
  p ∈ builtin_providers → provider_id p ≠ lit "bedrock" →
  (∀ key, key ≠ [] → ∃ d, create_driver var (mkDriverConfig (provider_id p) (Some key) url) = Ok d ∧ driver_key d = key ∧
     (∀ u, driver_url d = Some u → u = default (ModelCatalog.base_url p) url)) ∧
  ((∀ env, var env = None) → is_ok (create_driver var (mkDriverConfig (provider_id p) None url)) = negb (key_required p)).
Proof.
  intros Hin Hb.
  assert (p ∈ List.filter supported builtin_providers) as Hp.
  { apply list_elem_of_In, filter_In. split; [by apply list_elem_of_In|]. unfold supported, str_eqb. by rewrite bool_decide_eq_false_2. }
  pose proof catalogue_agrees as Ha. rewrite forallb_forall in Ha. specialize (Ha p (proj1 (list_elem_of_In _ _) Hp)).
  clear Hin Hp. unfold agrees in Ha. unfold create_driver. cbn [driver_provider driver_api_key driver_base_url or_var].
  revert Ha Hb. generalize (provider_id p) as n. intros n Ha Hb.
  destruct (str_eqb n (lit "anthropic")) eqn:E1.
  { apply agrees_spec in Ha as (<- & _ & <-). split; [|intros Hv; unfold or_var; by rewrite Hv].
    intros key _. eexists. split; [done|]. split; [done|]. by intros u [= <-]. }
  destruct (provider_is n ["gemini"; "google"]) eqn:E2.
  { assert (provider_defaults n = provider_defaults (lit "gemini")) as Hd by (apply is_either in E2 as [->| ->]; reflexivity).
    rewrite Hd in Ha. apply agrees_spec in Ha as (<- & _ & <-). split; [|intros Hv; unfold or_var; by rewrite !Hv].
    intros key _. eexists. split; [done|]. split; [done|]. by intros u [= <-]. }
  destruct (provider_is n ["github-copilot"; "copilot"]) eqn:E3.
  { assert (provider_defaults n = provider_defaults (lit "copilot")) as Hd by (apply is_either in E3 as [->| ->]; reflexivity).
    rewrite Hd in Ha. apply agrees_spec in Ha as (_ & _ & <-). split; [|intros Hv; unfold or_var; by rewrite !Hv].
    intros key _. eexists. split; [done|]. split; [done|]. by intros u [=]. }
  destruct (provider_defaults n) as [d|]; [|done]. apply agrees_spec in Ha as (<- & _ & <-). split.
  - intros key Hk. cbn [from_option Datatypes.id]. destruct key as [|x key]; [done|]. cbn [is_empty]. rewrite andb_false_r.
    eexists. split; [done|]. split; [done|]. by intros u [= <-].
  - intros Hv. rewrite Hv. cbn [from_option Datatypes.id is_empty]. rewrite andb_true_r. by destruct (default_key_required d).
Qed.

(** With a key, a driver is made for every provider of the catalogue but one,
    and it sends the key to the address that the configuration or the
    catalogue gives; without a key, exactly if the catalogue wants none. *)
Theorem catalogue_drivers var p url :
  p ∈ builtin_providers → provider_id p ≠ lit "bedrock" →
  (∀ key, key ≠ [] → ∃ d, create_driver var (mkDriverConfig (provider_id p) (Some key) url) = Ok d ∧ driver_key d = key ∧
     (∀ u, driver_url d = Some u → u = default (ModelCatalog.base_url p) url)) ∧
  ((∀ env, var env = None) → is_ok (create_driver var (mkDriverConfig (provider_id p) None url)) = negb (key_required p)).
Proof. apply created_for. Qed.

(** One provider of the catalogue has no driver. *)
Example bedrock_unsupported :
  (lit "bedrock" ∈ provider_id <$> builtin_providers) ∧
  create_driver (λ _, Some (lit "key")) (mkDriverConfig (lit "bedrock") None None) = Err (Api 0 (unknown_text (lit "bedrock"))).
Proof. split; [refine (bool_decide_unpack _ _); vm_compute; exact I|reflexivity]. Qed.

(** ** The key of another provider

    The kernel makes the driver of an agent with [create_driver]. *)

Definition created (var : str → option str) (config : DriverConfig) : result Driver str :=
  match create_driver var config with Ok d => Ok d | Err e => Err (llm_error_to_string e) end.

(** An agent that names another provider than the default one, and no variable
    for its key, gets a driver with the key of the default provider, which is
    sent to the other one. *)
Theorem default_key_sent_elsewhere var default_provider default_env default_driver profiles p m key :
  p ∈ builtin_providers → provider_id p ≠ lit "bedrock" →
  AgentTypes.provider m = provider_id p → provider_id p ≠ default_provider → AgentTypes.api_key_env m = None →
  profiles !! provider_id p = None → var default_env = Some key → key ≠ [] →
  ∃ d, primary_driver (created var) var default_provider default_env default_driver profiles m = Ok d ∧ driver_key d = key ∧
    ∀ u, driver_url d = Some u → u = default (ModelCatalog.base_url p) (AgentTypes.base_url m).
Proof.
  intros Hin Hb Hm Hd Ha Hp Hv Hk. unfold primary_driver. rewrite Hm, Ha.
  assert (str_eqb (provider_id p) default_provider = false) as -> by (unfold str_eqb; by apply bool_decide_eq_false). cbn [andb].
  unfold key_env. rewrite Hp. cbn [from_option Datatypes.id]. rewrite Hv. unfold created.
  destruct (created_for var p (AgentTypes.base_url m) Hin Hb) as [Hc _]. destruct (Hc key Hk) as (d & -> & E1 & E2). by exists d.
Qed.

(** ** GitHub Copilot *)

Definition REFRESH_BUFFER_SECS : Z := 300.

Record CachedToken : Type := mkToken { token : str; expires_at : Z; token_url : str }.

Definition is_valid (t : CachedToken) (now : Z) : bool := (now + REFRESH_BUFFER_SECS <? expires_at t)%Z.

Definition get_token (cached : option CachedToken) (now : Z) : option CachedToken :=
  match cached with Some t => if is_valid t now then Some t else None | None => None end.

Definition proxy_segment (found : option str) (segment : str) : option str :=
  match strip_prefix (trim segment) (lit "proxy-ep=") with Some url => Some url | None => found end.

Definition parse_copilot_token (raw : str) : str * option str :=
  (raw, foldl proxy_segment None (split raw ";"%char)).

Definition as_i64 (v : Json) : option Z :=
  match v with JNum n => if (-9223372036854775808 <=? n)%Z && (n <=? 9223372036854775807)%Z then Some n else None | _ => None end.

(** What GitHub answers: an error of the client, or a status with the text and
    the JSON of the body. *)
Record Exchange : Type := mkExchange { ex_status : Z; ex_text : str; ex_json : result Json str }.

Definition secure_url (base_url : str) : str :=
  if starts_with base_url (lit "https://") then base_url else lit GITHUB_COPILOT_BASE_URL.

Definition exchange_copilot_token (answer : result Exchange str) (now_unix now : Z) : result CachedToken str :=
  match answer with
  | Err e => Err (lit "Copilot token exchange failed: " ++ e)
  | Ok ex =>
      if negb ((200 <=? ex_status ex) && (ex_status ex <=? 299))%Z
      then Err (lit "Copilot token exchange returned " ++ show_Z (ex_status ex) ++ lit ": " ++ ex_text ex)
      else
        match ex_json ex with
        | Err e => Err (lit "Failed to parse Copilot token response: " ++ e)
        | Ok body =>
            match get body (lit "token") ≫= as_str with
            | None => Err (lit "Missing 'token' field in Copilot response")
            | Some raw_token =>
                let expires_at_unix := default 0%Z (get body (lit "expires_at") ≫= as_i64) in
                let ttl_secs := Z.max (expires_at_unix - now_unix) 60 in
                let base_url := default (lit GITHUB_COPILOT_BASE_URL) (parse_copilot_token raw_token).2 in
                Ok (mkToken raw_token (now + ttl_secs)
                      (secure_url base_url))
            end
        end
  end.

(** The cache afterwards, and the token. *)
Definition ensure_token (cached : option CachedToken) (answer : result Exchange str) (now_unix now : Z)
    : option CachedToken * result CachedToken LlmError :=
  match get_token cached now with
  | Some t => (cached, Ok t)
  | None =>
      match exchange_copilot_token answer now_unix now with
      | Ok t => (Some t, Ok t)
      | Err e => (cached, Err (Api 401 (lit "Copilot token exchange failed: " ++ e)))
      end
  end.

Definition make_inner_driver (t : CachedToken) : Driver :=
  DOpenAI (token t) (if is_empty (token_url t) then lit GITHUB_COPILOT_BASE_URL else token_url t).

(** Calls one after the other, at [now], with what GitHub would answer. *)
Fixpoint copilot_calls (cached : option CachedToken) (calls : list (result Exchange str * Z * Z)) : list (Z * result Driver LlmError) :=
  match calls with
  | [] => []
  | (answer, now_unix, now) :: calls =>
      let '(cached, t) := ensure_token cached answer now_unix now in
      (now, match t with Ok t => Ok (make_inner_driver t) | Err e => Err e end) :: copilot_calls cached calls
  end.

Definition over_https (t : CachedToken) : Prop := starts_with (token_url t) (lit "https://") = true.

Lemma secure_https u : starts_with (secure_url u) (lit "https://") = true.
Proof. unfold secure_url. destruct (starts_with u (lit "https://")) eqn:E; [done|reflexivity]. Qed.

Lemma exchanged_https answer now_unix now t : exchange_copilot_token answer now_unix now = Ok t → over_https t.
Proof.
  unfold exchange_copilot_token. destruct answer as [ex|e]; [|done]. destruct (negb _); [done|]. destruct (ex_json ex) as [body|e]; [|done].
  destruct (get body (lit "token") ≫= as_str) as [raw|]; [|done]. intros [= <-]. apply secure_https.
Qed.

(** Whatever GitHub answers, tokens are sent over HTTPS only. *)
Theorem copilot_over_https calls now d :
  (now, Ok d) ∈ copilot_calls None calls → ∃ t url, d = DOpenAI t url ∧ starts_with url (lit "https://") = true.
Proof.
  assert (∀ cached, (∀ t, cached = Some t → over_https t) → (now, Ok d) ∈ copilot_calls cached calls →
    ∃ t url, d = DOpenAI t url ∧ starts_with url (lit "https://") = true) as Hc; [|by apply Hc].
  induction calls as [|[[answer now_unix] now'] calls IH]; intros cached Hc; cbn [copilot_calls]; [by intros ?%elem_of_nil|].
  assert (∀ cached' r, ensure_token cached answer now_unix now' = (cached', r) →
    (∀ t, cached' = Some t → over_https t) ∧ ∀ t, r = Ok t → over_https t) as He.
  { intros cached' r. unfold ensure_token. destruct (get_token cached now') as [t|] eqn:Eg.
    - intros [= <- <-]. split; [done|]. intros t' [= <-]. apply Hc. unfold get_token in Eg. destruct cached as [t'|]; [|done].
      destruct (is_valid t' now'); congruence.
    - destruct (exchange_copilot_token answer now_unix now') as [t|e] eqn:Ex; intros [= <- <-].
      + apply exchanged_https in Ex. split; intros t' [= <-]; done.
      + split; [done|]. by intros t' [=]. }
  destruct (ensure_token cached answer now_unix now') as [cached' r] eqn:E. destruct (He _ _ eq_refl) as [H1 H2].
  intros [Hd|Hd]%elem_of_cons; [|by apply (IH cached')]. injection Hd as _ Hd. destruct r as [t|e]; [|done]. injection Hd as ->.
  specialize (H2 t eq_refl). unfold make_inner_driver. eexists _, _. split; [done|].
  destruct (token_url t) as [|x u] eqn:Eu; [reflexivity|]. unfold over_https in H2. by rewrite Eu in H2.
Qed.

(** ** Witnesses *)

Definition demo_provider : ProviderInfo :=
  service "openai" "OpenAI" "OPENAI_API_KEY" "https://api.openai.com/v1" true Missing 0.

Lemma demo_provider_in : demo_provider ∈ builtin_providers.
Proof. right. left. Qed.

Lemma catalogue_drivers_witness :
  is_ok (create_driver (λ _, None) (mkDriverConfig (provider_id demo_provider) None None)) = false.
Proof. exact (proj2 (catalogue_drivers (λ _, None) demo_provider None demo_provider_in ltac:(done)) (λ _, eq_refl)). Defined.

Definition demo_var (env : str) : option str := if str_eqb env (lit "ANTHROPIC_API_KEY") then Some (lit "sk-ant-secret") else None.

Definition demo_model : AgentTypes.ModelConfig :=
  AgentTypes.mkModel (lit "openai") (lit "gpt-4o") 4096 (SpecFloat.S754_zero false) [] None None.

Lemma default_key_sent_elsewhere_witness :
  ∃ d, primary_driver (created demo_var) demo_var (lit "anthropic") (lit "ANTHROPIC_API_KEY") (DAnthropic [] []) ∅ demo_model = Ok d ∧
    driver_key d = lit "sk-ant-secret" ∧ driver_url d = Some (lit "https://api.openai.com/v1").
Proof.
  destruct (default_key_sent_elsewhere demo_var (lit "anthropic") (lit "ANTHROPIC_API_KEY") (DAnthropic [] []) ∅ demo_provider demo_model
              (lit "sk-ant-secret") demo_provider_in ltac:(done) eq_refl ltac:(done) eq_refl eq_refl eq_refl ltac:(done)) as (d & E & Hk & _).
  exists d. split; [exact E|]. split; [exact Hk|]. vm_compute in E. injection E as <-. reflexivity.
Defined.

Definition demo_token : Json :=
  JObj [(lit "token", JStr (lit "tid=1;proxy-ep=http://proxy.example.com")); (lit "expires_at", JNum 1000)].

Lemma copilot_over_https_witness :
  ∃ t url, DOpenAI (lit "tid=1;proxy-ep=http://proxy.example.com") (lit GITHUB_COPILOT_BASE_URL) = DOpenAI t url ∧
    starts_with url (lit "https://") = true.
Proof.
  refine (copilot_over_https [(Ok (mkExchange 200 [] (Ok demo_token)), 100%Z, 0%Z)] 0 _ _).
  vm_compute. left.
Defined.
